(* ===== verification/_CoqProject ===== *)
-Q . S2P
Prelude.v
GoStrings.v
Lines.v
Paths.v
Engine.v
Slug.v
Template.v
SnapshotKey.v
SnapshotStore.v
SnapshotGC.v
Ports.v
BranchStore.v
BranchSwap.v
BranchSafety.v
BranchDemo.v
BranchHistory.v
BranchReap.v
Prewarm.v
DaemonState.v
Plan.v
Registry.v
WtReg.v
Git.v
GitDemo.v
BaseRef.v
BranchPrune.v
EventLog.v
WtDelete.v
Hooks.v
Finalize.v
Teardown.v
AutoFetch.v
YamlPatch.v
PatchFilter.v
PatchInPlace.v
Owned.v
HashCache.v
TemplateBuild.v
TemplateSafety.v
TemplateDemo.v
TemplateHistory.v
InputKeys.v
DumpSplit.v
DumpScript.v
DumpLoad.v
EnvFile.v
BuildFlights.v
ConfigValid.v
FileEngine.v
WtFiles.v
ConfigLoad.v
ConfigCache.v
Watcher.v
