(* ===== verification/Prelude.v ===== *)
(** * Verification of treeman

    treeman keeps a separate environment for every git worktree of a
    repository: a slug, network ports, patched configuration files, and
    databases.  A background daemon ([treemand]) prepares the databases and
    keeps the registry of worktrees in SQLite.  This library models the logic
    that decides what is created, reused, overwritten and dropped, and proves
    what that logic promises.  The definitions are translated from the Go code
    under [src/], mostly from [src/internal/]; paths below are relative to it.

    ** The parts, and how they meet

    A _configuration_ is layered from several files ([ConfigLoad]), checked
    ([ConfigValid]) and kept while the files stay the same ([ConfigCache]).  A
    worktree gets a _slug_ ([Slug]), _port slots_ ([Ports]) and a row in the
    _registry_ ([Registry], reconciled with git by [WtReg]).  Names and
    settings are written as templates over the slug ([Template]), and the
    patch filter ([PatchFilter], [PatchInPlace], over the tree edits of
    [YamlPatch]) puts the rendered values into the files of the worktree
    without git noticing; the reader of environment files ([EnvFile]) reads
    them back.

    A database is prepared in one of two ways.  One that follows the branch
    ([BranchSwap], over the tables of [BranchStore]) has an active namespace
    whose data is swapped with durable copies when the branch changes.  One
    that is built from migrations ([TemplateBuild]) is copied from a template
    named by the digest of its inputs: the files are hashed through a cache
    ([HashCache]), folded into a key and the vectors that find its ancestors
    ([InputKeys], [SnapshotKey]), and the rows of the templates are kept,
    searched, pinned and evicted by [SnapshotStore] and [SnapshotGC].
    [BuildFlights] lets one worktree wait for the build of another;
    [DumpSplit] and [DumpLoad] load a dump; [Owned] finds the clones again at
    teardown.  A restore may rename a spare copy made ahead of time instead of
    copying ([Prewarm]), and a new branch is seeded from the database of its
    base branch, which the history of the repository gives ([BaseRef], over
    the git commands of [Git]).  Databases that are files have their own
    engine ([FileEngine]).

    The daemon runs submitted _plans_ ([Plan]), keeps concurrent work apart
    ([DaemonState]), watches the inputs of the databases ([Watcher]), fetches in
    the background ([AutoFetch]), deletes local
    branches whose work has been merged ([BranchPrune]) and writes the event
    log that the state of a worktree is read from ([EventLog]).  A worktree
    shares files with the repository ([WtFiles]) and is made ready by a
    _finalize_ ([Finalize]): its files and patches, its hooks ([Hooks]), its
    databases.  It is deleted under guards and with a teardown that can be
    resumed, in the caller ([WtDelete]) or in the daemon ([Teardown]).

    ** The files

    - [Prelude]: results, case analysis, association lists, sums, sorting,
      ranks and filters; [GoStrings] and [Lines]: Go's string functions;
      [Paths]: [path/filepath].
    - [ConfigLoad]: the layers of [config/config.go].  [ConfigValid]:
      [config/validate.go], [connections.go].  [ConfigCache]:
      [resolve/cache.go].
    - [Engine]: [engine/engine.go] and [db/ident/ident.go] (Modules [Engine],
      [Ident]).  [Slug]: [slug/slug.go].  [Template]: [template/template.go]
      and [ExpandVars] of [envfile/envfile.go].
    - [SnapshotKey]: [snapshot/snapshot.go], the names of
      [snapshot/prewarm.go].  [SnapshotStore]: [store/snapshots.go].
      [SnapshotGC]: [snapshot/gc.go], [orphans.go], [pin.go].
    - [Ports]: [store/worktree_ports.go] and [ports/ports.go].
    - [BranchStore]: [store/active_branch.go], [branch_durables.go],
      [branch_migrated.go], [template_built.go].  [BranchSwap]:
      [prepare/branchstate.go], [retry.go]; [BranchSafety] and
      [BranchHistory] have its theorems, [BranchDemo] an engine for them.
      [BranchReap]: [prepare/branchreap.go].  [Prewarm]:
      [prepare/prewarm.go].
    - [Git]: the commands of [gitcmd/], [gitenv/] and the reading of HEAD, with
      what git documents of its history; [GitDemo] is a small repository.
      [BaseRef]: [prepare/baseref.go], [config/main_worktree_overlay.go].
      [BranchPrune]: [daemon/branchprune.go].
    - [DaemonState]: [daemon/state.go] (Modules [Flight], [Locks] and the
      watcher registries).  [Watcher]: [watcher/watcher.go].  [Plan]: [daemon/plan.go] and
      [store/config_generations.go].  [AutoFetch]: [daemon/autofetch.go].
      [EventLog]: [store/events.go], [worktree_state.go] and the batcher of
      [store/store.go].
    - [Registry]: the repos and worktrees of [store/store.go] and
      [teardown_pending.go].  [WtReg]: [wtreg/wtreg.go].  [WtDelete]:
      [wt/delete.go], [lookup.go], [inuse.go] and [procuse/procuse.go].
      [WtFiles]: [wt/exclude.go] and parts of [wt/files.go].
    - [Hooks]: [hooks/hooks.go], [persist.go].  [Finalize]:
      [daemon/finalize.go], [stale_finalize.go], [hook_summary.go] and
      [wt/finalize.go].  [Teardown]: [TeardownWorktree] of
      [daemon/finalize.go], [reap.go], [interrupted_teardown.go].
    - [YamlPatch]: [yamlpatch/yamlpatch.go].  [PatchFilter], [PatchInPlace]:
      [patcher/].  [EnvFile]: [envfile/envfile.go], part of
      [resolve/resolve.go].
    - [Owned]: [prepare/owned.go].  [TemplateBuild]: [prepare/prepare.go],
      [recover.go]; [TemplateSafety] and [TemplateHistory] have its theorems,
      [TemplateDemo] a server for them.  [BuildFlights]: the flights of
      [prepare/prepare.go].
    - [HashCache]: [store/hashes.go].  [InputKeys]: the keys of
      [prepare/prepare.go].  [DumpSplit], [DumpScript], [DumpLoad]:
      [db/dumpload/].  [FileEngine]: [db/filedb/filedb.go],
      [db/engineconn/fileconn.go] and the file engine of [prepare/prepare.go].

    ** How the code is modelled

    A Go struct is a Record, an enumeration an Inductive, a map a [gmap], a
    table of the store the list of its rows or a map by its key.  An operation
    that can fail returns [res], which keeps the identity of the error.  Code
    that calls an engine, git, the file system or a clock is a function of
    that party: a type class with its documented behaviour as laws
    ([SnapshotGC.EngineConn], [BranchSwap.NsDriver], [TemplateBuild.TplDriver],
    [DumpLoad.Server]) or an argument.  Faults are part of the models: a call
    may fail at any time, and in the prepares of [BranchSwap] and
    [TemplateBuild] the process may die between any two calls.  Where several
    prepares or processes share a table, each call is an interval in which the
    others act: an arbitrary change within a stated guarantee ([Ports],
    [TemplateSafety]), or the steps of the others in any order ([BuildFlights],
    [DaemonState.Locks], [EventLog.Batch]).

    Loops without a structural measure run on fuel, and each has a lemma that
    its fuel suffices: the lexer of [DumpSplit] and the scanner of [Template]
    consume a byte a step, so the length of the text is enough
    ([DumpSplit.next_loop_fuel], [stream_fuel]); the searches of [Ports] and
    [SnapshotStore] are bounded by their tables; retries carry the code's own
    bound; includes nest no deeper than there are files
    ([ConfigLoad.merge_terminates]).  [BuildFlights] has no fuel: its runs are proved finite.

    ** What is proved

    - No data loss: a branch switch does not lose the data of the branch that
      is left ([BranchHistory.switch_never_loses], [switch_back_restores],
      [teardown_keeps_data], [broken_migrations_keep_durable]), whatever fails
      and wherever the process dies, while nobody else writes to the databases
      and as long as a marker that says clean is right; it is, by
      [clean_marker_mirrors], in histories where a failed copy leaves no torn
      target and the application does not write during an operation.
    - Right data: a prepare that succeeds delivers a full build of its inputs
      ([TemplateHistory.prepared_matches_inputs]) and the snapshot rows are
      true ([template_rows_true]), when the user's migrations are consistent
      with each other and a failed copy into the dump-only template leaves
      nothing torn; [TemplateSafety.Setting] and [Rely] list what is assumed,
      and the Examples show what happens without it.  What these assume of a
      key,
      [InputKeys.key_determines_inputs] and [SnapshotKey.Fingerprint_injective]
      prove, with the freshness of the hashes from [HashCache.hashes_fresh];
      [key_worktree_independent] is why templates are shared.  A loaded dump
      was applied whole and once ([DumpLoad.load_whole_dump]) and was cut into
      the right statements ([DumpScript.split_script]).
    - Sweeps drop only what is theirs: [SnapshotGC.evictCandidates_safe],
      [PurgeRepo_outcome], [PruneRowOrphans_safe], [Owned.owned_clones],
      [BranchReap.orphans_reaped], [untracked_reaps],
      [WtReg.pending_teardown_safe], [BranchPrune.prune_safe],
      [WtFiles.removal_confined]; topping up the spares touches nothing but
      spares ([Prewarm.replenish_pool]).
    - Deleting a worktree: the name means one worktree
      ([WtDelete.lookup_ranks]), the main one and those in use are refused
      ([delete_guarded], [Descends_exact]), and wherever the teardown stops it
      is resumed or can be seen, from the moment on at which its start is
      committed ([teardown_resumable], [tearing_down_latest],
      [Teardown.daemon_teardown_resumable], [resumed_teardown_settles]).
    - Making it ready: how a finalize ends, wherever it fails or is cancelled
      ([Finalize.finalize_ends], [watch_prepare_ends], [local_finalize_ends]),
      and what the next daemon makes of a run that did not end
      ([sweep_clears_preparing]).  The shell reads of a hook what was
      configured ([Hooks.rendered_action_reads_back]), its groups are started
      and awaited ([phase_started_exact]), and a failure leads to its log
      ([failure_points_at_its_row]).
    - The right source: the base of a branch is the nearest one its history
      has ([BaseRef.nearest_base]), and its data comes from a worktree that is
      on it ([BaseRef.seed_source]).
    - Configuration: the value of a setting is that of the last layer that
      gives it ([ConfigLoad.LoadLayeredForWorktree_exact], [layered_value],
      [fragmentPaths_exact]), includes end and have no cycles
      ([merge_terminates], [include_cycles]), and the cache gives what was
      loaded when the stamped files had the times that they have now
      ([ConfigCache.cached_load_fresh]).  A
      configuration that passed renders everywhere, and keeps worktrees apart
      ([ConfigValid.valid_config_renders], [valid_namespaces_distinct],
      [main_namespace_bare], [redis_window_bounded]).
    - Files as databases stay below their directory
      ([FileEngine.source_path_confined], [valid_file_placed]); a drop takes
      the family and nothing else ([family_dropped]), and a restore is exact
      ([restore_exact]).
    - Well-formed state: [Registry.registry_wf], [WtReg.keyed_calls],
      [Slug.slug_wellformed]; what an operation leaves on every branch:
      [Ports.Allocate_outcome], [Registry.EnsureWorktree_registers],
      [WtReg.Repair_reconciles], [SnapshotStore.FindRollbackAncestor_best].
    - Files: cleaning undoes smudging, byte for byte but for two cases that
      are given ([PatchFilter.Clean_Smudge], [PatchInPlace.Clean_Smudge_in_place]), an
      edit changes its path alone ([YamlPatch.Set_edits]), and the reader gets
      what the filter wrote when it needs no quotes
      ([EnvFile.patched_env_reads_back]).
    - No change is missed: the directories of the inputs are watched but for
      those that the watcher leaves out, noise and links
      ([Watcher.inputs_watched], [created_subtree_queued]), and a burst is
      dispatched whole and once ([Watcher.window_exact], [classify_exact]).
    - Concurrency: the registers of the daemon refine a simpler state
      ([DaemonState.Flight.state_refines_spec]), locks exclude
      ([keyed_locks_exclusive]), no spare is used twice
      ([Prewarm.spares_claimed_once]), waits end ([WaitFinalizeCleared_terminates],
      [BuildFlights.every_prepare_returns]), events are neither lost nor
      doubled ([EventLog.Batch.batch_keeps_events]), and plans report what
      happened ([Plan.Exec.plan_outcome]).

    Every theorem with hypotheses is followed by a witness that applies it at a
    concrete input.  Where the code falls short of its intent an [Example]
    shows a run that does ([BranchHistory], [TemplateHistory], [DumpScript],
    [DumpLoad], [EnvFile], [BuildFlights], [InputKeys], [BranchReap],
    [BranchPrune], [ConfigLoad], [ConfigCache], [ConfigValid],
    [FileEngine], [Watcher], [WtDelete], [WtFiles], [Hooks], [Finalize],
    [Teardown]).

    ** Not modelled

    The command line, the MCP server and the texts they print; sockets,
    processes and signals; the drivers of the engines, which are third-party clients
    behind the type classes; git, which is run and whose answers are
    arguments; decoding of YAML, JSON, TOML and SQL by libraries; the opening of
    SQLite and its migrations.  Of a run of [Finalize] the prepare itself is
    only what it reports: [BranchSwap] and [TemplateBuild] model it, for one
    database at a time.  The creation of a worktree ([wt/create.go]), the
    known migration frameworks and the copying of file trees are sequences of
    git, process and file-system calls and are left out, as are the dispatch of
    requests and the debounce timers of the watchers of HEAD. *)
From stdpp Require Import base strings list gmap pretty sorting.
From Stdlib Require Import ZArith Lia.

Declare Scope treeman_scope.
Delimit Scope treeman_scope with treeman.

(** ** Results: a Go [(T, error)] pair, with the error's identity kept *)
Inductive res (E A : Type) :=
| Ok (a : A)
| Err (e : E).
Arguments Ok {E A} a.
Arguments Err {E A} e.

Definition res_bind {E A B} (m : res E A) (k : A -> res E B) : res E B :=
  match m with Ok a => k a | Err e => Err e end.

Definition is_ok {E A} (m : res E A) : bool :=
  match m with Ok _ => true | Err _ => false end.

Notation "'let?' x := m 'in' k" := (res_bind m (fun x => k))
  (at level 10, x pattern, m at level 100, k at level 200)
  : treeman_scope.

Lemma res_bind_ok {E A B} (m : res E A) (k : A -> res E B) b :
  res_bind m k = Ok b <-> exists a, m = Ok a /\ k a = Ok b.
Proof. destruct m; naive_solver. Qed.

Lemma is_ok_spec {E A} (m : res E A) : is_ok m = true <-> exists a, m = Ok a.
Proof. destruct m; naive_solver. Qed.

(** ** Case analysis on the program's tests *)

Create HintDb treeman.

(** Destruct the innermost scrutinee of a [match] or [if] of the goal. *)
Ltac case_goal :=
  match goal with
  | |- context [ match ?x with _ => _ end ] =>
      lazymatch x with
      | context [ match _ with _ => _ end ] => fail
      | _ => destruct x eqn:?
      end
  end.

(** The same in the hypotheses. *)
Ltac case_hyp :=
  match goal with
  | H : context [ match ?x with _ => _ end ] |- _ =>
      lazymatch x with
      | context [ match _ with _ => _ end ] => fail
      | _ => destruct x eqn:?
      end
  end.

(** Turn boolean tests into propositions. *)
Ltac bools :=
  repeat match goal with
  | H : (_ && _) = true |- _ => apply andb_prop in H; destruct H
  | H : (_ || _) = false |- _ => apply orb_false_elim in H; destruct H
  | H : negb _ = true |- _ => apply negb_true_iff in H
  | H : negb _ = false |- _ => apply negb_false_iff in H
  | H : bool_decide _ = true |- _ => apply bool_decide_eq_true in H
  | H : bool_decide _ = false |- _ => apply bool_decide_eq_false in H
  | H : Is_true _ |- _ => apply Is_true_true in H
  | H : (_ <=? _)%Z = true |- _ => apply Z.leb_le in H
  | H : (_ <=? _)%Z = false |- _ => apply Z.leb_gt in H
  | H : (_ <? _)%Z = true |- _ => apply Z.ltb_lt in H
  | H : (_ <? _)%Z = false |- _ => apply Z.ltb_ge in H
  | H : (_ =? _)%Z = true |- _ => apply Z.eqb_eq in H
  | H : (_ =? _)%Z = false |- _ => apply Z.eqb_neq in H
  | H : (_ <=? _)%nat = true |- _ => apply Nat.leb_le in H
  | H : (_ <=? _)%nat = false |- _ => apply Nat.leb_gt in H
  | H : (_ <? _)%nat = true |- _ => apply Nat.ltb_lt in H
  | H : (_ <? _)%nat = false |- _ => apply Nat.ltb_ge in H
  | H : (_ =? _)%nat = true |- _ => apply Nat.eqb_eq in H
  | H : (_ =? _)%nat = false |- _ => apply Nat.eqb_neq in H
  end.

(** ** Association lists: a Go map in the order one [range] visits it *)
Section AssocList.
Context {K V : Type} `{EqDecision K}.

Fixpoint assoc (k : K) (m : list (K * V)) : option V :=
  match m with
  | [] => None
  | (k', v) :: m' => if decide (k = k') then Some v else assoc k m'
  end.

Lemma assoc_In k v m : assoc k m = Some v -> (k, v) ∈ m.
Proof.
  induction m as [|[k' v'] m IH]; simpl; [done|].
  case_decide; intros; simplify_eq; set_solver.
Qed.

Lemma assoc_NoDup k v m : NoDup m.*1 -> (k, v) ∈ m -> assoc k m = Some v.
Proof.
  induction m as [|[k' v'] m IH]; simpl; intros Hnd Hin; [set_solver|].
  apply NoDup_cons in Hnd as [Hk Hnd].
  apply elem_of_cons in Hin as [?|Hin]; simplify_eq; case_decide; subst; auto; try done.
  exfalso. apply Hk. apply list_elem_of_fmap. by exists (k', v).
Qed.

Lemma assoc_None k m : assoc k m = None <-> k ∉ m.*1.
Proof.
  induction m as [|[k' v'] m IH]; simpl; [set_solver|].
  case_decide; set_solver.
Qed.
End AssocList.

(** ** Sums and filters *)
Definition sumZ {A} (f : A -> Z) (l : list A) : Z := foldr (fun x acc => (f x + acc)%Z) 0%Z l.

Lemma sumZ_app {A} (f : A -> Z) l1 l2 : sumZ f (l1 ++ l2) = (sumZ f l1 + sumZ f l2)%Z.
Proof. induction l1; simpl; lia. Qed.

Lemma sumZ_perm {A} (f : A -> Z) l1 l2 : l1 ≡ₚ l2 -> sumZ f l1 = sumZ f l2.
Proof. induction 1; simpl; lia. Qed.

Lemma sumZ_nonneg {A} (f : A -> Z) l : (forall x, x ∈ l -> 0 <= f x)%Z -> (0 <= sumZ f l)%Z.
Proof.
  induction l as [|x l IH]; simpl; intros H; [lia|].
  pose proof (H x ltac:(set_solver)). specialize (IH ltac:(set_solver)). lia.
Qed.

Lemma drop_perm_split {A} (l : list A) n : l ≡ₚ take n l ++ drop n l.
Proof. by rewrite take_drop. Qed.

(** [for x in xs { if f(x) { return true } } return false] *)
Lemma existsb_elem {A} (f : A -> bool) l :
  existsb f l = true <-> exists x, x ∈ l /\ f x = true.
Proof. rewrite existsb_exists. by setoid_rewrite list_elem_of_In. Qed.

Lemma forallb_elem {A} (f : A -> bool) l :
  forallb f l = true <-> forall x, x ∈ l -> f x = true.
Proof. rewrite forallb_forall. by setoid_rewrite list_elem_of_In. Qed.

(** ** Stable sorting: [sort.SliceStable], and [ORDER BY] over the rows in
    the order the table yields them *)
Section StableSort.
Context {A : Type} (R : A -> A -> Prop) `{!RelDecision R}.

Fixpoint insert_sorted (x : A) (l : list A) : list A :=
  match l with
  | [] => [x]
  | y :: l' => if decide (R x y) then x :: y :: l' else y :: insert_sorted x l'
  end.

Definition stable_sort (l : list A) : list A := foldr insert_sorted [] l.

Lemma insert_sorted_perm x l : insert_sorted x l ≡ₚ x :: l.
Proof. induction l as [|y l IH]; simpl; [done|]. case_decide; [done|]. rewrite IH. constructor. Qed.

Lemma stable_sort_perm l : stable_sort l ≡ₚ l.
Proof. induction l as [|x l IH]; simpl; [done|]. by rewrite insert_sorted_perm, IH. Qed.

Lemma elem_of_stable_sort x l : x ∈ stable_sort l <-> x ∈ l.
Proof. by rewrite stable_sort_perm. Qed.

Context `{!Transitive R} (Rtotal : forall x y, R x y \/ R y x).

Lemma insert_sorted_sorted x l : StronglySorted R l -> StronglySorted R (insert_sorted x l).
Proof using All.
  induction 1 as [|y l Hl IH Hy]; simpl; [by repeat constructor|].
  case_decide as Hxy; constructor.
  - by constructor.
  - constructor; [done|]. eapply Forall_impl; [exact Hy|]. intros z ?. by etrans.
  - done.
  - assert (R y x) by (destruct (Rtotal x y); [done|done]).
    rewrite insert_sorted_perm. by constructor.
Qed.

Lemma stable_sort_sorted l : StronglySorted R (stable_sort l).
Proof using All. induction l; simpl; [constructor|by apply insert_sorted_sorted]. Qed.

End StableSort.

Lemma sorted_split_at {A} (R : A -> A -> Prop) n l x y :
  StronglySorted R l -> x ∈ take n l -> y ∈ drop n l -> R x y.
Proof.
  intros Hs. revert n. induction Hs as [|z l Hl IH Hz]; intros [|n]; simpl; try set_solver.
  intros [->|Hx]%elem_of_cons Hy; [|by eapply IH].
  rewrite Forall_forall in Hz. apply Hz. rewrite <- (take_drop n l). set_solver.
Qed.

(** ** Choosing the best element of a list

    [for x in xs { if !eligible(x) { continue }; if x beats best { best = x } }] *)
Section Best.
Context {A : Type} (eligible : A -> bool) (beats : A -> A -> bool).

Definition pick_step (best : option A) (x : A) : option A :=
  if eligible x then
    match best with
    | None => Some x
    | Some b => if beats x b then Some x else best
    end
  else best.

Definition pick_best (l : list A) : option A := foldl pick_step None l.

Lemma pick_best_elem l x : pick_best l = Some x -> x ∈ l /\ eligible x = true.
Proof.
  unfold pick_best. revert x. induction l as [|y l IH] using rev_ind; intros x; [done|].
  rewrite foldl_app. cbn. unfold pick_step at 1. destruct (eligible y) eqn:Ey.
  - destruct (foldl pick_step None l) as [b|]; [|intros [= <-]; set_solver].
    destruct (beats y b); intros [= <-]; [set_solver|]. destruct (IH b eq_refl). set_solver.
  - intros [??]%IH. set_solver.
Qed.

Context (beats_irrefl : forall x, beats x x = false)
        (beats_trans : forall x y z, beats x y = true -> beats y z = true -> beats x z = true).

Definition best_of (l : list A) (o : option A) : Prop :=
  match o with
  | Some b => b ∈ l /\ eligible b = true /\ forall x, x ∈ l -> eligible x = true -> beats x b = false
  | None => forall x, x ∈ l -> eligible x = false
  end.

Lemma pick_step_best l o x : best_of l o -> best_of (l ++ [x]) (pick_step o x).
Proof using beats_irrefl beats_trans.
  unfold pick_step. destruct (eligible x) eqn:Ex, o as [b|]; simpl.
  - intros (Hb & Eb & Hmax). destruct (beats x b) eqn:Exb; simpl.
    + split_and!; [set_solver|done|]. intros y [Hy|Hy]%elem_of_app Ey.
      * destruct (beats y x) eqn:Eyx; [|done].
        specialize (Hmax y Hy Ey). by rewrite (beats_trans y x b) in Hmax.
      * apply list_elem_of_singleton in Hy as ->. apply beats_irrefl.
    + split_and!; [set_solver|done|]. intros y [Hy|Hy]%elem_of_app Ey; [by apply Hmax|].
      apply list_elem_of_singleton in Hy as ->. done.
  - intros Hnone. split_and!; [set_solver|done|]. intros y [Hy|Hy]%elem_of_app Ey.
    + by rewrite Hnone in Ey.
    + apply list_elem_of_singleton in Hy as ->. apply beats_irrefl.
  - intros (Hb & Eb & Hmax). split_and!; [set_solver|done|].
    intros y [Hy|Hy]%elem_of_app Ey; [by apply Hmax|].
    apply list_elem_of_singleton in Hy as ->. congruence.
  - intros Hnone y [Hy|Hy]%elem_of_app; [by apply Hnone|].
    apply list_elem_of_singleton in Hy as ->. done.
Qed.

Lemma pick_best_spec l : best_of l (pick_best l).
Proof using beats_irrefl beats_trans.
  unfold pick_best. induction l as [|x l IH] using rev_ind; [simpl; set_solver|].
  rewrite foldl_app. simpl. by apply pick_step_best.
Qed.
End Best.

(** ** Filters and ranks *)
Lemma filter_all_true {A} (f : A -> bool) l : (forall x, x ∈ l -> f x = true) -> List.filter f l = l.
Proof.
  induction l as [|x l IH]; simpl; intros H; [done|]. rewrite H by set_solver. f_equal. set_solver.
Qed.

Lemma filter_all_false {A} (f : A -> bool) l : (forall x, x ∈ l -> f x = false) -> List.filter f l = [].
Proof.
  induction l as [|x l IH]; simpl; intros H; [done|]. rewrite H by set_solver. set_solver.
Qed.

Lemma filter_perm {A} (f : A -> bool) l1 l2 : l1 ≡ₚ l2 -> List.filter f l1 ≡ₚ List.filter f l2.
Proof.
  induction 1 as [|x l1 l2 ? IH|x y l|]; simpl; [done| | |by etrans].
  - by destruct (f x); rewrite IH.
  - destruct (f x), (f y); try done. constructor.
Qed.

Lemma filter_swap {A} (f g : A -> bool) l : List.filter f (List.filter g l) = List.filter g (List.filter f l).
Proof. induction l as [|x l IH]; simpl; [done|]. destruct (f x) eqn:?, (g x) eqn:?; simpl; rewrite ?Heqb, ?Heqb0, ?IH; done. Qed.

Lemma filter_filter {A} (f g : A -> bool) l :
  List.filter f (List.filter g l) = List.filter (fun x => g x && f x) l.
Proof. induction l as [|x l IH]; simpl; [done|]. destruct (g x); simpl; [by destruct (f x); rewrite IH|done]. Qed.

(** two members a filter keeps are one when it keeps at most one *)
Lemma filter_once {A} (f : A -> bool) l x y :
  length (List.filter f l) <= 1 -> x ∈ l -> y ∈ l -> f x = true -> f y = true -> x = y.
Proof.
  intros Hl Hx%list_elem_of_In Hy%list_elem_of_In Hfx Hfy.
  assert (In x (List.filter f l)) as H1 by (by apply filter_In). assert (In y (List.filter f l)) as H2 by (by apply filter_In).
  destruct (List.filter f l) as [|z [|? ?]]; [done| |cbn in Hl; lia]. cbn in H1, H2. destruct H1, H2; try done. congruence.
Qed.

Lemma filter_length_le {A} (f : A -> bool) l : (length (List.filter f l) <= length l)%nat.
Proof. induction l as [|x l IH]; simpl; [done|]. destruct (f x); simpl; lia. Qed.

Section Rank.
Context {A : Type} (before : A -> A -> bool).
Context (asym : forall x y, before x y = true -> before y x = false).

(** in a strictly sorted list, the elements before a given one are the
    elements that stand before it *)
Lemma rank_sorted l i b :
  StronglySorted (fun x y => before x y = true) l -> l !! i = Some b ->
  length (List.filter (fun a => before a b) l) = i.
Proof using asym.
  intros Hs. revert i. induction Hs as [|x l Hs IH Hx]; intros i Hi; [done|].
  rewrite Forall_forall in Hx. simpl. destruct i as [|i]; simpl in Hi.
  - simplify_eq. assert (before b b = false) as ->.
    { destruct (before b b) eqn:E; [|done]. by rewrite (asym _ _ E) in E. }
    rewrite filter_all_false; [done|]. intros y Hy. by apply asym, Hx.
  - rewrite Hx by (by eapply list_elem_of_lookup_2). simpl. f_equal. by apply IH.
Qed.

Lemma rank_filter l (n : nat) :
  StronglySorted (fun x y => before x y = true) l ->
  List.filter (fun b => (n <=? length (List.filter (fun a => before a b) l))%nat) l = drop n l.
Proof using asym.
  intros Hs. set (f := fun b => Nat.leb n _).
  trans (List.filter f (take n l ++ drop n l)); [by rewrite take_drop|].
  rewrite List.filter_app, filter_all_false, filter_all_true; [done| |].
  - intros x (i & Hi)%list_elem_of_lookup. rewrite lookup_drop in Hi.
    unfold f. rewrite (rank_sorted _ _ _ Hs Hi). apply Nat.leb_le. lia.
  - intros x (i & Hi)%list_elem_of_lookup.
    apply lookup_take_Some in Hi as [Hi Hlt]. unfold f. rewrite (rank_sorted _ _ _ Hs Hi).
    apply Nat.leb_gt. lia.
Qed.
End Rank.

Lemma StronglySorted_strict {A} (R S : A -> A -> Prop) l :
  NoDup l -> (forall x y, x ∈ l -> y ∈ l -> x <> y -> R x y -> S x y) ->
  StronglySorted R l -> StronglySorted S l.
Proof.
  intros Hnd HRS Hs. induction Hs as [|x l Hs IH Hx]; [constructor|].
  apply NoDup_cons in Hnd as [Hxl Hnd]. rewrite Forall_forall in Hx. constructor.
  - apply IH; [done|]. set_solver.
  - apply Forall_forall. intros y Hy. apply HRS; [set_solver..| |by apply Hx]. congruence.
Qed.

Lemma elem_of_filter_bool {A} (f : A -> bool) l x :
  x ∈ List.filter f l <-> f x = true /\ x ∈ l.
Proof. rewrite !list_elem_of_In, List.filter_In. tauto. Qed.

(** ** Reachable states *)
Lemma rtc_invariant {A} (R : relation A) (P : A -> Prop) x y :
  (forall a b, P a -> R a b -> P b) -> rtc R x y -> P x -> P y.
Proof. intros HP. induction 1 as [|a b c Hab _ IH]; [done|]. intros Ha. by eapply IH, HP. Qed.
