(* ===== verification/GoStrings.v ===== *)
(** * Go's string and path primitives

    A Go [string] is a byte sequence, here Rocq's [string].  This file gives
    the functions of packages [strings], [strconv], [unicode] and
    [path/filepath] that the modelled code calls, with the lemmas the other
    files share.  Nothing here models code of the repository. *)
From stdpp Require Import base strings list pretty.
From Stdlib Require Import ZArith Lia.
From Stdlib Require Ascii.
From S2P Require Import Prelude.
Export Stdlib.Strings.Ascii (ascii(..)).
Export (notations) Stdlib.Strings.Ascii.

#[global] Arguments String.append !_ _ /.

(** ** Bytes *)
Abbreviation code := Ascii.N_of_ascii.

Definition in_range (lo hi : ascii) (c : ascii) : bool :=
  ((code lo <=? code c) && (code c <=? code hi))%N.
Definition is_lower (c : ascii) : bool := in_range "a" "z" c.
Definition is_upper (c : ascii) : bool := in_range "A" "Z" c.
Definition is_digit (c : ascii) : bool := in_range "0" "9" c.
Definition to_lower (c : ascii) : ascii :=
  if is_upper c then Ascii.ascii_of_N (code c + 32) else c.

Lemma to_lower_upper c : is_upper c = true -> is_lower (to_lower c) = true.
Proof. destruct c as [[][][][][][][][]]; vm_compute; congruence. Qed.

(** ** Structural string functions *)
Fixpoint str_all (p : ascii -> bool) (s : string) : bool :=
  match s with EmptyString => true | String c s' => p c && str_all p s' end.

Fixpoint str_any (p : ascii -> bool) (s : string) : bool :=
  match s with EmptyString => false | String c s' => p c || str_any p s' end.

Fixpoint str_map (f : ascii -> ascii) (s : string) : string :=
  match s with EmptyString => EmptyString | String c s' => String (f c) (str_map f s') end.

(** [s[:n]] and [s[n:]], for [n] within the string *)
Fixpoint str_take (n : nat) (s : string) : string :=
  match n, s with S n', String c s' => String c (str_take n' s') | _, _ => EmptyString end.
Fixpoint str_drop (n : nat) (s : string) : string :=
  match n, s with S n', String _ s' => str_drop n' s' | _, _ => s end.

(** [strings.CutPrefix] *)
Fixpoint cut_prefix (p s : string) : option string :=
  match p, s with
  | EmptyString, _ => Some s
  | String a p', String b s' => if Ascii.eqb a b then cut_prefix p' s' else None
  | String _ _, EmptyString => None
  end.
Definition has_prefix (p s : string) : bool :=
  match cut_prefix p s with Some _ => true | None => false end.

Fixpoint str_rev (s : string) : string :=
  match s with EmptyString => EmptyString | String c s' => str_rev s' +:+ String c EmptyString end.

Definition has_suffix (p s : string) : bool := has_prefix (str_rev p) (str_rev s).

(** [strings.Cut] at a one-byte separator: the text before and after its
    first occurrence.  [strings.IndexByte] followed by slicing is the same. *)
Fixpoint cut_byte (c : ascii) (s : string) : option (string * string) :=
  match s with
  | EmptyString => None
  | String a s' =>
      if Ascii.eqb a c then Some (EmptyString, s')
      else match cut_byte c s' with
           | Some (before, after) => Some (String a before, after)
           | None => None
           end
  end.

(** [strings.TrimLeft], [TrimRight] and [Trim] with a set of bytes *)
Fixpoint trim_left (p : ascii -> bool) (s : string) : string :=
  match s with
  | String c s' => if p c then trim_left p s' else s
  | EmptyString => EmptyString
  end.
Fixpoint trim_right (p : ascii -> bool) (s : string) : string :=
  match s with
  | EmptyString => EmptyString
  | String c s' =>
      match trim_right p s' with
      | EmptyString => if p c then EmptyString else String c EmptyString
      | t => String c t
      end
  end.
Definition trim (p : ascii -> bool) (s : string) : string := trim_right p (trim_left p s).

Definition join (sep : string) (l : list string) : string :=
  match l with
  | [] => EmptyString
  | x :: l' => foldl (fun acc y => acc +:+ sep +:+ y) x l'
  end.

(** [strings.Split] at one byte *)
Fixpoint split_byte (c : ascii) (s : string) : list string :=
  match s with
  | EmptyString => [EmptyString]
  | String a s' =>
      if Ascii.eqb a c then EmptyString :: split_byte c s'
      else match split_byte c s' with
           | x :: l => String a x :: l
           | [] => [String a EmptyString]
           end
  end.

(** ** Numbers: [strconv.Itoa] and [strconv.Atoi] *)
Definition itoa (z : Z) : string := pretty z.

Fixpoint parse_digits (acc : Z) (s : string) : option Z :=
  match s with
  | EmptyString => Some acc
  | String c s' =>
      if is_digit c then parse_digits (acc * 10 + (Z.of_N (code c) - 48)) s' else None
  end.

Definition max_int64 : Z := 9223372036854775807.
Definition min_int64 : Z := -9223372036854775808.
(** int64 arithmetic wraps *)
Definition wrap64 (z : Z) : Z := ((z + 2 ^ 63) mod 2 ^ 64 - 2 ^ 63)%Z.

(** an optional sign, at least one digit, and the value must fit an int64 *)
Definition atoi (s : string) : option Z :=
  let digits d := match d with EmptyString => None | _ => parse_digits 0 d end in
  let checked z := if ((min_int64 <=? z) && (z <=? max_int64))%Z then Some z else None in
  match s with
  | String c s' =>
      if Ascii.eqb c "-" then match digits s' with Some z => checked (- z)%Z | None => None end
      else if Ascii.eqb c "+" then match digits s' with Some z => checked z | None => None end
      else match digits s with Some z => checked z | None => None end
  | EmptyString => None
  end.

(** ** Lemmas *)
Lemma str_app_nil_r s : s +:+ EmptyString = s.
Proof. induction s; [done|]. cbn. by f_equal. Qed.

Lemma str_app_assoc a b c : (a +:+ b) +:+ c = a +:+ (b +:+ c).
Proof. induction a; [done|]. cbn. by f_equal. Qed.

Lemma str_app_cons c a b : String c a +:+ b = String c (a +:+ b).
Proof. done. Qed.

Lemma str_length_app a b : String.length (a +:+ b) = String.length a + String.length b.
Proof. induction a; cbn; [done|]. by f_equal. Qed.

Lemma str_length_take n s : String.length (str_take n s) = n `min` String.length s.
Proof. revert s; induction n; intros [|c s]; cbn; auto. Qed.

Lemma str_take_drop n s : str_take n s +:+ str_drop n s = s.
Proof. revert s; induction n; intros [|c s]; cbn; try done. by f_equal. Qed.

Lemma str_len_ind (P : string -> Prop) :
  (forall r, (forall r', String.length r' < String.length r -> P r') -> P r) -> forall r, P r.
Proof. intros H r. apply (well_founded_induction (Wf_nat.well_founded_ltof _ String.length)). intros x IH. by apply H. Qed.

Lemma str_length_drop n s : String.length (str_drop n s) <= String.length s.
Proof. revert s. induction n as [|n IH]; intros [|c s]; simpl; [lia..|]. specialize (IH s). lia. Qed.

Lemma str_take_app a b n : n = String.length a -> str_take n (a +:+ b) = a.
Proof. intros ->. induction a; cbn; [by destruct b|]. by f_equal. Qed.

Lemma str_drop_app a b n : n = String.length a -> str_drop n (a +:+ b) = b.
Proof. intros ->. induction a; cbn; [by destruct b|done]. Qed.

Lemma str_app_inj_l a b c : a +:+ b = a +:+ c -> b = c.
Proof. induction a; cbn; [done|]. intros [=]; auto. Qed.

Lemma str_app_inj_len a b c d :
  String.length a = String.length c -> a +:+ b = c +:+ d -> a = c /\ b = d.
Proof.
  revert c; induction a as [|x a IH]; intros [|y c]; cbn; try done.
  intros [=] [=]; subst. destruct (IH c) as [-> ->]; done.
Qed.

Lemma str_app_inj_r a b c : a +:+ c = b +:+ c -> a = b.
Proof.
  intros H. apply (str_app_inj_len a c b c); [|done]. apply (f_equal String.length) in H. rewrite !str_length_app in H. lia.
Qed.

Lemma cut_prefix_app p s r : cut_prefix p s = Some r <-> s = p +:+ r.
Proof.
  revert s; induction p as [|a p IH]; intros s; cbn.
  - split; [by intros [=]|by intros ->].
  - destruct s as [|b s]; [split; [done|intros [=]]|].
    destruct (Ascii.eqb_spec a b) as [->|Hne].
    + rewrite IH. cbn. split; [by intros ->|by intros [=]].
    + split; [done|]. cbn. intros [=]. congruence.
Qed.

Lemma has_prefix_app p s : has_prefix p s = true <-> exists r, s = p +:+ r.
Proof.
  unfold has_prefix. destruct (cut_prefix p s) as [r|] eqn:E.
  - apply cut_prefix_app in E. split; eauto.
  - split; [done|]. intros [r Hr]. apply cut_prefix_app in Hr. congruence.
Qed.

Lemma str_all_app p a b : str_all p (a +:+ b) = str_all p a && str_all p b.
Proof. induction a as [|c a IH]; [done|]. cbn. by rewrite IH, andb_assoc. Qed.

Lemma str_any_app p a b : str_any p (a +:+ b) = str_any p a || str_any p b.
Proof. induction a as [|c a IH]; [done|]. cbn. by rewrite IH, orb_assoc. Qed.

Lemma str_all_take p n s : str_all p s = true -> str_all p (str_take n s) = true.
Proof.
  revert s; induction n; intros [|c s]; cbn; try done.
  intros [-> ?]%andb_prop; cbn; auto.
Qed.

Lemma str_all_map p f s :
  (forall c, p (f c) = true) -> str_all p (str_map f s) = true.
Proof. intros H; induction s; cbn; [done|]. by rewrite H. Qed.

Lemma str_all_weaken (p q : ascii -> bool) s :
  (forall c, p c = true -> q c = true) -> str_all p s = true -> str_all q s = true.
Proof. intros H; induction s; cbn; [done|]. intros [? ?]%andb_prop. rewrite H; auto. Qed.

Lemma cut_byte_here c before after :
  str_any (fun a => Ascii.eqb a c) before = false ->
  cut_byte c (before +:+ String c after) = Some (before, after).
Proof.
  induction before as [|y before IH]; cbn; [by rewrite Ascii.eqb_refl|].
  intros [-> Hb]%orb_false_elim. by rewrite (IH Hb).
Qed.

Lemma cut_byte_app c s before after :
  cut_byte c s = Some (before, after) <->
  s = before +:+ String c after /\ str_any (fun a => Ascii.eqb a c) before = false.
Proof.
  split; [|by intros [-> H]; apply cut_byte_here].
  revert before; induction s as [|a s IH]; intros before; cbn; [done|].
  destruct (Ascii.eqb_spec a c) as [->|Hne]; [by intros [= <- <-]|].
  destruct (cut_byte c s) as [[b' a']|] eqn:E; [|done].
  intros [= <- <-]. destruct (IH b' eq_refl) as [-> Hb]. cbn.
  apply Ascii.eqb_neq in Hne. by rewrite Hne.
Qed.

Lemma cut_byte_None c s : cut_byte c s = None <-> str_any (fun a => Ascii.eqb a c) s = false.
Proof.
  induction s as [|a s IH]; cbn; [done|].
  destruct (Ascii.eqb a c); [done|]. cbn. rewrite <- IH.
  destruct (cut_byte c s) as [[]|]; done.
Qed.

Lemma cut_byte_length c s b a : cut_byte c s = Some (b, a) -> String.length a < String.length s.
Proof. intros [-> _]%cut_byte_app. rewrite str_length_app. cbn. lia. Qed.

Lemma trim_right_prefix p s : exists r, s = trim_right p s +:+ r /\ str_all p r = true.
Proof.
  induction s as [|c s (r & Hs & Hr)]; [by exists EmptyString|].
  cbn [trim_right]. destruct (trim_right p s) as [|d t] eqn:E.
  - destruct (p c) eqn:Hc.
    + exists (String c s). rewrite Hs. cbn. by rewrite Hc.
    + exists r. rewrite Hs. done.
  - exists r. rewrite Hs at 1. done.
Qed.

Lemma str_all_trim_right p q s : str_all q s = true -> str_all q (trim_right p s) = true.
Proof.
  intros H. destruct (trim_right_prefix p s) as (r & Hs & _).
  rewrite Hs, str_all_app in H. by apply andb_prop in H as [? _].
Qed.

Lemma trim_right_length p s : String.length (trim_right p s) <= String.length s.
Proof.
  destruct (trim_right_prefix p s) as (r & Hs & _).
  rewrite Hs at 2. rewrite str_length_app. lia.
Qed.

#[export] Hint Rewrite str_app_nil_r str_app_assoc str_length_app : treeman_str.

(** ** Runes: [for _, r := range s] and [strings.ToLower] *)

(** A continuation byte in the given range, as the code point bits it adds. *)
Definition cont (lo hi : N) (c : ascii) : option Z :=
  if ((lo <=? code c) && (code c <=? hi))%N then Some (Z.of_N (code c) mod 64)%Z else None.

Definition rune_error : Z := 65533.

(** The width of the valid encoding at the head of [c :: s] beyond its first
    byte, and its code point; [None] is Go's [(RuneError, 1)]. *)
Definition decode_rune (c : ascii) (s : string) : option (nat * Z) :=
  let b := Z.of_N (code c) in
  let lo2 := (if (b =? 224)%Z then 160 else if (b =? 240)%Z then 144 else 128)%N in
  let hi2 := (if (b =? 237)%Z then 159 else if (b =? 244)%Z then 143 else 191)%N in
  if (b <? 128)%Z then Some (0%nat, b)
  else if (b <? 194)%Z then None
  else if (b <? 224)%Z then
    match s with
    | String c2 _ => x ← cont 128 191 c2; Some (1%nat, ((b mod 32) * 64 + x)%Z)
    | _ => None
    end
  else if (b <? 240)%Z then
    match s with
    | String c2 (String c3 _) =>
        x ← cont lo2 hi2 c2; y ← cont 128 191 c3;
        Some (2%nat, (((b mod 16) * 64 + x) * 64 + y)%Z)
    | _ => None
    end
  else if (b <? 245)%Z then
    match s with
    | String c2 (String c3 (String c4 _)) =>
        x ← cont lo2 hi2 c2; y ← cont 128 191 c3; z ← cont 128 191 c4;
        Some (3%nat, ((((b mod 8) * 64 + x) * 64 + y) * 64 + z)%Z)
    | _ => None
    end
  else None.

Fixpoint runes_from (skip : nat) (s : string) : list Z :=
  match s with
  | EmptyString => []
  | String c s' =>
      match skip with
      | S k => runes_from k s'
      | O => match decode_rune c s' with
             | Some (w, r) => r :: runes_from w s'
             | None => rune_error :: runes_from 0 s'
             end
      end
  end.
Definition runes (s : string) : list Z := runes_from 0 s.

(** [unicode.ToLower], exact on every code point whose lower case is ASCII:
    the ASCII capitals, U+0130 and U+212A.  Every other code point beyond
    ASCII has a lower case beyond ASCII and is left as it is here; no
    modelled caller distinguishes those. *)
Definition lower_rune (r : Z) : Z :=
  if ((65 <=? r) && (r <=? 90))%Z then (r + 32)%Z
  else if (r =? 304)%Z then 105%Z
  else if (r =? 8490)%Z then 107%Z
  else r.

Example runes_utf8 :
  runes (String "a" (String "226" (String "132" (String "170" "z")))) = [97; 8490; 122]%Z.
Proof. reflexivity. Qed.
Example runes_invalid : runes (String "195" "a") = [rune_error; 97]%Z.
Proof. reflexivity. Qed.

(** ** [path/filepath] on Unix *)
Definition is_slash (c : ascii) : bool := Ascii.eqb c "/".
(** [filepath.IsAbs] *)
Definition is_abs (p : string) : bool := match p with String c _ => is_slash c | EmptyString => false end.

(** one path element against the reversed list of kept ones *)
Definition clean_step (rooted : bool) (kept : list string) (elem : string) : list string :=
  if String.eqb elem "" || String.eqb elem "." then kept
  else if String.eqb elem ".." then
    match kept with
    | [] => if rooted then [] else [".."]
    | e :: rest => if String.eqb e ".." then ".." :: kept else rest
    end
  else elem :: kept.

Definition path_clean (p : string) : string :=
  let rooted := match p with String c _ => is_slash c | _ => false end in
  let kept := foldl (clean_step rooted) [] (split_byte "/" p) in
  let body := join "/" (reverse kept) in
  if rooted then "/" +:+ body else if String.eqb body "" then "." else body.

Definition path_join (a b : string) : string :=
  match a, b with
  | EmptyString, EmptyString => EmptyString
  | EmptyString, _ => path_clean b
  | _, EmptyString => path_clean a
  | _, _ => path_clean (a +:+ "/" +:+ b)
  end.

(** [filepath.Abs], given what [os.Getwd] answers ([None] is its error) *)
Definition path_abs (getwd : option string) (p : string) : option string :=
  match p with
  | String c _ => if is_slash c then Some (path_clean p)
                  else match getwd with Some wd => Some (path_join wd p) | None => None end
  | EmptyString => match getwd with Some wd => Some (path_join wd p) | None => None end
  end.

(** [filepath.Base] *)
Definition path_base (p : string) : string :=
  match p with
  | EmptyString => "."
  | _ => match trim_right is_slash p with
         | EmptyString => "/"
         | t => List.last (split_byte "/" t) EmptyString
         end
  end.

Example clean_ex : path_clean "/a//b/./../c/" = "/a/c".
Proof. reflexivity. Qed.
Example clean_rel : path_clean "../x/.." = "..".
Proof. reflexivity. Qed.
Example base_ex : path_base "/srv/wt/PROJ-12/" = "PROJ-12".
Proof. reflexivity. Qed.

(** ** [Atoi] reads back what [Itoa] prints *)
Lemma pretty_N_char_digit d :
  (d < 10)%N ->
  is_digit (pretty_N_char d) = true /\ (Z.of_N (code (pretty_N_char d)) - 48)%Z = Z.of_N d.
Proof.
  intros H. rewrite <- (N2Nat.id d).
  assert (Forall (fun k => is_digit (pretty_N_char (N.of_nat k)) = true /\
    (Z.of_N (code (pretty_N_char (N.of_nat k))) - 48)%Z = Z.of_N (N.of_nat k)) (seq 0 10)) as HF.
  { repeat constructor. }
  rewrite Forall_forall in HF. apply HF, elem_of_seq. lia.
Qed.

Lemma parse_pretty_go x s :
  (0 < x)%N -> parse_digits 0 (pretty_N_go x s) = parse_digits (Z.of_N x) s.
Proof.
  revert s. induction (N.lt_wf_0 x) as [x _ IH]; intros s Hx.
  rewrite pretty_N_go_step by done.
  assert (Hd : (x `mod` 10 < 10)%N) by (apply N.mod_lt; done).
  destruct (pretty_N_char_digit _ Hd) as [Hdig Hval].
  assert (Hcons : forall acc, parse_digits acc (String (pretty_N_char (x `mod` 10)) s) =
    parse_digits (acc * 10 + Z.of_N (x `mod` 10)) s).
  { intros acc. cbn [parse_digits]. by rewrite Hdig, Hval. }
  assert (Hdm : Z.of_N x = (Z.of_N (x `div` 10) * 10 + Z.of_N (x `mod` 10))%Z).
  { pose proof (N.div_mod x 10 ltac:(done)). lia. }
  destruct (N.eq_dec (x `div` 10) 0) as [E|E].
  - rewrite E, pretty_N_go_0, Hcons. f_equal. rewrite Hdm, E. lia.
  - rewrite IH; [|apply N.div_lt; lia|by apply N.neq_0_lt_0]. rewrite Hcons. f_equal. by rewrite Hdm.
Qed.

Lemma itoa_pos_head p : exists c s, itoa (Z.pos p) = String c s /\ is_digit c = true.
Proof.
  change (itoa (Z.pos p)) with (pretty_N_go (N.pos p) "").
  assert (H : forall x s, (exists c r, s = String c r /\ is_digit c = true) \/ (0 < x)%N ->
                          exists c r, pretty_N_go x s = String c r /\ is_digit c = true).
  { intros x; induction (N.lt_wf_0 x) as [x _ IH]; intros s Hs.
    destruct (N.eq_dec x 0) as [->|Hx].
    - rewrite pretty_N_go_0. destruct Hs; [done|lia].
    - rewrite pretty_N_go_step by lia. apply IH; [apply N.div_lt; lia|].
      left. eexists _, _. split; [done|]. apply pretty_N_char_digit, N.mod_lt. done. }
  apply H. right. lia.
Qed.

Lemma atoi_itoa n : (0 <= n <= max_int64)%Z -> atoi (itoa n) = Some n.
Proof.
  intros [H0 Hmax]. destruct n as [|p|p]; [reflexivity| |lia].
  destruct (itoa_pos_head p) as (c & s & E & Hc).
  pose proof (parse_pretty_go (N.pos p) "" ltac:(lia)) as Hp.
  change (pretty_N_go (N.pos p) "") with (itoa (Z.pos p)) in Hp. rewrite E in *.
  unfold atoi. destruct (Ascii.eqb_spec c "-") as [->|]; [done|].
  destruct (Ascii.eqb_spec c "+") as [->|]; [done|]. rewrite Hp. cbn [parse_digits Z.of_N].
  replace (min_int64 <=? Z.pos p)%Z with true by (symmetry; apply Z.leb_le; unfold min_int64; lia).
  replace (Z.pos p <=? max_int64)%Z with true by (symmetry; apply Z.leb_le; lia). done.
Qed.

(** ** [Itoa] prints digits *)
Definition all_digits (s : string) : bool := negb (String.eqb s "") && str_all is_digit s.

Lemma pretty_go_all x s : str_all is_digit s = true -> str_all is_digit (pretty_N_go x s) = true.
Proof.
  revert s. induction (N.lt_wf_0 x) as [x _ IH]; intros s Hs.
  destruct (N.eq_dec x 0) as [->|Hx]; [by rewrite pretty_N_go_0|].
  rewrite pretty_N_go_step by lia. apply IH; [apply N.div_lt; lia|].
  cbn. by rewrite (proj1 (pretty_N_char_digit _ (N.mod_lt x 10 ltac:(done)))).
Qed.

Lemma itoa_digits n : (0 < n)%Z -> all_digits (itoa n) = true.
Proof.
  intros H. destruct n as [|p|p]; [lia| |lia]. destruct (itoa_pos_head p) as (c & s & E & _).
  unfold all_digits. rewrite E; cbn [String.eqb negb]. rewrite <- E. apply (pretty_go_all (N.pos p) ""). done.
Qed.

(** ** Suffixes *)
Lemma str_rev_app a b : str_rev (a +:+ b) = str_rev b +:+ str_rev a.
Proof. induction a as [|c a IH]; cbn; [by rewrite str_app_nil_r|]. by rewrite IH, str_app_assoc. Qed.

Lemma str_rev_invol s : str_rev (str_rev s) = s.
Proof. induction s as [|c s IH]; [done|]. cbn. by rewrite str_rev_app, IH. Qed.

Lemma has_suffix_app p s : has_suffix p s = true <-> exists r, s = r +:+ p.
Proof.
  unfold has_suffix. rewrite has_prefix_app. split.
  - intros [r Hr]. exists (str_rev r). apply (f_equal str_rev) in Hr. by rewrite str_rev_app, !str_rev_invol in Hr.
  - intros [r ->]. exists (str_rev r). by rewrite str_rev_app.
Qed.

(** [strings.TrimSuffix] *)
Definition trim_suffix (s suffix : string) : string :=
  match cut_prefix (str_rev suffix) (str_rev s) with Some r => str_rev r | None => s end.

Lemma wrap64_id z : (- 2 ^ 63 <= z < 2 ^ 63)%Z -> wrap64 z = z.
Proof. intros Hz. unfold wrap64. rewrite Z.mod_small by lia. lia. Qed.
