(* ===== verification/Lines.v ===== *)
(** * Lines of text

    A text and the list of its lines, [strings.Split(s, NL)] and
    [strings.Join(l, NL)], and [strings.TrimSpace]: what the line-oriented
    parsers of git's output and of the patched files share. *)
From stdpp Require Import base strings list.
From Stdlib Require Import ZArith Lia.
From S2P Require Import Prelude GoStrings.

Definition newline : ascii := "010".
Definition nl : string := String newline "".

Definition has_byte (c : ascii) (s : string) : bool := str_any (fun a => Ascii.eqb a c) s.
Definition one_line (s : string) : bool := negb (has_byte newline s).

Definition lines (s : string) : list string := split_byte newline s.
Definition unlines (l : list string) : string := join nl l.

(** white space as [unicode.IsSpace] has it, within ASCII *)
Definition is_space (c : ascii) : bool :=
  match Ascii.N_of_ascii c with 9%N | 10%N | 11%N | 12%N | 13%N | 32%N => true | _ => false end.
Definition TrimSpace : string -> string := trim is_space.

(** [strings.LastIndexByte] followed by slicing: the text before and after
    the last occurrence *)
Fixpoint cut_last (c : ascii) (s : string) : option (string * string) :=
  match s with
  | EmptyString => None
  | String a s' =>
      match cut_last c s' with
      | Some (b, r) => Some (String a b, r)
      | None => if Ascii.eqb a c then Some ("", s') else None
      end
  end.

(** ** Split and join *)
Lemma foldl_join sep x l : foldl (fun acc y => acc +:+ sep +:+ y) x l = x +:+ foldl (fun acc y => acc +:+ sep +:+ y) "" l.
Proof.
  revert x. induction l as [|y l IH]; intros x; simpl; [by rewrite str_app_nil_r|].
  rewrite IH, (IH (sep +:+ y)). by rewrite !str_app_assoc.
Qed.

Lemma join_cons sep x y l : join sep (x :: y :: l) = x +:+ sep +:+ join sep (y :: l).
Proof. unfold join. simpl. rewrite foldl_join, (foldl_join sep y l). by rewrite !str_app_assoc. Qed.

Lemma split_byte_nonempty c s : split_byte c s <> [].
Proof. destruct s as [|a s]; simpl; [done|]. destruct (Ascii.eqb a c); [done|]. by destruct (split_byte c s). Qed.

Lemma unlines_lines s : unlines (lines s) = s.
Proof.
  unfold unlines, lines. induction s as [|a s IH]; [done|]. simpl. pose proof (split_byte_nonempty newline s) as Hne.
  destruct (Ascii.eqb_spec a newline) as [->|Ha]; destruct (split_byte newline s) as [|x l]; try done.
  - rewrite join_cons, IH. done.
  - destruct l as [|y l]; [simpl in *; by rewrite <- IH|]. rewrite join_cons in *. by rewrite <- IH.
Qed.

Lemma split_app_line c x s : has_byte c x = false -> split_byte c (x +:+ String c s) = x :: split_byte c s.
Proof.
  induction x as [|a x IH]; simpl; intros H; [by rewrite Ascii.eqb_refl|]. apply orb_false_iff in H as [Ha H].
  rewrite Ha, IH by done. done.
Qed.

Lemma split_one_line c x : has_byte c x = false -> split_byte c x = [x].
Proof.
  induction x as [|a x IH]; simpl; intros H; [done|]. apply orb_false_iff in H as [Ha H]. by rewrite Ha, IH.
Qed.

Lemma lines_unlines l : l <> [] -> Forall (fun s => one_line s = true) l -> lines (unlines l) = l.
Proof.
  induction l as [|x l IH]; [done|]. intros _ [Hx Hl]%Forall_cons. apply negb_true_iff in Hx. destruct l as [|y l].
  - by apply split_one_line.
  - unfold lines, unlines in *. rewrite join_cons. unfold nl. rewrite <- !str_app_assoc. simpl.
    rewrite str_app_assoc. cbn. rewrite split_app_line by done. f_equal. by apply IH.
Qed.

Lemma has_byte_app c a b : has_byte c (a +:+ b) = has_byte c a || has_byte c b.
Proof. apply str_any_app. Qed.

Lemma one_line_app a b : one_line (a +:+ b) = one_line a && one_line b.
Proof. unfold one_line. by rewrite has_byte_app, negb_orb. Qed.

Lemma lines_one_line s : Forall (fun x => one_line x = true) (lines s).
Proof.
  unfold lines. induction s as [|a s IH]; simpl; [by repeat constructor|].
  destruct (Ascii.eqb a newline) eqn:Ea; [by constructor|].
  destruct (split_byte newline s) as [|x l]; [constructor; [|done]|].
  - unfold one_line, has_byte. simpl. by rewrite Ea.
  - apply Forall_cons in IH as [Hx Hl]. constructor; [|done]. unfold one_line, has_byte in *. simpl. by rewrite Ea.
Qed.

Lemma lines_nonempty s : lines s <> [].
Proof. apply split_byte_nonempty. Qed.

(** ** Trimming *)
Lemma trim_right_empty p s : trim_right p s = "" <-> str_all p s = true.
Proof.
  induction s as [|c s IH]; simpl; [done|]. destruct (trim_right p s) as [|d t] eqn:E.
  - rewrite (proj1 IH eq_refl), andb_true_r. by destruct (p c).
  - split; [done|]. intros [_ H]%andb_prop. by apply IH in H.
Qed.

Lemma trim_right_app p a b : trim_right p b <> "" -> trim_right p (a +:+ b) = a +:+ trim_right p b.
Proof.
  intros Hb. induction a as [|c a IH]; [done|]. simpl. rewrite IH.
  destruct (a +:+ trim_right p b) eqn:E; [|done]. by destruct a.
Qed.

Lemma trim_right_spaces p a b : str_all p b = true -> trim_right p (a +:+ b) = trim_right p a.
Proof.
  intros Hb. apply trim_right_empty in Hb. induction a as [|c a IH]; [done|]. simpl. by rewrite IH.
Qed.

Lemma trim_left_id p c s : p c = false -> trim_left p (String c s) = String c s.
Proof. simpl. by intros ->. Qed.

Lemma trim_right_id p s : str_any p s = false -> trim_right p s = s.
Proof.
  induction s as [|c s IH]; simpl; intros H; [done|]. apply orb_false_iff in H as [Hc H]. rewrite IH by done.
  destruct s; [by rewrite Hc|done].
Qed.

(** ** Decimal numbers inside a line *)
Lemma digits_no p s : (forall c, is_digit c = true -> p c = false) -> str_all is_digit s = true -> str_any p s = false.
Proof. intros Hp. induction s as [|a s IH]; simpl; [done|]. intros [Ha H]%andb_prop. by rewrite Hp, IH. Qed.

Lemma itoa_all_digits n : (0 <= n)%Z -> str_all is_digit (itoa n) = true.
Proof.
  intros Hn. destruct (decide (n = 0%Z)) as [->|]; [done|]. pose proof (itoa_digits n ltac:(lia)) as H.
  by apply andb_prop in H as [_ H].
Qed.

Lemma itoa_no_byte c n : is_digit c = false -> (0 <= n)%Z -> has_byte c (itoa n) = false.
Proof.
  intros Hc Hn. apply digits_no; [|by apply itoa_all_digits]. intros a Ha.
  destruct (Ascii.eqb_spec a c) as [->|]; [congruence|done].
Qed.

(** ** Trimmed text *)
Lemma trim_left_length p s : String.length (trim_left p s) <= String.length s.
Proof. induction s as [|a s IH]; [done|]. cbn. destruct (p a); cbn; lia. Qed.

Lemma TrimSpace_id s : s <> "" -> TrimSpace s = s -> trim_left is_space s = s /\ trim_right is_space s = s.
Proof.
  unfold TrimSpace, trim. intros Hne H.
  assert (trim_left is_space s = s) as Hl; [|by rewrite Hl in H].
  destruct s as [|c s]; [done|]. cbn [trim_left] in H |- *. destruct (is_space c) eqn:Hc; [|done]. exfalso.
  pose proof (trim_left_length is_space s) as Hlen. pose proof (trim_right_length is_space (trim_left is_space s)). apply (f_equal String.length) in H. cbn in H. lia.
Qed.

Lemma spaced_head b : b <> "" -> TrimSpace b = b -> exists c b', b = String c b' /\ is_space c = false.
Proof.
  intros Hne Hb. destruct (TrimSpace_id b Hne Hb) as [Hl _]. destruct b as [|c b]; [done|]. exists c, b. split; [done|].
  cbn [trim_left] in Hl. destruct (is_space c); [|done]. exfalso.
  pose proof (trim_left_length is_space b) as Hlen. rewrite Hl in Hlen. cbn in Hlen. lia.
Qed.

(** a line as a command prints it *)
Lemma TrimSpace_line b : b <> "" -> TrimSpace b = b -> TrimSpace (b +:+ nl) = b.
Proof.
  intros Hne Hb. destruct (TrimSpace_id b Hne Hb) as [_ Hr]. destruct (spaced_head b Hne Hb) as (c & b' & -> & Hc).
  unfold TrimSpace, trim. change (String c b' +:+ nl) with (String c (b' +:+ nl)). rewrite trim_left_id by done.
  change (String c (b' +:+ nl)) with (String c b' +:+ nl). by rewrite trim_right_spaces.
Qed.
