(* ===== verification/Paths.v ===== *)
(** * File paths

    [path/filepath] on Unix, on top of [GoStrings.path_clean] and
    [path_join]: the elements of an absolute path, [Rel], [Dir] and [Ext], and
    when a joined path stays below its base. *)
From stdpp Require Import base strings list.
From Stdlib Require Import ZArith Lia.
From S2P Require Import Prelude GoStrings Lines.
#[local] Open Scope treeman_scope.

(** ** Paths: [path/filepath] on absolute paths *)

(** one element of [filepath.Clean], on the elements so far, the last first *)
Definition abs_step (stack : list string) (c : string) : list string :=
  if String.eqb c "" || String.eqb c "." then stack
  else if String.eqb c ".." then tail stack
  else c :: stack.

Definition path_elements (p : string) : list string := rev (foldl abs_step [] (split_byte "/" p)).
Definition path_of (l : list string) : string := "/" +:+ join "/" l.
Definition clean_abs (p : string) : string := path_of (path_elements p).
Definition join_abs (w p : string) : string := clean_abs (w +:+ "/" +:+ p).

Fixpoint strip_common (b t : list string) : list string * list string :=
  match b, t with
  | x :: b', y :: t' => if String.eqb x y then strip_common b' t' else (b, t)
  | _, _ => (b, t)
  end.

(** [filepath.Rel] of absolute paths, which does not fail *)
Definition Rel (base targ : string) : string :=
  let '(b, t) := strip_common (path_elements base) (path_elements targ) in
  match b, t with [], [] => "." | _, _ => join "/" (map (fun _ => "..") b ++ t)%list end.

(** ** Lemmas: paths *)
Definition clean_element (c : string) : Prop := c <> "" /\ c <> "." /\ c <> ".." /\ has_byte "/" c = false.

Lemma clean_step_plain st c : clean_element c -> abs_step st c = c :: st.
Proof.
  intros (H1 & H2 & H3 & _). unfold abs_step. apply String.eqb_neq in H1, H2, H3. by rewrite H1, H2, H3.
Qed.

Lemma foldl_clean l st : Forall clean_element l -> foldl abs_step st l = (rev l ++ st)%list.
Proof.
  intros Hl. revert st. induction Hl as [|c l Hc _ IH]; intros st; [done|]. cbn [foldl]. rewrite clean_step_plain, IH by done.
  cbn [rev]. by rewrite <- app_assoc.
Qed.

Lemma split_join c l :
  l <> [] -> Forall (fun x => has_byte c x = false) l -> split_byte c (join (String c EmptyString) l) = l.
Proof.
  induction l as [|x [|y l] IH]; [done|..]; intros _ Hl.
  - apply Forall_cons in Hl as [Hx _]. by apply split_one_line.
  - apply Forall_cons in Hl as [Hx Hl]. rewrite join_cons. cbn [String.append]. rewrite split_app_line, IH by done. done.
Qed.

Lemma path_elements_of l : Forall clean_element l -> path_elements (path_of l) = l.
Proof.
  intros Hl. unfold path_elements, path_of. change ("/" +:+ ?s) with (String "/" s). cbn [split_byte]. rewrite Ascii.eqb_refl. cbn [foldl].
  destruct l as [|x l]; [done|]. rewrite split_join; [|done|].
  - change (abs_step [] "") with (@nil string). rewrite foldl_clean by done. by rewrite app_nil_r, rev_involutive.
  - eapply Forall_impl; [exact Hl|]. by intros y (_ & _ & _ & ?).
Qed.

Lemma clean_stack st l :
  Forall clean_element st -> Forall (fun x => has_byte "/" x = false) l -> Forall clean_element (foldl abs_step st l).
Proof.
  intros Hst Hl. revert st Hst. induction Hl as [|c l Hc _ IH]; intros st Hst; [done|]. apply IH. unfold abs_step.
  destruct (String.eqb_spec c ""); [done|]. destruct (String.eqb_spec c "."); [done|]. cbn [orb].
  destruct (String.eqb_spec c ".."); [|by constructor]. destruct Hst; by try constructor.
Qed.

Lemma split_plain c s : Forall (fun x => has_byte c x = false) (split_byte c s).
Proof.
  induction s as [|a s IH]; cbn [split_byte]; [by repeat constructor|]. destruct (Ascii.eqb a c) eqn:E; [by constructor|].
  destruct (split_byte c s); inversion_clear IH; constructor; try done; unfold has_byte in *; cbn; by rewrite E.
Qed.

Lemma path_elements_clean p : Forall clean_element (path_elements p).
Proof. unfold path_elements. apply Forall_rev, clean_stack; [constructor|apply split_plain]. Qed.

(** [abs] is [r], below [w] *)
Definition below (w : string) (r : list string) (abs : string) : Prop :=
  r <> [] /\ Forall clean_element r /\ abs = path_of (path_elements w ++ r).

Lemma strip_own b r : strip_common b (b ++ r) = ([], r).
Proof. induction b as [|x b IH]; cbn; [by destruct r|]. by rewrite String.eqb_refl. Qed.

Lemma Rel_below w r abs : below w r abs -> Rel w abs = join "/" r.
Proof.
  intros (Hne & Hr & ->). unfold Rel. rewrite path_elements_of by (apply Forall_app; split; [apply path_elements_clean|done]).
  rewrite strip_own. by destruct r.
Qed.

Lemma Rel_below_inj w r r' abs abs' : below w r abs -> below w r' abs' -> Rel w abs = Rel w abs' -> abs = abs'.
Proof.
  intros H H'. rewrite (Rel_below _ _ _ H), (Rel_below _ _ _ H'). destruct H as (Hn & Hr & ->), H' as (Hn' & Hr' & ->). intros E.
  apply (f_equal (split_byte "/")) in E. rewrite !split_join in E; [by rewrite E|..]; try done.
  - eapply Forall_impl; [exact Hr'|]. by intros y (_ & _ & _ & ?).
  - eapply Forall_impl; [exact Hr|]. by intros y (_ & _ & _ & ?).
Qed.


(** ** [filepath.Dir] and [filepath.Ext] *)
(** the text up to and with the last slash *)
Definition up_to_slash (p : string) : string := match cut_last "/" p with Some (d, _) => d +:+ "/" | None => "" end.
Definition Dir (p : string) : string := path_clean (up_to_slash p).

(** from the last dot of the last element *)
Definition path_ext (p : string) : string :=
  let last := match cut_last "/" p with Some (_, b) => b | None => p end in
  match cut_last "." last with Some (_, e) => String "." e | None => "" end.

Example dir_ex : Dir "/srv/wt/app.db" = "/srv/wt" /\ Dir "app.db" = "." /\ Dir "/app.db" = "/".
Proof. vm_compute. done. Qed.
Example ext_ex : path_ext "/srv.d/app.db" = ".db" /\ path_ext "/srv.d/app" = "" /\ path_ext "/a/.env" = ".env".
Proof. vm_compute. done. Qed.

(** ** Cleaning an absolute path *)
Lemma join_nonempty sep x l : x <> "" -> join sep (x :: l) <> "".
Proof. intros Hx. unfold join. rewrite foldl_join. by destruct x. Qed.

Lemma clean_step_rooted kept elem : ".." ∉ kept -> clean_step true kept elem = abs_step kept elem.
Proof.
  intros Hk. unfold clean_step, abs_step. destruct (String.eqb elem "" || String.eqb elem "."); [done|].
  destruct (String.eqb elem ".."); [|done]. destruct kept as [|e rest]; [done|].
  destruct (String.eqb_spec e "..") as [->|]; [|done]. destruct Hk. by left.
Qed.

Lemma abs_step_no_dots kept elem : ".." ∉ kept -> ".." ∉ abs_step kept elem.
Proof.
  intros Hk. unfold abs_step. destruct (String.eqb elem "" || String.eqb elem "."); [done|].
  destruct (String.eqb_spec elem ".."); [|by intros [?|?]%elem_of_cons].
  destruct kept; [done|]. intros Hin. apply Hk. by right.
Qed.

Lemma foldl_rooted l kept : ".." ∉ kept -> foldl (clean_step true) kept l = foldl abs_step kept l.
Proof.
  revert kept. induction l as [|e l IH]; intros kept Hk; [done|]. cbn [foldl].
  rewrite clean_step_rooted by done. by apply IH, abs_step_no_dots.
Qed.

Lemma path_clean_abs p : is_abs p = true -> path_clean p = clean_abs p.
Proof.
  destruct p as [|c p]; [done|]. cbn [is_abs]. intros Hc. unfold path_clean. rewrite Hc.
  rewrite foldl_rooted by apply not_elem_of_nil. unfold clean_abs, path_of, path_elements.
  by rewrite rev_alt.
Qed.

Lemma split_byte_app c a b : split_byte c (a +:+ String c b) = split_byte c a ++ split_byte c b.
Proof.
  induction a as [|x a IH]; cbn [String.append split_byte]; [by rewrite Ascii.eqb_refl|].
  destruct (Ascii.eqb x c); [by rewrite IH|]. rewrite IH. pose proof (split_byte_nonempty c a) as Hne.
  by destruct (split_byte c a).
Qed.

Lemma elements_app p q : path_elements (p +:+ "/" +:+ q) = rev (foldl abs_step (rev (path_elements p)) (split_byte "/" q)).
Proof.
  unfold path_elements. rewrite rev_involutive. change ("/" +:+ q) with (String "/" q).
  by rewrite split_byte_app, foldl_app.
Qed.

(** the elements that a path adds to the base it is joined to *)
Definition kept_elements (q : string) : list string :=
  List.filter (fun e => negb (String.eqb e "" || String.eqb e ".")) (split_byte "/" q).

Lemma foldl_below l st : ".." ∉ l ->
  foldl abs_step st l = rev (List.filter (fun e => negb (String.eqb e "" || String.eqb e ".")) l) ++ st.
Proof.
  revert st. induction l as [|e l IH]; intros st Hl; [done|]. apply not_elem_of_cons in Hl as [He Hl].
  cbn [foldl List.filter]. rewrite IH by done. unfold abs_step.
  destruct (String.eqb e "" || String.eqb e "."); cbn [negb]; [done|].
  apply not_eq_sym, String.eqb_neq in He. rewrite He. cbn [rev]. by rewrite <- app_assoc.
Qed.

(** a name without [..] stays below the base *)
Lemma join_below base name : is_abs base = true -> name <> "" -> ".." ∉ split_byte "/" name ->
  path_join base name = path_of (path_elements base ++ kept_elements name).
Proof.
  intros Hb Hn Hd. destruct base as [|c b]; [done|]. destruct name as [|n0 n]; [done|].
  unfold path_join. rewrite path_clean_abs by exact Hb. unfold clean_abs. rewrite elements_app, foldl_below by done.
  by rewrite rev_app_distr, !rev_involutive.
Qed.

Lemma path_of_app l r : l <> [] -> r <> [] -> path_of (l ++ r) = path_of l +:+ "/" +:+ join "/" r.
Proof.
  intros Hl Hr. unfold path_of. rewrite str_app_assoc. f_equal. destruct l as [|x l]; [done|]. clear Hl. revert x.
  induction l as [|y l IH]; intros x; cbn [app]; [destruct r; [done|by rewrite join_cons]|].
  rewrite !join_cons. cbn [app] in IH. rewrite IH. by rewrite !str_app_assoc.
Qed.

Lemma split_path_of l : l <> [] -> Forall clean_element l -> split_byte "/" (path_of l) = "" :: l.
Proof.
  intros Hne Hl. unfold path_of. change ("/" +:+ ?s) with (String "/" s). cbn [split_byte]. rewrite Ascii.eqb_refl.
  rewrite split_join; [done..|]. eapply Forall_impl; [exact Hl|]. by intros y (_ & _ & _ & ?).
Qed.

(** a clean path that has another one and a slash as its prefix is below it *)
Lemma prefix_below l m : l <> [] -> Forall clean_element l -> Forall clean_element m ->
  has_prefix (path_of l +:+ "/") (path_of m) = true -> exists r, r <> [] /\ m = l ++ r.
Proof.
  intros Hne Hl Hm [rest Hrest]%has_prefix_app. rewrite str_app_assoc in Hrest. cbn [String.append] in Hrest.
  pose proof (split_byte_app "/" (path_of l) rest) as Hs. rewrite <- Hrest, (split_path_of l) in Hs by done.
  destruct m as [|x m].
  - exfalso. apply (f_equal length) in Hs. rewrite length_app in Hs. cbn in Hs.
    pose proof (split_byte_nonempty "/" rest) as Hn. destruct l; [done|]. destruct (split_byte "/" rest); [done|]. cbn in Hs. lia.
  - rewrite split_path_of in Hs by done. injection Hs as Hs. exists (split_byte "/" rest).
    split; [apply split_byte_nonempty|by rewrite Hs].
Qed.

Lemma path_clean_elements p : is_abs p = true -> exists m, Forall clean_element m /\ path_clean p = path_of m.
Proof. intros Hp. exists (path_elements p). split; [apply path_elements_clean|]. by rewrite path_clean_abs. Qed.

Lemma path_join_elements base name : is_abs base = true -> exists m, Forall clean_element m /\ path_join base name = path_of m.
Proof.
  intros Hb. destruct base as [|c b]; [done|]. destruct name as [|n0 n]; [by apply path_clean_elements|].
  unfold path_join. by apply path_clean_elements.
Qed.

Lemma clean_element_kept name : ".." ∉ split_byte "/" name -> Forall clean_element (kept_elements name).
Proof.
  intros Hd. apply Forall_forall. intros e [He Hin]%elem_of_filter_bool. apply negb_true_iff, orb_false_iff in He as [H1 H2].
  apply String.eqb_neq in H1, H2. pose proof (split_plain "/" name) as Hp. rewrite Forall_forall in Hp.
  split_and!; [done..| |by apply Hp]. by intros ->.
Qed.

(** ** A path and its directory *)
Lemma cut_last_here c a b : has_byte c b = false -> cut_last c (a +:+ String c b) = Some (a, b).
Proof.
  intros Hb. assert (cut_last c b = None) as Hn.
  { revert Hb. induction b as [|x b IH]; [done|]. cbn. intros [Hx Hb]%orb_false_iff. by rewrite IH, Hx. }
  induction a as [|x a IH]; cbn [String.append cut_last]; [by rewrite Hn, Ascii.eqb_refl|by rewrite IH].
Qed.

Lemma path_of_snoc l x : path_of (l ++ [x]) = (match l with [] => "" | _ => path_of l end) +:+ "/" +:+ x.
Proof. destruct l as [|y l]; [done|]. by rewrite path_of_app. Qed.

Lemma Dir_path_of l x : Forall clean_element l -> has_byte "/" x = false -> Dir (path_of (l ++ [x])) = path_of l.
Proof.
  intros Hl Hx. rewrite path_of_snoc. unfold Dir, up_to_slash. cbn [String.append].
  rewrite (cut_last_here "/" _ x) by done. destruct l as [|y l]; [done|].
  rewrite path_clean_abs by done. unfold clean_abs.
  change (path_of (y :: l) +:+ "/") with (path_of (y :: l) +:+ "/" +:+ ""). rewrite elements_app, path_elements_of by done.
  cbn [split_byte foldl]. change (abs_step (rev (y :: l)) "") with (rev (y :: l)). by rewrite rev_involutive.
Qed.

Lemma path_base_path_of l x : clean_element x -> path_base (path_of (l ++ [x])) = x.
Proof.
  intros (Hx & _ & _ & Hs). rewrite path_of_snoc. set (a := match l with [] => "" | _ => _ end).
  assert (forall a, trim_right is_slash (a +:+ "/" +:+ x) = a +:+ "/" +:+ x) as Ht.
  { assert (trim_right is_slash x = x) as Htx by (apply trim_right_id; exact Hs). clear a. intros a.
    assert (trim_right is_slash ("/" +:+ x) = "/" +:+ x) as H1 by (cbn [String.append trim_right]; rewrite Htx; by destruct x).
    induction a as [|c a IH]; [done|]. cbn [String.append trim_right] in *. rewrite IH. by destruct a. }
  unfold path_base. rewrite Ht. cbn [String.append].
  destruct (a +:+ String "/" x) as [|c r] eqn:E; [by destruct a|]. rewrite <- E, split_byte_app, (split_one_line "/" x) by done.
  by rewrite List.last_last.
Qed.

(** joining a name to a clean directory *)
Lemma join_name l x : Forall clean_element l -> clean_element x -> path_join (path_of l) x = path_of (l ++ [x]).
Proof.
  intros Hl Hx. pose proof Hx as (Hne & Hdot & Hdots & Hs). rewrite join_below; [|done..|].
  - rewrite path_elements_of by done. unfold kept_elements. rewrite split_one_line by done. cbn [List.filter].
    apply String.eqb_neq in Hne, Hdot. by rewrite Hne, Hdot.
  - rewrite split_one_line by done. intros ?%list_elem_of_singleton. congruence.
Qed.

Lemma path_of_inj l l' : Forall clean_element l -> Forall clean_element l' -> path_of l = path_of l' -> l = l'.
Proof. intros Hl Hl' E. by rewrite <- (path_elements_of l), <- (path_elements_of l'), E by done. Qed.

Lemma strip_common_spec b t :
  exists c, b = c ++ (strip_common b t).1 /\ t = c ++ (strip_common b t).2 /\
    match strip_common b t with (x :: _, y :: _) => x <> y | _ => True end.
Proof.
  revert t. induction b as [|x b IH]; intros t; [by exists []|]. destruct t as [|y t]; [by exists []|]. cbn [strip_common].
  destruct (String.eqb_spec x y) as [->|Hne]; [|by exists []].
  destruct (IH t) as (c & Hb & Ht & Hd). exists (y :: c). cbn [app]. by rewrite <- Hb, <- Ht.
Qed.
