(* ===== verification/Engine.v ===== *)
(** * Engine identifiers and SQL identifier quoting

    [internal/engine/engine.go] (the alias table behind [databases[].engine])
    and [internal/db/ident/ident.go] (validated identifier quoting). *)
From stdpp Require Import base strings list sets.
From Stdlib Require Import ZArith Lia.
From S2P Require Import Prelude GoStrings.

Module Engine.

(** [type Family string] with its seven constants *)
Inductive Family :=
| FamilyMySQL | FamilyPostgres | FamilyMongo | FamilyRedis | FamilyES | FamilyS3 | FamilyFile.

#[export] Instance Family_eq_dec : EqDecision Family.
Proof. solve_decision. Defined.

(** the string value of each constant *)
Definition family_label (f : Family) : string :=
  match f with
  | FamilyMySQL => "mysql"
  | FamilyPostgres => "postgres"
  | FamilyMongo => "mongodb"
  | FamilyRedis => "redis"
  | FamilyES => "elasticsearch"
  | FamilyS3 => "s3"
  | FamilyFile => "file"
  end.

Definition Known : list string :=
  ["mysql"; "mariadb"; "tidb"; "postgres"; "postgresql"; "mongodb"; "redis"; "valkey";
   "dragonfly"; "elasticsearch"; "opensearch"; "s3"; "sqlite"; "duckdb"].

(** the alias lists of the cases of [Canonical]'s switch, in its order *)
Definition canonical_cases : list (list string * Family) :=
  [ (["mysql"; "mariadb"; "tidb"], FamilyMySQL);
    (["postgres"; "postgresql"], FamilyPostgres);
    (["mongodb"], FamilyMongo);
    (["redis"; "valkey"; "dragonfly"], FamilyRedis);
    (["elasticsearch"; "opensearch"], FamilyES);
    (["s3"], FamilyS3);
    (["sqlite"; "duckdb"], FamilyFile) ].

Definition Canonical (eng : string) : option Family :=
  snd <$> List.find (fun c => bool_decide (eng ∈ c.1)) canonical_cases.

Inductive ScopeKind := ScopeName | ScopePrefix.

#[export] Instance ScopeKind_eq_dec : EqDecision ScopeKind.
Proof. solve_decision. Defined.

Definition Scope (f : Family) : ScopeKind :=
  match f with FamilyRedis | FamilyES | FamilyS3 => ScopePrefix | _ => ScopeName end.

(** The write-side convention of the store: an alias is replaced by its
    family's label, an unknown engine is kept. *)
Definition canonical_label (eng : string) : string :=
  match Canonical eng with Some f => family_label f | None => eng end.

Lemma Canonical_Known eng : is_Some (Canonical eng) <-> eng ∈ Known.
Proof.
  unfold Canonical, canonical_cases, Known; simpl.
  split.
  - intros [f H]. repeat (case_bool_decide; [set_solver|]). simpl in H. discriminate.
  - intros H. repeat (case_bool_decide; [simpl; eauto|]). set_solver.
Qed.

Lemma Canonical_label f :
  Canonical (family_label f) = if decide (f = FamilyFile) then None else Some f.
Proof. destruct f; reflexivity. Qed.

Lemma canonical_label_idem eng : canonical_label (canonical_label eng) = canonical_label eng.
Proof.
  unfold canonical_label at 2 3. destruct (Canonical eng) as [f|] eqn:E.
  - unfold canonical_label. rewrite Canonical_label. by case_decide; subst.
  - unfold canonical_label. by rewrite E.
Qed.

Lemma Canonical_canonical_label eng f :
  Canonical eng = Some f -> f <> FamilyFile -> Canonical (canonical_label eng) = Some f.
Proof. intros E Hf. unfold canonical_label. rewrite E, Canonical_label. by rewrite decide_False. Qed.

(** ** Properties *)

(** [Canonical] recognises exactly the engines of [Known], and
    writing its answer back as a label is stable: the label of a networked
    family maps to that family again, while the label of the file family,
    the only one that is not itself an alias, is not recognised. *)
Theorem Canonical_spec (eng : string) :
  (is_Some (Canonical eng) <-> eng ∈ Known) /\
  canonical_label (canonical_label eng) = canonical_label eng /\
  (forall f, Canonical eng = Some f ->
     Canonical (canonical_label eng) = if decide (f = FamilyFile) then None else Some f).
Proof.
  split; [apply Canonical_Known|]. split; [apply canonical_label_idem|].
  intros f E. unfold canonical_label. rewrite E. apply Canonical_label.
Qed.

End Engine.

Module Ident.

Inductive error := EmptyIdentifier | InvalidIdentifier (s : string).

Definition ident_char (c : ascii) : bool :=
  is_upper c || is_lower c || is_digit c || Ascii.eqb c "_".

(** [validate] ranges over runes; a rune outside ASCII is never accepted, so
    the test on bytes decides the same thing. *)
Definition validate (s : string) : res error unit :=
  if String.eqb s "" then Err EmptyIdentifier
  else if str_all ident_char s then Ok tt else Err (InvalidIdentifier s).

Definition QuoteMySQL (s : string) : res error string :=
  res_bind (validate s) (fun _ => Ok (String "`" (s +:+ String "`" EmptyString))).

Definition QuotePostgres (s : string) : res error string :=
  res_bind (validate s) (fun _ => Ok (String "034" (s +:+ String "034" EmptyString))).

Lemma validate_ok s : validate s = Ok tt <-> s <> "" /\ str_all ident_char s = true.
Proof.
  unfold validate. destruct (String.eqb_spec s ""); [naive_solver|].
  destruct (str_all ident_char s); naive_solver.
Qed.

Lemma ident_char_not c : ident_char c = true -> c <> "`"%char /\ c <> "034"%char /\ c <> "'"%char.
Proof. intros H. repeat split; intros ->; vm_compute in H; discriminate. Qed.

Lemma no_quote_inside q s :
  str_all ident_char s = true ->
  (forall c, ident_char c = true -> c <> q) ->
  str_any (fun c => Ascii.eqb c q) s = false.
Proof.
  intros Hs Hq. induction s as [|c s IH]; [done|]. cbn in *.
  apply andb_prop in Hs as [Hc Hs]. specialize (Hq c Hc).
  apply Ascii.eqb_neq in Hq. rewrite Hq. auto.
Qed.

(** a quoted identifier cannot break out of its quotes.  Whatever
    [QuoteMySQL] or [QuotePostgres] accept comes back as the opening quote,
    the text itself and the closing quote, and neither quote character nor
    an apostrophe occurs in the text. *)
Theorem Quote_no_escape (s q : string) :
  (QuoteMySQL s = Ok q ->
     q = String "`" (s +:+ String "`" EmptyString) /\ s <> "" /\
     cut_byte "`" (s +:+ String "`" EmptyString) = Some (s, EmptyString)) /\
  (QuotePostgres s = Ok q ->
     q = String "034" (s +:+ String "034" EmptyString) /\ s <> "" /\
     cut_byte "034" (s +:+ String "034" EmptyString) = Some (s, EmptyString)).
Proof.
  unfold QuoteMySQL, QuotePostgres.
  split; intros ([] & [Hne Hall]%validate_ok & [= <-])%res_bind_ok;
    (split; [done|]; split; [done|]; apply cut_byte_here;
     apply no_quote_inside; [done|]; intros c Hc; apply (ident_char_not c Hc)).
Qed.

Lemma Quote_no_escape_witness :
  QuoteMySQL "app_1" = Ok "`app_1`" /\
  cut_byte "`" ("app_1" +:+ String "`" EmptyString) = Some ("app_1", EmptyString).
Proof.
  split; [reflexivity|].
  exact (proj2 (proj2 (proj1 (Quote_no_escape "app_1" "`app_1`") eq_refl))).
Defined.

End Ident.
