(* ===== verification/Slug.v ===== *)
(** * Worktree slugs

    [internal/slug/slug.go]: the slug of a linked worktree ([For]) and of the
    main worktree ([ForMain]), the tag that carries its uniqueness, and the
    Redis database indices derived from it with POSIX [cksum]. *)
From stdpp Require Import base strings list sets.
From Stdlib Require Import ZArith Lia.
From S2P Require Import Prelude GoStrings Engine.

(** ** Plain text functions *)
Definition hex_digits : string := "0123456789abcdef".
Definition hex_digit (n : N) : ascii := default "0"%char (String.get (N.to_nat n) hex_digits).

Fixpoint hexEncode (b : string) : string :=
  match b with
  | EmptyString => EmptyString
  | String x b' =>
      String (hex_digit (N.shiftr (code x) 4)) (String (hex_digit (N.land (code x) 15)) (hexEncode b'))
  end.

Definition is_hex (c : ascii) : bool := is_digit c || in_range "a" "f" c.
Definition is_underscore (c : ascii) : bool := Ascii.eqb c "_".
Definition slug_char (c : ascii) : bool := is_lower c || is_digit c || is_underscore c.

(** [strings.ReplaceAll(s, "_", "-")] *)
Definition dash (s : string) : string := str_map (fun c => if is_underscore c then "-"%char else c) s.

(** [sanitiseBranch]'s loop over the lowercased runes; [prev] is
    [prevUnderscore].  A rune kept is an ASCII letter or digit. *)
Fixpoint sanitise_loop (prev : bool) (rs : list Z) : string :=
  match rs with
  | [] => EmptyString
  | r :: rs' =>
      if ((97 <=? r) && (r <=? 122) || (48 <=? r) && (r <=? 57))%Z
      then String (Ascii.ascii_of_N (Z.to_N r)) (sanitise_loop false rs')
      else if prev then sanitise_loop true rs'
      else String "_" (sanitise_loop true rs')
  end.

Definition sanitiseBranch (branch : string) : string :=
  trim is_underscore (sanitise_loop true (map lower_rune (runes branch))).

(** [ticketRe] is [([A-Z]+)-([0-9]+)]: the leftmost match.  [span] takes the
    longest run; a shorter run of capitals could not be followed by '-'. *)
Fixpoint span (p : ascii -> bool) (s : string) : string * string :=
  match s with
  | String c s' =>
      if p c then let (a, b) := span p s' in (String c a, b) else (EmptyString, s)
  | EmptyString => (EmptyString, EmptyString)
  end.

Definition ticket_at (s : string) : option (string * string) :=
  match span is_upper s with
  | (String _ _ as caps, String d rest) =>
      if Ascii.eqb d "-" then
        match span is_digit rest with
        | (String _ _ as num, _) => Some (caps, num)
        | _ => None
        end
      else None
  | _ => None
  end.

Fixpoint find_ticket (s : string) : option (string * string) :=
  match ticket_at s with
  | Some t => Some t
  | None => match s with EmptyString => None | String _ s' => find_ticket s' end
  end.

Definition extractTicket (s : string) : option string :=
  match find_ticket s with
  | Some (caps, num) => Some (str_map to_lower caps +:+ "_" +:+ num)
  | None => None
  end.

Definition composeTicket (readable tag : string) : string :=
  let out := readable +:+ "_" +:+ tag in
  if (String.length out <=? 32)%nat then out
  else
    let keep := Z.to_nat (Z.max (32 - 1 - Z.of_nat (String.length tag)) 1) in
    trim_right is_underscore (str_take keep readable) +:+ "_" +:+ tag.

(** ** POSIX cksum, on 32-bit words *)
Definition w32 (z : Z) : Z := (z mod 2 ^ 32)%Z.

Definition crc_bit (crc : Z) : Z :=
  if (Z.land crc 2147483648 =? 0)%Z then w32 (Z.shiftl crc 1)
  else Z.lxor (w32 (Z.shiftl crc 1)) 79764919.

Definition crcUpdate (crc b : Z) : Z :=
  Nat.iter 8 crc_bit (Z.lxor crc (w32 (Z.shiftl b 24))).

(** the loop over [length], a uint64, low byte first: eight rounds reach 0 *)
Fixpoint crc_length (fuel : nat) (crc len : Z) : Z :=
  match fuel with
  | O => crc
  | S f => if (len =? 0)%Z then crc
           else crc_length f (crcUpdate crc (Z.land len 255)) (Z.shiftr len 8)
  end.

Fixpoint crc_bytes (crc : Z) (s : string) : Z :=
  match s with
  | EmptyString => crc
  | String c s' => crc_bytes (crcUpdate crc (Z.of_N (code c))) s'
  end.

Definition sysvCksum (input : string) : Z :=
  let crc := crc_length 8 (crc_bytes 0 input) (Z.of_nat (String.length input)) in
  Z.lxor crc 4294967295.

Example cksum_posix : sysvCksum "123456789" = 930766865%Z.
Proof. vm_compute. reflexivity. Qed.

(** ** Redis indices: the package's [redisDBMin, redisDBMax] *)
Record redis_range := { db_min : Z; db_max : Z }.
Definition default_range : redis_range := {| db_min := 6; db_max := 15 |}.

Inductive range_error := OutsideLogicalSpace (lo hi : Z) | MinAboveMax (lo hi : Z).

Definition SetRedisDBRange (lo hi : Z) : res range_error redis_range :=
  if ((lo <? 0) || (15 <? hi))%Z then Err (OutsideLogicalSpace lo hi)
  else if (hi <? lo)%Z then Err (MinAboveMax lo hi)
  else Ok {| db_min := lo; db_max := hi |}.

Definition u8 (z : Z) : Z := (z mod 256)%Z.

Definition RedisIndices (r : redis_range) (value : string) : Z * Z :=
  let h := sysvCksum value in
  let span := (u8 (db_max r - db_min r) + 1)%Z in
  let lo := db_min r in
  (u8 (h mod span + lo), u8 (h / 10 mod span + lo))%Z.

(** ** Slugs *)
Inductive Source := SourceTicket | SourcePathHash | SourceMain.
Record Slug := { Value : string; src_of : Source }.

Definition Dashed (s : Slug) : string := dash (Value s).

Section Derivation.
(** [blake3.Sum256], a [[32]byte] digest; [TREEMAN_SLUG_SUFFIX]; and the
    answer of [os.Getwd]. *)
Variable blake3 : string -> string.
Variable suffix : string.
Variable getwd : option string.

Definition tag (s : string) : string :=
  str_take 8 (hexEncode (blake3 (s +:+ String "000" suffix))).

Definition pathTag (worktreePath : string) : string :=
  tag (default worktreePath (path_abs getwd worktreePath)).

Definition For (worktreePath branch : string) : Slug :=
  let t := pathTag worktreePath in
  match extractTicket (path_base worktreePath) with
  | Some ticket => {| Value := composeTicket ticket t; src_of := SourceTicket |}
  | None => {| Value := "wt_" +:+ t; src_of := SourcePathHash |}
  end.

Definition ForMain (worktreePath branch : string) : Slug :=
  if String.eqb branch "" then
    {| Value := "main_detached_" +:+ tag worktreePath; src_of := SourceMain |}
  else
    let s := sanitiseBranch branch in
    let readable := if String.eqb s "" then "main" else "main" +:+ "_" +:+ s in
    {| Value := composeTicket readable (tag branch); src_of := SourceMain |}.
End Derivation.

#[global] Arguments tag _ _ _ : simpl never.
#[global] Arguments pathTag _ _ _ _ : simpl never.
#[global] Arguments sanitiseBranch _ : simpl never.

(** ** Lemmas *)
Lemma hex_digit_hex n : (n < 16)%N -> is_hex (hex_digit n) = true.
Proof.
  intros H. assert (Forall (fun k => is_hex (hex_digit (N.of_nat k)) = true) (seq 0 16)) as HF.
  { repeat constructor. }
  rewrite Forall_forall in HF. rewrite <- (N2Nat.id n).
  apply HF, elem_of_seq. lia.
Qed.

Lemma code_lt c : (code c < 256)%N.
Proof. apply Ascii.N_ascii_bounded. Qed.

Lemma hexEncode_hex b : str_all is_hex (hexEncode b) = true.
Proof.
  induction b as [|x b IH]; [done|]. cbn -[hex_digit]. rewrite IH, !hex_digit_hex; [done| |].
  - change 15%N with (N.ones 4). rewrite N.land_ones. apply N.mod_lt. done.
  - rewrite N.shiftr_div_pow2. apply N.Div0.div_lt_upper_bound. pose proof (code_lt x). simpl; lia.
Qed.

Lemma hexEncode_length b : String.length (hexEncode b) = 2 * String.length b.
Proof. induction b; cbn -[hex_digit]; lia. Qed.

Lemma hex_slug c : is_hex c = true -> slug_char c = true.
Proof. destruct c as [[][][][][][][][]]; vm_compute; congruence. Qed.

Lemma slug_ident c : slug_char c = true -> Ident.ident_char c = true.
Proof. destruct c as [[][][][][][][][]]; vm_compute; congruence. Qed.

Lemma span_all p s a b : span p s = (a, b) -> str_all p a = true /\ s = a +:+ b.
Proof.
  revert a b; induction s as [|c s IH]; intros a b; cbn; [by intros [= <- <-]|].
  destruct (p c) eqn:Hc; [|by intros [= <- <-]].
  destruct (span p s) as [a' b'] eqn:E. intros [= <- <-].
  destruct (IH _ _ eq_refl) as [Ha ->]. cbn. by rewrite Hc.
Qed.

Lemma find_ticket_all s caps num :
  find_ticket s = Some (caps, num) -> str_all is_upper caps = true /\ str_all is_digit num = true.
Proof.
  assert (Hat : forall t, ticket_at t = Some (caps, num) ->
                     str_all is_upper caps = true /\ str_all is_digit num = true).
  { intros t. unfold ticket_at. destruct (span is_upper t) as [a b] eqn:Ea.
    destruct a as [|x a]; [done|]. destruct b as [|d rest]; [done|].
    destruct (Ascii.eqb d "-"); [|done].
    destruct (span is_digit rest) as [u v] eqn:Ed. destruct u; [done|].
    intros [= <- <-]. apply span_all in Ea as [? _], Ed as [? _]. done. }
  induction s as [|c s IH]; cbn [find_ticket]; destruct (ticket_at _) eqn:E; intros H;
    simplify_eq; eauto.
Qed.

Lemma extractTicket_chars s t : extractTicket s = Some t -> str_all slug_char t = true.
Proof.
  unfold extractTicket. destruct (find_ticket s) as [[caps num]|] eqn:E; [|done].
  intros [= <-]. apply find_ticket_all in E as [Hc Hn].
  rewrite !str_all_app. cbn.
  assert (str_all slug_char (str_map to_lower caps) = true) as ->.
  { clear -Hc. induction caps as [|c caps IH]; [done|]. cbn in *.
    apply andb_prop in Hc as [Hc Hcs]. rewrite IH by done.
    apply to_lower_upper in Hc. unfold slug_char. by rewrite Hc. }
  cbn. eapply str_all_weaken; [|exact Hn]. intros c Hd. unfold slug_char.
  rewrite Hd. by destruct (is_lower c).
Qed.

(** The result of [composeTicket] for the eight-byte tags the package uses *)
Lemma composeTicket_shape readable t :
  String.length t = 8 ->
  exists p, composeTicket readable t = p +:+ "_" +:+ t /\
            String.length (composeTicket readable t) <= 32 /\
            (str_all slug_char readable = true -> str_all slug_char p = true) /\
            (String.length readable <= 23 -> p = readable).
Proof.
  intros Ht. unfold composeTicket. cbv zeta. rewrite !str_length_app, Ht.
  change (String.length "_" + 8) with 9.
  destruct (Nat.leb_spec (String.length readable + 9) 32) as [Hle|Hgt].
  - exists readable. split; [done|]. split; [|split; intros; done].
    rewrite !str_length_app; cbn [String.length]; lia.
  - change (Z.to_nat _) with 23. set (q := str_take 23 readable). exists (trim_right is_underscore q).
    split; [done|]. split; [|split].
    + rewrite !str_length_app; cbn [String.length].
      pose proof (trim_right_length is_underscore q) as Hq.
      assert (String.length q <= 23); [|lia].
      subst q. rewrite str_length_take. lia.
    + intros Hr. apply str_all_trim_right, str_all_take, Hr.
    + lia.
Qed.

(** The shape every sanitised branch has: no leading, trailing or doubled
    underscore ([prev] as in the loop). *)
Fixpoint clean (prev : bool) (s : string) : bool :=
  match s with
  | EmptyString => negb prev
  | String c s' =>
      if is_underscore c then negb prev && clean true s'
      else (is_lower c || is_digit c) && clean false s'
  end.

(** the same, a trailing underscore allowed *)
Fixpoint wclean (prev : bool) (s : string) : bool :=
  match s with
  | EmptyString => true
  | String c s' =>
      if is_underscore c then negb prev && wclean true s'
      else (is_lower c || is_digit c) && wclean false s'
  end.

Lemma kept_rune r :
  ((97 <=? r) && (r <=? 122) || (48 <=? r) && (r <=? 57))%Z = true ->
  let c := Ascii.ascii_of_N (Z.to_N r) in
  is_underscore c = false /\ (is_lower c || is_digit c) = true.
Proof.
  intros H c. assert (Hc : code c = Z.to_N r).
  { apply Ascii.N_ascii_embedding. apply orb_prop in H as [H|H]; bools; lia. }
  clearbody c. unfold is_lower, is_digit, in_range. rewrite Hc.
  change (code "a") with 97%N. change (code "z") with 122%N.
  change (code "0") with 48%N. change (code "9") with 57%N.
  split.
  - unfold is_underscore. apply Ascii.eqb_neq. intros ->. change (code "_") with 95%N in Hc.
    apply orb_prop in H as [H|H]; bools; lia.
  - apply orb_prop in H as [H|H]; bools.
    + replace ((97 <=? Z.to_N r) && (Z.to_N r <=? 122))%N with true; [done|].
      symmetry; apply andb_true_intro; rewrite !N.leb_le; lia.
    + replace ((48 <=? Z.to_N r) && (Z.to_N r <=? 57))%N with true; [by rewrite orb_true_r|].
      symmetry; apply andb_true_intro; rewrite !N.leb_le; lia.
Qed.

Lemma sanitise_loop_wclean rs prev : wclean prev (sanitise_loop prev rs) = true.
Proof.
  revert prev; induction rs as [|r rs IH]; intros prev; cbn [sanitise_loop]; [done|].
  destruct (_ || _) eqn:E.
  - apply kept_rune in E as [E1 E2]. cbn [wclean]. rewrite E1, E2. apply IH.
  - destruct prev; [apply IH|]. cbn. apply IH.
Qed.

(** [trim_right] of a weakly clean text leaves it clean, unless nothing is left *)
Lemma trim_right_clean prev s :
  wclean prev s = true ->
  trim_right is_underscore s = "" \/ clean prev (trim_right is_underscore s) = true.
Proof.
  revert prev; induction s as [|c s IH]; intros prev; cbn [wclean trim_right]; [auto|].
  destruct (is_underscore c) eqn:Ec.
  - intros [Hp Hs]%andb_prop. destruct (IH _ Hs) as [E|E].
    + rewrite E. auto.
    + destruct (trim_right is_underscore s) eqn:Et; [auto|].
      right. cbn [clean]. rewrite Ec, Hp. exact E.
  - intros [Hp Hs]%andb_prop. destruct (IH _ Hs) as [E|E].
    + rewrite E. right. cbn. by rewrite Ec, Hp.
    + right. destruct (trim_right is_underscore s) eqn:Et; cbn [clean]; rewrite Ec, Hp; exact E.
Qed.

Lemma trim_left_wclean s : wclean true s = true -> trim_left is_underscore s = s.
Proof. destruct s as [|c s]; cbn; [done|]. by destruct (is_underscore c). Qed.

Lemma sanitiseBranch_clean b : sanitiseBranch b = "" \/ clean true (sanitiseBranch b) = true.
Proof.
  unfold sanitiseBranch, trim. rewrite trim_left_wclean by apply sanitise_loop_wclean.
  apply trim_right_clean, sanitise_loop_wclean.
Qed.

Lemma clean_wclean prev s : clean prev s = true -> wclean prev s = true.
Proof.
  revert prev; induction s as [|c s IH]; intros prev; cbn; [done|].
  destruct (is_underscore c); intros [-> H]%andb_prop; cbn; auto.
Qed.

Lemma clean_trim_right prev s : clean prev s = true -> trim_right is_underscore s = s.
Proof.
  revert prev; induction s as [|c s IH]; intros prev; cbn [clean trim_right]; [done|].
  destruct (is_underscore c) eqn:Ec; intros [_ H]%andb_prop; rewrite (IH _ H); destruct s; done.
Qed.

Lemma runes_ascii c s : (code c < 128)%N -> runes (String c s) = Z.of_N (code c) :: runes s.
Proof.
  intros H. unfold runes. cbn [runes_from]. unfold decode_rune.
  destruct (Z.ltb_spec (Z.of_N (code c)) 128); [done|lia].
Qed.

Lemma slug_char_code c :
  slug_char c = true ->
  (code c < 128)%N /\ lower_rune (Z.of_N (code c)) = Z.of_N (code c) /\
  Ascii.ascii_of_N (Z.to_N (Z.of_N (code c))) = c.
Proof. destruct c as [[][][][][][][][]]; vm_compute; intros; simplify_eq; done. Qed.

Lemma alnum_rune c :
  (is_lower c || is_digit c) = true ->
  ((97 <=? Z.of_N (code c)) && (Z.of_N (code c) <=? 122) ||
   (48 <=? Z.of_N (code c)) && (Z.of_N (code c) <=? 57))%Z = true.
Proof. destruct c as [[][][][][][][][]]; vm_compute; congruence. Qed.

Lemma clean_char prev c s : clean prev (String c s) = true -> slug_char c = true.
Proof.
  cbn. unfold slug_char. destruct (is_underscore c); [by rewrite !orb_true_r|].
  by intros [-> _]%andb_prop.
Qed.

Lemma sanitise_loop_fixed prev s :
  clean prev s = true -> sanitise_loop prev (map lower_rune (runes s)) = s.
Proof.
  revert prev; induction s as [|c s IH]; intros prev H; [done|].
  destruct (slug_char_code c (clean_char _ _ _ H)) as (Hlt & Hlow & Hback).
  rewrite runes_ascii by done. cbn [map]. rewrite Hlow. cbn [clean] in H. cbn [sanitise_loop].
  destruct (is_underscore c) eqn:Ec; apply andb_prop in H as [H1 H2].
  - unfold is_underscore in Ec. apply Ascii.eqb_eq in Ec as ->. cbn.
    apply negb_true_iff in H1 as ->. f_equal. apply IH, H2.
  - rewrite (alnum_rune _ H1), Hback. f_equal. apply IH, H2.
Qed.

Lemma sanitise_fixed s : clean true s = true -> sanitiseBranch s = s.
Proof.
  intros H. unfold sanitiseBranch, trim. rewrite sanitise_loop_fixed by done.
  rewrite trim_left_wclean by (by apply clean_wclean). by eapply clean_trim_right.
Qed.

Lemma clean_chars prev s : clean prev s = true -> str_all slug_char s = true.
Proof.
  revert prev; induction s as [|c s IH]; intros prev H; [done|].
  pose proof (clean_char _ _ _ H) as Hc. cbn in H |- *. rewrite Hc. cbn.
  destruct (is_underscore c); apply andb_prop in H as [_ H]; eauto.
Qed.

Lemma sanitise_chars b : str_all slug_char (sanitiseBranch b) = true.
Proof. destruct (sanitiseBranch_clean b) as [->|H]; [done|]. by eapply clean_chars. Qed.

(** joining two clean texts with an underscore *)
Lemma clean_join prev a b :
  clean prev a = true -> clean true b = true -> clean prev (a +:+ String "_" b) = true.
Proof.
  revert prev; induction a as [|c a IH]; intros prev; cbn [clean String.append].
  - intros -> Hb. exact Hb.
  - destruct (is_underscore c); intros [-> Ha]%andb_prop Hb; cbn; auto.
Qed.

Lemma hex_not_underscore c : is_hex c = true -> is_underscore c = false /\ (is_lower c || is_digit c) = true.
Proof. destruct c as [[][][][][][][][]]; vm_compute; intros; simplify_eq; done. Qed.

Lemma hex_clean prev t : str_all is_hex t = true -> (t <> "" \/ prev = false) -> clean prev t = true.
Proof.
  revert prev; induction t as [|c t IH]; intros prev; cbn [str_all clean].
  - intros _ [Hne| ->]; done.
  - intros [Hc Ht]%andb_prop _. apply hex_not_underscore in Hc as [-> ->]. cbn. auto.
Qed.

(** ** Properties *)
Section Properties.
Variable blake3 : string -> string.
Variable suffix : string.
Variable getwd : option string.
(** the digest of package blake3 is an array of 32 bytes *)
Hypothesis blake3_32 : forall s, String.length (blake3 s) = 32.

Local Abbreviation For := (For blake3 suffix getwd).
Local Abbreviation ForMain := (ForMain blake3 suffix).
Local Abbreviation tag := (tag blake3 suffix).
Local Abbreviation pathTag := (pathTag blake3 suffix getwd).

Lemma tag_length s : String.length (tag s) = 8.
Proof using blake3_32. unfold Slug.tag. rewrite str_length_take, hexEncode_length, blake3_32. done. Qed.

Lemma tag_hex s : str_all is_hex (tag s) = true.
Proof using. apply str_all_take, hexEncode_hex. Qed.

Lemma tag_slug s : str_all slug_char (tag s) = true.
Proof using. eapply str_all_weaken; [apply hex_slug|apply tag_hex]. Qed.

Lemma pathTag_length w : String.length (pathTag w) = 8.
Proof using blake3_32. apply tag_length. Qed.

(** Every slug the package derives, with the tag it is keyed on *)
Inductive derived : Slug -> string -> Prop :=
| derived_for w b : derived (For w b) (pathTag w)
| derived_main w b : derived (ForMain w b) (tag (if String.eqb b "" then w else b)).

Lemma derived_shape s t :
  derived s t ->
  String.length t = 8 /\
  exists p, Value s = p +:+ "_" +:+ t /\ str_all slug_char p = true /\
            String.length (Value s) <= 32.
Proof using blake3_32.
  intros [w b|w b].
  - split; [apply pathTag_length|]. unfold Slug.For. destruct (extractTicket _) as [r|] eqn:E; cbn.
    + destruct (composeTicket_shape r _ (pathTag_length w)) as (p & Hp & Hlen & Hch & _).
      exists p. rewrite Hp at 1. eauto using extractTicket_chars.
    + exists "wt". rewrite pathTag_length. repeat split; lia.
  - split; [apply tag_length|]. unfold Slug.ForMain. destruct (String.eqb b "") eqn:E; cbn.
    + exists "main_detached". rewrite tag_length. repeat split; lia.
    + destruct (composeTicket_shape (if String.eqb (sanitiseBranch b) "" then "main"
                   else "main" +:+ "_" +:+ sanitiseBranch b) _ (tag_length b))
        as (p & Hp & Hlen & Hch & _).
      exists p. rewrite Hp at 1. repeat split; auto. apply Hch.
      destruct (String.eqb (sanitiseBranch b) ""); [done|]. cbn. apply sanitise_chars.
Qed.

(** C40: every slug, of a linked or of the main worktree, is made of lower-case
    letters, digits and underscores only, so it is a valid SQL identifier; it
    has at most 32 bytes, and its last nine bytes are an underscore and the
    eight-digit tag it is keyed on. *)
Theorem slug_wellformed (s : Slug) (t : string) (H : derived s t) :
  str_all slug_char (Value s) = true /\
  Ident.validate (Value s) = Ok tt /\
  String.length (Value s) <= 32 /\
  exists p, Value s = p +:+ "_" +:+ t /\ String.length t = 8 /\ str_all is_hex t = true.
Proof using blake3_32.
  destruct (derived_shape _ _ H) as (Ht & p & Hp & Hch & Hlen).
  assert (str_all is_hex t = true) as Hhex by (destruct H; apply tag_hex).
  assert (str_all slug_char (Value s) = true) as Hslug.
  { rewrite Hp, !str_all_app, Hch. cbn. eapply str_all_weaken; [exact hex_slug|done]. }
  split; [done|]. split; [|split; [done|eauto]].
  apply Ident.validate_ok. split; [rewrite Hp; by destruct p|]. by eapply str_all_weaken; [exact slug_ident|].
Qed.

(** the tag carries a slug's uniqueness.  Two worktrees whose
    tags differ (their paths, or for main worktrees their branches, hash
    differently) never share a slug, whatever ticket or branch their names
    spell and however long it is. *)
Theorem slug_unique (s1 s2 : Slug) (t1 t2 : string)
  (H1 : derived s1 t1) (H2 : derived s2 t2) (Heq : Value s1 = Value s2) : t1 = t2.
Proof using blake3_32.
  destruct (derived_shape _ _ H1) as (Ht1 & p1 & Hp1 & _).
  destruct (derived_shape _ _ H2) as (Ht2 & p2 & Hp2 & _).
  rewrite Hp1, Hp2 in Heq.
  assert (String.length p1 = String.length p2) as Hl.
  { apply (f_equal String.length) in Heq. rewrite !str_length_app in Heq. cbn in Heq. lia. }
  apply str_app_inj_len in Heq as [_ Heq]; [|done]. by apply str_app_inj_l in Heq.
Qed.

(** slugs are not prefix-free.  For a branch [b] with a short
    sanitised name there is a branch, [b]'s sanitised name with [b]'s own tag
    appended, whose main-worktree slug extends [b]'s by an underscore and
    nine more bytes at most; the comment on [tag] rules this out. *)
Theorem ForMain_not_prefix_free (w b : string)
  (Hne : sanitiseBranch b <> "") (Hlen : String.length (sanitiseBranch b) <= 9) :
  let b' := sanitiseBranch b +:+ "_" +:+ tag b in
  Value (ForMain w b') = Value (ForMain w b) +:+ "_" +:+ tag b'.
Proof using blake3_32.
  intros b'. destruct (sanitiseBranch_clean b) as [?|Hcl]; [done|].
  assert (Hcl' : clean true b' = true).
  { apply clean_join; [done|]. apply hex_clean; [apply tag_hex|left].
    intros E. pose proof (tag_length b) as Hl. by rewrite E in Hl. }
  assert (Hb : b <> "") by (intros ->; done).
  assert (Hb' : b' <> "") by (unfold b'; by destruct (sanitiseBranch b)).
  unfold Slug.ForMain. apply String.eqb_neq in Hb, Hb', Hne. rewrite Hb, Hb'. cbn [Value].
  rewrite (sanitise_fixed _ Hcl'), Hb', Hne.
  unfold composeTicket. cbv zeta. rewrite !str_length_app, !tag_length.
  assert (Hl : String.length b' = String.length (sanitiseBranch b) + 9).
  { unfold b'. rewrite !str_length_app, tag_length. cbn. lia. }
  rewrite !Hl. cbn [String.length].
  rewrite !(proj2 (Nat.leb_le _ _)) by lia.
  unfold b'. by rewrite !str_app_assoc.
Qed.

End Properties.

(** ** Redis indices *)
Lemma w32_lxor a b : (0 <= a < 2 ^ 32 -> 0 <= b < 2 ^ 32 -> 0 <= Z.lxor a b < 2 ^ 32)%Z.
Proof.
  intros Ha Hb. split; [apply Z.lxor_nonneg; lia|].
  assert (H : Z.lxor a b = Z.land (Z.lxor a b) (Z.ones 32)).
  { apply Z.bits_inj'. intros n Hn. rewrite Z.land_spec, Z.testbit_ones_nonneg by lia.
    destruct (Z.ltb_spec n 32); [by rewrite andb_true_r|].
    rewrite andb_false_r, Z.lxor_spec.
    rewrite <- (Z.mod_small a (2 ^ 32)), <- (Z.mod_small b (2 ^ 32)) by lia.
    by rewrite !Z.mod_pow2_bits_high by lia. }
  rewrite H, Z.land_ones by lia. apply Z.mod_pos_bound. lia.
Qed.

Lemma w32_range z : (0 <= w32 z < 2 ^ 32)%Z.
Proof. apply Z.mod_pos_bound. lia. Qed.

Lemma crc_bit_range c : (0 <= crc_bit c < 2 ^ 32)%Z.
Proof. unfold crc_bit. destruct (_ =? _)%Z; [|apply w32_lxor]; try apply w32_range; lia. Qed.

Lemma crcUpdate_range c b : (0 <= c < 2 ^ 32 -> 0 <= crcUpdate c b < 2 ^ 32)%Z.
Proof. intros _. unfold crcUpdate. cbn [Nat.iter]. apply crc_bit_range. Qed.

Lemma crc_bytes_range s c : (0 <= c < 2 ^ 32 -> 0 <= crc_bytes c s < 2 ^ 32)%Z.
Proof. revert c; induction s as [|x s IH]; intros c Hc; cbn [crc_bytes]; [done|].
  apply IH, crcUpdate_range, Hc. Qed.

Lemma crc_length_range f c n : (0 <= c < 2 ^ 32 -> 0 <= crc_length f c n < 2 ^ 32)%Z.
Proof.
  revert c n; induction f as [|f IH]; cbn [crc_length]; intros c n H; [done|].
  destruct (n =? 0)%Z; [done|]. apply IH, crcUpdate_range, H.
Qed.

Lemma sysvCksum_range s : (0 <= sysvCksum s < 2 ^ 32)%Z.
Proof. apply w32_lxor; [|lia]. apply crc_length_range, crc_bytes_range. lia. Qed.

(** Eight rounds consume any 64-bit length, as the source's loop does: more
    fuel changes nothing. *)
Lemma crc_length_enough f k c n :
  (0 <= n < 2 ^ (8 * Z.of_nat f))%Z -> crc_length (f + k) c n = crc_length f c n.
Proof.
  revert c n; induction f as [|f IH]; intros c n Hn.
  - assert (n = 0%Z) as -> by (simpl in Hn; lia). by destruct k.
  - cbn. destruct (Z.eqb_spec n 0); [done|]. apply IH.
    rewrite Z.shiftr_div_pow2 by lia. change (2 ^ 8)%Z with 256%Z.
    split; [apply Z.div_pos; lia|]. apply Z.div_lt_upper_bound; [lia|].
    replace (8 * Z.of_nat (S f))%Z with (8 + 8 * Z.of_nat f)%Z in Hn by lia.
    rewrite Z.pow_add_r in Hn by lia. lia.
Qed.

(** the Redis database indices of a slug lie in the configured
    window.  [SetRedisDBRange] accepts exactly the windows inside 0..15, and
    in any window it accepts both indices of every slug are inside it, so the
    conversions to uint8 lose nothing; a one-element window gives every slug
    the same index. *)
Theorem RedisIndices_in_window (lo hi : Z) :
  (is_ok (SetRedisDBRange lo hi) = true <-> (0 <= lo /\ lo <= hi /\ hi <= 15)%Z) /\
 (forall r v, SetRedisDBRange lo hi = Ok r ->
     let '(q, c) := RedisIndices r v in
     (lo <= q <= hi /\ lo <= c <= hi)%Z /\
    q = (sysvCksum v mod (hi - lo + 1) + lo)%Z).
Proof.
  unfold SetRedisDBRange.
  destruct ((lo <? 0)%Z || (15 <? hi)%Z) eqn:E1; [|destruct (hi <? lo)%Z eqn:E2]; cbn.
  - split; [|done]. split; [done|]. intros ?. exfalso. apply orb_prop in E1 as [E1|E1]; bools; lia.
  - split; [|done]. split; [done|]. intros ?. exfalso. bools; lia.
  - bools. split; [split; [lia|done]|].
    intros r v [= <-]. cbn. unfold u8.
    pose proof (sysvCksum_range v) as Hs. rewrite (Z.mod_small (hi - lo) 256) by lia.
    pose proof (Z.mod_pos_bound (sysvCksum v) (hi - lo + 1) ltac:(lia)).
    pose proof (Z.mod_pos_bound (sysvCksum v / 10) (hi - lo + 1) ltac:(lia)).
    rewrite !(Z.mod_small (_ + lo) 256) by lia. lia.
Qed.

(** ** Witnesses: a digest of 32 fixed bytes *)
Definition sample_digest (s : string) : string :=
  str_take 32 (s +:+ "0123456789abcdef0123456789abcdef").

Lemma sample_digest_32 s : String.length (sample_digest s) = 32.
Proof.
  unfold sample_digest. rewrite str_length_take, str_length_app.
  change (String.length "0123456789abcdef0123456789abcdef") with 32. lia.
Qed.

Lemma slug_wellformed_witness :
  let s := For sample_digest "" None "/srv/PROJ-1234" "" in
  Value s = "proj_1234_2f737276" /\ Ident.validate (Value s) = Ok tt.
Proof.
  split; [vm_compute; reflexivity|].
  apply (slug_wellformed sample_digest "" None sample_digest_32
           (For sample_digest "" None "/srv/PROJ-1234" "") "2f737276").
  apply (derived_for sample_digest "" None "/srv/PROJ-1234" "").
Defined.

Lemma slug_unique_witness :
  Value (For sample_digest "" None "/a/PROJ-7" "x") <> Value (For sample_digest "" None "/b/PROJ-7" "x").
Proof.
  intros E.
  pose proof (slug_unique sample_digest "" None sample_digest_32 _ _ _ _
    (derived_for sample_digest "" None "/a/PROJ-7" "x")
    (derived_for sample_digest "" None "/b/PROJ-7" "x") E) as H.
  vm_compute in H. discriminate H.
Defined.

Lemma ForMain_not_prefix_free_witness :
  Value (ForMain sample_digest "" "/srv" "develop_646576656c") <> "" /\
 Value (ForMain sample_digest "" "/srv" (sanitiseBranch "develop" +:+ "_" +:+ tag sample_digest "" "develop")) =
  "main_develop_64657665_64657665".
Proof.
  split; [vm_compute; discriminate|].
  rewrite (ForMain_not_prefix_free sample_digest "" sample_digest_32 "/srv" "develop");
    [vm_compute; reflexivity|vm_compute; discriminate|vm_compute; lia].
Defined.

Lemma RedisIndices_in_window_witness :
  RedisIndices default_range "wt_33a85ab4" = (13, 6)%Z /\
 is_ok (SetRedisDBRange 6 15) = true.
Proof.
  split; [vm_compute; reflexivity|].
  apply (RedisIndices_in_window 6 15). lia.
Defined.
