(* ===== verification/Template.v ===== *)
(** * Template rendering

    [internal/template/template.go]: the [{key}] placeholders of
    [.treeman.yaml], the scanner [renderWith] behind [Render], [RenderMap] and
    [Keys], and the load-time check [Validate]; and the [${VAR}] pass that
    runs after it, [ExpandVars] of [internal/envfile/envfile.go]. *)
From stdpp Require Import base strings list gmap pretty.
From Stdlib Require Import ZArith Lia.
From S2P Require Import Prelude GoStrings Slug.

(** ** The rendering context *)
Record Context := {
  cSlug : string;
  SlugDash : string;
  SlugRedisQueue : string;
  SlugRedisCache : string;
  N_ : Z;
  HasN : bool;
  TargetDB : string;
  HasTargetDB : bool;
  Ports : gmap string Z;
  DBs : list string
}.

Definition FromSlug (r : redis_range) (s : Slug) : Context :=
  let '(q, c) := RedisIndices r (Value s) in
  {| cSlug := Value s; SlugDash := Dashed s;
     SlugRedisQueue := itoa q; SlugRedisCache := itoa c;
     N_ := 0; HasN := false; TargetDB := ""; HasTargetDB := false;
     Ports := ∅; DBs := [] |}.

Definition WithN (n : Z) (c : Context) : Context :=
  {| cSlug := cSlug c; SlugDash := SlugDash c; SlugRedisQueue := SlugRedisQueue c;
     SlugRedisCache := SlugRedisCache c; N_ := n; HasN := true;
     TargetDB := TargetDB c; HasTargetDB := HasTargetDB c; Ports := Ports c; DBs := DBs c |}.

Definition WithTargetDB (db : string) (c : Context) : Context :=
  {| cSlug := cSlug c; SlugDash := SlugDash c; SlugRedisQueue := SlugRedisQueue c;
     SlugRedisCache := SlugRedisCache c; N_ := N_ c; HasN := HasN c;
     TargetDB := db; HasTargetDB := true; Ports := Ports c; DBs := DBs c |}.

(** a copy of the map; an empty map clears the ports, the same empty map here *)
Definition WithPorts (ports : gmap string Z) (c : Context) : Context :=
  {| cSlug := cSlug c; SlugDash := SlugDash c; SlugRedisQueue := SlugRedisQueue c;
     SlugRedisCache := SlugRedisCache c; N_ := N_ c; HasN := HasN c;
     TargetDB := TargetDB c; HasTargetDB := HasTargetDB c; Ports := ports; DBs := DBs c |}.

Definition WithDBs (dbs : list string) (c : Context) : Context :=
  {| cSlug := cSlug c; SlugDash := SlugDash c; SlugRedisQueue := SlugRedisQueue c;
     SlugRedisCache := SlugRedisCache c; N_ := N_ c; HasN := HasN c;
     TargetDB := TargetDB c; HasTargetDB := HasTargetDB c; Ports := Ports c; DBs := dbs |}.

(** [type RenderError struct { UnknownKey string; UnmatchedAt int }] *)
Record RenderError := { UnknownKey : string; UnmatchedAt : Z }.

Definition Error (e : RenderError) : string :=
  if String.eqb (UnknownKey e) ""
  then "unmatched '{' at offset " +:+ itoa (UnmatchedAt e)
  else "unknown template key: " +:+ UnknownKey e.

(** ** Key lookup *)
Definition lookupDB (idx : string) (dbs : list string) : option string :=
  if String.eqb idx "" || negb (String.eqb (trim is_digit idx) "") then None
  else match atoi idx with
       | Some n => if (Z.of_nat (length dbs) <=? n)%Z then None else dbs !! Z.to_nat n
       | None => None
       end.

Definition lookup_key (key : string) (c : Context) : option string :=
  if String.eqb key "slug" then Some (cSlug c)
  else if String.eqb key "slug_dash" then Some (SlugDash c)
  else if String.eqb key "slug_redis_queue" then Some (SlugRedisQueue c)
  else if String.eqb key "slug_redis_cache" then Some (SlugRedisCache c)
  else if String.eqb key "n" then (if HasN c then Some (itoa (N_ c)) else None)
  else if String.eqb key "target_db" then (if HasTargetDB c then Some (TargetDB c) else None)
  else match cut_prefix "port_" key with
       | Some name => itoa <$> (Ports c !! name)
       | None => match cut_prefix "db:" key with
                 | Some idx => lookupDB idx (DBs c)
                 | None => None
                 end
       end.

(** ** The scanner

    One iteration of [renderWith]'s loop at byte offset [i]: what it writes,
    how many bytes it consumes, and the text left. *)
Inductive step_result :=
| Write (out : string) (rest : string) (consumed : Z)
| LookUp (key : string) (rest : string) (consumed : Z)
| Unmatched.

Definition scan_step (c : ascii) (rest : string) : step_result :=
  let plain :=
    if negb (Ascii.eqb c "{") then Write (String c EmptyString) rest 1
    else match cut_byte "}" rest with
         | None => Unmatched
         | Some (key, rest') => LookUp key rest' (1 + Z.of_nat (String.length key) + 1)
         end in
  match Ascii.eqb c "$", rest with
  | true, String "{" inner =>
      match cut_byte "}" inner with
      | Some (body, rest') =>
          Write (String "$" (String "{" (body +:+ "}"))) rest' (2 + Z.of_nat (String.length body) + 1)
      | None => plain
      end
  | _, _ => plain
  end.

Section RenderWith.
(** The lookup closure may keep a state, as the one of [Keys] does. *)
Context {S : Type} (lookup : S -> string -> S * option string).

Fixpoint render_loop (fuel : nat) (i : Z) (st : S) (b tmpl : string) : S * res RenderError string :=
  match fuel, tmpl with
  | _, EmptyString => (st, Ok b)
  | O, _ => (st, Ok b)
  | Datatypes.S f, String c rest =>
      match scan_step c rest with
      | Write out rest' n => render_loop f (i + n) st (b +:+ out) rest'
      | Unmatched => (st, Err {| UnknownKey := ""; UnmatchedAt := i |})
      | LookUp key rest' n =>
          let '(st', found) := lookup st key in
          match found with
          | None => (st', Err {| UnknownKey := key; UnmatchedAt := 0 |})
          | Some val => render_loop f (i + n) st' (b +:+ val) rest'
          end
      end
  end.

(** every iteration consumes at least one byte *)
Definition renderWith (st : S) (tmpl : string) : S * res RenderError string :=
  render_loop (String.length tmpl) 0 st "" tmpl.
End RenderWith.

Definition pure_lookup (f : string -> option string) (u : unit) (key : string) : unit * option string :=
  (u, f key).

Definition Render (tmpl : string) (c : Context) : res RenderError string :=
  (renderWith (pure_lookup (fun key => lookup_key key c)) tt tmpl).2.

Definition RenderMap (tmpl : string) (vals : gmap string string) : res RenderError string :=
  (renderWith (pure_lookup (fun key => vals !! key)) tt tmpl).2.

(** [Keys] returns the keys seen even beside an error. *)
Definition Keys (tmpl : string) : list string * option RenderError :=
  match renderWith (fun keys key => (keys ++ [key], Some "")) [] tmpl with
  | (keys, Ok _) => (keys, None)
  | (keys, Err e) => (keys, Some e)
  end.

(** ** Validation *)
Record Scope := {
  AllowN : bool;
  AllowTargetDB : bool;
  AllowedPorts : list string;
  DBCount : Z
}.

(** the dummy context [Validate] renders against *)
Definition scope_context (sc : Scope) : Context :=
  let c0 := {| cSlug := "x"; SlugDash := "x"; SlugRedisQueue := "0"; SlugRedisCache := "0";
               N_ := 0; HasN := false; TargetDB := ""; HasTargetDB := false;
               Ports := ∅; DBs := [] |} in
  let c1 := if AllowN sc then WithN 0 c0 else c0 in
  let c2 := if AllowTargetDB sc then WithTargetDB "x" c1 else c1 in
  let c3 := if (0 <? length (AllowedPorts sc))%nat
            then WithPorts (foldl (fun m name => <[name := 1%Z]> m) ∅ (AllowedPorts sc)) c2
            else c2 in
  if (0 <? DBCount sc)%Z then WithDBs (replicate (Z.to_nat (DBCount sc)) "") c3 else c3.

Definition Validate (tmpl : string) (sc : Scope) : res RenderError unit :=
  res_bind (Render tmpl (scope_context sc)) (fun _ => Ok tt).

(** ** [envfile.ExpandVars] *)
Section ExpandVars.
(** the file's own keys, and [os.Getenv] (empty when unset) *)
Variable locals : gmap string string.
Variable getenv : string -> string.

Definition expand_key (key : string) : string :=
  match locals !! key with
  | Some v => v
  | None => if String.eqb (getenv key) "" then String "$" (String "{" (key +:+ "}"))
            else getenv key
  end.

Fixpoint expand_loop (fuel : nat) (b s : string) : string :=
  match fuel, s with
  | _, EmptyString => b
  | O, _ => b
  | Datatypes.S f, String c rest =>
      match Ascii.eqb c "$", rest with
      | true, String "{" inner =>
          match cut_byte "}" inner with
          | Some (key, rest') => expand_loop f (b +:+ expand_key key) rest'
          | None => expand_loop f (b +:+ String c EmptyString) rest
          end
      | _, _ => expand_loop f (b +:+ String c EmptyString) rest
      end
  end.

Definition ExpandVars (s : string) : string := expand_loop (String.length s) "" s.
End ExpandVars.

Example render_ex :
  RenderMap "app_{slug}-${HOME}$" {["slug" := "wt_1"]} = Ok "app_wt_1-${HOME}$".
Proof. vm_compute. reflexivity. Qed.
Example render_unmatched :
  RenderMap "ab{c" ∅ = Err {| UnknownKey := ""; UnmatchedAt := 2 |}.
Proof. vm_compute. reflexivity. Qed.
Example keys_ex : Keys "{a}${b}{c}{a}" = (["a"; "c"; "a"], None).
Proof. vm_compute. reflexivity. Qed.

(** ** Reference semantics: templates as token lists *)
Inductive token :=
| Lit (c : ascii)          (* a byte copied as it is *)
| Verbatim (body : string) (* [${body}], left to the env layer *)
| Key (key : string).      (* [{key}] *)

Definition print_token (t : token) : string :=
  match t with
  | Lit c => String c EmptyString
  | Verbatim body => String "$" (String "{" (body +:+ "}"))
  | Key key => String "{" (key +:+ "}")
  end.

Fixpoint print (ts : list token) : string :=
  match ts with [] => EmptyString | t :: ts' => print_token t +:+ print ts' end.

Definition no_close (s : string) : Prop := cut_byte "}" s = None.

(** A token list is the reading of its printing (followed by [tail]): braces
    hold no closing brace, no literal opens a brace, and a literal dollar does
    not stand before a closed one. *)
Fixpoint wf_tokens (ts : list token) (tail : string) : Prop :=
  match ts with
  | [] => True
  | Lit c :: ts' =>
      c <> "{"%char /\
      (c = "$"%char -> forall inner, print ts' +:+ tail = String "{" inner -> no_close inner) /\
      wf_tokens ts' tail
  | Verbatim body :: ts' => no_close body /\ wf_tokens ts' tail
  | Key key :: ts' => no_close key /\ wf_tokens ts' tail
  end.

Definition keys_of (ts : list token) : list string :=
  omap (fun t => match t with Key k => Some k | _ => None end) ts.

(** the value of a token list under a lookup: the first key that does not
    resolve is the error *)
Fixpoint token_value (f : string -> option string) (ts : list token) : res RenderError string :=
  match ts with
  | [] => Ok ""
  | Key k :: ts' =>
      match f k with
      | None => Err {| UnknownKey := k; UnmatchedAt := 0 |}
      | Some v => res_bind (token_value f ts') (fun s => Ok (v +:+ s))
      end
  | t :: ts' => res_bind (token_value f ts') (fun s => Ok (print_token t +:+ s))
  end.

(** ** Lemmas *)
Lemma no_close_any s : no_close s <-> str_any (fun a => Ascii.eqb a "}") s = false.
Proof. apply cut_byte_None. Qed.

Lemma cut_close body rest : no_close body -> cut_byte "}" (body +:+ String "}" rest) = Some (body, rest).
Proof. intros H%no_close_any. by apply cut_byte_here. Qed.

Lemma brace_tail body rest : (body +:+ "}") +:+ rest = body +:+ String "}" rest.
Proof. by rewrite str_app_assoc. Qed.

Lemma scan_step_key key rest :
  no_close key ->
  scan_step "{" (key +:+ String "}" rest) = LookUp key rest (1 + Z.of_nat (String.length key) + 1).
Proof. intros H. unfold scan_step; simpl. by rewrite cut_close. Qed.

Lemma scan_step_verbatim body rest :
  no_close body ->
  scan_step "$" (String "{" (body +:+ String "}" rest)) =
  Write (String "$" (String "{" (body +:+ "}"))) rest (2 + Z.of_nat (String.length body) + 1).
Proof. intros H. unfold scan_step; simpl. by rewrite cut_close. Qed.

Lemma scan_step_lit c rest :
  c <> "{"%char ->
  (c = "$"%char -> forall inner, rest = String "{" inner -> no_close inner) ->
  scan_step c rest = Write (String c EmptyString) rest 1.
Proof.
  intros Hc Hd. unfold scan_step. apply Ascii.eqb_neq in Hc. rewrite Hc; simpl.
  destruct (Ascii.eqb_spec c "$") as [->|]; [|done].
  destruct rest as [|d inner]; [done|].
  destruct (Ascii.eqb_spec d "{") as [->|Hd'].
  - by rewrite (Hd eq_refl inner eq_refl).
  - destruct d as [[][][][][][][][]]; done.
Qed.

Lemma scan_step_unmatched rest : no_close rest -> scan_step "{" rest = Unmatched.
Proof. intros H. unfold scan_step; simpl. by rewrite H. Qed.

(** the text a step leaves is shorter than the text it was given *)
Lemma scan_step_shrinks c rest :
  match scan_step c rest with
  | Write _ r _ | LookUp _ r _ => String.length r <= String.length rest
  | Unmatched => True
  end.
Proof.
  unfold scan_step.
  repeat case_goal; simplify_eq; auto;
    repeat match goal with
    | H : cut_byte _ _ = Some _ |- _ => apply cut_byte_length in H; cbn in *
    | H : (if ?b then _ else _) = _ |- _ => destruct b eqn:?; simplify_eq
    | H : match ?x with _ => _ end = _ |- _ => destruct x eqn:?; simplify_eq
    end; cbn in *; try lia.
Qed.

Section Loop.
Context {S : Type} (lookup : S -> string -> S * option string).

(** more fuel than bytes changes nothing *)
Lemma render_loop_fuel f1 f2 i st b tmpl :
  String.length tmpl <= f1 -> String.length tmpl <= f2 ->
  render_loop lookup f1 i st b tmpl = render_loop lookup f2 i st b tmpl.
Proof.
  revert f2 i st b tmpl; induction f1 as [|f1 IH]; intros f2 i st b [|c rest] H1 H2;
    cbn in H1, H2; try lia; destruct f2; cbn in H2; try lia; try done.
  cbn [render_loop]. pose proof (scan_step_shrinks c rest) as Hs.
  destruct (scan_step c rest) as [out r n|key r n|]; [apply IH; lia| |done].
  destruct (lookup st key) as [st' [v|]]; [apply IH; lia|done].
Qed.

Definition render_from (i : Z) (st : S) (b tmpl : string) : S * res RenderError string :=
  render_loop lookup (String.length tmpl) i st b tmpl.

Lemma render_from_cons i st b c rest :
  render_from i st b (String c rest) =
  match scan_step c rest with
  | Write out rest' n => render_from (i + n) st (b +:+ out) rest'
  | Unmatched => (st, Err {| UnknownKey := ""; UnmatchedAt := i |})
  | LookUp key rest' n =>
      let '(st', found) := lookup st key in
      match found with
      | None => (st', Err {| UnknownKey := key; UnmatchedAt := 0 |})
      | Some val => render_from (i + n) st' (b +:+ val) rest'
      end
  end.
Proof.
  unfold render_from. cbn [render_loop String.length].
  pose proof (scan_step_shrinks c rest) as Hs.
  destruct (scan_step c rest) as [out r n|key r n|]; [apply render_loop_fuel; lia| |done].
  destruct (lookup st key) as [st' [v|]]; [apply render_loop_fuel; lia|done].
Qed.
End Loop.

(** Rendering a printed token list continues with the text that follows it,
    at the offset after it. *)
Lemma render_from_tokens f ts tail i b :
  wf_tokens ts tail ->
  (render_from (pure_lookup f) i tt b (print ts +:+ tail)).2 =
  match token_value f ts with
  | Err e => Err e
  | Ok v => (render_from (pure_lookup f) (i + Z.of_nat (String.length (print ts))) tt (b +:+ v) tail).2
  end.
Proof.
  revert i b; induction ts as [|t ts IH]; intros i b Hwf.
  - cbn [token_value print]. by rewrite str_app_nil_r, Z.add_0_r.
  - destruct t as [c|body|key]; cbn [print print_token token_value].
    + destruct Hwf as (Hc & Hd & Hwf). cbn [String.append].
      rewrite render_from_cons, scan_step_lit by done. rewrite IH by done.
      destruct (token_value f ts) as [v|e]; cbn [res_bind]; [|done].
      rewrite str_app_assoc. cbn [String.append String.length].
      by replace (i + Z.of_nat (S _))%Z with (i + 1 + Z.of_nat (String.length (print ts)))%Z by lia.
    + destruct Hwf as [Hb Hwf]. cbn [String.append]. rewrite !str_app_assoc. cbn [String.append].
      rewrite render_from_cons, scan_step_verbatim by done. rewrite IH by done.
      destruct (token_value f ts) as [v|e]; cbn [res_bind]; [|done].
      rewrite !str_app_assoc. cbn [String.append String.length]. rewrite !str_app_assoc.
      cbn [String.append]. rewrite str_length_app; cbn [String.length].
      by replace (i + Z.of_nat _)%Z with
        (i + (2 + Z.of_nat (String.length body) + 1) + Z.of_nat (String.length (print ts)))%Z by lia.
    + destruct Hwf as [Hk Hwf]. cbn [String.append]. rewrite !str_app_assoc. cbn [String.append].
      rewrite render_from_cons, scan_step_key by done. unfold pure_lookup at 1.
      destruct (f key) as [w|]; [|done]. rewrite IH by done.
      destruct (token_value f ts) as [v|e]; cbn [res_bind]; [|done].
      rewrite !str_app_assoc. cbn [String.length]. rewrite str_length_app; cbn [String.length].
      by replace (i + Z.of_nat _)%Z with
        (i + (1 + Z.of_nat (String.length key) + 1) + Z.of_nat (String.length (print ts)))%Z by lia.
Qed.

(** Every template is a printed token list, followed by nothing or by a brace
    that is never closed. *)
Lemma tokens_exist tmpl :
  exists ts tail,
    tmpl = print ts +:+ tail /\ wf_tokens ts tail /\
    (tail = "" \/ exists open, tail = String "{" open /\ no_close open).
Proof.
  remember (String.length tmpl) as n eqn:Hn. revert tmpl Hn.
  induction (lt_wf n) as [n _ IH]; intros [|c rest] ->; [by exists [], ""; cbn; auto|].
  assert (Hlit : c <> "{"%char ->
    (c = "$"%char -> forall inner, rest = String "{" inner -> no_close inner) ->
    exists ts tail, String c rest = print ts +:+ tail /\ wf_tokens ts tail /\
      (tail = "" \/ exists open, tail = String "{" open /\ no_close open)).
  { intros Hc Hd. destruct (IH (String.length rest) ltac:(cbn; lia) rest eq_refl)
      as (ts & tail & -> & Hwf & Ht).
    exists (Lit c :: ts), tail. cbn. auto. }
  destruct (Ascii.eqb_spec c "{") as [->|Hc].
  - destruct (cut_byte "}" rest) as [[key r]|] eqn:E.
    + pose proof (cut_byte_length _ _ _ _ E). apply cut_byte_app in E as [-> Hk].
      destruct (IH (String.length r) ltac:(cbn in *; lia) r eq_refl) as (ts & tail & -> & Hwf & Ht).
      exists (Key key :: ts), tail. cbn. rewrite !str_app_assoc. cbn.
      split; [done|]. split; [|done]. split; [by apply no_close_any|done].
    + exists [], (String "{" rest). split; [done|]. split; [exact I|]. right. by exists rest.
  - destruct (Ascii.eqb_spec c "$") as [->|Hd]; [|by apply Hlit].
    destruct rest as [|d inner]; [by apply Hlit|].
    destruct (Ascii.eqb_spec d "{") as [->|Hbr]; [|apply Hlit; [done|]; congruence].
    destruct (cut_byte "}" inner) as [[body r]|] eqn:E; [|apply Hlit; [done|]; by intros _ ? [= <-]].
    pose proof (cut_byte_length _ _ _ _ E). apply cut_byte_app in E as [-> Hk].
    destruct (IH (String.length r) ltac:(cbn in *; lia) r eq_refl) as (ts & tail & -> & Hwf & Ht).
    exists (Verbatim body :: ts), tail. cbn. rewrite !str_app_assoc. cbn.
    split; [done|]. split; [|done]. split; [by apply no_close_any|done].
Qed.

Lemma render_tail f i b tail :
  (tail = "" \/ exists open, tail = String "{" open /\ no_close open) ->
  (render_from (pure_lookup f) i tt b tail).2 =
  if String.eqb tail "" then Ok b else Err {| UnknownKey := ""; UnmatchedAt := i |}.
Proof.
  intros [->|(open & -> & Ho)]; [done|]. rewrite render_from_cons, scan_step_unmatched; done.
Qed.

(** The whole behaviour of the scanner, for any lookup that keeps no state *)
Lemma renderWith_spec f ts tail :
  wf_tokens ts tail ->
  (tail = "" \/ exists open, tail = String "{" open /\ no_close open) ->
  (renderWith (pure_lookup f) tt (print ts +:+ tail)).2 =
  match token_value f ts with
  | Err e => Err e
  | Ok v => if String.eqb tail "" then Ok v
            else Err {| UnknownKey := ""; UnmatchedAt := Z.of_nat (String.length (print ts)) |}
  end.
Proof.
  intros Hwf Ht. change (renderWith _ _ ?t) with (render_from (pure_lookup f) 0 tt "" t).
  rewrite render_from_tokens by done. destruct (token_value f ts); [|done].
  rewrite render_tail by done. done.
Qed.

Lemma token_value_ok f ts :
  (forall k, k ∈ keys_of ts -> is_Some (f k)) <-> exists v, token_value f ts = Ok v.
Proof.
  induction ts as [|t ts IH]; [cbn; split; [eauto|intros _ k Hk; inversion Hk]|].
  destruct t as [c|body|key]; cbn [token_value keys_of omap list_omap].
  1,2: rewrite IH; split; intros [v Hv]; [rewrite Hv; cbn; eauto|];
       apply res_bind_ok in Hv as (a & Ha & _); eauto.
  split.
  - intros H. destruct (H key ltac:(left)) as [w ->].
    destruct (proj1 IH ltac:(intros k Hk; apply H; right; exact Hk)) as [v ->]. cbn; eauto.
  - destruct (f key) as [w|] eqn:E; [|intros [? [=]]].
    intros [v Hv]. apply res_bind_ok in Hv as (a & Ha & _).
    intros k Hk. apply elem_of_cons in Hk as [->|Hk]; [eauto|]. apply IH; eauto.
Qed.

(** errors depend only on which keys resolve *)
Lemma token_value_err f g ts e :
  (forall k, is_Some (f k) <-> is_Some (g k)) -> token_value f ts = Err e -> token_value g ts = Err e.
Proof.
  intros Hfg. revert e; induction ts as [|t ts IH]; intros e; [done|].
  destruct t as [c|body|key]; cbn [token_value].
  1,2: destruct (token_value f ts) eqn:E; cbn; [done|]; intros [= ->]; by rewrite (IH _ eq_refl).
  specialize (Hfg key). destruct (f key), (g key); cbn; try done.
  - destruct (token_value f ts) eqn:E; cbn; [done|]; intros [= ->]; by rewrite (IH _ eq_refl).
  - exfalso. by destruct (proj1 Hfg ltac:(eauto)).
  - exfalso. by destruct (proj2 Hfg ltac:(eauto)).
Qed.

(** the lookup of [Keys], which resolves everything and records the key *)
Definition collect (keys : list string) (key : string) : list string * option string :=
  (keys ++ [key], Some "").

Lemma render_from_collect ts tail i b keys :
  wf_tokens ts tail ->
  exists j b',
    render_from collect i keys b (print ts +:+ tail) = render_from collect j (keys ++ keys_of ts) b' tail /\
    j = (i + Z.of_nat (String.length (print ts)))%Z.
Proof.
  revert i b keys; induction ts as [|t ts IH]; intros i b keys Hwf.
  - exists i, b. cbn. rewrite app_nil_r. split; [done|lia].
  - destruct t as [c|body|key]; cbn [print print_token keys_of omap list_omap].
    + destruct Hwf as (Hc & Hd & Hwf). cbn [String.append].
      rewrite render_from_cons, scan_step_lit by done.
      destruct (IH (i + 1)%Z (b +:+ String c "") keys Hwf) as (j & b' & -> & ->).
      eexists _, b'. split; [done|]. cbn [String.length]. lia.
    + destruct Hwf as [Hb Hwf]. cbn [String.append]. rewrite !str_app_assoc. cbn [String.append].
      rewrite render_from_cons, scan_step_verbatim by done.
      edestruct IH as (j & b' & -> & ->); [done|].
      eexists _, b'. split; [done|].
      cbn [String.length]. rewrite str_length_app; cbn [String.length]. lia.
    + destruct Hwf as [Hk Hwf]. cbn [String.append]. rewrite !str_app_assoc. cbn [String.append].
      rewrite render_from_cons, scan_step_key by done. unfold collect at 1.
      edestruct IH as (j & b' & -> & ->); [done|].
      eexists _, b'. rewrite <- app_assoc. split; [done|].
      cbn [String.length]. rewrite str_length_app; cbn [String.length]. lia.
Qed.

Lemma Keys_spec ts tail :
  wf_tokens ts tail ->
  (tail = "" \/ exists open, tail = String "{" open /\ no_close open) ->
  Keys (print ts +:+ tail) =
  (keys_of ts, if String.eqb tail "" then None
               else Some {| UnknownKey := ""; UnmatchedAt := Z.of_nat (String.length (print ts)) |}).
Proof.
  intros Hwf Ht. unfold Keys.
  change (renderWith _ _ ?t) with (render_from collect 0 [] "" t).
  destruct (render_from_collect ts tail 0 "" [] Hwf) as (j & b' & -> & ->).
  destruct Ht as [->|(open & -> & Ho)]; [done|].
  by rewrite render_from_cons, scan_step_unmatched.
Qed.

(** ** Which keys a context resolves *)
Record refines (c1 c2 : Context) : Prop := {
  ref_n : HasN c1 = true -> HasN c2 = true;
  ref_db : HasTargetDB c1 = true -> HasTargetDB c2 = true;
  ref_ports : forall p, is_Some (Ports c1 !! p) -> is_Some (Ports c2 !! p);
  ref_dbs : length (DBs c1) <= length (DBs c2)
}.

Lemma lookupDB_mono idx l1 l2 :
  length l1 <= length l2 -> is_Some (lookupDB idx l1) -> is_Some (lookupDB idx l2).
Proof.
  unfold lookupDB. intros Hl. destruct (_ || _); [done|]. destruct (atoi idx) as [n|]; [|done].
  destruct (Z.leb_spec (Z.of_nat (length l1)) n); [by intros []|].
  destruct (Z.leb_spec (Z.of_nat (length l2)) n); [lia|].
  rewrite !lookup_lt_is_Some. lia.
Qed.

Lemma lookup_key_mono c1 c2 k :
  refines c1 c2 -> is_Some (lookup_key k c1) -> is_Some (lookup_key k c2).
Proof.
  intros [Hn Hd Hp Hb]. unfold lookup_key.
  repeat (case_match; [by eauto|]).
  destruct (String.eqb k "n"); [destruct (HasN c1); [rewrite Hn|intros []]; eauto; done|].
  destruct (String.eqb k "target_db"); [destruct (HasTargetDB c1); [rewrite Hd|intros []]; eauto; done|].
  destruct (cut_prefix "port_" k); [rewrite !fmap_is_Some; apply Hp|].
  destruct (cut_prefix "db:" k); [|done]. by apply lookupDB_mono.
Qed.

Lemma scope_context_ports sc p : is_Some (Ports (scope_context sc) !! p) <-> p ∈ AllowedPorts sc.
Proof.
  assert (Hfold : forall (l : list string) (m : gmap string Z),
    is_Some (foldl (fun m name => <[name := 1%Z]> m) m l !! p) <-> is_Some (m !! p) \/ p ∈ l).
  { induction l as [|x l IH]; intros m; cbn; [set_solver|].
    rewrite IH, elem_of_cons, lookup_insert_is_Some. clear. destruct (decide (x = p)); naive_solver. }
  unfold scope_context. destruct (Z.ltb_spec 0 (DBCount sc)); cbn [Ports WithDBs];
    (destruct (Nat.ltb_spec 0 (length (AllowedPorts sc))) as [Hl|Hl]; cbn [Ports WithPorts];
     [rewrite Hfold, lookup_empty; split; [intros [[]|]|]; naive_solver|]);
    (destruct (AllowedPorts sc); [|cbn in Hl; lia]);
    destruct (AllowTargetDB sc), (AllowN sc); cbn; rewrite lookup_empty;
    (split; [intros []; done|set_solver]).
Qed.

Lemma scope_context_flags sc :
  HasN (scope_context sc) = AllowN sc /\ HasTargetDB (scope_context sc) = AllowTargetDB sc /\
  length (DBs (scope_context sc)) = Z.to_nat (DBCount sc).
Proof.
  unfold scope_context.
  destruct (Z.ltb_spec 0 (DBCount sc)), (Nat.ltb_spec 0 (length (AllowedPorts sc))),
    (AllowTargetDB sc), (AllowN sc); cbn; rewrite ?length_replicate; repeat split; lia.
Qed.

(** the contexts the caller of [Validate] may render with: everything the
    scope allows is there *)
Definition provides (sc : Scope) (c : Context) : Prop :=
  (AllowN sc = true -> HasN c = true) /\
  (AllowTargetDB sc = true -> HasTargetDB c = true) /\
  (forall p, p ∈ AllowedPorts sc -> is_Some (Ports c !! p)) /\
  (DBCount sc <= Z.of_nat (length (DBs c)))%Z.

(** ... and nothing else is *)
Definition no_more (sc : Scope) (c : Context) : Prop :=
  (HasN c = true -> AllowN sc = true) /\
  (HasTargetDB c = true -> AllowTargetDB sc = true) /\
  (forall p, is_Some (Ports c !! p) -> p ∈ AllowedPorts sc) /\
  (Z.of_nat (length (DBs c)) <= Z.max 0 (DBCount sc))%Z.

Lemma provides_refines sc c : provides sc c -> refines (scope_context sc) c.
Proof.
  intros (Hn & Hd & Hp & Hb). destruct (scope_context_flags sc) as (E1 & E2 & E3).
  split; rewrite ?E1, ?E2, ?E3; auto; [|lia]. intros p. by rewrite scope_context_ports; auto.
Qed.

Lemma no_more_refines sc c : no_more sc c -> refines c (scope_context sc).
Proof.
  intros (Hn & Hd & Hp & Hb). destruct (scope_context_flags sc) as (E1 & E2 & E3).
  split; rewrite ?E1, ?E2, ?E3; auto; [|lia]. intros p. by rewrite scope_context_ports; auto.
Qed.

(** ** The environment pass *)
Fixpoint wf_env (ts : list token) : Prop :=
  match ts with
  | [] => True
  | Lit c :: ts' =>
      (c = "$"%char -> forall inner, print ts' = String "{" inner -> no_close inner) /\ wf_env ts'
  | Verbatim body :: ts' => no_close body /\ wf_env ts'
  | Key _ :: _ => False
  end.

Fixpoint env_value (locals : gmap string string) (getenv : string -> string) (ts : list token) : string :=
  match ts with
  | [] => ""
  | Verbatim body :: ts' => expand_key locals getenv body +:+ env_value locals getenv ts'
  | t :: ts' => print_token t +:+ env_value locals getenv ts'
  end.

Lemma expand_loop_tokens locals getenv ts f b :
  wf_env ts -> String.length (print ts) <= f ->
  expand_loop locals getenv f b (print ts) = b +:+ env_value locals getenv ts.
Proof.
  revert f b; induction ts as [|t ts IH]; intros f b Hwf Hf.
  - cbn. rewrite str_app_nil_r. by destruct f.
  - destruct f as [|f]; [by destruct t; cbn in Hf; lia|].
    destruct t as [c|body|key]; cbn [print print_token env_value] in *; [| |done].
    + destruct Hwf as [Hd Hwf]. cbn [String.append] in *. cbn [String.length] in Hf.
      assert (expand_loop locals getenv (Datatypes.S f) b (String c (print ts)) =
              expand_loop locals getenv f (b +:+ String c "") (print ts)) as ->.
      { cbn [expand_loop]. destruct (Ascii.eqb_spec c "$") as [->|]; [|done].
        destruct (print ts) as [|d inner]; [done|].
        destruct (Ascii.eqb_spec d "{") as [->|Hd'].
        - by rewrite (Hd eq_refl inner eq_refl).
        - destruct d as [[][][][][][][][]]; done. }
      rewrite IH by (done || lia). by rewrite str_app_assoc.
    + destruct Hwf as [Hb Hwf]. cbn [String.append] in *. rewrite !str_app_assoc in *.
      cbn [String.append String.length] in *. rewrite str_length_app in Hf. cbn [String.length] in Hf.
      cbn [expand_loop]. rewrite Ascii.eqb_refl, cut_close by done.
      rewrite IH by (done || lia). by rewrite str_app_assoc.
Qed.

Lemma env_tokens_exist s : exists ts, s = print ts /\ wf_env ts.
Proof.
  remember (String.length s) as n eqn:Hn. revert s Hn.
  induction (lt_wf n) as [n _ IH]; intros [|c rest] ->; [by exists []|].
  assert (Hlit : (c = "$"%char -> forall inner, rest = String "{" inner -> no_close inner) ->
    exists ts, String c rest = print ts /\ wf_env ts).
  { intros Hd. destruct (IH (String.length rest) ltac:(cbn; lia) rest eq_refl) as (ts & -> & Hwf).
    exists (Lit c :: ts). cbn. auto. }
  destruct (Ascii.eqb_spec c "$") as [->|Hc]; [|by apply Hlit].
  destruct rest as [|d inner]; [by apply Hlit|].
  destruct (Ascii.eqb_spec d "{") as [->|Hd]; [|apply Hlit; congruence].
  destruct (cut_byte "}" inner) as [[body r]|] eqn:E; [|apply Hlit; by intros _ ? [= <-]].
  pose proof (cut_byte_length _ _ _ _ E). apply cut_byte_app in E as [-> Hk].
  destruct (IH (String.length r) ltac:(cbn in *; lia) r eq_refl) as (ts & -> & Hwf).
  exists (Verbatim body :: ts). cbn. rewrite !str_app_assoc. cbn.
  split; [done|]. split; [by apply no_close_any|done].
Qed.

(** The tokens of a rendered template: a key's value is literal text. *)
Fixpoint lits (s : string) : list token :=
  match s with EmptyString => [] | String c s' => Lit c :: lits s' end.

Fixpoint substitute (f : string -> option string) (ts : list token) : list token :=
  match ts with
  | [] => []
  | Key k :: ts' => lits (default "" (f k)) ++ substitute f ts'
  | t :: ts' => t :: substitute f ts'
  end.

Lemma print_app a b : print (a ++ b) = print a +:+ print b.
Proof. induction a as [|t a IH]; [done|]. cbn. by rewrite IH, str_app_assoc. Qed.

Lemma print_lits s : print (lits s) = s.
Proof. induction s; [done|]. cbn. by f_equal. Qed.

Lemma substitute_print f ts v : token_value f ts = Ok v -> print (substitute f ts) = v.
Proof.
  revert v; induction ts as [|t ts IH]; intros v; cbn; [by intros [= <-]|].
  destruct t as [c|body|key]; cbn [print print_token].
  1,2: intros (a & Ha & [= <-])%res_bind_ok; by rewrite (IH _ Ha).
  destruct (f key) as [w|]; [|done]. intros (a & Ha & [= <-])%res_bind_ok.
  by rewrite print_app, print_lits, (IH _ Ha).
Qed.

Definition no_dollar (s : string) : bool := negb (str_any (fun c => Ascii.eqb c "$") s).

Lemma wf_env_lits s ts : no_dollar s = true -> wf_env ts -> wf_env (lits s ++ ts).
Proof.
  unfold no_dollar. induction s as [|c s IH]; [done|]. cbn. rewrite negb_orb.
  intros [Hc Hs]%andb_prop Hts. split; [|auto].
  intros ->. by rewrite Ascii.eqb_refl in Hc.
Qed.

Lemma wf_env_substitute f ts :
  wf_tokens ts "" -> (forall k v, k ∈ keys_of ts -> f k = Some v -> no_dollar v = true) ->
  wf_env (substitute f ts).
Proof.
  induction ts as [|t ts IH]; [done|]. destruct t as [c|body|key]; cbn [substitute wf_env wf_tokens].
  - intros (Hc & Hd & Hwf) Hv. split; [|by auto].
    intros -> inner Hin. exfalso.
    destruct ts as [|[c'|body|key] ts]; cbn in Hin; [done| | |].
    + destruct Hwf as [Hc' _]. congruence.
    + done.
    + cbn in Hd. specialize (Hd eq_refl _ eq_refl). rewrite !str_app_assoc in Hd.
      apply no_close_any in Hd. rewrite str_any_app in Hd. cbn in Hd. by rewrite orb_true_r in Hd.
  - intros [Hb Hwf] Hv. auto.
  - intros [Hb Hwf] Hv.
    assert (wf_env (substitute f ts)) as Hs.
    { apply IH; [done|]. intros k v Hk. apply Hv. by right. }
    apply wf_env_lits; [|done]. destruct (f key) eqn:E; [|done]. apply (Hv key); [by left|done].
Qed.

Lemma env_value_app locals getenv a b :
  env_value locals getenv (a ++ b) = env_value locals getenv a +:+ env_value locals getenv b.
Proof. induction a as [|[] a IH]; [done|..]; cbn; rewrite IH; by rewrite ?str_app_assoc. Qed.

Lemma env_value_lits locals getenv s : env_value locals getenv (lits s) = s.
Proof. induction s as [|c s IH]; [done|]. cbn. by rewrite IH. Qed.

(** the two passes at once: the template's own [${VAR}] and no other *)
Fixpoint two_pass (f : string -> option string) (locals : gmap string string)
    (getenv : string -> string) (ts : list token) : string :=
  match ts with
  | [] => ""
  | Lit c :: ts' => String c (two_pass f locals getenv ts')
  | Verbatim body :: ts' => expand_key locals getenv body +:+ two_pass f locals getenv ts'
  | Key k :: ts' => default "" (f k) +:+ two_pass f locals getenv ts'
  end.

Lemma env_value_substitute f locals getenv ts :
  env_value locals getenv (substitute f ts) = two_pass f locals getenv ts.
Proof.
  induction ts as [|[] ts IH]; [done|..]; cbn; rewrite ?env_value_app, ?env_value_lits, IH; done.
Qed.

(** ** Properties *)

(** the scanner implements the token reading of a template.  Every
    template is the printing of a well-formed token list, up to a brace that is
    never closed; on every context [Render] gives the concatenation of the
    tokens' values, or the first key that does not resolve, or the offset of
    the unclosed brace; and [Keys] gives the keys in order of appearance. *)
Theorem Render_tokens (tmpl : string) :
  exists ts tail,
    tmpl = print ts +:+ tail /\ wf_tokens ts tail /\
    (tail = "" \/ exists open, tail = String "{" open /\ no_close open) /\
    (forall c, Render tmpl c =
       match token_value (fun k => lookup_key k c) ts with
       | Err e => Err e
       | Ok v => if String.eqb tail "" then Ok v
                 else Err {| UnknownKey := ""; UnmatchedAt := Z.of_nat (String.length (print ts)) |}
       end) /\
    Keys tmpl = (keys_of ts, if String.eqb tail "" then None
       else Some {| UnknownKey := ""; UnmatchedAt := Z.of_nat (String.length (print ts)) |}).
Proof.
  destruct (tokens_exist tmpl) as (ts & tail & -> & Hwf & Ht).
  exists ts, tail. split; [done|]. split; [done|]. split; [done|].
  split; [intros c; by apply renderWith_spec|by apply Keys_spec].
Qed.

(** rendering the printing of any well-formed token list gives
    its value: literals and [${...}] are copied untouched and each key is
    replaced by what it resolves to. *)
Theorem Render_print (ts : list token) (c : Context) (H : wf_tokens ts "") :
  Render (print ts) c = token_value (fun k => lookup_key k c) ts.
Proof.
  pose proof (renderWith_spec (fun k => lookup_key k c) ts "" H (or_introl eq_refl)) as E.
  rewrite str_app_nil_r in E. unfold Render. rewrite E. by destruct (token_value _ ts).
Qed.

Lemma Render_print_witness :
  wf_tokens [Lit "a"; Verbatim "HOME"; Key "slug"] "" /\
  Render "a${HOME}{slug}" (scope_context {| AllowN := false; AllowTargetDB := false;
                                            AllowedPorts := []; DBCount := 0 |}) = Ok "a${HOME}x".
Proof.
  assert (H : wf_tokens [Lit "a"; Verbatim "HOME"; Key "slug"] "").
  { cbn. repeat split; try done. }
  split; [exact H|].
  change "a${HOME}{slug}" with (print [Lit "a"; Verbatim "HOME"; Key "slug"]).
  rewrite (Render_print _ _ H). vm_compute. reflexivity.
Defined.

(** the load-time check decides exactly what rendering will do.  A
    template accepted for a scope renders without error in every context that
    provides what the scope allows; a template rejected for a scope fails with
    that same error in every context that provides nothing more. *)
Theorem Validate_correct (tmpl : string) (sc : Scope) :
  (Validate tmpl sc = Ok tt ->
     forall c, provides sc c -> exists out, Render tmpl c = Ok out) /\
  (forall e, Validate tmpl sc = Err e ->
     forall c, provides sc c -> no_more sc c -> Render tmpl c = Err e).
Proof.
  destruct (tokens_exist tmpl) as (ts & tail & -> & Hwf & Ht).
  assert (HR : forall c, Render (print ts +:+ tail) c =
     match token_value (fun k => lookup_key k c) ts with
     | Err e => Err e
     | Ok v => if String.eqb tail "" then Ok v
               else Err {| UnknownKey := ""; UnmatchedAt := Z.of_nat (String.length (print ts)) |}
     end) by (intros c; by apply renderWith_spec).
  unfold Validate. rewrite HR. split.
  - intros H c Hc%provides_refines. rewrite HR.
    destruct (token_value (fun k => lookup_key k (scope_context sc)) ts) eqn:E; [|done].
    assert (exists v, token_value (fun k => lookup_key k c) ts = Ok v) as [v ->].
    { apply token_value_ok. intros k Hk. apply (lookup_key_mono _ _ k Hc).
      revert k Hk. apply token_value_ok. eauto. }
    destruct (String.eqb tail ""); [eauto|done].
  - intros e H c Hc%provides_refines Hm%no_more_refines. rewrite HR.
    assert (Hiff : forall k, is_Some (lookup_key k (scope_context sc)) <-> is_Some (lookup_key k c)).
    { intros k. split; by apply lookup_key_mono. }
    destruct (token_value (fun k => lookup_key k (scope_context sc)) ts) as [v|e'] eqn:E.
    + destruct (proj1 (token_value_ok (fun k => lookup_key k c) ts)) as [w ->].
      { intros k Hk. apply Hiff. revert k Hk. apply token_value_ok. eauto. }
      destruct (String.eqb tail ""); [done|]. cbn in H. congruence.
    + rewrite (token_value_err _ _ _ _ Hiff E). cbn in H. congruence.
Qed.

Definition sample_scope : Scope :=
  {| AllowN := true; AllowTargetDB := false; AllowedPorts := ["web"]; DBCount := 1 |}.

Lemma Validate_correct_witness :
  (exists out, Render "{slug}_{n}:{port_web}/{db:0}" (scope_context sample_scope) = Ok out) /\
  Render "{target_db}" (scope_context sample_scope) =
    Err {| UnknownKey := "target_db"; UnmatchedAt := 0 |}.
Proof.
  assert (Hp : provides sample_scope (scope_context sample_scope)).
  { repeat split; try (vm_compute; congruence).
    intros p Hp. apply list_elem_of_singleton in Hp as ->. vm_compute. by eexists. }
  split.
  - apply (proj1 (Validate_correct "{slug}_{n}:{port_web}/{db:0}" sample_scope)); [reflexivity|exact Hp].
  - apply (proj2 (Validate_correct "{target_db}" sample_scope)); [reflexivity|exact Hp|].
    repeat split; try (vm_compute; congruence).
    intros p Hq. by apply scope_context_ports in Hq.
Defined.

(** rendering a template and then expanding the environment in the
    result replaces exactly the [${VAR}] references the template itself
    spells, provided no value it interpolates holds a dollar sign; references
    that resolve nowhere stay verbatim, and an expansion is never expanded
    again. *)
Theorem Render_then_ExpandVars (ts : list token) (c : Context) (out : string)
    (locals : gmap string string) (getenv : string -> string)
    (Hwf : wf_tokens ts "")
    (Hv : forall k v, k ∈ keys_of ts -> lookup_key k c = Some v -> no_dollar v = true)
    (Hout : Render (print ts) c = Ok out) :
  ExpandVars locals getenv out = two_pass (fun k => lookup_key k c) locals getenv ts.
Proof.
  pose proof (renderWith_spec (fun k => lookup_key k c) ts "" Hwf (or_introl eq_refl)) as E.
  rewrite str_app_nil_r in E. unfold Render in Hout. rewrite E in Hout.
  destruct (token_value (fun k => lookup_key k c) ts) as [v|] eqn:Ev; [|done].
  cbn in Hout. injection Hout as <-.
  rewrite <- (substitute_print _ _ _ Ev). unfold ExpandVars.
  rewrite expand_loop_tokens by (done || by apply wf_env_substitute).
  apply env_value_substitute.
Qed.

Lemma Render_then_ExpandVars_witness :
  ExpandVars {["U" := "${V}"]} (fun _ => "") "a${V}x${W}" = "a${V}x${W}" /\
  Render "a${U}{slug}${W}" (scope_context sample_scope) = Ok "a${U}x${W}" /\
  ExpandVars {["U" := "${V}"]} (fun _ => "") "a${U}x${W}" = "a${V}x${W}".
Proof.
  split; [vm_compute; reflexivity|]. split; [vm_compute; reflexivity|].
  rewrite (Render_then_ExpandVars [Lit "a"; Verbatim "U"; Key "slug"; Verbatim "W"]
    (scope_context sample_scope) "a${U}x${W}"); [vm_compute; reflexivity| | |vm_compute; reflexivity].
  - cbn. repeat split; try done.
  - intros k v Hk. apply list_elem_of_singleton in Hk as ->. vm_compute. by intros [= <-].
Defined.
