(* ===== verification/SnapshotKey.v ===== *)
(** * Snapshot keys and template names

    [internal/snapshot/snapshot.go] ([Key], its fingerprint and names),
    [internal/snapshot/prewarm.go] (spare names) and the name patterns of
    [internal/snapshot/orphans.go]. *)
From stdpp Require Import base strings list gmap pretty sorting.
From Stdlib Require Import ZArith Lia.
From S2P Require Import Prelude GoStrings Engine Slug.

Definition FormatVersion : Z := 7.

Record Key := {
  kFormatVersion : Z;
  kEngine : string;
  kEngineVersion : string;
  kConnection : string;
  kHashMode : string;
  kMigrationsHashHex : string;
  kDumpHashHex : string;
  kLockfileHashes : gmap string string
}.

Definition New (engine engineVersion connection hashMode migrationsHash dumpHash : string)
    (lockfileHashes : gmap string string) : Key :=
  {| kFormatVersion := FormatVersion; kEngine := engine; kEngineVersion := engineVersion;
     kConnection := connection; kHashMode := hashMode; kMigrationsHashHex := migrationsHash;
     kDumpHashHex := dumpHash; kLockfileHashes := lockfileHashes |}.

(** ** The byte stream hashed by [Fingerprint] *)
Definition byte_of (z : Z) : ascii := Ascii.ascii_of_N (Z.to_N (z mod 256)).

(** [binary.LittleEndian.PutUint32] *)
Definition le32 (z : Z) : string :=
  String (byte_of z) (String (byte_of (z / 256)) (String (byte_of (z / 65536))
    (String (byte_of (z / 16777216)) EmptyString))).

Definition nul : string := String "000" EmptyString.
Definition field (s : string) : string := s +:+ nul.

(** [sort.Strings] of the map's keys *)
Definition sorted_names (m : gmap string string) : list string :=
  merge_sort String.le (map_to_list m).*1.

Definition stream_fields (l : list string) : string := foldr (fun s acc => field s +:+ acc) "" l.

Definition lock_fields (m : gmap string string) : list string :=
  flat_map (fun name => [name; default "" (m !! name)]) (sorted_names m).

Definition stream (k : Key) : string :=
  field (le32 (kFormatVersion k)) +:+
  stream_fields [kEngine k; kEngineVersion k; kConnection k; kHashMode k;
                 kMigrationsHashHex k; kDumpHashHex k] +:+
  field (le32 (Z.of_nat (length (sorted_names (kLockfileHashes k))))) +:+
  stream_fields (lock_fields (kLockfileHashes k)).

Section Names.
(** the 32-byte digest of package blake3 *)
Variable blake3 : string -> string.

Definition Fingerprint (k : Key) : string := hexEncode (blake3 (stream k)).
Definition TemplateName (k : Key) : string := "_tm_" +:+ str_take 16 (Fingerprint k).
Definition IndexPrefix (k : Key) : string := "tm_" +:+ str_take 16 (Fingerprint k).
End Names.

(** ** Pre-warmed spares *)
Definition PrewarmSuffix : string := "_spare".
Definition SpareName (template : string) (slot : Z) : string := template +:+ PrewarmSuffix +:+ itoa slot.

Definition SpareSlot (name template : string) : option Z :=
  match cut_prefix (template +:+ PrewarmSuffix) name with
  | Some rest =>
      if String.eqb rest "" then None
      else match atoi rest with
           | Some n => if (n <? 1)%Z then None else Some n
           | None => None
           end
  | None => None
  end.

(** ** The patterns of the orphan audit; the result is capture group 1 *)

(** [^<lead>[0-9a-f]{16}]: the lead and the sixteen digits, and what follows *)
Definition hex16 (s : string) : option (string * string) :=
  let h := str_take 16 s in
  if (String.length h =? 16)%nat && str_all is_hex h then Some (h, str_drop 16 s) else None.

(** [^(_tm_(?:tmpl_[a-z]+_)?[0-9a-f]{16})]: the legacy form first, as the
    optional group is greedy *)
Definition template_base (s : string) : option (string * string) :=
  r ← cut_prefix "_tm_" s;
  let plain := '(h, rest) ← hex16 r; Some ("_tm_" +:+ h, rest) in
  match cut_prefix "tmpl_" r with
  | Some r' =>
      match span is_lower r' with
      | (String _ _ as eng, String "_" r'') =>
          match hex16 r'' with
          | Some (h, rest) => Some ("_tm_tmpl_" +:+ eng +:+ "_" +:+ h, rest)
          | None => plain
          end
      | _ => plain
      end
  | None => plain
  end.


Definition spare_tail (rest : string) : bool :=
  match cut_prefix "_spare" rest with Some d => all_digits d | None => false end.

Definition nameScopedTemplate (s : string) : option string :=
  '(base, rest) ← template_base s;
  if String.eqb rest "" || spare_tail rest then Some base else None.

Definition spareNamePattern (s : string) : option string :=
  '(base, rest) ← template_base s; if spare_tail rest then Some base else None.

(** [^(tm_[0-9a-f]{16}_)] and [^(_tm:[0-9a-f]{16}:)] *)
Definition esTemplatePrefix (s : string) : option string :=
  r ← cut_prefix "tm_" s; '(h, rest) ← hex16 r;
  match rest with String "_" _ => Some ("tm_" +:+ h +:+ "_") | _ => None end.

Definition redisTemplatePrefix (s : string) : option string :=
  r ← cut_prefix "_tm:" s; '(h, rest) ← hex16 r;
  match rest with String ":" _ => Some ("_tm:" +:+ h +:+ ":") | _ => None end.

Example orphan_legacy : nameScopedTemplate "_tm_tmpl_mysql_0123456789abcdef_spare12" =
  Some "_tm_tmpl_mysql_0123456789abcdef".
Proof. vm_compute. reflexivity. Qed.
Example orphan_user_db : nameScopedTemplate "_tm_0123456789abcdeg" = None.
Proof. vm_compute. reflexivity. Qed.

(** ** Lemmas: reading the stream back *)
Definition is_nul (c : ascii) : bool := Ascii.eqb c "000".
Definition no_nul (s : string) : bool := negb (str_any is_nul s).

Lemma field_cut s rest : no_nul s = true -> cut_byte "000" (field s +:+ rest) = Some (s, rest).
Proof.
  intros H%negb_true_iff. unfold field, nul. rewrite str_app_assoc. by apply cut_byte_here.
Qed.

Lemma stream_fields_inj l1 l2 r1 r2 :
  length l1 = length l2 ->
  forallb no_nul l1 = true -> forallb no_nul l2 = true ->
  stream_fields l1 +:+ r1 = stream_fields l2 +:+ r2 -> l1 = l2 /\ r1 = r2.
Proof.
  revert l2; induction l1 as [|x l1 IH]; intros [|y l2]; try done.
  intros [=] [Hx H1]%andb_prop [Hy H2]%andb_prop. cbn [stream_fields foldr].
  rewrite !str_app_assoc. intros E. apply (f_equal (cut_byte "000")) in E.
  rewrite !field_cut in E by done. injection E as <- E.
  destruct (IH l2) as [-> ->]; done.
Qed.

Lemma byte_of_inj a b : byte_of a = byte_of b -> (a mod 256 = b mod 256)%Z.
Proof.
  unfold byte_of. intros E. apply (f_equal code) in E.
  pose proof (Z.mod_pos_bound a 256 ltac:(lia)). pose proof (Z.mod_pos_bound b 256 ltac:(lia)).
  rewrite !Ascii.N_ascii_embedding in E by lia. lia.
Qed.

Lemma le32_inj a b :
  (0 <= a < 2 ^ 32 -> 0 <= b < 2 ^ 32 -> le32 a = le32 b -> a = b)%Z.
Proof.
  intros Ha Hb [= H0 H1 H2 H3].
  apply byte_of_inj in H0, H1, H2, H3.
  assert (D : forall z, (0 <= z < 2 ^ 32 ->
    z = z mod 256 + 256 * (z / 256 mod 256) + 65536 * (z / 65536 mod 256)
        + 16777216 * (z / 16777216 mod 256))%Z).
  { intros z Hz.
    rewrite (Z.mod_small (z / 16777216)) by
      (split; [apply Z.div_pos; lia|apply Z.div_lt_upper_bound; lia]).
    pose proof (Z.div_mod z 256 ltac:(lia)).
    pose proof (Z.div_mod (z / 256) 256 ltac:(lia)).
    pose proof (Z.div_mod (z / 65536) 256 ltac:(lia)).
    rewrite Z.div_div in * by lia. change (256 * 256)%Z with 65536%Z in *.
    change (65536 * 256)%Z with 16777216%Z in *. lia. }
  rewrite (D a Ha), (D b Hb). congruence.
Qed.

Lemma hex_digit_inj a b : (a < 16)%N -> (b < 16)%N -> hex_digit a = hex_digit b -> a = b.
Proof.
  intros Ha Hb. rewrite <- (N2Nat.id a), <- (N2Nat.id b).
  assert (Forall (fun i => Forall (fun j =>
    hex_digit (N.of_nat i) = hex_digit (N.of_nat j) -> N.of_nat i = N.of_nat j) (seq 0 16)) (seq 0 16)) as HF.
  { repeat (constructor; [repeat (constructor; [vm_compute; congruence|]); constructor|]). constructor. }
  rewrite Forall_forall in HF. intros E.
  assert (Hj := HF (N.to_nat a) ltac:(apply elem_of_seq; lia)). rewrite Forall_forall in Hj.
  apply Hj; [apply elem_of_seq; lia|done].
Qed.

Lemma hexEncode_inj a b : hexEncode a = hexEncode b -> a = b.
Proof.
  revert b; induction a as [|x a IH]; intros [|y b]; cbn [hexEncode]; try done.
  intros [= Hh Hl E]. f_equal; [|by apply IH].
  assert (Hx := code_lt x). assert (Hy := code_lt y).
  change 15%N with (N.ones 4) in Hl. rewrite !N.land_ones in Hl. rewrite !N.shiftr_div_pow2 in Hh.
  apply hex_digit_inj in Hh; [|apply N.Div0.div_lt_upper_bound; simpl; lia..].
  apply hex_digit_inj in Hl; [|apply N.mod_lt; done..].
  rewrite <- (Ascii.ascii_N_embedding x), <- (Ascii.ascii_N_embedding y). f_equal.
  rewrite (N.div_mod (code x) (2 ^ 4)), (N.div_mod (code y) (2 ^ 4)) by done. congruence.
Qed.

Lemma sorted_names_spec m n : n ∈ sorted_names m <-> is_Some (m !! n).
Proof.
  unfold sorted_names. rewrite merge_sort_Permutation, list_elem_of_fmap. split.
  - intros ([k v] & -> & H%elem_of_map_to_list). eauto.
  - intros [v H]. exists (n, v). split; [done|]. by apply elem_of_map_to_list.
Qed.

Lemma lock_fields_inj n1 n2 (m1 m2 : gmap string string) :
  flat_map (fun name => [name; default "" (m1 !! name)]) n1 =
  flat_map (fun name => [name; default "" (m2 !! name)]) n2 ->
  n1 = n2 /\ forall n, n ∈ n1 -> default "" (m1 !! n) = default "" (m2 !! n).
Proof.
  revert n2; induction n1 as [|x n1 IH]; intros [|y n2]; cbn; try done.
  - intros _. split; [done|]. intros n Hn. inversion Hn.
  - intros [= <- Hv E]. destruct (IH _ E) as [<- H]. split; [done|].
    intros n [->|Hn]%elem_of_cons; auto.
Qed.

Lemma lock_fields_length m : length (lock_fields m) = 2 * length (sorted_names m).
Proof. unfold lock_fields. induction (sorted_names m); cbn; lia. Qed.

(** a map is its sorted names and their values *)
Lemma names_values_eq (m1 m2 : gmap string string) :
  sorted_names m1 = sorted_names m2 ->
  (forall n, n ∈ sorted_names m1 -> default "" (m1 !! n) = default "" (m2 !! n)) -> m1 = m2.
Proof.
  intros En Ev. apply map_eq. intros n.
  destruct (m1 !! n) as [v1|] eqn:E1, (m2 !! n) as [v2|] eqn:E2.
  - specialize (Ev n ltac:(apply sorted_names_spec; eauto)). rewrite E1, E2 in Ev. cbn in Ev. by f_equal.
  - assert (n ∈ sorted_names m2) as [? ?]%sorted_names_spec; [|congruence]. rewrite <- En. apply sorted_names_spec; eauto.
  - assert (n ∈ sorted_names m1) as [? ?]%sorted_names_spec; [|congruence]. rewrite En. apply sorted_names_spec; eauto.
  - done.
Qed.

(** The texts of a key: hex digests, engine names and relative paths, none of
    which holds a NUL byte *)
Definition key_no_nul (k : Key) : bool :=
  forallb no_nul [kEngine k; kEngineVersion k; kConnection k; kHashMode k;
                  kMigrationsHashHex k; kDumpHashHex k] &&
  forallb no_nul (lock_fields (kLockfileHashes k)).

Definition key_sized (k : Key) : Prop :=
  (0 <= kFormatVersion k < 2 ^ 32)%Z /\ (Z.of_nat (size (kLockfileHashes k)) < 2 ^ 32)%Z.

Lemma sorted_names_size m : length (sorted_names m) = size m.
Proof.
  unfold sorted_names. rewrite (Permutation_length (merge_sort_Permutation _ _)), length_fmap.
  by rewrite length_map_to_list.
Qed.

Lemma stream_inj k1 k2 :
  key_no_nul k1 = true -> key_no_nul k2 = true -> key_sized k1 -> key_sized k2 ->
  stream k1 = stream k2 -> k1 = k2.
Proof.
  unfold key_no_nul, key_sized, stream. intros [A1 B1]%andb_prop [A2 B2]%andb_prop [V1 S1] [V2 S2] E.
  apply str_app_inj_len in E as [EV E]; [|done].
  apply str_app_inj_len in EV as [EV _]; [|done].
  apply le32_inj in EV; [|done..].
  apply stream_fields_inj in E as [EF E]; [|done..].
  apply str_app_inj_len in E as [EC E]; [|done].
  apply str_app_inj_len in EC as [EC _]; [|done].
  rewrite !sorted_names_size in EC.
  apply le32_inj in EC; [|lia..].
  rewrite <- (str_app_nil_r (stream_fields (lock_fields (kLockfileHashes k1)))),
          <- (str_app_nil_r (stream_fields (lock_fields (kLockfileHashes k2)))) in E.
  apply stream_fields_inj in E as [E _]; [|rewrite !lock_fields_length, !sorted_names_size; lia|done..].
  apply lock_fields_inj in E as [En Ev].
  pose proof (names_values_eq _ _ En Ev) as EL.
  injection EF as ? ? ? ? ? ?. destruct k1, k2; cbn in *. by subst.
Qed.

(** ** Properties *)

(** C32: the fingerprint identifies the snapshot's content.  For keys
    without NUL bytes in their texts (hex digests, engine names, paths) and a
    digest that does not collide on the two byte streams, two keys have the
    same fingerprint exactly when every field agrees, whatever order the
    lockfile map is visited in. *)
Theorem Fingerprint_injective (blake3 : string -> string) (k1 k2 : Key)
    (Hcoll : blake3 (stream k1) = blake3 (stream k2) -> stream k1 = stream k2)
    (H1 : key_no_nul k1 = true) (H2 : key_no_nul k2 = true)
    (S1 : key_sized k1) (S2 : key_sized k2) :
  Fingerprint blake3 k1 = Fingerprint blake3 k2 <-> k1 = k2.
Proof.
  split; [|by intros ->]. unfold Fingerprint. intros E%hexEncode_inj%Hcoll.
  by apply stream_inj.
Qed.

Definition sample_key (lock : gmap string string) : Key :=
  New "mysql" "8.4" "" "content" "aa" "" lock.

Lemma Fingerprint_injective_witness :
  Fingerprint (fun s => s) (sample_key {["a/composer.lock" := "01"]}) <>
  Fingerprint (fun s => s) (sample_key {["b/composer.lock" := "01"]}).
Proof.
  intros E. apply Fingerprint_injective in E.
  - apply (f_equal (fun k => kLockfileHashes k !! "a/composer.lock")) in E. vm_compute in E. discriminate E.
  - done.
  - vm_compute. reflexivity.
  - vm_compute. reflexivity.
  - vm_compute. repeat split; congruence.
  - vm_compute. repeat split; congruence.
Defined.

Section TemplateNames.
Variable blake3 : string -> string.
Hypothesis blake3_32 : forall s, String.length (blake3 s) = 32.
Local Abbreviation TemplateName := (TemplateName blake3).

Lemma fp16 k : String.length (str_take 16 (Fingerprint blake3 k)) = 16 /\
               str_all is_hex (str_take 16 (Fingerprint blake3 k)) = true.
Proof using blake3_32.
  unfold Fingerprint. rewrite str_length_take, hexEncode_length, blake3_32.
  split; [done|]. apply str_all_take, hexEncode_hex.
Qed.

Lemma hex16_app h rest :
  String.length h = 16 -> str_all is_hex h = true -> hex16 (h +:+ rest) = Some (h, rest).
Proof using.
  intros Hl Hh. unfold hex16. rewrite (str_take_app h rest 16), (str_drop_app h rest 16) by done.
  by rewrite Hl, Hh.
Qed.

Lemma template_base_name k rest :
  template_base (TemplateName k +:+ rest) = Some (TemplateName k, rest).
Proof using blake3_32.
  destruct (fp16 k) as [Hl Hh]. unfold SnapshotKey.TemplateName.
  set (h := str_take 16 (Fingerprint blake3 k)) in *. clearbody h.
  unfold template_base. rewrite str_app_assoc.
  replace (cut_prefix "_tm_" ("_tm_" +:+ h +:+ rest)) with (Some (h +:+ rest)) by done. cbn [mbind option_bind].
  replace (cut_prefix "tmpl_" (h +:+ rest)) with (@None string); [by rewrite hex16_app|].
  destruct h as [|c h]; [done|]. cbn in Hh. apply andb_prop in Hh as [Hc _].
  cbn [String.append cut_prefix]. destruct (Ascii.eqb_spec "t" c) as [<-|]; [done|done].
Qed.

Lemma spare_tail_slot n : (0 < n)%Z -> spare_tail (PrewarmSuffix +:+ itoa n) = true.
Proof using. intros H. unfold spare_tail. cbn. by apply itoa_digits. Qed.

Lemma SpareSlot_name template n : (1 <= n <= max_int64)%Z -> SpareSlot (SpareName template n) template = Some n.
Proof using.
  intros Hn. unfold SpareSlot. replace (cut_prefix _ _) with (Some (itoa n)).
  - destruct (String.eqb_spec (itoa n) "") as [E|]; [|rewrite atoi_itoa by lia].
    + pose proof (itoa_digits n ltac:(lia)) as Hd. by rewrite E in Hd.
    + destruct (Z.ltb_spec n 1); [lia|done].
  - symmetry. apply cut_prefix_app. unfold SpareName. by rewrite !str_app_assoc.
Qed.

(** template and spare names are recognised for what they
    are.  A template name is a valid identifier that the orphan audit reads as
    itself and never as a spare; every spare of it is read back as that
    template's, and its slot number is recovered. *)
Theorem template_names_roundtrip (k : Key) (n : Z) (Hn : (1 <= n <= max_int64)%Z) :
  Ident.validate (TemplateName k) = Ok tt /\
  nameScopedTemplate (TemplateName k) = Some (TemplateName k) /\
  spareNamePattern (TemplateName k) = None /\
  nameScopedTemplate (SpareName (TemplateName k) n) = Some (TemplateName k) /\
  spareNamePattern (SpareName (TemplateName k) n) = Some (TemplateName k) /\
  SpareSlot (SpareName (TemplateName k) n) (TemplateName k) = Some n.
Proof using blake3_32.
  pose proof (template_base_name k "") as E0. rewrite str_app_nil_r in E0.
  unfold nameScopedTemplate, spareNamePattern, SpareName.
  rewrite E0, template_base_name. cbn [mbind option_bind].
  rewrite spare_tail_slot by lia. rewrite orb_true_r. repeat split.
  - apply Ident.validate_ok. split; [done|].
    unfold SnapshotKey.TemplateName. rewrite str_all_app. cbn.
    eapply str_all_weaken; [|apply fp16]. intros c Hc. by apply slug_ident, hex_slug.
  - by apply SpareSlot_name.
Qed.
End TemplateNames.

Lemma template_names_roundtrip_witness :
  SpareSlot "_tm_0700000000006d79_spare3" "_tm_0700000000006d79" = Some 3%Z.
Proof.
  apply (template_names_roundtrip sample_digest sample_digest_32 (sample_key ∅) 3). vm_compute. split; congruence.
Defined.
