(* ===== verification/SnapshotStore.v ===== *)
(** * The snapshots table

    [internal/store/snapshots.go].  The table is the list of its rows in the
    order a scan yields them, which SQLite does not fix: every theorem holds
    for every order, so it covers every resolution of a tie of an [ORDER BY].
    The two JSON columns hold the decoded value, [None] standing for a text
    that does not decode. *)
From stdpp Require Import base strings list sets gmap sorting.
From Stdlib Require Import ZArith Lia.
From S2P Require Import Prelude GoStrings Engine.

Record FileHash := { Path : string; Hash : string }.

#[export] Instance FileHash_eq_dec : EqDecision FileHash.
Proof. solve_decision. Defined.

Abbreviation InputVector := (list FileHash).

(** [map[string]InputVector] *)
Abbreviation Inputs := (gmap string (list FileHash)).

(** A row of the table.  [dump_hash], [size_bytes] and [repo_id] are nullable. *)
Record Row := {
  fingerprint : string;
  row_engine : string;
  engine_version : string;
  source_db : string;
  template_name : string;
  migrations_hash : string;
  dump_hash : option string;
  lockfile_hashes_json : option (gmap string string);
  inputs_json : option Inputs;
  size_bytes : option Z;
  created_at : Z;
  last_used_at : Z;
  use_count : Z;
  repo_id : option Z;
  connection : string
}.

Definition Table : Type := list Row.

(** [type SnapshotRecord struct] *)
Record SnapshotRecord := {
  rFingerprint : string;
  rEngine : string;
  rEngineVersion : string;
  rSourceDB : string;
  rTemplateName : string;
  rMigrationsHash : string;
  rDumpHash : string;
  rLockfileHashes : gmap string string;
  rConnection : string;
  rInputs : Inputs;
  rSizeBytes : Z;
  rCreatedAt : Z;
  rLastUsedAt : Z;
  rUseCount : Z;
  rRepoID : Z
}.

Inductive error :=
| DecodeLockfile (fp : string)
| DecodeInputs (fp : string)
| ForeignKey (repo : Z)
| IntegerOverflow.

(** the scan of one row: the [COALESCE]s, the two [json.Unmarshal]s and
    [normalizeMaps] *)
Definition decode (r : Row) : res error SnapshotRecord :=
  match lockfile_hashes_json r, inputs_json r with
  | None, _ => Err (DecodeLockfile (fingerprint r))
  | _, None => Err (DecodeInputs (fingerprint r))
  | Some locks, Some ins =>
      Ok {| rFingerprint := fingerprint r; rEngine := row_engine r;
            rEngineVersion := engine_version r; rSourceDB := source_db r;
            rTemplateName := template_name r; rMigrationsHash := migrations_hash r;
            rDumpHash := default "" (dump_hash r); rLockfileHashes := locks;
            rConnection := connection r; rInputs := ins;
            rSizeBytes := default 0%Z (size_bytes r); rCreatedAt := created_at r;
            rLastUsedAt := last_used_at r; rUseCount := use_count r;
            rRepoID := default 0%Z (repo_id r) |}
  end.

(** the columns a [SELECT] leaves out stay at the zero value *)
Definition without_routing (r : SnapshotRecord) : SnapshotRecord :=
  {| rFingerprint := rFingerprint r; rEngine := rEngine r; rEngineVersion := rEngineVersion r;
     rSourceDB := rSourceDB r; rTemplateName := rTemplateName r;
     rMigrationsHash := rMigrationsHash r; rDumpHash := rDumpHash r;
     rLockfileHashes := rLockfileHashes r; rConnection := ""; rInputs := rInputs r;
     rSizeBytes := rSizeBytes r; rCreatedAt := rCreatedAt r; rLastUsedAt := rLastUsedAt r;
     rUseCount := rUseCount r; rRepoID := 0 |}.

Definition row_of (fp : string) (t : Table) : option Row :=
  List.find (fun r => String.eqb (fingerprint r) fp) t.

Definition LookupSnapshot (fp : string) (t : Table) : res error (option SnapshotRecord) :=
  match row_of fp t with
  | None => Ok None
  | Some r => res_bind (decode r) (fun rec => Ok (Some rec))
  end.

Definition touch_row (now : Z) (r : Row) : Row :=
  {| fingerprint := fingerprint r; row_engine := row_engine r; engine_version := engine_version r;
     source_db := source_db r; template_name := template_name r;
     migrations_hash := migrations_hash r; dump_hash := dump_hash r;
     lockfile_hashes_json := lockfile_hashes_json r; inputs_json := inputs_json r;
     size_bytes := size_bytes r; created_at := created_at r; last_used_at := now;
     use_count := use_count r + 1; repo_id := repo_id r; connection := connection r |}.

Definition TouchSnapshot (now : Z) (fp : string) (t : Table) : Table :=
  map (fun r => if String.eqb (fingerprint r) fp then touch_row now r else r) t.

(** [UPDATE … RETURNING]: the row is touched even when its JSON does not
    decode; neither [connection] nor [repo_id] is returned. *)
Definition LookupAndTouchSnapshot (now : Z) (fp : string) (t : Table)
    : Table * res error (option SnapshotRecord) :=
  let t' := TouchSnapshot now fp t in
  (t', match row_of fp t' with
       | None => Ok None
       | Some r => res_bind (decode r) (fun rec => Ok (Some (without_routing rec)))
       end).

Definition DeleteSnapshot (fp : string) (t : Table) : Table :=
  List.filter (fun r => negb (String.eqb (fingerprint r) fp)) t.

(** the row [RecordSnapshot] inserts: engine canonicalised, [NULLIF]s applied,
    zero times replaced by the clock *)
Definition insert_row (now : Z) (r : SnapshotRecord) : Row :=
  {| fingerprint := rFingerprint r; row_engine := Engine.canonical_label (rEngine r);
     engine_version := rEngineVersion r; source_db := rSourceDB r;
     template_name := rTemplateName r; migrations_hash := rMigrationsHash r;
     dump_hash := if String.eqb (rDumpHash r) "" then None else Some (rDumpHash r);
     lockfile_hashes_json := Some (rLockfileHashes r); inputs_json := Some (rInputs r);
     size_bytes := if Z.eqb (rSizeBytes r) 0 then None else Some (rSizeBytes r);
     created_at := if Z.eqb (rCreatedAt r) 0 then now else rCreatedAt r;
     last_used_at := if Z.eqb (rLastUsedAt r) 0 then now else rLastUsedAt r;
     use_count := rUseCount r;
     repo_id := if Z.ltb 0 (rRepoID r) then Some (rRepoID r) else None;
     connection := rConnection r |}.

(** [ON CONFLICT(fingerprint) DO UPDATE]: the engine, the creation time and
    the use count of the row are kept *)
Definition update_row (old excluded : Row) : Row :=
  {| fingerprint := fingerprint old; row_engine := row_engine old;
     engine_version := engine_version excluded; source_db := source_db excluded;
     template_name := template_name excluded; migrations_hash := migrations_hash excluded;
     dump_hash := dump_hash excluded; lockfile_hashes_json := lockfile_hashes_json excluded;
     inputs_json := inputs_json excluded; size_bytes := size_bytes excluded;
     created_at := created_at old; last_used_at := last_used_at excluded;
     use_count := use_count old; repo_id := repo_id excluded;
     connection := connection excluded |}.

(** the statement: insert, or update the row of the same fingerprint *)
Definition upsert (new : Row) (t : Table) : Table :=
  match row_of (fingerprint new) t with
  | None => t ++ [new]
  | Some _ => map (fun old => if String.eqb (fingerprint old) (fingerprint new)
                              then update_row old new else old) t
  end.

(** [repos] is the set of the ids of the repos table ([repo_id REFERENCES
    repos(id)], with the foreign_keys pragma on) *)
Definition RecordSnapshot (repos : gset Z) (now : Z) (r : SnapshotRecord) (t : Table)
    : Table * res error unit :=
  let new := insert_row now r in
  if match repo_id new with Some id => negb (bool_decide (id ∈ repos)) | None => false end
  then (t, Err (ForeignKey (rRepoID r)))
  else (upsert new t, Ok tt).

(** ** Ancestors *)
Definition CommandsHashKey : string := "__commands__".
Definition DumpOnlyMarkerKey : string := "__dump_only__".

(** [m[k]] of a [map[string]string] *)
Definition str_at (m : gmap string string) (k : string) : string := default "" (m !! k).

Definition candidate_row (repoID : Z) (eng engineVersion dumpHash : string) (r : Row) : bool :=
  bool_decide (repo_id r = Some repoID) &&
  String.eqb (row_engine r) (Engine.canonical_label eng) &&
  String.eqb (engine_version r) engineVersion &&
  String.eqb (default "" (dump_hash r)) dumpHash.

(** rows that do not decode and dump-only templates are skipped *)
Definition candidate_record (r : Row) : option SnapshotRecord :=
  match decode r with
  | Err _ => None
  | Ok rec => if String.eqb (str_at (rLockfileHashes rec) DumpOnlyMarkerKey) "1" then None
              else Some (without_routing rec)
  end.

Definition candidateSnapshots (repoID : Z) (eng engineVersion dumpHash : string) (t : Table)
    : list SnapshotRecord :=
  omap candidate_record (List.filter (candidate_row repoID eng engineVersion dumpHash) t).

Definition vectorTotalLen (m : Inputs) : Z :=
  sumZ (fun kv => Z.of_nat (length kv.2)) (map_to_list m).

(** the inner loop of [vectorsAreAncestor] *)
Fixpoint vector_prefix (cVec curVec : InputVector) : bool :=
  match cVec, curVec with
  | [], _ => true
  | _ :: _, [] => false
  | c :: cs, x :: xs => bool_decide (c = x) && vector_prefix cs xs
  end.

Definition vectorsAreAncestor (cand current : Inputs) : bool :=
  forallb (fun kv => match current !! kv.1 with
                     | None => false
                     | Some curVec => vector_prefix kv.2 curVec
                     end) (map_to_list cand).

Definition FindAncestorSnapshot (repoID : Z)
    (eng engineVersion dumpHash currentCommandsHash : string) (currentInputs : Inputs)
    (t : Table) : option SnapshotRecord :=
  let currentTotal := vectorTotalLen currentInputs in
  (foldl (fun '(best, bestLen) r =>
     if negb (String.eqb (str_at (rLockfileHashes r) CommandsHashKey) currentCommandsHash)
     then (best, bestLen)
     else if negb (vectorsAreAncestor (rInputs r) currentInputs) then (best, bestLen)
     else let total := vectorTotalLen (rInputs r) in
          if Z.leb currentTotal total then (best, bestLen)
          else if Z.ltb bestLen total then (Some r, total) else (best, bestLen))
   (None, (-1)%Z) (candidateSnapshots repoID eng engineVersion dumpHash t)).1.

(** ** Rollback ancestors *)
Definition is_sep (c : ascii) : bool := Ascii.eqb c "/" || Ascii.eqb c "092".

(** the text after the last separator *)
Fixpoint pathBase (p : string) : string :=
  match p with
  | EmptyString => EmptyString
  | String c p' => if str_any is_sep p' then pathBase p'
                   else if is_sep c then p' else p
  end.

(** the order of the merged ledger: by basename, then by path *)
Definition ledger_le (a b : FileHash) : Prop :=
  if String.eqb (pathBase (Path a)) (pathBase (Path b))
  then String.le (Path a) (Path b)
  else String.le (pathBase (Path a)) (pathBase (Path b)).

#[export] Instance ledger_le_dec : RelDecision ledger_le.
Proof. intros a b. unfold ledger_le. destruct (String.eqb _ _); apply _. Defined.

Fixpoint commonPrefixLen (a b : list FileHash) : nat :=
  match a, b with
  | x :: a', y :: b' => if bool_decide (x = y) then S (commonPrefixLen a' b') else 0
  | _, _ => 0
  end.

Fixpoint unchangedLeadLen (cand : list FileHash) (currentHashes : gmap string string) : nat :=
  match cand with
  | [] => 0
  | fh :: cand' =>
      if bool_decide (currentHashes !! Path fh = Some (Hash fh))
      then S (unchangedLeadLen cand' currentHashes) else 0
  end.

Definition withoutGlobs (m : Inputs) (drop : gset string) : Inputs :=
  if bool_decide (drop = ∅) then m else filter (fun kv => kv.1 ∉ drop) m.

Definition vector_at (m : Inputs) (glob : string) : InputVector := default [] (m !! glob).

Definition lockfilesEqual (a b : Inputs) (lockfileGlobs : gset string) : bool :=
  forallb (fun glob => bool_decide (vector_at a glob = vector_at b glob)) (elements lockfileGlobs).

Definition unwindableTail (tail : list FileHash) (currentNames : gset string) : bool :=
  forallb (fun fh => bool_decide (pathBase (Path fh) ∈ currentNames)) tail.

Section Rollback.
(** The iteration order of [range] over a map: any permutation, and another
    one at every call. *)
Variable range : nat -> Inputs -> list (string * InputVector).

Definition mergeVectorsByBasename (call : nat) (m : Inputs) : list FileHash :=
  stable_sort ledger_le (flat_map snd (range call m)).

Variables (repoID : Z) (eng engineVersion dumpHash currentCommandsHash : string)
          (lockfileGlobs : gset string) (currentInputs : Inputs).

Definition curLedger : list FileHash :=
  mergeVectorsByBasename 0 (withoutGlobs currentInputs lockfileGlobs).
Definition curNames : gset string := list_to_set (map (fun fh => pathBase (Path fh)) curLedger).

(** [curHashes[fh.Path] = fh.Hash] for every entry, the last one winning *)
Definition curHashes : gmap string string :=
  foldl (fun (m : gmap string string) fh => <[Path fh := Hash fh]> m) ∅ curLedger.

(** The body of the loop over the candidates: [None] for [continue], else the
    entries kept and the steps to unwind. *)
Definition rollback_plan (call : nat) (r : SnapshotRecord) : option (Z * Z) :=
  if negb (String.eqb (str_at (rLockfileHashes r) CommandsHashKey) currentCommandsHash) then None
  else
    let candLedger := mergeVectorsByBasename call (withoutGlobs (rInputs r) lockfileGlobs) in
    if (Nat.eqb (commonPrefixLen candLedger curLedger) (length candLedger)) &&
       lockfilesEqual (rInputs r) currentInputs lockfileGlobs then None
    else
      let kept := unchangedLeadLen candLedger curHashes in
      if negb (unwindableTail (drop kept candLedger) curNames) then None
      else Some (Z.of_nat kept, (Z.of_nat (length candLedger) - Z.of_nat kept)%Z).

Definition FindRollbackAncestor (t : Table) : option SnapshotRecord * Z :=
  let '(best, bestSteps, bestKept, _) :=
    foldl (fun '(best, bestSteps, bestKept, i) r =>
      match rollback_plan (S i) r with
      | None => (best, bestSteps, bestKept, S i)
      | Some (kept, steps) =>
          if Z.ltb bestKept kept || (Z.eqb kept bestKept && Z.ltb steps bestSteps)
          then (Some r, steps, kept, S i)
          else (best, bestSteps, bestKept, S i)
      end)
      (None, 0%Z, (-1)%Z, 0%nat) (candidateSnapshots repoID eng engineVersion dumpHash t) in
  (best, bestSteps).
End Rollback.

(** ** Lemmas: candidates *)
(** What a candidate is: a row of the same repository, engine, version and
    dump that decodes and is not a dump-only template. *)
Definition offered (repoID : Z) (eng engineVersion dumpHash : string) (t : Table)
    (r : SnapshotRecord) : Prop :=
  exists row rec, row ∈ t /\ repo_id row = Some repoID /\
    row_engine row = Engine.canonical_label eng /\ engine_version row = engineVersion /\
    default "" (dump_hash row) = dumpHash /\ decode row = Ok rec /\
    str_at (rLockfileHashes rec) DumpOnlyMarkerKey <> "1" /\ r = without_routing rec.

Lemma candidate_row_true repoID eng v d row :
  candidate_row repoID eng v d row = true <->
  repo_id row = Some repoID /\ row_engine row = Engine.canonical_label eng /\
  engine_version row = v /\ default "" (dump_hash row) = d.
Proof.
  unfold candidate_row. rewrite !andb_true_iff, !String.eqb_eq, bool_decide_eq_true. tauto.
Qed.

Lemma candidate_record_Some row r :
  candidate_record row = Some r <->
  exists rec, decode row = Ok rec /\
    str_at (rLockfileHashes rec) DumpOnlyMarkerKey <> "1" /\ r = without_routing rec.
Proof.
  unfold candidate_record. destruct (decode row) as [rec|e]; [|naive_solver].
  destruct (String.eqb_spec (str_at (rLockfileHashes rec) DumpOnlyMarkerKey) "1"); naive_solver.
Qed.

Lemma candidateSnapshots_spec repoID eng v d t r :
  r ∈ candidateSnapshots repoID eng v d t <-> offered repoID eng v d t r.
Proof.
  unfold candidateSnapshots, offered. rewrite list_elem_of_omap.
  setoid_rewrite elem_of_filter_bool. setoid_rewrite candidate_row_true.
  setoid_rewrite candidate_record_Some. naive_solver.
Qed.

(** ** Lemmas: prefixes *)
Lemma vector_prefix_spec c v : vector_prefix c v = true <-> exists ext, v = c ++ ext.
Proof.
  revert v; induction c as [|x c IH]; intros [|y v]; simpl.
  - naive_solver.
  - naive_solver.
  - naive_solver.
  - rewrite andb_true_iff, bool_decide_eq_true, IH. naive_solver.
Qed.

Lemma vectorsAreAncestor_spec cand cur :
  vectorsAreAncestor cand cur = true <->
  forall glob v, cand !! glob = Some v -> exists ext, cur !! glob = Some (v ++ ext).
Proof.
  unfold vectorsAreAncestor. rewrite forallb_elem. split.
  - intros H glob v Hv. specialize (H (glob, v) (proj2 (elem_of_map_to_list cand glob v) Hv)).
    simpl in H. destruct (cur !! glob); [|done].
    apply vector_prefix_spec in H as [ext ->]. by exists ext.
  - intros H [glob v] Hv%elem_of_map_to_list. simpl.
    destruct (H _ _ Hv) as [ext ->]. apply vector_prefix_spec. by exists ext.
Qed.

Lemma vectorTotalLen_nonneg m : (0 <= vectorTotalLen m)%Z.
Proof. apply sumZ_nonneg. intros. lia. Qed.

(** ** The ancestor search *)
Section Ancestor.
Variables (repoID : Z) (eng engineVersion dumpHash cmds : string) (cur : Inputs).

(** A strict ancestor of the current run: same commands, every vector a
    prefix of the current one, fewer files in total. *)
Definition ancestor (r : SnapshotRecord) : Prop :=
  str_at (rLockfileHashes r) CommandsHashKey = cmds /\
  (forall glob v, rInputs r !! glob = Some v -> exists ext, cur !! glob = Some (v ++ ext)) /\
  (vectorTotalLen (rInputs r) < vectorTotalLen cur)%Z.

Definition ancestor_b (r : SnapshotRecord) : bool :=
  String.eqb (str_at (rLockfileHashes r) CommandsHashKey) cmds &&
  vectorsAreAncestor (rInputs r) cur &&
  negb (Z.leb (vectorTotalLen cur) (vectorTotalLen (rInputs r))).

Definition longer (x b : SnapshotRecord) : bool :=
  Z.ltb (vectorTotalLen (rInputs b)) (vectorTotalLen (rInputs x)).

Lemma ancestor_b_spec r : ancestor_b r = true <-> ancestor r.
Proof.
  unfold ancestor_b, ancestor. rewrite !andb_true_iff, String.eqb_eq, vectorsAreAncestor_spec,
    negb_true_iff, Z.leb_gt. tauto.
Qed.

(** the pair of variables the loop carries is determined by the choice *)
Lemma FindAncestor_pick t :
  FindAncestorSnapshot repoID eng engineVersion dumpHash cmds cur t =
  pick_best ancestor_b longer (candidateSnapshots repoID eng engineVersion dumpHash t).
Proof.
  unfold FindAncestorSnapshot, pick_best.
  set (f := fun '(best, bestLen) r => _).
  assert (Hl : forall l b0, 
    foldl f (b0, match b0 with Some b => vectorTotalLen (rInputs b) | None => (-1)%Z end) l =
    let b := foldl (pick_step ancestor_b longer) b0 l in
    (b, match b with Some b => vectorTotalLen (rInputs b) | None => (-1)%Z end)).
  { induction l as [|r l IH]; intros b0; [done|]. cbn [foldl]. rewrite <- IH. f_equal.
    unfold f, pick_step, ancestor_b, longer.
    pose proof (vectorTotalLen_nonneg (rInputs r)).
    destruct (String.eqb _ _); [|done]. destruct (vectorsAreAncestor _ _); [|done]. simpl.
    destruct (Z.leb _ (vectorTotalLen (rInputs r))); [done|]. simpl.
    destruct b0 as [b|]; [by destruct (Z.ltb _ _)|].
    by rewrite (proj2 (Z.ltb_lt _ _)) by lia. }
  specialize (Hl (candidateSnapshots repoID eng engineVersion dumpHash t) None).
  cbn zeta in Hl. by rewrite Hl.
Qed.
End Ancestor.

(** ** Lemmas: the ledger order *)
Lemma str_le_total a b : String.le a b \/ String.le b a.
Proof. apply (total String.le). Qed.

#[export] Instance ledger_le_trans : Transitive ledger_le.
Proof.
  intros a b c. unfold ledger_le.
  destruct (String.eqb_spec (pathBase (Path a)) (pathBase (Path b))) as [Eab|Nab],
    (String.eqb_spec (pathBase (Path b)) (pathBase (Path c))) as [Ebc|Nbc].
  - rewrite (proj2 (String.eqb_eq _ _)) by congruence. intros. by etrans.
  - rewrite Eab. by rewrite (proj2 (String.eqb_neq _ _) Nbc).
  - rewrite <- Ebc. by rewrite (proj2 (String.eqb_neq _ _) Nab).
  - intros Hab Hbc. destruct (String.eqb_spec (pathBase (Path a)) (pathBase (Path c))) as [Eac|].
    + exfalso. apply Nab. rewrite <- Eac in Hbc. by apply (anti_symm String.le).
    + by etrans.
Qed.

Lemma ledger_le_total a b : ledger_le a b \/ ledger_le b a.
Proof.
  unfold ledger_le. rewrite (String.eqb_sym (pathBase (Path b))).
  destruct (String.eqb _ _); apply str_le_total.
Qed.

Lemma commonPrefixLen_full a b :
  commonPrefixLen a b = length a <-> exists ext, b = a ++ ext.
Proof.
  revert b; induction a as [|x a IH]; intros [|y b]; simpl; [naive_solver..|].
  case_bool_decide; [|naive_solver]. specialize (IH b). split.
  - intros [=]. destruct (proj1 IH) as [ext ->]; [done|]. subst. by exists ext.
  - intros [ext [= -> ->]]. f_equal. apply IH. by exists ext.
Qed.

(** the lead that is kept: every entry of it is current, the next one is not *)
Lemma unchangedLeadLen_spec cand h :
  let k := unchangedLeadLen cand h in
  (k <= length cand)%nat /\
  Forall (fun fh => h !! Path fh = Some (Hash fh)) (take k cand) /\
  (forall fh, cand !! k = Some fh -> h !! Path fh <> Some (Hash fh)).
Proof.
  induction cand as [|x cand IH]; simpl; [split_and!; [lia|constructor|done]|].
  case_bool_decide as Hx; simpl.
  - destruct IH as (? & ? & ?). split_and!; [lia|by constructor|done].
  - split_and!; [lia|constructor|]. intros fh [= ->]. done.
Qed.

Lemma unwindableTail_spec tail names :
  unwindableTail tail names = true <-> Forall (fun fh => pathBase (Path fh) ∈ names) tail.
Proof.
  unfold unwindableTail. rewrite forallb_elem, Forall_forall.
  by setoid_rewrite bool_decide_eq_true.
Qed.

Lemma lockfilesEqual_spec a b globs :
  lockfilesEqual a b globs = true <-> forall g, g ∈ globs -> vector_at a g = vector_at b g.
Proof.
  unfold lockfilesEqual. rewrite forallb_elem. setoid_rewrite bool_decide_eq_true.
  by setoid_rewrite elem_of_elements.
Qed.

Lemma withoutGlobs_lookup m drop g v :
  withoutGlobs m drop !! g = Some v <-> m !! g = Some v /\ g ∉ drop.
Proof.
  unfold withoutGlobs. case_bool_decide; [subst; set_solver|].
  by rewrite map_lookup_filter_Some.
Qed.

Lemma last_hash_In l (m : gmap string string) p h :
  foldl (fun (m : gmap string string) fh => <[Path fh := Hash fh]> m) m l !! p = Some h ->
  m !! p = Some h \/ {| Path := p; Hash := h |} ∈ l.
Proof.
  revert m; induction l as [|x l IH]; intros m H; simpl in H; [by left|].
  destruct (IH _ H) as [Hm|Hin]; [|right; by constructor].
  destruct (decide (Path x = p)) as [<-|].
  - rewrite lookup_insert_eq in Hm. simplify_eq. right. destruct x. constructor.
  - rewrite lookup_insert_ne in Hm by done. by left.
Qed.

(** ** The rollback search *)
Section RollbackLemmas.
Variable range : nat -> Inputs -> list (string * InputVector).
Hypothesis range_perm : forall call m, range call m ≡ₚ map_to_list m.
Variables (repoID : Z) (eng engineVersion dumpHash cmds : string)
          (globs : gset string) (cur : Inputs).

(** the ledger of a file map: the files outside the lockfile globs, in ledger
    order *)
Definition ledger_of (m : Inputs) (l : list FileHash) : Prop :=
  StronglySorted ledger_le l /\
  l ≡ₚ flat_map snd (map_to_list (withoutGlobs m globs)).

Lemma merge_ledger call m : ledger_of m (mergeVectorsByBasename range call (withoutGlobs m globs)).
Proof using range_perm.
  split; unfold mergeVectorsByBasename.
  - apply stable_sort_sorted; [apply _|apply ledger_le_total].
  - by rewrite stable_sort_perm, range_perm.
Qed.

(** A file of the current run under a migration glob. *)
Definition on_disk (fh : FileHash) : Prop :=
  exists g v, cur !! g = Some v /\ g ∉ globs /\ fh ∈ v.

Lemma curLedger_on_disk fh : fh ∈ curLedger range globs cur <-> on_disk fh.
Proof using range_perm.
  destruct (merge_ledger 0 cur) as [_ Hp]. unfold curLedger, on_disk. rewrite Hp.
  rewrite list_elem_of_In, in_flat_map. setoid_rewrite <- list_elem_of_In.
  split.
  - intros ([g v] & Hgv%elem_of_map_to_list & Hin).
    apply withoutGlobs_lookup in Hgv as [? ?]. by exists g, v.
  - intros (g & v & ? & ? & ?). exists (g, v). split; [|done].
    apply elem_of_map_to_list. by apply withoutGlobs_lookup.
Qed.

(** What makes a candidate usable, its ledger being [l]: [kept] leading
    entries are on disk unchanged and no more, the entries to unwind still
    have a file, and it is not a pure append of the current run. *)
Definition rollback_ok (r : SnapshotRecord) (l : list FileHash) (kept : nat) : Prop :=
  str_at (rLockfileHashes r) CommandsHashKey = cmds /\
  (kept <= length l)%nat /\
  Forall on_disk (take kept l) /\
  (forall fh, l !! kept = Some fh -> curHashes range globs cur !! Path fh <> Some (Hash fh)) /\
  Forall (fun fh => exists fh', on_disk fh' /\ pathBase (Path fh') = pathBase (Path fh)) (drop kept l) /\
  ~ ((exists ext, curLedger range globs cur = l ++ ext) /\
     forall g, g ∈ globs -> vector_at (rInputs r) g = vector_at cur g).

Lemma rollback_plan_spec call r kept steps :
  let l := mergeVectorsByBasename range call (withoutGlobs (rInputs r) globs) in
  rollback_plan range cmds globs cur call r = Some (kept, steps) ->
  exists k, kept = Z.of_nat k /\ steps = Z.of_nat (length l - k) /\ rollback_ok r l k.
Proof using range_perm.
  intros l. unfold rollback_plan. fold l.
  destruct (String.eqb_spec (str_at (rLockfileHashes r) CommandsHashKey) cmds) as [Hc|]; [|done]. simpl.
  destruct (Nat.eqb _ _ && _) eqn:Happ; [done|].
  destruct (unwindableTail _ _) eqn:Hu; [|done]. simpl. intros [= <- <-].
  set (k := unchangedLeadLen l (curHashes range globs cur)) in *.
  destruct (unchangedLeadLen_spec l (curHashes range globs cur)) as (Hk & Hlead & Hnext). fold k in Hk, Hlead, Hnext.
  exists k. split; [done|]. split; [lia|]. unfold rollback_ok. split_and!; [done|done| |done| |].
  - eapply Forall_impl; [exact Hlead|]. intros fh Hfh. apply curLedger_on_disk.
    apply last_hash_In in Hfh as [Hfh|Hfh]; [done|]. by destruct fh.
  - apply unwindableTail_spec in Hu. eapply Forall_impl; [exact Hu|]. intros fh Hfh.
    unfold curNames in Hfh. apply elem_of_list_to_set, list_elem_of_fmap in Hfh as (fh' & Hb & Hin).
    exists fh'. by rewrite <- curLedger_on_disk.
  - intros [Hext Hlock]. apply commonPrefixLen_full in Hext.
    apply lockfilesEqual_spec in Hlock.
    by rewrite Hext, Nat.eqb_refl, Hlock in Happ.
Qed.

(** the search as the choice of the best numbered candidate *)
Definition plan_of (ir : nat * SnapshotRecord) : option (Z * Z) :=
  rollback_plan range cmds globs cur ir.1 ir.2.

Definition usable (ir : nat * SnapshotRecord) : bool :=
  match plan_of ir with Some _ => true | None => false end.

Definition keeps_more (x b : nat * SnapshotRecord) : bool :=
  match plan_of x, plan_of b with
  | Some (kx, sx), Some (kb, sb) => Z.ltb kb kx || (Z.eqb kx kb && Z.ltb sx sb)
  | _, _ => false
  end.

Lemma keeps_more_irrefl x : keeps_more x x = false.
Proof. unfold keeps_more. destruct (plan_of x) as [[k s]|]; [|done]. rewrite !Z.ltb_irrefl. by rewrite andb_false_r. Qed.

Lemma keeps_more_trans x y z :
  keeps_more x y = true -> keeps_more y z = true -> keeps_more x z = true.
Proof.
  unfold keeps_more. destruct (plan_of x) as [[kx sx]|], (plan_of y) as [[ky sy]|], (plan_of z) as [[kz sz]|]; try done.
  rewrite !orb_true_iff, !andb_true_iff, !Z.ltb_lt, !Z.eqb_eq. lia.
Qed.

Definition numbered (l : list SnapshotRecord) (i : nat) : list (nat * SnapshotRecord) :=
  imap (fun j r => (S (i + j), r)) l.

Definition result_of (o : option (nat * SnapshotRecord)) : option SnapshotRecord * Z :=
  match o with
  | Some ir => (Some ir.2, match plan_of ir with Some (_, steps) => steps | None => 0%Z end)
  | None => (None, 0%Z)
  end.

Lemma rollback_plan_nonneg call r kept steps :
  rollback_plan range cmds globs cur call r = Some (kept, steps) -> (0 <= kept)%Z.
Proof.
  unfold rollback_plan. repeat case_goal; try done. intros [= <- <-]. lia.
Qed.

(** the loop's variables after the choice [o], at candidate [i] *)
Definition loop_state (o : option (nat * SnapshotRecord)) (i : nat)
    : option SnapshotRecord * Z * Z * nat :=
  (result_of o, match o with
     | Some ir => match plan_of ir with Some (kept, _) => kept | None => (-1)%Z end
     | None => (-1)%Z end, i).

Lemma FindRollback_step o i r :
  (forall ir, o = Some ir -> usable ir = true) ->
  (let '(best, bestSteps, bestKept, i) := loop_state o i in
   match rollback_plan range cmds globs cur (S i) r with
   | None => (best, bestSteps, bestKept, S i)
   | Some (kept, steps) =>
       if Z.ltb bestKept kept || (Z.eqb kept bestKept && Z.ltb steps bestSteps)
       then (Some r, steps, kept, S i)
       else (best, bestSteps, bestKept, S i)
   end) = loop_state (pick_step usable keeps_more o (S i, r)) (S i).
Proof.
  intros Ho. assert (Eu : usable (S i, r) =
    match plan_of (S i, r) with Some _ => true | None => false end) by reflexivity.
  unfold pick_step. rewrite Eu.
  destruct o as [ir|]; unfold loop_state, result_of;
    change (rollback_plan range cmds globs cur (S i) r) with (plan_of (S i, r)).
  - specialize (Ho ir eq_refl). unfold usable in Ho. unfold keeps_more.
    destruct (plan_of ir) as [[k' s']|] eqn:Eir; [|done].
    destruct (plan_of (S i, r)) as [[k s]|] eqn:Ep; [|by rewrite Eir].
    destruct (_ || _); simpl; by rewrite ?Ep, ?Eir.
  - destruct (plan_of (S i, r)) as [[k s]|] eqn:Ep; [|done].
    simpl. rewrite Ep. apply rollback_plan_nonneg in Ep. by rewrite (proj2 (Z.ltb_lt _ _)) by lia.
Qed.

Lemma pick_step_usable o x :
  (forall ir, o = Some ir -> usable ir = true) ->
  forall ir, pick_step usable keeps_more o x = Some ir -> usable ir = true.
Proof.
  unfold pick_step. intros Ho ir. destruct (usable x) eqn:Eu; [|by apply Ho].
  destruct o as [b|]; [case_match; naive_solver|naive_solver].
Qed.

Lemma FindRollback_pick t :
  FindRollbackAncestor range repoID eng engineVersion dumpHash cmds globs cur t =
  result_of (pick_best usable keeps_more
    (numbered (candidateSnapshots repoID eng engineVersion dumpHash t) 0)).
Proof.
  unfold FindRollbackAncestor, pick_best.
  set (f := fun '(best, bestSteps, bestKept, i) r => _).
  assert (Hl : forall l o i, (forall ir, o = Some ir -> usable ir = true) ->
    foldl f (loop_state o i) l =
    loop_state (foldl (pick_step usable keeps_more) o (numbered l i)) (i + length l)%nat).
  { induction l as [|r l IH]; intros o i Ho; [simpl; by rewrite Nat.add_0_r|].
    unfold numbered. cbn [foldl imap]. rewrite Nat.add_0_r.
    assert (E : f (loop_state o i) r = loop_state (pick_step usable keeps_more o (S i, r)) (S i))
      by (generalize (FindRollback_step o i r Ho); by destruct (loop_state o i) as [[[? ?] ?] ?]).
    rewrite E, IH by (by apply pick_step_usable).
    cbn [length]. rewrite <- Nat.add_succ_comm. unfold numbered. f_equal. f_equal.
    apply imap_ext. intros j x _. simpl. by rewrite Nat.add_succ_r. }
  specialize (Hl (candidateSnapshots repoID eng engineVersion dumpHash t) None 0%nat ltac:(done)).
  change (loop_state None 0) with (@None SnapshotRecord, 0%Z, (-1)%Z, 0%nat) in Hl.
  rewrite Hl. unfold loop_state. by destruct (result_of _).
Qed.
End RollbackLemmas.

(** ** Eviction listings *)
Record SnapshotEvictionCandidate := {
  cFingerprint : string;
  cEngine : string;
  cTemplateName : string;
  cSourceDB : string;
  cConnection : string
}.

#[export] Instance SnapshotEvictionCandidate_eq_dec : EqDecision SnapshotEvictionCandidate.
Proof. solve_decision. Defined.

Definition candidate (r : Row) : SnapshotEvictionCandidate :=
  {| cFingerprint := fingerprint r; cEngine := row_engine r; cTemplateName := template_name r;
     cSourceDB := source_db r; cConnection := connection r |}.

(** [ORDER BY last_used_at ASC] and [DESC] *)
Definition used_before (a b : Row) : Prop := (last_used_at a <= last_used_at b)%Z.
Definition used_after (a b : Row) : Prop := (last_used_at b <= last_used_at a)%Z.

#[export] Instance used_before_dec : RelDecision used_before.
Proof. intros a b. unfold used_before. apply _. Defined.
#[export] Instance used_after_dec : RelDecision used_after.
Proof. intros a b. unfold used_after. apply _. Defined.

Definition in_repo (repoID : Z) (r : Row) : bool := bool_decide (repo_id r = Some repoID).

(** [LIMIT -1 OFFSET keep] *)
Definition ListLRUEvictable (repoID keep : Z) (t : Table) : list SnapshotEvictionCandidate :=
  if Z.eqb keep 0 || Z.eqb repoID 0 then []
  else map candidate (drop (Z.to_nat keep)
         (stable_sort used_after (List.filter (in_repo repoID) t))).

Definition ListAllTemplateNames (t : Table) : gset string := list_to_set (map template_name t).

Definition ListSnapshotsOlderThan (cutoffMillis : Z) (t : Table) : list SnapshotEvictionCandidate :=
  map candidate (stable_sort used_before
    (List.filter (fun r => Z.ltb (last_used_at r) cutoffMillis) t)).

(** [SUM] raises an error when the sum leaves 64 bits *)
Definition SumSnapshotBytes (t : Table) : res error Z :=
  foldl (fun acc r => res_bind acc (fun sum =>
           let sum' := (sum + default 0 (size_bytes r))%Z in
           if (min_int64 <=? sum')%Z && (sum' <=? max_int64)%Z then Ok sum' else Err IntegerOverflow))
    (Ok 0%Z) t.

Definition ListSnapshotsForRepo (repoID : Z) (t : Table) : list SnapshotEvictionCandidate :=
  if Z.eqb repoID 0 then []
  else map candidate (stable_sort used_before (List.filter (in_repo repoID) t)).

(** [s2] is used strictly later than [s], ties broken by fingerprint *)
Definition newer (s2 s : Row) : bool :=
  Z.ltb (last_used_at s) (last_used_at s2) ||
  (Z.eqb (last_used_at s2) (last_used_at s) &&
   negb (bool_decide (String.le (fingerprint s2) (fingerprint s)))).

Definition newer_siblings (t : Table) (s : Row) : list Row :=
  List.filter (fun s2 => String.eqb (migrations_hash s2) (migrations_hash s) && newer s2 s) t.

(** [ORDER BY migrations_hash, last_used_at ASC] *)
Definition source_order (a b : Row) : Prop :=
  if String.eqb (migrations_hash a) (migrations_hash b)
  then (last_used_at a <= last_used_at b)%Z
  else String.le (migrations_hash a) (migrations_hash b).

#[export] Instance source_order_dec : RelDecision source_order.
Proof. intros a b. unfold source_order. destruct (String.eqb _ _); apply _. Defined.

Definition beyond (keep : Z) (t : Table) (s : Row) : bool :=
  Z.leb keep (Z.of_nat (length (newer_siblings t s))).

Definition ListSnapshotsBeyondPerSource (keep : Z) (t : Table) : list SnapshotEvictionCandidate :=
  if Z.eqb keep 0 then []
  else map candidate (stable_sort source_order (List.filter (beyond keep t) t)).

(** [ORDER BY COALESCE(size_bytes,0) DESC, last_used_at ASC] *)
Definition row_size (r : Row) : Z := default 0%Z (size_bytes r).
Definition largest_first (a b : Row) : Prop :=
  (row_size b < row_size a \/ row_size a = row_size b /\ last_used_at a <= last_used_at b)%Z.

#[export] Instance largest_first_dec : RelDecision largest_first.
Proof. intros a b. unfold largest_first. apply _. Defined.

Definition ListSnapshotsLargestLRU (t : Table) : list SnapshotEvictionCandidate * list Z :=
  let rows := stable_sort largest_first t in (map candidate rows, map row_size rows).

(** ** Lemmas: the table *)
Lemma row_of_Some fp t r : row_of fp t = Some r -> r ∈ t /\ fingerprint r = fp.
Proof.
  unfold row_of. intros H. apply List.find_some in H as [Hin Hfp].
  apply String.eqb_eq in Hfp. by rewrite list_elem_of_In.
Qed.

Lemma row_of_None fp t : row_of fp t = None <-> fp ∉ fingerprint <$> t.
Proof.
  unfold row_of. induction t as [|r t IH]; simpl; [set_solver|].
  destruct (String.eqb_spec (fingerprint r) fp); set_solver.
Qed.

Lemma row_of_unique fp t r : NoDup (fingerprint <$> t) -> r ∈ t -> fingerprint r = fp -> row_of fp t = Some r.
Proof.
  intros Hnd Hin <-. induction t as [|x t IH]; [set_solver|].
  apply NoDup_cons in Hnd as [Hx Hnd]. unfold row_of. simpl.
  apply elem_of_cons in Hin as [<-|Hin]; [by rewrite String.eqb_refl|].
  destruct (String.eqb_spec (fingerprint x) (fingerprint r)) as [E|]; [|by apply IH].
  exfalso. apply Hx. apply list_elem_of_fmap. by exists r.
Qed.

Lemma apply_if_fingerprint f (b : bool) r :
  (forall r, fingerprint (f r) = fingerprint r) -> fingerprint (if b then f r else r) = fingerprint r.
Proof. intros Hf. destruct b; [apply Hf|done]. Qed.

(** an update in place that keeps the key *)
Lemma row_of_update f fp fp' t :
  (forall r, fingerprint (f r) = fingerprint r) ->
  row_of fp' (map (fun r => if String.eqb (fingerprint r) fp then f r else r) t) =
  if String.eqb fp' fp then f <$> row_of fp' t else row_of fp' t.
Proof.
  intros Hf. unfold row_of. induction t as [|r t IH]; [by destruct (String.eqb _ _)|].
  cbn [map List.find]. rewrite (apply_if_fingerprint f) by done.
  destruct (String.eqb_spec (fingerprint r) fp') as [<-|]; [|exact IH].
  by destruct (String.eqb _ _).
Qed.

Lemma fingerprints_update f fp t :
  (forall r, fingerprint (f r) = fingerprint r) ->
  fingerprint <$> map (fun r => if String.eqb (fingerprint r) fp then f r else r) t = fingerprint <$> t.
Proof.
  intros Hf. induction t as [|r t IH]; [done|]. cbn. f_equal; [|exact IH].
  by apply apply_if_fingerprint.
Qed.

Lemma row_of_app_new fp t new :
  row_of fp t = None -> row_of fp (t ++ [new]) = if String.eqb (fingerprint new) fp then Some new else None.
Proof.
  unfold row_of. induction t as [|r t IH]; simpl; [done|].
  destruct (String.eqb (fingerprint r) fp); [done|]. apply IH.
Qed.

Lemma row_of_app_old fp t l r : row_of fp t = Some r -> row_of fp (t ++ l) = Some r.
Proof.
  unfold row_of. induction t as [|x t IH]; simpl; [done|].
  destruct (String.eqb (fingerprint x) fp); [done|]. apply IH.
Qed.

(** ** Lemmas: orders of the listings *)
#[export] Instance used_after_trans : Transitive used_after.
Proof. intros a b c. unfold used_after. lia. Qed.
#[export] Instance used_before_trans : Transitive used_before.
Proof. intros a b c. unfold used_before. lia. Qed.

Lemma used_after_total a b : used_after a b \/ used_after b a.
Proof. unfold used_after. lia. Qed.
Lemma used_before_total a b : used_before a b \/ used_before b a.
Proof. unfold used_before. lia. Qed.

(** the recency order of a source: newest first, later fingerprint first *)
Definition recency (a b : Row) : Prop :=
  (last_used_at b < last_used_at a)%Z \/
  (last_used_at a = last_used_at b /\ String.le (fingerprint b) (fingerprint a)).

#[export] Instance recency_dec : RelDecision recency.
Proof. intros a b. unfold recency. apply _. Defined.

#[export] Instance recency_trans : Transitive recency.
Proof.
  intros a b c. unfold recency. intros [?|[? ?]] [?|[? ?]]; [left; lia..|].
  right. split; [lia|by etrans].
Qed.

Lemma recency_total a b : recency a b \/ recency b a.
Proof.
  unfold recency. destruct (Z.lt_trichotomy (last_used_at a) (last_used_at b)) as [?|[?|?]]; auto.
  destruct (str_le_total (fingerprint a) (fingerprint b)); auto.
Qed.

Lemma newer_asym a b : newer a b = true -> newer b a = false.
Proof.
  unfold newer. intros [?|[? Hn]%andb_prop]%orb_prop; bools.
  - rewrite (proj2 (Z.ltb_ge _ _)), (proj2 (Z.eqb_neq _ _)) by lia. done.
  - rewrite (proj2 (Z.ltb_ge _ _)) by lia. simpl. apply andb_false_iff. right.
    apply negb_false_iff, bool_decide_eq_true.
    by destruct (str_le_total (fingerprint a) (fingerprint b)).
Qed.

Lemma recency_newer a b : recency a b -> fingerprint a <> fingerprint b -> newer a b = true.
Proof.
  unfold recency, newer. intros [?|[-> Hle]] Hne; apply orb_true_iff.
  - left. by apply Z.ltb_lt.
  - right. rewrite Z.eqb_refl. simpl. apply negb_true_iff, bool_decide_eq_false. intros Hle'.
    apply Hne. by apply (anti_symm String.le).
Qed.

(** the rows of one source *)
Definition of_source (h : string) (t : Table) : Table :=
  List.filter (fun r => String.eqb (migrations_hash r) h) t.

Lemma NoDup_fmap_filter {A B} (f : A -> B) (g : A -> bool) l :
  NoDup (f <$> l) -> NoDup (f <$> List.filter g l).
Proof.
  induction l as [|x l IH]; simpl; [done|]. intros [Hx Hnd]%NoDup_cons.
  destruct (g x); simpl; [|by apply IH]. apply NoDup_cons. split; [|by apply IH].
  intros (y & Hy & [_ Hin]%elem_of_filter_bool)%list_elem_of_fmap. apply Hx, list_elem_of_fmap. by exists y.
Qed.

Lemma fingerprint_eq t a b :
  NoDup (fingerprint <$> t) -> a ∈ t -> b ∈ t -> fingerprint a = fingerprint b -> a = b.
Proof.
  intros Hnd Ha Hb E. pose proof (row_of_unique _ _ _ Hnd Ha E). pose proof (row_of_unique _ _ _ Hnd Hb eq_refl).
  congruence.
Qed.

Lemma NoDup_rows t : NoDup (fingerprint <$> t) -> NoDup t.
Proof. apply NoDup_fmap_1. Qed.

Lemma recency_strict t :
  NoDup (fingerprint <$> t) ->
  StronglySorted (fun a b => newer a b = true) (stable_sort recency t).
Proof.
  intros Hnd. eapply StronglySorted_strict; [|intros x y Hx Hy Hne|apply stable_sort_sorted].
  - rewrite stable_sort_perm. by apply NoDup_rows.
  - intros Hr. apply recency_newer; [done|]. intros E. apply Hne.
    rewrite !elem_of_stable_sort in *. by apply (fingerprint_eq t).
  - apply _.
  - apply recency_total.
Qed.

Lemma newer_siblings_length t b :
  length (newer_siblings t b) =
  length (List.filter (fun a => newer a b) (stable_sort recency (of_source (migrations_hash b) t))).
Proof.
  unfold newer_siblings. rewrite (filter_perm _ _ _ (stable_sort_perm recency _)).
  unfold of_source. by rewrite filter_filter.
Qed.

(** the listed rows of a source are those past the first [keep] of it *)
Lemma beyond_source keep t h :
  NoDup (fingerprint <$> t) -> (0 <= keep)%Z ->
  of_source h (List.filter (beyond keep t) t) ≡ₚ
  drop (Z.to_nat keep) (stable_sort recency (of_source h t)).
Proof.
  intros Hnd Hk. unfold of_source at 1. rewrite filter_swap. fold (of_source h t).
  set (L := stable_sort recency (of_source h t)).
  rewrite (filter_perm _ _ L) by (symmetry; apply stable_sort_perm).
  rewrite <- (rank_filter newer newer_asym L) by (apply recency_strict, NoDup_fmap_filter, Hnd).
  match goal with |- ?a ≡ₚ ?b => cut (a = b); [by intros ->|] end.
  apply filter_ext_in. intros b Hb%list_elem_of_In.
  unfold L in Hb. apply elem_of_stable_sort, elem_of_filter_bool in Hb as [Hh%String.eqb_eq _].
  unfold beyond. rewrite newer_siblings_length, Hh. fold L.
  destruct (Z.leb_spec keep (Z.of_nat (length (List.filter (fun a => newer a b) L))));
    symmetry; [apply Nat.leb_le|apply Nat.leb_gt]; lia.
Qed.

(** the record the table holds after [RecordSnapshot] put it there first *)
Definition stored (now : Z) (r : SnapshotRecord) : SnapshotRecord :=
  {| rFingerprint := rFingerprint r; rEngine := Engine.canonical_label (rEngine r);
     rEngineVersion := rEngineVersion r; rSourceDB := rSourceDB r;
     rTemplateName := rTemplateName r; rMigrationsHash := rMigrationsHash r;
     rDumpHash := rDumpHash r; rLockfileHashes := rLockfileHashes r;
     rConnection := rConnection r; rInputs := rInputs r; rSizeBytes := rSizeBytes r;
     rCreatedAt := if Z.eqb (rCreatedAt r) 0 then now else rCreatedAt r;
     rLastUsedAt := if Z.eqb (rLastUsedAt r) 0 then now else rLastUsedAt r;
     rUseCount := rUseCount r; rRepoID := Z.max 0 (rRepoID r) |}.

(** … and when a row of the same fingerprint was there *)
Definition stored_over (old : Row) (rec : SnapshotRecord) : SnapshotRecord :=
  {| rFingerprint := rFingerprint rec; rEngine := row_engine old;
     rEngineVersion := rEngineVersion rec; rSourceDB := rSourceDB rec;
     rTemplateName := rTemplateName rec; rMigrationsHash := rMigrationsHash rec;
     rDumpHash := rDumpHash rec; rLockfileHashes := rLockfileHashes rec;
     rConnection := rConnection rec; rInputs := rInputs rec; rSizeBytes := rSizeBytes rec;
     rCreatedAt := created_at old; rLastUsedAt := rLastUsedAt rec;
     rUseCount := use_count old; rRepoID := rRepoID rec |}.

Lemma decode_insert now r : decode (insert_row now r) = Ok (stored now r).
Proof.
  unfold decode, insert_row, stored. simpl. do 2 f_equal.
  - by destruct (String.eqb_spec (rDumpHash r) "") as [->|].
  - by destruct (Z.eqb_spec (rSizeBytes r) 0) as [->|].
  - destruct (Z.ltb_spec 0 (rRepoID r)); simpl; lia.
Qed.

Lemma decode_update old new rec :
  fingerprint old = fingerprint new -> decode new = Ok rec ->
  decode (update_row old new) = Ok (stored_over old rec).
Proof.
  unfold decode, update_row, stored_over. intros E. simpl.
  destruct (lockfile_hashes_json new), (inputs_json new); try done. intros [= <-]. by rewrite E.
Qed.

Lemma touch_row_decode now r rec :
  decode r = Ok rec ->
  decode (touch_row now r) =
  Ok {| rFingerprint := rFingerprint rec; rEngine := rEngine rec; rEngineVersion := rEngineVersion rec;
        rSourceDB := rSourceDB rec; rTemplateName := rTemplateName rec;
        rMigrationsHash := rMigrationsHash rec; rDumpHash := rDumpHash rec;
        rLockfileHashes := rLockfileHashes rec; rConnection := rConnection rec;
        rInputs := rInputs rec; rSizeBytes := rSizeBytes rec; rCreatedAt := rCreatedAt rec;
        rLastUsedAt := now; rUseCount := rUseCount rec + 1; rRepoID := rRepoID rec |}.
Proof.
  unfold decode. simpl. destruct (lockfile_hashes_json r), (inputs_json r); try done. by intros [= <-].
Qed.

Lemma touched_last_used now fp t r :
  r ∈ TouchSnapshot now fp t ->
  (fingerprint r = fp /\ last_used_at r = now) \/ (fingerprint r <> fp /\ r ∈ t).
Proof.
  unfold TouchSnapshot. intros (x & -> & Hx)%list_elem_of_fmap.
  destruct (String.eqb_spec (fingerprint x) fp); [by left|by right].
Qed.

Lemma upsert_spec new t :
  NoDup (fingerprint <$> t) ->
  NoDup (fingerprint <$> upsert new t) /\
  (forall fp, fp <> fingerprint new -> row_of fp (upsert new t) = row_of fp t) /\
  row_of (fingerprint new) (upsert new t) =
    Some (match row_of (fingerprint new) t with None => new | Some old => update_row old new end).
Proof.
  intros Hnd. unfold upsert. destruct (row_of (fingerprint new) t) as [old|] eqn:Eo.
  - split_and!.
    + by rewrite (fingerprints_update (fun old => update_row old new)).
    + intros fp Hfp. rewrite (row_of_update (fun old => update_row old new)) by done.
      by rewrite (proj2 (String.eqb_neq _ _) Hfp).
    + rewrite (row_of_update (fun old => update_row old new)) by done. by rewrite String.eqb_refl, Eo.
  - split_and!.
    + rewrite fmap_app. apply NoDup_app. split_and!; [done| |apply NoDup_singleton].
      intros fp Hfp ->%list_elem_of_singleton. by apply row_of_None in Eo.
    + intros fp Hfp. destruct (row_of fp t) eqn:Ef; [by apply row_of_app_old|].
      rewrite row_of_app_new by done. by rewrite (proj2 (String.eqb_neq _ _) (not_eq_sym Hfp)).
    + rewrite row_of_app_new by done. by rewrite String.eqb_refl.
Qed.

(** ** Properties *)

(** [FindAncestorSnapshot] returns the longest strict ancestor.
    Its answer is a row of the same repository, engine, version and dump, no
    dump-only template, built by the same commands, each of whose file vectors
    is a prefix of the current one, with fewer files in total than the current
    run; no other such row holds more files; and it returns nothing only when
    there is no such row. *)
Theorem FindAncestorSnapshot_longest (repoID : Z) (eng engineVersion dumpHash cmds : string)
    (cur : Inputs) (t : Table) :
  match FindAncestorSnapshot repoID eng engineVersion dumpHash cmds cur t with
  | Some r =>
      offered repoID eng engineVersion dumpHash t r /\ ancestor cmds cur r /\
      forall r', offered repoID eng engineVersion dumpHash t r' -> ancestor cmds cur r' ->
        (vectorTotalLen (rInputs r') <= vectorTotalLen (rInputs r))%Z
  | None => forall r, offered repoID eng engineVersion dumpHash t r -> ~ ancestor cmds cur r
  end.
Proof.
  rewrite FindAncestor_pick.
  assert (Hbest : best_of (ancestor_b cmds cur) longer (candidateSnapshots repoID eng engineVersion dumpHash t)
    (pick_best (ancestor_b cmds cur) longer (candidateSnapshots repoID eng engineVersion dumpHash t))).
  { apply pick_best_spec; unfold longer; intros; bools; [apply Z.ltb_irrefl|apply Z.ltb_lt; lia]. }
  destruct (pick_best _ _ _) as [r|]; simpl in Hbest.
  - destruct Hbest as (Hin & Ha & Hmax). split_and!; [by apply candidateSnapshots_spec|by apply ancestor_b_spec|].
    intros r' Ho%candidateSnapshots_spec Ha'%ancestor_b_spec. by apply Z.ltb_ge, Hmax.
  - intros r Ho%candidateSnapshots_spec Ha%ancestor_b_spec. by rewrite Hbest in Ha.
Qed.

(** C24: [FindRollbackAncestor] picks a snapshot the current run can be
    reached from by unwinding a suffix of its ledger.  For the candidate it
    returns, the ledger (its non-lockfile files in basename order) splits into
    a lead the current run has on disk unchanged and a tail of [steps] entries
    that each still have a file of that basename on disk; the entry after the
    lead is missing or changed, and the candidate is not a pure append.  No
    other usable candidate keeps a longer lead, nor the same lead with fewer
    steps, and nothing is returned only when no candidate is usable.  This
    holds whatever order the iterations over the file maps take. *)
Theorem FindRollbackAncestor_best (range : nat -> Inputs -> list (string * InputVector))
    (range_perm : forall call m, range call m ≡ₚ map_to_list m)
    (repoID : Z) (eng engineVersion dumpHash cmds : string)
    (globs : gset string) (cur : Inputs) (t : Table) :
  let cands := candidateSnapshots repoID eng engineVersion dumpHash t in
  let plan i r := rollback_plan range cmds globs cur (S i) r in
  match FindRollbackAncestor range repoID eng engineVersion dumpHash cmds globs cur t with
  | (Some r, steps) =>
      offered repoID eng engineVersion dumpHash t r /\
      exists l kept, ledger_of globs (rInputs r) l /\ rollback_ok range cmds globs cur r l kept /\
        steps = Z.of_nat (length (drop kept l)) /\
        forall j r' k' s', cands !! j = Some r' -> plan j r' = Some (k', s') ->
          (k' < Z.of_nat kept \/ k' = Z.of_nat kept /\ steps <= s')%Z
  | (None, steps) => steps = 0%Z /\ forall j r', cands !! j = Some r' -> plan j r' = None
  end.
Proof.
  intros cands plan. rewrite FindRollback_pick by done. fold cands.
  assert (Hbest := pick_best_spec (usable range cmds globs cur) (keeps_more range cmds globs cur)
    (keeps_more_irrefl _ _ _ _) (keeps_more_trans _ _ _ _) (numbered cands 0)).
  assert (Hnum : forall j r', cands !! j = Some r' -> (S j, r') ∈ numbered cands 0).
  { intros j r' Hj. apply list_elem_of_lookup. exists j. unfold numbered. by rewrite list_lookup_imap, Hj. }
  destruct (pick_best _ _ _) as [[i r]|]; simpl in Hbest |- *.
  - destruct Hbest as (Hin & Hu & Hmax).
    unfold numbered in Hin. apply elem_of_lookup_imap in Hin as (j & x & [= -> ->] & Hj).
    unfold usable in Hu. destruct (plan_of _ _ _ _ _) as [[kept steps]|] eqn:Ep; [|done].
    destruct (rollback_plan_spec range range_perm cmds globs cur _ _ _ _ Ep) as (k & -> & -> & Hok).
    split; [apply candidateSnapshots_spec; by eapply list_elem_of_lookup_2|].
    eexists _, k. split_and!; [by apply merge_ledger|exact Hok|by rewrite length_drop|].
    intros j' r' k' s' Hj' Hp. specialize (Hmax _ (Hnum _ _ Hj')).
    unfold usable, keeps_more, plan_of in Hmax, Ep. simpl in Hmax, Ep. unfold plan in Hp.
    rewrite Hp, Ep in Hmax. specialize (Hmax eq_refl).
    apply orb_false_elim in Hmax as [H1 H2]. apply andb_false_iff in H2.
    cbn [fst snd] in *.
    destruct H2 as [H2|H2]; bools; lia.
  - split; [done|]. intros j r' Hj. specialize (Hbest _ (Hnum _ _ Hj)).
    unfold usable, plan_of in Hbest. simpl in Hbest. unfold plan.
    destruct (rollback_plan range cmds globs cur (S j) r') eqn:E; [|done].
    done.
Qed.

(** [RecordSnapshot] then [LookupSnapshot].  A refused write (its
    repository does not exist) leaves the table alone; otherwise the row reads
    back as recorded (engine canonicalised, zero times set to the clock), rows
    of other fingerprints are untouched and fingerprints stay unique.  Over an
    existing row the engine, the creation time and the use count keep the old
    values. *)
Theorem RecordSnapshot_LookupSnapshot (repos : gset Z) (now : Z) (r : SnapshotRecord) (t : Table)
    (Hnd : NoDup (fingerprint <$> t)) :
  match RecordSnapshot repos now r t with
  | (t', Ok _) =>
      NoDup (fingerprint <$> t') /\
      (forall fp, fp <> rFingerprint r -> row_of fp t' = row_of fp t) /\
      LookupSnapshot (rFingerprint r) t' =
        Ok (Some (match row_of (rFingerprint r) t with
                  | None => stored now r
                  | Some old => stored_over old (stored now r)
                  end))
  | (t', Err e) => t' = t /\ e = ForeignKey (rRepoID r) /\ (0 < rRepoID r)%Z /\ rRepoID r ∉ repos
  end.
Proof.
  unfold RecordSnapshot. cbn zeta.
  change (repo_id (insert_row now r)) with (if (0 <? rRepoID r)%Z then Some (rRepoID r) else None).
  assert (Hup : forall t', t' = upsert (insert_row now r) t ->
    NoDup (fingerprint <$> t') /\
    (forall fp, fp <> rFingerprint r -> row_of fp t' = row_of fp t) /\
    LookupSnapshot (rFingerprint r) t' =
      Ok (Some (match row_of (rFingerprint r) t with
                | None => stored now r | Some old => stored_over old (stored now r) end))).
  { intros t' ->. destruct (upsert_spec (insert_row now r) t Hnd) as (? & ? & Hrow).
    split_and!; [done..|]. unfold LookupSnapshot. cbn [fingerprint insert_row] in Hrow. rewrite Hrow.
    destruct (row_of (rFingerprint r) t) as [old|] eqn:Eo; cbn [res_bind].
    - erewrite decode_update; [done|apply (row_of_Some _ _ _ Eo)|apply decode_insert].
    - by rewrite decode_insert. }
  destruct (Z.ltb_spec 0 (rRepoID r)); [case_bool_decide; simpl|]; [by apply Hup|done|by apply Hup].
Qed.

(** [LookupAndTouchSnapshot] reads the row and makes it the most
    recently used one in one step.  It answers what [LookupSnapshot] does, with
    the new time, one more use, and no connection or repository (the statement
    does not return them); and when the clock is past the last use of the other
    rows, no [ListLRUEvictable] of any repository with a cap of at least one
    row lists it. *)
Theorem LookupAndTouchSnapshot_protects (now : Z) (fp : string) (t : Table)
    (rec : SnapshotRecord) (repoID keep : Z)
    (Hnd : NoDup (fingerprint <$> t))
    (Hrec : LookupSnapshot fp t = Ok (Some rec))
    (Hclock : forall r, r ∈ t -> fingerprint r <> fp -> (last_used_at r < now)%Z)
    (Hkeep : (0 < keep)%Z) :
  let t' := (LookupAndTouchSnapshot now fp t).1 in
  (exists rec', (LookupAndTouchSnapshot now fp t).2 = Ok (Some rec') /\
     rLastUsedAt rec' = now /\ rUseCount rec' = (rUseCount rec + 1)%Z /\
     rTemplateName rec' = rTemplateName rec /\ rLockfileHashes rec' = rLockfileHashes rec /\
     rInputs rec' = rInputs rec /\ rConnection rec' = "" /\ rRepoID rec' = 0%Z) /\
  fp ∉ cFingerprint <$> ListLRUEvictable repoID keep t'.
Proof.
  unfold LookupAndTouchSnapshot. cbn [fst snd].
  assert (Hkey : forall r, fingerprint (touch_row now r) = fingerprint r) by done.
  split.
  - unfold LookupSnapshot in Hrec. unfold TouchSnapshot. rewrite row_of_update, String.eqb_refl by done.
    destruct (row_of fp t) as [r|]; [|done]. cbn [fmap option_fmap option_map].
    destruct (decode r) as [d|] eqn:Ed; [|done]. simpl in Hrec. simplify_eq.
    rewrite (touch_row_decode now r rec) by done. simpl. eexists. by split_and!.
  - set (t' := TouchSnapshot now fp t).
    assert (Hnd' : NoDup (fingerprint <$> t')) by (unfold t', TouchSnapshot; by rewrite fingerprints_update).
    unfold ListLRUEvictable. destruct (_ || _); [set_solver|].
    set (L := stable_sort used_after (List.filter (in_repo repoID) t')).
    assert (HndL : NoDup (fingerprint <$> L)).
    { unfold L. rewrite (stable_sort_perm used_after). by apply NoDup_fmap_filter. }
    assert (HL : forall r, r ∈ L -> r ∈ t') by (intros r [_ ?]%elem_of_stable_sort%elem_of_filter_bool; done).
    rewrite list_elem_of_fmap. intros (c & -> & (y & -> & Hy)%list_elem_of_fmap). cbn [cFingerprint candidate] in *.
    destruct (Z.to_nat keep) as [|n] eqn:Ek; [lia|].
    destruct L as [|x L'] eqn:EL; [set_solver|]. cbn [drop] in Hy.
    assert (HyL : y ∈ L') by (rewrite <- (take_drop n L'); set_solver).
    assert (Hs : StronglySorted used_after (x :: L')).
    { rewrite <- EL. apply stable_sort_sorted; [apply _|apply used_after_total]. }
    apply StronglySorted_inv in Hs as [_ Hs]. rewrite Forall_forall in Hs. specialize (Hs y HyL).
    destruct (touched_last_used now (fingerprint y) t x (HL x ltac:(set_solver))) as [[Hx _]|[Hx Hxt]].
    + apply NoDup_cons in HndL as [HndL _]. apply HndL, list_elem_of_fmap. by exists y.
    + destruct (touched_last_used now (fingerprint y) t y (HL y ltac:(set_solver))) as [[_ Hy']|[Hy' _]]; [|done].
      specialize (Hclock x Hxt Hx). unfold used_after in Hs. lia.
Qed.

(** [ListLRUEvictable] splits the repository's rows.  Together with
    [keep] rows (all of them when there are fewer) the listed rows are the
    rows of the repository, each once, and every row kept was used no earlier
    than every row listed.  A cap of zero lists nothing. *)
Theorem ListLRUEvictable_split (repoID keep : Z) (t : Table)
    (Hkeep : (0 <= keep)%Z) (Hrepo : repoID <> 0%Z) :
  (keep = 0%Z -> ListLRUEvictable repoID keep t = []) /\
  ((0 < keep)%Z -> exists kept listed,
     ListLRUEvictable repoID keep t = map candidate listed /\
     kept ++ listed ≡ₚ List.filter (in_repo repoID) t /\
     length kept = Nat.min (Z.to_nat keep) (length (List.filter (in_repo repoID) t)) /\
     forall k l, k ∈ kept -> l ∈ listed -> (last_used_at l <= last_used_at k)%Z).
Proof.
  unfold ListLRUEvictable. rewrite (proj2 (Z.eqb_neq repoID 0) Hrepo), orb_false_r. split.
  - by intros ->.
  - intros Hpos. rewrite (proj2 (Z.eqb_neq keep 0)) by lia.
    set (L := stable_sort used_after (List.filter (in_repo repoID) t)).
    exists (take (Z.to_nat keep) L), (drop (Z.to_nat keep) L). split_and!.
    + done.
    + rewrite take_drop. apply stable_sort_perm.
    + rewrite length_take. unfold L. by rewrite (stable_sort_perm used_after).
    + intros k l Hk Hl. apply (sorted_split_at used_after (Z.to_nat keep) L); [|done..].
      apply stable_sort_sorted; [apply _|apply used_after_total].
Qed.

(** [ListSnapshotsBeyondPerSource] keeps, of every source, its
    [keep] most recently used rows and lists the others, in the order of the
    sources.  Per source, a row kept is strictly more recent than a row
    listed, ties of the clock broken by the fingerprint. *)
Theorem ListSnapshotsBeyondPerSource_split (keep : Z) (t : Table)
    (Hnd : NoDup (fingerprint <$> t)) (Hkeep : (0 < keep)%Z) :
  exists rows, ListSnapshotsBeyondPerSource keep t = map candidate rows /\
    forall h, exists kept,
      kept ++ of_source h rows ≡ₚ of_source h t /\
      length kept = Nat.min (Z.to_nat keep) (length (of_source h t)) /\
      forall k l, k ∈ kept -> l ∈ of_source h rows -> newer k l = true.
Proof.
  unfold ListSnapshotsBeyondPerSource. rewrite (proj2 (Z.eqb_neq keep 0)) by lia.
  eexists. split; [done|]. intros h. set (L := stable_sort recency (of_source h t)).
  exists (take (Z.to_nat keep) L).
  assert (Hrows : of_source h (stable_sort source_order (List.filter (beyond keep t) t)) ≡ₚ drop (Z.to_nat keep) L).
  { trans (of_source h (List.filter (beyond keep t) t)).
    - apply filter_perm, stable_sort_perm.
    - apply beyond_source; [done|lia]. }
  split_and!.
  - rewrite Hrows, take_drop. apply stable_sort_perm.
  - rewrite length_take. unfold L. by rewrite (stable_sort_perm recency).
  - intros k l Hk Hl. rewrite Hrows in Hl.
    apply (sorted_split_at (fun a b => newer a b = true) (Z.to_nat keep) L); [|done..].
    apply recency_strict. by apply NoDup_fmap_filter.
Qed.

(** ** Witnesses *)
Definition sample_row (fp : string) (mh : string) (used : Z) (files : InputVector) : Row :=
  {| fingerprint := fp; row_engine := "mysql"; engine_version := "8"; source_db := "app";
     template_name := "_tm_" +:+ fp; migrations_hash := mh; dump_hash := None;
     lockfile_hashes_json := Some {[ CommandsHashKey := "c" ]};
     inputs_json := Some {[ "db/*.sql" := files ]}; size_bytes := None; created_at := 1;
     last_used_at := used; use_count := 0; repo_id := Some 1%Z; connection := "" |}.

Definition sample_file (p : string) : FileHash := {| Path := p; Hash := "h" +:+ p |}.

Definition sample_table : Table :=
  [sample_row "a" "m" 10 [sample_file "db/1.sql"];
   sample_row "b" "m" 20 [sample_file "db/1.sql"; sample_file "db/2.sql"];
   sample_row "c" "m" 30 [sample_file "db/1.sql"; {| Path := "db/2.sql"; Hash := "old" |}]].

Definition sample_inputs : Inputs :=
  {[ "db/*.sql" := [sample_file "db/1.sql"; sample_file "db/2.sql"; sample_file "db/3.sql"] ]}.

Example ancestor_ex :
  rFingerprint <$> FindAncestorSnapshot 1 "mariadb" "8" "" "c" sample_inputs sample_table = Some "b".
Proof. vm_compute. reflexivity. Qed.

Example rollback_ex :
  prod_map (fmap rFingerprint) id
    (FindRollbackAncestor (fun _ => map_to_list) 1 "mysql" "8" "" "c" ∅ sample_inputs sample_table)
  = (Some "c", 1%Z).
Proof. vm_compute. reflexivity. Qed.

Lemma sample_nodup : NoDup (fingerprint <$> sample_table).
Proof. apply (bool_decide_unpack _). vm_compute. exact I. Qed.

Lemma FindRollbackAncestor_best_witness :
  let range := fun (_ : nat) (m : Inputs) => map_to_list m in
  exists r, FindRollbackAncestor range 1 "mysql" "8" "" "c" ∅ sample_inputs sample_table = (Some r, 1%Z) /\
    offered 1 "mysql" "8" "" sample_table r.
Proof.
  intros range.
  pose proof (FindRollbackAncestor_best range (fun _ _ => Permutation_refl _) 1 "mysql" "8" "" "c" ∅
    sample_inputs sample_table) as H.
  destruct (FindRollbackAncestor range 1 "mysql" "8" "" "c" ∅ sample_inputs sample_table) as [[r|] steps] eqn:E;
    [|exfalso; vm_compute in E; discriminate].
  exists r. split; [|exact (proj1 H)].
  assert (steps = 1%Z) as ->; [|done]. apply (f_equal snd) in E. vm_compute in E. done.
Defined.

Definition sample_record : SnapshotRecord :=
  {| rFingerprint := "b"; rEngine := "postgresql"; rEngineVersion := "16"; rSourceDB := "app";
     rTemplateName := "_tm_b"; rMigrationsHash := "m2"; rDumpHash := "d"; rLockfileHashes := ∅;
     rConnection := "replica"; rInputs := ∅; rSizeBytes := 5; rCreatedAt := 0; rLastUsedAt := 0;
     rUseCount := 0; rRepoID := 1 |}.

Lemma RecordSnapshot_LookupSnapshot_witness :
  NoDup (fingerprint <$> (RecordSnapshot {[1%Z]} 40 sample_record sample_table).1).
Proof.
  pose proof (RecordSnapshot_LookupSnapshot {[1%Z]} 40 sample_record sample_table sample_nodup) as H.
  destruct (RecordSnapshot {[1%Z]} 40 sample_record sample_table) as [t' [u|e]] eqn:E; [exact (proj1 H)|].
  destruct H as (-> & _). exact sample_nodup.
Defined.

Lemma LookupAndTouchSnapshot_protects_witness :
  "a" ∉ cFingerprint <$> ListLRUEvictable 1 1 (LookupAndTouchSnapshot 40 "a" sample_table).1.
Proof.
  refine (proj2 (LookupAndTouchSnapshot_protects 40 "a" sample_table
    (match LookupSnapshot "a" sample_table with Ok (Some r) => r | _ => sample_record end)
    1 1 sample_nodup _ _ _)); [vm_compute; reflexivity| |lia].
  intros r Hr _. assert (HF : Forall (fun r => last_used_at r < 40)%Z sample_table) by (repeat constructor).
  rewrite Forall_forall in HF. exact (HF r Hr).
Defined.

Lemma ListLRUEvictable_split_witness :
  exists (kept listed : Table),
    ListLRUEvictable 1 1 sample_table = map candidate listed /\ length kept = 1%nat.
Proof.
  destruct (proj2 (ListLRUEvictable_split 1 1 sample_table ltac:(lia) ltac:(lia)) ltac:(lia))
    as (kept & listed & Hl & _ & Hk & _).
  exists kept, listed. split; [exact Hl|]. rewrite Hk. vm_compute. reflexivity.
Defined.

Lemma ListSnapshotsBeyondPerSource_split_witness :
  exists rows, ListSnapshotsBeyondPerSource 2 sample_table = map candidate rows /\
    exists kept, kept ++ of_source "m" rows ≡ₚ of_source "m" sample_table /\ length kept = 2%nat.
Proof.
  destruct (ListSnapshotsBeyondPerSource_split 2 sample_table sample_nodup ltac:(lia)) as (rows & Hr & H).
  exists rows. split; [exact Hr|]. destruct (H "m") as (kept & Hp & Hlen & _). exists kept.
  split; [exact Hp|]. rewrite Hlen. vm_compute. reflexivity.
Defined.
