(* ===== verification/SnapshotGC.v ===== *)
(** * Garbage collection of cached templates

    [internal/snapshot/gc.go] (the sweeps), [internal/snapshot/orphans.go]
    (the orphan probe) and [internal/snapshot/pin.go] (the pins), over the
    store of [SnapshotStore] and the interface [EngineConn] to the engines. *)
From stdpp Require Import base strings list sets gmap sorting.
From Stdlib Require Import ZArith Lia.
From S2P Require Import Prelude GoStrings Engine SnapshotKey SnapshotStore.

(** ** The engines, as [engineconn.Conn] describes them *)

#[export] Existing Instance Engine.Family_eq_dec.

#[export] Instance Family_countable : Countable Engine.Family.
Proof.
  refine (inj_countable' (fun f => match f with
      | Engine.FamilyMySQL => 0 | Engine.FamilyPostgres => 1 | Engine.FamilyMongo => 2
      | Engine.FamilyRedis => 3 | Engine.FamilyES => 4 | Engine.FamilyS3 => 5
      | Engine.FamilyFile => 6 end)
    (fun n => match n with
      | 0 => Engine.FamilyMySQL | 1 => Engine.FamilyPostgres | 2 => Engine.FamilyMongo
      | 3 => Engine.FamilyRedis | 4 => Engine.FamilyES | 5 => Engine.FamilyS3
      | _ => Engine.FamilyFile end) _).
  by intros [].
Defined.

Definition connKey : Type := Engine.Family * string.

Inductive dial := NotConfigured | DialError | Dialed.

(** the namespaces each server holds *)
Abbreviation Servers := (gmap (Engine.Family * string) (gset string)).

Definition server (k : connKey) (w : Servers) : gset string := default ∅ (w !! k).

(** One call of a driver may fail, and may fail at one time and not at
    another: every operation takes the number of the call.  A failing drop may
    have removed part of what it was asked to. *)
Class EngineConn := {
  Configured : connKey -> bool;
  Connect : nat -> connKey -> dial;
  DropSnapshot : nat -> connKey -> string -> gset string -> gset string * bool;
  DropMatching : nat -> connKey -> string -> gset string -> gset string * bool;
  Exists : nat -> connKey -> string -> gset string -> option bool;
  ListMatching : nat -> connKey -> string -> gset string -> option (list string)
}.

(** the namespaces one template covers: the database of that name, or every
    key and index under the prefix; S3 keeps no templates *)
Definition under (f : Engine.Family) (name ns : string) : bool :=
  match f with
  | Engine.FamilyS3 => false
  | _ => match Engine.Scope f with
         | Engine.ScopeName => String.eqb ns name
         | Engine.ScopePrefix => has_prefix name ns
         end
  end.

(** [drops p S S' ok]: a drop of the namespaces of [p] took [S] to [S'] *)
Record drops (p : string -> bool) (S S' : gset string) (ok : bool) : Prop := {
  drops_subset : S' ⊆ S;
  drops_only : forall ns, ns ∈ S -> ns ∉ S' -> p ns = true;
  drops_all : ok = true -> forall ns, ns ∈ S' -> p ns = false
}.

(** What the drivers document: drops touch nothing else, and a drop that
    reports success leaves none of its namespaces. *)
Class EngineConnLaws (EC : EngineConn) : Prop := {
  DropSnapshot_law n k name S S' ok :
    DropSnapshot n k name S = (S', ok) -> drops (under k.1 name) S S' ok;
  DropMatching_law n k prefix S S' ok :
    DropMatching n k prefix S = (S', ok) -> drops (has_prefix prefix) S S' ok;
  Exists_law n k name S b :
    Exists n k name S = Some b -> (b = true <-> exists ns, ns ∈ S /\ under k.1 name ns = true)
}.

(** ** Pins *)
Module Pin.

(** [pinCount], and the handles handed out: the fingerprint each one guards
    and its [released] flag *)
Record State := { pinCount : gmap string Z; handles : list (string * bool) }.

Definition init : State := {| pinCount := ∅; handles := [] |}.

(** [pinCount[fingerprint]] of a missing key is 0 *)
Definition count (fp : string) (s : State) : Z := default 0%Z (pinCount s !! fp).

(** the release function is identified by its index; the one of the empty
    fingerprint does nothing *)
Definition Pin (fp : string) (s : State) : State :=
  if String.eqb fp "" then {| pinCount := pinCount s; handles := handles s ++ [(fp, true)] |}
  else {| pinCount := <[fp := (count fp s + 1)%Z]> (pinCount s); handles := handles s ++ [(fp, false)] |}.

Definition release (h : nat) (s : State) : State :=
  match handles s !! h with
  | None => s
  | Some (_, true) => s
  | Some (fp, false) =>
      {| pinCount := if Z.leb (count fp s) 1 then delete fp (pinCount s)
                     else <[fp := (count fp s - 1)%Z]> (pinCount s);
         handles := <[h := (fp, true)]> (handles s) |}
  end.

Definition IsPinned (fp : string) (s : State) : bool :=
  if String.eqb fp "" then false else Z.ltb 0 (count fp s).

Inductive step : State -> State -> Prop :=
| step_pin fp s : step s (Pin fp s)
| step_release h s : step s (release h s).

(** the handles of [fp] not released yet *)
Definition held (fp : string) (l : list (string * bool)) : Z :=
  sumZ (fun h => if bool_decide (h = (fp, false)) then 1 else 0)%Z l.

Definition counted (s : State) : Prop :=
  (forall fp, count fp s = held fp (handles s)) /\ ("", false) ∉ handles s.

Lemma held_nonneg fp l : (0 <= held fp l)%Z.
Proof. apply sumZ_nonneg. intros. case_bool_decide; lia. Qed.

Lemma held_app fp l x :
  held fp (l ++ [x]) = (held fp l + if bool_decide (x = (fp, false)) then 1 else 0)%Z.
Proof. unfold held. rewrite sumZ_app. simpl. lia. Qed.

Lemma held_release fp l h fp' :
  l !! h = Some (fp', false) ->
  held fp (<[h := (fp', true)]> l) = (held fp l - if bool_decide (fp' = fp) then 1 else 0)%Z.
Proof.
  revert h; induction l as [|x l IH]; intros [|h] Hh; try done; simpl in Hh; unfold held in *; simpl.
  - simplify_eq. rewrite (bool_decide_eq_false_2 (_ = (fp, false))) by congruence.
    destruct (decide (fp' = fp)) as [->|].
    + rewrite !bool_decide_eq_true_2 by done. lia.
    + rewrite !bool_decide_eq_false_2 by congruence. lia.
  - rewrite IH by done. lia.
Qed.

Lemma held_positive fp l : (0 < held fp l)%Z <-> (fp, false) ∈ l.
Proof.
  unfold held. induction l as [|x l IH]; simpl; [split; [lia|set_solver]|].
  pose proof (held_nonneg fp l) as Hl. unfold held in Hl.
  case_bool_decide; [subst; split; [intros _; left|lia]|].
  rewrite elem_of_cons. split; [intros Hp; right; apply IH; lia|intros [?|?%IH]; [congruence|lia]].
Qed.

Lemma counted_step s s' : counted s -> step s s' -> counted s'.
Proof.
  intros [Hc He] Hstep. inversion Hstep as [fp s0|h s0]; subst s0 s'; clear Hstep; unfold counted.
  - unfold Pin. destruct (String.eqb_spec fp "") as [->|Hfp]; simpl; split.
    + intros fp. rewrite held_app, bool_decide_eq_false_2 by congruence. rewrite Z.add_0_r. apply Hc.
    + set_solver.
    + intros fp'. unfold count. simpl. rewrite held_app, <- Hc. unfold count.
      destruct (decide (fp = fp')) as [->|].
      * by rewrite lookup_insert_eq, bool_decide_eq_true_2.
      * rewrite lookup_insert_ne, bool_decide_eq_false_2 by congruence. lia.
    + set_solver.
  - unfold release. destruct (handles s !! h) as [[fp [|]]|] eqn:Eh; [done| |done].
    split; simpl.
    + intros fp'. rewrite (held_release _ _ _ _ Eh), <- Hc. unfold count at 1. simpl.
      assert (Hpos : (0 < count fp s)%Z).
      { rewrite Hc. apply held_positive. by eapply list_elem_of_lookup_2. }
      destruct (decide (fp = fp')) as [->|].
      * rewrite bool_decide_eq_true_2 by done. destruct (Z.leb_spec (count fp' s) 1).
        -- rewrite lookup_delete_eq. simpl. lia.
        -- by rewrite lookup_insert_eq.
      * rewrite bool_decide_eq_false_2, Z.sub_0_r by done.
        by destruct (Z.leb _ _); [rewrite lookup_delete_ne by done|rewrite lookup_insert_ne by done].
    + intros (j & Hj)%list_elem_of_lookup. destruct (decide (h = j)) as [->|].
      * rewrite list_lookup_insert_eq in Hj by (by eapply lookup_lt_Some). congruence.
      * rewrite list_lookup_insert_ne in Hj by done. apply He. by eapply list_elem_of_lookup_2.
Qed.

(** pins count.  In every state reached by taking pins and calling
    release functions, each any number of times and in any order, a fingerprint
    is pinned exactly while one of its handles has not been released, and the
    counter is the number of those handles. *)
Theorem IsPinned_held (s : State) (fp : string) (Hs : rtc step init s) :
  (IsPinned fp s = true <-> (fp, false) ∈ handles s) /\ count fp s = held fp (handles s).
Proof.
  assert (counted s) as [Hc He].
  { apply (rtc_invariant step counted init); [apply counted_step|done|]. split; [done|set_solver]. }
  split; [|apply Hc]. unfold IsPinned. destruct (String.eqb_spec fp "") as [->|Hfp].
  - split; [done|]. by intros ?%He.
  - rewrite Hc, <- held_positive. apply Z.ltb_lt.
Qed.

Lemma IsPinned_held_witness :
  let s := Pin "b" (release 0 (Pin "a" (Pin "a" init))) in
  rtc step init s /\ IsPinned "a" s = true.
Proof.
  intros s. assert (Hs : rtc step init s).
  { eapply rtc_l; [apply (step_pin "a")|]. eapply rtc_l; [apply (step_pin "a")|].
    eapply rtc_l; [apply (step_release 0)|]. eapply rtc_l; [apply (step_pin "b")|]. apply rtc_refl. }
  split; [exact Hs|]. apply (IsPinned_held s "a" Hs). vm_compute. right. left.
Defined.

End Pin.

(** ** The drop pool and the sweeps *)
Section Sweeps.
Context `{EC : EngineConn}.

(** What the parallel drops share: the engines, the pool's connections and
    the number of engine calls made so far. *)
Record Shared := { servers : Servers; conns : gset connKey; calls : nat }.

Definition set_server (k : connKey) (S : gset string) (s : Shared) : Shared :=
  {| servers := <[k := S]> (servers s); conns := conns s; calls := calls s + 1 |}.

(** [dropPool.get]: one dial per key, kept when it succeeds; the mutex makes
    it one step *)
Definition get (k : connKey) (s : Shared) : Shared * bool :=
  if bool_decide (k ∈ conns s) then (s, true)
  else match Connect (calls s) k with
       | Dialed => ({| servers := servers s; conns := {[k]} ∪ conns s; calls := calls s + 1 |}, true)
       | _ => ({| servers := servers s; conns := conns s; calls := calls s + 1 |}, false)
       end.

(** The progress of one candidate's drop, between two engine calls. *)
Inductive task :=
| Pinned                        (* skipped by the loop *)
| ToConnect
| ToDropSnapshot (k : connKey)
| ToDropSpares (k : connKey)
| Done (ok : bool).

(** [dropPool.drop], one engine call at a time *)
Definition drop_step (c : SnapshotEvictionCandidate) (t : task) (s : Shared) : task * Shared :=
  match t with
  | Pinned | Done _ => (t, s)
  | ToConnect =>
      match Engine.Canonical (cEngine c) with
      | None => (Done false, s)
      | Some fam =>
          let '(s', ok) := get (fam, cConnection c) s in
          (if ok then ToDropSnapshot (fam, cConnection c) else Done false, s')
      end
  | ToDropSnapshot k =>
      let '(S', ok) := DropSnapshot (calls s) k (cTemplateName c) (server k (servers s)) in
      (if ok then ToDropSpares k else Done false, set_server k S' s)
  | ToDropSpares k =>
      let '(S', ok) := DropMatching (calls s) k (cTemplateName c +:+ PrewarmSuffix) (server k (servers s)) in
      (Done ok, set_server k S' s)
  end.

(** the whole of [dropPool.drop], when nothing runs beside it *)
Definition drop_task (c : SnapshotEvictionCandidate) (s : Shared) : Shared * bool :=
  let '(t1, s1) := drop_step c ToConnect s in
  let '(t2, s2) := drop_step c t1 s1 in
  let '(t3, s3) := drop_step c t2 s2 in
  (s3, match t3 with Done ok => ok | _ => false end).

Definition fresh_pool (w : Servers) (n : nat) : Shared := {| servers := w; conns := ∅; calls := n |}.

(** The errgroup: at each turn the scheduler lets one candidate make its next
    engine call.  [sched] is the sequence of its choices. *)
Fixpoint run_drops (cands : list SnapshotEvictionCandidate) (sched : list nat)
    (ts : list task) (s : Shared) : list task * Shared :=
  match sched with
  | [] => (ts, s)
  | i :: sched' =>
      match cands !! i, ts !! i with
      | Some c, Some t =>
          let '(t', s') := drop_step c t s in run_drops cands sched' (<[i := t']> ts) s'
      | _, _ => run_drops cands sched' ts s
      end
  end.

Definition finished (t : task) : bool := match t with Pinned | Done _ => true | _ => false end.

(** [results[i] == nil] *)
Definition no_error (t : task) : bool := match t with Done false => false | _ => true end.

Record Event := { evType : string; evRepo : Z; evCandidate : SnapshotEvictionCandidate }.

(** The sweep: [pinned_drop i] and [pinned_row i] are what [IsPinned] answers
    for candidate [i] in the first and in the second loop, [delete_ok i]
    whether its [DeleteSnapshot] succeeds. *)
Definition evict_row_step (ts : list task) (pinned_row delete_ok : nat -> bool) (eventType : string)
    (repoID : Z) (st : Table * list Event) (ic : nat * SnapshotEvictionCandidate) : Table * list Event :=
  let '(t, evs) := st in
  let '(i, c) := ic in
  match ts !! i with
  | Some r =>
      if negb (no_error r) || pinned_row i then (t, evs)
      else (if delete_ok i then SnapshotStore.DeleteSnapshot (cFingerprint c) t else t,
            evs ++ [{| evType := eventType; evRepo := repoID; evCandidate := c |}])
  | None => (t, evs)
  end.

Definition evict_rows (cands : list SnapshotEvictionCandidate) (ts : list task)
    (pinned_row delete_ok : nat -> bool) (eventType : string) (repoID : Z)
    (t : Table) : Table * list Event :=
  foldl (evict_row_step ts pinned_row delete_ok eventType repoID) (t, []) (imap pair cands).

Definition spawn (cands : list SnapshotEvictionCandidate) (pinned_drop : nat -> bool) : list task :=
  imap (fun i _ => if pinned_drop i then Pinned else ToConnect) cands.

Definition evictCandidates (cands : list SnapshotEvictionCandidate)
    (pinned_drop pinned_row delete_ok : nat -> bool) (sched : list nat)
    (eventType : string) (repoID : Z) (w : Servers) (t : Table)
    : Servers * Table * list Event :=
  let '(ts, s) := run_drops cands sched (spawn cands pinned_drop) (fresh_pool w 0) in
  let '(t', evs) := evict_rows cands ts pinned_row delete_ok eventType repoID t in
  (servers s, t', evs).

(** ** The callers of the sweep *)
Definition EvtSnapshotsEvictCap : string := "snapshots:evict:cap".
Definition EvtSnapshotsEvictSource : string := "snapshots:evict:source".
Definition EvtSnapshotsEvictAge : string := "snapshots:evict:age".
Definition EvtSnapshotsEvictSize : string := "snapshots:evict:size".
Definition EvtSnapshotsPruneOrphan : string := "snapshots:prune:orphan".
Definition EvtSnapshotsPurge : string := "snapshots:purge".

Section Callers.
Variables (pinned_drop pinned_row delete_ok : nat -> bool) (sched : list nat).

Definition EvictExcess (capPerRepo repoID : Z) (w : Servers) (t : Table) : Servers * Table * list Event :=
  evictCandidates (ListLRUEvictable repoID capPerRepo t) pinned_drop pinned_row delete_ok sched
    EvtSnapshotsEvictCap repoID w t.

Definition SweepBySource (keep : Z) (w : Servers) (t : Table) : Servers * Table * list Event :=
  if Z.eqb keep 0 then (w, t, [])
  else evictCandidates (ListSnapshotsBeyondPerSource keep t) pinned_drop pinned_row delete_ok sched
         EvtSnapshotsEvictSource 0 w t.

(** [-time.Duration(days) * 24 * time.Hour], 64-bit nanoseconds *)
Definition age_duration (days : Z) : Z := wrap64 (wrap64 (wrap64 (- days) * 24) * 3600000000000).

(** [time.Now().Add(…).UnixMilli()], [now] in nanoseconds *)
Definition age_cutoff (now days : Z) : Z := ((now + age_duration days) / 1000000)%Z.

Definition SweepByAge (now days : Z) (w : Servers) (t : Table) : Servers * Table * list Event :=
  if Z.eqb days 0 then (w, t, [])
  else evictCandidates (ListSnapshotsOlderThan (age_cutoff now days) t) pinned_drop pinned_row delete_ok
         sched EvtSnapshotsEvictAge 0 w t.
End Callers.

(** ** [SweepBySize] *)
Record SizeSweep := { ssServers : Servers; ssTable : Table; ssEvents : list Event; ssCalls : nat;
                      ssTotal : Z; ssDropped : list nat }.

(** One iteration of the loop, [i] the candidate's index; every candidate gets
    a connection pool of its own ([DropTemplate]). *)
Definition size_step (capBytes : Z) (pinned delete_ok : nat -> bool)
    (st : SizeSweep) (ic : nat * (SnapshotEvictionCandidate * Z)) : SizeSweep :=
  let '(i, (c, size)) := ic in
  if Z.leb (ssTotal st) capBytes then st
  else if pinned i then st
  else
    let '(s', ok) := drop_task c (fresh_pool (ssServers st) (ssCalls st)) in
    if ok then
      {| ssServers := servers s';
         ssTable := if delete_ok i then SnapshotStore.DeleteSnapshot (cFingerprint c) (ssTable st)
                    else ssTable st;
         ssEvents := ssEvents st ++ [{| evType := EvtSnapshotsEvictSize; evRepo := 0; evCandidate := c |}];
         ssCalls := calls s'; ssTotal := ssTotal st - size; ssDropped := ssDropped st ++ [i] |}
    else
      {| ssServers := servers s'; ssTable := ssTable st; ssEvents := ssEvents st;
         ssCalls := calls s'; ssTotal := ssTotal st; ssDropped := ssDropped st |}.

Definition size_start (w : Servers) (t : Table) (total : Z) : SizeSweep :=
  {| ssServers := w; ssTable := t; ssEvents := []; ssCalls := 0; ssTotal := total; ssDropped := [] |}.

Definition SweepBySize (gb : Z) (pinned delete_ok : nat -> bool) (w : Servers) (t : Table) : SizeSweep :=
  if Z.eqb gb 0 then size_start w t 0
  else
    let capBytes := (gb * 1024 * 1024 * 1024)%Z in
    match SumSnapshotBytes t with
    | Err _ => size_start w t 0
    | Ok total =>
        if Z.leb total capBytes then size_start w t total
        else
          let '(cands, sizes) := ListSnapshotsLargestLRU t in
          foldl (size_step capBytes pinned delete_ok) (size_start w t total)
            (imap pair (zip cands sizes))
    end.

(** ** [PurgeRepo] *)
Inductive purge_error := Stopped (c : SnapshotEvictionCandidate)
  | DropFailed (c : SnapshotEvictionCandidate) | DeleteFailed (c : SnapshotEvictionCandidate).

(** the loop; [cancelled i] is [ctx.Err() != nil] before candidate [i]; the
    pool is shared by the candidates *)
Fixpoint purge_loop (cancelled delete_ok : nat -> bool) (repoID : Z) (i : nat)
    (cands : list SnapshotEvictionCandidate) (s : Shared) (t : Table)
    : Shared * Table * Z * list purge_error * list Event :=
  match cands with
  | [] => (s, t, 0%Z, [], [])
  | c :: cands' =>
      if cancelled i then (s, t, 0%Z, [Stopped c], [])
      else
        let '(s', ok) := drop_task c s in
        if negb ok then
          let '(s'', t', n, errs, evs) := purge_loop cancelled delete_ok repoID (S i) cands' s' t in
          (s'', t', n, DropFailed c :: errs, evs)
        else if negb (delete_ok i) then
          let '(s'', t', n, errs, evs) := purge_loop cancelled delete_ok repoID (S i) cands' s' t in
          (s'', t', n, DeleteFailed c :: errs, evs)
        else
          let '(s'', t', n, errs, evs) :=
            purge_loop cancelled delete_ok repoID (S i) cands' s'
              (SnapshotStore.DeleteSnapshot (cFingerprint c) t) in
          (s'', t', (n + 1)%Z, errs,
           {| evType := EvtSnapshotsPurge; evRepo := repoID; evCandidate := c |} :: evs)
  end.

Definition PurgeRepo (cancelled delete_ok : nat -> bool) (repoID : Z) (w : Servers) (t : Table)
    : Servers * Table * Z * list purge_error * list Event :=
  let '(s, t', n, errs, evs) :=
    purge_loop cancelled delete_ok repoID 0 (ListSnapshotsForRepo repoID t) (fresh_pool w 0) t in
  (servers s, t', n, errs, evs).

(** ** Rows whose template is gone *)
Definition row_orphan_step (pinned : nat -> bool) (w : Servers)
    (st : gset connKey * nat * list SnapshotEvictionCandidate) (ic : nat * SnapshotEvictionCandidate)
    : gset connKey * nat * list SnapshotEvictionCandidate :=
  let '(cs, n, orphans) := st in
  let '(i, c) := ic in
  if pinned i then st
  else match Engine.Canonical (cEngine c) with
       | None => st
       | Some fam =>
           let '(s, ok) := get (fam, cConnection c) {| servers := w; conns := cs; calls := n |} in
           if negb ok then (conns s, calls s, orphans)
           else match Exists (calls s) (fam, cConnection c) (cTemplateName c)
                        (server (fam, cConnection c) w) with
                | Some false => (conns s, calls s + 1, orphans ++ [c])
                | _ => (conns s, calls s + 1, orphans)
                end
       end.

Definition FindRowOrphans (pinned : nat -> bool) (repoID : Z) (w : Servers) (t : Table)
    : list SnapshotEvictionCandidate :=
  (foldl (row_orphan_step pinned w) (∅, 0, []) (imap pair (ListSnapshotsForRepo repoID t))).2.

(** [delete_ok i]: whether the deletion of the [i]th orphan succeeds *)
Definition prune_step (delete_ok : nat -> bool) (st : Table * list SnapshotEvictionCandidate)
    (ic : nat * SnapshotEvictionCandidate) : Table * list SnapshotEvictionCandidate :=
  let '(t, pruned) := st in
  let '(i, c) := ic in
  if delete_ok i then (SnapshotStore.DeleteSnapshot (cFingerprint c) t, pruned ++ [c]) else (t, pruned).

Definition PruneRowOrphans (pinned delete_ok : nat -> bool) (repoID : Z) (w : Servers) (t : Table)
    : Table * list SnapshotEvictionCandidate :=
  foldl (prune_step delete_ok) (t, []) (imap pair (FindRowOrphans pinned repoID w t)).

(** ** Templates without a row *)
Record Orphan := { oFamily : Engine.Family; oName : string }.

Definition orphanFamilies : list Engine.Family :=
  [Engine.FamilyMySQL; Engine.FamilyPostgres; Engine.FamilyMongo; Engine.FamilyES; Engine.FamilyRedis].

Definition template_pattern (fam : Engine.Family) : string * (string -> option string) :=
  match fam with
  | Engine.FamilyES => ("tm_", esTemplatePrefix)
  | Engine.FamilyRedis => ("_tm:", redisTemplatePrefix)
  | _ => ("_tm_", nameScopedTemplate)
  end.

(** the loop that folds spares into their template and drops duplicates *)
Fixpoint fold_templates (re : string -> option string) (seen : gset string) (names : list string)
    : list string :=
  match names with
  | [] => []
  | n :: names' =>
      match re n with
      | None => fold_templates re seen names'
      | Some m => if bool_decide (m ∈ seen) then fold_templates re seen names'
                  else m :: fold_templates re ({[m]} ∪ seen) names'
      end
  end.

Definition listTemplates (n : nat) (fam : Engine.Family) (w : Servers) : option (list string) :=
  match fam with
  | Engine.FamilyFile => Some []
  | _ =>
      let '(prefix, re) := template_pattern fam in
      match ListMatching n (fam, "") prefix (server (fam, "") w) with
      | None => None
      | Some names => Some (fold_templates re ∅ names)
      end
  end.

Definition orphan_order (a b : Orphan) : Prop :=
  if String.eqb (Engine.family_label (oFamily a)) (Engine.family_label (oFamily b))
  then String.le (oName a) (oName b)
  else String.le (Engine.family_label (oFamily a)) (Engine.family_label (oFamily b)).

#[export] Instance orphan_order_dec : RelDecision orphan_order.
Proof. intros a b. unfold orphan_order. destruct (String.eqb _ _); apply _. Defined.

Inductive probe_error := ConnectFailed (f : Engine.Family) | ListFailed (f : Engine.Family).

(** the loop over the families: an error returns what was found so far,
    unsorted *)
Fixpoint find_orphans_loop (fams : list Engine.Family) (n : nat) (w : Servers)
    (known : gset string) (out : list Orphan) : list Orphan * option probe_error :=
  match fams with
  | [] => (stable_sort orphan_order out, None)
  | fam :: fams' =>
      if negb (Configured (fam, "")) then find_orphans_loop fams' n w known out
      else match Connect n (fam, "") with
           | DialError => (out, Some (ConnectFailed fam))
           | _ =>
               match listTemplates (n + 1) fam w with
               | None => (out, Some (ListFailed fam))
               | Some names =>
                   find_orphans_loop fams' (n + 2) w known
                     (out ++ map (fun name => {| oFamily := fam; oName := name |})
                               (List.filter (fun name => negb (bool_decide (name ∈ known))) names))
               end
           end
  end.

Definition FindOrphans (w : Servers) (t : Table) : list Orphan * option probe_error :=
  find_orphans_loop orphanFamilies 0 w (ListAllTemplateNames t) [].

(** ** [DropOrphans] and [SpareCounts] *)
Definition drop_orphan_step (st : Shared * Z * list Orphan) (o : Orphan) : Shared * Z * list Orphan :=
  let '(s, dropped, errs) := st in
  let k := (oFamily o, "") in
  let '(s1, ok) := get k s in
  if negb ok then (s1, dropped, errs ++ [o])
  else
    let '(S1, ok1) := DropSnapshot (calls s1) k (oName o) (server k (servers s1)) in
    let s2 := set_server k S1 s1 in
    if negb ok1 then (s2, dropped, errs ++ [o])
    else
      let '(S2, ok2) := DropMatching (calls s2) k (oName o +:+ PrewarmSuffix) (server k (servers s2)) in
      let s3 := set_server k S2 s2 in
      if negb ok2 then (s3, dropped, errs ++ [o]) else (s3, (dropped + 1)%Z, errs).

Definition DropOrphans (w : Servers) (orphans : list Orphan) : Servers * Z * list Orphan :=
  let '(s, dropped, errs) := foldl drop_orphan_step (fresh_pool w 0, 0%Z, []) orphans in
  (servers s, dropped, errs).

Definition count_spare (m : gmap string Z) (name : string) : gmap string Z :=
  match spareNamePattern name with
  | Some base => <[base := (default 0 (m !! base) + 1)%Z]> m
  | None => m
  end.

Definition SpareCounts (w : Servers) : option (gmap string Z) :=
  let k := (Engine.FamilyPostgres, "") in
  if negb (Configured k) then Some ∅
  else match Connect 0 k with
       | DialError => None
       | _ => names ← ListMatching 1 k "_tm_" (server k w); Some (foldl count_spare ∅ names)
       end.
End Sweeps.

(** ** Lemmas: one drop *)
Section DropLemmas.
Context `{EC : EngineConn, !EngineConnLaws EC}.

Definition key_of (c : SnapshotEvictionCandidate) : option connKey :=
  (fun f => (f, cConnection c)) <$> Engine.Canonical (cEngine c).

(** the namespaces of a candidate: its template and the template's spares *)
Definition covers (c : SnapshotEvictionCandidate) (k : connKey) (ns : string) : bool :=
  under k.1 (cTemplateName c) ns || has_prefix (cTemplateName c +:+ PrewarmSuffix) ns.

(** no namespace of [c] is left on its server *)
Definition gone (c : SnapshotEvictionCandidate) (w : Servers) : Prop :=
  exists k, key_of c = Some k /\ forall ns, ns ∈ server k w -> covers c k ns = false.

(** from [w] to [w'] only namespaces of [c] disappeared *)
Definition only_drops (P : connKey -> string -> Prop) (w w' : Servers) : Prop :=
  forall k, server k w' ⊆ server k w /\
    forall ns, ns ∈ server k w -> ns ∉ server k w' -> P k ns.

Definition of_candidate (c : SnapshotEvictionCandidate) (k : connKey) (ns : string) : Prop :=
  key_of c = Some k /\ covers c k ns = true.

Lemma only_drops_refl P w : only_drops P w w.
Proof. intros k. split; [done|]. set_solver. Qed.

Lemma only_drops_trans P w1 w2 w3 : only_drops P w1 w2 -> only_drops P w2 w3 -> only_drops P w1 w3.
Proof.
  intros H1 H2 k. destruct (H1 k) as [S1 D1], (H2 k) as [S2 D2]. split; [set_solver|].
  intros ns Hin Hout. destruct (decide (ns ∈ server k w2)); auto.
Qed.

Lemma only_drops_impl (P Q : connKey -> string -> Prop) w w' :
  (forall k ns, P k ns -> Q k ns) -> only_drops P w w' -> only_drops Q w w'.
Proof. intros HPQ H k. destruct (H k). split; [done|]. eauto. Qed.

Lemma gone_mono P c w w' : only_drops P w w' -> gone c w -> gone c w'.
Proof. intros H (k & Hk & Hg). exists k. split; [done|]. intros ns Hns. apply Hg. by apply (H k). Qed.

Lemma server_set k k' S w : server k' (<[k := S]> w) = if decide (k = k') then S else server k' w.
Proof. unfold server. case_decide; [by subst; rewrite lookup_insert_eq|by rewrite lookup_insert_ne]. Qed.

Lemma set_server_drops (P : connKey -> string -> Prop) (p : string -> bool) k S' ok s :
  drops p (server k (servers s)) S' ok -> (forall ns, p ns = true -> P k ns) ->
  only_drops P (servers s) (servers (set_server k S' s)).
Proof.
  intros [Hsub Honly _] HP k'. simpl. rewrite server_set. case_decide as E; [subst k'|set_solver].
  split; [done|]. eauto.
Qed.

(** the state of a task and what the engines look like there *)
Definition task_ok (c : SnapshotEvictionCandidate) (t : task) (w : Servers) : Prop :=
  match t with
  | Pinned | ToConnect | Done false => True
  | ToDropSnapshot k => key_of c = Some k
  | ToDropSpares k =>
      key_of c = Some k /\ forall ns, ns ∈ server k w -> under k.1 (cTemplateName c) ns = false
  | Done true => gone c w
  end.

Lemma task_ok_mono P c t w w' : only_drops P w w' -> task_ok c t w -> task_ok c t w'.
Proof.
  intros H. destruct t as [| | |k|[|]]; simpl; try done.
  - intros [Hk Hu]. split; [done|]. intros ns Hns. apply Hu. by apply (H k).
  - by apply gone_mono with P.
Qed.

Lemma get_servers k s s' ok : get k s = (s', ok) -> servers s' = servers s.
Proof. unfold get. case_bool_decide; [by intros [= <- _]|]. destruct (Connect _ _); by intros [= <- _]. Qed.

Lemma drop_step_spec c t s t' s' :
  drop_step c t s = (t', s') -> task_ok c t (servers s) ->
  only_drops (of_candidate c) (servers s) (servers s') /\ task_ok c t' (servers s') /\
  (t = Pinned <-> t' = Pinned) /\ (finished t = true -> t' = t /\ s' = s).
Proof using EngineConnLaws0.
  destruct t as [| |k|k|ok]; simpl; intros Hd Ht.
  - simplify_eq. split_and!; [apply only_drops_refl|done..].
  - destruct (Engine.Canonical (cEngine c)) as [fam|] eqn:Ef.
    + destruct (get _ s) as [s1 ok] eqn:Eg. simplify_eq. rewrite (get_servers _ _ _ _ Eg).
      split_and!; [apply only_drops_refl| |by destruct ok|done].
      destruct ok; simpl; [|done]. unfold key_of. by rewrite Ef.
    + simplify_eq. split_and!; [apply only_drops_refl|done..].
  - destruct (DropSnapshot _ _ _ _) as [S' ok] eqn:E. simplify_eq.
    apply DropSnapshot_law in E. split_and!; [| |by destruct ok|done].
    + eapply set_server_drops; [done|]. intros ns Hns. split; [done|]. unfold covers. by rewrite Hns.
    + destruct ok; simpl; [|done]. split; [done|]. intros ns. rewrite server_set, decide_True by done.
      by apply (drops_all _ _ _ _ E).
  - destruct (DropMatching _ _ _ _) as [S' ok] eqn:E. simplify_eq. destruct Ht as [Hk Hu].
    apply DropMatching_law in E. split_and!; [| |done|done].
    + eapply set_server_drops; [done|]. intros ns Hns. split; [done|]. unfold covers. by rewrite Hns, orb_true_r.
    + destruct ok; simpl; [|done]. exists k. split; [done|]. intros ns. rewrite server_set, decide_True by done.
      intros Hns. unfold covers. rewrite (Hu ns) by (by apply (drops_subset _ _ _ _ E)).
      by apply (drops_all _ _ _ _ E).
  - simplify_eq. split_and!; [apply only_drops_refl|done..].
Qed.

Lemma drop_task_spec c s s' ok :
  drop_task c s = (s', ok) ->
  only_drops (of_candidate c) (servers s) (servers s') /\ (ok = true -> gone c (servers s')).
Proof using EngineConnLaws0.
  unfold drop_task. destruct (drop_step c ToConnect s) as [t1 s1] eqn:E1.
  destruct (drop_step c t1 s1) as [t2 s2] eqn:E2. destruct (drop_step c t2 s2) as [t3 s3] eqn:E3.
  intros [= <- <-].
  apply drop_step_spec in E1 as (D1 & K1 & _); [|done].
  apply drop_step_spec in E2 as (D2 & K2 & _); [|done].
  apply drop_step_spec in E3 as (D3 & K3 & _); [|done].
  split; [by eapply only_drops_trans, only_drops_trans|].
  destruct t3 as [| | | |[|]]; done.
Qed.
End DropLemmas.

(** ** Lemmas: the parallel drops *)
Section EvictLemmas.
Context `{EC : EngineConn, !EngineConnLaws EC}.
Variables (cands : list SnapshotEvictionCandidate) (pinned_drop : nat -> bool).

(** what an unpinned candidate may lose *)
Definition may_drop (k : connKey) (ns : string) : Prop :=
  exists i c, cands !! i = Some c /\ pinned_drop i = false /\ of_candidate c k ns.

Record sweep_inv (w : Servers) (ts : list task) (s : Shared) : Prop := {
  si_length : length ts = length cands;
  si_drops : only_drops may_drop w (servers s);
  si_tasks : forall i c t, cands !! i = Some c -> ts !! i = Some t ->
    task_ok c t (servers s) /\ (t = Pinned <-> pinned_drop i = true)
}.

Lemma spawn_inv w n : sweep_inv w (spawn cands pinned_drop) (fresh_pool w n).
Proof.
  split.
  - by unfold spawn; rewrite length_imap.
  - apply only_drops_refl.
  - intros i c t Hi Ht. unfold spawn in Ht. rewrite list_lookup_imap, Hi in Ht. simpl in Ht.
    simplify_eq. by destruct (pinned_drop i).
Qed.

Lemma run_drops_inv w sched ts s ts' s' :
  run_drops cands sched ts s = (ts', s') -> sweep_inv w ts s -> sweep_inv w ts' s'.
Proof using EngineConnLaws0.
  revert ts s; induction sched as [|i sched IH]; intros ts s; simpl; [by intros [= <- <-]|].
  destruct (cands !! i) as [c|] eqn:Hi; [|by apply IH].
  destruct (ts !! i) as [t|] eqn:Ht; [|by apply IH].
  destruct (drop_step c t s) as [t1 s1] eqn:Ed. intros Hrun Hinv. eapply IH; [exact Hrun|].
  destruct Hinv as [Hlen Hdrops Htasks]. destruct (Htasks i c t Hi Ht) as [Hok Hpin].
  apply drop_step_spec in Ed as (D & K & P & F); [|done].
  split.
  - by rewrite length_insert.
  - eapply only_drops_trans; [exact Hdrops|]. destruct (pinned_drop i) eqn:Ep.
    + assert (t = Pinned) as -> by by apply Hpin.
      destruct (F eq_refl) as [_ ->]. apply only_drops_refl.
    + eapply only_drops_impl; [|exact D]. intros k ns Hc. by exists i, c.
  - intros j c' t' Hj Ht'. destruct (decide (i = j)) as [<-|Hne].
    + rewrite list_lookup_insert_eq in Ht' by (by eapply lookup_lt_Some).
      simplify_eq. split; [done|]. by rewrite <- P.
    + rewrite list_lookup_insert_ne in Ht' by done. destruct (Htasks j c' t' Hj Ht') as [H1 H2].
      split; [|done]. by eapply task_ok_mono.
Qed.
End EvictLemmas.

(** ** Lemmas: rows and events *)
Definition evicted (ts : list task) (pinned_row : nat -> bool) (i : nat) : bool :=
  match ts !! i with Some r => no_error r && negb (pinned_row i) | None => false end.

Lemma elem_of_DeleteSnapshot fp t r :
  r ∈ SnapshotStore.DeleteSnapshot fp t <-> r ∈ t /\ fingerprint r <> fp.
Proof.
  unfold SnapshotStore.DeleteSnapshot. rewrite elem_of_filter_bool, negb_true_iff, String.eqb_neq. tauto.
Qed.

Definition delete_all (fps : list string) (t : Table) : Table :=
  foldl (fun t fp => SnapshotStore.DeleteSnapshot fp t) t fps.

Lemma elem_of_delete_all fps t r : r ∈ delete_all fps t <-> r ∈ t /\ fingerprint r ∉ fps.
Proof.
  unfold delete_all. revert t; induction fps as [|fp fps IH]; intros t; simpl; [set_solver|].
  rewrite IH, elem_of_DeleteSnapshot. set_solver.
Qed.

Lemma evict_rows_fold ts pinned_row delete_ok ty repo (L : list (nat * SnapshotEvictionCandidate)) t evs :
  foldl (evict_row_step ts pinned_row delete_ok ty repo) (t, evs) L =
  (delete_all (map (fun ic => cFingerprint ic.2)
     (List.filter (fun ic => evicted ts pinned_row ic.1 && delete_ok ic.1) L)) t,
   evs ++ map (fun ic => {| evType := ty; evRepo := repo; evCandidate := ic.2 |})
            (List.filter (fun ic => evicted ts pinned_row ic.1) L)).
Proof.
  assert (Hstep : forall t evs i c, evict_row_step ts pinned_row delete_ok ty repo (t, evs) (i, c) =
    (if evicted ts pinned_row i && delete_ok i then SnapshotStore.DeleteSnapshot (cFingerprint c) t else t,
     evs ++ if evicted ts pinned_row i then [{| evType := ty; evRepo := repo; evCandidate := c |}] else [])).
  { intros t0 evs0 i c. unfold evict_row_step, evicted. destruct (ts !! i) as [r|]; [|by rewrite app_nil_r].
    by destruct (no_error r), (pinned_row i); simpl; rewrite ?app_nil_r. }
  revert t evs; induction L as [|[i c] L IH]; intros t evs; [by rewrite app_nil_r|].
  cbn [foldl]. rewrite Hstep, IH. cbn [List.filter fst snd].
  destruct (evicted ts pinned_row i), (delete_ok i); cbn [andb map]; by rewrite <- ?app_assoc.
Qed.

Lemma elem_of_imap_pair {A} (l : list A) i x : (i, x) ∈ imap pair l <-> l !! i = Some x.
Proof.
  rewrite elem_of_lookup_imap. split; [by intros (? & ? & [= -> ->] & ?)|]. intros H. by exists i, x.
Qed.

(** ** An engine without faults *)
Definition ideal_drop (p : string -> bool) (S : gset string) : gset string * bool :=
  (filter (fun ns => p ns = false) S, true).

Lemma ideal_drops p S : drops p S (filter (fun ns => p ns = false) S) true.
Proof.
  split.
  - intros ns. rewrite elem_of_filter. by intros [].
  - intros ns Hin Hout. rewrite elem_of_filter in Hout. destruct (p ns); [done|naive_solver].
  - intros _ ns. rewrite elem_of_filter. by intros [].
Qed.

#[local] Instance IdealEngine : EngineConn := {
  Configured _ := true;
  Connect _ _ := Dialed;
  DropSnapshot _ k name S := ideal_drop (under k.1 name) S;
  DropMatching _ _ prefix S := ideal_drop (has_prefix prefix) S;
  Exists _ k name S := Some (existsb (under k.1 name) (elements S));
  ListMatching _ _ prefix S := Some (List.filter (has_prefix prefix) (elements S))
}.

#[local] Instance IdealEngineLaws : EngineConnLaws IdealEngine.
Proof.
  split; simpl.
  - intros n k name S S' ok [= <- <-]. apply ideal_drops.
  - intros n k prefix S S' ok [= <- <-]. apply ideal_drops.
  - intros n k name S b [= <-]. rewrite existsb_elem. by setoid_rewrite elem_of_elements.
Qed.

(** ** Properties *)
Section Properties.
Context `{EC : EngineConn, !EngineConnLaws EC}.

(** C6: what an eviction sweep takes away.  For every interleaving of the
    parallel drops that lets each of them end, and whatever the pins do
    between the sweep's two looks at them: on the engines, only namespaces of
    candidates that were not pinned at the first look (the template and its
    spares) disappear; rows are only deleted, and only of candidates that are
    not pinned at the second look; a deleted row, and every event, belongs to a
    candidate of which no namespace is left, but for one whose pin was released
    between the two looks, which loses its row and keeps its template
    ([evict_pin_released]); and an unpinned candidate keeps its row only when
    its drop failed or the deletion of the row did. *)
Theorem evictCandidates_safe (cands : list SnapshotEvictionCandidate)
    (pinned_drop pinned_row delete_ok : nat -> bool) (sched : list nat)
    (ty : string) (repo : Z) (w : Servers) (t : Table)
    (Hfin : Forall (fun t => finished t = true)
              (run_drops cands sched (spawn cands pinned_drop) (fresh_pool w 0)).1) :
  let '(w', t', evs) := evictCandidates cands pinned_drop pinned_row delete_ok sched ty repo w t in
  only_drops (may_drop cands pinned_drop) w w' /\
  (forall r, r ∈ t' -> r ∈ t) /\
  (forall r, r ∈ t -> r ∉ t' -> exists i c, cands !! i = Some c /\ fingerprint r = cFingerprint c /\
     pinned_row i = false /\ (pinned_drop i = true \/ gone c w')) /\
  (forall e, e ∈ evs -> exists i, cands !! i = Some (evCandidate e) /\
     pinned_row i = false /\ (pinned_drop i = true \/ gone (evCandidate e) w')) /\
  (forall i c r, cands !! i = Some c -> pinned_row i = false -> r ∈ t' ->
     fingerprint r = cFingerprint c ->
     (run_drops cands sched (spawn cands pinned_drop) (fresh_pool w 0)).1 !! i = Some (Done false) \/
     delete_ok i = false).
Proof.
  unfold evictCandidates. destruct (run_drops _ _ _ _) as [ts s] eqn:Erun. simpl in Hfin.
  destruct (run_drops_inv cands pinned_drop w _ _ _ _ _ Erun (spawn_inv _ _ _ _)) as [Hlen Hdrops Htasks].
  unfold evict_rows. rewrite evict_rows_fold. cbn [app].
  assert (Hev : forall i c, cands !! i = Some c -> evicted ts pinned_row i = true ->
    pinned_row i = false /\ (pinned_drop i = true \/ gone c (servers s))).
  { intros i c Hi He. unfold evicted in He. destruct (ts !! i) as [r|] eqn:Er; [|done].
    apply andb_prop in He as [Hne Hp%negb_true_iff]. destruct (Htasks i c r Hi Er) as [Hok Hpin].
    rewrite Forall_forall in Hfin. specialize (Hfin r (list_elem_of_lookup_2 _ _ _ Er)).
    split; [done|]. destruct (pinned_drop i) eqn:Epd; [by left|right].
    destruct r as [| | | |[|]]; try done. by destruct Hpin as [Hpin _]; specialize (Hpin eq_refl). }
  split_and!; [done| | | |].
  - intros r Hr. by apply elem_of_delete_all in Hr as [? _].
  - intros r Hr Hr'. rewrite elem_of_delete_all in Hr'.
    destruct (decide (fingerprint r ∈ map (fun ic => cFingerprint ic.2) (List.filter (fun ic =>
      evicted ts pinned_row ic.1 && delete_ok ic.1) (imap pair cands)))) as [Hin|]; [|exfalso; by apply Hr'].
    apply list_elem_of_fmap in Hin as ([i c] & Hfp & [He Hi%elem_of_imap_pair]%elem_of_filter_bool).
    simpl in *. bools. exists i, c. split_and!; try done; by eapply Hev.
  - intros e ([i c] & -> & [He Hi%elem_of_imap_pair]%elem_of_filter_bool)%list_elem_of_fmap.
    simpl in *. exists i. split_and!; [done|by eapply Hev..].
  - intros i c r Hi Hp [_ Hr]%elem_of_delete_all Hfp. cbn [fst].
    destruct (ts !! i) as [tk|] eqn:Et; [|apply lookup_ge_None in Et; apply lookup_lt_Some in Hi; lia].
    destruct (no_error tk) eqn:En; [|left; by destruct tk as [| | | |[|]]].
    right. destruct (delete_ok i) eqn:Ed; [|done]. exfalso. apply Hr, list_elem_of_fmap.
    exists (i, c). split; [done|]. apply elem_of_filter_bool. split; [|by apply elem_of_imap_pair].
    unfold evicted. simpl. by rewrite Et, En, Hp, Ed.
Qed.

(** ** Lemmas: the sequential loops *)
Definition sum_sizes (items : list (SnapshotEvictionCandidate * Z)) (l : list nat) : Z :=
  sumZ (fun i => default 0%Z (snd <$> items !! i)) l.

(** what the size sweep maintains after the first [n] candidates *)
Record size_inv (items : list (SnapshotEvictionCandidate * Z)) (cap total : Z)
    (pinned : nat -> bool) (n : nat) (st : SizeSweep) : Prop := {
  zi_total : ssTotal st = (total - sum_sizes items (ssDropped st))%Z;
  zi_range : forall i, i ∈ ssDropped st -> (i < n)%nat /\ pinned i = false;
  zi_needed : forall l i, ssDropped st = l ++ [i] -> (cap < total - sum_sizes items l)%Z;
  zi_all : (cap < ssTotal st)%Z -> forall i c, (i < n)%nat -> fst <$> items !! i = Some c ->
    pinned i = true \/ i ∈ ssDropped st \/ exists s, (drop_task c s).2 = false
}.

Lemma size_step_inv items cap total pinned delete_ok n st c size :
  items !! n = Some (c, size) -> (forall i x, items !! i = Some x -> (0 <= x.2)%Z) ->
  size_inv items cap total pinned n st ->
  size_inv items cap total pinned (S n) (size_step cap pinned delete_ok st (n, (c, size))).
Proof.
  intros Hn Hpos [Ht Hr Hd Ha]. unfold size_step.
  destruct (Z.leb_spec (ssTotal st) cap) as [Hle|Hgt].
  { split; [done| |done|lia]. intros i Hi. destruct (Hr i Hi). split; [lia|done]. }
  specialize (Ha Hgt).
  destruct (pinned n) eqn:Ep.
  { split; [done| |done|].
    - intros i Hi. destruct (Hr i Hi). split; [lia|done].
    - intros _ i c' Hi Hc. destruct (decide (i = n)) as [->|]; [by left|]. apply Ha; [lia|done]. }
  destruct (drop_task c _) as [s' ok] eqn:Ed. destruct ok; split; cbn [ssTotal ssDropped].
  - unfold sum_sizes in *. rewrite sumZ_app. simpl. rewrite Hn. simpl. lia.
  - intros i [Hi| ->%list_elem_of_singleton]%elem_of_app; [destruct (Hr i Hi); split; [lia|done]|]. split; [lia|done].
  - intros l i [<- _]%app_inj_tail. lia.
  - intros _ i c' Hi Hc. destruct (decide (i = n)) as [->|]; [right; left; set_solver|].
    destruct (Ha i c' ltac:(lia) Hc) as [?|[?|?]]; [by left|right; left; set_solver|by right; right].
  - done.
  - intros i Hi. destruct (Hr i Hi). split; [lia|done].
  - done.
  - intros _ i c' Hi Hc. destruct (decide (i = n)) as [->|]; [|apply Ha; [lia|done]].
    rewrite Hn in Hc. simpl in Hc. simplify_eq. right; right. eexists. by rewrite Ed.
Qed.

Lemma size_fold_inv items cap total pinned delete_ok w t :
  (forall i x, items !! i = Some x -> (0 <= x.2)%Z) -> (cap < total)%Z ->
  size_inv items cap total pinned (length items)
    (foldl (size_step cap pinned delete_ok) (size_start w t total) (imap pair items)).
Proof.
  intros Hpos Hgt.
  assert (Hgen : forall l1 l2, items = l1 ++ l2 ->
    size_inv items cap total pinned (length l1)
      (foldl (size_step cap pinned delete_ok) (size_start w t total) (imap pair l1))).
  { induction l1 as [|[c size] l1 IH] using rev_ind; intros l2 E.
    - split; simpl; [unfold sum_sizes; simpl; lia|set_solver|by destruct l|lia].
    - rewrite <- app_assoc in E. simpl in E. rewrite imap_app, foldl_app, length_app. simpl.
      rewrite Nat.add_0_r, Nat.add_comm. apply size_step_inv; [|done|by eapply IH].
      by rewrite E, list_lookup_middle. }
  apply (Hgen items []). by rewrite app_nil_r.
Qed.

Lemma zip_map {A B C} (f : A -> B) (g : A -> C) l : zip (map f l) (map g l) = map (fun x => (f x, g x)) l.
Proof. induction l; simpl; by f_equal. Qed.

(** the size sweep evicts what it must and no more.  Run over budget,
    it ends with a total equal to the recorded total less the sizes of what it
    dropped; it drops no pinned template; before its last drop the total was
    still over the cap; and it stops over the cap only when each remaining
    template is pinned or its drop failed. *)
Theorem SweepBySize_minimal (gb total : Z) (pinned delete_ok : nat -> bool) (w : Servers) (t : Table)
    (Hgb : (0 < gb)%Z) (Hsum : SumSnapshotBytes t = Ok total)
    (Hpos : forall r, r ∈ t -> (0 <= row_size r)%Z)
    (Hover : (gb * 1024 * 1024 * 1024 < total)%Z) :
  let cap := (gb * 1024 * 1024 * 1024)%Z in
  let '(cands, sizes) := ListSnapshotsLargestLRU t in
  let st := SweepBySize gb pinned delete_ok w t in
  ssTotal st = (total - sum_sizes (zip cands sizes) (ssDropped st))%Z /\
  (forall i, i ∈ ssDropped st -> pinned i = false) /\
  (forall l i, ssDropped st = l ++ [i] -> (cap < total - sum_sizes (zip cands sizes) l)%Z) /\
  ((ssTotal st <= cap)%Z \/
   forall i c, cands !! i = Some c ->
     pinned i = true \/ i ∈ ssDropped st \/ exists s, (drop_task c s).2 = false).
Proof.
  unfold SweepBySize. rewrite (proj2 (Z.eqb_neq gb 0)), Hsum, (proj2 (Z.leb_gt total _)) by lia.
  unfold ListSnapshotsLargestLRU. cbn zeta. rewrite zip_map.
  set (rows := stable_sort largest_first t).
  set (items := map (fun x => (candidate x, row_size x)) rows).
  destruct (size_fold_inv items (gb * 1024 * 1024 * 1024) total pinned delete_ok w t) as [Ht Hr Hd Ha].
  { intros i x Hx. unfold items in Hx. apply list_lookup_fmap_Some in Hx as (r & -> & Hr). simpl.
    apply Hpos. rewrite <- (elem_of_stable_sort largest_first). by eapply list_elem_of_lookup_2. }
  { done. }
  split_and!; [done|by intros i Hi; apply Hr|done|].
  destruct (Z.le_gt_cases (ssTotal (foldl (size_step (gb * 1024 * 1024 * 1024) pinned delete_ok)
    (size_start w t total) (imap pair items))) (gb * 1024 * 1024 * 1024)) as [Hle|Hgt]; [by left|right].
  intros i c Hc. apply Ha; [lia| |].
  - unfold items. rewrite length_map. apply lookup_lt_Some in Hc. by rewrite length_map in Hc.
  - unfold items. apply list_lookup_fmap_Some in Hc as (r & -> & Hrr). by rewrite list_lookup_fmap, Hrr.
Qed.

(** the outcome of the purge loop on [cands] from [(s, t)]: rows [del] are
    deleted, and every other candidate has left an error *)
Definition purge_outcome (repo : Z) (cands : list SnapshotEvictionCandidate) (s : Shared) (t : Table)
    (res : Shared * Table * Z * list purge_error * list Event) : Prop :=
  let '(s', t', n, errs, evs) := res in
  only_drops (fun k ns => exists c, c ∈ cands /\ of_candidate c k ns) (servers s) (servers s') /\
  exists del, t' = delete_all (map cFingerprint del) t /\
    evs = map (fun c => {| evType := EvtSnapshotsPurge; evRepo := repo; evCandidate := c |}) del /\
    n = Z.of_nat (length del) /\ (forall c, c ∈ del -> c ∈ cands /\ gone c (servers s')) /\
    (errs = [] -> del = cands) /\
    ((length del + length errs)%nat = length cands \/ exists c, last errs = Some (Stopped c)).

Lemma purge_drops_cons c cands s s1 s2 :
  only_drops (of_candidate c) (servers s) (servers s1) ->
  only_drops (fun k ns => exists c, c ∈ cands /\ of_candidate c k ns) (servers s1) (servers s2) ->
  only_drops (fun k ns => exists c', c' ∈ c :: cands /\ of_candidate c' k ns) (servers s) (servers s2).
Proof.
  intros Hd H. eapply only_drops_trans; (eapply only_drops_impl; [|eassumption]).
  - intros k ns ?. exists c. split; [left|done].
  - intros k ns (c' & Hc' & ?). exists c'. split; [by right|done].
Qed.

Lemma purge_error_cons repo c e cands s s1 t s2 t2 n errs evs :
  only_drops (of_candidate c) (servers s) (servers s1) ->
  purge_outcome repo cands s1 t (s2, t2, n, errs, evs) ->
  purge_outcome repo (c :: cands) s t (s2, t2, n, e :: errs, evs).
Proof.
  intros Hd (Hd2 & del & -> & -> & -> & Hdel & Herr & Hall). split; [by eapply purge_drops_cons|].
  exists del. split_and!; try done.
  - intros c' Hc'. destruct (Hdel c' Hc'). split; [by right|done].
  - destruct Hall as [Hall|[c' Hall]]; [left; simpl; lia|right; exists c'; by destruct errs].
Qed.

Lemma purge_delete_cons repo c cands s s1 t s2 t2 n errs evs :
  only_drops (of_candidate c) (servers s) (servers s1) -> gone c (servers s1) ->
  purge_outcome repo cands s1 (SnapshotStore.DeleteSnapshot (cFingerprint c) t) (s2, t2, n, errs, evs) ->
  purge_outcome repo (c :: cands) s t (s2, t2, (n + 1)%Z, errs,
    {| evType := EvtSnapshotsPurge; evRepo := repo; evCandidate := c |} :: evs).
Proof.
  intros Hd Hg (Hd2 & del & -> & -> & -> & Hdel & Herr & Hall). split; [by eapply purge_drops_cons|].
  exists (c :: del). split_and!; try done; simpl; [lia| | |].
  - intros c' [->|Hc']%elem_of_cons; [split; [left|by eapply gone_mono, Hg]|].
    destruct (Hdel c' Hc'). split; [by right|done].
  - intros He. by rewrite (Herr He).
  - destruct Hall as [Hall|Hall]; [left; lia|by right].
Qed.

Lemma purge_loop_spec cancelled delete_ok repo i cands s t :
  purge_outcome repo cands s t (purge_loop cancelled delete_ok repo i cands s t).
Proof.
  revert i s t; induction cands as [|c cands IH]; intros i s t; cbn [purge_loop].
  { split; [apply only_drops_refl|]. exists []. split_and!; try done; [set_solver|by left]. }
  destruct (cancelled i).
  { split; [apply only_drops_refl|]. exists []. split_and!; try done; [set_solver|right; by exists c]. }
  destruct (drop_task c s) as [s1 ok] eqn:Ed. apply drop_task_spec in Ed as [Hd Hg].
  pose proof (IH (S i) s1 t) as H0.
  pose proof (IH (S i) s1 (SnapshotStore.DeleteSnapshot (cFingerprint c) t)) as H1.
  destruct (purge_loop _ _ _ _ _ s1 t) as [[[[? ?] ?] ?] ?], (purge_loop _ _ _ _ _ s1 _) as [[[[? ?] ?] ?] ?].
  destruct ok, (delete_ok i); cbn [negb]; first [by eapply purge_error_cons|apply purge_delete_cons with s1; auto].
Qed.

(** [PurgeRepo] removes a repository's templates and their rows.
    Engines lose only namespaces of the repository's templates; the count
    returned is the number of rows deleted, each with its event and with no
    namespace left of its template; rows of other repositories stay; unless
    the purge was stopped, each template was either deleted or left an error;
    and without an error the repository has no row left. *)
Theorem PurgeRepo_outcome (cancelled delete_ok : nat -> bool) (repoID : Z) (w : Servers) (t : Table)
    (Hrepo : repoID <> 0%Z) (Hnd : NoDup (fingerprint <$> t)) :
  let '(w', t', n, errs, evs) := PurgeRepo cancelled delete_ok repoID w t in
  only_drops (fun k ns => exists c, c ∈ ListSnapshotsForRepo repoID t /\ of_candidate c k ns) w w' /\
  n = Z.of_nat (length evs) /\
  (forall e, e ∈ evs -> gone (evCandidate e) w') /\
  (forall r, r ∈ t -> repo_id r <> Some repoID -> r ∈ t') /\
  ((length evs + length errs)%nat = length (ListSnapshotsForRepo repoID t) \/
   exists c, last errs = Some (Stopped c)) /\
  (errs = [] -> forall r, r ∈ t' -> r ∈ t /\ repo_id r <> Some repoID).
Proof.
  unfold PurgeRepo.
  pose proof (purge_loop_spec cancelled delete_ok repoID 0 (ListSnapshotsForRepo repoID t) (fresh_pool w 0) t) as H.
  destruct (purge_loop _ _ _ _ _ _ _) as [[[[s t'] n] errs] evs].
  destruct H as (Hd & del & -> & -> & -> & Hdel & Herr & Hall).
  assert (Hcands : forall c, c ∈ ListSnapshotsForRepo repoID t <->
    exists r, r ∈ t /\ repo_id r = Some repoID /\ c = candidate r).
  { intros c. unfold ListSnapshotsForRepo. rewrite (proj2 (Z.eqb_neq repoID 0) Hrepo).
    rewrite list_elem_of_fmap. setoid_rewrite (elem_of_stable_sort used_before).
    setoid_rewrite elem_of_filter_bool. unfold in_repo. setoid_rewrite bool_decide_eq_true. naive_solver. }
  rewrite length_map. split_and!; [done|done| | |done|].
  - intros e (c & -> & Hc)%list_elem_of_fmap. by apply Hdel.
  - intros r Hr Hne. apply elem_of_delete_all. split; [done|].
    intros (c & Hfp & [Hc _]%Hdel)%list_elem_of_fmap. apply Hcands in Hc as (r' & Hr' & Hrepo' & ->).
    apply Hne. by rewrite (fingerprint_eq t r r').
  - intros He r [Hr Hfp]%elem_of_delete_all. split; [done|]. intros Hrr. apply Hfp.
    rewrite (Herr He). apply list_elem_of_fmap. exists (candidate r). split; [done|]. apply Hcands. by exists r.
Qed.

(** ** Lemmas: row orphans *)
Lemma get_ok k s s' ok :
  get k s = (s', ok) -> (ok = true -> k ∈ conns s') /\ conns s ⊆ conns s' /\
    (forall k', k' ∈ conns s' -> k' ∈ conns s \/ exists n, Connect n k' = Dialed).
Proof.
  unfold get. case_bool_decide; [intros [= <- <-]; set_solver|].
  destruct (Connect (calls s) k) eqn:E; intros [= <- <-]; simpl; split_and!; try done; set_solver.
Qed.

(** a candidate the probe reports: unpinned, its server was dialed, and no
    namespace of the template is there *)
Definition probed_gone (pinned : nat -> bool) (w : Servers) (cands : list SnapshotEvictionCandidate)
    (c : SnapshotEvictionCandidate) : Prop :=
  exists i k, cands !! i = Some c /\ pinned i = false /\ key_of c = Some k /\
    (exists n, Connect n k = Dialed) /\
    forall ns, ns ∈ server k w -> under k.1 (cTemplateName c) ns = false.

Lemma FindRowOrphans_sound pinned w cands :
  let '(cs, n, orphans) := foldl (row_orphan_step pinned w) (∅, 0, []) (imap pair cands) in
  (forall k, k ∈ cs -> exists n, Connect n k = Dialed) /\
  Forall (probed_gone pinned w cands) orphans.
Proof.
  assert (Hgen : forall L st, (forall i c, (i, c) ∈ L -> cands !! i = Some c) ->
    (forall k, k ∈ st.1.1 -> exists n, Connect n k = Dialed) -> Forall (probed_gone pinned w cands) st.2 ->
    let st' := foldl (row_orphan_step pinned w) st L in
    (forall k, k ∈ st'.1.1 -> exists n, Connect n k = Dialed) /\ Forall (probed_gone pinned w cands) st'.2).
  { induction L as [|[i c] L IH]; intros [[cs n] orphans] HL Hcs Ho; [done|]. cbn [foldl].
    apply IH; [intros j c' ?; apply HL; by right|..]; clear IH;
      unfold row_orphan_step; destruct (pinned i) eqn:Ep; try done;
      destruct (Engine.Canonical (cEngine c)) as [fam|] eqn:Ef; try done;
      destruct (get _ _) as [s ok] eqn:Eg; destruct (get_ok _ _ _ _ Eg) as (Hk & _ & Hnew); simpl in Hnew;
      assert (Hd : forall k, k ∈ conns s -> exists n, Connect n k = Dialed)
        by (intros k [?|?]%Hnew; [by apply Hcs|done]);
      destruct ok; cbn [negb]; try done;
      destruct (Exists _ _ _ _) as [[|]|] eqn:Ee; try done.
    apply Forall_app. split; [done|]. apply Forall_singleton. exists i, (fam, cConnection c).
    split_and!; [apply HL; left|done|unfold key_of; by rewrite Ef|by apply Hd, Hk|].
    intros ns Hns. destruct (under _ _ ns) eqn:Eu; [|done]. apply Exists_law in Ee.
    destruct Ee as [_ Ee]. discriminate Ee. by exists ns. }
  specialize (Hgen (imap pair cands) (∅, 0, [])). simpl in Hgen.
  destruct (foldl _ _ _) as [[cs n] orphans]. apply Hgen; [|set_solver|constructor].
  intros i c. apply elem_of_imap_pair.
Qed.

Lemma prune_fold delete_ok (L : list (nat * SnapshotEvictionCandidate)) t pruned :
  foldl (prune_step delete_ok) (t, pruned) L =
  let done := map snd (List.filter (fun ic => delete_ok ic.1) L) in
  (delete_all (map cFingerprint done) t, pruned ++ done).
Proof.
  revert t pruned; induction L as [|[i c] L IH]; intros t pruned; simpl; [by rewrite app_nil_r|].
  destruct (delete_ok i); rewrite IH; simpl; [|done]. by rewrite <- app_assoc.
Qed.

(** pruning never removes the row of a live template.  A row
    [PruneRowOrphans] deletes belongs to the repository, is not pinned, and
    its server was dialed and holds none of its template's namespaces; rows
    whose engine is unknown, not configured or unreachable stay; and the rows
    reported are the rows deleted. *)
Theorem PruneRowOrphans_safe (pinned delete_ok : nat -> bool) (repoID : Z) (w : Servers) (t : Table)
    (Hnd : NoDup (fingerprint <$> t)) :
  let '(t', pruned) := PruneRowOrphans pinned delete_ok repoID w t in
  forall r, r ∈ t ->
    (r ∈ t' <-> candidate r ∉ pruned) /\
    (r ∉ t' -> repo_id r = Some repoID /\
       probed_gone pinned w (ListSnapshotsForRepo repoID t) (candidate r)).
Proof.
  unfold PruneRowOrphans. rewrite prune_fold. cbn [app]. cbv zeta.
  set (dn := map snd _).
  assert (Hdn : forall c, c ∈ dn -> probed_gone pinned w (ListSnapshotsForRepo repoID t) c /\
    exists r, r ∈ t /\ repo_id r = Some repoID /\ c = candidate r).
  { intros c ([i c'] & -> & [_ Hi%elem_of_imap_pair%list_elem_of_lookup_2]%elem_of_filter_bool)%list_elem_of_fmap.
    simpl. unfold FindRowOrphans in Hi.
    pose proof (FindRowOrphans_sound pinned w (ListSnapshotsForRepo repoID t)) as Hs.
    destruct (foldl _ _ _) as [[cs n] orphans]. destruct Hs as [_ Hs]. rewrite Forall_forall in Hs.
    specialize (Hs c' Hi). split; [done|]. destruct Hs as (j & k & Hj & _).
    apply list_elem_of_lookup_2 in Hj. unfold ListSnapshotsForRepo in Hj.
    destruct (Z.eqb repoID 0); [set_solver|].
    apply list_elem_of_fmap in Hj as (r & -> & Hr). apply elem_of_stable_sort, elem_of_filter_bool in Hr as [Hr ?].
    unfold in_repo in Hr. apply bool_decide_eq_true in Hr. by exists r. }
  assert (Hin : forall r, r ∈ t -> (fingerprint r ∈ map cFingerprint dn <-> candidate r ∈ dn)).
  { intros r Hr. rewrite list_elem_of_fmap. split; [|by exists (candidate r)].
    intros (c & Hfp & Hc). destruct (Hdn c Hc) as (_ & r' & Hr' & _ & ->).
    by rewrite (fingerprint_eq t r r'). }
  intros r Hr. rewrite elem_of_delete_all, (Hin r Hr). split; [tauto|].
  intros Hout. destruct (decide (candidate r ∈ dn)) as [Hc|]; [|tauto].
  destruct (Hdn _ Hc) as (? & r' & Hr' & Hrepo & E). split; [|done].
  rewrite (fingerprint_eq t r r'); try done. by injection E.
Qed.

(** ** Lemmas: template orphans *)
Lemma elem_of_fold_templates re seen names m :
  m ∈ fold_templates re seen names <-> m ∉ seen /\ exists n, n ∈ names /\ re n = Some m.
Proof.
  revert seen; induction names as [|n names IH]; intros seen; simpl; [set_solver|].
  destruct (re n) as [m'|] eqn:E.
  - case_bool_decide as Hs; [rewrite IH|rewrite elem_of_cons, IH, not_elem_of_union, not_elem_of_singleton].
    + set_solver.
    + destruct (decide (m = m')) as [->|]; [|set_solver].
      split; [intros _; split; [done|]; exists n; split; [left|done]|by left].
  - rewrite IH. set_solver.
Qed.

#[export] Instance orphan_order_trans : Transitive orphan_order.
Proof.
  intros a b c. unfold orphan_order.
  destruct (String.eqb_spec (Engine.family_label (oFamily a)) (Engine.family_label (oFamily b))) as [Eab|Nab],
    (String.eqb_spec (Engine.family_label (oFamily b)) (Engine.family_label (oFamily c))) as [Ebc|Nbc].
  - rewrite (proj2 (String.eqb_eq _ _)) by congruence. intros. by etrans.
  - rewrite Eab. by rewrite (proj2 (String.eqb_neq _ _) Nbc).
  - rewrite <- Ebc. by rewrite (proj2 (String.eqb_neq _ _) Nab).
  - intros Hab Hbc. destruct (String.eqb_spec (Engine.family_label (oFamily a)) (Engine.family_label (oFamily c))) as [Eac|].
    + exfalso. apply Nab. rewrite <- Eac in Hbc. by apply (anti_symm String.le).
    + by etrans.
Qed.

Lemma orphan_order_total a b : orphan_order a b \/ orphan_order b a.
Proof.
  unfold orphan_order. rewrite (String.eqb_sym (Engine.family_label (oFamily b))).
  destruct (String.eqb _ _); apply str_le_total.
Qed.

(** one listing of a family's templates *)
Definition listed (w : Servers) (fam : Engine.Family) (names : list string) : Prop :=
  exists n, ListMatching n (fam, "") (template_pattern fam).1 (server (fam, "") w) = Some names.

Definition flagged (w : Servers) (known : gset string) (o : Orphan) : Prop :=
  oName o ∉ known /\ exists names ns, listed w (oFamily o) names /\ ns ∈ names /\
    (template_pattern (oFamily o)).2 ns = Some (oName o).

Definition covered (w : Servers) (known : gset string) (out : list Orphan) (fam : Engine.Family) : Prop :=
  Configured (fam, "") = true ->
  exists names, listed w fam names /\ forall ns m, ns ∈ names ->
    (template_pattern fam).2 ns = Some m -> m ∉ known -> {| oFamily := fam; oName := m |} ∈ out.

Lemma listTemplates_spec n fam w ms :
  fam <> Engine.FamilyFile -> listTemplates n fam w = Some ms ->
  exists names, listed w fam names /\
    forall m, m ∈ ms <-> exists ns, ns ∈ names /\ (template_pattern fam).2 ns = Some m.
Proof.
  intros Hf. unfold listTemplates.
  assert (E : forall ms, (let '(prefix, re) := template_pattern fam in
      match ListMatching n (fam, "") prefix (server (fam, "") w) with
      | None => None | Some names => Some (fold_templates re ∅ names) end) = Some ms ->
    exists names, listed w fam names /\
      forall m, m ∈ ms <-> exists ns, ns ∈ names /\ (template_pattern fam).2 ns = Some m).
  { intros ms0. destruct (template_pattern fam) as [prefix re] eqn:Ep.
    destruct (ListMatching _ _ _ _) as [names|] eqn:El; [|done]. intros [= <-].
    exists names. split; [exists n; by rewrite Ep|]. intros m. rewrite elem_of_fold_templates. set_solver. }
  by destruct fam; try (apply E).
Qed.

Lemma find_orphans_loop_spec fams n w known out :
  Engine.FamilyFile ∉ fams -> Forall (flagged w known) out ->
  let '(out', err) := find_orphans_loop fams n w known out in
  Forall (flagged w known) out' /\ (forall o, o ∈ out -> o ∈ out') /\
  (err = None -> StronglySorted orphan_order out' /\ Forall (covered w known out') fams).
Proof.
  revert n out; induction fams as [|fam fams IH]; intros n out Hf Hout; cbn [find_orphans_loop].
  { split_and!.
    - by rewrite (stable_sort_perm orphan_order).
    - intros o. by rewrite (elem_of_stable_sort orphan_order).
    - intros _. split; [|constructor]. apply stable_sort_sorted; [apply _|apply orphan_order_total]. }
  apply not_elem_of_cons in Hf as [Hne Hf].
  destruct (Configured (fam, "")) eqn:Ec; cbn [negb].
  - assert (Hgo : let '(out', err) := match listTemplates (n + 1) fam w with
      | None => (out, Some (ListFailed fam))
      | Some names => find_orphans_loop fams (n + 2) w known
          (out ++ map (fun name => {| oFamily := fam; oName := name |})
                    (List.filter (fun name => negb (bool_decide (name ∈ known))) names))
      end in
      Forall (flagged w known) out' /\ (forall o, o ∈ out -> o ∈ out') /\
      (err = None -> StronglySorted orphan_order out' /\ Forall (covered w known out') (fam :: fams))).
    { destruct (listTemplates (n + 1) fam w) as [ms|] eqn:El; [|done].
      destruct (listTemplates_spec _ _ _ _ (not_eq_sym Hne) El) as (names & Hl & Hms).
      set (new := map _ (List.filter _ ms)).
      assert (Hnew : forall o, o ∈ new <-> oFamily o = fam /\ oName o ∈ ms /\ oName o ∉ known).
      { intros o. unfold new. rewrite list_elem_of_fmap. setoid_rewrite elem_of_filter_bool.
        setoid_rewrite negb_true_iff. setoid_rewrite bool_decide_eq_false.
        split; [intros (m & -> & ? & ?); done|]. intros (<- & ? & ?). exists (oName o). by destruct o. }
      specialize (IH (n + 2)%nat (out ++ new) Hf). destruct (find_orphans_loop _ _ _ _ _) as [out' err].
      destruct IH as (H1 & H2 & H3).
      { apply Forall_app. split; [done|]. apply Forall_forall. intros o (<- & Hm & Hk)%Hnew.
        split; [done|]. apply Hms in Hm as (ns & Hns & Hp). by exists names, ns. }
      split_and!; [done|intros o Ho; apply H2; set_solver|]. intros He.
      destruct (H3 He) as [Hs Hc]. split; [done|]. constructor; [|done].
      intros _. exists names. split; [done|]. intros ns m Hns Hp Hk. apply H2, elem_of_app. right.
      apply Hnew. split_and!; [done| |done]. apply Hms. by exists ns. }
    destruct (Connect n (fam, "")); [exact Hgo| |exact Hgo]. done.
  - specialize (IH n out Hf Hout). destruct (find_orphans_loop _ _ _ _ _) as [out' err].
    destruct IH as (H1 & H2 & H3). split_and!; [done..|]. intros He. destruct (H3 He) as [Hs Hc].
    split; [done|]. constructor; [|done]. intros Hc'. congruence.
Qed.

(** what [FindOrphans] reports.  Each orphan is the base name a
    template pattern reads off a namespace the engine listed, and no row of
    the table carries that name: a database of any other shape is never
    reported.  Without an error the answer is sorted and complete: for each
    configured family of the probe, every listed namespace of template shape
    has a row or is reported. *)
Theorem FindOrphans_exact (w : Servers) (t : Table) :
  let '(out, err) := FindOrphans w t in
  Forall (flagged w (ListAllTemplateNames t)) out /\
  (forall o r, o ∈ out -> r ∈ t -> template_name r <> oName o) /\
  (err = None -> StronglySorted orphan_order out /\
     Forall (covered w (ListAllTemplateNames t) out) orphanFamilies).
Proof.
  unfold FindOrphans.
  pose proof (find_orphans_loop_spec orphanFamilies 0 w (ListAllTemplateNames t) []) as H.
  destruct (find_orphans_loop _ _ _ _ _) as [out err].
  destruct H as (H1 & _ & H3); [by apply (bool_decide_unpack _)|constructor|].
  split_and!; [done| |done]. intros o r Ho Hr E. rewrite Forall_forall in H1.
  destruct (H1 o Ho) as [Hk _]. apply Hk. unfold ListAllTemplateNames.
  apply elem_of_list_to_set, list_elem_of_fmap. by exists r.
Qed.

End Properties.

(** the cutoff of the age sweep.  Up to 106751 days it is that many
    days before now, whatever the clock; one day more overflows the 64-bit
    duration and the cutoff lies after now, so the sweep lists every row. *)
Theorem SweepByAge_cutoff (now days : Z) :
  ((0 < days <= 106751)%Z -> age_cutoff now days = ((now - days * 86400000000000) / 1000000)%Z) /\
  (now / 1000000 < age_cutoff now 106752)%Z.
Proof.
  split.
  - intros Hd. unfold age_cutoff, age_duration, wrap64. f_equal.
    assert (W : forall z, (- 2 ^ 63 <= z < 2 ^ 63)%Z -> ((z + 2 ^ 63) mod 2 ^ 64 - 2 ^ 63)%Z = z).
    { intros z Hz. rewrite Z.mod_small by lia. lia. }
    rewrite (W (- days)%Z), (W (- days * 24)%Z), W by lia. lia.
  - unfold age_cutoff. change (age_duration 106752) with 9223371273709551616%Z.
    apply Z.lt_le_trans with (now / 1000000 + 1)%Z; [lia|].
    replace (now + 9223371273709551616)%Z with (now + 9223371273709 * 1000000 + 551616)%Z by lia.
    pose proof (Z.div_mod now 1000000). pose proof (Z.mod_pos_bound now 1000000).
    apply Z.div_le_lower_bound; lia.
Qed.

(** ** Witnesses *)
Definition sample_servers : Servers :=
  {[ (Engine.FamilyMySQL, "") := {[ "_tm_a"; "_tm_a_spare1"; "_tm_b"; "app" ]} ]}.

Definition sample_cands : list SnapshotEvictionCandidate := map candidate sample_table.
Definition sample_sched : list nat := [0; 1; 2; 1; 0; 2; 0; 2; 1; 0].
Definition pin_first (i : nat) : bool := Nat.eqb i 0.

Lemma evictCandidates_safe_witness :
  let '(w', t', evs) := evictCandidates sample_cands pin_first pin_first (fun _ => true) sample_sched
    "x" 1 sample_servers sample_table in
  forall r, r ∈ sample_table -> r ∉ t' -> exists i c, sample_cands !! i = Some c /\ (pin_first i = true \/ gone c w').
Proof.
  pose proof (evictCandidates_safe sample_cands pin_first pin_first (fun _ => true) sample_sched
    "x" 1 sample_servers sample_table) as Hsafe.
  destruct (evictCandidates sample_cands pin_first pin_first (fun _ => true) sample_sched "x" 1
    sample_servers sample_table) as [[w' t'] evs] eqn:E.
  intros r Hr Hr'. destruct Hsafe as (_ & _ & Hdel & _).
  - vm_compute. repeat constructor.
  - destruct (Hdel r Hr Hr') as (i & c & Hi & _ & _ & Hg). by exists i, c.
Defined.

(** A candidate that is pinned when
    its drop would start and no longer when its row is looked at loses its row
    while its template stays on the engine. *)
Lemma evict_pin_released :
  let res := evictCandidates sample_cands pin_first (fun _ => false) (fun _ => true) sample_sched
    "x" 1 sample_servers sample_table in
  "_tm_a" ∈ server (Engine.FamilyMySQL, "") res.1.1 /\ row_of "a" res.1.2 = None /\
  "_tm_a" ∈ map (fun e => cTemplateName (evCandidate e)) res.2.
Proof. cbv zeta. split_and!; [|vm_compute; reflexivity|]; apply (bool_decide_unpack _); vm_compute; exact I. Qed.

(** No driver call is ever made for a template of a file engine: its drop
    fails, so neither the sweeps nor [PurgeRepo] delete its row. *)
Lemma file_templates_stay `{EC : EngineConn} (rec : SnapshotRecord) (now : Z) (s : Shared) :
  Engine.Canonical (rEngine rec) = Some Engine.FamilyFile ->
  drop_task (candidate (insert_row now rec)) s = (s, false).
Proof.
  intros Hf. unfold drop_task, drop_step, candidate, insert_row. simpl. unfold Engine.canonical_label.
  by rewrite Hf.
Qed.

Definition sized (r : Row) (z : Z) : Row :=
  {| fingerprint := fingerprint r; row_engine := row_engine r; engine_version := engine_version r;
     source_db := source_db r; template_name := template_name r;
     migrations_hash := migrations_hash r; dump_hash := dump_hash r;
     lockfile_hashes_json := lockfile_hashes_json r; inputs_json := inputs_json r;
     size_bytes := Some z; created_at := created_at r; last_used_at := last_used_at r;
     use_count := use_count r; repo_id := repo_id r; connection := connection r |}.

Definition sized_table : Table := map (fun r => sized r 700000000) sample_table.

Lemma SweepBySize_minimal_witness :
  (ssTotal (SweepBySize 1 pin_first (fun _ => true) sample_servers sized_table) <= 1 * 1024 * 1024 * 1024)%Z /\
  forall i, i ∈ ssDropped (SweepBySize 1 pin_first (fun _ => true) sample_servers sized_table) -> pin_first i = false.
Proof.
  pose proof (SweepBySize_minimal 1 2100000000 pin_first (fun _ => true) sample_servers sized_table
    ltac:(lia) eq_refl) as H.
  destruct (ListSnapshotsLargestLRU sized_table) as [cands sizes].
  split; [vm_compute; discriminate|].
  refine (proj1 (proj2 (H _ _))); [|lia].
  intros r Hr. assert (HF : Forall (fun r => 0 <= row_size r)%Z sized_table)
    by (repeat constructor; vm_compute; discriminate).
  rewrite Forall_forall in HF. exact (HF r Hr).
Defined.

Lemma PurgeRepo_outcome_witness :
  let '(w', t', n, errs, evs) := PurgeRepo (fun _ => false) (fun _ => true) 1 sample_servers sample_table in
  errs = [] /\ n = 3%Z /\ forall e, e ∈ evs -> gone (evCandidate e) w'.
Proof.
  pose proof (PurgeRepo_outcome (fun _ => false) (fun _ => true) 1 sample_servers sample_table
    ltac:(lia) sample_nodup) as H.
  destruct (PurgeRepo (fun _ => false) (fun _ => true) 1 sample_servers sample_table)
    as [[[[w' t'] n] errs] evs] eqn:E.
  destruct H as (_ & _ & Hg & _). split_and!; [| |exact Hg].
  - apply (f_equal (fun x => x.1.2)) in E. vm_compute in E. by rewrite <- E.
  - apply (f_equal (fun x => x.1.1.2)) in E. vm_compute in E. by rewrite <- E.
Defined.

Lemma PruneRowOrphans_safe_witness :
  let '(t', pruned) := PruneRowOrphans (fun _ => false) (fun _ => true) 1 sample_servers sample_table in
  cTemplateName <$> pruned = ["_tm_c"] /\
  forall r, r ∈ sample_table -> r ∉ t' -> repo_id r = Some 1%Z.
Proof.
  pose proof (PruneRowOrphans_safe (fun _ => false) (fun _ => true) 1 sample_servers sample_table
    sample_nodup) as H.
  destruct (PruneRowOrphans (fun _ => false) (fun _ => true) 1 sample_servers sample_table) as [t' pruned] eqn:E.
  split; [apply (f_equal snd) in E; vm_compute in E; by rewrite <- E|].
  intros r Hr Hr'. exact (proj1 (proj2 (H r Hr) Hr')).
Defined.

Lemma SweepByAge_cutoff_witness : age_cutoff 2000000000000000000 30 = 1997408000000%Z.
Proof. rewrite (proj1 (SweepByAge_cutoff 2000000000000000000 30)) by lia. reflexivity. Defined.

(** a user's database and a template with a row are not reported, the spare of
    a template without one is *)
Example FindOrphans_ex :
  let w := {[ (Engine.FamilyMySQL, "") :=
    {[ "app"; "_tm_0123456789abcdef"; "_tm_fedcba9876543210_spare2" ]} ]} in
  FindOrphans w [sized (sample_row "a" "m" 1 []) 0] =
  ([ {| oFamily := Engine.FamilyMySQL; oName := "_tm_0123456789abcdef" |};
     {| oFamily := Engine.FamilyMySQL; oName := "_tm_fedcba9876543210" |} ], None).
Proof. vm_compute. reflexivity. Qed.

Lemma FindOrphans_exact_witness :
  let w := {[ (Engine.FamilyMySQL, "") := {[ "app"; "_tm_0123456789abcdef" ]} ]} in
  (FindOrphans w sample_table).2 = None /\
  Forall (covered w (ListAllTemplateNames sample_table) (FindOrphans w sample_table).1) orphanFamilies.
Proof.
  intros w. pose proof (FindOrphans_exact w sample_table) as H.
  destruct (FindOrphans w sample_table) as [out err] eqn:E. destruct H as (_ & _ & H).
  assert (err = None) as He by (apply (f_equal snd) in E; vm_compute in E; by rewrite <- E).
  split; [exact He|exact (proj2 (H He))].
Defined.
