(* ===== verification/Ports.v ===== *)
(** * Port slots of worktrees

    [internal/store/worktree_ports.go] (the table) and
    [internal/ports/ports.go] (the allocator).  The allocator runs beside
    other processes that share the table: before each of its database calls
    the environment may change it, and each call may fail. *)
From stdpp Require Import base strings list sets gmap sorting.
From Stdlib Require Import ZArith Lia.
From S2P Require Import Prelude GoStrings.

Record WorktreePortRow := {
  WorktreeID : Z;
  RepoID : Z;
  Name : string;
  Port : Z;
  AllocatedAt : Z
}.

#[export] Instance WorktreePortRow_eq_dec : EqDecision WorktreePortRow.
Proof. solve_decision. Defined.

Abbreviation Rows := (list WorktreePortRow).

Inductive error :=
| BadArgs
| Database
| ErrPortInUse
| ErrSlotHeld
| ErrExhausted (name : string) (lo hi : Z)
| AllocateFailed (name : string) (e : error) (rollback : list string).

(** ** The statements *)

(** the two unique indexes of the table *)
Definition unique_conflict (worktreeID : Z) (name : string) (port : Z) (rows : Rows) : bool :=
  existsb (fun r => Z.eqb (Port r) port ||
                    (Z.eqb (WorktreeID r) worktreeID && String.eqb (Name r) name)) rows.

Definition slot_port (worktreeID : Z) (name : string) (rows : Rows) : option Z :=
  Port <$> List.find (fun r => Z.eqb (WorktreeID r) worktreeID && String.eqb (Name r) name) rows.

Definition delete_slot (worktreeID : Z) (name : string) (rows : Rows) : Rows :=
  List.filter (fun r => negb (Z.eqb (WorktreeID r) worktreeID && String.eqb (Name r) name)) rows.

Definition delete_worktree (worktreeID : Z) (rows : Rows) : Rows :=
  List.filter (fun r => negb (Z.eqb (WorktreeID r) worktreeID)) rows.

Definition bad_args (repoID worktreeID : Z) (name : string) (port : Z) : bool :=
  Z.leb repoID 0 || Z.leb worktreeID 0 || String.eqb name "" || Z.eqb port 0.

(** [PurgeDeletedWorktreePorts]; [live id] is false for a worktree whose row
    is gone or has [deleted_at] set *)
Definition PurgeDeletedWorktreePorts (live : Z -> bool) (rows : Rows) : Rows * Z :=
  let rows' := List.filter (fun r => live (WorktreeID r)) rows in
  (rows', Z.of_nat (length rows - length rows')).

(** [sort.Strings] of the slot names *)
Definition SortedSlotNames (ports : gmap string Z) : list string :=
  stable_sort String.le (map_to_list ports).*1.

(** ** Configuration *)
Record PortRange := { Min : Z; Max : Z }.

Inductive config_error := EmptyName | ZeroBound | MinAboveMax.

Definition validatePortSlot (name : string) (r : PortRange) : res config_error unit :=
  if String.eqb name "" then Err EmptyName
  else if Z.eqb (Min r) 0 || Z.eqb (Max r) 0 then Err ZeroBound
  else if Z.ltb (Max r) (Min r) then Err MinAboveMax
  else Ok tt.

Definition PortSlotNames (ports : gmap string PortRange) : list string :=
  stable_sort String.le (map_to_list ports).*1.

(** [for p := int(Min); p <= int(Max); p++] *)
Definition candidates (r : PortRange) : list Z := seqZ (Min r) (Max r - Min r + 1).

(** ** The allocator *)
Record Allocation := { slot : string; port : Z }.

Section Allocator.
Variable env : nat -> Rows -> Rows.            (* the other processes *)
Variable fault : nat -> bool.                  (* the call fails *)
Variable free : nat -> Z -> bool.              (* [portFree], at a point of the run *)
Variable refs : Z -> Z -> bool.                (* repository and worktree exist *)
Variable clock : nat -> Z.                     (* [nowMillis] *)

(** the table and the number of database calls made *)
Record Sys := { rows : Rows; tick : nat }.

(** a call: what the others did before it, then the statement or a failure *)
Definition call {A} (stmt : Rows -> Rows * res error A) (s : Sys) : Sys * res error A :=
  let before := env (tick s) (rows s) in
  if fault (tick s) then ({| rows := before; tick := S (tick s) |}, Err Database)
  else let '(after, x) := stmt before in ({| rows := after; tick := S (tick s) |}, x).

Definition LookupWorktreePort (worktreeID : Z) (name : string) (s : Sys) : Sys * res error Z :=
  if Z.leb worktreeID 0 || String.eqb name "" then (s, Ok 0%Z)
  else call (fun rs => (rs, Ok (default 0%Z (slot_port worktreeID name rs)))) s.

Definition LoadWorktreePorts (worktreeID : Z) (s : Sys) : Sys * res error (gmap string Z) :=
  if Z.leb worktreeID 0 then (s, Ok ∅)
  else call (fun rs => (rs, Ok (list_to_map
         (map (fun r => (Name r, Port r)) (List.filter (fun r => Z.eqb (WorktreeID r) worktreeID) rs))))) s.

Definition ListHeldPorts (lo hi : Z) (s : Sys) : Sys * res error (gset Z) :=
  call (fun rs => (rs, Ok (list_to_set (map Port
         (List.filter (fun r => Z.leb lo (Port r) && Z.leb (Port r) hi) rs))))) s.

Definition ReleaseWorktreePorts (worktreeID : Z) (s : Sys) : Sys * res error unit :=
  if Z.leb worktreeID 0 then (s, Ok tt)
  else call (fun rs => (delete_worktree worktreeID rs, Ok tt)) s.

Definition ReleaseWorktreePort (worktreeID : Z) (name : string) (s : Sys) : Sys * res error unit :=
  if Z.leb worktreeID 0 || String.eqb name "" then (s, Ok tt)
  else call (fun rs => (delete_slot worktreeID name rs, Ok tt)) s.

(** the [INSERT]: refused by an index (then classified by a second call), or
    by the foreign keys *)
Inductive insert_result := Inserted | UniqueConflict | Refused.

Definition insert (repoID worktreeID : Z) (name : string) (p now : Z) (rs : Rows) : Rows * res error insert_result :=
  if unique_conflict worktreeID name p rs then (rs, Ok UniqueConflict)
  else if negb (refs repoID worktreeID) then (rs, Ok Refused)
  else (rs ++ [{| WorktreeID := worktreeID; RepoID := repoID; Name := name; Port := p; AllocatedAt := now |}],
        Ok Inserted).

Definition AllocateWorktreePort (repoID worktreeID : Z) (name : string) (p : Z) (s : Sys)
    : Sys * res error unit :=
  if bad_args repoID worktreeID name p then (s, Err BadArgs)
  else match call (insert repoID worktreeID name p (clock (tick s))) s with
       | (s1, Ok Inserted) => (s1, Ok tt)
       | (s1, Ok Refused) => (s1, Err Database)
       | (s1, Err e) => (s1, Err e)
       | (s1, Ok UniqueConflict) =>
           match LookupWorktreePort worktreeID name s1 with
           | (s2, Err e) => (s2, Err e)
           | (s2, Ok held) => (s2, Err (if Z.ltb 0 held then ErrSlotHeld else ErrPortInUse))
           end
       end.

(** the loop of [allocateOne] over the remaining candidates; the flag is
    [reused] *)
Fixpoint try_ports (repoID worktreeID : Z) (name : string) (used : gset Z) (lo hi : Z)
    (ps : list Z) (s : Sys) : Sys * res error (Z * bool) :=
  match ps with
  | [] => (s, Err (ErrExhausted name lo hi))
  | p :: ps' =>
      if bool_decide (p ∈ used) then try_ports repoID worktreeID name used lo hi ps' s
      else if negb (free (tick s) p) then try_ports repoID worktreeID name used lo hi ps' s
      else match AllocateWorktreePort repoID worktreeID name p s with
           | (s1, Ok _) => (s1, Ok (p, false))
           | (s1, Err ErrSlotHeld) =>
               match LookupWorktreePort worktreeID name s1 with
               | (s2, Err e) => (s2, Err e)
               | (s2, Ok held) =>
                   if Z.ltb 0 held then (s2, Ok (held, true))
                   else try_ports repoID worktreeID name used lo hi ps' s2
               end
           | (s1, Err ErrPortInUse) => try_ports repoID worktreeID name used lo hi ps' s1
           | (s1, Err e) => (s1, Err e)
           end
  end.

Definition allocateOne (repoID worktreeID : Z) (name : string) (r : PortRange) (s : Sys)
    : Sys * res error (Z * bool) :=
  match ListHeldPorts (Min r) (Max r) s with
  | (s1, Err e) => (s1, Err e)
  | (s1, Ok used) => try_ports repoID worktreeID name used (Min r) (Max r) (candidates r) s1
  end.

(** the roll back: the names whose release failed are in the error *)
Fixpoint roll_back (worktreeID : Z) (names : list string) (s : Sys) : Sys * list string :=
  match names with
  | [] => (s, [])
  | n :: names' =>
      let '(s1, r) := ReleaseWorktreePort worktreeID n s in
      let '(s2, failed) := roll_back worktreeID names' s1 in
      (s2, if is_ok r then failed else n :: failed)
  end.

Fixpoint allocate_slots (ports : gmap string PortRange) (repoID worktreeID : Z)
    (existing : gmap string Z) (slots added : list string) (out : list Allocation) (s : Sys)
    : Sys * res error (list Allocation) :=
  match slots with
  | [] => (s, Ok out)
  | name :: slots' =>
      match existing !! name with
      | Some p => allocate_slots ports repoID worktreeID existing slots' added
                    (out ++ [{| slot := name; port := p |}]) s
      | None =>
          match allocateOne repoID worktreeID name (default {| Min := 0; Max := 0 |} (ports !! name)) s with
          | (s1, Err e) =>
              let '(s2, failed) := roll_back worktreeID added s1 in
              (s2, Err (AllocateFailed name e failed))
          | (s1, Ok (p, reused)) =>
              allocate_slots ports repoID worktreeID existing slots'
                (if reused then added else added ++ [name]) (out ++ [{| slot := name; port := p |}]) s1
          end
      end
  end.

Definition Allocate (ports : gmap string PortRange) (repoID worktreeID : Z) (s : Sys)
    : Sys * res error (list Allocation) :=
  let slots := PortSlotNames ports in
  if Nat.eqb (length slots) 0 then (s, Ok [])
  else match LoadWorktreePorts worktreeID s with
       | (s1, Err e) => (s1, Err e)
       | (s1, Ok existing) => allocate_slots ports repoID worktreeID existing slots [] [] s1
       end.
End Allocator.

Definition FormatSummary (allocs : list Allocation) : string :=
  if Nat.eqb (length allocs) 0 then ""
  else foldl (fun out a => out +:+ " " +:+ slot a +:+ "=" +:+ itoa (port a)) "ports:" allocs.

Example FormatSummary_ex :
  FormatSummary [{| slot := "octane"; port := 8000 |}; {| slot := "vite"; port := 5173 |}] =
  "ports: octane=8000 vite=5173".
Proof. reflexivity. Qed.

(** ** Lemmas: the table *)
Definition slot_key (r : WorktreePortRow) : Z * string := (WorktreeID r, Name r).

Record ports_wf (rs : Rows) : Prop := {
  wf_ports : NoDup (map Port rs);
  wf_slots : NoDup (map slot_key rs);
  wf_bounds : Forall (fun r => (1 <= Port r <= 65535)%Z /\ (0 < WorktreeID r)%Z /\ Name r <> "") rs
}.

Lemma elem_of_filterb {A} (f : A -> bool) l x : x ∈ List.filter f l <-> f x = true /\ x ∈ l.
Proof. rewrite !list_elem_of_In, filter_In. tauto. Qed.

Lemma NoDup_map_filter {A B} (f : A -> B) (g : A -> bool) l : NoDup (map f l) -> NoDup (map f (List.filter g l)).
Proof.
  induction l as [|x l IH]; simpl; [done|]. intros [Hx Hnd]%NoDup_cons.
  destruct (g x); simpl; [|by apply IH]. apply NoDup_cons. split; [|by apply IH].
  intros (y & Hy & [_ Hin]%elem_of_filterb)%list_elem_of_fmap. apply Hx, list_elem_of_fmap. by exists y.
Qed.

Lemma wf_filter g rs : ports_wf rs -> ports_wf (List.filter g rs).
Proof.
  intros [Hp Hs Hb]. split; [by apply NoDup_map_filter..|].
  rewrite Forall_forall in *. intros r [_ Hr]%elem_of_filterb. by apply Hb.
Qed.

Lemma unique_conflict_false wt name p rs :
  unique_conflict wt name p rs = false <->
  p ∉ map Port rs /\ (wt, name) ∉ map slot_key rs.
Proof.
  unfold unique_conflict. rewrite <- not_true_iff_false, existsb_elem. split.
  - intros H. split.
    + intros (r & -> & Hr)%list_elem_of_fmap. apply H. exists r. by rewrite Z.eqb_refl.
    + intros (r & [= -> ->] & Hr)%list_elem_of_fmap. apply H. exists r. by rewrite Z.eqb_refl, String.eqb_refl, orb_true_r.
  - intros [H1 H2] (r & Hr & [E%Z.eqb_eq|[E1%Z.eqb_eq E2%String.eqb_eq]%andb_prop]%orb_prop).
    + apply H1, list_elem_of_fmap. by exists r.
    + apply H2, list_elem_of_fmap. exists r. split; [unfold slot_key; congruence|done].
Qed.

Lemma wf_insert refs repo wt name p now rs rs' x :
  insert refs repo wt name p now rs = (rs', x) -> bad_args repo wt name p = false -> (p <= 65535)%Z -> (0 <= p)%Z ->
  ports_wf rs -> ports_wf rs'.
Proof.
  unfold insert, bad_args. intros Hi Hb Hp Hp0 [Hps Hss Hbs].
  destruct (unique_conflict wt name p rs) eqn:Eu; [by simplify_eq|].
  destruct (negb (refs repo wt)); [by simplify_eq|]. simplify_eq.
  apply unique_conflict_false in Eu as [H1 H2]. bools.
  split; rewrite ?map_app.
  - apply NoDup_app. split_and!; [done| |apply NoDup_singleton]. intros q Hq ->%list_elem_of_singleton. done.
  - apply NoDup_app. split_and!; [done| |apply NoDup_singleton]. intros q Hq ->%list_elem_of_singleton. done.
  - apply Forall_app. split; [done|]. apply Forall_singleton. simpl.
    apply String.eqb_neq in H3. split_and!; [lia|lia|lia|done].
Qed.

Lemma slot_port_row wt name rs p :
  slot_port wt name rs = Some p ->
  exists r, r ∈ rs /\ WorktreeID r = wt /\ Name r = name /\ Port r = p.
Proof.
  unfold slot_port. destruct (List.find _ rs) as [r|] eqn:E; [|done]. intros [= <-].
  apply List.find_some in E as [Hin [Hw%Z.eqb_eq Hn%String.eqb_eq]%andb_prop].
  exists r. by rewrite list_elem_of_In.
Qed.

Lemma slot_port_None wt name rs :
  slot_port wt name rs = None <-> (wt, name) ∉ map slot_key rs.
Proof.
  unfold slot_port. rewrite list_elem_of_fmap.
  destruct (List.find _ rs) as [r|] eqn:E; simpl; split; try done.
  - apply List.find_some in E as [Hin [Hw%Z.eqb_eq Hn%String.eqb_eq]%andb_prop].
    intros []. exists r. unfold slot_key. rewrite list_elem_of_In. by subst.
  - intros _ (r & [= -> ->] & Hr%list_elem_of_In). apply (List.find_none _ _ E) in Hr.
    by rewrite Z.eqb_refl, String.eqb_refl in Hr.
Qed.

(** ** Lemmas: runs beside an environment *)
Section AllocatorLemmas.
Variables (env : nat -> Rows -> Rows) (fault : nat -> bool) (free : nat -> Z -> bool)
          (refs : Z -> Z -> bool) (clock : nat -> Z).
Variable wt : Z.

(** a relation that holds along every run, because the environment and the
    statements of the worktree [wt] keep to it *)
Section Runs.
Variable P : Rows -> Prop.
Hypothesis P_env : forall n rs, P rs -> P (env n rs).

Lemma call_keeps {A} (stmt : Rows -> Rows * res error A) s s' x :
  call env fault stmt s = (s', x) -> P (rows s) ->
  (forall rs, P rs -> P (stmt rs).1) -> P (rows s').
Proof using P_env.
  unfold call. intros Hc HP Hstmt. specialize (P_env (tick s) _ HP). specialize (Hstmt _ P_env).
  destruct (fault (tick s)); [by simplify_eq|].
  destruct (stmt (env (tick s) (rows s))) as [after y]. by simplify_eq.
Qed.

Lemma lookup_keeps w name s s' x : LookupWorktreePort env fault w name s = (s', x) -> P (rows s) -> P (rows s').
Proof using P_env.
  unfold LookupWorktreePort. case_match; [by intros [= <- <-]|]. intros Hc HP.
  by eapply call_keeps.
Qed.

Hypothesis P_insert : forall repo name p now rs,
  bad_args repo wt name p = false -> (1 <= p <= 65535)%Z ->
  P rs -> P (insert refs repo wt name p now rs).1.

Lemma allocate_port_keeps repo name p s s' x :
  AllocateWorktreePort env fault refs clock repo wt name p s = (s', x) -> (1 <= p <= 65535)%Z ->
  P (rows s) -> P (rows s').
Proof using P_env P_insert.
  unfold AllocateWorktreePort. destruct (bad_args repo wt name p) eqn:Eb; [by intros [= <- <-]|].
  intros Ha Hp HP. destruct (call _ _ _ _) as [s1 r] eqn:Ec.
  assert (HP1 : P (rows s1)) by (eapply call_keeps; [done..|]; intros; by apply P_insert).
  destruct r as [[| |]|e]; simplify_eq; try done.
  destruct (LookupWorktreePort _ _ _ _ _) as [s2 [held|e]] eqn:El; simplify_eq; by eapply lookup_keeps.
Qed.

Lemma try_ports_keeps repo name used lo hi ps s s' x :
  try_ports env fault free refs clock repo wt name used lo hi ps s = (s', x) ->
  Forall (fun p => 1 <= p <= 65535)%Z ps -> P (rows s) -> P (rows s').
Proof using P_env P_insert.
  intros Ht Hps. revert s Ht; induction Hps as [|p ps Hp Hps IH]; intros s; cbn [try_ports]; [by intros [= <- <-]|].
  case_match; [by apply IH|]. case_match; [by apply IH|].
  destruct (AllocateWorktreePort _ _ _ _ _ _ _ _ _) as [s1 r] eqn:Ea. intros Ht HP.
  assert (HP1 : P (rows s1)) by by eapply allocate_port_keeps.
  destruct r as [u|e]; [by simplify_eq|]. destruct e; simplify_eq; try done; [by eapply IH|].
  destruct (LookupWorktreePort _ _ _ _ _) as [s2 y] eqn:El.
  assert (HP2 : P (rows s2)) by by eapply lookup_keeps.
  destruct y as [held|e]; [destruct (Z.ltb 0 held)|]; [by simplify_eq|by eapply IH|by simplify_eq].
Qed.

Lemma allocateOne_keeps repo name r s s' x :
  allocateOne env fault free refs clock repo wt name r s = (s', x) ->
  Forall (fun p => 1 <= p <= 65535)%Z (candidates r) -> P (rows s) -> P (rows s').
Proof using P_env P_insert.
  unfold allocateOne. destruct (ListHeldPorts _ _ _ _ _) as [s1 u] eqn:El. intros Ha Hc HP.
  assert (HP1 : P (rows s1)) by (eapply call_keeps; [exact El|done..]).
  destruct u; [by eapply try_ports_keeps|by simplify_eq].
Qed.

Hypothesis P_delete : forall name rs, P rs -> P (delete_slot wt name rs).

Lemma roll_back_keeps names s s' failed :
  roll_back env fault wt names s = (s', failed) -> P (rows s) -> P (rows s').
Proof using P_env P_delete.
  revert s failed; induction names as [|n names IH]; intros s failed; cbn [roll_back]; [by intros [= <- <-]|].
  destruct (ReleaseWorktreePort _ _ _ _ _) as [s1 r] eqn:Er. destruct (roll_back _ _ _ _ _) as [s2 f] eqn:Eb.
  intros [= <- <-] HP. eapply IH; [done|]. unfold ReleaseWorktreePort in Er.
  destruct (_ || _); [by simplify_eq|]. eapply call_keeps; [done..|]. intros. by apply P_delete.
Qed.

Lemma allocate_slots_keeps ports repo existing slots added out s s' x :
  (forall name r, ports !! name = Some r -> (1 <= Min r)%Z /\ (Max r <= 65535)%Z) ->
  Forall (fun n => is_Some (ports !! n)) slots ->
  allocate_slots env fault free refs clock ports repo wt existing slots added out s = (s', x) ->
  P (rows s) -> P (rows s').
Proof using P_env P_insert P_delete.
  intros Hports Hslots. revert added out s; induction Hslots as [|name slots [r Hr] Hslots IH];
    intros added out s; cbn [allocate_slots]; [by intros [= <- <-]|].
  destruct (existing !! name); [by apply IH|]. rewrite Hr. cbn [from_option id].
  destruct (allocateOne _ _ _ _ _ _ _ _ _ _) as [s1 y] eqn:Ea. intros Hs HP.
  assert (HP1 : P (rows s1)).
  { eapply allocateOne_keeps; [done| |done]. apply Forall_forall. unfold candidates.
    intros p Hp%elem_of_seqZ. destruct (Hports _ _ Hr). simpl in *. lia. }
  destruct y as [[p reused]|e]; [by eapply IH|].
  destruct (roll_back _ _ _ _ _) as [s2 failed] eqn:Eb. simplify_eq. by eapply roll_back_keeps.
Qed.
End Runs.

(** ** Lemmas: what a success writes *)
Definition has_slot (name : string) (p : Z) (rs : Rows) : Prop :=
  exists r, r ∈ rs /\ WorktreeID r = wt /\ Name r = name /\ Port r = p.

Lemma lookup_row name s s' held :
  LookupWorktreePort env fault wt name s = (s', Ok held) -> (0 < held)%Z -> has_slot name held (rows s').
Proof.
  unfold LookupWorktreePort. case_match; [intros [= <- <-]; lia|]. unfold call.
  destruct (fault (tick s)); [done|]. intros [= <- <-]. simpl.
  destruct (slot_port wt name (env (tick s) (rows s))) as [p|] eqn:E; simpl; [|lia].
  intros _. by apply slot_port_row.
Qed.

Lemma allocate_port_row repo name p s s' :
  AllocateWorktreePort env fault refs clock repo wt name p s = (s', Ok tt) -> has_slot name p (rows s').
Proof.
  unfold AllocateWorktreePort, call, insert. destruct (bad_args repo wt name p); [done|].
  destruct (fault (tick s)); [done|]. destruct (unique_conflict _ _ _ _).
  - destruct (LookupWorktreePort _ _ _ _ _) as [? [?|?]]; done.
  - destruct (negb (refs repo wt)); [done|]. intros [= <-]. cbn [rows].
    eexists. split; [apply elem_of_app; right; left|done].
Qed.

Lemma try_ports_row repo name used lo hi ps s s' p reused :
  try_ports env fault free refs clock repo wt name used lo hi ps s = (s', Ok (p, reused)) ->
  has_slot name p (rows s') /\
  (reused = false -> p ∈ ps /\ p ∉ used /\ exists n, free n p = true).
Proof.
  revert s; induction ps as [|q ps IH]; intros s; cbn [try_ports]; [done|].
  assert (Hskip : forall s0, try_ports env fault free refs clock repo wt name used lo hi ps s0 = (s', Ok (p, reused)) ->
    has_slot name p (rows s') /\ (reused = false -> p ∈ q :: ps /\ p ∉ used /\ exists n, free n p = true)).
  { intros s0 H. destruct (IH s0 H) as [? Hr]. split; [done|]. intros ?. destruct Hr; [done|]. split; [by right|done]. }
  case_bool_decide; [apply Hskip|]. destruct (free (tick s) q) eqn:Ef; cbn [negb]; [|apply Hskip].
  destruct (AllocateWorktreePort _ _ _ _ _ _ _ _ _) as [s1 [[]|e]] eqn:Ea.
  - intros [= <- <- <-]. split; [by eapply allocate_port_row|]. intros _. split_and!; [left|done|by eexists].
  - destruct e; try done; [apply Hskip|].
    destruct (LookupWorktreePort _ _ _ _ _) as [s2 [held|e]] eqn:El; [|done].
    destruct (Z.ltb_spec 0 held); [|apply Hskip]. intros [= <- <- <-]. split; [by eapply lookup_row|done].
Qed.

Lemma allocateOne_row repo name r s s' p reused :
  allocateOne env fault free refs clock repo wt name r s = (s', Ok (p, reused)) ->
  has_slot name p (rows s') /\ (reused = false -> (Min r <= p <= Max r)%Z /\ exists n, free n p = true).
Proof.
  unfold allocateOne. destruct (ListHeldPorts _ _ _ _ _) as [s1 [used|e]]; [|done].
  intros [? Hr]%try_ports_row. split; [done|]. intros ?. destruct Hr as (Hp%elem_of_seqZ & _ & ?); [done|].
  split; [lia|done].
Qed.

(** *** When a port is probed *)
Lemma call_tick {A} (stmt : Rows -> Rows * res error A) s s' x : call env fault stmt s = (s', x) -> tick s' = S (tick s).
Proof. unfold call. destruct (fault (tick s)); [by intros [= <- _]|]. destruct (stmt _). by intros [= <- _]. Qed.

Lemma lookup_tick w name s s' x : LookupWorktreePort env fault w name s = (s', x) -> (tick s <= tick s')%nat.
Proof. unfold LookupWorktreePort. case_match; [by intros [= <- _]|]. intros Hc%call_tick. lia. Qed.

Lemma allocate_port_tick repo name p s s' x :
  AllocateWorktreePort env fault refs clock repo wt name p s = (s', x) -> (tick s <= tick s')%nat.
Proof.
  unfold AllocateWorktreePort. case_match; [by intros [= <- _]|]. destruct (call _ _ _ _) as [s1 r] eqn:Ec. apply call_tick in Ec.
  destruct r as [[| |]|e]; try (intros [= <- _]; lia).
  destruct (LookupWorktreePort _ _ _ _ _) as [s2 y] eqn:El. apply lookup_tick in El. destruct y; intros [= <- _]; lia.
Qed.

(** a port that is newly taken could be bound at some moment of the search *)
Lemma try_ports_probed repo name used lo hi ps s s' x :
  try_ports env fault free refs clock repo wt name used lo hi ps s = (s', x) ->
  (tick s <= tick s')%nat /\ forall p, x = Ok (p, false) -> exists n, (tick s <= n <= tick s')%nat /\ free n p = true.
Proof.
  revert s. induction ps as [|q ps IH]; intros s; cbn [try_ports]; [by intros [= <- <-]|].
  assert (Hskip : forall s0, (tick s <= tick s0)%nat -> try_ports env fault free refs clock repo wt name used lo hi ps s0 = (s', x) ->
    (tick s <= tick s')%nat /\ forall p, x = Ok (p, false) -> exists n, (tick s <= n <= tick s')%nat /\ free n p = true).
  { intros s0 Hle [Ht Hp]%IH. split; [lia|]. intros p Hx. destruct (Hp p Hx) as (n & ? & ?). exists n. split; [lia|done]. }
  case_bool_decide; [by apply Hskip|]. destruct (free (tick s) q) eqn:Ef; cbn [negb]; [|by apply Hskip].
  destruct (AllocateWorktreePort _ _ _ _ _ _ _ _ _) as [s1 r] eqn:Ea. apply allocate_port_tick in Ea.
  assert (Hdone : forall y, (s1, y) = (s', x) -> (forall p, y = Ok (p, false) -> p = q) ->
    (tick s <= tick s')%nat /\ forall p, x = Ok (p, false) -> exists n, (tick s <= n <= tick s')%nat /\ free n p = true).
  { intros y [= <- <-] Hq. split; [done|]. intros p Hp. rewrite (Hq p Hp). exists (tick s). split; [lia|done]. }
  destruct r as [u|e]; [intros Hr; eapply Hdone; [exact Hr|]; by intros p [= <-]|].
  destruct e; try (by intros Hr; eapply Hdone; [exact Hr|done]); [by apply Hskip|].
  destruct (LookupWorktreePort _ _ _ _ _) as [s2 y] eqn:El. apply lookup_tick in El.
  destruct y as [held|e]; [destruct (Z.ltb 0 held)|]; [intros [= <- <-]; split; [lia|done]|apply Hskip; lia|intros [= <- <-]; split; [lia|done]].
Qed.

Lemma allocateOne_probed repo name r s s' x :
  allocateOne env fault free refs clock repo wt name r s = (s', x) ->
  (tick s <= tick s')%nat /\ forall p, x = Ok (p, false) -> exists n, (tick s <= n <= tick s')%nat /\ free n p = true.
Proof.
  unfold allocateOne. destruct (ListHeldPorts _ _ _ _ _) as [s1 u] eqn:El. apply call_tick in El.
  destruct u as [used|e]; [|intros [= <- <-]; split; [lia|done]]. intros [Ht Hp]%try_ports_probed. split; [lia|].
  intros p Hx. destruct (Hp p Hx) as (n & ? & ?). exists n. split; [lia|done].
Qed.

Section Keep.
(** the others may add rows of this worktree, never take one away *)
Hypothesis env_keep : forall n rs r, r ∈ rs -> WorktreeID r = wt -> r ∈ env n rs.

Lemma has_slot_keeps repo name' name p r s s' x :
  allocateOne env fault free refs clock repo wt name' r s = (s', x) ->
  Forall (fun p => 1 <= p <= 65535)%Z (candidates r) ->
  has_slot name p (rows s) -> has_slot name p (rows s').
Proof using env_keep.
  intros Ha Hc (row & Hin & Hw & Hn & Hp). exists row. split; [|done].
  eapply (allocateOne_keeps (fun rs => row ∈ rs)); [by intros; apply env_keep| |done..].
  intros. unfold insert. case_match; [done|]. case_match; [done|]. simpl. set_solver.
Qed.

Lemma allocate_slots_row ports repo existing slots added out s s' out' :
  (forall name r, ports !! name = Some r -> (1 <= Min r)%Z /\ (Max r <= 65535)%Z) ->
  Forall (fun n => is_Some (ports !! n)) slots ->
  (forall n p, existing !! n = Some p -> has_slot n p (rows s)) ->
  (forall a, a ∈ out -> has_slot (slot a) (port a) (rows s)) ->
  allocate_slots env fault free refs clock ports repo wt existing slots added out s = (s', Ok out') ->
  map slot out' = map slot out ++ slots /\
  forall a, a ∈ out' -> has_slot (slot a) (port a) (rows s').
Proof using env_keep.
  intros Hports Hslots. revert added out s; induction Hslots as [|name slots [r Hr] Hslots IH];
    intros added out s Hex Hout; cbn [allocate_slots]; [intros [= <- <-]; by rewrite app_nil_r|].
  assert (Hgo : forall added s1 p,
    (forall n q, has_slot n q (rows s) -> has_slot n q (rows s1)) -> has_slot name p (rows s1) ->
    allocate_slots env fault free refs clock ports repo wt existing slots added
      (out ++ [{| slot := name; port := p |}]) s1 = (s', Ok out') ->
    map slot out' = map slot out ++ name :: slots /\ forall a, a ∈ out' -> has_slot (slot a) (port a) (rows s')).
  { intros added1 s1 p Hkeep Hp Hs. apply IH in Hs as [Hm Ha].
    - split; [|done]. rewrite Hm, map_app, <- app_assoc. done.
    - intros n q ?. by apply Hkeep, Hex.
    - intros a [Ha| ->%list_elem_of_singleton]%elem_of_app; [by apply Hkeep, Hout|done]. }
  destruct (existing !! name) as [p|] eqn:Ee; [apply Hgo; [done|by apply Hex]|].
  rewrite Hr. cbn [from_option id].
  destruct (allocateOne _ _ _ _ _ _ _ _ _ _) as [s1 [[p reused]|e]] eqn:Ea;
    [|by destruct (roll_back _ _ _ _ _)].
  apply Hgo.
  - intros n q. eapply has_slot_keeps; [done|]. apply Forall_forall. unfold candidates.
    intros x Hx%elem_of_seqZ. destruct (Hports _ _ Hr). simpl in *. lia.
  - by eapply allocateOne_row.
Qed.
End Keep.

(** ** Lemmas: what a failure leaves *)
Section Rollback.
Definition wt_rows (rs : Rows) : Rows := List.filter (fun r => Z.eqb (WorktreeID r) wt) rs.

(** the others leave this worktree's rows alone *)
Hypothesis env_apart : forall n rs, wt_rows (env n rs) = wt_rows rs.

Lemma wt_rows_app a b : wt_rows (a ++ b) = wt_rows a ++ wt_rows b.
Proof. apply List.filter_app. Qed.

Lemma lookup_rows w name s s' x : LookupWorktreePort env fault w name s = (s', x) -> wt_rows (rows s') = wt_rows (rows s).
Proof using env_apart.
  unfold LookupWorktreePort, call. case_match; [by intros [= <- <-]|]. case_match; intros [= <- <-]; apply env_apart.
Qed.

(** an allocation adds the row of its slot when it succeeds, and nothing else *)
Definition one_row (name : string) (old new : Rows) : Prop :=
  exists r, new = old ++ [r] /\ Name r = name /\ WorktreeID r = wt /\ name <> "" /\ (0 < wt)%Z /\ name ∉ map Name old.

Lemma allocate_port_rows repo name p s s' x :
  AllocateWorktreePort env fault refs clock repo wt name p s = (s', x) ->
  if is_ok x then one_row name (wt_rows (rows s)) (wt_rows (rows s')) else wt_rows (rows s') = wt_rows (rows s).
Proof using env_apart.
  unfold AllocateWorktreePort. destruct (bad_args repo wt name p) eqn:Eb; [by intros [= <- <-]|].
  unfold call, insert. destruct (fault (tick s)); [intros [= <- <-]; apply env_apart|].
  destruct (unique_conflict _ _ _ _) eqn:Eu.
  - destruct (LookupWorktreePort _ _ _ _ _) as [s2 y] eqn:El. apply lookup_rows in El. simpl in El.
    rewrite env_apart in El. destruct y; intros [= <- <-]; done.
  - destruct (negb (refs repo wt)); intros [= <- <-]; [apply env_apart|]. cbn [is_ok rows].
    unfold bad_args in Eb. bools. apply String.eqb_neq in H1. apply unique_conflict_false in Eu as [_ Eu].
    rewrite wt_rows_app. exists {| WorktreeID := wt; RepoID := repo; Name := name; Port := p; AllocatedAt := clock (tick s) |}.
    split_and!; try done.
    + f_equal; [apply env_apart|]. unfold wt_rows. simpl. by rewrite Z.eqb_refl.
    + rewrite <- (env_apart (tick s)).
      intros (r & -> & [Hw%Z.eqb_eq Hr]%elem_of_filterb)%list_elem_of_fmap. apply Eu.
      apply list_elem_of_fmap. exists r. split; [by unfold slot_key; rewrite Hw|done].
Qed.

Lemma try_ports_rows repo name used lo hi ps s s' x :
  try_ports env fault free refs clock repo wt name used lo hi ps s = (s', x) ->
  match x with
  | Ok (_, false) => one_row name (wt_rows (rows s)) (wt_rows (rows s'))
  | _ => wt_rows (rows s') = wt_rows (rows s)
  end.
Proof using env_apart.
  revert s; induction ps as [|p ps IH]; intros s; cbn [try_ports]; [by intros [= <- <-]|].
  case_bool_decide; [apply IH|]. destruct (free (tick s) p); cbn [negb]; [|apply IH].
  destruct (AllocateWorktreePort _ _ _ _ _ _ _ _ _) as [s1 r] eqn:Ea. apply allocate_port_rows in Ea.
  destruct r as [u|e]; [by intros [= <- <-]|]. simpl in Ea. rewrite <- Ea.
  destruct e; try (by intros [= <- <-]); [apply IH|].
  destruct (LookupWorktreePort _ _ _ _ _) as [s2 y] eqn:El. apply lookup_rows in El. rewrite <- El.
  destruct y as [held|e]; [|by intros [= <- <-]]. destruct (Z.ltb 0 held); [by intros [= <- <-]|apply IH].
Qed.

Lemma allocateOne_rows repo name r s s' x :
  allocateOne env fault free refs clock repo wt name r s = (s', x) ->
  match x with
  | Ok (_, false) => one_row name (wt_rows (rows s)) (wt_rows (rows s'))
  | _ => wt_rows (rows s') = wt_rows (rows s)
  end.
Proof using env_apart.
  unfold allocateOne. destruct (ListHeldPorts _ _ _ _ _) as [s1 u] eqn:El.
  assert (E : wt_rows (rows s1) = wt_rows (rows s)).
  { unfold ListHeldPorts, call in El. case_match; simplify_eq; apply env_apart. }
  rewrite <- E. destruct u as [used|e]; [apply try_ports_rows|by intros [= <- <-]].
Qed.

(** a roll back without failures removes exactly the rows of its names *)
Lemma roll_back_rows names s s' :
  (0 < wt)%Z -> Forall (fun n => n <> "") names ->
  roll_back env fault wt names s = (s', []) ->
  wt_rows (rows s') = List.filter (fun r => negb (existsb (String.eqb (Name r)) names)) (wt_rows (rows s)).
Proof using env_apart.
  intros Hwt Hn. revert s; induction Hn as [|n names Hn _ IH]; intros s; cbn [roll_back].
  { intros [= <-]. simpl. by rewrite filter_all_true. }
  destruct (ReleaseWorktreePort _ _ _ _ _) as [s1 r] eqn:Er. destruct (roll_back _ _ _ _ s1) as [s2 failed] eqn:Eb.
  destruct (is_ok r) eqn:Eok; [|done]. intros [= <- ->]. rewrite (IH _ Eb).
  unfold ReleaseWorktreePort, call in Er.
  rewrite (proj2 (Z.leb_gt _ _) Hwt), (proj2 (String.eqb_neq _ _) Hn) in Er. cbn [orb] in Er.
  destruct (fault (tick s)); simplify_eq. cbn [rows].
  rewrite <- (env_apart (tick s) (rows s)). unfold wt_rows, delete_slot. rewrite !filter_filter.
  apply filter_ext. intros x. destruct (Z.eqb_spec (WorktreeID x) wt); simpl; rewrite ?andb_false_r; [|done].
  by rewrite negb_orb.
Qed.

Lemma allocate_slots_rows ports repo existing slots added out s s' e old new :
  wt_rows (rows s) = old ++ new -> map Name new = added ->
  (added <> [] -> 0 < wt)%Z -> Forall (fun n => n <> "" /\ n ∉ map Name old) added ->
  allocate_slots env fault free refs clock ports repo wt existing slots added out s = (s', Err e) ->
  exists name e' failed, e = AllocateFailed name e' failed /\ (failed = [] -> wt_rows (rows s') = old).
Proof using env_apart.
  revert added out new s; induction slots as [|name slots IH]; intros added out new s Hrows Hnames Hwt Hadd;
    cbn [allocate_slots]; [done|].
  destruct (existing !! name) as [p|]; [by apply (IH added _ new)|].
  destruct (allocateOne _ _ _ _ _ _ _ _ _ _) as [s1 x] eqn:Ea. apply allocateOne_rows in Ea.
  destruct x as [[p [|]]|e1].
  - apply (IH added _ new); [congruence|done..].
  - destruct Ea as (r & Er & Hr & Hrw & Hne & Hpos & Hfresh). rewrite Hrows in Er, Hfresh.
    apply (IH (added ++ [name]) _ (new ++ [r])).
    + by rewrite Er, app_assoc.
    + rewrite map_app, Hnames. simpl. by rewrite Hr.
    + done.
    + apply Forall_app. split; [done|]. apply Forall_singleton. split; [done|].
      rewrite map_app in Hfresh. set_solver.
  - destruct (roll_back _ _ _ _ _) as [s2 failed] eqn:Eb. intros [= <- <-].
    exists name, e1, failed. split; [done|]. intros ->.
    destruct (decide (added = [])) as [->|Hne].
    { simpl in Eb. simplify_eq. rewrite Ea, Hrows. destruct new; [by rewrite app_nil_r|done]. }
    apply roll_back_rows in Eb; [|by apply Hwt|eapply Forall_impl; [done|]; by intros ? []].
    rewrite Eb, Ea, Hrows, List.filter_app, filter_all_true, filter_all_false, app_nil_r; [done|..].
    + intros r Hr. apply negb_false_iff, existsb_elem. exists (Name r). rewrite String.eqb_refl.
      split; [|done]. rewrite <- Hnames. apply list_elem_of_fmap. by exists r.
    + intros r Hr. apply negb_true_iff, not_true_iff_false. rewrite existsb_elem.
      intros (n & Hn & <-%String.eqb_eq). rewrite Forall_forall in Hadd. destruct (Hadd _ Hn) as [_ Hold].
      apply Hold, list_elem_of_fmap. by exists r.
Qed.
(** a success adds one row for each slot that had none, and for these only *)
Definition unset (existing : gmap string Z) (name : string) : bool := bool_decide (existing !! name = None).

Lemma has_slot_name name p rs : has_slot name p rs -> name ∈ map Name (wt_rows rs).
Proof. intros (r & Hr & Hw & <- & _). apply list_elem_of_fmap_2, elem_of_filterb. by rewrite Hw, Z.eqb_refl. Qed.

(** a port that was chosen: in the range of its slot, and free when it was looked at *)
Definition chosen (ports : gmap string PortRange) (lo hi : nat) (a : Allocation) : Prop :=
  (exists r, ports !! slot a = Some r /\ (Min r <= port a <= Max r)%Z) /\
  exists n, (lo <= n <= hi)%nat /\ free n (port a) = true.

Lemma chosen_later ports lo lo' hi hi' a : (lo' <= lo)%nat -> (hi <= hi')%nat -> chosen ports lo hi a -> chosen ports lo' hi' a.
Proof. intros ? ? (? & n & ? & ?). split; [done|]. exists n. split; [lia|done]. Qed.

Lemma allocate_slots_adds ports repo existing old slots added new out s s' out' :
  Forall (fun n => is_Some (ports !! n)) slots -> NoDup slots ->
  (forall n, n ∈ slots -> existing !! n = None -> n ∉ map Name old /\ n ∉ added) ->
  wt_rows (rows s) = old ++ new -> map Name new = added ->
  allocate_slots env fault free refs clock ports repo wt existing slots added out s = (s', Ok out') ->
  (tick s <= tick s')%nat /\
  (exists new', wt_rows (rows s') = old ++ new' /\ map Name new' = added ++ List.filter (unset existing) slots) /\
  forall a, a ∈ out' -> a ∈ out \/ existing !! slot a = Some (port a) \/ chosen ports (tick s) (tick s') a.
Proof using env_apart.
  intros Hall. revert added new out s. induction Hall as [|name slots [r Hr] Hall IH]; intros added new out s Hnd Hold Hrows Hnew;
    cbn [allocate_slots List.filter].
  { intros [= <- <-]. split; [done|]. split; [exists new; by rewrite app_nil_r|auto]. }
  apply NoDup_cons in Hnd as [Hname Hnd]. unfold unset at 1. destruct (existing !! name) as [p|] eqn:Ee; cbn [bool_decide].
  - rewrite bool_decide_eq_false_2 by done. intros H. eapply IH in H as (Ht & Hn & Ha); [|done| |done..].
    2:{ intros n Hn. apply Hold. by right. }
    split; [done|]. split; [done|]. intros a Hin. destruct (Ha a Hin) as [[?| ->%list_elem_of_singleton]%elem_of_app|?]; auto.
  - rewrite bool_decide_eq_true_2 by done. rewrite Hr. cbn [from_option id default].
    destruct (Hold name ltac:(left) Ee) as [Hn1 Hn2].
    destruct (allocateOne _ _ _ _ _ _ _ _ _ _) as [s1 [[p reused]|e]] eqn:Ea; [|by destruct (roll_back _ _ _ _ _)].
    pose proof (allocateOne_rows _ _ _ _ _ _ Ea) as Hrw. pose proof (allocateOne_row _ _ _ _ _ _ _ Ea) as [Hslot Hrange].
    pose proof (allocateOne_probed _ _ _ _ _ _ Ea) as [Ht1 Hfree]. destruct reused.
    { exfalso. apply has_slot_name in Hslot. rewrite Hrw, Hrows, map_app, Hnew in Hslot. set_solver. }
    destruct Hrw as (row & Erow & Hrn & _). destruct (Hrange eq_refl) as [Hbounds _]. destruct (Hfree p eq_refl) as (n & Hn & Hf).
    intros H. eapply (IH _ (new ++ [row])) in H as (Ht & (new' & Hn' & Hnm) & Ha); [|done| |by rewrite Erow, Hrows, app_assoc
      |by rewrite map_app, Hnew; cbn; rewrite Hrn].
    2:{ intros m Hm Hmn. destruct (Hold m (list_elem_of_further _ _ _ Hm) Hmn) as [? ?]. split; [done|]. set_solver. }
    split; [lia|]. split; [exists new'; by rewrite Hnm, <- app_assoc|].
    intros a Hin. destruct (Ha a Hin) as [[?| ->%list_elem_of_singleton]%elem_of_app|[?|Hc]]; auto; right; right.
    + split; [by exists r|]. exists n. split; [lia|done].
    + by eapply chosen_later; [| |exact Hc].
Qed.
End Rollback.
End AllocatorLemmas.

(** ** Properties *)
Lemma PortSlotNames_spec ports :
  Forall (fun n => is_Some (ports !! n)) (PortSlotNames ports) /\ NoDup (PortSlotNames ports) /\
  forall n, is_Some (ports !! n) -> n ∈ PortSlotNames ports.
Proof.
  unfold PortSlotNames.
  assert (Hin : forall n, n ∈ (map_to_list ports).*1 <-> is_Some (ports !! n)).
  { intros n. rewrite list_elem_of_fmap. split.
    - intros ([? r] & -> & Hr%elem_of_map_to_list). by exists r.
    - intros [r Hr]. exists (n, r). split; [done|]. by apply elem_of_map_to_list. }
  split_and!.
  - rewrite Forall_forall. intros n. rewrite (elem_of_stable_sort String.le). apply Hin.
  - rewrite (stable_sort_perm String.le). apply NoDup_fst_map_to_list.
  - intros n Hn. by apply (elem_of_stable_sort String.le), Hin.
Qed.

Definition valid_ports (ports : gmap string PortRange) : Prop :=
  forall name r, ports !! name = Some r -> validatePortSlot name r = Ok tt /\ (0 <= Min r)%Z /\ (Max r <= 65535)%Z.

Lemma valid_ports_bounds ports : valid_ports ports ->
  forall name r, ports !! name = Some r -> (1 <= Min r)%Z /\ (Max r <= 65535)%Z.
Proof.
  intros H name r Hr. destruct (H name r Hr) as (Hv & ? & ?). unfold validatePortSlot in Hv.
  destruct (String.eqb name ""); [done|]. destruct (Z.eqb_spec (Min r) 0); [done|]. lia.
Qed.

Lemma Allocate_keeps_wf (env : nat -> Rows -> Rows) (fault : nat -> bool) (free : nat -> Z -> bool)
    (refs : Z -> Z -> bool) (clock : nat -> Z) (ports : gmap string PortRange) (repoID worktreeID : Z)
    (s s' : Sys) (x : res error (list Allocation))
    (Henv : forall n rs, ports_wf rs -> ports_wf (env n rs))
    (Hports : valid_ports ports) (Hs : ports_wf (rows s))
    (Hrun : Allocate env fault free refs clock ports repoID worktreeID s = (s', x)) :
  ports_wf (rows s').
Proof.
  unfold Allocate in Hrun. case_match; [by simplify_eq|].
  destruct (LoadWorktreePorts _ _ _ _) as [s1 [existing|e]] eqn:El.
  - assert (Hs1 : ports_wf (rows s1)).
    { unfold LoadWorktreePorts in El. case_match; [by simplify_eq|]. by eapply (call_keeps env fault ports_wf). }
    refine (allocate_slots_keeps env fault free refs clock worktreeID ports_wf Henv _ _ ports repoID existing
      _ [] [] s1 s' x (valid_ports_bounds _ Hports) (proj1 (PortSlotNames_spec ports)) Hrun Hs1).
    + intros repo name p now rs Hb Hp Hrs. destruct (insert _ _ _ _ _ _ _) as [rs' y] eqn:Ei.
      eapply wf_insert; [done..|lia|lia|done].
    + intros name rs. apply wf_filter.
  - simplify_eq. unfold LoadWorktreePorts in El. case_match; [by simplify_eq|].
    by eapply (call_keeps env fault ports_wf).
Qed.

(** what a successful allocation promises.  When the other
    processes never delete rows of this worktree, the answer names every slot
    of the configuration once, in alphabetical order; each port is recorded
    for its slot in the table that is left; and no two slots got the same
    port. *)
Lemma Allocate_recorded (env : nat -> Rows -> Rows) (fault : nat -> bool) (free : nat -> Z -> bool)
    (refs : Z -> Z -> bool) (clock : nat -> Z) (ports : gmap string PortRange) (repoID worktreeID : Z)
    (s s' : Sys) (allocs : list Allocation)
    (Henv : forall n rs, ports_wf rs -> ports_wf (env n rs))
    (Hkeep : forall n rs r, r ∈ rs -> WorktreeID r = worktreeID -> r ∈ env n rs)
    (Hports : valid_ports ports) (Hs : ports_wf (rows s))
    (Hrun : Allocate env fault free refs clock ports repoID worktreeID s = (s', Ok allocs)) :
  map slot allocs = PortSlotNames ports /\
  (forall a, a ∈ allocs -> has_slot worktreeID (slot a) (port a) (rows s')) /\
  NoDup (map port allocs).
Proof.
  assert (Hs' : ports_wf (rows s')) by by eapply Allocate_keeps_wf.
  destruct (PortSlotNames_spec ports) as (Hslots & Hnd & _).
  assert (H : map slot allocs = PortSlotNames ports /\
    (forall a, a ∈ allocs -> has_slot worktreeID (slot a) (port a) (rows s'))).
  { unfold Allocate in Hrun. destruct (Nat.eqb_spec (length (PortSlotNames ports)) 0) as [E|].
    { simplify_eq. apply nil_length_inv in E. rewrite E. split; [done|set_solver]. }
    destruct (LoadWorktreePorts _ _ _ _) as [s1 [existing|e]] eqn:El; [|done].
    eapply (allocate_slots_row env fault free refs clock worktreeID) in Hrun; try done;
      [by apply valid_ports_bounds| |set_solver].
    intros sl q Hn. unfold LoadWorktreePorts in El. case_match; [by simplify_eq|]. unfold call in El.
    case_match; [done|]. simplify_eq. simpl. apply elem_of_list_to_map_2, list_elem_of_fmap in Hn
      as (r & [= -> ->] & [Hr%Z.eqb_eq Hin]%elem_of_filterb). by exists r. }
  destruct H as [Hm Ha]. split_and!; [done..|].
  rewrite <- Hm in Hnd. clear Hm Hrun. induction allocs as [|a allocs IH]; [constructor|].
  apply NoDup_cons in Hnd as [Hn Hnd]. constructor; [|apply IH; [done|intros; apply Ha; by right]].
  intros (b & Hp & Hb)%list_elem_of_fmap. apply Hn, list_elem_of_fmap. exists b. split; [|done].
  destruct (Ha a ltac:(left)) as (ra & Hra & _ & Hna & Hpa), (Ha b ltac:(by right)) as (rb & Hrb & _ & Hnb & Hpb).
  apply list_elem_of_lookup in Hra as [i Hi], Hrb as [j Hj].
  assert (i = j) as <-.
  { eapply NoDup_lookup; [apply Hs'|rewrite list_lookup_fmap, Hi; done|rewrite list_lookup_fmap, Hj; simpl; congruence]. }
  congruence.
Qed.

(** *** What it adds *)
Lemma loaded_ports env fault wt s s' existing :
  LoadWorktreePorts env fault wt s = (s', Ok existing) -> ports_wf (rows s) -> wt_rows wt (env (tick s) (rows s)) = wt_rows wt (rows s) ->
  wt_rows wt (rows s') = wt_rows wt (rows s) /\ (tick s <= tick s')%nat /\
  (forall n p, existing !! n = Some p -> has_slot wt n p (rows s)) /\
  (forall n, existing !! n = None <-> n ∉ map Name (wt_rows wt (rows s))).
Proof.
  intros El Hs Hapart. unfold LoadWorktreePorts in El. destruct (Z.leb_spec wt 0).
  - injection El as <- <-. split; [done|]. split; [done|]. split; [by intros n p|]. intros n. split; [|done]. intros _.
    intros (r & _ & [Hw%Z.eqb_eq Hr]%elem_of_filterb)%list_elem_of_fmap. destruct Hs as [_ _ Hb]. rewrite Forall_forall in Hb.
    specialize (Hb r Hr). lia.
  - unfold call in El. destruct (fault (tick s)); [done|]. injection El as <- <-. cbn [rows tick]. split; [done|]. split; [lia|].
    fold (wt_rows wt (env (tick s) (rows s))). rewrite Hapart. split.
    + intros n p Hn. apply elem_of_list_to_map_2, list_elem_of_fmap in Hn as (r & [= -> ->] & [Hw%Z.eqb_eq Hr]%elem_of_filterb). by exists r.
    + intros n. rewrite <- not_elem_of_list_to_map. rewrite <- list_fmap_compose. done.
Qed.

Lemma Allocate_adds (env : nat -> Rows -> Rows) (fault : nat -> bool) (free : nat -> Z -> bool)
    (refs : Z -> Z -> bool) (clock : nat -> Z) (ports : gmap string PortRange) (repoID worktreeID : Z)
    (s s' : Sys) (allocs : list Allocation)
    (Hapart : forall n rs, wt_rows worktreeID (env n rs) = wt_rows worktreeID rs) (Hs : ports_wf (rows s))
    (Hrun : Allocate env fault free refs clock ports repoID worktreeID s = (s', Ok allocs)) :
  (exists added, wt_rows worktreeID (rows s') = wt_rows worktreeID (rows s) ++ added /\
     map Name added = List.filter (fun n => bool_decide (n ∉ map Name (wt_rows worktreeID (rows s)))) (PortSlotNames ports)) /\
  forall a, a ∈ allocs -> has_slot worktreeID (slot a) (port a) (rows s) \/ chosen free ports (tick s) (tick s') a.
Proof.
  destruct (PortSlotNames_spec ports) as (Hslots & Hnd & _). unfold Allocate in Hrun.
  destruct (Nat.eqb_spec (length (PortSlotNames ports)) 0) as [E|_].
  { injection Hrun as <- <-. apply nil_length_inv in E. rewrite E. split; [exists []; by rewrite app_nil_r|by intros a ?%elem_of_nil]. }
  destruct (LoadWorktreePorts _ _ _ _) as [s1 [existing|e]] eqn:El; [|done].
  destruct (loaded_ports _ _ _ _ _ _ El Hs (Hapart _ _)) as (Hrows & Ht & Hsome & Hnone).
  eapply (allocate_slots_adds env fault free refs clock worktreeID Hapart _ _ existing (wt_rows worktreeID (rows s)) _ [] []) in Hrun
    as (Ht' & (new & Hnew & Hnames) & Hfrom); [|done|done| |by rewrite Hrows, app_nil_r|done].
  2:{ intros m _ Hn. split; [by apply Hnone|by apply not_elem_of_nil]. }
  split.
  - exists new. split; [done|]. rewrite Hnames. cbn [app]. apply filter_ext. intros n. unfold unset. by apply bool_decide_ext.
  - intros a Ha. destruct (Hfrom a Ha) as [?%elem_of_nil|[Hex|Hc]]; [done|left; by apply Hsome|right]. by eapply chosen_later; [| |exact Hc].
Qed.

(** a failed allocation leaves nothing behind.  When the
    other processes leave this worktree's rows alone and the roll back reports
    no failed release, the rows of the worktree are, after the failure, the
    rows it had before. *)
Lemma Allocate_rolled_back (env : nat -> Rows -> Rows) (fault : nat -> bool) (free : nat -> Z -> bool)
    (refs : Z -> Z -> bool) (clock : nat -> Z) (ports : gmap string PortRange) (repoID worktreeID : Z)
    (s s' : Sys) (e : error)
    (Hapart : forall n rs, wt_rows worktreeID (env n rs) = wt_rows worktreeID rs)
    (Hrun : Allocate env fault free refs clock ports repoID worktreeID s = (s', Err e)) :
  (e = Database \/ exists name e' failed, e = AllocateFailed name e' failed) /\
  (forall name e', e <> Database -> e = AllocateFailed name e' [] ->
     wt_rows worktreeID (rows s') = wt_rows worktreeID (rows s)) /\
  (e = Database -> wt_rows worktreeID (rows s') = wt_rows worktreeID (rows s)).
Proof.
  unfold Allocate in Hrun. case_match; [done|].
  destruct (LoadWorktreePorts _ _ _ _) as [s1 x] eqn:El.
  assert (E : wt_rows worktreeID (rows s1) = wt_rows worktreeID (rows s) /\ (forall e, x = Err e -> e = Database)).
  { unfold LoadWorktreePorts, call in El. destruct (Z.leb worktreeID 0); [by simplify_eq|].
    destruct (fault (tick s)); injection El as <- <-; (split; [apply Hapart|]); intros e1 He; congruence. }
  destruct E as [E Hx]. destruct x as [existing|e0]; [|simplify_eq; rewrite (Hx e eq_refl); naive_solver].
  assert (Hr : wt_rows worktreeID (rows s1) = wt_rows worktreeID (rows s) ++ []) by by rewrite app_nil_r.
  eapply (allocate_slots_rows env fault free refs clock worktreeID Hapart) in Hrun as (name & e' & failed & -> & Hrun);
    [|exact Hr|done|done|constructor].
  split_and!; [right; naive_solver| |done]. intros n e1 _ [= -> -> ->]. by apply Hrun.
Qed.

(** C16: what an allocation does.  The other processes may do anything to the
    table between two statements that respects its indexes and leaves the rows
    of this worktree alone, and any statement may fail.  An allocation that
    succeeds answers with every slot of the configuration once, in alphabetical
    order, each with a port of its own that is recorded for it; a port is the
    one that the slot had before, or lies in the range of the slot and could be
    bound when it was tried; and exactly the slots without a row get one.  One
    that fails leaves the rows of the worktree as they were, unless the
    roll-back reports the names that it could not release.  The table keeps one
    row per port and one per worktree and slot, with ports from 1 to 65535. *)
Theorem Allocate_outcome (env : nat -> Rows -> Rows) (fault : nat -> bool) (free : nat -> Z -> bool)
    (refs : Z -> Z -> bool) (clock : nat -> Z) (ports : gmap string PortRange) (repoID worktreeID : Z)
    (s s' : Sys) (x : res error (list Allocation))
    (Henv : forall n rs, ports_wf rs -> ports_wf (env n rs))
    (Hapart : forall n rs, wt_rows worktreeID (env n rs) = wt_rows worktreeID rs)
    (Hports : valid_ports ports) (Hs : ports_wf (rows s))
    (Hrun : Allocate env fault free refs clock ports repoID worktreeID s = (s', x)) :
  let before := wt_rows worktreeID (rows s) in
  let after := wt_rows worktreeID (rows s') in
  ports_wf (rows s') /\
  match x with
  | Ok allocs =>
      map slot allocs = PortSlotNames ports /\ NoDup (map port allocs) /\
      (forall a, a ∈ allocs -> has_slot worktreeID (slot a) (port a) (rows s') /\
         (has_slot worktreeID (slot a) (port a) (rows s) \/ chosen free ports (tick s) (tick s') a)) /\
      exists added, after = before ++ added /\
        map Name added = List.filter (fun n => bool_decide (n ∉ map Name before)) (PortSlotNames ports)
  | Err e => (e = Database \/ exists name e' failed, e = AllocateFailed name e' failed) /\
             ((forall name e' n failed, e <> AllocateFailed name e' (n :: failed)) -> after = before)
  end.
Proof.
  cbn zeta. split; [by eapply Allocate_keeps_wf|]. destruct x as [allocs|e].
  - assert (Hkeep : forall n rs r, r ∈ rs -> WorktreeID r = worktreeID -> r ∈ env n rs).
    { intros n rs r Hr Hw. assert (Hin : r ∈ wt_rows worktreeID rs) by (apply elem_of_filterb; by rewrite Hw, Z.eqb_refl).
      rewrite <- (Hapart n) in Hin. by apply elem_of_filterb in Hin as [_ ?]. }
    destruct (Allocate_recorded _ _ _ _ _ _ _ _ _ _ _ Henv Hkeep Hports Hs Hrun) as (Hm & Ha & Hnd).
    destruct (Allocate_adds _ _ _ _ _ _ _ _ _ _ _ Hapart Hs Hrun) as [Hadd Hfrom]. split_and!; [done..| |done].
    intros a Hin. split; [by apply Ha|by apply Hfrom].
  - destruct (Allocate_rolled_back _ _ _ _ _ _ _ _ _ _ _ Hapart Hrun) as (Hshape & Hf & Hd). split; [done|]. intros Hno.
    destruct Hshape as [->|(name & e' & failed & ->)]; [by apply Hd|]. destruct failed as [|n failed]; [by eapply Hf|].
    by destruct (Hno name e' n failed).
Qed.

(** alone and without faults, [allocateOne] picks the lowest
    port of the range that no row of the table holds and that can be bound,
    records it, and reports exhaustion only when there is none. *)
Theorem allocateOne_lowest (bindable : Z -> bool) (clock : nat -> Z) (repoID worktreeID : Z)
    (name : string) (r : PortRange) (s : Sys)
    (Hrepo : (0 < repoID)%Z) (Hwt : (0 < worktreeID)%Z) (Hname : name <> "") (Hmin : (1 <= Min r)%Z)
    (Hslot : slot_port worktreeID name (rows s) = None) :
  let eligible p := (Min r <= p <= Max r)%Z /\ p ∉ map Port (rows s) /\ bindable p = true in
  match allocateOne (fun _ rs => rs) (fun _ => false) (fun _ => bindable) (fun _ _ => true) clock
          repoID worktreeID name r s with
  | (s', Ok (p, reused)) =>
      reused = false /\ eligible p /\ (forall q, eligible q -> (p <= q)%Z) /\
      exists now, rows s' = rows s ++ [{| WorktreeID := worktreeID; RepoID := repoID; Name := name;
                                          Port := p; AllocatedAt := now |}]
  | (s', Err e) => e = ErrExhausted name (Min r) (Max r) /\ rows s' = rows s /\ forall q, ~ eligible q
  end.
Proof.
  intros eligible. unfold allocateOne, ListHeldPorts, call. cbn [fst snd].
  set (used := list_to_set _). set (s1 := {| rows := rows s; tick := S (tick s) |}).
  assert (Hused : forall p, (Min r <= p <= Max r)%Z -> (p ∈ used <-> p ∈ map Port (rows s))).
  { intros p Hp. unfold used. rewrite elem_of_list_to_set, !list_elem_of_fmap.
    setoid_rewrite elem_of_filterb. split; [naive_solver|]. intros (row & -> & Hrow). exists row.
    split_and!; [done| |done]. apply andb_true_iff. split; apply Z.leb_le; lia. }
  assert (Hgen : forall n lo, (Min r <= lo)%Z -> (lo + Z.of_nat n = Z.max lo (Max r + 1))%Z ->
    (forall q, eligible q -> (lo <= q)%Z) ->
    match try_ports (fun _ rs => rs) (fun _ => false) (fun _ => bindable) (fun _ _ => true) clock
            repoID worktreeID name used (Min r) (Max r) (seqZ lo (Z.of_nat n)) s1 with
    | (s', Ok (p, reused)) =>
        reused = false /\ eligible p /\ (forall q, eligible q -> (p <= q)%Z) /\
        exists now, rows s' = rows s ++ [{| WorktreeID := worktreeID; RepoID := repoID; Name := name;
                                            Port := p; AllocatedAt := now |}]
    | (s', Err e) => e = ErrExhausted name (Min r) (Max r) /\ rows s' = rows s /\ forall q, ~ eligible q
    end).
  { induction n as [|n IH]; intros lo Hlo Hn Hall.
    - simpl. split_and!; [done..|]. intros q Hq. specialize (Hall q Hq). destruct Hq as [? _]. lia.
    - rewrite seqZ_cons by lia. rewrite <- Nat2Z.inj_pred by lia. cbn [pred try_ports].
      assert (Hnext : ~ eligible lo -> forall q, eligible q -> (Z.succ lo <= q)%Z).
      { intros Hno q Hq. specialize (Hall q Hq). assert (q <> lo) by (by intros ->). lia. }
      assert (Hin : (Min r <= lo <= Max r)%Z) by lia.
      case_bool_decide as Hu.
      { apply IH; [lia|lia|]. apply Hnext. intros (_ & Hno & _). by apply Hno, Hused. }
      destruct (bindable lo) eqn:Eb; cbn [negb].
      2: { apply IH; [lia|lia|]. apply Hnext. intros (_ & _ & ?). congruence. }
      unfold AllocateWorktreePort, bad_args, call, insert.
      rewrite (proj2 (Z.leb_gt _ _) Hrepo), (proj2 (Z.leb_gt _ _) Hwt), (proj2 (String.eqb_neq _ _) Hname),
        (proj2 (Z.eqb_neq lo 0)) by lia. cbn [orb rows s1].
      rewrite (proj2 (unique_conflict_false worktreeID name lo (rows s))).
      2: { split; [by rewrite <- Hused|]. by apply slot_port_None. }
      cbn [negb]. split_and!; [done| |done|by eexists]. split_and!; [lia|lia|by rewrite <- Hused|done]. }
  unfold candidates. destruct (Z.le_gt_cases (Min r) (Max r + 1)) as [Hle|Hgt].
  - rewrite <- (Z2Nat.id (Max r - Min r + 1)) by lia. apply Hgen; [lia|lia|]. intros q [? _]. lia.
  - rewrite seqZ_nil by lia. apply (Hgen 0%nat (Min r)); [lia|lia|]. intros q [? _]. lia.
Qed.

(** ** Witnesses *)
Definition sample_ports : gmap string PortRange :=
  {[ "octane" := {| Min := 8000; Max := 8002 |}; "vite" := {| Min := 8001; Max := 8002 |} ]}.
Definition sample_rows : Rows :=
  [{| WorktreeID := 9; RepoID := 1; Name := "octane"; Port := 8000; AllocatedAt := 1 |}].
Definition sample_sys : Sys := {| rows := sample_rows; tick := 0 |}.

(** the range of "vite" is used up when another port of it cannot be bound *)
Definition run_sample (bindable : Z -> bool) : Sys * res error (list Allocation) :=
  Allocate (fun _ rs => rs) (fun _ => false) (fun _ => bindable) (fun _ _ => true) (fun _ => 5%Z)
    sample_ports 1 2 sample_sys.

Example run_sample_ok : (run_sample (fun _ => true)).2 =
  Ok [{| slot := "octane"; port := 8001 |}; {| slot := "vite"; port := 8002 |}].
Proof. vm_compute. reflexivity. Qed.

Lemma sample_valid : valid_ports sample_ports.
Proof.
  intros name r Hr. unfold sample_ports in Hr.
  apply lookup_insert_Some in Hr as [[<- <-]|[_ Hr]]; [by split_and!|].
  apply lookup_singleton_Some in Hr as [<- <-]. by split_and!.
Qed.

Lemma sample_wf : ports_wf sample_rows.
Proof. split; simpl; [apply NoDup_singleton..|]. apply Forall_singleton. simpl. split_and!; [lia..|done]. Qed.

(** the range of "vite" runs out after "octane" was allocated *)
Definition run_short : Sys * res error (list Allocation) := run_sample (fun p => negb (Z.eqb p 8002)).

Lemma Allocate_outcome_witness :
  run_short.2 = Err (AllocateFailed "vite" (ErrExhausted "vite" 8001 8002) []) /\
  wt_rows 2 (rows run_short.1) = [] /\
  has_slot 2 "vite" 8002 (rows (run_sample (fun _ => true)).1).
Proof.
  assert (E : run_short = (run_short.1, Err (AllocateFailed "vite" (ErrExhausted "vite" 8001 8002) []))) by (vm_compute; reflexivity).
  split; [vm_compute; reflexivity|]. split.
  - refine (proj2 (proj2 (Allocate_outcome (fun _ rs => rs) (fun _ => false) (fun _ p => negb (Z.eqb p 8002)) (fun _ _ => true)
      (fun _ => 5%Z) sample_ports 1 2 sample_sys _ _ (fun _ _ H => H) (fun _ _ => eq_refl) sample_valid sample_wf E)) _). discriminate.
  - pose proof (Allocate_outcome (fun _ rs => rs) (fun _ => false) (fun _ _ => true) (fun _ _ => true) (fun _ => 5%Z)
      sample_ports 1 2 sample_sys (run_sample (fun _ => true)).1 (Ok [{| slot := "octane"; port := 8001 |}; {| slot := "vite"; port := 8002 |}])
      (fun _ _ H => H) (fun _ _ => eq_refl) sample_valid sample_wf) as H.
    refine (proj1 (proj1 (proj2 (proj2 (proj2 (H _)))) {| slot := "vite"; port := 8002 |} _)); [vm_compute; reflexivity|right; left].
Defined.

Lemma allocateOne_lowest_witness :
  let out := allocateOne (fun _ rs => rs) (fun _ => false) (fun _ _ => true) (fun _ _ => true) (fun _ => 5%Z)
    1 2 "octane" {| Min := 8000; Max := 8002 |} sample_sys in
  out.2 = Ok (8001%Z, false) /\ exists now, length (rows out.1) = 2%nat /\ now = 5%Z.
Proof.
  intros out. pose proof (allocateOne_lowest (fun _ => true) (fun _ => 5%Z) 1 2 "octane" {| Min := 8000; Max := 8002 |}
    sample_sys ltac:(lia) ltac:(lia) ltac:(discriminate) ltac:(simpl; lia) eq_refl) as H.
  change (allocateOne (fun _ rs => rs) (fun _ => false) (fun _ _ => true) (fun _ _ => true) (fun _ => 5%Z)
    1 2 "octane" {| Min := 8000; Max := 8002 |} sample_sys) with out in H.
  destruct out as [s' x] eqn:E. unfold out in E. vm_compute in E. simplify_eq.
  split; [reflexivity|]. exists 5%Z. split; reflexivity.
Defined.
