(* ===== verification/BranchStore.v ===== *)
(** * The tables behind branch-scoped databases

    [internal/store/active_branch.go] (which branch's data an active
    namespace holds), [branch_durables.go] (the durable copies),
    [branch_migrated.go] and [template_built.go] (the fingerprints that skip a
    migrate or a restore).  A table keyed by its columns is a map. *)
From stdpp Require Import base strings list sets gmap sorting.
From Stdlib Require Import ZArith Lia.
From S2P Require Import Prelude GoStrings Engine.

(** a row of [active_branch_db]; the key is (worktree, db_key) *)
Record Marker := {
  mRepoID : Z;
  mBranch : string;
  mEngine : string;
  mClean : bool;
  mWatermark : string
}.

Record BranchDurableRow := {
  dRepoID : Z;
  dWorktreeID : Z;       (* 0 for NULL *)
  dEngine : string;
  dDBKey : string;
  dBranch : string;
  dDurableName : string;
  dCreatedAt : Z;
  dLastUsedAt : Z
}.

#[export] Instance BranchDurableRow_eq_dec : EqDecision BranchDurableRow.
Proof. solve_decision. Defined.

Record Tables := {
  active_branch_db : gmap (Z * string) Marker;
  branch_durables : list BranchDurableRow;
  branch_db_migrated : gmap (Z * string * string) string;
  template_db_built : gmap (Z * string * string * string) string
}.

Definition with_active (m : gmap (Z * string) Marker) (t : Tables) : Tables :=
  {| active_branch_db := m; branch_durables := branch_durables t;
     branch_db_migrated := branch_db_migrated t; template_db_built := template_db_built t |}.
Definition with_durables (l : list BranchDurableRow) (t : Tables) : Tables :=
  {| active_branch_db := active_branch_db t; branch_durables := l;
     branch_db_migrated := branch_db_migrated t; template_db_built := template_db_built t |}.
Definition with_migrated (m : gmap (Z * string * string) string) (t : Tables) : Tables :=
  {| active_branch_db := active_branch_db t; branch_durables := branch_durables t;
     branch_db_migrated := m; template_db_built := template_db_built t |}.
Definition with_built (m : gmap (Z * string * string * string) string) (t : Tables) : Tables :=
  {| active_branch_db := active_branch_db t; branch_durables := branch_durables t;
     branch_db_migrated := branch_db_migrated t; template_db_built := m |}.

(** ** [active_branch.go] *)
Definition key_order (a b : Z * string * Marker) : Prop := String.le a.1.2 b.1.2.

#[export] Instance key_order_dec : RelDecision key_order.
Proof. intros a b. unfold key_order. apply _. Defined.

Definition ListActiveBranches (worktreeID : Z) (t : Tables) : list (string * string * string) :=
  if Z.leb worktreeID 0 then []
  else map (fun kv => (kv.1.2, mBranch kv.2, mEngine kv.2))
         (stable_sort key_order
            (List.filter (fun kv => Z.eqb kv.1.1 worktreeID) (map_to_list (active_branch_db t)))).

Definition GetActiveBranch (worktreeID : Z) (dbKey : string) (t : Tables) : option string :=
  mBranch <$> active_branch_db t !! (worktreeID, dbKey).

Definition SetActiveBranch (repoID worktreeID : Z) (dbKey branch engine : string) (t : Tables) : Tables :=
  let m := match active_branch_db t !! (worktreeID, dbKey) with
           | None => {| mRepoID := repoID; mBranch := branch; mEngine := engine; mClean := false; mWatermark := "" |}
           | Some old => {| mRepoID := mRepoID old; mBranch := branch; mEngine := engine;
                            mClean := false; mWatermark := "" |}
           end in
  with_active (<[(worktreeID, dbKey) := m]> (active_branch_db t)) t.

Definition SetActiveBranchClean (repoID worktreeID : Z) (dbKey branch engine : string) (clean : bool)
    (watermark : string) (t : Tables) : Tables :=
  let wm := if clean then watermark else "" in
  let m := match active_branch_db t !! (worktreeID, dbKey) with
           | None => {| mRepoID := repoID; mBranch := branch; mEngine := engine; mClean := clean; mWatermark := wm |}
           | Some old => {| mRepoID := mRepoID old; mBranch := branch; mEngine := engine;
                            mClean := clean; mWatermark := wm |}
           end in
  with_active (<[(worktreeID, dbKey) := m]> (active_branch_db t)) t.

Definition GetActiveBranchClean (worktreeID : Z) (dbKey : string) (t : Tables) : option (bool * string) :=
  (fun m => (mClean m, mWatermark m)) <$> active_branch_db t !! (worktreeID, dbKey).

Definition ClearActiveBranch (worktreeID : Z) (dbKey : string) (t : Tables) : Tables :=
  with_active (delete (worktreeID, dbKey) (active_branch_db t)) t.

Definition ClearActiveBranchesForWorktree (worktreeID : Z) (t : Tables) : Tables :=
  with_active (filter (fun kv => kv.1.1 <> worktreeID) (active_branch_db t)) t.

(** ** [branch_durables.go] *)
Definition same_durable (repoID : Z) (name : string) (r : BranchDurableRow) : bool :=
  Z.eqb (dRepoID r) repoID && String.eqb (dDurableName r) name.

Definition RecordBranchDurable (now : Z) (r : BranchDurableRow) (t : Tables) : Tables :=
  let new := {| dRepoID := dRepoID r; dWorktreeID := if Z.ltb 0 (dWorktreeID r) then dWorktreeID r else 0;
                dEngine := Engine.canonical_label (dEngine r); dDBKey := dDBKey r; dBranch := dBranch r;
                dDurableName := dDurableName r;
                dCreatedAt := if Z.eqb (dCreatedAt r) 0 then now else dCreatedAt r; dLastUsedAt := now |} in
  let rows := branch_durables t in
  with_durables
    (if existsb (same_durable (dRepoID r) (dDurableName r)) rows
     then map (fun old => if same_durable (dRepoID r) (dDurableName r) old
                then {| dRepoID := dRepoID old; dWorktreeID := dWorktreeID new; dEngine := dEngine new;
                        dDBKey := dDBKey new; dBranch := dBranch new; dDurableName := dDurableName old;
                        dCreatedAt := dCreatedAt old; dLastUsedAt := dLastUsedAt new |}
                else old) rows
     else rows ++ [new]) t.

Definition DeleteBranchDurable (repoID : Z) (name : string) (t : Tables) : Tables :=
  with_durables (List.filter (fun r => negb (same_durable repoID name r)) (branch_durables t)) t.

Definition ListAllDurableNamesByEngine (eng : string) (t : Tables) : gset string :=
  list_to_set (map dDurableName
    (List.filter (fun r => String.eqb (dEngine r) (Engine.canonical_label eng)) (branch_durables t))).

(** [ORDER BY branch, durable_name] *)
Definition durable_order (a b : BranchDurableRow) : Prop :=
  if String.eqb (dBranch a) (dBranch b) then String.le (dDurableName a) (dDurableName b)
  else String.le (dBranch a) (dBranch b).

#[export] Instance durable_order_dec : RelDecision durable_order.
Proof. intros a b. unfold durable_order. destruct (String.eqb _ _); apply _. Defined.

Definition ListBranchDurables (repoID : Z) (t : Tables) : list BranchDurableRow :=
  if Z.eqb repoID 0 then []
  else stable_sort durable_order (List.filter (fun r => Z.eqb (dRepoID r) repoID) (branch_durables t)).

Definition TouchBranchDurable (now repoID : Z) (name : string) (t : Tables) : Tables :=
  with_durables (map (fun r => if same_durable repoID name r
    then {| dRepoID := dRepoID r; dWorktreeID := dWorktreeID r; dEngine := dEngine r; dDBKey := dDBKey r;
            dBranch := dBranch r; dDurableName := dDurableName r; dCreatedAt := dCreatedAt r; dLastUsedAt := now |}
    else r) (branch_durables t)) t.

(** an active namespace currently mirrors this durable *)
Definition mirrored (t : Tables) (r : BranchDurableRow) : bool :=
  existsb (fun kv => Z.eqb (mRepoID kv.2) (dRepoID r) && String.eqb kv.1.2 (dDBKey r) &&
                     String.eqb (mBranch kv.2) (dBranch r)) (map_to_list (active_branch_db t)).

(** [ORDER BY last_used_at, durable_name] *)
Definition unused_order (a b : BranchDurableRow) : Prop :=
  (dLastUsedAt a < dLastUsedAt b)%Z \/
  (dLastUsedAt a = dLastUsedAt b /\ String.le (dDurableName a) (dDurableName b)).

#[export] Instance unused_order_dec : RelDecision unused_order.
Proof. intros a b. unfold unused_order. apply _. Defined.

Definition ListBranchDurablesUnusedSince (repoID cutoffMs : Z) (t : Tables) : list BranchDurableRow :=
  stable_sort unused_order
    (List.filter (fun r => Z.eqb (dRepoID r) repoID && Z.ltb (dLastUsedAt r) cutoffMs && negb (mirrored t r))
       (branch_durables t)).

(** ** [branch_migrated.go] *)
Definition GetBranchMigrated (worktreeID : Z) (dbKey branch : string) (t : Tables) : option string :=
  branch_db_migrated t !! (worktreeID, dbKey, branch).

Definition SetBranchMigrated (worktreeID : Z) (dbKey branch fingerprint : string) (t : Tables) : Tables :=
  with_migrated (<[(worktreeID, dbKey, branch) := fingerprint]> (branch_db_migrated t)) t.

Definition ClearBranchMigratedForKey (worktreeID : Z) (dbKey : string) (t : Tables) : Tables :=
  with_migrated (filter (fun kv => ~ (kv.1.1.1 = worktreeID /\ kv.1.1.2 = dbKey)) (branch_db_migrated t)) t.

Definition ClearBranchMigratedForWorktree (worktreeID : Z) (t : Tables) : Tables :=
  with_migrated (filter (fun kv => kv.1.1.1 <> worktreeID) (branch_db_migrated t)) t.

(** ** [template_built.go] *)
Definition GetTemplateBuilt (worktreeID : Z) (dbKey engine connection : string) (t : Tables) : option string :=
  template_db_built t !! (worktreeID, dbKey, engine, connection).

Definition SetTemplateBuilt (worktreeID : Z) (dbKey engine connection fingerprint : string) (t : Tables) : Tables :=
  with_built (<[(worktreeID, dbKey, engine, connection) := fingerprint]> (template_db_built t)) t.

Definition ClearTemplateBuiltForKey (worktreeID : Z) (dbKey : string) (t : Tables) : Tables :=
  with_built (filter (fun kv => ~ (kv.1.1.1.1 = worktreeID /\ kv.1.1.1.2 = dbKey)) (template_db_built t)) t.

Definition ClearTemplateBuiltForWorktree (worktreeID : Z) (t : Tables) : Tables :=
  with_built (filter (fun kv => kv.1.1.1.1 <> worktreeID) (template_db_built t)) t.

(** ** Lemmas *)
Lemma active_SetActiveBranch repo wt k b e t k' :
  active_branch_db (SetActiveBranch repo wt k b e t) !! (wt, k') =
  if decide (k = k') then
    Some {| mRepoID := default repo (mRepoID <$> active_branch_db t !! (wt, k)); mBranch := b; mEngine := e;
            mClean := false; mWatermark := "" |}
  else active_branch_db t !! (wt, k').
Proof.
  unfold SetActiveBranch. simpl. case_decide as E.
  - subst. rewrite lookup_insert_eq. by destruct (active_branch_db t !! (wt, k')).
  - rewrite lookup_insert_ne by congruence. done.
Qed.

Lemma active_SetActiveBranchClean repo wt k b e c wm t k' :
  active_branch_db (SetActiveBranchClean repo wt k b e c wm t) !! (wt, k') =
  if decide (k = k') then
    Some {| mRepoID := default repo (mRepoID <$> active_branch_db t !! (wt, k)); mBranch := b; mEngine := e;
            mClean := c; mWatermark := if c then wm else "" |}
  else active_branch_db t !! (wt, k').
Proof.
  unfold SetActiveBranchClean. simpl. case_decide as E.
  - subst. rewrite lookup_insert_eq. by destruct (active_branch_db t !! (wt, k')).
  - rewrite lookup_insert_ne by congruence. done.
Qed.

(** the row of a recorded copy *)
Lemma RecordBranchDurable_row now r t :
  exists row, row ∈ branch_durables (RecordBranchDurable now r t) /\ dRepoID row = dRepoID r /\
    dDurableName row = dDurableName r /\ dBranch row = dBranch r /\ dDBKey row = dDBKey r /\
    dEngine row = Engine.canonical_label (dEngine r) /\ dLastUsedAt row = now.
Proof.
  unfold RecordBranchDurable. simpl. destruct (existsb _ _) eqn:Ex.
  - apply existsb_exists in Ex as (old & Hin & Hs). unfold same_durable in Hs.
    apply andb_true_iff in Hs as [Hr%Z.eqb_eq Hn%String.eqb_eq].
    eexists. split.
    + apply list_elem_of_fmap. exists old. split; [|by apply list_elem_of_In].
      unfold same_durable. rewrite Hr, Hn, Z.eqb_refl, String.eqb_refl. simpl. reflexivity.
    + simpl. auto 10.
  - eexists. split; [apply elem_of_app; right; by apply list_elem_of_singleton|]. simpl. auto 10.
Qed.

Lemma DeleteBranchDurable_gone repo name t row :
  row ∈ branch_durables (DeleteBranchDurable repo name t) -> same_durable repo name row = false.
Proof.
  unfold DeleteBranchDurable. simpl. intros H. apply list_elem_of_In, filter_In in H as [_ H].
  by apply negb_true_iff in H.
Qed.
