(* ===== verification/BranchSwap.v ===== *)
(** * The swap lifecycle of branch-scoped databases

    [internal/prepare/branchstate.go] and the retry wrapper of
    [internal/prepare/retry.go].  A branch-scoped database lives in one
    *active* namespace of its worktree; when the checked-out branch changes,
    the active namespace is captured into the *durable* copy of the old branch
    and filled with the new branch's data.

    The program is written in a small monad over the engine, the tables of
    [BranchStore] and a clock of calls.  Every call may fail, the process may
    die at any call, and between two calls the application may write. *)
From stdpp Require Import base strings list sets gmap sorting.
From Stdlib Require Import ZArith Lia.
From S2P Require Import Prelude GoStrings Engine Slug Template SnapshotKey BranchStore.

(** the classes of errors the code tells apart *)
Inductive err :=
| Transient        (* [isTransientConn] *)
| Cancelled        (* [isCancellation] *)
| CommandNotFound  (* [runner.IsCommandNotFound] *)
| StoreFault
| VerifiedEmpty
| Other.

#[export] Instance err_eq_dec : EqDecision err.
Proof. solve_decision. Defined.

(** ** [nsDriver] and [rowSampler] *)

(** [contents e ns] is what namespace [ns] holds in engine state [e].  Every
    operation takes the number of the call, so that it may fail at one time
    and not at another. *)
Class NsDriver (E Data : Type) := {
  contents : E -> string -> option Data;
  Exists : nat -> string -> E -> res err bool;
  Capture : nat -> string -> string -> E -> E * res err unit;
  Restore : nat -> string -> string -> E -> E * res err unit;
  RestoreParent : nat -> string -> string -> list string -> E -> E * res err unit;
  Empty : nat -> string -> E -> E * res err unit;
  Drop : nat -> string -> E -> E * res err unit;
  DropDurable : nat -> string -> E -> E * res err unit;
  Watermark : nat -> string -> E -> res err string;
  has_sampler : bool;
  RowCountSample : nat -> string -> E -> res err (gmap string Z);
  RowCountsFor : nat -> string -> list string -> E -> res err (gmap string Z)
}.

(** ** Names *)
Inductive bsScope := scopeName | scopePrefix.

Definition branchScopeFor (eng : string) : bsScope * string * bool :=
  match Engine.Canonical eng with
  | None => (scopeName, eng, false)
  | Some fam => match Engine.Scope fam with
                | Engine.ScopePrefix => (scopePrefix, Engine.family_label fam, true)
                | Engine.ScopeName => (scopeName, Engine.family_label fam, true)
                end
  end.

Section Names.
(** the 32-byte digest of package blake3 *)
Variable blake3 : string -> string.

Definition bsHash (s : string) : string := hexEncode (str_take 8 (blake3 s)).

Definition durable (scope : bsScope) (engine active branch : string) : string :=
  let h := bsHash (active +:+ "|" +:+ branch) in
  match scope with
  | scopePrefix =>
      if String.eqb engine "redis" then "_tmbs:" +:+ h +:+ ":"
      else if String.eqb engine "s3" then "tmbs-" +:+ h
      else "tmbs_" +:+ h +:+ "_"
  | scopeName => "_tmbs_" +:+ h
  end.
End Names.

(** ** The monad *)
Inductive outcome (A : Type) :=
| Done (a : A)
| Fail (e : err)
| Crashed.
Arguments Done {A} a.
Arguments Fail {A} e.
Arguments Crashed {A}.

Definition of_res {A} (r : res err A) : outcome A :=
  match r with Ok a => Done a | Err e => Fail e end.

(** the decision [runBranchScoped] reports; [Resume] is the suffix ":resume" *)
Inductive how := HResume | HParent | HParentSnapshot | HParentMain | HDump | HEmpty | HBranchPoint.
Inductive decision :=
| Noop | Adopt | AdoptAs (label : string) | Seed (h : how) | Reseed (h : how) | Swap (h : how).

#[export] Instance how_eq_dec : EqDecision how.
Proof. solve_decision. Defined.
#[export] Instance decision_eq_dec : EqDecision decision.
Proof. solve_decision. Defined.

Definition how_text (h : how) : string :=
  match h with
  | HResume => "resume" | HParent => "parent" | HParentSnapshot => "parent-snapshot"
  | HParentMain => "parent-main" | HDump => "dump" | HEmpty => "empty" | HBranchPoint => "branch-point"
  end.

Definition decision_text (d : decision) : string :=
  match d with
  | Noop => "noop" | Adopt => "adopt" | AdoptAs l => "adopt:" +:+ l
  | Seed h => "seed:" +:+ how_text h | Reseed h => "reseed:" +:+ how_text h | Swap h => "swap:" +:+ how_text h
  end.

(** [strings.HasSuffix(decision, ":resume")] *)
Definition isResume (d : decision) : bool := has_suffix ":resume" (decision_text d).

Definition migrateNeeded (builtEmpty hasPrev : bool) (prevFP curFP : string) : bool :=
  if builtEmpty || String.eqb curFP "" || negb hasPrev then true else negb (String.eqb prevFP curFP).

Definition captureSkippable (prevClean durableExists : bool) (prevWM curWM : string) : bool :=
  prevClean && durableExists && negb (String.eqb curWM "") && String.eqb curWM prevWM.

Definition sampleHasRows (sample : gmap string Z) : bool :=
  existsb (fun kv => Z.ltb 0 kv.2) (map_to_list sample).

(** the tables of the sample that hold rows *)
Definition sampled_tables (sample : gmap string Z) : list string :=
  map fst (List.filter (fun kv => Z.ltb 0 kv.2) (map_to_list sample)).

Definition isTransientConn (e : err) : bool := bool_decide (e = Transient).
Definition isCancellation (e : err) : bool := bool_decide (e = Cancelled).

(** ** [branchScopedArgs] *)

(** the templates of [config.DatabaseConfig] *)
Record DatabaseConfig := { NameTemplate : string; KeyPrefix : string }.

(** a row of [ListWorktreesForRepo] *)
Record WorktreeRow := { wtPath : string; wtIsMain : bool; wtDeleted : bool }.

Record branchScopedArgs := {
  d_ : DatabaseConfig;
  mainD : option DatabaseConfig;   (* [mainCfg.Databases[dbIdx]], None past its end *)
  has_Migrate : bool;              (* [d.Migrate != nil] *)
  has_Seed : bool;                 (* [d.Seed != nil] *)
  has_loadDump : bool;             (* [loadDump != nil] *)
  worktreePath : string;
  repoID : Z;
  worktreeID : Z;
  migrateFP : string;
  engine : string;                 (* [eng.engine] *)
  scope : bsScope                  (* [eng.scope] *)
}.

(** what the program asks of git, of the worktree tables and of the file
    system; each answer may depend on the call *)
Record Oracles := {
  o_WorktreeBranch : nat -> res err string;
  o_parentDB : nat -> string -> res err (option string);
  o_mainFallbackDB : nat -> string -> res err (option string);
  o_LookupMainWorktree : nat -> res err (option (Z * string));
  o_defaultBranch : nat -> string -> string;
  o_baseBranchName : nat -> string -> res err string;
  o_ListWorktreesForRepo : nat -> res err (list WorktreeRow);
  o_dumpsReady : nat -> res err (list string)
}.

(** the surroundings of a run: what happens to the engine between two calls,
    and the faults *)
Record Surroundings (E : Type) := {
  env : nat -> E -> E;
  crash : nat -> bool;          (* the process dies after this call *)
  store_fault : nat -> bool;
  cancelled : nat -> bool;      (* the context is cancelled *)
  now : nat -> Z
}.
Arguments env {E} _ _ _.
Arguments crash {E} _ _.
Arguments store_fault {E} _ _.
Arguments cancelled {E} _ _.
Arguments now {E} _ _.

(** the user's commands and dump files *)
Record Commands (E : Type) := {
  migrate_cmd : nat -> string -> E -> E * res err unit;
  seed_cmd : nat -> string -> E -> E * res err unit;
  loadDump_cmd : nat -> string -> string -> E -> E * res err unit
}.
Arguments migrate_cmd {E} _ _ _ _.
Arguments seed_cmd {E} _ _ _ _.
Arguments loadDump_cmd {E} _ _ _ _ _.

Record World (E : Type) := { eng : E; st : Tables; tick : nat }.
Arguments eng {E} _.
Arguments st {E} _.
Arguments tick {E} _.
Arguments Build_World {E} _ _ _.

Definition M (E A : Type) : Type := World E -> World E * outcome A.

#[export] Instance M_ret {E} : MRet (M E) := fun A a w => (w, Done a).
#[export] Instance M_bind {E} : MBind (M E) := fun A B f m w =>
  match m w with
  | (w', Done a) => f a w'
  | (w', Fail e) => (w', Fail e)
  | (w', Crashed) => (w', Crashed)
  end.

Definition fail {E A} (e : err) : M E A := fun w => (w, Fail e).

(** an error as a value; a crash is not caught *)
Definition attempt {E A} (m : M E A) : M E (res err A) := fun w =>
  match m w with
  | (w', Done a) => (w', Done (Ok a))
  | (w', Fail e) => (w', Done (Err e))
  | (w', Crashed) => (w', Crashed)
  end.

(** what Go's [ok, _ := drv.Exists(...)] binds *)
Definition ok_or_false (r : res err bool) : bool := match r with Ok b => b | Err _ => false end.

Section Program.
Context {E Data : Type} `{ND : NsDriver E Data}.
Variable blake3 : string -> string.
Variable suffix : string.
Variable getwd : option string.
Variable window : redis_range.
Variable X : Surroundings E.
Variable C : Commands E.
Variable Q : Oracles.
Variable a : branchScopedArgs.

(** a call to the engine, to the store, and a question *)
Definition engine_op {A} (f : nat -> E -> E * res err A) : M E A := fun w =>
  let n := tick w in
  let r := f n (env X n (eng w)) in
  (Build_World r.1 (st w) (S n), if crash X n then Crashed else of_res r.2).

Definition engine_read {A} (f : nat -> E -> res err A) : M E A := engine_op (fun n e => (e, f n e)).

Definition store_op (f : Z -> Tables -> Tables) : M E unit := fun w =>
  let n := tick w in
  let t := if store_fault X n then st w else f (now X n) (st w) in
  (Build_World (env X n (eng w)) t (S n),
   if crash X n then Crashed else if store_fault X n then Fail StoreFault else Done tt).

Definition store_read {A} (f : Tables -> A) : M E A := fun w =>
  let n := tick w in
  (Build_World (env X n (eng w)) (st w) (S n),
   if crash X n then Crashed else if store_fault X n then Fail StoreFault else Done (f (st w))).

Definition ask {A} (f : nat -> res err A) : M E A := fun w =>
  let n := tick w in
  (Build_World (env X n (eng w)) (st w) (S n), if crash X n then Crashed else of_res (f n)).

Definition ctx_Err : M E unit := ask (fun n => if cancelled X n then Err Cancelled else Ok tt).

(** *** [retry.go] *)
Definition transientRetries : nat := 3.

Fixpoint retry_loop (left : nat) (fn : M E unit) : M E unit :=
  _ ← ctx_Err;
  r ← attempt fn;
  match r with
  | Ok _ => mret tt
  | Err e => if isCancellation e || negb (isTransientConn e) then fail e
             else match left with
                  | O => fail e
                  | S left' => _ ← ctx_Err; retry_loop left' fn
                  end
  end.

Definition retryTransient (fn : M E unit) : M E unit := retry_loop transientRetries fn.

Definition captureRetrying (active dur : string) : M E unit :=
  retryTransient (engine_op (fun n => Capture n active dur)).

(** *** Capture with verification *)
Definition sampleRows (ns : string) : M E (option (gmap string Z)) :=
  if has_sampler (E := E) then
    r ← attempt (engine_read (fun n => RowCountSample n ns));
    mret (match r with
          | Ok s => if bool_decide (s = ∅) then None else Some s
          | Err _ => None
          end)
  else mret None.

Definition sampleMissingRows (ns : string) (srcSample : gmap string Z) : M E bool :=
  if has_sampler (E := E) then
    match sampled_tables srcSample with
    | [] => mret false
    | tables =>
        r ← attempt (engine_read (fun n => RowCountsFor n ns tables));
        mret (match r with
              | Ok counts => existsb (fun t => Z.eqb (default 0%Z (counts !! t)) 0) tables
              | Err _ => false
              end)
    end
  else mret false.

(** does the copy [dst] of [src] contradict a sample of [src]? *)
Definition copyLostRows (src dst : string) : M E bool :=
  s ← sampleRows src;
  match s with
  | None => mret false
  | Some sample => if negb (sampleHasRows sample) then mret false else sampleMissingRows dst sample
  end.

Definition captureVerified (active dur : string) : M E unit :=
  _ ← captureRetrying active dur;
  bad ← copyLostRows active dur;
  if (bad : bool) then _ ← attempt (engine_op (fun n => DropDurable n dur)); fail VerifiedEmpty
  else mret tt.

Definition durableName (active branch : string) : string := durable blake3 (scope a) (engine a) active branch.

Definition recordDurable (active branch dur : string) : M E unit :=
  store_op (fun t => RecordBranchDurable t
    {| dRepoID := repoID a; dWorktreeID := worktreeID a; dEngine := engine a; dDBKey := active;
       dBranch := branch; dDurableName := dur; dCreatedAt := 0; dLastUsedAt := 0 |}).

Definition captureDurable (active branch : string) : M E unit :=
  let dur := durableName active branch in
  _ ← captureVerified active dur;
  recordDurable active branch dur.

(** *** Names of the active namespace *)
Definition activeNamespace (d : DatabaseConfig) (sc : bsScope) (path : string) : option string :=
  let tmpl := match sc with scopePrefix => KeyPrefix d | scopeName => NameTemplate d end in
  match Template.Render tmpl (FromSlug window (Slug.For blake3 suffix getwd path "")) with
  | Ok s => Some s
  | Err _ => None
  end.

(** the active namespace of another worktree *)
Definition activeOf (wt : WorktreeRow) : option string :=
  let d := if wtIsMain wt then default (d_ a) (mainD a) else d_ a in
  activeNamespace d (scope a) (wtPath wt).

(** *** [fill] and its sources *)
Definition exists_quiet (ns : string) : M E bool :=
  r ← attempt (engine_read (fun n => Exists n ns)); mret (ok_or_false r).

(** the prefixes [parentSourceKeep] excludes; the empty list is its nil *)
Definition parentSourceKeep (parent : string) : M E (list string) :=
  match scope a with
  | scopeName => mret []
  | scopePrefix =>
      wts ← ask (o_ListWorktreesForRepo Q);
      mret (omap (fun wt => if wtDeleted wt then None
                            else p ← activeOf wt;
                                 if String.eqb p parent || negb (has_prefix parent p) then None else Some p) wts)
  end.

Definition seedParentVerified (parent active : string) : M E unit :=
  keep ← parentSourceKeep parent;
  _ ← retryTransient (engine_op (fun n => RestoreParent n parent active keep));
  bad ← copyLostRows parent active;
  if (bad : bool) then fail VerifiedEmpty else mret tt.

Definition resumeDurableVerified (active branch : string) : M E bool :=
  let dur := durableName active branch in
  ex ← exists_quiet dur;
  if negb ex then mret false else
  r ← attempt (retryTransient (engine_op (fun n => Restore n dur active)));
  if negb (is_ok r) then mret false else
  bad ← copyLostRows dur active;
  if negb bad then mret true else
  _ ← attempt (engine_op (fun n => DropDurable n dur));
  _ ← store_op (fun _ => DeleteBranchDurable (repoID a) dur);
  mret false.

(** one row of the scan: [best, bestUsed] *)
Definition base_step (base : string) (candidates : list string) (m : M E (string * Z)) (row : BranchDurableRow)
    : M E (string * Z) :=
  best ← m;
  if negb (String.eqb (dEngine row) (engine a)) || negb (String.eqb (dBranch row) base) then mret best
  else if negb (bool_decide (dDurableName row ∈ candidates)) then mret best
  else if Z.leb (dLastUsedAt row) best.2 then mret best
  else ex ← exists_quiet (dDurableName row);
       if negb ex then mret best else mret (dDurableName row, dLastUsedAt row).

Definition baseBranchDurable (branch : string) : M E (option string) :=
  base ← ask (fun n => o_baseBranchName Q n branch);
  if String.eqb base "" || String.eqb base branch then mret None else
  rows ← ask (o_ListWorktreesForRepo Q);
  let candidates := omap (fun wt => (fun act => durableName act base) <$> activeOf wt) rows in
  if bool_decide (candidates = []) then mret None else
  durs ← store_read (ListBranchDurables (repoID a));
  best ← foldl (base_step base candidates) (mret ("", (-1)%Z)) durs;
  mret (if String.eqb best.1 "" then None else Some best.1).

(** a live namespace named by [m], if it may and can be copied *)
Definition live_source (active : string) (m : M E (option string)) : M E (option string) :=
  p ← m;
  match p with
  | None => mret None
  | Some p => if String.eqb p "" || String.eqb p active then mret None
              else pe ← exists_quiet p; mret (if (pe : bool) then Some p else None)
  end.

(** the sources after this branch's own durable copy *)
Definition fill_from_others (active branch : string) : M E (option how) :=
  parent ← live_source active (ask (fun n => o_parentDB Q n branch));
  match parent with
  | Some p => _ ← seedParentVerified p active; mret (Some HParent)
  | None =>
      snap ← baseBranchDurable branch;
      match snap with
      | Some snap =>
          _ ← engine_op (fun n => Restore n snap active);
          _ ← store_op (fun t => TouchBranchDurable t (repoID a) snap);
          mret (Some HParentSnapshot)
      | None =>
          mainDB ← live_source active (ask (fun n => o_mainFallbackDB Q n branch));
          match mainDB with
          | Some p => _ ← seedParentVerified p active; mret (Some HParentMain)
          | None => mret None
          end
      end
  end.

Definition fill (active branch : string) (useDurable : bool) : M E (option how) :=
  resumed ← (if useDurable then resumeDurableVerified active branch else mret false);
  if (resumed : bool) then mret (Some HResume) else fill_from_others active branch.

(** *** The arms of [runBranchScoped] *)
Fixpoint load_dumps (active : string) (dumps : list string) : M E unit :=
  match dumps with
  | [] => mret tt
  | dr :: rest => _ ← engine_op (fun n => loadDump_cmd C n active dr); load_dumps active rest
  end.

Definition seedFreshFrom (active branch : string) (useDurable : bool) : M E (bool * decision) :=
  filled ← fill active branch useDurable;
  match filled with
  | Some h => mret (false, Seed h)
  | None =>
      _ ← engine_op (fun n => Empty n active);
      dumps ← ask (o_dumpsReady Q);
      if negb (bool_decide (dumps = [])) && has_loadDump a
      then _ ← load_dumps active dumps; mret (true, Seed HDump)
      else mret (true, Seed HEmpty)
  end.

Definition seedFresh (active branch : string) : M E (bool * decision) := seedFreshFrom active branch true.

Definition adoptBranch (branch : string) : M E string :=
  row ← ask (o_LookupMainWorktree Q);
  match row with
  | None => mret branch
  | Some (id, path) =>
      if negb (Z.eqb id (worktreeID a)) then mret branch
      else def ← ask (fun n => Ok (o_defaultBranch Q n path));
           mret (if String.eqb def "" || String.eqb def branch then branch else def)
  end.

Definition adoptExisting (active branch : string) : M E decision :=
  label ← adoptBranch branch;
  _ ← captureDurable active label;
  mret (if negb (String.eqb label branch) then AdoptAs label else Adopt).

Definition captureRedundant (active old : string) : M E bool :=
  c ← store_read (GetActiveBranchClean (worktreeID a) active);
  match c with
  | None => mret false
  | Some (prevClean, prevWM) =>
      if negb prevClean then mret false else
      let dur := durableName active old in
      r ← attempt (durExists ← engine_read (fun n => Exists n dur);
                   curWM ← engine_read (fun n => Watermark n active);
                   mret (captureSkippable prevClean durExists prevWM curWM));
      mret (ok_or_false r)
  end.

Definition markActive (active branch : string) : M E unit :=
  store_op (fun _ => SetActiveBranch (repoID a) (worktreeID a) active branch (engine a)).

Definition swapBranch (active old branch : string) : M E decision :=
  redundant ← captureRedundant active old;
  _ ← (if (redundant : bool) then mret tt else captureDurable active old);
  _ ← markActive active branch;
  filled ← fill active branch true;
  mret (Swap (default HBranchPoint filled)).

(** *** [migrateStep] *)
Definition migrate (active : string) : M E unit := engine_op (fun n => migrate_cmd C n active).

(** ["re" + seeded] *)
Definition re_seeded (d : decision) : decision := match d with Seed h => Reseed h | _ => d end.

Definition reseedPastDurable (active branch : string) (cause : err) : M E (bool * decision) :=
  let dur := durableName active branch in
  r ← attempt (seedFreshFrom active branch false);
  match r with
  | Err _ => fail cause
  | Ok (builtEmpty, seeded) =>
      _ ← migrate active;
      _ ← attempt (engine_op (fun n => DropDurable n dur));
      _ ← store_op (fun _ => DeleteBranchDurable (repoID a) dur);
      mret (builtEmpty, re_seeded seeded)
  end.

Definition recordMigrated (active branch : string) : M E unit :=
  if String.eqb (migrateFP a) "" then mret tt
  else _ ← attempt (store_op (fun _ => SetBranchMigrated (worktreeID a) active branch (migrateFP a))); mret tt.

(** (migrated, builtEmpty, decision) *)
Definition migrateStep (active branch : string) (builtEmpty : bool) (d : decision) : M E (bool * bool * decision) :=
  if negb (has_Migrate a) then mret (false, builtEmpty, d) else
  prev ← store_read (GetBranchMigrated (worktreeID a) active branch);
  if negb (migrateNeeded builtEmpty (bool_decide (is_Some prev)) (default "" prev) (migrateFP a))
  then mret (false, builtEmpty, d) else
  r ← attempt (migrate active);
  bd ← match r with
       | Ok _ => mret (builtEmpty, d)
       | Err CommandNotFound => fail CommandNotFound
       | Err e => if negb (isResume d) || isCancellation e || isTransientConn e then fail e
                  else reseedPastDurable active branch e
       end;
  _ ← recordMigrated active branch;
  mret (true, bd.1, bd.2).

(** *** [recordClean] *)
Definition set_clean (active branch : string) (clean : bool) (watermark : string) : M E unit :=
  store_op (fun _ => SetActiveBranchClean (repoID a) (worktreeID a) active branch (engine a) clean watermark).

Definition recordClean (active branch : string) (d : decision) (migrated seeded : bool) : M E unit :=
  if migrated || seeded then set_clean active branch false ""
  else if bool_decide (d = Noop) then
    c ← store_read (GetActiveBranchClean (worktreeID a) active);
    match c with
    | Some (true, prevWM) =>
        w ← attempt (engine_read (fun n => Watermark n active));
        match w with
        | Ok w => if negb (String.eqb w "") && String.eqb w prevWM then set_clean active branch true prevWM
                  else set_clean active branch false ""
        | Err _ => set_clean active branch false ""
        end
    | _ => set_clean active branch false ""
    end
  else if bool_decide (d = Adopt) || isResume d then
    w ← attempt (engine_read (fun n => Watermark n active));
    match w with
    | Ok w => if negb (String.eqb w "") then set_clean active branch true w else set_clean active branch false ""
    | Err _ => set_clean active branch false ""
    end
  else set_clean active branch false "".

(** *** [runBranchScoped] *)
Definition run_arm (active branch : string) : M E (bool * decision) :=
  old ← store_read (GetActiveBranch (worktreeID a) active);
  exists_ ← engine_read (fun n => Exists n active);
  if negb exists_ then
    r ← seedFresh active branch; _ ← markActive active branch; mret r
  else match old with
  | None => d ← adoptExisting active branch; _ ← markActive active branch; mret (false, d)
  | Some old => if negb (String.eqb old branch)
                then d ← swapBranch active old branch; mret (false, d)
                else mret (false, Noop)
  end.

Definition finish_run (active branch : string) (bd : bool * decision) : M E decision :=
  mbd ← migrateStep active branch bd.1 bd.2;
  let '(migrated, builtEmpty, d) := mbd in
  let seeded := has_Seed a && builtEmpty in
  _ ← (if seeded then engine_op (fun n => seed_cmd C n active) else mret tt);
  _ ← recordClean active branch d migrated seeded;
  mret d.

Definition run_in (active branch : string) : M E decision :=
  bd ← run_arm active branch; finish_run active branch bd.

(** a detached checkout has a label too *)
Definition branchLabel (branch : string) : string := if String.eqb branch "" then "_detached" else branch.

Definition runBranchScoped : M E decision :=
  match activeNamespace (d_ a) (scope a) (worktreePath a) with
  | None => fail Other
  | Some active =>
      branch ← ask (o_WorktreeBranch Q);
      run_in active (branchLabel branch)
  end.

(** *** Teardown, reset and save *)
Definition captureBranchScopedOnTeardown (active : string) : M E unit :=
  b ← store_read (GetActiveBranch (worktreeID a) active);
  match b with
  | None => mret tt
  | Some branch =>
      if String.eqb branch "" then mret tt else
      ex ← engine_read (fun n => Exists n active);
      if negb ex then mret tt else
      let dur := durableName active branch in
      _ ← captureVerified active dur;
      recordDurable active branch dur
  end.

Definition clearActiveMarkers (active : string) : M E unit :=
  _ ← store_op (fun _ => ClearBranchMigratedForKey (worktreeID a) active);
  store_op (fun _ => ClearActiveBranch (worktreeID a) active).

Definition teardownActive (active : string) : M E unit :=
  _ ← captureBranchScopedOnTeardown active;
  _ ← engine_op (fun n => Drop n active);
  clearActiveMarkers active.

Definition resetActiveNamespace (active : string) : M E unit :=
  b ← store_read (GetActiveBranch (worktreeID a) active);
  _ ← match b with
      | None => mret tt
      | Some branch =>
          if String.eqb branch "" then mret tt else
          let dur := durableName active branch in
          _ ← attempt (engine_op (fun n => DropDurable n dur));
          store_op (fun _ => DeleteBranchDurable (repoID a) dur)
      end;
  _ ← engine_op (fun n => Drop n active);
  clearActiveMarkers active.

(** [BranchScopedSave]: skipped, or captured into this durable *)
Inductive save := SkipNoMarker | SkipMissing | SkipUnchanged | Saved (branch dur : string).

Definition saveActiveNamespace (active : string) : M E save :=
  b ← store_read (GetActiveBranch (worktreeID a) active);
  match b with
  | None => mret SkipNoMarker
  | Some branch =>
      if String.eqb branch "" then mret SkipNoMarker else
      ex ← engine_read (fun n => Exists n active);
      if negb ex then mret SkipMissing else
      let dur := durableName active branch in
      c ← store_read (GetActiveBranchClean (worktreeID a) active);
      skip ← match c with
             | None => mret false
             | Some (prevClean, prevWM) =>
                 durExists ← exists_quiet dur;
                 w ← attempt (engine_read (fun n => Watermark n active));
                 mret (match w with
                       | Ok w => captureSkippable prevClean durExists prevWM w
                       | Err _ => false
                       end)
             end;
      if (skip : bool) then mret SkipUnchanged else
      _ ← captureRetrying active dur;
      _ ← recordDurable active branch dur;
      w ← attempt (engine_read (fun n => Watermark n active));
      _ ← match w with
          | Ok w => if String.eqb w "" then mret tt else set_clean active branch true w
          | Err _ => mret tt
          end;
      mret (Saved branch dur)
  end.
End Program.
