(* ===== verification/BranchSafety.v ===== *)
(** * What the swap lifecycle promises

    Theorems about [BranchSwap]: the data of the branch that is switched away
    from survives every fault and every crash, the clean bit means what it
    says in every history, a switch and a switch back restore the data, a
    durable copy is only given up when the migrations are proven good.

    The engine is any instance of [NsDriver] that obeys [NsLaws]: an operation
    touches its target only, a successful copy is a copy, the write counter
    does not hide writes. Failed operations may leave anything in their
    target. *)
From stdpp Require Import base strings list sets gmap sorting.
From Stdlib Require Import ZArith Lia.
From S2P Require Import Prelude GoStrings Engine Slug Template SnapshotKey BranchStore BranchSwap.

(** ** What an engine promises *)
Class NsLaws (E Data : Type) {ND : NsDriver E Data} := {
  (** an operation on the first namespace leaves the second alone *)
  separate : string -> string -> Prop;
  (** the states an engine may reach from a state *)
  evolves : E -> E -> Prop;
  evolves_refl : forall e, evolves e e;
  evolves_trans : forall e1 e2 e3, evolves e1 e2 -> evolves e2 e3 -> evolves e1 e3;
  (** the write counter behind [Watermark] *)
  counter : E -> string -> string;
  Watermark_counter : forall n ns e w, Watermark n ns e = Ok w -> w <> "" -> w = counter e ns;
  counter_sound : forall e e' ns, evolves e e' -> counter e ns = counter e' ns -> contents e ns = contents e' ns;
  counter_monotone : forall e1 e2 e3 ns, evolves e1 e2 -> evolves e2 e3 ->
    counter e1 ns = counter e3 ns -> counter e2 ns = counter e3 ns;
  Exists_truth : forall n ns e b, Exists n ns e = Ok b -> b = true <-> is_Some (contents e ns);
  Capture_frame : forall n s t e x, separate t x -> contents (Capture n s t e).1 x = contents e x;
  Capture_copies : forall n s t e, separate t s -> (Capture n s t e).2 = Ok tt ->
    contents (Capture n s t e).1 t = contents e s;
  Capture_evolves : forall n s t e, evolves e (Capture n s t e).1;
  Restore_frame : forall n s t e x, separate t x -> contents (Restore n s t e).1 x = contents e x;
  Restore_copies : forall n s t e, separate t s -> (Restore n s t e).2 = Ok tt ->
    contents (Restore n s t e).1 t = contents e s;
  Restore_evolves : forall n s t e, evolves e (Restore n s t e).1;
  RestoreParent_frame : forall n s t k e x, separate t x -> contents (RestoreParent n s t k e).1 x = contents e x;
  RestoreParent_evolves : forall n s t k e, evolves e (RestoreParent n s t k e).1;
  Empty_frame : forall n t e x, separate t x -> contents (Empty n t e).1 x = contents e x;
  Empty_evolves : forall n t e, evolves e (Empty n t e).1;
  Drop_frame : forall n t e x, separate t x -> contents (Drop n t e).1 x = contents e x;
  Drop_gone : forall n t e, (Drop n t e).2 = Ok tt -> contents (Drop n t e).1 t = None;
  Drop_evolves : forall n t e, evolves e (Drop n t e).1;
  DropDurable_frame : forall n t e x, separate t x -> contents (DropDurable n t e).1 x = contents e x;
  DropDurable_gone : forall n t e, (DropDurable n t e).2 = Ok tt -> contents (DropDurable n t e).1 t = None;
  DropDurable_evolves : forall n t e, evolves e (DropDurable n t e).1
}.

(** a capture or a drop that fails leaves its target as it was, or absent *)
Class NsAtomic (E Data : Type) {ND : NsDriver E Data} := {
  Capture_atomic : forall n s t e x, (Capture n s t e).2 = Err x ->
    contents (Capture n s t e).1 t = contents e t \/ contents (Capture n s t e).1 t = None;
  DropDurable_atomic : forall n t e x, (DropDurable n t e).2 = Err x ->
    contents (DropDurable n t e).1 t = contents e t \/ contents (DropDurable n t e).1 t = None
}.

(** ** Reasoning about programs that may fail or die *)
Definition wp {E A} (m : M E A) (w : World E) (Q : World E -> outcome A -> Prop) : Prop := Q (m w).1 (m w).2.

(** [P] holds after [m], whatever the outcome, when it holds before *)
Definition keeps {E A} (P : World E -> Prop) (m : M E A) : Prop := forall w, P w -> P (m w).1.

Section Wp.
Context {E : Type}.

Lemma wp_bind {A B} (m : M E A) (f : A -> M E B) w Q :
  wp m w (fun w' o => match o with
                      | Done a => wp (f a) w' Q
                      | Fail e => Q w' (Fail e)
                      | Crashed => Q w' Crashed
                      end) ->
  wp (m ≫= f) w Q.
Proof. unfold wp, mbind, M_bind. destruct (m w) as [w' [a|e|]]; simpl; auto. Qed.

Lemma wp_attempt {A} (m : M E A) w Q :
  wp m w (fun w' o => match o with
                      | Done a => Q w' (Done (Ok a))
                      | Fail e => Q w' (Done (Err e))
                      | Crashed => Q w' Crashed
                      end) ->
  wp (attempt m) w Q.
Proof. unfold wp, attempt. destruct (m w) as [w' [a|e|]]; simpl; auto. Qed.

Lemma wp_mono {A} (m : M E A) w (Q R : World E -> outcome A -> Prop) :
  wp m w Q -> (forall w' o, Q w' o -> R w' o) -> wp m w R.
Proof. unfold wp. auto. Qed.

Lemma wp_and {A} (m : M E A) w (Q R : World E -> outcome A -> Prop) :
  wp m w Q -> wp m w R -> wp m w (fun w' o => Q w' o /\ R w' o).
Proof. unfold wp. auto. Qed.

Lemma wp_keeps {A} (m : M E A) w P : keeps P m -> P w -> wp m w (fun w' _ => P w').
Proof. unfold wp, keeps. auto. Qed.

Lemma keeps_ret {A} P (a : A) : keeps P (mret a : M E A).
Proof. intros w H. exact H. Qed.

Lemma keeps_fail {A} P e : keeps P (fail e : M E A).
Proof. intros w H. exact H. Qed.

Lemma keeps_bind {A B} P (m : M E A) (f : A -> M E B) :
  keeps P m -> (forall a, keeps P (f a)) -> keeps P (m ≫= f).
Proof.
  intros Hm Hf w H. specialize (Hm w H). unfold mbind, M_bind.
  destruct (m w) as [w' [a|e|]]; simpl in *; auto. by apply Hf.
Qed.

Lemma keeps_attempt {A} P (m : M E A) : keeps P m -> keeps P (attempt m).
Proof. intros Hm w H. specialize (Hm w H). unfold attempt. destruct (m w) as [w' [a|e|]]; auto. Qed.

Lemma keeps_and {A} P R (m : M E A) : keeps P m -> keeps R m -> keeps (fun w => P w /\ R w) m.
Proof. intros H1 H2 w [? ?]. split; auto. Qed.
End Wp.

Create HintDb swap.
#[export] Hint Resolve keeps_ret keeps_fail keeps_bind keeps_attempt : swap.

(** split a program into its calls *)
Ltac keeps_step :=
  match goal with
  | |- keeps _ (mbind _ _) => apply keeps_bind; [|intros ?]
  | |- keeps _ (attempt _) => apply keeps_attempt
  | |- keeps _ (mret _) => apply keeps_ret
  | |- keeps _ (fail _) => apply keeps_fail
  | |- keeps _ (if ?b then _ else _) => destruct b eqn:?
  | |- keeps _ (match ?x with _ => _ end) => destruct x eqn:?
  | |- keeps _ (let '(_, _) := ?x in _) => destruct x
  end.
Ltac keeps_auto := repeat (keeps_step || (progress cbv zeta) || (solve [eauto with swap])).

Section Frames.
Context {E Data : Type} `{ND : NsDriver E Data} {NL : NsLaws E Data}.
Variable blake3 : string -> string.
Variable suffix : string.
Variable getwd : option string.
Variable window : redis_range.
Variable X : Surroundings E.
Variable C : Commands E.
Variable Q : Oracles.
Variable a : branchScopedArgs.
Variable active : string.

Notation dn := (durableName blake3 a active).

(** the namespaces of this database are separate, nobody else writes to them,
    and the user's commands write to the active one only *)
Record Setting : Prop := {
  active_dur : forall b, separate active (dn b);
  dur_active : forall b, separate (dn b) active;
  dur_dur : forall b b', dn b <> dn b' -> separate (dn b) (dn b');
  env_active : forall n e, contents (env X n e) active = contents e active;
  env_dur : forall n e b, contents (env X n e) (dn b) = contents e (dn b);
  env_evolves : forall n e, evolves e (env X n e);
  migrate_frame : forall n e x, separate active x -> contents (migrate_cmd C n active e).1 x = contents e x;
  migrate_evolves : forall n e, evolves e (migrate_cmd C n active e).1;
  seed_frame : forall n e x, separate active x -> contents (seed_cmd C n active e).1 x = contents e x;
  seed_evolves : forall n e, evolves e (seed_cmd C n active e).1;
  dump_frame : forall n f e x, separate active x -> contents (loadDump_cmd C n active f e).1 x = contents e x;
  dump_evolves : forall n f e, evolves e (loadDump_cmd C n active f e).1
}.
Hypothesis HS : Setting.

(** the names the setting speaks of *)
Inductive own : string -> Prop :=
| own_active : own active
| own_dur b : own (dn b).
Hint Constructors own : swap.

Lemma env_own n e x : own x -> contents (env X n e) x = contents e x.
Proof. intros [|b]; [apply (env_active HS)|apply (env_dur HS)]. Qed.

(** *** Facts that calls keep *)
Definition about (x : string) (v : option Data) (w : World E) : Prop := contents (eng w) x = v.
Definition rows (r : gmap (Z * string) Marker) (w : World E) : Prop := active_branch_db (st w) = r.
Definition since (e0 : E) (w : World E) : Prop := evolves e0 (eng w).

(** an engine operation on [t] *)
Definition acts_on (t : string) (f : E -> E) : Prop :=
  (forall e x, separate t x -> contents (f e) x = contents e x) /\ (forall e, evolves e (f e)).

(** a drop of a durable copy *)
Definition dropping (n : nat) (t : string) (e : E) : E := (DropDurable n t e).1.

(** [P] survives the operations [T], given with their targets, and every
    change of the tables other than [active_branch_db] *)
Record stable (P : World E -> Prop) (T : string -> (E -> E) -> Prop) : Prop := {
  stable_env : forall w n k, P w -> P (Build_World (env X n (eng w)) (st w) k);
  stable_op : forall t f w k, T t f -> acts_on t f -> P w -> P (Build_World (f (eng w)) (st w) k);
  stable_rows : forall t w k, active_branch_db t = active_branch_db (st w) -> P w -> P (Build_World (eng w) t k)
}.

Lemma about_stable x v (T : string -> (E -> E) -> Prop) : own x -> (forall t f, T t f -> separate t x) -> stable (about x v) T.
Proof.
  intros Ho HT. split; unfold about; simpl.
  - intros w n k H. by rewrite env_own.
  - intros t f w k Ht [Hf _] H. rewrite Hf; eauto.
  - intros t w k _ H. exact H.
Qed.

Lemma rows_stable r T : stable (rows r) T.
Proof. split; unfold rows; simpl; congruence. Qed.

Lemma since_stable e0 T : stable (since e0) T.
Proof.
  split; unfold since; simpl.
  - intros w n k H. eapply evolves_trans; [exact H|apply (env_evolves HS)].
  - intros t f w k _ [_ Hf] H. eapply evolves_trans; [exact H|apply Hf].
  - intros t w k _ H. exact H.
Qed.

Lemma stable_and P R T : stable P T -> stable R T -> stable (fun w => P w /\ R w) T.
Proof.
  intros HP HR. split.
  - intros w n k [? ?]. split; eapply stable_env; eauto.
  - intros t f w k Ht Hf [? ?]. split; eapply stable_op; eauto.
  - intros t w k Ht [? ?]. split; eapply stable_rows; eauto.
Qed.

Lemma stable_weaken P (T T' : string -> (E -> E) -> Prop) :
  stable P T -> (forall t f, T' t f -> T t f) -> stable P T'.
Proof. intros HP HT. split; [apply (stable_env _ _ HP)|intros t f w k Ht; apply (stable_op _ _ HP); auto
                            |apply (stable_rows _ _ HP)]. Qed.

Section Calls.
Variable P : World E -> Prop.
Variable T : string -> (E -> E) -> Prop.
Hypothesis HP : stable P T.

Lemma keeps_engine_op {A} t (f : nat -> E -> E * res err A) :
  (forall n, T t (fun e => (f n e).1)) -> (forall n, acts_on t (fun e => (f n e).1)) -> keeps P (engine_op X f).
Proof.
  intros Ht Hf w H. unfold engine_op. simpl.
  apply (stable_op _ _ HP t (fun e => (f (tick w) e).1) (Build_World (env X (tick w) (eng w)) (st w) O)); auto.
  by apply (stable_env _ _ HP).
Qed.

Lemma keeps_engine_read {A} (f : nat -> E -> res err A) : keeps P (engine_read X f).
Proof. intros w H. unfold engine_read, engine_op. simpl. by apply (stable_env _ _ HP). Qed.

Lemma keeps_store_op f :
  (forall n t, active_branch_db (f n t) = active_branch_db t) -> keeps P (store_op X f).
Proof.
  intros Hf w H. unfold store_op. simpl.
  apply (stable_rows _ _ HP _ (Build_World (env X (tick w) (eng w)) (st w) O)); simpl.
  - by destruct (store_fault X (tick w)).
  - by apply (stable_env _ _ HP).
Qed.

Lemma keeps_store_read {A} (f : Tables -> A) : keeps P (store_read X f).
Proof. intros w H. unfold store_read. simpl. by apply (stable_env _ _ HP). Qed.

Lemma keeps_ask {A} (f : nat -> res err A) : keeps P (ask X f).
Proof. intros w H. unfold ask. simpl. by apply (stable_env _ _ HP). Qed.
End Calls.
Hint Resolve keeps_engine_read keeps_store_read keeps_ask : swap.

Lemma acts_Restore s t n : acts_on t (fun e => (Restore n s t e).1).
Proof. split; intros; [by apply Restore_frame|apply Restore_evolves]. Qed.
Lemma acts_RestoreParent s t k n : acts_on t (fun e => (RestoreParent n s t k e).1).
Proof. split; intros; [by apply RestoreParent_frame|apply RestoreParent_evolves]. Qed.
Lemma acts_Capture s t n : acts_on t (fun e => (Capture n s t e).1).
Proof. split; intros; [by apply Capture_frame|apply Capture_evolves]. Qed.
Lemma acts_Empty t n : acts_on t (fun e => (Empty n t e).1).
Proof. split; intros; [by apply Empty_frame|apply Empty_evolves]. Qed.
Lemma acts_Drop t n : acts_on t (fun e => (Drop n t e).1).
Proof. split; intros; [by apply Drop_frame|apply Drop_evolves]. Qed.
Lemma acts_DropDurable t n : acts_on t (fun e => (DropDurable n t e).1).
Proof. split; intros; [by apply DropDurable_frame|apply DropDurable_evolves]. Qed.
Lemma acts_migrate n : acts_on active (fun e => (migrate_cmd C n active e).1).
Proof. split; intros; [by apply (migrate_frame HS)|apply (migrate_evolves HS)]. Qed.
Lemma acts_seed n : acts_on active (fun e => (seed_cmd C n active e).1).
Proof. split; intros; [by apply (seed_frame HS)|apply (seed_evolves HS)]. Qed.
Lemma acts_dump f n : acts_on active (fun e => (loadDump_cmd C n active f e).1).
Proof. split; intros; [by apply (dump_frame HS)|apply (dump_evolves HS)]. Qed.
Hint Resolve acts_Restore acts_RestoreParent acts_Capture acts_Empty acts_Drop acts_DropDurable
  acts_migrate acts_seed acts_dump : swap.

(** an engine operation on [t] *)
Ltac op_on ns := eapply keeps_engine_op with (t := ns); [eassumption|first [solve [auto with swap] | intros ?; cbv beta; solve [auto with swap]]|intros ?; auto with swap].

(** *** What each part of the program keeps *)
Lemma keeps_retry P T fn : stable P T -> keeps P fn -> keeps P (retryTransient X fn).
Proof.
  intros HP Hf. unfold retryTransient. generalize transientRetries.
  intros k. induction k as [|k IH]; simpl; keeps_auto.
Qed.

Lemma keeps_copyLostRows P T src dst : stable P T -> keeps P (copyLostRows X src dst).
Proof. intros HP. unfold copyLostRows, sampleRows, sampleMissingRows. keeps_auto. Qed.

Lemma keeps_captureRetrying P T act dur :
  stable P T -> keeps P (engine_op X (fun n => Capture n act dur)) -> keeps P (captureRetrying X act dur).
Proof. intros HP Hc. by eapply keeps_retry. Qed.

Lemma keeps_captureVerified P (T : string -> (E -> E) -> Prop) act dur :
  stable P T -> keeps P (engine_op X (fun n => Capture n act dur)) -> (forall n, T dur (dropping n dur)) ->
  keeps P (captureVerified X act dur).
Proof.
  intros HP Hc Hd. unfold captureVerified.
  apply keeps_bind; [by eapply keeps_captureRetrying|intros _].
  apply keeps_bind; [eapply keeps_copyLostRows; eauto|intros b].
  keeps_auto. op_on dur.
Qed.

Lemma keeps_captureDurable P (T : string -> (E -> E) -> Prop) b :
  stable P T -> keeps P (engine_op X (fun n => Capture n active (dn b))) ->
  (forall n, T (dn b) (dropping n (dn b))) -> keeps P (captureDurable blake3 X a active b).
Proof.
  intros HP Hc Hd. unfold captureDurable, recordDurable. cbv zeta.
  apply keeps_bind; [by eapply keeps_captureVerified|intros _].
  eapply keeps_store_op; eauto.
Qed.

Lemma keeps_parentSourceKeep P T p :
  stable P T -> keeps P (parentSourceKeep blake3 suffix getwd window X Q a p).
Proof. intros HP. unfold parentSourceKeep. keeps_auto. Qed.

Lemma keeps_seedParentVerified P (T : string -> (E -> E) -> Prop) p :
  stable P T -> (forall f, T active f) -> keeps P (seedParentVerified blake3 suffix getwd window X Q a p active).
Proof.
  intros HP Ht. unfold seedParentVerified.
  apply keeps_bind; [eapply keeps_parentSourceKeep; eauto|intros k].
  apply keeps_bind; [eapply keeps_retry; eauto; op_on active|intros _].
  apply keeps_bind; [eapply keeps_copyLostRows; eauto|intros b]. keeps_auto.
Qed.

Lemma keeps_exists_quiet P T ns : stable P T -> keeps P (exists_quiet X ns).
Proof. intros HP. unfold exists_quiet. keeps_auto. Qed.

Lemma keeps_base_fold P T base cands l : forall m,
  stable P T -> keeps P m -> keeps P (foldl (base_step X a base cands) m l).
Proof.
  induction l as [|r l IH]; intros m HP Hm; simpl; auto. apply IH; auto.
  unfold base_step. apply keeps_bind; auto. intros best. keeps_auto.
Qed.

Lemma keeps_baseBranchDurable P T b :
  stable P T -> keeps P (baseBranchDurable blake3 suffix getwd window X Q a b).
Proof.
  intros HP. unfold baseBranchDurable. keeps_auto. eapply keeps_base_fold; eauto with swap.
Qed.

Lemma keeps_live_source P T act m : stable P T -> keeps P m -> keeps P (live_source X act m).
Proof. intros HP Hm. unfold live_source. keeps_auto. Qed.

Lemma keeps_fill_from_others P (T : string -> (E -> E) -> Prop) b :
  stable P T -> (forall f, T active f) -> keeps P (fill_from_others blake3 suffix getwd window X Q a active b).
Proof.
  intros HP Ht. unfold fill_from_others.
  apply keeps_bind; [eapply keeps_live_source; eauto with swap|intros [p|]].
  { apply keeps_bind; [eapply keeps_seedParentVerified; eauto|intros _; keeps_auto]. }
  apply keeps_bind; [eapply keeps_baseBranchDurable; eauto|intros [p|]].
  { apply keeps_bind; [op_on active|intros _].
    apply keeps_bind; [eapply keeps_store_op; eauto|intros _; keeps_auto]. }
  apply keeps_bind; [eapply keeps_live_source; eauto with swap|intros [p|]]; [|keeps_auto].
  apply keeps_bind; [eapply keeps_seedParentVerified; eauto|intros _; keeps_auto].
Qed.

Lemma keeps_resume P (T : string -> (E -> E) -> Prop) b :
  stable P T -> (forall f, T active f) -> (forall n, T (dn b) (dropping n (dn b))) -> keeps P (resumeDurableVerified blake3 X a active b).
Proof.
  intros HP Ht Hd. unfold resumeDurableVerified. cbv zeta.
  apply keeps_bind; [eapply keeps_exists_quiet; eauto|intros ex]. destruct ex; simpl; [|keeps_auto].
  apply keeps_bind; [apply keeps_attempt; eapply keeps_retry; eauto; op_on active|].
  intros r. destruct (is_ok r); simpl; [|keeps_auto].
  apply keeps_bind; [eapply keeps_copyLostRows; eauto|intros bad]. destruct bad; simpl; [|keeps_auto].
  apply keeps_bind; [apply keeps_attempt; op_on (dn b)|intros _].
  apply keeps_bind; [eapply keeps_store_op; eauto|intros _; keeps_auto].
Qed.

Lemma keeps_fill P (T : string -> (E -> E) -> Prop) b u :
  stable P T -> (forall f, T active f) -> (u = true -> forall n, T (dn b) (dropping n (dn b))) ->
  keeps P (fill blake3 suffix getwd window X Q a active b u).
Proof.
  intros HP Ht Hd. unfold fill. apply keeps_bind.
  - destruct u; [eapply keeps_resume; eauto|keeps_auto].
  - intros [|]; [keeps_auto|eapply keeps_fill_from_others; eauto].
Qed.

Lemma keeps_load_dumps P (T : string -> (E -> E) -> Prop) l : stable P T -> (forall f, T active f) -> keeps P (load_dumps X C active l).
Proof.
  intros HP Ht. induction l as [|d l IH]; simpl; [keeps_auto|].
  apply keeps_bind; [op_on active|auto].
Qed.

Lemma keeps_seedFreshFrom P (T : string -> (E -> E) -> Prop) b u :
  stable P T -> (forall f, T active f) -> (u = true -> forall n, T (dn b) (dropping n (dn b))) ->
  keeps P (seedFreshFrom blake3 suffix getwd window X C Q a active b u).
Proof.
  intros HP Ht Hd. unfold seedFreshFrom.
  apply keeps_bind; [eapply keeps_fill; eauto|intros [h|]]; [keeps_auto|].
  apply keeps_bind; [op_on active|intros _].
  apply keeps_bind; [eapply keeps_ask; eauto|intros dumps]. keeps_auto. eapply keeps_load_dumps; eauto.
Qed.

Lemma keeps_reseed P (T : string -> (E -> E) -> Prop) b e :
  stable P T -> (forall f, T active f) -> (forall n, T (dn b) (dropping n (dn b))) -> keeps P (reseedPastDurable blake3 suffix getwd window X C Q a active b e).
Proof.
  intros HP Ht Hd. unfold reseedPastDurable. cbv zeta.
  apply keeps_bind; [apply keeps_attempt; eapply keeps_seedFreshFrom; eauto; congruence|].
  intros [[be s]|e']; [|keeps_auto].
  apply keeps_bind; [op_on active|intros _].
  apply keeps_bind; [apply keeps_attempt; op_on (dn b)|intros _].
  apply keeps_bind; [eapply keeps_store_op; eauto|intros _; keeps_auto].
Qed.

Lemma keeps_migrateStep P (T : string -> (E -> E) -> Prop) b be d :
  stable P T -> (forall f, T active f) -> (forall n, T (dn b) (dropping n (dn b))) -> keeps P (migrateStep blake3 suffix getwd window X C Q a active b be d).
Proof.
  intros HP Ht Hd. unfold migrateStep. destruct (negb _); [keeps_auto|].
  apply keeps_bind; [eapply keeps_store_read; eauto|intros prev]. destruct (negb _); [keeps_auto|].
  apply keeps_bind; [apply keeps_attempt; op_on active|intros r].
  apply keeps_bind.
  - destruct r as [?|[]]; simpl; keeps_auto; eapply keeps_reseed; eauto.
  - intros bd. apply keeps_bind; [|intros _; keeps_auto].
    unfold recordMigrated. destruct (String.eqb _ _); [keeps_auto|].
    apply keeps_bind; [apply keeps_attempt; eapply keeps_store_op; eauto|intros _; keeps_auto].
Qed.

(** *** The clean bit *)

(** [e] has the counter [wm] only while the active namespace holds what the
    durable copy [dur] holds, if there is one *)
Definition mirrors (wm dur : string) (e : E) : Prop :=
  (exists e0, evolves e0 e /\ counter e0 active = wm) /\
  (counter e active = wm -> forall v, contents e dur = Some v -> contents e active = Some v).

(** what the clean bit of a marker means *)
Definition clean_means (m : Marker) (e : E) : Prop :=
  mClean m = true -> mWatermark m <> "" -> mirrors (mWatermark m) (dn (mBranch m)) e.

Definition marker (w : World E) : option Marker := active_branch_db (st w) !! (worktreeID a, active).

Definition clean_inv (w : World E) : Prop := forall m, marker w = Some m -> clean_means m (eng w).

Lemma mirrors_evolves wm dur e e' :
  evolves e e' -> (contents e' dur = contents e dur \/ contents e' dur = None) ->
  mirrors wm dur e -> mirrors wm dur e'.
Proof.
  intros Hev Hd [(e0 & He0 & Hc0) Hm]. split.
  - exists e0. split; auto. eapply evolves_trans; eauto.
  - intros Hc v Hv. destruct Hd as [Hd|Hd]; [|congruence].
    assert (counter e active = counter e' active) as Hce.
    { apply (counter_monotone e0 e e'); auto. congruence. }
    rewrite <- (counter_sound e e' active Hev Hce). apply Hm; congruence.
Qed.

(** operations that leave the durable copies alone, or drop one *)
Definition quiet (t : string) (f : E -> E) : Prop :=
  t = active \/
  exists b, t = dn b /\ forall e, contents (f e) t = contents e t \/ contents (f e) t = None.

Lemma clean_stable : stable clean_inv quiet.
Proof.
  split; unfold clean_inv, marker; simpl.
  - intros w n k H m Hm Hc Hw. eapply mirrors_evolves; [apply (env_evolves HS)|left; apply (env_dur HS)|].
    by apply H.
  - intros t f w k Ht [Hfr Hev] H m Hm Hc Hw. eapply mirrors_evolves; [apply Hev| |by apply H].
    destruct Ht as [->|(b & -> & Hd)]; [left; apply Hfr, (active_dur HS)|].
    destruct (decide (dn b = dn (mBranch m))) as [Heq|Hne]; [rewrite <- Heq; apply Hd|].
    left. apply Hfr. by apply (dur_dur HS).
  - intros t w k Ht H m Hm. apply H. by rewrite <- Ht.
Qed.

Lemma dropping_quiet {NA : NsAtomic E Data} b n : quiet (dn b) (dropping n (dn b)).
Proof.
  right. exists b. split; [done|]. intros e. unfold dropping.
  destruct (DropDurable n (dn b) e).2 as [[]|x] eqn:Ed.
  - right. by apply DropDurable_gone.
  - by eapply DropDurable_atomic.
Qed.

(** a marker that is not clean says nothing *)
Lemma unclean_inv w m : marker w = Some m -> mClean m = false -> clean_inv w.
Proof. intros H Hc m' Hm' Hc'. congruence. Qed.

(** *** The skip of a redundant capture *)
Lemma keeps_captureRedundant P T b : stable P T -> keeps P (captureRedundant blake3 X a active b).
Proof. intros HP. unfold captureRedundant. keeps_auto. Qed.

Lemma wp_store_read {A} (f : Tables -> A) w R :
  R (Build_World (env X (tick w) (eng w)) (st w) (S (tick w))) (Done (f (st w))) ->
  (forall o, match o with Done _ => False | _ => True end ->
     R (Build_World (env X (tick w) (eng w)) (st w) (S (tick w))) o) ->
  wp (store_read X f) w R.
Proof.
  intros H1 H2. unfold wp, store_read. simpl.
  destruct (crash X _); [by apply H2|]. destruct (store_fault X _); [by apply H2|done].
Qed.

Lemma captureRedundant_sound w m :
  marker w = Some m -> clean_inv w ->
  wp (captureRedundant blake3 X a active (mBranch m)) w (fun w' o =>
    o = Done true -> exists v, contents (eng w') (dn (mBranch m)) = Some v /\ contents (eng w') active = Some v).
Proof.
  intros Hm Hinv. unfold captureRedundant. apply wp_bind. apply wp_store_read; [|by intros [[]| |]].
  unfold GetActiveBranchClean. unfold marker in Hm. rewrite Hm. cbn [fmap option_fmap option_map].
  destruct (mClean m) eqn:Ec; simpl; [|by intros [=]].
  set (w1 := Build_World _ _ _).
  assert (clean_inv w1) as H1 by (by apply (stable_env _ _ clean_stable)).
  apply wp_bind, wp_attempt, wp_bind. unfold wp at 1, engine_read, engine_op. simpl.
  destruct (crash X _); [by intros [=]|].
  destruct (Exists _ (dn (mBranch m)) _) as [b|] eqn:Ex; simpl; [|by intros [=]].
  apply wp_bind. unfold wp at 1. simpl. destruct (crash X _); [by intros [=]|].
  destruct (Watermark _ active _) as [cw|] eqn:Ew; simpl; [|by intros [=]].
  unfold wp, mret, M_ret. simpl. intros [= Hs]. unfold captureSkippable in Hs.
  apply andb_true_iff in Hs as [Hs Heq]. apply andb_true_iff in Hs as [Hb Hne].
  simpl in Hb. subst b. apply String.eqb_eq in Heq. subst cw.
  apply negb_true_iff, String.eqb_neq in Hne.
  apply Exists_truth in Ex as [Ex _]. destruct (Ex eq_refl) as [v Hv].
  set (e2 := env X (S (S (tick w))) _) in *.
  assert (evolves (eng w1) e2) as Hev.
  { eapply evolves_trans; apply (env_evolves HS). }
  assert (contents e2 (dn (mBranch m)) = Some v) as Hv2.
  { unfold e2. rewrite (env_dur HS). exact Hv. }
  exists v. split; [exact Hv2|].
  assert (mirrors (mWatermark m) (dn (mBranch m)) e2) as [_ Hmir].
  { eapply mirrors_evolves; [exact Hev| |apply H1; auto].
    left. unfold e2, w1. simpl. by rewrite !(env_dur HS). }
  apply Hmir; auto. symmetry. by eapply Watermark_counter.
Qed.

(** *** Copies *)
Lemma retry_done P T t (f : nat -> E -> E * res err unit) w :
  stable P T -> (forall n, T t (fun e => (f n e).1)) -> (forall n, acts_on t (fun e => (f n e).1)) -> P w ->
  wp (retryTransient X (engine_op X f)) w (fun w' o =>
    o = Done tt -> exists n w0, P w0 /\ eng w' = (f n (eng w0)).1 /\ (f n (eng w0)).2 = Ok tt).
Proof.
  intros HP HT Hf. unfold retryTransient. generalize transientRetries. intros k. revert w.
  induction k as [|k IH]; intros w Hw; simpl; apply wp_bind.
  all: unfold wp at 1, ctx_Err, ask; simpl.
  all: destruct (crash X _); [done|]; destruct (cancelled X _); simpl; [done|].
  all: set (w1 := Build_World _ _ _); assert (P w1) as H1 by (by apply (stable_env _ _ HP)).
  all: set (w2 := Build_World (env X (tick w1) (eng w1)) (st w1) O).
  all: assert (P w2) as H2 by (by apply (stable_env _ _ HP)).
  all: apply wp_bind, wp_attempt; unfold wp at 1, engine_op; simpl.
  all: destruct (crash X _); [done|]; destruct (f _ _).2 as [[]|x] eqn:Er; simpl.
  1,3: intros _; exists (S (tick w)), w2; auto.
  all: destruct (isCancellation x || negb (isTransientConn x)); [unfold wp; simpl; done|].
  - unfold wp; simpl. done.
  - apply wp_bind. unfold wp at 1. simpl. destruct (crash X _); [done|]. destruct (cancelled X _); simpl; [done|].
    apply IH. apply (stable_env _ _ HP (Build_World _ _ O)). simpl.
    apply (stable_op _ _ HP t (fun e => (f (S (tick w)) e).1) w2); auto.
Qed.

Lemma own_active_stable v : stable (about active v) (fun t _ => t <> active /\ separate t active).
Proof. apply about_stable; [constructor|]. by intros t f [_ ?]. Qed.

(** a capture that succeeds has copied the active namespace *)
Lemma captureRetrying_copies b v w :
  contents (eng w) active = v ->
  wp (captureRetrying X active (dn b)) w (fun w' o => o = Done tt -> contents (eng w') (dn b) = v).
Proof.
  intros Hv. eapply wp_mono.
  - eapply (retry_done (about active v) (fun t _ => t = dn b) (dn b)); [|done|auto with swap|exact Hv].
    apply about_stable; [constructor|]. intros t f ->. apply (dur_active HS).
  - simpl. intros w' o H Ho. destruct (H Ho) as (n & w0 & Hw0 & -> & Hr).
    rewrite Capture_copies; auto. apply (dur_active HS).
Qed.

Lemma captureVerified_copies b v w :
  contents (eng w) active = v ->
  wp (captureVerified X active (dn b)) w (fun w' o => o = Done tt -> contents (eng w') (dn b) = v).
Proof.
  intros Hv. unfold captureVerified. apply wp_bind.
  eapply wp_mono; [by apply captureRetrying_copies|]. intros w1 [[]| |] H1; [|done..].
  specialize (H1 eq_refl). apply wp_bind.
  eapply wp_mono.
  { apply (wp_keeps _ _ (about (dn b) v)); [|exact H1]. eapply (keeps_copyLostRows _ (fun _ _ => False)).
    apply about_stable; [constructor|done]. }
  intros w2 [[|]| |] H2; [|by intros _|done..].
  apply wp_bind, wp_attempt. unfold wp at 1. destruct (engine_op _ _ _) as [w3 [?|?|]]; simpl; unfold wp; done.
Qed.

Lemma captureDurable_copies b v w :
  contents (eng w) active = v ->
  wp (captureDurable blake3 X a active b) w (fun w' o => o = Done tt -> contents (eng w') (dn b) = v).
Proof.
  intros Hv. unfold captureDurable. cbv zeta. apply wp_bind.
  eapply wp_mono; [by apply captureVerified_copies|]. intros w1 [[]| |] H1; [|done..].
  specialize (H1 eq_refl). unfold recordDurable, wp, store_op. simpl. intros _. rewrite (env_dur HS). done.
Qed.

(** *** The old branch's data *)
Definition held (old : string) (D : Data) (w : World E) : Prop :=
  (GetActiveBranch (worktreeID a) active (st w) = Some old /\ contents (eng w) active = Some D) \/
  contents (eng w) (dn old) = Some D.

Definition live (r : gmap (Z * string) Marker) (D : Data) (w : World E) : Prop :=
  rows r w /\ about active (Some D) w.

Lemma live_stable r D : stable (live r D) (fun t _ => separate t active).
Proof.
  apply stable_and; [apply rows_stable|]. apply about_stable; [constructor|]. auto.
Qed.

Lemma live_held r D m old w :
  live r D w -> r !! (worktreeID a, active) = Some m -> mBranch m = old -> held old D w.
Proof. intros [Hr Ha] Hm <-. left. unfold rows in Hr. unfold GetActiveBranch. by rewrite Hr, Hm. Qed.

(** capturing writes away from the active namespace *)
Lemma keeps_captureDurable_away P b :
  stable P (fun t _ => separate t active) -> keeps P (captureDurable blake3 X a active b).
Proof.
  intros HP. pose proof (dur_active HS) as Hd.
  eapply keeps_captureDurable; [exact HP| |intros n; apply Hd].
  eapply keeps_engine_op with (t := dn b); [exact HP|intros n; apply Hd|auto with swap].
Qed.

Definition safe_copy (old : string) (D : Data) : World E -> Prop := about (dn old) (Some D).

Lemma safe_copy_stable old D b :
  dn b <> dn old -> stable (safe_copy old D) (fun t _ => t = active \/ t = dn b).
Proof.
  intros Hb. apply about_stable; [constructor|].
  intros t f [->| ->]; [apply (active_dur HS)|by apply (dur_dur HS)].
Qed.

Lemma keeps_recordClean P T b d mg sd :
  stable P T -> (forall f, keeps P (store_op X (fun n t => with_active (f t) t))) ->
  keeps P (recordClean X a active b d mg sd).
Proof.
  intros HP Hs. unfold recordClean, set_clean, SetActiveBranchClean. keeps_auto; apply Hs.
Qed.

Lemma about_store x v f : own x -> keeps (about x v) (store_op X f).
Proof. intros Ho w H. unfold about, store_op in *. simpl. by rewrite env_own. Qed.

Lemma keeps_finish_run old D b bd :
  dn b <> dn old -> keeps (safe_copy old D) (finish_run blake3 suffix getwd window X C Q a active b bd).
Proof.
  intros Hb. pose proof (safe_copy_stable old D b Hb) as HP. unfold finish_run.
  apply keeps_bind; [eapply keeps_migrateStep; [exact HP|simpl; auto..]|]. intros [[mg be] d]. cbv zeta.
  apply keeps_bind; [|intros _; apply keeps_bind; [|intros _; keeps_auto]].
  - destruct (_ && _); [op_on active|keeps_auto].
  - eapply keeps_recordClean; eauto. intros f. apply about_store; constructor.
Qed.

Lemma swapBranch_held old b D w :
  dn b <> dn old -> clean_inv w -> GetActiveBranch (worktreeID a) active (st w) = Some old ->
  contents (eng w) active = Some D ->
  wp (swapBranch blake3 suffix getwd window X Q a active old b) w (fun w' o =>
    match o with Done _ => safe_copy old D w' | _ => held old D w' end).
Proof.
  intros Hb Hinv Hold HD. unfold GetActiveBranch in Hold.
  destruct (active_branch_db (st w) !! (worktreeID a, active)) as [m|] eqn:Hm; [|done].
  injection Hold as Hold. subst old. set (r := active_branch_db (st w)) in *.
  assert (live r D w) as HL by (split; [reflexivity|exact HD]).
  unfold swapBranch. apply wp_bind.
  eapply wp_mono; [apply wp_and; [by apply (captureRedundant_sound w m)|
    eapply wp_keeps; [eapply keeps_captureRedundant, (live_stable r D)|exact HL]]|].
  intros w1 o1 [H1 HL1]. destruct o1 as [red|e|]; [|eapply live_held; eauto..].
  apply wp_bind.
  apply (wp_mono _ _ (fun w' o => match o with Done _ => safe_copy (mBranch m) D w' | _ => held (mBranch m) D w' end)).
  { destruct red.
    - unfold wp. simpl. destruct (H1 eq_refl) as (v & Hv & Hva). unfold safe_copy, about.
      destruct HL1 as [_ HL1]. unfold about in HL1. congruence.
    - eapply wp_mono; [apply wp_and; [apply (captureDurable_copies (mBranch m) (Some D)); apply HL1|
        eapply wp_keeps; [apply keeps_captureDurable_away, live_stable|exact HL1]]|].
      + intros w2 [[]|e|] [H2 HL2]; [by apply H2|eapply live_held; eauto..]. }
  intros w2 [[]|e|] H2; [|done..].
  apply wp_bind. eapply wp_mono; [eapply wp_keeps; [apply about_store; constructor|exact H2]|].
  intros w3 [[]|e|] H3; [|by right..].
  apply wp_bind. eapply wp_mono; [eapply wp_keeps; [|exact H3]|].
  { eapply keeps_fill; [by apply (safe_copy_stable (mBranch m) D b)|simpl; auto..]. }
  intros w4 [h|e|] H4; [exact H4|by right..].
Qed.

Lemma run_in_held old b D w :
  dn b <> dn old -> clean_inv w -> GetActiveBranch (worktreeID a) active (st w) = Some old ->
  contents (eng w) active = Some D ->
  wp (run_in blake3 suffix getwd window X C Q a active b) w (fun w' _ => held old D w').
Proof.
  intros Hb Hinv Hold HD.
  assert (forall e k, contents e active = Some D -> held old D (Build_World e (st w) k)) as Hheld.
  { intros e k He. left. auto. }
  unfold run_in. apply wp_bind. unfold run_arm. apply wp_bind, wp_store_read.
  2: { intros o Ho. destruct o; [done|apply Hheld; by rewrite (env_active HS)..]. }
  rewrite Hold. set (w1 := Build_World _ _ _).
  assert (clean_inv w1) as Hc1 by (apply (stable_env _ _ clean_stable w); done).
  apply wp_bind. unfold wp at 1, engine_read, engine_op. simpl.
  destruct (crash X _); [apply Hheld; by rewrite !(env_active HS)|].
  destruct (Exists _ active _) as [ex|e] eqn:Ex; simpl; [|apply Hheld; by rewrite !(env_active HS)].
  apply Exists_truth in Ex. rewrite !(env_active HS), HD in Ex.
  destruct ex; [|discriminate (proj2 Ex (ex_intro _ D eq_refl))]. simpl.
  assert (b <> old) as Hb' by congruence. apply String.eqb_neq in Hb'. rewrite String.eqb_sym in Hb'. rewrite Hb'. simpl.
  apply wp_bind. eapply wp_mono.
  { apply (swapBranch_held old b D); auto; simpl.
    - apply (stable_env _ _ clean_stable w1). exact Hc1.
    - by rewrite !(env_active HS). }
  intros w2 [d|e|] H2; [|exact H2..].
  unfold wp at 1. simpl. eapply wp_mono; [eapply wp_keeps; [by apply keeps_finish_run|exact H2]|].
  intros w3 o3 H3. by right.
Qed.

(** *** The clean bit through every operation *)
Section Clean.
Context {NA : NsAtomic E Data}.

(** what the marker may become *)
Definition harmless (f : Z -> Tables -> Tables) : Prop :=
  forall n t m, active_branch_db (f n t) !! (worktreeID a, active) = Some m ->
    mClean m = false \/ active_branch_db t !! (worktreeID a, active) = Some m.

Lemma clean_store f : harmless f -> keeps clean_inv (store_op X f).
Proof.
  intros Hf w H. unfold store_op. simpl.
  assert (clean_inv (Build_World (env X (tick w) (eng w)) (st w) (S (tick w)))) as H1
    by (by apply (stable_env _ _ clean_stable)).
  destruct (store_fault X _); [exact H1|].
  intros m Hm. apply Hf in Hm as [Hm|Hm]; [intros Hc; congruence|by apply H1].
Qed.

Lemma harmless_mark b eng_ : harmless (fun _ => SetActiveBranch (repoID a) (worktreeID a) active b eng_).
Proof. intros n t m. rewrite active_SetActiveBranch, decide_True by done. intros [= <-]. by left. Qed.

Lemma harmless_unclean b eng_ wm :
  harmless (fun _ => SetActiveBranchClean (repoID a) (worktreeID a) active b eng_ false wm).
Proof. intros n t m. rewrite active_SetActiveBranchClean, decide_True by done. intros [= <-]. by left. Qed.

Lemma harmless_rows f : (forall n t, active_branch_db (f n t) = active_branch_db t) -> harmless f.
Proof. intros Hf n t m. rewrite Hf. auto. Qed.

Lemma harmless_clear : harmless (fun _ => ClearActiveBranch (worktreeID a) active).
Proof. intros n t m. simpl. by rewrite lookup_delete_eq. Qed.

(** a capture leaves a copy, the old copy, or none *)
Lemma clean_capture b : keeps clean_inv (engine_op X (fun n => Capture n active (dn b))).
Proof.
  intros w H. unfold engine_op. simpl. set (e1 := env X (tick w) (eng w)).
  assert (clean_inv (Build_World e1 (st w) O)) as H1 by (by apply (stable_env _ _ clean_stable)).
  intros m Hm Hc Hw. specialize (H1 m Hm Hc Hw). simpl in *.
  assert (evolves e1 (Capture (tick w) active (dn b) e1).1) as Hev by apply Capture_evolves.
  assert (contents (Capture (tick w) active (dn b) e1).1 active = contents e1 active) as Ha
    by apply Capture_frame, (dur_active HS).
  destruct (decide (dn b = dn (mBranch m))) as [Heq|Hne].
  2: { eapply mirrors_evolves; [exact Hev| |exact H1]. left. apply Capture_frame. by apply (dur_dur HS). }
  rewrite Heq in *. destruct (Capture (tick w) active (dn (mBranch m)) e1).2 as [[]|x] eqn:Er.
  - destruct H1 as [(e0 & He0 & Hc0) _]. split.
    + exists e0. split; [|done]. eapply evolves_trans; eauto.
    + intros _ v. rewrite Ha, Capture_copies by (done || apply (dur_active HS)). done.
  - eapply mirrors_evolves; [exact Hev| |exact H1]. by eapply Capture_atomic.
Qed.

Lemma clean_captureVerified b : keeps clean_inv (captureVerified X active (dn b)).
Proof.
  eapply keeps_captureVerified; [apply clean_stable|apply clean_capture|]. intros n. apply dropping_quiet.
Qed.

Lemma clean_captureDurable b : keeps clean_inv (captureDurable blake3 X a active b).
Proof.
  eapply keeps_captureDurable; [apply clean_stable|apply clean_capture|]. intros n. apply dropping_quiet.
Qed.

Lemma quiet_active f : quiet active f.
Proof. by left. Qed.

(** the durable copy and the active namespace agree on branch [b] *)
Definition agree (b : string) (w : World E) : Prop :=
  forall v, contents (eng w) (dn b) = Some v -> contents (eng w) active = Some v.

Lemma agree_stable b : stable (agree b) (fun _ _ => False).
Proof.
  split; unfold agree; simpl; [|done..].
  intros w n k H v. rewrite (env_dur HS), (env_active HS). apply H.
Qed.

(** the answers of a program *)
Definition returns {A} (R : A -> Prop) (m : M E A) : Prop := forall w r, (m w).2 = Done r -> R r.

Lemma returns_bind {A B} (R : B -> Prop) (m : M E A) f : (forall r, returns R (f r)) -> returns R (m ≫= f).
Proof.
  intros Hf w r. unfold mbind, M_bind. destruct (m w) as [w' [x|e|]]; simpl; [|done..]. apply Hf.
Qed.

Lemma returns_ret {A} (R : A -> Prop) x : R x -> returns R (mret x : M E A).
Proof. intros HR w r [= <-]. done. Qed.

Lemma fill_from_others_how b :
  returns (fun h => h <> Some HResume) (fill_from_others blake3 suffix getwd window X Q a active b).
Proof.
  unfold fill_from_others.
  repeat first [apply returns_bind; intros ?|apply returns_ret; discriminate
               |match goal with |- returns _ (match ?x with _ => _ end) => destruct x end].
Qed.

(** a durable copy that is resumed fills the active namespace *)
Lemma resume_agree b w :
  wp (resumeDurableVerified blake3 X a active b) w (fun w' o => o = Done true -> agree b w').
Proof.
  unfold resumeDurableVerified. cbv zeta. apply wp_bind. unfold wp at 1.
  destruct (exists_quiet _ _ _) as [w1 [ex|e|]]; simpl; [|done..]. destruct ex; simpl; [|by unfold wp; simpl].
  apply wp_bind, wp_attempt. eapply wp_mono.
  { eapply (retry_done (about (dn b) (contents (eng w1) (dn b))) (fun t _ => t = active) active);
      [|done|auto with swap|reflexivity].
    apply about_stable; [constructor|]. intros t f ->. apply (active_dur HS). }
  assert (forall w2, agree b w2 -> wp (bad ← copyLostRows X (dn b) active;
      if negb bad then mret true else
      _ ← attempt (engine_op X (fun n => DropDurable n (dn b)));
      _ ← store_op X (fun _ => DeleteBranchDurable (repoID a) (dn b)); mret false) w2
    (fun w' o => o = Done true -> agree b w')) as Hrest.
  { intros w2 H2. apply wp_bind. eapply wp_mono.
    { eapply wp_keeps; [eapply keeps_copyLostRows, (agree_stable b)|exact H2]. }
    intros w3 [[|]|e|] H3; simpl; [|by intros _|done..].
    assert (returns (fun r => r = false) (_ ← attempt (engine_op X (fun n => DropDurable n (dn b)));
      _ ← store_op X (fun _ => DeleteBranchDurable (repoID a) (dn b)); mret false)) as Hr.
    { repeat (apply returns_bind; intros ?). by apply returns_ret. }
    unfold wp. intros Ho. apply Hr in Ho. done. }
  intros w2 [[]|e|] H2; simpl; [|by unfold wp; simpl|done].
  apply Hrest. destruct (H2 eq_refl) as (n & w0 & Hw0 & He & Hok).
  unfold agree, about in *. rewrite He. intros v.
  rewrite Restore_frame by apply (active_dur HS). rewrite Restore_copies by (done || apply (active_dur HS)). done.
Qed.

Lemma fill_agree b u w :
  wp (fill blake3 suffix getwd window X Q a active b u) w (fun w' o => o = Done (Some HResume) -> agree b w').
Proof.
  unfold fill. apply wp_bind. destruct u.
  - eapply wp_mono; [apply resume_agree|]. intros w1 [[|]|e|] H1; [|clear H1|done..].
    + unfold wp. simpl. auto.
    + unfold wp. intros Ho. by apply fill_from_others_how in Ho.
  - unfold wp at 1. simpl. unfold wp. intros Ho. by apply fill_from_others_how in Ho.
Qed.

(** the main checkout's default branch does not make its adoption look like a
    resume *)
Definition plain_default : Prop := forall n p, isResume (AdoptAs (o_defaultBranch Q n p)) = false.
Hypothesis HD : plain_default.

Lemma isResume_seed h : isResume (Seed h) = true -> h = HResume.
Proof. by destruct h; vm_compute. Qed.
Lemma isResume_swap h : isResume (Swap h) = true -> h = HResume.
Proof. by destruct h; vm_compute. Qed.
Lemma isResume_reseed h : isResume (Reseed h) = true -> h = HResume.
Proof. by destruct h; vm_compute. Qed.

Lemma adoptBranch_label b :
  returns (fun l => l = b \/ isResume (AdoptAs l) = false) (adoptBranch X Q a b).
Proof.
  unfold adoptBranch. apply returns_bind. intros [[id p]|]; [|apply returns_ret; auto].
  destruct (negb _); [apply returns_ret; auto|].
  intros w r. unfold mbind, M_bind, ask. simpl. destruct (crash X _); [done|]. simpl. intros [= <-].
  destruct (_ || _); auto.
Qed.

(** the bookkeeping may trust the decision *)
Definition trusted (b : string) (d : decision) (w : World E) : Prop :=
  (d = Noop -> GetActiveBranch (worktreeID a) active (st w) = Some b) /\
  (d = Adopt \/ isResume d = true -> agree b w).

Lemma agree_env b w n t k : agree b w -> agree b (Build_World (env X n (eng w)) t k).
Proof. intros H v. simpl. rewrite (env_dur HS), (env_active HS). apply H. Qed.

Lemma capture_agree b w :
  wp (captureDurable blake3 X a active b) w (fun w' o => o = Done tt -> agree b w').
Proof.
  eapply wp_mono.
  { apply wp_and; [apply (captureDurable_copies b (contents (eng w) active)); reflexivity|].
    eapply (wp_keeps _ _ (about active (contents (eng w) active))); [|reflexivity].
    apply keeps_captureDurable_away, about_stable; [constructor|auto]. }
  simpl. intros w' o [H1 H2] Ho v. rewrite (H1 Ho), H2. auto.
Qed.

Lemma seedFreshFrom_trusted b u w :
  wp (seedFreshFrom blake3 suffix getwd window X C Q a active b u) w (fun w' o =>
    match o with Done (_, d) => trusted b d w' /\ exists h, d = Seed h | _ => True end).
Proof.
  unfold seedFreshFrom. apply wp_bind. eapply wp_mono; [apply fill_agree|].
  intros w1 [[h|]|e|] H1; [|clear H1|done..].
  - unfold wp. simpl. split; [|eauto]. split; [done|].
    intros [[=]|Hr]. apply isResume_seed in Hr as ->. by apply H1.
  - assert (returns (fun r : bool * decision => r.2 = Seed HDump \/ r.2 = Seed HEmpty)
      (_ ← engine_op X (fun n => Empty n active);
       dumps ← ask X (o_dumpsReady Q);
       if negb (bool_decide (dumps = [])) && has_loadDump a
       then _ ← load_dumps X C active dumps; mret (true, Seed HDump) else mret (true, Seed HEmpty))) as Hr.
    { apply returns_bind. intros _. apply returns_bind. intros l. destruct (_ && _).
      - apply returns_bind. intros _. apply returns_ret. by left.
      - apply returns_ret. by right. }
    unfold wp. match goal with |- match ?o with _ => _ end => destruct o as [[be d]|e|] eqn:Eo end; auto.
    apply Hr in Eo. simpl in Eo. destruct Eo as [->| ->];
      (split; [split; [done|intros [[=]|[=]]]|eauto]).
Qed.

Lemma run_arm_trusted b w :
  wp (run_arm blake3 suffix getwd window X C Q a active b) w (fun w' o =>
    match o with Done (_, d) => trusted b d w' | _ => True end).
Proof.
  unfold run_arm. apply wp_bind, wp_store_read; [|by intros [| |]].
  set (w1 := Build_World _ _ _). apply wp_bind. unfold wp at 1, engine_read, engine_op. simpl.
  destruct (crash X _); [done|]. destruct (Exists _ _ _) as [ex|]; [|done]. simpl.
  destruct ex; simpl.
  - destruct (GetActiveBranch _ _ (st w)) as [old|] eqn:Eo.
    + destruct (String.eqb old b) eqn:Eb; simpl.
      * unfold wp. simpl. apply String.eqb_eq in Eb as ->. split; [auto|intros [[=]|[=]]].
      * unfold swapBranch. apply wp_bind, wp_bind.
        unfold wp at 1. destruct (captureRedundant _ _ _ _ _ _) as [w2 [r|?|]]; simpl; auto.
        apply wp_bind. unfold wp at 1.
        destruct ((if r : bool then mret tt else captureDurable blake3 X a active old) w2) as [w3 [?|?|]]; simpl; auto.
        apply wp_bind. unfold wp at 1. destruct (markActive _ _ _ _ _) as [w4 [?|?|]]; simpl; auto.
        apply wp_bind. eapply wp_mono; [apply fill_agree|]. intros w5 [h|?|] H5; auto.
        unfold wp. simpl. split; [done|]. intros [[=]|Hr]. apply isResume_swap in Hr.
        destruct h as [h|]; simpl in Hr; [subst; by apply H5|done].
    + apply wp_bind. unfold adoptExisting. apply wp_bind.
      unfold wp at 1. destruct (adoptBranch _ _ _ _ _) as [w2 [l|?|]] eqn:El; simpl; auto.
      apply (f_equal snd), adoptBranch_label in El.
      apply wp_bind. eapply wp_mono; [apply capture_agree|]. intros w3 [[]|?|] H3; auto.
      specialize (H3 eq_refl). unfold wp at 1. simpl.
      apply wp_bind. unfold wp at 1. destruct (markActive _ _ _ _ w3) as [w4 [[]|?|]] eqn:Em; simpl; auto.
      unfold wp. simpl. split; [by destruct (negb _)|].
      apply (f_equal fst) in Em. simpl in Em. subst w4. unfold markActive.
      destruct (String.eqb l b) eqn:Elb; simpl.
      * apply String.eqb_eq in Elb as ->. intros _. by apply (agree_env b w3).
      * intros [[=]|Hr]. apply String.eqb_neq in Elb. destruct El; congruence.
  - apply wp_bind. eapply wp_mono; [apply seedFreshFrom_trusted|].
    intros w2 [[be d]|?|] H2; auto. destruct H2 as [[Hn Ha] [h ->]].
    apply wp_bind. unfold wp at 1. destruct (markActive _ _ _ _ w2) as [w4 [[]|?|]] eqn:Em; simpl; auto.
    apply (f_equal fst) in Em. simpl in Em. subst w4. unfold wp, markActive. simpl.
    split; [done|]. intros Hd. apply (agree_env b w2); auto.
Qed.

Lemma trusted_env b d w n k : trusted b d w -> trusted b d (Build_World (env X n (eng w)) (st w) k).
Proof. intros [Hn Ha]. split; [exact Hn|]. intros Hd. apply (agree_env b w); auto. Qed.

Lemma migrateStep_trusted b be d w :
  trusted b d w ->
  wp (migrateStep blake3 suffix getwd window X C Q a active b be d) w (fun w' o =>
    match o with Done (mg, be', d') => mg = false -> be' = be /\ trusted b d' w' | _ => True end).
Proof.
  intros Ht. unfold migrateStep. destruct (negb (has_Migrate a)); [unfold wp; simpl; auto|].
  apply wp_bind, wp_store_read; [|by intros [| |]]. destruct (negb _).
  { unfold wp. simpl. intros _. split; [done|]. by apply trusted_env. }
  set (w1 := Build_World _ _ _).
  match goal with |- wp ?m _ _ => assert (returns (fun r : bool * bool * decision => r.1.1 = true) m) as Hr end.
  { apply returns_bind. intros r. apply returns_bind. intros bd. apply returns_bind. intros _. by apply returns_ret. }
  unfold wp. match goal with |- match ?o with _ => _ end => destruct o as [[[mg be'] d']|e|] eqn:Eo end; auto.
  apply Hr in Eo. simpl in Eo. subst. done.
Qed.

Lemma clean_set b wm w :
  mirrors wm (dn b) (eng w) -> clean_inv w -> clean_inv (set_clean X a active b true wm w).1.
Proof.
  intros Hm H. unfold set_clean, store_op. simpl. set (e1 := env X (tick w) (eng w)).
  assert (clean_inv (Build_World e1 (st w) (S (tick w)))) as H1 by (by apply (stable_env _ _ clean_stable)).
  destruct (store_fault X _); [exact H1|]. intros m. unfold marker. cbn [st].
  rewrite active_SetActiveBranchClean, decide_True by done. intros [= <-] _ _. simpl.
  eapply mirrors_evolves; [apply (env_evolves HS)|left; apply (env_dur HS)|exact Hm].
Qed.

Lemma keeps_read_then {A B} P (m : M E A) (f : A -> M E B) w :
  keeps P m -> P w -> (forall w' r, m w = (w', Done r) -> P w' -> P (f r w').1) -> P ((m ≫= f) w).1.
Proof.
  intros Hm Hw Hf. specialize (Hm w Hw). unfold mbind, M_bind.
  destruct (m w) as [w' [r|e|]]; simpl in *; auto.
Qed.

Lemma bind_ret_fst {A B} (m : M E A) (r : B) w : (m ≫= (fun _ => mret r)) w = ((m w).1, match (m w).2 with
  | Done _ => Done r | Fail e => Fail e | Crashed => Crashed end).
Proof. unfold mbind, M_bind. by destruct (m w) as [w' [x|e|]]. Qed.

Lemma clean_unset b w : clean_inv w -> clean_inv (set_clean X a active b false "" w).1.
Proof. apply clean_store, harmless_unclean. Qed.

(** the answer of [Watermark] is the counter of its moment *)
Lemma attempt_watermark w w' cw :
  attempt (engine_read X (fun n => Watermark n active)) w = (w', Done (Ok cw)) -> cw <> "" ->
  eng w' = env X (tick w) (eng w) /\ st w' = st w /\ counter (eng w') active = cw.
Proof.
  unfold attempt, engine_read, engine_op. simpl. destruct (crash X _); [done|].
  destruct (Watermark _ _ _) as [c|] eqn:Ew; simpl; [|done]. intros [= <- <-] Hne. simpl.
  repeat split. symmetry. by eapply Watermark_counter.
Qed.

Lemma recordClean_clean b d mg sd w :
  clean_inv w -> (mg = false -> sd = false -> trusted b d w) ->
  clean_inv (recordClean X a active b d mg sd w).1.
Proof.
  intros H Ht. unfold recordClean.
  destruct (mg || sd) eqn:Em; [by apply clean_unset|].
  apply orb_false_iff in Em as [-> ->]. destruct (Ht eq_refl eq_refl) as [Hn Ha]. clear Ht.
  destruct (bool_decide (d = Noop)) eqn:Ed.
  - apply bool_decide_eq_true in Ed as ->. specialize (Hn eq_refl).
    apply keeps_read_then; [eapply keeps_store_read, clean_stable|exact H|].
    intros w1 r E1 H1. destruct r as [[[] wm]|]; [|by apply clean_unset..].
    apply keeps_read_then; [eapply keeps_attempt, keeps_engine_read, clean_stable|exact H1|].
    intros w2 r2 E2 H2. destruct r2 as [cw|]; [|by apply clean_unset].
    destruct (negb _ && _) eqn:Ec; [|by apply clean_unset].
    apply andb_true_iff in Ec as [Hne Heq]. apply negb_true_iff, String.eqb_neq in Hne.
    apply String.eqb_eq in Heq as ->. destruct (attempt_watermark _ _ _ E2 Hne) as (He2 & Hs2 & Hc2).
    unfold store_read in E1. destruct (crash X (tick w)), (store_fault X (tick w)); try congruence.
    injection E1 as <- Hr. simpl in Hs2. apply clean_set; [|exact H2].
    unfold GetActiveBranchClean in Hr. unfold GetActiveBranch in Hn.
    destruct (active_branch_db (st w) !! _) as [m|] eqn:Em; [|done].
    simpl in Hr, Hn. injection Hr as Hc Hwm. injection Hn as <-. rewrite <- Hwm.
    apply H2; [unfold marker; by rewrite Hs2|done|by rewrite Hwm].
  - destruct (bool_decide (d = Adopt) || isResume d) eqn:Er; [|by apply clean_unset].
    assert (agree b w) as Hab.
    { apply Ha. apply orb_true_iff in Er as [Er|Er]; [left; by apply bool_decide_eq_true in Er|by right]. }
    apply keeps_read_then; [eapply keeps_attempt, keeps_engine_read, clean_stable|exact H|].
    intros w2 r2 E2 H2. destruct r2 as [cw|]; [|by apply clean_unset].
    destruct (negb _) eqn:Hne; [|by apply clean_unset].
    apply negb_true_iff, String.eqb_neq in Hne. destruct (attempt_watermark _ _ _ E2 Hne) as (He2 & Hs2 & Hc2).
    apply clean_set; [|exact H2]. split.
    + exists (eng w2). split; [apply evolves_refl|done].
    + intros _ v. rewrite He2. by apply (agree_env b w (tick w) (st w) O).
Qed.

Lemma run_in_clean b w :
  clean_inv w -> clean_inv (run_in blake3 suffix getwd window X C Q a active b w).1.
Proof.
  intros H. unfold run_in.
  assert (forall b' n, quiet (dn b') (dropping n (dn b'))) as Hq by (intros; apply dropping_quiet).
  apply keeps_read_then; [|exact H|].
  { unfold run_arm. apply keeps_bind; [eapply keeps_store_read, clean_stable|intros old].
    apply keeps_bind; [eapply keeps_engine_read, clean_stable|intros ex].
    destruct (negb ex).
    { apply keeps_bind; [eapply keeps_seedFreshFrom; [apply clean_stable|apply quiet_active|auto]|intros r].
      apply keeps_bind; [apply clean_store, harmless_mark|intros _; keeps_auto]. }
    destruct old as [old|].
    - destruct (negb _); [|keeps_auto]. apply keeps_bind; [|intros r; keeps_auto]. unfold swapBranch.
      apply keeps_bind; [eapply keeps_captureRedundant, clean_stable|intros red].
      apply keeps_bind; [destruct red; [keeps_auto|apply clean_captureDurable]|intros _].
      apply keeps_bind; [apply clean_store, harmless_mark|intros _].
      apply keeps_bind; [eapply keeps_fill; [apply clean_stable|apply quiet_active|auto]|intros; keeps_auto].
    - apply keeps_bind; [|intros d; apply keeps_bind; [apply clean_store, harmless_mark|intros _; keeps_auto]].
      unfold adoptExisting. apply keeps_bind.
      + unfold adoptBranch. pose proof clean_stable. keeps_auto.
      + intros l. apply keeps_bind; [apply clean_captureDurable|intros _; keeps_auto]. }
  intros w1 [be d] E1 H1. pose proof (run_arm_trusted b w) as Ht. unfold wp in Ht. rewrite E1 in Ht. simpl in Ht.
  unfold finish_run. apply keeps_read_then; [eapply keeps_migrateStep; [apply clean_stable|apply quiet_active|auto]|exact H1|].
  intros w2 [[mg be'] d'] E2 H2. simpl.
  pose proof (migrateStep_trusted b be d w1 Ht) as Ht2. simpl in E2. unfold wp in Ht2. rewrite E2 in Ht2. simpl in Ht2.
  apply keeps_read_then; [|exact H2|].
  { destruct (_ && _); [|keeps_auto].
    eapply keeps_engine_op with (t := active); [apply clean_stable|intros n; apply quiet_active|auto with swap]. }
  intros w3 [] E3 H3. rewrite bind_ret_fst. simpl. apply recordClean_clean; [exact H3|].
  intros -> Hsd. destruct (Ht2 eq_refl) as [-> Htr]. simpl in *. rewrite Hsd in E3. injection E3 as <-. exact Htr.
Qed.

(** *** Teardown, reset and save *)
Lemma clearActiveMarkers_clean : keeps clean_inv (clearActiveMarkers X a active).
Proof.
  unfold clearActiveMarkers. apply keeps_bind; [apply clean_store; by apply harmless_rows|intros _].
  apply clean_store, harmless_clear.
Qed.

Lemma clean_drop : keeps clean_inv (engine_op X (fun n => Drop n active)).
Proof. eapply keeps_engine_op with (t := active); [apply clean_stable|intros n; apply quiet_active|auto with swap]. Qed.

Lemma teardownActive_clean : keeps clean_inv (teardownActive blake3 X a active).
Proof.
  pose proof clean_stable. unfold teardownActive, captureBranchScopedOnTeardown, recordDurable.
  apply keeps_bind; [|intros _; apply keeps_bind; [apply clean_drop|intros _; apply clearActiveMarkers_clean]].
  keeps_auto; [apply clean_captureVerified|]. apply clean_store. by apply harmless_rows.
Qed.

Lemma resetActiveNamespace_clean : keeps clean_inv (resetActiveNamespace blake3 X a active).
Proof.
  pose proof clean_stable. unfold resetActiveNamespace.
  apply keeps_bind; [keeps_auto|intros b]. apply keeps_bind.
  - destruct b as [b|]; [|keeps_auto]. destruct (String.eqb _ _); [keeps_auto|]. cbv zeta.
    apply keeps_bind; [|intros _; apply clean_store; by apply harmless_rows].
    apply keeps_attempt. eapply keeps_engine_op with (t := dn b); [exact H| |auto with swap].
    intros n. apply dropping_quiet.
  - intros _. apply keeps_bind; [apply clean_drop|intros _; apply clearActiveMarkers_clean].
Qed.

(** a successful capture, seen from its branch *)
Lemma captureRetrying_agree b w :
  wp (captureRetrying X active (dn b)) w (fun w' o => o = Done tt -> agree b w').
Proof.
  eapply wp_mono.
  { apply wp_and; [apply (captureRetrying_copies b (contents (eng w) active)); reflexivity|].
    eapply (wp_keeps _ _ (about active (contents (eng w) active))); [|reflexivity].
    pose proof (dur_active HS) as Hd.
    assert (stable (about active (contents (eng w) active)) (fun t _ => separate t active)) as HP
      by (apply about_stable; [constructor|auto]).
    eapply keeps_captureRetrying; [exact HP|].
    eapply keeps_engine_op with (t := dn b); [exact HP|intros n; apply Hd|auto with swap]. }
  simpl. intros w' o [H1 H2] Ho v. rewrite (H1 Ho), H2. auto.
Qed.

Lemma saveActiveNamespace_clean w :
  clean_inv w -> clean_inv (saveActiveNamespace blake3 X a active w).1.
Proof.
  intros H. pose proof clean_stable as HP. unfold saveActiveNamespace.
  apply keeps_read_then; [keeps_auto|exact H|]. intros w1 [b|] _ H1; [|exact H1].
  destruct (String.eqb _ _); [exact H1|].
  apply keeps_read_then; [keeps_auto|exact H1|]. intros w2 ex _ H2. destruct (negb ex); [exact H2|].
  cbv zeta. apply keeps_read_then; [keeps_auto|exact H2|]. intros w3 c _ H3.
  apply keeps_read_then; [keeps_auto; eapply keeps_exists_quiet; eauto|exact H3|]. intros w4 skip _ H4.
  destruct skip; [exact H4|].
  apply keeps_read_then; [eapply keeps_captureRetrying; [exact HP|apply clean_capture]|exact H4|].
  intros w5 [] E5 H5. pose proof (captureRetrying_agree b w4) as Hag. unfold wp in Hag. rewrite E5 in Hag.
  specialize (Hag eq_refl). simpl in Hag.
  apply keeps_read_then; [apply clean_store; by apply harmless_rows|exact H5|].
  intros w6 [] E6 H6. unfold recordDurable, store_op in E6.
  injection E6 as E6 _. assert (agree b w6) as Hag6 by (subst w6; by apply agree_env).
  apply keeps_read_then; [keeps_auto|exact H6|].
  intros w7 r E7 H7. rewrite bind_ret_fst. simpl.
  destruct r as [cw|]; [|exact H7]. destruct (String.eqb cw "") eqn:Hne; [exact H7|].
  apply String.eqb_neq in Hne. destruct (attempt_watermark _ _ _ E7 Hne) as (He & Hs & Hc).
  apply clean_set; [|exact H7]. split.
  - exists (eng w7). split; [apply evolves_refl|done].
  - intros _ v. rewrite He. by apply (agree_env b w6 (tick w6) (st w6) O).
Qed.
End Clean.
End Frames.

#[export] Hint Resolve keeps_engine_read keeps_store_read keeps_ask keeps_exists_quiet : swap.
#[export] Hint Resolve acts_Restore acts_RestoreParent acts_Capture acts_Empty acts_Drop acts_DropDurable : swap.
