(* ===== verification/BranchDemo.v ===== *)
(** * A concrete engine for the swap lifecycle

    A store of named values with a write counter per name. Calls fail at
    given times; a failed write leaves its target alone, or torn. It obeys
    [NsLaws] whatever the faults, and [NsAtomic] when writes do not tear, so
    the hypotheses of the theorems of [BranchHistory] can be met. *)
From stdpp Require Import base strings list sets gmap pretty.
From Stdlib Require Import ZArith Lia.
From S2P Require Import Prelude GoStrings Engine Slug Template SnapshotKey BranchStore BranchSwap BranchSafety.

Record Mem := { data : gmap string string; vers : gmap string N }.

Definition ver (e : Mem) (ns : string) : N := default 0%N (vers e !! ns).

(** write [v] to [t]; None removes it *)
Definition put (t : string) (v : option string) (e : Mem) : Mem :=
  {| data := partial_alter (fun _ => v) t (data e); vers := <[t := (ver e t + 1)%N]> (vers e) |}.

Definition mem_evolves (e e' : Mem) : Prop :=
  forall ns, (ver e ns < ver e' ns)%N \/ (ver e ns = ver e' ns /\ data e !! ns = data e' !! ns).

Lemma put_same t v e : data (put t v e) !! t = v.
Proof. apply lookup_partial_alter_eq. Qed.

Lemma put_other t v e x : t <> x -> data (put t v e) !! x = data e !! x.
Proof. intros H. by apply lookup_partial_alter_ne. Qed.

Lemma put_evolves t v e : mem_evolves e (put t v e).
Proof.
  intros ns. unfold ver, put. simpl. destruct (decide (t = ns)) as [->|Hne].
  - left. rewrite lookup_insert_eq. simpl. unfold ver. lia.
  - right. rewrite lookup_insert_ne, lookup_partial_alter_ne; done.
Qed.

Lemma mem_evolves_refl e : mem_evolves e e.
Proof. intros ns. auto. Qed.

Lemma mem_evolves_trans e1 e2 e3 : mem_evolves e1 e2 -> mem_evolves e2 e3 -> mem_evolves e1 e3.
Proof. intros H1 H2 ns. destruct (H1 ns) as [?|[? ?]], (H2 ns) as [?|[? ?]]; [left; lia..|right]. split; congruence. Qed.

(** rows of the one table of a namespace *)
Definition mem_rows (ns : string) (e : Mem) : gmap string Z :=
  match data e !! ns with
  | Some v => {[ "t" := Z.of_nat (String.length v) ]}
  | None => ∅
  end.

Section Driver.
Variable fault : nat -> bool.
Variable torn : bool.

(** a write of [v] to [t] at call [n] *)
Definition write (n : nat) (t : string) (v : option string) (e : Mem) : Mem * res err unit :=
  if fault n then (if torn then put t (Some "torn") e else e, Err Other) else (put t v e, Ok tt).

(** a copy of a namespace that is there *)
Definition copy (n : nat) (s t : string) (e : Mem) : Mem * res err unit :=
  match data e !! s with
  | Some v => write n t (Some v) e
  | None => (e, Err Other)
  end.

Definition demo : NsDriver Mem string := {|
  contents e ns := data e !! ns;
  Exists n ns e := if fault n then Err Other else Ok (bool_decide (is_Some (data e !! ns)));
  Capture n s t e := copy n s t e;
  Restore n s t e := copy n s t e;
  RestoreParent n s t _ e := copy n s t e;
  Empty n t e := write n t (Some "") e;
  Drop n t e := write n t None e;
  DropDurable n t e := write n t None e;
  Watermark n ns e := if fault n then Err Other else Ok (pretty (ver e ns));
  has_sampler := true;
  RowCountSample n ns e := if fault n then Err Other else Ok (mem_rows ns e);
  RowCountsFor n ns _ e := if fault n then Err Other else Ok (mem_rows ns e)
|}.

Lemma write_frame n t v e x : t <> x -> data (write n t v e).1 !! x = data e !! x.
Proof. intros H. unfold write. destruct (fault n); [destruct torn; [by apply put_other|done]|by apply put_other]. Qed.

Lemma write_evolves n t v e : mem_evolves e (write n t v e).1.
Proof.
  unfold write. destruct (fault n); simpl; [destruct torn|]; auto using put_evolves, mem_evolves_refl.
Qed.

Lemma write_ok n t v e : (write n t v e).2 = Ok tt -> data (write n t v e).1 !! t = v.
Proof. unfold write. destruct (fault n); simpl; [done|]. intros _. apply put_same. Qed.

Lemma copy_frame n s t e x : t <> x -> data (copy n s t e).1 !! x = data e !! x.
Proof. intros H. unfold copy. destruct (data e !! s); [by apply write_frame|done]. Qed.

Lemma copy_evolves n s t e : mem_evolves e (copy n s t e).1.
Proof. unfold copy. destruct (data e !! s); [apply write_evolves|apply mem_evolves_refl]. Qed.

Lemma copy_ok n s t e : (copy n s t e).2 = Ok tt -> data (copy n s t e).1 !! t = data e !! s.
Proof. unfold copy. destruct (data e !! s); [apply write_ok|done]. Qed.

#[export] Instance demo_laws : @NsLaws Mem string demo.
Proof.
  refine {| separate := fun t x => t <> x; evolves := mem_evolves; counter e ns := pretty (ver e ns) |}; simpl.
  - apply mem_evolves_refl.
  - apply mem_evolves_trans.
  - intros n ns e w. destruct (fault n); [done|]. by intros [= <-].
  - intros e e' ns H Hc. apply (inj pretty) in Hc. destruct (H ns) as [?|[_ ?]]; [lia|done].
  - intros e1 e2 e3 ns H1 H2 Hc. apply (inj pretty) in Hc. f_equal.
    destruct (H1 ns) as [?|[? _]], (H2 ns) as [?|[? _]]; lia.
  - intros n ns e b. destruct (fault n); [done|]. intros [= <-]. by rewrite bool_decide_eq_true.
  - intros. by apply copy_frame.
  - intros. by apply copy_ok.
  - intros. apply copy_evolves.
  - intros. by apply copy_frame.
  - intros. by apply copy_ok.
  - intros. apply copy_evolves.
  - intros. by apply copy_frame.
  - intros. apply copy_evolves.
  - intros. by apply write_frame.
  - intros. apply write_evolves.
  - intros. by apply write_frame.
  - intros. by apply write_ok.
  - intros. apply write_evolves.
  - intros. by apply write_frame.
  - intros. by apply write_ok.
  - intros. apply write_evolves.
Defined.
End Driver.

Lemma write_atomic fault n t v e x :
  (write fault false n t v e).2 = Err x -> data (write fault false n t v e).1 !! t = data e !! t.
Proof. unfold write. by destruct (fault n). Qed.

(** writes that do not tear *)
#[export] Instance demo_atomic fault : @NsAtomic Mem string (demo fault false).
Proof.
  split; simpl.
  - intros n s t e x. unfold copy. destruct (data e !! s); [|by left]. intros H. left. by eapply write_atomic.
  - intros n t e x H. left. by eapply write_atomic.
Defined.

(** ** Surroundings *)

(** nothing else happens, and the process does not die *)
Definition calm : Surroundings Mem :=
  {| env := fun _ e => e; crash := fun _ => false; store_fault := fun _ => false; cancelled := fun _ => false;
     now := fun n => Z.of_nat n |}.

(** the process dies at call [k] *)
Definition crash_at (k : nat) : Surroundings Mem :=
  {| env := fun _ e => e; crash := Nat.eqb k; store_fault := fun _ => false; cancelled := fun _ => false;
     now := fun n => Z.of_nat n |}.

(** the application writes [v] to [t] just before call [k] *)
Definition write_at (k : nat) (t v : string) : Surroundings Mem :=
  {| env := fun n e => if Nat.eqb k n then put t (Some v) e else e; crash := fun _ => false;
     store_fault := fun _ => false; cancelled := fun _ => false; now := fun n => Z.of_nat n |}.

Definition idle : Commands Mem :=
  {| migrate_cmd := fun _ _ e => (e, Ok tt); seed_cmd := fun _ _ e => (e, Ok tt);
     loadDump_cmd := fun _ _ _ e => (e, Ok tt) |}.

(** a repository with one worktree on [branch] and a base branch whose
    database is called [parent] *)
Definition on_branch (branch : string) (parent : option string) : Oracles :=
  {| o_WorktreeBranch := fun _ => Ok branch;
     o_parentDB := fun _ _ => Ok parent;
     o_mainFallbackDB := fun _ _ => Ok None;
     o_LookupMainWorktree := fun _ => Ok None;
     o_defaultBranch := fun _ _ => "";
     o_baseBranchName := fun _ _ => Ok "";
     o_ListWorktreesForRepo := fun _ => Ok [];
     o_dumpsReady := fun _ => Ok [] |}.

Definition demo_args : branchScopedArgs :=
  {| d_ := {| NameTemplate := "app"; KeyPrefix := "app:" |}; mainD := None; has_Migrate := false; has_Seed := false;
     has_loadDump := false; worktreePath := "/w"; repoID := 1; worktreeID := 7; migrateFP := "";
     engine := "mysql"; scope := scopeName |}.

Definition no_tables : Tables :=
  {| active_branch_db := ∅; branch_durables := []; branch_db_migrated := ∅; template_db_built := ∅ |}.

(** ** One engine without faults, for witnesses *)
Definition no_fault (n : nat) : bool := false.
Definition fault_at (k : nat) : nat -> bool := Nat.eqb k.

#[export] Instance demo_driver : NsDriver Mem string := demo no_fault false.
#[export] Instance demo_driver_laws : NsLaws Mem string := demo_laws no_fault false.
#[export] Instance demo_driver_atomic : NsAtomic Mem string := demo_atomic no_fault.

Definition demo_digest (s : string) : string := s.
Definition demo_dn (branch : string) : string := durableName demo_digest demo_args "app" branch.

(** surroundings that leave the engine alone between calls *)
Lemma demo_setting fault torn X args :
  (forall n e, env X n e = e) ->
  @Setting Mem string (demo fault torn) (demo_laws fault torn) demo_digest X idle args "app".
Proof.
  intros HX. split; simpl; try done.
  - intros b. unfold durableName, durable. destruct (scope args); [done|]. by repeat case_match.
  - intros b. unfold durableName, durable. destruct (scope args); [done|]. by repeat case_match.
  - intros n e. by rewrite HX.
  - intros n e b. by rewrite HX.
  - intros n e. rewrite HX. apply mem_evolves_refl.
  - intros n e. apply mem_evolves_refl.
  - intros n e. apply mem_evolves_refl.
  - intros n f e. apply mem_evolves_refl.
Qed.

(** a prepare of the demo database on a branch *)
Definition demo_run (ND : NsDriver Mem string) (X : Surroundings Mem) (branch : string) : M Mem decision :=
  @runBranchScoped Mem string ND demo_digest "" None default_range X idle (on_branch branch None) demo_args.

(** the application's database before treeman, and an application write *)
Definition fresh : World Mem := Build_World {| data := {[ "app" := "base" ]}; vers := ∅ |} no_tables 0.
Definition app_writes (v : string) (w : World Mem) : World Mem :=
  Build_World (put "app" (Some v) (eng w)) (st w) (tick w).

(** adopted on main, written to, switched to dev, written to *)
Definition on_main : World Mem := app_writes "main data" (demo_run demo_driver calm "main" fresh).1.
Definition on_dev : World Mem := app_writes "dev data" (demo_run demo_driver calm "dev" on_main).1.

Example demo_back :
  let r := demo_run demo_driver calm "main" on_dev in
  (decision_text <$> match r.2 with Done d => Some d | _ => None end) = Some "swap:resume" /\
  data (eng r.1) !! "app" = Some "main data" /\ data (eng r.1) !! demo_dn "dev" = Some "dev data".
Proof. vm_compute. done. Qed.

Lemma demo_active : activeNamespace demo_digest "" None default_range (d_ demo_args) (scope demo_args)
  (worktreePath demo_args) = Some "app".
Proof. vm_compute. reflexivity. Qed.

Lemma demo_plain br p : plain_default (on_branch br p).
Proof. intros n q. vm_compute. reflexivity. Qed.
