(* ===== verification/BranchHistory.v ===== *)
(** * Histories of a branch-scoped database

    The theorems about [BranchSwap] over every history of prepares, teardowns,
    resets and saves, with faults and crashes at any call, and writes of the
    application in between; then the counterexamples that mark where the
    guarantees end. *)
From stdpp Require Import base strings list sets gmap pretty relations.
From Stdlib Require Import ZArith Lia.
From S2P Require Import Prelude GoStrings Engine Slug Template SnapshotKey BranchStore BranchSwap BranchSafety BranchDemo.

(** ** The steps of a history *)
Record same_db (a a' : branchScopedArgs) : Prop := {
  same_worktree : worktreeID a = worktreeID a';
  same_engine : engine a = engine a';
  same_scope : scope a = scope a'
}.

Section History.
Context {E Data : Type} {ND : NsDriver E Data} {NL : NsLaws E Data}.
Variable blake3 : string -> string.
Variable suffix : string.
Variable getwd : option string.
Variable window : redis_range.
Variable a : branchScopedArgs.
Variable active : string.

Notation dn := (durableName blake3 a active).

(** each operation runs in surroundings of its own; between two operations
    the application may write to the active namespace, durable copies may be
    dropped and the tables of other databases may change *)
Inductive step : World E -> World E -> Prop :=
| step_run X C Q a' w :
    Setting blake3 X C a' active -> plain_default Q -> same_db a a' ->
    activeNamespace blake3 suffix getwd window (d_ a') (scope a') (worktreePath a') = Some active ->
    step w (runBranchScoped blake3 suffix getwd window X C Q a' w).1
| step_teardown X C a' w :
    Setting blake3 X C a' active -> same_db a a' -> step w (teardownActive blake3 X a' active w).1
| step_reset X C a' w :
    Setting blake3 X C a' active -> same_db a a' -> step w (resetActiveNamespace blake3 X a' active w).1
| step_save X C a' w :
    Setting blake3 X C a' active -> same_db a a' -> step w (saveActiveNamespace blake3 X a' active w).1
| step_world w e t k :
    evolves (eng w) e ->
    (forall b, contents e (dn b) = contents (eng w) (dn b) \/ contents e (dn b) = None) ->
    active_branch_db t !! (worktreeID a, active) = active_branch_db (st w) !! (worktreeID a, active) ->
    step w (Build_World e t k).

Lemma same_db_dn a' b : same_db a a' -> durableName blake3 a' active b = dn b.
Proof. intros [_ He Hs]. unfold durableName. by rewrite He, Hs. Qed.

Lemma same_db_marker a' (w : World E) : same_db a a' -> marker a' active w = marker a active w.
Proof. intros [Hw _ _]. unfold marker. by rewrite Hw. Qed.

Lemma same_db_clean a' (w : World E) : same_db a a' -> clean_inv blake3 a' active w <-> clean_inv blake3 a active w.
Proof.
  intros H. unfold clean_inv, clean_means. rewrite (same_db_marker a' w H).
  split; intros Hc m Hm Hcl Hw; specialize (Hc m Hm Hcl Hw); by rewrite (same_db_dn a' _ H) in *.
Qed.

Lemma run_clean X C Q {NA : NsAtomic E Data} w :
  Setting blake3 X C a active -> plain_default Q ->
  activeNamespace blake3 suffix getwd window (d_ a) (scope a) (worktreePath a) = Some active ->
  clean_inv blake3 a active w ->
  clean_inv blake3 a active (runBranchScoped blake3 suffix getwd window X C Q a w).1.
Proof.
  intros HS HD Hact H. unfold runBranchScoped. rewrite Hact.
  apply keeps_read_then; [|exact H|].
  - eapply keeps_ask. by eapply clean_stable.
  - intros w1 b _ H1. by apply run_in_clean.
Qed.
End History.

Section Theorems.
Context {E Data : Type} {ND : NsDriver E Data} {NL : NsLaws E Data} {NA : NsAtomic E Data}.
Variable blake3 : string -> string.
Variable suffix : string.
Variable getwd : option string.
Variable window : redis_range.
Variable a : branchScopedArgs.
Variable active : string.

Notation dn := (durableName blake3 a active).
Notation step := (step blake3 suffix getwd window a active).

Lemma step_clean w w' : clean_inv blake3 a active w -> step w w' -> clean_inv blake3 a active w'.
Proof.
  intros H Hs. destruct Hs as [X C Q a' w HS HD Hdb Hact|X C a' w HS Hdb|X C a' w HS Hdb|X C a' w HS Hdb|w e t k He Hd Ht].
  - rewrite <- (same_db_clean blake3 a active a') in * by done. eapply run_clean; eauto.
  - rewrite <- (same_db_clean blake3 a active a') in * by done. eapply teardownActive_clean; eauto.
  - rewrite <- (same_db_clean blake3 a active a') in * by done. eapply resetActiveNamespace_clean; eauto.
  - rewrite <- (same_db_clean blake3 a active a') in * by done. eapply saveActiveNamespace_clean; eauto.
  - intros m Hm Hc Hw. unfold marker in Hm. simpl in Hm. rewrite Ht in Hm.
    eapply mirrors_evolves; [exact He|apply Hd|by apply H].
Qed.

Lemma history_inv w0 w : marker a active w0 = None -> rtc step w0 w -> clean_inv blake3 a active w.
Proof.
  intros H0 Hr. eapply rtc_invariant; [intros; by eapply step_clean|exact Hr|].
  intros m Hm. congruence.
Qed.

End Theorems.

Section Switch.
Context {E Data : Type} {ND : NsDriver E Data} {NL : NsLaws E Data}.
Variable blake3 : string -> string.
Variable suffix : string.
Variable getwd : option string.
Variable window : redis_range.
Variable a : branchScopedArgs.
Variable active : string.

Notation dn := (durableName blake3 a active).
Notation step := (step blake3 suffix getwd window a active).

(** C1: a prepare that finds the worktree on another branch never loses the
    data of the branch that it leaves, as long as nobody else writes to the
    databases while it runs: whatever call fails, whatever a failed call leaves
    behind and wherever the process dies, the data is still live under the old
    branch's marker or it is in the old branch's durable copy.  Only a marker
    that says clean, which lets the capture be skipped, has to be right: it is,
    after every history in which no failed capture or drop tore its target
    ([clean_marker_mirrors]). *)
Theorem switch_never_loses X C Q w old D :
  Setting blake3 X C a active ->
  activeNamespace blake3 suffix getwd window (d_ a) (scope a) (worktreePath a) = Some active ->
  GetActiveBranch (worktreeID a) active (st w) = Some old -> contents (eng w) active = Some D ->
  (forall n br, o_WorktreeBranch Q n = Ok br -> dn (branchLabel br) <> dn old) ->
  (forall m, marker a active w = Some m -> mClean m = true ->
     NsAtomic E Data /\ exists w0, marker a active w0 = None /\ rtc step w0 w) ->
  let w' := (runBranchScoped blake3 suffix getwd window X C Q a w).1 in
  (GetActiveBranch (worktreeID a) active (st w') = Some old /\ contents (eng w') active = Some D) \/
  contents (eng w') (dn old) = Some D.
Proof.
  intros HS Hact Hold HD Hbr Hclean. cbv zeta.
  assert (clean_inv blake3 a active w) as Hinv.
  { intros m Hm Hc Hwm. destruct (Hclean m Hm Hc) as (NA & w0 & H0 & Hr).
    exact (history_inv blake3 suffix getwd window a active w0 w H0 Hr m Hm Hc Hwm). }
  unfold runBranchScoped. rewrite Hact.
  assert (wp (branch ← ask X (o_WorktreeBranch Q); run_in blake3 suffix getwd window X C Q a active (branchLabel branch))
    w (fun w' _ => held blake3 a active old D w')) as Hw; [|exact Hw].
  apply wp_bind. unfold wp at 1, ask. simpl.
  assert (held blake3 a active old D (Build_World (env X (tick w) (eng w)) (st w) (S (tick w)))) as Hh.
  { left. split; [exact Hold|]. simpl. by rewrite (env_active _ _ _ _ _ HS). }
  destruct (crash X _); [exact Hh|]. destruct (o_WorktreeBranch Q _) as [br|e] eqn:Eb; [|exact Hh]. simpl.
  apply (run_in_held blake3 suffix getwd window X C Q a active HS old (branchLabel br) D); auto.
  - eauto.
  - apply (stable_env _ _ _ (clean_stable blake3 X C a active HS) w). exact Hinv.
  - simpl. by rewrite (env_active _ _ _ _ _ HS).
Qed.
End Switch.

(** *** A concrete history *)
Notation demo_step := (step (NL := demo_driver_laws) demo_digest "" None default_range demo_args "app").

Lemma demo_step_run X branch w : (forall n e, env X n e = e) -> demo_step w (demo_run demo_driver X branch w).1.
Proof.
  intros HX. apply (step_run (NL := demo_driver_laws)); [by apply demo_setting|apply demo_plain|done|apply demo_active].
Qed.

Lemma demo_step_write v w : demo_step w (app_writes v w).
Proof.
  apply (step_world (NL := demo_driver_laws)); [apply put_evolves| |done].
  intros b. left. by apply put_other.
Qed.

Lemma demo_history : rtc demo_step fresh on_dev.
Proof.
  unfold on_dev, on_main.
  eapply rtc_l; [apply (demo_step_run calm "main"); done|]. eapply rtc_l; [apply (demo_step_write "main data")|].
  eapply rtc_l; [apply (demo_step_run calm "dev"); done|]. eapply rtc_l; [apply (demo_step_write "dev data")|]. done.
Qed.

Lemma switch_never_loses_witness :
  let w' := (demo_run demo_driver (crash_at 38) "main" on_dev).1 in
  (GetActiveBranch 7 "app" (st w') = Some "dev" /\ data (eng w') !! "app" = Some "dev data") \/
  data (eng w') !! demo_dn "dev" = Some "dev data".
Proof.
  apply (switch_never_loses (NL := demo_driver_laws) demo_digest "" None default_range demo_args "app" (crash_at 38) idle
    (on_branch "main" None) on_dev "dev" "dev data").
  - apply demo_setting. reflexivity.
  - apply demo_active.
  - vm_compute. reflexivity.
  - vm_compute. reflexivity.
  - intros n br [= <-]. vm_compute. discriminate.
  - intros m _ _. split; [exact demo_driver_atomic|]. exists fresh. split; [reflexivity|apply demo_history].
Defined.


(** ** The operations one by one *)
Section Operations.
Context {E Data : Type} {ND : NsDriver E Data} {NL : NsLaws E Data}.
Variable blake3 : string -> string.
Variable suffix : string.
Variable getwd : option string.
Variable window : redis_range.
Variable X : Surroundings E.
Variable C : Commands E.
Variable Q : Oracles.
Variable a : branchScopedArgs.
Variable active : string.
Hypothesis HS : Setting blake3 X C a active.

Notation dn := (durableName blake3 a active).

(** what a store call leaves *)
Lemma store_read_world {A} (f : Tables -> A) w w' r :
  store_read X f w = (w', Done r) ->
  eng w' = env X (tick w) (eng w) /\ st w' = st w /\ tick w' = S (tick w) /\ r = f (st w).
Proof.
  unfold store_read. destruct (crash X (tick w)), (store_fault X (tick w)); try congruence.
  by intros [= <- <-].
Qed.

Lemma store_op_world f w w' r :
  store_op X f w = (w', Done r) ->
  eng w' = env X (tick w) (eng w) /\ st w' = f (now X (tick w)) (st w) /\ tick w' = S (tick w).
Proof.
  unfold store_op. destruct (crash X (tick w)), (store_fault X (tick w)); try congruence.
  by intros [= <- <-].
Qed.

Lemma engine_op_world {A} (f : nat -> E -> E * res err A) w w' r :
  engine_op X f w = (w', Done r) ->
  let e := env X (tick w) (eng w) in
  eng w' = (f (tick w) e).1 /\ st w' = st w /\ tick w' = S (tick w) /\ (f (tick w) e).2 = Ok r.
Proof.
  unfold engine_op. destruct (crash X (tick w)); [congruence|]. simpl.
  destruct (f _ _).2 eqn:Ef; simpl; [|congruence]. by intros [= <- <-].
Qed.

(** sequencing, with the outcome of the first part in hand *)
Lemma wp_seq {A B} (m : M E A) (f : A -> M E B) w R :
  (forall w' r, m w = (w', Done r) -> wp (f r) w' R) ->
  (forall w' o, m w = (w', o) -> (forall r, o <> Done r) -> forall o', (forall r, o' <> Done r) -> R w' o') ->
  wp (m ≫= f) w R.
Proof.
  intros H1 H2. apply wp_bind. unfold wp. destruct (m w) as [w' [r|e|]] eqn:Em; simpl.
  - by apply H1.
  - by eapply H2.
  - by eapply H2.
Qed.

Lemma GetActiveBranch_row (w : World E) b :
  GetActiveBranch (worktreeID a) active (st w) = Some b ->
  exists m, active_branch_db (st w) !! (worktreeID a, active) = Some m /\ mBranch m = b.
Proof. unfold GetActiveBranch. destruct (active_branch_db _ !! _) as [m|]; [|done]. intros [= <-]. eauto. Qed.

(** after the drop of the active namespace *)
Lemma dropped_active w :
  wp (_ ← engine_op X (fun n => Drop n active); clearActiveMarkers X a active) w (fun w' o =>
    o = Done tt ->
    contents (eng w') active = None /\ marker a active w' = None /\
    branch_durables (st w') = branch_durables (st w) /\
    forall b, GetBranchMigrated (worktreeID a) active b (st w') = None).
Proof.
  apply wp_seq; [|intros w' o _ _ o' Ho' Ho; by destruct (Ho' tt)].
  intros w1 [] E1. apply engine_op_world in E1 as (He1 & Hs1 & _ & Hok). simpl in He1, Hok.
  unfold clearActiveMarkers. apply wp_seq; [|intros w' o _ _ o' Ho' Ho; by destruct (Ho' tt)].
  intros w2 [] E2. apply store_op_world in E2 as (He2 & Hs2 & _).
  unfold wp. destruct (store_op X _ w2) as [w3 o] eqn:E3. simpl. intros ->.
  apply store_op_world in E3 as (He3 & Hs3 & _).
  split; [|split; [|split]].
  - rewrite He3, (env_active _ _ _ _ _ HS), He2, (env_active _ _ _ _ _ HS), He1. by apply Drop_gone.
  - unfold marker. rewrite Hs3. simpl. by rewrite lookup_delete_eq.
  - by rewrite Hs3, Hs2, Hs1.
  - intros b. rewrite Hs3, Hs2. unfold GetBranchMigrated. simpl.
    apply map_lookup_filter_None. right. intros v _. simpl. tauto.
Qed.

Lemma keeps_dropped P :
  stable X P (fun t _ => t = active) -> (forall w k, P w -> P (Build_World (eng w) (ClearActiveBranch (worktreeID a) active (st w)) k)) ->
  keeps P (_ ← engine_op X (fun n => Drop n active); clearActiveMarkers X a active).
Proof.
  intros HP Hc. apply keeps_bind.
  - eapply keeps_engine_op with (t := active); [exact HP|done|]. intros n. apply acts_Drop.
  - intros _. unfold clearActiveMarkers. apply keeps_bind; [eapply keeps_store_op; [exact HP|done]|intros _].
    intros w H. unfold store_op. simpl. pose proof (stable_env _ _ _ HP w (tick w) (S (tick w)) H) as H1.
    destruct (store_fault X _); [exact H1|]. apply (Hc (Build_World (env X (tick w) (eng w)) (st w) 0)).
    by apply (stable_env _ _ _ HP).
Qed.

(** a teardown never loses the data of the branch that is live:
    at every outcome it is still live under its marker or in the durable
    copy; a teardown that succeeds leaves it in the durable copy, the active
    namespace gone and no marker. *)
Theorem teardown_keeps_data w b D :
  GetActiveBranch (worktreeID a) active (st w) = Some b -> b <> "" -> contents (eng w) active = Some D ->
  let r := teardownActive blake3 X a active w in
  ((GetActiveBranch (worktreeID a) active (st r.1) = Some b /\ contents (eng r.1) active = Some D) \/
   contents (eng r.1) (dn b) = Some D) /\
  (r.2 = Done tt -> contents (eng r.1) (dn b) = Some D /\ contents (eng r.1) active = None /\ marker a active r.1 = None).
Proof.
  intros Hb Hne HD. cbv zeta.
  destruct (GetActiveBranch_row w b Hb) as (m & Hm & Hmb). set (r := active_branch_db (st w)) in *.
  assert (live active r D w) as HL by (split; [reflexivity|exact HD]).
  assert (forall w', live active r D w' -> held blake3 a active b D w') as Hheld by (intros w' H; by eapply live_held).
  pose proof (live_stable blake3 X C a active HS r D) as HP.
  set (R := fun (w' : World E) (o : outcome unit) => held blake3 a active b D w' /\
    (o = Done tt -> contents (eng w') (dn b) = Some D /\ contents (eng w') active = None /\ marker a active w' = None)).
  change (wp (teardownActive blake3 X a active) w R). unfold teardownActive.
  assert (wp (captureBranchScopedOnTeardown blake3 X a active) w (fun w' o =>
    match o with Done _ => safe_copy blake3 a active b D w' | _ => live active r D w' end)) as Hcap.
  { unfold captureBranchScopedOnTeardown. apply wp_bind, wp_store_read.
    2: { intros [| |]; [done|intros _; by apply (stable_env _ _ _ HP w)..]. }
    rewrite Hb. apply String.eqb_neq in Hne. rewrite Hne.
    set (w1 := Build_World _ _ _). assert (live active r D w1) as H1 by (by apply (stable_env _ _ _ HP w)).
    clearbody w1. assert (contents (eng w1) active = Some D) as H1a by apply H1. apply wp_seq.
    2: { intros w' o Eo _ o' Ho'. assert (live active r D w') as H2.
         { change w' with ((w', o).1). rewrite <- Eo. by eapply (keeps_engine_read _ _ _ HP). }
         destruct o'; [by destruct (Ho' a0)|done..]. }
    intros w2 ex E2. assert (live active r D w2) as H2.
    { change w2 with ((w2, Done ex).1). rewrite <- E2. by eapply (keeps_engine_read _ _ _ HP). }
    unfold engine_read in E2. apply engine_op_world in E2 as (_ & _ & _ & Hex). simpl in Hex.
    apply Exists_truth in Hex. rewrite (env_active _ _ _ _ _ HS) in Hex.
    rewrite H1a in Hex. destruct ex; [|discriminate (proj2 Hex (ex_intro _ D eq_refl))]. simpl.
    eapply wp_mono; [apply wp_and; [apply (captureDurable_copies blake3 X C a active HS b (Some D)); apply H2|
      eapply wp_keeps; [apply (keeps_captureDurable_away blake3 X C a active HS _ b HP)|exact H2]]|].
    intros w3 [[]|e|] [H3 HL3]; [by apply H3|exact HL3..]. }
  apply wp_bind. eapply wp_mono; [exact Hcap|]. intros w1 [[]|e|] H1; [|by split; [apply Hheld|]..].
  eapply wp_mono.
  { apply wp_and; [apply dropped_active|]. apply (wp_keeps _ _ (safe_copy blake3 a active b D)); [|exact H1].
    apply keeps_dropped; [|done]. apply (about_stable blake3 X C a active HS); [constructor|].
    intros t f ->. apply (active_dur _ _ _ _ _ HS). }
  intros w2 o [H2 HK]. split; [by right|]. intros Ho. destruct (H2 Ho) as (? & ? & _). auto.
Qed.

(** a reset touches one branch only: the durable copies of the other
    branches are as they were at every outcome. A reset that succeeds leaves
    no active namespace, no marker, no migrated fingerprint and no durable row
    of the branch. *)
Theorem reset_outcome w b :
  GetActiveBranch (worktreeID a) active (st w) = Some b -> b <> "" ->
  let r := resetActiveNamespace blake3 X a active w in
  (forall b', dn b <> dn b' -> contents (eng r.1) (dn b') = contents (eng w) (dn b')) /\
  (r.2 = Done tt ->
   contents (eng r.1) active = None /\ marker a active r.1 = None /\
   (forall b', GetBranchMigrated (worktreeID a) active b' (st r.1) = None) /\
   Forall (fun row => same_durable (repoID a) (dn b) row = false) (branch_durables (st r.1))).
Proof.
  intros Hb Hne. cbv zeta. split.
  - intros b' Hbb. unfold resetActiveNamespace.
    assert (stable X (about (dn b') (contents (eng w) (dn b'))) (fun t _ => t = active \/ t = dn b)) as HP.
    { apply (about_stable blake3 X C a active HS); [constructor|].
      intros t f [->| ->]; [apply (active_dur _ _ _ _ _ HS)|by apply (dur_dur _ _ _ _ _ HS)]. }
    apply keeps_read_then; [eapply keeps_store_read, HP|done|].
    intros w1 r E1 H1. apply store_read_world in E1 as (_ & _ & _ & ->). rewrite Hb.
    apply keeps_read_then; [|exact H1|].
    + apply String.eqb_neq in Hne. rewrite Hne. cbv zeta.
      apply keeps_bind; [apply keeps_attempt|intros _; by eapply keeps_store_op; [exact HP|]].
      eapply keeps_engine_op with (t := dn b); [exact HP|intros n; by right|]. intros n. apply acts_DropDurable.
    + intros w2 [] _ H2. apply keeps_dropped; [|done|exact H2].
      eapply stable_weaken; [exact HP|]. intros t f ->. by left.
  - set (R := fun (w' : World E) (o : outcome unit) => o = Done tt ->
      contents (eng w') active = None /\ marker a active w' = None /\
      (forall b', GetBranchMigrated (worktreeID a) active b' (st w') = None) /\
      Forall (fun row => same_durable (repoID a) (dn b) row = false) (branch_durables (st w'))).
    change (wp (resetActiveNamespace blake3 X a active) w R). unfold resetActiveNamespace.
    apply wp_seq; [|intros w' o _ _ o' Ho' Ho; by destruct (Ho' tt)].
    intros w1 r E1. apply store_read_world in E1 as (_ & _ & _ & ->). rewrite Hb.
    apply wp_seq; [|intros w' o _ _ o' Ho' Ho; by destruct (Ho' tt)].
    intros w2 [] E2. apply String.eqb_neq in Hne. rewrite Hne in E2. cbv zeta in E2.
    eapply wp_mono; [apply dropped_active|]. intros w3 o H3 Ho. destruct (H3 Ho) as (? & ? & Hrows & ?).
    repeat split; auto. rewrite Hrows. apply Forall_forall. intros row Hrow.
    revert E2. unfold mbind, M_bind. destruct (attempt _ w1) as [w1' [x|e|]]; [|congruence..].
    intros E2. apply store_op_world in E2 as (_ & Hs & _). rewrite Hs in Hrow.
    by eapply DeleteBranchDurable_gone.
Qed.

(** *** Programs that never succeed *)
Definition never {A} (m : M E A) : Prop := returns (fun _ => False) m.

Lemma never_bind_l {A B} (m : M E A) (f : A -> M E B) : never m -> never (m ≫= f).
Proof.
  intros H w r. specialize (H w). unfold mbind, M_bind. destruct (m w) as [w' [x|e|]]; simpl; try done.
  by destruct (H x).
Qed.

Lemma never_bind {A B} R (m : M E A) (f : A -> M E B) :
  returns R m -> (forall x, R x -> never (f x)) -> never (m ≫= f).
Proof.
  intros Hm H w r. specialize (Hm w). unfold mbind, M_bind. destruct (m w) as [w' [x|e|]]; simpl in *; try done.
  apply H. by apply Hm.
Qed.

Lemma never_fail {A} e : never (fail e : M E A).
Proof. by intros w r. Qed.

Section Broken.
Hypothesis Hbroken : forall n e, (migrate_cmd C n active e).2 <> Ok tt.

Lemma broken_migrate : never (migrate X C active).
Proof.
  intros w r. unfold migrate, engine_op. simpl. destruct (crash X _); [done|].
  specialize (Hbroken (tick w) (env X (tick w) (eng w))). by destruct (migrate_cmd _ _ _ _).2 as [[]|].
Qed.

Lemma broken_attempt : returns (fun r => is_ok r = false) (attempt (migrate X C active)).
Proof.
  intros w r. unfold attempt. pose proof (broken_migrate w) as H.
  destruct (migrate X C active w) as [w' [x|e|]]; simpl; [by destruct (H x)|by intros [= <-]|done].
Qed.

Lemma broken_reseed b c : never (reseedPastDurable blake3 suffix getwd window X C Q a active b c).
Proof.
  unfold reseedPastDurable. cbv zeta. eapply (never_bind (fun _ => True)); [by intros ??|].
  intros [[be s]|e] _; [|apply never_fail]. apply never_bind_l, broken_migrate.
Qed.

(** the part of [migrateStep] that follows a migrate that failed *)
Definition after_failure (b : string) (be : bool) (d : decision) (r : res err unit) : M E (bool * decision) :=
  match r with
  | Ok _ => mret (be, d)
  | Err CommandNotFound => fail CommandNotFound
  | Err e => if negb (isResume d) || isCancellation e || isTransientConn e then fail e
             else reseedPastDurable blake3 suffix getwd window X C Q a active b e
  end.

Lemma never_after_failure b be d r : is_ok r = false -> never (after_failure b be d r).
Proof.
  unfold after_failure. destruct r as [?|[]]; [done|..]; intros _; try apply never_fail.
  all: destruct (_ || _); [apply never_fail|apply broken_reseed].
Qed.

Lemma broken_migrateStep b be d w :
  has_Migrate a = true -> GetBranchMigrated (worktreeID a) active b (st w) = None ->
  forall r, (migrateStep blake3 suffix getwd window X C Q a active b be d w).2 <> Done r.
Proof.
  intros Hm Hprev r. unfold migrateStep. rewrite Hm. simpl. unfold mbind at 1, M_bind at 1, store_read.
  destruct (crash X _); [done|]. destruct (store_fault X _); [done|]. rewrite Hprev. simpl.
  unfold migrateNeeded. rewrite orb_true_r. simpl.
  intros Hd. revert Hd. fold (after_failure b be d). apply (never_bind _ _ _ broken_attempt).
  intros x Hx. apply never_bind_l. by apply (never_after_failure b be d).
Qed.

Lemma broken_keeps b v P :
  P = about (dn b) v -> stable X P (fun t _ => t = active) ->
  (forall be d, keeps P (migrateStep blake3 suffix getwd window X C Q a active b be d)).
Proof.
  intros -> HP be d.
  assert (keeps (about (dn b) v) (migrate X C active)) as Hkm.
  { eapply keeps_engine_op with (t := active); [exact HP|done|]. intros n. by apply (acts_migrate blake3 X C a). }
  unfold migrateStep. destruct (negb _); [apply keeps_ret|].
  apply keeps_bind; [eapply keeps_store_read, HP|intros prev]. destruct (negb _); [apply keeps_ret|].
  apply keeps_bind; [by apply keeps_attempt|intros r]. fold (after_failure b be d r). apply keeps_bind.
  - unfold after_failure. destruct r as [[]|[]]; simpl; try apply keeps_fail; try apply keeps_ret.
    all: destruct (_ || _); [apply keeps_fail|]; unfold reseedPastDurable; cbv zeta; apply keeps_bind.
    all: try (apply keeps_attempt; eapply (keeps_seedFreshFrom blake3 suffix getwd window X C Q a active HS);
      [exact HP|done|done]).
    all: intros [[be' s]|e]; [|apply keeps_fail]; intros w0 H0.
    all: specialize (Hkm w0 H0); pose proof (broken_migrate w0) as Hn; unfold mbind, M_bind.
    all: destruct (migrate X C active w0) as [w1 [x|e|]]; [by destruct (Hn x)|exact Hkm..].
  - intros bd'. apply keeps_bind; [|intros _; apply keeps_ret]. unfold recordMigrated.
    destruct (String.eqb _ _); [apply keeps_ret|].
    apply keeps_bind; [apply keeps_attempt; eapply keeps_store_op; [exact HP|done]|intros _; apply keeps_ret].
Qed.
End Broken.

(** when no migrate ever succeeds, the branch's durable copy
    survives the end of the prepare at every outcome, the re-seed past it
    included, and a prepare that has to migrate never reports success. *)
Theorem broken_migrations_keep_durable w b bd :
  (forall n e, (migrate_cmd C n active e).2 <> Ok tt) ->
  let r := finish_run blake3 suffix getwd window X C Q a active b bd w in
  contents (eng r.1) (dn b) = contents (eng w) (dn b) /\
  (has_Migrate a = true -> GetBranchMigrated (worktreeID a) active b (st w) = None -> forall d, r.2 <> Done d).
Proof.
  intros Hbroken. cbv zeta.
  assert (stable X (about (dn b) (contents (eng w) (dn b))) (fun t _ => t = active)) as HP.
  { apply (about_stable blake3 X C a active HS); [constructor|]. intros t f ->. apply (active_dur _ _ _ _ _ HS). }
  unfold finish_run. split.
  - apply keeps_read_then; [by eapply broken_keeps|reflexivity|]. intros w1 [[mg be] d] _ H1. cbv zeta.
    apply keeps_read_then; [|exact H1|].
    + destruct (_ && _); [|apply keeps_ret].
      eapply keeps_engine_op with (t := active); [exact HP|done|]. intros n. by apply (acts_seed blake3 X C a).
    + intros w2 [] _ H2. rewrite bind_ret_fst. simpl.
      eapply keeps_recordClean; [exact HP| |exact H2]. intros f. apply (about_store blake3 X C a active HS); constructor.
  - intros Hm Hprev d. pose proof (broken_migrateStep Hbroken b bd.1 bd.2 w Hm Hprev) as Hn.
    unfold mbind at 1, M_bind at 1. destruct (migrateStep _ _ _ _ _ _ _ _ _ _ _ _ w) as [w1 [x|e|]]; try done.
    by destruct (Hn x).
Qed.

(** a probe that answers *)
Lemma exists_quiet_true ns w w' :
  own blake3 a active ns -> exists_quiet X ns w = (w', Done true) ->
  is_Some (contents (eng w') ns) /\ st w' = st w /\ evolves (eng w) (eng w').
Proof.
  intros Ho. unfold exists_quiet, attempt, engine_read, engine_op, mbind, M_bind. simpl.
  destruct (crash X _); [congruence|]. destruct (Exists _ _ _) as [b|] eqn:Ex; simpl.
  - intros [= <- ->]. simpl. split; [|split; [done|apply (env_evolves _ _ _ _ _ HS)]].
    by apply Exists_truth in Ex; apply Ex.
  - intros [=].
Qed.

Lemma save_active w :
  contents (eng (saveActiveNamespace blake3 X a active w).1) active = contents (eng w) active.
Proof.
  assert (stable X (about active (contents (eng w) active)) (fun t _ => separate t active)) as HP
    by (apply (about_stable blake3 X C a active HS); [constructor|auto]).
  assert (forall f, keeps (about active (contents (eng w) active)) (store_op X f)) as Hst
    by (intros f; apply (about_store blake3 X C a active HS); constructor).
  assert (keeps (about active (contents (eng w) active)) (saveActiveNamespace blake3 X a active)) as H;
    [|by apply H].
  unfold saveActiveNamespace, recordDurable, set_clean. keeps_auto; try apply Hst.
  eapply keeps_captureRetrying; [exact HP|].
  eapply keeps_engine_op with (t := dn s); [exact HP|intros n; apply (dur_active _ _ _ _ _ HS)|].
  intros n. apply acts_Capture.
Qed.

Lemma save_unchanged w m dur w' :
  clean_inv blake3 a active w -> marker a active w = Some m -> dur = dn (mBranch m) ->
  (durExists ← exists_quiet X dur;
   cw ← attempt (engine_read X (fun n => Watermark n active));
   mret (match cw with Ok cw => captureSkippable (mClean m) durExists (mWatermark m) cw | Err _ => false end)) w
    = (w', Done true) ->
  exists v, contents (eng w') dur = Some v /\ contents (eng w') active = Some v.
Proof.
  intros Hinv Hm -> Es. pose proof (clean_stable blake3 X C a active HS) as HP.
  unfold mbind at 1, M_bind at 1 in Es.
  destruct (exists_quiet X _ w) as [w1 [ex|e|]] eqn:E1; [|congruence..].
  assert (clean_inv blake3 a active w1) as H1.
  { change w1 with ((w1, Done ex).1). rewrite <- E1. by eapply keeps_exists_quiet. }
  unfold mbind, M_bind in Es.
  destruct (attempt _ w1) as [w2 [cw|e|]] eqn:E2; [|congruence..]. injection Es as <- Es.
  destruct cw as [cw|]; [|done]. unfold captureSkippable in Es.
  apply andb_true_iff in Es as [Es Heq]. apply andb_true_iff in Es as [Es Hne]. apply andb_true_iff in Es as [Hc ->].
  apply String.eqb_eq in Heq as ->. apply negb_true_iff, String.eqb_neq in Hne.
  destruct (attempt_watermark _ _ _ _ _ E2 Hne) as (He2 & Hs2 & Hc2).
  destruct (exists_quiet_true _ _ _ (own_dur _ _ _ (mBranch m)) E1) as ([v Hv] & Hs1 & _).
  assert (clean_inv blake3 a active w2) as H2.
  { change w2 with ((w2, Done (Ok (mWatermark m) : res err string)).1). rewrite <- E2.
    apply (keeps_attempt (clean_inv blake3 a active)); [by eapply keeps_engine_read|exact H1]. }
  assert (contents (eng w2) (dn (mBranch m)) = Some v) as Hv2 by (rewrite He2, (env_dur _ _ _ _ _ HS); exact Hv).
  exists v. split; [exact Hv2|]. apply (H2 m); auto. unfold marker. rewrite Hs2, Hs1. exact Hm.
Qed.

(** the capture of a save *)
Lemma save_captures b v0 w :
  contents (eng w) active = v0 ->
  wp (_ ← captureRetrying X active (dn b);
      _ ← recordDurable X a active b (dn b);
      cw ← attempt (engine_read X (fun n => Watermark n active));
      _ ← match cw with
          | Ok cw => if String.eqb cw "" then mret tt else set_clean X a active b true cw
          | Err _ => mret tt
          end;
      mret (Saved b (dn b))) w (fun w' o => match o with
    | Done (Saved b' dur) => b' = b /\ dur = dn b /\ contents (eng w') dur = v0 /\
        exists row, row ∈ branch_durables (st w') /\ dRepoID row = repoID a /\ dDurableName row = dur /\ dBranch row = b
    | Done _ => False
    | _ => True
    end).
Proof.
  intros Hv4. set (R := fun (w' : World E) (o : outcome save) => match o with
    | Done (Saved b' dur) => b' = b /\ dur = dn b /\ contents (eng w') dur = v0 /\
        exists row, row ∈ branch_durables (st w') /\ dRepoID row = repoID a /\ dDurableName row = dur /\ dBranch row = b
    | Done _ => False
    | _ => True
    end).
  assert (forall w' (o : outcome save), (forall r, o <> Done r) -> R w' o) as Hno.
  { intros w' [r| |] Ho; [by destruct (Ho r)|done..]. }
  apply wp_bind. eapply wp_mono; [apply (captureRetrying_copies blake3 X C a active HS b v0); exact Hv4|].
  intros w5 [[]|e|] H5; [|by apply Hno..]. specialize (H5 eq_refl).
  apply wp_seq; [|intros; by apply Hno]. intros w6 [] E6. apply store_op_world in E6 as (He6 & Hs6 & _).
  assert (contents (eng w6) (dn b) = v0) as H6 by (rewrite He6, (env_dur _ _ _ _ _ HS); exact H5).
  apply wp_seq; [|intros; by apply Hno]. intros w7 cw E7.
  assert (contents (eng w7) (dn b) = v0 /\ branch_durables (st w7) = branch_durables (st w6)) as [H7 Hr7].
  { unfold attempt, engine_read, engine_op in E7. destruct (crash X _); simpl in E7; [congruence|].
    destruct (Watermark _ _ _); injection E7 as <- _; simpl; by rewrite (env_dur _ _ _ _ _ HS). }
  apply wp_seq; [|intros; by apply Hno]. intros w8 [] E8. unfold wp. simpl.
  assert (contents (eng w8) (dn b) = v0 /\ branch_durables (st w8) = branch_durables (st w6)) as [H8 Hr8].
  { destruct cw as [cw|]; [|by injection E8 as <-]. destruct (String.eqb cw ""); [by injection E8 as <-|].
    apply store_op_world in E8 as (He & Hs & _). rewrite He, (env_dur _ _ _ _ _ HS), Hs. auto. }
  split; [done|]. split; [done|]. split; [exact H8|].
  rewrite Hr8, Hs6. destruct (RecordBranchDurable_row (now X (tick w5)) {| dRepoID := repoID a; dWorktreeID := worktreeID a;
    dEngine := engine a; dDBKey := active; dBranch := b; dDurableName := dn b; dCreatedAt := 0; dLastUsedAt := 0 |} (st w5))
    as (row & Hin & Hrepo & Hname & Hbr & _). exists row. auto.
Qed.

(** a save never changes the active namespace. When it reports a
    capture, the durable copy of the marker's branch holds the active data and
    is recorded; when it reports the copy unchanged, and the clean bit is
    honest, the copy holds the active data already; it reports a missing
    namespace only when there is none. *)
Theorem save_outcome w :
  clean_inv blake3 a active w ->
  let r := saveActiveNamespace blake3 X a active w in
  contents (eng r.1) active = contents (eng w) active /\
  match r.2 with
  | Done SkipNoMarker => default "" (GetActiveBranch (worktreeID a) active (st w)) = ""
  | Done SkipMissing => contents (eng w) active = None
  | Done SkipUnchanged => exists b v, GetActiveBranch (worktreeID a) active (st w) = Some b /\
      contents (eng r.1) (dn b) = Some v /\ contents (eng w) active = Some v
  | Done (Saved b dur) => GetActiveBranch (worktreeID a) active (st w) = Some b /\ dur = dn b /\
      contents (eng r.1) dur = contents (eng w) active /\
      exists row, row ∈ branch_durables (st r.1) /\ dRepoID row = repoID a /\ dDurableName row = dur /\ dBranch row = b
  | _ => True
  end.
Proof.
  intros Hinv. cbv zeta. split; [apply save_active|].
  pose proof (clean_stable blake3 X C a active HS) as HP.
  set (v0 := contents (eng w) active).
  set (R := fun (w' : World E) (o : outcome save) => match o with
  | Done SkipNoMarker => default "" (GetActiveBranch (worktreeID a) active (st w)) = ""
  | Done SkipMissing => v0 = None
  | Done SkipUnchanged => exists b v, GetActiveBranch (worktreeID a) active (st w) = Some b /\
      contents (eng w') (dn b) = Some v /\ v0 = Some v
  | Done (Saved b dur) => GetActiveBranch (worktreeID a) active (st w) = Some b /\ dur = dn b /\
      contents (eng w') dur = v0 /\
      exists row, row ∈ branch_durables (st w') /\ dRepoID row = repoID a /\ dDurableName row = dur /\ dBranch row = b
  | _ => True end).
  change (wp (saveActiveNamespace blake3 X a active) w R).
  assert (forall w' (o : outcome save), (forall r, o <> Done r) -> R w' o) as Hno.
  { intros w' [r| |] Ho; [by destruct (Ho r)|done..]. }
  unfold saveActiveNamespace. apply wp_seq; [|intros; by apply Hno].
  intros w1 b0 E1. apply store_read_world in E1 as (He1 & Hs1 & _ & ->).
  destruct (GetActiveBranch _ _ (st w)) as [b|] eqn:Hb; [|unfold wp, R; simpl; by rewrite ?Hb].
  destruct (String.eqb b "") eqn:Hbe; [apply String.eqb_eq in Hbe; subst b; unfold wp, R; simpl; by rewrite ?Hb|].
  assert (contents (eng w1) active = v0) as Hv1 by (rewrite He1; apply (env_active _ _ _ _ _ HS)).
  apply wp_seq; [|intros; by apply Hno]. intros w2 ex E2. unfold engine_read in E2.
  apply engine_op_world in E2 as (He2 & Hs2 & _ & Hex). simpl in He2, Hex.
  assert (contents (eng w2) active = v0) as Hv2 by (rewrite He2, (env_active _ _ _ _ _ HS); exact Hv1).
  apply Exists_truth in Hex. rewrite <- He2, Hv2 in Hex. destruct ex; simpl.
  2: { unfold wp, R. simpl. destruct v0 as [v|]; [|done]. discriminate (proj2 Hex (ex_intro _ v eq_refl)). }
  apply wp_seq; [|intros; by apply Hno]. intros w3 c E3. apply store_read_world in E3 as (He3 & Hs3 & _ & ->).
  assert (contents (eng w3) active = v0) as Hv3 by (rewrite He3, (env_active _ _ _ _ _ HS); exact Hv2).
  assert (clean_inv blake3 a active w3) as Hinv3.
  { intros m Hm Hc Hw. unfold marker in Hm. rewrite Hs3, Hs2, Hs1 in Hm.
    eapply mirrors_evolves; [|left|by apply Hinv].
    - rewrite He3, He2, He1. eapply evolves_trans; [apply (env_evolves _ _ _ _ _ HS)|].
      eapply evolves_trans; apply (env_evolves _ _ _ _ _ HS).
    - by rewrite He3, He2, He1, !(env_dur _ _ _ _ _ HS). }
  apply wp_seq; [|intros; by apply Hno]. intros w4 skip E4.
  assert (contents (eng w4) active = v0) as Hv4.
  { change w4 with ((w4, Done skip).1). rewrite <- E4.
    assert (keeps (about active v0) (match GetActiveBranchClean (worktreeID a) active (st w2) with
      | None => mret false
      | Some (prevClean, prevWM) =>
          durExists ← exists_quiet X (dn b);
          cw ← attempt (engine_read X (fun n => Watermark n active));
          mret (match cw with Ok cw => captureSkippable prevClean durExists prevWM cw | Err _ => false end)
      end)) as Hk; [|by apply Hk].
    assert (stable X (about active v0) (fun t _ => separate t active)) as HPa
      by (apply (about_stable blake3 X C a active HS); [constructor|auto]).
    keeps_auto. }
  destruct skip.
  { unfold wp. simpl. unfold R. rewrite ?Hb. exists b.
    unfold GetActiveBranchClean in E4. rewrite Hs2, Hs1 in E4. unfold GetActiveBranch in Hb.
    destruct (active_branch_db (st w) !! _) as [m|] eqn:Hm; [|done]. simpl in Hb, E4. injection Hb as Hb.
    destruct (save_unchanged w3 m (dn b) w4 Hinv3) as (v & Hd & Ha); [|by rewrite Hb|exact E4|].
    - unfold marker. by rewrite Hs3, Hs2, Hs1.
    - exists v. split; [by rewrite ?Hb|]. split; [exact Hd|]. congruence. }
  cbv zeta. eapply wp_mono; [by apply (save_captures b v0)|]. unfold R. rewrite ?Hb.
  intros w' [[| | |b' dur]|e|]; try done. intros (-> & -> & H5 & H6). auto.
Qed.
End Operations.

(** ** The verification of a capture *)
Section Verification.
Context {E Data : Type} {ND : NsDriver E Data}.
Variable X : Surroundings E.
Variable active dur : string.
(** the row counts of a namespace *)
Variable rows_of : option Data -> string -> Z.

(** what the sampler is for: it answers, it samples tables that hold rows
    when there are any, and it counts exactly *)
Record honest_sampler : Prop := {
  sampler_there : has_sampler (E := E) = true;
  sample_answers : forall n e, exists s, RowCountSample n active e = Ok s /\
    (forall t, t ∈ sampled_tables s -> (0 < rows_of (contents e active) t)%Z) /\
    ((exists t, 0 < rows_of (contents e active) t)%Z -> sampled_tables s <> []);
  counts_answer : forall n ts e, exists c, RowCountsFor n dur ts e = Ok c /\
    forall t, t ∈ ts -> default 0%Z (c !! t) = rows_of (contents e dur) t
}.
Hypothesis HH : honest_sampler.
Hypothesis Henv : forall n e, env X n e = e.

Lemma sampled_none s : sampled_tables s = [] <-> sampleHasRows s = false.
Proof.
  unfold sampled_tables, sampleHasRows. induction (map_to_list s) as [|kv l IH]; simpl; [done|].
  destruct (Z.ltb 0 kv.2); simpl; [split; discriminate|exact IH].
Qed.

(** the verdict is about the state the copy left, and changes nothing *)
Lemma copyLostRows_verdict w w' bad :
  copyLostRows X active dur w = (w', Done bad) ->
  eng w' = eng w /\
  (bad = false -> (exists t, 0 < rows_of (contents (eng w) active) t)%Z ->
   exists t, (0 < rows_of (contents (eng w) active) t)%Z /\ rows_of (contents (eng w) dur) t <> 0%Z) /\
  (bad = true -> exists t, (0 < rows_of (contents (eng w) active) t)%Z /\ rows_of (contents (eng w) dur) t = 0%Z).
Proof.
  unfold copyLostRows, sampleRows, sampleMissingRows. rewrite (sampler_there HH).
  unfold mbind, M_bind, attempt, engine_read, engine_op. simpl.
  rewrite Henv. destruct (sample_answers HH (tick w) (eng w)) as (s & -> & Hpos & Hex). simpl.
  destruct (crash X _); simpl; [congruence|]. unfold mret, M_ret.
  destruct (bool_decide (s = ∅)) eqn:Es.
  { intros [= <- <-]. split; [done|]. split; [|done]. intros _ Ht.
    apply bool_decide_eq_true in Es as ->. by destruct (Hex Ht). }
  destruct (sampleHasRows s) eqn:Hr; simpl.
  2: { intros [= <- <-]. split; [done|]. split; [|done]. intros _ Ht. by apply sampled_none, Hex in Hr. }
  destruct (sampled_tables s) as [|t0 ts] eqn:Ets; [by rewrite (proj1 (sampled_none s) Ets) in Hr|].
  simpl. rewrite Henv. destruct (counts_answer HH (S (tick w)) (t0 :: ts) (eng w)) as (c & -> & Hc). simpl.
  destruct (crash X _); simpl; [congruence|]. intros [= <- <-]. split; [done|]. split.
  - intros Hb _. apply orb_false_iff in Hb as [Hb _]. apply Z.eqb_neq in Hb.
    exists t0. split; [apply Hpos; by left|]. rewrite <- Hc by by left. exact Hb.
  - intros Hb. assert (exists t, t ∈ t0 :: ts /\ Z.eqb (default 0%Z (c !! t)) 0 = true) as (t & Hin & H0).
    { apply orb_true_iff in Hb as [Hb|Hb]; [exists t0; split; [by left|done]|].
      apply existsb_exists in Hb as (t & Hin & Ht). exists t. split; [right; by apply list_elem_of_In|done]. }
    exists t. split; [by apply Hpos|]. rewrite <- Hc by done. by apply Z.eqb_eq.
Qed.

(** what a retried call leaves *)
Lemma retry_outcome (f : nat -> E -> E * res err unit) (P : E -> Prop) w :
  (forall n e, P e -> P (f n e).1) -> P (eng w) ->
  wp (retryTransient X (engine_op X f)) w (fun w' o => P (eng w') /\
    match o with
    | Done _ => exists n e, P e /\ eng w' = (f n e).1 /\ (f n e).2 = Ok tt
    | Fail x => x = Cancelled \/ exists n e, (f n e).2 = Err x
    | Crashed => True
    end).
Proof.
  intros Hf. unfold retryTransient. generalize transientRetries. intros k. revert w.
  induction k as [|k IH]; intros w Hw; simpl; apply wp_bind.
  all: unfold wp at 1, ctx_Err, ask; simpl; rewrite Henv.
  all: destruct (crash X _); [done|]; destruct (cancelled X _); simpl; [by auto|].
  all: apply wp_bind, wp_attempt; unfold wp at 1, engine_op; simpl; rewrite Henv.
  all: assert (P (f (S (tick w)) (eng w)).1) as H1 by auto.
  all: destruct (crash X _); [done|]; destruct (f _ _).2 as [[]|x] eqn:Er; simpl.
  1,3: unfold wp; simpl; eauto 10.
  all: destruct (isCancellation x || negb (isTransientConn x)); [unfold wp; simpl; eauto|].
  - unfold wp; simpl. eauto.
  - apply wp_bind. unfold wp at 1. simpl. rewrite Henv. destruct (crash X _); [done|].
    destruct (cancelled X _); simpl; [by auto|]. by apply IH.
Qed.

Lemma captureVerified_steps w (P : E -> Prop) :
  (forall n e, P e -> P (Capture n active dur e).1) -> P (eng w) ->
  wp (captureVerified X active dur) w (fun w' o => match o with
    | Done _ => exists n e bad, P e /\ eng w' = (Capture n active dur e).1 /\ (Capture n active dur e).2 = Ok tt /\
        bad = false /\ exists w1 w2, eng w1 = eng w' /\ copyLostRows X active dur w1 = (w2, Done bad)
    | Fail x => x = Cancelled \/ (exists n e, (Capture n active dur e).2 = Err x) \/
        exists n e w1 w2, P e /\ eng w1 = (Capture n active dur e).1 /\ (Capture n active dur e).2 = Ok tt /\
          copyLostRows X active dur w1 = (w2, Done true)
    | Crashed => True
    end).
Proof.
  intros Hc Hw. unfold captureVerified, captureRetrying. apply wp_bind.
  eapply wp_mono; [by apply (retry_outcome _ P)|].
  intros w1 [[]|x|] [HP Ho]; [|destruct Ho; auto|done]. destruct Ho as (n & e & He & Hw1 & Hok).
  apply wp_bind. unfold wp at 1. destruct (copyLostRows X active dur w1) as [w2 [bad|x|]] eqn:Ev; simpl; [|exfalso|done].
  - destruct (copyLostRows_verdict _ _ _ Ev) as [Heq _]. destruct bad.
    + apply wp_bind, wp_attempt. unfold wp at 1. destruct (engine_op _ _ _) as [w3 [[]|y|]]; [..|done].
      all: unfold wp; simpl; right; right; exists n, e, w1, w2; auto.
    + unfold wp. simpl. exists n, e, false. rewrite Heq. eauto 10.
  - revert Ev. unfold copyLostRows, sampleRows, sampleMissingRows, mbind, M_bind, mret, M_ret, attempt, engine_read, engine_op.
    rewrite (sampler_there HH). simpl. destruct (crash X _); simpl; [congruence|].
    destruct (RowCountSample _ _ _); simpl; [|congruence]. destruct (bool_decide _); simpl; [congruence|].
    destruct (sampleHasRows _); simpl; [|congruence]. destruct (sampled_tables _); simpl; [congruence|].
    destruct (crash X _); simpl; [congruence|]. destruct (RowCountsFor _ _ _ _); simpl; congruence.
Qed.

(** with an honest sampler, a verified capture that succeeds has
    copied rows when there were rows to copy, whatever the engine's copy
    really did; and a faithful copy is never rejected. *)
Theorem captureVerified_verdict w :
  (forall n e, contents (Capture n active dur e).1 active = contents e active) ->
  (exists t, 0 < rows_of (contents (eng w) active) t)%Z ->
  let r := captureVerified X active dur w in
  (r.2 = Done tt ->
   exists t, (0 < rows_of (contents (eng r.1) active) t)%Z /\ rows_of (contents (eng r.1) dur) t <> 0%Z) /\
  ((forall n e, (Capture n active dur e).2 <> Err VerifiedEmpty) ->
   (forall n e, (Capture n active dur e).2 = Ok tt -> contents (Capture n active dur e).1 dur = contents e active) ->
   r.2 <> Fail VerifiedEmpty).
Proof.
  intros Hsrc Hrows. cbv zeta. set (v := contents (eng w) active) in *.
  pose proof (captureVerified_steps w (fun e => contents e active = v)) as Hs. unfold wp in Hs.
  assert (forall n e, contents e active = v -> contents (Capture n active dur e).1 active = v) as Hc
    by (intros n e <-; apply Hsrc).
  specialize (Hs Hc eq_refl). destruct (captureVerified X active dur w) as [w' o]. simpl in *. split.
  - intros ->. destruct Hs as (n & e & bad & He & Hw' & _ & -> & w1 & w2 & Hw1 & Ev).
    destruct (copyLostRows_verdict _ _ _ Ev) as (_ & Hgood & _). rewrite <- Hw1.
    apply Hgood; [done|]. rewrite Hw1, Hw', Hc; done.
  - intros Hne Hcopy ->. destruct Hs as [[=]|[(n & e & Hx)|(n & e & w1 & w2 & He & Hw1 & Hok & Ev)]]; [by apply (Hne n e)|].
    destruct (copyLostRows_verdict _ _ _ Ev) as (_ & _ & Hbad). destruct (Hbad eq_refl) as (t & Hpos & Hzero).
    rewrite Hw1, Hsrc in Hpos. rewrite Hw1, Hcopy in Hzero by done. lia.
Qed.
End Verification.

(** ** Switching back *)

(** the program returns, and its answer satisfies [R] *)
Definition total {E A} (m : M E A) (w : World E) (R : World E -> A -> Prop) : Prop :=
  exists w' r, m w = (w', Done r) /\ R w' r.

Lemma total_bind {E A B} (m : M E A) (f : A -> M E B) w R :
  total m w (fun w' r => total (f r) w' R) -> total (m ≫= f) w R.
Proof. intros (w' & r & E1 & w'' & r' & E2 & HR). exists w'', r'. unfold mbind, M_bind. by rewrite E1. Qed.

Lemma total_attempt {E A} (m : M E A) w R :
  total m w (fun w' r => R w' (Ok r)) -> total (attempt m) w R.
Proof. intros (w' & r & E1 & HR). exists w', (Ok r). unfold attempt. by rewrite E1. Qed.

Lemma total_keeps {E A} (m : M E A) w R P :
  keeps P m -> P w -> total m w R -> total m w (fun w' r => R w' r /\ P w').
Proof.
  intros Hk HP (w' & r & E1 & HR). exists w', r. split; [done|]. split; [done|].
  change w' with ((w', Done r).1). rewrite <- E1. by apply Hk.
Qed.

Lemma total_ret {E A} (r : A) (w : World E) (R : World E -> A -> Prop) : R w r -> total (mret r) w R.
Proof. intros H. by exists w, r. Qed.

Lemma total_mono {E A} (m : M E A) w (R R' : World E -> A -> Prop) :
  total m w R -> (forall w' r, R w' r -> R' w' r) -> total m w R'.
Proof. intros (w' & r & E1 & HR) H. exists w', r. auto. Qed.

Lemma total_wp {E A} (m : M E A) w (R : World E -> A -> Prop) (Q : World E -> outcome A -> Prop) :
  total m w R -> wp m w Q -> total m w (fun w' r => R w' r /\ Q w' (Done r)).
Proof.
  intros (w' & r & E1 & HR) HQ. exists w', r. split; [done|]. split; [done|]. unfold wp in HQ. by rewrite E1 in HQ.
Qed.

Section SwitchBack.
Context {E Data : Type} {ND : NsDriver E Data} {NL : NsLaws E Data}.
Variable blake3 : string -> string.
Variable suffix : string.
Variable getwd : option string.
Variable window : redis_range.
Variable X : Surroundings E.
Variable C : Commands E.
Variable Q : Oracles.
Variable a : branchScopedArgs.
Variable active : string.
Hypothesis HS : Setting blake3 X C a active.

Notation dn := (durableName blake3 a active).

(** no faults, and a sampler that does not accuse a faithful copy *)
Record reliable : Prop := {
  no_crash : forall n, crash X n = false;
  no_store_fault : forall n, store_fault X n = false;
  no_cancel : forall n, cancelled X n = false;
  Exists_answers : forall n ns e, exists b, Exists n ns e = Ok b;
  Capture_works : forall n s t e, is_Some (contents e s) -> (Capture n s t e).2 = Ok tt;
  Restore_works : forall n s t e, is_Some (contents e s) -> (Restore n s t e).2 = Ok tt;
  no_false_alarm : forall n n' src dst e e' s c, contents e src = contents e' dst ->
    RowCountSample n src e = Ok s -> RowCountsFor n' dst (sampled_tables s) e' = Ok c ->
    existsb (fun t => Z.eqb (default 0%Z (c !! t)) 0) (sampled_tables s) = false
}.
Hypothesis HR : reliable.

Lemma total_store_read {A} (f : Tables -> A) w R :
  (forall e, R (Build_World e (st w) (S (tick w))) (f (st w))) -> total (store_read X f) w R.
Proof.
  intros H. unfold total, store_read. rewrite (no_crash HR), (no_store_fault HR). eauto.
Qed.

Lemma total_store_op f w (R : World E -> unit -> Prop) :
  (forall e, R (Build_World e (f (now X (tick w)) (st w)) (S (tick w))) tt) -> total (store_op X f) w R.
Proof.
  intros H. unfold total, store_op. rewrite (no_crash HR), (no_store_fault HR). eauto.
Qed.

Lemma total_attempt_read {A} (f : nat -> E -> res err A) w R :
  (forall r w', w' = Build_World (env X (tick w) (eng w)) (st w) (S (tick w)) ->
     r = f (tick w) (env X (tick w) (eng w)) -> R w' r) ->
  total (attempt (engine_read X f)) w R.
Proof.
  intros H. unfold total, attempt, engine_read, engine_op. simpl. rewrite (no_crash HR).
  destruct (f _ _) as [r|x] eqn:Ef; simpl; eexists _, _; (split; [reflexivity|]); by apply H.
Qed.

Lemma total_engine_op f w (R : World E -> unit -> Prop) :
  let e := env X (tick w) (eng w) in
  (f (tick w) e).2 = Ok tt -> R (Build_World (f (tick w) e).1 (st w) (S (tick w))) tt ->
  total (engine_op X f) w R.
Proof. simpl. intros Hok H. unfold total, engine_op. rewrite (no_crash HR), Hok. simpl. eauto. Qed.

(** a retried call that works works at once *)
Lemma total_retry f w :
  (forall n e, contents e active = contents (eng w) active -> (forall b, contents e (dn b) = contents (eng w) (dn b)) ->
     (f n e).2 = Ok tt) ->
  total (retryTransient X (engine_op X f)) w (fun w' _ => st w' = st w).
Proof.
  intros Hf. unfold retryTransient. simpl. apply total_bind. unfold total at 1, ctx_Err, ask.
  rewrite (no_crash HR), (no_cancel HR). simpl. eexists _, tt. split; [reflexivity|].
  apply total_bind, total_attempt. apply total_engine_op; simpl.
  - apply Hf; [by rewrite !(env_active _ _ _ _ _ HS)|]. intros b. by rewrite !(env_dur _ _ _ _ _ HS).
  - by apply total_ret.
Qed.

(** a faithful copy passes *)
Lemma total_copyLostRows src dst w :
  (forall n e, contents (env X n e) src = contents e src) -> (forall n e, contents (env X n e) dst = contents e dst) ->
  contents (eng w) src = contents (eng w) dst ->
  total (copyLostRows X src dst) w (fun w' r => r = false /\ st w' = st w).
Proof.
  intros Hs Hd Heq. unfold copyLostRows, sampleRows, sampleMissingRows. apply total_bind.
  destruct (has_sampler (E := E)) eqn:Hsam; [|by apply total_ret, total_ret].
  apply total_bind, total_attempt_read. intros r w1 Hw1 Hr. apply total_ret.
  assert (st w1 = st w) as Hst1 by (by rewrite Hw1).
  destruct r as [s|x]; [|by apply total_ret]. destruct (bool_decide _); [by apply total_ret|].
  destruct (sampleHasRows s) eqn:Hrows; simpl; [|by apply total_ret].
  destruct (sampled_tables s) as [|t ts] eqn:Ets; [by apply total_ret|].
  apply total_bind, total_attempt_read. intros r w2 Hw2 Hr2. apply total_ret.
  split; [|by rewrite Hw2]. destruct r as [c|x]; [|done].
  assert (existsb (fun t => Z.eqb (default 0%Z (c !! t)) 0) (sampled_tables s) = false) as Hf.
  { eapply (no_false_alarm HR); [|symmetry; exact Hr|rewrite Ets; symmetry; exact Hr2].
    by rewrite Hd, Hs, Hw1; simpl; rewrite Hd. }
  by rewrite Ets in Hf.
Qed.

(** what matters of a world here *)
Record facts (b old : string) (va vb vo : option Data) (w : World E) : Prop := {
  fact_active : contents (eng w) active = va;
  fact_b : contents (eng w) (dn b) = vb;
  fact_old : contents (eng w) (dn old) = vo
}.

Lemma facts_stable b old va vb vo :
  stable X (facts b old va vb vo) (fun _ _ => False).
Proof.
  split; [|done|].
  - intros w n k [H1 H2 H3]. split; simpl; [by rewrite (env_active _ _ _ _ _ HS)|by rewrite (env_dur _ _ _ _ _ HS)..].
  - intros t w k _ [H1 H2 H3]. by split.
Qed.

Lemma total_captureDurable b old V vb vo w :
  dn b <> dn old -> facts b old (Some V) vb vo w ->
  total (captureDurable blake3 X a active b) w (fun w' _ =>
    facts b old (Some V) (Some V) vo w' /\ active_branch_db (st w') = active_branch_db (st w) /\
    branch_db_migrated (st w') = branch_db_migrated (st w)).
Proof.
  intros Hne [Ha Hb Ho]. unfold captureDurable, captureVerified. cbv zeta. apply total_bind, total_bind.
  set (P := fun w0 => about active (Some V) w0 /\ about (dn old) vo w0).
  assert (stable X P (fun t _ => t = dn b)) as HP.
  { apply stable_and; (apply (about_stable blake3 X C a active HS); [constructor|intros t f ->]).
    - apply (dur_active _ _ _ _ _ HS).
    - by apply (dur_dur _ _ _ _ _ HS). }
  eapply total_mono.
  { eapply total_wp; [|apply (captureRetrying_copies blake3 X C a active HS b (Some V)); exact Ha].
    apply total_keeps with (P := P); [|by split|].
    - eapply keeps_captureRetrying; [exact HP|].
      eapply keeps_engine_op with (t := dn b); [exact HP|done|]. intros n. apply acts_Capture.
    - apply total_retry. intros n e He _. apply (Capture_works HR). rewrite He, Ha. eauto. }
  simpl. intros w1 [] [[Hst1 [Ha1 Ho1]] Hb1]. specialize (Hb1 eq_refl).
  apply total_bind. eapply total_mono.
  { eapply total_keeps; [eapply keeps_copyLostRows, (facts_stable b old (Some V) (Some V) vo)|by split|].
    apply total_copyLostRows; [apply (env_active _ _ _ _ _ HS)|intros; apply (env_dur _ _ _ _ _ HS)|].
    unfold about in *. congruence. }
  simpl. intros w2 r [[-> Hst2] H2]. apply total_ret. unfold recordDurable.
  eapply total_mono.
  { eapply total_keeps; [eapply keeps_store_op; [apply (facts_stable b old (Some V) (Some V) vo)|done]|exact H2|].
    apply total_store_op with (R := fun w' _ => active_branch_db (st w') = active_branch_db (st w) /\
      branch_db_migrated (st w') = branch_db_migrated (st w)).
    intros e. simpl. by rewrite Hst2, Hst1. }
  simpl. intros w3 _ [H3 Hf]. auto.
Qed.

Lemma total_captureRedundant b w :
  total (captureRedundant blake3 X a active b) w (fun w' _ => st w' = st w).
Proof.
  unfold captureRedundant. apply total_bind, total_store_read. intros e.
  destruct (GetActiveBranchClean _ _ _) as [[c wm]|]; [|by apply total_ret].
  destruct (negb c); [by apply total_ret|]. cbv zeta. apply total_bind.
  unfold total at 1, attempt, mbind, M_bind, engine_read, engine_op. simpl. rewrite (no_crash HR).
  destruct (Exists _ _ _) as [ex|x]; simpl.
  2: { eexists _, _. split; [reflexivity|]. by apply total_ret. }
  rewrite (no_crash HR). destruct (Watermark _ _ _); simpl.
  all: eexists _, _; (split; [reflexivity|]); by apply total_ret.
Qed.

(** resuming the old branch's copy *)
Lemma total_resume b old V D w :
  dn b <> dn old -> facts b old (Some V) (Some V) (Some D) w ->
  total (fill blake3 suffix getwd window X Q a active old true) w (fun w' r =>
    r = Some HResume /\ facts b old (Some D) (Some V) (Some D) w' /\ st w' = st w).
Proof.
  intros Hne Hf. unfold fill, resumeDurableVerified. cbv zeta. apply total_bind, total_bind.
  unfold exists_quiet. apply total_bind, total_attempt_read. intros r w1 Hw1 Hr.
  assert (facts b old (Some V) (Some V) (Some D) w1) as H1
    by (rewrite Hw1; by apply (stable_env _ _ _ (facts_stable b old (Some V) (Some V) (Some D)))).
  assert (st w1 = st w) as Hst1 by (by rewrite Hw1).
  destruct (Exists_answers HR (tick w) (dn old) (env X (tick w) (eng w))) as [ex Hex]. rewrite Hex in Hr. subst r.
  apply Exists_truth in Hex. rewrite (env_dur _ _ _ _ _ HS), (fact_old _ _ _ _ _ _ Hf) in Hex.
  destruct ex; [|discriminate (proj2 Hex (ex_intro _ D eq_refl))]. apply total_ret. simpl.
  set (P := fun w0 => about (dn b) (Some V) w0 /\ about (dn old) (Some D) w0).
  assert (stable X P (fun t _ => t = active)) as HP.
  { apply stable_and; (apply (about_stable blake3 X C a active HS); [constructor|intros t f ->]);
      apply (active_dur _ _ _ _ _ HS). }
  apply total_bind, total_attempt. eapply total_mono.
  { eapply total_wp.
    - apply total_keeps with (P := P); [|split; [exact (fact_b _ _ _ _ _ _ H1)|exact (fact_old _ _ _ _ _ _ H1)]|].
      + eapply keeps_retry; [exact HP|].
        eapply keeps_engine_op with (t := active); [exact HP|done|]. intros n. apply acts_Restore.
      + apply total_retry. intros n e _ Hd. apply (Restore_works HR). rewrite Hd, (fact_old _ _ _ _ _ _ H1). eauto.
    - eapply retry_done with (P := about (dn old) (Some D)) (T := fun t _ => t = active) (t := active);
        [|done|intros n; apply acts_Restore|exact (fact_old _ _ _ _ _ _ H1)].
      apply (about_stable blake3 X C a active HS); [constructor|]. intros t f ->. apply (active_dur _ _ _ _ _ HS). }
  simpl. intros w2 [] [[Hst2 [Hb2 Ho2]] Hdone]. destruct (Hdone eq_refl) as (n & w0 & Hw0 & He & Hok).
  assert (contents (eng w2) active = Some D) as Ha2.
  { rewrite He, Restore_copies by (done || apply (active_dur _ _ _ _ _ HS)). exact Hw0. }
  apply total_bind. eapply total_mono.
  { eapply total_keeps; [eapply keeps_copyLostRows, (facts_stable b old (Some D) (Some V) (Some D))|by split|].
    apply total_copyLostRows; [intros; apply (env_dur _ _ _ _ _ HS)|apply (env_active _ _ _ _ _ HS)|].
    unfold about in *. congruence. }
  simpl. intros w3 r [[-> Hst3] H3]. apply total_ret, total_ret. split; [done|]. split; [done|]. congruence.
Qed.

Lemma total_recordClean b old va vb vo d mg sd w :
  facts b old va vb vo w ->
  total (recordClean X a active old d mg sd) w (fun w' _ =>
    facts b old va vb vo w' /\ GetActiveBranch (worktreeID a) active (st w') = Some old).
Proof.
  intros Hf. pose proof (facts_stable b old va vb vo) as HP.
  assert (forall c wm w0, facts b old va vb vo w0 -> total (set_clean X a active old c wm) w0 (fun w' _ =>
    facts b old va vb vo w' /\ GetActiveBranch (worktreeID a) active (st w') = Some old)) as Hset.
  { intros c wm w0 H0. unfold set_clean, total, store_op. rewrite (no_crash HR), (no_store_fault HR).
    eexists _, tt. split; [reflexivity|]. split.
    - destruct H0 as [H1 H2 H3]. split; simpl; [by rewrite (env_active _ _ _ _ _ HS)|by rewrite (env_dur _ _ _ _ _ HS)..].
    - unfold GetActiveBranch. cbn [st]. by rewrite active_SetActiveBranchClean, decide_True. }
  assert (forall w0 n k, facts b old va vb vo w0 -> facts b old va vb vo (Build_World (env X n (eng w0)) (st w0) k)) as Henv
    by (intros; by apply (stable_env _ _ _ HP)).
  assert (forall (k : res err string -> M E unit) w0, facts b old va vb vo w0 ->
    (forall r w1, facts b old va vb vo w1 -> total (k r) w1 (fun w' _ =>
      facts b old va vb vo w' /\ GetActiveBranch (worktreeID a) active (st w') = Some old)) ->
    total (x ← attempt (engine_read X (fun n => Watermark n active)); k x) w0 (fun w' _ =>
      facts b old va vb vo w' /\ GetActiveBranch (worktreeID a) active (st w') = Some old)) as Hwm.
  { intros k w0 H0 Hk. apply total_bind, total_attempt_read. intros r w1 -> _. apply Hk. by apply Henv. }
  unfold recordClean. destruct (mg || sd); [by apply Hset|].
  destruct (bool_decide (d = Noop)).
  - apply total_bind. unfold total at 1, store_read. rewrite (no_crash HR), (no_store_fault HR).
    eexists _, _. split; [reflexivity|]. destruct (GetActiveBranchClean _ _ _) as [[[] wm]|]; [|apply Hset; by apply Henv..].
    apply Hwm; [by apply Henv|]. intros [cw|x] w1 H1; [|by apply Hset]. destruct (negb _ && _); by apply Hset.
  - destruct (_ || _); [|by apply Hset]. apply Hwm; [done|].
    intros [cw|x] w1 H1; [|by apply Hset]. destruct (negb _); by apply Hset.
Qed.

Lemma facts_store b old va vb vo f : keeps (facts b old va vb vo) (store_op X f).
Proof.
  intros w [H1 H2 H3]. unfold store_op. split; simpl;
    [by rewrite (env_active _ _ _ _ _ HS)|by rewrite (env_dur _ _ _ _ _ HS)..].
Qed.

Lemma total_swap b old V D w :
  dn b <> dn old -> facts b old (Some V) (contents (eng w) (dn b)) (Some D) w -> clean_inv blake3 a active w ->
  GetActiveBranch (worktreeID a) active (st w) = Some b ->
  total (swapBranch blake3 suffix getwd window X Q a active b old) w (fun w' d =>
    d = Swap HResume /\ facts b old (Some D) (Some V) (Some D) w' /\
    branch_db_migrated (st w') = branch_db_migrated (st w)).
Proof.
  intros Hne Hf Hinv Hb. destruct (GetActiveBranch_row a active w b Hb) as (m & Hm & Hmb).
  unfold swapBranch. apply total_bind. eapply total_mono.
  { eapply total_wp.
    - eapply total_keeps; [eapply keeps_captureRedundant, facts_stable|exact Hf|]. apply total_captureRedundant.
    - rewrite <- Hmb. by apply (captureRedundant_sound blake3 X C a active HS w m). }
  simpl. intros w1 red [[Hst1 H1] Hred]. apply total_bind.
  apply (total_mono _ _ (fun w' _ => facts b old (Some V) (Some V) (Some D) w' /\
    branch_db_migrated (st w') = branch_db_migrated (st w))).
  { destruct red.
    - apply total_ret. split; [|by rewrite Hst1]. destruct (Hred eq_refl) as (v & Hv & Hva). rewrite Hmb in Hv.
      destruct H1 as [Ha Hb1 Ho]. split; congruence.
    - eapply total_mono; [by eapply total_captureDurable|]. simpl. intros w' _ (H2 & _ & Hmig).
      split; [exact H2|]. by rewrite Hmig, Hst1. }
  intros w2 [] [H2 Hmig2]. apply total_bind. unfold markActive.
  eapply total_mono.
  { eapply total_keeps; [apply facts_store|exact H2|].
    apply total_store_op with (R := fun w' _ => branch_db_migrated (st w') = branch_db_migrated (st w)).
    intros e. exact Hmig2. }
  simpl. intros w3 _ [Hmig3 H3]. apply total_bind. eapply total_mono; [by eapply total_resume|].
  simpl. intros w4 r (-> & H4 & Hst4). apply total_ret. simpl. split; [done|]. split; [done|]. by rewrite Hst4.
Qed.

(** the resumed copy is at head *)
Definition at_head (b : string) (t : Tables) : Prop :=
  has_Migrate a = false \/
  (migrateFP a <> "" /\ GetBranchMigrated (worktreeID a) active b t = Some (migrateFP a)).

Lemma total_finish b old va vb vo d w :
  at_head old (st w) -> facts b old va vb vo w ->
  total (finish_run blake3 suffix getwd window X C Q a active old (false, d)) w (fun w' r =>
    r = d /\ facts b old va vb vo w' /\ GetActiveBranch (worktreeID a) active (st w') = Some old).
Proof.
  intros Hh Hf. unfold finish_run. apply total_bind.
  apply (total_mono _ _ (fun w' r => r = (false, false, d) /\ facts b old va vb vo w')).
  { unfold migrateStep. simpl. destruct Hh as [->|[Hfp Hm]]; [by apply total_ret|].
    destruct (negb (has_Migrate a)); [by apply total_ret|]. apply total_bind.
    eapply total_mono.
    { eapply total_keeps; [eapply keeps_store_read, (facts_stable b old va vb vo)|exact Hf|].
      apply total_store_read with (R := fun _ r => r = Some (migrateFP a)). intros _. exact Hm. }
    simpl. intros w1 r [-> H1]. unfold migrateNeeded. simpl. apply String.eqb_neq in Hfp. rewrite Hfp, String.eqb_refl.
    simpl. by apply total_ret. }
  intros w1 r [-> H1]. rewrite andb_false_r. simpl. apply total_bind, total_ret. apply total_bind.
  eapply total_mono; [by eapply total_recordClean|]. simpl. intros w2 _ [H2 Hb]. by apply total_ret.
Qed.

End SwitchBack.

(** ** The names of durable copies *)
Section DurableNames.
Variable blake3 : string -> string.
Hypothesis blake3_32 : forall s, String.length (blake3 s) = 32%nat.

Lemma bsHash_hex s : str_all is_hex (bsHash blake3 s) = true.
Proof. apply hexEncode_hex. Qed.

Lemma bsHash_length s : String.length (bsHash blake3 s) = 16%nat.
Proof. unfold bsHash. rewrite hexEncode_length, str_length_take, blake3_32. done. Qed.

Lemma durable_hash sc eng x1 b1 x2 b2 :
  durable blake3 sc eng x1 b1 = durable blake3 sc eng x2 b2 ->
  bsHash blake3 (x1 +:+ "|" +:+ b1) = bsHash blake3 (x2 +:+ "|" +:+ b2).
Proof.
  unfold durable. intros E. pose proof (bsHash_length (x1 +:+ "|" +:+ b1)). pose proof (bsHash_length (x2 +:+ "|" +:+ b2)).
  destruct sc; [by apply str_app_inj_l in E|].
  destruct (String.eqb eng "redis"); [|destruct (String.eqb eng "s3"); [by apply str_app_inj_l in E|]].
  all: apply str_app_inj_l in E; by apply str_app_inj_len in E as [? _]; [|congruence].
Qed.

(** durable copies get different names for different
    (namespace, branch) pairs as far as the digest tells them apart, and none
    of the patterns with which the snapshot collector looks for orphaned
    templates matches a durable copy, so it never drops one. *)
Theorem durable_names sc eng x1 b1 x2 b2 :
  str_any (fun c => Ascii.eqb c "|") x1 = false -> str_any (fun c => Ascii.eqb c "|") x2 = false ->
  (bsHash blake3 (x1 +:+ "|" +:+ b1) = bsHash blake3 (x2 +:+ "|" +:+ b2) -> x1 +:+ "|" +:+ b1 = x2 +:+ "|" +:+ b2) ->
  (durable blake3 sc eng x1 b1 = durable blake3 sc eng x2 b2 <-> x1 = x2 /\ b1 = b2) /\
  nameScopedTemplate (durable blake3 sc eng x1 b1) = None /\ spareNamePattern (durable blake3 sc eng x1 b1) = None /\
  esTemplatePrefix (durable blake3 sc eng x1 b1) = None /\ redisTemplatePrefix (durable blake3 sc eng x1 b1) = None /\
  (sc = scopeName -> Ident.validate (durable blake3 sc eng x1 b1) = Ok tt).
Proof.
  intros H1 H2 Hinj. split.
  { split; [|by intros [-> ->]]. intros E. apply durable_hash in E.
    pose proof (Hinj E) as Ei.
    apply cut_byte_None in H1, H2. pose proof (cut_byte_here "|" x1 b1) as C1. pose proof (cut_byte_here "|" x2 b2) as C2.
    apply cut_byte_None in H1, H2. specialize (C1 H1). specialize (C2 H2).
    change ("|" +:+ b1) with (String "|" b1) in Ei. change ("|" +:+ b2) with (String "|" b2) in Ei.
    rewrite Ei in C1. rewrite C1 in C2. by injection C2 as -> ->. }
  assert (forall h, nameScopedTemplate ("_tmbs:" +:+ h) = None /\ nameScopedTemplate ("tmbs-" +:+ h) = None /\
    nameScopedTemplate ("tmbs_" +:+ h) = None /\ nameScopedTemplate ("_tmbs_" +:+ h) = None) as Hn by done.
  repeat split.
  - unfold durable. destruct sc; [apply Hn|]. destruct (String.eqb eng "redis"); [apply Hn|].
    destruct (String.eqb eng "s3"); apply Hn.
  - unfold durable. by destruct sc, (String.eqb eng "redis"), (String.eqb eng "s3").
  - unfold durable. by destruct sc, (String.eqb eng "redis"), (String.eqb eng "s3").
  - unfold durable. by destruct sc, (String.eqb eng "redis"), (String.eqb eng "s3").
  - intros ->. unfold durable. apply Ident.validate_ok. split; [done|].
    rewrite str_all_app. simpl. eapply str_all_weaken; [|apply bsHash_hex].
    intros c Hc. by apply slug_ident, hex_slug.
Qed.
End DurableNames.

(** ** Witnesses *)
Definition mem_count (o : option string) (t : string) : Z :=
  match o with Some v => if String.eqb t "t" then Z.of_nat (String.length v) else 0%Z | None => 0%Z end.

Lemma demo_sampled v : sampled_tables {[ "t" := Z.of_nat (String.length v) ]} = if String.eqb v "" then [] else ["t"].
Proof.
  unfold sampled_tables. rewrite map_to_list_singleton. destruct v; reflexivity.
Qed.

Lemma demo_honest : honest_sampler (ND := demo_driver) "app" (demo_dn "main") mem_count.
Proof.
  split; [reflexivity| |].
  - intros n e. eexists. split; [reflexivity|]. simpl. unfold mem_rows.
    destruct (data e !! "app") as [v|]; simpl; [|split; [by intros t Ht%elem_of_nil|by intros [t Ht]]].
    rewrite demo_sampled. destruct v as [|c v]; simpl.
    + split; [by intros t Ht%elem_of_nil|]. intros [t Ht]. by destruct (String.eqb t "t").
    + split; [|done]. intros t Ht. apply list_elem_of_singleton in Ht as ->. simpl. lia.
  - intros n ts e. eexists. split; [reflexivity|]. simpl. unfold mem_rows, mem_count. intros t _.
    destruct (data e !! _) as [v|]; [|done]. destruct (String.eqb_spec t "t") as [->|Hne].
    + by rewrite lookup_singleton_eq.
    + by rewrite lookup_singleton_ne.
Qed.


Lemma teardown_keeps_data_witness :
  let r := teardownActive demo_digest (crash_at 33) demo_args "app" on_dev in
  ((GetActiveBranch 7 "app" (st r.1) = Some "dev" /\ data (eng r.1) !! "app" = Some "dev data") \/
   data (eng r.1) !! demo_dn "dev" = Some "dev data") /\
  (r.2 = Done tt -> data (eng r.1) !! demo_dn "dev" = Some "dev data" /\ data (eng r.1) !! "app" = None /\
     marker demo_args "app" r.1 = None).
Proof.
  apply (teardown_keeps_data (NL := demo_driver_laws) demo_digest (crash_at 33) idle demo_args "app").
  - apply demo_setting. reflexivity.
  - vm_compute. reflexivity.
  - discriminate.
  - vm_compute. reflexivity.
Defined.

Lemma reset_outcome_witness :
  let r := resetActiveNamespace demo_digest calm demo_args "app" on_dev in
  (forall b', demo_dn "dev" <> demo_dn b' -> contents (eng r.1) (demo_dn b') = contents (eng on_dev) (demo_dn b')) /\
  (r.2 = Done tt ->
   contents (eng r.1) "app" = None /\ marker demo_args "app" r.1 = None /\
   (forall b', GetBranchMigrated (worktreeID demo_args) "app" b' (st r.1) = None) /\
   Forall (fun row => same_durable (repoID demo_args) (demo_dn "dev") row = false) (branch_durables (st r.1))).
Proof.
  refine (reset_outcome (NL := demo_driver_laws) demo_digest calm idle demo_args "app"
    (demo_setting no_fault false calm demo_args (fun _ _ => eq_refl)) on_dev "dev" _ _).
  - vm_compute. reflexivity.
  - discriminate.
Defined.

(** a database with a migrate command that always fails *)
Definition broken : Commands Mem :=
  {| migrate_cmd := fun _ _ e => (e, Err Other); seed_cmd := fun _ _ e => (e, Ok tt);
     loadDump_cmd := fun _ _ _ e => (e, Ok tt) |}.
Definition migrating_args : branchScopedArgs :=
  {| d_ := d_ demo_args; mainD := None; has_Migrate := true; has_Seed := false; has_loadDump := false;
     worktreePath := "/w"; repoID := 1; worktreeID := 7; migrateFP := "fp"; engine := "mysql"; scope := scopeName |}.

Lemma broken_setting : @Setting Mem string demo_driver demo_driver_laws demo_digest calm broken migrating_args "app".
Proof. destruct (demo_setting no_fault false calm migrating_args (fun _ _ => eq_refl)); by split. Qed.

Definition back_on_main : World Mem := (demo_run demo_driver calm "main" on_dev).1.

Lemma broken_migrations_keep_durable_witness :
  let r := finish_run demo_digest "" None default_range calm broken (on_branch "main" None) migrating_args "app" "main"
    (false, Swap HResume) back_on_main in
  contents (eng r.1) (demo_dn "main") = contents (eng back_on_main) (demo_dn "main") /\
  (has_Migrate migrating_args = true ->
   GetBranchMigrated (worktreeID migrating_args) "app" "main" (st back_on_main) = None -> forall d, r.2 <> Done d).
Proof.
  refine (broken_migrations_keep_durable (NL := demo_driver_laws) demo_digest "" None default_range calm broken
    (on_branch "main" None) migrating_args "app" broken_setting back_on_main "main" (false, Swap HResume) _).
  intros n e. vm_compute. discriminate.
Defined.

Lemma save_outcome_witness :
  let r := saveActiveNamespace demo_digest calm demo_args "app" on_dev in
  contents (eng r.1) "app" = contents (eng on_dev) "app" /\
  match r.2 with
  | Done SkipNoMarker => default "" (GetActiveBranch (worktreeID demo_args) "app" (st on_dev)) = ""
  | Done SkipMissing => contents (eng on_dev) "app" = None
  | Done SkipUnchanged => exists b v, GetActiveBranch (worktreeID demo_args) "app" (st on_dev) = Some b /\
      contents (eng r.1) (demo_dn b) = Some v /\ contents (eng on_dev) "app" = Some v
  | Done (Saved b dur) => GetActiveBranch (worktreeID demo_args) "app" (st on_dev) = Some b /\ dur = demo_dn b /\
      contents (eng r.1) dur = contents (eng on_dev) "app" /\
      exists row, row ∈ branch_durables (st r.1) /\ dRepoID row = repoID demo_args /\ dDurableName row = dur /\ dBranch row = b
  | _ => True
  end.
Proof.
  refine (save_outcome (NL := demo_driver_laws) demo_digest calm idle demo_args "app"
    (demo_setting no_fault false calm demo_args (fun _ _ => eq_refl)) on_dev _).
  apply (history_inv (NL := demo_driver_laws) demo_digest "" None default_range demo_args "app" fresh on_dev eq_refl).
  apply demo_history.
Defined.

Lemma captureVerified_verdict_witness :
  let r := captureVerified calm "app" (demo_dn "main") fresh in
  (r.2 = Done tt ->
   exists t, (0 < mem_count (contents (eng r.1) "app") t)%Z /\ mem_count (contents (eng r.1) (demo_dn "main")) t <> 0%Z) /\
  ((forall n e, (Capture n "app" (demo_dn "main") e).2 <> Err VerifiedEmpty) ->
   (forall n e, (Capture n "app" (demo_dn "main") e).2 = Ok tt ->
      contents (Capture n "app" (demo_dn "main") e).1 (demo_dn "main") = contents e "app") ->
   r.2 <> Fail VerifiedEmpty).
Proof.
  refine (captureVerified_verdict calm "app" (demo_dn "main") mem_count demo_honest (fun _ _ => eq_refl) fresh _ _).
  - intros n e. by apply (copy_frame no_fault false).
  - exists "t". vm_compute. reflexivity.
Defined.

Lemma demo_reliable : reliable (ND := demo_driver) calm.
Proof.
  split; simpl; try done.
  - intros n ns e. eauto.
  - intros n s t e [v Hv]. unfold copy, write. by rewrite Hv.
  - intros n s t e [v Hv]. unfold copy, write. by rewrite Hv.
  - intros n n' src dst e e' s c Heq [= <-] [= <-]. unfold mem_rows. rewrite Heq.
    destruct (data e' !! dst) as [v|]; [|reflexivity]. rewrite demo_sampled.
    destruct v as [|x v]; [reflexivity|]. simpl. rewrite lookup_singleton_eq. reflexivity.
Qed.


Lemma durable_names_witness :
  (durable sample_digest scopeName "mysql" "app" "main" = durable sample_digest scopeName "mysql" "app" "dev" <->
   "app" = "app" /\ "main" = "dev") /\
  nameScopedTemplate (durable sample_digest scopeName "mysql" "app" "main") = None /\
  spareNamePattern (durable sample_digest scopeName "mysql" "app" "main") = None /\
  esTemplatePrefix (durable sample_digest scopeName "mysql" "app" "main") = None /\
  redisTemplatePrefix (durable sample_digest scopeName "mysql" "app" "main") = None /\
  (scopeName = scopeName -> Ident.validate (durable sample_digest scopeName "mysql" "app" "main") = Ok tt).
Proof.
  apply (durable_names sample_digest).
  - apply sample_digest_32.
  - reflexivity.
  - reflexivity.
  - vm_compute. discriminate.
Defined.

(** ** Where the guarantees end *)

(** A write of the application between the capture and the reading of the
    watermark is counted as captured: the next switch skips the capture, and
    switching back restores the older copy. *)
Example late_write_lost :
  let w := (demo_run demo_driver (write_at 10 "app" "late") "main" fresh).1 in
  let w1 := app_writes "dev data" (demo_run demo_driver calm "dev" w).1 in
  let w2 := (demo_run demo_driver calm "main" w1).1 in
  data (eng w) !! "app" = Some "late" /\ data (eng w1) !! demo_dn "main" = Some "base" /\
  data (eng w2) !! "app" = Some "base".
Proof. vm_compute. done. Qed.

(** A restore that fails while the durable copy is there does not stop the
    prepare: main's marker is put on dev's data, and the next switch away
    overwrites main's durable copy with it. *)
Example failed_resume_overwrites :
  let r1 := demo_run (demo (fault_at 41) false) calm "main" on_dev in
  let r2 := demo_run demo_driver calm "dev" r1.1 in
  r1.2 = Done (Swap HBranchPoint) /\ data (eng on_dev) !! demo_dn "main" = Some "main data" /\
  data (eng r2.1) !! demo_dn "main" = Some "dev data".
Proof. vm_compute. done. Qed.

(** Without [NsAtomic]: the clean bit survives a capture that failed half
    way, so the next prepare takes the torn copy for a mirror and skips the
    capture. *)
Example torn_capture_trusted :
  let w := (demo_run demo_driver calm "main" fresh).1 in
  let r1 := demo_run (demo (fun n => fault_at 16 n || fault_at 18 n) true) calm "dev" w in
  let r2 := demo_run demo_driver calm "dev" r1.1 in
  r1.2 = Fail Other /\ r2.2 = Done (Swap HBranchPoint) /\ data (eng r2.1) !! demo_dn "main" = Some "torn".
Proof. vm_compute. done. Qed.

(** A reset swallows a failed drop of the durable copy and reports success;
    the next prepare resumes the copy the reset was to remove. *)
Example reset_leaves_durable :
  let w := (saveActiveNamespace demo_digest calm demo_args "app" on_dev).1 in
  let r := resetActiveNamespace (ND := demo (fault_at 40) false) demo_digest calm demo_args "app" w in
  r.2 = Done tt /\ (demo_run demo_driver calm "dev" r.1).2 = Done (Seed HResume).
Proof. vm_compute. done. Qed.

(** The marker is keyed by worktree and namespace name: a second database of
    the same name on another engine sees the marker of the first and is never
    swapped. *)
Example second_engine_not_swapped :
  let first := demo_run demo_driver calm "dev" on_main in
  let second := Build_World (eng on_main) (st first.1) 0 in
  let pg := {| d_ := d_ demo_args; mainD := None; has_Migrate := false; has_Seed := false; has_loadDump := false;
    worktreePath := "/w"; repoID := 1; worktreeID := 7; migrateFP := ""; engine := "postgres"; scope := scopeName |} in
  first.2 = Done (Swap HBranchPoint) /\
  (runBranchScoped demo_digest "" None default_range calm idle (on_branch "dev" None) pg second).2 = Done Noop.
Proof. vm_compute. done. Qed.

(** An adoption under a default branch called [resume] is taken for a resume. *)
Example adopt_resume : isResume (AdoptAs "resume") = true.
Proof. vm_compute. done. Qed.

(** an engine whose copies lose every row *)
Definition lossy : NsDriver Mem string :=
  {| contents e ns := data e !! ns;
     Exists n ns e := Ok (bool_decide (is_Some (data e !! ns)));
     Capture n s t e := (put t (Some "") e, Ok tt);
     Restore n s t e := (put t (Some "") e, Ok tt);
     RestoreParent n s t _ e := (put t (Some "") e, Ok tt);
     Empty n t e := (put t (Some "") e, Ok tt);
     Drop n t e := (put t None e, Ok tt);
     DropDurable n t e := (put t None e, Ok tt);
     Watermark n ns e := Ok (pretty (ver e ns));
     has_sampler := true;
     RowCountSample n ns e := Ok (mem_rows ns e);
     RowCountsFor n ns _ e := Ok (mem_rows ns e) |}.

(** A switch refuses such a copy, a save records it. *)
Example save_is_not_verified :
  (demo_run lossy calm "main" on_dev).2 = Fail VerifiedEmpty /\
  (saveActiveNamespace (ND := lossy) demo_digest calm demo_args "app" on_dev).2 = Done (Saved "dev" (demo_dn "dev")).
Proof. vm_compute. done. Qed.
