(* ===== verification/BranchReap.v ===== *)
(** * Reaping durable copies

    [internal/prepare/branchreap.go]: the sweeps that drop the durable copies
    of branch-scoped databases - of branches that were pruned, of branches that
    are gone, of copies unused for long, and of copies no registry row names.
    The servers are a type class; every call to one may fail, and so may every
    statement on the tables of [BranchStore].  The sweep keeps a record of the
    drops it asks for. *)
From stdpp Require Import base strings list sets gmap sorting.
From Stdlib Require Import ZArith Lia.
From S2P Require Import Prelude GoStrings Lines Engine Slug Template SnapshotKey BranchStore BranchSwap BranchHistory.

(** ** The spelling of durable names *)
Definition isBSHash (s : string) : bool := (String.length s =? 16)%nat && str_all is_hex s.

Definition esDurableMarker : string := "tmbs_".

(** the durable family of an index: the marker, sixteen digits, an underscore *)
Definition esDurablePrefix (index : string) : option string :=
  rest ← cut_prefix esDurableMarker index;
  '(h, after) ← hex16 rest;
  match after with String "_" _ => Some (esDurableMarker +:+ h +:+ "_") | _ => None end.

Definition untrackedMarker (eng : string) : option string :=
  if String.eqb eng "mysql" then Some "_tmbs_"
  else if String.eqb eng "postgres" then Some "_tmbs_"
  else if String.eqb eng "mongodb" then Some "_tmbs_"
  else if String.eqb eng "s3" then Some "tmbs-"
  else if String.eqb eng "elasticsearch" then Some esDurableMarker
  else None.

Definition durableFamily (eng name : string) : option string :=
  if String.eqb eng "elasticsearch" then esDurablePrefix name
  else marker ← untrackedMarker eng;
       rest ← cut_prefix marker name;
       if isBSHash rest then Some name else None.

(** ** When a copy was first seen untracked *)
(** [UntrackedSeen]: the grace period, and the first sightings by engine and
    name *)
Definition UntrackedGraceDefault : Z := 600000.
Definition seen_prefix (eng : string) : string := eng +:+ String "000" "".
Definition seen_key (eng name : string) : string := seen_prefix eng +:+ name.

Definition still_untracked (eng : string) (untracked : gset string) (k : string) : bool :=
  match cut_prefix (seen_prefix eng) k with Some name => bool_decide (name ∈ untracked) | None => true end.

Definition effective_grace (grace : Z) : Z := if (grace <=? 0)%Z then UntrackedGraceDefault else grace.

(** [observe]: the sightings after the sweep at [now], and the names that are due *)
Definition forget_tracked (eng : string) (untracked : gset string) (first : gmap string Z) : gmap string Z :=
  filter (fun kv => still_untracked eng untracked kv.1 = true) first.

Definition is_due (grace now : Z) (first : gmap string Z) (k : string) : bool :=
  match first !! k with Some t => (effective_grace grace <=? now - t)%Z | None => false end.

Definition add_sighting (eng : string) (now : Z) (first : gmap string Z) (name : string) : gmap string Z :=
  match first !! seen_key eng name with Some _ => first | None => <[seen_key eng name := now]> first end.

Definition observe (grace now : Z) (eng : string) (untracked : gset string) (first : gmap string Z) : gmap string Z * list string :=
  let kept := forget_tracked eng untracked first in
  (foldl (add_sighting eng now) kept (elements untracked),
   merge_sort String.le (List.filter (fun name => is_due grace now kept (seen_key eng name)) (elements untracked))).

(** ** Branches that git lists *)
Definition localBranchSet (out : option string) : option (gset string) :=
  match out with
  | None => None
  | Some s => Some (list_to_set (List.filter (fun b => negb (String.eqb b "")) (map TrimSpace (lines (TrimSpace s)))))
  end.

(** ** The servers *)
Inductive connected := ConnectFailed | NoServer | Connected.

Class ReapDriver (E : Type) := {
  connect : nat -> string -> string -> E -> connected;
  durable_exists : nat -> string -> string -> string -> E -> res err bool;
  drop_durable : nat -> string -> string -> string -> E -> E * res err unit;
  list_matching : nat -> string -> string -> string -> E -> res err (list string);
  drop_matching : nat -> string -> string -> string -> E -> E * res err (list string)
}.

(** a drop that was asked for: the engine, the connection, the name *)
Definition drop : Type := string * string * string.
(** [branch_reap] *)
Record reaped := { rEngine : string; rBranch : string; rDurable : string; rReason : string }.

Record World (E : Type) := { tabs : Tables; srv : E; calls : nat; dropped : list drop; events : list reaped }.
Arguments tabs {E}. Arguments srv {E}. Arguments calls {E}. Arguments dropped {E}. Arguments events {E}.
Arguments Build_World {E}.

Section Reap.
Context {E : Type} `{!ReapDriver E}.
(** a statement that fails *)
Context (store_fault : nat -> bool).
Implicit Types w : World E.

Definition tick w : World E := {| tabs := tabs w; srv := srv w; calls := S (calls w); dropped := dropped w; events := events w |}.
Definition add_event ev w : World E := {| tabs := tabs w; srv := srv w; calls := calls w; dropped := dropped w; events := events w ++ [ev] |}.

Definition ask_drop (eng conn name : string) w : World E * res err unit :=
  match drop_durable (calls w) eng conn name (srv w) with
  | (e, r) => ({| tabs := tabs w; srv := e; calls := S (calls w); dropped := dropped w ++ [(eng, conn, name)]; events := events w |}, r)
  end.

Definition ask_drop_matching (eng conn name : string) w : World E * res err (list string) :=
  match drop_matching (calls w) eng conn name (srv w) with
  | (e, r) => ({| tabs := tabs w; srv := e; calls := S (calls w); dropped := dropped w ++ [(eng, conn, name)]; events := events w |}, r)
  end.

Definition read_store {A} (f : Tables -> A) w : World E * option A :=
  (tick w, if store_fault (calls w) then None else Some (f (tabs w))).

Definition forget_durable (repoID : Z) (name : string) w : World E :=
  {| tabs := if store_fault (calls w) then tabs w else DeleteBranchDurable repoID name (tabs w);
     srv := srv w; calls := S (calls w); dropped := dropped w; events := events w |}.

(** *** Pruned branches *)
Section Names.
Context (blake3 : string -> string).

Record reapTarget := { wtID : Z; active : string }.

Definition reap_pair (scope : bsScope) (eng conn : string) (repoID : Z) w (p : reapTarget * string) : World E :=
  let dur := durable blake3 scope eng (active p.1) p.2 in
  match durable_exists (calls w) eng conn dur (srv w) with
  | Err _ | Ok false => tick w
  | Ok true =>
      match ask_drop eng conn dur (tick w) with
      | (w, Err _) => w
      | (w, Ok _) => add_event {| rEngine := eng; rBranch := p.2; rDurable := dur; rReason := "" |} (forget_durable repoID dur w)
      end
  end.

Definition reapViaEngine (scope : bsScope) (eng conn : string) (repoID : Z) (targets : list reapTarget) (branches : list string) w : World E :=
  foldl (reap_pair scope eng conn repoID) w (t ← targets; b ← branches; [(t, b)]).

(** a database of the configuration, and its form under the overlay of the
    main worktree, if it has one *)
Record ScopedDB := { sEngine : string; sConnection : string; sBranchScoped : bool; sBase : DatabaseConfig; sMain : option DatabaseConfig }.

(** the process-wide suffix, the working directory, the Redis window *)
Context (suffix : string) (getwd : option string) (window : redis_range).
Definition active_of : DatabaseConfig -> bsScope -> string -> option string := activeNamespace blake3 suffix getwd window.

Definition target_of (d : ScopedDB) (scope : bsScope) (wt : Z * WorktreeRow) : option reapTarget :=
  let cfg := if wtIsMain wt.2 then default (sBase d) (sMain d) else sBase d in
  a ← active_of cfg scope (wtPath wt.2); Some {| wtID := wt.1; active := a |}.

Definition reap_database (repoID : Z) (worktrees : list (Z * WorktreeRow)) (branches : list string) w (d : ScopedDB) : World E :=
  if negb (sBranchScoped d) then w
  else match branchScopeFor (sEngine d) with
       | (scope, eng, true) =>
           match connect (calls w) eng (sConnection d) (srv w) with
           | Connected => reapViaEngine scope eng (sConnection d) repoID (omap (target_of d scope) worktrees) branches (tick w)
           | _ => tick w
           end
       | _ => w
       end.

Definition ReapBranchDurablesMany (dbs : list ScopedDB) (repoID : Z) (worktrees : option (list (Z * WorktreeRow))) (branches : list string) w : World E :=
  match List.filter (fun b => negb (String.eqb b "")) branches with
  | [] => w
  | filtered =>
      match worktrees with
      | None | Some [] => tick w
      | Some wts => foldl (reap_database repoID wts filtered) (tick w) dbs
      end
  end.
Definition ReapBranchDurables (dbs : list ScopedDB) (repoID : Z) (worktrees : option (list (Z * WorktreeRow))) (branch : string) w : World E :=
  if String.eqb branch "" then w else ReapBranchDurablesMany dbs repoID worktrees [branch] w.
End Names.

(** *** Tracked copies *)
Definition drop_tracked (reason eng : string) (repoID : Z) w (d : BranchDurableRow) : World E :=
  match ask_drop eng "" (dDurableName d) w with
  | (w, Err _) => w
  | (w, Ok _) => add_event {| rEngine := eng; rBranch := dBranch d; rDurable := dDurableName d; rReason := reason |}
                   (forget_durable repoID (dDurableName d) w)
  end.

Definition engines_of (rows : list BranchDurableRow) : list string :=
  merge_sort String.le (remove_dups (map dEngine rows)).

Definition drop_engine (reason : string) (repoID : Z) (rows : list BranchDurableRow) w (eng : string) : World E :=
  match connect (calls w) eng "" (srv w) with
  | Connected => foldl (drop_tracked reason eng repoID) (tick w) (List.filter (fun d => String.eqb (dEngine d) eng) rows)
  | _ => tick w
  end.

Definition dropTrackedDurables (reason : string) (repoID : Z) (rows : list BranchDurableRow) w : World E :=
  foldl (drop_engine reason repoID rows) w (engines_of rows).

Definition branch_gone (live : gset string) (d : BranchDurableRow) : bool := bool_decide (dBranch d ∉ live).

(** [git]: the output of for-each-ref *)
Definition ReapOrphanDurables (repoID : Z) (git : option string) w : World E :=
  match read_store (ListBranchDurables repoID) w with
  | (w, None) | (w, Some []) => w
  | (w, Some rows) =>
      match localBranchSet git with
      | None => w
      | Some live =>
          if decide (live = ∅) then w
          else dropTrackedDurables "orphan_branch_gone" repoID (List.filter (branch_gone live) rows) w
      end
  end.

(** [-time.Duration(days) * 24 * time.Hour], 64-bit nanoseconds, and the cutoff
    in milliseconds; [now] is in nanoseconds *)
Definition max_age (days : Z) : Z := wrap64 (wrap64 (days * 24) * 3600000000000).
Definition expiry_cutoff (now days : Z) : Z := (now + wrap64 (- max_age days)) / 1000000.

Definition ReapExpiredDurables (maxAgeDays now repoID : Z) w : World E :=
  if (maxAgeDays <? 0)%Z then w
  else match read_store (ListBranchDurablesUnusedSince repoID (expiry_cutoff now maxAgeDays)) w with
       | (w, None) => w
       | (w, Some rows) => dropTrackedDurables "expired" repoID rows w
       end.

(** *** Untracked copies *)
Definition untracked_in (eng : string) (keep : gset string) (names : list string) : gset string :=
  list_to_set (List.filter (fun f => bool_decide (f ∉ keep)) (omap (durableFamily eng) names)).

Definition drop_untracked (eng conn : string) w (fam : string) : World E :=
  let ev := {| rEngine := eng; rBranch := ""; rDurable := fam; rReason := "orphan_untracked" |} in
  if String.eqb eng "elasticsearch" then
    match ask_drop_matching eng conn fam w with
    | (w, Err _) | (w, Ok []) => w
    | (w, Ok _) => add_event ev w
    end
  else match ask_drop eng conn fam w with
       | (w, Err _) => w
       | (w, Ok _) => add_event ev w
       end.

(** the sightings are threaded through the sweep; [clock] is read once an engine *)
Definition reapUntrackedEngine (grace : Z) (clock : nat -> Z) (x : World E * gmap string Z) (t : string * string) : World E * gmap string Z :=
  let '(w, first) := x in
  let '(eng, conn) := t in
  match connect (calls w) eng conn (srv w) with
  | Connected =>
      match read_store (ListAllDurableNamesByEngine eng) (tick w) with
      | (w, None) => (add_event {| rEngine := eng; rBranch := ""; rDurable := ""; rReason := "skipped" |} w, first)
      | (w, Some keep) =>
          match untrackedMarker eng with
          | None => (w, first)
          | Some marker =>
              match list_matching (calls w) eng conn marker (srv w) with
              | Err _ => (tick w, first)
              | Ok names =>
                  let '(first, due) := observe grace (clock (calls w)) eng (untracked_in eng keep names) first in
                  (foldl (drop_untracked eng conn) (tick w) due, first)
              end
          end
      end
  | _ => (tick w, first)
  end.

Definition untracked_target (d : ScopedDB) : option (string * string) :=
  if negb (sBranchScoped d) then None
  else match branchScopeFor (sEngine d) with
       | (_, eng, true) => match untrackedMarker eng with Some _ => Some (eng, sConnection d) | None => None end
       | _ => None
       end.

Fixpoint first_of_each {A} `{EqDecision A} (seen l : list A) : list A :=
  match l with
  | [] => []
  | x :: l => if decide (x ∈ seen) then first_of_each seen l else x :: first_of_each (x :: seen) l
  end.

Definition ReapUntrackedDurables (grace : Z) (clock : nat -> Z) (dbs : list ScopedDB) (x : World E * gmap string Z) : World E * gmap string Z :=
  foldl (reapUntrackedEngine grace clock) x (first_of_each [] (omap untracked_target dbs)).
End Reap.

(** ** What a sweep may do *)
Section Only.
Context {E : Type} (repo : Z) (P : drop -> Prop).
Implicit Types w : World E.

(** it asks for such drops only, and forgets rows of its repository only whose
    copy it asked to drop *)
Definition only w w' : Prop := exists l f,
  dropped w' = dropped w ++ l /\ Forall P l /\
  tabs w' = with_durables (List.filter f (branch_durables (tabs w))) (tabs w) /\
  forall r, f r = false -> dRepoID r = repo /\ exists eng conn, (eng, conn, dDurableName r) ∈ l.

Lemma only_same w w' : tabs w' = tabs w -> dropped w' = dropped w -> only w w'.
Proof.
  intros Ht Hd. exists [], (fun _ => true). split_and!; [by rewrite app_nil_r|done| |done].
  rewrite filter_all_true by done. rewrite Ht. by destruct (tabs w).
Qed.

Lemma only_trans w1 w2 w3 : only w1 w2 -> only w2 w3 -> only w1 w3.
Proof.
  intros (l1 & f1 & Hd1 & Hp1 & Ht1 & Hf1) (l2 & f2 & Hd2 & Hp2 & Ht2 & Hf2).
  exists (l1 ++ l2), (fun r => f1 r && f2 r). split_and!.
  - by rewrite Hd2, Hd1, app_assoc.
  - by apply Forall_app.
  - rewrite Ht2, Ht1. cbn. by rewrite filter_filter.
  - intros r [H|H]%andb_false_iff; [apply Hf1 in H|apply Hf2 in H]; destruct H as [Hr (eng & conn & Hin)];
      (split; [done|]); exists eng, conn; apply elem_of_app; auto.
Qed.

Lemma only_foldl {A} (g : World E -> A -> World E) l :
  (forall w x, x ∈ l -> only w (g w x)) -> forall w, only w (foldl g w l).
Proof.
  induction l as [|x l IH]; intros Hg w; [by apply only_same|]. cbn.
  eapply only_trans; [apply Hg; by left|]. apply IH. intros w0 y Hy. apply Hg. by right.
Qed.
End Only.

Section Sweeps.
Context {E : Type} `{!ReapDriver E} (store_fault : nat -> bool).
Implicit Types w : World E.

Lemma only_drop repo P eng conn name ev w :
  P (eng, conn, name) ->
  only repo P w (match ask_drop eng conn name w with
                 | (w, Err _) => w
                 | (w, Ok _) => add_event ev (forget_durable store_fault repo name w)
                 end).
Proof.
  intros HP. unfold ask_drop. destruct (drop_durable (calls w) eng conn name (srv w)) as [e [u|er]].
  - exists [(eng, conn, name)], (fun r => if store_fault (S (calls w)) then true else negb (same_durable repo name r)).
    cbn. split_and!; [done|by constructor| |].
    + destruct (store_fault (S (calls w))); [|done]. rewrite filter_all_true by done. by destruct (tabs w).
    + intros r. destruct (store_fault (S (calls w))); [done|]. intros H%negb_false_iff.
      unfold same_durable in H. apply andb_true_iff in H as [Hr%Z.eqb_eq Hn%String.eqb_eq]. split; [done|].
      exists eng, conn. rewrite Hn. by left.
  - exists [(eng, conn, name)], (fun _ => true). cbn. split_and!; [done|by constructor| |done].
    rewrite filter_all_true by done. by destruct (tabs w).
Qed.

Lemma elem_of_engines eng rows : eng ∈ engines_of rows <-> exists r, r ∈ rows /\ dEngine r = eng.
Proof.
  unfold engines_of. rewrite merge_sort_Permutation, elem_of_remove_dups, list_elem_of_fmap. naive_solver.
Qed.

(** the copies of the given rows, by their recorded names *)
Lemma only_tracked repo P reason rows w :
  (forall r, r ∈ rows -> P (dEngine r, "", dDurableName r)) ->
  only repo P w (dropTrackedDurables store_fault reason repo rows w).
Proof.
  intros HP. apply only_foldl. intros w0 eng _. unfold drop_engine. destruct (connect _ eng "" _).
  1,2: by apply only_same.
  eapply only_trans; [by apply (only_same _ _ w0 (tick w0))|]. apply only_foldl.
  intros w1 d [He%String.eqb_eq Hd]%elem_of_filter_bool. apply only_drop. subst eng. by apply HP.
Qed.

Lemma elem_of_ListBranchDurables repo t r :
  r ∈ ListBranchDurables repo t -> r ∈ branch_durables t /\ dRepoID r = repo.
Proof.
  unfold ListBranchDurables. destruct (Z.eqb repo 0); [by intros ?%elem_of_nil|].
  rewrite elem_of_stable_sort, elem_of_filter_bool. by intros [->%Z.eqb_eq ?].
Qed.

(** a row of the repository whose branch git does not list *)
Definition orphan_drop (t : Tables) (repo : Z) (live : gset string) (x : drop) : Prop := exists r,
  r ∈ branch_durables t /\ dRepoID r = repo /\ dBranch r ∉ live /\ x = (dEngine r, "", dDurableName r).

Lemma orphans_only repo git w :
  only repo (fun x => exists live, localBranchSet git = Some live /\ orphan_drop (tabs w) repo live x)
    w (ReapOrphanDurables store_fault repo git w).
Proof.
  unfold ReapOrphanDurables, read_store. destruct (store_fault (calls w)); [by apply only_same|].
  destruct (ListBranchDurables repo (tabs w)) as [|r0 rows0] eqn:Hl; [by apply only_same|]. rewrite <- Hl. clear Hl r0 rows0.
  destruct (localBranchSet git) as [live|]; [|by apply only_same].
  case_decide; [by apply only_same|].
  eapply only_trans; [by apply (only_same _ _ w (tick w))|]. apply only_tracked.
  intros r [Hg Hr%elem_of_ListBranchDurables]%elem_of_filter_bool. destruct Hr as [Hr Hrepo].
  exists live. split; [done|]. exists r. split_and!; try done. by apply bool_decide_eq_true in Hg.
Qed.

(** copies unused since the cutoff that no active namespace mirrors *)
Definition expired_drop (t : Tables) (repo cutoff : Z) (x : drop) : Prop := exists r,
  r ∈ branch_durables t /\ dRepoID r = repo /\ (dLastUsedAt r < cutoff)%Z /\ mirrored t r = false /\
  x = (dEngine r, "", dDurableName r).

Lemma expired_only days now repo w :
  only repo (fun x => (0 <= days)%Z /\ expired_drop (tabs w) repo (expiry_cutoff now days) x)
    w (ReapExpiredDurables store_fault days now repo w).
Proof.
  unfold ReapExpiredDurables, read_store. destruct (Z.ltb_spec days 0) as [|Hdays]; [by apply only_same|].
  destruct (store_fault (calls w)); [by apply only_same|].
  eapply only_trans; [by apply (only_same _ _ w (tick w))|]. apply only_tracked.
  unfold ListBranchDurablesUnusedSince. intros r Hr.
  rewrite elem_of_stable_sort in Hr. apply elem_of_filter_bool in Hr as [Hc Hr].
  apply andb_true_iff in Hc as [[Hrepo%Z.eqb_eq Hlt%Z.ltb_lt]%andb_true_iff Hm%negb_true_iff].
  split; [done|]. by exists r.
Qed.
End Sweeps.

(** ** What a sweep does when nothing fails *)
Section Complete.
Context {E : Type} `{!ReapDriver E} (store_fault : nat -> bool).
Implicit Types w : World E.

Record faultless : Prop := {
  connects n eng conn (e : E) : connect n eng conn e = Connected;
  drops n eng conn name (e : E) : (drop_durable n eng conn name e).2 = Ok tt;
  stores n : store_fault n = false
}.
Context (Hok : faultless).

(** the rows that outlive the drop of a list of copies *)
Definition outlives (repo : Z) (l : list BranchDurableRow) (r : BranchDurableRow) : bool :=
  negb (existsb (fun d => same_durable repo (dDurableName d) r) l).

Definition done_with (reason : string) (repo : Z) (l : list (string * BranchDurableRow)) w : World E :=
  foldl (fun w x => drop_tracked store_fault reason x.1 repo w x.2) w l.

Lemma drop_tracked_done reason eng repo d w :
  branch_durables (tabs (drop_tracked store_fault reason eng repo w d)) =
    List.filter (outlives repo [d]) (branch_durables (tabs w)) /\
  dropped (drop_tracked store_fault reason eng repo w d) = dropped w ++ [(eng, "", dDurableName d)].
Proof using Hok.
  unfold drop_tracked, ask_drop. pose proof (drops Hok (calls w) eng "" (dDurableName d) (srv w)) as Hd.
  destruct (drop_durable _ _ _ _ _) as [e r]. cbn in Hd. subst r. cbn. rewrite (stores Hok). cbn. split; [|done].
  apply filter_ext. intros r. unfold outlives. cbn. by rewrite orb_false_r.
Qed.

Lemma done_with_spec reason repo l : forall w,
  branch_durables (tabs (done_with reason repo l w)) = List.filter (outlives repo (map snd l)) (branch_durables (tabs w)) /\
  dropped (done_with reason repo l w) = dropped w ++ map (fun x => (x.1, "", dDurableName x.2)) l.
Proof using Hok.
  induction l as [|[eng d] l IH]; intros w.
  - cbn. rewrite app_nil_r. split; [|done]. by rewrite filter_all_true.
  - change (done_with reason repo ((eng, d) :: l) w) with (done_with reason repo l (drop_tracked store_fault reason eng repo w d)).
    destruct (drop_tracked_done reason eng repo d w) as [Hr Hd].
    destruct (IH (drop_tracked store_fault reason eng repo w d)) as [Hr' Hd']. rewrite Hr', Hr, Hd', Hd, filter_filter. split.
    + apply filter_ext. intros r. unfold outlives. cbn. by rewrite orb_false_r, negb_orb.
    + by rewrite <- app_assoc.
Qed.

Lemma drop_engine_done reason repo rows eng w :
  branch_durables (tabs (drop_engine store_fault reason repo rows w eng)) =
    List.filter (outlives repo (List.filter (fun d => String.eqb (dEngine d) eng) rows)) (branch_durables (tabs w)) /\
  dropped (drop_engine store_fault reason repo rows w eng) =
    dropped w ++ map (fun d => (eng, "", dDurableName d)) (List.filter (fun d => String.eqb (dEngine d) eng) rows).
Proof using Hok.
  unfold drop_engine. rewrite (connects Hok). set (l := List.filter _ rows).
  destruct (done_with_spec reason repo (map (fun d => (eng, d)) l) (tick w)) as [Hr Hd].
  unfold done_with in Hr, Hd. rewrite foldl_fmap in Hr, Hd. rewrite !map_map in Hr. rewrite map_map in Hd. cbn in Hr, Hd.
  rewrite map_id in Hr. by split.
Qed.

Lemma tracked_done reason repo rows w :
  branch_durables (tabs (dropTrackedDurables store_fault reason repo rows w)) =
    List.filter (outlives repo rows) (branch_durables (tabs w)) /\
  (forall d, d ∈ rows -> (dEngine d, "", dDurableName d) ∈ dropped (dropTrackedDurables store_fault reason repo rows w)).
Proof using Hok.
  assert (forall engs w0,
    branch_durables (tabs (foldl (drop_engine store_fault reason repo rows) w0 engs)) =
      List.filter (outlives repo (List.filter (fun d => bool_decide (dEngine d ∈ engs)) rows)) (branch_durables (tabs w0)) /\
    (forall x, x ∈ dropped w0 -> x ∈ dropped (foldl (drop_engine store_fault reason repo rows) w0 engs)) /\
    (forall d, d ∈ rows -> dEngine d ∈ engs ->
       (dEngine d, "", dDurableName d) ∈ dropped (foldl (drop_engine store_fault reason repo rows) w0 engs))) as Hall.
  { induction engs as [|eng engs IH]; intros w0.
    - cbn. split_and!; [|done|by intros d _ ?%elem_of_nil].
      rewrite (filter_all_false _ rows) by (intros d _; by apply bool_decide_eq_false, not_elem_of_nil).
      by rewrite filter_all_true.
    - cbn [foldl]. destruct (drop_engine_done reason repo rows eng w0) as [Hr Hd].
      destruct (IH (drop_engine store_fault reason repo rows w0 eng)) as (Hr' & Hkeep & Hd'). split_and!.
      + rewrite Hr', Hr, filter_filter. apply filter_ext. intros r. unfold outlives. rewrite <- negb_orb. f_equal.
        apply eq_true_iff_eq. rewrite orb_true_iff, !existsb_elem. setoid_rewrite elem_of_filter_bool.
        setoid_rewrite bool_decide_eq_true. setoid_rewrite String.eqb_eq. setoid_rewrite elem_of_cons. naive_solver.
      + intros x Hx. apply Hkeep. rewrite Hd. apply elem_of_app. by left.
      + intros d Hdr [He|He]%elem_of_cons; [|by apply Hd'].
        apply Hkeep. rewrite Hd, He. apply elem_of_app. right. apply list_elem_of_fmap. exists d. split; [done|].
        apply elem_of_filter_bool. split; [by apply String.eqb_eq|done]. }
  destruct (Hall (engines_of rows) w) as (Hr & _ & Hd). split.
  - unfold dropTrackedDurables. rewrite Hr. f_equal. f_equal. apply filter_all_true.
    intros d Hd'. apply bool_decide_eq_true, elem_of_engines. by exists d.
  - intros d Hd'. apply Hd; [done|]. apply elem_of_engines. by exists d.
Qed.
End Complete.

(** ** What git lists *)
(** the branch names git prints, one to a line *)
Definition ref_name (b : string) : Prop := b <> "" /\ TrimSpace b = b /\ one_line b = true.

Lemma unlines_cons b c names : unlines (b :: c :: names) = b +:+ (nl +:+ unlines (c :: names)).
Proof. unfold unlines. by rewrite join_cons. Qed.

Lemma trim_refs names : names <> [] -> Forall ref_name names -> TrimSpace (unlines names +:+ nl) = unlines names.
Proof.
  intros Hne Hall. unfold TrimSpace, trim.
  assert (trim_left is_space (unlines names +:+ nl) = unlines names +:+ nl) as ->.
  { destruct names as [|b names]; [done|]. apply Forall_cons in Hall as [(Hb & Hb' & _) _].
    destruct (spaced_head b Hb Hb') as (c & b' & -> & Hc). destruct names as [|b2 names]; [by apply trim_left_id|].
    rewrite unlines_cons. by apply trim_left_id. }
  rewrite trim_right_spaces by done. clear Hne. induction Hall as [|b names (Hb & Hb' & _) Hall IH]; [done|].
  destruct (TrimSpace_id b Hb Hb') as [_ Hr]. destruct names as [|b2 names]; [exact Hr|].
  rewrite unlines_cons. rewrite <- IH at 2. rewrite <- str_app_assoc.
  rewrite trim_right_app; [by rewrite IH, str_app_assoc|]. rewrite IH.
  apply Forall_cons in Hall as [(Hb2 & _ & _) _]. destruct b2 as [|c b2]; [done|].
  destruct names as [|b3 names]; [discriminate|]. by rewrite unlines_cons.
Qed.

Lemma localBranchSet_refs names :
  names <> [] -> Forall ref_name names -> localBranchSet (Some (unlines names +:+ nl)) = Some (list_to_set names).
Proof.
  intros Hne Hall. unfold localBranchSet. rewrite trim_refs by done.
  rewrite lines_unlines by (done || (eapply Forall_impl; [exact Hall|]; by intros b (_ & _ & ?))).
  assert (map TrimSpace names = names) as ->.
  { clear Hne. induction Hall as [|b names (_ & Hb & _) _ IH]; cbn; by rewrite ?Hb, ?IH. }
  f_equal. f_equal. apply filter_all_true. intros b Hb. rewrite Forall_forall in Hall.
  destruct (Hall b Hb) as (? & _). by apply negb_true_iff, String.eqb_neq.
Qed.

(** the sweep of orphaned copies asks for the drop of nothing but
    recorded copies of its repository whose branch git does not list, by their
    recorded names, whatever fails; it forgets no row of a branch that git
    lists; without an answer from git it does nothing; and when nothing fails
    every orphaned copy is dropped and its row is gone. *)
Theorem orphans_reaped {E} `{!ReapDriver E} (store_fault : nat -> bool) repo git (w w' : World E)
    (Hkey : forall r1 r2, r1 ∈ branch_durables (tabs w) -> r2 ∈ branch_durables (tabs w) ->
       dRepoID r1 = dRepoID r2 -> dDurableName r1 = dDurableName r2 -> r1 = r2)
    (Hw : w' = ReapOrphanDurables store_fault repo git w) :
  (forall x, x ∈ dropped w' -> x ∈ dropped w \/
     exists live, localBranchSet git = Some live /\ orphan_drop (tabs w) repo live x) /\
  (forall r, r ∈ branch_durables (tabs w) -> r ∈ branch_durables (tabs w') \/
     (dRepoID r = repo /\ exists live, localBranchSet git = Some live /\ dBranch r ∉ live)) /\
  (faultless (E := E) store_fault -> forall live, localBranchSet git = Some live -> live <> ∅ -> repo <> 0%Z ->
     forall r, r ∈ branch_durables (tabs w) -> dRepoID r = repo -> dBranch r ∉ live ->
       r ∉ branch_durables (tabs w') /\ (dEngine r, "", dDurableName r) ∈ dropped w').
Proof.
  subst w'. destruct (orphans_only store_fault repo git w) as (l & f & Hd & HP & Ht & Hf).
  rewrite Forall_forall in HP. split_and!.
  - intros x Hx. rewrite Hd in Hx. apply elem_of_app in Hx as [Hx|Hx]; [by left|right; by apply HP].
  - intros r Hr. rewrite Ht. cbn. destruct (f r) eqn:Efr; [left; by apply elem_of_filter_bool|right].
    destruct (Hf r Efr) as (Hrepo & eng & conn & Hin). split; [done|].
    destruct (HP _ Hin) as (live & Hlive & r' & Hr' & Hrepo' & Hgone & Hx). exists live. split; [done|].
    assert (r = r') as ->; [|done]. apply Hkey; congruence.
  - intros Hok live Hlive Hne Hrepo r Hr Hrr Hgone.
    unfold ReapOrphanDurables, read_store. rewrite (stores _ Hok), Hlive, decide_False by done.
    assert (r ∈ ListBranchDurables repo (tabs w)) as Hin.
    { unfold ListBranchDurables. apply Z.eqb_neq in Hrepo. rewrite Hrepo, elem_of_stable_sort, elem_of_filter_bool.
      split; [by apply Z.eqb_eq|done]. }
    destruct (ListBranchDurables repo (tabs w)) as [|r0 rows0] eqn:Hl; [by apply elem_of_nil in Hin|]. rewrite <- Hl in *. clear Hl.
    set (rows := List.filter (branch_gone live) _).
    assert (r ∈ rows) as Hrows by (apply elem_of_filter_bool; split; [by apply bool_decide_eq_true|done]).
    destruct (tracked_done store_fault Hok "orphan_branch_gone" repo rows (tick w)) as [Hrows' Hd']. split.
    + rewrite Hrows'. intros [Ho _]%elem_of_filter_bool. unfold outlives in Ho. apply negb_true_iff in Ho.
      apply not_true_iff_false in Ho. apply Ho, existsb_elem. exists r. split; [done|].
      unfold same_durable. by rewrite Hrr, Z.eqb_refl, String.eqb_refl.
    + by apply Hd'.
Qed.

(** ** The age of a copy *)
Lemma expiry_cutoff_days (now days : Z) :
  ((0 <= days <= 106751)%Z -> expiry_cutoff now days = ((now - days * 86400000000000) / 1000000)%Z) /\
  (now / 1000000 < expiry_cutoff now 106752)%Z.
Proof.
  split.
  - intros Hd. unfold expiry_cutoff, max_age. rewrite (wrap64_id (days * 24)), (wrap64_id (days * 24 * _)), wrap64_id by lia. f_equal. lia.
  - unfold expiry_cutoff. change (wrap64 (- max_age 106752)) with 9223371273709551616%Z.
    pose proof (Z.mul_div_le now 1000000 ltac:(lia)).
    apply Z.lt_le_trans with (now / 1000000 + 1)%Z; [lia|]. apply Z.div_le_lower_bound; lia.
Qed.

(** ** What the untracked sweep remembers *)
Definition nul_byte : ascii := "000".
(** a sweep of an engine: the time, the engine, the copies without a row *)
Definition sighting : Type := Z * string * gset string.
Definition sightings (grace : Z) (hist : list sighting) : gmap string Z :=
  foldl (fun first o => (observe grace o.1.1 o.1.2 o.2 first).1) ∅ hist.

(** [name] was first seen at [t], and at every sweep of the engine since *)
Definition stayed_untracked (hist : list sighting) (eng name : string) (t : Z) : Prop := exists pre post u,
  hist = pre ++ (t, eng, u) :: post /\ name ∈ u /\ forall t' u', (t', eng, u') ∈ post -> name ∈ u'.

Lemma seen_key_inj e1 n1 e2 n2 :
  has_byte nul_byte e1 = false -> has_byte nul_byte e2 = false -> seen_key e1 n1 = seen_key e2 n2 -> e1 = e2 /\ n1 = n2.
Proof.
  unfold seen_key, seen_prefix. revert e2. induction e1 as [|a e1 IH]; intros [|b e2]; cbn; intros H1 H2 [=]; subst; try done.
  apply orb_false_iff in H1 as [_ H1], H2 as [_ H2]. destruct (IH e2 H1 H2) as [-> ->]; done.
Qed.

Lemma cut_seen_key eng name : cut_prefix (seen_prefix eng) (seen_key eng name) = Some name.
Proof. by apply cut_prefix_app. Qed.

Lemma add_sightings_lookup eng now l : forall first k,
  foldl (add_sighting eng now) first l !! k =
  match first !! k with
  | Some t => Some t
  | None => if bool_decide (k ∈ map (seen_key eng) l) then Some now else None
  end.
Proof.
  induction l as [|n l IH]; intros first k; cbn [foldl map].
  - rewrite bool_decide_eq_false_2 by apply not_elem_of_nil. by destruct (first !! k).
  - rewrite IH. clear IH. unfold add_sighting. destruct (decide (k = seen_key eng n)) as [->|Hk].
    + rewrite (bool_decide_eq_true_2 (_ ∈ _ :: _)) by by left.
      destruct (first !! seen_key eng n) as [t|] eqn:E; [by rewrite E|]. by rewrite lookup_insert_eq.
    + assert (forall x : option Z, (match x with Some _ => first | None => <[seen_key eng n := now]> first end) !! k = first !! k) as Hf.
      { intros [t|]; [done|]. by rewrite lookup_insert_ne. }
      rewrite Hf. destruct (first !! k); [done|].
      rewrite (bool_decide_ext (k ∈ seen_key eng n :: _) (k ∈ map (seen_key eng) l)); [done|]. rewrite elem_of_cons. naive_solver.
Qed.

Lemma observe_lookup grace now eng u first name :
  (observe grace now eng u first).1 !! seen_key eng name =
  if decide (name ∈ u) then Some (default now (first !! seen_key eng name)) else None.
Proof.
  unfold observe, forget_tracked. cbn [fst]. rewrite add_sightings_lookup.
  assert (bool_decide (seen_key eng name ∈ map (seen_key eng) (elements u)) = bool_decide (name ∈ u)) as ->.
  { apply bool_decide_ext. rewrite list_elem_of_fmap. setoid_rewrite elem_of_elements. split; [|by exists name].
    intros (n & He & Hn). unfold seen_key in He. apply str_app_inj_l in He. by subst n. }
  rewrite map_lookup_filter. destruct (first !! seen_key eng name) as [t|]; cbn [mbind option_bind].
  - unfold still_untracked. cbn [fst]. rewrite cut_seen_key. destruct (decide (name ∈ u)) as [Hn|Hn].
    + by rewrite option_guard_True by by apply bool_decide_eq_true_2.
    + rewrite option_guard_False by by rewrite bool_decide_eq_false_2. by rewrite bool_decide_eq_false_2.
  - by destruct (decide (name ∈ u)); [rewrite bool_decide_eq_true_2|rewrite bool_decide_eq_false_2].
Qed.

Lemma observe_other grace now eng u first e name :
  has_byte nul_byte eng = false -> has_byte nul_byte e = false -> e <> eng ->
  (observe grace now eng u first).1 !! seen_key e name = first !! seen_key e name.
Proof.
  intros Heng He Hne. unfold observe, forget_tracked. cbn [fst]. rewrite add_sightings_lookup, map_lookup_filter.
  assert (cut_prefix (seen_prefix eng) (seen_key e name) = None) as Hcut.
  { destruct (cut_prefix _ _) as [r|] eqn:E; [|done]. apply cut_prefix_app in E.
    destruct (seen_key_inj e name eng r); [done..|]. by subst. }
  rewrite bool_decide_eq_false_2.
  - destruct (first !! seen_key e name); [|done]. cbn [mbind option_bind]. unfold still_untracked. cbn [fst].
    rewrite Hcut. by rewrite option_guard_True.
  - intros (n & E & _)%list_elem_of_fmap. by destruct (seen_key_inj e name eng n).
Qed.

Lemma elem_of_due grace now eng u first name :
  name ∈ (observe grace now eng u first).2 <->
  name ∈ u /\ exists t, first !! seen_key eng name = Some t /\ (effective_grace grace <= now - t)%Z.
Proof.
  unfold observe, forget_tracked. cbn [snd]. rewrite merge_sort_Permutation, elem_of_filter_bool, elem_of_elements.
  unfold is_due. rewrite map_lookup_filter.
  split; intros [H1 H2].
  - split; [done|]. destruct (first !! seen_key eng name) as [t|] eqn:E; [|done]. exists t. split; [done|].
    cbn [mbind option_bind] in H1. destruct (guard _); [|done]. by apply Z.leb_le.
  - split; [|done]. destruct H2 as (t & -> & Ht). cbn [mbind option_bind]. unfold still_untracked. cbn [fst].
    rewrite cut_seen_key, option_guard_True by by apply bool_decide_eq_true_2. by apply Z.leb_le.
Qed.

Lemma sightings_snoc grace hist o : sightings grace (hist ++ [o]) = (observe grace o.1.1 o.1.2 o.2 (sightings grace hist)).1.
Proof. unfold sightings. by rewrite foldl_snoc. Qed.

Definition plain_engine (o : sighting) : Prop := has_byte nul_byte o.1.2 = false.

(** what the clock of a copy stands for *)
Lemma sightings_sound grace hist : Forall plain_engine hist -> forall eng name t,
  has_byte nul_byte eng = false -> sightings grace hist !! seen_key eng name = Some t -> stayed_untracked hist eng name t.
Proof.
  induction hist as [|[[now e] u] hist IH] using rev_ind; intros Hp eng name t Heng; [done|].
  apply Forall_app in Hp as [Hp [He _]%Forall_cons]. unfold plain_engine in He. cbn in He.
  rewrite sightings_snoc. cbn [fst snd]. destruct (decide (eng = e)) as [->|Hne].
  - rewrite observe_lookup. case_decide as Hn; [|done]. intros [= Ht].
    destruct (sightings grace hist !! seen_key e name) as [t0|] eqn:E; cbn in Ht; subst.
    + destruct (IH Hp e name t He E) as (pre & post & u0 & -> & Hu0 & Hpost).
      exists pre, (post ++ [(now, e, u)]), u0. split_and!; [by rewrite <- app_assoc|done|].
      intros t' u' [Hin|[= -> ->]%list_elem_of_singleton]%elem_of_app; [by eapply Hpost|done].
    + by exists hist, [], u; split_and!; [..|intros ?? ?%elem_of_nil].
  - rewrite observe_other by done. intros E. destruct (IH Hp eng name t Heng E) as (pre & post & u0 & -> & Hu0 & Hpost).
    exists pre, (post ++ [(now, e, u)]), u0. split_and!; [by rewrite <- app_assoc|done|].
    intros t' u' [Hin|[= -> -> ->]%list_elem_of_singleton]%elem_of_app; [by eapply Hpost|done].
Qed.

(** ** What the untracked sweep drops *)
Definition engine_tracked (t : Tables) (eng name : string) : Prop := exists r,
  r ∈ branch_durables t /\ dEngine r = Engine.canonical_label eng /\ dDurableName r = name.

(** the name of a copy, without a row, and without one at every sweep of its
    engine for the grace period *)
Definition untracked_drop (grace : Z) (t : Tables) (hist : list sighting) (x : drop) : Prop :=
  ~ engine_tracked t x.1.1 x.2 /\ (exists listed, durableFamily x.1.1 listed = Some x.2) /\
  exists h now u first, prefix (h ++ [(now, x.1.1, u)]) hist /\ x.2 ∈ u /\
    stayed_untracked h x.1.1 x.2 first /\ (effective_grace grace <= now - first)%Z.

Definition no_row (t : Tables) (o : sighting) : Prop := forall name, name ∈ o.2 -> ~ engine_tracked t o.1.2 name.

(** one step of the untracked sweep, or all of it *)
Definition untracked_step {E} (grace : Z) (ts : list (string * string)) (hist : list sighting) (w w' : World E) (first' : gmap string Z) : Prop :=
  tabs w' = tabs w /\ exists new l,
    first' = sightings grace (hist ++ new) /\ Forall plain_engine new /\ Forall (no_row (tabs w)) new /\
    dropped w' = dropped w ++ l /\ Forall (fun x => x.1 ∈ ts /\ untracked_drop grace (tabs w) (hist ++ new) x) l.

Lemma untracked_drop_grow grace t h h' x : prefix h h' -> untracked_drop grace t h x -> untracked_drop grace t h' x.
Proof.
  intros Hpre (H1 & H2 & hh & now & u & first & Hp & H3). split_and!; [done|done|].
  exists hh, now, u, first. split; [by etrans|done].
Qed.

Lemma elem_of_durable_names eng t name :
  name ∈ ListAllDurableNamesByEngine eng t <-> engine_tracked t eng name.
Proof.
  unfold ListAllDurableNamesByEngine, engine_tracked. rewrite elem_of_list_to_set, list_elem_of_fmap.
  setoid_rewrite elem_of_filter_bool. setoid_rewrite String.eqb_eq. naive_solver.
Qed.

Lemma elem_of_untracked_in eng keep names f :
  f ∈ untracked_in eng keep names <-> f ∉ keep /\ exists n, n ∈ names /\ durableFamily eng n = Some f.
Proof.
  unfold untracked_in. rewrite elem_of_list_to_set, elem_of_filter_bool, bool_decide_eq_true, list_elem_of_omap. done.
Qed.

Section Untracked.
Context {E : Type} `{!ReapDriver E} (store_fault : nat -> bool) (grace : Z) (clock : nat -> Z).
Implicit Types w : World E.

Lemma same_untracked ts hist w w' : tabs w' = tabs w -> dropped w' = dropped w -> untracked_step grace ts hist w w' (sightings grace hist).
Proof.
  intros Ht Hd. split; [done|]. exists [], []. split_and!; try constructor; by rewrite app_nil_r.
Qed.

Lemma untracked_trans ts hist w1 w2 first2 :
  untracked_step grace ts hist w1 w2 first2 -> forall next w3 first3,
  (forall new, first2 = sightings grace (hist ++ new) -> Forall plain_engine new -> 
     untracked_step grace next (hist ++ new) w2 w3 first3) ->
  untracked_step grace (ts ++ next) hist w1 w3 first3.
Proof.
  intros (Ht & new & l & Hf & Hp & Hn & Hd & Hl) next w3 first3 H.
  destruct (H new Hf Hp) as (Ht' & new' & l' & Hf' & Hp' & Hn' & Hd' & Hl'). split; [congruence|].
  exists (new ++ new'), (l ++ l'). rewrite <- app_assoc in Hf', Hl'. rewrite Ht in Hn', Hl'. split_and!; [done|by apply Forall_app..| |].
  - by rewrite Hd', Hd, app_assoc.
  - apply Forall_app. split; (eapply Forall_impl; [eassumption|]); intros x [Hx Hu]; (split; [apply elem_of_app; auto|]); [|done].
    eapply untracked_drop_grow; [|exact Hu]. rewrite app_assoc. by apply prefix_app_r.
Qed.

Lemma drop_all_untracked eng conn due : forall w,
  let w' := foldl (drop_untracked eng conn) w due in
  tabs w' = tabs w /\ dropped w' = dropped w ++ map (fun n => (eng, conn, n)) due.
Proof using.
  induction due as [|n due IH]; intros w; cbn [foldl map]; [by rewrite app_nil_r|].
  destruct (IH (drop_untracked eng conn w n)) as [Ht Hd].
  assert (tabs (drop_untracked eng conn w n) = tabs w /\ dropped (drop_untracked eng conn w n) = dropped w ++ [(eng, conn, n)]) as [Ht' Hd'].
  { unfold drop_untracked, ask_drop, ask_drop_matching. destruct (String.eqb eng "elasticsearch").
    - destruct (drop_matching _ _ _ _ _) as [e [[|? ?]|?]]; done.
    - destruct (drop_durable _ _ _ _ _) as [e [?|?]]; done. }
  cbn zeta. rewrite Ht, Hd, Ht', Hd', <- app_assoc. done.
Qed.

Lemma untracked_engine hist w t w' first' :
  Forall plain_engine hist -> has_byte nul_byte t.1 = false ->
  reapUntrackedEngine store_fault grace clock (w, sightings grace hist) t = (w', first') ->
  untracked_step grace [t] hist w w' first'.
Proof.
  intros Hp Ht. destruct t as [eng conn]. cbn in Ht. unfold reapUntrackedEngine, read_store.
  destruct (connect (calls w) eng conn (srv w)); [by intros [= <- <-]; apply same_untracked..|].
  destruct (store_fault _); [by intros [= <- <-]; apply same_untracked|].
  destruct (untrackedMarker eng) as [marker|]; [|by intros [= <- <-]; apply same_untracked].
  destruct (list_matching _ eng conn marker _) as [names|]; [|by intros [= <- <-]; apply same_untracked].
  cbn [tick tabs calls]. set (now := clock _). set (u := untracked_in eng _ names).
  destruct (observe grace now eng u (sightings grace hist)) as [first due] eqn:Eo. intros [= <- <-].
  destruct (drop_all_untracked eng conn due (tick (tick (tick w)))) as [Htab Hd]. split; [exact Htab|].
  exists [(now, eng, u)], (map (fun n => (eng, conn, n)) due).
  assert (forall n, n ∈ u -> ~ engine_tracked (tabs w) eng n /\ exists listed, durableFamily eng listed = Some n) as Hu.
  { intros n (Hk & m & _ & Hm)%elem_of_untracked_in. rewrite elem_of_durable_names in Hk. by split; [|exists m]. }
  split_and!.
  - rewrite sightings_snoc. cbn [fst snd]. by rewrite Eo.
  - by repeat constructor.
  - constructor; [|constructor]. intros n Hn. by apply Hu.
  - exact Hd.
  - apply Forall_forall. intros x (n & -> & Hn)%list_elem_of_fmap. split; [by left|]. cbn [fst snd].
    assert (n ∈ (observe grace now eng u (sightings grace hist)).2) as Hdue by by rewrite Eo.
    apply elem_of_due in Hdue as (Hnu & t & Hfirst & Hage). destruct (Hu n Hnu) as [Hrow Hfam]. split_and!; [done|done|].
    exists hist, now, u, t. split_and!; [done|done| |done]. by apply sightings_sound with grace.
Qed.

Lemma untracked_all ts : Forall (fun t => has_byte nul_byte t.1 = false) ts -> forall hist w w' first',
  Forall plain_engine hist ->
  foldl (reapUntrackedEngine store_fault grace clock) (w, sightings grace hist) ts = (w', first') ->
  untracked_step grace ts hist w w' first'.
Proof.
  induction 1 as [|t ts Ht _ IH]; intros hist w w' first' Hp; cbn [foldl].
  - intros [= <- <-]. by apply same_untracked.
  - destruct (reapUntrackedEngine _ _ _ _ t) as [w1 first1] eqn:E1. intros E2.
    apply untracked_engine in E1 as H1; [|done..]. apply (untracked_trans [t] hist w w1 first1 H1).
    intros new -> Hnew. apply IH; [by apply Forall_app|done].
Qed.
End Untracked.

Lemma first_of_each_incl `{EqDecision A} (seen l : list A) x : x ∈ first_of_each seen l -> x ∈ l.
Proof.
  revert seen. induction l as [|y l IH]; intros seen; cbn [first_of_each]; [done|].
  case_decide; rewrite ?elem_of_cons; [eauto|]. intros [->|?]; eauto.
Qed.

Lemma untracked_target_plain d t : untracked_target d = Some t -> has_byte nul_byte t.1 = false.
Proof.
  unfold untracked_target, branchScopeFor. destruct (negb _); [done|]. destruct (Engine.Canonical (sEngine d)) as [fam|]; [|done].
  destruct fam; cbn; intros [= <-]; done.
Qed.

(** whatever the servers and the store answer, the sweep of
    untracked copies changes no table; it asks for drops only on the servers of
    the branch-scoped databases it is given, and only of names that are spelled
    as durable copies, that no row of any repository has for that engine, and
    that were listed without a row at every sweep of their engine for at least
    the grace period; the clock it keeps for the next sweep is again the record
    of the sweeps there were. *)
Theorem untracked_reaps {E} `{!ReapDriver E} store_fault grace clock dbs hist (w w' : World E) first'
    (Hhist : Forall plain_engine hist)
    (Hrun : ReapUntrackedDurables store_fault grace clock dbs (w, sightings grace hist) = (w', first')) :
  tabs w' = tabs w /\
  exists new l, first' = sightings grace (hist ++ new) /\ Forall plain_engine new /\ Forall (no_row (tabs w)) new /\
    dropped w' = dropped w ++ l /\
    Forall (fun x => x.1 ∈ omap untracked_target dbs /\ untracked_drop grace (tabs w) (hist ++ new) x) l.
Proof.
  apply untracked_all in Hrun; [|apply Forall_forall; intros t (d & _ & Hd)%first_of_each_incl%list_elem_of_omap; by eapply untracked_target_plain|done].
  destruct Hrun as (Ht & new & l & Hf & Hp & Hn & Hd & Hl). split; [done|]. exists new, l. split_and!; try done.
  eapply Forall_impl; [exact Hl|]. intros x [Hx Hu]. split; [by eapply first_of_each_incl|done].
Qed.

(** ** The names it recognises *)
Section Spelling.
Variable blake3 : string -> string.
Hypothesis blake3_32 : forall s, String.length (blake3 s) = 32%nat.

Lemma isBSHash_bsHash s : isBSHash (bsHash blake3 s) = true.
Proof using blake3_32. unfold isBSHash. by rewrite bsHash_length, bsHash_hex. Qed.

Lemma hex16_bsHash s rest : hex16 (bsHash blake3 s +:+ rest) = Some (bsHash blake3 s, rest).
Proof using blake3_32.
  unfold hex16. pose proof (bsHash_length blake3 blake3_32 s) as Hl.
  rewrite str_take_app, str_drop_app by done. by rewrite Hl, bsHash_hex.
Qed.
End Spelling.

(** the sweep of untracked copies recognises the name of
    every durable copy the code gives out, for every engine it covers - with
    Elasticsearch every index of its family - as that copy; and it recognises
    no template, no spare and no template index, whatever follows its name. *)
Theorem durable_recognised (blake3 : string -> string) (H32 : forall s, String.length (blake3 s) = 32%nat)
    (e eng marker : string) (scope : bsScope)
    (He : branchScopeFor e = (scope, eng, true)) (Hm : untrackedMarker eng = Some marker) :
  (forall active branch index,
     let d := durable blake3 scope eng active branch in
     has_prefix marker d = true /\ durableFamily eng d = Some d /\
     (eng = "elasticsearch" -> durableFamily eng (d +:+ index) = Some d)) /\
  (forall k rest, durableFamily eng (TemplateName blake3 k +:+ rest) = None /\
                  durableFamily eng (IndexPrefix blake3 k +:+ rest) = None).
Proof.
  unfold branchScopeFor in He. destruct (Engine.Canonical e) as [fam|]; [|done].
  split.
  - intros a b index. unfold durable. set (h := a +:+ "|" +:+ b).
    pose proof (isBSHash_bsHash blake3 H32 h) as Hh. pose proof (hex16_bsHash blake3 H32 h) as Hx.
    destruct fam; cbn in He; injection He as <- <-; cbn in Hm; try discriminate Hm; injection Hm as <-;
      (split; [apply has_prefix_app; by eexists|]).
    all: split; [|intros [=]]; unfold durableFamily; cbn [String.eqb Ascii.eqb Bool.eqb untrackedMarker mbind option_bind].
    all: unfold esDurablePrefix, esDurableMarker; rewrite ?str_app_assoc.
    all: rewrite (proj2 (cut_prefix_app _ _ _) eq_refl); cbn [mbind option_bind]; first [by rewrite Hh|by rewrite Hx].
  - intros k rest. destruct fam; cbn in He; injection He as <- <-; by cbn in Hm.
Qed.

Lemma durable_recognised_witness :
  branchScopeFor "mariadb" = (scopeName, "mysql", true) /\
  durableFamily "mysql" (durable sample_digest scopeName "mysql" "app" "main") = Some (durable sample_digest scopeName "mysql" "app" "main").
Proof.
  split; [reflexivity|].
  refine (proj1 (proj2 (proj1 (durable_recognised sample_digest sample_digest_32 "mariadb" "mysql" "_tmbs_" scopeName eq_refl eq_refl) "app" "main" ""))).
Defined.

(** ** Servers that do what they are asked *)
(** the copies there are: engine, connection, name *)
#[export] Instance obedient : ReapDriver (list drop) := {
  connect := fun _ _ _ _ => Connected;
  durable_exists := fun _ eng conn name s => Ok (bool_decide ((eng, conn, name) ∈ s));
  drop_durable := fun _ eng conn name s => (List.filter (fun x => bool_decide (x <> (eng, conn, name))) s, Ok tt);
  list_matching := fun _ eng conn marker s =>
    Ok (map snd (List.filter (fun x => bool_decide (x.1 = (eng, conn)) && has_prefix marker x.2) s));
  drop_matching := fun _ eng conn prefix s =>
    (List.filter (fun x => negb (bool_decide (x.1 = (eng, conn)) && has_prefix prefix x.2)) s,
     Ok (map snd (List.filter (fun x => bool_decide (x.1 = (eng, conn)) && has_prefix prefix x.2) s)))
}.

Definition no_fault (_ : nat) : bool := false.
Lemma obedient_faultless : faultless (E := list drop) no_fault.
Proof. by split. Qed.

Definition sample_row (eng branch name : string) : BranchDurableRow :=
  {| dRepoID := 1; dWorktreeID := 1; dEngine := eng; dDBKey := "app"; dBranch := branch; dDurableName := name;
     dCreatedAt := 0; dLastUsedAt := 0 |}.
Definition copy_a : string := "_tmbs_00000000000000aa".
Definition copy_b : string := "_tmbs_00000000000000bb".
Definition tables_of (rows : list BranchDurableRow) : Tables :=
  {| active_branch_db := ∅; branch_durables := rows; branch_db_migrated := ∅; template_db_built := ∅ |}.
Definition world_of (rows : list BranchDurableRow) (copies : list drop) : World (list drop) :=
  {| tabs := tables_of rows; srv := copies; calls := 0; dropped := []; events := [] |}.

Definition reap_sample : World (list drop) :=
  world_of [sample_row "mysql" "main" copy_a; sample_row "mysql" "gone" copy_b] [("mysql", "", copy_a); ("mysql", "", copy_b)].

Lemma orphans_reaped_witness :
  let w' := ReapOrphanDurables no_fault 1 (Some (unlines ["main"] +:+ nl)) reap_sample in
  srv w' = [("mysql", "", copy_a)] /\ dropped w' = [("mysql", "", copy_b)] /\
  (sample_row "mysql" "gone" copy_b ∉ branch_durables (tabs w') /\ ("mysql", "", copy_b) ∈ dropped w').
Proof.
  split; [vm_compute; reflexivity|]. split; [vm_compute; reflexivity|].
  refine (proj2 (proj2 (orphans_reaped no_fault 1 (Some (unlines ["main"] +:+ nl)) reap_sample _ _ eq_refl))
    obedient_faultless (list_to_set ["main"]) _ _ _ (sample_row "mysql" "gone" copy_b) _ eq_refl _).
  - intros r1 r2 H1 H2 _ Hn. cbn in H1, H2. rewrite !elem_of_cons, elem_of_nil in H1, H2.
    destruct H1 as [->|[->|[]]], H2 as [->|[->|[]]]; done.
  - by apply localBranchSet_refs; [|repeat constructor].
  - intros H. by apply (f_equal (fun s => bool_decide ("main" ∈ s))) in H.
  - done.
  - cbn. rewrite !elem_of_cons. auto.
  - rewrite elem_of_list_to_set. intros [?|?%elem_of_nil]%elem_of_cons; done.
Defined.

(** *** The untracked sweep *)
Definition scoped_db (eng conn : string) : ScopedDB :=
  {| sEngine := eng; sConnection := conn; sBranchScoped := true; sBase := {| NameTemplate := "app"; KeyPrefix := "" |}; sMain := None |}.

(** a copy without a row, next to one that has its row and one that only starts
    like a copy *)
Definition stray_sample : World (list drop) :=
  world_of [sample_row "mysql" "main" copy_a] [("mysql", "", copy_a); ("mysql", "", copy_b); ("mysql", "", "_tmbs_notes")].

Definition minutes (n : Z) : Z := n * 60000.
Definition sweep_at (dbs : list ScopedDB) (x : World (list drop) * gmap string Z) (now : Z) : World (list drop) * gmap string Z :=
  ReapUntrackedDurables no_fault 0 (fun _ => now) dbs x.
Definition sweeps (dbs : list ScopedDB) (w : World (list drop)) (times : list Z) : World (list drop) * gmap string Z :=
  foldl (sweep_at dbs) (w, ∅) times.

Example one_connection_drops :
  dropped (sweeps [scoped_db "mariadb" ""] stray_sample (map minutes [0; 9; 11]%Z)).1 = [("mysql", "", copy_b)] /\
  dropped (sweeps [scoped_db "mariadb" ""] stray_sample (map minutes [0; 9]%Z)).1 = [].
Proof. split; vm_compute; reflexivity. Qed.

(** the clock has no place for the connection: with a second one of the same
    engine each sweep of one forgets what was seen on the other, and nothing is
    ever due *)
Example two_connections_forget :
  dropped (sweeps [scoped_db "mariadb" ""; scoped_db "mysql" "other"] stray_sample (map minutes [0; 11; 60; 600; 6000; 60000]%Z)).1 = [].
Proof. vm_compute. reflexivity. Qed.

(** the rows do not name the connection either: the sweep of the orphans asks
    the default server, and forgets the row *)
Example other_connection_leaks :
  let w := world_of [sample_row "mysql" "main" copy_a; sample_row "mysql" "gone" copy_b] [("mysql", "other", copy_b)] in
  let w' := ReapOrphanDurables no_fault 1 (Some (unlines ["main"] +:+ nl)) w in
  dropped w' = [("mysql", "", copy_b)] /\ srv w' = [("mysql", "other", copy_b)] /\
  branch_durables (tabs w') = [sample_row "mysql" "main" copy_a] /\
  map rDurable (events w') = [copy_b].
Proof. vm_compute. done. Qed.

(** a copy of a branch in use, a day old *)
Example huge_age_expires_all :
  let now := 86400000000000%Z in
  dropped (ReapExpiredDurables no_fault 106751 now 1 reap_sample) = [] /\
  dropped (ReapExpiredDurables no_fault 106752 now 1 reap_sample) = [("mysql", "", copy_a); ("mysql", "", copy_b)].
Proof. vm_compute. done. Qed.

Definition stray_seen : list sighting := [(minutes 0, "mysql", {[copy_b]})].

Lemma untracked_reaps_witness :
  let run := ReapUntrackedDurables no_fault 0 (fun _ => minutes 11) [scoped_db "mariadb" ""] (stray_sample, sightings 0 stray_seen) in
  dropped run.1 = [("mysql", "", copy_b)] /\ tabs run.1 = tabs stray_sample.
Proof.
  split; [vm_compute; reflexivity|].
  refine (proj1 (untracked_reaps no_fault 0 (fun _ => minutes 11) [scoped_db "mariadb" ""] stray_seen stray_sample _ _ _ (surjective_pairing _))).
  by repeat constructor.
Defined.
