(* ===== verification/Prewarm.v ===== *)
(** * Spare copies of templates

    [internal/prepare/prewarm.go]: a pool of ready copies of a template.  The
    restores of a prepare share one allocator of slots and claim spares
    concurrently; afterwards the pool is topped up in the background.  The
    claims are interleaved steps, the server of the pool is a type class whose
    calls may fail. *)
From stdpp Require Import base strings list gmap sorting.
From Stdlib Require Import ZArith Lia.
From S2P Require Import Prelude GoStrings Lines SnapshotKey.

(** ** Claiming *)
Definition wrap32 (z : Z) : Z := z mod 2 ^ 32.

(** where a restore is: before it takes a slot, with a slot it tries, done with
    a spare, done with a plain restore *)
Inductive phase := Ready | Trying (slot : Z) | Claimed (slot : Z) | Plain.

(** the shared allocator, the restores, and the slots that were handed out, with
    the restore that got them *)
Record pool := { nextSlot : Z; restores : list phase; handed : list (nat * Z) }.

Definition slots (n : Z) : list Z := map Z.of_nat (seq 1 (Z.to_nat n)).

Section Claims.
(** the size of the pool; does the claim of a slot by a restore succeed; does
    the driver claim spares at all *)
Context (prewarm : Z) (claims : nat -> Z -> bool) (hasClaimer : bool).

Definition set_phase (i : nat) (ph : phase) (w : pool) : pool :=
  {| nextSlot := nextSlot w; restores := <[i := ph]> (restores w); handed := handed w |}.

Definition take_slot (i : nat) (w : pool) : pool :=
  let slot := wrap32 (nextSlot w + 1) in
  if (slot <=? prewarm)%Z
  then {| nextSlot := slot; restores := <[i := Trying slot]> (restores w); handed := handed w ++ [(i, slot)] |}
  else {| nextSlot := slot; restores := <[i := Plain]> (restores w); handed := handed w |}.

(** one step of restore [i] *)
Definition advance (i : nat) (w : pool) : pool :=
  match restores w !! i with
  | Some Ready => if hasClaimer then take_slot i w else set_phase i Plain w
  | Some (Trying slot) => set_phase i (if claims i slot then Claimed slot else Ready) w
  | _ => w
  end.

Definition start (n : nat) : pool := {| nextSlot := 0; restores := replicate n Ready; handed := [] |}.
Definition run (n : nat) (schedule : list nat) : pool := foldl (fun w i => advance i w) (start n) schedule.

Definition finished (ph : phase) : bool := match ph with Claimed _ | Plain => true | _ => false end.
Definition all_finished (w : pool) : bool := forallb finished (restores w).

(** the slot a restore holds, on trial or claimed *)
Definition slot_of (ph : phase) : option Z := match ph with Trying s | Claimed s => Some s | _ => None end.
Definition is_plain (ph : phase) : bool := match ph with Plain => true | _ => false end.
End Claims.

(** ** Topping up *)
Class SpareConn (E : Type) := {
  Exists : nat -> string -> E -> option bool;
  CreateSnapshot : nat -> string -> string -> E -> E * bool;
  ListMatching : nat -> string -> E -> option (list string);
  DropSnapshot : nat -> string -> E -> E * bool;
  databases : E -> gset string
}.

Record World (E : Type) := { srv : E; calls : nat; created : Z; created_names : list string; dropped_names : list string }.
Arguments srv {E}. Arguments calls {E}. Arguments created {E}. Arguments created_names {E}. Arguments dropped_names {E}.

Section Replenish.
Context {E : Type} `{!SpareConn E}.
Implicit Types w : World E.

Definition tick w : World E :=
  {| srv := srv w; calls := S (calls w); created := created w; created_names := created_names w; dropped_names := dropped_names w |}.

Definition probe (name : string) w : World E * option bool := (tick w, Exists (calls w) name (srv w)).

Definition create (template name : string) w : World E :=
  let '(e, ok) := CreateSnapshot (calls w) template name (srv w) in
  {| srv := e; calls := S (calls w); created := if ok then created w + 1 else created w;
     created_names := created_names w ++ [name]; dropped_names := dropped_names w |}.

Definition drop (name : string) w : World E :=
  let '(e, _) := DropSnapshot (calls w) name (srv w) in
  {| srv := e; calls := S (calls w); created := created w; created_names := created_names w; dropped_names := dropped_names w ++ [name] |}.

(** a slot that is missing is created *)
Definition fill_slot (template : string) w (slot : Z) : World E :=
  let name := SpareName template slot in
  match probe name w with
  | (w, None) | (w, Some true) => w
  | (w, Some false) => create template name w
  end.

(** a slot beyond the size of the pool is dropped *)
Definition reap_slot (template : string) (n : Z) w (name : string) : World E :=
  match SpareSlot name template with
  | Some slot => if (n <? slot)%Z then drop name w else w
  | None => w
  end.

Definition list_spares (template : string) w : World E * list string :=
  (tick w, default [] (ListMatching (calls w) (template +:+ PrewarmSuffix) (srv w))).

Definition replenishSpares (template : string) (n : Z) w : World E :=
  match probe template w with
  | (w, Some true) =>
      let w := foldl (fill_slot template) w (slots n) in
      let '(w, names) := list_spares template w in
      foldl (reap_slot template n) w names
  | (w, _) => w
  end.

(** ** When the pool is topped up *)
(** [maybeSpawnPrewarm], [spawnPrewarm]: at most one at a time for a fingerprint *)
Definition wants_prewarm (failed : bool) (prewarm : Z) (templateName fingerprint : string) : bool :=
  negb (failed || (prewarm =? 0)%Z || String.eqb templateName "" || String.eqb fingerprint "").

Definition spawnPrewarm (fingerprint : string) (inFlight : gset string) : gset string * bool :=
  if bool_decide (fingerprint ∈ inFlight) then (inFlight, false) else ({[fingerprint]} ∪ inFlight, true).

Definition prewarm_done (fingerprint : string) (inFlight : gset string) : gset string := inFlight ∖ {[fingerprint]}.
End Replenish.

(** ** Every slot goes to one restore *)
Definition plains (l : list phase) : nat := length (List.filter is_plain l).

Lemma plains_insert l i old ph : l !! i = Some old -> is_plain old = false ->
  plains (<[i := ph]> l) = (plains l + if is_plain ph then 1 else 0)%nat.
Proof.
  unfold plains. intros Hl Ho. revert i Hl. induction l as [|x l IH]; intros [|i] Hl; try done.
  - injection Hl as ->. cbn. rewrite Ho. destruct (is_plain ph); cbn; lia.
  - specialize (IH i Hl). change (<[S i := ph]> (x :: l)) with (x :: <[i := ph]> l). cbn [List.filter].
    destruct (is_plain x); cbn [length]; lia.
Qed.

Lemma plains_replicate k : plains (replicate k Ready) = 0%nat.
Proof. unfold plains. by induction k. Qed.

Lemma plains_le l : (plains l <= length l)%nat.
Proof. unfold plains. induction l as [|x l IH]; cbn; [done|]. destruct (is_plain x); cbn; lia. Qed.

Lemma slots_snoc k : (0 <= k)%Z -> slots (k + 1) = slots k ++ [(k + 1)%Z].
Proof.
  intros Hk. unfold slots. rewrite Z2Nat.inj_add by lia. change (Z.to_nat 1) with 1%nat.
  rewrite seq_app, map_app. cbn [seq map]. do 2 f_equal. lia.
Qed.

Lemma elem_of_slots k s : s ∈ slots k <-> (1 <= s <= k)%Z.
Proof.
  unfold slots. rewrite list_elem_of_fmap. setoid_rewrite elem_of_seq. split.
  - intros (x & -> & Hx). lia.
  - intros Hs. exists (Z.to_nat s). lia.
Qed.

Lemma NoDup_slots k : NoDup (slots k).
Proof. unfold slots. apply NoDup_fmap_2; [intros x y; lia|apply NoDup_seq]. Qed.

Section Exclusive.
Context (prewarm : Z) (claims : nat -> Z -> bool) (hasClaimer : bool) (n : nat).
Context (Hpos : (0 <= prewarm)%Z) (Hroom : (prewarm + Z.of_nat n < 2 ^ 32)%Z).

Record fair (w : pool) : Prop := {
  f_size : length (restores w) = n;
  f_next : (0 <= nextSlot w <= prewarm + Z.of_nat (plains (restores w)))%Z;
  f_handed : map snd (handed w) = slots (Z.min (nextSlot w) prewarm);
  f_held i ph s : restores w !! i = Some ph -> slot_of ph = Some s -> (i, s) ∈ handed w;
  f_plain i : hasClaimer = true -> restores w !! i = Some Plain -> (prewarm < nextSlot w)%Z;
  f_claimed i s : restores w !! i = Some (Claimed s) -> claims i s = true
}.

Lemma fair_insert w i old ph h' nx : fair w -> restores w !! i = Some old -> is_plain old = false ->
  (0 <= nx <= prewarm + Z.of_nat (plains (restores w) + if is_plain ph then 1 else 0))%Z ->
  (nextSlot w <= nx)%Z -> map snd h' = slots (Z.min nx prewarm) -> (forall x, x ∈ handed w -> x ∈ h') ->
  (forall s, slot_of ph = Some s -> (i, s) ∈ h') -> (hasClaimer = true -> ph = Plain -> (prewarm < nx)%Z) ->
  (forall s, ph = Claimed s -> claims i s = true) ->
  fair {| nextSlot := nx; restores := <[i := ph]> (restores w); handed := h' |}.
Proof using Type.
  intros Hw Hi Hold Hnx Hmono Hh Hsub Hslot Hplain Hcl. split; cbn [restores nextSlot handed].
  - rewrite length_insert. apply (f_size _ Hw).
  - by rewrite (plains_insert _ _ old) by done.
  - done.
  - intros j ph' s [[-> [<- _]]|[Hne Hj]]%list_lookup_insert_Some Hs; [by apply Hslot|].
    apply Hsub. by eapply (f_held _ Hw).
  - intros j Hc [[-> [-> _]]|[Hne Hj]]%list_lookup_insert_Some; [by apply Hplain|].
    pose proof (f_plain _ Hw j Hc Hj). lia.
  - intros j s [[-> [-> _]]|[Hne Hj]]%list_lookup_insert_Some; [by apply Hcl|]. by apply (f_claimed _ Hw).
Qed.

Lemma fair_advance i w : fair w -> fair (advance prewarm claims hasClaimer i w).
Proof using Hpos Hroom.
  intros Hw. unfold advance. destruct (restores w !! i) as [[|s|s|]|] eqn:Ei; try done.
  - destruct hasClaimer eqn:Ec.
    + unfold take_slot. pose proof (f_next _ Hw). pose proof (plains_le (<[i := Plain]> (restores w))) as Hle.
      rewrite (plains_insert _ _ Ready), length_insert, (f_size _ Hw) in Hle by done. cbn in Hle.
      assert (wrap32 (nextSlot w + 1) = (nextSlot w + 1)%Z) as -> by (unfold wrap32; apply Z.mod_small; lia).
      destruct (Z.leb_spec (nextSlot w + 1) prewarm) as [Hs|Hs].
      * eapply fair_insert; try done; cbn; try lia.
        -- rewrite map_app, (f_handed _ Hw). rewrite !Z.min_l by lia. cbn. by rewrite slots_snoc by lia.
        -- intros x Hx. apply elem_of_app. by left.
        -- intros s [= <-]. apply elem_of_app. right. by left.
      * eapply fair_insert; try done; cbn; try lia. rewrite (f_handed _ Hw). f_equal. lia.
    + unfold set_phase. pose proof (f_next _ Hw).
      eapply fair_insert; try done; cbn; try lia; [by apply (f_handed _ Hw)|congruence].
  - pose proof (f_next _ Hw). unfold set_phase. eapply fair_insert; try done.
    + destruct (claims i s); cbn; lia.
    + by apply (f_handed _ Hw).
    + intros s'. destruct (claims i s); [|done]. intros [= <-]. by eapply (f_held _ Hw).
    + by destruct (claims i s).
    + intros s'. destruct (claims i s) eqn:Ec; [by intros [= <-]|done].
Qed.

Lemma fair_start : fair (start n).
Proof using Hpos.
  split; cbn [start restores nextSlot handed]; [by apply length_replicate| | |intros i ph s Hi|intros i _ Hi|intros i s Hi].
  - rewrite plains_replicate. lia.
  - by rewrite Z.min_l by lia.
  - apply lookup_replicate in Hi as [-> _]. done.
  - by apply lookup_replicate in Hi as [? _].
  - by apply lookup_replicate in Hi as [? _].
Qed.

Lemma fair_run schedule : fair (run prewarm claims hasClaimer n schedule).
Proof using Hpos Hroom.
  unfold run. generalize fair_start. generalize (start n). induction schedule as [|i sched IH]; intros w Hw; [done|].
  by apply IH, fair_advance.
Qed.
End Exclusive.

(** C13: whatever the interleaving of the restores of a prepare
    and whichever claims fail, the slots of the pool are handed out one after
    the other and each to one restore; a restore that claimed a spare claimed
    one of the pool, and one that falls back to a plain restore does so only
    when every slot of the pool has been handed out. *)
Theorem spares_claimed_once prewarm claims hasClaimer n schedule
    (Hpos : (0 <= prewarm)%Z) (Hroom : (prewarm + Z.of_nat n < 2 ^ 32)%Z) :
  let w := run prewarm claims hasClaimer n schedule in
  map snd (handed w) = slots (Z.min (nextSlot w) prewarm) /\
  (forall i j pi pj s, restores w !! i = Some pi -> restores w !! j = Some pj ->
     slot_of pi = Some s -> slot_of pj = Some s -> i = j) /\
  (forall i s, restores w !! i = Some (Claimed s) -> (1 <= s <= prewarm)%Z /\ claims i s = true) /\
  (hasClaimer = true -> forall i, restores w !! i = Some Plain -> map snd (handed w) = slots prewarm).
Proof.
  intros w. assert (fair prewarm claims hasClaimer n w) as Hw by by apply fair_run. split_and!.
  - apply (f_handed _ _ _ _ _ Hw).
  - intros i j pi pj s Hi Hj Hsi Hsj. pose proof (f_held _ _ _ _ _ Hw i pi s Hi Hsi) as H1.
    pose proof (f_held _ _ _ _ _ Hw j pj s Hj Hsj) as H2.
    assert (NoDup (map snd (handed w))) as Hnd by (rewrite (f_handed _ _ _ _ _ Hw); apply NoDup_slots).
    clear -H1 H2 Hnd. induction (handed w) as [|[k t] l IH]; [by apply elem_of_nil in H1|].
    cbn in Hnd. apply NoDup_cons in Hnd as [Hk Hnd]. apply elem_of_cons in H1, H2.
    destruct H1 as [H1|H1], H2 as [H2|H2]; simplify_eq; [done| | |by apply IH].
    all: exfalso; apply Hk, list_elem_of_fmap; by eexists (_, _).
  - intros i s Hi. split; [|by eapply f_claimed].
    assert (s ∈ map snd (handed w)) as Hin by (apply list_elem_of_fmap; exists (i, s); split; [done|by eapply (f_held _ _ _ _ _ Hw)]).
    rewrite (f_handed _ _ _ _ _ Hw), elem_of_slots in Hin. lia.
  - intros Hc i Hi. rewrite (f_handed _ _ _ _ _ Hw). f_equal. pose proof (f_plain _ _ _ _ _ Hw i Hc Hi). lia.
Qed.

(** ** Every restore ends *)
(** every step is one of a restore that has not ended *)
Fixpoint effective (prewarm : Z) (claims : nat -> Z -> bool) (hasClaimer : bool) (w : pool) (schedule : list nat) : bool :=
  match schedule with
  | [] => true
  | i :: schedule =>
      match restores w !! i with
      | Some ph => negb (finished ph) && effective prewarm claims hasClaimer (advance prewarm claims hasClaimer i w) schedule
      | None => false
      end
  end.

Definition weight (ph : phase) : Z := match ph with Ready => 1 | Trying _ => 2 | _ => 0 end.
Definition potential (prewarm : Z) (w : pool) : Z := 2 * (prewarm - Z.min (nextSlot w) prewarm) + sumZ weight (restores w).

Lemma sumZ_insert l i old ph : l !! i = Some old -> sumZ weight (<[i := ph]> l) = (sumZ weight l - weight old + weight ph)%Z.
Proof.
  unfold sumZ. revert i. induction l as [|x l IH]; intros [|i] Hl; try done.
  - injection Hl as ->. cbn. lia.
  - change (<[S i := ph]> (x :: l)) with (x :: <[i := ph]> l). cbn [foldr]. rewrite IH by done. lia.
Qed.

Lemma sumZ_weight_nonneg l : (0 <= sumZ weight l)%Z.
Proof. unfold sumZ. induction l as [|x l IH]; cbn; [done|]. destruct x; cbn; lia. Qed.

Lemma potential_drops prewarm claims hasClaimer n w i ph :
  (0 <= prewarm)%Z -> (prewarm + Z.of_nat n < 2 ^ 32)%Z -> fair prewarm claims hasClaimer n w ->
  restores w !! i = Some ph -> finished ph = false ->
  (potential prewarm (advance prewarm claims hasClaimer i w) < potential prewarm w)%Z.
Proof.
  intros Hpos Hroom Hw Hi Hph. unfold advance. rewrite Hi. destruct ph as [|s|s|]; try done.
  - destruct hasClaimer.
    + unfold take_slot. pose proof (f_next _ _ _ _ _ Hw). pose proof (plains_le (<[i := Plain]> (restores w))) as Hle.
      rewrite (plains_insert _ _ Ready), length_insert, (f_size _ _ _ _ _ Hw) in Hle by done. cbn in Hle.
      assert (wrap32 (nextSlot w + 1) = (nextSlot w + 1)%Z) as -> by (unfold wrap32; apply Z.mod_small; lia).
      destruct (Z.leb_spec (nextSlot w + 1) prewarm) as [Hs|Hs]; unfold potential; cbn [restores nextSlot];
        rewrite (sumZ_insert _ _ _ _ Hi); cbn [weight]; lia.
    + unfold potential, set_phase; cbn [restores nextSlot]. rewrite (sumZ_insert _ _ _ _ Hi). cbn [weight]. lia.
  - unfold potential, set_phase; cbn [restores nextSlot]. rewrite (sumZ_insert _ _ _ _ Hi). destruct (claims i s); cbn [weight]; lia.
Qed.

(** the restores of a prepare all end.  Whatever the interleaving, a
    run takes at most two steps for a slot of the pool and one for a restore,
    and as long as one restore has not ended another step can be taken. *)
Theorem restores_end prewarm claims hasClaimer n schedule
    (Hpos : (0 <= prewarm)%Z) (Hroom : (prewarm + Z.of_nat n < 2 ^ 32)%Z)
    (Heff : effective prewarm claims hasClaimer (start n) schedule = true) :
  (Z.of_nat (length schedule) <= 2 * prewarm + Z.of_nat n)%Z /\
  (all_finished (run prewarm claims hasClaimer n schedule) = false ->
   exists i, effective prewarm claims hasClaimer (start n) (schedule ++ [i]) = true).
Proof.
  assert (forall w, fair prewarm claims hasClaimer n w -> effective prewarm claims hasClaimer w schedule = true ->
    (Z.of_nat (length schedule) <= potential prewarm w)%Z) as Hlen.
  { clear Heff. induction schedule as [|i sched IH]; intros w Hw Heff.
    - unfold potential. pose proof (sumZ_weight_nonneg (restores w)). cbn [length]. lia.
    - cbn [effective] in Heff. destruct (restores w !! i) as [ph|] eqn:Ei; [|done]. apply andb_true_iff in Heff as [Hph%negb_true_iff Heff].
      specialize (IH _ (fair_advance prewarm claims hasClaimer n Hpos Hroom i w Hw) Heff).
      pose proof (potential_drops prewarm claims hasClaimer n w i ph Hpos Hroom Hw Ei Hph). cbn [length]. lia. }
  split.
  - specialize (Hlen (start n) (fair_start prewarm claims hasClaimer n Hpos) Heff). unfold potential in Hlen. cbn [start nextSlot restores] in Hlen.
    assert (sumZ weight (replicate n Ready) = Z.of_nat n) as Hs.
    { clear. unfold sumZ. induction n as [|n IH]; [done|]. cbn [replicate foldr]. rewrite IH. cbn [weight]. lia. }
    lia.
  - intros Hun. clear Hlen. unfold run in Hun. revert Heff Hun. generalize (start n). induction schedule as [|i sched IH]; intros w Heff Hun.
    + unfold all_finished in Hun. cbn [foldl] in Hun. apply not_true_iff_false in Hun. rewrite forallb_elem in Hun.
      assert (exists i ph, restores w !! i = Some ph /\ finished ph = false) as (i & ph & Hi & Hph).
      { clear -Hun. induction (restores w) as [|x l IH]; [by destruct Hun; intros ? ?%not_elem_of_nil|].
        destruct (finished x) eqn:Ex; [|by exists 0, x]. destruct IH as (i & ph & Hi & Hph); [|by exists (S i), ph].
        intros Hl. apply Hun. intros y [->|Hy]%elem_of_cons; auto. }
      exists i. cbn [app effective]. by rewrite Hi, Hph.
    + cbn [effective] in Heff. destruct (restores w !! i) as [ph|] eqn:Ei; [|done]. apply andb_true_iff in Heff as [Hph Heff].
      destruct (IH _ Heff Hun) as [j Hj]. exists j. cbn [app effective]. by rewrite Ei, Hph.
Qed.

(** ** What topping up does to the server *)
(** the documented behaviour of the calls: a failed one may or may not have had
    its effect *)
Record lawful_conn (E : Type) `{!SpareConn E} : Prop := {
  exists_right k name (e : E) b : Exists k name e = Some b -> b = true <-> name ∈ databases e;
  create_adds k template name (e : E) x :
    (x ∈ databases e -> x ∈ databases (CreateSnapshot k template name e).1) /\
    (x ∈ databases (CreateSnapshot k template name e).1 -> x = name \/ x ∈ databases e);
  create_done k template name (e : E) : (CreateSnapshot k template name e).2 = true -> name ∈ databases (CreateSnapshot k template name e).1;
  list_right k prefix (e : E) l x : ListMatching k prefix e = Some l -> x ∈ l <-> x ∈ databases e /\ has_prefix prefix x = true;
  drop_removes k name (e : E) x :
    (x ∈ databases (DropSnapshot k name e).1 -> x ∈ databases e) /\
    (x ∈ databases e -> x = name \/ x ∈ databases (DropSnapshot k name e).1);
  drop_done k name (e : E) : (DropSnapshot k name e).2 = true -> name ∉ databases (DropSnapshot k name e).1
}.

Record reliable (E : Type) `{!SpareConn E} : Prop := {
  probes k name (e : E) : Exists k name e <> None;
  creates k template name (e : E) : (CreateSnapshot k template name e).2 = true;
  lists k prefix (e : E) : ListMatching k prefix e <> None;
  drops k name (e : E) : (DropSnapshot k name e).2 = true
}.

(** a spare beyond a pool of [n] *)
Definition surplus (template : string) (n : Z) (x : string) : Prop := exists slot, SpareSlot x template = Some slot /\ (n < slot)%Z.

Section Topping.
Context {E : Type} `{!SpareConn E} (Hlaw : lawful_conn E) (template : string) (n : Z).
Implicit Types w : World E.
Local Abbreviation db w := (databases (srv w)).

Lemma fill_spec w slot : let w' := fill_slot template w slot in
  dropped_names w' = dropped_names w /\
  (exists cs, created_names w' = created_names w ++ cs /\ (forall x, x ∈ cs -> x = SpareName template slot /\ x ∉ db w) /\
     (forall x, x ∈ db w' -> x ∈ db w \/ x ∈ cs)) /\
  (forall x, x ∈ db w -> x ∈ db w') /\ (reliable E -> SpareName template slot ∈ db w').
Proof using Hlaw.
  unfold fill_slot, probe. cbn zeta. destruct (Exists (calls w) _ (srv w)) as [[]|] eqn:Ee.
  - cbn. split_and!; [done| |done|intros _; by apply (exists_right _ Hlaw _ _ _ _ Ee)].
    exists []. rewrite app_nil_r. split_and!; [done|by intros ? ?%not_elem_of_nil|by left].
  - unfold create. cbn [calls tick srv]. pose proof (create_adds _ Hlaw (S (calls w)) template (SpareName template slot) (srv w)) as Ha.
    pose proof (create_done _ Hlaw (S (calls w)) template (SpareName template slot) (srv w)) as Hd.
    pose proof (fun Hr => creates E Hr (S (calls w)) template (SpareName template slot) (srv w)) as Hc.
    destruct (CreateSnapshot _ _ _ _) as [e ok]. cbn in *. split_and!; [done| |by intros x; apply Ha|by intros Hr; apply Hd, Hc].
    exists [SpareName template slot]. split_and!; [done| |].
    + intros x ->%list_elem_of_singleton. split; [done|]. intros Hin. apply (exists_right _ Hlaw _ _ _ _ Ee) in Hin. done.
    + intros x Hx. apply Ha in Hx as [->|?]; [right; by left|by left].
  - cbn. split_and!; [done| |done|intros Hr; by destruct (probes _ Hr _ _ _ Ee)].
    exists []. rewrite app_nil_r. split_and!; [done|by intros ? ?%not_elem_of_nil|by left].
Qed.

Lemma fill_all_spec l : forall w, let w' := foldl (fill_slot template) w l in
  dropped_names w' = dropped_names w /\
  (exists cs, created_names w' = created_names w ++ cs /\ (forall x, x ∈ cs -> (exists s, s ∈ l /\ x = SpareName template s) /\ x ∉ db w) /\
     (forall x, x ∈ db w' -> x ∈ db w \/ x ∈ cs)) /\
  (forall x, x ∈ db w -> x ∈ db w') /\ (reliable E -> forall s, s ∈ l -> SpareName template s ∈ db w').
Proof using Hlaw.
  induction l as [|s l IH]; intros w; cbn zeta; cbn [foldl].
  - split_and!; [done| |done|by intros _ s ?%not_elem_of_nil].
    exists []. rewrite app_nil_r. split_and!; [done|by intros ? ?%not_elem_of_nil|by left].
  - destruct (fill_spec w s) as (Hd1 & (c1 & Hc1 & Hi1 & Ho1) & Hm1 & Hr1).
    destruct (IH (fill_slot template w s)) as (Hd2 & (c2 & Hc2 & Hi2 & Ho2) & Hm2 & Hr2). split_and!.
    + congruence.
    + exists (c1 ++ c2). rewrite app_assoc, <- Hc1. split_and!; [done| |].
      * intros x [Hx|Hx]%elem_of_app; [destruct (Hi1 x Hx) as [-> ?]; split; [exists s; split; [by left|done]|done]|].
        destruct (Hi2 x Hx) as [(t & Ht & ->) Hn]. split; [exists t; split; [by right|done]|]. auto.
      * intros x Hx. rewrite elem_of_app. destruct (Ho2 x Hx) as [H2|]; [|auto]. destruct (Ho1 x H2); auto.
    + auto.
    + intros Hr t [->|Ht]%elem_of_cons; [by apply Hm2, Hr1|by apply Hr2].
Qed.

Lemma reap_spec w name : let w' := reap_slot template n w name in
  created_names w' = created_names w /\
  (exists ds, dropped_names w' = dropped_names w ++ ds /\ (forall x, x ∈ ds -> x = name /\ surplus template n x) /\
     (forall x, x ∈ db w -> x ∈ db w' \/ x ∈ ds)) /\
  (forall x, x ∈ db w' -> x ∈ db w) /\ (reliable E -> surplus template n name -> name ∉ db w').
Proof using Hlaw.
  unfold reap_slot. cbn zeta. assert (forall w0 : World E, ~ surplus template n name -> created_names w0 = created_names w0 /\
    (exists ds, dropped_names w0 = dropped_names w0 ++ ds /\ (forall x, x ∈ ds -> x = name /\ surplus template n x) /\
     (forall x, x ∈ db w0 -> x ∈ db w0 \/ x ∈ ds)) /\
    (forall x, x ∈ db w0 -> x ∈ db w0) /\ (reliable E -> surplus template n name -> name ∉ db w0)) as Hsame.
  { intros w0 Hno. split_and!; [done| |done|done]. exists []. rewrite app_nil_r. split_and!; [done|by intros ? ?%not_elem_of_nil|by left]. }
  destruct (SpareSlot name template) as [slot|] eqn:Es; [|apply Hsame; intros (s & ? & _); congruence].
  destruct (Z.ltb_spec n slot) as [Hs|Hs]; [|apply Hsame; intros (s & Hs' & Hlt); rewrite Hs' in Es; injection Es as ->; lia].
  assert (surplus template n name) as Hsur by by exists slot.
  unfold drop. pose proof (drop_removes _ Hlaw (calls w) name (srv w)) as Ha. pose proof (drop_done _ Hlaw (calls w) name (srv w)) as Hd.
  pose proof (fun Hr => drops E Hr (calls w) name (srv w)) as Hc. destruct (DropSnapshot _ _ _) as [e ok]. cbn in *.
  split_and!; [done| |by intros x; apply Ha|by intros Hr _; apply Hd, Hc].
  exists [name]. split_and!; [done|by intros x ->%list_elem_of_singleton|].
  intros x Hx. apply Ha in Hx as [->|?]; [right; by left|by left].
Qed.

Lemma reap_all_spec l : forall w, let w' := foldl (reap_slot template n) w l in
  created_names w' = created_names w /\
  (exists ds, dropped_names w' = dropped_names w ++ ds /\ (forall x, x ∈ ds -> surplus template n x) /\
     (forall x, x ∈ db w -> x ∈ db w' \/ x ∈ ds)) /\
  (forall x, x ∈ db w' -> x ∈ db w) /\ (reliable E -> forall x, x ∈ l -> surplus template n x -> x ∉ db w').
Proof using Hlaw.
  induction l as [|y l IH]; intros w; cbn zeta; cbn [foldl].
  - split_and!; [done| |done|by intros _ s ?%not_elem_of_nil].
    exists []. rewrite app_nil_r. split_and!; [done|by intros ? ?%not_elem_of_nil|by left].
  - destruct (reap_spec w y) as (Hc1 & (d1 & Hd1 & Hi1 & Ho1) & Hm1 & Hr1).
    destruct (IH (reap_slot template n w y)) as (Hc2 & (d2 & Hd2 & Hi2 & Ho2) & Hm2 & Hr2). split_and!.
    + congruence.
    + exists (d1 ++ d2). rewrite app_assoc, <- Hd1. split_and!; [done| |].
      * intros x [Hx|Hx]%elem_of_app; [by apply Hi1|by apply Hi2].
      * intros x Hx. rewrite elem_of_app. destruct (Ho1 x Hx) as [H1|]; [|auto]. destruct (Ho2 x H1); auto.
    + auto.
    + intros Hr x [->|Hx]%elem_of_cons Hsur; [|by apply Hr2]. intros Hin. by apply (Hr1 Hr Hsur), Hm2.
Qed.
End Topping.

Lemma surplus_prefix template n x : surplus template n x -> has_prefix (template +:+ PrewarmSuffix) x = true.
Proof.
  intros (slot & Hs & _). unfold SpareSlot in Hs. destruct (cut_prefix _ x) as [r|] eqn:E; [|done].
  apply has_prefix_app. exists r. by apply cut_prefix_app in E.
Qed.

(** topping up a pool creates missing spares with numbers from
    one to its size only and drops spares with larger numbers only, whatever
    fails, and no other database appears or vanishes; when the template is there
    and nothing fails, exactly the spares of the pool and everything else that
    was there remain. *)
Theorem replenish_pool {E} `{!SpareConn E} (Hlaw : lawful_conn E) template n (w : World E)
    (Hn : (0 <= n <= max_int64)%Z) (Hfresh : created_names w = [] /\ dropped_names w = []) :
  let w' := replenishSpares template n w in
  (forall x, x ∈ created_names w' -> x ∉ databases (srv w) /\ exists slot, (1 <= slot <= n)%Z /\ x = SpareName template slot) /\
  (forall x, x ∈ dropped_names w' -> surplus template n x) /\
  (forall x, x ∉ created_names w' -> x ∉ dropped_names w' -> x ∈ databases (srv w') <-> x ∈ databases (srv w)) /\
  (reliable E -> template ∈ databases (srv w) -> forall x, x ∈ databases (srv w') <->
     (exists slot, (1 <= slot <= n)%Z /\ x = SpareName template slot) \/ (x ∈ databases (srv w) /\ ~ surplus template n x)).
Proof.
  destruct Hfresh as [Hc0 Hd0]. cbn zeta. unfold replenishSpares, probe.
  destruct (Exists (calls w) template (srv w)) as [[]|] eqn:Ee.
  2,3: cbn; rewrite Hc0, Hd0; split_and!; [by intros ? ?%not_elem_of_nil..|done|intros Hr Ht; exfalso].
  2: by apply (exists_right _ Hlaw _ _ _ _ Ee) in Ht. 2: by destruct (probes _ Hr _ _ _ Ee).
  destruct (fill_all_spec Hlaw template (slots n) (tick w)) as (Hd1 & (cs & Hc1 & Hi1 & Ho1) & Hm1 & Hr1).
  set (w1 := foldl (fill_slot template) (tick w) (slots n)) in *. unfold list_spares.
  set (names := default [] _).
  destruct (reap_all_spec Hlaw template n names (tick w1)) as (Hc2 & (ds & Hd2 & Hi2 & Ho2) & Hm2 & Hr2).
  set (w2 := foldl (reap_slot template n) (tick w1) names) in *. cbn [tick srv created_names dropped_names] in *.
  rewrite Hc0 in Hc1. rewrite Hd1, Hd0 in Hd2. cbn [app] in Hc1, Hd2. rewrite Hc2, Hc1, Hd2. split_and!.
  - intros x Hx. destruct (Hi1 x Hx) as [(s & Hs%elem_of_slots & ->) ?]. split; [done|]. by exists s.
  - exact Hi2.
  - intros x Hxc Hxd. split; [intros Hx; destruct (Ho1 x (Hm2 x Hx)); [done|done]|].
    intros Hx. by destruct (Ho2 x (Hm1 x Hx)).
  - intros Hr Ht x. split.
    + intros Hx. pose proof (Hm2 x Hx) as Hx1. destruct (Ho1 x Hx1) as [Hx0|Hxc].
      * right. split; [done|]. intros Hs. apply (Hr2 Hr x); [|done|done].
        unfold names. destruct (ListMatching (calls w1) (template +:+ PrewarmSuffix) (srv w1)) as [l|] eqn:El; [|by destruct (lists _ Hr _ _ _ El)].
        apply (list_right _ Hlaw _ _ _ _ _ El). split; [done|]. by eapply surplus_prefix.
      * left. destruct (Hi1 x Hxc) as [(s & Hs%elem_of_slots & ->) _]. by exists s.
    + assert (forall x, x ∈ databases (srv w1) -> ~ surplus template n x -> x ∈ databases (srv w2)) as Hkeep.
      { intros y Hy Hns. destruct (Ho2 y Hy) as [?|Hyd]; [done|]. by destruct Hns; apply Hi2. }
      intros [(s & Hs & ->)|[Hx Hns]]; [|by apply Hkeep; [apply Hm1|]].
      apply Hkeep; [by apply (Hr1 Hr), elem_of_slots|]. intros (s' & Hs' & Hlt).
      rewrite SpareSlot_name in Hs' by lia. injection Hs' as <-. lia.
Qed.

(** ** On a server that is a set of names *)
#[local] Instance set_server : SpareConn (gset string) := {
  Exists := fun _ name s => Some (bool_decide (name ∈ s));
  CreateSnapshot := fun _ _ name s => ({[name]} ∪ s, true);
  ListMatching := fun _ prefix s => Some (List.filter (has_prefix prefix) (elements s));
  DropSnapshot := fun _ name s => (s ∖ {[name]}, true);
  databases := id
}.

Lemma set_server_lawful : lawful_conn (gset string).
Proof.
  split; cbn.
  - intros k name e b [= <-]. by rewrite bool_decide_eq_true.
  - intros k t name e x. unfold id. rewrite elem_of_union, elem_of_singleton. tauto.
  - intros k t name e _. unfold id. rewrite elem_of_union, elem_of_singleton. tauto.
  - intros k p e l x [= <-]. unfold id. rewrite elem_of_filter_bool, elem_of_elements. tauto.
  - intros k name e x. unfold id. rewrite elem_of_difference, elem_of_singleton. split; [tauto|].
    intros Hx. destruct (decide (x = name)); tauto.
  - intros k name e _. unfold id. rewrite elem_of_difference, elem_of_singleton. tauto.
Qed.
Lemma set_server_reliable : reliable (gset string).
Proof. by split. Qed.

Definition spare_world : World (gset string) :=
  {| srv := {["_tm_a"; SpareName "_tm_a" 2; SpareName "_tm_a" 4; "app"]}; calls := 0; created := 0; created_names := []; dropped_names := [] |}.

Lemma replenish_pool_witness :
  created_names (replenishSpares "_tm_a" 3 spare_world) = [SpareName "_tm_a" 1; SpareName "_tm_a" 3] /\
  dropped_names (replenishSpares "_tm_a" 3 spare_world) = [SpareName "_tm_a" 4] /\
  (forall x, x ∈ dropped_names (replenishSpares "_tm_a" 3 spare_world) -> surplus "_tm_a" 3 x).
Proof.
  split; [vm_compute; reflexivity|]. split; [vm_compute; reflexivity|].
  refine (proj1 (proj2 (replenish_pool set_server_lawful "_tm_a" 3 spare_world _ _))); [|done].
  vm_compute. split; congruence.
Defined.

(** three restores and a pool of two, the second spare of which cannot be claimed *)
Definition demo_schedule : list nat := [0; 1; 2; 1; 0; 1].
Definition first_only (_ : nat) (slot : Z) : bool := Z.eqb slot 1.

Lemma spares_claimed_once_witness :
  restores (run 2 first_only true 3 demo_schedule) = [Claimed 1; Plain; Plain] /\
  (forall i s, restores (run 2 first_only true 3 demo_schedule) !! i = Some (Claimed s) -> (1 <= s <= 2)%Z /\ first_only i s = true).
Proof.
  split; [vm_compute; reflexivity|].
  refine (proj1 (proj2 (proj2 (spares_claimed_once 2 first_only true 3 demo_schedule _ _)))); vm_compute; congruence.
Defined.

Lemma restores_end_witness :
  all_finished (run 2 first_only true 3 demo_schedule) = true /\ (Z.of_nat (length demo_schedule) <= 2 * 2 + 3)%Z.
Proof.
  split; [vm_compute; reflexivity|].
  refine (proj1 (restores_end 2 first_only true 3 demo_schedule _ _ _)); vm_compute; congruence.
Defined.
