(* ===== verification/DaemonState.v ===== *)
(** * The daemon's shared state

    [internal/daemon/state.go]: the registers that keep concurrent work on one
    worktree or repository apart. Every method runs under a mutex, so a method
    is one function on the state, and a run of the daemon is a sequence of
    calls in any order; only the keyed locks, whose holders run for long, need
    threads ([Module Locks]). *)
From stdpp Require Import base strings list sets gmap sorting relations.
From Stdlib Require Import ZArith Lia.
From S2P Require Import Prelude GoStrings.

(** ** Finalize, teardown and create in flight *)
Module Flight.

Record WatchRerun := { wRepoPath : string; DBIndex : Z; wEnv : gmap string string; wRunID : string }.
Record HeadRerun := { hRepoPath : string; hEnv : gmap string string; hRunID : string }.

#[export] Instance WatchRerun_eq_dec : EqDecision WatchRerun.
Proof. solve_decision. Defined.
#[export] Instance HeadRerun_eq_dec : EqDecision HeadRerun.
Proof. solve_decision. Defined.

(** a cancel func is known by a number; [None] is the no-op that replaces nil *)
Record inFlightFinalize := {
  cancel : option nat;
  startedAt : Z;
  watchReruns : gmap Z WatchRerun;
  headRerun : option HeadRerun
}.

Record QueuedReruns := { Head : option HeadRerun; Watch : list WatchRerun }.

Record State := {
  inFlightTeardowns : gset string;
  inFlightFinalizes : gmap string inFlightFinalize;
  inFlightCreates : gmap string Z
}.

Definition NewState : State :=
  {| inFlightTeardowns := ∅; inFlightFinalizes := ∅; inFlightCreates := ∅ |}.

Definition with_teardowns (x : gset string) (s : State) : State :=
  {| inFlightTeardowns := x; inFlightFinalizes := inFlightFinalizes s; inFlightCreates := inFlightCreates s |}.
Definition with_finalizes (x : gmap string inFlightFinalize) (s : State) : State :=
  {| inFlightTeardowns := inFlightTeardowns s; inFlightFinalizes := x; inFlightCreates := inFlightCreates s |}.
Definition with_creates (x : gmap string Z) (s : State) : State :=
  {| inFlightTeardowns := inFlightTeardowns s; inFlightFinalizes := inFlightFinalizes s; inFlightCreates := x |}.

(** *** Teardowns *)
Definition MarkTeardownInFlight (wtPath : string) (s : State) : State * bool :=
  if bool_decide (wtPath ∈ inFlightTeardowns s) then (s, false)
  else (with_teardowns ({[wtPath]} ∪ inFlightTeardowns s) s, true).

Definition UnmarkTeardownInFlight (wtPath : string) (s : State) : State :=
  with_teardowns (inFlightTeardowns s ∖ {[wtPath]}) s.

Definition IsTeardownInFlight (wtPath : string) (s : State) : bool := bool_decide (wtPath ∈ inFlightTeardowns s).

Definition SnapshotInFlightTeardowns (s : State) : list string := elements (inFlightTeardowns s).

(** the poll loop: [seen i] is the state at the [i]th poll, [done_ i] whether
    the context ends in the wait after it *)
Fixpoint WaitTeardownsDrained (fuel : nat) (seen : nat -> State) (done_ : nat -> bool) (i : nat) : option (list string) :=
  match fuel with
  | 0 => None
  | S fuel' =>
      let inFlight := SnapshotInFlightTeardowns (seen i) in
      if bool_decide (inFlight = []) then Some []
      else if done_ i then Some inFlight
      else WaitTeardownsDrained fuel' seen done_ (S i)
  end.

(** *** Finalizes *)
Definition markFinalizeLocked (now : Z) (wtPath : string) (c : option nat) (s : State) : State * bool :=
  match inFlightFinalizes s !! wtPath with
  | Some _ => (s, false)
  | None => (with_finalizes (<[wtPath := {| cancel := c; startedAt := now; watchReruns := ∅; headRerun := None |}]>
               (inFlightFinalizes s)) s, true)
  end.

Definition MarkFinalizeInFlight := markFinalizeLocked.

Definition markFinalizeOrQueue (now : Z) (wtPath : string) (c : option nat)
    (queue : inFlightFinalize -> inFlightFinalize) (s : State) : State * bool :=
  match markFinalizeLocked now wtPath c s with
  | (s', true) => (s', true)
  | (s', false) =>
      (with_finalizes (alter queue wtPath (inFlightFinalizes s')) s', false)
  end.

Definition with_index (i : Z) (r : WatchRerun) : WatchRerun :=
  {| wRepoPath := wRepoPath r; DBIndex := i; wEnv := wEnv r; wRunID := wRunID r |}.

(** the queue function of [MarkFinalizeInFlightOrQueue] *)
Definition queue_watch (r : WatchRerun) (e : inFlightFinalize) : inFlightFinalize :=
  let all := bool_decide (is_Some (watchReruns e !! (-1)%Z)) in
  let r' := if all then with_index (-1) r else r in
  let m := if all then watchReruns e else if Z.eqb (DBIndex r) (-1) then ∅ else watchReruns e in
  {| cancel := cancel e; startedAt := startedAt e; watchReruns := <[DBIndex r' := r']> m; headRerun := headRerun e |}.

Definition queue_head (r : HeadRerun) (e : inFlightFinalize) : inFlightFinalize :=
  {| cancel := cancel e; startedAt := startedAt e; watchReruns := watchReruns e; headRerun := Some r |}.

Definition MarkFinalizeInFlightOrQueue (now : Z) (wtPath : string) (c : option nat) (r : WatchRerun) (s : State)
    : State * bool := markFinalizeOrQueue now wtPath c (queue_watch r) s.

Definition MarkFinalizeInFlightOrQueueHead (now : Z) (wtPath : string) (c : option nat) (r : HeadRerun) (s : State)
    : State * bool := markFinalizeOrQueue now wtPath c (queue_head r) s.

Definition index_order (x y : WatchRerun) : Prop := (DBIndex x <= DBIndex y)%Z.
#[export] Instance index_order_dec : RelDecision index_order.
Proof. intros x y. unfold index_order. apply _. Defined.

(** the zero entry of a missing key *)
Definition no_entry : inFlightFinalize :=
  {| cancel := None; startedAt := 0; watchReruns := ∅; headRerun := None |}.

Definition UnmarkFinalizeInFlight (wtPath : string) (s : State) : State * QueuedReruns :=
  let entry := default no_entry (inFlightFinalizes s !! wtPath) in
  let s' := with_finalizes (delete wtPath (inFlightFinalizes s)) s in
  (s', match headRerun entry with
       | Some h => {| Head := Some h; Watch := [] |}
       | None => {| Head := None; Watch := stable_sort index_order (map snd (map_to_list (watchReruns entry))) |}
       end).

Definition IsFinalizeInFlight (wtPath : string) (s : State) : bool :=
  bool_decide (is_Some (inFlightFinalizes s !! wtPath)).

(** the cancel func that fires, and the answer *)
Definition CancelFinalize (wtPath : string) (s : State) : option nat * bool :=
  match inFlightFinalizes s !! wtPath with
  | None => (None, false)
  | Some e => (cancel e, true)
  end.

Definition SnapshotInFlightFinalizes (s : State) : gmap string Z := startedAt <$> inFlightFinalizes s.

Inductive wait_result := Cleared | TimedOut | ContextDone.

(** the [i]th poll sees the state [seen i] at the time [clock i], in
    nanoseconds; [done_ i]: the context ends in the wait after it *)
Fixpoint wait_cleared (fuel : nat) (wtPath : string) (deadline : Z) (seen : nat -> State) (clock : nat -> Z)
    (done_ : nat -> bool) (i : nat) : option wait_result :=
  match fuel with
  | 0 => None
  | S fuel' =>
      if negb (IsFinalizeInFlight wtPath (seen i)) then Some Cleared
      else if Z.ltb deadline (clock i) then Some TimedOut
      else if done_ i then Some ContextDone
      else wait_cleared fuel' wtPath deadline seen clock done_ (S i)
  end.

Definition WaitFinalizeCleared (fuel : nat) (wtPath : string) (start timeout : Z) (seen : nat -> State)
    (clock : nat -> Z) (done_ : nat -> bool) : option wait_result :=
  wait_cleared fuel wtPath (start + timeout) seen clock done_ 0.

(** the pause between two polls, 100 ms *)
Definition finalize_poll : Z := 100000000.

(** *** Creates; the argument is the cleaned path *)
Definition MarkCreateInFlight (key : string) (s : State) : State :=
  with_creates (<[key := (default 0 (inFlightCreates s !! key) + 1)%Z]> (inFlightCreates s)) s.

Definition unmark_create (key : string) (s : State) : State :=
  let n := (default 0 (inFlightCreates s !! key) - 1)%Z in
  with_creates (if Z.leb n 0 then delete key (inFlightCreates s) else <[key := n]> (inFlightCreates s)) s.

Definition IsCreateInFlight (key : string) (s : State) : bool :=
  Z.ltb 0 (default 0%Z (inFlightCreates s !! key)).

(** ** The calls *)
Inductive call :=
| CMark (wt : string) (c : option nat)
| CQueueWatch (wt : string) (c : option nat) (r : WatchRerun)
| CQueueHead (wt : string) (c : option nat) (r : HeadRerun)
| CUnmark (wt : string)
| CMarkTeardown (wt : string)
| CUnmarkTeardown (wt : string)
| CMarkCreate (key : string)
| CUnmarkCreate (key : string).

Inductive answer := Bool (b : bool) | Reruns (q : QueuedReruns) | Unit.

Definition exec (now : Z) (c : call) (s : State) : State * answer :=
  match c with
  | CMark wt x => let '(s', b) := MarkFinalizeInFlight now wt x s in (s', Bool b)
  | CQueueWatch wt x r => let '(s', b) := MarkFinalizeInFlightOrQueue now wt x r s in (s', Bool b)
  | CQueueHead wt x r => let '(s', b) := MarkFinalizeInFlightOrQueueHead now wt x r s in (s', Bool b)
  | CUnmark wt => let '(s', q) := UnmarkFinalizeInFlight wt s in (s', Reruns q)
  | CMarkTeardown wt => let '(s', b) := MarkTeardownInFlight wt s in (s', Bool b)
  | CUnmarkTeardown wt => (UnmarkTeardownInFlight wt s, Unit)
  | CMarkCreate k => (MarkCreateInFlight k s, Unit)
  | CUnmarkCreate k => (unmark_create k s, Unit)
  end.

(** a history: calls, each with its time, and their answers *)
Fixpoint run (h : list (Z * call)) (s : State) : State * list answer :=
  match h with
  | [] => (s, [])
  | (now, c) :: h' => let '(s1, a) := exec now c s in let '(s2, l) := run h' s1 in (s2, a :: l)
  end.

(** ** The specification *)

(** what was asked of a worktree while a finalize was in flight there *)
Inductive request := RWatch (r : WatchRerun) | RHead (r : HeadRerun).

Definition watches (l : list request) : list WatchRerun :=
  omap (fun q => match q with RWatch r => Some r | RHead _ => None end) l.
Definition heads (l : list request) : list HeadRerun :=
  omap (fun q => match q with RHead r => Some r | RWatch _ => None end) l.

(** is a rerun of every database among the requests? *)
Definition wants_all (l : list WatchRerun) : bool := existsb (fun r => Z.eqb (DBIndex r) (-1)) l.

(** the reruns the requests come down to: the latest for each database, or
    the latest of all, for every database *)
Definition coalesced (l : list WatchRerun) : gmap Z WatchRerun :=
  match wants_all l, last l with
  | true, Some r => {[ (-1)%Z := with_index (-1) r ]}
  | _, _ => foldl (fun m r => <[DBIndex r := r]> m) ∅ l
  end.

Definition handback (l : list request) : QueuedReruns :=
  match last (heads l) with
  | Some h => {| Head := Some h; Watch := [] |}
  | None => {| Head := None; Watch := stable_sort index_order (map snd (map_to_list (coalesced (watches l)))) |}
  end.

(** the register without its data structures: the refused requests of every
    finalize in flight, the teardowns in flight, and how many creates are *)
Record Spec := {
  busy : gmap string (list request);
  tearing : gset string;
  creating : string -> Z
}.

Definition spec_init : Spec := {| busy := ∅; tearing := ∅; creating := fun _ => 0%Z |}.

Definition spec_claim (wt : string) (q : list request) (a : Spec) : Spec * answer :=
  match busy a !! wt with
  | None => ({| busy := <[wt := []]> (busy a); tearing := tearing a; creating := creating a |}, Bool true)
  | Some l => ({| busy := <[wt := l ++ q]> (busy a); tearing := tearing a; creating := creating a |}, Bool false)
  end.

Definition spec_exec (c : call) (a : Spec) : Spec * answer :=
  match c with
  | CMark wt _ => spec_claim wt [] a
  | CQueueWatch wt _ r => spec_claim wt [RWatch r] a
  | CQueueHead wt _ r => spec_claim wt [RHead r] a
  | CUnmark wt => ({| busy := delete wt (busy a); tearing := tearing a; creating := creating a |},
                   Reruns (handback (default [] (busy a !! wt))))
  | CMarkTeardown wt => ({| busy := busy a; tearing := {[wt]} ∪ tearing a; creating := creating a |},
                         Bool (negb (bool_decide (wt ∈ tearing a))))
  | CUnmarkTeardown wt => ({| busy := busy a; tearing := tearing a ∖ {[wt]}; creating := creating a |}, Unit)
  | CMarkCreate k => ({| busy := busy a; tearing := tearing a;
                         creating := fun x => if String.eqb x k then (creating a x + 1)%Z else creating a x |}, Unit)
  | CUnmarkCreate k => ({| busy := busy a; tearing := tearing a;
                           creating := fun x => if String.eqb x k then Z.max 0 (creating a x - 1) else creating a x |}, Unit)
  end.

Fixpoint spec_run (h : list (Z * call)) (a : Spec) : Spec * list answer :=
  match h with
  | [] => (a, [])
  | (_, c) :: h' => let '(a1, x) := spec_exec c a in let '(a2, l) := spec_run h' a1 in (a2, x :: l)
  end.

(** ** Lemmas *)

(** an entry holds the requests [l] *)
Record holds (e : inFlightFinalize) (l : list request) : Prop := {
  holds_watch : watchReruns e = coalesced (watches l);
  holds_head : headRerun e = last (heads l)
}.

Record refines (s : State) (a : Spec) : Prop := {
  ref_busy : forall wt, match inFlightFinalizes s !! wt, busy a !! wt with
                        | Some e, Some l => holds e l
                        | None, None => True
                        | _, _ => False
                        end;
  ref_tearing : inFlightTeardowns s = tearing a;
  ref_creating : forall k, default 0%Z (inFlightCreates s !! k) = creating a k;
  ref_positive : forall k n, inFlightCreates s !! k = Some n -> (0 < n)%Z
}.

Lemma last_snoc' {A} (l : list A) x : last (l ++ [x]) = Some x.
Proof. apply last_snoc. Qed.

Lemma wants_all_snoc l r : wants_all (l ++ [r]) = wants_all l || Z.eqb (DBIndex r) (-1).
Proof. unfold wants_all. rewrite existsb_app. simpl. by rewrite orb_false_r. Qed.

Lemma fold_lookup_some (l : list WatchRerun) (m : gmap Z WatchRerun) i :
  is_Some (foldl (fun m r => <[DBIndex r := r]> m) m l !! i) <-> is_Some (m !! i) \/ Exists (fun r => DBIndex r = i) l.
Proof.
  revert m. induction l as [|r l IH]; intros m; simpl.
  - split; [auto|]. intros [H|H]; [done|by apply Exists_nil in H].
  - rewrite IH, Exists_cons. destruct (decide (DBIndex r = i)) as [<-|Hne].
    + rewrite lookup_insert_eq. split; [eauto|]. left. eauto.
    + rewrite lookup_insert_ne by done. naive_solver.
Qed.

Lemma coalesced_all l : bool_decide (is_Some (coalesced l !! (-1)%Z)) = wants_all l.
Proof.
  unfold coalesced. destruct (wants_all l) eqn:Ew.
  - destruct (last l) as [r|] eqn:El.
    + apply bool_decide_eq_true. rewrite lookup_singleton_eq. eauto.
    + apply last_None in El as ->. done.
  - apply bool_decide_eq_false. rewrite fold_lookup_some. intros [[? H]|H]; [by rewrite lookup_empty in H|].
    apply Exists_exists in H as (r & Hr & Hi). apply not_true_iff_false in Ew. apply Ew.
    unfold wants_all. apply existsb_exists. exists r. split; [by apply list_elem_of_In|]. by apply Z.eqb_eq.
Qed.

Lemma holds_watch_snoc e l r : holds e l -> holds (queue_watch r e) (l ++ [RWatch r]).
Proof.
  intros [Hw Hh]. split; [|by unfold queue_watch, heads; simpl; rewrite omap_app, app_nil_r].
  unfold queue_watch. simpl. unfold watches. rewrite omap_app. simpl. fold (watches l). rewrite Hw, coalesced_all.
  unfold coalesced at 3. rewrite wants_all_snoc, last_snoc. destruct (wants_all (watches l)) eqn:Ew; simpl.
  - unfold coalesced. rewrite Ew. destruct (last (watches l)) as [r0|] eqn:El.
    + by rewrite insert_singleton_eq.
    + apply last_None in El. rewrite El in Ew. done.
  - unfold coalesced. rewrite Ew, foldl_snoc. destruct (Z.eqb_spec (DBIndex r) (-1)) as [E|]; [|done].
    rewrite E, insert_empty. f_equal. destruct r. simpl in E. by subst.
Qed.

Lemma holds_head_snoc e l r : holds e l -> holds (queue_head r e) (l ++ [RHead r]).
Proof.
  intros [Hw Hh]. split; unfold queue_head, watches, heads; simpl; rewrite omap_app; simpl.
  - by rewrite app_nil_r.
  - by rewrite last_snoc.
Qed.

Lemma unmark_handback e l : holds e l ->
  match headRerun e with
  | Some h => {| Head := Some h; Watch := [] |}
  | None => {| Head := None; Watch := stable_sort index_order (map snd (map_to_list (watchReruns e))) |}
  end = handback l.
Proof. intros [-> ->]. done. Qed.

Lemma refines_init : refines NewState spec_init.
Proof. by split. Qed.

(** a claim of a worktree, by whichever of the three entry points *)
Lemma refines_claim now wt c f q s a :
  refines s a -> (forall e l, holds e l -> holds (f e) (l ++ q)) ->
  let '(s', b) := markFinalizeOrQueue now wt c f s in
  let '(a', x) := spec_claim wt q a in
  Bool b = x /\ refines s' a'.
Proof.
  intros [Hb Ht Hc Hp] Hf. unfold markFinalizeOrQueue, markFinalizeLocked, spec_claim.
  pose proof (Hb wt) as Hwt. destruct (inFlightFinalizes s !! wt) as [e|] eqn:Es, (busy a !! wt) as [l|] eqn:Ea; try done.
  - split; [done|]. split; simpl; auto. intros wt'. destruct (decide (wt = wt')) as [<-|Hne].
    + rewrite lookup_alter_eq, Es, lookup_insert_eq. simpl. by apply Hf.
    + rewrite lookup_alter_ne, lookup_insert_ne by done. apply Hb.
  - split; [done|]. split; simpl; auto. intros wt'. destruct (decide (wt = wt')) as [<-|Hne].
    + rewrite !lookup_insert_eq. by split.
    + rewrite !lookup_insert_ne by done. apply Hb.
Qed.

Lemma mark_is_claim now wt c s : MarkFinalizeInFlight now wt c s = markFinalizeOrQueue now wt c id s.
Proof.
  unfold MarkFinalizeInFlight, markFinalizeOrQueue, markFinalizeLocked.
  destruct (inFlightFinalizes s !! wt) eqn:E; [|done]. f_equal. destruct s as [t f n]. unfold with_finalizes. simpl. f_equal.
  symmetry. by apply alter_id.
Qed.

Lemma refines_unmark wt s a :
  refines s a ->
  let '(s', q) := UnmarkFinalizeInFlight wt s in
  q = handback (default [] (busy a !! wt)) /\
  refines s' {| busy := delete wt (busy a); tearing := tearing a; creating := creating a |}.
Proof.
  intros [Hb Ht Hc Hp]. unfold UnmarkFinalizeInFlight. split.
  - pose proof (Hb wt) as Hwt.
    destruct (inFlightFinalizes s !! wt) as [e|], (busy a !! wt) as [l|]; try done. simpl. by apply unmark_handback.
  - split; simpl; auto. intros wt'. destruct (decide (wt = wt')) as [<-|Hne].
    + by rewrite !lookup_delete_eq.
    + rewrite !lookup_delete_ne by done. apply Hb.
Qed.

Lemma refines_exec now c s a :
  refines s a ->
  let '(s', x) := exec now c s in let '(a', y) := spec_exec c a in x = y /\ refines s' a'.
Proof.
  intros H. destruct c as [wt c|wt c r|wt c r|wt|wt|wt|k|k]; simpl.
  - rewrite mark_is_claim. pose proof (refines_claim now wt c id [] s a H) as Hcl.
    destruct (markFinalizeOrQueue _ _ _ _ _) as [s' b], (spec_claim _ _ _) as [a' x]. apply Hcl.
    intros e l. by rewrite app_nil_r.
  - pose proof (refines_claim now wt c (queue_watch r) [RWatch r] s a H) as Hcl. unfold MarkFinalizeInFlightOrQueue.
    destruct (markFinalizeOrQueue _ _ _ _ _) as [s' b], (spec_claim _ _ _) as [a' x]. apply Hcl.
    intros e l. apply holds_watch_snoc.
  - pose proof (refines_claim now wt c (queue_head r) [RHead r] s a H) as Hcl. unfold MarkFinalizeInFlightOrQueueHead.
    destruct (markFinalizeOrQueue _ _ _ _ _) as [s' b], (spec_claim _ _ _) as [a' x]. apply Hcl.
    intros e l. apply holds_head_snoc.
  - pose proof (refines_unmark wt s a H) as Hu. unfold UnmarkFinalizeInFlight in Hu.
    destruct Hu as [Hq Hu]. split; [by f_equal|exact Hu].
  - destruct H as [Hb Ht Hc Hp]. unfold MarkTeardownInFlight. rewrite Ht.
    destruct (bool_decide (wt ∈ tearing a)) eqn:E; (split; [done|]); split; simpl; auto.
    rewrite Ht. apply bool_decide_eq_true in E. set_solver.
  - destruct H as [Hb Ht Hc Hp]. split; [done|]. split; simpl; auto. by rewrite Ht.
  - destruct H as [Hb Ht Hc Hp]. split; [done|]. split; simpl; auto.
    + intros k'. destruct (String.eqb_spec k' k) as [->|Hne]; [by rewrite lookup_insert_eq, <- Hc|].
      by rewrite lookup_insert_ne by congruence.
    + intros k' n. destruct (decide (k = k')) as [<-|Hne]; [rewrite lookup_insert_eq|rewrite lookup_insert_ne by done; apply Hp].
      intros [= <-]. destruct (inFlightCreates s !! k) as [x|] eqn:Ex; simpl; [specialize (Hp _ _ Ex); lia|lia].
  - destruct H as [Hb Ht Hc Hp]. split; [done|]. unfold unmark_create. set (n := default 0%Z (inFlightCreates s !! k)).
    assert (n = creating a k) as Hn by apply Hc. assert (0 <= n)%Z as Hn0.
    { unfold n. destruct (inFlightCreates s !! k) eqn:Ex; simpl; [specialize (Hp _ _ Ex); lia|lia]. }
    split; simpl; auto; destruct (Z.leb_spec (n - 1) 0) as [Hle|Hgt].
    + intros k'. destruct (String.eqb_spec k' k) as [->|Hne]; [rewrite lookup_delete_eq; simpl; lia|].
      by rewrite lookup_delete_ne by congruence.
    + intros k'. destruct (String.eqb_spec k' k) as [->|Hne]; [rewrite lookup_insert_eq; simpl; lia|].
      by rewrite lookup_insert_ne by congruence.
    + intros k' x Hx. apply lookup_delete_Some in Hx as [_ Hx]. by eapply Hp.
    + intros k' x. destruct (decide (k = k')) as [<-|Hne]; [rewrite lookup_insert_eq|rewrite lookup_insert_ne by done; apply Hp].
      intros [= <-]. lia.
Qed.

Lemma refines_run h : forall s a, refines s a ->
  (run h s).2 = (spec_run h a).2 /\ refines (run h s).1 (spec_run h a).1.
Proof.
  induction h as [|[now c] h IH]; intros s a H; simpl; [done|].
  pose proof (refines_exec now c s a H) as He. destruct (exec now c s) as [s1 x], (spec_exec c a) as [a1 y].
  destruct He as [-> H1]. specialize (IH s1 a1 H1).
  destruct (run h s1) as [s2 l], (spec_run h a1) as [a2 l']. simpl in *. destruct IH as [-> IH]. done.
Qed.

(** C17: the register of work in flight refines its specification: in
    every history of calls the answers are those of a register that keeps the
    set of busy worktrees with all refused requests, the set of teardowns and
    the number of unfinished creates; the queries agree as well. *)
Theorem state_refines_spec h :
  (run h NewState).2 = (spec_run h spec_init).2 /\
  (forall wt, IsFinalizeInFlight wt (run h NewState).1 = bool_decide (is_Some (busy (spec_run h spec_init).1 !! wt))) /\
  (forall wt, IsTeardownInFlight wt (run h NewState).1 = bool_decide (wt ∈ tearing (spec_run h spec_init).1)) /\
  (forall k, IsCreateInFlight k (run h NewState).1 = Z.ltb 0 (creating (spec_run h spec_init).1 k)).
Proof.
  destruct (refines_run h NewState spec_init refines_init) as [Ha [Hb Ht Hc _]]. split; [exact Ha|]. split; [|split].
  - intros wt. unfold IsFinalizeInFlight. specialize (Hb wt). apply bool_decide_ext.
    destruct (inFlightFinalizes _ !! wt), (busy _ !! wt); try done; split; eauto; by intros [].
  - intros wt. unfold IsTeardownInFlight. by rewrite Ht.
  - intros k. unfold IsCreateInFlight. by rewrite Hc.
Qed.

(** ** What is handed back *)

(** a rerun does the work that a request asked for *)
Definition does (r' r : WatchRerun) : Prop := DBIndex r' = DBIndex r \/ DBIndex r' = (-1)%Z.

Lemma fold_value (l : list WatchRerun) (m : gmap Z WatchRerun) i v :
  foldl (fun m r => <[DBIndex r := r]> m) m l !! i = Some v ->
  (v ∈ l /\ DBIndex v = i) \/ m !! i = Some v.
Proof.
  revert m. induction l as [|r l IH]; intros m; simpl; [auto|]. intros H.
  apply IH in H as [[H1 H2]|H]; [left; split; [by right|done]|].
  destruct (decide (DBIndex r = i)) as [<-|Hne].
  - rewrite lookup_insert_eq in H. injection H as <-. left. split; [by left|done].
  - rewrite lookup_insert_ne in H by done. auto.
Qed.

Lemma coalesced_does l r : r ∈ l -> exists i r', coalesced l !! i = Some r' /\ does r' r.
Proof.
  intros Hr. unfold coalesced. destruct (wants_all l) eqn:Ew.
  - destruct (last l) as [r0|] eqn:El.
    + exists (-1)%Z, (with_index (-1) r0). split; [apply lookup_singleton_eq|by right].
    + apply last_None in El as ->. by apply elem_of_nil in Hr.
  - assert (is_Some (foldl (fun m r => <[DBIndex r := r]> m) (∅ : gmap Z WatchRerun) l !! DBIndex r)) as [v Hv].
    { apply fold_lookup_some. right. apply Exists_exists. eauto. }
    exists (DBIndex r), v. split; [done|]. apply fold_value in Hv as [[_ Hv]|Hv]; [by left|by rewrite lookup_empty in Hv].
Qed.

Lemma coalesced_key l i r : coalesced l !! i = Some r -> DBIndex r = i.
Proof.
  unfold coalesced. destruct (wants_all l), (last l) as [r0|].
  - intros [<- <-]%lookup_singleton_Some. done.
  - intros H. by apply fold_value in H as [[_ H]|H]; [|rewrite lookup_empty in H].
  - intros H. by apply fold_value in H as [[_ H]|H]; [|rewrite lookup_empty in H].
  - intros H. by apply fold_value in H as [[_ H]|H]; [|rewrite lookup_empty in H].
Qed.

(** a rerun was asked for: it is one of the requests, up to its database *)
Lemma coalesced_asked l i r : coalesced l !! i = Some r -> exists r0, r0 ∈ l /\ (r = r0 \/ r = with_index (-1) r0).
Proof.
  unfold coalesced. destruct (wants_all l), (last l) as [r0|] eqn:El.
  - intros [_ <-]%lookup_singleton_Some. exists r0. split; [|by right]. by apply last_Some_elem_of.
  - intros H. apply fold_value in H as [[H _]|H]; [eauto|by rewrite lookup_empty in H].
  - intros H. apply fold_value in H as [[H _]|H]; [eauto|by rewrite lookup_empty in H].
  - intros H. apply fold_value in H as [[H _]|H]; [eauto|by rewrite lookup_empty in H].
Qed.

Lemma elem_of_handback r l :
  r ∈ stable_sort index_order (map snd (map_to_list (coalesced l))) <-> exists i, coalesced l !! i = Some r.
Proof.
  rewrite elem_of_stable_sort, list_elem_of_fmap. split.
  - intros ([i v] & -> & H). exists i. by apply elem_of_map_to_list.
  - intros [i H]. exists (i, r). split; [done|]. by apply elem_of_map_to_list.
Qed.

(** no rerun that was refused is lost. What a finalize hands back
    is the latest HEAD rerun, which runs everything, if there was one; else a
    list, one rerun per database in increasing order, such that every refused
    request is done by one of them, and nothing that was not asked for is in
    it. *)
Theorem handback_covers l :
  match last (heads l) with
  | Some h => handback l = {| Head := Some h; Watch := [] |}
  | None =>
      Head (handback l) = None /\
      (forall r, RWatch r ∈ l -> exists r', r' ∈ Watch (handback l) /\ does r' r) /\
      (forall r', r' ∈ Watch (handback l) -> exists r, RWatch r ∈ l /\ (r' = r \/ r' = with_index (-1) r)) /\
      StronglySorted (fun x y => (DBIndex x < DBIndex y)%Z) (Watch (handback l))
  end.
Proof.
  unfold handback. destruct (last (heads l)) as [h|] eqn:Eh; [done|]. simpl.
  assert (forall r, r ∈ watches l <-> RWatch r ∈ l) as Hw.
  { intros r. unfold watches. rewrite list_elem_of_omap. split.
    - intros ([r0|h] & Hin & E); [|done]. by injection E as <-.
    - intros H. by exists (RWatch r). }
  split; [done|]. split; [|split].
  - intros r Hr. apply Hw, coalesced_does in Hr as (i & r' & Hi & Hd). exists r'. split; [|done].
    apply elem_of_handback. eauto.
  - intros r' Hr'. apply elem_of_handback in Hr' as [i Hi]. apply coalesced_asked in Hi as (r0 & Hin & Hor).
    exists r0. split; [by apply Hw|done].
  - apply (StronglySorted_strict index_order).
    + rewrite stable_sort_perm. apply NoDup_fmap_2_strong; [|apply NoDup_map_to_list].
      intros [i x] [j y] Hx Hy E. simpl in E. subst y. apply elem_of_map_to_list in Hx, Hy.
      apply coalesced_key in Hx, Hy. congruence.
    + intros x y Hx Hy Hne Hle. apply elem_of_handback in Hx as [i Hx], Hy as [j Hy].
      pose proof (coalesced_key _ _ _ Hx). pose proof (coalesced_key _ _ _ Hy). unfold index_order in Hle.
      destruct (decide (i = j)) as [->|]; [congruence|lia].
    + apply stable_sort_sorted.
      * intros x y z. unfold index_order. lia.
      * intros x y. unfold index_order. lia.
Qed.
(** ** The waits *)

(** what the poll [i] of [WaitFinalizeCleared] does when none before it returned *)
Definition poll_outcome (wtPath : string) (deadline : Z) (seen : nat -> State) (clock : nat -> Z)
    (done_ : nat -> bool) (i : nat) : option wait_result :=
  if negb (IsFinalizeInFlight wtPath (seen i)) then Some Cleared
  else if Z.ltb deadline (clock i) then Some TimedOut
  else if done_ i then Some ContextDone
  else None.

Lemma wait_cleared_first wt d seen clock done_ fuel i k :
  is_Some (poll_outcome wt d seen clock done_ k) -> i <= k -> k < i + fuel ->
  exists j r, i <= j <= k /\ wait_cleared fuel wt d seen clock done_ i = Some r /\
              poll_outcome wt d seen clock done_ j = Some r /\
              forall j', i <= j' < j -> poll_outcome wt d seen clock done_ j' = None.
Proof.
  revert i. induction fuel as [|fuel IH]; intros i Hk Hik Hf; [lia|]. simpl.
  destruct (poll_outcome wt d seen clock done_ i) as [r|] eqn:E.
  - exists i, r. split; [lia|]. split; [|split; [done|intros; lia]].
    unfold poll_outcome in E. by repeat case_match.
  - assert (i <> k) by (intros ->; rewrite E in Hk; by destruct Hk).
    destruct (IH (S i)) as (j & r & Hj & Hw & Hr & Hn); [done|lia|lia|]. exists j, r.
    split; [lia|]. split; [unfold poll_outcome in E; by repeat case_match|]. split; [done|].
    intros j' Hj'. destruct (decide (j' = i)) as [->|]; [done|]. apply Hn. lia.
Qed.

(** when the clock really advances by the pause between two polls, the
    wait for a finalize returns after at most [timeout / 100ms + 1] pauses,
    whatever the finalize and the context do; its answer is that of the first
    poll that had one: cleared when the slot was empty, timed out when it was
    taken after the deadline, cancelled when the context ended before it. *)
Theorem WaitFinalizeCleared_terminates wt start timeout seen clock done_ fuel :
  (0 <= timeout)%Z -> (forall i, start + Z.of_nat i * finalize_poll <= clock i)%Z ->
  Z.to_nat (timeout / finalize_poll) + 2 <= fuel ->
  exists i r, i <= Z.to_nat (timeout / finalize_poll) + 1 /\
    WaitFinalizeCleared fuel wt start timeout seen clock done_ = Some r /\
    (forall j, j < i -> IsFinalizeInFlight wt (seen j) = true /\ (clock j <= start + timeout)%Z /\ done_ j = false) /\
    match r with
    | Cleared => IsFinalizeInFlight wt (seen i) = false
    | TimedOut => IsFinalizeInFlight wt (seen i) = true /\ (start + timeout < clock i)%Z
    | ContextDone => IsFinalizeInFlight wt (seen i) = true /\ done_ i = true
    end.
Proof.
  intros Ht Hc Hf. set (k := Z.to_nat (timeout / finalize_poll) + 1).
  assert (start + timeout < clock k)%Z as Hk.
  { specialize (Hc k). unfold k in *. unfold finalize_poll in *.
    pose proof (Z.div_pos timeout 100000000 Ht). pose proof (Z.mod_pos_bound timeout 100000000).
    pose proof (Z.div_mod timeout 100000000). lia. }
  destruct (wait_cleared_first wt (start + timeout) seen clock done_ fuel 0 k) as (i & r & Hi & Hw & Hr & Hn);
    [|lia|lia|].
  { unfold poll_outcome. replace (start + timeout <? clock k)%Z with true by lia. case_match; eauto. }
  exists i, r. split; [lia|]. split; [done|]. split.
  - intros j Hj. specialize (Hn j ltac:(lia)). unfold poll_outcome in Hn.
    destruct (IsFinalizeInFlight wt (seen j)); [|done]. simpl in Hn.
    destruct (start + timeout <? clock j)%Z eqn:E; [done|]. destruct (done_ j); [done|]. repeat split. lia.
  - unfold poll_outcome in Hr. destruct (IsFinalizeInFlight wt (seen i)); simpl in Hr.
    + destruct (start + timeout <? clock i)%Z eqn:E; [injection Hr as <-; split; [done|lia]|].
      destruct (done_ i); [by injection Hr as <-|done].
    + by injection Hr as <-.
Qed.

(** a finalize that never ends, a timeout of a quarter of a second *)
Definition stuck (_ : nat) : State := (MarkFinalizeInFlight 0 "/w" None NewState).1.

Lemma WaitFinalizeCleared_terminates_witness :
  exists i r, i <= 3 /\
    WaitFinalizeCleared 4 "/w" 0 250000000 stuck (fun i => Z.of_nat i * finalize_poll)%Z (fun _ => false) = Some r /\
    (forall j, j < i -> IsFinalizeInFlight "/w" (stuck j) = true /\
                        (Z.of_nat j * finalize_poll <= 250000000)%Z /\ false = false) /\
    match r with
    | Cleared => IsFinalizeInFlight "/w" (stuck i) = false
    | TimedOut => IsFinalizeInFlight "/w" (stuck i) = true /\ (250000000 < Z.of_nat i * finalize_poll)%Z
    | ContextDone => IsFinalizeInFlight "/w" (stuck i) = true /\ false = true
    end.
Proof.
  refine (WaitFinalizeCleared_terminates "/w" 0 250000000 stuck (fun i => Z.of_nat i * finalize_poll)%Z
            (fun _ => false) 4 _ _ _).
  - lia.
  - intros i. simpl. lia.
  - vm_compute. lia.
Defined.
End Flight.

(** ** The keyed locks *)
Module Locks.

(** the map of one kind of lock ([prepareLks], [teardownLks]) and which of
    the mutexes are locked *)
Record Mutexes := { lks : gmap string nat; locked : gset nat; fresh_mutex : nat }.

(** [worktreePrepareLock], [repoTeardownLock]; they run under a mutex of their
    own, so they are one step *)
Definition lockFor (key : string) (s : Mutexes) : Mutexes * nat :=
  match lks s !! key with
  | Some m => (s, m)
  | None => ({| lks := <[key := fresh_mutex s]> (lks s); locked := locked s; fresh_mutex := S (fresh_mutex s) |},
             fresh_mutex s)
  end.

(** where a goroutine is in [withWorktreePrepare] or [withRepoTeardown] *)
Inductive pc := Idle | Asked (key : string) | Blocked (key : string) (m : nat) | Inside (key : string) (m : nat).

Record Config := { mutexes : Mutexes; threads : gmap nat pc }.

Definition at_pc (c : Config) (t : nat) : pc := default Idle (threads c !! t).

Inductive step : Config -> Config -> Prop :=
| step_ask c t key :
    at_pc c t = Idle ->
    step c {| mutexes := mutexes c; threads := <[t := Asked key]> (threads c) |}
| step_lookup c t key :
    at_pc c t = Asked key ->
    step c {| mutexes := (lockFor key (mutexes c)).1;
              threads := <[t := Blocked key (lockFor key (mutexes c)).2]> (threads c) |}
| step_lock c t key m :
    at_pc c t = Blocked key m -> m ∉ locked (mutexes c) ->
    step c {| mutexes := {| lks := lks (mutexes c); locked := {[m]} ∪ locked (mutexes c);
                            fresh_mutex := fresh_mutex (mutexes c) |};
              threads := <[t := Inside key m]> (threads c) |}
| step_unlock c t key m :     (* deferred: the function has returned or panicked *)
    at_pc c t = Inside key m ->
    step c {| mutexes := {| lks := lks (mutexes c); locked := locked (mutexes c) ∖ {[m]};
                            fresh_mutex := fresh_mutex (mutexes c) |};
              threads := <[t := Idle]> (threads c) |}.

Definition init : Config := {| mutexes := {| lks := ∅; locked := ∅; fresh_mutex := 0 |}; threads := ∅ |}.

Record inv (c : Config) : Prop := {
  inv_fresh : forall k m, lks (mutexes c) !! k = Some m -> m < fresh_mutex (mutexes c);
  inv_inj : forall k k' m, lks (mutexes c) !! k = Some m -> lks (mutexes c) !! k' = Some m -> k = k';
  inv_known : forall t k m, at_pc c t = Blocked k m \/ at_pc c t = Inside k m -> lks (mutexes c) !! k = Some m;
  inv_held : forall m, m ∈ locked (mutexes c) <-> exists t k, at_pc c t = Inside k m;
  inv_one : forall t t' k k' m, at_pc c t = Inside k m -> at_pc c t' = Inside k' m -> t = t'
}.

Lemma at_pc_insert c t p t' ms :
  at_pc {| mutexes := ms; threads := <[t := p]> (threads c) |} t' = if decide (t = t') then p else at_pc c t'.
Proof.
  unfold at_pc. simpl. case_decide as E; [subst; by rewrite lookup_insert_eq|by rewrite lookup_insert_ne].
Qed.

Lemma inv_init : inv init.
Proof.
  split; unfold at_pc; simpl.
  - intros k m H. by rewrite lookup_empty in H.
  - intros k k' m H. by rewrite lookup_empty in H.
  - intros t k m. rewrite lookup_empty. by intros [|].
  - intros m. split; [set_solver|]. intros (t & k & H). by rewrite lookup_empty in H.
  - intros t t' k k' m H. by rewrite lookup_empty in H.
Qed.

(** a thread that does not hold a mutex moves to a place without one *)
Lemma inv_move c t p ms :
  inv c -> (forall k m, at_pc c t <> Inside k m) -> (forall k m, p <> Inside k m) ->
  locked ms = locked (mutexes c) ->
  (forall k m, lks (mutexes c) !! k = Some m -> lks ms !! k = Some m) ->
  (forall k m, lks ms !! k = Some m -> m < fresh_mutex ms) ->
  (forall k k' m, lks ms !! k = Some m -> lks ms !! k' = Some m -> k = k') ->
  (forall k m, p = Blocked k m -> lks ms !! k = Some m) ->
  inv {| mutexes := ms; threads := <[t := p]> (threads c) |}.
Proof.
  intros Hi Ht Hp Hl Hext Hfr Hinj Hb. split; simpl; auto.
  - intros t' k m. rewrite at_pc_insert. case_decide as Hd; [|by intros H; apply Hext, (inv_known c Hi t')].
    intros [H'|H']; [by apply Hb|by destruct (Hp k m)].
  - intros m. rewrite Hl, (inv_held c Hi). split; intros (t' & k & H).
    + exists t', k. rewrite at_pc_insert. case_decide as Hd; [subst; by destruct (Ht k m)|done].
    + rewrite at_pc_insert in H. case_decide as Hd; [by destruct (Hp k m)|eauto].
  - intros t1 t2 k k' m. rewrite !at_pc_insert. repeat case_decide; intros He1 He2; try congruence;
      try (exfalso; eapply Hp; eassumption).
    by eapply (inv_one c Hi).
Qed.

Lemma inv_step c c' : inv c -> step c c' -> inv c'.
Proof.
  intros Hi Hs. destruct Hs as [c t key Ht|c t key Ht|c t key m Ht Hm|c t key m Ht].
  - apply inv_move; try done; [by rewrite Ht|apply Hi|apply Hi].
  - unfold lockFor. destruct (lks (mutexes c) !! key) as [m|] eqn:E; simpl.
    + apply inv_move; try done; [by rewrite Ht|apply Hi|apply Hi|]. by intros k m' [= <- <-].
    + apply inv_move; simpl; try done; [by rewrite Ht|..].
      * intros k m H. rewrite lookup_insert_ne; [done|congruence].
      * intros k m [[<- <-]|[_ H]]%lookup_insert_Some; [lia|]. apply (inv_fresh c Hi) in H. lia.
      * intros k k' m [[<- <-]|[Hk H]]%lookup_insert_Some [[<- Hm]|[Hk' H']]%lookup_insert_Some; auto.
        -- apply (inv_fresh c Hi) in H'. lia.
        -- apply (inv_fresh c Hi) in H. lia.
        -- by eapply (inv_inj c Hi).
      * intros k m [= <- <-]. apply lookup_insert_eq.
  - split; simpl.
    + apply Hi.
    + apply Hi.
    + intros t' k m'. rewrite at_pc_insert. case_decide as Hd; [|apply (inv_known c Hi)].
      intros [[=]|[= <- <-]]. apply (inv_known c Hi t). by left.
    + intros m'. rewrite elem_of_union, elem_of_singleton, (inv_held c Hi). split.
      * intros [->|(t' & k & H)]; [exists t, key; by rewrite at_pc_insert, decide_True|].
        exists t', k. rewrite at_pc_insert. case_decide as Hd; [congruence|done].
      * intros (t' & k & H). rewrite at_pc_insert in H. case_decide as Hd; [left; congruence|right; eauto].
    + intros t1 t2 k k' m'. rewrite !at_pc_insert. repeat case_decide; intros He1 He2; try congruence.
      * destruct Hm. apply (inv_held c Hi). exists t2, k'. congruence.
      * destruct Hm. apply (inv_held c Hi). exists t1, k. congruence.
      * by eapply (inv_one c Hi).
  - split; simpl.
    + apply Hi.
    + apply Hi.
    + intros t' k m'. rewrite at_pc_insert. case_decide as Hd; [by intros [|]|apply (inv_known c Hi)].
    + intros m'. rewrite elem_of_difference, elem_of_singleton, (inv_held c Hi). split.
      * intros [(t' & k & H) Hne]. exists t', k. rewrite at_pc_insert. case_decide as Hd; [congruence|done].
      * intros (t' & k & H). rewrite at_pc_insert in H. case_decide as Hd; [done|]. split; [eauto|].
        intros ->. apply Hd. by eapply (inv_one c Hi).
    + intros t1 t2 k k' m'. rewrite !at_pc_insert. repeat case_decide; intros He1 He2; try congruence.
      by eapply (inv_one c Hi).
Qed.

Lemma reachable_inv c : rtc step init c -> inv c.
Proof. intros H. eapply rtc_invariant; [apply inv_step|exact H|apply inv_init]. Qed.

(** in every interleaving, at most one goroutine is inside the
    section of a key, and a goroutine that waits for a key can go in as soon
    as nobody is inside the section of that key: work on other worktrees
    never blocks it. *)
Theorem keyed_locks_exclusive c t key m :
  rtc step init c ->
  (at_pc c t = Inside key m -> forall t' m', at_pc c t' = Inside key m' -> t' = t) /\
  (at_pc c t = Blocked key m -> (forall t' m', at_pc c t' <> Inside key m') ->
   exists c', step c c' /\ at_pc c' t = Inside key m).
Proof.
  intros Hr. apply reachable_inv in Hr as Hi. split.
  - intros Ht t' m' Ht'. assert (Some m = Some m') as [= <-].
    { rewrite <- (inv_known c Hi t key m), <- (inv_known c Hi t' key m'); auto. }
    by eapply (inv_one c Hi).
  - intros Ht Hno. eexists. split; [eapply step_lock; [exact Ht|]|by rewrite at_pc_insert, decide_True].
    intros (t' & k & H)%(inv_held c Hi).
    assert (k = key) as -> by (eapply (inv_inj c Hi); eapply (inv_known c Hi); eauto). by destruct (Hno t' m).
Qed.

(** two goroutines ask for the same worktree; the first is in *)
Definition demo (i : nat) : Config :=
  let free := {| lks := ∅; locked := ∅; fresh_mutex := 0 |} in
  let made := {| lks := {["/w" := 0]}; locked := ∅; fresh_mutex := 1 |} in
  let taken := {| lks := {["/w" := 0]}; locked := {[0]}; fresh_mutex := 1 |} in
  match i with
  | 0 => init
  | 1 => {| mutexes := free; threads := {[0 := Asked "/w"]} |}
  | 2 => {| mutexes := made; threads := {[0 := Blocked "/w" 0]} |}
  | 3 => {| mutexes := taken; threads := {[0 := Inside "/w" 0]} |}
  | 4 => {| mutexes := taken; threads := {[0 := Inside "/w" 0; 1 := Asked "/w"]} |}
  | _ => {| mutexes := taken; threads := {[0 := Inside "/w" 0; 1 := Blocked "/w" 0]} |}
  end.

Lemma demo_step i : i < 5 -> step (demo i) (demo (S i)).
Proof.
  intros H. destruct i as [|[|[|[|[|i]]]]]; [..|lia]; unfold demo.
  - by apply (step_ask init 0 "/w").
  - by apply (step_lookup (demo 1) 0 "/w").
  - apply (step_lock (demo 2) 0 "/w" 0); [done|simpl; set_solver].
  - by apply (step_ask (demo 3) 1 "/w").
  - by apply (step_lookup (demo 4) 1 "/w").
Qed.

Lemma keyed_locks_exclusive_witness :
  rtc step init (demo 5) /\ at_pc (demo 5) 0 = Inside "/w" 0 /\ at_pc (demo 5) 1 = Blocked "/w" 0 /\
  (forall t' m', at_pc (demo 5) t' = Inside "/w" m' -> t' = 0).
Proof.
  assert (rtc step init (demo 5)) as H.
  { change init with (demo 0). eapply rtc_l; [by apply (demo_step 0); lia|].
    eapply rtc_l; [by apply (demo_step 1); lia|]. eapply rtc_l; [by apply (demo_step 2); lia|].
    eapply rtc_l; [by apply (demo_step 3); lia|]. eapply rtc_l; [by apply (demo_step 4); lia|]. apply rtc_refl. }
  split; [exact H|]. split; [reflexivity|]. split; [reflexivity|].
  exact (proj1 (keyed_locks_exclusive (demo 5) 0 "/w" 0 H) eq_refl).
Defined.
End Locks.

(** ** Watchers *)
Module Watchers.

(** the three registries ([watchers], [wtWatchers], [lifecycleWatchers]) have
    the same operations; a cancel func is known by a number *)
Record WatcherEntry := { RepoPath : string; WorktreeCount : N; Cancel : option nat }.

Abbreviation Registry := (gmap string WatcherEntry).

(** the cancel func that is called once the mutex is released *)
Definition to_cancel (e : option WatcherEntry) : list nat :=
  match e with Some {| Cancel := Some c |} => [c] | _ => [] end.

(** [RegisterWatcher], [RegisterWtWatcher], [RegisterLifecycleWatcher] *)
Definition Register (path : string) (e : WatcherEntry) (s : Registry) : Registry * list nat :=
  (<[path := e]> s, to_cancel (s !! path)).

(** [UnregisterWatcher], [UnregisterWtWatcher], [UnregisterLifecycleWatcher] *)
Definition Unregister (path : string) (s : Registry) : Registry * list nat * bool :=
  match s !! path with
  | None => (s, [], false)
  | Some e => (delete path s, to_cancel (Some e), true)
  end.

Definition HasWatcher (path : string) (s : Registry) : bool := bool_decide (is_Some (s !! path)).
Definition WatcherCount (s : Registry) : Z := (Z.of_nat (size s) mod 2 ^ 32)%Z.
Definition ListWatchers (s : Registry) : list (string * N) :=
  map (fun kv => (kv.1, WorktreeCount kv.2)) (map_to_list s).
Definition ListWatcherPaths (s : Registry) : list string := map fst (map_to_list s).

Inductive op := Reg (path : string) (e : WatcherEntry) | Unreg (path : string).

(** a history: the registry and the cancel funcs called, in order *)
Definition op_step (st : Registry * list nat) (o : op) : Registry * list nat :=
  match o with
  | Reg path e => let '(s', c) := Register path e st.1 in (s', st.2 ++ c)
  | Unreg path => let '(s', c, _) := Unregister path st.1 in (s', st.2 ++ c)
  end.

Definition after (h : list op) : Registry * list nat := foldl op_step (∅, []) h.

Definition registered (h : list op) : list nat :=
  h ≫= (fun o => match o with Reg _ e => to_cancel (Some e) | Unreg _ => [] end).

Definition live (s : Registry) : list nat := map_to_list s ≫= (fun kv => to_cancel (Some kv.2)).

Lemma live_insert path e s : s !! path = None -> live (<[path := e]> s) ≡ₚ to_cancel (Some e) ++ live s.
Proof. intros H. unfold live. by rewrite map_to_list_insert. Qed.

Lemma live_delete path e s : s !! path = Some e -> live s ≡ₚ to_cancel (Some e) ++ live (delete path s).
Proof.
  intros H. rewrite <- (insert_delete_id s path e H) at 1. apply live_insert. apply lookup_delete_eq.
Qed.

(** in every history of registrations every watcher is accounted
    for: the cancel funcs of the watchers that were ever registered are those
    of the live ones and those that were called, each once. No watcher leaks
    and none is cancelled while it is registered, or twice. *)
Theorem watchers_accounted h : registered h ≡ₚ live (after h).1 ++ (after h).2.
Proof.
  induction h as [|o h IH] using rev_ind; [done|].
  unfold registered, after in *. rewrite bind_app, foldl_snoc. simpl. rewrite app_nil_r, IH.
  destruct (foldl op_step (∅, []) h) as [s cs]. simpl. clear IH. destruct o as [path e|path]; simpl.
  - destruct (s !! path) as [e0|] eqn:E; simpl.
    + rewrite <- (insert_delete_eq s path e), live_insert by apply lookup_delete_eq.
      rewrite (live_delete path e0 s E). solve_Permutation.
    + rewrite live_insert by done. rewrite app_nil_r. solve_Permutation.
  - rewrite app_nil_r. unfold Unregister. destruct (s !! path) as [e|] eqn:E; simpl; [|by rewrite app_nil_r].
    rewrite (live_delete path e s E). solve_Permutation.
Qed.
End Watchers.
