(* ===== verification/Plan.v ===== *)
(** * Plans

    [internal/daemon/plan.go]: a submitted plan is a list of groups; the groups
    run in parallel, the tasks of a group one after the other until the first
    failure ([Module Exec]). [Module ConfigWrite] is the task that replaces a
    configuration file, with the history it keeps in the store
    ([internal/store/config_generations.go]); [Module Create] the task that
    makes a worktree. *)
From stdpp Require Import base strings list gmap relations.
From Stdlib Require Import ZArith Lia.
From S2P Require Import Prelude GoStrings Engine DaemonState.

(** the wire types of [pkg/rpc] *)
Record Task := {
  Type_ : string;
  RepoPath : string;
  WorktreePath : string;
  Params : gmap string string;
  InheritedEnv : gmap string string
}.

Record TaskResult := { RType : string; OK : bool; Message : string; PayloadJSON : string }.

Definition Param (t : Task) (key : string) : string := default "" (Params t !! key).
Definition FlagParam (t : Task) (key : string) : bool := String.eqb (Param t key) "1".

(** ** Execution *)
Module Exec.

(** what calling a function did: it returned, or it panicked *)
Inductive outcome := Returned (payload : string) (err : option string) | Panicked (v : string).

(** [safego.Run] *)
Definition Run (label : string) (o : outcome) : string * option string :=
  match o with
  | Returned payload err => (payload, err)
  | Panicked v => ("", Some (label +:+ " panicked: " +:+ v))
  end.

Definition taskTypes : list string :=
  ["prepare"; "db_reset"; "db_save"; "hook_run"; "snapshots_purge"; "snapshots_prune"; "main_purge_dbs";
   "worktree_register"; "worktree_unregister"; "logs_purge"; "registry_repair"; "config_write";
   "worktree_create"; "worktree_finalize"; "worktree_teardown"].

Definition lblPlanTask : string := "plan:task".

(** [firstFailure] *)
Definition firstFailure (results : list TaskResult) : string :=
  match List.find (fun r => negb (OK r)) results with
  | Some r => RType r +:+ ": " +:+ Message r
  | None => ""
  end.

Inductive event := PlanStart | PlanError (msg : string) | PlanEnd.

(** the events of [handleRunPlan] for a queued plan *)
Definition plan_events (results : list TaskResult) : list event :=
  if String.eqb (firstFailure results) "" then [PlanStart; PlanEnd]
  else [PlanStart; PlanError (firstFailure results)].

(** one group as it runs: the tasks that are left and the results so far *)
Record Lane := { todo : list Task; out : list TaskResult }.

Section Run.
(** the state the tasks share, the registered runners, and how Go quotes *)
Context {World : Type} (runner : string -> Task -> World -> World * outcome) (quote : string -> string).

Definition runOneTask (t : Task) (w : World) : World * (string * option string) :=
  if bool_decide (Type_ t ∈ taskTypes)
  then let '(w', o) := runner (Type_ t) t w in (w', Run lblPlanTask o)
  else (w, ("", Some ("run_plan: unknown task " +:+ quote (Type_ t)))).

(** one turn of the loop of a lane *)
Definition run_next (t : Task) (rest : list Task) (done_ : list TaskResult) (w : World) : Lane * World :=
  let '(w', (payload, err)) := runOneTask t w in
  let res := {| RType := Type_ t; OK := if err then false else true; Message := default "" err;
                PayloadJSON := payload |} in
  ({| todo := match err with Some _ => [] | None => rest end; out := done_ ++ [res] |}, w').

Definition Config : Type := list Lane * World.

Definition start (groups : list (list Task)) (w : World) : Config :=
  (map (fun g => {| todo := g; out := [] |}) groups, w).

(** one task of one lane; the lanes interleave in any order *)
Inductive step : Config -> Config -> Prop :=
| step_lane i t rest done_ lanes w :
    lanes !! i = Some {| todo := t :: rest; out := done_ |} ->
    step (lanes, w) (let '(l, w') := run_next t rest done_ w in (<[i := l]> lanes, w')).

(** every lane is through: [wg.Wait] returns *)
Definition finished (c : Config) : Prop := Forall (fun l => todo l = []) c.1.

(** the results, lane by lane *)
Definition ExecutePlan_results (c : Config) : list TaskResult := c.1 ≫= out.

(** ** What a plan promises *)

(** what the result of a task has to say of the call of its runner: it is OK
    exactly when a registered runner returned without an error *)
Definition came_out (t : Task) (w : World) (r : TaskResult) (w' : World) : Prop :=
  RType r = Type_ t /\
  (Type_ t ∉ taskTypes -> w' = w /\ OK r = false) /\
  (Type_ t ∈ taskTypes -> w' = (runner (Type_ t) t w).1 /\
     match (runner (Type_ t) t w).2 with
     | Returned payload None => OK r = true /\ Message r = "" /\ PayloadJSON r = payload
     | Returned payload (Some e) => OK r = false /\ Message r = e /\ PayloadJSON r = payload
     | Panicked _ => OK r = false
     end).

(** the calls of a run, with their lanes, one after the other *)
Inductive replay (w : World) : list (nat * (Task * TaskResult)) -> World -> Prop :=
| replay_start : replay w [] w
| replay_call calls w1 i t r w2 :
    replay w calls w1 -> came_out t w1 r w2 -> replay w (calls ++ [(i, (t, r))]) w2.

Definition of_lane (i : nat) (calls : list (nat * (Task * TaskResult))) : list (Task * TaskResult) :=
  map snd (List.filter (fun x => Nat.eqb x.1 i) calls).

(** a lane that is through ran a prefix of its group: all of it with every
    task OK, or up to the first task that failed *)
Definition ran_group (g : list Task) (l : Lane) (cs : list (Task * TaskResult)) : Prop :=
  exists k, cs.*1 = take k g /\ cs.*2 = out l /\
    ((k = length g /\ Forall (fun r => OK r = true) (out l)) \/
     exists ok r, out l = ok ++ [r] /\ Forall (fun r => OK r = true) ok /\ OK r = false).

(** ** What holds of a lane *)

(** the lane of group [g] that made the calls [cs]: its results are those of a
    prefix of the tasks, in order, and either all are OK and the rest of the
    group is still to do, or the last one failed and nothing is *)
Definition lane_ok (g : list Task) (l : Lane) (cs : list (Task * TaskResult)) : Prop :=
  exists k, cs.*1 = take k g /\ cs.*2 = out l /\ k <= length g /\
    ((Forall (fun r => OK r = true) (out l) /\ todo l = drop k g) \/
     (todo l = [] /\ exists ok r, out l = ok ++ [r] /\ Forall (fun r => OK r = true) ok /\ OK r = false)).

Lemma of_lane_snoc i calls j x :
  of_lane i (calls ++ [(j, x)]) = of_lane i calls ++ (if Nat.eqb j i then [x] else []).
Proof. unfold of_lane. rewrite List.filter_app, List.map_app. simpl. by destruct (Nat.eqb j i). Qed.

(** one turn of a lane makes one call *)
Lemma run_next_call t rest done_ w : exists r,
  out (run_next t rest done_ w).1 = done_ ++ [r] /\
  todo (run_next t rest done_ w).1 = (if OK r then rest else []) /\
  came_out t w r (run_next t rest done_ w).2.
Proof.
  unfold run_next, runOneTask, came_out, Run. destruct (bool_decide (Type_ t ∈ taskTypes)) eqn:Ht; bools.
  - destruct (runner (Type_ t) t w) as [w' [p [e|]|v]]; eexists; (split; [reflexivity|]); cbn; by split_and!.
  - eexists; (split; [reflexivity|]); cbn; by split_and!.
Qed.

Lemma lane_ok_next g t rest done_ w cs :
  lane_ok g {| todo := t :: rest; out := done_ |} cs ->
  exists r, lane_ok g (run_next t rest done_ w).1 (cs ++ [(t, r)]) /\ came_out t w r (run_next t rest done_ w).2.
Proof.
  intros (k & Hc & Ho & Hk & [[Hok Hd]|[Hd _]]); [|done]. simpl in *.
  assert (g !! k = Some t) as Hg. { rewrite <- (Nat.add_0_r k), <- lookup_drop, <- Hd. done. }
  assert (rest = drop (S k) g) as ->. { rewrite <- Nat.add_1_r, <- drop_drop, <- Hd. done. }
  apply lookup_lt_Some in Hg as Hlt. destruct (run_next_call t (drop (S k) g) done_ w) as (r & Hout & Htodo & Hcall).
  exists r. split; [|done]. exists (S k). rewrite Hout, Htodo, (take_S_r _ _ _ Hg), !fmap_app. cbn [fst snd fmap list_fmap].
  split; [by f_equal|]. split; [by f_equal|]. split; [lia|]. destruct (OK r) eqn:Er.
  - left. split; [|done]. apply Forall_app. split; [done|]. by constructor.
  - right. split; [done|]. by exists done_, r.
Qed.

Definition plan_ok (groups : list (list Task)) (w : World) (c : Config) : Prop :=
  length c.1 = length groups /\ exists calls, replay w calls c.2 /\
  forall i g l, groups !! i = Some g -> c.1 !! i = Some l -> lane_ok g l (of_lane i calls).

Lemma plan_ok_step groups w c c' : plan_ok groups w c -> step c c' -> plan_ok groups w c'.
Proof.
  intros (Hlen & calls & Hr & Hok) Hs. destruct Hs as [i t rest done_ lanes w1 Hl]. simpl in *.
  destruct (lookup_lt_is_Some_2 groups i) as [g Hg]. { rewrite <- Hlen. by eapply lookup_lt_Some. }
  destruct (lane_ok_next g t rest done_ w1 _ (Hok i g _ Hg Hl)) as (r & Hn & Hcall).
  destruct (run_next t rest done_ w1) as [l w']. simpl in *. split; [rewrite <- Hlen; apply list.length_insert|].
  exists (calls ++ [(i, (t, r))]). split; [by eapply replay_call|]. intros j g' l' Hg' Hl'. cbn [fst] in Hl'. rewrite of_lane_snoc.
  destruct (Nat.eqb_spec i j) as [<-|Hne].
  - rewrite list_lookup_insert_eq in Hl' by (by eapply lookup_lt_Some). simplify_eq. done.
  - rewrite list_lookup_insert_ne in Hl' by done. rewrite app_nil_r. by apply Hok.
Qed.

Lemma plan_ok_reach groups w c : rtc step (start groups w) c -> plan_ok groups w c.
Proof.
  intros H. eapply rtc_invariant; [|exact H|].
  - intros x y Hx Hxy. by eapply plan_ok_step.
  - unfold plan_ok, start. simpl. split; [by rewrite length_map|]. exists []. split; [constructor|]. intros i g l Hg Hl.
    rewrite list_lookup_fmap, Hg in Hl. simplify_eq/=. exists 0. split_and!; [done..|lia|]. left. split; [constructor|done].
Qed.

Lemma lane_ran g l cs : lane_ok g l cs -> todo l = [] -> ran_group g l cs.
Proof.
  intros (k & Hc & Ho & Hk & Hor) Ht. exists k. split_and!; [done..|]. destruct Hor as [[Hall Hd]|[_ Hor]]; [left|by right].
  split; [|done]. rewrite Ht in Hd. symmetry in Hd. apply (f_equal length) in Hd. rewrite length_drop in Hd. simpl in Hd. lia.
Qed.

(** *** Termination *)
Definition work (c : Config) : nat := sum_list_with (fun l => length (todo l)) c.1.

Lemma work_insert lanes i l l' : lanes !! i = Some l ->
  sum_list_with (fun l => length (todo l)) (<[i := l']> lanes) + length (todo l) =
  sum_list_with (fun l => length (todo l)) lanes + length (todo l').
Proof.
  revert i. induction lanes as [|l0 lanes IH]; intros [|i] H; try done; simpl in *.
  - injection H as ->. lia.
  - specialize (IH i H). lia.
Qed.

Lemma step_work c c' : step c c' -> work c' < work c.
Proof.
  intros Hs. destruct Hs as [i t rest done_ lanes w Hl]. destruct (run_next t rest done_ w) as [l w'] eqn:E.
  unfold work. simpl. pose proof (work_insert lanes i _ l Hl) as Hw. simpl in Hw.
  assert (length (todo l) <= length rest).
  { unfold run_next in E. destruct (runOneTask t w) as [? [? e]]. injection E as <- <-. destruct e; simpl; lia. }
  lia.
Qed.

Lemma nsteps_work n c c' : nsteps step n c c' -> n + work c' <= work c.
Proof. induction 1 as [|n x y z Hxy _ IH]; [lia|]. apply step_work in Hxy. lia. Qed.

Lemma work_start groups w : work (start groups w) = length (concat groups).
Proof. unfold work, start. simpl. induction groups as [|g gs IH]; [done|]. simpl. rewrite length_app. lia. Qed.

Lemma unfinished_step c : finished c \/ exists c', step c c'.
Proof.
  destruct c as [lanes w]. unfold finished. simpl.
  destruct (decide (Forall (fun l => todo l = []) lanes)) as [|H]; [by left|]. right.
  apply not_Forall_Exists in H; [|intros l; destruct (todo l); [left|right]; done].
  apply Exists_exists in H as (l & Hin & Hl). apply list_elem_of_lookup in Hin as [i Hi].
  destruct l as [[|t rest] done_]; [by destruct Hl|]. eexists. by econstructor.
Qed.

Lemma finishes c : exists c', rtc step c c' /\ finished c'.
Proof.
  remember (work c) as n eqn:En. revert c En. induction (lt_wf n) as [n _ IH]. intros c ->.
  destruct (unfinished_step c) as [|[c' Hs]]; [by exists c; split; [apply rtc_refl|]|].
  destruct (IH (work c') (step_work _ _ Hs) c' eq_refl) as (c2 & Hr & Hf). exists c2. split; [by eapply rtc_l|done].
Qed.

(** a plan always ends: whatever the order in which the lanes run,
    it takes at most as many turns as tasks were submitted, and from every
    point of it the plan can be run to its end. *)
Theorem plan_terminates groups w n c :
  nsteps step n (start groups w) c ->
  n <= length (concat groups) /\ exists c', rtc step c c' /\ finished c'.
Proof.
  intros H. split; [|apply finishes]. apply nsteps_work in H. rewrite work_start in H. lia.
Qed.

Lemma firstFailure_none results : firstFailure results = "" <-> Forall (fun r => OK r = true) results.
Proof.
  unfold firstFailure. destruct (List.find _ results) as [r|] eqn:E.
  - split; [intros H; exfalso; destruct (RType r); by simpl in H|]. apply find_some in E as [Hin Hr]. rewrite Forall_forall.
    intros Hall. apply list_elem_of_In in Hin. rewrite (Hall _ Hin) in Hr. done.
  - split; [|done]. intros _. apply Forall_forall. intros r Hr. apply list_elem_of_In in Hr.
    pose proof (find_none _ _ E _ Hr) as H. simpl in H. by apply negb_false_iff in H.
Qed.

Lemma of_lane_types w calls w' i : replay w calls w' -> RType <$> (of_lane i calls).*2 = Type_ <$> (of_lane i calls).*1.
Proof.
  induction 1 as [|calls w1 j t r w2 _ IH [Hc _]]; [done|]. rewrite of_lane_snoc, !fmap_app, IH. f_equal.
  destruct (Nat.eqb j i); simpl; [by rewrite Hc|done].
Qed.

(** all OK: every task of every group has its result *)
Lemma all_ran groups ls (cs : nat -> list (Task * TaskResult)) :
  length ls = length groups ->
  (forall i g l, groups !! i = Some g -> ls !! i = Some l -> ran_group g l (cs i)) ->
  (forall i, RType <$> (cs i).*2 = Type_ <$> (cs i).*1) ->
  Forall (fun r => OK r = true) (concat (map out ls)) -> RType <$> concat (map out ls) = Type_ <$> concat groups.
Proof.
  revert groups cs. induction ls as [|l ls IH]; intros [|g groups] cs Hlen Hran Hty Hall; try done. simpl in *.
  apply Forall_app in Hall as [Hl Hall]. rewrite !fmap_app. f_equal.
  - destruct (Hran 0 g l eq_refl eq_refl) as (k & Hc & Ho & [[-> _]|(ok & r & E & _ & Hr)]).
    + rewrite <- Ho, Hty, Hc. by rewrite take_ge.
    + rewrite E, Forall_app, Forall_singleton in Hl. destruct Hl as [_ Hl]. congruence.
  - apply (IH groups (fun i => cs (S i))); [lia| |done..]. intros i g' l' Hg' Hl'. by apply (Hran (S i)).
Qed.

(** C26: a finished plan is one sequence of calls, in whatever order the lanes
    ran, and each call left the result that it has to: the result is OK exactly
    when the runner of the task's type returned without an error, so a task
    that panicked, or that no runner is registered for, is a failure and never
    a missing result.  The calls of a lane are a prefix of its group, in order:
    all of it when every task is OK, and otherwise up to the first that failed.
    The plan reports success exactly when every submitted task of every group
    has an OK result. *)
Theorem plan_outcome groups w c :
  rtc step (start groups w) c -> finished c ->
  (length c.1 = length groups /\ exists calls, replay w calls c.2 /\
   forall i g l, groups !! i = Some g -> c.1 !! i = Some l -> ran_group g l (of_lane i calls)) /\
  (plan_events (ExecutePlan_results c) = [PlanStart; PlanEnd] <->
   Forall (fun r => OK r = true) (ExecutePlan_results c) /\
   RType <$> ExecutePlan_results c = Type_ <$> concat groups).
Proof.
  intros Hr Hf. apply plan_ok_reach in Hr as (Hlen & calls & Hrep & Hok).
  assert (forall i g l, groups !! i = Some g -> c.1 !! i = Some l -> ran_group g l (of_lane i calls)) as Hran.
  { intros i g l Hg Hl. apply lane_ran; [by apply Hok|]. unfold finished in Hf. rewrite Forall_lookup in Hf. by apply (Hf i). }
  split; [split; [done|]; by exists calls|].
  assert (ExecutePlan_results c = concat (map out c.1)) as Hc by apply flat_map_concat_map.
  trans (firstFailure (ExecutePlan_results c) = "").
  { unfold plan_events. destruct (String.eqb_spec (firstFailure (ExecutePlan_results c)) ""); by split. }
  rewrite firstFailure_none, Hc. split; [|by intros [? _]]. intros Hall. split; [done|].
  apply (all_ran groups c.1 (fun i => of_lane i calls)); [done..| |done]. intros i. by eapply of_lane_types.
Qed.
End Run.

(** a plan of two groups: the second task of the first one panics *)
Definition demo_task (ty : string) : Task :=
  {| Type_ := ty; RepoPath := ""; WorktreePath := ""; Params := ∅; InheritedEnv := ∅ |}.
Definition demo_groups : list (list Task) :=
  [[demo_task "db_save"; demo_task "db_reset"; demo_task "prepare"]; [demo_task "logs_purge"]].
Definition demo_runner (ty : string) (t : Task) (w : nat) : nat * outcome :=
  (S w, if String.eqb ty "db_reset" then Panicked "nil map" else Returned "{}" None).

Definition demo_end : Config :=
  let ok ty := {| RType := ty; OK := true; Message := ""; PayloadJSON := "{}" |} in
  ([{| todo := []; out := [ok "db_save"; {| RType := "db_reset"; OK := false;
                             Message := "plan:task panicked: nil map"; PayloadJSON := "" |}] |};
    {| todo := []; out := [ok "logs_purge"] |}], 3).

Lemma demo_reach : rtc (step demo_runner id) (start demo_groups 0) demo_end.
Proof.
  eapply rtc_l; [by apply (step_lane _ _ 0)|]. cbn -[taskTypes]. simpl.
  eapply rtc_l; [by apply (step_lane _ _ 1)|]. cbn -[taskTypes]. simpl.
  eapply rtc_l; [by apply (step_lane _ _ 0)|]. apply rtc_refl.
Qed.

Lemma plan_outcome_witness :
  finished demo_end /\
  ((length demo_end.1 = length demo_groups /\ exists calls, replay demo_runner 0 calls demo_end.2 /\
    forall i g l, demo_groups !! i = Some g -> demo_end.1 !! i = Some l -> ran_group g l (of_lane i calls)) /\
   (plan_events (ExecutePlan_results demo_end) = [PlanStart; PlanEnd] <->
    Forall (fun r => OK r = true) (ExecutePlan_results demo_end) /\
    RType <$> ExecutePlan_results demo_end = Type_ <$> concat demo_groups)).
Proof.
  assert (finished demo_end) as Hf by (by repeat constructor).
  split; [exact Hf|]. exact (plan_outcome demo_runner id demo_groups 0 demo_end demo_reach Hf).
Defined.

Lemma plan_terminates_witness : 0 <= length (concat demo_groups) /\
  exists c', rtc (step demo_runner id) (start demo_groups 0) c' /\ finished c'.
Proof. exact (plan_terminates demo_runner id demo_groups 0 0 _ (nsteps_O _ _)). Defined.
End Exec.

(** ** The task [config_write] *)
Module ConfigWrite.

(** one row of [config_generations] *)
Record ConfigGeneration := { gRepo : string; gPath : string; Generation : Z; Content : string }.

Record World := { files : gmap string string; generations : list ConfigGeneration; reloaded : list string }.

(** what fails: the read (other than a missing file), the history insert, the write *)
Record Faults := { read_err : option string; snapshot_err : option string; write_err : option string }.

(** COALESCE(MAX(generation), 0) + 1 over the rows of the repo and the path *)
Definition generations_of (repo path : string) (w : World) : list ConfigGeneration :=
  List.filter (fun g => String.eqb (gRepo g) repo && String.eqb (gPath g) path) (generations w).

Definition next_generation (repo path : string) (w : World) : Z :=
  match map Generation (generations_of repo path w) with
  | [] => 1
  | n :: l => (foldl Z.max n l + 1)%Z
  end.

Definition SnapshotConfig (repo path content : string) (w : World) : World :=
  {| files := files w;
     generations := generations w ++ [{| gRepo := repo; gPath := path; Generation := next_generation repo path w;
                                         Content := content |}];
     reloaded := reloaded w |}.

Definition GetConfigGeneration (repo path : string) (n : Z) (w : World) : option string :=
  Content <$> List.find (fun g => Z.eqb (Generation g) n) (generations_of repo path w).

Definition write_file (path body : string) (w : World) : World :=
  {| files := <[path := body]> (files w); generations := generations w; reloaded := reloaded w |}.

Definition reload (repo : string) (w : World) : World :=
  {| files := files w; generations := generations w; reloaded := reloaded w ++ [repo] |}.

Definition dquote : string := String (Ascii.ascii_of_nat 34) "".

(** [has_reloader]: the daemon runs with a [ConfigReloader]; in a process
    without a daemon there is none *)
Definition runTaskConfigWrite (has_reloader : bool) (f : Faults) (t : Task) (w : World)
    : World * (string * option string) :=
  let path := Param t "path" in
  let body := Param t "body" in
  if String.eqb path "" then (w, ("", Some "config_write: missing path"))
  else
    match read_err f with
    | Some e => (w, ("", Some ("config_write: read the current " +:+ path +:+ " to snapshot it: " +:+ e)))
    | None =>
        match files w !! path, snapshot_err f with
        | Some _, Some e =>
            (w, ("", Some ("config_write: snapshot the current " +:+ path +:+
                           " into config history (nothing written): " +:+ e)))
        | prev, _ =>
            let w1 := match prev with Some c => SnapshotConfig (RepoPath t) path c w | None => w end in
            match write_err f with
            | Some e => (w1, ("", Some e))
            | None =>
                let w2 := write_file path body w1 in
                (if has_reloader && negb (String.eqb (RepoPath t) "") then reload (RepoPath t) w2 else w2,
                 ("{" +:+ dquote +:+ "bytes" +:+ dquote +:+ ":" +:+ itoa (Z.of_nat (String.length body)) +:+ "}", None))
            end
        end
    end.

Definition run_writes (has_reloader : bool) (ts : list (Faults * Task)) (w : World) : World :=
  foldl (fun w ft => (runTaskConfigWrite has_reloader ft.1 ft.2 w).1) w ts.

(** the generations of a repo and a path are numbered from 1, in order *)
Definition numbered (w : World) : Prop := forall repo path,
  Generation <$> generations_of repo path w = Z.of_nat <$> seq 1 (length (generations_of repo path w)).

(** [c] can be got back: it is in the file, or a generation has it *)
Definition kept (path c : string) (w : World) : Prop :=
  files w !! path = Some c \/ exists repo n, GetConfigGeneration repo path n w = Some c.

Lemma foldl_max_seq n k : foldl Z.max (Z.of_nat n) (Z.of_nat <$> seq (S n) k) = Z.of_nat (n + k).
Proof.
  revert n. induction k as [|k IH]; intros n; simpl; [f_equal; lia|].
  replace (Z.max (Z.of_nat n) (Z.of_nat (S n))) with (Z.of_nat (S n)) by lia. rewrite IH. f_equal. lia.
Qed.

Lemma next_generation_numbered repo path w :
  numbered w -> next_generation repo path w = Z.of_nat (S (length (generations_of repo path w))).
Proof.
  intros H. unfold next_generation. specialize (H repo path). unfold fmap in H. change (list_fmap ?A ?B) with (@map A B) in H.
  rewrite H. destruct (length (generations_of repo path w)) as [|k]; [done|]. cbn [seq map fmap list_fmap].
  replace (foldl _ _ _) with (Z.of_nat (1 + k)) by (symmetry; exact (foldl_max_seq 1 k)). lia.
Qed.

Lemma generations_of_snapshot repo path c w repo' path' :
  generations_of repo' path' (SnapshotConfig repo path c w) =
  generations_of repo' path' w ++
  (if String.eqb repo repo' && String.eqb path path'
   then [{| gRepo := repo; gPath := path; Generation := next_generation repo path w; Content := c |}] else []).
Proof. unfold generations_of. simpl. rewrite List.filter_app. simpl. by destruct (_ && _). Qed.

Lemma snapshot_numbered repo path c w : numbered w -> numbered (SnapshotConfig repo path c w).
Proof.
  intros H repo' path'. rewrite generations_of_snapshot, length_app, fmap_app, (H repo' path').
  destruct (String.eqb_spec repo repo') as [<-|]; [|by rewrite app_nil_r, Nat.add_0_r].
  destruct (String.eqb_spec path path') as [<-|]; [|by rewrite app_nil_r, Nat.add_0_r]. simpl.
  rewrite seq_app, fmap_app, next_generation_numbered by done. done.
Qed.

Lemma find_app_some {A} (f : A -> bool) l1 l2 x : List.find f l1 = Some x -> List.find f (l1 ++ l2) = Some x.
Proof. induction l1 as [|y l1 IH]; [done|]. simpl. by destruct (f y). Qed.

Lemma find_app_none {A} (f : A -> bool) l1 l2 : List.find f l1 = None -> List.find f (l1 ++ l2) = List.find f l2.
Proof. induction l1 as [|y l1 IH]; [done|]. simpl. by destruct (f y). Qed.

Lemma get_snapshot_old repo path c w repo' path' n c' :
  GetConfigGeneration repo' path' n w = Some c' ->
  GetConfigGeneration repo' path' n (SnapshotConfig repo path c w) = Some c'.
Proof.
  unfold GetConfigGeneration. rewrite generations_of_snapshot. intros H.
  destruct (List.find _ (generations_of repo' path' w)) as [g|] eqn:E; [|done].
  by rewrite (find_app_some _ _ _ _ E).
Qed.

Lemma get_snapshot_new repo path c w :
  numbered w -> GetConfigGeneration repo path (next_generation repo path w) (SnapshotConfig repo path c w) = Some c.
Proof.
  intros H. unfold GetConfigGeneration. rewrite generations_of_snapshot, !String.eqb_refl. simpl.
  rewrite find_app_none; [simpl; by rewrite Z.eqb_refl|].
  destruct (List.find _ _) as [g|] eqn:E; [|done]. apply find_some in E as [Hin He]. apply Z.eqb_eq in He.
  apply list_elem_of_In, (list_elem_of_fmap_2 Generation) in Hin. rewrite (H repo path) in Hin.
  apply list_elem_of_fmap in Hin as (k & Hk & Hs). apply elem_of_seq in Hs.
  rewrite next_generation_numbered in He by done. lia.
Qed.

Lemma kept_snapshot repo path c w path' c' :
  kept path' c' w -> kept path' c' (SnapshotConfig repo path c w).
Proof. intros [H|(r & n & H)]; [by left|right]. exists r, n. by apply get_snapshot_old. Qed.

Lemma write_step hr f t w :
  numbered w -> numbered (runTaskConfigWrite hr f t w).1 /\
  (forall path c, kept path c w -> kept path c (runTaskConfigWrite hr f t w).1).
Proof.
  intros Hn. unfold runTaskConfigWrite. destruct (String.eqb_spec (Param t "path") ""); [done|].
  destruct (read_err f); [done|]. set (p := Param t "path"). set (b := Param t "body").
  assert (forall w1, numbered w1 -> (forall path c, kept path c w -> path = p -> exists r n, GetConfigGeneration r path n w1 = Some c) ->
    (forall path c, kept path c w -> kept path c w1) ->
    let w2 := write_file p b w1 in
    numbered (if hr && negb (String.eqb (RepoPath t) "") then reload (RepoPath t) w2 else w2) /\
    forall path c, kept path c w -> kept path c (if hr && negb (String.eqb (RepoPath t) "") then reload (RepoPath t) w2 else w2)) as Hw.
  { intros w1 H1 H2 H3 w2. assert (numbered w2) as Hn2 by exact H1.
    assert (forall path c, kept path c w -> kept path c w2) as Hk2.
    { intros path c Hk. destruct (decide (path = p)) as [->|Hne]; [right; by apply (H2 p c)|].
      destruct (H3 path c Hk) as [Hf|Hg]; [left|by right]. simpl. by rewrite lookup_insert_ne. }
    destruct (_ && _); [split; [exact Hn2|exact Hk2]|done]. }
  destruct (files w !! p) as [prev|] eqn:Ep.
  - destruct (snapshot_err f); [done|]. pose proof (snapshot_numbered (RepoPath t) p prev w Hn) as Hs.
    destruct (write_err f); [split; [done|]; intros path c; apply kept_snapshot|]. cbn [fst].
    apply Hw; [done| |intros path c; apply kept_snapshot]. intros path c [Hf|(r & k & Hg)] ->.
    + assert (c = prev) as -> by congruence. eexists _, _. by apply get_snapshot_new.
    + exists r, k. by apply get_snapshot_old.
  - destruct (write_err f); [done|]. cbn [fst].
    apply Hw; [done| |done]. intros path c [Hf|Hg] ->; [congruence|done].
Qed.

Lemma write_files hr f t w :
  match (runTaskConfigWrite hr f t w).2.2 with
  | Some _ => files (runTaskConfigWrite hr f t w).1 = files w
  | None => files (runTaskConfigWrite hr f t w).1 = <[Param t "path" := Param t "body"]> (files w)
  end.
Proof.
  unfold runTaskConfigWrite. destruct (String.eqb _ ""); [done|]. destruct (read_err f); [done|].
  destruct (files w !! Param t "path"), (snapshot_err f); try done; (destruct (write_err f); [done|]; cbn [fst snd];
    destruct hr; [destruct (String.eqb (RepoPath t) "")|]; reflexivity).
Qed.

Lemma writes_keep hr ts w :
  numbered w -> numbered (run_writes hr ts w) /\ forall path c, kept path c w -> kept path c (run_writes hr ts w).
Proof.
  revert w. induction ts as [|[f t] ts IH]; intros w Hn; [done|].
  destruct (write_step hr f t w Hn) as [Hn' Hk]. destruct (IH _ Hn') as [Hn2 Hk2]. split; [exact Hn2|].
  intros path c H. by apply Hk2, Hk.
Qed.

(** the configuration files never lose a version: after any sequence
    of [config_write] tasks, with any of them failing at any point, every
    content a file has had is in the file or in a numbered generation of the
    history; the generations of a file are numbered 1, 2, 3, ... without a
    gap; and a task that fails leaves every file as it was. *)
Theorem config_write_keeps_versions hr ts1 ts2 w path c :
  numbered w -> files (run_writes hr ts1 w) !! path = Some c ->
  kept path c (run_writes hr (ts1 ++ ts2) w) /\ numbered (run_writes hr (ts1 ++ ts2) w) /\
  forall f t, let r := runTaskConfigWrite hr f t (run_writes hr ts1 w) in
    match r.2.2 with
    | Some _ => files r.1 = files (run_writes hr ts1 w)
    | None => files r.1 = <[Param t "path" := Param t "body"]> (files (run_writes hr ts1 w))
    end.
Proof.
  intros Hn Hc. destruct (writes_keep hr ts1 w Hn) as [Hn1 _]. destruct (writes_keep hr ts2 _ Hn1) as [Hn2 Hk].
  assert (run_writes hr (ts1 ++ ts2) w = run_writes hr ts2 (run_writes hr ts1 w)) as -> by apply foldl_app.
  split; [by apply Hk; left|]. split; [exact Hn2|]. intros f t. apply write_files.
Qed.

(** a write, then one whose history insert fails, then one that works *)
Definition demo_world : World := {| files := {["/r/.treeman.yaml" := "a"]}; generations := []; reloaded := [] |}.
Definition demo_write (body : string) : Task :=
  {| Type_ := "config_write"; RepoPath := "/r"; WorktreePath := "";
     Params := {["path" := "/r/.treeman.yaml"; "body" := body]}; InheritedEnv := ∅ |}.
Definition no_faults : Faults := {| read_err := None; snapshot_err := None; write_err := None |}.
Definition locked_db : Faults := {| read_err := None; snapshot_err := Some "locked"; write_err := None |}.

Lemma config_write_keeps_versions_witness :
  kept "/r/.treeman.yaml" "b"
    (run_writes true ([(no_faults, demo_write "b")] ++ [(locked_db, demo_write "c"); (no_faults, demo_write "d")])
       demo_world).
Proof.
  assert (numbered demo_world) as Hn by (intros repo path; reflexivity).
  assert (files (run_writes true [(no_faults, demo_write "b")] demo_world) !! "/r/.treeman.yaml" = Some "b") as Hb
    by (vm_compute; reflexivity).
  exact (proj1 (config_write_keeps_versions true [(no_faults, demo_write "b")]
                  [(locked_db, demo_write "c"); (no_faults, demo_write "d")] demo_world "/r/.treeman.yaml" "b" Hn Hb)).
Defined.

Example demo_writes :
  let w := run_writes true [(no_faults, demo_write "b"); (locked_db, demo_write "c"); (no_faults, demo_write "d")]
             demo_world in
  files w !! "/r/.treeman.yaml" = Some "d" /\
  GetConfigGeneration "/r" "/r/.treeman.yaml" 1 w = Some "a" /\
  GetConfigGeneration "/r" "/r/.treeman.yaml" 2 w = Some "b" /\ reloaded w = ["/r"; "/r"].
Proof. vm_compute. done. Qed.
End ConfigWrite.

(** ** The task [worktree_create] *)
Module Create.

Record WorktreeCreateArgs := {
  Branch : string; From : string; Path : string;
  NoFetch : bool; SkipHooks : bool; SkipPrepare : bool; Wait : bool
}.

Definition setParam (key val : string) (params : gmap string string) : gmap string string :=
  if String.eqb val "" then params else <[key := val]> params.
Definition setFlagParam (key : string) (on : bool) (params : gmap string string) : gmap string string :=
  if on then <[key := "1"]> params else params.

(** [WorktreeCreateArgs.Task] *)
Definition CreateTask (a : WorktreeCreateArgs) (repoPath : string) (env : gmap string string) : Task :=
  {| Type_ := "worktree_create"; RepoPath := repoPath; WorktreePath := "";
     Params := setFlagParam "wait" (Wait a) (setFlagParam "skip_prepare" (SkipPrepare a)
       (setFlagParam "skip_hooks" (SkipHooks a) (setFlagParam "no_fetch" (NoFetch a)
       (setParam "path" (Path a) (setParam "from" (From a) {["branch" := Branch a]})))));
     InheritedEnv := env |}.

Definition WorktreeCreateArgsOf (t : Task) : WorktreeCreateArgs :=
  {| Branch := Param t "branch"; From := Param t "from"; Path := Param t "path";
     NoFetch := FlagParam t "no_fetch"; SkipHooks := FlagParam t "skip_hooks";
     SkipPrepare := FlagParam t "skip_prepare"; Wait := FlagParam t "wait" |}.

Lemma lookup_setParam key val m k :
  setParam key val m !! k = if decide (key = k) then (if String.eqb val "" then m !! k else Some val) else m !! k.
Proof.
  unfold setParam. case_decide as E; destruct (String.eqb val ""); try done; [subst; apply lookup_insert_eq|].
  by apply lookup_insert_ne.
Qed.

Lemma lookup_setFlagParam key on m k :
  setFlagParam key on m !! k = if decide (key = k) then (if on then Some "1" else m !! k) else m !! k.
Proof.
  unfold setFlagParam. case_decide as E; destruct on; try done; [subst; apply lookup_insert_eq|].
  by apply lookup_insert_ne.
Qed.

Lemma CreateTask_args a repo env : WorktreeCreateArgsOf (CreateTask a repo env) = a.
Proof.
  unfold WorktreeCreateArgsOf, FlagParam, Param, CreateTask. simpl.
  repeat (rewrite ?lookup_setFlagParam, ?lookup_setParam; simpl).
  rewrite !lookup_singleton. simpl. destruct a as [b f p nf sh sp wt]. simpl.
  f_equal; try (by destruct (String.eqb_spec f "")); try (by destruct (String.eqb_spec p ""));
    by repeat match goal with |- context [if ?x then _ else _] => destruct x end.
Qed.

Record CreateRequest := { RepoRoot : string; args : WorktreeCreateArgs; Env : gmap string string }.
Record CreateResult := { WtPath : string; Slug : string; RepoID : Z; WorktreeID : Z; Status : string }.

Definition with_status (x : string) (r : CreateResult) : CreateResult :=
  {| WtPath := WtPath r; Slug := Slug r; RepoID := RepoID r; WorktreeID := WorktreeID r; Status := x |}.

(** what [wt.CreateInStore] did *)
Inductive front := Made (r : CreateResult) (needsFinalize : bool) | Refused (e : string) | Panics (v : string).

(** what the task returned, and the finalize it left running *)
Inductive create_outcome :=
| CreateDone (r : CreateResult) (detached : option (string * string * bool))
| CreateFailed (e : string)
| CreatePanicked (v : string).

(** [create] and [finalize] are [wt.CreateInStore] and [FinalizeWorktree]; the
    marker [unmark] is not deferred *)
Definition runTaskWorktreeCreate (SyncFinalize : bool) (create : CreateRequest -> front)
    (finalize : string -> string -> bool -> option string) (t : Task) (s : Flight.State)
    : Flight.State * create_outcome :=
  let a := WorktreeCreateArgsOf t in
  let req := {| RepoRoot := RepoPath t; args := a; Env := InheritedEnv t |} in
  let s1 := Flight.MarkCreateInFlight (path_clean (RepoRoot req)) s in
  match create req with
  | Panics v => (s1, CreatePanicked v)
  | Refused e => (Flight.unmark_create (path_clean (RepoRoot req)) s1, CreateFailed e)
  | Made res needsFinalize =>
      let s2 := Flight.unmark_create (path_clean (RepoRoot req)) s1 in
      if negb needsFinalize then (s2, CreateDone res None)
      else if Wait a || SyncFinalize
      then match finalize (RepoRoot req) (WtPath res) (SkipPrepare a) with
           | Some e => (s2, CreateFailed ("worktree " +:+ WtPath res +:+ " was created but its setup failed: " +:+ e))
           | None => (s2, CreateDone (with_status "ready" res) None)
           end
      else (s2, CreateDone (with_status "queued" res) (Some (RepoRoot req, WtPath res, SkipPrepare a)))
  end.

Lemma unmark_mark key s : (0 <= default 0 (Flight.inFlightCreates s !! key))%Z ->
  forall k, Flight.IsCreateInFlight k (Flight.unmark_create key (Flight.MarkCreateInFlight key s)) =
            Flight.IsCreateInFlight k s.
Proof.
  intros H k. unfold Flight.IsCreateInFlight, Flight.unmark_create, Flight.MarkCreateInFlight. simpl.
  rewrite !lookup_insert_eq. simpl. set (n := default 0%Z (Flight.inFlightCreates s !! key)) in *.
  replace (n + 1 - 1)%Z with n by lia. destruct (Z.leb_spec n 0) as [Hn|Hn]; destruct (decide (key = k)) as [<-|Hne].
  - rewrite lookup_delete_eq. simpl. fold n. lia.
  - by rewrite lookup_delete_ne, lookup_insert_ne by done.
  - rewrite lookup_insert_eq. simpl. fold n. done.
  - by rewrite !lookup_insert_ne by done.
Qed.

(** a create task the CLI built runs [CreateInStore] with exactly the
    flags it was given. While the git front runs, the repository counts as
    having a create in flight; when it returns, made or refused, the register
    answers as before for every repository. A worktree that needs no tail is
    reported as it is; one whose tail is waited for is reported ready only
    when the tail succeeded; otherwise it is queued with its tail detached.
    But a panic in the git front leaves the mark: the repository counts as
    having a create in flight from then on. *)
Theorem create_task_outcome sync create finalize a repo env s :
  (forall k, 0 <= default 0 (Flight.inFlightCreates s !! k))%Z ->
  let r := runTaskWorktreeCreate sync create finalize (CreateTask a repo env) s in
  match create {| RepoRoot := repo; args := a; Env := env |} with
  | Made res needs =>
      (forall k, Flight.IsCreateInFlight k r.1 = Flight.IsCreateInFlight k s) /\
      r.2 = if negb needs then CreateDone res None
            else if Wait a || sync
            then match finalize repo (WtPath res) (SkipPrepare a) with
                 | None => CreateDone (with_status "ready" res) None
                 | Some e => CreateFailed ("worktree " +:+ WtPath res +:+ " was created but its setup failed: " +:+ e)
                 end
            else CreateDone (with_status "queued" res) (Some (repo, WtPath res, SkipPrepare a))
  | Refused e =>
      (forall k, Flight.IsCreateInFlight k r.1 = Flight.IsCreateInFlight k s) /\ r.2 = CreateFailed e
  | Panics v => Flight.IsCreateInFlight (path_clean repo) r.1 = true /\ r.2 = CreatePanicked v
  end.
Proof.
  intros H. unfold runTaskWorktreeCreate. rewrite CreateTask_args.
  change (RepoPath (CreateTask a repo env)) with repo. change (InheritedEnv (CreateTask a repo env)) with env.
  cbn [RepoRoot]. destruct (create _) as [res [|]|e|v]; cbn [negb].
  - destruct (Wait a || sync); [destruct (finalize _ _ _)|]; (split; [intros k; by apply unmark_mark|done]).
  - split; [intros k; by apply unmark_mark|done].
  - split; [intros k; by apply unmark_mark|done].
  - split; [|done]. unfold Flight.IsCreateInFlight, Flight.MarkCreateInFlight. simpl.
    rewrite lookup_insert_eq. simpl. specialize (H (path_clean repo)). lia.
Qed.

Definition demo_args : WorktreeCreateArgs :=
  {| Branch := "feat/x"; From := ""; Path := ""; NoFetch := true; SkipHooks := false; SkipPrepare := false; Wait := false |}.
Definition demo_create (_ : CreateRequest) : front := Panics "nil map".

Lemma create_task_outcome_witness :
  let r := runTaskWorktreeCreate false demo_create (fun _ _ _ => None) (CreateTask demo_args "/r/" ∅) Flight.NewState in
  Flight.IsCreateInFlight (path_clean "/r/") r.1 = true /\ r.2 = CreatePanicked "nil map".
Proof.
  refine (create_task_outcome false demo_create (fun _ _ _ => None) demo_args "/r/" ∅ Flight.NewState _).
  intros k. simpl. rewrite lookup_empty. simpl. lia.
Defined.
End Create.
