(* ===== verification/Registry.v ===== *)
(** * The registry of repositories and worktrees

    The tables [repos] and [worktrees] and the operations of
    [internal/store/store.go] and [internal/store/teardown_pending.go] on them.
    A table is the list of its rows in the order of their ids. Paths compare
    without regard to ASCII case ([COLLATE NOCASE]) in every lookup, while the
    UNIQUE constraint on a path is exact. *)
From stdpp Require Import base strings list sets gmap sorting.
From Stdlib Require Import ZArith Lia.
From S2P Require Import Prelude GoStrings.

Record RepoRow := { rID : Z; rPath : string; rName : string }.

Record WtRow := {
  ID : Z;
  RepoID : Z;
  Path : string;
  Slug : string;
  Branch : option string;
  AdminDir : option string;
  deleted_at : option Z;
  last_visited_at : option Z;
  IsMain : bool;
  teardown_error : option string
}.

Record DB := { repos : list RepoRow; worktrees : list WtRow }.

Inductive error := UniqueConflict | ForeignKey | SecondMain | NoRow.

(** [=] under [COLLATE NOCASE] *)
Definition nocase (a b : string) : bool := String.eqb (str_map to_lower a) (str_map to_lower b).

(** a fresh [INTEGER PRIMARY KEY]: one more than the largest *)
Definition next_id (ids : list Z) : Z := match ids with [] => 1 | n :: l => (foldl Z.max n l + 1)%Z end.

Definition with_worktrees (l : list WtRow) (d : DB) : DB := {| repos := repos d; worktrees := l |}.

(** [UPDATE worktrees SET ... WHERE id = ?] *)
Definition update_wt (id : Z) (f : WtRow -> WtRow) (d : DB) : DB :=
  with_worktrees (map (fun w => if Z.eqb (ID w) id then f w else w) (worktrees d)) d.

Definition active (w : WtRow) : bool := bool_decide (deleted_at w = None).

(** ** Repositories *)
Definition find_repo (path : string) (d : DB) : option RepoRow :=
  List.find (fun r => nocase (rPath r) path) (repos d).

Definition LookupRepoID (path : string) (d : DB) : Z := match find_repo path d with Some r => rID r | None => 0 end.

Definition EnsureRepo (path name : string) (d : DB) : DB * Z :=
  match find_repo path d with
  | Some r => (d, rID r)
  | None =>
      let id := next_id (map rID (repos d)) in
      ({| repos := repos d ++ [{| rID := id; rPath := path; rName := name |}]; worktrees := worktrees d |}, id)
  end.

Definition ListRepoRefs (d : DB) : list (Z * string) := map (fun r => (rID r, rPath r)) (repos d).
Definition ListRepoPaths (d : DB) : list string := map rPath (repos d).

Definition RepoPath (repoID : Z) (d : DB) : string :=
  if Z.leb repoID 0 then ""
  else match List.find (fun r => Z.eqb (rID r) repoID) (repos d) with Some r => rPath r | None => "" end.

(** the rows of the other tables it deletes are not modelled here *)
Definition RemoveRepo (repoID : Z) (d : DB) : DB :=
  {| repos := List.filter (fun r => negb (Z.eqb (rID r) repoID)) (repos d);
     worktrees := List.filter (fun w => negb (Z.eqb (RepoID w) repoID)) (worktrees d) |}.

(** ** Worktrees *)
Definition find_wt (path : string) (d : DB) : option WtRow :=
  List.find (fun w => nocase (Path w) path) (worktrees d).

(** "" is stored as NULL *)
Definition nullable (s : string) : option string := if String.eqb s "" then None else Some s.

(** does [refresh] have anything to write? *)
Definition needs_update (slug branch adminDir : string) (w : WtRow) : bool :=
  negb (String.eqb (Slug w) slug) || bool_decide (is_Some (deleted_at w)) ||
  (negb (String.eqb branch "") && negb (String.eqb (default "" (Branch w)) branch)) ||
  (negb (String.eqb adminDir "") && negb (String.eqb (default "" (AdminDir w)) adminDir)).

(** [COALESCE(?, column)] *)
Definition coalesce {A} (new old : option A) : option A := match new with Some _ => new | None => old end.

Definition refreshed (slug branch adminDir : string) (w : WtRow) : WtRow :=
  {| ID := ID w; RepoID := RepoID w; Path := Path w; Slug := slug;
     Branch := coalesce (nullable branch) (Branch w); AdminDir := coalesce (nullable adminDir) (AdminDir w);
     deleted_at := None; last_visited_at := last_visited_at w; IsMain := IsMain w; teardown_error := None |}.

(** the partial unique index: one active main row per repo *)
Definition main_clash (w : WtRow) (d : DB) : bool :=
  IsMain w && active w &&
  existsb (fun x => IsMain x && active x && Z.eqb (RepoID x) (RepoID w) && negb (Z.eqb (ID x) (ID w))) (worktrees d).

(** [UPDATE worktrees SET ... WHERE id = ?] of the row [w], which may violate the index *)
Definition update_checked (f : WtRow -> WtRow) (w : WtRow) (d : DB) : DB * res error Z :=
  if main_clash (f w) d then (d, Err SecondMain) else (update_wt (ID w) f d, Ok (ID w)).

Definition refresh (slug branch adminDir : string) (w : WtRow) (d : DB) : DB * res error Z :=
  if needs_update slug branch adminDir w then update_checked (refreshed slug branch adminDir) w d else (d, Ok (ID w)).

(** the row is read again by its id *)
Definition refresh_id (slug branch adminDir : string) (id : Z) (d : DB) : DB * res error Z :=
  match List.find (fun w => Z.eqb (ID w) id) (worktrees d) with
  | Some w => refresh slug branch adminDir w d
  | None => (d, Err NoRow)
  end.

(** the constraints an INSERT is checked against *)
Definition insert_wt (mk : Z -> WtRow) (d : DB) : DB * res error Z :=
  let w := mk (next_id (map ID (worktrees d))) in
  if existsb (fun x => String.eqb (Path x) (Path w)) (worktrees d) then (d, Err UniqueConflict)
  else if main_clash w d then (d, Err SecondMain)
  else if existsb (fun r => Z.eqb (rID r) (RepoID w)) (repos d)
  then (with_worktrees (worktrees d ++ [w]) d, Ok (ID w))
  else (d, Err ForeignKey).

Definition new_wt (repoID : Z) (path slug branch adminDir : string) (main : bool) (id : Z) : WtRow :=
  {| ID := id; RepoID := repoID; Path := path; Slug := slug; Branch := nullable branch;
     AdminDir := nullable adminDir; deleted_at := None; last_visited_at := None; IsMain := main;
     teardown_error := None |}.

(** the SELECT sees [d], the INSERT and what follows see [d']: what other
    writers did in between is in [d'] *)
Definition EnsureWorktreeRace (repoID : Z) (path slug branch adminDir : string) (d d' : DB) : DB * res error Z :=
  match find_wt path d with
  | Some w => refresh_id slug branch adminDir (ID w) d'
  | None =>
      match insert_wt (new_wt repoID path slug branch adminDir false) d' with
      | (d2, Err UniqueConflict) =>
          match find_wt path d2 with
          | Some w => refresh_id slug branch adminDir (ID w) d2
          | None => (d2, Err UniqueConflict)
          end
      | r => r
      end
  end.

Definition EnsureWorktreeWithAdmin (repoID : Z) (path slug branch adminDir : string) (d : DB) : DB * res error Z :=
  EnsureWorktreeRace repoID path slug branch adminDir d d.

Definition EnsureWorktree (repoID : Z) (path slug branch : string) (d : DB) : DB * res error Z :=
  EnsureWorktreeWithAdmin repoID path slug branch "" d.

Definition made_main (slug branch : string) (w : WtRow) : WtRow :=
  {| ID := ID w; RepoID := RepoID w; Path := Path w; Slug := slug;
     Branch := coalesce (nullable branch) (Branch w); AdminDir := AdminDir w;
     deleted_at := None; last_visited_at := last_visited_at w; IsMain := true;
     teardown_error := teardown_error w |}.

Definition EnsureMainWorktree (repoID : Z) (path slug branch : string) (d : DB) : DB * res error Z :=
  match find_wt path d with
  | Some w => update_checked (made_main slug branch) w d
  | None => insert_wt (new_wt repoID path slug branch "" true) d
  end.

Definition MarkWorktreeDeleted (now id : Z) (d : DB) : DB :=
  update_wt id (fun w => {| ID := ID w; RepoID := RepoID w; Path := Path w; Slug := Slug w; Branch := Branch w;
    AdminDir := AdminDir w; deleted_at := Some now; last_visited_at := last_visited_at w; IsMain := IsMain w;
    teardown_error := teardown_error w |}) d.

Definition SetWorktreeAdminDir (id : Z) (adminDir : string) (d : DB) : DB :=
  if Z.leb id 0 || String.eqb adminDir "" then d
  else update_wt id (fun w => {| ID := ID w; RepoID := RepoID w; Path := Path w; Slug := Slug w; Branch := Branch w;
    AdminDir := Some adminDir; deleted_at := deleted_at w; last_visited_at := last_visited_at w; IsMain := IsMain w;
    teardown_error := teardown_error w |}) d.

Definition TouchWorktreeVisited (now id : Z) (d : DB) : DB :=
  if Z.leb id 0 then d
  else update_wt id (fun w => {| ID := ID w; RepoID := RepoID w; Path := Path w; Slug := Slug w; Branch := Branch w;
    AdminDir := AdminDir w; deleted_at := deleted_at w; last_visited_at := Some now; IsMain := IsMain w;
    teardown_error := teardown_error w |}) d.

Definition TouchWorktreeVisitedByPath (now : Z) (path : string) (d : DB) : DB :=
  match List.find (fun w => nocase (Path w) path && active w) (worktrees d) with
  | Some w => TouchWorktreeVisited now (ID w) d
  | None => d
  end.

Definition set_error (e : option string) (w : WtRow) : WtRow :=
  {| ID := ID w; RepoID := RepoID w; Path := Path w; Slug := Slug w; Branch := Branch w;
     AdminDir := AdminDir w; deleted_at := deleted_at w; last_visited_at := last_visited_at w; IsMain := IsMain w;
     teardown_error := e |}.

Definition SetTeardownError (id : Z) (msg : string) (d : DB) : DB := update_wt id (set_error (Some msg)) d.
Definition ClearTeardownError (id : Z) (d : DB) : DB := update_wt id (set_error None) d.

(** ** Queries *)

(** [ORDER BY id DESC LIMIT 1] *)
Definition newest (p : WtRow -> bool) (d : DB) : option WtRow :=
  pick_best p (fun x y => Z.ltb (ID y) (ID x)) (worktrees d).

Definition LookupMainWorktree (repoID : Z) (d : DB) : option WtRow :=
  newest (fun w => Z.eqb (RepoID w) repoID && IsMain w && active w) d.
Definition LookupActiveWorktreeByPath (path : string) (d : DB) : option WtRow :=
  newest (fun w => nocase (Path w) path && active w) d.
Definition LookupWorktreeByAdminDir (adminDir : string) (d : DB) : option WtRow :=
  newest (fun w => bool_decide (AdminDir w = Some adminDir)) d.
Definition LookupWorktreeByPath (path : string) (d : DB) : option WtRow := newest (fun w => nocase (Path w) path) d.

Definition ListWorktreesForRepo (repoID : Z) (d : DB) : list WtRow :=
  List.filter (fun w => Z.eqb (RepoID w) repoID) (worktrees d).
Definition CountActiveWorktreesForRepo (repoID : Z) (d : DB) : nat :=
  length (List.filter (fun w => Z.eqb (RepoID w) repoID && active w) (worktrees d)).

(** the join with [repos] keeps the rows whose repo exists *)
Definition has_repo (d : DB) (w : WtRow) : bool := existsb (fun r => Z.eqb (rID r) (RepoID w)) (repos d).
Definition ActiveWorktreePage (afterID : Z) (limit : nat) (d : DB) : list WtRow :=
  take limit (List.filter (fun w => active w && has_repo d w && Z.ltb afterID (ID w)) (worktrees d)).
Definition ListActiveWorktrees (d : DB) : list (string * string) :=
  map (fun w => (RepoPath (RepoID w) d, Path w)) (List.filter (fun w => active w && has_repo d w) (worktrees d)).

(** [ORDER BY last_visited_at DESC LIMIT 1]: the first of the latest *)
Definition PrevVisitedWorktree (repoID : Z) (exceptPath : string) (d : DB) : option string :=
  Path <$> pick_best
    (fun w => Z.eqb (RepoID w) repoID && active w && negb (String.eqb (Path w) exceptPath) &&
              bool_decide (is_Some (last_visited_at w)))
    (fun x y => Z.ltb (default 0%Z (last_visited_at y)) (default 0%Z (last_visited_at x))) (worktrees d).

Definition WorktreePathByID (id : Z) (d : DB) : string :=
  if Z.leb id 0 then "" else match List.find (fun w => Z.eqb (ID w) id) (worktrees d) with Some w => Path w | None => "" end.
Definition WorktreeBranch (id : Z) (d : DB) : string :=
  if Z.leb id 0 then ""
  else match List.find (fun w => Z.eqb (ID w) id) (worktrees d) with Some w => default "" (Branch w) | None => "" end.

(** a deleted worktree whose databases are still to be dropped; not one whose
    slug a live worktree of the repo has taken *)
Definition pending (d : DB) (w : WtRow) : bool :=
  bool_decide (is_Some (teardown_error w)) && negb (active w) &&
  negb (existsb (fun l => String.eqb (Slug l) (Slug w) && Z.eqb (RepoID l) (RepoID w) && active l) (worktrees d)).
Definition ListPendingTeardowns (repoID : Z) (d : DB) : list WtRow :=
  List.filter (fun w => Z.eqb (RepoID w) repoID && pending d w) (worktrees d).

(** ** Finding a worktree by name *)

(** the characters a [LIKE] wildcard steps over: a whole UTF-8 sequence *)
Definition cont_byte (c : ascii) : bool := N.eqb (N.land (Ascii.N_of_ascii c) 192) 128.
Fixpoint skip_cont (s : string) : string :=
  match s with String c s' => if cont_byte c then skip_cont s' else s | EmptyString => EmptyString end.
Definition next_char (c : ascii) (rest : string) : string :=
  if N.leb 192 (Ascii.N_of_ascii c) then skip_cont rest else rest.

(** [LIKE]: [%] matches any text, [_] any one character, letters in either case *)
Fixpoint like (p : string) : string -> bool :=
  match p with
  | EmptyString => fun s => String.eqb s ""
  | String c p' =>
      if Ascii.eqb c "%" then
        fix any (s : string) := like p' s || match s with EmptyString => false | String _ s' => any s' end
      else if Ascii.eqb c "_" then
        fun s => match s with EmptyString => false | String d s' => like p' (next_char d s') end
      else
        fun s => match s with EmptyString => false
                 | String d s' => Ascii.eqb (to_lower c) (to_lower d) && like p' s' end
  end.

Inductive kind := KBranch | KSlug | KBasename.

#[export] Instance kind_eq_dec : EqDecision kind.
Proof. solve_decision. Defined.

Record WorktreeMatch := { mRow : WtRow; Kind : kind }.

(** the WHERE clause and the CASE of [LookupWorktreeMatches] *)
Definition hits (repoID : Z) (name : string) (w : WtRow) : bool :=
  active w &&
  (String.eqb (Slug w) name || bool_decide (Branch w = Some name) || like (String "%" (String "/" name)) (Path w)) &&
  (Z.leb repoID 0 || Z.eqb (RepoID w) repoID).

Definition kind_of (name : string) (w : WtRow) : kind :=
  if bool_decide (Branch w = Some name) then KBranch else if String.eqb (Slug w) name then KSlug else KBasename.

(** [ORDER BY id DESC] *)
Definition LookupWorktreeMatches (repoID : Z) (name : string) (d : DB) : list WorktreeMatch :=
  map (fun w => {| mRow := w; Kind := kind_of name w |}) (rev (List.filter (hits repoID name) (worktrees d))).

Fixpoint pick_kind (kinds : list kind) (matches : list WorktreeMatch) : list WorktreeMatch :=
  match kinds with
  | [] => []
  | k :: kinds' =>
      let hit := List.filter (fun m => bool_decide (Kind m = k)) matches in
      if bool_decide (hit = []) then pick_kind kinds' matches else hit
  end.
Definition pickByRank : list WorktreeMatch -> list WorktreeMatch := pick_kind [KBranch; KSlug; KBasename].

Inductive found := NoMatch | Found (id : Z) | Ambiguous (candidates : list WorktreeMatch).

Definition LookupWorktreeID (repoID : Z) (name : string) (d : DB) : found :=
  match LookupWorktreeMatches repoID name d with
  | [] => NoMatch
  | matches => match pickByRank matches with [m] => Found (ID (mRow m)) | winners => Ambiguous winners end
  end.

(** ** Histories *)
Inductive op :=
| ORepo (path name : string)
| OWorktree (repoID : Z) (path slug branch adminDir : string)
| OMain (repoID : Z) (path slug branch : string)
| ODelete (now id : Z)
| OAdminDir (id : Z) (adminDir : string)
| OVisit (now id : Z)
| OVisitPath (now : Z) (path : string)
| OError (id : Z) (msg : string)
| OClear (id : Z)
| ORemove (repoID : Z).

Definition exec (o : op) (d : DB) : DB :=
  match o with
  | ORepo path name => (EnsureRepo path name d).1
  | OWorktree r path slug branch adminDir => (EnsureWorktreeWithAdmin r path slug branch adminDir d).1
  | OMain r path slug branch => (EnsureMainWorktree r path slug branch d).1
  | ODelete now id => MarkWorktreeDeleted now id d
  | OAdminDir id a => SetWorktreeAdminDir id a d
  | OVisit now id => TouchWorktreeVisited now id d
  | OVisitPath now path => TouchWorktreeVisitedByPath now path d
  | OError id msg => SetTeardownError id msg d
  | OClear id => ClearTeardownError id d
  | ORemove r => RemoveRepo r d
  end.

Definition run (h : list op) (d : DB) : DB := foldl (fun d o => exec o d) d h.
Definition empty : DB := {| repos := []; worktrees := [] |}.

(** ** Well-formed registries *)
Definition fold_path (s : string) : string := str_map to_lower s.

Record wf (d : DB) : Prop := {
  wf_rids : StronglySorted Z.lt (map rID (repos d));
  wf_rpos : forall r, r ∈ repos d -> (0 < rID r)%Z;
  wf_rpaths : NoDup (map (fun r => fold_path (rPath r)) (repos d));
  wf_ids : StronglySorted Z.lt (map ID (worktrees d));
  wf_pos : forall w, w ∈ worktrees d -> (0 < ID w)%Z;
  wf_paths : NoDup (map (fun w => fold_path (Path w)) (worktrees d));
  wf_fk : forall w, w ∈ worktrees d -> exists r, r ∈ repos d /\ rID r = RepoID w;
  wf_main : forall w w', w ∈ worktrees d -> w' ∈ worktrees d -> IsMain w = true -> IsMain w' = true ->
            active w = true -> active w' = true -> RepoID w = RepoID w' -> ID w = ID w'
}.

Lemma wf_empty : wf empty.
Proof. split; simpl; try constructor; by intros ? ?%elem_of_nil || intros ? ? ?%elem_of_nil. Qed.

Lemma sorted_filter {A} (R : relation A) (f : A -> bool) l : StronglySorted R l -> StronglySorted R (List.filter f l).
Proof.
  induction 1 as [|x l Hs IH Hx]; simpl; [constructor|]. destruct (f x); [|done]. constructor; [done|].
  rewrite Forall_forall in *. intros y Hy. apply Hx. apply list_elem_of_In, filter_In in Hy as [Hy _].
  by apply list_elem_of_In.
Qed.

Lemma map_filter_sorted {A} (g : A -> Z) (f : A -> bool) l :
  StronglySorted Z.lt (map g l) -> StronglySorted Z.lt (map g (List.filter f l)).
Proof.
  induction l as [|x l IH]; simpl; intros H; [constructor|]. apply StronglySorted_inv in H as [Hs Hx].
  destruct (f x); simpl; [|by apply IH]. constructor; [by apply IH|]. rewrite Forall_forall in *.
  intros y Hy. apply Hx. apply list_elem_of_fmap in Hy as (z & -> & Hz).
  apply list_elem_of_fmap_2. apply list_elem_of_In, filter_In in Hz as [Hz _]. by apply list_elem_of_In.
Qed.

Lemma map_filter_NoDup {A B} (g : A -> B) (f : A -> bool) l : NoDup (map g l) -> NoDup (map g (List.filter f l)).
Proof.
  induction l as [|x l IH]; simpl; intros H; [constructor|]. apply NoDup_cons in H as [Hx H].
  destruct (f x); simpl; [|by apply IH]. apply NoDup_cons. split; [|by apply IH]. intros Hin. apply Hx.
  apply list_elem_of_fmap in Hin as (z & -> & Hz). apply list_elem_of_fmap_2.
  apply list_elem_of_In, filter_In in Hz as [Hz _]. by apply list_elem_of_In.
Qed.

Lemma next_id_above ids x : x ∈ ids -> (x < next_id ids)%Z.
Proof.
  assert (forall l n, (n <= foldl Z.max n l)%Z /\ forall y, y ∈ l -> (y <= foldl Z.max n l)%Z) as Hm.
  { induction l as [|y l IH]; intros n; simpl; [split; [lia|by intros ? ?%elem_of_nil]|].
    destruct (IH (Z.max n y)) as [H1 H2]. split; [lia|]. intros z [->|Hz]%elem_of_cons; [lia|by apply H2]. }
  destruct ids as [|n l]; [by intros ?%elem_of_nil|]. simpl. destruct (Hm l n) as [H1 H2].
  intros [->|Hx]%elem_of_cons; [lia|]. specialize (H2 x Hx). lia.
Qed.

Lemma next_id_pos ids : (forall x, x ∈ ids -> 0 < x)%Z -> (0 < next_id ids)%Z.
Proof.
  destruct ids as [|n l]; [simpl; lia|]. intros H. specialize (H n ltac:(set_solver)).
  pose proof (next_id_above (n :: l) n ltac:(set_solver)). lia.
Qed.

Lemma sorted_snoc l x : StronglySorted Z.lt l -> (forall y, y ∈ l -> y < x)%Z -> StronglySorted Z.lt (l ++ [x]).
Proof.
  induction 1 as [|y l Hs IH Hy]; intros H; simpl; [by repeat constructor|].
  constructor; [apply IH; set_solver|]. apply Forall_app. split; [done|]. constructor; [|done]. apply H. set_solver.
Qed.

Lemma sorted_NoDup (l : list Z) : StronglySorted Z.lt l -> NoDup l.
Proof.
  induction 1 as [|x l Hs IH Hx]; constructor; [|done]. intros Hin. rewrite Forall_forall in Hx.
  specialize (Hx x Hin). lia.
Qed.

Lemma NoDup_map_inj {A B} (g : A -> B) l x y : NoDup (map g l) -> x ∈ l -> y ∈ l -> g x = g y -> x = y.
Proof.
  induction l as [|z l IH]; simpl; [by intros _ ?%elem_of_nil|]. intros [Hz Hn]%NoDup_cons Hx Hy E.
  apply elem_of_cons in Hx as [->|Hx], Hy as [->|Hy]; auto.
  - destruct Hz. rewrite E. by apply list_elem_of_fmap_2.
  - destruct Hz. rewrite <- E. by apply list_elem_of_fmap_2.
Qed.

Lemma wf_id_inj d w w' : wf d -> w ∈ worktrees d -> w' ∈ worktrees d -> ID w = ID w' -> w = w'.
Proof. intros Hwf. apply NoDup_map_inj, sorted_NoDup, (wf_ids d Hwf). Qed.

Lemma elem_of_update id f d w :
  w ∈ worktrees (update_wt id f d) <-> exists w0, w0 ∈ worktrees d /\ w = if Z.eqb (ID w0) id then f w0 else w0.
Proof.
  unfold update_wt. simpl. rewrite list_elem_of_fmap. split; [intros (w0 & -> & H)|intros (w0 & H & ->)]; by exists w0.
Qed.

(** an update keeps what identifies a row *)
Definition keeps_key (f : WtRow -> WtRow) : Prop :=
  forall w, ID (f w) = ID w /\ RepoID (f w) = RepoID w /\ Path (f w) = Path w.

Lemma map_update {B} (g : WtRow -> B) id f d :
  (forall w, g (f w) = g w) -> map g (worktrees (update_wt id f d)) = map g (worktrees d).
Proof.
  intros H. unfold update_wt. simpl. rewrite map_map. apply map_ext. intros w. destruct (Z.eqb _ _); [apply H|done].
Qed.

Lemma main_clash_false w d : main_clash w d = false <->
  (IsMain w = true -> active w = true -> forall x, x ∈ worktrees d -> IsMain x = true -> active x = true ->
   RepoID x = RepoID w -> ID x = ID w).
Proof.
  unfold main_clash. destruct (IsMain w), (active w); simpl; try (by split).
  rewrite <- not_true_iff_false, existsb_elem. split.
  - intros H _ _ x Hx Hm Ha Hr. destruct (Z.eqb_spec (ID x) (ID w)) as [|Hne]; [done|]. destruct H. exists x.
    split; [done|]. rewrite Hm, Ha, Hr, Z.eqb_refl. simpl. by apply negb_true_iff, Z.eqb_neq.
  - intros H (x & Hx & [[[Hm Ha]%andb_prop Hr]%andb_prop Hi]%andb_prop). apply Z.eqb_eq in Hr.
    apply negb_true_iff, Z.eqb_neq in Hi. destruct Hi. by apply H.
Qed.

Lemma wf_update id f d :
  wf d -> keeps_key f ->
  (forall w, w ∈ worktrees d -> ID w = id -> main_clash (f w) d = false) ->
  wf (update_wt id f d).
Proof.
  intros Hwf Hk Hc. split; try apply Hwf.
  - rewrite map_update by apply Hk. apply Hwf.
  - intros w (w0 & Hw & ->)%elem_of_update. destruct (Z.eqb _ _); [rewrite (proj1 (Hk w0))|]; by apply (wf_pos d).
  - rewrite map_update; [apply Hwf|]. intros w. by destruct (Hk w) as (_ & _ & ->).
  - intros w (w0 & Hw & ->)%elem_of_update. destruct (Z.eqb _ _); [destruct (Hk w0) as (_ & -> & _)|];
      by apply (wf_fk d).
  - intros w w' (w0 & Hw & ->)%elem_of_update (w1 & Hw' & ->)%elem_of_update.
    destruct (Hk w0) as (Hi0 & Hr0 & _), (Hk w1) as (Hi1 & Hr1 & _).
    destruct (Z.eqb_spec (ID w0) id) as [E0|], (Z.eqb_spec (ID w1) id) as [E1|]; intros Hm0 Hm1 Ha0 Ha1 Hr.
    + congruence.
    + symmetry. pose proof (proj1 (main_clash_false _ _) (Hc w0 Hw E0)) as H. apply H; congruence.
    + pose proof (proj1 (main_clash_false _ _) (Hc w1 Hw' E1)) as H. apply H; congruence.
    + by eapply (wf_main d).
Qed.

(** an update that does not turn a row into an active main one *)
Lemma no_new_main id f d :
  wf d -> keeps_key f -> (forall w, IsMain (f w) = true -> active (f w) = true -> IsMain w = true /\ active w = true) ->
  forall w, w ∈ worktrees d -> ID w = id -> main_clash (f w) d = false.
Proof.
  intros Hwf Hk Hm w Hw _. apply main_clash_false. intros H1 H2 x Hx Hxm Hxa Hr.
  destruct (Hm w H1 H2), (Hk w) as (Hi & Hrr & _). rewrite Hi. eapply (wf_main d); eauto. congruence.
Qed.

Lemma wf_update_quiet id f d :
  wf d -> keeps_key f -> (forall w, IsMain (f w) = true -> active (f w) = true -> IsMain w = true /\ active w = true) ->
  wf (update_wt id f d).
Proof. intros Hwf Hk Hm. apply wf_update; [done..|]. by apply no_new_main. Qed.

Lemma wf_update_checked f w d :
  wf d -> keeps_key f -> w ∈ worktrees d -> wf (update_checked f w d).1.
Proof.
  intros Hwf Hk Hw. unfold update_checked. destruct (main_clash (f w) d) eqn:E; [done|]. simpl.
  apply wf_update; [done..|]. intros w' Hw' Hi. by rewrite (wf_id_inj d w' w).
Qed.

Lemma wf_refresh slug branch admin w d : wf d -> w ∈ worktrees d -> wf (refresh slug branch admin w d).1.
Proof. intros Hwf Hw. unfold refresh. destruct (needs_update _ _ _ _); [by apply wf_update_checked|done]. Qed.

Lemma find_id_elem id d w : List.find (fun w => Z.eqb (ID w) id) (worktrees d) = Some w -> w ∈ worktrees d /\ ID w = id.
Proof. intros [H E]%find_some. split; [by apply list_elem_of_In|by apply Z.eqb_eq]. Qed.

Lemma refresh_id_found slug branch admin w d : wf d -> w ∈ worktrees d ->
  refresh_id slug branch admin (ID w) d = refresh slug branch admin w d.
Proof.
  intros Hwf Hw. unfold refresh_id. destruct (List.find _ _) as [x|] eqn:E.
  - apply find_id_elem in E as [Hx Hi]. by rewrite (wf_id_inj d x w).
  - apply list_elem_of_In in Hw. pose proof (find_none _ _ E _ Hw) as Hn. simpl in Hn. by rewrite Z.eqb_refl in Hn.
Qed.

Lemma wf_refresh_id slug branch admin id d : wf d -> wf (refresh_id slug branch admin id d).1.
Proof.
  intros Hwf. unfold refresh_id. destruct (List.find _ _) as [w|] eqn:E; [|done]. apply find_id_elem in E as [Hw _]. by apply wf_refresh.
Qed.

Lemma elem_of_snoc {A} (x y : A) l : x ∈ l ++ [y] <-> x ∈ l \/ x = y.
Proof. by rewrite elem_of_app, list_elem_of_singleton. Qed.

Lemma wf_insert_row mk d :
  wf d -> (forall i, ID (mk i) = i) -> (forall i, find_wt (Path (mk i)) d = None) -> wf (insert_wt mk d).1.
Proof.
  intros Hwf Hi Hp. unfold insert_wt. set (n := next_id _). set (w := mk n). destruct (existsb _ _); [done|].
  destruct (main_clash w d) eqn:Ec; [done|]. destruct (existsb (fun r => _) (repos d)) eqn:Er; [|done]. simpl.
  assert (ID w = n) as Ew by apply Hi. split; simpl; try apply Hwf.
  - rewrite map_app. simpl. apply sorted_snoc; [apply Hwf|]. intros y Hy. rewrite Ew. by apply next_id_above.
  - intros x [Hx| ->]%elem_of_snoc; [by apply (wf_pos d)|]. rewrite Ew. apply next_id_pos.
    intros y (z & -> & Hz)%list_elem_of_fmap. by apply (wf_pos d).
  - rewrite map_app. apply NoDup_app. split; [apply Hwf|]. split; [|simpl; apply NoDup_singleton].
    intros x (y & -> & Hy)%list_elem_of_fmap Hx. apply list_elem_of_singleton in Hx.
    pose proof (Hp n) as Hn. unfold find_wt in Hn. apply list_elem_of_In in Hy.
    pose proof (find_none _ _ Hn _ Hy) as Hf. simpl in Hf. unfold nocase in Hf. apply String.eqb_neq in Hf. by apply Hf.
  - intros x [Hx| ->]%elem_of_snoc; [by apply (wf_fk d)|].
    apply existsb_elem in Er as (r & Hr & E). apply Z.eqb_eq in E. by exists r.
  - intros x x' [Hx| ->]%elem_of_snoc [Hx'| ->]%elem_of_snoc Hm Hm' Ha Ha' Hr.
    + by eapply (wf_main d).
    + by eapply main_clash_false.
    + symmetry. by eapply main_clash_false.
    + done.
Qed.

Lemma find_wt_elem path d w : find_wt path d = Some w -> w ∈ worktrees d /\ nocase (Path w) path = true.
Proof. intros [H ?]%find_some. split; [by apply list_elem_of_In|done]. Qed.

Lemma insert_err mk d e : (insert_wt mk d).2 = Err e -> (insert_wt mk d).1 = d.
Proof. unfold insert_wt. by repeat (destruct (_ : bool)). Qed.

Lemma wf_exec o d : wf d -> wf (exec o d).
Proof.
  intros Hwf. destruct o as [p n|r p sl br ad|r p sl br|now id|id ad|now id|now p|id msg|id|r]; simpl.
  - unfold EnsureRepo. destruct (find_repo p d) eqn:E; [done|]. split; simpl; try apply Hwf.
    + rewrite map_app. apply sorted_snoc; [apply Hwf|]. intros y Hy. by apply next_id_above.
    + intros x [Hx| ->]%elem_of_snoc; [by apply (wf_rpos d)|]. simpl. apply next_id_pos.
      intros y (z & -> & Hz)%list_elem_of_fmap. by apply (wf_rpos d).
    + rewrite map_app. apply NoDup_app. split; [apply Hwf|]. split; [|simpl; apply NoDup_singleton].
      intros x (y & -> & Hy)%list_elem_of_fmap Hx. apply list_elem_of_singleton in Hx. apply list_elem_of_In in Hy.
      pose proof (find_none _ _ E _ Hy) as Hf. simpl in Hf. unfold nocase in Hf. by apply String.eqb_neq in Hf.
    + intros w Hw. destruct (wf_fk d Hwf w Hw) as (r & Hr & ?). exists r. split; [set_solver|done].
  - unfold EnsureWorktreeWithAdmin, EnsureWorktreeRace. destruct (find_wt p d) as [w|] eqn:E.
    + by apply wf_refresh_id.
    + destruct (insert_wt _ d) as [d2 r2] eqn:Ei. assert (wf d2) as Hwf2.
      { change d2 with ((d2, r2).1). rewrite <- Ei. by apply wf_insert_row. }
      destruct r2 as [id|[]]; simpl; try done. destruct (find_wt p d2) as [w|]; [|done].
      by apply wf_refresh_id.
  - unfold EnsureMainWorktree. destruct (find_wt p d) as [w|] eqn:E; [|by apply wf_insert_row].
    apply find_wt_elem in E as [E _]. by apply wf_update_checked.
  - apply wf_update_quiet; [done..|]. by intros w.
  - unfold SetWorktreeAdminDir. destruct (_ || _); [done|]. by apply wf_update_quiet.
  - unfold TouchWorktreeVisited. destruct (Z.leb _ _); [done|]. by apply wf_update_quiet.
  - unfold TouchWorktreeVisitedByPath. destruct (List.find _ _); [|done].
    unfold TouchWorktreeVisited. destruct (Z.leb _ _); [done|]. by apply wf_update_quiet.
  - by apply wf_update_quiet.
  - by apply wf_update_quiet.
  - split; simpl.
    + apply map_filter_sorted, Hwf.
    + intros x Hx. apply list_elem_of_In, filter_In in Hx as [Hx _]. by apply (wf_rpos d), list_elem_of_In.
    + apply map_filter_NoDup, Hwf.
    + apply map_filter_sorted, Hwf.
    + intros x Hx. apply list_elem_of_In, filter_In in Hx as [Hx _]. by apply (wf_pos d), list_elem_of_In.
    + apply map_filter_NoDup, Hwf.
    + intros w Hw. apply list_elem_of_In, filter_In in Hw as [Hw Hn]. apply list_elem_of_In in Hw.
      destruct (wf_fk d Hwf w Hw) as (r0 & Hr & E). exists r0. split; [|done].
      apply list_elem_of_In, filter_In. split; [by apply list_elem_of_In|]. by rewrite E.
    + intros w w' Hw Hw'. apply list_elem_of_In, filter_In in Hw as [Hw _], Hw' as [Hw' _].
      apply list_elem_of_In in Hw, Hw'. by apply (wf_main d).
Qed.

Lemma run_snoc h o d : run (h ++ [o]) d = exec o (run h d).
Proof. unfold run. by rewrite foldl_snoc. Qed.

Lemma wf_run h d : wf d -> wf (run h d).
Proof. intros Hwf. induction h as [|o h IH] using rev_ind; [done|]. rewrite run_snoc. by apply wf_exec. Qed.

(** C22: after every history of operations on the registry, ids
    are positive and increase with the row, no two rows have paths that
    differ only in case, every worktree belongs to a repository of the
    registry, and no repository has two active main worktrees.  The operations
    run one after the other; of registrations that race and of repairs, which
    find a path by its exact text, [WtReg.keyed_calls] shows that no two rows
    have the same id or the same path. *)
Theorem registry_wf h : wf (run h empty).
Proof. apply wf_run, wf_empty. Qed.

(** ** Registering a worktree *)
Lemma nocase_fold a b : nocase a b = true <-> fold_path a = fold_path b.
Proof. apply String.eqb_eq. Qed.

Lemma path_unique d w w' path :
  wf d -> w ∈ worktrees d -> w' ∈ worktrees d -> nocase (Path w) path = true -> nocase (Path w') path = true -> w = w'.
Proof.
  intros Hwf Hw Hw' H H'. eapply (NoDup_map_inj _ _ _ _ (wf_paths d Hwf)); [done..|].
  apply nocase_fold in H, H'. congruence.
Qed.

Lemma newest_spec p d : best_of p (fun x y => Z.ltb (ID y) (ID x)) (worktrees d) (newest p d).
Proof. apply pick_best_spec; intros; lia. Qed.

Lemma lookup_active d w path :
  wf d -> w ∈ worktrees d -> nocase (Path w) path = true -> active w = true ->
  LookupActiveWorktreeByPath path d = Some w.
Proof.
  intros Hwf Hw Hp Ha. unfold LookupActiveWorktreeByPath.
  pose proof (newest_spec (fun w => nocase (Path w) path && active w) d) as H. destruct (newest _ d) as [x|]; simpl in H.
  - destruct H as (Hx & [Hxp _]%andb_prop & _). f_equal. by eapply path_unique.
  - specialize (H w Hw). rewrite Hp, Ha in H. done.
Qed.

(** a row as the caller of [EnsureWorktree] wants it *)
Definition registered_as (slug branch admin : string) (w : WtRow) : Prop :=
  Slug w = slug /\ active w = true /\ (branch <> "" -> Branch w = Some branch) /\
  (admin <> "" -> AdminDir w = Some admin).

Lemma needs_update_false slug branch admin w :
  needs_update slug branch admin w = false <-> registered_as slug branch admin w.
Proof.
  unfold needs_update, registered_as, active. rewrite !orb_false_iff, negb_false_iff, String.eqb_eq.
  rewrite bool_decide_eq_false, bool_decide_eq_true, eq_None_not_Some.
  assert (forall (s : string) (o : option string),
            negb (String.eqb s "") && negb (String.eqb (default "" o) s) = false <-> (s <> "" -> o = Some s)) as Hc.
  { intros s o. destruct (String.eqb_spec s "") as [->|Hs]; [by split|]. simpl.
    rewrite negb_false_iff, String.eqb_eq. split; [|by intros ->].
    intros H _. destruct o as [x|]; simpl in H; congruence. }
  rewrite !Hc. tauto.
Qed.

Lemma refreshed_registered slug branch admin w : registered_as slug branch admin (refreshed slug branch admin w).
Proof.
  split; [done|]. split; [done|]. unfold refreshed, nullable. simpl.
  split; intros H; [by destruct (String.eqb_spec branch "")|by destruct (String.eqb_spec admin "")].
Qed.

(** what [EnsureWorktree] promises of the registry [d'] it leaves behind in place of [d] *)
Record ensured (path slug branch admin : string) (id : Z) (d d' : DB) : Prop := {
  en_row : exists w, LookupActiveWorktreeByPath path d' = Some w /\ ID w = id /\
             registered_as slug branch admin w /\
             ((forall x, x ∈ worktrees d -> ID x = id -> active x = false) -> teardown_error w = None);
  en_others : forall x, x ∈ worktrees d -> ID x <> id -> x ∈ worktrees d';
  en_new : forall x, x ∈ worktrees d' -> x ∈ worktrees d \/ ID x = id;
  en_repos : repos d' = repos d
}.

Lemma refresh_ensured path slug branch admin w d id :
  wf d -> find_wt path d = Some w -> (refresh slug branch admin w d).2 = Ok id ->
  ensured path slug branch admin id d (refresh slug branch admin w d).1.
Proof.
  intros Hwf Hf Hr. apply find_wt_elem in Hf as [Hw Hp].
  pose proof (wf_refresh slug branch admin w d Hwf Hw) as Hwf'. unfold refresh in *.
  destruct (needs_update slug branch admin w) eqn:En.
  - unfold update_checked in *. destruct (main_clash _ d); [done|]. simpl in *. injection Hr as <-. split.
    + exists (refreshed slug branch admin w). split; [|split; [done|]; split; [apply refreshed_registered|done]].
      apply lookup_active; [done| |done|done]. apply elem_of_update. exists w. by rewrite Z.eqb_refl.
    + intros x Hx Hne. apply elem_of_update. exists x. split; [done|]. by destruct (Z.eqb_spec (ID x) (ID w)).
    + intros x (x0 & Hx & ->)%elem_of_update. destruct (Z.eqb_spec (ID x0) (ID w)); [by right|by left].
    + done.
  - simpl in *. injection Hr as <-. apply needs_update_false in En as Hreg. split; [|done|by left|done].
    exists w. split; [by apply lookup_active; [| | |apply Hreg]|]. split; [done|]. split; [done|].
    intros H. specialize (H w Hw eq_refl). destruct Hreg as (_ & Ha & _). congruence.
Qed.

Lemma insert_ensured path slug branch admin repo d id :
  wf d -> find_wt path d = None -> (insert_wt (new_wt repo path slug branch admin false) d).2 = Ok id ->
  ensured path slug branch admin id d (insert_wt (new_wt repo path slug branch admin false) d).1.
Proof.
  intros Hwf Hf Hr. pose proof (wf_insert_row (new_wt repo path slug branch admin false) d Hwf (fun _ => eq_refl) (fun _ => Hf)) as Hwf'.
  unfold insert_wt in *. set (n := next_id _) in *. set (w := new_wt repo path slug branch admin false n) in *.
  destruct (existsb _ (worktrees d)); [done|]. destruct (main_clash w d); [done|].
  destruct (existsb _ (repos d)); [|done]. simpl in *. injection Hr as <-. split; simpl.
  - exists w. split; [apply lookup_active; [done|set_solver| |done]; by apply nocase_fold|]. split; [done|].
    split; [|done]. split; [done|]. split; [done|]. unfold w, new_wt, nullable. simpl.
    split; intros H; [by destruct (String.eqb_spec branch "")|by destruct (String.eqb_spec admin "")].
  - set_solver.
  - intros x [Hx| ->]%elem_of_snoc; [by left|by right].
  - done.
Qed.

Lemma ensure_ok repo path slug branch admin d id :
  wf d -> (EnsureWorktreeWithAdmin repo path slug branch admin d).2 = Ok id ->
  ensured path slug branch admin id d (EnsureWorktreeWithAdmin repo path slug branch admin d).1.
Proof.
  intros Hwf. unfold EnsureWorktreeWithAdmin, EnsureWorktreeRace. destruct (find_wt path d) as [w|] eqn:E.
  - apply find_wt_elem in E as Hw. rewrite refresh_id_found by (done || apply Hw). by apply refresh_ensured.
  - pose proof (insert_ensured path slug branch admin repo d) as H.
    pose proof (insert_err (new_wt repo path slug branch admin false) d) as He.
    destruct (insert_wt _ d) as [d2 [id'|[]]]; simpl in *; intros Hr; [by apply H| |done..].
    rewrite (He _ eq_refl) in *. by rewrite E in Hr.
Qed.

Lemma ensure_err repo path slug branch admin d e :
  (EnsureWorktreeWithAdmin repo path slug branch admin d).2 = Err e ->
  (EnsureWorktreeWithAdmin repo path slug branch admin d).1 = d.
Proof.
  unfold EnsureWorktreeWithAdmin, EnsureWorktreeRace. assert (forall id, (refresh_id slug branch admin id d).2 = Err e ->
    (refresh_id slug branch admin id d).1 = d) as Hr.
  { intros id. unfold refresh_id, refresh, update_checked. destruct (List.find _ _); [|done].
    destruct (needs_update _ _ _ _); [|done]. by destruct (main_clash _ _). }
  destruct (find_wt path d) as [w|] eqn:E; [apply Hr|].
  pose proof (insert_err (new_wt repo path slug branch admin false) d) as He.
  destruct (insert_wt _ d) as [d2 [id|[]]]; simpl in *; intros H; try done; try (by eapply He).
  rewrite (He _ eq_refl) in *. by rewrite E in *.
Qed.

Lemma ensure_found repo path slug branch admin d w :
  wf d -> find_wt path d = Some w -> EnsureWorktreeWithAdmin repo path slug branch admin d = refresh slug branch admin w d.
Proof.
  intros Hwf H. unfold EnsureWorktreeWithAdmin, EnsureWorktreeRace. rewrite H. apply find_wt_elem in H as [H _]. by apply refresh_id_found.
Qed.

Lemma ensure_again repo path slug branch admin d id :
  wf d -> (EnsureWorktreeWithAdmin repo path slug branch admin d).2 = Ok id ->
  let d' := (EnsureWorktreeWithAdmin repo path slug branch admin d).1 in
  EnsureWorktreeWithAdmin repo path slug branch admin d' = (d', Ok id).
Proof.
  intros Hwf Hr d'. assert (wf d') as Hwf' by exact (wf_exec (OWorktree repo path slug branch admin) d Hwf).
  destruct (ensure_ok repo path slug branch admin d id Hwf Hr) as [(w & Hl & Hi & Hreg & _) _ _ _]. fold d' in Hl.
  pose proof (newest_spec (fun w => nocase (Path w) path && active w) d') as Hn.
  unfold LookupActiveWorktreeByPath in Hl. rewrite Hl in Hn. destruct Hn as (Hw & [Hp Ha]%andb_prop & _).
  assert (find_wt path d' = Some w) as Hf.
  { destruct (find_wt path d') as [x|] eqn:E.
    - apply find_wt_elem in E as [Hx Hxp]. f_equal. by eapply path_unique.
    - unfold find_wt in E. apply list_elem_of_In in Hw. pose proof (find_none _ _ E _ Hw). simpl in *. congruence. }
  rewrite (ensure_found _ _ _ _ _ _ _ ltac:(done) Hf). unfold refresh. apply needs_update_false in Hreg. by rewrite Hreg, Hi.
Qed.

(** registering a worktree: on success the path has an active row
    with the id returned, with the slug, and with the branch and admin
    directory unless they were given as empty; a row that was deleted loses its
    pending teardown; every other row stays; doing it again changes nothing.
    On an error nothing changes. A caller that finds no row and loses the
    insert race to a row of the same path gets what it would have got by
    coming after the winner. *)
Theorem EnsureWorktree_registers repo path slug branch admin d :
  wf d ->
  let r := EnsureWorktreeWithAdmin repo path slug branch admin d in
  match r.2 with
  | Ok id => ensured path slug branch admin id d r.1 /\
             EnsureWorktreeWithAdmin repo path slug branch admin r.1 = (r.1, Ok id)
  | Err _ => r.1 = d
  end /\
  (forall d0 w, find_wt path d0 = None -> w ∈ worktrees d -> Path w = path ->
   EnsureWorktreeRace repo path slug branch admin d0 d = r).
Proof.
  intros Hwf r. split.
  - destruct r.2 as [id|e] eqn:E.
    + split; [by apply ensure_ok|by apply ensure_again].
    + by apply (ensure_err repo path slug branch admin d e).
  - intros d0 w H0 Hw Hp. unfold r. assert (find_wt path d = Some w) as Hf.
    { destruct (find_wt path d) as [x|] eqn:E.
      - apply find_wt_elem in E as [Hx Hxp]. f_equal. eapply path_unique; [done..|]. apply nocase_fold. by rewrite Hp.
      - apply list_elem_of_In in Hw. pose proof (find_none _ _ E _ Hw) as Hn. simpl in Hn.
        apply not_true_iff_false in Hn. destruct Hn. apply nocase_fold. by rewrite Hp. }
    rewrite (ensure_found _ _ _ _ _ _ _ ltac:(done) Hf). unfold EnsureWorktreeRace. rewrite H0.
    assert (insert_wt (new_wt repo path slug branch admin false) d = (d, Err UniqueConflict)) as ->; [|rewrite Hf; apply find_wt_elem in Hf as [Hf _]; by apply refresh_id_found].
    unfold insert_wt. set (n := next_id _). destruct (existsb _ (worktrees d)) eqn:E; [done|].
    apply not_true_iff_false in E. destruct E. apply existsb_elem. exists w. split; [done|]. simpl.
    by apply String.eqb_eq.
Qed.

(** a repository, and a worktree of it that was deleted while its databases could not be dropped *)
Definition demo_history : list op :=
  [ORepo "/r" "r"; OWorktree 1 "/r/.worktrees/X" "x" "feat/x" ""; OError 1 "postgres is down"; ODelete 7 1].
Definition demo : DB := run demo_history empty.

Lemma EnsureWorktree_registers_witness :
  let r := EnsureWorktreeWithAdmin 1 "/R/.worktrees/x" "x" "" "/r/.git/worktrees/x" demo in
  ensured "/R/.worktrees/x" "x" "" "/r/.git/worktrees/x" 1 demo r.1 /\
  EnsureWorktreeWithAdmin 1 "/R/.worktrees/x" "x" "" "/r/.git/worktrees/x" r.1 = (r.1, Ok 1%Z).
Proof.
  exact (proj1 (EnsureWorktree_registers 1 "/R/.worktrees/x" "x" "" "/r/.git/worktrees/x" demo
                  (wf_run demo_history empty wf_empty))).
Defined.

(** ** Pending teardowns *)

(** does the worktree [id] have an active row? *)
Definition alive (id : Z) (d : DB) : bool := existsb (fun w => Z.eqb (ID w) id && active w) (worktrees d).

(** is the operation one that makes a row the main worktree? *)
Definition not_main (o : op) : bool := match o with OMain _ _ _ _ => false | _ => true end.

(** where the error of a row comes from: the same row before, which was then
    alive if it is now, unless the row may have been brought back ([back]) *)
Definition inherits (back : bool) (d : DB) (w : WtRow) (msg : string) : Prop :=
  exists w0, w0 ∈ worktrees d /\ ID w0 = ID w /\ teardown_error w0 = Some msg /\ (back = false -> active w = true -> active w0 = true).

Lemma inherits_same back d w msg : w ∈ worktrees d -> teardown_error w = Some msg -> inherits back d w msg.
Proof. intros. by exists w. Qed.

Lemma inherits_update back id f d w msg :
  (forall w, ID (f w) = ID w) ->
  (forall w, teardown_error (f w) = Some msg -> teardown_error w = Some msg /\ (back = false -> active (f w) = true -> active w = true)) ->
  w ∈ worktrees (update_wt id f d) -> teardown_error w = Some msg -> inherits back d w msg.
Proof.
  intros Hi Hf (w0 & Hw & ->)%elem_of_update He. exists w0. split; [done|].
  destruct (Z.eqb _ _); [|done]. destruct (Hf _ He). by rewrite Hi.
Qed.

Lemma inherits_insert back mk d w msg :
  (forall i, teardown_error (mk i) = None) -> w ∈ worktrees (insert_wt mk d).1 -> teardown_error w = Some msg ->
  inherits back d w msg.
Proof.
  intros Hmk. unfold insert_wt. destruct (existsb _ _); [by apply inherits_same|].
  destruct (main_clash _ _); [by apply inherits_same|]. destruct (existsb _ _); [|by apply inherits_same].
  simpl. intros [Hw| ->]%elem_of_snoc He; [by apply inherits_same|by rewrite Hmk in He].
Qed.

Lemma inherits_checked back f w0 d w msg :
  (forall w, ID (f w) = ID w) ->
  (forall w, teardown_error (f w) = Some msg -> teardown_error w = Some msg /\ (back = false -> active (f w) = true -> active w = true)) ->
  w ∈ worktrees (update_checked f w0 d).1 -> teardown_error w = Some msg -> inherits back d w msg.
Proof. intros Hi Hf. unfold update_checked. destruct (main_clash _ _); [by apply inherits_same|]. by apply inherits_update. Qed.

Lemma inherits_refresh back slug branch admin id d w msg :
  w ∈ worktrees (refresh_id slug branch admin id d).1 -> teardown_error w = Some msg -> inherits back d w msg.
Proof.
  unfold refresh_id, refresh, update_checked. destruct (List.find _ _); [|by apply inherits_same]. destruct (needs_update _ _ _ _); [|by apply inherits_same].
  destruct (main_clash _ _); [by apply inherits_same|]. by apply inherits_update.
Qed.

Local Ltac inherit Hw := eapply inherits_update; [..|exact Hw|done]; [done|intros ?; simpl; done].

(** a registration never carries the error over to a row that it brings back *)
Lemma race_error repo path slug branch admin d0 d w msg :
  w ∈ worktrees (EnsureWorktreeRace repo path slug branch admin d0 d).1 -> teardown_error w = Some msg -> inherits false d w msg.
Proof.
  intros Hw He. unfold EnsureWorktreeRace in Hw. destruct (find_wt path d0) as [w0|]; [by eapply inherits_refresh|].
  pose proof (inherits_insert false (new_wt repo path slug branch admin false) d) as Hi.
  pose proof (insert_err (new_wt repo path slug branch admin false) d) as Hie.
  destruct (insert_wt _ d) as [d2 [id|[]]]; simpl in *; try by apply Hi.
  rewrite (Hie _ eq_refl) in *. destruct (find_wt path d); [by eapply inherits_refresh|by apply inherits_same].
Qed.

Lemma exec_error o d w msg :
  w ∈ worktrees (exec o d) -> teardown_error w = Some msg ->
  o = OError (ID w) msg \/ o <> OClear (ID w) /\ inherits (negb (not_main o)) d w msg.
Proof.
  intros Hw He. destruct o as [p n|r p sl br ad|r p sl br|now id|id ad|now id|now p|id m|id|r]; simpl in *.
  - right. split; [done|]. apply inherits_same; [|done]. unfold EnsureRepo in Hw. by destruct (find_repo p d).
  - right. split; [done|]. by eapply race_error.
  - right. split; [done|]. unfold EnsureMainWorktree in Hw. destruct (find_wt p d) as [w0|].
    + eapply inherits_checked; [..|exact Hw|done]; [done|]. intros x. simpl. done.
    + by eapply inherits_insert; [|exact Hw|].
  - right. split; [done|]. inherit Hw.
  - right. split; [done|]. unfold SetWorktreeAdminDir in Hw. destruct (_ || _); [by apply inherits_same|inherit Hw].
  - right. split; [done|]. unfold TouchWorktreeVisited in Hw. destruct (Z.leb _ _); [by apply inherits_same|inherit Hw].
  - right. split; [done|]. unfold TouchWorktreeVisitedByPath, TouchWorktreeVisited in Hw. destruct (List.find _ _);
      [|by apply inherits_same]. destruct (Z.leb _ _); [by apply inherits_same|inherit Hw].
  - unfold SetTeardownError in Hw. apply elem_of_update in Hw as (w0 & Hw & ->).
    destruct (Z.eqb_spec (ID w0) id) as [<-|]; [left|right; split; [done|by apply inherits_same]]. simpl in *. congruence.
  - right. split; [|inherit Hw]. intros [= E]. unfold ClearTeardownError in Hw. apply elem_of_update in Hw as (w0 & Hw & ->).
    destruct (Z.eqb_spec (ID w0) id) as [Ei|Ei]; [done|]. congruence.
  - right. split; [done|]. apply inherits_same; [|done]. apply list_elem_of_In, filter_In in Hw as [Hw _]. by apply list_elem_of_In.
Qed.

(** [EnsureMainWorktree] brings a deleted row back without
    dropping its pending teardown, as [EnsureWorktree] does: a main worktree
    whose purge failed once, and that was enabled again, comes back into the
    retry queue the moment it is disabled, with the error of its earlier life;
    registering the same row with [EnsureWorktree] instead leaves the queue empty. *)
Theorem main_revival_keeps_error now1 now2 msg :
  let before := [ORepo "/r" "r"; OMain 1 "/r" "main_main" "main"; OError 1 msg; ODelete now1 1] in
  map ID (ListPendingTeardowns 1 (run (before ++ [OMain 1 "/r" "main_main" "main"; ODelete now2 1]) empty)) = [1%Z] /\
  ListPendingTeardowns 1 (run (before ++ [OWorktree 1 "/r" "main_main" "main" ""; ODelete now2 1]) empty) = [].
Proof. vm_compute. by split. Qed.

(** ** The worktree a name stands for *)
Definition rank (k : kind) : nat := match k with KBranch => 0 | KSlug => 1 | KBasename => 2 end.

Lemma pickByRank_spec l :
  (pickByRank l = [] /\ l = []) \/
  (pickByRank l <> [] /\ exists k, pickByRank l = List.filter (fun m => bool_decide (Kind m = k)) l /\
                                  forall m, m ∈ l -> rank k <= rank (Kind m)).
Proof.
  assert (forall k m, m ∈ l -> List.filter (fun m => bool_decide (Kind m = k)) l = [] -> Kind m <> k) as Hno.
  { intros k m Hm H E. assert (m ∈ List.filter (fun m => bool_decide (Kind m = k)) l) as Hin; [|rewrite H in Hin; by apply elem_of_nil in Hin].
    apply list_elem_of_In, filter_In. split; [by apply list_elem_of_In|by apply bool_decide_eq_true]. }
  unfold pickByRank, pick_kind. case_bool_decide as Hb; [case_bool_decide as Hs; [case_bool_decide as Hp|]|].
  - left. split; [done|]. destruct l as [|m l]; [done|]. exfalso.
    pose proof (Hno KBranch m ltac:(set_solver) Hb). pose proof (Hno KSlug m ltac:(set_solver) Hs).
    pose proof (Hno KBasename m ltac:(set_solver) Hp). by destruct (Kind m).
  - right. split; [done|]. exists KBasename. split; [done|]. intros m Hm.
    pose proof (Hno KBranch m Hm Hb). pose proof (Hno KSlug m Hm Hs). by destruct (Kind m).
  - right. split; [done|]. exists KSlug. split; [done|]. intros m Hm.
    pose proof (Hno KBranch m Hm Hb). destruct (Kind m); simpl; [done|lia..].
  - right. split; [done|]. exists KBranch. split; [done|]. intros. simpl. lia.
Qed.

Lemma elem_of_matches repoID name d m :
  m ∈ LookupWorktreeMatches repoID name d <->
  mRow m ∈ worktrees d /\ hits repoID name (mRow m) = true /\ Kind m = kind_of name (mRow m).
Proof.
  unfold LookupWorktreeMatches. rewrite list_elem_of_fmap. split.
  - intros (w & -> & Hw). simpl. apply list_elem_of_In, in_rev, filter_In in Hw as [Hw Hh].
    split; [by apply list_elem_of_In|done].
  - intros (Hw & Hh & Hk). exists (mRow m). split; [destruct m; simpl in *; by subst|].
    apply list_elem_of_In, in_rev. rewrite rev_involutive. apply filter_In. split; [by apply list_elem_of_In|done].
Qed.

(** *** [LIKE '%/name'] *)
Definition plain (c : ascii) : bool := negb (Ascii.eqb c "%") && negb (Ascii.eqb c "_").

Lemma like_plain p s : str_all plain p = true -> like p s = String.eqb (fold_path p) (fold_path s).
Proof.
  revert s. induction p as [|c p IH]; intros s; simpl; [by destruct s|]. intros [[H1 H2]%andb_prop H]%andb_prop.
  apply negb_true_iff in H1, H2. rewrite H1, H2. destruct s as [|d s]; [done|]. rewrite IH by done.
  unfold fold_path. simpl. by destruct (Ascii.eqb _ _).
Qed.

Lemma like_any p s : like (String "%" p) s = true <-> exists a b, s = a +:+ b /\ like p b = true.
Proof.
  induction s as [|c s IH]; [split|].
  - simpl. rewrite orb_false_r. by exists "", "".
  - intros (a & b & E & H). destruct a; [|done]. simpl in E. subst b. simpl. by rewrite H.
  - change (like (String "%" p) (String c s)) with (like p (String c s) || like (String "%" p) s).
    rewrite orb_true_iff, IH. split.
    + intros [H|(a & b & -> & H)]; [by exists "", (String c s)|by exists (String c a), b].
    + intros ([|c' a] & b & E & H); simpl in E; [left; by subst|]. injection E as -> ->. right. by exists a, b.
Qed.

Lemma fold_path_app a b : fold_path (a +:+ b) = fold_path a +:+ fold_path b.
Proof. unfold fold_path. induction a as [|c a IH]; [done|]. simpl. by rewrite IH. Qed.

Lemma like_basename name path : str_all plain name = true ->
  like (String "%" (String "/" name)) path = true <-> exists dir, fold_path path = dir +:+ "/" +:+ fold_path name.
Proof.
  intros Hp. rewrite like_any. split.
  - intros (a & b & -> & H). rewrite like_plain in H by done. apply String.eqb_eq in H.
    exists (fold_path a). by rewrite fold_path_app, <- H.
  - intros (dir & E). exists (str_take (String.length dir) path), (str_drop (String.length dir) path).
    split; [by rewrite str_take_drop|]. rewrite like_plain by done. apply String.eqb_eq.
    assert (String.length path = String.length (fold_path path)) as Hlen.
    { clear. unfold fold_path. induction path as [|c s IH]; simpl; congruence. }
    assert (fold_path (str_take (String.length dir) path) = dir /\
            fold_path (str_drop (String.length dir) path) = "/" +:+ fold_path name) as [_ ->]; [|done].
    assert (forall s, String.length (fold_path s) = String.length s) as Hl.
    { clear. unfold fold_path. induction s as [|c s IH]; simpl; congruence. }
    apply str_app_inj_len; [|by rewrite <- fold_path_app, str_take_drop].
    rewrite Hl, str_length_take, Hlen, E, !str_length_app. lia.
Qed.

Lemma LookupWorktreeID_spec repoID name d :
  match LookupWorktreeID repoID name d with
  | NoMatch => forall w, w ∈ worktrees d -> hits repoID name w = false
  | Found id => exists w, w ∈ worktrees d /\ ID w = id /\ hits repoID name w = true /\
      forall w', w' ∈ worktrees d -> hits repoID name w' = true -> w' = w \/ rank (kind_of name w) < rank (kind_of name w')
  | Ambiguous l => 2 <= length l /\ exists k, forall m, m ∈ l ->
      mRow m ∈ worktrees d /\ hits repoID name (mRow m) = true /\ kind_of name (mRow m) = k /\
      forall w', w' ∈ worktrees d -> hits repoID name w' = true -> rank k <= rank (kind_of name w')
  end.
Proof.
  unfold LookupWorktreeID. set (ms := LookupWorktreeMatches repoID name d).
  assert (forall w, w ∈ worktrees d -> hits repoID name w = true -> {| mRow := w; Kind := kind_of name w |} ∈ ms) as Hall.
  { intros w Hw Hh. by apply elem_of_matches. }
  destruct (pickByRank_spec ms) as [[Hp Hms]|(Hne & k & Hp & Hk)].
  - rewrite Hms. intros w Hw. apply not_true_iff_false. intros Hh. specialize (Hall w Hw Hh). rewrite Hms in Hall.
    by apply elem_of_nil in Hall.
  - destruct ms as [|m0 ms0] eqn:Ems; [done|]. rewrite <- Ems in *. clear Ems m0 ms0.
    assert (forall m, m ∈ pickByRank ms -> m ∈ ms /\ Kind m = k) as Hin.
    { intros m Hm. rewrite Hp in Hm. apply list_elem_of_In, filter_In in Hm as [Hm Hd].
      apply bool_decide_eq_true in Hd. split; [by apply list_elem_of_In|done]. }
    assert (forall w', w' ∈ worktrees d -> hits repoID name w' = true ->
              rank k < rank (kind_of name w') \/ {| mRow := w'; Kind := kind_of name w' |} ∈ pickByRank ms) as Hr.
    { intros w' Hw' Hh'. pose proof (Hall w' Hw' Hh') as Hm. pose proof (Hk _ Hm) as Hle. simpl in Hle.
      destruct (decide (kind_of name w' = k)) as [E|E].
      - right. rewrite Hp. apply list_elem_of_In, filter_In. split; [by apply list_elem_of_In|by apply bool_decide_eq_true].
      - left. destruct k, (kind_of name w'); simpl in *; try done; lia. }
    destruct (pickByRank ms) as [|m [|m' l]] eqn:E; [done| |].
    + destruct (Hin m) as [Hm Hkm]; [set_solver|]. apply elem_of_matches in Hm as (Hw & Hh & Hkk).
      exists (mRow m). split; [done|]. split; [done|]. split; [done|]. intros w' Hw' Hh'.
      destruct (Hr w' Hw' Hh') as [Hlt|Hi]; [right; by rewrite <- Hkk, Hkm|left].
      apply list_elem_of_singleton in Hi. by rewrite <- Hi.
    + split; [simpl; lia|]. exists k. intros x Hx. destruct (Hin x Hx) as [Hm Hkm].
      apply elem_of_matches in Hm as (Hw & Hh & Hkk). split; [done|]. split; [done|]. split; [by rewrite <- Hkk|].
      intros w' Hw' Hh'. exact (Hk _ (Hall w' Hw' Hh')).
Qed.

Lemma LookupWorktreeID_found repoID name d id :
  LookupWorktreeID repoID name d = Found id ->
  exists w, w ∈ worktrees d /\ ID w = id /\ hits repoID name w = true.
Proof. intros E. pose proof (LookupWorktreeID_spec repoID name d) as H. rewrite E in H. naive_solver. Qed.

(** the worktree a user's [name] stands for: an active row of the
    repository whose branch, slug or path matches it; a branch beats a slug,
    a slug beats a directory; the answer is unique in its rank or refused as
    ambiguous, and nothing is found only when no row matches. A name without
    [%] and [_] matches a path exactly when it is its last part, up to case;
    but [_] stands for any character: the name [feat_x] finds the worktree in
    the directory [feat-x]. *)
Theorem LookupWorktreeID_ranks repoID name d :
  match LookupWorktreeID repoID name d with
  | NoMatch => forall w, w ∈ worktrees d -> hits repoID name w = false
  | Found id => exists w, w ∈ worktrees d /\ ID w = id /\ hits repoID name w = true /\
      forall w', w' ∈ worktrees d -> hits repoID name w' = true -> w' = w \/ rank (kind_of name w) < rank (kind_of name w')
  | Ambiguous l => 2 <= length l /\ exists k, forall m, m ∈ l ->
      mRow m ∈ worktrees d /\ hits repoID name (mRow m) = true /\ kind_of name (mRow m) = k /\
      forall w', w' ∈ worktrees d -> hits repoID name w' = true -> rank k <= rank (kind_of name w')
  end /\
  (forall path, str_all plain name = true ->
     like (String "%" (String "/" name)) path = true <-> exists dir, fold_path path = dir +:+ "/" +:+ fold_path name) /\
  LookupWorktreeID 1 "feat_x"
    (run [ORepo "/r" "r"; OWorktree 1 "/r/.worktrees/feat-x" "pathhash" "main" ""] empty) = Found 1.
Proof.
  split; [apply LookupWorktreeID_spec|]. split; [by intros; apply like_basename|reflexivity].
Qed.
