(* ===== verification/WtReg.v ===== *)
(** * Repairing the registry

    [internal/wtreg/wtreg.go]: the registry of a repository is reconciled with
    the worktrees git knows. The reconciliation runs in one transaction, which
    is rolled back when any row failed. The last part has the histories of
    everything that writes the registry, repairs and registrations that race
    with others included, and what they leave for the retry of failed
    teardowns. *)
From stdpp Require Import base strings list sets gmap sorting.
From Stdlib Require Import ZArith Lia.
From S2P Require Import Prelude GoStrings Lines Slug Registry.

(** ** What git knows: [GitWorktreePaths] *)

(** an entry of [.git/worktrees]: its name, whether it is a directory, and
    its [gitdir] file, if it can be read *)
Record Entry := { eName : string; eIsDir : bool; gitdir : option string }.

Definition entry_path (repoRoot : string) (e : Entry) : option string :=
  if negb (eIsDir e) then None
  else match gitdir e with
       | None => None
       | Some b =>
           let p := TrimSpace b in
           let dir := path_join (path_join (path_join repoRoot ".git") "worktrees") (eName e) in
           let p := if is_abs p then p else path_join dir p in
           let p := trim_suffix (path_clean p) "/.git" in
           if String.eqb p "" || String.eqb p repoRoot then None else Some p
       end.

(** [entries]: [None] when the directory does not exist *)
Definition GitWorktreePaths (entries : option (list Entry)) (exists_ : string -> bool) (repoRoot : string) : list string :=
  match entries with
  | None => []
  | Some es => List.filter exists_ (omap (entry_path repoRoot) es)
  end.

(** ** [Repair] *)
Record RepairResult := { Registered : list string; Unregistered : list string; Errors : list (string * error) }.

Definition no_result : RepairResult := {| Registered := []; Unregistered := []; Errors := [] |}.

(** [loadRepairRows]: the live rows of the repository, by path *)
Definition loadRepairRows (repoID : Z) (d : DB) : list WtRow :=
  List.filter (fun w => Z.eqb (RepoID w) repoID && active w) (worktrees d).

Definition known (p : string) (rows : list WtRow) : bool := existsb (fun w => String.eqb (Path w) p) rows.

Definition revived (slug branch : string) (now : Z) (w : WtRow) : WtRow :=
  {| ID := ID w; RepoID := RepoID w; Path := Path w; Slug := slug; Branch := nullable branch;
     AdminDir := AdminDir w; deleted_at := None; last_visited_at := Some now; IsMain := IsMain w;
     teardown_error := teardown_error w |}.

Definition registered (repoID : Z) (p slug branch : string) (now id : Z) : WtRow :=
  {| ID := id; RepoID := repoID; Path := p; Slug := slug; Branch := nullable branch; AdminDir := None;
     deleted_at := None; last_visited_at := Some now; IsMain := false; teardown_error := None |}.

Definition buried (now : Z) (w : WtRow) : WtRow :=
  {| ID := ID w; RepoID := RepoID w; Path := Path w; Slug := Slug w; Branch := Branch w;
     AdminDir := AdminDir w; deleted_at := Some now; last_visited_at := last_visited_at w; IsMain := IsMain w;
     teardown_error := teardown_error w |}.

Section Repair.
(** what [Slug.For] needs, and how the branch of a checkout is read *)
Context (blake3 : string -> string) (suffix : string) (getwd : option string) (detectBranch : string -> string).
Context (repoRoot : string) (repoID now : Z).

Definition register_one (rows : list WtRow) (st : DB * RepairResult) (p : string) : DB * RepairResult :=
  let '(d, out) := st in
  if known p rows || String.eqb p repoRoot then st
  else
    let branch := detectBranch p in
    let slug := Value (For blake3 suffix getwd p branch) in
    let '(d', r) := match List.find (fun w => String.eqb (Path w) p) (worktrees d) with
                    | Some w => update_checked (revived slug branch now) w d
                    | None => insert_wt (registered repoID p slug branch now) d
                    end in
    match r with
    | Ok _ => (d', {| Registered := Registered out ++ [p]; Unregistered := Unregistered out; Errors := Errors out |})
    | Err e => (d', {| Registered := Registered out; Unregistered := Unregistered out; Errors := Errors out ++ [(p, e)] |})
    end.

Definition repairRegister (gitPaths : list string) (rows : list WtRow) (st : DB * RepairResult) : DB * RepairResult :=
  foldl (register_one rows) st gitPaths.

(** the rows the sweep marks deleted; the order of the map does not matter *)
Definition dead (gitSet : list string) (w : WtRow) : bool := negb (existsb (String.eqb (Path w)) gitSet) && negb (IsMain w).

Definition repairUnregister (gitSet : list string) (rows : list WtRow) (st : DB * RepairResult) : DB * RepairResult :=
  foldl (fun st w => (update_wt (ID w) (buried now) st.1,
                      {| Registered := Registered st.2; Unregistered := Unregistered st.2 ++ [Path w]; Errors := Errors st.2 |}))
    st (List.filter (dead gitSet) rows).

(** the paths git reports, and the root when it is a directory *)
Definition git_set (gitPaths : list string) (rootIsDir : bool) : list string :=
  (if rootIsDir then [repoRoot] else []) ++ gitPaths.

(** the transaction, on the registry in which the repository has its row *)
Definition repair_tx (gitPaths : list string) (rootIsDir : bool) (d : DB) : DB * RepairResult :=
  let rows := loadRepairRows repoID d in
  let '(d', out) := repairUnregister (git_set gitPaths rootIsDir) rows (repairRegister gitPaths rows (d, no_result)) in
  if bool_decide (Errors out = []) then (d', out) else (d, out).
End Repair.

Definition Repair (blake3 : string -> string) (suffix : string) (getwd : option string)
    (detectBranch : string -> string) (repoRoot : string) (now : Z) (gitPaths : list string) (rootIsDir : bool) (d : DB)
    : DB * RepairResult :=
  let '(d1, repoID) := EnsureRepo repoRoot (path_base repoRoot) d in
  repair_tx blake3 suffix getwd detectBranch repoRoot repoID now gitPaths rootIsDir d1.

(** ** What it leaves behind *)

(** the exact constraints of the table *)
Record keyed (d : DB) : Prop := {
  k_ids : NoDup (map ID (worktrees d));
  k_paths : NoDup (map Path (worktrees d))
}.

Lemma keyed_wf d : wf d -> keyed d.
Proof.
  intros Hwf. split; [apply sorted_NoDup, Hwf|].
  pose proof (wf_paths d Hwf) as H. induction (worktrees d) as [|w l IH]; simpl in *; [constructor|].
  apply NoDup_cons in H as [Hw H]. apply NoDup_cons. split; [|by apply IH].
  intros Hin. apply Hw. apply list_elem_of_fmap in Hin as (x & E & Hx). apply list_elem_of_fmap. exists x. by rewrite E.
Qed.

Lemma keyed_update id f d : keeps_key f -> keyed d -> keyed (update_wt id f d).
Proof.
  intros Hk [Hi Hp]. split; rewrite map_update; try done; intros w; by destruct (Hk w) as (? & ? & ?).
Qed.

Lemma keyed_id d w w' : keyed d -> w ∈ worktrees d -> w' ∈ worktrees d -> ID w = ID w' -> w = w'.
Proof. intros [H _]. by apply NoDup_map_inj. Qed.
Lemma keyed_path d w w' : keyed d -> w ∈ worktrees d -> w' ∈ worktrees d -> Path w = Path w' -> w = w'.
Proof. intros [_ H]. by apply NoDup_map_inj. Qed.

Lemma find_path_none p d : List.find (fun w => String.eqb (Path w) p) (worktrees d) = None ->
  forall w, w ∈ worktrees d -> Path w <> p.
Proof.
  intros H w Hw E. apply list_elem_of_In in Hw. pose proof (find_none _ _ H _ Hw) as Hn. simpl in Hn.
  apply String.eqb_neq in Hn. done.
Qed.

Lemma insert_shape mk d : (insert_wt mk d).1 = d \/
  (insert_wt mk d).1 = with_worktrees (worktrees d ++ [mk (next_id (map ID (worktrees d)))]) d.
Proof. unfold insert_wt. destruct (existsb _ _); [by left|]. destruct (main_clash _ _); [by left|].
  destruct (existsb _ _); [by right|by left]. Qed.

Lemma keyed_insert mk d p :
  keyed d -> (forall i, ID (mk i) = i) -> (forall i, Path (mk i) = p) -> (forall w, w ∈ worktrees d -> Path w <> p) ->
  keyed (insert_wt mk d).1.
Proof.
  intros [Hi Hp] Hmi Hmp Hn. destruct (insert_shape mk d) as [->| ->]; [done|]. split; simpl; rewrite map_app; apply NoDup_app.
  - split; [done|]. split; [|apply NoDup_singleton]. intros x Hx E. simpl in E. apply list_elem_of_singleton in E.
    apply next_id_above in Hx. rewrite Hmi in E. lia.
  - split; [done|]. split; [|apply NoDup_singleton]. intros x (w & -> & Hw)%list_elem_of_fmap E. simpl in E.
    apply list_elem_of_singleton in E. rewrite Hmp in E. by apply (Hn w).
Qed.

Section Outcome.
Context (blake3 : string -> string) (suffix : string) (getwd : option string) (detectBranch : string -> string).
Context (repoRoot : string) (repoID now : Z) (d0 : DB) (Hd0 : keyed d0).

Let rows := loadRepairRows repoID d0.
Let reg := register_one blake3 suffix getwd detectBranch repoRoot repoID now rows.

Definition same_key (w w' : WtRow) : Prop :=
  ID w' = ID w /\ RepoID w' = RepoID w /\ Path w' = Path w /\ IsMain w' = IsMain w.

(** a path the first pass has to deal with *)
Definition missing (p : string) : Prop := known p rows = false /\ p <> repoRoot.

(** the registry after the paths [ps] *)
Record progress (ps : list string) (st : DB * RepairResult) : Prop := {
  pr_keyed : keyed st.1;
  pr_repos : repos st.1 = repos d0;
  pr_old : forall w, w ∈ worktrees d0 -> exists w', w' ∈ worktrees st.1 /\ same_key w w' /\
             (w' = w \/ (Path w ∈ ps /\ missing (Path w)));
  pr_new : forall w', w' ∈ worktrees st.1 -> w' ∈ worktrees d0 \/ (Path w' ∈ ps /\ missing (Path w') /\ active w' = true);
  pr_done : Errors st.2 = [] -> forall p, p ∈ ps -> missing p ->
              exists w', w' ∈ worktrees st.1 /\ Path w' = p /\ active w' = true /\
                ((forall w, w ∈ worktrees d0 -> Path w <> p) -> RepoID w' = repoID);
  pr_unreg : Unregistered st.2 = []
}.

Lemma progress_start : progress [] (d0, no_result).
Proof.
  split; simpl; try done.
  - intros w Hw. exists w. split; [done|]. split; [by split|by left].
  - intros w' Hw'. by left.
  - intros _ p Hp. by apply elem_of_nil in Hp.
Qed.

(** nothing of the registry changed at this path *)
Lemma progress_same ps st st' p :
  progress ps st -> st'.1 = st.1 -> Unregistered st'.2 = Unregistered st.2 ->
  (Errors st'.2 = [] -> Errors st.2 = [] /\ ~ missing p) -> progress (ps ++ [p]) st'.
Proof.
  intros [Hk Hr Ho Hn Hd Hu] E Eu Ee. split; rewrite ?E; try done.
  - intros w Hw. destruct (Ho w Hw) as (w' & Hw' & Hs & Hor). exists w'. split; [done|]. split; [done|].
    destruct Hor as [->|[Hp Hm]]; [by left|right]. split; [set_solver|done].
  - intros w' Hw'. destruct (Hn w' Hw') as [|(Hp & Hm & Ha)]; [by left|right]. split; [set_solver|done].
  - intros He q Hq Hm. destruct (Ee He) as [He0 Hnm]. apply elem_of_snoc in Hq as [Hq| ->]; [|done]. by apply Hd.
  - by rewrite Eu.
Qed.

(** the row at this path was written *)
Lemma progress_write ps st d' out p :
  progress ps st -> missing p -> keyed d' -> repos d' = repos st.1 ->
  (exists x, x ∈ worktrees d' /\ Path x = p /\ active x = true /\
     ((forall w, w ∈ worktrees st.1 -> Path w <> p) -> RepoID x = repoID)) ->
  (forall w, w ∈ worktrees st.1 -> exists w', w' ∈ worktrees d' /\ same_key w w' /\ (Path w <> p -> w' = w)) ->
  (forall w', w' ∈ worktrees d' -> w' ∈ worktrees st.1 \/ (Path w' = p /\ active w' = true)) ->
  Errors out = Errors st.2 -> Unregistered out = Unregistered st.2 -> progress (ps ++ [p]) (d', out).
Proof.
  intros [Hk Hr Ho Hn Hd Hu] Hm Hk' Hr' (x & Hx & Hxp & Hxa & Hxr) Hold Hnew Ee Eu. split; simpl; try done.
  - congruence.
  - intros w Hw. destruct (Ho w Hw) as (w' & Hw' & Hs & Hor). destruct (Hold w' Hw') as (w2 & Hw2 & Hs2 & Hsame).
    exists w2. split; [done|]. assert (same_key w w2) as Hs3 by (unfold same_key in *; naive_solver congruence).
    split; [done|]. destruct Hs as (_ & _ & Hp & _). destruct (decide (Path w = p)) as [<-|Hne].
    + right. split; [set_solver|done].
    + destruct Hor as [->|[Hps ?]]; [left; apply Hsame; congruence|right; split; [set_solver|done]].
  - intros w' Hw'. destruct (Hnew w' Hw') as [Hin|[<- Ha]]; [|right; split; [set_solver|done]].
    destruct (Hn w' Hin) as [|(Hp & ? & ?)]; [by left|right; split; [set_solver|done]].
  - rewrite Ee. intros He q Hq Hmq. destruct (decide (q = p)) as [->|Hne].
    + exists x. split; [done|]. split; [done|]. split; [done|]. intros Hno. apply elem_of_snoc in Hq as [Hq|_].
      * destruct (Hd He p Hq Hmq) as (y & Hy & Hyp & _ & Hyr). specialize (Hyr Hno).
        destruct (Hold y Hy) as (y' & Hy' & (_ & Hyr' & Hyp' & _) & _).
        rewrite (keyed_path d' x y' Hk' Hx Hy') by congruence. congruence.
      * destruct (decide (Exists (fun w => Path w = p) (worktrees st.1))) as [He2|Hne2].
        -- apply Exists_exists in He2 as (y & Hy & Hyp). destruct (Hn y Hy) as [Hy0|(Hps & _)]; [by destruct (Hno y)|].
           rewrite Hyp in Hps. destruct (Hd He p Hps Hmq) as (z & Hz & Hzp & _ & Hzr). specialize (Hzr Hno).
           destruct (Hold z Hz) as (z' & Hz' & (_ & Hzr' & Hzp' & _) & _).
           rewrite (keyed_path d' x z' Hk' Hx Hz') by congruence. congruence.
        -- apply Hxr. intros w Hw Hp. apply Hne2, Exists_exists. by exists w.
    + apply elem_of_snoc in Hq as [Hq|]; [|done]. destruct (Hd He q Hq Hmq) as (y & Hy & Hyp & Hya & Hyr).
      destruct (Hold y Hy) as (y' & Hy' & _ & Hsame). rewrite Hsame in Hy' by congruence. by exists y.
  - by rewrite Eu.
Qed.

Lemma progress_step ps st p : progress ps st -> progress (ps ++ [p]) (reg st p).
Proof.
  intros Hpr. unfold reg, register_one. destruct st as [d out]. destruct (known p rows || String.eqb p repoRoot) eqn:Ek.
  { eapply progress_same; [exact Hpr|done|done|]. intros He. split; [done|]. intros [Hm Hne].
    apply orb_prop in Ek as [Ek|Ek]; [congruence|]. by apply String.eqb_eq in Ek. }
  apply orb_false_iff in Ek as [Ek Er]. apply String.eqb_neq in Er. assert (missing p) as Hm by done.
  set (sl := Value _). set (br := detectBranch p).
  destruct (List.find _ (worktrees d)) as [w|] eqn:Ef.
  - apply find_some in Ef as [Hw Hp]. apply list_elem_of_In in Hw. apply String.eqb_eq in Hp.
    unfold update_checked. destruct (main_clash _ d).
    { eapply progress_same; [exact Hpr|done|done|]. simpl. intros He. by apply app_nil in He as [_ ?]. }
    assert (keyed (update_wt (ID w) (revived sl br now) d)) as Hk by (apply keyed_update; [done|apply Hpr]).
    assert (revived sl br now w ∈ worktrees (update_wt (ID w) (revived sl br now) d)) as Hx.
    { apply elem_of_update. exists w. by rewrite Z.eqb_refl. }
    eapply progress_write; [exact Hpr|done|exact Hk|done|..|done|done]; simpl.
    + exists (revived sl br now w). split; [done|]. split; [done|]. split; [done|]. intros Hno. by destruct (Hno w).
    + intros y Hy. exists (if Z.eqb (ID y) (ID w) then revived sl br now y else y).
      split; [apply elem_of_update; by exists y|]. destruct (Z.eqb_spec (ID y) (ID w)) as [E|]; [|by split].
      split; [done|]. intros Hne. by rewrite (keyed_id d y w) in Hne by (done || apply Hpr).
    + intros y (y0 & Hy & ->)%elem_of_update. destruct (Z.eqb_spec (ID y0) (ID w)) as [E|]; [|by left].
      right. by rewrite (keyed_id d y0 w) by (done || apply Hpr).
  - pose proof (find_path_none p d Ef) as Hno. set (mk := registered repoID p sl br now).
    assert (keyed (insert_wt mk d).1) as Hk by (by apply (keyed_insert mk d p); [apply Hpr|..]).
    pose proof (insert_err mk d) as Hie. pose proof (insert_shape mk d) as Hsh.
    assert (forall id, (insert_wt mk d).2 = Ok id -> (insert_wt mk d).1 <> d) as Hok.
    { unfold insert_wt. destruct (existsb _ _); [done|]. destruct (main_clash _ _); [done|].
      destruct (existsb _ _); [|done]. simpl. intros ? _ E. apply (f_equal (length ∘ worktrees)) in E. simpl in E.
      rewrite length_app in E. simpl in E. lia. }
    destruct (insert_wt mk d) as [d' [id|e]]; simpl in *.
    + destruct Hsh as [->| ->]; [by destruct (Hok id)|].
      eapply progress_write; [exact Hpr|done|exact Hk|done|..|done|done]; simpl.
      * exists (mk (next_id (map ID (worktrees d)))). split; [apply elem_of_snoc; by right|done].
      * intros y Hy. exists y. split; [apply elem_of_snoc; by left|by split].
      * intros y [Hy| ->]%elem_of_snoc; [by left|by right].
    + rewrite (Hie e eq_refl). eapply progress_same; [exact Hpr|done|done|]. simpl. intros He. by apply app_nil in He as [_ ?].
Qed.

Lemma progress_all ps : progress ps (repairRegister blake3 suffix getwd detectBranch repoRoot repoID now ps rows (d0, no_result)).
Proof.
  unfold repairRegister. induction ps as [|p ps IH] using rev_ind; [apply progress_start|].
  rewrite foldl_snoc. by apply progress_step.
Qed.

(** *** The second pass *)
Definition marked (ids : list Z) (w : WtRow) : WtRow := if bool_decide (ID w ∈ ids) then buried now w else w.

Lemma unregister_marks gitSet st :
  worktrees (repairUnregister now gitSet rows st).1 = map (marked (map ID (List.filter (dead gitSet) rows))) (worktrees st.1) /\
  repos (repairUnregister now gitSet rows st).1 = repos st.1 /\
  Errors (repairUnregister now gitSet rows st).2 = Errors st.2 /\
  Registered (repairUnregister now gitSet rows st).2 = Registered st.2 /\
  Unregistered (repairUnregister now gitSet rows st).2 = Unregistered st.2 ++ map Path (List.filter (dead gitSet) rows).
Proof.
  unfold repairUnregister. set (l := List.filter (dead gitSet) rows). revert st.
  induction l as [|w l IH]; intros st; simpl.
  - rewrite app_nil_r. split; [|done]. symmetry. apply map_id.
  - match goal with |- context [foldl ?f ?x l] => destruct (IH x) as (E1 & E2 & E3 & E4 & E5) end.
    rewrite E1, E2, E3, E4, E5. simpl. split; [|split; [done|split; [done|split; [done|by rewrite <- app_assoc]]]].
    rewrite map_map. apply map_ext. intros x. unfold marked.
    destruct (Z.eqb_spec (ID x) (ID w)) as [E|E].
    + change (ID (buried now x)) with (ID x). rewrite (bool_decide_eq_true_2 (ID x ∈ ID w :: map ID l)) by set_solver.
      by case_bool_decide.
    + case_bool_decide; case_bool_decide; try done; set_solver.
Qed.

(** the final rows: those of the first pass, the dead ones marked deleted *)
Lemma elem_of_final gitPaths rootIsDir d' out :
  repair_tx blake3 suffix getwd detectBranch repoRoot repoID now gitPaths rootIsDir d0 = (d', out) -> Errors out = [] ->
  exists st, progress gitPaths st /\ Errors st.2 = [] /\
    forall w, w ∈ worktrees d' <-> exists w0, w0 ∈ worktrees st.1 /\
      w = marked (map ID (List.filter (dead (git_set repoRoot gitPaths rootIsDir)) rows)) w0.
Proof.
  unfold repair_tx. fold rows. pose proof (progress_all gitPaths) as Hp. set (st := repairRegister _ _ _ _ _ _ _ _ _ _) in *.
  destruct (unregister_marks (git_set repoRoot gitPaths rootIsDir) st) as (Ew & _ & Ee & _ & _).
  destruct (repairUnregister now _ rows st) as [d2 out2]. simpl in *. case_bool_decide as Hc; intros [= <- <-] He; [|done].
  exists st. split; [done|]. split; [congruence|]. intros w. rewrite Ew, list_elem_of_fmap. naive_solver.
Qed.
End Outcome.

Lemma EnsureRepo_worktrees path name d : worktrees (EnsureRepo path name d).1 = worktrees d.
Proof. unfold EnsureRepo. by destruct (find_repo path d). Qed.

Lemma existsb_path p l : existsb (String.eqb p) l = true <-> p ∈ l.
Proof. rewrite existsb_elem. split; [intros (x & Hx & E); apply String.eqb_eq in E; by subst|].
  intros H. exists p. by rewrite String.eqb_refl. Qed.

Lemma elem_of_git_set root ps b p : p ∈ git_set root ps b <-> p ∈ ps \/ (p = root /\ b = true).
Proof. unfold git_set. rewrite elem_of_app. destruct b; [rewrite list_elem_of_singleton|]; set_solver. Qed.

Lemma elem_of_load repoID d w : w ∈ loadRepairRows repoID d <-> w ∈ worktrees d /\ RepoID w = repoID /\ active w = true.
Proof. unfold loadRepairRows. rewrite list_elem_of_In, filter_In, <- list_elem_of_In, andb_true_iff, Z.eqb_eq. done. Qed.

(** the rows the second pass marks *)
Lemma elem_of_dead gs rows i : i ∈ map ID (List.filter (dead gs) rows) <->
  exists w, w ∈ rows /\ ID w = i /\ Path w ∉ gs /\ IsMain w = false.
Proof.
  rewrite list_elem_of_fmap. split.
  - intros (w & -> & Hw). apply list_elem_of_In, filter_In in Hw as [Hw [Hd Hm]%andb_prop]. exists w.
    split; [by apply list_elem_of_In|]. split; [done|]. apply negb_true_iff in Hd, Hm. split; [|done].
    intros Hin. apply existsb_path in Hin. congruence.
  - intros (w & Hw & <- & Hd & Hm). exists w. split; [done|]. apply list_elem_of_In, filter_In.
    split; [by apply list_elem_of_In|]. unfold dead. rewrite Hm, andb_true_r. apply negb_true_iff.
    apply not_true_iff_false. by rewrite existsb_path.
Qed.

(** a repair is all or nothing. When no row failed, every worktree
    git reports (other than the root) has a live row, one of the repository
    unless the path was already another's; every live row of the repository is
    one git reports, or the root, or a main worktree; the rows of other
    repositories git does not report here and the live main rows are as they
    were; and no row is lost. When any row failed the registry is as it was,
    but for the row of the repository itself. *)
Theorem Repair_reconciles blake3 suffix getwd detectBranch repoRoot now gitPaths rootIsDir d :
  wf d ->
  let d1 := (EnsureRepo repoRoot (path_base repoRoot) d).1 in
  let repoID := (EnsureRepo repoRoot (path_base repoRoot) d).2 in
  let d' := (Repair blake3 suffix getwd detectBranch repoRoot now gitPaths rootIsDir d).1 in
  let out := (Repair blake3 suffix getwd detectBranch repoRoot now gitPaths rootIsDir d).2 in
  (Errors out <> [] -> d' = d1) /\
  (Errors out = [] ->
    (forall p, p ∈ gitPaths -> p <> repoRoot -> exists w, w ∈ worktrees d' /\ Path w = p /\ active w = true /\
       ((forall x, x ∈ worktrees d -> Path x <> p) -> RepoID w = repoID)) /\
    (forall w, w ∈ worktrees d' -> RepoID w = repoID -> active w = true ->
       Path w ∈ gitPaths \/ (Path w = repoRoot /\ rootIsDir = true) \/ IsMain w = true) /\
    (forall w, w ∈ worktrees d -> (RepoID w <> repoID /\ Path w ∉ gitPaths) \/
       (RepoID w = repoID /\ IsMain w = true /\ active w = true) -> w ∈ worktrees d') /\
    (forall w, w ∈ worktrees d -> exists w', w' ∈ worktrees d' /\ same_key w w')).
Proof.
  intros Hwf d1 repoID d' out. pose proof (wf_exec (ORepo repoRoot (path_base repoRoot)) d Hwf) as Hwf1.
  change (exec _ d) with d1 in Hwf1. apply keyed_wf in Hwf1.
  assert (worktrees d1 = worktrees d) as Ew by apply EnsureRepo_worktrees.
  assert ((d', out) = repair_tx blake3 suffix getwd detectBranch repoRoot repoID now gitPaths rootIsDir d1) as E.
  { unfold d', out, Repair, d1, repoID. destruct (EnsureRepo _ _ d). simpl. by destruct (repair_tx _ _ _ _ _ _ _ _ _ _). }
  rewrite <- Ew. clearbody d1 d' out. split.
  - intros He. unfold repair_tx in E. destruct (repairUnregister _ _ _ _) as [d2 out2].
    case_bool_decide; injection E as -> ->; [done|done].
  - intros He. destruct (elem_of_final _ _ _ _ _ _ _ _ Hwf1 _ _ _ _ (eq_sym E) He) as (st & Hp & He0 & Hfin).
    set (gs := git_set repoRoot gitPaths rootIsDir) in *. set (rows := loadRepairRows repoID d1) in *.
    set (ids := map ID (List.filter (dead gs) rows)) in *.
    pose proof (elem_of_load repoID d1) as Hrows. pose proof (elem_of_dead gs rows) as Hids. fold rows in Hrows. fold ids in Hids.
    (* a row of the first pass whose path git reports is not marked *)
    assert (forall x, x ∈ worktrees st.1 -> Path x ∈ gs -> x ∈ worktrees d') as Hgs.
    { intros x Hx Hpx. apply Hfin. exists x. split; [done|]. unfold marked. rewrite bool_decide_eq_false_2; [done|].
      intros (w & Hw & Hi & Hng & _)%Hids. apply Hrows in Hw as (Hw & _).
      destruct (pr_old _ _ _ _ _ Hp w Hw) as (w' & Hw' & (Hi' & _ & Hp' & _) & _).
      rewrite (keyed_id st.1 w' x (pr_keyed _ _ _ _ _ Hp) Hw' Hx) in Hp' by congruence. congruence. }
    split; [|split; [|split]].
    + intros p Hpg Hpr. assert (p ∈ gs) as Hpgs by (apply elem_of_git_set; by left).
      destruct (known p rows) eqn:Ek.
      * apply existsb_elem in Ek as (w & Hw & Hwp). apply String.eqb_eq in Hwp. pose proof (proj1 (Hrows w) Hw) as (Hw1 & Hwr & Hwa).
        destruct (pr_old _ _ _ _ _ Hp w Hw1) as (w' & Hw' & _ & [->|[_ [Hk _]]]).
        -- exists w. split; [apply Hgs; [done|by rewrite Hwp]|done].
        -- exfalso. apply not_true_iff_false in Hk. apply Hk, existsb_elem. exists w. split; [done|]. by apply String.eqb_eq.
      * destruct (pr_done _ _ _ _ _ Hp He0 p Hpg) as (w & Hw & Hwp & Hwa & Hwr); [by split|].
        exists w. split; [apply Hgs; [done|by rewrite Hwp]|done].
    + intros w Hw Hwr Hwa. apply Hfin in Hw as (w0 & Hw0 & ->). unfold marked in *. case_bool_decide as Hi; [done|].
      destruct (pr_new _ _ _ _ _ Hp w0 Hw0) as [Hin|(Hin & _)]; [|by left].
      destruct (decide (Path w0 ∈ gs)) as [Hg|Hg]; [apply elem_of_git_set in Hg as [|[]]; auto|].
      right; right. destruct (IsMain w0) eqn:Em; [done|]. destruct Hi. apply Hids. exists w0. split; [by apply Hrows|done].
    + intros w Hw Hor. apply Hfin. exists w. destruct (pr_old _ _ _ _ _ Hp w Hw) as (w' & Hw' & _ & Hsame).
      assert (w' = w) as ->.
      { destruct Hsame as [|[Hpg [Hk _]]]; [done|]. destruct Hor as [[_ Hn]|(Hr & _ & Ha)]; [done|].
        exfalso. apply not_true_iff_false in Hk. apply Hk, existsb_elem. exists w.
        split; [by apply Hrows|by apply String.eqb_eq]. }
      split; [done|]. unfold marked. rewrite bool_decide_eq_false_2; [done|].
      intros (x & Hx & Hi & _ & Hxm)%Hids. apply Hrows in Hx as (Hx & Hxr & _).
      rewrite (keyed_id d1 x w Hwf1 Hx Hw Hi) in Hxr, Hxm. destruct Hor as [[? _]|(_ & ? & _)]; congruence.
    + intros w Hw. destruct (pr_old _ _ _ _ _ Hp w Hw) as (w' & Hw' & Hs & _). exists (marked now ids w').
      split; [apply Hfin; by exists w'|]. unfold marked. by case_bool_decide.
Qed.

(** git knows the worktree under another spelling of its path *)
Definition demo_reg : DB := run [ORepo "/r" "r"; OWorktree 1 "/r/wt/A" "a" "feat/a" ""] empty.

Lemma Repair_reconciles_witness :
  let d' := (Repair id "" None (fun _ => "feat/a") "/r" 9 ["/r/wt/a"] true demo_reg).1 in
  map Path (List.filter active (worktrees d')) = ["/r/wt/a"] /\
  forall w, w ∈ worktrees d' -> RepoID w = 1%Z -> active w = true ->
    Path w ∈ ["/r/wt/a"] \/ (Path w = "/r" /\ true = true) \/ IsMain w = true.
Proof.
  split; [by vm_compute|].
  exact (proj1 (proj2 (proj2 (Repair_reconciles id "" None (fun _ => "feat/a") "/r" 9 ["/r/wt/a"] true demo_reg
           (wf_run _ empty wf_empty)) eq_refl))).
Defined.

(** the lookup of [repairRegister] is exact where [EnsureWorktree]'s is not:
    the worktree gets a second row, and the first is marked deleted *)
Example repair_splits_a_row :
  map (fun w => (ID w, Path w, active w)) (worktrees (Repair id "" None (fun _ => "feat/a") "/r" 9 ["/r/wt/a"] true demo_reg).1) =
    [(1%Z, "/r/wt/A", false); (2%Z, "/r/wt/a", true)] /\
  (EnsureWorktree 1 "/r/wt/a" "a" "feat/a" demo_reg).2 = Ok 1%Z.
Proof. vm_compute. done. Qed.

(** ** Histories of everything that writes the registry *)

(** a statement of the store; a registration whose SELECT saw some other
    registry than the one it goes on with; a repair *)
Inductive call :=
| COp (o : op)
| CRegister (seen : DB) (repoID : Z) (path slug branch adminDir : string)
| CRepair (detectBranch : string -> string) (repoRoot : string) (now : Z) (gitPaths : list string) (rootIsDir : bool).

Section Histories.
Context (blake3 : string -> string) (suffix : string) (getwd : option string).

Definition call_step (c : call) (d : DB) : DB :=
  match c with
  | COp o => exec o d
  | CRegister seen r p sl br ad => (EnsureWorktreeRace r p sl br ad seen d).1
  | CRepair branches root now ps b => (Repair blake3 suffix getwd branches root now ps b d).1
  end.
Definition calls_run (cs : list call) (d : DB) : DB := foldl (fun d c => call_step c d) d cs.

(** the calls that bring a deleted row back with the error it has *)
Definition brings_back (c : call) : bool := match c with COp o => negb (not_main o) | CRegister _ _ _ _ _ _ => false | CRepair _ _ _ _ _ => true end.

(** the calls [cs] never clear the error of the worktree [id], and none of them
    but those brings it back to life *)
Fixpoint never_registered (id : Z) (d : DB) (cs : list call) : Prop :=
  match cs with
  | [] => True
  | c :: cs' => c <> COp (OClear id) /\ (brings_back c = false -> alive id d = false -> alive id (call_step c d) = false) /\
                never_registered id (call_step c d) cs'
  end.

Lemma calls_run_snoc cs c d : calls_run (cs ++ [c]) d = call_step c (calls_run cs d).
Proof. unfold calls_run. by rewrite foldl_snoc. Qed.

Lemma never_registered_snoc id d cs c :
  never_registered id d (cs ++ [c]) <->
  never_registered id d cs /\ c <> COp (OClear id) /\
    (brings_back c = false -> alive id (calls_run cs d) = false -> alive id (call_step c (calls_run cs d)) = false).
Proof. revert d. induction cs as [|c' cs IH]; intros d; simpl; [tauto|]. rewrite IH. unfold calls_run. simpl. tauto. Qed.

(** *** The exact constraints hold in every history *)
Lemma keyed_new mk d : keyed d -> (forall i, ID (mk i) = i) -> (forall i j, Path (mk i) = Path (mk j)) -> keyed (insert_wt mk d).1.
Proof.
  intros Hk Hi Hp. set (n := next_id (map ID (worktrees d))). destruct (existsb (fun x => String.eqb (Path x) (Path (mk n))) (worktrees d)) eqn:E.
  - unfold insert_wt. fold n. by rewrite E.
  - apply (keyed_insert mk d (Path (mk n))); [done..|]. intros w Hw Ew. apply not_true_iff_false in E. destruct E.
    apply existsb_elem. exists w. split; [done|]. by apply String.eqb_eq.
Qed.

Lemma keyed_checked f w d : keeps_key f -> keyed d -> keyed (update_checked f w d).1.
Proof. intros Hf Hk. unfold update_checked. destruct (main_clash _ _); [done|]. by apply keyed_update. Qed.

Lemma keyed_refresh slug branch admin id d : keyed d -> keyed (refresh_id slug branch admin id d).1.
Proof.
  intros Hk. unfold refresh_id. destruct (List.find _ _) as [w|]; [|done]. unfold refresh. destruct (needs_update _ _ _ _); [|done].
  by apply keyed_checked.
Qed.

Lemma keyed_race repo path slug branch admin d0 d : keyed d -> keyed (EnsureWorktreeRace repo path slug branch admin d0 d).1.
Proof.
  intros Hk. unfold EnsureWorktreeRace. destruct (find_wt path d0); [by apply keyed_refresh|].
  pose proof (keyed_new (new_wt repo path slug branch admin false) d Hk (fun _ => eq_refl) (fun _ _ => eq_refl)) as Hn.
  destruct (insert_wt _ d) as [d2 [id|[]]]; simpl in *; try done. destruct (find_wt path d2); [by apply keyed_refresh|done].
Qed.

Lemma keyed_exec o d : keyed d -> keyed (exec o d).
Proof.
  intros Hk. destruct o as [p n|r p sl br ad|r p sl br|now id|id ad|now id|now p|id m|id|r]; simpl.
  - unfold EnsureRepo. destruct (find_repo p d); [done|]. by destruct Hk as [? ?]; split.
  - by apply keyed_race.
  - unfold EnsureMainWorktree. destruct (find_wt p d); [by apply keyed_checked|by apply keyed_new].
  - by apply keyed_update.
  - unfold SetWorktreeAdminDir. destruct (_ || _); [done|by apply keyed_update].
  - unfold TouchWorktreeVisited. destruct (Z.leb _ _); [done|by apply keyed_update].
  - unfold TouchWorktreeVisitedByPath, TouchWorktreeVisited. destruct (List.find _ _); [|done]. destruct (Z.leb _ _); [done|by apply keyed_update].
  - by apply keyed_update.
  - by apply keyed_update.
  - destruct Hk as [Hi Hp]. split; simpl; by apply map_filter_NoDup.
Qed.

(** a repair is made of updates and inserts *)
Lemma repair_ind (P : DB -> Prop) branches root now ps b d :
  P d -> P (EnsureRepo root (path_base root) d).1 ->
  (forall d' w slug branch, P d' -> P (update_checked (revived slug branch now) w d').1) ->
  (forall d' repoID p slug branch, P d' -> P (insert_wt (registered repoID p slug branch now) d').1) ->
  (forall d' id, P d' -> P (update_wt id (buried now) d')) ->
  P (Repair blake3 suffix getwd branches root now ps b d).1.
Proof.
  intros H0 H1 Hu Hi Hb. unfold Repair. destruct (EnsureRepo root (path_base root) d) as [d1 repoID]. cbn [fst] in H1. unfold repair_tx.
  set (rows := loadRepairRows repoID d1).
  assert (Hreg : forall st, P st.1 -> P (repairRegister blake3 suffix getwd branches root repoID now ps rows st).1).
  { unfold repairRegister. induction ps as [|p qs IH]; intros [d2 out] Hst; [done|]. cbn [foldl]. apply IH. unfold register_one.
    destruct (_ || _); [done|]. set (slug := Value _).
    destruct (List.find _ _) as [w|];
      [specialize (Hu d2 w slug (branches p) Hst)|specialize (Hi d2 repoID p slug (branches p) Hst)];
      [destruct (update_checked _ w d2) as [d' [?|?]]|destruct (insert_wt _ d2) as [d' [?|?]]]; done. }
  specialize (Hreg (d1, no_result) H1). set (st := repairRegister _ _ _ _ _ _ _ _ _ _) in *. clearbody st.
  assert (Hun : P (repairUnregister now (git_set root ps b) rows st).1).
  { unfold repairUnregister. set (l := List.filter _ rows). clearbody l. revert st Hreg. induction l as [|w l IH]; intros st Hst; [done|].
    cbn [foldl]. apply IH. by apply Hb. }
  destruct (repairUnregister now _ rows st) as [d2 out]. by case_bool_decide.
Qed.

Lemma keyed_step c d : keyed d -> keyed (call_step c d).
Proof.
  intros Hk. destruct c as [o|seen r p sl br ad|branches root now ps b]; simpl; [by apply keyed_exec|by apply keyed_race|].
  apply repair_ind; [done|by apply (keyed_exec (ORepo root (path_base root)))|..]; intros.
  - by apply keyed_checked.
  - by apply keyed_new.
  - by apply keyed_update.
Qed.

Lemma keyed_calls cs : keyed (calls_run cs empty).
Proof. induction cs as [|c cs IH] using rev_ind; [by split; constructor|]. rewrite calls_run_snoc. by apply keyed_step. Qed.

(** *** Where an error comes from *)
Lemma inherits_trans d d1 w w1 msg : w1 ∈ worktrees d1 -> ID w1 = ID w ->
  (teardown_error w1 = Some msg -> inherits true d w1 msg) -> teardown_error w1 = Some msg -> inherits true d w msg.
Proof. intros Hw Hi H He. destruct (H He) as (w0 & ? & ? & ? & _). exists w0. split_and!; [done|congruence|done|done]. Qed.

Lemma step_error c d w msg : w ∈ worktrees (call_step c d) -> teardown_error w = Some msg ->
  c = COp (OError (ID w) msg) \/ c <> COp (OClear (ID w)) /\ inherits (brings_back c) d w msg.
Proof.
  intros Hw He. destruct c as [o|seen r p sl br ad|branches root now ps b]; simpl in *.
  - destruct (exec_error o d w msg Hw He) as [->|[Hn Hin]]; [by left|right]. split; [congruence|done].
  - right. split; [done|]. by eapply race_error.
  - right. split; [done|]. revert w Hw He.
    apply (repair_ind (fun d' => forall w, w ∈ worktrees d' -> teardown_error w = Some msg -> inherits true d w msg)).
    + intros w. apply inherits_same.
    + intros w Hw. rewrite EnsureRepo_worktrees in Hw. by apply inherits_same.
    + intros d' w0 slug branch IH w Hw He.
      destruct (inherits_checked true (revived slug branch now) w0 d' w msg) as (w1 & Hw1 & Hi & He1 & _); [done| |done..|].
      { intros x Hx. by split. }
      apply (inherits_trans d d' w w1); [done..| |done]. by apply IH.
    + intros d' repoID p slug branch IH w Hw He.
      destruct (inherits_insert true (registered repoID p slug branch now) d' w msg) as (w1 & Hw1 & Hi & He1 & _); [done..|].
      apply (inherits_trans d d' w w1); [done..| |done]. by apply IH.
    + intros d' id IH w Hw He. apply elem_of_update in Hw as (w1 & Hw1 & ->).
      apply (inherits_trans d d' _ w1); [done|by destruct (Z.eqb _ _)|by apply IH|by destruct (Z.eqb _ _)].
Qed.

Lemma alive_keyed d w : keyed d -> w ∈ worktrees d -> alive (ID w) d = active w.
Proof.
  intros Hk Hw. apply eq_true_iff_eq. unfold alive. rewrite existsb_elem. split.
  - intros (x & Hx & [Hi Ha]%andb_prop). apply Z.eqb_eq in Hi. by rewrite <- (keyed_id d x w).
  - intros Ha. exists w. by rewrite Ha, Z.eqb_refl.
Qed.

Lemma error_origin cs w msg :
  w ∈ worktrees (calls_run cs empty) -> teardown_error w = Some msg ->
  exists c1 c2, cs = c1 ++ COp (OError (ID w) msg) :: c2 /\
    never_registered (ID w) (calls_run (c1 ++ [COp (OError (ID w) msg)]) empty) c2.
Proof.
  revert w. induction cs as [|c cs IH] using rev_ind; intros w Hw He; [by apply elem_of_nil in Hw|].
  pose proof Hw as Hw'. rewrite calls_run_snoc in Hw.
  destruct (step_error c _ w msg Hw He) as [->|[Hn (w0 & Hw0 & Hi & He0 & Ha)]]; [by exists cs, []|].
  destruct (IH w0 Hw0 He0) as (c1 & c2 & -> & Hnr). rewrite Hi in *. exists c1, (c2 ++ [c]).
  split; [by rewrite <- app_assoc|]. apply never_registered_snoc. split; [done|]. split; [done|].
  assert (calls_run c2 (calls_run (c1 ++ [COp (OError (ID w) msg)]) empty) = calls_run (c1 ++ COp (OError (ID w) msg) :: c2) empty) as ->.
  { unfold calls_run. rewrite <- foldl_app, <- app_assoc. done. }
  pose proof (keyed_calls (c1 ++ COp (OError (ID w) msg) :: c2)) as Hk.
  rewrite <- Hi at 1. rewrite (alive_keyed _ w0 Hk Hw0), (alive_keyed _ w (keyed_step c _ Hk) Hw).
  intros Hb H0. destruct (active w); [|done]. by rewrite Ha in H0.
Qed.

(** C36: C0_pending_teardown_safe: the retry sweep drops nobody else's databases.
    After any history of calls on the registry, repairs and registrations that
    raced with others included, a worktree that it lists is deleted, no live
    worktree of its repository has its slug, and its error was recorded by a
    teardown and not cleared since; nor has the row been brought to life by a
    registration since.  Only [EnsureMainWorktree] and a repair may have brought
    it back: these two keep the error, so a later deletion queues it again (see
    [Registry.main_revival_keeps_error]). *)
Theorem pending_teardown_safe cs repo w :
  w ∈ ListPendingTeardowns repo (calls_run cs empty) ->
  alive (ID w) (calls_run cs empty) = false /\
  (forall l, l ∈ worktrees (calls_run cs empty) -> active l = true -> RepoID l = repo -> Registry.Slug l <> Registry.Slug w) /\
  exists msg c1 c2, teardown_error w = Some msg /\ cs = c1 ++ COp (OError (ID w) msg) :: c2 /\
    never_registered (ID w) (calls_run (c1 ++ [COp (OError (ID w) msg)]) empty) c2.
Proof.
  intros Hp. apply list_elem_of_In, filter_In in Hp as [Hw [Hr Hp]%andb_prop]. apply list_elem_of_In in Hw.
  apply Z.eqb_eq in Hr as <-. unfold pending in Hp. apply andb_prop in Hp as [[He Ha]%andb_prop Hl].
  apply bool_decide_eq_true in He as [msg He]. apply negb_true_iff in Ha, Hl.
  split; [by rewrite (alive_keyed _ w (keyed_calls cs) Hw)|]. split.
  - intros l Hin Hal Hrl Hs. apply not_true_iff_false in Hl. destruct Hl. apply existsb_elem. exists l.
    split; [done|]. by rewrite Hs, String.eqb_refl, Hrl, Z.eqb_refl, Hal.
  - destruct (error_origin cs w msg Hw He) as (c1 & c2 & E & Hn). by exists msg, c1, c2.
Qed.
End Histories.

(** a worktree whose teardown failed, deleted, and found again by a repair while
    its checkout was there, then deleted once more *)
Definition demo_calls : list call :=
  map COp demo_history ++
  [CRepair (fun _ => "feat/x") "/r" 8 ["/r/.worktrees/X"] true; COp (ODelete 9 1); CRegister empty 1 "/r/.worktrees/y" "y" "feat/y" ""].

Lemma pending_teardown_safe_witness :
  map Path (ListPendingTeardowns 1 (calls_run id "" None demo_calls empty)) = ["/r/.worktrees/X"] /\
  exists w, w ∈ ListPendingTeardowns 1 (calls_run id "" None demo_calls empty) /\
    alive (ID w) (calls_run id "" None demo_calls empty) = false /\
    (forall l, l ∈ worktrees (calls_run id "" None demo_calls empty) -> active l = true -> RepoID l = 1%Z -> Registry.Slug l <> Registry.Slug w) /\
    exists msg c1 c2, teardown_error w = Some msg /\ demo_calls = c1 ++ COp (OError (ID w) msg) :: c2 /\
      never_registered id "" None (ID w) (calls_run id "" None (c1 ++ [COp (OError (ID w) msg)]) empty) c2.
Proof.
  split; [vm_compute; reflexivity|].
  destruct (ListPendingTeardowns 1 (calls_run id "" None demo_calls empty)) as [|w l] eqn:E; [vm_compute in E; discriminate E|].
  assert (Hw : w ∈ ListPendingTeardowns 1 (calls_run id "" None demo_calls empty)) by (rewrite E; by left).
  exists w. split; [by left|]. exact (pending_teardown_safe id "" None demo_calls 1 w Hw).
Defined.
