(* ===== verification/Git.v ===== *)
(** * Asking git

    [internal/gitcmd]: git is run with a list of arguments and answers with its
    output, or fails.  An answer may depend on when the question is asked, so
    every question carries the number of the ones before it; a program that
    asks threads that number and the commands it gave.  Trusted: what git prints.  [honest] states what
    its documentation says of the questions about history that this library
    uses, for a repository that does not change meanwhile. *)
From stdpp Require Import base strings list.
From S2P Require Import Prelude GoStrings Lines Registry WtReg.

(** ** Questions *)
(** [run_git n args] is the output of the [n]th command, None if it fails;
    [pipe_git n src dst] that of [src | dst] *)
Class Git := {
  run_git : nat -> list string -> option string;
  pipe_git : nat -> list string -> list string -> option string
}.

(** how many questions were asked, of git and of others, and the commands *)
Record asked := { count : nat; commands : list (list string) }.
Definition unasked : asked := {| count := 0; commands := [] |}.
Definition tell (args : list string) (n : asked) : asked := {| count := S (count n); commands := commands n ++ [args] |}.

Definition G (A : Type) : Type := asked -> asked * A.
#[export] Instance G_ret : MRet G := fun A a n => (n, a).
#[export] Instance G_bind : MBind G := fun A B f m n => let '(n', a) := m n in f a n'.

(** the monad does not fail: [x ← m; k] runs both *)
Lemma G_bind_eq {A B} (m : G A) (k : A -> G B) n : (x ← m; k x) n = k (m n).2 (m n).1.
Proof. unfold mbind, G_bind. by destruct (m n). Qed.

Section Commands.
Context `{!Git}.

(** [gitcmd.Output], [gitcmd.String] *)
Definition Output (args : list string) : G (option string) := fun n => (tell args n, run_git (count n) args).
Definition output_string (args : list string) : G (option string) := fun n => (tell args n, TrimSpace <$> run_git (count n) args).
Definition PipeOutput (src dst : list string) : G (option string) := fun n => (tell (src ++ "|" :: dst) n, pipe_git (count n) src dst).
(** [gitcmd.RunOptional], [gitcmd.Exists] *)
Definition RunOptional (args : list string) : G bool := fun n => (tell args n, bool_decide (is_Some (run_git (count n) args))).
Definition exists_ref (ref : string) : G bool := RunOptional ["rev-parse"; "--verify"; "--quiet"; ref].

Lemma output_string_eq args n : output_string args n = (tell args n, TrimSpace <$> run_git (count n) args).
Proof. done. Qed.

(** [gitcmd.RecordBranchBase], [gitcmd.BranchBase] *)
Definition base_key (branch : string) : string := "branch." +:+ branch +:+ ".treemanBase".
Definition trim_prefix (p s : string) : string := default s (cut_prefix p s).

Definition record_base (branch base : string) : option (list string) :=
  let base := trim_prefix "origin/" base in
  if String.eqb branch "" || String.eqb base "" || String.eqb base branch then None
  else Some ["config"; base_key branch; base].

Definition RecordBranchBase (branch base : string) : G unit :=
  match record_base branch base with Some args => _ ← RunOptional args; mret tt | None => mret tt end.

Definition BranchBase (branch : string) : G string :=
  if String.eqb branch "" then mret ""
  else out ← output_string ["config"; "--get"; base_key branch];
       mret (default "" (TrimSpace <$> out)).
End Commands.

(** ** What a program runs and answers *)
(** every command it gives satisfies [P], its answer [Q] *)
Definition runs {A} (P : list string -> Prop) (m : G A) (Q : A -> Prop) : Prop := forall n, exists l,
  commands (m n).1 = commands n ++ l /\ Forall P l /\ Q (m n).2.

Section Runs.
Context (P : list string -> Prop).

Lemma runs_ret {A} (a : A) (Q : A -> Prop) : Q a -> runs P (mret a) Q.
Proof using. intros HQ n. exists []. by rewrite app_nil_r. Qed.

Lemma runs_bind {A B} (m : G A) (k : A -> G B) (R : A -> Prop) (Q : B -> Prop) :
  runs P m R -> (forall a, R a -> runs P (k a) Q) -> runs P (m ≫= k) Q.
Proof using.
  intros Hm Hk n. rewrite G_bind_eq. destruct (Hm n) as (l & Hl & HP & HR).
  destruct (Hk _ HR (m n).1) as (l' & Hl' & HP' & HQ). exists (l ++ l'). split_and!; [|by apply Forall_app|done].
  by rewrite Hl', Hl, app_assoc.
Qed.

Lemma runs_mono {A} (m : G A) (Q R : A -> Prop) : (forall a, Q a -> R a) -> runs P m Q -> runs P m R.
Proof using. intros HQR Hm n. destruct (Hm n) as (l & ? & ? & ?). exists l. auto. Qed.

Context `{!Git}.
Lemma runs_output args (Q : option string -> Prop) : P args -> (forall n, Q (run_git n args)) -> runs P (Output args) Q.
Proof using. intros HP HQ n. exists [args]. split_and!; [done|by constructor|apply HQ]. Qed.
Lemma runs_string args (Q : option string -> Prop) :
  P args -> (forall n, Q (TrimSpace <$> run_git n args)) -> runs P (output_string args) Q.
Proof using. intros HP HQ n. exists [args]. split_and!; [done|by constructor|apply HQ]. Qed.
Lemma runs_optional args (Q : bool -> Prop) :
  P args -> (forall n, Q (bool_decide (is_Some (run_git n args)))) -> runs P (RunOptional args) Q.
Proof using. intros HP HQ n. exists [args]. split_and!; [done|by constructor|apply HQ]. Qed.
Lemma runs_pipe src dst (Q : option string -> Prop) :
  P (src ++ "|" :: dst) -> (forall n, Q (pipe_git n src dst)) -> runs P (PipeOutput src dst) Q.
Proof using. intros HP HQ n. exists [src ++ "|" :: dst]. split_and!; [done|by constructor|apply HQ]. Qed.
End Runs.

(** ** The branch of a working tree *)
(** [gitenv.HeadPath], [gitenv.DetectBranch]: [stat] tells a directory from a
    file, [read] gives the content of a file *)
Section WorkingTree.
Context (stat : string -> option bool) (read : string -> option string).

Definition HeadPath (worktree : string) : option string :=
  let dotGit := path_join worktree ".git" in
  is_dir ← stat dotGit;
  if (is_dir : bool) then Some (path_join dotGit "HEAD")
  else body ← read dotGit;
       gitdir ← cut_prefix "gitdir: " (TrimSpace body);
       let gitdir := TrimSpace gitdir in
       Some (path_join (if is_abs gitdir then gitdir else path_join worktree gitdir) "HEAD").

Definition DetectBranch (worktree : string) : string :=
  default "" (p ← HeadPath worktree; b ← read p; cut_prefix "ref: refs/heads/" (TrimSpace b)).
End WorkingTree.

(** ** History *)
(** the commit a name stands for, and the order of ancestry *)
Class History := {
  resolve : string -> option string;
  ancestor : string -> string -> Prop;
  ancestor_refl c : ancestor c c;
  ancestor_trans a b c : ancestor a b -> ancestor b c -> ancestor a c;
  ancestor_antisym a b : ancestor a b -> ancestor b a -> a = b
}.

(** a best common ancestor: none of the others descends from it *)
Definition best_common `{!History} (a b m : string) : Prop :=
  resolve m = Some m /\ ancestor m a /\ ancestor m b /\
  forall m', ancestor m' a -> ancestor m' b -> ancestor m m' -> m' = m.

(** what [git rev-parse] and [git merge-base] document, of names [b] *)
Record honest `{!Git, !History} := {
  unchanged n m args : run_git n args = run_git m args;
  commit_name b c : resolve b = Some c -> resolve c = Some c /\ c <> "" /\ TrimSpace c = c;
  rev_parse n b : run_git n ["rev-parse"; "--verify"; "--quiet"; b +:+ "^{commit}"] = (fun c => c +:+ nl) <$> resolve b;
  merge_base n a b ca cb : resolve a = Some ca -> resolve b = Some cb ->
    match run_git n ["merge-base"; a; b] with
    | Some out => exists m, TrimSpace out = m /\ best_common ca cb m
    | None => forall m, ancestor m ca -> ~ ancestor m cb
    end;
  merge_base_unknown n a b : resolve a = None \/ resolve b = None -> run_git n ["merge-base"; a; b] = None;
  is_ancestor n a b : resolve a = Some a -> resolve b = Some b ->
    is_Some (run_git n ["merge-base"; "--is-ancestor"; a; b]) <-> ancestor a b
}.
Arguments honest : clear implicits.
Arguments honest {_ _}.
