(* ===== verification/GitDemo.v ===== *)
(** * A repository for the witnesses

    Six commits and five branches, the commands of git that [Git.honest] speaks
    of on them, and the proof that they keep it. *)
From stdpp Require Import base strings list.
From Stdlib Require Import ZArith Lia.
From S2P Require Import Prelude GoStrings Lines Git.

(** ** A small repository *)
(** every commit with its proper ancestors, newest first: [main] and [develop]
    part at c1, [feature] leaves [develop] at d1 *)
Definition demo_log : list (string * list string) :=
  [("c0", []); ("c1", ["c0"]); ("d1", ["c1"; "c0"]); ("m2", ["c1"; "c0"]); ("d2", ["d1"; "c1"; "c0"]); ("f1", ["d1"; "c1"; "c0"])].
Definition demo_heads : list (string * string) := [("main", "m2"); ("origin/main", "m2"); ("develop", "d2"); ("feature", "f1"); ("old", "c1")].

Definition before (c : string) : list string := default [] (assoc c demo_log).
Definition upto (c : string) : list string := c :: before c.
Definition demo_resolve (b : string) : option string :=
  match assoc b demo_heads with Some c => Some c | None => if assoc b demo_log then Some b else None end.
Definition demo_base (a b : string) : option string :=
  match List.filter (fun m => bool_decide (m ∈ upto b)) (upto a) with m :: _ => Some m | [] => None end.

Definition demo_run (args : list string) : option string :=
  match args with
  | [cmd; _; a; b] =>
      if String.eqb cmd "merge-base" then if bool_decide (a ∈ upto b) then Some "" else None
      else (fun c => c +:+ nl) <$> demo_resolve (match cut_prefix (str_rev "^{commit}") (str_rev b) with
                                                 | Some r => str_rev r
                                                 | None => trim_prefix "refs/heads/" b
                                                 end)
  | [_; a; b] => ca ← demo_resolve a; cb ← demo_resolve b; (fun m => m +:+ nl) <$> demo_base ca cb
  | _ => None
  end.
#[local] Instance demo_git : Git := { run_git := fun _ => demo_run; pipe_git := fun _ _ _ => None }.

Definition demo_rank (c : string) : nat := length (before c).
Definition log_closed : bool :=
  forallb (fun e => forallb (fun b => forallb (fun a => bool_decide (a ∈ e.2)) (before b) && (demo_rank b <? length e.2)%nat) e.2) demo_log.

Lemma before_in_log c a : a ∈ before c -> exists l, (c, l) ∈ demo_log /\ before c = l.
Proof.
  unfold before. destruct (assoc c demo_log) as [l|] eqn:E; [|by intros ?%elem_of_nil]. intros _. exists l. split; [|done].
  by apply assoc_In.
Qed.

Lemma log_entry b c : b ∈ before c -> (forall a, a ∈ before b -> a ∈ before c) /\ (demo_rank b < demo_rank c)%nat.
Proof.
  intros Hb. assert (log_closed = true) as Hc by (vm_compute; reflexivity). destruct (before_in_log c b Hb) as (l & Hl & Hbl).
  unfold log_closed in Hc. apply (proj1 (forallb_elem _ _) Hc) in Hl. cbn [snd] in Hl. rewrite <- Hbl in Hl.
  apply (proj1 (forallb_elem _ _) Hl) in Hb. apply andb_true_iff in Hb as [Ha Hr%Nat.ltb_lt]. split; [|done].
  intros a Hin. apply (proj1 (forallb_elem _ _) Ha) in Hin. by apply bool_decide_eq_true in Hin.
Qed.

#[local] Program Instance demo_history_of : History := {
  resolve := demo_resolve;
  ancestor a b := a ∈ upto b
}.
Next Obligation. intros c. by left. Qed.
Next Obligation.
  intros a b c [->|Ha]%elem_of_cons [->|Hb]%elem_of_cons; try (by left); try (by right).
  right. by apply (log_entry b c).
Qed.
Next Obligation.
  intros a b Ha Hb. apply elem_of_cons in Ha as [?|Ha]; [done|]. apply elem_of_cons in Hb as [?|Hb]; [done|].
  apply log_entry in Ha as [_ Ha], Hb as [_ Hb]. lia.
Qed.

(** the checks of [honest] that are finite *)
Definition base_ok (ca cb : string) : bool :=
  match demo_base ca cb with
  | Some m => (match demo_resolve m with Some m' => String.eqb m m' | None => false end) && String.eqb (TrimSpace (m +:+ nl)) m &&
      bool_decide (m ∈ upto ca) && bool_decide (m ∈ upto cb) &&
      forallb (fun m' => negb (bool_decide (m' ∈ upto cb)) || negb (bool_decide (m ∈ upto m')) || String.eqb m' m) (upto ca)
  | None => forallb (fun m => negb (bool_decide (m ∈ upto cb))) (upto ca)
  end.
Definition commits : list string := map fst demo_log.
Definition bases_ok : bool := forallb (fun ca => forallb (base_ok ca) commits) commits.
Definition name_ok (c : string) : bool :=
  (match demo_resolve c with Some c' => String.eqb c c' | None => false end) && negb (String.eqb c "") && String.eqb (TrimSpace c) c.

Lemma resolve_commit b c : demo_resolve b = Some c -> c ∈ commits.
Proof.
  unfold demo_resolve. destruct (assoc b demo_heads) as [h|] eqn:Eh.
  - intros [= <-]. apply assoc_In in Eh. assert (forallb (fun e => bool_decide (e.2 ∈ commits)) demo_heads = true) as Hh by (vm_compute; reflexivity).
    apply (proj1 (forallb_elem _ _) Hh) in Eh. by apply bool_decide_eq_true in Eh.
  - destruct (assoc b demo_log) as [l|] eqn:El; [|done]. intros [= <-]. apply assoc_In in El.
    apply list_elem_of_fmap. by exists (b, l).
Qed.

Lemma demo_git_honest : honest.
Proof.
  split.
  - done.
  - intros b c Hc. cbn in Hc. apply resolve_commit in Hc.
    assert (forallb name_ok commits = true) as Hn by (vm_compute; reflexivity).
    apply (proj1 (forallb_elem _ _) Hn) in Hc. unfold name_ok in Hc. cbn [resolve demo_history_of].
    destruct (demo_resolve c) as [c'|]; [|done]. rewrite !andb_true_iff, !String.eqb_eq, negb_true_iff, String.eqb_neq in Hc.
    destruct Hc as [[-> ?] ?]. done.
  - intros n b. cbn [run_git demo_git]. unfold demo_run. cbn [String.eqb Ascii.eqb Bool.eqb]. rewrite str_rev_app.
    rewrite (proj2 (cut_prefix_app _ _ _) eq_refl). by rewrite str_rev_invol.
  - intros n a b ca cb Ha Hb. cbn [resolve demo_history_of] in Ha, Hb. cbn [run_git demo_git]. unfold demo_run.
    rewrite Ha, Hb. cbn [mbind option_bind].
    assert (bases_ok = true) as Hok by (vm_compute; reflexivity). apply resolve_commit in Ha, Hb.
    apply (proj1 (forallb_elem _ _) Hok) in Ha. apply (proj1 (forallb_elem _ _) Ha) in Hb. clear Hok Ha. unfold base_ok in Hb.
    destruct (demo_base ca cb) as [m|]; cbn [fmap option_fmap option_map].
    + destruct (demo_resolve m) as [m'|] eqn:Em; [|done]. rewrite !andb_true_iff, !bool_decide_eq_true, !String.eqb_eq, forallb_elem in Hb.
      destruct Hb as ((((<- & Htrim) & Ha) & Hb) & Hbest). exists m. split; [done|]. split_and!; try done.
      intros m' Ha' Hb' Hm. specialize (Hbest m' Ha'). rewrite !orb_true_iff, !negb_true_iff, !bool_decide_eq_false, String.eqb_eq in Hbest.
      tauto.
    + intros m Hma Hmb. apply (proj1 (forallb_elem _ _) Hb) in Hma. by rewrite negb_true_iff, bool_decide_eq_false in Hma.
  - intros n a b. cbn [resolve demo_history_of run_git demo_git]. unfold demo_run. intros [->| ->]; [done|]. by destruct (demo_resolve a).
  - intros n a b _ _. cbn [run_git demo_git]. unfold demo_run. cbn [String.eqb Ascii.eqb Bool.eqb]. case_bool_decide as Hin.
    + split; [done|by intros _; eexists].
    + split; [by intros [? ?]|done].
Qed.
