(* ===== verification/BaseRef.v ===== *)
(** * The base of a branch

    [internal/prepare/baseref.go] and [config/main_worktree_overlay.go]: which
    branch a new branch was forked from, and which live database holds the data
    of that branch.  [BranchSwap] asks these questions when it fills a new
    namespace; here they are answered from git ([Git]), from the registry
    ([Registry]) and from the copies that are recorded ([BranchStore]). *)
From stdpp Require Import base strings list gmap.
From Stdlib Require Import ZArith Lia.
From S2P Require Import Prelude GoStrings Lines Slug Template Registry BranchStore BranchSwap Git GitDemo.

(** ** The overlay of the main worktree *)
Section Overlay.
(** the specifications of the clones and of the parallel runs *)
Context {TC FO : Type}.

(** [config.DatabaseConfig], as far as the overlay reaches *)
Record Database := { dbTemplates : DatabaseConfig; dbTestClones : option TC; dbFanout : FO }.
(** [config.MainWorktreeDatabase] *)
Record OverlayEntry := { ovNameTemplate : string; ovKeyPrefix : string; ovTestClones : option TC; ovFanout : option FO }.
Record Config := { Databases : list Database; overlay : list OverlayEntry }.

Definition over (new old : string) : string := if String.eqb new "" then old else new.

Definition merge_entry (d : Database) (ov : OverlayEntry) : Database := {|
  dbTemplates := {| NameTemplate := over (ovNameTemplate ov) (NameTemplate (dbTemplates d));
                    KeyPrefix := over (ovKeyPrefix ov) (KeyPrefix (dbTemplates d)) |};
  dbTestClones := match ovTestClones ov with Some t => Some t | None => dbTestClones d end;
  dbFanout := default (dbFanout d) (ovFanout ov) |}.

Fixpoint merge_entries (dbs : list Database) (ovs : list OverlayEntry) : list Database :=
  match dbs, ovs with
  | d :: dbs, ov :: ovs => merge_entry d ov :: merge_entries dbs ovs
  | dbs, _ => dbs
  end.

Definition ApplyMainWorktreeOverlay (cfg : Config) : Config :=
  match overlay cfg, Databases cfg with
  | [], _ | _, [] => cfg
  | ovs, dbs => {| Databases := merge_entries dbs ovs; overlay := ovs |}
  end.

Lemma overlay_lookup cfg i :
  Databases (ApplyMainWorktreeOverlay cfg) !! i =
  match Databases cfg !! i, overlay cfg !! i with
  | Some d, Some ov => Some (merge_entry d ov)
  | d, _ => d
  end.
Proof.
  assert (forall dbs ovs (i : nat), merge_entries dbs ovs !! i =
    match dbs !! i, ovs !! i with Some d, Some ov => Some (merge_entry d ov) | d, _ => d end) as H.
  { induction dbs as [|d dbs IH]; intros [|ov ovs] [|j]; try done; [cbn; by destruct (dbs !! j)|exact (IH ovs j)]. }
  unfold ApplyMainWorktreeOverlay. destruct cfg as [dbs ovs]. cbn. destruct ovs as [|ov ovs].
  - change (dbs !! i = match dbs !! i with Some d => Some d | None => None end). by destruct (dbs !! i).
  - destruct dbs as [|d dbs]; [done|]. apply (H (d :: dbs) (ov :: ovs)).
Qed.
End Overlay.
Arguments Database : clear implicits.
Arguments OverlayEntry : clear implicits.
Arguments Config : clear implicits.

(** ** The base branch *)
Section BaseBranch.
Context `{!Git}.
(** what the statements on the tables find, or fail *)
Context (store_fault : nat -> bool) (d : DB) (t : Tables).

Definition read_db {A} (a : A) : G (res err A) := fun n =>
  ({| count := S (count n); commands := commands n |}, if store_fault (count n) then Err StoreFault else Ok a).

Definition stripRemotePrefix (ref : string) : G string :=
  match cut_byte "/" ref with
  | None => mret ref
  | Some (candidate, after) =>
      remotes ← Output ["remote"];
      mret (match remotes with
            | None => ref
            | Some out => if existsb (fun r => String.eqb (TrimSpace r) candidate) (lines (TrimSpace out)) then after else ref
            end)
  end.

Definition baseBranchOf (branch : string) : G string :=
  if String.eqb branch "" then mret ""
  else b ← BranchBase branch;
       if negb (String.eqb b "") then mret b
       else out ← output_string ["rev-parse"; "--abbrev-ref"; branch +:+ "@{upstream}"];
            match out with
            | None | Some "" => mret ""
            | Some out => stripRemotePrefix out
            end.

Definition lookupMainBranch (repoID : Z) : G (res err string) :=
  row ← (if (0 <? repoID)%Z then read_db (LookupMainWorktree repoID d) else mret (Ok None));
  match row with
  | Err e => mret (Err e)
  | Ok row =>
      match row ≫= Branch with
      | None | Some "" =>
          out ← output_string ["rev-parse"; "--abbrev-ref"; "HEAD"];
          mret (Ok (match out with
                    | None => ""
                    | Some out => if String.eqb (TrimSpace out) "HEAD" then "" else TrimSpace out
                    end))
      | Some b => mret (Ok b)
      end
  end.

(** the candidates so far and the names seen *)
Definition add (b : string) (mustExist : bool) (x : list string * list string) : G (list string * list string) :=
  let '(out, seen) := x in
  if String.eqb b "" || bool_decide (b ∈ seen) then mret x
  else ok ← (if mustExist then exists_ref ("refs/heads/" +:+ b) else mret true);
       mret (if (ok : bool) then out ++ [b] else out, b :: seen).

Fixpoint add_all (bs : list string) (x : list string * list string) : G (list string * list string) :=
  match bs with [] => mret x | b :: bs => x ← add b true x; add_all bs x end.

Definition live_branches (repoID : Z) : list string :=
  map (fun w => default "" (Branch w)) (List.filter active (ListWorktreesForRepo repoID d)).

Definition baseCandidates (repoID : Z) : G (res err (list string)) :=
  main ← lookupMainBranch repoID;
  match main with
  | Err e => mret (Err e)
  | Ok main =>
      x ← add main false ([], []);
      if (repoID <=? 0)%Z then mret (Ok x.1) else
      rows ← read_db (live_branches repoID);
      match rows with
      | Err e => mret (Err e)
      | Ok rows =>
          x ← add_all rows x;
          durs ← read_db (map dBranch (ListBranchDurables repoID t));
          match durs with
          | Err e => mret (Err e)
          | Ok durs => x ← add_all durs x; mret (Ok x.1)
          end
      end
  end.

(** the best candidate with its fork point, and the tip of the new branch *)
Definition consider (newBranch tip : string) (best : string * string) (c : string) : G (string * string) :=
  if String.eqb c newBranch then mret best else
  mb ← output_string ["merge-base"; newBranch; c];
  match mb with
  | None | Some "" => mret best
  | Some mb =>
      child ← (if String.eqb mb tip
               then ctip ← output_string ["rev-parse"; "--verify"; "--quiet"; c +:+ "^{commit}"];
                    mret (negb (String.eqb (default "" ctip) tip))
               else mret false);
      if (child : bool) then mret best
      else if String.eqb best.1 "" then mret (c, mb)
      else if String.eqb mb best.2 then mret best
      else ok ← RunOptional ["merge-base"; "--is-ancestor"; best.2; mb];
           mret (if (ok : bool) then (c, mb) else best)
  end.

Fixpoint consider_all (newBranch tip : string) (best : string * string) (cs : list string) : G (string * string) :=
  match cs with
  | [] => mret best
  | c :: cs => best ← consider newBranch tip best c; consider_all newBranch tip best cs
  end.

Definition nearestBaseCandidate (newBranch : string) (candidates : list string) : G string :=
  tip ← output_string ["rev-parse"; "--verify"; "--quiet"; newBranch +:+ "^{commit}"];
  match tip with
  | None | Some "" => mret ""
  | Some tip => best ← consider_all newBranch tip ("", "") candidates; mret best.1
  end.

Definition resolveBaseBranch (repoID : Z) (newBranch : string) : G (res err string) :=
  b ← baseBranchOf newBranch;
  if negb (String.eqb b "") && negb (String.eqb b newBranch) then mret (Ok b) else
  candidates ← baseCandidates repoID;
  match candidates with
  | Err e => mret (Err e)
  | Ok candidates => b ← nearestBaseCandidate newBranch candidates; mret (Ok b)
  end.

(** ** The live database of a branch *)
Context {TC FO : Type} (cfg : Config TC FO) (repoRoot : string) (dbIdx : nat) (scope : bsScope).
(** the digest, the suffix of the process, the working directory, the Redis window *)
Context (blake3 : string -> string) (suffix : string) (getwd : option string) (window : redis_range).

Definition baseTemplate (d : DatabaseConfig) : string :=
  match scope with scopePrefix => KeyPrefix d | scopeName => NameTemplate d end.

(** None: not found; a template that cannot be rendered is an error *)
Definition render_base (c : Config TC FO) (sl : Slug.Slug) : res err (option string) :=
  match Databases c !! dbIdx with
  | None => Ok None
  | Some db =>
      match Template.Render (baseTemplate (dbTemplates db)) (FromSlug window sl) with
      | Err _ => Err Other
      | Ok name => Ok (if String.eqb name "" then None else Some name)
      end
  end.

Definition renderMainBaseDB (path branch : string) : res err (option string) :=
  render_base (ApplyMainWorktreeOverlay cfg) (Slug.ForMain blake3 suffix path branch).
Definition renderWorktreeBaseDB (sl : Slug.Slug) : res err (option string) := render_base cfg sl.

Definition on_branch (base : string) (w : WtRow) : bool := active w && String.eqb (default "" (Branch w)) base.

Definition resolveBaseSourceDB (repoID : Z) (newBranch : string) : G (res err (option string)) :=
  base ← resolveBaseBranch repoID newBranch;
  match base with
  | Err e => mret (Err e)
  | Ok "" => mret (Ok None)
  | Ok base =>
      rows ← read_db (ListWorktreesForRepo repoID d);
      match rows with
      | Err e => mret (Err e)
      | Ok rows =>
          match List.filter (on_branch base) rows with
          | w :: _ =>
              mret (if IsMain w then renderMainBaseDB (Path w) base
                    else renderWorktreeBaseDB (Slug.For blake3 suffix getwd (Path w) ""))
          | [] =>
              cur ← output_string ["rev-parse"; "--abbrev-ref"; "HEAD"];
              mret (if String.eqb (default "" cur) base then renderMainBaseDB repoRoot base else Ok None)
          end
      end
  end.

Definition mainWorktreeBaseDB (repoID : Z) (newBranch : string) : G (res err (option string)) :=
  main ← lookupMainBranch repoID;
  match main with
  | Err e => mret (Err e)
  | Ok main =>
      if String.eqb main "" || String.eqb main newBranch then mret (Ok None) else
      mb ← output_string ["merge-base"; newBranch; main];
      match mb with
      | None | Some "" => mret (Ok None)
      | Some _ =>
          row ← read_db (LookupMainWorktree repoID d);
          mret (match row with
                | Err e => Err e
                | Ok row => renderMainBaseDB (match row with Some w => over (Path w) repoRoot | None => repoRoot end) main
                end)
      end
  end.
End BaseBranch.

(** ** The nearest fork point *)
Section Nearest.
Context `{!Git, !History}.
Context (Hgit : honest) (newBranch tip : string) (Htip : resolve newBranch = Some tip).

(** the fork point of a candidate; a branch that descends from the new one is
    its child and none *)
Definition fork (c : string) : option string := TrimSpace <$> run_git 0 ["merge-base"; newBranch; c].
Definition eligible (c m : string) : Prop :=
  c <> newBranch /\ fork c = Some m /\ (m = tip -> resolve c = Some tip).

Lemma rev_parse_tip b n : (output_string ["rev-parse"; "--verify"; "--quiet"; b +:+ "^{commit}"] n).2 = resolve b.
Proof using Hgit.
  unfold output_string. cbn [snd]. rewrite (rev_parse Hgit). destruct (resolve b) as [c|] eqn:E; [|done]. cbn.
  destruct (commit_name Hgit _ _ E) as (_ & Hne & Htrim). f_equal. by apply TrimSpace_line.
Qed.

Lemma fork_commit c m : fork c = Some m -> resolve m = Some m /\ m <> "" /\ ancestor m tip.
Proof using Hgit Htip.
  unfold fork. intros Hf. destruct (resolve c) as [cc|] eqn:Ec.
  - pose proof (merge_base Hgit 0 newBranch c tip cc Htip Ec) as Hm.
    destruct (run_git 0 _) as [out|]; [|done]. injection Hf as <-. destruct Hm as (m & -> & Hm & Ha & _).
    destruct (commit_name Hgit _ _ Hm) as (_ & ? & _). done.
  - by rewrite (merge_base_unknown Hgit) in Hf by by right.
Qed.

(** one candidate: the answer changes to a candidate whose fork point is newer *)
Lemma consider_spec best c n :
  let r := (consider newBranch tip best c n).2 in
  ((forall m, ~ eligible c m) /\ r = best) \/
  exists m, eligible c m /\
    ((best.1 = "" \/ (best.1 <> "" /\ m <> best.2 /\ (resolve best.2 = Some best.2 -> ancestor best.2 m))) /\ r = (c, m) \/
     best.1 <> "" /\ (m = best.2 \/ (resolve best.2 = Some best.2 -> ~ ancestor best.2 m)) /\ r = best).
Proof using Hgit Htip.
  cbn zeta. unfold consider. destruct (String.eqb_spec c newBranch) as [->|Hc].
  { left. split; [|done]. by intros m (? & _). }
  rewrite G_bind_eq, (output_string_eq ["merge-base"; newBranch; c]). cbn [fst snd]. rewrite (unchanged Hgit _ 0). fold (fork c).
  destruct (fork c) as [m|] eqn:Ef; [|left; split; [|done]; intros m (_ & ? & _); congruence].
  destruct (fork_commit _ _ Ef) as (Hm & Hne & _). destruct m as [|m0 m1] eqn:Em; [done|]. rewrite <- Em in *. clear Em m0 m1.
  rewrite G_bind_eq. set (child := if String.eqb m tip then _ else _).
  assert ((child (tell ["merge-base"; newBranch; c] n)).2 = negb (bool_decide (m = tip -> resolve c = Some tip))) as Hchild.
  { unfold child. destruct (String.eqb_spec m tip) as [Hmt|Hmt].
    - rewrite G_bind_eq. cbn [mret G_ret snd]. rewrite rev_parse_tip. f_equal.
      destruct (resolve c) as [rc|] eqn:Er.
      + change (default "" (Some rc)) with rc. destruct (String.eqb_spec rc tip) as [->|Hn]; symmetry; [by apply bool_decide_eq_true_2|].
        apply bool_decide_eq_false_2. intros Hbad. specialize (Hbad Hmt). congruence.
      + change (default "" None) with "". subst m. destruct (String.eqb_spec "" tip) as [<-|]; [done|].
        symmetry. apply bool_decide_eq_false_2. intros Hbad. by specialize (Hbad eq_refl).
    - cbn. by rewrite bool_decide_eq_true_2. }
  rewrite Hchild. case_bool_decide as Hel; cbn [negb].
  2: { left. split; [|done]. intros m' (_ & Hm' & Ht). rewrite Ef in Hm'. injection Hm' as <-. tauto. }
  right. exists m. split; [done|]. destruct (String.eqb_spec best.1 "") as [Hb|Hb]; [left; auto|].
  destruct (String.eqb_spec m best.2) as [Hbm|Hbm]; [right; auto|].
  rewrite G_bind_eq. unfold RunOptional. cbn [fst snd mret G_ret]. case_bool_decide as Hr.
  - left. split; [|done]. right. split_and!; try done. intros Hres. by eapply (is_ancestor Hgit).
  - right. split_and!; try done. right. intros Hres Ha. by apply Hr, (is_ancestor Hgit).
Qed.

(** [b] with fork point [m] is the nearest of [cs]: no fork point is newer, and
    no earlier candidate has the same *)
Definition nearest_in (cs : list string) (b m : string) : Prop := exists pre post,
  cs = pre ++ b :: post /\ eligible b m /\
  (forall c m', c ∈ pre -> eligible c m' -> ~ ancestor m m') /\
  (forall c m', c ∈ post -> eligible c m' -> ancestor m m' -> m' = m).

Definition nearest_so_far (cs : list string) (best : string * string) : Prop :=
  (best.1 = "" /\ forall c m, c ∈ cs -> ~ eligible c m) \/ (best.1 <> "" /\ nearest_in cs best.1 best.2).

Lemma nearest_step cs best c n : c <> "" ->
  nearest_so_far cs best -> nearest_so_far (cs ++ [c]) (consider newBranch tip best c n).2.
Proof using Hgit Htip.
  intros Hc Hbest. destruct (consider_spec best c n) as [[Hel ->]|(m & Hel & Hcase)].
  - destruct Hbest as [[Hb Hnone]|[Hb (pre & post & -> & He & H1 & H2)]].
    + left. split; [done|]. intros c' m [?| ->%list_elem_of_singleton]%elem_of_app; [by apply Hnone|apply Hel].
    + right. split; [done|]. exists pre, (post ++ [c]). rewrite <- app_assoc. split_and!; try done.
      intros c' m' [?| ->%list_elem_of_singleton]%elem_of_app; [by eapply H2|intros He'; by apply Hel in He'].
  - assert (resolve m = Some m) as Hm by apply (fork_commit c m (proj1 (proj2 Hel))).
    destruct Hcase as [[Hnew ->]|(Hb & Hold & ->)].
    + right. split; [done|]. exists cs, []. split_and!; [done|done| |by intros ?? ?%not_elem_of_nil].
      cbn [fst snd]. intros c' m' Hin He' Hanc.
      destruct Hbest as [[Hb Hnone]|[Hb (pre & post & -> & He & H1 & H2)]]; [by eapply Hnone|].
      destruct Hnew as [?|(_ & Hne & Hnew)]; [done|].
      specialize (Hnew (proj1 (fork_commit _ _ (proj1 (proj2 He))))).
      assert (ancestor best.2 m') as Hbm by (by eapply ancestor_trans).
      assert (m' = best.2 -> False) as Hno by (intros ->; apply Hne; by apply ancestor_antisym).
      apply elem_of_app in Hin as [Hin|[->|Hin]%elem_of_cons]; [by eapply H1| |by eapply Hno, H2].
      destruct He as (_ & Hf & _), He' as (_ & Hf' & _). apply Hno. congruence.
    + destruct Hbest as [[? _]|[_ (pre & post & -> & He & H1 & H2)]]; [done|].
      right. split; [done|]. exists pre, (post ++ [c]). rewrite <- app_assoc. split_and!; try done.
      intros c' m' [?| ->%list_elem_of_singleton]%elem_of_app He' Hanc; [by eapply H2|].
      assert (m' = m) as -> by (destruct Hel as (_ & Hf & _), He' as (_ & Hf' & _); congruence).
      destruct Hold as [?|Hold]; [done|]. exfalso. apply Hold; [|done].
      apply (fork_commit _ _ (proj1 (proj2 He))).
Qed.

Lemma nearest_all cs : Forall (fun c => c <> "") cs -> forall done best n,
  nearest_so_far done best -> nearest_so_far (done ++ cs) (consider_all newBranch tip best cs n).2.
Proof using Hgit Htip.
  induction 1 as [|c cs Hc _ IH]; intros dn best n Hsf; cbn [consider_all]; [by rewrite app_nil_r|].
  rewrite G_bind_eq. change (dn ++ c :: cs) with (dn ++ [c] ++ cs). rewrite app_assoc.
  by apply IH, nearest_step.
Qed.
End Nearest.

(** among the candidates with shared history that are not
    children of the new branch, the one whose fork point no other fork point
    descends from is chosen, the earliest of them on a tie; when there is no
    such candidate, or the new branch has no commit, none is. *)
Theorem nearest_base `{!Git, !History} (Hgit : honest) newBranch cs n
    (Hcs : Forall (fun c => c <> "") cs) :
  let b := (nearestBaseCandidate newBranch cs n).2 in
  match resolve newBranch with
  | None => b = ""
  | Some tip =>
      (b = "" /\ forall c m, c ∈ cs -> ~ eligible newBranch tip c m) \/
      exists m, b <> "" /\ nearest_in newBranch tip cs b m
  end.
Proof.
  cbn zeta. unfold nearestBaseCandidate. rewrite G_bind_eq, (rev_parse_tip Hgit). cbn [fst].
  destruct (resolve newBranch) as [tip|] eqn:Et; [|done].
  destruct (commit_name Hgit _ _ Et) as (_ & Hne & _). destruct tip as [|t0 t1] eqn:Em; [done|]. rewrite <- Em in *. clear Em t0 t1.
  rewrite G_bind_eq. cbn [mret G_ret snd]. set (n' := (_ : asked * option string).1).
  assert (nearest_so_far newBranch tip [] ("", "")) as Hnil by (left; split; [done|intros c m ?%not_elem_of_nil; done]).
  pose proof (nearest_all Hgit newBranch tip Et cs Hcs [] ("", "") n' Hnil) as Hall.
  destruct Hall as [[Hb Hall]|[Hb Hall]]; [left|right; eauto]. by split; [exact Hb|].
Qed.

(** ** The database of the base *)
(** a template without an opening brace is its own value *)
Lemma Render_plain tmpl c : has_byte "{" tmpl = false -> Template.Render tmpl c = Ok tmpl.
Proof.
  intros Hb. unfold Template.Render. rewrite <- (print_lits tmpl), <- (str_app_nil_r (print (lits tmpl))) at 1.
  assert (forall s, has_byte "{" s = false -> wf_tokens (lits s) "") as Hwf.
  { induction s as [|a s IH]; [done|]. cbn. intros [Ha Hs]%orb_false_iff.
    assert (a <> "{"%char) as Hne by (intros ->; done). split_and!; [done| |by apply IH].
    intros _ inner Hin. exfalso. rewrite str_app_nil_r, print_lits in Hin. by rewrite Hin in Hs. }
  rewrite renderWith_spec; [|by apply Hwf|by left]. rewrite print_lits.
  assert (forall f s, token_value f (lits s) = Ok s) as ->; [|done].
  intros f. induction s as [|a s IH]; [done|]. cbn. by rewrite IH.
Qed.

Section Sources.
Context `{!Git} (store_fault : nat -> bool) (d : DB) (t : Tables).

Lemma consider_not_new newBranch tip best c n :
  let r := (consider newBranch tip best c n).2 in r = best \/ (r.1 = c /\ c <> newBranch).
Proof using.
  cbn zeta. unfold consider. destruct (String.eqb_spec c newBranch); [by left|]. rewrite G_bind_eq.
  destruct ((output_string ["merge-base"; newBranch; c] n).2) as [[|m0 m1]|]; [by left| |by left].
  rewrite G_bind_eq. match goal with |- context [if (?g).2 then _ else _] => destruct (g.2) end; [by left|].
  destruct (String.eqb best.1 ""); [by right|].
  destruct (String.eqb _ best.2); [by left|]. rewrite G_bind_eq. cbn [mret G_ret snd].
  match goal with |- context [if (?g).2 then _ else _] => destruct (g.2) end; [by right|by left].
Qed.

Lemma nearest_not_new newBranch cs n :
  let b := (nearestBaseCandidate newBranch cs n).2 in b = "" \/ (b ∈ cs /\ b <> newBranch).
Proof using.
  cbn zeta. unfold nearestBaseCandidate. rewrite G_bind_eq.
  destruct ((output_string ["rev-parse"; "--verify"; "--quiet"; newBranch +:+ "^{commit}"] n).2) as [[|t0 t1]|]; [by left| |by left].
  rewrite G_bind_eq. cbn [mret G_ret snd]. generalize (String t0 t1) as tip, (fst (output_string ["rev-parse"; "--verify"; "--quiet"; newBranch +:+ "^{commit}"] n)) as n'.
  intros tip. assert (forall cs best n', let r := (consider_all newBranch tip best cs n').2 in
    r = best \/ (r.1 ∈ cs /\ r.1 <> newBranch)) as Hall.
  { clear. induction cs as [|c cs IH]; intros best n'; [by left|]. cbn zeta. cbn [consider_all]. rewrite G_bind_eq.
    destruct (IH (consider newBranch tip best c n').2 (consider newBranch tip best c n').1) as [->|[Hin Hne]].
    - destruct (consider_not_new newBranch tip best c n') as [->|[-> ?]]; [by left|right]. split; [by left|done].
    - right. split; [by right|done]. }
  intros n'. destruct (Hall cs ("", "") n') as [->|?]; [by left|by right].
Qed.

(** the base of a branch is another branch *)
Lemma base_is_other repoID newBranch n b :
  (resolveBaseBranch store_fault d t repoID newBranch n).2 = Ok b -> b = "" \/ b <> newBranch.
Proof using.
  unfold resolveBaseBranch. rewrite G_bind_eq. set (b0 := snd (baseBranchOf _ _)).
  destruct (String.eqb_spec b0 ""), (String.eqb_spec b0 newBranch); cbn [negb andb]; try (by intros [= <-]; right).
  all: rewrite G_bind_eq; destruct (snd (baseCandidates _ _ _ _ _)) as [cs|]; [|done].
  all: rewrite G_bind_eq; cbn [mret G_ret snd]; intros [= <-].
  all: match goal with |- context [nearestBaseCandidate ?x ?y ?z] => destruct (nearest_not_new x y z) as [?|[_ ?]]; [by left|by right] end.
Qed.

Context {TC FO : Type} (cfg : Config TC FO) (repoRoot : string) (dbIdx : nat) (scope : bsScope).
Context (blake3 : string -> string) (suffix : string) (getwd : option string) (window : redis_range).

(** the namespace that [BranchSwap] gives to a worktree *)
Definition namespace_of (c : Config TC FO) (path : string) : option string :=
  db ← Databases c !! dbIdx; activeNamespace blake3 suffix getwd window (dbTemplates db) scope path.

(** the name does not depend on what it is rendered for *)
Definition slug_free (c : Config TC FO) : Prop :=
  forall db c1 c2, Databases c !! dbIdx = Some db ->
    Template.Render (baseTemplate scope (dbTemplates db)) c1 = Template.Render (baseTemplate scope (dbTemplates db)) c2.

Lemma render_base_linked path name :
  renderWorktreeBaseDB cfg dbIdx scope window (Slug.For blake3 suffix getwd path "") = Ok (Some name) ->
  namespace_of cfg path = Some name.
Proof using.
  unfold renderWorktreeBaseDB, render_base, namespace_of. destruct (Databases cfg !! dbIdx) as [db|]; [|done]. cbn.
  unfold activeNamespace, baseTemplate. destruct scope; destruct (Template.Render _ _) as [s|]; try done.
  all: destruct (String.eqb s ""); [done|]; by intros [= ->].
Qed.

Lemma render_base_main path branch name :
  slug_free (ApplyMainWorktreeOverlay cfg) ->
  renderMainBaseDB cfg dbIdx scope blake3 suffix window path branch = Ok (Some name) ->
  namespace_of (ApplyMainWorktreeOverlay cfg) path = Some name.
Proof using.
  intros Hfree. unfold renderMainBaseDB, render_base, namespace_of.
  destruct (Databases (ApplyMainWorktreeOverlay cfg) !! dbIdx) as [db|] eqn:Edb; [|done]. cbn.
  rewrite (Hfree db _ (FromSlug window (Slug.For blake3 suffix getwd path "")) Edb).
  unfold activeNamespace, baseTemplate. destruct scope; destruct (Template.Render _ _) as [s|]; try done.
  all: destruct (String.eqb s ""); [done|]; by intros [= ->].
Qed.
End Sources.

(** the live database a new branch is seeded from is the active
    namespace - as [BranchSwap] names it - of a registered worktree that is on
    its base branch, or of the checkout at the root of the repository when git
    says that it is on the base and no registered worktree is; and the base is
    never the new branch itself. *)
Theorem seed_source `{!Git} (store_fault : nat -> bool) (d : DB) (t : Tables) {TC FO} (cfg : Config TC FO)
    (repoRoot : string) (dbIdx : nat) (scope : bsScope) (blake3 : string -> string) (suffix : string)
    (getwd : option string) (window : redis_range) (repoID : Z) (newBranch : string) (n : asked) (name : string)
    (Hfree : slug_free dbIdx scope (ApplyMainWorktreeOverlay cfg))
    (Hrun : (resolveBaseSourceDB store_fault d t cfg repoRoot dbIdx scope blake3 suffix getwd window repoID newBranch n).2 = Ok (Some name)) :
  exists base, base <> "" /\ base <> newBranch /\
    ((exists w, w ∈ ListWorktreesForRepo repoID d /\ active w = true /\ Branch w = Some base /\
        namespace_of dbIdx scope blake3 suffix getwd window (if IsMain w then ApplyMainWorktreeOverlay cfg else cfg) (Path w) = Some name) \/
     ((forall w, w ∈ ListWorktreesForRepo repoID d -> active w = true -> Branch w <> Some base) /\
      (exists m, (output_string ["rev-parse"; "--abbrev-ref"; "HEAD"] m).2 = Some base) /\
      namespace_of dbIdx scope blake3 suffix getwd window (ApplyMainWorktreeOverlay cfg) repoRoot = Some name)).
Proof.
  unfold resolveBaseSourceDB in Hrun. rewrite G_bind_eq in Hrun.
  destruct ((resolveBaseBranch store_fault d t repoID newBranch n).2) as [base|] eqn:Eb; [|done].
  apply base_is_other in Eb. destruct base as [|b0 b1] eqn:Em; [done|]. rewrite <- Em in *.
  assert (base <> "") as Hne by (by subst). clear Em b0 b1. destruct Eb as [?|Hother]; [done|].
  exists base. split_and!; [done..|]. rewrite G_bind_eq in Hrun. unfold read_db in Hrun. cbn [fst snd] in Hrun.
  destruct (store_fault _); [done|].
  destruct (List.filter (on_branch base) (ListWorktreesForRepo repoID d)) as [|w ws] eqn:Ew.
  - right. rewrite G_bind_eq in Hrun. cbn [mret G_ret snd] in Hrun.
    match type of Hrun with context [default "" ?o] => destruct o as [cur|] eqn:Ecur end.
    + change (default "" (Some cur)) with cur in Hrun. destruct (String.eqb_spec cur base) as [->|]; [|done]. split_and!; [|by eexists|by eapply render_base_main].
      intros w Hw Ha Hb. assert (w ∈ []) as Hin; [|by apply elem_of_nil in Hin].
      rewrite <- Ew. apply elem_of_filter_bool. split; [|done]. unfold on_branch. rewrite Ha, Hb. cbn. by apply String.eqb_refl.
    + change (default "" None) with "" in Hrun. destruct (String.eqb_spec "" base); [by subst|done].
  - left. assert (w ∈ w :: ws) as Hin by by left. rewrite <- Ew in Hin. apply elem_of_filter_bool in Hin as [Hon Hin].
    apply andb_true_iff in Hon as [Ha Hb%String.eqb_eq]. exists w. split_and!; [done..| |].
    + destruct (Branch w) as [b|]; cbn in Hb; by subst.
    + cbn [mret G_ret snd] in Hrun. destruct (IsMain w); [by eapply render_base_main|by eapply render_base_linked].
Qed.

(** ** On a small repository *)
#[local] Existing Instance demo_git.
#[local] Existing Instance demo_history_of.
Definition demo_candidates : list string := ["main"; "develop"; "feature"; "gone"].

Lemma nearest_base_witness :
  (nearestBaseCandidate "feature" demo_candidates unasked).2 = "develop" /\
  ((("develop" : string) = "" /\ forall c m, c ∈ demo_candidates -> ~ eligible "feature" "f1" c m) \/
   exists m, ("develop" : string) <> "" /\ nearest_in "feature" "f1" demo_candidates "develop" m).
Proof.
  split; [vm_compute; reflexivity|].
  refine (nearest_base demo_git_honest "feature" demo_candidates unasked _). by repeat constructor.
Defined.

Definition demo_rows : DB :=
  run [ORepo "/r" "r"; OMain 1 "/r" "main_1" "main"; OWorktree 1 "/w/dev" "wt_2" "develop" ""] empty.
Definition demo_cfg : Config unit unit := {|
  Databases := [{| dbTemplates := {| NameTemplate := "app_{slug}"; KeyPrefix := "" |}; dbTestClones := None; dbFanout := tt |}];
  overlay := [{| ovNameTemplate := "app"; ovKeyPrefix := ""; ovTestClones := None; ovFanout := None |}] |}.
Definition no_rows : Tables :=
  {| active_branch_db := ∅; branch_durables := []; branch_db_migrated := ∅; template_db_built := ∅ |}.

Lemma seed_source_witness :
  (resolveBaseSourceDB (fun _ => false) demo_rows no_rows demo_cfg "/r" 0 scopeName sample_digest "" None default_range 1 "feature" unasked).2
    = Ok (Some "app_wt_2f772f64") /\
  exists base, base <> "" /\ base <> ("feature" : string).
Proof.
  split; [vm_compute; reflexivity|].
  destruct (seed_source (fun _ => false) demo_rows no_rows demo_cfg "/r" 0 scopeName sample_digest "" None default_range 1 "feature" unasked
    "app_wt_2f772f64") as (base & H1 & H2 & _).
  - intros db c1 c2 [= <-]. by rewrite !Render_plain.
  - vm_compute. reflexivity.
  - by exists base.
Defined.
