(* ===== verification/BranchPrune.v ===== *)
(** * Pruning merged branches

    [internal/daemon/branchprune.go]: after a fetch the daemon deletes local
    branches whose upstream is gone and whose work is provably in the default
    branch.  Git is asked through [Git]; the theorem takes what git documents
    of ancestry and of patch identifiers as a hypothesis. *)
From stdpp Require Import base strings list gmap.
From Stdlib Require Import ZArith Lia.
From S2P Require Import Prelude GoStrings Lines Registry WtReg Git GitDemo.

Definition maxSquashScanCommits : Z := 5000.

(** the first blank-separated field *)
Definition firstField (b : string) : string :=
  let s := TrimSpace b in match cut_byte " " s with Some (before, _) => before | None => s end.

(** the lines of an output, without the empty ones *)
Definition output_lines (out : string) : list string :=
  List.filter (fun l => negb (String.eqb l "")) (lines (TrimSpace out)).

Section Prune.
Context `{!Git}.

Fixpoint first_existing (refs : list string) : G (option string) :=
  match refs with
  | [] => mret None
  | c :: refs => ok ← exists_ref c; if (ok : bool) then mret (Some c) else first_existing refs
  end.

(** [headFile] is the content of .git/refs/remotes/origin/HEAD *)
Definition loose_head (headFile : option string) : option string :=
  b ← headFile; ref ← cut_prefix "ref: refs/remotes/origin/" (TrimSpace b);
  if String.eqb ref "" then None else Some ("origin/" +:+ ref).

Definition symref_args : list string := ["symbolic-ref"; "--short"; "refs/remotes/origin/HEAD"].
Definition defaultRemoteRef (headFile : option string) : G (option string) :=
  match loose_head headFile with
  | Some ref => mret (Some ref)
  | None =>
      s ← output_string symref_args;
      match s with
      | None | Some "" => first_existing ["origin/main"; "origin/master"]
      | Some s => mret (Some s)
      end
  end.

Definition merged_args (ref : string) : list string :=
  ["for-each-ref"; "--merged=" +:+ ref; "--format=%(refname:short)"; "refs/heads"].

Definition mergedBranchSet (ref : string) : G (gset string) :=
  out ← Output (merged_args ref);
  mret (match out with None => ∅ | Some out => list_to_set (output_lines out) end).

Definition commitsBehind (base defRef : string) : G (option Z) :=
  s ← output_string ["rev-list"; "--count"; base +:+ ".." +:+ defRef];
  mret (s ≫= fun s => atoi (TrimSpace s)).

Definition diff_args (base branch : string) : list string := ["diff"; base; branch].
Definition patch_id_args : list string := ["patch-id"; "--stable"].

Definition cumulativeDiffPatchID (base branch : string) : G string :=
  out ← PipeOutput (diff_args base branch) patch_id_args;
  mret (match out with None => "" | Some out => firstField out end).

Definition oldestCommonAncestor (commits : list string) : G string :=
  match commits with
  | [] => mret ""
  | [c] => mret c
  | _ => s ← output_string ("merge-base" :: commits); mret (default "" s)
  end.

Definition log_args (defRef oldest : string) : list string :=
  ["log"; "-p"; "--no-merges"; "--format=commit %H"; defRef] ++
  (if String.eqb oldest "" then [] else ["^" +:+ oldest]).

Definition defRefPatchIDIndex (defRef : string) (bases : list string) : G (option (gset string)) :=
  oldest ← oldestCommonAncestor bases;
  out ← PipeOutput (log_args defRef oldest) patch_id_args;
  mret ((fun out => list_to_set (List.filter (fun id => negb (String.eqb id "")) (map firstField (lines out)))) <$> out).

(** the suspects that may be squash merges: name, patch id of the whole branch, fork point *)
Definition candidate_of (defRef name : string) : G (option (string * string * string)) :=
  base ← output_string ["merge-base"; defRef; name];
  match base with
  | None | Some "" => mret None
  | Some base =>
      dist ← commitsBehind base defRef;
      match dist with
      | None => mret None
      | Some dist =>
          if (maxSquashScanCommits <? dist)%Z then mret None
          else pid ← cumulativeDiffPatchID base name;
               mret (if String.eqb pid "" then None else Some (name, pid, base))
      end
  end.

Fixpoint candidates_of (defRef : string) (suspects : list string) : G (list (string * string * string)) :=
  match suspects with
  | [] => mret []
  | name :: suspects =>
      c ← candidate_of defRef name;
      cs ← candidates_of defRef suspects;
      mret (option_list c ++ cs)
  end.

Definition squashMergedSuspects (defRef : string) (suspects : list string) : G (list string) :=
  cands ← candidates_of defRef suspects;
  match cands with
  | [] => mret []
  | _ =>
      present ← defRefPatchIDIndex defRef (map snd cands);
      mret (match present with
            | None => []
            | Some ids => map (fun c => c.1.1) (List.filter (fun c => bool_decide (c.1.2 ∈ ids)) cands)
            end)
  end.

Definition squashContained (defRef branch : string) : G bool :=
  l ← squashMergedSuspects defRef [branch]; mret (bool_decide (branch ∈ l)).

Definition delete_args (name : string) : list string := ["branch"; "-D"; name].
Definition deleteGoneLocal (name : string) (deleted : list string) : G (list string) :=
  ok ← RunOptional (delete_args name); mret (if (ok : bool) then deleted ++ [name] else deleted).

(** a line of the listing: a branch whose upstream is gone, unless it is the
    default branch or checked out *)
Definition gone_local (defName : string) (checkedOut : gset string) (line : string) : option string :=
  let '(name, track) := match cut_byte "009" line with Some x => x | None => (line, "") end in
  if String.eqb name "" || String.eqb name defName || negb (String.eqb track "[gone]") then None
  else if bool_decide (name ∈ checkedOut) then None else Some name.

(** what is deleted at once, and the suspects *)
Fixpoint prune_merged (merged : gset string) (names : list string) (x : list string * list string) : G (list string * list string) :=
  match names with
  | [] => mret x
  | name :: names =>
      if bool_decide (name ∈ merged)
      then deleted ← deleteGoneLocal name x.1; prune_merged merged names (deleted, x.2)
      else prune_merged merged names (x.1, x.2 ++ [name])
  end.

Fixpoint delete_all (names : list string) (deleted : list string) : G (list string) :=
  match names with
  | [] => mret deleted
  | name :: names => deleted ← deleteGoneLocal name deleted; delete_all names deleted
  end.

Definition refs_args : list string := ["for-each-ref"; "--format=%(refname:short)%09%(upstream:track)"; "refs/heads/"].

(** the checkout: [stat] and [read] answer for files, [entries] are those of
    .git/worktrees, None when they cannot be listed *)
Record Checkout := {
  stat : string -> option bool;
  read : string -> option string;
  entries : option (option (list Entry));
  repoRoot : string
}.
Definition branch_of (c : Checkout) (path : string) : string := DetectBranch (stat c) (read c) path.
Definition there (c : Checkout) (path : string) : bool := bool_decide (is_Some (stat c path)).
Definition worktree_paths (c : Checkout) : option (list string) := (fun es => GitWorktreePaths es (there c) (repoRoot c)) <$> entries c.

Definition checkedOutBranches (c : Checkout) : gset string :=
  list_to_set (List.filter (fun b => negb (String.eqb b "")) (map (branch_of c) (repoRoot c :: default [] (worktree_paths c)))).

Definition origin_head (c : Checkout) : option string :=
  read c (path_join (path_join (path_join (path_join (path_join (repoRoot c) ".git") "refs") "remotes") "origin") "HEAD").

Definition pruneGoneLocals (c : Checkout) : G (list string) :=
  defRef ← defaultRemoteRef (origin_head c);
  match defRef with
  | None => mret []
  | Some defRef =>
      let defName := trim_prefix "origin/" defRef in
      out ← Output refs_args;
      match out with
      | None => mret []
      | Some out =>
          let checkedOut := checkedOutBranches c in
          merged ← mergedBranchSet defRef;
          x ← prune_merged merged (omap (gone_local defName checkedOut) (lines (TrimSpace out))) ([], []);
          squashed ← squashMergedSuspects defRef x.2;
          delete_all squashed x.1
      end
  end.
End Prune.

(** ** What is deleted *)
(** the change a commit makes, and the change between two commits, as their
    patch identifiers *)
Class Patches := { change_of : string -> string; change_between : string -> string -> string }.

(** what git documents of the questions above *)
Record honest_prune `{!Git, !History, !Patches} : Prop := {
  prune_base n a b out : run_git n ["merge-base"; a; b] = Some out ->
    exists ca cb, resolve a = Some ca /\ resolve b = Some cb /\ best_common ca cb (TrimSpace out);
  merged_list n ref out b : run_git n (merged_args ref) = Some out -> b ∈ output_lines out ->
    exists tip top, resolve b = Some tip /\ resolve ref = Some top /\ ancestor tip top;
  diff_patch n base b out : pipe_git n (diff_args base b) patch_id_args = Some out -> firstField out <> "" ->
    exists tip, resolve b = Some tip /\ change_between base tip = firstField out;
  log_patches n ref oldest out l : pipe_git n (log_args ref oldest) patch_id_args = Some out -> l ∈ lines out ->
    firstField l <> "" -> exists k top, resolve ref = Some top /\ ancestor k top /\ change_of k = firstField l
}.
Arguments honest_prune : clear implicits.
Arguments honest_prune {_ _ _}.

(** the work of [b] is in [ref]: its tip is, or a commit that makes the same
    change as the whole branch *)
Definition integrated `{!History, !Patches} (ref b : string) : Prop := exists tip top,
  resolve b = Some tip /\ resolve ref = Some top /\
  (ancestor tip top \/
   exists base k, best_common top tip base /\ ancestor k top /\ change_of k = change_between base tip).

(** the default branch of the remote: what origin/HEAD names, in its file or as
    git prints it, and when it names none [origin/main] or else [origin/master],
    when git has it *)
Definition verify_args (ref : string) : list string := ["rev-parse"; "--verify"; "--quiet"; ref].
Definition default_ref `{!Git} (headFile : option string) (d : string) : Prop :=
  (exists b ref, headFile = Some b /\ TrimSpace b = "ref: refs/remotes/origin/" +:+ ref /\ ref <> "" /\ d = "origin/" +:+ ref) \/
  loose_head headFile = None /\ exists n,
    (TrimSpace <$> run_git n symref_args = Some d /\ d <> "" \/
     default "" (TrimSpace <$> run_git n symref_args) = "" /\ (exists m, is_Some (run_git m (verify_args d))) /\
       (d = "origin/main" \/ d = "origin/master" /\ exists m, run_git m (verify_args "origin/main") = None)).

Lemma loose_head_spec headFile d : loose_head headFile = Some d ->
  exists b ref, headFile = Some b /\ TrimSpace b = "ref: refs/remotes/origin/" +:+ ref /\ ref <> "" /\ d = "origin/" +:+ ref.
Proof.
  unfold loose_head. intros (b & -> & (ref & Hc & H)%bind_Some)%bind_Some. apply cut_prefix_app in Hc.
  destruct (String.eqb_spec ref ""); [done|]. injection H as <-. by exists b, ref.
Qed.

(** the branch is checked out in the repository or in a worktree that git
    registers *)
Definition checked_out (c : Checkout) (x : string) : Prop :=
  exists p, (p = repoRoot c \/ exists ps, worktree_paths c = Some ps /\ p ∈ ps) /\ branch_of c p = x.

Lemma checkedOut_spec c x : x <> "" -> checked_out c x -> x ∈ checkedOutBranches c.
Proof.
  intros Hne (p & Hp & Hx). unfold checkedOutBranches. apply elem_of_list_to_set, elem_of_filter_bool.
  split; [by apply negb_true_iff, String.eqb_neq|]. rewrite <- Hx. apply list_elem_of_fmap_2.
  destruct Hp as [->|(ps & -> & Hp)]; [by left|by right].
Qed.

Section Safe.
Context `{!Git, !History, !Patches} (Hgit : honest_prune).

(** a command deletes [good] branches only *)
Definition deletes (good : string -> Prop) (args : list string) : Prop := forall x, args = delete_args x -> good x.

Lemma other_command (good : string -> Prop) args : head args <> Some "branch" -> deletes good args.
Proof using. intros Hh x ->. done. Qed.

Context (good : string -> Prop).
Local Abbreviation does := (runs (deletes good)).

Lemma does_default headFile : does (defaultRemoteRef headFile) (fun o => forall d, o = Some d -> default_ref headFile d).
Proof using.
  unfold defaultRemoteRef. destruct (loose_head headFile) as [ref|] eqn:El.
  { apply runs_ret. intros d [= <-]. left. by apply loose_head_spec. }
  eapply runs_bind; [by apply (runs_string _ _ (fun s => exists n, TrimSpace <$> run_git n symref_args = s)); [apply other_command|eexists]|].
  intros s [n Hn].
  assert (default "" s = "" -> does (first_existing ["origin/main"; "origin/master"]) (fun o => forall d, o = Some d -> default_ref headFile d)) as Hfirst.
  { intros Hs. assert (forall d, (exists m, is_Some (run_git m (verify_args d))) ->
      (d = "origin/main" \/ d = "origin/master" /\ exists m, run_git m (verify_args "origin/main") = None) -> default_ref headFile d) as Hd.
    { intros d Hm Hor. right. split; [done|]. exists n. right. rewrite Hn. by split_and!. }
    cbn [first_existing]. eapply runs_bind;
      [by apply (runs_optional _ _ (fun b => exists m, bool_decide (is_Some (run_git m (verify_args "origin/main"))) = b)); [apply other_command|eexists]|].
    intros [] [m1 Hm1]; [apply runs_ret; intros d [= <-]; apply Hd; [by exists m1; apply bool_decide_eq_true in Hm1|by left]|].
    eapply runs_bind;
      [by apply (runs_optional _ _ (fun b => exists m, bool_decide (is_Some (run_git m (verify_args "origin/master"))) = b)); [apply other_command|eexists]|].
    intros [] [m2 Hm2]; apply runs_ret; [|done]. intros d [= <-]. apply Hd; [by exists m2; apply bool_decide_eq_true in Hm2|right].
    split; [done|]. exists m1. apply bool_decide_eq_false in Hm1. by apply eq_None_not_Some. }
  destruct s as [[|s0 s1]|]; [by apply Hfirst| |by apply Hfirst]. apply runs_ret. intros d [= <-]. right. split; [done|]. exists n. left. by rewrite Hn.
Qed.

Lemma does_delete name deleted : good name ->
  does (deleteGoneLocal name deleted) (fun out => forall x, x ∈ out -> x ∈ deleted \/ good x).
Proof using.
  intros Hg. eapply runs_bind; [apply (runs_optional _ _ (fun _ => True)); [|done]|].
  - intros x [= <-]. done.
  - intros [] _; apply runs_ret; intros x Hx; [|by left].
    apply elem_of_app in Hx as [?| ->%list_elem_of_singleton]; auto.
Qed.

(** the change of a candidate *)
Definition candidate (defRef : string) (suspects : list string) (c : string * string * string) : Prop :=
  c.1.1 ∈ suspects /\ exists tip top, resolve c.1.1 = Some tip /\ resolve defRef = Some top /\
    best_common top tip c.2 /\ c.1.2 <> "" /\ change_between c.2 tip = c.1.2.

Lemma does_candidate defRef name :
  does (candidate_of defRef name) (fun o => forall c, o = Some c -> candidate defRef [name] c).
Proof using Hgit.
  unfold candidate_of.
  apply runs_bind with (R := fun b => forall base, b = Some base -> exists top tip, resolve defRef = Some top /\
     resolve name = Some tip /\ best_common top tip base).
  { apply runs_string; [by apply other_command|]. intros n base (out & Hout & ->)%fmap_Some.
    destruct (prune_base Hgit _ _ _ _ Hout) as (ca & cb & ? & ? & ?). by exists ca, cb. }
  intros base Hbase. destruct base as [[|b0 b1]|]; [by apply runs_ret| |by apply runs_ret].
  set (base := String b0 b1) in *. destruct (Hbase base eq_refl) as (top & tip & Htop & Htip & Hbest).
  eapply runs_bind; [eapply runs_bind; [by apply (runs_string _ _ (fun _ => True)); [apply other_command|]|by intros; apply (runs_ret _ _ (fun _ => True))]|].
  intros [dist|] _; [|by apply runs_ret]. destruct (maxSquashScanCommits <? dist)%Z; [by apply runs_ret|].
  apply runs_bind with (R := fun pid => pid <> "" -> change_between base tip = pid).
  { eapply runs_bind; [apply (runs_pipe _ _ _ (fun out => forall o, out = Some o -> firstField o <> "" -> change_between base tip = firstField o))|].
    - by apply other_command.
    - intros n o Ho Hne. destruct (diff_patch Hgit _ _ _ _ Ho Hne) as (tip' & Htip' & Hc). congruence.
    - intros [o|] Ho; apply runs_ret; [by apply Ho|done]. }
  intros pid Hpid. apply runs_ret. intros c. destruct (String.eqb_spec pid "") as [|Hne]; [done|]. intros [= <-].
  split; [by left|]. exists tip, top. cbn. split_and!; try done. by apply Hpid.
Qed.

Lemma does_candidates defRef suspects :
  does (candidates_of defRef suspects) (Forall (candidate defRef suspects)).
Proof using Hgit.
  induction suspects as [|name suspects IH]; cbn [candidates_of]; [by apply runs_ret|].
  eapply runs_bind; [apply does_candidate|]. intros o Ho. eapply runs_bind; [exact IH|].
  intros cs Hcs. apply runs_ret, Forall_app. split.
  - destruct o as [c|]; [|constructor]. constructor; [|constructor]. destruct (Ho c eq_refl) as [Hin Hcand].
    apply list_elem_of_singleton in Hin. split; [by rewrite Hin; left|done].
  - eapply Forall_impl; [exact Hcs|]. intros c [Hin Hcand]. split; [by right|done].
Qed.

Lemma does_index defRef bases :
  does (defRefPatchIDIndex defRef bases) (fun o => forall ids id, o = Some ids -> id ∈ ids ->
    exists k top, resolve defRef = Some top /\ ancestor k top /\ change_of k = id).
Proof using Hgit.
  unfold defRefPatchIDIndex. apply runs_bind with (R := fun _ => True).
  { destruct bases as [|b1 [|b2 bs]]; [by apply runs_ret..|].
    eapply runs_bind; [by apply (runs_string _ _ (fun _ => True)); [apply other_command|]|by intros; apply runs_ret]. }
  intros oldest _. eapply runs_bind; [apply (runs_pipe _ _ _ (fun out => exists n, pipe_git n (log_args defRef oldest) patch_id_args = out))|].
  - by apply other_command.
  - intros n. by exists n.
  - intros out [n Hn]. apply runs_ret. intros ids id (o & -> & ->)%fmap_Some Hid.
    rewrite elem_of_list_to_set, elem_of_filter_bool, negb_true_iff, String.eqb_neq in Hid. destruct Hid as [Hne Hid].
    apply list_elem_of_fmap in Hid as (l & -> & Hl). by apply (log_patches Hgit _ _ _ _ _ Hn).
Qed.

Lemma does_squash defRef suspects :
  does (squashMergedSuspects defRef suspects) (Forall (fun x => x ∈ suspects /\ integrated defRef x)).
Proof using Hgit.
  unfold squashMergedSuspects. eapply runs_bind; [apply does_candidates|]. intros cands Hc.
  destruct cands as [|c0 cs0] eqn:Ec; [by apply runs_ret|]. rewrite <- Ec in *. clear Ec c0 cs0.
  eapply runs_bind; [apply does_index|]. intros [ids|] Hids; apply runs_ret; [|by constructor].
  apply Forall_fmap, Forall_forall. intros c [Hid%bool_decide_eq_true Hin]%elem_of_filter_bool.
  rewrite Forall_forall in Hc. destruct (Hc c Hin) as (Hs & tip & top & Htip & Htop & Hb & _ & Hch). split; [done|].
  destruct (Hids ids _ eq_refl Hid) as (k & top' & Htop' & Hk & Hkc). exists tip, top. split_and!; [done..|].
  right. exists c.2, k. split_and!; [done| |]; congruence.
Qed.

Lemma does_prune merged names : (forall x, x ∈ names -> x ∈ merged -> good x) -> forall x,
  (forall y, y ∈ x.1 -> good y) ->
  does (prune_merged merged names x) (fun r => (forall y, y ∈ r.1 -> good y) /\ (forall y, y ∈ r.2 -> y ∈ x.2 \/ y ∈ names)).
Proof using.
  induction names as [|name names IH]; intros Hgood x Hx; cbn [prune_merged]; [apply runs_ret; auto|].
  assert (forall y, y ∈ names -> y ∈ merged -> good y) as Htl by (intros y ??; apply Hgood; [by right|done]).
  case_bool_decide as Hm.
  - eapply runs_bind; [apply (does_delete name x.1), Hgood; [by left|done]|].
    intros deleted Hd. eapply runs_mono; [|apply (IH Htl (deleted, x.2))].
    + intros r [Hr1 Hr2]. split; [done|]. intros y Hy. destruct (Hr2 y Hy); [by left|right; by right].
    + intros y Hy. destruct (Hd y Hy); auto.
  - eapply runs_mono; [|apply (IH Htl (x.1, x.2 ++ [name]) Hx)].
    intros r [Hr1 Hr2]. split; [done|]. intros y Hy. destruct (Hr2 y Hy) as [[?| ->%list_elem_of_singleton]%elem_of_app|]; [by left|right; by left|right; by right].
Qed.

Lemma does_delete_all names : (forall x, x ∈ names -> good x) -> forall deleted,
  (forall y, y ∈ deleted -> good y) -> does (delete_all names deleted) (fun r => forall y, y ∈ r -> good y).
Proof using.
  induction names as [|name names IH]; intros Hgood deleted Hd; cbn [delete_all]; [by apply runs_ret|].
  eapply runs_bind; [apply (does_delete name deleted), Hgood; by left|]. intros out Hout.
  apply IH; [intros x Hx; apply Hgood; by right|]. intros y Hy. destruct (Hout y Hy); auto.
Qed.
End Safe.

Lemma gone_local_spec defName checkedOut line name :
  gone_local defName checkedOut line = Some name ->
  name <> "" /\ name <> defName /\ name ∉ checkedOut /\ line = name +:+ String "009" "[gone]".
Proof.
  unfold gone_local. destruct (cut_byte "009" line) as [[a b]|] eqn:Ec.
  - destruct (String.eqb_spec a ""); [done|]. destruct (String.eqb_spec a defName); [done|].
    destruct (String.eqb_spec b "[gone]") as [->|]; [|done]. cbn. case_bool_decide; [done|]. intros [= <-].
    split_and!; [done..|]. by apply cut_byte_app in Ec as [-> _].
  - change (negb (String.eqb "" "[gone]")) with true. by rewrite orb_true_r.
Qed.

(** a branch that may go: its upstream is gone, it is not checked out anywhere
    nor the default branch [d], and its work is in the default branch *)
Definition prunable `{!Git, !History, !Patches} (c : Checkout) (d x : string) : Prop :=
  ~ checked_out c x /\ x <> trim_prefix "origin/" d /\ integrated d x /\
  exists n out, run_git n refs_args = Some out /\ x +:+ String "009" "[gone]" ∈ lines (TrimSpace out).

(** C18: whatever git answers, the only branches that pruning orders
    git to delete, and the only ones it reports as deleted, are branches whose
    upstream git lists as gone, that are neither the default branch of the
    remote (what origin/HEAD names, else origin/main, else origin/master) nor
    checked out in the repository or in a worktree git registers, and whose
    work is in that default branch: the tip is an ancestor of it, or one of its
    commits makes the change of the whole branch.  Trusted is what git
    documents of ancestry and of patch identifiers; when the worktrees cannot
    be listed only the repository's own branch counts as checked out. *)
Theorem prune_safe `{!Git, !History, !Patches} (Hgit : honest_prune) c :
  let r := pruneGoneLocals c unasked in
  let deletes x := delete_args x ∈ commands r.1 \/ x ∈ r.2 in
  (forall x, ~ deletes x) \/
  exists d, default_ref (origin_head c) d /\ forall x, deletes x -> prunable c d x.
Proof.
  cbn zeta. unfold pruneGoneLocals. rewrite G_bind_eq.
  destruct (does_default (fun _ => False) (origin_head c) unasked) as (l0 & Hl0 & HP0 & HQ0).
  assert (forall x, delete_args x ∉ l0) as Hno by (intros x Hx; rewrite Forall_forall in HP0; by apply (HP0 _ Hx x)).
  cbn [commands unasked app] in Hl0. destruct (defaultRemoteRef (origin_head c) unasked) as [n0 [defRef|]]; cbn [fst snd] in *.
  2:{ left. cbn [mret G_ret fst snd]. rewrite Hl0. intros x [Hx|?%not_elem_of_nil]; [by apply (Hno x)|done]. }
  right. exists defRef. split; [by apply HQ0|]. match goal with |- context [?m n0] => set (rest := m) end.
  assert (runs (deletes (prunable c defRef)) rest (fun out => forall x, x ∈ out -> prunable c defRef x)) as Hruns.
  { subst rest. eapply runs_bind; [apply (runs_output _ _ (fun o => exists n, run_git n refs_args = o)); [by apply other_command|by eexists]|].
    intros [out|] [n Hn]; [|by apply runs_ret; intros ? ?%not_elem_of_nil]. cbv zeta.
    eapply runs_bind; [eapply runs_bind; [apply (runs_output _ _ (fun o => exists n, run_git n (merged_args defRef) = o)); [by apply other_command|by eexists]|]|].
    { intros o [n' Hn']. apply (runs_ret _ _ (fun merged => forall x, x ∈ merged -> integrated defRef x)).
      destruct o as [o|]; intros x; [|done]. intros Hx%elem_of_list_to_set.
      destruct (merged_list Hgit _ _ _ _ Hn' Hx) as (tip & top & ? & ? & ?). exists tip, top. auto. }
    intros merged Hmerged. cbn beta in Hmerged. set (names := omap _ _).
    assert (forall x, x ∈ names -> integrated defRef x -> prunable c defRef x) as Hgood.
    { intros x (line & Hl & Hg)%list_elem_of_omap Hi. apply gone_local_spec in Hg as (Hne & Hd & Hc & ->).
      split_and!; [|done..|by exists n, out]. intros Hco. by apply Hc, checkedOut_spec. }
    eapply runs_bind; [apply does_prune; [intros x Hx Hm; apply Hgood; [done|by apply Hmerged]|by intros ? ?%not_elem_of_nil]|].
    intros [deleted suspects] [Hdel Hsus]. cbn [fst snd] in *.
    eapply runs_bind; [by apply does_squash|]. intros squashed Hsq. rewrite Forall_forall in Hsq.
    apply does_delete_all; [|done]. intros x Hx. destruct (Hsq x Hx) as [Hin Hi]. apply Hgood; [|done].
    by destruct (Hsus x Hin) as [?%not_elem_of_nil|]. }
  destruct (Hruns n0) as (l & Hl & HP & HQ). intros x [Hx|Hx]; [|by apply HQ].
  rewrite Hl, Hl0 in Hx. rewrite Forall_forall in HP. apply elem_of_app in Hx as [Hx|Hx]; [by destruct (Hno x)|]. by apply (HP _ Hx).
Qed.

(** ** On a small repository *)
(** [old] is merged, [feature] was squashed into m2, [develop] has work of its own *)
Definition squash_change (c : string) : string := if String.eqb c "m2" then "p2" else "p0".
Definition squash_between (base tip : string) : string := if String.eqb tip "f1" then "p2" else "p9".
#[local] Instance demo_patches : Patches := { change_of := squash_change; change_between := squash_between }.

Definition gone_line (b : string) : string := b +:+ String "009" "[gone]".
Definition prune_answer (args : list string) : option string :=
  if bool_decide (args = refs_args) then Some (unlines [gone_line "develop"; gone_line "feature"; gone_line "main"; gone_line "old"] +:+ nl)
  else if bool_decide (args = merged_args "origin/main") then Some (unlines ["main"; "old"] +:+ nl)
  else match args with
       | [cmd; _; _] => if String.eqb cmd "rev-list" then Some ("1" +:+ nl) else if String.eqb cmd "branch" then Some "" else demo_run args
       | _ => None
       end.
Definition prune_pipe (src : list string) : option string :=
  match src with
  | [cmd; base; b] => (fun tip => squash_between base tip +:+ " 0" +:+ nl) <$> demo_resolve b
  | _ => if bool_decide (src = log_args "origin/main" "c1") then Some ("p2 m2" +:+ nl) else None
  end.
#[local] Instance prune_git : Git := { run_git := fun _ => prune_answer; pipe_git := fun _ src _ => prune_pipe src }.
#[local] Existing Instance demo_history_of.

Lemma prune_demo_honest : honest_prune.
Proof.
  split.
  - intros n a b out. cbn [run_git prune_git]. unfold prune_answer.
    rewrite !bool_decide_eq_false_2 by done. cbn [String.eqb Ascii.eqb Bool.eqb]. intros Hout.
    change (run_git (Git := demo_git) n ["merge-base"; a; b] = Some out) in Hout.
    destruct (resolve a) as [ca|] eqn:Ea; [|by rewrite (merge_base_unknown demo_git_honest) in Hout by by left].
    destruct (resolve b) as [cb|] eqn:Eb; [|by rewrite (merge_base_unknown demo_git_honest) in Hout by by right].
    pose proof (merge_base demo_git_honest n a b ca cb Ea Eb) as Hm. rewrite Hout in Hm. destruct Hm as (m & <- & Hm). eauto.
  - intros n ref out b Hout Hb. cbn [run_git prune_git] in Hout. unfold prune_answer in Hout.
    rewrite bool_decide_eq_false_2 in Hout by done. case_bool_decide as Hr; [|done].
    injection Hr as ->. assert (out = unlines ["main"; "old"] +:+ nl) as -> by congruence.
    assert (b = "main" \/ b = "old") as [->| ->].
    { assert (output_lines (unlines ["main"; "old"] +:+ nl) = ["main"; "old"]) as Hl by (vm_compute; reflexivity).
      rewrite Hl, !elem_of_cons, elem_of_nil in Hb. tauto. }
    + exists "m2", "m2". split_and!; try done. by left.
    + exists "c1", "m2". split_and!; try done. right. by left.
  - intros n base b out Hout Hne. cbn [pipe_git prune_git] in Hout. unfold prune_pipe, diff_args in Hout.
    apply fmap_Some in Hout as (tip & Htip & ->). exists tip. split; [done|]. cbn [change_between demo_patches].
    unfold squash_between. by destruct (String.eqb tip "f1").
  - intros n ref oldest out l Hout Hl Hne. cbn [pipe_git prune_git] in Hout. unfold prune_pipe in Hout.
    assert (bool_decide (log_args ref oldest = log_args "origin/main" "c1") = true /\ out = "p2 m2" +:+ nl) as [Heq ->].
    { unfold log_args in *. destruct (String.eqb oldest "");
        cbn [app] in Hout; case_bool_decide as Hb; try done; split; try congruence; by apply bool_decide_eq_true_2. }
    apply bool_decide_eq_true in Heq. assert (ref = "origin/main") as -> by (unfold log_args in Heq; by injection Heq).
    assert (lines ("p2 m2" +:+ nl) = ["p2 m2"; ""]) as Hlines by (vm_compute; reflexivity).
    exists "m2", "m2". split_and!; [done|by left|]. rewrite Hlines, !elem_of_cons, elem_of_nil in Hl.
    destruct Hl as [->|[->|[]]]; [done|]. by destruct Hne.
Qed.

(** the repository on [main], with one more worktree, on [develop] *)
Definition demo_read (head : option string) (p : string) : option string :=
  match assoc p [("/r/.git/HEAD", "ref: refs/heads/main" +:+ nl); ("/w/.git", "gitdir: /r/.git/worktrees/w" +:+ nl);
                 ("/r/.git/worktrees/w/HEAD", "ref: refs/heads/develop" +:+ nl)] with
  | Some b => Some b
  | None => if String.eqb p "/r/.git/refs/remotes/origin/HEAD" then head else None
  end.
Definition demo_stat (p : string) : option bool := assoc p [("/r/.git", true); ("/w/.git", false); ("/w", true)].
Definition demo_checkout (head : option string) : Checkout :=
  {| stat := demo_stat; read := demo_read head; repoRoot := "/r";
     entries := Some (Some [{| eName := "w"; eIsDir := true; gitdir := Some ("/w/.git" +:+ nl) |}]) |}.
Definition demo_head : option string := Some ("ref: refs/remotes/origin/main" +:+ nl).

Example demo_checked_out : checkedOutBranches (demo_checkout demo_head) = {["main"; "develop"]}.
Proof. vm_compute. reflexivity. Qed.

Lemma prune_safe_witness :
  (pruneGoneLocals (demo_checkout None) unasked).2 = [] /\
  (pruneGoneLocals (demo_checkout demo_head) unasked).2 = ["old"; "feature"] /\
  (let r := pruneGoneLocals (demo_checkout demo_head) unasked in
   (forall x, ~ (delete_args x ∈ commands r.1 \/ x ∈ r.2)) \/
   exists d, default_ref (origin_head (demo_checkout demo_head)) d /\
     forall x, delete_args x ∈ commands r.1 \/ x ∈ r.2 -> prunable (demo_checkout demo_head) d x).
Proof.
  split; [vm_compute; reflexivity|]. split; [vm_compute; reflexivity|].
  exact (prune_safe prune_demo_honest (demo_checkout demo_head)).
Defined.

(** [git merge-base c5 c9 c1] is the newest ancestor of c5 that c9 or c1 has -
    c5 itself -, not the common ancestor of the three, so the scan leaves out
    what lies between c1 and c5: on a straight line of commits, a branch that
    forked at c1 and was squashed into c3 is recognised alone, but not behind
    two younger ones *)
Definition line_fork (b : string) : string := if String.eqb b "a" then "c5" else if String.eqb b "b" then "c9" else "c1".
Definition line_answer (args : list string) : option string :=
  match args with
  | [cmd; _; b] => if String.eqb cmd "merge-base" then Some (line_fork b +:+ nl) else Some ("9" +:+ nl)
  | [_; oldest; _; _] => Some (oldest +:+ nl)
  | _ => None
  end.
Definition line_pipe (src : list string) : option string :=
  match src with
  | [_; _; b] => Some (b +:+ "-patch 0" +:+ nl)
  | [_; _; _; _; _; lower] =>
      Some (unlines (["b-patch c10"; "a-patch c6"] ++ (if String.eqb lower "^c1" then ["c-patch c3"] else [])) +:+ nl)
  | _ => None
  end.
Definition line_git : Git := {| run_git := fun _ => line_answer; pipe_git := fun _ src _ => line_pipe src |}.

Example third_fork_is_missed :
  (squashMergedSuspects (H := line_git) "origin/main" ["a"; "b"; "c"] unasked).2 = ["a"; "b"] /\
  (squashContained (H := line_git) "origin/main" "c" unasked).2 = true.
Proof. vm_compute. done. Qed.
