(* ===== verification/EventLog.v ===== *)
(** * The event log

    [internal/store/events.go]: the filters of the log and the statements they
    become ([Module Log]); the batcher of [internal/store/store.go] that writes
    it ([Module Batch]); the lifecycle state of a worktree read off it, of
    [internal/store/worktree_state.go] ([Module Lifecycle]). The statements are
    kept as their text and arguments, and an interpreter of the fragments of a
    WHERE clause gives them their meaning. *)
From stdpp Require Import base strings list sets gmap sorting relations.
From Stdlib Require Import ZArith Lia.
From S2P Require Import Prelude GoStrings Registry Plan.

(** ** Filters *)
Module Log.

Record Event := {
  EID : Z; Ts : Z; Level : string; ERepo : option Z; EWorktree : option Z; EventType : string;
  Phase : option string; Message : option string; PayloadJSON : string; DurationMs : option Z
}.

Record EventFilter := {
  FWorktreeID : Z; FRepoID : Z; Levels : list string; EventTypes : list string; Phases : list string;
  MessageLike : string; PayloadLike : string; RunID : string; SinceMs : Z; UntilMs : Z; AfterID : Z;
  Limit : Z; OldestFirst : bool
}.

Definition no_filter : EventFilter :=
  {| FWorktreeID := 0; FRepoID := 0; Levels := []; EventTypes := []; Phases := []; MessageLike := "";
     PayloadLike := ""; RunID := ""; SinceMs := 0; UntilMs := 0; AfterID := 0; Limit := 0; OldestFirst := false |}.

(** a bound argument *)
Inductive arg := AInt (z : Z) | AStr (s : string).

#[export] Instance arg_eq_dec : EqDecision arg.
Proof. solve_decision. Defined.

Fixpoint str_repeat (n : nat) (s : string) : string := match n with 0 => "" | S n' => s +:+ str_repeat n' s end.
Definition placeholders (n : nat) : string := match n with 0 => "" | S n' => str_repeat n' "?," +:+ "?" end.

(** a WHERE clause under construction: the fragments and their arguments *)
Definition Where : Type := list string * list arg.
Definition add (on : bool) (frag : string) (args : list arg) (w : Where) : Where :=
  if on then (w.1 ++ [frag], w.2 ++ args) else w.
Definition any_of (col : string) (vs : list string) : Where -> Where :=
  add (negb (bool_decide (vs = []))) (col +:+ " IN (" +:+ placeholders (length vs) +:+ ")") (map AStr vs).

Definition dquote : string := String (Ascii.ascii_of_nat 34) "".

Definition queryEventsWhere (f : EventFilter) : Where :=
  let w := ([], []) in
  let w := add (Z.ltb 0 (FWorktreeID f)) "e.worktree_id = ?" [AInt (FWorktreeID f)] w in
  let w := add (Z.ltb 0 (FRepoID f)) "e.repo_id = ?" [AInt (FRepoID f)] w in
  let w := any_of "e.level" (Levels f) w in
  let w := any_of "e.event_type" (EventTypes f) w in
  let w := any_of "e.phase" (Phases f) w in
  let w := add (negb (String.eqb (MessageLike f) "")) "e.message LIKE ?" [AStr ("%" +:+ MessageLike f +:+ "%")] w in
  let w := add (negb (String.eqb (PayloadLike f) "")) "e.payload_json LIKE ?" [AStr ("%" +:+ PayloadLike f +:+ "%")] w in
  let w := add (negb (String.eqb (RunID f) "")) "e.payload_json LIKE ?"
             [AStr ("%" +:+ dquote +:+ "run_id" +:+ dquote +:+ ":" +:+ dquote +:+ RunID f +:+ dquote +:+ "%")] w in
  let w := add (Z.ltb 0 (SinceMs f)) "e.ts >= ?" [AInt (SinceMs f)] w in
  let w := add (Z.ltb 0 (UntilMs f)) "e.ts <= ?" [AInt (UntilMs f)] w in
  add (Z.ltb 0 (AfterID f)) "e.id > ?" [AInt (AfterID f)] w.

Definition purgeEventsWhere (f : EventFilter) : Where :=
  let w := ([], []) in
  let w := add (Z.ltb 0 (FRepoID f)) "repo_id = ?" [AInt (FRepoID f)] w in
  let w := add (Z.ltb 0 (FWorktreeID f)) "worktree_id = ?" [AInt (FWorktreeID f)] w in
  let w := add (Z.ltb 0 (UntilMs f)) "ts <= ?" [AInt (UntilMs f)] w in
  let w := add (Z.ltb 0 (SinceMs f)) "ts >= ?" [AInt (SinceMs f)] w in
  let w := any_of "level" (Levels f) w in
  any_of "event_type" (EventTypes f) w.

Definition appendWhere (q : string) (fragments : list string) : string :=
  match fragments with [] => q | _ => q +:+ " WHERE " +:+ join " AND " fragments end.

(** ** The meaning of a fragment *)
Definition column (name : string) (e : Event) : option arg :=
  if String.eqb name "id" then Some (AInt (EID e))
  else if String.eqb name "ts" then Some (AInt (Ts e))
  else if String.eqb name "level" then Some (AStr (Level e))
  else if String.eqb name "repo_id" then AInt <$> ERepo e
  else if String.eqb name "worktree_id" then AInt <$> EWorktree e
  else if String.eqb name "event_type" then Some (AStr (EventType e))
  else if String.eqb name "phase" then AStr <$> Phase e
  else if String.eqb name "message" then AStr <$> Message e
  else if String.eqb name "payload_json" then Some (AStr (PayloadJSON e))
  else None.

Definition unqualified (name : string) : string := match cut_prefix "e." name with Some n => n | None => name end.

(** one comparison; [None] as the column's value is NULL, which compares to nothing *)
Definition holds (frag : string) (args : list arg) (e : Event) : bool :=
  match cut_byte " " frag with
  | None => false
  | Some (name, cond) =>
      match column (unqualified name) e with
      | None => false
      | Some v =>
          if has_prefix "IN (" cond then bool_decide (v ∈ args)
          else match args, v with
               | [a], _ =>
                   if String.eqb cond "= ?" then bool_decide (v = a)
                   else match a, v with
                        | AInt x, AInt y => if String.eqb cond ">= ?" then Z.leb x y
                                            else if String.eqb cond "<= ?" then Z.leb y x
                                            else if String.eqb cond "> ?" then Z.ltb x y else false
                        | AStr p, AStr s => if String.eqb cond "LIKE ?" then like p s else false
                        | _, _ => false
                        end
               | _, _ => false
               end
      end
  end.

Definition is_question (c : ascii) : bool := Ascii.eqb c "?".
Fixpoint count_args (s : string) : nat :=
  match s with EmptyString => 0 | String c s' => (if is_question c then 1 else 0) + count_args s' end.

(** the fragments joined by AND, each taking its arguments off the front *)
Fixpoint satisfies (frags : list string) (args : list arg) (e : Event) : bool :=
  match frags with
  | [] => true
  | f :: frags' => holds f (take (count_args f) args) e && satisfies frags' (drop (count_args f) args) e
  end.

Definition selects (w : Where) (e : Event) : bool := satisfies w.1 w.2 e.

(** ** The statements *)
Inductive purge_error := ErrUnscopedPurge.

Definition scopedPurgeWhere (f : EventFilter) : res purge_error Where :=
  match (purgeEventsWhere f).1 with [] => Err ErrUnscopedPurge | _ => Ok (purgeEventsWhere f) end.

(** the events table, and the number of rows that went *)
Definition PurgeEvents (f : EventFilter) (t : list Event) : list Event * res purge_error nat :=
  match scopedPurgeWhere f with
  | Err e => (t, Err e)
  | Ok w => (List.filter (fun e => negb (selects w e)) t, Ok (length (List.filter (selects w) t)))
  end.

Definition CountEvents (f : EventFilter) (t : list Event) : res purge_error nat :=
  match scopedPurgeWhere f with Err e => Err e | Ok w => Ok (length (List.filter (selects w) t)) end.

(** [ORDER BY e.ts DESC, e.id DESC] and its reverse *)
Definition newer (x y : Event) : Prop := (Ts y < Ts x \/ (Ts y = Ts x /\ EID y <= EID x))%Z.
Definition older (x y : Event) : Prop := newer y x.
#[export] Instance newer_dec : RelDecision newer.
Proof. intros x y. unfold newer. apply _. Defined.
#[export] Instance older_dec : RelDecision older.
Proof. intros x y. unfold older. apply _. Defined.

Definition QueryEvents (f : EventFilter) (t : list Event) : list Event :=
  let hits := List.filter (selects (queryEventsWhere f)) t in
  let sorted := if OldestFirst f then stable_sort older hits else stable_sort newer hits in
  if Z.ltb 0 (Limit f) then take (Z.to_nat (Limit f)) sorted else sorted.

(** ** What a filter means *)
Definition wants_id (id : Z) (v : option Z) : bool := Z.leb id 0 || bool_decide (v = Some id).
Definition wants_one (vs : list string) (v : option string) : bool :=
  bool_decide (vs = []) || match v with Some s => bool_decide (s ∈ vs) | None => false end.
Definition wants_text (p : string) (v : option string) : bool :=
  String.eqb p "" || match v with Some s => like ("%" +:+ p +:+ "%") s | None => false end.

Definition purge_spec (f : EventFilter) (e : Event) : bool :=
  wants_id (FRepoID f) (ERepo e) && wants_id (FWorktreeID f) (EWorktree e) &&
  (Z.leb (UntilMs f) 0 || Z.leb (Ts e) (UntilMs f)) && (Z.leb (SinceMs f) 0 || Z.leb (SinceMs f) (Ts e)) &&
  wants_one (Levels f) (Some (Level e)) && wants_one (EventTypes f) (Some (EventType e)).

Definition query_spec (f : EventFilter) (e : Event) : bool :=
  wants_id (FWorktreeID f) (EWorktree e) && wants_id (FRepoID f) (ERepo e) &&
  wants_one (Levels f) (Some (Level e)) && wants_one (EventTypes f) (Some (EventType e)) &&
  wants_one (Phases f) (Phase e) && wants_text (MessageLike f) (Message e) &&
  wants_text (PayloadLike f) (Some (PayloadJSON e)) &&
  (String.eqb (RunID f) "" ||
   like ("%" +:+ dquote +:+ "run_id" +:+ dquote +:+ ":" +:+ dquote +:+ RunID f +:+ dquote +:+ "%") (PayloadJSON e)) &&
  (Z.leb (SinceMs f) 0 || Z.leb (SinceMs f) (Ts e)) && (Z.leb (UntilMs f) 0 || Z.leb (Ts e) (UntilMs f)) &&
  (Z.leb (AfterID f) 0 || Z.ltb (AfterID f) (EID e)).

(** a clause whose fragments take exactly the arguments there are *)
Definition balanced (w : Where) : Prop := sum_list_with count_args w.1 = length w.2.

Lemma count_args_app a b : count_args (a +:+ b) = count_args a + count_args b.
Proof. induction a as [|c a IH]; [done|]. simpl. rewrite IH. lia. Qed.

Lemma count_placeholders n : count_args (placeholders n) = n.
Proof.
  destruct n as [|n]; [done|]. unfold placeholders. rewrite count_args_app.
  assert (count_args (str_repeat n "?,") = n) as ->; [|simpl; lia].
  induction n as [|n IH]; [done|]. simpl. by rewrite IH.
Qed.

Lemma satisfies_app f1 f2 a1 a2 e :
  sum_list_with count_args f1 = length a1 -> satisfies (f1 ++ f2) (a1 ++ a2) e = satisfies f1 a1 e && satisfies f2 a2 e.
Proof.
  revert a1. induction f1 as [|f f1 IH]; intros a1 H; simpl in *.
  - by destruct a1.
  - rewrite take_app_le, drop_app_le by lia. rewrite IH; [by rewrite andb_assoc|]. rewrite length_drop. lia.
Qed.

(** one more fragment *)
Lemma add_spec on frag args w e :
  balanced w -> count_args frag = length args ->
  balanced (add on frag args w) /\ selects (add on frag args w) e = selects w e && (negb on || holds frag args e).
Proof.
  intros Hb Hc. unfold add. destruct on; [|by rewrite andb_true_r]. unfold balanced, selects in *. simpl. split.
  - rewrite sum_list_with_app, length_app, Hb. simpl. lia.
  - rewrite satisfies_app by done. simpl. rewrite Hc, take_ge, andb_true_r by lia. done.
Qed.

Lemma in_args (s : string) (vs : list string) : bool_decide (AStr s ∈ map AStr vs) = bool_decide (s ∈ vs).
Proof.
  apply bool_decide_ext. rewrite list_elem_of_fmap. split; [by intros (x & [= ->] & H)|]. intros H. by exists s.
Qed.

Lemma any_of_spec col vs w e v :
  balanced w -> (forall rest, cut_byte " " (col +:+ " IN (" +:+ rest) = Some (col, "IN (" +:+ rest)) ->
  count_args col = 0 -> column (unqualified col) e = AStr <$> v ->
  balanced (any_of col vs w) /\ selects (any_of col vs w) e = selects w e && wants_one vs v.
Proof.
  intros Hb Hcut Hcol Hv. unfold any_of.
  destruct (add_spec (negb (bool_decide (vs = []))) (col +:+ " IN (" +:+ placeholders (length vs) +:+ ")") (map AStr vs) w e Hb)
    as [H1 H2].
  { rewrite !count_args_app, Hcol, count_placeholders, length_map. simpl. lia. }
  split; [done|]. rewrite H2. f_equal. unfold wants_one. rewrite negb_involutive. f_equal.
  unfold holds. rewrite Hcut, Hv. destruct v as [s|]; [|done]. simpl. apply in_args.
Qed.

(** *** The two clauses mean what the filter asks for *)
Definition is_int (id : Z) (v : option arg) : bool := match v with Some x => bool_decide (x = AInt id) | None => false end.

Lemma id_clause id (v : option Z) : negb (Z.ltb 0 id) || is_int id (AInt <$> v) = wants_id id v.
Proof.
  unfold wants_id, is_int. rewrite Z.ltb_antisym, negb_involutive. f_equal. destruct v as [x|]; simpl; [|done].
  apply bool_decide_ext. split; by intros [= ->].
Qed.

Lemma pos_clause n b : negb (Z.ltb 0 n) || b = Z.leb n 0 || b.
Proof. by rewrite Z.ltb_antisym, negb_involutive. Qed.

Lemma purge_clause f e : balanced (purgeEventsWhere f) /\ selects (purgeEventsWhere f) e = purge_spec f e.
Proof.
  unfold purgeEventsWhere, purge_spec.
  assert (balanced ([], [])) as B0 by done.
  destruct (add_spec (Z.ltb 0 (FRepoID f)) "repo_id = ?" [AInt (FRepoID f)] _ e B0 eq_refl) as [B1 S1].
  destruct (add_spec (Z.ltb 0 (FWorktreeID f)) "worktree_id = ?" [AInt (FWorktreeID f)] _ e B1 eq_refl) as [B2 S2].
  destruct (add_spec (Z.ltb 0 (UntilMs f)) "ts <= ?" [AInt (UntilMs f)] _ e B2 eq_refl) as [B3 S3].
  destruct (add_spec (Z.ltb 0 (SinceMs f)) "ts >= ?" [AInt (SinceMs f)] _ e B3 eq_refl) as [B4 S4].
  destruct (any_of_spec "level" (Levels f) _ e (Some (Level e)) B4 (fun _ => eq_refl) eq_refl eq_refl) as [B5 S5].
  destruct (any_of_spec "event_type" (EventTypes f) _ e (Some (EventType e)) B5 (fun _ => eq_refl) eq_refl eq_refl) as [B6 S6].
  split; [exact B6|]. rewrite S6, S5, S4, S3, S2, S1.
  change (selects ([], []) e) with true. rewrite andb_true_l.
  change (holds "repo_id = ?" [AInt (FRepoID f)] e) with (is_int (FRepoID f) (AInt <$> ERepo e)).
  change (holds "worktree_id = ?" [AInt (FWorktreeID f)] e) with (is_int (FWorktreeID f) (AInt <$> EWorktree e)).
  change (holds "ts <= ?" [AInt (UntilMs f)] e) with (Z.leb (Ts e) (UntilMs f)).
  change (holds "ts >= ?" [AInt (SinceMs f)] e) with (Z.leb (SinceMs f) (Ts e)).
  by rewrite !id_clause, !pos_clause.
Qed.

Lemma query_clause f e : balanced (queryEventsWhere f) /\ selects (queryEventsWhere f) e = query_spec f e.
Proof.
  unfold queryEventsWhere, query_spec.
  assert (balanced ([], [])) as B0 by done.
  destruct (add_spec (Z.ltb 0 (FWorktreeID f)) "e.worktree_id = ?" [AInt (FWorktreeID f)] _ e B0 eq_refl) as [B1 S1].
  destruct (add_spec (Z.ltb 0 (FRepoID f)) "e.repo_id = ?" [AInt (FRepoID f)] _ e B1 eq_refl) as [B2 S2].
  destruct (any_of_spec "e.level" (Levels f) _ e (Some (Level e)) B2 (fun _ => eq_refl) eq_refl eq_refl) as [B3 S3].
  destruct (any_of_spec "e.event_type" (EventTypes f) _ e (Some (EventType e)) B3 (fun _ => eq_refl) eq_refl eq_refl) as [B4 S4].
  destruct (any_of_spec "e.phase" (Phases f) _ e (Phase e) B4 (fun _ => eq_refl) eq_refl eq_refl) as [B5 S5].
  destruct (add_spec (negb (String.eqb (MessageLike f) "")) "e.message LIKE ?" [AStr ("%" +:+ MessageLike f +:+ "%")] _ e B5 eq_refl)
    as [B6 S6].
  destruct (add_spec (negb (String.eqb (PayloadLike f) "")) "e.payload_json LIKE ?" [AStr ("%" +:+ PayloadLike f +:+ "%")] _ e B6
              eq_refl) as [B7 S7].
  destruct (add_spec (negb (String.eqb (RunID f) "")) "e.payload_json LIKE ?"
              [AStr ("%" +:+ dquote +:+ "run_id" +:+ dquote +:+ ":" +:+ dquote +:+ RunID f +:+ dquote +:+ "%")] _ e B7 eq_refl)
    as [B8 S8].
  destruct (add_spec (Z.ltb 0 (SinceMs f)) "e.ts >= ?" [AInt (SinceMs f)] _ e B8 eq_refl) as [B9 S9].
  destruct (add_spec (Z.ltb 0 (UntilMs f)) "e.ts <= ?" [AInt (UntilMs f)] _ e B9 eq_refl) as [B10 S10].
  destruct (add_spec (Z.ltb 0 (AfterID f)) "e.id > ?" [AInt (AfterID f)] _ e B10 eq_refl) as [B11 S11].
  split; [exact B11|]. rewrite S11, S10, S9, S8, S7, S6, S5, S4, S3, S2, S1.
  change (selects ([], []) e) with true. rewrite andb_true_l.
  change (holds "e.repo_id = ?" [AInt (FRepoID f)] e) with (is_int (FRepoID f) (AInt <$> ERepo e)).
  change (holds "e.worktree_id = ?" [AInt (FWorktreeID f)] e) with (is_int (FWorktreeID f) (AInt <$> EWorktree e)).
  change (holds "e.ts <= ?" [AInt (UntilMs f)] e) with (Z.leb (Ts e) (UntilMs f)).
  change (holds "e.ts >= ?" [AInt (SinceMs f)] e) with (Z.leb (SinceMs f) (Ts e)).
  change (holds "e.id > ?" [AInt (AfterID f)] e) with (Z.ltb (AfterID f) (EID e)).
  assert (forall p, holds "e.payload_json LIKE ?" [AStr p] e = like p (PayloadJSON e)) as Hp by (by intros p).
  assert (forall p, holds "e.message LIKE ?" [AStr p] e = match Message e with Some m => like p m | None => false end) as Hm
    by (intros p; destruct e as [? ? ? ? ? ? ? [m|] ? ?]; reflexivity).
  rewrite !Hp, Hm, !id_clause, !pos_clause, !negb_involutive. done.
Qed.

Lemma sorted_take {A} (R : relation A) n l : StronglySorted R l -> StronglySorted R (take n l).
Proof.
  intros H. revert n. induction H as [|x l Hs IH Hx]; intros [|n]; simpl; constructor; [done|].
  rewrite Forall_forall in *. intros y Hy. apply Hx. rewrite <- (take_drop n l). set_solver.
Qed.

Lemma PurgeEvents_exact_spec f t :
  match (PurgeEvents f t).2 with
  | Err ErrUnscopedPurge =>
      (PurgeEvents f t).1 = t /\ (FRepoID f <= 0 /\ FWorktreeID f <= 0 /\ UntilMs f <= 0 /\ SinceMs f <= 0)%Z /\
      Levels f = [] /\ EventTypes f = []
  | Ok n => (PurgeEvents f t).1 = List.filter (fun e => negb (purge_spec f e)) t /\
            n = length (List.filter (purge_spec f) t)
  end.
Proof.
  assert (forall e, selects (purgeEventsWhere f) e = purge_spec f e) as Hs by (intros e; apply purge_clause).
  unfold PurgeEvents, scopedPurgeWhere. destruct (purgeEventsWhere f).1 as [|fr frs] eqn:E; simpl.
  - split; [done|]. unfold purgeEventsWhere, any_of, add in E.
    destruct (Z.ltb_spec 0 (FRepoID f)), (Z.ltb_spec 0 (FWorktreeID f)), (Z.ltb_spec 0 (UntilMs f)),
      (Z.ltb_spec 0 (SinceMs f)); destruct (Levels f), (EventTypes f); simpl in E; try done; (split; [lia|done]).
  - split; [apply filter_ext; intros e; by rewrite Hs|]. by rewrite (filter_ext _ _ Hs).
Qed.

(** a purge deletes exactly the events every field of its filter
    selects, and says how many; the dry run counts the same; a filter that
    selects nothing in particular is refused and deletes nothing. Every
    statement has one argument for each of its placeholders. *)
Theorem PurgeEvents_exact f t :
  balanced (purgeEventsWhere f) /\
  CountEvents f t = (PurgeEvents f t).2 /\
  match (PurgeEvents f t).2 with
  | Err ErrUnscopedPurge =>
      (PurgeEvents f t).1 = t /\ (FRepoID f <= 0 /\ FWorktreeID f <= 0 /\ UntilMs f <= 0 /\ SinceMs f <= 0)%Z /\
      Levels f = [] /\ EventTypes f = []
  | Ok n => (PurgeEvents f t).1 = List.filter (fun e => negb (purge_spec f e)) t /\
            n = length (List.filter (purge_spec f) t)
  end.
Proof.
  split; [apply (purge_clause f (Build_Event 0 0 "" None None "" None None "" None))|].
  split; [|apply PurgeEvents_exact_spec]. unfold PurgeEvents, CountEvents. by destruct (scopedPurgeWhere f).
Qed.

(** a query returns the events its filter selects, newest first
    unless the oldest were asked for; with a limit it returns that many at
    most, and an event it leaves out is no newer (older) than any it returns. *)
Theorem QueryEvents_pages f t :
  balanced (queryEventsWhere f) /\
  let order := if OldestFirst f then older else newer in
  StronglySorted order (QueryEvents f t) /\
  exists rest, QueryEvents f t ++ rest ≡ₚ List.filter (query_spec f) t /\
    (forall x y, x ∈ QueryEvents f t -> y ∈ rest -> order x y) /\
    (rest <> [] -> Z.of_nat (length (QueryEvents f t)) = Limit f).
Proof.
  split; [apply (query_clause f (Build_Event 0 0 "" None None "" None None "" None))|].
  assert (List.filter (selects (queryEventsWhere f)) t = List.filter (query_spec f) t) as Hs
    by (apply filter_ext; intros e; apply query_clause).
  intros order. unfold QueryEvents. rewrite Hs. set (hits := List.filter (query_spec f) t).
  set (sorted := if OldestFirst f then stable_sort older hits else stable_sort newer hits).
  assert (sorted ≡ₚ hits) as Hp by (unfold sorted; destruct (OldestFirst f); apply stable_sort_perm).
  assert (StronglySorted order sorted) as Hso.
  { unfold sorted, order. destruct (OldestFirst f); apply stable_sort_sorted;
      repeat intro; unfold older, newer in *; lia. }
  destruct (Z.ltb_spec 0 (Limit f)) as [Hl|Hl].
  - set (n := Z.to_nat (Limit f)). split; [by apply sorted_take|].
    exists (drop n sorted). split; [by rewrite take_drop|]. split.
    + intros x y Hx Hy. by eapply sorted_split_at.
    + intros Hne. rewrite length_take. destruct (decide (length sorted <= n)) as [Hle|Hgt];
        [by rewrite drop_ge in Hne|lia].
  - split; [done|]. exists []. rewrite app_nil_r. split; [done|]. split; [|done]. by intros x y _ ?%elem_of_nil.
Qed.
End Log.

(** ** The task [logs_purge] *)
Module Purge.
Import Log.

Inductive task_error :=
| UnknownLevel (v : string) | BadUntil (v : string) | NotEnrolled (repo : string)
| NoWorktree (name : string) | AmbiguousName (name : string) | Unscoped.

Definition level_names : list string := ["debug"; "info"; "warn"; "error"].

(** [strings.ToLower(v) == level] *)
Definition lower_is (level v : string) : bool := bool_decide (map lower_rune (runes v) = runes level).

Fixpoint ParseLevels (vs : list string) : res task_error (list string) :=
  match vs with
  | [] => Ok []
  | v :: vs' =>
      match List.find (fun l => lower_is l v) level_names with
      | None => Err (UnknownLevel v)
      | Some l => res_bind (ParseLevels vs') (fun ls => Ok (l :: ls))
      end
  end.

(** "" is not given *)
Definition given {A} (v : string) (dflt : A) (f : string -> res task_error A) : res task_error A :=
  if String.eqb v "" then Ok dflt else f v.

Definition purge_filter (d : DB) (t : Task) : res task_error EventFilter :=
  res_bind (given (Param t "levels") [] (fun v => ParseLevels (split_byte "," v))) (fun levels =>
  res_bind (given (Param t "event_types") [] (fun v => Ok (split_byte "," v))) (fun types =>
  res_bind (given (Param t "until_ms") 0%Z (fun v => match atoi v with Some n => Ok n | None => Err (BadUntil v) end)) (fun until =>
  res_bind (given (Param t "repo") 0%Z (fun v => if Z.eqb (LookupRepoID v d) 0 then Err (NotEnrolled v) else Ok (LookupRepoID v d)))
    (fun repo =>
  res_bind (given (Param t "worktree") 0%Z (fun v => match LookupWorktreeID repo v d with
                                                     | Found id => Ok id
                                                     | NoMatch => Err (NoWorktree v)
                                                     | Ambiguous _ => Err (AmbiguousName v)
                                                     end)) (fun wt =>
  Ok {| FWorktreeID := wt; FRepoID := repo; Levels := levels; EventTypes := types; Phases := []; MessageLike := "";
        PayloadLike := ""; RunID := ""; SinceMs := 0; UntilMs := until; AfterID := 0; Limit := 0; OldestFirst := false |}))))).

Definition runTaskLogsPurge (d : DB) (t : Task) (log : list Event) : list Event * res task_error nat :=
  match purge_filter d t with
  | Err e => (log, Err e)
  | Ok f => match PurgeEvents f log with
            | (log', Ok n) => (log', Ok n)
            | (log', Err ErrUnscopedPurge) => (log', Err Unscoped)
            end
  end.

Lemma ParseLevels_ok vs ls : ParseLevels vs = Ok ls ->
  Forall2 (fun v l => lower_is l v = true /\ l ∈ level_names) vs ls.
Proof.
  revert ls. induction vs as [|v vs IH]; intros ls H; [injection H as <-; constructor|]. cbn [ParseLevels] in H.
  destruct (List.find _ level_names) as [l|] eqn:E; [|done]. apply res_bind_ok in H as (ls' & H & [= <-]).
  apply find_some in E as [Hin Hl]. constructor; [split; [done|by apply list_elem_of_In]|by apply IH].
Qed.

Lemma given_ok {A} v (dflt : A) f x : given v dflt f = Ok x -> v <> "" -> f v = Ok x.
Proof. unfold given. by destruct (String.eqb_spec v ""). Qed.

Lemma split_nonempty c s : split_byte c s <> [].
Proof. destruct s as [|a s]; simpl; [done|]. destruct (Ascii.eqb a c); [done|]. by destruct (split_byte c s). Qed.

Lemma split_Forall2_nonempty {A} (P : string -> A -> Prop) v (ls : list A) : Forall2 P (split_byte "," v) ls -> ls <> [].
Proof. intros H ->. apply Forall2_nil_inv_r in H. by apply split_nonempty in H. Qed.

Lemma wants_id_pos id v : (id <> 0)%Z -> (0 <= id)%Z -> wants_id id v = true -> v = Some id.
Proof. intros H1 H2. unfold wants_id. destruct (Z.leb_spec id 0); [lia|]. simpl. apply bool_decide_eq_true. Qed.

(** a [logs_purge] task deletes nothing the caller did not
    select. When it succeeds, every event it deleted is of a level, of a type,
    of the repository and of the worktree that were named, where any were
    named, and not younger than the bound, where a positive one was given; a
    level, repository or worktree that does not exist, an ambiguous worktree,
    an unreadable bound, or no selection at all is an error, and then nothing
    is deleted. *)
Theorem logs_purge_selected d t log :
  wf d ->
  match (runTaskLogsPurge d t log).2 with
  | Err _ => (runTaskLogsPurge d t log).1 = log
  | Ok n => exists sel, (runTaskLogsPurge d t log).1 = List.filter (fun e => negb (sel e)) log /\
      n = length (List.filter sel log) /\
      forall e, sel e = true ->
        (Param t "levels" <> "" -> exists v, v ∈ split_byte "," (Param t "levels") /\ lower_is (Level e) v = true) /\
        (Param t "event_types" <> "" -> EventType e ∈ split_byte "," (Param t "event_types")) /\
        (Param t "until_ms" <> "" -> exists u, atoi (Param t "until_ms") = Some u /\ (u <= 0 \/ Ts e <= u)%Z) /\
        (Param t "repo" <> "" -> exists r, r ∈ repos d /\ nocase (rPath r) (Param t "repo") = true /\ ERepo e = Some (rID r)) /\
        (Param t "worktree" <> "" -> exists w, w ∈ worktrees d /\ active w = true /\ EWorktree e = Some (ID w))
  end.
Proof.
  intros Hwf. unfold runTaskLogsPurge. destruct (purge_filter d t) as [f|er] eqn:E; [|done].
  pose proof (PurgeEvents_exact_spec f log) as Hex. destruct (PurgeEvents f log) as [log' [n|[]]]; simpl in *; [|by apply Hex].
  destruct Hex as [-> ->]. exists (purge_spec f). split; [done|]. split; [done|].
  apply res_bind_ok in E as (levels & El & E). apply res_bind_ok in E as (types & Et & E).
  apply res_bind_ok in E as (until & Eu & E). apply res_bind_ok in E as (repo & Er & E).
  apply res_bind_ok in E as (wt & Ew & [= <-]).
  intros e [[[[[Hr Hw]%andb_prop Hu]%andb_prop _]%andb_prop Hl]%andb_prop Ht]%andb_prop. cbn [Log.FRepoID Log.FWorktreeID Log.UntilMs Log.Levels Log.EventTypes] in *.
  assert (forall vs s, vs <> [] -> wants_one vs (Some s) = true -> s ∈ vs) as Hone.
  { intros vs s Hne. unfold wants_one. rewrite bool_decide_eq_false_2 by done. apply bool_decide_eq_true. }
  split; [|split; [|split; [|split]]]; intros Hg.
  - apply given_ok in El; [|done]. apply ParseLevels_ok in El as H2. pose proof (split_Forall2_nonempty _ _ _ H2) as Hne.
    apply Hone in Hl; [|done]. apply list_elem_of_lookup in Hl as [i Hi].
    destruct (Forall2_lookup_r _ _ _ _ _ H2 Hi) as (v & Hv & Hlo & _). exists v.
    split; [by eapply list_elem_of_lookup_2|done].
  - apply given_ok in Et; [|done]. injection Et as <-. apply Hone in Ht; [done|apply split_nonempty].
  - apply given_ok in Eu; [|done]. destruct (atoi _) as [u|]; [|done]. injection Eu as ->. exists until.
    split; [done|]. apply orb_prop in Hu as [Hu|Hu]; apply Z.leb_le in Hu; auto.
  - apply given_ok in Er; [|done]. destruct (Z.eqb_spec (LookupRepoID (Param t "repo") d) 0) as [|Hne]; [done|].
    injection Er as <-. unfold LookupRepoID in *. destruct (find_repo _ d) as [r|] eqn:Ef; [|done].
    apply find_some in Ef as [Hin Hp]. apply list_elem_of_In in Hin. exists r. split; [done|]. split; [done|].
    apply wants_id_pos in Hr; [done|done|]. pose proof (wf_rpos d Hwf r Hin). lia.
  - apply given_ok in Ew; [|done]. destruct (LookupWorktreeID repo (Param t "worktree") d) as [|id|] eqn:Ef; [done| |done].
    injection Ew as ->. pose proof (LookupWorktreeID_found repo (Param t "worktree") d wt Ef) as (w & Hin & <- & Hh).
    exists w. split; [done|]. unfold hits in Hh. apply andb_prop in Hh as [[Ha _]%andb_prop _]. split; [done|].
    pose proof (wf_pos d Hwf w Hin). apply wants_id_pos in Hw; [done|lia..].
Qed.

Definition demo_task : Task :=
  {| Type_ := "logs_purge"; Plan.RepoPath := ""; WorktreePath := "";
     Params := {["levels" := "WARN,error"; "repo" := "/R"]}; InheritedEnv := ∅ |}.
Definition demo_log : list Event :=
  [Build_Event 1 5 "warn" (Some 1%Z) None "db:drop" None None "null" None;
   Build_Event 2 6 "info" (Some 1%Z) None "db:drop" None None "null" None;
   Build_Event 3 7 "error" (Some 2%Z) None "db:drop" None None "null" None].

Lemma logs_purge_selected_witness :
  runTaskLogsPurge demo demo_task demo_log = (tail demo_log, Ok 1) /\
  exists sel, (runTaskLogsPurge demo demo_task demo_log).1 = List.filter (fun e => negb (sel e)) demo_log.
Proof.
  split; [vm_compute; reflexivity|].
  destruct (logs_purge_selected demo demo_task demo_log (wf_run demo_history empty wf_empty)) as (sel & H & _).
  exists sel. exact H.
Defined.
End Purge.

(** ** The batcher *)
Module Batch.
Section Batch.
Context {Row : Type}.

(** [pending]: the batch a flush took out of the buffer and has not committed
    yet; [table]: the rows in the database, the batched ones in the order they
    were enqueued *)
Record Store := { batchBuf : list Row; pending : option (list Row); table : list Row }.

(** what the database does during one flush: is its context over, does the
    transaction fail, and does inserting this row by itself *)
Record Outcome := { ctx_done : bool; tx_fails : bool; row_fails : Row -> bool }.

(** [WriteEvent] with the batcher on *)
Definition WriteEvent (r : Row) (s : Store) : Store :=
  {| batchBuf := batchBuf s ++ [r]; pending := pending s; table := table s |}.

(** the first half of [flushEvents]: under both locks *)
Definition take_batch (s : Store) : Store :=
  match batchBuf s with
  | [] => s
  | b => {| batchBuf := []; pending := Some b; table := table s |}
  end.

(** [flushEventsFallback] *)
Definition fallback (o : Outcome) (b : list Row) : list Row :=
  List.filter (fun r => negb (ctx_done o || row_fails o r)) b.

(** the second half: the transaction inserts every row or none *)
Definition commit_batch (o : Outcome) (s : Store) : Store :=
  match pending s with
  | None => s
  | Some b =>
      {| batchBuf := batchBuf s; pending := None;
         table := table s ++ (if ctx_done o || tx_fails o || existsb (row_fails o) b then fallback o b else b) |}
  end.

(** [FlushEvents] when no other flush runs ([flushMu]) *)
Definition flushEvents (o : Outcome) (s : Store) : Store := commit_batch o (take_batch s).

(** the steps of the writers and of the one flush that may be running *)
Inductive action := AWrite (r : Row) | ATake | ACommit (o : Outcome).

Definition act (a : action) (s : Store) : Store :=
  match a with
  | AWrite r => WriteEvent r s
  | ATake => match pending s with None => take_batch s | Some _ => s end   (* waits for [flushMu] *)
  | ACommit o => commit_batch o s
  end.

Definition acts (l : list action) (s : Store) : Store := foldl (fun s a => act a s) s l.
Definition start : Store := {| batchBuf := []; pending := None; table := [] |}.

Definition written (l : list action) : list Row := omap (fun a => match a with AWrite r => Some r | _ => None end) l.

(** a flush nothing goes wrong in *)
Definition healthy (a : action) : Prop :=
  match a with ACommit o => ctx_done o = false /\ forall r, row_fails o r = false | _ => True end.

Lemma written_snoc l a : written (l ++ [a]) = written l ++ match a with AWrite r => [r] | _ => [] end.
Proof. unfold written. rewrite omap_app. by destruct a. Qed.

(** what became of the rows enqueued: the flag says whether the row is in the table *)
Lemma acts_account l : exists flags : list (Row * bool),
  written l = flags.*1 ++ default [] (pending (acts l start)) ++ batchBuf (acts l start) /\
  table (acts l start) = (List.filter snd flags).*1 /\
  (Forall healthy l -> Forall (fun rb => rb.2 = true) flags).
Proof.
  induction l as [|a l IH] using rev_ind; [by exists []|]. unfold acts in *. rewrite foldl_snoc, written_snoc.
  destruct IH as (flags & Hw & Ht & Hh). set (s := foldl _ _ l) in *. destruct a as [r| |o]; simpl.
  - exists flags. rewrite Hw, <- !app_assoc. split; [done|]. split; [done|]. intros [H _]%Forall_app. by apply Hh.
  - exists flags. rewrite app_nil_r, Hw. destruct (pending s) as [b|] eqn:Ep; simpl; [|unfold take_batch; destruct (batchBuf s) eqn:Eb];
      simpl; rewrite ?Ep, ?Eb, ?app_nil_r; (split; [done|]; split; [done|]; intros [H _]%Forall_app; by apply Hh).
  - rewrite app_nil_r, Hw. unfold commit_batch. destruct (pending s) as [b|] eqn:Ep; simpl.
    + set (ok r := negb (ctx_done o || row_fails o r)).
      set (bad := ctx_done o || tx_fails o || existsb (row_fails o) b).
      exists (flags ++ map (fun r => (r, if bad then ok r else true)) b).
      assert (forall f : Row -> bool, (map (fun r => (r, f r)) b).*1 = b) as H1
        by (intros f; rewrite <- list_fmap_compose; apply list_fmap_id).
      assert (forall f : Row -> bool, (List.filter snd (map (fun r => (r, f r)) b)).*1 = List.filter f b) as H2.
      { intros f. clear. induction b as [|r b IH]; simpl; [done|]. destruct (f r); simpl; [f_equal|]; exact IH. }
      set (f r := if bad then ok r else true).
      rewrite List.filter_app, !fmap_app. replace ((map (fun r => (r, f r)) b).*1) with b by (symmetry; apply H1).
      replace ((List.filter snd (map (fun r => (r, f r)) b)).*1) with (List.filter f b) by (symmetry; apply H2).
      rewrite <- app_assoc. split; [done|]. split.
      * rewrite Ht. f_equal. unfold f. destruct bad; [done|]. symmetry. by apply filter_all_true.
      * intros [H Ho]%Forall_app. apply Forall_app. split; [by apply Hh|]. apply Forall_map, Forall_true. intros r. simpl.
        apply Forall_cons in Ho as [[Hc Hr] _]. unfold f, ok. rewrite Hc, Hr. by destruct bad.
    + exists flags. rewrite Ep. split; [done|]. split; [done|]. intros [H _]%Forall_app. by apply Hh.
Qed.

(** whatever the interleaving of the writers with the flushes, the
    rows are in the table in the order they were enqueued, each once, but for
    those whose insert failed; the rest are in the batch being committed or
    in the buffer, in order. If no flush runs into a context that is over or
    a row that cannot be inserted, none is missing. A flush that returns has
    committed every row enqueued before it, under the same condition; but a
    flush whose context is over loses the whole buffer. *)
Theorem batch_keeps_events l :
  (exists flags : list (Row * bool),
     written l = flags.*1 ++ default [] (pending (acts l start)) ++ batchBuf (acts l start) /\
     table (acts l start) = (List.filter snd flags).*1) /\
  (Forall healthy l ->
     written l = table (acts l start) ++ default [] (pending (acts l start)) ++ batchBuf (acts l start) /\
     (pending (acts l start) = None -> forall o, healthy (ACommit o) ->
        flushEvents o (acts l start) = {| batchBuf := []; pending := None; table := written l |})) /\
  (pending (acts l start) = None -> forall o, ctx_done o = true ->
     flushEvents o (acts l start) = {| batchBuf := []; pending := None; table := table (acts l start) |}).
Proof.
  destruct (acts_account l) as (flags & Hw & Ht & Hh). set (s := acts l start) in *.
  split; [by exists flags|]. split.
  - intros Hl. specialize (Hh Hl). assert ((List.filter snd flags) = flags) as E.
    { apply filter_all_true. by apply Forall_forall. }
    rewrite E in Ht. split; [congruence|]. intros Hp o [Ho Hr]. rewrite Hp in Hw. simpl in Hw. rewrite Hw, <- Ht.
    unfold flushEvents, take_batch. destruct s as [buf p tab]. simpl in *. subst p. destruct buf as [|b bs].
    + unfold commit_batch. simpl. by rewrite app_nil_r.
    + unfold commit_batch. cbn [pending table batchBuf]. f_equal. f_equal. case_match; [|done]. apply filter_all_true.
      intros r _. by rewrite Ho, Hr.
  - intros Hp o Ho. unfold flushEvents, take_batch. destruct s as [buf p tab]. simpl in *. subst p.
    destruct buf as [|b bs]; [done|]. unfold commit_batch. cbn [pending table batchBuf]. rewrite Ho. cbn [orb].
    unfold fallback. rewrite filter_all_false; [by rewrite app_nil_r|]. intros r _. by rewrite Ho.
Qed.
End Batch.
End Batch.

(** ** The lifecycle state of a worktree *)
Module Lifecycle.
Import Log.

Inductive WtState := Ready | Preparing | Deferred | Error | Teardown.
Inductive Bucket := Stable | Up | Down | Failed.

Definition WorktreeOpEventTypes : list string :=
  ["worktree:create:start"; "worktree:create:end"; "worktree:create:error"; "worktree:create:deferred";
   "worktree:delete:start"; "worktree:delete:end"; "worktree:delete:error";
   "worktree:reap:start"; "worktree:reap:end"; "worktree:reap:error"].
Definition PrepareStateEventTypes : list string := ["prepare:end"; "prepare:error"].

(** [None] is the zero event *)
Definition DeriveWorktreeState (last : option Event) : WtState * Bucket :=
  match last with
  | None => (Ready, Stable)
  | Some e =>
      if String.eqb (EventType e) "worktree:create:start" then (Preparing, Up)
      else if String.eqb (EventType e) "worktree:create:deferred" then (Deferred, Stable)
      else if bool_decide (EventType e ∈ ["worktree:create:error"; "prepare:error"; "worktree:delete:error"; "worktree:reap:error"])
      then if String.eqb (Level e) "error" then (Error, Failed) else (Ready, Stable)
      else if bool_decide (EventType e ∈ ["worktree:delete:start"; "worktree:reap:start"]) then (Teardown, Down)
      else (Ready, Stable)
  end.

Definition opInFlight (e : Event) : bool :=
  bool_decide (EventType e ∈ ["worktree:create:start"; "worktree:delete:start"; "worktree:reap:start"]).

Definition event_id (o : option Event) : Z := match o with Some e => EID e | None => 0 end.

Definition WorktreeStateEvent (latestOp latestPrepareTerminal : option Event) : option Event :=
  if match latestOp with Some e => opInFlight e | None => false end || Z.leb (event_id latestPrepareTerminal) (event_id latestOp)
  then latestOp else latestPrepareTerminal.

(** [LatestEventPerWorktree] for one worktree: [ORDER BY ts DESC, id DESC LIMIT 1] *)
Definition of_types (wt : Z) (types : list string) (e : Event) : bool :=
  bool_decide (EWorktree e = Some wt) && bool_decide (EventType e ∈ types).
Definition later (x y : Event) : bool := Z.ltb (Ts y) (Ts x) || (Z.eqb (Ts y) (Ts x) && Z.ltb (EID y) (EID x)).
Definition LatestEvent (wt : Z) (types : list string) (t : list Event) : option Event :=
  pick_best (of_types wt types) later t.

Definition LatestWorktreeStateEvent (wt : Z) (t : list Event) : option Event :=
  match LatestEvent wt WorktreeOpEventTypes t with
  | Some op => WorktreeStateEvent (Some op) (LatestEvent wt PrepareStateEventTypes t)
  | None => LatestEvent wt PrepareStateEventTypes t
  end.

(** *** The state machine the two queries compute *)
Definition observe (wt : Z) (cur : option Event) (e : Event) : option Event :=
  if of_types wt WorktreeOpEventTypes e then Some e
  else if of_types wt PrepareStateEventTypes e
  then if match cur with Some c => opInFlight c | None => false end then cur else Some e
  else cur.

Definition machine (wt : Z) (t : list Event) : option Event := foldl (observe wt) None t.

(** the log as it grows: ids increase, the clock does not step back *)
Definition in_order (x y : Event) : Prop := (EID x < EID y /\ Ts x <= Ts y)%Z.

Lemma later_spec x y : later x y = true <-> (Ts y < Ts x \/ (Ts y = Ts x /\ EID y < EID x))%Z.
Proof. unfold later. rewrite orb_true_iff, andb_true_iff, !Z.ltb_lt, Z.eqb_eq. done. Qed.

Lemma LatestEvent_best wt types t : best_of (of_types wt types) later t (LatestEvent wt types t).
Proof.
  apply pick_best_spec.
  - intros x. apply not_true_iff_false. rewrite later_spec. lia.
  - intros x y z. rewrite !later_spec. lia.
Qed.

Lemma LatestEvent_snoc wt types t e :
  Forall (fun x => in_order x e) t ->
  LatestEvent wt types (t ++ [e]) = if of_types wt types e then Some e else LatestEvent wt types t.
Proof.
  intros H. unfold LatestEvent, pick_best. rewrite foldl_snoc. set (o := foldl _ _ t). unfold pick_step.
  destruct (of_types wt types e); [|done]. destruct o as [b|] eqn:E; [|done].
  assert (b ∈ t) as Hb.
  { pose proof (LatestEvent_best wt types t) as Hp. unfold LatestEvent, pick_best in Hp. fold o in Hp. rewrite E in Hp. apply Hp. }
  rewrite Forall_forall in H. destruct (H b Hb). replace (later e b) with true; [done|]. symmetry. apply later_spec. lia.
Qed.

Lemma LatestEvent_elem wt types t e : LatestEvent wt types t = Some e -> e ∈ t /\ of_types wt types e = true.
Proof. intros E. pose proof (LatestEvent_best wt types t) as Hp. rewrite E in Hp. by destruct Hp as (? & ? & _). Qed.

Lemma types_disjoint wt e : of_types wt WorktreeOpEventTypes e = true -> of_types wt PrepareStateEventTypes e = false.
Proof.
  unfold of_types. intros [Hw Ht]%andb_prop. rewrite Hw. apply bool_decide_eq_true in Ht. simpl.
  apply bool_decide_eq_false. intros Hp. unfold WorktreeOpEventTypes, PrepareStateEventTypes in *.
  repeat (apply elem_of_cons in Ht as [Ht|Ht]); try (by apply elem_of_nil in Ht);
    rewrite Ht in Hp; repeat (apply elem_of_cons in Hp as [Hp|Hp]); try done; by apply elem_of_nil in Hp.
Qed.

Lemma inflight_is_op wt e : opInFlight e = true -> of_types wt PrepareStateEventTypes e = false.
Proof.
  unfold opInFlight. intros Ht%bool_decide_eq_true. unfold of_types. apply andb_false_iff. right.
  apply bool_decide_eq_false. intros Hp. unfold PrepareStateEventTypes in *.
  repeat (apply elem_of_cons in Ht as [Ht|Ht]); try (by apply elem_of_nil in Ht);
    rewrite Ht in Hp; repeat (apply elem_of_cons in Hp as [Hp|Hp]); try done; by apply elem_of_nil in Hp.
Qed.

(** when ids increase and the clock does not step back, the two
    queries of [LatestWorktreeStates] and the rule that reconciles them give
    what a state machine reading the log event by event gives: every
    lifecycle event of the worktree sets its state; the end of a prepare sets
    it only while no operation is open, so the first database of a finalize
    to finish never makes the worktree ready. *)
Theorem state_is_machine wt t :
  StronglySorted in_order t -> Forall (fun e => 0 < EID e)%Z t ->
  LatestWorktreeStateEvent wt t = machine wt t.
Proof.
  induction t as [|e t IH] using rev_ind; intros Hs Hpos; [done|].
  apply Forall_app in Hpos as [Hpos He]. apply Forall_cons in He as [He _].
  assert (StronglySorted in_order t /\ Forall (fun x => in_order x e) t) as [Hs' Hlast].
  { clear -Hs. induction t as [|x t IH]; [split; constructor|]. apply StronglySorted_inv in Hs as [H1 H2].
    destruct (IH H1) as [? ?]. apply Forall_app in H2 as [H2 H3]. apply Forall_cons in H3 as [H3 _].
    split; constructor; auto. }
  specialize (IH Hs' Hpos). unfold machine in *. rewrite foldl_snoc, <- IH. clear IH.
  unfold LatestWorktreeStateEvent. rewrite !LatestEvent_snoc by done.
  assert (forall ty x, LatestEvent wt ty t = Some x -> (EID x < EID e)%Z) as Hlt.
  { intros ty x [Hx _]%LatestEvent_elem. rewrite Forall_forall in Hlast. apply (Hlast x Hx). }
  unfold observe. destruct (of_types wt WorktreeOpEventTypes e) eqn:Eop.
  - rewrite (types_disjoint wt e Eop). unfold WorktreeStateEvent. simpl.
    destruct (LatestEvent wt PrepareStateEventTypes t) as [p|] eqn:Ep; simpl.
    + apply Hlt in Ep. replace (Z.leb (EID p) (EID e)) with true by lia. by rewrite orb_true_r.
    + replace (Z.leb 0 (EID e)) with true by lia. by rewrite orb_true_r.
  - destruct (of_types wt PrepareStateEventTypes e) eqn:Epr.
    + destruct (LatestEvent wt WorktreeOpEventTypes t) as [op|] eqn:Eo.
      * apply Hlt in Eo as Hop. unfold WorktreeStateEvent. cbn [event_id].
        replace (Z.leb (EID e) (EID op)) with false by lia. rewrite orb_false_r.
        destruct (opInFlight op) eqn:Ei; simpl; [by rewrite Ei|].
        destruct (LatestEvent wt PrepareStateEventTypes t) as [p|] eqn:Ep; simpl.
        -- destruct (Z.leb _ _); [by rewrite Ei|]. apply LatestEvent_elem in Ep as [_ Ep].
           destruct (opInFlight p) eqn:Eip; [|done]. by rewrite (inflight_is_op wt p Eip) in Ep.
        -- destruct (Z.leb _ _); [by rewrite Ei|done].
      * destruct (LatestEvent wt PrepareStateEventTypes t) as [p|] eqn:Ep; [|done].
        apply LatestEvent_elem in Ep as [_ Ep]. destruct (opInFlight p) eqn:Eip; [|done].
        by rewrite (inflight_is_op wt p Eip) in Ep.
    + done.
Qed.

(** a finalize with two databases: the first ends, then the second fails *)
Definition demo_event (i : Z) (ty level : string) : Event := Build_Event i i level (Some 1%Z) (Some 4%Z) ty None None "null" None.
Definition demo_life : list Event :=
  [demo_event 1 "worktree:create:start" "info"; demo_event 2 "prepare:end" "info"; demo_event 3 "prepare:error" "error"].

Lemma state_is_machine_witness :
  LatestWorktreeStateEvent 4 demo_life = machine 4 demo_life /\
  DeriveWorktreeState (machine 4 demo_life) = (Preparing, Up).
Proof.
  split; [|vm_compute; reflexivity]. apply (state_is_machine 4 demo_life).
  - repeat constructor; unfold in_order; simpl; lia.
  - repeat constructor; simpl; lia.
Defined.
End Lifecycle.
