(* ===== verification/WtDelete.v ===== *)
(** * Deleting a worktree

    [internal/wt/delete.go], [lookup.go], [inuse.go], the process scan of
    [internal/procuse/procuse.go] and the listing of interrupted teardowns of
    [internal/store]: which worktree a name means, when its deletion is
    refused, and what a teardown that stops half way leaves in the registry
    ([Registry]) and the event log ([EventLog]). *)
From stdpp Require Import base strings list gmap sorting relations.
From Stdlib Require Import ZArith Lia.
From S2P Require Import Prelude GoStrings Lines Paths Registry.
From S2P Require EventLog.
Import EventLog.Log.
#[local] Open Scope treeman_scope.

(** ** Worktrees that are being torn down *)
Definition delete_start : string := "worktree:delete:start".
Definition delete_end : string := "worktree:delete:end".
Definition delete_error : string := "worktree:delete:error".

Definition is_event (wt : Z) (types : list string) (e : Event) : bool :=
  bool_decide (EWorktree e = Some wt) && bool_decide (EventType e ∈ types).

(** [COALESCE(MAX(e2.id), 0)] over the events that end a teardown *)
Definition last_end (wt : Z) (log : list Event) : Z :=
  match map EID (List.filter (is_event wt [delete_end; delete_error]) log) with
  | [] => 0
  | n :: l => foldl Z.max n l
  end.

(** not [WorktreeNotTearingDown] *)
Definition tearing_down (log : list Event) (wt : Z) : bool :=
  existsb (fun e => is_event wt [delete_start] e && (last_end wt log <? EID e)%Z) log.

(** [ListInterruptedTeardowns], in the order of the ids *)
Definition ListInterruptedTeardowns (d : DB) (log : list Event) : list WtRow :=
  List.filter (fun w => active w && has_repo d w && tearing_down log (ID w)) (worktrees d).

(** ** Which worktree a name means *)
(** the rows of the query, in the order the database gives them *)
Definition live_rows (d : DB) (log : list Event) (repoRoot : string) : list WtRow :=
  List.filter (fun w => active w && existsb (fun r => Z.eqb (rID r) (RepoID w) && nocase (rPath r) repoRoot) (repos d) &&
                        negb (tearing_down log (ID w))) (worktrees d).

Inductive rank := RBase | RSlug | RBranch | RPrefix.
#[global] Instance rank_eq_dec : EqDecision rank.
Proof. solve_decision. Defined.

Definition rank_of (name : string) (w : WtRow) : option rank :=
  let base := path_base (Path w) in
  let branch := default "" (Branch w) in
  if String.eqb base name then Some RBase
  else if String.eqb (Slug w) name then Some RSlug
  else if String.eqb branch name then Some RBranch
  else if (2 <=? String.length name)%nat && (has_prefix name base || has_prefix name (Slug w) || has_prefix name branch)
  then Some RPrefix else None.

Record Hits := { exactBase : string; exactSlug : string; exactBranch : string; prefixHits : list string }.
Definition no_hits : Hits := {| exactBase := ""; exactSlug := ""; exactBranch := ""; prefixHits := [] |}.

(** one row of the loop *)
Definition note (name : string) (h : Hits) (w : WtRow) : Hits :=
  match rank_of name w with
  | Some RBase => {| exactBase := Path w; exactSlug := exactSlug h; exactBranch := exactBranch h; prefixHits := prefixHits h |}
  | Some RSlug => {| exactBase := exactBase h; exactSlug := Path w; exactBranch := exactBranch h; prefixHits := prefixHits h |}
  | Some RBranch => {| exactBase := exactBase h; exactSlug := exactSlug h; exactBranch := Path w; prefixHits := prefixHits h |}
  | Some RPrefix => {| exactBase := exactBase h; exactSlug := exactSlug h; exactBranch := exactBranch h; prefixHits := prefixHits h ++ [Path w] |}
  | None => h
  end.

(** the path, and the candidates that are shown when there are several *)
Definition LookupWorktree (d : DB) (log : list Event) (repoRoot name : string) : option string * list string :=
  let h := foldl (note name) no_hits (live_rows d log repoRoot) in
  if negb (String.eqb (exactBase h) "") then (Some (exactBase h), [])
  else if negb (String.eqb (exactBranch h) "") then (Some (exactBranch h), [])
  else if negb (String.eqb (exactSlug h) "") then (Some (exactSlug h), [])
  else match prefixHits h with
       | [p] => (Some p, [])
       | [] => (None, [])
       | l => (None, l)
       end.

(** ** Processes that use it *)
Record Scan := { Holders : list Z; parents : gmap Z Z }.

Fixpoint descend_loop (fuel : nat) (parents : gmap Z Z) (pid ancestor : Z) : bool :=
  match fuel with
  | 0%nat => false
  | S fuel =>
      if Z.eqb pid ancestor then true
      else match parents !! pid with
           | Some parent => if Z.eqb parent pid then false else descend_loop fuel parents parent ancestor
           | None => false
           end
  end.
(** as many turns as the code's loop has *)
Definition Descends (s : Scan) (pid ancestor : Z) : bool := descend_loop (size (parents s) + 1) (parents s) pid ancestor.

Definition foreignHolders (s : Scan) (self daemon : Z) : list Z :=
  List.filter (fun h => negb (Descends s self h || ((0 <? daemon)%Z && Descends s h daemon))) (Holders s).

(** ** Whether to delete *)
Record DeleteRequest := { RepoRoot : string; Target : string; Force : bool; Detached : bool }.

(** what the system answers: the working directory, [os.Stat], the scan, the
    process itself and the daemon's, 0 when no daemon answers, and whether the
    daemon queued the task *)
Record Host := {
  getwd : option string; there : string -> bool; scan : string -> option Scan; self : Z; daemonPID : option Z; queued : bool
}.

Inductive refusal :=
| NoTarget | NoRepo | NoAbs | NoMatch | IsMainWorktree | TeardownInFlight | ScanFailed | DaemonFailed | InUse (holders : list Z).

(** the paths are compared cleaned and without regard to case (ASCII) *)
Definition pathsEqual (a b : string) : bool := nocase (path_clean a) (path_clean b).

Definition teardownInFlight (d : DB) (log : list Event) (repoRoot wtPath : string) : bool :=
  existsb (fun w => nocase (Path w) wtPath && active w && tearing_down log (ID w) &&
                    existsb (fun r => Z.eqb (rID r) (RepoID w) && nocase (rPath r) repoRoot) (repos d)) (worktrees d).

Definition EnsureNotInUse (h : Host) (wtPath : string) : res refusal unit :=
  match scan h wtPath with
  | None => Err ScanFailed
  | Some s => match daemonPID h with
              | None => Err DaemonFailed
              | Some daemon => match foreignHolders s (self h) daemon with [] => Ok tt | l => Err (InUse l) end
              end
  end.

Definition target_path (d : DB) (log : list Event) (h : Host) (r : DeleteRequest) : res refusal string :=
  match LookupWorktree d log (RepoRoot r) (Target r) with
  | (Some p, _) => Ok p
  | (None, _) => match path_abs (getwd h) (Target r) with
                 | None => Err NoAbs
                 | Some p => if negb (there h p) && negb (Force r) then Err NoMatch else Ok p
                 end
  end.

(** the checks of [Delete]: the path to tear down *)
Definition approve (d : DB) (log : list Event) (h : Host) (r : DeleteRequest) : res refusal string :=
  if String.eqb (Target r) "" then Err NoTarget
  else if String.eqb (RepoRoot r) "" then Err NoRepo
  else let? p := target_path d log h r in
       if pathsEqual p (RepoRoot r) then Err IsMainWorktree
       else if negb (Force r) && teardownInFlight d log (RepoRoot r) p then Err TeardownInFlight
       else let? _ := EnsureNotInUse h p in Ok p.

Inductive deletion := Queued (p : string) | InProcess (p : string).
(** the daemon gets the task unless the caller wants it done here; when it does
    not queue it, for whatever reason, it is done here *)
Definition Delete (d : DB) (log : list Event) (h : Host) (r : DeleteRequest) : res refusal deletion :=
  let? p := approve d log h r in
  if Detached r then Ok (InProcess p) else if queued h then Ok (Queued p) else Ok (InProcess p).

(** ** The teardown *)
Inductive effect := Hooks (trigger : string) | DropDatabases | GitRemove | RemoveTree | ReleasePorts.
#[global] Instance effect_eq_dec : EqDecision effect.
Proof. solve_decision. Defined.

Record World := { db : DB; events : list Event; did : list effect }.

Definition write_event (now wt : Z) (type level : string) (w : World) : World :=
  {| db := db w; did := did w;
     events := events w ++ [{| EID := next_id (map EID (events w)); Ts := now; Level := level; ERepo := None; EWorktree := Some wt;
                               EventType := type; Phase := None; Message := None; PayloadJSON := "null"; DurationMs := None |}] |}.

Inductive action := AEvent (type level : string) | AEffect (e : effect) | AMarkDeleted.
Definition act (now wt : Z) (w : World) (a : action) : World :=
  match a with
  | AEvent type level => write_event now wt type level w
  | AEffect e => {| db := db w; events := events w; did := did w ++ [e] |}
  | AMarkDeleted => {| db := MarkWorktreeDeleted now wt (db w); events := events w; did := did w |}
  end.

(** which hooks are declared, and what git and the store answer *)
Record Outcome := { before_hooks : bool; after_hooks : bool; git_removes : bool; marks : bool }.

Definition terminal (ok : bool) : action := if ok then AEvent delete_end "info" else AEvent delete_error "error".

(** the calls of [inlineTeardown] once the worktree is known, and whether it
    succeeds; [gone] when its directory is *)
Definition teardown_actions (gone force : bool) (o : Outcome) : list action * bool :=
  let ok := gone || git_removes o || force in
  ([AEvent delete_start "info"] ++
   (if before_hooks o then [AEffect (Hooks "delete-before-engines")] else []) ++
   [AEffect DropDatabases] ++
   (if after_hooks o then [AEffect (Hooks "delete-after-engines")] else []) ++
   (if gone then [] else AEffect GitRemove :: (if git_removes o || force then [AEffect RemoveTree] else [])) ++
   (if ok then AEffect ReleasePorts :: (if marks o then [AMarkDeleted] else []) else []) ++
   [terminal (ok && marks o)],
   ok && marks o).

(** ** Lemmas: the log *)
(** the ids of the log are positive and increase *)
Definition log_ok (log : list Event) : Prop := Forall (fun e => (0 < EID e)%Z) log /\ StronglySorted (fun x y => (EID x < EID y)%Z) log.

Lemma foldl_max_spec n l : foldl Z.max n l ∈ n :: l /\ Forall (fun x => (x <= foldl Z.max n l)%Z) (n :: l).
Proof.
  revert n. induction l as [|m l IH]; intros n; cbn [foldl]; [split; [by left|by repeat constructor]|].
  destruct (IH (Z.max n m)) as [Hi Hall]. apply Forall_cons in Hall as [Hm Hall]. split.
  - apply elem_of_cons in Hi as [->|Hi]; [|by do 2 right]. destruct (Z.max_spec n m) as [[_ ->]|[_ ->]]; [right; by left|by left].
  - repeat (apply Forall_cons; split; [lia|]). done.
Qed.

Lemma last_end_spec wt log :
  (forall e, e ∈ log -> is_event wt [delete_end; delete_error] e = true -> (EID e <= last_end wt log)%Z) /\
  (last_end wt log = 0%Z \/ exists e, e ∈ log /\ is_event wt [delete_end; delete_error] e = true /\ EID e = last_end wt log).
Proof.
  unfold last_end. set (ends := List.filter _ log). destruct ends as [|x l] eqn:E; cbn [map].
  - split; [|by left]. intros e He Hp. assert (Hin : e ∈ ends) by (by apply elem_of_filter_bool). rewrite E in Hin. by apply not_elem_of_nil in Hin.
  - destruct (foldl_max_spec (EID x) (map EID l)) as [Hi Hall]. change (EID x :: map EID l) with (map EID (x :: l)) in Hi, Hall.
    rewrite <- E in Hi, Hall. split.
    + intros e He Hp. rewrite Forall_forall in Hall. apply Hall, list_elem_of_fmap. exists e. split; [done|]. by apply elem_of_filter_bool.
    + right. apply list_elem_of_fmap in Hi as (e & Heq & He). apply elem_of_filter_bool in He as [Hp He]. exists e. auto.
Qed.

Lemma last_end_below wt log n : (0 < n)%Z -> Forall (fun e => (EID e < n)%Z) log -> (last_end wt log < n)%Z.
Proof.
  intros Hn Hall. destruct (last_end_spec wt log) as [_ [->|(e & He & _ & <-)]]; [done|]. rewrite Forall_forall in Hall. by apply Hall.
Qed.

Lemma kinds_differ wt e : is_event wt [delete_start] e = true -> is_event wt [delete_end; delete_error] e = false.
Proof.
  unfold is_event. intros [_ Ht]%andb_true_iff. apply bool_decide_eq_true in Ht. apply list_elem_of_singleton in Ht. rewrite Ht.
  by destruct (bool_decide (EWorktree e = Some wt)).
Qed.

Lemma existsb_ext_in {A} (f g : A -> bool) l : (forall x, x ∈ l -> f x = g x) -> existsb f l = existsb g l.
Proof. induction l as [|x l IH]; intros H; [done|]. cbn. rewrite H by (by left). by rewrite IH by (intros; apply H; by right). Qed.

(** the newest event decides *)
Lemma tearing_down_snoc wt log e :
  (0 < EID e)%Z -> Forall (fun x => (EID x < EID e)%Z) log ->
  tearing_down (log ++ [e]) wt =
    if is_event wt [delete_start] e then true
    else if is_event wt [delete_end; delete_error] e then false else tearing_down log wt.
Proof.
  intros Hpos Hall. unfold tearing_down.
  assert (Hlast : last_end wt (log ++ [e]) = if is_event wt [delete_end; delete_error] e then EID e else last_end wt log).
  { destruct (is_event wt [delete_end; delete_error] e) eqn:Ee.
    - destruct (last_end_spec wt (log ++ [e])) as [Hge Hor]. specialize (Hge e ltac:(set_solver) Ee).
      destruct Hor as [?|(x & [Hx| ->%list_elem_of_singleton]%elem_of_app & _ & Hxe)]; [lia| |done].
      rewrite Forall_forall in Hall. specialize (Hall x Hx). lia.
    - unfold last_end. rewrite List.filter_app. cbn [List.filter]. by rewrite Ee, app_nil_r. }
  rewrite existsb_app. cbn [existsb]. rewrite orb_false_r, Hlast.
  destruct (is_event wt [delete_start] e) eqn:Es; cbn [andb].
  - rewrite (kinds_differ _ _ Es). apply orb_true_iff. right. apply Z.ltb_lt. by apply last_end_below.
  - rewrite orb_false_r. destruct (is_event wt [delete_end; delete_error] e); [|done].
    apply not_true_iff_false. intros (x & Hx & [_ Hlt%Z.ltb_lt]%andb_true_iff)%existsb_elem. rewrite Forall_forall in Hall. specialize (Hall x Hx). lia.
Qed.

Lemma tearing_down_other wt wt' log e :
  (0 < EID e)%Z -> Forall (fun x => (EID x < EID e)%Z) log -> EWorktree e = Some wt' -> wt <> wt' ->
  tearing_down (log ++ [e]) wt = tearing_down log wt.
Proof.
  intros Hpos Hall Hw Hne. rewrite tearing_down_snoc by done. unfold is_event. rewrite Hw.
  by rewrite bool_decide_false by congruence.
Qed.

Lemma log_ok_snoc log e : log_ok log -> (0 < EID e)%Z -> Forall (fun x => (EID x < EID e)%Z) log -> log_ok (log ++ [e]).
Proof.
  intros [Hp Hs] Hpos Hall. split; [apply Forall_app; auto|]. apply StronglySorted_app. split; [|split; [done|repeat constructor]].
  intros x y Hx ->%list_elem_of_singleton. rewrite Forall_forall in Hall. by apply Hall.
Qed.

Lemma fresh_event log : log_ok log -> (0 < next_id (map EID log))%Z /\ Forall (fun x => (EID x < next_id (map EID log))%Z) log.
Proof.
  intros [Hp _]. split.
  - apply next_id_pos. intros x (e & -> & He)%list_elem_of_fmap. rewrite Forall_forall in Hp. by apply Hp.
  - apply Forall_forall. intros x Hx. apply next_id_above, list_elem_of_fmap. by exists x.
Qed.

(** C0_tearing_down_latest: a worktree is hidden as being torn down exactly when
    the newest of the events that start and end its teardown is a start. *)
Theorem tearing_down_latest log wt (Hlog : log_ok log) :
  tearing_down log wt =
    match last (List.filter (is_event wt [delete_start; delete_end; delete_error]) log) with
    | Some e => bool_decide (EventType e = delete_start)
    | None => false
    end.
Proof.
  destruct Hlog as [Hp Hs]. induction log as [|e log IH] using rev_ind; [done|].
  apply Forall_app in Hp as [Hp He]. apply Forall_cons in He as [He _]. apply StronglySorted_app in Hs as (Hlt & Hs & _).
  assert (Hall : Forall (fun x => (EID x < EID e)%Z) log) by (apply Forall_forall; intros x Hx; apply Hlt; [done|by left]).
  rewrite tearing_down_snoc, List.filter_app, IH by done. cbn [List.filter]. unfold is_event.
  destruct (bool_decide (EWorktree e = Some wt)); cbn [andb]; [|by rewrite app_nil_r].
  destruct (decide (EventType e = delete_start)) as [Ht|Ht].
  - rewrite Ht. cbn [bool_decide]. rewrite !bool_decide_true by set_solver. rewrite last_snoc, Ht. done.
  - rewrite (bool_decide_false (EventType e ∈ [delete_start])) by set_solver.
    destruct (decide (EventType e ∈ [delete_end; delete_error])) as [Hi|Hi].
    + rewrite !bool_decide_true by set_solver. rewrite last_snoc, bool_decide_false by done. done.
    + rewrite !bool_decide_false by set_solver. by rewrite app_nil_r.
Qed.

(** ** Lemmas and properties: the name *)
Definition of_rank (name : string) (r : rank) (rows : list WtRow) : list WtRow :=
  List.filter (fun w => bool_decide (rank_of name w = Some r)) rows.

Lemma of_rank_snoc name r rows w : of_rank name r (rows ++ [w]) = of_rank name r rows ++ (if bool_decide (rank_of name w = Some r) then [w] else []).
Proof. unfold of_rank. rewrite List.filter_app. done. Qed.

Lemma hits_spec name rows :
  let h := foldl (note name) no_hits rows in
  let last_of r := match last (of_rank name r rows) with Some w => Path w | None => "" end in
  exactBase h = last_of RBase /\ exactSlug h = last_of RSlug /\ exactBranch h = last_of RBranch /\
  prefixHits h = map Path (of_rank name RPrefix rows).
Proof.
  cbn zeta. induction rows as [|w rows (H1 & H2 & H3 & H4)] using rev_ind; [done|]. rewrite foldl_app, !of_rank_snoc. cbn [foldl].
  unfold note. destruct (rank_of name w) as [[]|]; cbn [exactBase exactSlug exactBranch prefixHits];
    repeat case_bool_decide; try congruence;
    split_and!; rewrite ?last_snoc, ?app_nil_r, ?map_app, <- ?H4; done.
Qed.

(** C0_lookup_ranks: the worktree that a name means is a live one of the
    repository: one whose directory has the name, or else whose branch, or else
    whose slug, the last such row of the query when there are several; or else
    the only one that starts with it in one of the three.  When there is none
    of all this nothing is found, and several that start with it are listed. *)
Theorem lookup_ranks d log repoRoot name (Hpaths : Forall (fun w => Path w <> "") (worktrees d)) :
  let rows := live_rows d log repoRoot in
  let best := match last (of_rank name RBase rows) with
              | Some w => Some w
              | None => match last (of_rank name RBranch rows) with Some w => Some w | None => last (of_rank name RSlug rows) end
              end in
  LookupWorktree d log repoRoot name =
    match best, map Path (of_rank name RPrefix rows) with
    | Some w, _ => (Some (Path w), [])
    | None, [p] => (Some p, [])
    | None, l => (None, l)
    end /\
  (forall p, (LookupWorktree d log repoRoot name).1 = Some p -> exists w, w ∈ rows /\ Path w = p /\ rank_of name w <> None).
Proof.
  cbn zeta. set (rows := live_rows d log repoRoot).
  assert (Hne : forall r w, last (of_rank name r rows) = Some w -> w ∈ rows /\ rank_of name w = Some r /\ Path w <> "").
  { intros r w [l Hl]%last_Some. assert (Hw : w ∈ of_rank name r rows) by (rewrite Hl; set_solver).
    unfold of_rank in Hw. apply elem_of_filter_bool in Hw as [Hr%bool_decide_eq_true Hw]. split_and!; try done.
    unfold rows, live_rows in Hw. apply elem_of_filter_bool in Hw as [_ Hw]. rewrite Forall_forall in Hpaths. by apply Hpaths. }
  destruct (hits_spec name rows) as (H1 & H2 & H3 & H4). unfold LookupWorktree. fold rows. rewrite H1, H2, H3, H4.
  assert (Hpre : forall p, map Path (of_rank name RPrefix rows) = [p] -> exists w, w ∈ rows /\ Path w = p /\ rank_of name w <> None).
  { intros p Hp. assert (Hi : p ∈ map Path (of_rank name RPrefix rows)) by (rewrite Hp; by left).
    apply list_elem_of_fmap in Hi as (w & -> & Hw). unfold of_rank in Hw. apply elem_of_filter_bool in Hw as [Hr%bool_decide_eq_true Hw].
    exists w. split_and!; [done..|]. by rewrite Hr. }
  destruct (last (of_rank name RBase rows)) as [w|] eqn:E1.
  { destruct (Hne _ _ E1) as (? & Hr & ->%String.eqb_neq). split; [done|]. intros p [= <-]. exists w. split_and!; [done..|]. by rewrite Hr. }
  destruct (last (of_rank name RBranch rows)) as [w|] eqn:E2.
  { destruct (Hne _ _ E2) as (? & Hr & ->%String.eqb_neq). split; [done|]. intros p [= <-]. exists w. split_and!; [done..|]. by rewrite Hr. }
  destruct (last (of_rank name RSlug rows)) as [w|] eqn:E3.
  { destruct (Hne _ _ E3) as (? & Hr & ->%String.eqb_neq). split; [done|]. intros p [= <-]. exists w. split_and!; [done..|]. by rewrite Hr. }
  cbn [String.eqb negb]. split; [by destruct (map Path _) as [|p [|q l]]|]. intros p.
  destruct (map Path (of_rank name RPrefix rows)) as [|q [|q' l]] eqn:E; [done| |done]. intros [= ->]. by apply Hpre.
Qed.

(** ** Ancestors among the processes *)
Definition parent_of (parents : gmap Z Z) (a b : Z) : Prop := parents !! a = Some b.

Lemma descend_sound fuel parents pid anc : descend_loop fuel parents pid anc = true -> rtc (parent_of parents) pid anc.
Proof.
  revert pid. induction fuel as [|fuel IH]; intros pid; [done|]. cbn [descend_loop].
  destruct (Z.eqb_spec pid anc) as [->|_]; [constructor|]. destruct (parents !! pid) as [q|] eqn:E; [|done].
  destruct (Z.eqb q pid); [done|]. intros H. eapply rtc_l; [exact E|by apply IH].
Qed.

(** the processes on the way, each of which has a parent *)
Inductive chain (parents : gmap Z Z) (anc : Z) : list Z -> Z -> Prop :=
| chain_end : chain parents anc [] anc
| chain_up pid q l : pid <> anc -> pid ∉ l -> parents !! pid = Some q -> q <> pid -> chain parents anc l q -> chain parents anc (pid :: l) pid.

Lemma chain_suffix parents anc l pid x : chain parents anc l pid -> x ∈ l -> exists l', chain parents anc l' x.
Proof.
  induction 1 as [|pid q l Hne Hni Hp Hq Hc IH]; [by intros ?%not_elem_of_nil|].
  intros [->|Hx]%elem_of_cons; [|by apply IH]. exists (pid :: l). by econstructor.
Qed.

Lemma reach_chain parents anc pid : rtc (parent_of parents) pid anc -> exists l, chain parents anc l pid.
Proof.
  induction 1 as [|pid q anc Hpq _ (l & Hc)]; [exists []; constructor|]. destruct (decide (pid = anc)) as [->|Hne]; [exists []; constructor|].
  destruct (decide (q = pid)) as [->|Hq]; [by exists l|].
  destruct (decide (pid ∈ l)) as [Hi|Hi]; [by eapply chain_suffix|]. exists (pid :: l). by econstructor.
Qed.

Lemma chain_nodup parents anc l pid : chain parents anc l pid -> NoDup l /\ (forall x, x ∈ l -> x ∈ dom parents).
Proof.
  induction 1 as [|pid q l Hne Hni Hp Hq Hc [IHn IHd]]; [split; [constructor|by intros x ?%not_elem_of_nil]|].
  split; [by constructor|]. intros x [->|?]%elem_of_cons; [|by apply IHd]. apply elem_of_dom. by eexists.
Qed.

Lemma chain_descends parents anc l pid fuel : chain parents anc l pid -> (length l < fuel)%nat -> descend_loop fuel parents pid anc = true.
Proof.
  intros Hc. revert fuel. induction Hc as [|pid q l Hne Hni Hp Hq Hc IH]; intros [|fuel] Hf; cbn [length] in Hf; try lia; cbn [descend_loop].
  - by rewrite Z.eqb_refl.
  - apply Z.eqb_neq in Hne, Hq. rewrite Hne, Hp, Hq. apply IH. lia.
Qed.

(** C0_Descends_exact: the bounded walk up the table of parents finds an
    ancestor exactly when there is one, a process counting as its own, however
    long the chain is and whatever cycles the table has. *)
Theorem Descends_exact s pid anc : Descends s pid anc = true <-> rtc (parent_of (parents s)) pid anc.
Proof.
  split; [apply descend_sound|]. intros [l Hc]%reach_chain. destruct (chain_nodup _ _ _ _ Hc) as [Hn Hd].
  eapply chain_descends; [exact Hc|]. enough (length l <= size (parents s))%nat by lia.
  rewrite <- size_dom, <- (size_list_to_set (C := gset Z) l) by done. apply subseteq_size. intros x Hx%elem_of_list_to_set. by apply Hd.
Qed.

(** ** What is refused *)
Lemma approve_ok d log h r p :
  approve d log h r = Ok p ->
  target_path d log h r = Ok p /\ pathsEqual p (RepoRoot r) = false /\
  (Force r = true \/ teardownInFlight d log (RepoRoot r) p = false) /\ EnsureNotInUse h p = Ok tt.
Proof.
  unfold approve. destruct (String.eqb (Target r) ""); [done|]. destruct (String.eqb (RepoRoot r) ""); [done|].
  destruct (target_path d log h r) as [q|e]; cbn [res_bind]; [|done]. destruct (pathsEqual q (RepoRoot r)) eqn:Em; [done|].
  destruct (negb (Force r) && teardownInFlight d log (RepoRoot r) q) eqn:Ef; [done|].
  destruct (EnsureNotInUse h q) as [[]|e] eqn:Eu; cbn [res_bind]; [|done]. intros [= ->]. split_and!; try done.
  apply andb_false_iff in Ef as [?%negb_false_iff|?]; auto.
Qed.

(** *** What a name means *)
(** the worktree whose directory, branch or slug is the name, or starts with it *)
Definition by_base (name : string) (w : WtRow) : bool := String.eqb (path_base (Path w)) name.
Definition by_slug (name : string) (w : WtRow) : bool := String.eqb (Slug w) name.
Definition by_branch (name : string) (w : WtRow) : bool := String.eqb (default "" (Branch w)) name && negb (by_slug name w).
Definition by_prefix (name : string) (w : WtRow) : bool :=
  (2 <=? String.length name)%nat &&
  (has_prefix name (path_base (Path w)) || has_prefix name (Slug w) || has_prefix name (default "" (Branch w))).

Definition none_is (P : WtRow -> bool) (rows : list WtRow) : Prop := Forall (fun w => P w = false) rows.
Definition last_with (P : WtRow -> bool) (rows : list WtRow) (w : WtRow) : Prop :=
  exists before after, rows = before ++ w :: after /\ P w = true /\ none_is P after.

(** a directory goes before a branch, a branch before a slug, the last row
    before the others; the start of a name counts when only one row has it *)
Definition means (name : string) (rows : list WtRow) (w : WtRow) : Prop :=
  last_with (by_base name) rows w \/
  none_is (by_base name) rows /\
    (last_with (by_branch name) rows w \/
     none_is (by_branch name) rows /\
       (last_with (by_slug name) rows w \/
        none_is (by_slug name) rows /\ List.filter (by_prefix name) rows = [w])).

Lemma last_filter P rows w : last (List.filter P rows) = Some w <-> last_with P rows w.
Proof.
  unfold last_with, none_is. induction rows as [|x rows IH] using rev_ind; [split; [done|by intros ([] & ? & ? & _)]|].
  rewrite List.filter_app. cbn [List.filter]. destruct (P x) eqn:Ex.
  - rewrite last_snoc. split.
    + intros [= <-]. exists rows, []. by repeat constructor.
    + intros (before & after & E & Hw & Ha). destruct after as [|y after _] using rev_ind; [by apply app_inj_tail in E as [_ ->]|].
      rewrite app_comm_cons, app_assoc in E. apply app_inj_tail in E as [_ <-]. apply Forall_app in Ha as [_ [Ha _]%Forall_cons]. congruence.
  - rewrite app_nil_r, IH. split; intros (before & after & E & Hw & Ha).
    + exists before, (after ++ [x]). rewrite E, <- app_assoc. split_and!; [done..|]. apply Forall_app. split; [done|by constructor].
    + destruct after as [|y after _] using rev_ind; [apply app_inj_tail in E as [_ ->]; congruence|].
      rewrite app_comm_cons, app_assoc in E. apply app_inj_tail in E as [-> _]. apply Forall_app in Ha as [Ha _]. by exists before, after.
Qed.

Lemma drop_all_false P (rows : list WtRow) : last (List.filter P rows) = None <-> none_is P rows.
Proof.
  rewrite last_None. unfold none_is. induction rows as [|x rows IH]; [split; [constructor|done]|]. cbn [List.filter].
  rewrite Forall_cons. destruct (P x) eqn:E; [|by rewrite IH; intuition].
  split; [done|]. by intros [? _].
Qed.

Lemma of_rank_is name rank P rows : (forall w, w ∈ rows -> rank_of name w = Some rank <-> P w = true) ->
  of_rank name rank rows = List.filter P rows.
Proof.
  intros H. apply filter_ext_in. intros w Hw%list_elem_of_In. specialize (H w Hw). case_bool_decide as E; destruct (P w); intuition congruence.
Qed.

(** the lookup finds the worktree that the name means *)
Lemma lookup_means d log repoRoot name (Hpaths : Forall (fun w => Path w <> "") (worktrees d)) :
  match (LookupWorktree d log repoRoot name).1 with
  | Some p => exists w, w ∈ live_rows d log repoRoot /\ means name (live_rows d log repoRoot) w /\ Path w = p
  | None => forall w, ~ means name (live_rows d log repoRoot) w
  end.
Proof.
  destruct (lookup_ranks d log repoRoot name Hpaths) as [E _]. rewrite E. clear E. set (rows := live_rows d log repoRoot).
  assert (Hlast : forall P w, last_with P rows w -> w ∈ rows) by (intros P w (? & ? & -> & _); set_solver).
  assert (Hb : of_rank name RBase rows = List.filter (by_base name) rows).
  { apply of_rank_is. intros w _. unfold rank_of, by_base. repeat case_match; naive_solver. }
  rewrite Hb. destruct (last (List.filter (by_base name) rows)) as [w|] eqn:Eb.
  { apply last_filter in Eb. exists w. split_and!; [by eapply Hlast|by left|done]. }
  apply drop_all_false in Eb. pose proof Eb as Nb. unfold none_is in Nb. rewrite Forall_forall in Nb.
  assert (Hr : of_rank name RBranch rows = List.filter (by_branch name) rows).
  { apply of_rank_is. intros w Hw. specialize (Nb w Hw). unfold rank_of, by_base, by_branch, by_slug in *. rewrite Nb.
    destruct (String.eqb (Slug w) name), (String.eqb (default "" (Branch w)) name); cbn; repeat case_match; naive_solver. }
  rewrite Hr. destruct (last (List.filter (by_branch name) rows)) as [w|] eqn:Er.
  { apply last_filter in Er. exists w. split_and!; [by eapply Hlast|right; split; [done|by left]|done]. }
  apply drop_all_false in Er. pose proof Er as Nr. unfold none_is in Nr. rewrite Forall_forall in Nr.
  assert (Hs : of_rank name RSlug rows = List.filter (by_slug name) rows).
  { apply of_rank_is. intros w Hw. specialize (Nb w Hw). unfold rank_of, by_base, by_slug in *. rewrite Nb.
    destruct (String.eqb (Slug w) name), (String.eqb (default "" (Branch w)) name); cbn; repeat case_match; naive_solver. }
  rewrite Hs. destruct (last (List.filter (by_slug name) rows)) as [w|] eqn:Es.
  { apply last_filter in Es. exists w. split_and!; [by eapply Hlast|right; split; [done|right; split; [done|by left]]|done]. }
  apply drop_all_false in Es. pose proof Es as Ns. unfold none_is in Ns. rewrite Forall_forall in Ns.
  assert (Hp : of_rank name RPrefix rows = List.filter (by_prefix name) rows).
  { apply of_rank_is. intros w Hw. specialize (Nb w Hw). specialize (Nr w Hw). specialize (Ns w Hw).
    unfold rank_of, by_base, by_branch, by_slug, by_prefix in *. rewrite Nb, Ns in *. cbn [negb] in Nr. rewrite andb_true_r in Nr. rewrite Nr.
    destruct (_ && _); naive_solver. }
  rewrite Hp. assert (Hmeans : forall w, means name rows w -> List.filter (by_prefix name) rows = [w]).
  { intros w [H|[_ [H|[_ [H|[_ H]]]]]]; [..|done]; apply last_filter in H; [apply drop_all_false in Eb|apply drop_all_false in Er|apply drop_all_false in Es]; congruence. }
  destruct (List.filter (by_prefix name) rows) as [|w [|w' l]] eqn:Ep; cbn [map fst].
  - by intros w ?%Hmeans.
  - exists w. assert (Hw : w ∈ List.filter (by_prefix name) rows) by (rewrite Ep; by left). apply elem_of_filter_bool in Hw as [_ Hw].
    split_and!; [done| |done]. right. split; [done|right; split; [done|right; by split]].
  - by intros x ?%Hmeans.
Qed.

(** C38: whatever is asked, the path that [Delete] tears down, here or in the
    daemon, is not that of the main worktree; every process that uses it is the
    caller or one of its ancestors, or was started by the daemon; and, unless
    the caller insists, no teardown of it is going on.  It is the path of the
    worktree that the name means: among the worktrees of the repository that
    are neither deleted nor being torn down, the one whose directory has the
    name, or else whose branch, or else whose slug has, or else the only one
    where one of the three starts with it; or, when the name means none, the
    name as a path, which is there unless the caller insists. *)
Theorem delete_guarded d log h r p (Hpaths : Forall (fun w => Path w <> "") (worktrees d)) :
  let rows := live_rows d log (RepoRoot r) in
  Delete d log h r = Ok (Queued p) \/ Delete d log h r = Ok (InProcess p) ->
  pathsEqual p (RepoRoot r) = false /\
  (Force r = false -> forall w, w ∈ live_rows d [] (RepoRoot r) -> nocase (Path w) p = true -> tearing_down log (ID w) = false) /\
  (exists s daemon, scan h p = Some s /\ daemonPID h = Some daemon /\
     forall q, q ∈ Holders s -> rtc (parent_of (parents s)) (self h) q \/ (0 < daemon)%Z /\ rtc (parent_of (parents s)) q daemon) /\
  ((exists w, w ∈ rows /\ means (Target r) rows w /\ Path w = p) \/
   (forall w, ~ means (Target r) rows w) /\ path_abs (getwd h) (Target r) = Some p /\ (there h p = true \/ Force r = true)).
Proof.
  cbn zeta. intros HD. assert (Ha : approve d log h r = Ok p).
  { unfold Delete in HD. destruct (approve d log h r) as [q|e]; cbn [res_bind] in HD; [|by destruct HD].
    destruct (Detached r), (queued h), HD; congruence. }
  apply approve_ok in Ha as (Ht & Hm & Hf & Hu). split; [done|]. split; [|split].
  - intros Hforce w Hw Hp. destruct Hf as [?|Hf]; [congruence|]. destruct (tearing_down log (ID w)) eqn:Etd; [|done].
    enough (teardownInFlight d log (RepoRoot r) p = true) by congruence. unfold live_rows in Hw.
    apply elem_of_filter_bool in Hw as [[[Hact Hrepo]%andb_true_iff _]%andb_true_iff Hw]. apply existsb_elem. exists w. split; [done|].
    by rewrite Hp, Hact, Etd, Hrepo.
  - unfold EnsureNotInUse in Hu. destruct (scan h p) as [s|]; [|done]. destruct (daemonPID h) as [daemon|]; [|done].
    destruct (foreignHolders s (self h) daemon) as [|x l] eqn:Eh; [|done]. exists s, daemon. split_and!; [done..|]. intros q Hq.
    destruct (Descends s (self h) q) eqn:E1; [left; by apply descend_sound in E1|]. right.
    destruct ((0 <? daemon)%Z && Descends s q daemon) eqn:E2.
    + apply andb_true_iff in E2 as [?%Z.ltb_lt E2]. split; [done|]. by apply descend_sound in E2.
    + exfalso. assert (Hin : q ∈ foreignHolders s (self h) daemon) by (apply elem_of_filter_bool; by rewrite E1, E2).
      rewrite Eh in Hin. by apply not_elem_of_nil in Hin.
  - pose proof (lookup_means d log (RepoRoot r) (Target r) Hpaths) as Hm'. unfold target_path in Ht.
    destruct (LookupWorktree d log (RepoRoot r) (Target r)) as [[q|] l]; cbn [fst] in Hm'; [left; by injection Ht as ->|]. right.
    destruct (path_abs (getwd h) (Target r)) as [q|]; [|done]. destruct (negb (there h q) && negb (Force r)) eqn:E; [done|].
    injection Ht as ->. split_and!; [done..|]. apply andb_false_iff in E as [?%negb_false_iff|?%negb_false_iff]; auto.
Qed.

(** ** A teardown that stops half way *)
Section Teardown.
Context (now wt : Z).
Local Abbreviation act := (act now wt).

(** what has to be done before the row may go *)
Definition torn_down (gone force : bool) (o : Outcome) (es : list effect) : Prop :=
  DropDatabases ∈ es /\ ReleasePorts ∈ es /\ (gone = true \/ GitRemove ∈ es /\ (git_removes o = true \/ force = true)).

Lemma teardown_shape gone force o :
  exists es, teardown_actions gone force o =
    (AEvent delete_start "info" :: map AEffect es ++
       (if (teardown_actions gone force o).2 then [AMarkDeleted] else []) ++ [terminal (teardown_actions gone force o).2],
     (teardown_actions gone force o).2) /\
  ((teardown_actions gone force o).2 = true -> torn_down gone force o es).
Proof.
  destruct o as [b a g m]. unfold teardown_actions, torn_down. cbn [before_hooks after_hooks git_removes marks].
  exists ((if b then [Hooks "delete-before-engines"] else []) ++ [DropDatabases] ++ (if a then [Hooks "delete-after-engines"] else []) ++
          (if gone then [] else GitRemove :: (if g || force then [RemoveTree] else [])) ++
          (if gone || g || force then [ReleasePorts] else [])).
  split; [by destruct b, a, gone, g, force, m|]. cbn [snd]. intros [Hok _]%andb_true_iff. rewrite Hok.
  split_and!; [destruct b; set_solver|rewrite !elem_of_app; set_solver|]. destruct gone; [by left|]. right. split; [rewrite !elem_of_app; set_solver|].
  cbn [orb] in Hok. by apply orb_true_iff in Hok.
Qed.

Lemma act_effects es w :
  foldl act w (map AEffect es) = {| db := db w; events := events w; did := did w ++ es |}.
Proof.
  revert w. induction es as [|e es IH]; intros w; [by destruct w; cbn; rewrite app_nil_r|]. cbn [map foldl]. rewrite IH. cbn. by rewrite <- app_assoc.
Qed.

Lemma tearing_down_write type level w t :
  log_ok (events w) ->
  log_ok (events (write_event now t type level w)) /\
  forall x, tearing_down (events (write_event now t type level w)) x =
    if Z.eqb x t then (if String.eqb type delete_start then true
                       else if bool_decide (type ∈ [delete_end; delete_error]) then false else tearing_down (events w) x)
    else tearing_down (events w) x.
Proof.
  intros Hl. destruct (fresh_event _ Hl) as [Hp Ha]. unfold write_event. cbn [events]. split; [by apply log_ok_snoc|].
  intros x. rewrite tearing_down_snoc by done. unfold is_event. cbn [EWorktree EventType].
  destruct (Z.eqb_spec x t) as [->|Hne]; [|by rewrite bool_decide_false by congruence]. rewrite bool_decide_true by done. cbn [andb].
  destruct (String.eqb_spec type delete_start) as [->|Hn]; [done|]. by rewrite (bool_decide_false (type ∈ [delete_start])) by set_solver.
Qed.

Lemma marked_gone d r : r ∈ worktrees (MarkWorktreeDeleted now wt d) -> ID r = wt -> active r = false.
Proof.
  unfold MarkWorktreeDeleted, update_wt, with_worktrees. cbn [worktrees]. intros (w & -> & _)%list_elem_of_fmap.
  destruct (Z.eqb_spec (ID w) wt); [done|]. done.
Qed.

(** C0_teardown_resumable: wherever a teardown stops, its worktree is not
    forgotten: once the teardown has begun, either the worktree is listed among
    the interrupted ones, which the next daemon finishes; or it is deleted in
    the registry, and then its databases have been dropped, its ports released
    and its checkout removed - by git, or because the caller insisted, or
    because it was not there; or the teardown has reported an error, and the
    worktree is there as before and can be deleted again.  No other worktree is
    hidden or shown by it. *)
Theorem teardown_resumable gone force o w0 k
    (Hlog : log_ok (events w0)) (Hfresh : did w0 = []) :
  let actions := (teardown_actions gone force o).1 in
  let w := foldl act w0 (take (S k) actions) in
  (forall r, r ∈ worktrees (db w0) -> ID r = wt -> active r = true -> has_repo (db w0) r = true ->
     r ∈ ListInterruptedTeardowns (db w) (events w) \/
     (forall r', r' ∈ worktrees (db w) -> ID r' = wt -> active r' = false) /\ torn_down gone force o (did w) \/
     (length actions <= S k)%nat /\ (teardown_actions gone force o).2 = false /\ db w = db w0 /\ tearing_down (events w) wt = false) /\
  (forall t, t <> wt -> tearing_down (events w) t = tearing_down (events w0) t).
Proof.
  cbn zeta. destruct (teardown_shape gone force o) as (es & -> & Hdone). cbn [fst snd take foldl].
  set (ok := (teardown_actions gone force o).2) in *. cbn [WtDelete.act].
  destruct (tearing_down_write delete_start "info" w0 wt Hlog) as [Hl1 Ht1]. set (w1 := write_event now wt delete_start "info" w0) in *.
  assert (Hw1 : tearing_down (events w1) wt = true) by by rewrite Ht1, Z.eqb_refl.
  assert (Hother : forall t, t <> wt -> tearing_down (events w1) t = tearing_down (events w0) t).
  { intros t Ht%Z.eqb_neq. by rewrite Ht1, Ht. }
  destruct (Nat.le_gt_cases k (length es)) as [Hk|Hk].
  { rewrite take_app_le by by rewrite length_map. rewrite firstn_map, act_effects. cbn [db events did]. split; [|done]. intros r Hr Hid Ha Hrepo. left. unfold ListInterruptedTeardowns.
    apply elem_of_filter_bool. rewrite Hid, Hw1, Ha. split; [|exact Hr]. change (has_repo (db w1) r) with (has_repo (db w0) r). by rewrite Hrepo. }
  rewrite take_app_ge by (rewrite length_map; lia). rewrite length_map, foldl_app, act_effects.
  set (w2 := {| db := db w1; events := events w1; did := did w1 ++ es |}).
  assert (Hterm : forall b w, log_ok (events w) -> tearing_down (events (act w (terminal b))) wt = false /\
                    forall t, t <> wt -> tearing_down (events (act w (terminal b))) t = tearing_down (events w) t).
  { intros b w Hl. destruct b; cbn [terminal WtDelete.act];
      match goal with |- context [write_event now wt ?ty ?lv w] => destruct (tearing_down_write ty lv w wt Hl) as [_ Ht] end;
      (split; [by rewrite Ht, Z.eqb_refl|intros t Hne%Z.eqb_neq; by rewrite Ht, Hne]). }
  destruct (k - length es)%nat as [|j] eqn:Ej; [lia|]. destruct ok.
  - cbn [app take foldl]. set (w3 := act w2 AMarkDeleted). split.
    + intros r _ _ _ _. right. left. destruct j as [|j]; cbn [take foldl].
      * split; [intros r'; apply marked_gone|]. cbn [did w3 WtDelete.act w2]. unfold w1, write_event. cbn [did]. rewrite Hfresh. by apply Hdone.
      * rewrite take_nil. cbn [foldl terminal WtDelete.act]. split; [intros r'; apply marked_gone|].
        unfold write_event. cbn [did w3 WtDelete.act w2]. unfold w1, write_event. cbn [did]. rewrite Hfresh. by apply Hdone.
    + intros t Hne. destruct j as [|j]; cbn [take foldl]; [by apply Hother|]. rewrite take_nil. cbn [foldl].
      rewrite (proj2 (Hterm true w3 Hl1) t Hne). by apply Hother.
  - cbn [app take foldl]. rewrite take_nil. cbn [foldl]. destruct (Hterm false w2 Hl1) as [Ht2 Ho2]. split.
    + intros r _ _ _ _. right. right. rewrite length_cons, length_app, length_map. cbn [length]. split_and!; [lia|done|done|exact Ht2].
    + intros t Hne. rewrite Ho2 by done. by apply Hother.
Qed.
End Teardown.

(** ** On a concrete registry *)
Definition demo_row (id : Z) (path slug branch : string) : WtRow :=
  {| ID := id; RepoID := 1; Path := path; Slug := slug; Branch := Some branch; AdminDir := None; deleted_at := None;
     last_visited_at := None; IsMain := false; teardown_error := None |}.
Definition demo_db : DB :=
  {| repos := [{| rID := 1; rPath := "/r"; rName := "r" |}];
     worktrees := [demo_row 1 "/r/.worktrees/feature/login" "login_a1" "feature/login";
                   demo_row 2 "/r/.worktrees/fix/login" "login_b2" "fix/login"; demo_row 3 "/r/.worktrees/search" "search_c3" "search"] |}.
Definition demo_event (id : Z) (type : string) (wt : Z) : Event :=
  {| EID := id; Ts := id; Level := "info"; ERepo := None; EWorktree := Some wt; EventType := type; Phase := None; Message := None;
     PayloadJSON := "null"; DurationMs := None |}.
Definition demo_log : list Event := [demo_event 1 delete_start 3; demo_event 2 delete_error 3; demo_event 3 delete_start 2].
Definition demo_scan : Scan := {| Holders := [7; 20]%Z; parents := {[ 9%Z := 7%Z; 7%Z := 1%Z; 20%Z := 4%Z; 4%Z := 1%Z ]} |}.
Definition demo_host : Host :=
  {| getwd := Some "/r"; there := fun _ => true; scan := fun _ => Some demo_scan; self := 9; daemonPID := Some 4%Z; queued := false |}.
Definition delete_search : DeleteRequest := {| RepoRoot := "/r"; Target := "sea"; Force := false; Detached := false |}.

(** two worktrees whose directories have the same name: the one that the
    database happens to give last is meant, and nobody is asked *)
Example same_name_last_wins :
  LookupWorktree demo_db [] "/r" "login" = (Some "/r/.worktrees/fix/login", []) /\
  LookupWorktree demo_db [] "/r" "login_" = (None, ["/r/.worktrees/feature/login"; "/r/.worktrees/fix/login"]).
Proof. split; vm_compute; reflexivity. Qed.

(** a daemon that answers and does not take the task is treated like one that
    is not there *)
Example done_beside_the_daemon :
  Delete demo_db demo_log demo_host delete_search = Ok (InProcess "/r/.worktrees/search").
Proof. vm_compute. reflexivity. Qed.

Lemma demo_log_ok : log_ok demo_log.
Proof. split; repeat (constructor; cbn; try lia). Qed.

Lemma tearing_down_latest_witness :
  map (tearing_down demo_log) [2; 3]%Z = [true; false] /\
  tearing_down demo_log 2 =
    match last (List.filter (is_event 2 [delete_start; delete_end; delete_error]) demo_log) with
    | Some e => bool_decide (EventType e = delete_start) | None => false end.
Proof. split; [vm_compute; reflexivity|]. refine (tearing_down_latest demo_log 2 demo_log_ok). Defined.

Lemma lookup_ranks_witness :
  (LookupWorktree demo_db demo_log "/r" "login").1 = Some "/r/.worktrees/feature/login" /\
  forall p, (LookupWorktree demo_db demo_log "/r" "login").1 = Some p ->
    exists w, w ∈ live_rows demo_db demo_log "/r" /\ Path w = p /\ rank_of "login" w <> None.
Proof. split; [vm_compute; reflexivity|]. refine (proj2 (lookup_ranks demo_db demo_log "/r" "login" _)). by repeat constructor. Defined.

Lemma delete_guarded_witness :
  Delete demo_db demo_log demo_host delete_search = Ok (InProcess "/r/.worktrees/search") /\
  pathsEqual "/r/.worktrees/search" "/r" = false.
Proof.
  assert (HD : Delete demo_db demo_log demo_host delete_search = Ok (InProcess "/r/.worktrees/search")) by (vm_compute; reflexivity).
  split; [exact HD|]. refine (proj1 (delete_guarded demo_db demo_log demo_host delete_search "/r/.worktrees/search" _ _)); [by repeat constructor|].
  right. exact HD.
Defined.

Definition demo_world : World := {| db := demo_db; events := demo_log; did := [] |}.
Definition refuses : Outcome := {| before_hooks := true; after_hooks := false; git_removes := false; marks := true |}.

Lemma teardown_resumable_witness :
  let w k := foldl (act 9 3) demo_world (take k (teardown_actions false false refuses).1) in
  map ID (ListInterruptedTeardowns (db (w 3%nat)) (events (w 3%nat))) = [2; 3]%Z /\
  map ID (ListInterruptedTeardowns (db (w 9%nat)) (events (w 9%nat))) = [2]%Z /\
  (forall t, t <> 3%Z -> tearing_down (events (w 9%nat)) t = tearing_down demo_log t).
Proof.
  split; [vm_compute; reflexivity|]. split; [vm_compute; reflexivity|].
  refine (proj2 (teardown_resumable 9 3 false false refuses demo_world 8 demo_log_ok eq_refl)).
Defined.
