(* ===== verification/Hooks.v ===== *)
(** * Hooks: [internal/hooks]

    How an action becomes the text that a shell runs, how the groups of a phase
    are started and awaited, which failure is reported ([hooks.go]), and the
    rows and the event that record a phase ([persist.go], with the statements
    of [store/events.go] it uses). *)
From stdpp Require Import base strings list.
From Stdlib Require Import ZArith Lia Ascii.
From S2P Require Import Prelude GoStrings Lines Paths.
From S2P Require Registry.
#[local] Abbreviation next_id := Registry.next_id.
#[local] Open Scope treeman_scope.

(** ** Quoting *)
(** [strings.Builder.WriteRune] *)
Definition byte (z : Z) : ascii := ascii_of_N (Z.to_N z).
Definition write_rune (r : Z) : string :=
  if (r <? 128)%Z then String (byte r) ""
  else if (r <? 2048)%Z then String (byte (192 + r / 64)) (String (byte (128 + r mod 64)) "")
  else if (((55296 <=? r) && (r <=? 57343)) || (1114111 <? r))%Z then "�"
  else if (r <? 65536)%Z
  then String (byte (224 + r / 4096)) (String (byte (128 + r / 64 mod 64)) (String (byte (128 + r mod 64)) ""))
  else String (byte (240 + r / 262144)) (String (byte (128 + r / 4096 mod 64))
         (String (byte (128 + r / 64 mod 64)) (String (byte (128 + r mod 64)) ""))).

Definition quote_rune (r : Z) : string := if (r =? 39)%Z then "'\''" else write_rune r.
Definition shellSingleQuote (s : string) : string := "'" +:+ join "" (map quote_rune (runes s)) +:+ "'".
Definition shellJoin (argv : list string) : string := join " " (map shellSingleQuote argv).

(** ** Actions *)
Record Action := {
  RunSteps : list string; Cwd : string; Container : string; ComposeService : string; ComposeProject : string;
  EngineName : string; ContinueOnError : bool
}.

Inductive hook_error :=
| EmptyLogDir
| LogDirNotMade (dir : string)
| EnvNotLoaded
| ContainerUnknown
| LogNotOpened (path : string)
| NotSpawned (cmd : string).

(** [containerip.ContainerID], for the container, the service, its project and
    the engine *)
Abbreviation resolver := (string -> string -> string -> string -> option string).

Definition host_step (cwd step : string) : string := "( cd " +:+ shellSingleQuote cwd +:+ " && " +:+ step +:+ " )".
Definition exec_argv (engine id cwd step : string) : list string :=
  engine :: "exec" :: (if String.eqb cwd "" then [] else ["-w"; cwd]) ++ [id; "sh"; "-c"; step].

Definition renderAction (container_id : resolver) (a : Action) (defaultCwd : string) : res hook_error string :=
  match RunSteps a with
  | [] => Ok ""
  | steps =>
      if String.eqb (Container a) "" && String.eqb (ComposeService a) ""
      then Ok (join " && " (map (host_step (if String.eqb (Cwd a) "" then defaultCwd else Cwd a)) steps))
      else
        let engine := if String.eqb (EngineName a) "" then "docker" else EngineName a in
        match container_id (Container a) (ComposeService a) (ComposeProject a) engine with
        | None => Err ContainerUnknown
        | Some id => Ok (join " && " (map (fun step => shellJoin (exec_argv engine id (Cwd a) step)) steps))
        end
  end.

(** ** Running a phase *)
Record GroupOutcome := {
  Command : string; PID : Z; LogPath : string; ExitCode : Z; GContinue : bool; StdoutTail : string; StderrTail : string; LogBody : string
}.
Record RunOutcome := { Groups : list GroupOutcome; AggregateExitCode : Z }.

(** what the machine answers: whether the directory can be made, whether the
    environment could be loaded, the pid of a child, how it ended, and what its
    log then says *)
Inductive ending := Exited (code : Z) | WaitFailed.
Record Machine := {
  mkdir : string -> bool;
  env_loaded : bool;
  container : resolver;
  opens : string -> bool;
  spawn : string -> option Z;
  ends : Z -> ending;
  read_log : string -> string
}.

Definition log_name (phase : string) (i : nat) : string := phase +:+ "-" +:+ itoa (Z.of_nat i) +:+ ".log".
Definition lastBytes (b : string) (n : nat) : string := str_drop (String.length b - n) b.

Section Run.
Context (m : Machine).

Definition spawnDetached (cmd logPath : string) : res hook_error Z :=
  if negb (opens m logPath) then Err (LogNotOpened logPath)
  else match spawn m cmd with None => Err (NotSpawned cmd) | Some pid => Ok pid end.

(** the loop over the entries: the groups that were started *)
Fixpoint start_groups (phase logDir cwd : string) (i : nat) (entries : list Action) : list GroupOutcome * option hook_error :=
  match entries with
  | [] => ([], None)
  | e :: entries =>
      match RunSteps e with
      | [] => start_groups phase logDir cwd (S i) entries
      | _ =>
          let logPath := path_join logDir (log_name phase i) in
          match (let? cmd := renderAction (container m) e cwd in let? pid := spawnDetached cmd logPath in Ok (cmd, pid)) with
          | Err err => ([], Some err)
          | Ok (cmd, pid) =>
              let '(gs, err) := start_groups phase logDir cwd (S i) entries in
              ({| Command := cmd; PID := pid; LogPath := logPath; ExitCode := 0; GContinue := ContinueOnError e;
                  StdoutTail := ""; StderrTail := ""; LogBody := "" |} :: gs, err)
          end
      end
  end.

Definition exit_code (pid : Z) : Z := match ends m pid with Exited c => c | WaitFailed => -1 end.

(** the loop of [wait]; [slurp] when the logs are read back *)
Definition await_group (slurp : bool) (g : GroupOutcome) : GroupOutcome :=
  let body := if slurp then read_log m (LogPath g) else "" in
  {| Command := Command g; PID := PID g; LogPath := LogPath g; ExitCode := exit_code (PID g); GContinue := GContinue g;
     StdoutTail := StdoutTail g;
     StderrTail := if slurp && negb (exit_code (PID g) =? 0)%Z then lastBytes body 4096 else StderrTail g;
     LogBody := body |}.

Definition run_groups (slurp : bool) (phase logDir cwd : string) (entries : list Action) (wait : bool) : RunOutcome * option hook_error :=
  if negb (mkdir m logDir) then ({| Groups := []; AggregateExitCode := 0 |}, Some (LogDirNotMade logDir))
  else if negb (env_loaded m) then ({| Groups := []; AggregateExitCode := 0 |}, Some EnvNotLoaded)
  else let '(gs, err) := start_groups phase logDir cwd 0 entries in
       match err with
       | Some _ => ({| Groups := gs; AggregateExitCode := 0 |}, err)
       | None => ({| Groups := if wait then map (await_group slurp) gs else gs; AggregateExitCode := 0 |}, None)
       end.

Definition RunHooks (phase : string) (entries : list Action) (worktreePath : string) (wait : bool) : RunOutcome * option hook_error :=
  match entries with
  | [] => ({| Groups := []; AggregateExitCode := 0 |}, None)
  | _ => run_groups true phase (path_join worktreePath ".treeman-hooks") worktreePath entries wait
  end.

Definition RunHooksOrphan (phase : string) (entries : list Action) (repoRoot logDir : string) (wait : bool) : RunOutcome * option hook_error :=
  match entries with
  | [] => ({| Groups := []; AggregateExitCode := 0 |}, None)
  | _ => if String.eqb logDir "" then ({| Groups := []; AggregateExitCode := 0 |}, Some EmptyLogDir)
         else run_groups false phase logDir repoRoot entries wait
  end.
End Run.

(** ** The failure that is reported *)
Definition quiet_group (g : GroupOutcome) : bool := (ExitCode g =? 0)%Z || GContinue g.

Definition failure_text (trigger : string) (g : GroupOutcome) (runID : option Z) : string :=
  let tail := TrimSpace (StderrTail g) in
  let tail := if (600 <? Z.of_nat (String.length tail))%Z then "…" +:+ lastBytes tail 600 else tail in
  let hint := match runID with
              | Some id => if (0 <? id)%Z then "`treeman logs hooks --all --show " +:+ itoa id +:+ "`" else "`treeman logs hooks --all`"
              | None => "`treeman logs hooks --all`"
              end in
  trigger +:+ ": hook exited " +:+ itoa (ExitCode g) +:+ ": " +:+ Command g +:+
  (if String.eqb tail "" then "" else nl +:+ tail) +:+ nl +:+ "full output: " +:+ hint.

Fixpoint first_failure (trigger : string) (i : nat) (gs : list GroupOutcome) (runIDs : list Z) : option string :=
  match gs with
  | [] => None
  | g :: gs => if quiet_group g then first_failure trigger (S i) gs runIDs else Some (failure_text trigger g (runIDs !! i))
  end.
Definition FirstFailureError (trigger : string) (out : RunOutcome) (runIDs : list Z) : option string :=
  first_failure trigger 0 (Groups out) runIDs.

(** ** Recording a phase *)
Record HookRun := {
  HID : Z; HWorktree : Z; HPhase : string; HGroupIdx : Z; HCommand : string; HStarted : Z;
  HFinished : option Z; HExitCode : option Z; HStdout : string; HStderr : string
}.
Record HookLogChunk := { ChunkID : Z; ChunkRun : Z; Stream : string; ChunkBody : string }.
Record HookStore := { hook_runs : list HookRun; hook_log_chunks : list HookLogChunk }.

(** which statements fail, by the index of the group *)
Record Faults := { run_fails : Z -> bool; chunk_fails : Z -> bool }.

Definition WriteHookRun (f : Faults) (wt : Z) (phase : string) (i : Z) (command : string) (started finished exit : Z) (out err : string)
    (s : HookStore) : HookStore * option Z :=
  if (wt <=? 0)%Z then (s, Some 0%Z)
  else if run_fails f i then (s, None)
  else let id := next_id (map HID (hook_runs s)) in
       ({| hook_runs := hook_runs s ++ [{| HID := id; HWorktree := wt; HPhase := phase; HGroupIdx := i; HCommand := command; HStarted := started;
                                           HFinished := if (0 <? finished)%Z then Some finished else None;
                                           HExitCode := if (0 <? finished)%Z then Some exit else None; HStdout := out; HStderr := err |}];
           hook_log_chunks := hook_log_chunks s |}, Some id).

(** whether it succeeded; [i] is the group, for the fault *)
Definition AppendHookLogChunk (f : Faults) (i run : Z) (stream body : string) (s : HookStore) : HookStore * bool :=
  if (run <=? 0)%Z || String.eqb body "" then (s, true)
  else if chunk_fails f i then (s, false)
  else ({| hook_runs := hook_runs s;
           hook_log_chunks := hook_log_chunks s ++
             [{| ChunkID := next_id (map ChunkID (hook_log_chunks s)); ChunkRun := run;
                 Stream := if String.eqb stream "" then "merged" else stream; ChunkBody := body |}] |}, true).

(** [ORDER BY id]: the order in which they were appended *)
Definition QueryHookLog (run : Z) (s : HookStore) : list HookLogChunk :=
  List.filter (fun c => (ChunkRun c =? run)%Z) (hook_log_chunks s).

Definition persistGroup (f : Faults) (wt : Z) (phase : string) (i : Z) (cmd : string) (started finished : Z) (g : GroupOutcome) (s : HookStore)
    : HookStore * Z * bool :=
  match WriteHookRun f wt phase i cmd started finished (ExitCode g) (StdoutTail g) (StderrTail g) s with
  | (s, None) => (s, 0%Z, false)
  | (s, Some id) =>
      if String.eqb (LogBody g) "" then (s, id, true)
      else let '(s, ok) := AppendHookLogChunk f i id "merged" (LogBody g) s in (s, id, ok)
  end.

Definition logged_command (g : GroupOutcome) : string :=
  if String.eqb (LogPath g) "" then Command g else Command g +:+ "  # log=" +:+ LogPath g.

(** the counts of the loop *)
Record Tally := { failed : Z; nonFatal : Z; maxExit : Z; unrecorded : Z }.
Definition no_tally : Tally := {| failed := 0; nonFatal := 0; maxExit := 0; unrecorded := 0 |}.
Definition count_group (g : GroupOutcome) (ok : bool) (t : Tally) : Tally :=
  let bad := negb (ExitCode g =? 0)%Z in
  {| failed := if bad then failed t + 1 else failed t;
     nonFatal := if bad && GContinue g then nonFatal t + 1 else nonFatal t;
     maxExit := if bad && (maxExit t <? ExitCode g)%Z then ExitCode g else maxExit t;
     unrecorded := if ok then unrecorded t else unrecorded t + 1 |}%Z.

Fixpoint persist_groups (f : Faults) (wt : Z) (phase : string) (started finished : Z) (i : Z) (gs : list GroupOutcome) (t : Tally) (s : HookStore)
    : HookStore * list Z * Tally :=
  match gs with
  | [] => (s, [], t)
  | g :: gs =>
      let '(s, id, ok) := persistGroup f wt phase i (logged_command g) started finished g s in
      let '(s, ids, t) := persist_groups f wt phase started finished (i + 1) gs (count_group g ok t) s in
      (s, id :: ids, t)
  end.

(** the event [hooks:end]: its level, phase, duration and counts *)
Record PhaseEnd := { PLevel : string; PPhase : string; PDuration : Z; PGroups : Z; PTally : Tally; PContinuing : bool }.

Definition phase_level (t : Tally) : string :=
  let level := if (0 <? failed t)%Z then if (nonFatal t <? failed t)%Z then "error" else "warn" else "info" in
  if (0 <? unrecorded t)%Z && String.eqb level "info" then "warn" else level.

(** [None] for the ids when nothing is recorded *)
Definition PersistOutcome (f : Faults) (wt : Z) (phase : string) (started finished : Z) (out : RunOutcome) (s : HookStore)
    : HookStore * list Z * option PhaseEnd :=
  if (wt =? 0)%Z || match Groups out with [] => true | _ => false end then (s, [], None)
  else let '(s, ids, t) := persist_groups f wt phase started finished 0 (Groups out) no_tally s in
       (s, ids, Some {| PLevel := phase_level t; PPhase := phase;
                        PDuration := if (started <? finished)%Z then finished - started else 0;
                        PGroups := Z.of_nat (length (Groups out)); PTally := t;
                        PContinuing := (0 <? nonFatal t)%Z && (failed t =? nonFatal t)%Z |}).

(** ** A reader of shell text *)
(** the words and the operators [&&] and ["("] of the POSIX shell grammar; the
    characters that mean something else outside of quotes are refused *)
Inductive token := TWord (w : string) | TAnd | TOpen.

Definition special (c : ascii) : bool :=
  has_byte c "|&;<>()$`\*?[]#~=%!{}^" || Ascii.eqb c newline || Ascii.eqb c (ascii_of_nat 34) || Ascii.eqb c (ascii_of_nat 9).

Inductive reading := Between | InWord (w : string) | InQuotes (w : string) | Escaped (w : string) | HalfAnd.

Definition add (w : string) (c : ascii) : string := w +:+ String c "".

Fixpoint sh_tokens (st : reading) (s : string) : option (list token) :=
  match s with
  | "" => match st with Between => Some [] | InWord w => Some [TWord w] | _ => None end
  | String c s =>
      match st with
      | Between =>
          if Ascii.eqb c " " then sh_tokens Between s
          else if Ascii.eqb c "'" then sh_tokens (InQuotes "") s
          else if Ascii.eqb c "\" then sh_tokens (Escaped "") s
          else if Ascii.eqb c "&" then sh_tokens HalfAnd s
          else if Ascii.eqb c "(" then cons TOpen <$> sh_tokens Between s
          else if special c then None else sh_tokens (InWord (String c "")) s
      | HalfAnd => if Ascii.eqb c "&" then cons TAnd <$> sh_tokens Between s else None
      | InWord w =>
          if Ascii.eqb c " " then cons (TWord w) <$> sh_tokens Between s
          else if Ascii.eqb c "'" then sh_tokens (InQuotes w) s
          else if Ascii.eqb c "\" then sh_tokens (Escaped w) s
          else if special c then None else sh_tokens (InWord (add w c)) s
      | InQuotes w => if Ascii.eqb c "'" then sh_tokens (InWord w) s else sh_tokens (InQuotes (add w c)) s
      | Escaped w => if Ascii.eqb c newline then None else sh_tokens (InWord (add w c)) s
      end
  end.

(** ** Lemmas: quoting *)
Fixpoint valid_from (skip : nat) (s : string) : bool :=
  match s with
  | "" => true
  | String c s' => match skip with
                   | S k => valid_from k s'
                   | O => match decode_rune c s' with Some (k, _) => valid_from k s' | None => false end
                   end
  end.
(** [utf8.ValidString] *)
Definition valid_utf8 (s : string) : bool := valid_from 0 s.

Lemma byte_code c : byte (Z.of_N (code c)) = c.
Proof. unfold byte, code. rewrite N2Z.id. apply ascii_N_embedding. Qed.

Lemma byte_is z c : z = Z.of_N (code c) -> byte z = c.
Proof. intros ->. apply byte_code. Qed.

Lemma cont_spec lo hi c x : cont lo hi c = Some x -> (128 <= lo)%N -> (hi <= 191)%N ->
  (x = Z.of_N (code c) mod 64 /\ 128 <= Z.of_N (code c) <= 191 /\ Z.of_N lo <= Z.of_N (code c) <= Z.of_N hi)%Z.
Proof.
  unfold cont. destruct (N.leb_spec lo (code c)), (N.leb_spec (code c) hi); cbn [andb]; try done. intros [= <-] ??. lia.
Qed.

Ltac no_test :=
  match goal with |- context [if ?b then _ else _] => replace b with false by (symmetry; rewrite ?orb_false_iff, ?andb_false_iff, ?Z.leb_gt, ?Z.ltb_ge; lia) end.
Ltac yes_test :=
  match goal with |- context [if ?b then _ else _] => replace b with true by (symmetry; rewrite ?Z.ltb_lt; lia) end.
Ltac low x := let q := fresh "q" in set (q := (x / 64)%Z) in *.

Lemma write_2 b c : (194 <= b <= 223)%Z -> (128 <= c <= 191)%Z ->
  let r := (b mod 32 * 64 + c mod 64)%Z in write_rune r = String (byte b) (String (byte c) "") /\ (128 <= r)%Z.
Proof.
  intros Hb Hc. cbn zeta. replace (b mod 32)%Z with (b - 192)%Z by (apply (Z.mod_unique _ _ 6); lia).
  replace (c mod 64)%Z with (c - 128)%Z by (apply (Z.mod_unique _ _ 2); lia). set (r := ((b - 192) * 64 + (c - 128))%Z).
  split; [|lia]. unfold write_rune. no_test. yes_test.
  replace (r / 64)%Z with (b - 192)%Z by (apply (Z.div_unique _ _ _ (c - 128)); lia).
  replace (r mod 64)%Z with (c - 128)%Z by (apply (Z.mod_unique _ _ (b - 192)); lia).
  repeat f_equal; lia.
Qed.

Lemma write_3 b c d : (224 <= b <= 239)%Z -> (128 <= c <= 191)%Z -> (128 <= d <= 191)%Z -> (b = 224 -> 160 <= c)%Z -> (b = 237 -> c <= 159)%Z ->
  let r := ((b mod 16 * 64 + c mod 64) * 64 + d mod 64)%Z in
  write_rune r = String (byte b) (String (byte c) (String (byte d) "")) /\ (128 <= r)%Z.
Proof.
  intros Hb Hc Hd H1 H2. cbn zeta. replace (b mod 16)%Z with (b - 224)%Z by (apply (Z.mod_unique _ _ 14); lia).
  replace (c mod 64)%Z with (c - 128)%Z by (apply (Z.mod_unique _ _ 2); lia).
  replace (d mod 64)%Z with (d - 128)%Z by (apply (Z.mod_unique _ _ 2); lia). set (r := (((b - 224) * 64 + (c - 128)) * 64 + (d - 128))%Z).
  split; [|lia]. unfold write_rune. do 3 no_test. yes_test.
  replace (r / 4096)%Z with (b - 224)%Z by (apply (Z.div_unique _ _ _ ((c - 128) * 64 + (d - 128))); lia).
  replace (r / 64)%Z with ((b - 224) * 64 + (c - 128))%Z by (apply (Z.div_unique _ _ _ (d - 128)); lia).
  replace (r mod 64)%Z with (d - 128)%Z by (apply (Z.mod_unique _ _ ((b - 224) * 64 + (c - 128))); lia).
  replace (((b - 224) * 64 + (c - 128)) mod 64)%Z with (c - 128)%Z by (apply (Z.mod_unique _ _ (b - 224)); lia).
  repeat f_equal; lia.
Qed.

Lemma write_4 b c d e : (240 <= b <= 244)%Z -> (128 <= c <= 191)%Z -> (128 <= d <= 191)%Z -> (128 <= e <= 191)%Z ->
  (b = 240 -> 144 <= c)%Z -> (b = 244 -> c <= 143)%Z ->
  let r := (((b mod 8 * 64 + c mod 64) * 64 + d mod 64) * 64 + e mod 64)%Z in
  write_rune r = String (byte b) (String (byte c) (String (byte d) (String (byte e) ""))) /\ (128 <= r)%Z.
Proof.
  intros Hb Hc Hd He H1 H2. cbn zeta. replace (b mod 8)%Z with (b - 240)%Z by (apply (Z.mod_unique _ _ 30); lia).
  replace (c mod 64)%Z with (c - 128)%Z by (apply (Z.mod_unique _ _ 2); lia).
  replace (d mod 64)%Z with (d - 128)%Z by (apply (Z.mod_unique _ _ 2); lia).
  replace (e mod 64)%Z with (e - 128)%Z by (apply (Z.mod_unique _ _ 2); lia).
  set (r := ((((b - 240) * 64 + (c - 128)) * 64 + (d - 128)) * 64 + (e - 128))%Z).
  split; [|lia]. unfold write_rune. do 4 no_test.
  replace (r / 262144)%Z with (b - 240)%Z by (apply (Z.div_unique _ _ _ (((c - 128) * 64 + (d - 128)) * 64 + (e - 128))); lia).
  replace (r / 4096)%Z with ((b - 240) * 64 + (c - 128))%Z by (apply (Z.div_unique _ _ _ ((d - 128) * 64 + (e - 128))); lia).
  replace (r / 64)%Z with (((b - 240) * 64 + (c - 128)) * 64 + (d - 128))%Z by (apply (Z.div_unique _ _ _ (e - 128)); lia).
  replace (r mod 64)%Z with (e - 128)%Z by (apply (Z.mod_unique _ _ (((b - 240) * 64 + (c - 128)) * 64 + (d - 128))); lia).
  replace ((((b - 240) * 64 + (c - 128)) * 64 + (d - 128)) mod 64)%Z with (d - 128)%Z by (apply (Z.mod_unique _ _ ((b - 240) * 64 + (c - 128))); lia).
  replace (((b - 240) * 64 + (c - 128)) mod 64)%Z with (c - 128)%Z by (apply (Z.mod_unique _ _ (b - 240)); lia).
  repeat f_equal; lia.
Qed.

Definition high (c : ascii) : bool := (128 <=? Z.of_N (code c))%Z.

(** a rune that was decoded is written as it was read *)
Lemma decode_write c s k r :
  decode_rune c s = Some (k, r) ->
  (k <= String.length s)%nat /\
  (k = 0%nat /\ r = Z.of_N (code c) /\ write_rune r = String c "" \/
   (128 <= r)%Z /\ str_all high (String c (str_take k s)) = true /\ write_rune r = String c (str_take k s)).
Proof.
  unfold decode_rune. set (b := Z.of_N (code c)). pose proof (byte_code c) as Hc. fold b in Hc.
  destruct (Z.ltb_spec b 128).
  { intros [= <- <-]. split; [lia|]. left. split_and!; [done..|]. unfold write_rune. yes_test. by rewrite Hc. }
  destruct (Z.ltb_spec b 194); [done|]. destruct (Z.ltb_spec b 224); [|destruct (Z.ltb_spec b 240); [|destruct (Z.ltb_spec b 245); [|done]]].
  - destruct s as [|c2 s]; [done|]. intros (x & E2 & [= <- <-])%bind_Some. apply cont_spec in E2 as (-> & ? & _); [|lia..].
    destruct (write_2 b (Z.of_N (code c2))) as [Hw Hr]; [lia..|]. rewrite byte_code, Hc in Hw.
    split; [cbn; lia|]. right. split_and!; [done| |exact Hw]. cbn. unfold high. fold b. rewrite !andb_true_iff, !Z.leb_le. repeat split; lia.
  - destruct s as [|c2 [|c3 s]]; [done..|].
    intros (x & E2 & (y & E3 & [= <- <-])%bind_Some)%bind_Some.
    apply cont_spec in E2 as (-> & ? & Hl); [|repeat case_match; lia..]. apply cont_spec in E3 as (-> & ? & _); [|lia..].
    destruct (write_3 b (Z.of_N (code c2)) (Z.of_N (code c3))) as [Hw Hr]; [lia..| | |].
    + intros Hb. rewrite Hb in Hl. cbn in Hl. lia.
    + intros Hb. rewrite Hb in Hl. cbn in Hl. lia.
    + rewrite !byte_code, Hc in Hw. split; [cbn; lia|]. right. split_and!; [done| |exact Hw].
      cbn. unfold high. fold b. rewrite !andb_true_iff, !Z.leb_le. repeat split; lia.
  - destruct s as [|c2 [|c3 [|c4 s]]]; [done..|].
    intros (x & E2 & (y & E3 & (z & E4 & [= <- <-])%bind_Some)%bind_Some)%bind_Some.
    apply cont_spec in E2 as (-> & ? & Hl); [|repeat case_match; lia..]. apply cont_spec in E3 as (-> & ? & _); [|lia..].
    apply cont_spec in E4 as (-> & ? & _); [|lia..].
    destruct (write_4 b (Z.of_N (code c2)) (Z.of_N (code c3)) (Z.of_N (code c4))) as [Hw Hr]; [lia..| | |].
    + intros Hb. rewrite Hb in Hl. cbn in Hl. lia.
    + intros Hb. rewrite Hb in Hl. cbn in Hl. lia.
    + rewrite !byte_code, Hc in Hw. split; [cbn; lia|]. right. split_and!; [done| |exact Hw].
      cbn. unfold high. fold b. rewrite !andb_true_iff, !Z.leb_le. repeat split; lia.
Qed.

Fixpoint quote_bytes (s : string) : string :=
  match s with "" => "" | String c s => (if Ascii.eqb c "'" then "'\''" else String c "") +:+ quote_bytes s end.

Lemma quote_bytes_app a b : quote_bytes (a +:+ b) = quote_bytes a +:+ quote_bytes b.
Proof. induction a as [|c a IH]; [done|]. cbn [String.append quote_bytes]. by rewrite IH, str_app_assoc. Qed.

Lemma high_plain s : str_all high s = true -> quote_bytes s = s.
Proof.
  induction s as [|c s IH]; [done|]. cbn [str_all quote_bytes]. intros [Hc Hs]%andb_prop. rewrite IH by done.
  destruct (Ascii.eqb_spec c "'") as [->|]; [done|]. done.
Qed.

Lemma runes_from_skip k s : (k <= String.length s)%nat -> runes_from k s = runes_from 0 (str_drop k s).
Proof. revert s. induction k as [|k IH]; intros s Hk; [done|]. destruct s as [|c s]; [cbn in Hk; lia|]. cbn in *. apply IH. lia. Qed.
Lemma valid_from_skip k s : (k <= String.length s)%nat -> valid_from k s = valid_from 0 (str_drop k s).
Proof. revert s. induction k as [|k IH]; intros s Hk; [done|]. destruct s as [|c s]; [cbn in Hk; lia|]. cbn in *. apply IH. lia. Qed.

Lemma join_no_sep x l : join "" (x :: l) = x +:+ join "" l.
Proof. destruct l as [|y l]; [cbn; by rewrite str_app_nil_r|]. by rewrite join_cons. Qed.

(** what going over a text rune by rune makes of it: a byte that does not
    belong to a rune becomes the replacement character, U+FFFD *)
Definition as_utf8 (s : string) : string := join "" (map write_rune (runes s)).

Lemma as_utf8_valid s : valid_utf8 s = true -> as_utf8 s = s.
Proof.
  unfold valid_utf8, as_utf8, runes. induction s as [s IH] using str_len_ind. destruct s as [|c s]; [done|]. cbn [valid_from runes_from].
  destruct (decode_rune c s) as [[k r]|] eqn:E; [|done]. intros Hv. apply decode_write in E as [Hk Hr].
  rewrite valid_from_skip in Hv by done. rewrite runes_from_skip by done. cbn [map]. rewrite join_no_sep.
  rewrite IH; [|pose proof (str_length_drop k s); cbn; lia|done].
  assert (Hw : write_rune r = String c (str_take k s)) by (by destruct Hr as [(-> & _ & Hw)|(_ & _ & Hw)]; rewrite Hw).
  rewrite Hw. cbn [String.append]. by rewrite str_take_drop.
Qed.

Lemma quote_rune_bytes c s k r : decode_rune c s = Some (k, r) -> quote_rune r = quote_bytes (write_rune r).
Proof.
  intros E. apply decode_write in E as [_ [(-> & -> & Hw)|(Hr & Hh & Hw)]]; unfold quote_rune.
  - rewrite Hw. cbn [quote_bytes]. destruct (Z.eqb_spec (Z.of_N (code c)) 39) as [Hc|Hc].
    + by replace c with "'"%char by (rewrite <- (byte_code c), Hc; reflexivity).
    + destruct (Ascii.eqb_spec c "'") as [->|]; [by destruct Hc|]. by rewrite str_app_nil_r.
  - rewrite Hw, high_plain by done. destruct (Z.eqb_spec r 39); [lia|done].
Qed.

(** the quoting works byte by byte on what the runes spell *)
Lemma quoted_bytes s : join "" (map quote_rune (runes s)) = quote_bytes (as_utf8 s).
Proof.
  unfold as_utf8, runes. induction s as [s IH] using str_len_ind. destruct s as [|c s]; [done|]. cbn [runes_from].
  destruct (decode_rune c s) as [[k r]|] eqn:E; cbn [map]; rewrite !join_no_sep, quote_bytes_app.
  - apply decode_write in E as Hk. destruct Hk as [Hk _]. rewrite runes_from_skip by done.
    rewrite IH by (pose proof (str_length_drop k s); cbn; lia). by rewrite (quote_rune_bytes _ _ _ _ E).
  - rewrite IH by (cbn; lia). f_equal.
Qed.

Lemma shellSingleQuote_bytes s : shellSingleQuote s = "'" +:+ quote_bytes (as_utf8 s) +:+ "'".
Proof. unfold shellSingleQuote. by rewrite quoted_bytes. Qed.

(** ** Lemmas: the reader *)
Lemma read_quoted s w rest : sh_tokens (InQuotes w) (quote_bytes s +:+ String "'" rest) = sh_tokens (InWord (w +:+ s)) rest.
Proof.
  revert w. induction s as [|c s IH]; intros w; cbn [quote_bytes]; [by rewrite str_app_nil_r|].
  destruct (Ascii.eqb_spec c "'") as [->|Hc].
  - cbn. rewrite IH. unfold add. by rewrite str_app_assoc.
  - cbn [String.append sh_tokens]. destruct (Ascii.eqb_spec c "'"); [done|]. rewrite IH. unfold add. by rewrite str_app_assoc.
Qed.

Lemma read_word s rest : sh_tokens Between (shellSingleQuote s +:+ rest) = sh_tokens (InWord (as_utf8 s)) rest.
Proof. rewrite shellSingleQuote_bytes, !str_app_assoc. cbn. by rewrite read_quoted. Qed.

Lemma read_space w s : sh_tokens (InWord w) (" " +:+ s) = cons (TWord w) <$> sh_tokens Between s.
Proof. done. Qed.

Definition word (s : string) : token := TWord (as_utf8 s).

Lemma read_words argv rest st :
  argv <> [] -> st = Between ->
  (forall w, sh_tokens (InWord w) rest = cons (TWord w) <$> sh_tokens Between rest) ->
  sh_tokens st (shellJoin argv +:+ rest) = app (map word argv) <$> sh_tokens Between rest.
Proof.
  intros Hne -> Hr. unfold shellJoin. induction argv as [|a argv IH]; [done|]. clear Hne. destruct argv as [|b argv].
  - change (join " " (map shellSingleQuote [a])) with (shellSingleQuote a). by rewrite read_word, Hr.
  - cbn [map] in *. rewrite join_cons, !str_app_assoc, read_word, read_space.
    cbn [map] in IH. rewrite IH by done. by destruct (sh_tokens Between rest).
Qed.

(** the ends of words that the rendered text has *)
Lemma ends_word_nil w : sh_tokens (InWord w) "" = cons (TWord w) <$> sh_tokens Between "".
Proof. done. Qed.
Lemma ends_word_space w s : sh_tokens (InWord w) (" " +:+ s) = cons (TWord w) <$> sh_tokens Between (" " +:+ s).
Proof. done. Qed.

(** commands joined by [&&] *)
Fixpoint and_list (l : list (list token)) : list token :=
  match l with [] => [] | [x] => x | x :: l => x ++ TAnd :: and_list l end.

Lemma read_commands argvs :
  Forall (fun argv => argv <> []) argvs ->
  sh_tokens Between (join " && " (map shellJoin argvs)) = Some (and_list (map (map word) argvs)).
Proof.
  induction 1 as [|argv argvs Hne Hall IH]; [done|]. destruct argvs as [|b argvs].
  - change (join " && " (map shellJoin [argv])) with (shellJoin argv). rewrite <- (str_app_nil_r (shellJoin argv)).
    rewrite (read_words argv "" Between Hne eq_refl ends_word_nil). cbn. by rewrite app_nil_r.
  - cbn [map] in *. rewrite join_cons. change (" && " +:+ ?x) with (" " +:+ ("&& " +:+ x)).
    rewrite (read_words argv _ Between Hne eq_refl (fun w => ends_word_space w _)).
    change (sh_tokens Between (" " +:+ ("&& " +:+ ?x))) with (cons TAnd <$> sh_tokens Between x). rewrite IH. done.
Qed.

(** C27: C0_rendered_action_reads_back: what is rendered for a container is read by
    the shell as one command per step, joined by [&&], whose arguments are the
    engine, the container, the working directory and the step, whatever quotes,
    blanks or operators are in them; on the host each step has a subshell of its
    own, behind a [cd] to the directory.  Each such word is read back as it is
    when it is valid UTF-8; a byte of it that is not reaches the shell as
    U+FFFD.  The text of a step on the host is not quoted: it is the shell's to
    read.  Without steps there is no text. *)
Theorem rendered_action_reads_back container_id a dflt s :
  renderAction container_id a dflt = Ok s ->
  (forall w, valid_utf8 w = true -> word w = TWord w) /\
  if bool_decide (RunSteps a = []) then s = ""
  else if String.eqb (Container a) "" && String.eqb (ComposeService a) ""
  then let cwd := if String.eqb (Cwd a) "" then dflt else Cwd a in
       s = join " && " (map (host_step cwd) (RunSteps a)) /\
       forall step, exists before, host_step cwd step = before +:+ step +:+ " )" /\
         sh_tokens Between before = Some [TOpen; TWord "cd"; word cwd; TAnd]
  else exists engine id, engine = (if String.eqb (EngineName a) "" then "docker" else EngineName a) /\
       container_id (Container a) (ComposeService a) (ComposeProject a) engine = Some id /\
       sh_tokens Between s = Some (and_list (map (fun step => map word (exec_argv engine id (Cwd a) step)) (RunSteps a))).
Proof.
  intros Hs. split; [intros w Hw; unfold word; by rewrite as_utf8_valid|].
  unfold renderAction in Hs. destruct (RunSteps a) as [|s0 steps] eqn:Er; [by injection Hs as <-|].
  rewrite bool_decide_eq_false_2 by done. rewrite <- Er in *. clear Er.
  destruct (String.eqb (Container a) "" && String.eqb (ComposeService a) "").
  - injection Hs as Hs. split; [done|]. intros step. set (cwd := if String.eqb (Cwd a) "" then dflt else Cwd a).
    exists ("( cd " +:+ shellSingleQuote cwd +:+ " && "). split; [unfold host_step; by rewrite !str_app_assoc|].
    change (sh_tokens Between ("( cd " +:+ ?x)) with (cons TOpen <$> (cons (TWord "cd") <$> sh_tokens Between x)).
    by rewrite read_word.
  - set (engine := if String.eqb (EngineName a) "" then "docker" else EngineName a) in *.
    destruct (container_id _ _ _ engine) as [id|] eqn:Ec; [|done]. injection Hs as Hs. exists engine, id. split_and!; [done..|]. rewrite <- Hs.
    rewrite <- (map_map (exec_argv engine id (Cwd a)) shellJoin), read_commands, map_map; [done|].
    apply Forall_map, Forall_forall. done.
Qed.

Lemma rendered_action_reads_back_witness :
  let a := {| RunSteps := ["echo 'it works' > /tmp/x"; "exit 1"]; Cwd := "/srv/it's"; Container := "web"; ComposeService := ""; ComposeProject := "";
              EngineName := ""; ContinueOnError := false |} in
  renderAction (fun _ _ _ _ => Some "c0ffee") a "/wt" =
    Ok "'docker' 'exec' '-w' '/srv/it'\''s' 'c0ffee' 'sh' '-c' 'echo '\''it works'\'' > /tmp/x' && 'docker' 'exec' '-w' '/srv/it'\''s' 'c0ffee' 'sh' '-c' 'exit 1'" /\
  exists engine id, engine = "docker" /\ Some "c0ffee" = Some id /\
    sh_tokens Between "'docker' 'exec' '-w' '/srv/it'\''s' 'c0ffee' 'sh' '-c' 'echo '\''it works'\'' > /tmp/x' && 'docker' 'exec' '-w' '/srv/it'\''s' 'c0ffee' 'sh' '-c' 'exit 1'"
    = Some (and_list (map (fun step => map word (exec_argv engine id "/srv/it's" step)) ["echo 'it works' > /tmp/x"; "exit 1"])).
Proof.
  cbn zeta. split; [vm_compute; reflexivity|].
  refine (proj2 (rendered_action_reads_back (fun _ _ _ _ => Some "c0ffee")
    {| RunSteps := ["echo 'it works' > /tmp/x"; "exit 1"]; Cwd := "/srv/it's"; Container := "web"; ComposeService := ""; ComposeProject := "";
       EngineName := ""; ContinueOnError := false |} "/wt" _ _)).
  vm_compute. reflexivity.
Defined.

(** a directory whose name is not valid UTF-8 is not the one that is entered *)
Example other_bytes_are_replaced : shellSingleQuote (String "255" "") = "'�'".
Proof. vm_compute. reflexivity. Qed.

(** a step that ends in a comment takes the closing parenthesis with it *)
Example comment_unclosed : host_step "/wt" "make # all" = "( cd '/wt' && make # all )".
Proof. vm_compute. reflexivity. Qed.

(** ** Lemmas: the groups of a phase *)
(** the entries that have steps, with their places in the list *)
Fixpoint wanted (i : nat) (entries : list Action) : list (nat * Action) :=
  match entries with
  | [] => []
  | e :: entries => match RunSteps e with [] => wanted (S i) entries | _ => (i, e) :: wanted (S i) entries end
  end.

Section Groups.
Context (m : Machine) (phase logDir cwd : string).

(** the group that was started for an entry *)
Definition started (ie : nat * Action) (g : GroupOutcome) : Prop :=
  renderAction (container m) ie.2 cwd = Ok (Command g) /\ LogPath g = path_join logDir (log_name phase ie.1) /\ opens m (LogPath g) = true /\
  spawn m (Command g) = Some (PID g) /\ GContinue g = ContinueOnError ie.2 /\ ExitCode g = 0%Z /\
  StdoutTail g = "" /\ StderrTail g = "" /\ LogBody g = "".

(** an entry whose group could not be started *)
Definition unstartable (ie : nat * Action) (e : hook_error) : Prop :=
  (let? cmd := renderAction (container m) ie.2 cwd in spawnDetached m cmd (path_join logDir (log_name phase ie.1))) = Err e.

Lemma start_groups_spec entries i :
  let '(gs, err) := start_groups m phase logDir cwd i entries in
  exists before after, wanted i entries = (before ++ after)%list /\ Forall2 started before gs /\
    match err with None => after = [] | Some e => exists ie rest, after = ie :: rest /\ unstartable ie e end.
Proof.
  revert i. induction entries as [|e entries IH]; intros i; cbn [start_groups wanted]; [by exists [], []|].
  destruct (RunSteps e) as [|s0 steps] eqn:Er; [apply IH|].
  set (logPath := path_join logDir (log_name phase i)).
  destruct (let? cmd := renderAction (container m) e cwd in let? pid := spawnDetached m cmd logPath in Ok (cmd, pid)) as [[cmd pid]|err] eqn:E.
  - apply res_bind_ok in E as (c & Hc & E). apply res_bind_ok in E as (p & Hp & [= -> ->]).
    specialize (IH (S i)). destruct (start_groups m phase logDir cwd (S i) entries) as [gs err]. destruct IH as (before & after & Hw & Hf & He).
    exists ((i, e) :: before), after. split_and!; [by rewrite Hw| |done]. constructor; [|done].
    unfold spawnDetached in Hp. destruct (opens m logPath) eqn:Ho; [|done]. cbn [negb] in Hp. destruct (spawn m cmd) as [q|] eqn:Es; [|done].
    injection Hp as ->. by split_and!.
  - exists [], ((i, e) :: wanted (S i) entries). split_and!; [done|constructor|]. exists (i, e), (wanted (S i) entries). split; [done|].
    unfold unstartable. cbn [fst snd]. fold logPath. destruct (renderAction (container m) e cwd) as [c|e']; cbn [res_bind] in *; [|by injection E as ->].
    destruct (spawnDetached m c logPath); cbn [res_bind] in *; [done|]. by injection E as ->.
Qed.
End Groups.

Lemma wanted_index i entries ie : ie ∈ wanted i entries -> (i <= ie.1)%nat /\ entries !! (ie.1 - i)%nat = Some ie.2 /\ RunSteps ie.2 <> [].
Proof.
  revert i. induction entries as [|e entries IH]; intros i; cbn [wanted]; [by intros ?%not_elem_of_nil|].
  assert (Hrec : ie ∈ wanted (S i) entries -> (i <= ie.1)%nat /\ (e :: entries) !! (ie.1 - i)%nat = Some ie.2 /\ RunSteps ie.2 <> []).
  { intros (Hi & Hl & Hr)%IH. split_and!; [lia| |done]. replace (ie.1 - i)%nat with (S (ie.1 - S i)) by lia. done. }
  destruct (RunSteps e) eqn:Er; [done|]. intros [->|?]%elem_of_cons; [|by apply Hrec]. cbn [fst snd]. rewrite Nat.sub_diag. split_and!; [lia|done|congruence].
Qed.

Lemma wanted_NoDup i entries : NoDup (map fst (wanted i entries)).
Proof.
  revert i. induction entries as [|e entries IH]; intros i; cbn [wanted]; [constructor|]. destruct (RunSteps e); [apply IH|].
  cbn [map fst]. constructor; [|apply IH]. intros (ie & He & Hin)%list_elem_of_fmap. apply wanted_index in Hin as [Hle _]. lia.
Qed.

(** C0_phase_started_exact: a phase starts one group for each action that has
    steps, in their order, each with its own log and the command rendered from
    its action; a phase that is awaited has the code each child ended with.
    When one cannot be started, the ones before it stay started and are neither
    awaited nor stopped, and no later one is started. *)
Theorem phase_started_exact m phase entries wt :
  entries <> [] -> mkdir m (path_join wt ".treeman-hooks") = true -> env_loaded m = true ->
  let dir := path_join wt ".treeman-hooks" in
  let '(out, err) := RunHooks m phase entries wt true in
  match err with
  | None => Forall2 (fun ie g => exists g0, started m phase dir wt ie g0 /\ g = await_group m true g0) (wanted 0 entries) (Groups out)
  | Some e => exists before ie after, wanted 0 entries = (before ++ ie :: after)%list /\
                Forall2 (started m phase dir wt) before (Groups out) /\ unstartable m phase dir wt ie e
  end /\
  NoDup (map fst (wanted 0 entries)) /\ (forall i e, (i, e) ∈ wanted 0 entries <-> entries !! i = Some e /\ RunSteps e <> []).
Proof.
  intros Hne Hd He. cbn zeta. destruct (RunHooks m phase entries wt true) as [out err] eqn:E. split; [|split; [apply wanted_NoDup|]].
  - unfold RunHooks in E. destruct entries as [|e0 entries]; [done|]. unfold run_groups in E. rewrite Hd, He in E. cbn [negb] in E.
    pose proof (start_groups_spec m phase (path_join wt ".treeman-hooks") wt (e0 :: entries) 0) as Hs.
    destruct (start_groups m phase (path_join wt ".treeman-hooks") wt 0 (e0 :: entries)) as [gs err'].
    destruct Hs as (before & after & Hw & Hf & Ha). destruct err' as [e'|]; injection E as <- <-.
    + destruct Ha as (ie & rest & -> & Hu). by exists before, ie, rest.
    + rewrite Ha, app_nil_r in Hw. rewrite Hw. cbn [Groups]. apply Forall2_fmap_r. eapply Forall2_impl; [exact Hf|]. intros ie g Hg. by exists g.
  - intros i e. split.
    + intros (_ & Hl & Hr)%wanted_index. cbn [fst snd] in *. by rewrite Nat.sub_0_r in Hl.
    + clear. intros [Hl Hr]. assert (H : forall k, (k + i, e)%nat ∈ wanted k entries); [|by apply (H 0%nat)].
      revert i Hl. induction entries as [|e0 entries IH]; intros i Hl k; [done|]. cbn [wanted]. destruct i as [|i].
      * injection Hl as ->. destruct (RunSteps e); [done|]. rewrite Nat.add_0_r. by left.
      * replace (k + S i)%nat with (S k + i)%nat by lia. cbn in Hl. destruct (RunSteps e0); [|right]; by apply IH.
Qed.

(** ** Lemmas: the rows of a phase *)
(** ids are positive and used once, and a chunk belongs to a row *)
Record hook_ok (s : HookStore) : Prop := {
  ids_pos : Forall (fun r => 0 < HID r)%Z (hook_runs s);
  ids_once : NoDup (map HID (hook_runs s));
  chunks_owned : Forall (fun c => ChunkRun c ∈ map HID (hook_runs s)) (hook_log_chunks s)
}.

Definition run_row (wt : Z) (phase : string) (i started finished : Z) (g : GroupOutcome) (id : Z) : HookRun :=
  {| HID := id; HWorktree := wt; HPhase := phase; HGroupIdx := i; HCommand := logged_command g; HStarted := started;
     HFinished := Some finished; HExitCode := Some (ExitCode g); HStdout := StdoutTail g; HStderr := StderrTail g |}.
Definition log_of (id : Z) (s : HookStore) : list string := map ChunkBody (QueryHookLog id s).

(** what became of one group *)
Definition recorded (f : Faults) (wt : Z) (phase : string) (i started finished : Z) (g : GroupOutcome) (id : Z) (s : HookStore) : Prop :=
  if run_fails f i then id = 0%Z
  else (0 < id)%Z /\ run_row wt phase i started finished g id ∈ hook_runs s /\
       log_of id s = if String.eqb (LogBody g) "" || chunk_fails f i then [] else [LogBody g].

(** the store only grows, and the logs of its rows stay as they are *)
Definition extends (s s' : HookStore) : Prop :=
  (forall r, r ∈ hook_runs s -> r ∈ hook_runs s') /\ (forall id, id ∈ map HID (hook_runs s) -> log_of id s' = log_of id s).

Lemma extends_trans s1 s2 s3 : extends s1 s2 -> extends s2 s3 -> extends s1 s3.
Proof.
  intros [Hr Hl] [Hr' Hl']. split; [auto|]. intros id Hid. rewrite Hl', Hl; [done..|].
  apply list_elem_of_fmap in Hid as (r & -> & Hin). apply list_elem_of_fmap. eauto.
Qed.

Lemma recorded_extends f wt phase i st fin g id s s' : extends s s' -> recorded f wt phase i st fin g id s -> recorded f wt phase i st fin g id s'.
Proof.
  intros [Hr Hl]. unfold recorded. destruct (run_fails f i); [done|]. intros (Hp & Hin & Hlog). split_and!; [done|auto|].
  rewrite Hl; [done|]. apply list_elem_of_fmap. by exists (run_row wt phase i st fin g id).
Qed.

Lemma log_of_fresh id s : hook_ok s -> id ∉ map HID (hook_runs s) -> log_of id s = [].
Proof.
  intros Hok Hid. unfold log_of, QueryHookLog. rewrite filter_all_false; [done|]. intros c Hc.
  pose proof (chunks_owned s Hok) as Ho. rewrite Forall_forall in Ho. apply Ho in Hc. apply Z.eqb_neq. congruence.
Qed.

Lemma log_of_snoc id runs chunks c : log_of id {| hook_runs := runs; hook_log_chunks := chunks ++ [c] |} =
  (log_of id {| hook_runs := runs; hook_log_chunks := chunks |} ++ if (ChunkRun c =? id)%Z then [ChunkBody c] else [])%list.
Proof.
  unfold log_of, QueryHookLog. cbn [hook_log_chunks]. rewrite List.filter_app, map_app. cbn [List.filter]. by destruct (ChunkRun c =? id)%Z.
Qed.

Lemma persistGroup_spec f wt phase i st fin g s :
  hook_ok s -> (0 < wt)%Z -> (0 < fin)%Z ->
  let '(s', id, ok) := persistGroup f wt phase i (logged_command g) st fin g s in
  hook_ok s' /\ extends s s' /\ recorded f wt phase i st fin g id s' /\
  ok = negb (run_fails f i || (negb (String.eqb (LogBody g) "") && chunk_fails f i)).
Proof.
  intros Hok Hwt Hfin. unfold persistGroup, WriteHookRun. destruct (Z.leb_spec wt 0); [lia|].
  destruct (Z.ltb_spec 0 fin); [|lia]. unfold recorded. destruct (run_fails f i) eqn:Ef; [by repeat split; try apply Hok|].
  set (id := next_id (map HID (hook_runs s))).
  assert (Hnew : id ∉ map HID (hook_runs s)) by (intros Hin; apply Registry.next_id_above in Hin; unfold id in Hin; lia).
  assert (Hpos : (0 < id)%Z).
  { apply Registry.next_id_pos. intros x (r & -> & Hr)%list_elem_of_fmap. pose proof (ids_pos s Hok) as Hp. rewrite Forall_forall in Hp. auto. }
  set (row := {| HID := id |}). set (s1 := {| hook_runs := hook_runs s ++ [row]; hook_log_chunks := hook_log_chunks s |}).
  assert (Hok1 : hook_ok s1).
  { constructor; cbn [s1 hook_runs hook_log_chunks].
    - apply Forall_app. split; [apply Hok|]. by constructor.
    - rewrite map_app. apply NoDup_app. split_and!; [apply Hok| |by apply NoDup_singleton]. intros x Hx ->%list_elem_of_singleton. done.
    - eapply Forall_impl; [apply Hok|]. intros c Hc. rewrite map_app. apply elem_of_app. by left. }
  assert (Hext1 : extends s s1).
  { split; [|done]. intros r Hr. cbn. apply elem_of_app. by left. }
  assert (Hrow : row ∈ hook_runs s1) by (cbn; apply elem_of_app; right; by left).
  assert (Hlog1 : log_of id s1 = []) by exact (log_of_fresh id s Hok Hnew).
  destruct (String.eqb (LogBody g) "") eqn:Eb; cbn [negb orb andb].
  { by split_and!. }
  unfold AppendHookLogChunk. destruct (Z.leb_spec id 0); [lia|]. rewrite Eb. cbn [orb].
  destruct (chunk_fails f i) eqn:Ec; cbn [negb orb]; [by split_and!|].
  set (chunk := {| ChunkID := _ |}). split_and!; [| |done|exact Hrow| |done].
  - constructor; cbn [hook_runs hook_log_chunks]; [apply Hok1|apply Hok1|]. apply Forall_app. split; [apply Hok1|]. constructor; [|done].
    cbn [chunk ChunkRun]. apply list_elem_of_fmap. by exists row.
  - split; [apply Hext1|]. intros id' Hid'. rewrite log_of_snoc. cbn [chunk ChunkRun].
    destruct (Z.eqb_spec id id') as [<-|]; [done|]. rewrite app_nil_r. by apply Hext1.
  - rewrite log_of_snoc. cbn [chunk ChunkRun ChunkBody]. rewrite Z.eqb_refl.
    change (log_of id {| hook_runs := hook_runs s1; hook_log_chunks := hook_log_chunks s1 |}) with (log_of id s1). by rewrite Hlog1.
Qed.

Lemma persist_groups_spec f wt phase st fin gs i t s :
  hook_ok s -> (0 < wt)%Z -> (0 < fin)%Z ->
  let '(s', ids, t') := persist_groups f wt phase st fin i gs t s in
  hook_ok s' /\ extends s s' /\ length ids = length gs /\
  (forall j g id, gs !! j = Some g -> ids !! j = Some id -> recorded f wt phase (i + Z.of_nat j) st fin g id s').
Proof.
  intros Hok Hwt Hfin. revert i t s Hok. induction gs as [|g gs IH]; intros i t s Hok; cbn [persist_groups]; [done|].
  pose proof (persistGroup_spec f wt phase i st fin g s Hok Hwt Hfin) as Hg.
  destruct (persistGroup f wt phase i (logged_command g) st fin g s) as [[s1 id] ok]. destruct Hg as (Hok1 & Hext & Hrec & _).
  specialize (IH (i + 1)%Z (count_group g ok t) s1 Hok1). destruct (persist_groups f wt phase st fin (i + 1) gs (count_group g ok t) s1) as [[s' ids] t'].
  destruct IH as (Hok' & Hext' & Hlen & Hall). split_and!; [done|by eapply extends_trans|cbn; by rewrite Hlen|].
  intros [|j] g' id' Hg' Hid'; cbn in Hg', Hid'.
  - injection Hg' as <-. injection Hid' as <-. rewrite Z.add_0_r. by eapply recorded_extends.
  - replace (i + Z.of_nat (S j))%Z with (i + 1 + Z.of_nat j)%Z by lia. by apply Hall.
Qed.

(** the counts of a phase *)
Definition bad (g : GroupOutcome) : bool := negb (ExitCode g =? 0)%Z.
Lemma persist_groups_counts f wt phase st fin gs i t s :
  let t' := (persist_groups f wt phase st fin i gs t s).2 in
  (failed t' - nonFatal t' = failed t - nonFatal t + Z.of_nat (length (List.filter (fun g => negb (quiet_group g)) gs)))%Z /\
  (failed t' = failed t + Z.of_nat (length (List.filter bad gs)))%Z.
Proof.
  revert i t s. induction gs as [|g gs IH]; intros i t s; cbn [persist_groups List.filter]; [cbn; lia|].
  destruct (persistGroup f wt phase i (logged_command g) st fin g s) as [[s1 id] ok].
  specialize (IH (i + 1)%Z (count_group g ok t) s1). destruct (persist_groups f wt phase st fin (i + 1) gs (count_group g ok t) s1) as [[s' ids] t'].
  cbn [snd] in *. unfold count_group, quiet_group, bad in *. cbn [failed nonFatal] in IH.
  destruct (ExitCode g =? 0)%Z, (GContinue g); cbn [negb orb andb] in *; cbn [length]; lia.
Qed.

Lemma filter_none {A} (p : A -> bool) l : length (List.filter p l) = 0%nat <-> Forall (fun x => p x = false) l.
Proof.
  induction l as [|x l IH]; [split; [constructor|done]|]. cbn [List.filter]. destruct (p x) eqn:E; split.
  - done.
  - intros H. apply Forall_cons in H as [H _]. congruence.
  - intros H. constructor; [done|]. by apply IH.
  - intros H. apply Forall_cons in H as [_ H]. by apply IH.
Qed.

Lemma first_failure_spec trigger gs i ids :
  match first_failure trigger i gs ids with
  | None => Forall (fun g => quiet_group g = true) gs
  | Some msg => exists j g, gs !! j = Some g /\ quiet_group g = false /\ Forall (fun g => quiet_group g = true) (take j gs) /\
                  msg = failure_text trigger g (ids !! (i + j)%nat)
  end.
Proof.
  revert i. induction gs as [|g gs IH]; intros i; cbn [first_failure]; [constructor|]. destruct (quiet_group g) eqn:E.
  - specialize (IH (S i)). destruct (first_failure trigger (S i) gs ids) as [msg|]; [|by constructor].
    destruct IH as (j & g' & Hj & Hq & Ht & ->). exists (S j), g'. split_and!; [done..|by constructor|]. by replace (i + S j)%nat with (S i + j)%nat by lia.
  - exists 0%nat, g. rewrite Nat.add_0_r. by split_and!.
Qed.

(** C25: C0_failure_points_at_its_row: after a phase was recorded, the error that is
    reported is that of the first group that failed and may not; the id it
    names is that of the row of this group, whose log is what the group wrote;
    every group has a row of its own unless its statement failed; and the event
    of the phase is an error exactly when an error is reported. *)
Theorem failure_points_at_its_row f wt phase trigger st fin out s :
  hook_ok s -> (0 < wt)%Z -> (0 < fin)%Z -> Groups out <> [] ->
  let '(s', ids, ev) := PersistOutcome f wt phase st fin out s in
  let msg := FirstFailureError trigger out ids in
  hook_ok s' /\ length ids = length (Groups out) /\
  (forall j g id, Groups out !! j = Some g -> ids !! j = Some id -> recorded f wt phase (Z.of_nat j) st fin g id s') /\
  match msg with
  | None => Forall (fun g => quiet_group g = true) (Groups out)
  | Some text => exists j g, Groups out !! j = Some g /\ quiet_group g = false /\
                   Forall (fun g => quiet_group g = true) (take j (Groups out)) /\ text = failure_text trigger g (ids !! j)
  end /\
  (PLevel <$> ev = Some "error" <-> msg <> None) /\
  (PLevel <$> ev = Some "info" -> Forall (fun g => ExitCode g = 0%Z) (Groups out)).
Proof.
  intros Hok Hwt Hfin Hne. unfold PersistOutcome, FirstFailureError. replace (wt =? 0)%Z with false by (symmetry; apply Z.eqb_neq; lia).
  destruct (Groups out) as [|g0 gs0] eqn:Eg; [done|]. cbn [orb]. rewrite <- Eg. clear Hne Eg.
  pose proof (persist_groups_spec f wt phase st fin (Groups out) 0 no_tally s Hok Hwt Hfin) as Hp.
  pose proof (persist_groups_counts f wt phase st fin (Groups out) 0 no_tally s) as [Hc Hb].
  destruct (persist_groups f wt phase st fin 0 (Groups out) no_tally s) as [[s' ids] t]. destruct Hp as (Hok' & _ & Hlen & Hall).
  cbn [snd failed nonFatal no_tally] in Hc, Hb. pose proof (first_failure_spec trigger (Groups out) 0 ids) as Hf.
  split; [done|]. split; [done|]. split; [exact Hall|]. split; [exact Hf|]. cbn [fmap option_fmap option_map PLevel]. unfold phase_level.
  set (n := length (List.filter (fun g => negb (quiet_group g)) (Groups out))) in *.
  assert (Hn : first_failure trigger 0 (Groups out) ids <> None <-> (0 < n)%nat).
  { destruct (first_failure trigger 0 (Groups out) ids) as [text|]; split; try done.
    - intros _. destruct Hf as (j & g & Hj & Hq & _). destruct (decide (n = 0%nat)) as [Hz|]; [|lia]. exfalso.
      apply filter_none in Hz. rewrite Forall_lookup in Hz. specialize (Hz _ _ Hj). cbn in Hz. rewrite Hq in Hz. done.
    - intros H. assert (Hz : n = 0%nat); [|lia]. apply filter_none. eapply Forall_impl; [exact Hf|]. intros g Hg. cbn. by rewrite Hg. }
  split.
  - rewrite Hn. assert (Hle : (length (List.filter (fun g => negb (quiet_group g)) (Groups out)) <= length (List.filter bad (Groups out)))%nat).
    { clear. induction (Groups out) as [|g gs IH]; [done|]. cbn [List.filter]. unfold quiet_group, bad in *.
      destruct (ExitCode g =? 0)%Z; cbn [negb orb]; [done|]. destruct (GContinue g); cbn [negb length]; lia. }
    fold n in Hle. destruct (Z.ltb_spec 0 (failed t)), (Z.ltb_spec (nonFatal t) (failed t)), (0 <? unrecorded t)%Z; cbn; split; intros; try done; lia.
  - intros H. assert (Hz : length (List.filter bad (Groups out)) = 0%nat).
    { destruct (Z.ltb_spec 0 (failed t)), (Z.ltb_spec (nonFatal t) (failed t)), (0 <? unrecorded t)%Z; cbn in H; try done; lia. }
    apply filter_none in Hz. eapply Forall_impl; [exact Hz|]. intros g Hg. unfold bad in Hg. apply negb_false_iff in Hg. by apply Z.eqb_eq.
Qed.

(** ** Examples *)
Definition demo_step (run : string) (optional : bool) : Action :=
  {| RunSteps := [run]; Cwd := ""; Container := ""; ComposeService := ""; ComposeProject := ""; EngineName := ""; ContinueOnError := optional |}.
Definition demo_entries : list Action :=
  [demo_step "composer install" false;
   {| RunSteps := []; Cwd := ""; Container := ""; ComposeService := ""; ComposeProject := ""; EngineName := ""; ContinueOnError := false |};
   demo_step "npm ci" true].
Definition first_cmd : string := "( cd '/wt' && composer install )".
Definition demo_machine : Machine :=
  {| mkdir := fun _ => true; env_loaded := true; container := fun _ _ _ _ => None; opens := fun _ => true;
     spawn := fun cmd => Some (if String.eqb cmd first_cmd then 7%Z else 8%Z);
     ends := fun pid => if (pid =? 7)%Z then Exited 0 else Exited 3; read_log := fun _ => "log" |}.
Definition no_faults : Faults := {| run_fails := fun _ => false; chunk_fails := fun _ => false |}.
Definition empty_store : HookStore := {| hook_runs := []; hook_log_chunks := [] |}.
Lemma empty_ok : hook_ok empty_store.
Proof. repeat constructor. Qed.

Lemma phase_started_exact_witness :
  map LogPath (Groups (RunHooks demo_machine "setup" demo_entries "/wt" true).1) = ["/wt/.treeman-hooks/setup-0.log"; "/wt/.treeman-hooks/setup-2.log"] /\
  (let dir := path_join "/wt" ".treeman-hooks" in
   let '(out, err) := RunHooks demo_machine "setup" demo_entries "/wt" true in
   match err with
   | None => Forall2 (fun ie g => exists g0, started demo_machine "setup" dir "/wt" ie g0 /\ g = await_group demo_machine true g0)
               (wanted 0 demo_entries) (Groups out)
   | Some e => exists before ie after, wanted 0 demo_entries = (before ++ ie :: after)%list /\
                 Forall2 (started demo_machine "setup" dir "/wt") before (Groups out) /\ unstartable demo_machine "setup" dir "/wt" ie e
   end /\
   NoDup (map fst (wanted 0 demo_entries)) /\ (forall i e, (i, e) ∈ wanted 0 demo_entries <-> demo_entries !! i = Some e /\ RunSteps e <> [])).
Proof.
  split; [vm_compute; reflexivity|].
  refine (phase_started_exact demo_machine "setup" demo_entries "/wt" _ _ _); [discriminate|reflexivity..].
Defined.

Definition demo_outcome : RunOutcome := (RunHooks demo_machine "setup" [demo_step "npm ci" true; demo_step "make" false] "/wt" true).1.

Lemma failure_points_at_its_row_witness :
  FirstFailureError "setup" demo_outcome [1; 2]%Z =
    Some ("setup: hook exited 3: ( cd '/wt' && make )" +:+ nl +:+ "log" +:+ nl +:+ "full output: `treeman logs hooks --all --show 2`") /\
  (let '(s', ids, ev) := PersistOutcome no_faults 4 "setup" 10 20 demo_outcome empty_store in
   let msg := FirstFailureError "setup" demo_outcome ids in
   hook_ok s' /\ length ids = length (Groups demo_outcome) /\
   (forall j g id, Groups demo_outcome !! j = Some g -> ids !! j = Some id -> recorded no_faults 4 "setup" (Z.of_nat j) 10 20 g id s') /\
   match msg with
   | None => Forall (fun g => quiet_group g = true) (Groups demo_outcome)
   | Some text => exists j g, Groups demo_outcome !! j = Some g /\ quiet_group g = false /\
                    Forall (fun g => quiet_group g = true) (take j (Groups demo_outcome)) /\ text = failure_text "setup" g (ids !! j)
   end /\
   (PLevel <$> ev = Some "error" <-> msg <> None) /\
   (PLevel <$> ev = Some "info" -> Forall (fun g => ExitCode g = 0%Z) (Groups demo_outcome))).
Proof.
  split; [vm_compute; reflexivity|].
  refine (failure_points_at_its_row no_faults 4 "setup" "setup" 10 20 demo_outcome empty_store empty_ok _ _ _); [reflexivity..|discriminate].
Defined.

(** when the second group cannot be started, the first one is still running and
    its row says that it ended with code 0 *)
Definition second_fails : Machine :=
  {| mkdir := fun _ => true; env_loaded := true; container := fun _ _ _ _ => None; opens := fun _ => true;
     spawn := fun cmd => if String.eqb cmd first_cmd then Some 7%Z else None;
     ends := fun _ => Exited 1; read_log := fun _ => "" |}.
Example unfinished_group_recorded_as_done :
  let '(out, err) := RunHooks second_fails "setup" demo_entries "/wt" true in
  let '(s', ids, ev) := PersistOutcome no_faults 4 "setup" 10 20 out empty_store in
  err = Some (NotSpawned "( cd '/wt' && npm ci )") /\ map PID (Groups out) = [7%Z] /\
  map HExitCode (hook_runs s') = [Some 0%Z] /\ map HFinished (hook_runs s') = [Some 20%Z] /\ PLevel <$> ev = Some "info".
Proof. vm_compute. by split_and!. Qed.

(** a child that a signal killed has code -1, and the highest code stays 0 *)
Example killed_group_has_no_code :
  let g := {| Command := "make"; PID := 7; LogPath := ""; ExitCode := -1; GContinue := false; StdoutTail := ""; StderrTail := ""; LogBody := "" |} in
  (PTally <$> (PersistOutcome no_faults 4 "setup" 10 20 {| Groups := [g]; AggregateExitCode := 0 |} empty_store).2)
    = Some {| failed := 1; nonFatal := 0; maxExit := 0; unrecorded := 0 |}.
Proof. vm_compute. reflexivity. Qed.
