(* ===== verification/Finalize.v ===== *)
(** * Finalizing a worktree: [daemon/finalize.go], [stale_finalize.go]

    The run that makes a worktree ready: files and patches, the hooks before
    the engines, the databases, the hooks after them; the same run in another
    process ([wt/finalize.go]); the run after a watched file changed; and the
    sweep that fails out the runs a dead daemon left open.  A run may be
    cancelled at any time, and any call may fail.  The databases themselves are
    prepared by the code that [BranchSwap] and [TemplateBuild] model: here a
    prepare is what it reports. *)
From stdpp Require Import base strings list sorting.
From Stdlib Require Import ZArith Lia.
From S2P Require Import Prelude GoStrings Registry EventLog Hooks.
Import Log Lifecycle.
#[local] Open Scope treeman_scope.

(** ** Events *)
Definition create_start : string := "worktree:create:start".
Definition create_end : string := "worktree:create:end".
Definition create_error : string := "worktree:create:error".
Definition create_cancel : string := "worktree:create:cancel".
Definition create_deferred : string := "worktree:create:deferred".
Definition PhaseBeforeEngines : string := "before-engines".
Definition FinalizeFailurePhase (enginesTouched : bool) : string := if enginesTouched then "" else PhaseBeforeEngines.
Definition FailedBeforeEngines (last : option Event) : bool :=
  match last with
  | None => false
  | Some e => String.eqb (EventType e) create_error && String.eqb (Level e) "error" && String.eqb (default "" (Phase e)) PhaseBeforeEngines
  end.

(** ** The run *)
Inductive reason :=
| LockUnavailable | IndexLocked | ConfigUnreadable | RepoUnknown | NotAWorktree | CheckoutNotSettled | ContextDone
| LinksUnknown | NotBroughtIn (mode : string) | PortsNotAllocated | PatchesNotApplied | PhaseNotRun (trigger : string) (e : hook_error) | PhaseFailed (trigger text : string)
| PrepareFailed (failed : option (list nat)) | StateUnreadable.

(** the databases that an error names; [None] when it names none *)
Definition RecoverDBIndices (e : reason) : option (list nat) := match e with PrepareFailed failed => failed | _ => None end.

Inductive step :=
| SaveEnv | StartWatcher | BringIn (mode : string) (paths : list string) | AllocatePorts | ApplyPatches (files : list string)
| RunPhase (trigger : string) | Prepare (only : option nat) | Recover (which : option (list nat)).
#[global] Instance step_eq_dec : EqDecision step.
Proof. solve_decision. Defined.

(** what the run reads of the configuration *)
Record Cfg := {
  Copies : list string; hasPorts : bool; Patches : list string; Databases : nat;
  OnCreateBeforeEngines : list Action; OnCreateAfterEngines : list Action
}.
Record Identity := { WtID : Z; IsMain : bool }.

Record hookWarning := { WPhase : string; WCommand : string; WExitCode : Z; WRunID : Z }.

(** the store, what was done, and what the deferred calls of the run read:
    whether the engines were touched, the row, the warnings *)
Record World := {
  log : list Event; hookRuns : HookStore; did : list step;
  enginesTouched : bool; termWtID : Z; warnings : list hookWarning
}.

Definition put_log (l : list Event) (w : World) : World :=
  {| log := l; hookRuns := hookRuns w; did := did w; enginesTouched := enginesTouched w; termWtID := termWtID w; warnings := warnings w |}.
Definition put_step (s : step) (w : World) : World :=
  {| log := log w; hookRuns := hookRuns w; did := did w ++ [s]; enginesTouched := enginesTouched w; termWtID := termWtID w; warnings := warnings w |}.
Definition put_touched (w : World) : World :=
  {| log := log w; hookRuns := hookRuns w; did := did w; enginesTouched := true; termWtID := termWtID w; warnings := warnings w |}.
Definition put_row (id : Z) (w : World) : World :=
  {| log := log w; hookRuns := hookRuns w; did := did w; enginesTouched := enginesTouched w; termWtID := id; warnings := warnings w |}.
Definition put_hooks (h : HookStore) (ws : list hookWarning) (w : World) : World :=
  {| log := log w; hookRuns := h; did := did w; enginesTouched := enginesTouched w; termWtID := termWtID w; warnings := warnings w ++ ws |}.
(** the variables of a run are its own *)
Definition fresh_run (w : World) : World :=
  {| log := log w; hookRuns := hookRuns w; did := did w; enginesTouched := false; termWtID := 0; warnings := [] |}.

(** what the others answer: git, the file system, the processes, the engines,
    and when the context of the run is done *)
Record Outside := {
  claimed : bool;                                   (** the slot of the worktree was free *)
  lock_error : option reason; index_error : option reason;
  config : res reason Cfg; repo_error : option reason; identity : res reason Identity;
  env_given : bool; git_op : string; settle_error : option reason;
  has_watcher : bool; watcher_starts : bool;
  link_paths : option (list string); brings : string -> bool;
  ports_allocated : option bool;                    (** [None] is an error, [Some true] when there are new slots *)
  ports_read : bool; patch_updates : string -> bool;
  machine_of : string -> Machine; hook_faults : string -> Faults; hook_times : string -> Z * Z;
  prepare_events : list (string * string); prepare_error : option (option (list nat));
  done_from : nat                                   (** the context is done from this checkpoint on *)
}.

Inductive outcome (A : Type) := Next (a : A) | Stop | Fail (e : reason).
Arguments Next {A} a.
Arguments Stop {A}.
Arguments Fail {A} e.

(** a piece of the run: it goes on, returns nil, or returns an error *)
Definition M (A : Type) : Type := World -> World * outcome A.
#[export] Instance M_ret : MRet M := fun A a w => (w, Next a).
#[export] Instance M_bind : MBind M := fun A B k m w =>
  match m w with (w, Next a) => k a w | (w, Stop) => (w, Stop) | (w, Fail e) => (w, Fail e) end.

Definition modify (f : World -> World) : M () := fun w => (f w, Next ()).
Definition stop {A} : M A := fun w => (w, Stop).
Definition fail {A} (e : reason) : M A := fun w => (w, Fail e).
Definition do_step (s : step) : M () := modify (put_step s).
Definition get {A} (f : World -> A) : M A := fun w => (w, Next (f w)).
Definition when (b : bool) (m : M ()) : M () := if b then m else mret ().
Definition raise (e : option reason) : M () := match e with Some e => fail e | None => mret () end.
Definition need {A} (r : res reason A) : M A := match r with Ok a => mret a | Err e => fail e end.

Section Run.
(** the clock at the n-th event, and what happens during the run *)
Context (time : nat -> Z) (o : Outside).

Definition new_event (type level phase : string) (w : World) : Event :=
  {| EID := next_id (map EID (log w)); Ts := time (length (log w)); Level := level; ERepo := None;
     EWorktree := if (0 <? termWtID w)%Z then Some (termWtID w) else None; EventType := type;
     Phase := if String.eqb phase "" then None else Some phase; Message := None; PayloadJSON := "null"; DurationMs := None |}.
Definition write (type level phase : string) (w : World) : World := put_log (log w ++ [new_event type level phase w]) w.
Definition emit (type level phase : string) : M () := modify (write type level phase).
Definition emits (l : list (string * string)) : M () := fun w => (foldl (fun w e => write e.1 e.2 "" w) w l, Next ()).

Definition cancelled (checkpoint : nat) : bool := Nat.leb (done_from o) checkpoint.

(** [unlessCancelled], as the value that is returned *)
Definition unlessCancelled {A} (checkpoint : nat) (e : reason) : M A := if cancelled checkpoint then stop else fail e.

Definition cancelledBefore (checkpoint : nat) : M () :=
  if cancelled checkpoint then _ ← emit create_cancel "warn" ""; stop else mret ().

(** the optional failures of a phase *)
Definition warnings_of (phase : string) (gs : list GroupOutcome) (ids : list Z) : list hookWarning :=
  omap (fun ig : nat * GroupOutcome =>
          if (ExitCode ig.2 =? 0)%Z || negb (GContinue ig.2) then None
          else Some {| WPhase := phase; WCommand := Command ig.2; WExitCode := ExitCode ig.2; WRunID := default 0%Z (ids !! ig.1) |})
       (imap pair gs).

Definition runTriggerActions (trigger wtRoot : string) (actions : list Action) : M () :=
  match actions with
  | [] => mret ()
  | _ =>
      _ ← emit "hooks:start" "info" trigger;
      _ ← do_step (RunPhase trigger);
      let '(out, err) := RunHooks (machine_of o trigger) trigger actions wtRoot true in
      s ← get hookRuns; wt ← get termWtID;
      let '(s, ids, ev) := PersistOutcome (hook_faults o trigger) wt trigger (hook_times o trigger).1 (hook_times o trigger).2 out s in
      _ ← modify (put_hooks s (warnings_of trigger (Groups out) ids));
      _ ← match ev with Some p => emit "hooks:end" (PLevel p) trigger | None => mret () end;
      match err with
      | Some e => fail (PhaseNotRun trigger e)
      | None => match FirstFailureError trigger out ids with Some text => fail (PhaseFailed trigger text) | None => mret () end
      end
  end.

Definition bring (domain mode : string) (paths : list string) : M () :=
  match paths with
  | [] => mret ()
  | _ =>
      _ ← emit (domain +:+ ":start") "info" "";
      _ ← do_step (BringIn mode paths);
      _ ← emits (map (fun _ => (domain +:+ ":path", "debug")) paths);
      _ ← emit (domain +:+ ":end") "info" "";
      if brings o mode then mret () else fail (NotBroughtIn mode)
  end.
Definition bringInWithEvents (c : Cfg) : M () :=
  match link_paths o with
  | None => fail LinksUnknown
  | Some links => _ ← bring "links" "link" links; bring "copies" "copy" (Copies c)
  end.
(** an error of the bring-in, unless the context is done *)
Definition bring_in (c : Cfg) : M () := fun w =>
  match bringInWithEvents c w with
  | (w, Fail e) => (_ ← cancelledBefore 3; fail e) w
  | r => r
  end.

Definition allocatePortsWithEvents : M () :=
  _ ← do_step AllocatePorts;
  match ports_allocated o with
  | None => emit "ports:error" "warn" ""
  | Some true => emit "ports:allocate" "info" ""
  | Some false => mret ()
  end.

Definition applyFinalizePatches (c : Cfg) : M () :=
  if ports_read o
  then _ ← do_step (ApplyPatches (Patches c)); emits (map (fun _ => ("patches:apply", "info")) (List.filter (patch_updates o) (Patches c)))
  else emit "patches:apply" "warn" "".

Definition run_prepare (only : option nat) : M () :=
  _ ← modify put_touched; _ ← do_step (Prepare only); emits (prepare_events o).

Definition runFinalizeSetupPipeline (c : Cfg) (wtRoot : string) (skipPrepare : bool) : M () :=
  _ ← cancelledBefore 4;
  _ ← runTriggerActions "create-before-engines" wtRoot (OnCreateBeforeEngines c);
  _ ← cancelledBefore 5;
  _ ← (if negb skipPrepare && negb (Nat.eqb (Databases c) 0)
       then _ ← run_prepare None;
            if cancelled 6 then stop else raise (PrepareFailed <$> prepare_error o)
       else mret ());
  _ ← cancelledBefore 7;
  runTriggerActions "create-after-engines" wtRoot (OnCreateAfterEngines c).

Definition ensureWorktreeWatcher : M () :=
  if has_watcher o then mret ()
  else _ ← do_step StartWatcher; when (watcher_starts o) (emit "watch:start" "debug" "").

Definition deferIfGitOp : M bool :=
  if String.eqb (git_op o) "" then mret false else _ ← emit create_deferred "info" ""; mret true.

(** [summary.emit] *)
Definition emit_summary : M () := ws ← get warnings; emit create_end (match ws with [] => "info" | _ => "warn" end) "".

(** what is read before the run begins *)
Definition find_worktree : M (Cfg * Identity) :=
  _ ← match index_error o with Some e => unlessCancelled 1 e | None => mret () end;
  c ← need (config o);
  _ ← raise (repo_error o);
  id ← need (identity o);
  _ ← modify (put_row (WtID id));
  mret (c, id).

(** the run from its start event to before its end *)
Definition set_up (c : Cfg) (id : Identity) (wtRoot : string) (skipPrepare : bool) : M () :=
  _ ← raise (settle_error o);
  _ ← emit "worktree:create:checkout" "debug" "";
  _ ← ensureWorktreeWatcher;
  _ ← when (negb (IsMain id)) (bring_in c);
  _ ← when (hasPorts c && negb (IsMain id)) allocatePortsWithEvents;
  _ ← when (negb (match Patches c with [] => true | _ => false end) && negb (IsMain id)) (applyFinalizePatches c);
  runFinalizeSetupPipeline c wtRoot skipPrepare.

Definition finalize_body (wtRoot : string) (skipPrepare : bool) : M () :=
  ci ← find_worktree;
  _ ← when (env_given o) (do_step SaveEnv);
  deferred ← deferIfGitOp;
  if (deferred : bool) then _ ← do_step StartWatcher; stop
  else _ ← emit create_start "info" ""; _ ← set_up ci.1 ci.2 wtRoot skipPrepare; emit_summary.

Definition recordFinalizeFailure (e : reason) (w : World) : World :=
  let w1 := if enginesTouched w then put_step (Recover (RecoverDBIndices e)) w else w in
  write create_error "error" (FinalizeFailurePhase (enginesTouched w)) w1.

(** the deferred call: every error is recorded once, and still returned *)
Definition with_record (m : M ()) (w : World) : World * option reason :=
  match m w with (w, Fail e) => (recordFinalizeFailure e w, Some e) | (w, _) => (w, None) end.

(** [beginFinalize] *)
Definition begin_run : M () :=
  if negb (claimed o) then stop
  else match lock_error o with Some e => unlessCancelled 0 e | None => mret () end.

Definition finalizeWorktree (wtRoot : string) (skipPrepare : bool) (w : World) : World * option reason :=
  with_record (_ ← begin_run; finalize_body wtRoot skipPrepare) (fresh_run w).

(** *** The run after a watched file changed *)
Definition watchRunOptions (prior : option Event) (dbIdx : Z) (dbCount : nat) : option nat :=
  if match (DeriveWorktreeState prior).1 with Ready => true | _ => false end && (0 <=? dbIdx)%Z && (dbIdx <? Z.of_nat dbCount)%Z
  then Some (Z.to_nat dbIdx) else None.

(** the run from its start event to before its end *)
Definition watch_set_up (c : Cfg) (wtRoot : string) (only : option nat) : M () :=
  _ ← run_prepare only;
  _ ← match prepare_error o with Some f => unlessCancelled 6 (PrepareFailed f) | None => mret () end;
  if cancelled 7 then stop else runTriggerActions "create-after-engines" wtRoot (OnCreateAfterEngines c).

Definition watch_body (wtRoot : string) (dbIdx : Z) : M () :=
  ci ← find_worktree;
  deferred ← deferIfGitOp;
  if (deferred : bool) then stop
  else
    let '(c, id) := ci in
    _ ← when (negb (match Patches c with [] => true | _ => false end) && negb (IsMain id)) (applyFinalizePatches c);
    if Nat.eqb (Databases c) 0 || cancelled 4 then stop
    else
      prior ← get (fun w => LatestWorktreeStateEvent (WtID id) (log w));
      if FailedBeforeEngines prior then _ ← emit "watch:skip" "warn" ""; stop
      else _ ← emit create_start "info" ""; _ ← watch_set_up c wtRoot (watchRunOptions prior dbIdx (Databases c)); emit_summary.

Definition FinalizeWorktreeForWatch (wtRoot : string) (dbIdx : Z) (w : World) : World * option reason :=
  with_record (_ ← begin_run; watch_body wtRoot dbIdx) (fresh_run w).
End Run.

(** ** The run in another process *)
(** what it is given: the errors of the ports and the patches, which end it *)
Record LocalOutside := { outside : Outside; ports_error : bool; patch_error : bool }.

Section Local.
Context (time : nat -> Z) (o : LocalOutside).

(** [runTrigger] of [runLocalFinalizeSteps] *)
Definition runTrigger (trigger wtPath : string) (actions : list Action) : M () :=
  match actions with
  | [] => mret ()
  | _ =>
      _ ← emit time "hooks:start" "info" trigger;
      _ ← do_step (RunPhase trigger);
      let '(out, err) := RunHooks (machine_of (outside o) trigger) trigger actions wtPath true in
      s ← get hookRuns; wt ← get termWtID;
      let '(s, ids, ev) := PersistOutcome (hook_faults (outside o) trigger) wt trigger
                             (hook_times (outside o) trigger).1 (hook_times (outside o) trigger).2 out s in
      _ ← modify (put_hooks s []);
      _ ← match ev with Some p => emit time "hooks:end" (PLevel p) trigger | None => mret () end;
      match err with Some e => fail (PhaseNotRun trigger e) | None => mret () end
  end.

Definition bring_local (mode : string) (paths : list string) : M () :=
  _ ← do_step (BringIn mode paths); if brings (outside o) mode then mret () else fail (NotBroughtIn mode).

Definition runLocalFinalizeSteps (c : Cfg) (isMain : bool) (wtPath : string) (skipPrepare : bool) : M () :=
  _ ← (if isMain then mret ()
       else match link_paths (outside o) with
            | None => fail LinksUnknown
            | Some links =>
                _ ← bring_local "link" links;
                _ ← bring_local "copy" (Copies c);
                _ ← do_step AllocatePorts;
                _ ← when (ports_error o) (fail PortsNotAllocated);
                _ ← do_step (ApplyPatches (Patches c));
                when (patch_error o) (fail PatchesNotApplied)
            end);
  _ ← runTrigger "create-before-engines" wtPath (OnCreateBeforeEngines c);
  _ ← (if skipPrepare || Nat.eqb (Databases c) 0 then mret ()
       else _ ← run_prepare time (outside o) None; raise (PrepareFailed <$> prepare_error (outside o)));
  runTrigger "create-after-engines" wtPath (OnCreateAfterEngines c).

Definition RunLocalFinalize (c : Cfg) (id : Identity) (wtPath : string) (skipPrepare : bool) (w : World) : World * option reason :=
  let w := put_row (WtID id) (fresh_run w) in
  match lock_error (outside o) with
  | Some e => (w, Some e)
  | None =>
      match (_ ← emit time create_start "info" ""; runLocalFinalizeSteps c (IsMain id) wtPath skipPrepare) w with
      | (w, Fail e) => (write time create_error "error" (FinalizeFailurePhase (enginesTouched w)) w, Some e)
      | (w, _) => (write time create_end "info" "" w, None)
      end
  end.
End Local.

(** ** The sweep at the start of the daemon *)
Definition finalize_types : list string := [create_start; create_end; create_error; create_cancel].

Definition stale (l : list Event) (wt : Z) : bool :=
  match LatestEvent wt finalize_types l with Some e => String.eqb (EventType e) create_start | None => false end.

Definition stale_event (time : nat -> Z) (type level : string) (wt : Z) (l : list Event) : Event :=
  {| EID := next_id (map EID l); Ts := time (length l); Level := level; ERepo := None; EWorktree := Some wt; EventType := type;
     Phase := None; Message := None; PayloadJSON := "null"; DurationMs := None |}.

(** one active row; [was] is the log as the query for the latest events found
    it, once, before any event is written.  The log, and the worktrees whose
    databases are recovered *)
Definition sweep_row (time : nat -> Z) (config_loads : Z -> bool) (was : list Event) (acc : list Event * list Z) (wt : Z) : list Event * list Z :=
  let '(l, recovered) := acc in
  if negb (stale was wt) then acc
  else
    let l := (l ++ [stale_event time create_error "error" wt l])%list in
    if config_loads wt then (l, recovered ++ [wt])%list else ((l ++ [stale_event time "worktree:recover:error" "warn" wt l])%list, recovered).
(** [listed]: the active rows, or the failure of the query for them; [queried]:
    the query for their latest events succeeds *)
Definition SweepStalePreparing (time : nat -> Z) (config_loads : Z -> bool) (listed : option (list Z)) (queried : bool) (l : list Event) : list Event * list Z :=
  match listed with
  | None => (l, [])
  | Some rows => if negb queried then (l, []) else foldl (sweep_row time config_loads l) (l, []) rows
  end.

(** ** Lemmas: what a piece of the run does *)
(** an event that does not change the state of a worktree in an operation *)
Definition quiet (e : Event) : Prop := EventType e ∉ WorktreeOpEventTypes.
Definition prepares (s : step) : bool := match s with Prepare _ => true | _ => false end.

Section Pieces.
Context (time : nat -> Z) (o : Outside).
Hypothesis prepare_quiet : Forall (fun e => e.1 ∉ WorktreeOpEventTypes) (prepare_events o).

Record eff (w w' : World) (ds : list step) : Prop := {
  eff_log : exists es, log w' = (log w ++ es)%list /\ Forall quiet es;
  eff_did : did w' = (did w ++ ds)%list;
  eff_row : termWtID w' = termWtID w;
  eff_touched : enginesTouched w' = enginesTouched w || existsb prepares ds
}.

Lemma eff_refl w : eff w w [].
Proof. constructor; [exists []; by rewrite app_nil_r|by rewrite app_nil_r|done|by rewrite orb_false_r]. Qed.

Lemma eff_trans w1 w2 w3 ds1 ds2 : eff w1 w2 ds1 -> eff w2 w3 ds2 -> eff w1 w3 (ds1 ++ ds2).
Proof.
  intros [(es1 & Hl1 & Hq1) Hd1 Hr1 Ht1] [(es2 & Hl2 & Hq2) Hd2 Hr2 Ht2]. constructor.
  - exists (es1 ++ es2)%list. rewrite Hl2, Hl1, app_assoc. split; [done|]. by apply Forall_app.
  - by rewrite Hd2, Hd1, app_assoc.
  - congruence.
  - by rewrite Ht2, Ht1, existsb_app, orb_assoc.
Qed.

(** a piece does a prefix of its steps, all of them when it goes on, and then
    [F] holds; it stops only when the context is done *)
Definition spec {A} (m : M A) (ds : list step) (F : A -> Prop) : Prop :=
  forall w, exists pre, pre `prefix_of` ds /\ eff w (m w).1 pre /\
    match (m w).2 with Next a => pre = ds /\ F a | Stop => cancelled o 7 = true | Fail _ => True end.

Lemma spec_weaken {A} (m : M A) ds (F G : A -> Prop) : spec m ds F -> (forall a, F a -> G a) -> spec m ds G.
Proof.
  intros H Hi w. destruct (H w) as (pre & Hp & He & Hr). exists pre. split_and!; [done..|]. destruct (m w).2; [|done..]. naive_solver.
Qed.

Lemma spec_ret {A} (a : A) : spec (mret a) [] (eq a).
Proof. intros w. exists []. split_and!; [done|apply eff_refl|done]. Qed.

Lemma spec_bind {A B} (m : M A) (k : A -> M B) ds1 ds2 F G :
  spec m ds1 F -> (forall a, F a -> spec (k a) ds2 G) -> spec (m ≫= k) (ds1 ++ ds2) G.
Proof.
  intros Hm Hk w. destruct (Hm w) as (pre & Hp & He & Hr). cbn [mbind M_bind].
  unfold mbind, M_bind. destruct (m w) as [w1 [a| |e]]; cbn [fst snd] in *.
  - destruct Hr as [-> Ha]. destruct (Hk a Ha w1) as (pre2 & Hp2 & He2 & Hr2). exists (ds1 ++ pre2)%list. split_and!.
    + by apply prefix_app.
    + by eapply eff_trans.
    + destruct (k a w1).2; [|done..]. by destruct Hr2 as [-> ?].
  - exists pre. split_and!; [by apply prefix_app_r|done|done].
  - exists pre. split_and!; [by apply prefix_app_r|done|done].
Qed.

Lemma spec_seq {B} (m : M ()) (k : M B) ds1 ds2 F G : spec m ds1 F -> spec k ds2 G -> spec (_ ← m; k) (ds1 ++ ds2) G.
Proof. intros Hm Hk. by apply (spec_bind m (fun _ => k) ds1 ds2 F G). Qed.

Lemma spec_fail {A} e ds (F : A -> Prop) : spec (fail e) ds F.
Proof. intros w. exists []. split_and!; [apply prefix_nil|apply eff_refl|done]. Qed.

Lemma spec_stop {A} ds (F : A -> Prop) : cancelled o 7 = true -> spec stop ds F.
Proof. intros H w. exists []. split_and!; [apply prefix_nil|apply eff_refl|done]. Qed.

Lemma quiet_type type level phase w : type ∉ WorktreeOpEventTypes -> quiet (new_event time type level phase w).
Proof. done. Qed.

Lemma eff_write type level phase w : type ∉ WorktreeOpEventTypes -> eff w (write time type level phase w) [].
Proof.
  intros H. constructor; [|by rewrite app_nil_r|done|by rewrite orb_false_r].
  exists [new_event time type level phase w]. split; [done|]. constructor; [done|constructor].
Qed.

Lemma spec_emit type level phase : type ∉ WorktreeOpEventTypes -> spec (emit time type level phase) [] (fun _ => True).
Proof. intros H w. exists []. split_and!; [done|by apply eff_write|done]. Qed.

Lemma spec_emits l : Forall (fun e => e.1 ∉ WorktreeOpEventTypes) l -> spec (emits time l) [] (fun _ => True).
Proof.
  intros H w. exists []. split_and!; [done| |done]. cbn [emits fst]. revert w. induction H as [|e l He _ IH]; intros w; [apply eff_refl|].
  cbn [foldl]. change (@nil step) with ([] ++ @nil step)%list. eapply eff_trans; [by apply eff_write|apply IH].
Qed.

Lemma spec_step s : prepares s = false -> spec (do_step s) [s] (fun _ => True).
Proof.
  intros H w. exists [s]. split_and!; [done| |done]. constructor; [exists []; by rewrite app_nil_r|done|done|].
  cbn. by rewrite H, orb_false_r.
Qed.

Lemma spec_get {A} (f : World -> A) : spec (get f) [] (fun _ => True).
Proof. intros w. exists []. split_and!; [done|apply eff_refl|done]. Qed.

Lemma spec_hooks h ws : spec (modify (put_hooks h ws)) [] (fun _ => True).
Proof.
  intros w. exists []. split_and!; [done| |done]. constructor; [exists []; by rewrite app_nil_r|by rewrite app_nil_r|done|by rewrite orb_false_r].
Qed.

Lemma spec_when b (m : M ()) ds F : spec m ds F -> spec (when b m) (if b then ds else []) (fun _ => True).
Proof. intros H. destruct b; [by eapply spec_weaken|]. eapply spec_weaken; [apply spec_ret|done]. Qed.

Lemma cancelled_later c c' : (c <= c')%nat -> cancelled o c = true -> cancelled o c' = true.
Proof. unfold cancelled. rewrite !Nat.leb_le. lia. Qed.

Lemma not_op type : bool_decide (type ∈ WorktreeOpEventTypes) = false -> type ∉ WorktreeOpEventTypes.
Proof. apply bool_decide_eq_false. Qed.

Lemma spec_cancelled c : (c <= 7)%nat -> spec (cancelledBefore time o c) [] (fun _ => cancelled o c = false).
Proof.
  intros Hc. unfold cancelledBefore. destruct (cancelled o c) eqn:E.
  - change (@nil step) with ([] ++ @nil step)%list. eapply spec_seq; [by apply spec_emit, not_op|]. apply spec_stop. by eapply cancelled_later.
  - eapply spec_weaken; [apply spec_ret|done].
Qed.

(** *** The pieces *)
(** a phase whose groups all started and, but for the optional ones, exited
    with 0 *)
Definition phase_passes (trigger wtRoot : string) (actions : list Action) : Prop :=
  actions = [] \/
  let '(out, err) := RunHooks (machine_of o trigger) trigger actions wtRoot true in
  err = None /\ Forall (fun g => quiet_group g = true) (Groups out).

Lemma spec_phase trigger wtRoot actions :
  spec (runTriggerActions time o trigger wtRoot actions) (match actions with [] => [] | _ => [RunPhase trigger] end)
    (fun _ => phase_passes trigger wtRoot actions).
Proof.
  unfold runTriggerActions, phase_passes. destruct actions as [|a actions]; [eapply spec_weaken; [apply spec_ret|by left]|].
  set (acts := a :: actions). change [RunPhase trigger] with ([] ++ [RunPhase trigger] ++ [])%list.
  eapply spec_seq; [by apply spec_emit, not_op|]. eapply spec_seq; [by apply spec_step|].
  destruct (RunHooks (machine_of o trigger) trigger acts wtRoot true) as [out err].
  change (@nil step) with ([] ++ [] ++ [] ++ [] ++ @nil step)%list.
  eapply spec_bind; [apply spec_get|intros hs _]. eapply spec_bind; [apply spec_get|intros wt _].
  destruct (PersistOutcome (hook_faults o trigger) wt trigger (hook_times o trigger).1 (hook_times o trigger).2 out hs) as [[hs' ids] ev].
  eapply spec_seq; [apply spec_hooks|].
  eapply (spec_seq _ _ _ _ (fun _ => True)).
  { destruct ev as [p|]; [by apply spec_emit, not_op|]. eapply spec_weaken; [apply spec_ret|done]. }
  destruct err as [e|]; [apply spec_fail|]. unfold FirstFailureError.
  pose proof (first_failure_spec trigger (Groups out) 0 ids) as Hf. destruct (first_failure trigger 0 (Groups out) ids) as [text|]; [apply spec_fail|].
  eapply spec_weaken; [apply spec_ret|]. intros _ _. by right.
Qed.

Definition bring_steps (mode : string) (paths : list string) : list step := match paths with [] => [] | _ => [BringIn mode paths] end.
Lemma spec_bring domain mode paths :
  Forall (fun t => (domain +:+ t) ∉ WorktreeOpEventTypes) [":start"; ":path"; ":end"] ->
  spec (bring time o domain mode paths) (bring_steps mode paths) (fun _ => True).
Proof.
  intros Hd. apply Forall_cons in Hd as [Hs Hd]. apply Forall_cons in Hd as [Hp Hd]. apply Forall_cons in Hd as [He _].
  unfold bring, bring_steps. destruct paths as [|p paths]; [eapply spec_weaken; [apply spec_ret|done]|]. set (ps := p :: paths).
  change [BringIn mode ps] with ([] ++ [BringIn mode ps] ++ [] ++ [] ++ [])%list.
  eapply spec_seq; [by apply spec_emit|]. eapply spec_seq; [by apply spec_step|].
  eapply spec_seq; [apply spec_emits; apply Forall_map, Forall_true; by intros|]. eapply spec_seq; [by apply spec_emit|].
  destruct (brings o mode); [eapply spec_weaken; [apply spec_ret|done]|apply spec_fail].
Qed.

Definition all_bring_steps (c : Cfg) : list step :=
  match link_paths o with None => [] | Some links => bring_steps "link" links ++ bring_steps "copy" (Copies c) end.
Lemma spec_bring_in c : spec (bring_in time o c) (all_bring_steps c) (fun _ => True).
Proof.
  assert (H : spec (bringInWithEvents time o c) (all_bring_steps c) (fun _ => True)).
  { unfold bringInWithEvents, all_bring_steps. destruct (link_paths o) as [links|]; [|apply spec_fail].
    eapply spec_seq; apply spec_bring; repeat constructor; by apply not_op. }
  intros w. unfold bring_in. destruct (H w) as (pre & Hp & He & Hr). destruct (bringInWithEvents time o c w) as [w1 [a| |e]]; [by exists pre..|].
  cbn [fst snd] in *.
  assert (Hc : spec (_ ← cancelledBefore time o 3; fail e) [] (fun _ : () => True)).
  { change (@nil step) with ([] ++ @nil step)%list. eapply spec_seq; [apply spec_cancelled; lia|apply spec_fail]. }
  destruct (Hc w1) as (pre2 & Hp2 & He2 & Hr2). apply prefix_nil_inv in Hp2 as ->. exists pre. split_and!; [done| |].
  - rewrite <- (app_nil_r pre). by eapply eff_trans.
  - destruct ((_ ← cancelledBefore time o 3; fail e) w1) as [w2 [a| |e']] eqn:E; cbn [fst snd] in *; [|done..].
    exfalso. revert E. unfold cancelledBefore. destruct (cancelled o 3); unfold mbind, M_bind, emit, modify, stop, fail, mret, M_ret; congruence.
Qed.

Definition watcher_steps : list step := if has_watcher o then [] else [StartWatcher].
Lemma spec_watcher : spec (ensureWorktreeWatcher time o) watcher_steps (fun _ => True).
Proof.
  unfold ensureWorktreeWatcher, watcher_steps. destruct (has_watcher o); [eapply spec_weaken; [apply spec_ret|done]|].
  replace [StartWatcher] with ([StartWatcher] ++ (if watcher_starts o then [] else []))%list by (by destruct (watcher_starts o)).
  eapply spec_seq; [by apply spec_step|]. apply spec_when with (F := fun _ => True). by apply spec_emit, not_op.
Qed.

Lemma spec_ports : spec (allocatePortsWithEvents time o) [AllocatePorts] (fun _ => True).
Proof.
  unfold allocatePortsWithEvents. change [AllocatePorts] with ([AllocatePorts] ++ [])%list. eapply spec_seq; [by apply spec_step|].
  destruct (ports_allocated o) as [[]|]; [by apply spec_emit, not_op| |by apply spec_emit, not_op]. eapply spec_weaken; [apply spec_ret|done].
Qed.

Definition patch_steps (c : Cfg) : list step := if ports_read o then [ApplyPatches (Patches c)] else [].
Lemma spec_patches c : spec (applyFinalizePatches time o c) (patch_steps c) (fun _ => True).
Proof.
  unfold applyFinalizePatches, patch_steps. destruct (ports_read o); [|by apply spec_emit, not_op].
  change [ApplyPatches (Patches c)] with ([ApplyPatches (Patches c)] ++ [])%list. eapply spec_seq; [by apply spec_step|].
  apply spec_emits, Forall_map, Forall_true. intros p. by apply not_op.
Qed.

Lemma spec_prepare only : spec (run_prepare time o only) [Prepare only] (fun _ => True).
Proof.
  intros w. set (w1 := put_step (Prepare only) (put_touched w)).
  change (run_prepare time o only w) with (emits time (prepare_events o) w1). exists [Prepare only]. split_and!; [done| |done].
  destruct (spec_emits _ prepare_quiet w1) as (pre & Hp & [Hl Hd Hr Ht] & _). apply prefix_nil_inv in Hp as ->. constructor.
  - exact Hl.
  - by rewrite Hd, app_nil_r.
  - exact Hr.
  - rewrite Ht. cbn. by rewrite orb_true_r.
Qed.

(** *** The whole run *)
Definition before_engines : string := "create-before-engines".
Definition after_engines : string := "create-after-engines".
Definition phase_steps (trigger : string) (actions : list Action) : list step := match actions with [] => [] | _ => [RunPhase trigger] end.
Definition prepares_now (c : Cfg) (skip : bool) : bool := negb skip && negb (Nat.eqb (Databases c) 0).
Definition patches_now (c : Cfg) (id : Identity) : bool := negb (match Patches c with [] => true | _ => false end) && negb (IsMain id).

(** the steps of a run that nothing stops *)
Definition plan (c : Cfg) (id : Identity) (skip : bool) : list step :=
  (watcher_steps ++ (if negb (IsMain id) then all_bring_steps c else []) ++
   (if hasPorts c && negb (IsMain id) then [AllocatePorts] else []) ++
   (if patches_now c id then patch_steps c else []) ++
   phase_steps before_engines (OnCreateBeforeEngines c) ++
   (if prepares_now c skip then [Prepare None] else []) ++ phase_steps after_engines (OnCreateAfterEngines c))%list.

(** what must have gone well before a step *)
Definition before_passes (c : Cfg) (wtRoot : string) : Prop := phase_passes before_engines wtRoot (OnCreateBeforeEngines c).
Definition prepare_passes (c : Cfg) (skip : bool) : Prop := prepares_now c skip = true -> prepare_error o = None.
Definition allowed (c : Cfg) (wtRoot : string) (skip : bool) (s : step) : Prop :=
  match s with
  | Prepare _ => before_passes c wtRoot
  | RunPhase t => t = after_engines -> before_passes c wtRoot /\ prepare_passes c skip
  | _ => True
  end.

Section Gates.
Context (c : Cfg) (wtRoot : string) (skip : bool).

Definition gated {A} (m : M A) (ds : list step) (F : A -> Prop) : Prop :=
  forall w, exists pre, pre `prefix_of` ds /\ eff w (m w).1 pre /\ Forall (allowed c wtRoot skip) pre /\
    match (m w).2 with Next a => pre = ds /\ F a | Stop => cancelled o 7 = true | Fail _ => True end.

Lemma gated_as_is (m : M ()) ds F : gated m ds (fun _ => F) -> forall w, exists pre, pre `prefix_of` ds /\ eff w (m w).1 pre /\
  Forall (allowed c wtRoot skip) pre /\ match (m w).2 with Next _ => pre = ds /\ F | Stop => cancelled o 7 = true | Fail _ => True end.
Proof. done. Qed.

Lemma gated_spec {A} (m : M A) ds F : spec m ds F -> Forall (allowed c wtRoot skip) ds -> gated m ds F.
Proof.
  intros Hm Hds w. destruct (Hm w) as (pre & [post ->] & He & Hr). exists pre. split_and!; [by apply prefix_app_r|done| |done].
  by apply Forall_app in Hds as [? _].
Qed.

Lemma gated_seq {A B} (m : M A) (k : M B) ds1 ds2 F G :
  gated m ds1 F -> (forall a, F a -> gated k ds2 G) -> gated (_ ← m; k) (ds1 ++ ds2) G.
Proof.
  intros Hm Hk w. destruct (Hm w) as (pre & Hp & He & Ha & Hr). unfold mbind, M_bind.
  destruct (m w) as [w1 [a| |e]]; cbn [fst snd] in *.
  - destruct Hr as [-> Hf]. destruct (Hk a Hf w1) as (pre2 & Hp2 & He2 & Ha2 & Hr2). exists (ds1 ++ pre2)%list. split_and!.
    + by apply prefix_app.
    + by eapply eff_trans.
    + by apply Forall_app.
    + destruct (k w1).2; [|done..]. by destruct Hr2 as [-> ?].
  - exists pre. split_and!; [by apply prefix_app_r|done..].
  - exists pre. split_and!; [by apply prefix_app_r|done..].
Qed.

Lemma allowed_plain ds : Forall (fun s => match s with Prepare _ | RunPhase _ => False | _ => True end) ds -> Forall (allowed c wtRoot skip) ds.
Proof. intros H. eapply Forall_impl; [exact H|]. by intros []. Qed.

Lemma gated_pipeline :
  gated (runFinalizeSetupPipeline time o c wtRoot skip)
    (phase_steps before_engines (OnCreateBeforeEngines c) ++ (if prepares_now c skip then [Prepare None] else []) ++
     phase_steps after_engines (OnCreateAfterEngines c))
    (fun _ => before_passes c wtRoot /\ prepare_passes c skip /\ phase_passes after_engines wtRoot (OnCreateAfterEngines c) /\ cancelled o 7 = false).
Proof.
  unfold runFinalizeSetupPipeline. fold (prepares_now c skip).
  change (?a ++ ?b)%list with ([] ++ a ++ [] ++ b)%list at 1.
  eapply gated_seq; [apply gated_spec; [apply spec_cancelled; lia|done]|intros _ _].
  eapply gated_seq; [apply gated_spec; [apply spec_phase|unfold phase_steps; destruct (OnCreateBeforeEngines c); [done|]; constructor; [by intros ?|done]]|intros ? Hb].
  eapply gated_seq; [apply gated_spec; [apply spec_cancelled; lia|done]|intros _ _].
  eapply (gated_seq _ _ _ _ (fun _ => prepare_passes c skip)).
  { apply gated_spec; [|destruct (prepares_now c skip); [by constructor|done]]. unfold prepare_passes. destruct (prepares_now c skip).
    - change [Prepare None] with ([Prepare None] ++ [])%list. eapply spec_seq; [apply spec_prepare|].
      destruct (cancelled o 6) eqn:E6; [apply spec_stop; by apply (cancelled_later 6 7); [lia|]|].
      destruct (prepare_error o); cbn; [apply spec_fail|]. eapply spec_weaken; [apply spec_ret|done].
    - eapply spec_weaken; [apply spec_ret|done]. }
  intros ? Hp. rewrite <- (app_nil_l (phase_steps _ _)).
  eapply gated_seq; [apply gated_spec; [apply spec_cancelled; lia|done]|intros ? H7]. apply gated_spec.
  - eapply spec_weaken; [apply spec_phase|]. intros ? Ha. by split_and!.
  - unfold phase_steps. destruct (OnCreateAfterEngines c); [done|]. constructor; [|done]. by intros _.
Qed.

Lemma gated_set_up id :
  gated (set_up time o c id wtRoot skip) (plan c id skip)
    (fun _ => before_passes c wtRoot /\ prepare_passes c skip /\ phase_passes after_engines wtRoot (OnCreateAfterEngines c) /\ cancelled o 7 = false).
Proof.
  unfold set_up, plan, raise.
  change (?a ++ ?b)%list with ([] ++ [] ++ a ++ b)%list at 1.
  eapply (gated_seq _ _ _ _ (fun _ => True)).
  { apply gated_spec; [|done]. destruct (settle_error o); [apply spec_fail|]. eapply spec_weaken; [apply spec_ret|done]. }
  intros _ _. eapply gated_seq; [apply gated_spec; [by apply spec_emit, not_op|done]|intros _ _].
  eapply gated_seq; [apply gated_spec; [apply spec_watcher|]|intros _ _].
  { apply allowed_plain. unfold watcher_steps. destruct (has_watcher o); repeat constructor. }
  eapply gated_seq; [apply gated_spec; [eapply spec_when, spec_bring_in|]|intros _ _].
  { apply allowed_plain. destruct (negb (IsMain id)); [|done]. unfold all_bring_steps, bring_steps. destruct (link_paths o) as [l|]; [|done].
    apply Forall_app. split; [destruct l|destruct (Copies c)]; repeat constructor. }
  eapply gated_seq; [apply gated_spec; [eapply spec_when, spec_ports|]|intros _ _].
  { apply allowed_plain. destruct (hasPorts c && negb (IsMain id)); repeat constructor. }
  fold (patches_now c id).
  eapply gated_seq; [apply gated_spec; [eapply spec_when, spec_patches|]|intros _ _].
  { apply allowed_plain. unfold patch_steps. destruct (patches_now c id), (ports_read o); repeat constructor. }
  apply gated_pipeline.
Qed.
End Gates.

(** *** The state that is shown *)
Definition shown (wt : Z) (l : list Event) : WtState := (DeriveWorktreeState (machine wt l)).1.

Lemma machine_app wt l es : machine wt (l ++ es) = foldl (observe wt) (machine wt l) es.
Proof. unfold machine. by rewrite foldl_app. Qed.

Lemma observe_quiet wt e es : opInFlight e = true -> Forall quiet es -> foldl (observe wt) (Some e) es = Some e.
Proof.
  intros He. induction 1 as [|x es Hx _ IH]; [done|]. cbn [foldl]. unfold observe at 2. unfold quiet in Hx.
  unfold of_types at 1. rewrite (bool_decide_eq_false_2 _ Hx), andb_false_r, He. by destruct (of_types wt PrepareStateEventTypes x).
Qed.

Lemma machine_op wt l e : of_types wt WorktreeOpEventTypes e = true -> machine wt (l ++ [e]) = Some e.
Proof. intros H. rewrite machine_app. cbn. unfold observe. by rewrite H. Qed.

Lemma written_op wt type level phase w :
  termWtID w = wt -> (0 < wt)%Z -> type ∈ WorktreeOpEventTypes ->
  machine wt (log (write time type level phase w)) = Some (new_event time type level phase w).
Proof.
  intros Hr Hp Ht. apply machine_op. unfold of_types, new_event. cbn [EWorktree EventType]. rewrite Hr.
  replace (0 <? wt)%Z with true by (symmetry; by apply Z.ltb_lt). by rewrite !bool_decide_eq_true_2.
Qed.

Lemma in_op type : bool_decide (type ∈ WorktreeOpEventTypes) = true -> type ∈ WorktreeOpEventTypes.
Proof. apply bool_decide_eq_true. Qed.

(** after the start event, quiet events leave the worktree in preparation *)
Lemma preparing wt w w' ds :
  termWtID w = wt -> (0 < wt)%Z -> eff (write time create_start "info" "" w) w' ds -> shown wt (log w') = Preparing.
Proof.
  intros Hr Hp [(es & Hl & Hq) _ _ _]. unfold shown. rewrite Hl, machine_app, (written_op wt), observe_quiet; [done..|by apply in_op].
Qed.

Definition saved : list step := if env_given o then [SaveEnv] else [].
Definition recovery (e : reason) (pre : list step) : list step := if existsb prepares pre then [Recover (RecoverDBIndices e)] else [].

(** how a run ends, by what it returns *)
Inductive run_ends (wtRoot : string) (skip : bool) (w w' : World) : option reason -> Prop :=
| ends_not_run :
    claimed o = false \/ cancelled o 1 = true -> log w' = log w -> did w' = did w -> run_ends wtRoot skip w w' None
| ends_not_found e ev :
    log w' = (log w ++ [ev])%list -> EventType ev = create_error -> EWorktree ev = None -> did w' = did w -> run_ends wtRoot skip w w' (Some e)
| ends_deferred id :
    identity o = Ok id -> git_op o <> "" -> shown (WtID id) (log w') = Deferred ->
    did w' = (did w ++ saved ++ [StartWatcher])%list -> run_ends wtRoot skip w w' None
| ends_cancelled c id pre :
    config o = Ok c -> identity o = Ok id -> cancelled o 7 = true -> shown (WtID id) (log w') = Preparing ->
    pre `prefix_of` plan c id skip -> Forall (allowed c wtRoot skip) pre -> did w' = (did w ++ saved ++ pre)%list ->
    run_ends wtRoot skip w w' None
| ends_completed c id :
    config o = Ok c -> identity o = Ok id -> cancelled o 7 = false -> shown (WtID id) (log w') = Ready ->
    before_passes c wtRoot -> prepare_passes c skip -> phase_passes after_engines wtRoot (OnCreateAfterEngines c) ->
    did w' = (did w ++ saved ++ plan c id skip)%list -> run_ends wtRoot skip w w' None
| ends_failed c id pre e :
    config o = Ok c -> identity o = Ok id -> shown (WtID id) (log w') = Error ->
    FailedBeforeEngines (machine (WtID id) (log w')) = negb (existsb prepares pre) ->
    pre `prefix_of` plan c id skip -> Forall (allowed c wtRoot skip) pre ->
    did w' = (did w ++ saved ++ pre ++ recovery e pre)%list -> run_ends wtRoot skip w w' (Some e).

(** what is between the start event of a run and its end *)
Lemma bracketed (m : M ()) w1 wt ds (F : Prop) (P : list step -> Prop) :
  termWtID w1 = wt -> (0 < wt)%Z -> enginesTouched w1 = false ->
  (let w2 := write time create_start "info" "" w1 in
   exists pre, pre `prefix_of` ds /\ eff w2 (m w2).1 pre /\ P pre /\
     match (m w2).2 with Next _ => pre = ds /\ F | Stop => cancelled o 7 = true | Fail _ => True end) ->
  let '(w', err) := with_record time (_ ← emit time create_start "info" ""; _ ← m; emit_summary time) w1 in
  exists pre, pre `prefix_of` ds /\ P pre /\
    match err with
    | None => pre = ds /\ F /\ shown wt (log w') = Ready /\ did w' = (did w1 ++ pre)%list \/
              cancelled o 7 = true /\ shown wt (log w') = Preparing /\ did w' = (did w1 ++ pre)%list
    | Some e => shown wt (log w') = Error /\ FailedBeforeEngines (machine wt (log w')) = negb (existsb prepares pre) /\
                did w' = (did w1 ++ pre ++ recovery e pre)%list
    end.
Proof.
  intros Hr Hpos Ht Hm. unfold with_record, emit, modify, mbind, M_bind. cbn zeta in Hm. set (w2 := write time create_start "info" "" w1) in *.
  destruct Hm as (pre & Hp & He & HP & Hres).
  pose proof (preparing wt w1 _ _ Hr Hpos He) as Hprep. destruct He as [_ Hd' Hr' Ht']. cbn [w2 write put_log did termWtID enginesTouched] in Hd', Hr', Ht'.
  rewrite Hr in Hr'. rewrite Ht in Ht'. cbn [orb] in Ht'. destruct (m w2) as [w3 [u| |e]]; cbn [fst snd] in *; exists pre; (split; [done|]); (split; [done|]).
  - left. destruct Hres as (-> & HF). unfold emit_summary, get, mbind, M_bind, emit, modify. split_and!; [done|done| |done].
    unfold shown. rewrite (written_op wt); [done|done|done|by apply in_op].
  - by right.
  - unfold recordFinalizeFailure, recovery. rewrite Ht'. split_and!.
    + unfold shown. rewrite (written_op wt); [done| |done|by apply in_op]. by destruct (existsb prepares pre).
    + rewrite (written_op wt); [|by destruct (existsb prepares pre)|done|by apply in_op]. by destruct (existsb prepares pre).
    + destruct (existsb prepares pre); cbn; rewrite Hd'; [by rewrite <- !app_assoc|by rewrite app_nil_r].
Qed.

(** the part of the run that has its row *)
Lemma set_up_ends c id wtRoot skip w1 :
  config o = Ok c -> identity o = Ok id -> (0 < WtID id)%Z -> termWtID w1 = WtID id -> enginesTouched w1 = false ->
  forall w, did w1 = (did w ++ saved)%list ->
  let '(w', err) := with_record time (_ ← emit time create_start "info" ""; _ ← set_up time o c id wtRoot skip; emit_summary time) w1 in
  run_ends wtRoot skip w w' err.
Proof.
  intros Hc Hid Hpos Hr Ht w Hd.
  pose proof (bracketed _ w1 _ _ _ _ Hr Hpos Ht (gated_as_is c wtRoot skip _ _ _ (gated_set_up c wtRoot skip id) _)) as H.
  destruct (with_record time (_ ← emit time create_start "info" ""; _ ← set_up time o c id wtRoot skip; emit_summary time) w1) as [w' [e|]].
  - destruct H as (pre & Hp & Ha & Hs & Hf & Hdid). rewrite Hd, <- app_assoc in Hdid. by eapply ends_failed.
  - destruct H as (pre & Hp & Ha & [(-> & (Hb & Hpp & Hpa & H7) & Hs & Hdid)|(H7 & Hs & Hdid)]); rewrite Hd, <- app_assoc in Hdid.
    + by eapply ends_completed.
    + by eapply ends_cancelled.
Qed.
End Pieces.

(** C9: C0_finalize_ends: a run of finalize ends in one of six ways.  It did not
    run, and changed nothing; it failed before it knew the worktree, and wrote
    one event; it was put off because of a git operation; it was cancelled and
    the worktree is still shown as in preparation; it completed: it did every
    step of the plan, every phase of hooks passed, the databases are prepared,
    and the worktree is shown as ready; or it failed: it did the first steps of
    the plan, the worktree is shown as failed, and databases were recovered
    exactly when it had begun to prepare them.  However far it came, databases
    were prepared only after the hooks before the engines had passed, and the
    hooks after them ran only once the databases were prepared. *)
Theorem finalize_ends time o wtRoot skip w
  (prepare_quiet : Forall (fun e => e.1 ∉ WorktreeOpEventTypes) (prepare_events o))
  (row_known : forall id, identity o = Ok id -> (0 < WtID id)%Z) :
  let '(w', err) := finalizeWorktree time o wtRoot skip w in run_ends o wtRoot skip w w' err.
Proof.
  unfold finalizeWorktree, begin_run. set (w0 := fresh_run w).
  assert (Hearly : forall e, with_record time (fail e) w0 = (recordFinalizeFailure time e w0, Some e)) by done.
  destruct (claimed o) eqn:Ec; cbn [negb]; [|apply ends_not_run; [by left|done..]].
  assert (Hfail : forall e, run_ends o wtRoot skip w (recordFinalizeFailure time e w0) (Some e)).
  { intros e. eapply ends_not_found; [done..|]. done. }
  destruct (lock_error o) as [e|].
  { unfold unlessCancelled. destruct (cancelled o 0) eqn:E0; [apply ends_not_run; [right; by apply (cancelled_later o 0 1); [lia|]|done..]|apply Hfail]. }
  unfold finalize_body, find_worktree. destruct (index_error o) as [e|].
  { unfold unlessCancelled. destruct (cancelled o 1) eqn:E0; [apply ends_not_run; [by right|done..]|apply Hfail]. }
  destruct (config o) as [c|e] eqn:Hc; [|apply Hfail]. destruct (repo_error o) as [e|]; [apply Hfail|].
  destruct (identity o) as [id|e] eqn:Hid; [|apply Hfail]. specialize (row_known id eq_refl).
  set (w1 := put_row (WtID id) w0).
  assert (Hsave : exists w2, did w2 = (did w ++ saved o)%list /\ termWtID w2 = WtID id /\ enginesTouched w2 = false /\ log w2 = log w /\
            forall k : M (), (_ ← when (env_given o) (do_step SaveEnv); k) w1 = k w2).
  { unfold saved, when. destruct (env_given o); [by exists (put_step SaveEnv w1)|]. exists w1. by rewrite app_nil_r. }
  destruct Hsave as (w2 & Hd2 & Hr2 & Ht2 & Hl2 & Hk).
  assert (Hrun : forall m : Cfg * Identity -> M (), with_record time (_ ← mret (); ci ← (_ ← mret (); c ← need (Ok c); _ ← raise None; id ← need (Ok id);
            _ ← modify (put_row (WtID id)); mret (c, id)); m ci) w0 = with_record time (m (c, id)) w1) by done.
  rewrite Hrun. unfold with_record at 1. rewrite Hk. change (run_ends o wtRoot skip w) with (fun w' => run_ends o wtRoot skip w w').
  unfold deferIfGitOp. destruct (String.eqb_spec (git_op o) "") as [Hg|Hg].
  - pose proof (set_up_ends time o prepare_quiet c id wtRoot skip w2 Hc Hid row_known Hr2 Ht2 w Hd2) as H. exact H.
  - cbn. eapply (ends_deferred o wtRoot skip w _ id); [done..| |].
    + unfold shown. change (log (put_step StartWatcher (write time create_deferred "info" "" w2))) with (log (write time create_deferred "info" "" w2)).
      rewrite (written_op time (WtID id)); [done|done|done|by apply in_op].
    + cbn. by rewrite Hd2, <- app_assoc.
Qed.

(** *** The sweep *)
Lemma observe_elsewhere wt cur e : EWorktree e <> Some wt -> observe wt cur e = cur.
Proof. intros H. unfold observe, of_types. by rewrite (bool_decide_eq_false_2 _ H). Qed.

Lemma recover_error_quiet time wt l : quiet (stale_event time "worktree:recover:error" "warn" wt l).
Proof. apply not_op. reflexivity. Qed.

Lemma observe_neutral wt cur e : EventType e ∉ WorktreeOpEventTypes -> EventType e ∉ PrepareStateEventTypes -> observe wt cur e = cur.
Proof. intros H1 H2. unfold observe, of_types. by rewrite (bool_decide_eq_false_2 _ H1), (bool_decide_eq_false_2 _ H2), !andb_false_r. Qed.

(** one row of the sweep, seen from one worktree *)
Lemma sweep_row_state time loads was acc wt wt' :
  machine wt (sweep_row time loads was acc wt').1 =
    if decide (wt = wt') then if stale was wt then Some (stale_event time create_error "error" wt acc.1) else machine wt acc.1
    else machine wt acc.1.
Proof.
  destruct acc as [l rec]. unfold sweep_row. destruct (stale was wt') eqn:Es; cbn [negb fst].
  - set (e := stale_event time create_error "error" wt' l).
    assert (H : machine wt (if loads wt' then (l ++ [e])%list else ((l ++ [e]) ++ [stale_event time "worktree:recover:error" "warn" wt' (l ++ [e])])%list) =
                machine wt (l ++ [e])).
    { destruct (loads wt'); [done|]. rewrite machine_app. apply observe_neutral; cbn; apply (bool_decide_eq_false_1 _); vm_compute; reflexivity. }
    transitivity (machine wt (l ++ [e])); [rewrite <- H; by destruct (loads wt')|]. destruct (decide (wt = wt')) as [<-|Hne].
    + rewrite Es. apply machine_op. unfold of_types. by rewrite !bool_decide_eq_true_2 by (try apply in_op; done).
    + rewrite machine_app. apply observe_elsewhere. unfold e. cbn. congruence.
  - destruct (decide (wt = wt')) as [<-|]; [by rewrite Es|done].
Qed.

Lemma sweep_state time loads was rows acc wt :
  (machine wt (foldl (sweep_row time loads was) acc rows).1 = machine wt acc.1 /\ (wt ∉ rows \/ stale was wt = false)) \/
  (exists l, machine wt (foldl (sweep_row time loads was) acc rows).1 = Some (stale_event time create_error "error" wt l) /\ wt ∈ rows /\ stale was wt = true).
Proof.
  revert acc. induction rows as [|r rows IH]; intros acc; cbn [foldl]; [left; split; [done|left; apply not_elem_of_nil]|].
  destruct (IH (sweep_row time loads was acc r)) as [[E Hn]|(l & E & Hin & Hs)].
  - rewrite E, sweep_row_state. destruct (decide (wt = r)) as [<-|Hne].
    + destruct (stale was wt) eqn:Es; [right; eexists; split; [done|split; [by left|done]]|left; split; [done|by right]].
    + left. split; [done|]. destruct Hn as [Hn|Hn]; [left|by right]. by apply not_elem_of_cons.
  - right. exists l. split; [done|]. split; [by right|done].
Qed.

Lemma in_order_ids l x y : StronglySorted in_order l -> x ∈ l -> y ∈ l -> EID x = EID y -> x = y.
Proof.
  induction 1 as [|z l _ IH Hz]; [by intros ?%not_elem_of_nil|]. rewrite Forall_forall in Hz.
  intros [->|Hx]%elem_of_cons [->|Hy]%elem_of_cons E; [done| | |by apply IH].
  - apply Hz in Hy as [? _]. lia.
  - apply Hz in Hx as [? _]. lia.
Qed.

(** a worktree that is shown in preparation has a start as its last operation,
    and its last finalize event is this start or a cancellation *)
Lemma preparing_last wt l : StronglySorted in_order l -> Forall (fun e => 0 < EID e)%Z l -> shown wt l = Preparing ->
  exists e, LatestEvent wt finalize_types l = Some e /\ (EventType e = create_start \/ EventType e = create_cancel).
Proof.
  intros Hord Hpos Hs. unfold shown in Hs. rewrite <- state_is_machine in Hs by done.
  destruct (LatestWorktreeStateEvent wt l) as [e|] eqn:E; [|done].
  assert (Ht : EventType e = create_start).
  { unfold DeriveWorktreeState in Hs. destruct (String.eqb_spec (EventType e) "worktree:create:start"); [done|]. by repeat case_match. }
  assert (Hop : LatestEvent wt WorktreeOpEventTypes l = Some e).
  { unfold LatestWorktreeStateEvent in E. destruct (LatestEvent wt PrepareStateEventTypes l) as [p|] eqn:Ep.
    - apply LatestEvent_elem in Ep as [_ Hp]. unfold of_types in Hp. apply andb_prop in Hp as [_ Hp]. apply bool_decide_eq_true in Hp.
      assert (p <> e) by (intros ->; rewrite Ht in Hp; revert Hp; apply (bool_decide_eq_false_1 _); reflexivity).
      destruct (LatestEvent wt WorktreeOpEventTypes l) as [op|]; [|congruence]. unfold WorktreeStateEvent in E. case_match; congruence.
    - destruct (LatestEvent wt WorktreeOpEventTypes l) as [op|]; [|done]. unfold WorktreeStateEvent in E. case_match; congruence. }
  apply LatestEvent_elem in Hop as He. destruct He as [He Heo].
  assert (Hwt : EWorktree e = Some wt) by (unfold of_types in Heo; apply andb_prop in Heo as [Heo _]; by apply bool_decide_eq_true in Heo).
  pose proof (LatestEvent_best wt finalize_types l) as Hf. pose proof (LatestEvent_best wt WorktreeOpEventTypes l) as Ho. rewrite Hop in Ho.
  destruct Ho as (_ & _ & Hbest).
  assert (Hef : of_types wt finalize_types e = true).
  { unfold of_types. rewrite bool_decide_eq_true_2 by done. apply bool_decide_eq_true. rewrite Ht. by left. }
  destruct (LatestEvent wt finalize_types l) as [x|]; [|specialize (Hf e He); congruence]. destruct Hf as (Hx & Hxf & Hmax).
  exists x. split; [done|]. specialize (Hmax e He Hef).
  destruct (bool_decide (EventType x ∈ WorktreeOpEventTypes)) eqn:Ex.
  - left. unfold of_types in Hxf. apply andb_prop in Hxf as [Hxw _].
    assert (Hxo : of_types wt WorktreeOpEventTypes x = true) by (unfold of_types; by rewrite Hxw, Ex).
    specialize (Hbest x Hx Hxo). replace x with e; [done|]. apply (in_order_ids l); [done..|].
    unfold later in Hmax, Hbest. bools. lia.
  - right. unfold of_types in Hxf. apply andb_prop in Hxf as [_ Hxf]. apply bool_decide_eq_true in Hxf. apply bool_decide_eq_false in Ex.
    unfold finalize_types in Hxf. repeat (apply elem_of_cons in Hxf as [Hxf|Hxf]; [|]); try done; try (by apply not_elem_of_nil in Hxf);
      exfalso; apply Ex; rewrite Hxf; by apply in_op.
Qed.

Lemma sweep_recovers time loads was rows acc :
  (foldl (sweep_row time loads was) acc rows).2 = (acc.2 ++ List.filter (fun wt => stale was wt && loads wt) rows)%list.
Proof.
  revert acc. induction rows as [|r rows IH]; intros acc; cbn [foldl List.filter]; [by rewrite app_nil_r|]. rewrite IH. destruct acc as [l rec].
  unfold sweep_row. destruct (stale was r); cbn [negb andb]; [|done]. destruct (loads r); cbn [snd]; [|done]. by rewrite <- app_assoc.
Qed.

(** C21: the sweep at the start of the daemon, when the store answers its two
    queries: it shows as failed the active worktrees whose last finalize event
    is a start, recovers the databases of those whose configuration loads and
    of no others, and leaves what is shown of every other worktree as it was.
    So an active worktree that was in preparation is failed afterwards, but for
    one: the one whose finalize was cancelled and wrote so, which is still in
    preparation.  When the store does not list the rows, or does not answer for
    their latest events, nothing is swept and nothing recovered. *)
Theorem sweep_clears_preparing time loads listed queried l
  (Hord : StronglySorted in_order l) (Hpos : Forall (fun e => 0 < EID e)%Z l) :
  let '(l', recovered) := SweepStalePreparing time loads listed queried l in
  match listed, queried with
  | Some rows, true =>
      recovered = List.filter (fun wt => stale l wt && loads wt) rows /\
      (forall wt, wt ∈ rows -> stale l wt = true -> shown wt l' = Error) /\
      (forall wt, wt ∉ rows \/ stale l wt = false -> shown wt l' = shown wt l) /\
      (forall wt, wt ∈ rows -> shown wt l' = Preparing -> exists e, LatestEvent wt finalize_types l = Some e /\ EventType e = create_cancel)
  | _, _ => l' = l /\ recovered = []
  end.
Proof.
  destruct listed as [rows|]; [|done]. destruct queried; [|done].
  pose proof (sweep_recovers time loads l rows (l, [])) as Hrec. pose proof (sweep_state time loads l rows (l, [])) as Hst.
  cbn [SweepStalePreparing negb]. destruct (foldl (sweep_row time loads l) (l, []) rows) as [l' recovered]. cbn [fst snd app] in *.
  split; [done|]. unfold shown. split; [|split].
  - intros wt Hin Hs. destruct (Hst wt) as [[_ [?|?]]|(l1 & -> & _ & _)]; [done|congruence|done].
  - intros wt Hn. destruct (Hst wt) as [[-> _]|(l1 & _ & Hin & Hs)]; [done|]. destruct Hn as [?|?]; [done|congruence].
  - intros wt Hin Hp. destruct (Hst wt) as [[E Hn]|(l1 & E & _ & _)]; rewrite E in Hp; [|done].
    destruct (preparing_last wt l Hord Hpos Hp) as (e & He & [Ht|Ht]); [|by exists e]. exfalso.
    destruct Hn as [?|Hn]; [done|]. unfold stale in Hn. rewrite He, Ht in Hn. done.
Qed.

(** *** The run after a change *)
Definition neutral (e : Event) : Prop := EventType e ∉ WorktreeOpEventTypes /\ EventType e ∉ PrepareStateEventTypes.

Lemma LatestEvent_neutral wt types l es : Forall (fun e => EventType e ∉ types) es -> LatestEvent wt types (l ++ es) = LatestEvent wt types l.
Proof.
  intros H. unfold LatestEvent, pick_best. rewrite foldl_app. set (o := foldl _ None l). clearbody o.
  induction H as [|e es He _ IH]; [done|]. cbn [foldl]. unfold pick_step at 2. unfold of_types at 2. by rewrite (bool_decide_eq_false_2 _ He), andb_false_r.
Qed.

Lemma state_neutral wt l es : Forall neutral es ->
  LatestWorktreeStateEvent wt (l ++ es) = LatestWorktreeStateEvent wt l /\ machine wt (l ++ es) = machine wt l.
Proof.
  intros H. split.
  - unfold LatestWorktreeStateEvent. rewrite !LatestEvent_neutral; [done|eapply Forall_impl; [exact H|]; by intros e []..].
  - rewrite machine_app. generalize (machine wt l). induction H as [|e es [H1 H2] _ IH]; intros cur; [done|]. cbn [foldl]. by rewrite observe_neutral.
Qed.

Lemma emits_log time l w : exists es, (emits time l w).1 = put_log (log w ++ es) w /\ map EventType es = map fst l.
Proof.
  cbn [emits fst]. revert w. induction l as [|e l IH]; intros w; cbn [foldl]; [exists []; by destruct w; rewrite app_nil_r|].
  destruct (IH (write time e.1 e.2 "" w)) as (es & -> & Ht). exists (new_event time e.1 e.2 "" w :: es). cbn. rewrite <- app_assoc. by rewrite Ht.
Qed.

Section Watch.
Context (time : nat -> Z) (o : Outside).

(** the patches before the run, which do not change what is shown *)
Lemma patches_before c b w :
  exists w1, (forall (k : M ()), (_ ← when b (applyFinalizePatches time o c); k) w = k w1) /\
    did w1 = (did w ++ if b then patch_steps o c else [])%list /\ termWtID w1 = termWtID w /\ enginesTouched w1 = enginesTouched w /\
    exists es, log w1 = (log w ++ es)%list /\ Forall neutral es.
Proof.
  destruct b; [|exists w; split_and!; [done|by rewrite app_nil_r|done|done|exists []; by rewrite app_nil_r]].
  assert (Hn : forall e, EventType e = "patches:apply" -> neutral e).
  { intros e He. split; rewrite He; apply (bool_decide_eq_false_1 _); reflexivity. }
  unfold when, applyFinalizePatches, patch_steps. destruct (ports_read o).
  - set (l := map (fun _ => ("patches:apply", "info")) (List.filter (patch_updates o) (Patches c))).
    destruct (emits_log time l (put_step (ApplyPatches (Patches c)) w)) as (es & He & Ht). exists (emits time l (put_step (ApplyPatches (Patches c)) w)).1.
    split; [done|]. rewrite He. split_and!; [done..|]. exists es. split; [done|]. apply Forall_forall. intros e Hin. apply Hn.
    assert (Hm : EventType e ∈ map EventType es) by (apply list_elem_of_fmap; by exists e). rewrite Ht in Hm. unfold l in Hm.
    rewrite map_map in Hm. apply list_elem_of_fmap in Hm as (p & -> & _). done.
  - exists (write time "patches:apply" "warn" "" w). split_and!; [done|by rewrite app_nil_r|done|done|].
    eexists [_]. split; [done|]. constructor; [by apply Hn|done].
Qed.

Hypothesis prepare_quiet : Forall (fun e => e.1 ∉ WorktreeOpEventTypes) (prepare_events o).

Lemma spec_watch_set_up c wtRoot only :
  spec o (watch_set_up time o c wtRoot only) (Prepare only :: phase_steps after_engines (OnCreateAfterEngines c))
    (fun _ => prepare_error o = None /\ phase_passes o after_engines wtRoot (OnCreateAfterEngines c)).
Proof.
  unfold watch_set_up. change (?x :: ?l) with ([x] ++ [] ++ l)%list at 1. eapply spec_seq; [by apply spec_prepare|].
  eapply (spec_bind _ _ _ _ _ (fun _ => prepare_error o = None)).
  { destruct (prepare_error o) as [f|]; [|eapply spec_weaken; [apply spec_ret|done]]. unfold unlessCancelled.
    destruct (cancelled o 6) eqn:E6; [apply spec_stop; by apply (cancelled_later o 6 7); [lia|]|apply spec_fail]. }
  intros ? Hp. destruct (cancelled o 7) eqn:E7; [by apply spec_stop|]. eapply spec_weaken; [apply spec_phase|]. by intros.
Qed.

Definition watch_plan (c : Cfg) (prior : option Event) (dbIdx : Z) : list step :=
  Prepare (watchRunOptions prior dbIdx (Databases c)) :: phase_steps after_engines (OnCreateAfterEngines c).
Definition patched (c : Cfg) (id : Identity) : list step := if patches_now c id then patch_steps o c else [].

(** how a run after a change ends *)
Inductive watch_ends (wtRoot : string) (dbIdx : Z) (w w' : World) : option reason -> Prop :=
| watch_not_run :
    claimed o = false \/ cancelled o 1 = true -> log w' = log w -> did w' = did w -> watch_ends wtRoot dbIdx w w' None
| watch_not_found e ev :
    log w' = (log w ++ [ev])%list -> EventType ev = create_error -> EWorktree ev = None -> did w' = did w -> watch_ends wtRoot dbIdx w w' (Some e)
| watch_deferred id :
    identity o = Ok id -> git_op o <> "" -> shown (WtID id) (log w') = Deferred -> did w' = did w -> watch_ends wtRoot dbIdx w w' None
| watch_left c id :
    config o = Ok c -> identity o = Ok id ->
    Databases c = 0%nat \/ cancelled o 4 = true \/ FailedBeforeEngines (LatestWorktreeStateEvent (WtID id) (log w)) = true ->
    shown (WtID id) (log w') = shown (WtID id) (log w) -> did w' = (did w ++ patched c id)%list -> watch_ends wtRoot dbIdx w w' None
| watch_cancelled c id pre :
    config o = Ok c -> identity o = Ok id -> cancelled o 7 = true -> shown (WtID id) (log w') = Preparing ->
    pre `prefix_of` watch_plan c (LatestWorktreeStateEvent (WtID id) (log w)) dbIdx ->
    did w' = (did w ++ patched c id ++ pre)%list -> watch_ends wtRoot dbIdx w w' None
| watch_completed c id :
    config o = Ok c -> identity o = Ok id -> shown (WtID id) (log w') = Ready -> prepare_error o = None ->
    phase_passes o after_engines wtRoot (OnCreateAfterEngines c) ->
    did w' = (did w ++ patched c id ++ watch_plan c (LatestWorktreeStateEvent (WtID id) (log w)) dbIdx)%list -> watch_ends wtRoot dbIdx w w' None
| watch_failed c id pre e :
    config o = Ok c -> identity o = Ok id -> shown (WtID id) (log w') = Error ->
    pre `prefix_of` watch_plan c (LatestWorktreeStateEvent (WtID id) (log w)) dbIdx ->
    did w' = (did w ++ patched c id ++ pre ++ recovery e pre)%list -> watch_ends wtRoot dbIdx w w' (Some e).

(** the part of the run that has its row *)
Lemma watch_set_up_ends c id wtRoot dbIdx w w1 :
  let prior := LatestWorktreeStateEvent (WtID id) (log w) in
  config o = Ok c -> identity o = Ok id -> (0 < WtID id)%Z -> termWtID w1 = WtID id -> enginesTouched w1 = false ->
  did w1 = (did w ++ patched c id)%list ->
  let '(w', err) := with_record time (_ ← emit time create_start "info" "";
                                      _ ← watch_set_up time o c wtRoot (watchRunOptions prior dbIdx (Databases c)); emit_summary time) w1 in
  watch_ends wtRoot dbIdx w w' err.
Proof.
  cbn zeta. intros Hc Hid Hpos Hr Ht Hd. set (only := watchRunOptions _ _ _).
  assert (Hm : exists pre, pre `prefix_of` watch_plan c (LatestWorktreeStateEvent (WtID id) (log w)) dbIdx /\
                 eff (write time create_start "info" "" w1) (watch_set_up time o c wtRoot only (write time create_start "info" "" w1)).1 pre /\ True /\
                 match (watch_set_up time o c wtRoot only (write time create_start "info" "" w1)).2 with
                 | Next _ => pre = watch_plan c (LatestWorktreeStateEvent (WtID id) (log w)) dbIdx /\
                             (prepare_error o = None /\ phase_passes o after_engines wtRoot (OnCreateAfterEngines c))
                 | Stop => cancelled o 7 = true | Fail _ => True end).
  { destruct (spec_watch_set_up c wtRoot only (write time create_start "info" "" w1)) as (pre & Hp & He & Hres). by exists pre. }
  pose proof (bracketed time o _ w1 _ _ _ (fun _ => True) Hr Hpos Ht Hm) as H.
  destruct (with_record time (_ ← emit time create_start "info" ""; _ ← watch_set_up time o c wtRoot only; emit_summary time) w1) as [w' [e|]].
  - destruct H as (pre & Hp & _ & Hs & _ & Hdid). rewrite Hd, <- app_assoc in Hdid. by eapply watch_failed.
  - destruct H as (pre & Hp & _ & [(-> & (Hpe & Hpa) & Hs & Hdid)|(H7 & Hs & Hdid)]); rewrite Hd, <- app_assoc in Hdid.
    + by eapply watch_completed.
    + by eapply watch_cancelled.
Qed.
End Watch.


(** *** The run in another process *)
Section LocalRun.
Context (time : nat -> Z) (o : LocalOutside).
Hypothesis prepare_quiet : Forall (fun e => e.1 ∉ WorktreeOpEventTypes) (prepare_events (outside o)).

Lemma spec_runTrigger trigger wtPath actions :
  spec (outside o) (runTrigger time o trigger wtPath actions) (phase_steps trigger actions) (fun _ => True).
Proof.
  unfold runTrigger, phase_steps. destruct actions as [|a actions]; [eapply spec_weaken; [apply spec_ret|done]|].
  set (acts := a :: actions). change [RunPhase trigger] with ([] ++ [RunPhase trigger] ++ [])%list.
  eapply spec_seq; [by apply spec_emit, not_op|]. eapply spec_seq; [by apply spec_step|].
  destruct (RunHooks (machine_of (outside o) trigger) trigger acts wtPath true) as [out err].
  change (@nil step) with ([] ++ [] ++ [] ++ [] ++ @nil step)%list.
  eapply spec_bind; [apply spec_get|intros hs _]. eapply spec_bind; [apply spec_get|intros wt _].
  destruct (PersistOutcome _ wt trigger _ _ out hs) as [[hs' ids] ev].
  eapply spec_seq; [apply spec_hooks|].
  eapply (spec_seq _ _ _ _ _ (fun _ => True)).
  { destruct ev as [p|]; [by apply spec_emit, not_op|]. eapply spec_weaken; [apply spec_ret|done]. }
  destruct err as [e|]; [apply spec_fail|]. eapply spec_weaken; [apply spec_ret|done].
Qed.

Definition local_files (c : Cfg) (isMain : bool) : list step :=
  if isMain then []
  else match link_paths (outside o) with
       | None => []
       | Some links => [BringIn "link" links; BringIn "copy" (Copies c); AllocatePorts; ApplyPatches (Patches c)]
       end.
Definition local_plan (c : Cfg) (isMain skip : bool) : list step :=
  (local_files c isMain ++ phase_steps before_engines (OnCreateBeforeEngines c) ++
   (if prepares_now c skip then [Prepare None] else []) ++ phase_steps after_engines (OnCreateAfterEngines c))%list.

Lemma spec_maybe_fail b e : spec (outside o) (when b (fail e)) [] (fun _ => b = false).
Proof. destruct b; [apply spec_fail|]. eapply spec_weaken; [apply spec_ret|done]. Qed.

Lemma spec_bring_local mode paths : spec (outside o) (bring_local o mode paths) [BringIn mode paths] (fun _ => True).
Proof.
  unfold bring_local. change [BringIn mode paths] with ([BringIn mode paths] ++ [])%list. eapply spec_seq; [by apply spec_step|].
  destruct (brings (outside o) mode); [eapply spec_weaken; [apply spec_ret|done]|apply spec_fail].
Qed.

Lemma spec_local c isMain wtPath skip :
  spec (outside o) (runLocalFinalizeSteps time o c isMain wtPath skip) (local_plan c isMain skip) (fun _ => prepare_passes (outside o) c skip).
Proof.
  unfold runLocalFinalizeSteps, local_plan. apply (spec_seq _ _ _ _ _ (fun _ => True)).
  { unfold local_files. destruct isMain; [eapply spec_weaken; [apply spec_ret|done]|]. destruct (link_paths (outside o)) as [links|]; [|apply spec_fail].
    change [BringIn "link" links; BringIn "copy" (Copies c); AllocatePorts; ApplyPatches (Patches c)]
      with ([BringIn "link" links] ++ [BringIn "copy" (Copies c)] ++ [AllocatePorts] ++ [] ++ [ApplyPatches (Patches c)] ++ [])%list.
    eapply spec_seq; [apply spec_bring_local|]. eapply spec_seq; [apply spec_bring_local|]. eapply spec_seq; [by apply spec_step|].
    eapply spec_seq; [apply spec_maybe_fail|]. eapply spec_seq; [by apply spec_step|]. eapply spec_weaken; [apply spec_maybe_fail|done]. }
  eapply spec_seq; [apply spec_runTrigger|].
  eapply (spec_bind _ _ _ _ _ (fun _ => prepare_passes (outside o) c skip)).
  { unfold prepare_passes, prepares_now. rewrite <- negb_orb. destruct (skip || Nat.eqb (Databases c) 0); cbn [negb].
    - eapply spec_weaken; [apply spec_ret|done].
    - change [Prepare None] with ([Prepare None] ++ [])%list. eapply spec_seq; [by apply spec_prepare|].
      destruct (prepare_error (outside o)); cbn; [apply spec_fail|]. eapply spec_weaken; [apply spec_ret|done]. }
  intros ? Hp. eapply spec_weaken; [apply spec_runTrigger|done].
Qed.
End LocalRun.

(** the same answers, with a context that is never done *)
Definition undisturbed (x : Outside) : Outside :=
  {| claimed := claimed x; lock_error := lock_error x; index_error := index_error x; config := config x; repo_error := repo_error x;
     identity := identity x; env_given := env_given x; git_op := git_op x; settle_error := settle_error x; has_watcher := has_watcher x;
     watcher_starts := watcher_starts x; link_paths := link_paths x; brings := brings x; ports_allocated := ports_allocated x;
     ports_read := ports_read x; patch_updates := patch_updates x; machine_of := machine_of x; hook_faults := hook_faults x;
     hook_times := hook_times x; prepare_events := prepare_events x; prepare_error := prepare_error x; done_from := 8 |}.

(** C0_local_finalize_ends: a finalize in another process, once it has the
    lock, shows the worktree as ready when it returns no error, and has then
    done its whole plan and prepared the databases; when it returns an error it
    shows the worktree as failed and has done the first steps of the plan.  It
    recovers no databases, and it never ends in between. *)
Theorem local_finalize_ends time o c id wtPath skip w
  (prepare_quiet : Forall (fun e => e.1 ∉ WorktreeOpEventTypes) (prepare_events (outside o)))
  (Hpos : (0 < WtID id)%Z) (Hlock : lock_error (outside o) = None) :
  let '(w', err) := RunLocalFinalize time o c id wtPath skip w in
  exists pre, pre `prefix_of` local_plan o c (IsMain id) skip /\ did w' = (did w ++ pre)%list /\
    match err with
    | None => pre = local_plan o c (IsMain id) skip /\ prepare_passes (outside o) c skip /\ shown (WtID id) (log w') = Ready
    | Some _ => shown (WtID id) (log w') = Error /\ FailedBeforeEngines (machine (WtID id) (log w')) = negb (existsb prepares pre)
    end.
Proof.
  unfold RunLocalFinalize. rewrite Hlock. set (w1 := put_row (WtID id) (fresh_run w)). unfold emit, modify, mbind, M_bind.
  set (w2 := write time create_start "info" "" w1). set (o' := {| outside := undisturbed (outside o); ports_error := ports_error o; patch_error := patch_error o |}).
  destruct (spec_local time o' prepare_quiet c (IsMain id) wtPath skip w2) as (pre & Hp & He & Hres).
  change (runLocalFinalizeSteps time o' c (IsMain id) wtPath skip) with (runLocalFinalizeSteps time o c (IsMain id) wtPath skip) in He, Hres.
  change (local_plan o' c (IsMain id) skip) with (local_plan o c (IsMain id) skip) in Hp, Hres.
  destruct He as [_ Hd Hr Ht]. change (did w2) with (did w) in Hd. change (termWtID w2) with (WtID id) in Hr. change (enginesTouched w2) with false in Ht.
  destruct (runLocalFinalizeSteps time o c (IsMain id) wtPath skip w2) as [w3 [u| |e]]; cbn [fst snd] in *; [| |exists pre; split; [done|]; split; [done|]].
  - destruct Hres as [-> Hpp]. exists (local_plan o c (IsMain id) skip). split_and!; [done|done|done|done|].
    unfold shown. rewrite (written_op time (WtID id)); [done..|by apply in_op].
  - done.
  - unfold shown. rewrite (written_op time (WtID id)); [|done..|by apply in_op]. rewrite Ht. by destruct (existsb prepares pre).
Qed.

(** ** Examples *)
Definition demo_before : Action := demo_step "composer install" false.
Definition demo_cfg : Cfg :=
  {| Copies := [".env"]; hasPorts := true; Patches := [".env"]; Databases := 2;
     OnCreateBeforeEngines := [demo_before]; OnCreateAfterEngines := [demo_step "npm ci" true] |}.
Definition demo_id : Identity := {| WtID := 4; IsMain := false |}.
(** a run whose context is done from the given checkpoint on *)
Definition demo_run (m : Machine) (settle : option reason) (from : nat) : Outside :=
  {| claimed := true; lock_error := None; index_error := None; config := Ok demo_cfg; repo_error := None; identity := Ok demo_id;
     env_given := true; git_op := ""; settle_error := settle; has_watcher := false; watcher_starts := true; link_paths := Some [];
     brings := fun _ => true; ports_allocated := Some true; ports_read := true; patch_updates := fun _ => true; machine_of := fun _ => m;
     hook_faults := fun _ => no_faults; hook_times := fun _ => (10, 20)%Z; prepare_events := [("prepare:start", "info"); ("prepare:end", "info")];
     prepare_error := None; done_from := from |}.
Definition demo_world : World :=
  {| log := []; hookRuns := empty_store; did := []; enginesTouched := false; termWtID := 0; warnings := [] |}.
Definition clock (n : nat) : Z := Z.of_nat n.
Definition demo_finalize (m : Machine) (settle : option reason) (from : nat) : World * option reason :=
  finalizeWorktree clock (demo_run m settle from) "/wt" false demo_world.

Lemma demo_quiet m settle from : Forall (fun e => e.1 ∉ WorktreeOpEventTypes) (prepare_events (demo_run m settle from)).
Proof. repeat constructor; by apply not_op. Qed.

Lemma finalize_ends_witness :
  (shown 4 (log (demo_finalize demo_machine None 8).1) = Ready /\
   did (demo_finalize demo_machine None 8).1 =
     [SaveEnv; StartWatcher; BringIn "copy" [".env"]; AllocatePorts; ApplyPatches [".env"]; RunPhase "create-before-engines"; Prepare None;
      RunPhase "create-after-engines"]) /\
  (let '(w', err) := finalizeWorktree clock (demo_run demo_machine None 8) "/wt" false demo_world in
   run_ends (demo_run demo_machine None 8) "/wt" false demo_world w' err).
Proof.
  split; [split; vm_compute; reflexivity|].
  refine (finalize_ends clock (demo_run demo_machine None 8) "/wt" false demo_world (demo_quiet demo_machine None 8) _).
  intros id Hid. injection Hid as <-. reflexivity.
Defined.

(** the deadline passes while the databases are prepared: no event ends the
    run, no database is recovered, and the worktree stays in preparation until
    the daemon is started again; when it passes just after that, even that does
    not help *)
Example timed_out_stays_preparing :
  let '(w6, err6) := demo_finalize demo_machine None 6 in
  let '(w7, err7) := demo_finalize demo_machine None 7 in
  err6 = None /\ shown 4 (log w6) = Preparing /\ shown 4 (SweepStalePreparing clock (fun _ => true) (Some [4%Z]) true (log w6)).1 = Error /\
  err7 = None /\ shown 4 (log w7) = Preparing /\ SweepStalePreparing clock (fun _ => true) (Some [4%Z]) true (log w7) = (log w7, []) /\
  existsb (fun s => match s with Recover _ => true | _ => false end) (did w6 ++ did w7) = false.
Proof. vm_compute. by split_and!. Qed.

(** a teardown that cancels a run while it waits for the checkout makes it
    fail, and not stop *)
Example cancelled_checkout_is_an_error :
  let '(w', err) := demo_finalize demo_machine (Some ContextDone) 2 in
  err = Some ContextDone /\ shown 4 (log w') = Error.
Proof. vm_compute. by split_and!. Qed.

(** hooks that fail end the run of the daemon, and not the run of another
    process, which prepares the databases and says that it completed *)
Definition failing_machine : Machine :=
  {| mkdir := fun _ => true; env_loaded := true; container := fun _ _ _ _ => None; opens := fun _ => true; spawn := fun _ => Some 7%Z;
     ends := fun _ => Exited 1; read_log := fun _ => "" |}.
Example local_ignores_failed_hooks :
  let '(wd, errd) := demo_finalize failing_machine None 8 in
  let '(wl, errl) := RunLocalFinalize clock {| outside := demo_run failing_machine None 8; ports_error := false; patch_error := false |}
                       demo_cfg demo_id "/wt" false demo_world in
  shown 4 (log wd) = Error /\ existsb prepares (did wd) = false /\
  errl = None /\ shown 4 (log wl) = Ready /\ existsb prepares (did wl) = true.
Proof. vm_compute. by split_and!. Qed.

(** a worktree that waits for a merge is failed by the sweep when the run
    before left no terminal event *)
Example sweep_fails_deferred :
  let w := fresh_run (demo_finalize demo_machine None 6).1 in
  let l := log (write clock create_deferred "info" "" (put_row 4 w)) in
  shown 4 l = Deferred /\ shown 4 (SweepStalePreparing clock (fun _ => true) (Some [4%Z]) true l).1 = Error.
Proof. vm_compute. by split_and!. Qed.

Definition ready_log : list Event := log (demo_finalize demo_machine None 8).1.
Definition ready_world : World :=
  {| log := ready_log; hookRuns := empty_store; did := []; enginesTouched := false; termWtID := 0; warnings := [] |}.


(** the log of a run that a deadline stopped *)
Definition open_log : list Event := log (demo_finalize demo_machine None 6).1.
Lemma open_log_ordered : StronglySorted in_order open_log /\ Forall (fun e => 0 < EID e)%Z open_log.
Proof. vm_compute. split; repeat constructor; discriminate. Qed.

Lemma sweep_clears_preparing_witness :
  shown 4 open_log = Preparing /\
  (let '(l', recovered) := SweepStalePreparing clock (fun _ => true) (Some [4%Z; 5%Z]) true open_log in
   recovered = List.filter (fun wt => stale open_log wt && true) [4%Z; 5%Z] /\
   (forall wt, wt ∈ [4%Z; 5%Z] -> stale open_log wt = true -> shown wt l' = Error) /\
   (forall wt, wt ∉ [4%Z; 5%Z] \/ stale open_log wt = false -> shown wt l' = shown wt open_log) /\
   (forall wt, wt ∈ [4%Z; 5%Z] -> shown wt l' = Preparing ->
      exists e, LatestEvent wt finalize_types open_log = Some e /\ EventType e = create_cancel)).
Proof.
  split; [vm_compute; reflexivity|].
  refine (sweep_clears_preparing clock (fun _ => true) (Some [4%Z; 5%Z]) true open_log (proj1 open_log_ordered) (proj2 open_log_ordered)).
Defined.

Lemma local_finalize_ends_witness :
  shown 4 (log (RunLocalFinalize clock {| outside := demo_run demo_machine None 8; ports_error := false; patch_error := false |}
                  demo_cfg demo_id "/wt" false demo_world).1) = Ready /\
  (let o := {| outside := demo_run demo_machine None 8; ports_error := false; patch_error := false |} in
   let '(w', err) := RunLocalFinalize clock o demo_cfg demo_id "/wt" false demo_world in
   exists pre, pre `prefix_of` local_plan o demo_cfg false false /\ did w' = (did demo_world ++ pre)%list /\
     match err with
     | None => pre = local_plan o demo_cfg false false /\ prepare_passes (outside o) demo_cfg false /\ shown 4 (log w') = Ready
     | Some _ => shown 4 (log w') = Error /\ FailedBeforeEngines (machine 4 (log w')) = negb (existsb prepares pre)
     end).
Proof.
  split; [vm_compute; reflexivity|].
  refine (local_finalize_ends clock {| outside := demo_run demo_machine None 8; ports_error := false; patch_error := false |}
            demo_cfg demo_id "/wt" false demo_world (demo_quiet demo_machine None 8) _ _); reflexivity.
Defined.
