(* ===== verification/Teardown.v ===== *)
(** * The teardown of the daemon: [daemon/finalize.go], [reap.go],
      [interrupted_teardown.go]

    What [TeardownWorktree] does and in which order: the hooks, the databases
    and what the registry keeps of their outcome, the checkout, which goes to
    the trash or to git, and the registry; where a shutdown or a crash stops it;
    and the resumption of what was stopped.  Its events go through the batcher
    ([EventLog.Batch]): they are in the log once a flush has committed them, and
    a crash loses the rest.  The registry, the log and the question whether a
    worktree is being torn down are those of [Registry] and [WtDelete]. *)
From stdpp Require Import base strings list gmap sets sorting.
From Stdlib Require Import ZArith Lia.
From S2P Require Import Prelude GoStrings Registry EventLog WtDelete.
Import Log.
#[local] Open Scope treeman_scope.

(** what is tried outside of the registry, and whether it succeeds *)
Inductive deed :=
| RunPhase (trigger : string) (ok : bool) | DropAll (ok : bool) | ClearMarkers (ok : bool) | MoveToTrash (ok : bool) | GitPrune
| GitRemoves (ok : bool) | RemoveLeftovers | PruneEmptyParents | FreePorts (ok : bool) | ScheduleReap.
#[global] Instance deed_eq_dec : EqDecision deed.
Proof. solve_decision. Defined.

(** [DNote]: the column [teardown_error] of the row *)
Inductive daction := DEvent (type level : string) | DDo (d : deed) | DNote (error : option string) | DMark.
#[global] Instance daction_eq_dec : EqDecision daction.
Proof. solve_decision. Defined.

(** the registry, the batcher with the rows it has committed since the daemon
    started, and what was done outside of them *)
Record DWorld := { reg : DB; batcher : Batch.Store (Row := string * string); deeds : list deed }.

Definition dact (now wt : Z) (w : DWorld) (a : daction) : DWorld :=
  match a with
  | DEvent type level => {| reg := reg w; batcher := Batch.WriteEvent (type, level) (batcher w); deeds := deeds w |}
  | DDo d => {| reg := reg w; batcher := batcher w; deeds := deeds w ++ [d] |}
  | DNote (Some msg) => {| reg := SetTeardownError wt msg (reg w); batcher := batcher w; deeds := deeds w |}
  | DNote None => {| reg := ClearTeardownError wt (reg w); batcher := batcher w; deeds := deeds w |}
  | DMark => {| reg := MarkWorktreeDeleted now wt (reg w); batcher := batcher w; deeds := deeds w |}
  end.

(** what happens: the calls of the teardown and, in between, the two halves of
    the flushes *)
Inductive hstep := HCall (a : daction) | HTake | HCommit (o : Batch.Outcome (Row := string * string)).
Definition happen (now wt : Z) (w : DWorld) (e : hstep) : DWorld :=
  match e with
  | HCall a => dact now wt w a
  | HTake => {| reg := reg w; batcher := Batch.act Batch.ATake (batcher w); deeds := deeds w |}
  | HCommit o => {| reg := reg w; batcher := Batch.act (Batch.ACommit o) (batcher w); deeds := deeds w |}
  end.
Definition calls (h : list hstep) : list daction := omap (fun e => match e with HCall a => Some a | _ => None end) h.

(** the log that the next daemon reads: what was there and what was committed *)
Definition insert_event (now wt : Z) (log : list Event) (row : string * string) : list Event :=
  events (write_event now wt row.1 row.2 {| db := empty; events := log; did := [] |}).
Definition log_after (now wt : Z) (log : list Event) (w : DWorld) : list Event :=
  foldl (insert_event now wt) log (Batch.table (batcher w)).

(** what the configuration declares and the others answer; [drop_error]: the
    failure of the drops; the shutdown of the daemon is seen from a checkpoint
    on *)
Record Site := {
  loads : bool; hooks_before : bool; has_databases : bool; hooks_after : bool; hook_ok : string -> bool;
  drop_error : option string; clears_markers : bool; notes_error : bool;
  present : bool; trashes : bool; removes : bool; frees_ports : bool; marks_row : bool;
  shutdown_from : nat
}.
Definition shut (s : Site) (checkpoint : nat) : bool := Nat.leb (shutdown_from s) checkpoint.

Inductive teardown_error := ConfigNotLoaded | ShutDown | NotRemoved | NotMarked.
#[global] Instance teardown_error_eq_dec : EqDecision teardown_error.
Proof. solve_decision. Defined.

(** [recordTeardownOutcome]; its own failure is logged only *)
Definition recordTeardownOutcome (s : Site) : list daction :=
  match drop_error s with
  | Some msg => if notes_error s then [DNote (Some msg)] else []
  | None => DDo (ClearMarkers (clears_markers s)) :: if clears_markers s && notes_error s then [DNote None] else []
  end.
(** [TeardownDatabases] *)
Definition TeardownDatabases (s : Site) : list daction :=
  DDo (DropAll (bool_decide (drop_error s = None))) :: recordTeardownOutcome s.
Definition run_phase (s : Site) (trigger : string) : daction := DDo (RunPhase trigger (hook_ok s trigger)).

(** [runTeardownBeforeRemoval]; what the hooks and the databases answer is
    logged and does not stop it *)
Definition runTeardownBeforeRemoval (s : Site) : list daction * option teardown_error :=
  let before := if hooks_before s then [run_phase s "delete-before-engines"] else [] in
  if shut s 1 then (before, Some ShutDown)
  else
    let drop := if has_databases s then TeardownDatabases s else [] in
    if shut s 2 then (before ++ drop, Some ShutDown)%list
    else
      let after := if hooks_after s then [run_phase s "delete-after-engines"] else [] in
      (before ++ drop ++ after, if shut s 3 then Some ShutDown else None)%list.

(** [removeWorktreeViaTrash]: what it does, whether there is something in the
    trash, and whether it succeeds *)
Definition removeWorktreeViaTrash (s : Site) : list deed * bool * bool :=
  if negb (present s) then ([GitPrune], false, true)
  else if trashes s then ([MoveToTrash true; GitPrune], true, true)
  else if removes s then ([MoveToTrash false; GitRemoves true; RemoveLeftovers], false, true)
  else ([MoveToTrash false; GitRemoves false], false, false).

(** the part of [TeardownWorktree] from the start event on, and its error *)
Definition teardown_run (force : bool) (s : Site) : list daction * option teardown_error :=
  if negb (loads s) then ([], Some (if shut s 0 then ShutDown else ConfigNotLoaded))
  else
    match runTeardownBeforeRemoval s with
    | (acts, Some e) => (acts, Some e)
    | (acts, None) =>
        let '(rs, trashed, ok) := removeWorktreeViaTrash s in
        let acts := (acts ++ map DDo (rs ++ [PruneEmptyParents]))%list in
        if negb ok && negb force then (acts, Some NotRemoved)
        else
          let acts := (acts ++ map DDo (FreePorts (frees_ports s) :: if trashed : bool then [ScheduleReap] else []))%list in
          if marks_row s then (acts ++ [DMark], None)%list else (acts, Some NotMarked)
    end.

(** the deferred event: none when the daemon shuts down *)
Definition last_event (err : option teardown_error) : list daction :=
  match err with
  | None => [DEvent delete_end "info"]
  | Some ShutDown => []
  | Some _ => [DEvent delete_error "error"]
  end.

Definition run_actions (force : bool) (s : Site) : list daction :=
  (DEvent delete_start "info" :: (teardown_run force s).1 ++ last_event (teardown_run force s).2)%list.

(** [TeardownWorktree]: what is done depends on the row of the path; [None] when
    there is none *)
Definition TeardownWorktree (in_flight : bool) (row : option WtRow) (force : bool) (s : Site) : list daction :=
  if in_flight then []
  else match row with
       | None => if force && loads s then [DDo (GitRemoves (removes s)); DDo RemoveLeftovers] else []
       | Some r => if negb (active r) && negb (present s) then [] else run_actions force s
       end.

(** [resumeTeardown], without force *)
Definition resumeTeardown (env_loads : bool) (r : WtRow) (s : Site) : list daction :=
  if env_loads then TeardownWorktree false (Some r) false s else [DEvent delete_error "error"].

(** ** Lemmas: the log *)
Section Teardown.
Context (now wt : Z).
Local Abbreviation dact := (dact now wt).
Local Abbreviation happen := (happen now wt).
Local Abbreviation log_after := (log_after now wt).

(** the events of this worktree decide whether it is hidden *)
Definition hidden_by (b : bool) (type : string) : bool :=
  if String.eqb type delete_start then true else if bool_decide (type ∈ [delete_end; delete_error]) then false else b.

Lemma event_inserted log row : log_ok log ->
  log_ok (insert_event now wt log row) /\
  forall t, tearing_down (insert_event now wt log row) t = if Z.eqb t wt then hidden_by (tearing_down log t) row.1 else tearing_down log t.
Proof. intros Hl. exact (tearing_down_write now row.1 row.2 {| db := empty; events := log; did := [] |} wt Hl). Qed.

Lemma log_after_spec log w : log_ok log ->
  log_ok (log_after log w) /\
  forall t, tearing_down (log_after log w) t =
    if Z.eqb t wt then foldl hidden_by (tearing_down log t) (map fst (Batch.table (batcher w))) else tearing_down log t.
Proof.
  unfold Teardown.log_after. generalize (Batch.table (batcher w)). intros rows. revert log.
  induction rows as [|row rows IH]; intros log Hl; cbn [foldl map]; [split; [done|intros t; by destruct (Z.eqb t wt)]|].
  destruct (event_inserted log row Hl) as [Hl' Ht]. destruct (IH _ Hl') as [Hl2 Ht2]. split; [done|]. intros t. rewrite Ht2, Ht. by destruct (Z.eqb t wt).
Qed.

(** what the batcher is given, and what it has committed of it *)
Definition batch (h : list hstep) : list (Batch.action (Row := string * string)) :=
  omap (fun e => match e with HCall (DEvent ty lv) => Some (Batch.AWrite (ty, lv)) | HCall _ => None | HTake => Some Batch.ATake | HCommit o => Some (Batch.ACommit o) end) h.
Definition event_of (a : daction) : option (string * string) := match a with DEvent ty lv => Some (ty, lv) | _ => None end.
Definition deed_of (a : daction) : option deed := match a with DDo d => Some d | _ => None end.

Lemma happen_fields h w :
  reg (foldl happen w h) = reg (foldl dact w (calls h)) /\
  batcher (foldl happen w h) = Batch.acts (batch h) (batcher w) /\
  deeds (foldl happen w h) = deeds w ++ omap deed_of (calls h).
Proof.
  revert w. induction h as [|e h IH] using rev_ind; intros w; [cbn; by rewrite app_nil_r|].
  rewrite foldl_snoc. unfold calls, batch in *. rewrite !omap_app. destruct (IH w) as (Hr & Hb & Hd). unfold Batch.acts in *. rewrite foldl_app.
  rewrite foldl_app.
  destruct e as [[ty lv|d|[m|]|]| |o]; cbn [Teardown.happen Teardown.dact reg batcher deeds omap list_omap foldl deed_of];
    rewrite ?Hr, ?Hb, ?Hd, ?omap_app, ?app_nil_r; cbn [omap list_omap deed_of]; rewrite ?app_nil_r, <- ?app_assoc; done.
Qed.

Lemma written_calls h : Batch.written (batch h) = omap event_of (calls h).
Proof.
  unfold Batch.written, batch, calls. induction h as [|e h IH]; [done|]. destruct e as [[ty lv|d|[m|]|]| |o]; cbn; by rewrite ?IH.
Qed.

Lemma filter_sublist {A} (f : A -> bool) l : List.filter f l `sublist_of` l.
Proof. induction l as [|x l IH]; cbn; [done|]. destruct (f x); by constructor. Qed.

Lemma committed_some h : exists k, Batch.table (Batch.acts (batch h) Batch.start) `sublist_of` take k (omap event_of (calls h)).
Proof.
  destruct (Batch.acts_account (batch h)) as (flags & Hw & Ht & _). exists (length flags).
  rewrite <- written_calls, Hw, Ht, take_app_le, <- (length_fmap fst flags), firstn_all by (by rewrite length_fmap).
  apply (fmap_sublist fst), filter_sublist.
Qed.

(** ** Lemmas: the registry *)
Definition quiet (a : daction) : bool := match a with DDo _ | DNote _ => true | _ => false end.
(** the last that was noted on the row *)
Definition noted (acts : list daction) : option (option string) := last (omap (fun a => match a with DNote e => Some e | _ => None end) acts).

Lemma error_noted e d : reg (dact {| reg := d; batcher := Batch.start; deeds := [] |} (DNote e)) = update_wt wt (set_error e) d.
Proof. by destruct e. Qed.

Lemma elem_of_marked r d : r ∈ worktrees (MarkWorktreeDeleted now wt d) ->
  exists w, w ∈ worktrees d /\ ID w = ID r /\ Registry.teardown_error r = Registry.teardown_error w.
Proof.
  unfold MarkWorktreeDeleted, update_wt, with_worktrees. cbn [worktrees]. intros (w & -> & Hw)%list_elem_of_fmap.
  exists w. by destruct (Z.eqb (ID w) wt).
Qed.

(** without the last step the rows keep everything but the error *)
Lemma quiet_rows acts w :
  Forall (fun a => a <> DMark) acts -> let w' := foldl dact w acts in
  repos (reg w') = repos (reg w) /\
  (forall r, r ∈ worktrees (reg w) -> ID r = wt -> exists e, set_error e r ∈ worktrees (reg w')) /\
  (forall r, r ∈ worktrees (reg w') -> ID r = wt -> exists r0, r0 ∈ worktrees (reg w) /\ ID r0 = wt /\ r = set_error (Registry.teardown_error r) r0) /\
  (forall e, noted acts = Some e -> forall r, r ∈ worktrees (reg w') -> ID r = wt -> Registry.teardown_error r = e).
Proof.
  cbn zeta. assert (Hid : forall r : WtRow, r = set_error (Registry.teardown_error r) r) by by intros [].
  induction acts as [|a acts IH] using rev_ind; intros Hq.
  { cbn. split_and!; [done|intros r Hr _; exists (Registry.teardown_error r); by rewrite <- Hid|intros r Hr Hi; by exists r|done]. }
  apply Forall_app in Hq as [Hq [Ha _]%Forall_cons]. destruct (IH Hq) as (Hrepos & Hto & Hfrom & Hn).
  rewrite foldl_snoc. unfold noted. rewrite omap_app, last_app. set (v := foldl dact w acts) in *.
  assert (Hnote : forall e, repos (update_wt wt (set_error e) (reg v)) = repos (reg w) /\
    (forall r, r ∈ worktrees (reg w) -> ID r = wt -> exists e', set_error e' r ∈ worktrees (update_wt wt (set_error e) (reg v))) /\
    (forall r, r ∈ worktrees (update_wt wt (set_error e) (reg v)) -> ID r = wt ->
       exists r0, r0 ∈ worktrees (reg w) /\ ID r0 = wt /\ r = set_error (Registry.teardown_error r) r0) /\
    (forall r, r ∈ worktrees (update_wt wt (set_error e) (reg v)) -> ID r = wt -> Registry.teardown_error r = e)).
  { intros e. unfold update_wt, with_worktrees. cbn [worktrees repos]. split_and!; [done|..].
    - intros r Hr Hi. destruct (Hto r Hr Hi) as [e' He]. exists e. apply list_elem_of_fmap. exists (set_error e' r). split; [|done].
      cbn [set_error ID]. by rewrite Hi, Z.eqb_refl.
    - intros r (r1 & -> & Hr1)%list_elem_of_fmap Hi. destruct (Z.eqb_spec (ID r1) wt) as [E|E]; [|done].
      destruct (Hfrom r1 Hr1 E) as (r0 & Hr0 & Hi0 & ->). by exists r0.
    - intros r (r1 & -> & Hr1)%list_elem_of_fmap Hi. destruct (Z.eqb_spec (ID r1) wt) as [E|E]; done. }
  destruct a as [ty lv|d|[m|]|]; cbn [omap list_omap last Teardown.dact reg]; [by split_and!..| | |done].
  - destruct (Hnote (Some m)) as (H1 & H2 & H3 & H4). split_and!; [done..|]. intros e [= <-]. exact H4.
  - destruct (Hnote None) as (H1 & H2 & H3 & H4). split_and!; [done..|]. intros e [= <-]. exact H4.
Qed.

(** ** Lemmas: the run *)
(** whether the registry takes the outcome of the drops *)
Definition recorded (s : Site) : bool := notes_error s && (bool_decide (is_Some (drop_error s)) || clears_markers s).

(** what has been done before the row goes; [note]: what the row says of the
    drops *)
Definition all_torn_down (force : bool) (s : Site) (ds : list deed) (note : option string -> Prop) : Prop :=
  (has_databases s = true -> DropAll (bool_decide (drop_error s = None)) ∈ ds /\ (recorded s = true -> note (drop_error s))) /\
  FreePorts (frees_ports s) ∈ ds /\
  (present s = false \/ MoveToTrash true ∈ ds /\ ScheduleReap ∈ ds \/ GitRemoves true ∈ ds \/ GitRemoves false ∈ ds /\ force = true) /\
  (hooks_before s = true -> RunPhase "delete-before-engines" (hook_ok s "delete-before-engines") ∈ ds) /\
  (hooks_after s = true -> RunPhase "delete-after-engines" (hook_ok s "delete-after-engines") ∈ ds).

(** the deeds that touch the checkout *)
Definition touches_checkout (d : deed) : bool :=
  match d with MoveToTrash _ | GitPrune | GitRemoves _ | RemoveLeftovers | PruneEmptyParents => true | _ => false end.

Lemma noted_app l l' : noted l' = None -> noted (l ++ l') = noted l.
Proof. unfold noted. rewrite omap_app, last_app. by intros ->. Qed.
Lemma noted_deeds ds : noted (map DDo ds) = None.
Proof. by induction ds. Qed.
Lemma deeds_of ds : omap deed_of (map DDo ds) = ds.
Proof. induction ds as [|d ds IH]; [done|]. cbn. by f_equal. Qed.
Lemma quiet_deeds ds : Forall (fun a => quiet a = true) (map DDo ds).
Proof. by induction ds; constructor. Qed.

Lemma before_shape s :
  let '(acts, err) := runTeardownBeforeRemoval s in
  Forall (fun a => quiet a = true) acts /\ (forall d, d ∈ omap deed_of acts -> touches_checkout d = false) /\ err ∈ [None; Some ShutDown] /\
  (err = None ->
     (has_databases s = true -> DropAll (bool_decide (drop_error s = None)) ∈ omap deed_of acts /\ (recorded s = true -> noted acts = Some (drop_error s))) /\
     (hooks_before s = true -> RunPhase "delete-before-engines" (hook_ok s "delete-before-engines") ∈ omap deed_of acts) /\
     (hooks_after s = true -> RunPhase "delete-after-engines" (hook_ok s "delete-after-engines") ∈ omap deed_of acts)).
Proof.
  unfold runTeardownBeforeRemoval, TeardownDatabases, recordTeardownOutcome, recorded.
  destruct (hooks_before s), (has_databases s), (hooks_after s), (shut s 1), (shut s 2), (shut s 3), (drop_error s), (clears_markers s), (notes_error s);
    cbn; (split; [by repeat constructor|]);
    (split; [intros d Hd; repeat (apply elem_of_cons in Hd as [->|Hd]; [done|]); by apply not_elem_of_nil in Hd|]);
    (split; [set_solver|]); intros; split_and!; intros; try done; try split; intros; try done; set_solver.
Qed.

Lemma removal_shape s :
  let '(rs, trashed, ok) := removeWorktreeViaTrash s in
  present s = false /\ trashed = false /\ ok = true \/ MoveToTrash true ∈ rs /\ trashed = true /\ ok = true \/
  GitRemoves (removes s) ∈ rs /\ trashed = false /\ ok = removes s.
Proof. unfold removeWorktreeViaTrash. destruct (present s), (trashes s), (removes s); cbn; set_solver. Qed.

Lemma all_deeds acts ds : omap deed_of (acts ++ map DDo ds) = omap deed_of acts ++ ds.
Proof. by rewrite omap_app, deeds_of. Qed.

Lemma run_shape force s :
  exists acts, (teardown_run force s).1 = (acts ++ if bool_decide ((teardown_run force s).2 = None) then [DMark] else [])%list /\
    Forall (fun a => quiet a = true) acts /\
    ((teardown_run force s).2 = None -> all_torn_down force s (omap deed_of acts) (fun e => noted acts = Some e)) /\
    ((teardown_run force s).2 = Some ShutDown -> forall d, d ∈ omap deed_of acts -> touches_checkout d = false).
Proof.
  unfold teardown_run. destruct (loads s); cbn [negb].
  2:{ exists []. destruct (shut s 0); (split; [done|]); (split; [constructor|]); (split; [done|]); by intros _ d ?%not_elem_of_nil. }
  pose proof (before_shape s) as Hb. destruct (runTeardownBeforeRemoval s) as [acts err]. destruct Hb as (Hq & Htouch & Herr & Hb).
  destruct err as [e|]; [exists acts; cbn [fst snd]; rewrite app_nil_r; by split_and!|]. specialize (Hb eq_refl).
  pose proof (removal_shape s) as Hr. destruct (removeWorktreeViaTrash s) as [[rs trashed] ok].
  destruct (negb ok && negb force) eqn:Ef.
  { exists (acts ++ map DDo (rs ++ [PruneEmptyParents]))%list. cbn. rewrite app_nil_r. split_and!; try done.
    apply Forall_app. split; [done|apply quiet_deeds]. }
  set (rest := FreePorts (frees_ports s) :: if trashed then [ScheduleReap] else []).
  set (all := ((acts ++ map DDo (rs ++ [PruneEmptyParents])) ++ map DDo rest)%list).
  assert (Hds : omap deed_of all = (omap deed_of acts ++ rs ++ [PruneEmptyParents]) ++ rest) by (unfold all; by rewrite !all_deeds).
  assert (Hin : forall d, d ∈ omap deed_of acts \/ d ∈ rs \/ d ∈ rest -> d ∈ omap deed_of all) by (intros d; rewrite Hds, !elem_of_app; tauto).
  assert (Hall : all_torn_down force s (omap deed_of all) (fun e => noted all = Some e)).
  { destruct Hb as (Hdrop & Hbefore & Hafter). unfold all_torn_down. split_and!; [|apply Hin; right; right; by left| |auto..].
    - intros [Hd Hn]%Hdrop. split; [auto|]. unfold all. by rewrite !noted_app by apply noted_deeds.
    - destruct Hr as [(? & _)|[(? & -> & _)|(Hg & _ & Hok)]]; [by left|right; left; split; apply Hin; [auto|right; right; right; by left]|].
      right. right. destruct (removes s) eqn:Er; [left; auto|]. right. split; [auto|].
      subst ok. by destruct force. }
  assert (Hqa : Forall (fun a => quiet a = true) all) by (unfold all; rewrite !Forall_app; split_and!; [done|apply quiet_deeds..]).
  exists all. destruct (marks_row s); cbn; [done|]. rewrite app_nil_r. by split_and!.
Qed.

(** what the log can have got from one run *)
Definition ending (err : option teardown_error) : list string :=
  match err with None => [delete_end] | Some ShutDown => [] | Some _ => [delete_error] end.

Lemma run_events force s : omap event_of (run_actions force s) `sublist_of` (delete_start, "info") :: omap event_of (last_event (teardown_run force s).2).
Proof.
  destruct (run_shape force s) as (acts & E & Hq & _). unfold run_actions. rewrite E. cbn [omap list_omap event_of]. apply sublist_skip.
  rewrite !omap_app. replace (omap event_of acts) with (@nil (string * string)).
  2:{ symmetry. clear E. induction acts as [|[] acts IH]; [done|..]; apply Forall_cons in Hq as [Ha Hq]; try done; exact (IH Hq). }
  by destruct (bool_decide _).
Qed.

Lemma run_types force s h cs : calls h = cs -> cs `prefix_of` run_actions force s ->
  map fst (Batch.table (Batch.acts (batch h) Batch.start)) `sublist_of` delete_start :: ending (teardown_run force s).2.
Proof.
  intros Hcs [x Hx]. destruct (committed_some h) as [k Hk]. rewrite Hcs in Hk.
  replace (delete_start :: ending (teardown_run force s).2) with (map fst ((delete_start, "info") :: omap event_of (last_event (teardown_run force s).2)))
    by (by destruct (teardown_run force s).2 as [[]|]).
  apply (fmap_sublist fst). etrans; [exact Hk|]. etrans; [apply sublist_take|]. etrans; [|apply run_events]. rewrite Hx, omap_app.
  by apply sublist_inserts_r.
Qed.

Lemma hidden_types b err types : types `sublist_of` delete_start :: ending err ->
  foldl hidden_by b types =
    (if bool_decide (delete_end ∈ types \/ delete_error ∈ types) then false else bool_decide (delete_start ∈ types) || b) /\
  (delete_error ∈ types -> err ∈ [Some ConfigNotLoaded; Some NotRemoved; Some NotMarked]).
Proof.
  intros H. apply sublist_cons_r in H as [H|(l & -> & H)]; destruct err as [[]|]; cbn [ending] in H;
    repeat match goal with
           | H : _ `sublist_of` [] |- _ => apply sublist_nil_r in H; subst
           | H : _ `sublist_of` _ :: _ |- _ => apply sublist_cons_r in H as [H|(? & -> & H)]
           end;
    (split; [destruct b; vm_compute; reflexivity|]); set_solver.
Qed.

Lemma up_to_mark pre post cs x : DMark ∉ pre -> cs ++ x = pre ++ DMark :: post ->
  DMark ∉ cs \/ exists tail, cs = pre ++ DMark :: tail /\ tail `prefix_of` post.
Proof.
  revert cs. induction pre as [|a pre IH]; intros [|c cs] Hni E; cbn [app] in E; try (left; by apply not_elem_of_nil).
  - injection E as -> E. right. exists cs. split; [done|]. by exists x.
  - apply not_elem_of_cons in Hni as [Ha Hni]. injection E as -> E. destruct (IH cs Hni E) as [Hn|(tail & -> & Ht)]; [left|right; by exists tail].
    by apply not_elem_of_cons.
Qed.

Lemma quiet_no_mark acts : Forall (fun a => quiet a = true) acts -> Forall (fun a => a <> DMark) acts.
Proof. intros H. eapply Forall_impl; [exact H|]. by intros [] ?. Qed.

(** the daemon starts with an empty buffer *)
Definition booted (d : DB) : DWorld := {| reg := d; batcher := Batch.start; deeds := [] |}.

(** either the row is not marked, and is there but for its error, or it is, and
    everything was done *)
Lemma run_rows force s d cs r : cs `prefix_of` run_actions force s ->
  r ∈ worktrees d -> ID r = wt ->
  let w := foldl dact (booted d) cs in
  repos (reg w) = repos d /\ (exists e, set_error e r ∈ worktrees (reg w)) \/
  (forall r', r' ∈ worktrees (reg w) -> ID r' = wt -> active r' = false) /\
    all_torn_down force s (omap deed_of cs) (fun e => forall r', r' ∈ worktrees (reg w) -> ID r' = wt -> Registry.teardown_error r' = e).
Proof.
  cbn zeta. intros [x Hx] Hr Hid. destruct (run_shape force s) as (acts & E & Hq & Hall & _). unfold run_actions in Hx. rewrite E in Hx.
  assert (Hplain : Forall (fun a => a <> DMark) cs ->
    repos (reg (foldl dact (booted d) cs)) = repos d /\ exists e, set_error e r ∈ worktrees (reg (foldl dact (booted d) cs))).
  { intros Hn. destruct (quiet_rows cs (booted d) Hn) as (Hrepos & Hto & _). split; [done|]. by apply Hto. }
  assert (Hquiet : forall a, a ∈ acts -> a <> DMark) by (apply Forall_forall, quiet_no_mark, Hq).
  destruct ((teardown_run force s).2) as [e|] eqn:Ee.
  { left. apply Hplain, Forall_forall. intros a Ha ->. assert (Hin : DMark ∈ cs ++ x) by set_solver. rewrite <- Hx in Hin.
    rewrite bool_decide_eq_false_2, app_nil_r in Hin by done. apply elem_of_cons in Hin as [?|[Hin|Hin]%elem_of_app]; [done|by eapply Hquiet|].
    destruct e; cbn in Hin; set_solver. }
  rewrite bool_decide_eq_true_2, <- app_assoc in Hx by done. cbn [app] in Hx. change (DEvent delete_start "info" :: acts ++ ?l) with ((DEvent delete_start "info" :: acts) ++ l) in Hx.
  destruct (up_to_mark (DEvent delete_start "info" :: acts) (last_event None) cs x) as [Hn|(tail & -> & Ht)].
  { intros [?|Hin]%elem_of_cons; [done|]. by eapply Hquiet. }
  { by rewrite <- Hx. }
  { left. apply Hplain, Forall_forall. by intros a Ha ->. }
  right. specialize (Hall eq_refl).
  destruct (quiet_rows (DEvent delete_start "info" :: acts) (booted d)) as (_ & _ & _ & Hn); [constructor; [done|by apply quiet_no_mark]|].
  set (w1 := foldl dact (booted d) (DEvent delete_start "info" :: acts)) in *.
  assert (Hw : reg (foldl dact (booted d) ((DEvent delete_start "info" :: acts) ++ DMark :: tail)) = MarkWorktreeDeleted now wt (reg w1) /\
               omap deed_of ((DEvent delete_start "info" :: acts) ++ DMark :: tail) = omap deed_of acts).
  { rewrite foldl_app, omap_app. fold w1. destruct Ht as [y Hy]. cbn [foldl omap list_omap deed_of].
    destruct tail as [|a [|b tail]]; cbn [last_event] in Hy; [|injection Hy as <- Hy|by destruct y]; cbn; by rewrite app_nil_r. }
  destruct Hw as [-> ->]. split; [intros r'; apply marked_gone|].
  destruct Hall as (Hdrop & Hrest). split; [|exact Hrest]. intros [Hd Hn']%Hdrop. split; [done|]. intros Hrec r' Hr' Hi.
  apply elem_of_marked in Hr' as (w & Hw & Hwid & ->). apply (Hn (drop_error s)); [by apply Hn'|done|by rewrite Hwid].
Qed.

Lemma interrupted r d log : r ∈ worktrees d -> active r = true -> has_repo d r = true -> tearing_down log (ID r) = true ->
  r ∈ ListInterruptedTeardowns d log.
Proof. intros Hr Ha Hrepo Ht. unfold ListInterruptedTeardowns. apply elem_of_filter_bool. by rewrite Ht, Ha, Hrepo. Qed.

Lemma run_facts force s d log0 h : log_ok log0 -> calls h `prefix_of` run_actions force s ->
  let w := foldl happen (booted d) h in
  let types := map fst (Batch.table (batcher w)) in
  log_ok (log_after log0 w) /\ types `sublist_of` delete_start :: ending (teardown_run force s).2 /\
  (forall t, tearing_down (log_after log0 w) t =
     if Z.eqb t wt then (if bool_decide (delete_end ∈ types \/ delete_error ∈ types) then false else bool_decide (delete_start ∈ types) || tearing_down log0 t)
     else tearing_down log0 t) /\
  reg w = reg (foldl dact (booted d) (calls h)) /\ deeds w = omap deed_of (calls h).
Proof.
  intros Hlog Hh. cbn zeta. destruct (happen_fields h (booted d)) as (Hr & Hb & Hd).
  destruct (log_after_spec log0 (foldl happen (booted d) h) Hlog) as [Hl Ht].
  assert (Hty : map fst (Batch.table (batcher (foldl happen (booted d) h))) `sublist_of` delete_start :: ending (teardown_run force s).2).
  { rewrite Hb. by eapply run_types. }
  split_and!; [done..| |done|done]. intros t. rewrite Ht. destruct (Z.eqb t wt); [|done]. by apply (hidden_types _ (teardown_run force s).2).
Qed.

(** when the batcher has been drained and no row was lost, what was issued is
    in the log *)
Definition drained (h : list hstep) (w : DWorld) : Prop :=
  Forall Batch.healthy (batch h) /\ Batch.pending (batcher w) = None /\ Batch.batchBuf (batcher w) = [].

Lemma drained_table d h : drained h (foldl happen (booted d) h) -> Batch.table (batcher (foldl happen (booted d) h)) = omap event_of (calls h).
Proof.
  intros (Hh & Hp & Hbuf). destruct (happen_fields h (booted d)) as (_ & Hb & _). cbn in Hb. rewrite Hb in *.
  destruct (Batch.batch_keeps_events (batch h)) as (_ & Hk & _). destruct (Hk Hh) as [Hk' _].
  rewrite Hp, Hbuf in Hk'. cbn in Hk'. by rewrite !app_nil_r, written_calls in Hk'.
Qed.

Lemma quiet_events acts : Forall (fun a => quiet a = true) acts -> omap event_of acts = [].
Proof. induction acts as [|[] acts IH]; [done|..]; intros [Ha Hq]%Forall_cons; try done; exact (IH Hq). Qed.
Lemma run_types_all force s : map fst (omap event_of (run_actions force s)) = delete_start :: ending (teardown_run force s).2.
Proof.
  destruct (run_shape force s) as (acts & E & Hq & _). unfold run_actions. rewrite E. cbn [omap list_omap event_of map fst]. f_equal.
  rewrite !omap_app, quiet_events by done. by destruct (teardown_run force s).2 as [[]|].
Qed.

Lemma drained_hidden force s d log0 h : log_ok log0 -> calls h = run_actions force s -> drained h (foldl happen (booted d) h) ->
  tearing_down (log_after log0 (foldl happen (booted d) h)) wt = bool_decide ((teardown_run force s).2 = Some ShutDown).
Proof.
  intros Hlog Hc Hdr. destruct (run_facts force s d log0 h Hlog) as (_ & _ & Ht & _); [by rewrite Hc|]. cbn zeta in Ht. rewrite (Ht wt), Z.eqb_refl.
  rewrite (drained_table d h Hdr), Hc, run_types_all. by destruct (teardown_run force s).2 as [[]|].
Qed.


(** C0_resumed_teardown_settles: a teardown that the next daemon resumes is not
    interrupted again unless this daemon shuts down too, if the batcher is
    drained: the worktree is deleted, or is there as before, but for the note on
    its drops, and can be seen. *)
Theorem resumed_teardown_settles env_loads r s d log0 h
    (Hlog : log_ok log0) (Hin : r ∈ worktrees d) (Hid : ID r = wt) (Hact : active r = true)
    (Hcalls : calls h = resumeTeardown env_loads r s) (Hrun : (teardown_run false s).2 <> Some ShutDown)
    (Hdrained : drained h (foldl happen (booted d) h)) :
  let w := foldl happen (booted d) h in
  tearing_down (log_after log0 w) wt = false /\
  ((forall r', r' ∈ worktrees (reg w) -> ID r' = wt -> active r' = false) \/ exists e, set_error e r ∈ worktrees (reg w)).
Proof.
  cbn zeta. destruct (happen_fields h (booted d)) as (Hr & Hb & _). unfold resumeTeardown in Hcalls. destruct env_loads.
  - unfold TeardownWorktree in Hcalls. rewrite Hact in Hcalls. cbn [negb andb] in Hcalls. split.
    + rewrite (drained_hidden false s) by done. by apply bool_decide_eq_false_2.
    + rewrite Hr. destruct (run_rows false s d (calls h) r) as [[_ He]|[Hg _]]; [by rewrite Hcalls|done|done|by right|by left].
  - split.
    + destruct (log_after_spec log0 (foldl happen (booted d) h) Hlog) as [_ Ht]. rewrite Ht, Z.eqb_refl, (drained_table d h Hdrained), Hcalls. done.
    + right. rewrite Hr, Hcalls. exists (Registry.teardown_error r). cbn. replace (set_error (Registry.teardown_error r) r) with r by (by destruct r). done.
Qed.
End Teardown.

(** ** On a concrete registry *)
Definition site (shutdown : nat) (dropped : option string) (clean : bool) : Site :=
  {| loads := true; hooks_before := true; has_databases := true; hooks_after := false; hook_ok := fun _ => true; drop_error := dropped;
     clears_markers := true; notes_error := true; present := true; trashes := clean; removes := clean; frees_ports := true; marks_row := true;
     shutdown_from := shutdown |}.
Definition healthy_flush : Batch.Outcome (Row := string * string) := {| Batch.ctx_done := false; Batch.tx_fails := false; Batch.row_fails := fun _ => false |}.
Definition flush : list hstep := [HTake; HCommit healthy_flush].
(** the calls with one flush after the first, and one at the end *)
Definition flushed (acts : list daction) : list hstep := (map HCall (take 1 acts) ++ flush ++ map HCall (drop 1 acts) ++ flush)%list.
Definition after (h : list hstep) : DWorld := foldl (happen 5 1) (booted demo_db) h.

Lemma empty_log_ok : log_ok [].
Proof. split; constructor. Qed.


Lemma resumed_teardown_settles_witness :
  calls (flushed (resumeTeardown true (demo_row 1 "/r/.worktrees/feature/login" "login_a1" "feature/login") (site 4 None true))) =
    [DEvent delete_start "info"; DDo (RunPhase "delete-before-engines" true); DDo (DropAll true); DDo (ClearMarkers true); DNote None;
     DDo (MoveToTrash true); DDo GitPrune; DDo PruneEmptyParents; DDo (FreePorts true); DDo ScheduleReap; DMark; DEvent delete_end "info"] /\
  tearing_down (log_after 5 1 [] (after (flushed (resumeTeardown true (demo_row 1 "/r/.worktrees/feature/login" "login_a1" "feature/login") (site 4 None true))))) 1 = false.
Proof.
  split; [vm_compute; reflexivity|].
  refine (proj1 (resumed_teardown_settles 5 1 true (demo_row 1 "/r/.worktrees/feature/login" "login_a1" "feature/login") (site 4 None true) demo_db []
    (flushed (resumeTeardown true (demo_row 1 "/r/.worktrees/feature/login" "login_a1" "feature/login") (site 4 None true))) empty_log_ok _ _ _ _ _ _)).
  - cbn. left.
  - reflexivity.
  - reflexivity.
  - vm_compute. reflexivity.
  - vm_compute. discriminate.
  - split; [|split; vm_compute; reflexivity]. repeat constructor.
Defined.

(** a crash before the first flush: the databases and the checkout are gone, and
    nothing tells the next daemon *)
Example crash_before_flush :
  let w := after (map HCall (take 8 (run_actions false (site 4 None true)))) in
  deeds w = [RunPhase "delete-before-engines" true; DropAll true; ClearMarkers true; MoveToTrash true; GitPrune; PruneEmptyParents] /\
  map ID (worktrees (reg w)) = map ID (List.filter active (worktrees (reg w))) /\
  ListInterruptedTeardowns (reg w) (log_after 5 1 [] w) = [].
Proof. vm_compute. by split_and!. Qed.

(** what the caller insisted on is forgotten when the daemon restarts *)
Example insistence_is_forgotten :
  (teardown_run true (site 4 None false)).2 = None /\ (teardown_run true (site 3 None false)).2 = Some ShutDown /\
  resumeTeardown true (demo_row 1 "/r/.worktrees/feature/login" "login_a1" "feature/login") (site 4 None false) =
    [DEvent delete_start "info"; DDo (RunPhase "delete-before-engines" true); DDo (DropAll true); DDo (ClearMarkers true); DNote None;
     DDo (MoveToTrash false); DDo (GitRemoves false); DDo PruneEmptyParents; DEvent delete_error "error"].
Proof. by split_and!. Qed.
