(* ===== verification/AutoFetch.v ===== *)
(** * Auto-fetch

    [internal/daemon/autofetch.go] and the sync part of
    [internal/daemon/state.go]: when a repository is fetched again after a
    failure ([Module Sync]), and what a sweep does to each working tree: the git
    commands it runs and the events it writes ([Module Sweep]). *)
From stdpp Require Import base strings list sets gmap.
From Stdlib Require Import ZArith Lia.
From S2P Require Import Prelude GoStrings Lines.

(** ** Backoff *)
Module Sync.

(** times and durations are in nanoseconds *)
Definition second : Z := 1000000000.
Definition minute : Z := 60 * second.

Record SyncState := {
  syncBackoff : gmap string Z;
  syncFailCount : gmap string Z;
  syncLastFetch : gmap string Z;
  syncLastSkip : gmap string string;
  syncRefsDigest : gmap string string
}.

Definition NewSync : SyncState :=
  {| syncBackoff := ∅; syncFailCount := ∅; syncLastFetch := ∅; syncLastSkip := ∅; syncRefsDigest := ∅ |}.

(** the zero time is [None] *)
Definition SyncBackoffUntil (repo : string) (s : SyncState) : option Z := syncBackoff s !! repo.
Definition SyncFailCount (repo : string) (s : SyncState) : Z := default 0%Z (syncFailCount s !! repo).
Definition SyncLastFetch (repo : string) (s : SyncState) : option Z := syncLastFetch s !! repo.
Definition SyncLastSkip (wt : string) (s : SyncState) : string := default "" (syncLastSkip s !! wt).

Definition RecordSyncFailure (now : Z) (repo : string) (delay : Z) (s : SyncState) : SyncState * Z :=
  let n := (SyncFailCount repo s + 1)%Z in
  ({| syncBackoff := <[repo := (now + delay)%Z]> (syncBackoff s); syncFailCount := <[repo := n]> (syncFailCount s);
      syncLastFetch := syncLastFetch s; syncLastSkip := syncLastSkip s; syncRefsDigest := syncRefsDigest s |}, n).

Definition RecordSyncSuccess (now : Z) (repo : string) (s : SyncState) : SyncState :=
  {| syncBackoff := delete repo (syncBackoff s); syncFailCount := delete repo (syncFailCount s);
     syncLastFetch := <[repo := now]> (syncLastFetch s); syncLastSkip := syncLastSkip s;
     syncRefsDigest := syncRefsDigest s |}.

Definition RecordSyncSkip (wt reason : string) (s : SyncState) : SyncState :=
  {| syncBackoff := syncBackoff s; syncFailCount := syncFailCount s; syncLastFetch := syncLastFetch s;
     syncLastSkip := if String.eqb reason "" then delete wt (syncLastSkip s) else <[wt := reason]> (syncLastSkip s);
     syncRefsDigest := syncRefsDigest s |}.

Definition RefsDigestChanged (repo digest : string) (s : SyncState) : SyncState * bool :=
  ({| syncBackoff := syncBackoff s; syncFailCount := syncFailCount s; syncLastFetch := syncLastFetch s;
      syncLastSkip := syncLastSkip s; syncRefsDigest := <[repo := digest]> (syncRefsDigest s) |},
   negb (bool_decide (syncRefsDigest s !! repo = Some digest))).

(** repository, consecutive failures, next retry in seconds *)
Definition SnapshotSyncBackoffs (s : SyncState) : gmap string (Z * Z) :=
  map_imap (fun repo t => Some (SyncFailCount repo s, t / second)%Z) (syncBackoff s).

Definition syncBackoffSchedule : list Z := map (Z.mul minute) [1; 2; 5; 15; 30; 60]%Z.

Definition backoffFor (failures : Z) : Z :=
  if Z.leb failures 0 then 0
  else
    let idx := (failures - 1)%Z in
    let n := Z.of_nat (length syncBackoffSchedule) in
    let idx := if Z.leb n idx then (n - 1)%Z else idx in
    default 0%Z (syncBackoffSchedule !! Z.to_nat idx).

(** [hash/fnv] *)
Fixpoint fnv32a_from (h : Z) (s : string) : Z :=
  match s with
  | EmptyString => h
  | String c s' => fnv32a_from ((Z.lxor h (Z.of_N (Ascii.N_of_ascii c)) * 16777619) mod 2 ^ 32)%Z s'
  end.
Definition fnv32a : string -> Z := fnv32a_from 2166136261.

Definition repoJitter (repoPath : string) : Z :=
  let span := (60 * second)%Z in (fnv32a repoPath mod span - span / 2)%Z.

Definition autoFetchInterval (IntervalMinutes : Z) : Z := Z.max (wrap64 (IntervalMinutes * minute)) minute.

(** the gate of [runAutoFetchSweep] *)
Definition in_backoff (now : Z) (repo : string) (s : SyncState) : bool :=
  match SyncBackoffUntil repo s with
  | None => false
  | Some until => Z.ltb (now + repoJitter repo) until
  end.

(** the part of [SyncRepo] after the fetch; [fetched]: it succeeded *)
Definition record_fetch (now : Z) (repo : string) (fetched : bool) (s : SyncState) : SyncState :=
  if fetched then RecordSyncSuccess now repo s
  else (RecordSyncFailure now repo (backoffFor (SyncFailCount repo s + 1)) s).1.

Record attempt := { at_ : Z; repo_ : string; fetched_ : bool }.
Definition attempts (h : list attempt) (s : SyncState) : SyncState :=
  foldl (fun s a => record_fetch (at_ a) (repo_ a) (fetched_ a) s) s h.

(** the failures of a repository since its last success, and the last of them *)
Definition failing (repo : string) (acc : Z * option Z) (a : attempt) : Z * option Z :=
  if String.eqb (repo_ a) repo then (if fetched_ a then (0%Z, None) else ((acc.1 + 1)%Z, Some (at_ a))) else acc.
Definition failures (repo : string) (h : list attempt) : Z * option Z := foldl (failing repo) (0%Z, None) h.

Lemma failures_snoc repo h a : failures repo (h ++ [a]) = failing repo (failures repo h) a.
Proof. unfold failures. by rewrite foldl_snoc. Qed.

Lemma failures_inv repo h :
  (0 <= (failures repo h).1)%Z /\ ((failures repo h).2 = None <-> (failures repo h).1 = 0%Z).
Proof.
  induction h as [|a h [IH1 IH2]] using rev_ind; [done|]. rewrite failures_snoc. unfold failing.
  destruct (String.eqb _ _); [|done]. destruct (fetched_ a); simpl; [done|]. split; [lia|]. split; [done|lia].
Qed.

Lemma attempts_count repo h :
  SyncFailCount repo (attempts h NewSync) = (failures repo h).1 /\
  SyncBackoffUntil repo (attempts h NewSync) =
    match (failures repo h).2 with Some t => Some (t + backoffFor (failures repo h).1)%Z | None => None end.
Proof.
  induction h as [|a h [IH1 IH2]] using rev_ind; [done|]. unfold attempts in *. rewrite foldl_snoc, failures_snoc.
  set (s := foldl _ _ h) in *. unfold record_fetch, failing. destruct (String.eqb_spec (repo_ a) repo) as [<-|Hne].
  - destruct (fetched_ a); unfold SyncFailCount, SyncBackoffUntil in *; simpl.
    + by rewrite !lookup_delete_eq.
    + rewrite !lookup_insert_eq. simpl. by rewrite <- IH1.
  - destruct (fetched_ a); unfold SyncFailCount, SyncBackoffUntil in *; simpl;
      rewrite ?lookup_delete_ne, ?lookup_insert_ne by done; done.
Qed.

Lemma backoffFor_cases n : (0 < n)%Z ->
  backoffFor n = (minute * if Z.eqb n 1 then 1 else if Z.eqb n 2 then 2 else if Z.eqb n 3 then 5
                           else if Z.eqb n 4 then 15 else if Z.eqb n 5 then 30 else 60)%Z.
Proof.
  intros Hn. unfold backoffFor. replace (Z.leb n 0) with false by lia.
  change (Z.of_nat (length syncBackoffSchedule)) with 6%Z. destruct (Z.leb_spec 6 (n - 1)) as [H|H].
  - change (default 0%Z (syncBackoffSchedule !! Z.to_nat (6 - 1))) with (minute * 60)%Z. f_equal.
    repeat match goal with |- context [Z.eqb n ?k] => destruct (Z.eqb_spec n k); [lia|] end. done.
  - assert (n = 1 \/ n = 2 \/ n = 3 \/ n = 4 \/ n = 5 \/ n = 6)%Z as Hc by lia.
    by destruct Hc as [->|[->|[->|[->|[->| ->]]]]].
Qed.

Lemma fnv32a_from_range h s : (0 <= h < 2 ^ 32)%Z -> (0 <= fnv32a_from h s < 2 ^ 32)%Z.
Proof.
  revert h. induction s as [|c s IH]; intros h H; [done|]. simpl. apply IH. apply Z.mod_pos_bound. lia.
Qed.

Lemma repoJitter_range repo : (- 30 * second <= repoJitter repo < - 30 * second + 2 ^ 32)%Z.
Proof.
  unfold repoJitter. pose proof (fnv32a_from_range 2166136261 repo ltac:(lia)) as H. fold (fnv32a repo) in H.
  rewrite Z.mod_small; unfold second in *; change (60 * 1000000000 / 2)%Z with 30000000000%Z; lia.
Qed.

(** after any history of fetches the failure count of a
    repository is the number of its failures since its last success, and it is
    parked until the last of them plus the backoff of that count, which is
    between a minute and an hour and never shrinks with more failures. The
    sweep skips the repository only while it is failing, never later than an
    hour and half a minute after its last failure. The jitter is always
    between -30s and -25.7s, not spread over [-30s, +30s]: a parked repository
    is always skipped for at least 25.7 seconds past its window. *)
Theorem backoff_gate repo h now :
  let n := (failures repo h).1 in
  let s := attempts h NewSync in
  SyncFailCount repo s = n /\
  match (failures repo h).2 with
  | None => n = 0%Z /\ in_backoff now repo s = false
  | Some t =>
      (0 < n)%Z /\ SyncBackoffUntil repo s = Some (t + backoffFor n)%Z /\
      (minute <= backoffFor n <= 60 * minute)%Z /\ (forall m, n <= m -> backoffFor n <= backoffFor m)%Z /\
      ((t + 60 * minute + 30 * second <= now)%Z -> in_backoff now repo s = false) /\
      ((now <= t + backoffFor n + 25 * second)%Z -> in_backoff now repo s = true)
  end.
Proof.
  intros n s. destruct (attempts_count repo h) as [Hc Hb]. fold s in Hc, Hb. split; [done|].
  pose proof (failures_inv repo h) as [Hn0 Hn]. pose proof (repoJitter_range repo) as Hj.
  unfold in_backoff. rewrite Hb. fold n in Hn0, Hn |- *. destruct (failures repo h).2 as [t|].
  - assert (0 < n)%Z as Hpos by (destruct (decide (n = 0%Z)) as [E|]; [by apply Hn in E|lia]).
    assert (forall m, (n <= m)%Z -> (minute <= backoffFor n <= backoffFor m /\ backoffFor n <= 60 * minute)%Z) as Hm.
    { intros m Hm. rewrite !backoffFor_cases by lia. unfold minute, second.
      repeat match goal with |- context [Z.eqb ?x ?y] => destruct (Z.eqb_spec x y) end; lia. }
    destruct (Hm n ltac:(lia)). split; [done|]. split; [done|]. split; [lia|]. split; [intros m ?; by apply Hm|].
    unfold second in *. split; intros; lia.
  - split; [by apply Hn|done].
Qed.
End Sync.

(** ** The sweep over the working trees *)
Module Sweep.
Import Sync.

(** a branch's relation to its upstream *)
Record branchTrack := { upstream : string; ahead : Z; behind : Z; gone : bool }.

(** one part of the track field: "ahead 3" *)
Definition track_part (tr : branchTrack) (part : string) : branchTrack :=
  match cut_byte " " (TrimSpace part) with
  | None => tr
  | Some (word, nStr) =>
      match atoi nStr with
      | None => tr
      | Some n => if String.eqb word "ahead" then {| upstream := upstream tr; ahead := n; behind := behind tr; gone := gone tr |}
                  else if String.eqb word "behind" then {| upstream := upstream tr; ahead := ahead tr; behind := n; gone := gone tr |}
                  else tr
      end
  end.

Definition parse_track (upstr track : string) : branchTrack :=
  let tr := {| upstream := upstr; ahead := 0; behind := 0; gone := String.eqb track "gone" |} in
  if String.eqb track "gone" || String.eqb track "" then tr else foldl track_part tr (split_byte "," track).

Definition tab : ascii := "009".

(** one line of [for-each-ref] *)
Definition parse_line (m : gmap string branchTrack) (line : string) : gmap string branchTrack :=
  match cut_byte tab line with
  | None => m
  | Some (name, rest) =>
      let '(upstr, track) := match cut_byte tab rest with Some p => p | None => (rest, "") end in
      <[name := parse_track upstr track]> m
  end.

(** the tracks of [branchTrackStates] *)
Definition branchTrackStates (out : string) : gmap string branchTrack :=
  foldl parse_line ∅ (split_byte newline (TrimSpace out)).

(** what git and the file system answer about one working tree *)
Inductive merge_outcome := Merged | MergeRefused | MergeFailed.
Record Tree := {
  exists_ : bool;                  (* os.Stat *)
  headBranch : string;             (* gitenv.DetectBranch *)
  symbolicRef : option string;     (* git symbolic-ref --quiet HEAD *)
  hasUpstream : bool;              (* @{u} resolves *)
  clean : option bool;             (* gitenv.IsWorktreeClean, None is its error *)
  merge_ff : merge_outcome;
  rebase_ok : bool;
  abort_ok : bool
}.

Inductive git := MergeFFOnly (wt : string) | RebaseAutostash (wt : string) | RebaseAbort (wt : string).
Inductive event :=
| FetchSkip (wt branch reason : string)
| FetchPull (wt branch mode : string)
| FetchRebaseError (wt branch : string).
Inductive error := StatError | StatusError | MergeError.

(** the commands that change a working tree, and the events, in order *)
Record World := { sync : SyncState; ran : list git; log : list event }.

Definition SyncSkipDirty := "dirty".
Definition SyncSkipNoUpstream := "no_upstream".
Definition SyncSkipDetached := "detached_head".
Definition SyncSkipNonFF := "non_ff".
Definition SyncSkipPathGone := "path_missing".
Definition SyncSkipRebaseFail := "rebase_conflict".

Definition run_git (g : git) (w : World) : World := {| sync := sync w; ran := ran w ++ [g]; log := log w |}.
Definition write_event (e : event) (w : World) : World := {| sync := sync w; ran := ran w; log := log w ++ [e] |}.
Definition set_skip (wt reason : string) (w : World) : World :=
  {| sync := RecordSyncSkip wt reason (sync w); ran := ran w; log := log w |}.

Definition emitSkip (wt branch reason : string) (w : World) : World :=
  let unchanged := String.eqb (SyncLastSkip wt (sync w)) reason in
  let w1 := set_skip wt reason w in
  if unchanged then w1 else write_event (FetchSkip wt branch reason) w1.

Definition emitAdvance (wt branch mode : string) (w : World) : World :=
  write_event (FetchPull wt branch mode) (set_skip wt "" w).

Definition advanceFF (t : Tree) (wt branch : string) (w : World) : World * option error :=
  match clean t with
  | None => (w, Some StatusError)
  | Some false => (emitSkip wt branch SyncSkipDirty w, None)
  | Some true =>
      let w1 := run_git (MergeFFOnly wt) w in
      match merge_ff t with
      | MergeRefused => (emitSkip wt branch SyncSkipNonFF w1, None)
      | MergeFailed => (w1, Some MergeError)
      | Merged => (emitAdvance wt branch "ff" w1, None)
      end
  end.

Definition advanceRebase (t : Tree) (wt branch : string) (w : World) : World * option error :=
  let w1 := run_git (RebaseAutostash wt) w in
  if rebase_ok t then (emitAdvance wt branch "rebase" w1, None)
  else
    let w2 := run_git (RebaseAbort wt) w1 in
    let w3 := if abort_ok t then w2 else write_event (FetchRebaseError wt branch) w2 in
    (emitSkip wt branch SyncSkipRebaseFail w3, None).

Definition advance (mode : string) : Tree -> string -> string -> World -> World * option error :=
  if String.eqb mode "rebase" then advanceRebase else advanceFF.

Definition trim_prefix (p s : string) : string := match cut_prefix p s with Some r => r | None => s end.

Definition SyncWorktree (t : Tree) (wt mode : string) (w : World) : World * option error :=
  if negb (exists_ t) then (emitSkip wt "" SyncSkipPathGone w, Some StatError)
  else match symbolicRef t with
       | None => (emitSkip wt "" SyncSkipDetached w, None)
       | Some head =>
           let branch := TrimSpace (trim_prefix "refs/heads/" head) in
           if negb (hasUpstream t) then (emitSkip wt branch SyncSkipNoUpstream w, None)
           else advance mode t wt branch w
       end.

Definition syncWorktreeFromTracks (t : Tree) (wt mode : string) (tracks : gmap string branchTrack) (w : World)
    : World * option error :=
  if negb (exists_ t) then (emitSkip wt "" SyncSkipPathGone w, Some StatError)
  else if String.eqb (headBranch t) "" then (emitSkip wt "" SyncSkipDetached w, None)
  else match tracks !! headBranch t with
       | None => SyncWorktree t wt mode w
       | Some tr =>
           if String.eqb (upstream tr) "" || gone tr then (emitSkip wt (headBranch t) SyncSkipNoUpstream w, None)
           else if Z.eqb (behind tr) 0 then (w, None)
           else if String.eqb mode "rebase" then advanceRebase t wt (headBranch t) w
           else if Z.ltb 0 (ahead tr) then (emitSkip wt (headBranch t) SyncSkipNonFF w, None)
           else advanceFF t wt (headBranch t) w
       end.

(** *** What git prints is read back *)
Inductive track := InSync | Gone | Ahead (a : Z) | Behind (b : Z) | Diverged (a b : Z).
Record ref := { r_name : string; r_upstream : string; r_track : track }.

(** [%(upstream:track,nobracket)] *)
Definition track_text (t : track) : string :=
  match t with
  | InSync => ""
  | Gone => "gone"
  | Ahead a => "ahead " +:+ itoa a
  | Behind b => "behind " +:+ itoa b
  | Diverged a b => "ahead " +:+ itoa a +:+ ", behind " +:+ itoa b
  end.

Definition render_ref (r : ref) : string :=
  r_name r +:+ String tab (r_upstream r +:+ String tab (track_text (r_track r))).
Definition for_each_ref (refs : list ref) : string := foldr (fun r acc => render_ref r +:+ nl +:+ acc) "" refs.

Definition tracked (r : ref) : branchTrack :=
  match r_track r with
  | InSync => {| upstream := r_upstream r; ahead := 0; behind := 0; gone := false |}
  | Gone => {| upstream := r_upstream r; ahead := 0; behind := 0; gone := true |}
  | Ahead a => {| upstream := r_upstream r; ahead := a; behind := 0; gone := false |}
  | Behind b => {| upstream := r_upstream r; ahead := 0; behind := b; gone := false |}
  | Diverged a b => {| upstream := r_upstream r; ahead := a; behind := b; gone := false |}
  end.

Definition count_ok (n : Z) : Prop := (0 < n <= max_int64)%Z.

(** names without white space, as git has them, and counts git can print *)
Record ref_ok (r : ref) : Prop := {
  ok_name : r_name r <> "" /\ str_any is_space (r_name r) = false;
  ok_up : str_any is_space (r_upstream r) = false;
  ok_track : match r_track r with
             | InSync | Gone => True
             | Ahead n | Behind n => count_ok n
             | Diverged a b => count_ok a /\ count_ok b
             end
}.

Lemma no_space_no_byte c s : is_space c = true -> str_any is_space s = false -> has_byte c s = false.
Proof.
  intros Hc. unfold has_byte. induction s as [|a s IH]; simpl; [done|]. intros [Ha H]%orb_false_iff.
  rewrite (IH H), orb_false_r. destruct (Ascii.eqb_spec a c) as [->|]; [congruence|done].
Qed.

Lemma itoa_no (p : ascii -> bool) n : (0 < n)%Z -> (forall c, is_digit c = true -> p c = false) -> str_any p (itoa n) = false.
Proof. intros Hn Hp. apply digits_no; [done|]. pose proof (itoa_digits n Hn) as H. by apply andb_prop in H as [_ H]. Qed.
Lemma digit_plain c : is_digit c = true ->
  is_space c = false /\ Ascii.eqb c "," = false.
Proof. destruct c as [[] [] [] [] [] [] [] []]; by vm_compute. Qed.

Lemma trim_id s : str_any is_space s = false -> TrimSpace s = s.
Proof.
  intros H. unfold TrimSpace, trim. rewrite (trim_right_id is_space); destruct s as [|c s]; try done;
    simpl in H; apply orb_false_iff in H as [Hc H]; [by rewrite trim_left_id|]. rewrite trim_left_id by done. simpl. by rewrite Hc.
Qed.

(** a word, a space and a number *)
Lemma trim_word c w n : is_space c = false -> (0 < n)%Z ->
  TrimSpace (String c w +:+ itoa n) = String c w +:+ itoa n.
Proof.
  intros Hc Hn. unfold TrimSpace, trim. change (String c w +:+ itoa n) with (String c (w +:+ itoa n)).
  rewrite trim_left_id by done. change (String c (w +:+ itoa n)) with (String c w +:+ itoa n).
  assert (trim_right is_space (itoa n) = itoa n) as E by (apply trim_right_id, itoa_no; [done|apply digit_plain]).
  rewrite trim_right_app; rewrite E; [done|]. intros E0. pose proof (itoa_digits n Hn) as Hd. by rewrite E0 in Hd.
Qed.

Lemma atoi_count n : count_ok n -> atoi (itoa n) = Some n.
Proof. unfold count_ok. intros H. apply atoi_itoa. lia. Qed.

Lemma track_part_ahead tr n : count_ok n ->
  track_part tr ("ahead " +:+ itoa n) = {| upstream := upstream tr; ahead := n; behind := behind tr; gone := gone tr |}.
Proof.
  intros Hn. unfold track_part. rewrite (trim_word "a" "head ") by (done || apply Hn). cbn. by rewrite atoi_count.
Qed.

Lemma track_part_behind tr n : count_ok n ->
  track_part tr ("behind " +:+ itoa n) = {| upstream := upstream tr; ahead := ahead tr; behind := n; gone := gone tr |}.
Proof.
  intros Hn. unfold track_part. rewrite (trim_word "b" "ehind ") by (done || apply Hn). cbn. by rewrite atoi_count.
Qed.

Lemma track_part_spaced tr n : track_part tr (String " " ("behind " +:+ itoa n)) = track_part tr ("behind " +:+ itoa n).
Proof. reflexivity. Qed.

Lemma no_comma w n : (0 < n)%Z -> has_byte "," w = false -> has_byte "," (w +:+ itoa n) = false.
Proof. intros Hn Hw. rewrite has_byte_app, Hw. apply itoa_no; [done|]. intros c. apply digit_plain. Qed.

Lemma parse_track_reads r : ref_ok r -> parse_track (r_upstream r) (track_text (r_track r)) = tracked r.
Proof.
  intros [_ _ H]. unfold parse_track, tracked. destruct (r_track r) as [| |a|b|a b]; simpl in H; try done.
  - cbn [track_text]. change (String.eqb ("ahead " +:+ itoa a) "gone" || String.eqb ("ahead " +:+ itoa a) "") with false.
    change (String.eqb ("ahead " +:+ itoa a) "gone") with false. cbv iota.
    rewrite (split_one_line "," ("ahead " +:+ itoa a)) by (apply no_comma; [apply H|done]). cbn [foldl]. by rewrite track_part_ahead.
  - cbn [track_text]. change (String.eqb ("behind " +:+ itoa b) "gone" || String.eqb ("behind " +:+ itoa b) "") with false.
    change (String.eqb ("behind " +:+ itoa b) "gone") with false. cbv iota.
    rewrite (split_one_line "," ("behind " +:+ itoa b)) by (apply no_comma; [apply H|done]). cbn [foldl]. by rewrite track_part_behind.
  - cbn [track_text]. destruct H as [Ha Hb]. set (t := "ahead " +:+ itoa a +:+ ", behind " +:+ itoa b).
    change (String.eqb t "gone" || String.eqb t "") with false. change (String.eqb t "gone") with false. cbv iota.
    assert (split_byte "," t = ["ahead " +:+ itoa a; String " " ("behind " +:+ itoa b)]) as ->.
    { unfold t. change (", behind " +:+ itoa b) with (String "," (String " " ("behind " +:+ itoa b))).
      rewrite <- str_app_assoc, split_app_line by (apply no_comma; [apply Ha|done]). f_equal.
      apply split_one_line. change (has_byte "," (" behind " +:+ itoa b) = false). apply no_comma; [apply Hb|done]. }
    cbn [foldl]. rewrite track_part_spaced, track_part_ahead by done. by rewrite track_part_behind.
Qed.

Lemma cut_tab a b : str_any is_space a = false -> cut_byte tab (a +:+ String tab b) = Some (a, b).
Proof. intros H. apply cut_byte_here. by apply (no_space_no_byte tab). Qed.

Lemma parse_line_reads m r : ref_ok r -> parse_line m (render_ref r) = <[r_name r := tracked r]> m.
Proof.
  intros Hr. pose proof Hr as [[_ Hn] Hu _]. unfold parse_line, render_ref. rewrite (cut_tab (r_name r)) by done.
  rewrite cut_tab by done. by rewrite parse_track_reads.
Qed.

(** the last line as [TrimSpace] leaves it *)
Definition lost (r : ref) : bool := String.eqb (r_upstream r) "" && String.eqb (track_text (r_track r)) "".
Definition trimmed (r : ref) : string :=
  if String.eqb (track_text (r_track r)) ""
  then if String.eqb (r_upstream r) "" then r_name r else r_name r +:+ String tab (r_upstream r)
  else render_ref r.

Lemma track_text_end r : ref_ok r -> track_text (r_track r) <> "" ->
  trim_right is_space (track_text (r_track r)) = track_text (r_track r).
Proof.
  intros [_ _ H] Hne. destruct (r_track r) as [| |a|b|a b]; try done; simpl in H; cbn [track_text] in *.
  - rewrite trim_right_app; rewrite trim_right_id; try done; try (apply itoa_no; [apply H|apply digit_plain]).
    intros E. pose proof (itoa_digits a ltac:(apply H)) as Hd. by rewrite E in Hd.
  - rewrite trim_right_app; rewrite trim_right_id; try done; try (apply itoa_no; [apply H|apply digit_plain]).
    intros E. pose proof (itoa_digits b ltac:(apply H)) as Hd. by rewrite E in Hd.
  - destruct H as [_ Hb]. rewrite <- !str_app_assoc.
    rewrite trim_right_app; rewrite trim_right_id; try done; try (apply itoa_no; [apply Hb|apply digit_plain]).
    intros E. pose proof (itoa_digits b ltac:(apply Hb)) as Hd. by rewrite E in Hd.
Qed.

Lemma name_end r : ref_ok r -> trim_right is_space (r_name r) = r_name r.
Proof. intros [[_ H] _ _]. by apply trim_right_id. Qed.

Lemma trimmed_line r : ref_ok r -> trim_right is_space (render_ref r) = trimmed r /\ trimmed r <> "".
Proof.
  intros Hr. pose proof (name_end r Hr) as Hn. pose proof Hr as [[Hne Hns] Hu Ht]. unfold trimmed, render_ref.
  destruct (String.eqb_spec (track_text (r_track r)) "") as [->|Htt].
  - destruct (String.eqb_spec (r_upstream r) "") as [->|Hup].
    + split; [|done]. rewrite trim_right_spaces by done. done.
    + split; [|by destruct (r_name r)].
      change (String tab (r_upstream r +:+ String tab "")) with (String tab (r_upstream r) +:+ String tab "").
      rewrite <- str_app_assoc, trim_right_spaces by done.
      rewrite trim_right_app; [|simpl; rewrite trim_right_id by done; by destruct (r_upstream r)].
      f_equal. simpl. rewrite trim_right_id by done. by destruct (r_upstream r).
  - pose proof (track_text_end r Hr Htt) as He. split; [|by destruct (r_name r)].
    assert (trim_right is_space (String tab (r_upstream r +:+ String tab (track_text (r_track r)))) =
            String tab (r_upstream r +:+ String tab (track_text (r_track r)))) as E2.
    { change (String tab (r_upstream r +:+ String tab (track_text (r_track r))))
        with ((String tab (r_upstream r)) +:+ (String tab "" +:+ track_text (r_track r))).
      rewrite <- str_app_assoc, trim_right_app; rewrite He; done. }
    rewrite trim_right_app; rewrite E2; done.
Qed.

Lemma render_no_newline r : ref_ok r -> has_byte newline (render_ref r) = false.
Proof.
  intros [[_ Hn] Hu Ht]. unfold render_ref, count_ok in *.
  change (String tab (r_upstream r +:+ String tab (track_text (r_track r))))
    with (String tab "" +:+ (r_upstream r +:+ (String tab "" +:+ track_text (r_track r)))).
  rewrite !has_byte_app, (no_space_no_byte newline _ eq_refl Hn), (no_space_no_byte newline _ eq_refl Hu).
  destruct (r_track r); cbn [track_text]; rewrite ?has_byte_app, ?itoa_no_byte by (done || lia); done.
Qed.

Lemma trim_right_no_byte c s : has_byte c s = false -> has_byte c (trim_right is_space s) = false.
Proof.
  unfold has_byte. induction s as [|a s IH]; [done|]. cbn [trim_right str_any]. intros [Ha H]%orb_false_iff.
  specialize (IH H). destruct (trim_right is_space s); [destruct (is_space a); [done|]|]; cbn in *; by rewrite Ha, ?IH.
Qed.

Lemma for_each_snoc refs r : for_each_ref (refs ++ [r]) = for_each_ref refs +:+ (render_ref r +:+ nl).
Proof.
  unfold for_each_ref in *. induction refs as [|x refs IH]; [done|]. cbn [app foldr]. by rewrite IH, !str_app_assoc.
Qed.

Lemma split_for_each refs x : Forall ref_ok refs -> has_byte newline x = false ->
  split_byte newline (for_each_ref refs +:+ x) = (render_ref <$> refs) ++ [x].
Proof.
  intros Hr Hx. induction Hr as [|r refs Hr _ IH]; [by apply split_one_line|].
  change (for_each_ref (r :: refs)) with (render_ref r +:+ (String newline (for_each_ref refs))).
  rewrite str_app_assoc. change (String newline (for_each_ref refs) +:+ x) with (String newline (for_each_ref refs +:+ x)).
  rewrite split_app_line by (by apply render_no_newline). by rewrite IH.
Qed.

Lemma trim_for_each refs l : Forall ref_ok (refs ++ [l]) ->
  TrimSpace (for_each_ref (refs ++ [l])) = for_each_ref refs +:+ trimmed l.
Proof.
  intros H. unfold TrimSpace, trim. assert (trim_left is_space (for_each_ref (refs ++ [l])) = for_each_ref (refs ++ [l])) as ->.
  { destruct (refs ++ [l]) as [|r rs]; [done|]. apply Forall_cons in H as [[[Hne Hns] _ _] _].
    unfold for_each_ref. cbn [foldr]. unfold render_ref. destruct (r_name r) as [|c s]; [done|].
    apply trim_left_id. cbn in Hns. by apply orb_false_iff in Hns as [? _]. }
  apply Forall_app in H as [_ [Hl _]%Forall_cons]. destruct (trimmed_line l Hl) as [E Hne].
  assert (trim_right is_space (render_ref l +:+ nl) = trimmed l) as E2 by (by rewrite trim_right_spaces).
  rewrite for_each_snoc, trim_right_app; rewrite E2; done.
Qed.

Lemma parse_last m l : ref_ok l -> parse_line m (trimmed l) = if lost l then m else <[r_name l := tracked l]> m.
Proof.
  intros Hl. pose proof Hl as [[_ Hn] Hu _]. pose proof (parse_line_reads m l Hl) as Hp. revert Hp. unfold trimmed, lost, render_ref.
  destruct (String.eqb_spec (track_text (r_track l)) "") as [E|]; [|by rewrite andb_false_r].
  destruct (String.eqb_spec (r_upstream l) "") as [E2|]; cbn [andb].
  - intros _. unfold parse_line. assert (cut_byte tab (r_name l) = None) as ->; [|done].
    apply cut_byte_None. by apply (no_space_no_byte tab).
  - intros <-. unfold parse_line. rewrite !(cut_tab (r_name l)) by done. rewrite E, cut_tab by done.
    assert (cut_byte tab (r_upstream l) = None) as ->; [|done]. apply cut_byte_None. by apply (no_space_no_byte tab).
Qed.

(** the branches the map keeps of what git printed *)
Definition kept (refs : list ref) (l : ref) : list ref := if lost l then refs else refs ++ [l].

Lemma named_once (rs : list ref) x y : NoDup (r_name <$> rs) -> x ∈ rs -> y ∈ rs -> r_name x = r_name y -> x = y.
Proof.
  intros Hnd [i Hi]%list_elem_of_lookup [k Hk]%list_elem_of_lookup E.
  assert (i = k) as -> by (eapply NoDup_lookup; [exact Hnd|by rewrite list_lookup_fmap, Hi|rewrite list_lookup_fmap, Hk; cbn; by rewrite E]).
  congruence.
Qed.

Lemma branchTrackStates_map refs l : Forall ref_ok (refs ++ [l]) ->
  branchTrackStates (for_each_ref (refs ++ [l])) = foldl (fun m r => <[r_name r := tracked r]> m) ∅ (kept refs l).
Proof.
  intros H. unfold branchTrackStates. rewrite trim_for_each by done. pose proof H as [Hr [Hl _]%Forall_cons]%Forall_app.
  rewrite split_for_each by (done || rewrite <- (proj1 (trimmed_line l Hl)); by apply trim_right_no_byte, render_no_newline).
  rewrite foldl_app. cbn [foldl]. rewrite parse_last by done.
  assert (forall m, foldl parse_line m (render_ref <$> refs) = foldl (fun m r => <[r_name r := tracked r]> m) m refs) as ->.
  { clear -Hr. induction Hr as [|r refs Hr _ IH]; intros m; [done|]. cbn. by rewrite parse_line_reads, IH. }
  unfold kept. destruct (lost l); [done|]. by rewrite foldl_app.
Qed.

Lemma inserted (rs : list ref) (m : gmap string branchTrack) b tr : NoDup (r_name <$> rs) ->
  foldl (fun m r => <[r_name r := tracked r]> m) m rs !! b = Some tr <->
  (exists r, r ∈ rs /\ r_name r = b /\ tr = tracked r) \/ (b ∉ r_name <$> rs /\ m !! b = Some tr).
Proof.
  revert m. induction rs as [|r rs IH]; intros m; cbn [foldl fmap list_fmap].
  - intros _. split; [intros H; right; split; [apply not_elem_of_nil|done]|]. by intros [(? & ?%elem_of_nil & _)|[_ ?]].
  - intros [Hr Hnd]%NoDup_cons. rewrite IH by done. destruct (decide (r_name r = b)) as [<-|Hb].
    + rewrite lookup_insert_eq. split.
      * intros [(x & Hx & E & _)|[_ [= <-]]]; [|left; exists r; split; [by left|done]].
        destruct Hr. rewrite <- E. by apply list_elem_of_fmap_2.
      * intros [(x & [->|Hx]%elem_of_cons & E & ->)|[[]%not_elem_of_cons _]]; [by right| |done].
        destruct Hr. rewrite <- E. by apply list_elem_of_fmap_2.
    + rewrite lookup_insert_ne by done. rewrite not_elem_of_cons. split.
      * intros [(x & Hx & E & ->)|[? ?]]; [left; exists x; split; [by right|done]|right; naive_solver].
      * intros [(x & [->|Hx]%elem_of_cons & E & ->)|[[_ ?] ?]]; [done|left; eauto|by right].
Qed.

(** The map of branch tracks is what git printed, read back.  For
    any branches git can report (names and upstreams without white space,
    names pairwise different, positive counts that fit), the map that
    [branchTrackStates] parses out of [for-each-ref]'s text holds, under each
    branch's name, its upstream, its ahead and behind counts and whether the
    upstream is gone, and nothing else.  The one exception is the text's last
    line: when that branch has no upstream, the [TrimSpace] of the whole
    output eats its tabs and the branch is missing from the map.  A working
    tree on it, or on any branch without an upstream, is nevertheless always
    skipped with the reason [no_upstream], the missing one by the slower
    path that asks git. *)
Theorem branchTrackStates_reads_back refs l :
  Forall ref_ok (refs ++ [l]) -> NoDup (r_name <$> refs ++ [l]) ->
  let tracks := branchTrackStates (for_each_ref (refs ++ [l])) in
  (forall b tr, tracks !! b = Some tr <-> exists r, r ∈ kept refs l /\ r_name r = b /\ tr = tracked r) /\
  (forall r t wt mode w,
     r ∈ refs ++ [l] -> r_upstream r = "" -> exists_ t = true -> headBranch t = r_name r ->
     symbolicRef t = Some ("refs/heads/" +:+ r_name r) -> hasUpstream t = false ->
     syncWorktreeFromTracks t wt mode tracks w = (emitSkip wt (r_name r) SyncSkipNoUpstream w, None)).
Proof.
  intros Hok Hnd tracks.
  assert (forall b tr, tracks !! b = Some tr <-> exists r, r ∈ kept refs l /\ r_name r = b /\ tr = tracked r) as Hmap.
  { intros b tr. unfold tracks. rewrite branchTrackStates_map by done. rewrite inserted.
    - split; [|by left]. intros [?|[_ H]]; [done|]. by rewrite lookup_empty in H.
    - unfold kept. destruct (lost l); [|done]. rewrite fmap_app in Hnd. by apply NoDup_app in Hnd as [? _]. }
  split; [done|]. intros r t wt mode w Hr Hup He Hh Hs Hu. unfold syncWorktreeFromTracks. rewrite He, Hh. cbn [negb].
  assert (ref_ok r) as [[Hne Hsp] _ _] by (by eapply Forall_forall in Hok).
  apply String.eqb_neq in Hne as ->. destruct (tracks !! r_name r) as [tr|] eqn:E.
  - apply Hmap in E as (r' & Hr' & Heq & ->).
    assert (r' ∈ refs ++ [l]) as Hin by (unfold kept in Hr'; destruct (lost l); [apply elem_of_app; by left|done]).
    assert (r' = r) as -> by (by apply (named_once (refs ++ [l]))).
    assert (upstream (tracked r) = "") as -> by (unfold tracked; by destruct (r_track r)). done.
  - unfold SyncWorktree. rewrite He, Hs, Hu. cbn [negb]. unfold trim_prefix.
    rewrite (proj2 (cut_prefix_app _ _ _) eq_refl), trim_id by done. done.
Qed.

Lemma branchTrackStates_reads_back_witness :
  let refs := [{| r_name := "main"; r_upstream := "origin/main"; r_track := Diverged 2 11 |};
               {| r_name := "old"; r_upstream := "origin/old"; r_track := Gone |}] in
  let l := {| r_name := "topic"; r_upstream := ""; r_track := InSync |} in
  branchTrackStates (for_each_ref (refs ++ [l])) !! "main" =
    Some {| upstream := "origin/main"; ahead := 2; behind := 11; gone := false |} /\
  branchTrackStates (for_each_ref (refs ++ [l])) !! "topic" = None /\
  (forall b tr, branchTrackStates (for_each_ref (refs ++ [l])) !! b = Some tr <->
     exists r, r ∈ kept refs l /\ r_name r = b /\ tr = tracked r).
Proof.
  intros refs l. split; [by vm_compute|]. split; [by vm_compute|].
  refine (proj1 (branchTrackStates_reads_back refs l _ _)).
  - repeat constructor; done.
  - by apply (bool_decide_unpack _); vm_compute.
Defined.

(** *** What it may do to a working tree *)
Lemma emitSkip_ran wt b r w : ran (emitSkip wt b r w) = ran w.
Proof. unfold emitSkip. by destruct (String.eqb _ _). Qed.

(** the commands of one visit *)
Definition visit_ok (t : Tree) (wt mode : string) (tracks : gmap string branchTrack) (cmds : list git) : Prop :=
  cmds = [] \/
  ((cmds = [MergeFFOnly wt] /\ mode <> "rebase" /\ clean t = Some true) \/
   (cmds = (if rebase_ok t then [RebaseAutostash wt] else [RebaseAutostash wt; RebaseAbort wt]) /\ mode = "rebase")) /\
  exists_ t = true /\ headBranch t <> "" /\
  match tracks !! headBranch t with
  | Some tr => upstream tr <> "" /\ gone tr = false /\ behind tr <> 0%Z /\ (mode <> "rebase" -> (ahead tr <= 0)%Z)
  | None => hasUpstream t = true /\ is_Some (symbolicRef t)
  end.

Lemma advanceFF_ran t wt b w : exists cmds, ran (advanceFF t wt b w).1 = ran w ++ cmds /\
  (cmds = [] \/ (cmds = [MergeFFOnly wt] /\ clean t = Some true)).
Proof.
  unfold advanceFF. destruct (clean t) as [[|]|].
  - exists [MergeFFOnly wt]. split; [|by right]. by destruct (merge_ff t); simpl; rewrite ?emitSkip_ran.
  - exists []. rewrite app_nil_r. simpl. rewrite emitSkip_ran. split; [done|by left].
  - exists []. rewrite app_nil_r. split; [done|by left].
Qed.

Lemma advanceRebase_ran t wt b w : ran (advanceRebase t wt b w).1 =
  ran w ++ (if rebase_ok t then [RebaseAutostash wt] else [RebaseAutostash wt; RebaseAbort wt]).
Proof.
  unfold advanceRebase. destruct (rebase_ok t); [done|]. simpl. rewrite emitSkip_ran.
  destruct (abort_ok t); simpl; by rewrite <- app_assoc.
Qed.

Lemma none_ran t wt mode tracks (w w' : World) : ran w' = ran w ->
  exists cmds, ran w' = ran w ++ cmds /\ visit_ok t wt mode tracks cmds.
Proof. intros E. exists []. rewrite app_nil_r. split; [done|by left]. Qed.

(** a visit of the sweep to a working tree runs no git command on
    it, or one fast-forward merge, or one rebase that is aborted exactly when
    it failed. It merges only in ff mode and only into a clean tree; either
    one only when the branch is checked out, has an upstream that was not
    deleted, and is behind it, and in ff mode not ahead of it (for a branch
    missing from the tracks git itself is asked for the upstream). *)
Theorem sweep_commands t wt mode tracks w :
  exists cmds, ran (syncWorktreeFromTracks t wt mode tracks w).1 = ran w ++ cmds /\ visit_ok t wt mode tracks cmds.
Proof.
  unfold syncWorktreeFromTracks. destruct (exists_ t) eqn:Ee; [|apply none_ran; apply emitSkip_ran]. cbn [negb].
  destruct (String.eqb_spec (headBranch t) "") as [|Hb]; [apply none_ran; apply emitSkip_ran|].
  destruct (tracks !! headBranch t) as [tr|] eqn:Et.
  - destruct (String.eqb_spec (upstream tr) "") as [|Hu]; [apply none_ran; apply emitSkip_ran|]. cbn [orb].
    destruct (gone tr) eqn:Eg; [apply none_ran; apply emitSkip_ran|].
    destruct (Z.eqb_spec (behind tr) 0) as [|Hbe]; [by apply none_ran|].
    destruct (String.eqb_spec mode "rebase") as [Em|Em].
    + rewrite advanceRebase_ran. eexists. split; [done|]. right. split; [by right|]. rewrite Et. by repeat split.
    + destruct (Z.ltb_spec 0 (ahead tr)) as [|Ha]; [apply none_ran; apply emitSkip_ran|].
      destruct (advanceFF_ran t wt (headBranch t) w) as (cmds & -> & [->|[-> Hc]]); [by exists []; split; [|left]|].
      eexists. split; [done|]. right. split; [by left|]. rewrite Et. by repeat split.
  - unfold SyncWorktree. rewrite Ee. cbn [negb]. destruct (symbolicRef t) as [head|] eqn:Es; [|apply none_ran; apply emitSkip_ran].
    destruct (hasUpstream t) eqn:Eu; [|apply none_ran; apply emitSkip_ran]. cbn [negb]. unfold advance.
    destruct (String.eqb_spec mode "rebase") as [Em|Em].
    + rewrite advanceRebase_ran. eexists. split; [done|]. right. split; [by right|]. rewrite Et. by repeat split.
    + destruct (advanceFF_ran t wt (TrimSpace (trim_prefix "refs/heads/" head)) w) as (cmds & -> & [->|[-> Hc]]);
        [by exists []; split; [|left]|].
      eexists. split; [done|]. right. split; [by left|]. rewrite Et. by repeat split.
Qed.

(** *** The skip markers mirror the log *)
Definition marker (wt : string) (acc : string) (e : event) : string :=
  match e with
  | FetchSkip p _ reason => if String.eqb p wt then reason else acc
  | FetchPull p _ _ => if String.eqb p wt then "" else acc
  | FetchRebaseError _ _ => acc
  end.
Definition last_marker (wt : string) (l : list event) : string := foldl (marker wt) "" l.

(** no skip event repeats the reason of the one before it *)
Fixpoint no_repeats (wt acc : string) (l : list event) : Prop :=
  match l with
  | [] => True
  | e :: l' => match e with FetchSkip p _ reason => p = wt -> reason <> acc | _ => True end /\ no_repeats wt (marker wt acc e) l'
  end.

Record mirrored (w : World) : Prop := {
  mir_last : forall wt, SyncLastSkip wt (sync w) = last_marker wt (log w);
  mir_rep : forall wt, no_repeats wt "" (log w)
}.

Lemma no_repeats_snoc wt acc l e : no_repeats wt acc (l ++ [e]) <->
  no_repeats wt acc l /\ match e with FetchSkip p _ reason => p = wt -> reason <> foldl (marker wt) acc l | _ => True end.
Proof. revert acc. induction l as [|x l IH]; intros acc; simpl; [tauto|]. rewrite IH. tauto. Qed.

Lemma skip_of_set wt reason p s : SyncLastSkip p (RecordSyncSkip wt reason s) = if decide (p = wt) then reason else SyncLastSkip p s.
Proof.
  unfold SyncLastSkip, RecordSyncSkip. simpl. destruct (String.eqb_spec reason "") as [->|]; case_decide as E; subst;
    rewrite ?lookup_delete_eq, ?lookup_insert_eq, ?lookup_delete_ne, ?lookup_insert_ne by done; done.
Qed.

Lemma mirrored_skip wt b reason w : mirrored w -> mirrored (emitSkip wt b reason w).
Proof.
  intros [H1 H2]. unfold emitSkip. destruct (String.eqb_spec (SyncLastSkip wt (sync w)) reason) as [E|E]; split; simpl.
  - intros p. rewrite skip_of_set. case_decide; [subst; by rewrite H1|apply H1].
  - apply H2.
  - intros p. unfold last_marker. rewrite foldl_snoc, skip_of_set. simpl. case_decide as Hd.
    + subst. by rewrite String.eqb_refl.
    + destruct (String.eqb_spec wt p); [done|]. apply H1.
  - intros p. apply no_repeats_snoc. split; [apply H2|]. intros <-. unfold last_marker in H1. rewrite <- H1. auto.
Qed.

Lemma mirrored_advance wt b mode w : mirrored w -> mirrored (emitAdvance wt b mode w).
Proof.
  intros [H1 H2]. unfold emitAdvance. split; simpl.
  - intros p. unfold last_marker. rewrite foldl_snoc, skip_of_set. simpl. case_decide as Hd.
    + subst. by rewrite String.eqb_refl.
    + destruct (String.eqb_spec wt p); [done|]. apply H1.
  - intros p. apply no_repeats_snoc. by split.
Qed.

Lemma mirrored_git g w : mirrored w -> mirrored (run_git g w).
Proof. intros [H1 H2]. by split. Qed.

Lemma mirrored_rebase_error wt b w : mirrored w -> mirrored (write_event (FetchRebaseError wt b) w).
Proof.
  intros [H1 H2]. split; simpl.
  - intros p. unfold last_marker. rewrite foldl_snoc. apply H1.
  - intros p. apply no_repeats_snoc. by split.
Qed.

#[local] Hint Resolve mirrored_skip mirrored_advance mirrored_git mirrored_rebase_error : core.

Lemma mirrored_advanceFF t wt b w : mirrored w -> mirrored (advanceFF t wt b w).1.
Proof. intros H. unfold advanceFF. destruct (clean t) as [[|]|]; [destruct (merge_ff t)|..]; simpl; auto. Qed.

Lemma mirrored_advanceRebase t wt b w : mirrored w -> mirrored (advanceRebase t wt b w).1.
Proof. intros H. unfold advanceRebase. destruct (rebase_ok t); simpl; auto. destruct (abort_ok t); auto 6. Qed.

#[local] Hint Resolve mirrored_advanceFF mirrored_advanceRebase : core.

Lemma mirrored_visit t wt mode tracks w : mirrored w -> mirrored (syncWorktreeFromTracks t wt mode tracks w).1.
Proof.
  intros H. unfold syncWorktreeFromTracks, SyncWorktree, advance. repeat case_match; simpl; auto.
Qed.

Record visit := { v_tree : Tree; v_wt : string; v_mode : string; v_tracks : gmap string branchTrack }.
Definition sweeps (l : list visit) (w : World) : World :=
  foldl (fun w v => (syncWorktreeFromTracks (v_tree v) (v_wt v) (v_mode v) (v_tracks v) w).1) w l.
Definition boot : World := {| sync := NewSync; ran := []; log := [] |}.

(** after any sequence of visits to any working trees, the skip
    reason [sync_status] shows for a tree is that of its last skip event, or
    none when a pull came after it; and the log never has two skip events of
    a tree with the same reason and no other event of the tree between them. *)
Theorem skip_markers_mirror l wt :
  SyncLastSkip wt (sync (sweeps l boot)) = last_marker wt (log (sweeps l boot)) /\
  no_repeats wt "" (log (sweeps l boot)).
Proof.
  assert (mirrored (sweeps l boot)) as [H1 H2]; [|by split].
  induction l as [|v l IH] using rev_ind; [by split|]. unfold sweeps in *. rewrite foldl_snoc. by apply mirrored_visit.
Qed.
End Sweep.
