(* ===== verification/YamlPatch.v ===== *)
(** * Values in a YAML document by dotted path

    [internal/yamlpatch/yamlpatch.go]: the path language ([ParsePath]) and
    the two edits of a document tree ([Set], [Unset]); and the walks of
    [internal/patcher/filter.go] over the same tree ([yamlScalarAt],
    [yamlDeleteAt]).  The tree is [yaml.v3]'s [Node]: its kind, its scalar
    value, its children, and everything else it carries (style, tag,
    comments, position) as one opaque field, so that what an edit leaves
    alone includes the comments.  Parsing and printing YAML text is the
    library's. *)
From stdpp Require Import base strings list.
From Stdlib Require Import ZArith Lia.
From S2P Require Import Prelude GoStrings Lines.
#[local] Open Scope treeman_scope.

(** ** Paths *)
Inductive Segment := Key (k : string) | Index (i : Z).

Inductive kind := NoKind | DocumentNode | SequenceNode | MappingNode | ScalarNode | AliasNode.

Inductive error :=
| PathEmpty
| EmptySegment
| UnclosedBracket
| NonInteger (s : string)
| ExpectedSequence (seg : nat) (got : kind)
| OutOfRange (seg : nat) (idx : Z) (len : nat)
| ExpectedMapping (seg : nat) (key : string) (got : kind)
| KeyNotFound (seg : nat) (key : string)
| DocumentEmpty
| Unreachable
| IndexPanic.            (* a mapping with a key and no value *)

#[export] Instance kind_eq_dec : EqDecision kind.
Proof. solve_decision. Defined.
#[export] Instance Segment_eq_dec : EqDecision Segment.
Proof. solve_decision. Defined.

(** the loop over one part between dots; each turn consumes a bracket *)
Fixpoint parse_part (fuel : nat) (part : string) (segs : list Segment) : res error (list Segment) :=
  match cut_byte "[" part with
  | None => Ok (if String.eqb part "" then segs else segs ++ [Key part])
  | Some (before, after) =>
      let segs1 := if String.eqb before "" then segs else segs ++ [Key before] in
      match cut_byte "]" after with
      | None => Err UnclosedBracket
      | Some (num, rest) =>
          match atoi num with
          | None => Err (NonInteger num)
          | Some n =>
              match fuel with
              | S fuel' => parse_part fuel' rest (segs1 ++ [Index n])
              | O => Err Unreachable
              end
          end
      end
  end.

Definition parse_step (acc : res error (list Segment)) (part : string) : res error (list Segment) :=
  let? segs := acc in
  if String.eqb part "" then Err EmptySegment else parse_part (String.length part) part segs.

Definition ParsePath (p : string) : res error (list Segment) :=
  if String.eqb p "" then Err PathEmpty else foldl parse_step (Ok []) (split_byte "." p).

Example parse_ex : ParsePath "a.b[0][12].c" = Ok [Key "a"; Key "b"; Index 0; Index 12; Key "c"].
Proof. reflexivity. Qed.
Example parse_glued : ParsePath "a[0]b" = Ok [Key "a"; Index 0; Key "b"].
Proof. reflexivity. Qed.
Example parse_bad : ParsePath "a..b" = Err EmptySegment /\ ParsePath "a[x]" = Err (NonInteger "x") /\
  ParsePath "a[1" = Err UnclosedBracket.
Proof. done. Qed.

(** ** The tree *)
#[local] Set Warnings "-register-all".
Section Tree.
Context {M : Type} (m0 : M).

Inductive Node := node (Kind : kind) (Value : string) (Meta : M) (Content : list Node).

Definition Kind (n : Node) : kind := match n with node k _ _ _ => k end.
Definition Value (n : Node) : string := match n with node _ v _ _ => v end.
Definition Meta (n : Node) : M := match n with node _ _ m _ => m end.
Definition Content (n : Node) : list Node := match n with node _ _ _ c => c end.
Definition with_content (c : list Node) (n : Node) : Node := node (Kind n) (Value n) (Meta n) c.

(** the nodes the code makes itself *)
Definition key_node (k : string) : Node := node ScalarNode k m0 [].
Definition empty_map : Node := node MappingNode "" m0 [].

(** a mapping holds its keys at the even places: the place of a key *)
Fixpoint key_index (key : string) (c : list Node) : option nat :=
  match c with
  | [] => None
  | k :: rest =>
      if String.eqb (Value k) key then Some 0
      else match rest with [] => None | _ :: rest' => option_map (fun i => S (S i)) (key_index key rest') end
  end.

Definition in_bounds (i : Z) (c : list Node) : bool := Z.leb 0 i && Z.ltb i (Z.of_nat (length c)).

(** the walk of [Set] from the [i]th segment on: the tree it leaves, also
    beside an error, and the node that was replaced *)
Fixpoint set_at (i : nat) (segs : list Segment) (v cur : Node) : Node * res error (option Node) :=
  match segs with
  | [] => (cur, Ok None)
  | Index x :: rest =>
      if bool_decide (Kind cur = SequenceNode) then
        if in_bounds x (Content cur) then
          match Content cur !! Z.to_nat x with
          | None => (cur, Err IndexPanic)
          | Some child =>
              match rest with
              | [] => (with_content (<[Z.to_nat x := v]> (Content cur)) cur, Ok (Some child))
              | _ => let '(child', r) := set_at (S i) rest v child in
                     (with_content (<[Z.to_nat x := child']> (Content cur)) cur, r)
              end
          end
        else (cur, Err (OutOfRange i x (length (Content cur))))
      else (cur, Err (ExpectedSequence i (Kind cur)))
  | Key k :: rest =>
      if bool_decide (Kind cur = MappingNode) then
        match key_index k (Content cur) with
        | None =>
            match rest with
            | [] => (with_content (Content cur ++ [key_node k; v]) cur, Ok None)
            | _ => let '(child', r) := set_at (S i) rest v empty_map in
                   (with_content (Content cur ++ [key_node k; child']) cur, r)
            end
        | Some idx =>
            match Content cur !! S idx with
            | None => (cur, Err IndexPanic)
            | Some child =>
                match rest with
                | [] => (with_content (<[S idx := v]> (Content cur)) cur, Ok (Some child))
                | _ => let '(child', r) := set_at (S i) rest v child in
                       (with_content (<[S idx := child']> (Content cur)) cur, r)
                end
            end
        end
      else (cur, Err (ExpectedMapping i k (Kind cur)))
  end.

Definition Set_ (root : Node) (segs : list Segment) (newVal : Node) : Node * res error (option Node) :=
  if bool_decide (Kind root = DocumentNode) then
    let c := match Content root with [] => [empty_map] | c => c end in
    match c with
    | [] => (root, Err IndexPanic)
    | top :: others => let '(top', r) := set_at 0 segs newVal top in (with_content (top' :: others) root, r)
    end
  else set_at 0 segs newVal root.

(** [append(c[:i], c[i+n:]...)] *)
Definition splice_out (i n : nat) (c : list Node) : list Node := take i c ++ drop (i + n) c.

Fixpoint unset_at (i : nat) (segs : list Segment) (cur : Node) : Node * res error Node :=
  match segs with
  | [] => (cur, Err Unreachable)
  | Index x :: rest =>
      if bool_decide (Kind cur = SequenceNode) then
        if in_bounds x (Content cur) then
          match Content cur !! Z.to_nat x with
          | None => (cur, Err IndexPanic)
          | Some child =>
              match rest with
              | [] => (with_content (splice_out (Z.to_nat x) 1 (Content cur)) cur, Ok child)
              | _ => let '(child', r) := unset_at (S i) rest child in
                     (with_content (<[Z.to_nat x := child']> (Content cur)) cur, r)
              end
          end
        else (cur, Err (OutOfRange i x (length (Content cur))))
      else (cur, Err (ExpectedSequence i (Kind cur)))
  | Key k :: rest =>
      if bool_decide (Kind cur = MappingNode) then
        match key_index k (Content cur) with
        | None => (cur, Err (KeyNotFound i k))
        | Some idx =>
            match Content cur !! S idx with
            | None => (cur, Err IndexPanic)
            | Some child =>
                match rest with
                | [] => (with_content (splice_out idx 2 (Content cur)) cur, Ok child)
                | _ => let '(child', r) := unset_at (S i) rest child in
                       (with_content (<[S idx := child']> (Content cur)) cur, r)
                end
            end
        end
      else (cur, Err (ExpectedMapping i k (Kind cur)))
  end.

Definition Unset (root : Node) (segs : list Segment) : Node * res error Node :=
  match segs with
  | [] => (root, Err PathEmpty)
  | _ =>
      if bool_decide (Kind root = DocumentNode) then
        match Content root with
        | [] => (root, Err DocumentEmpty)
        | top :: others => let '(top', r) := unset_at 0 segs top in (with_content (top' :: others) root, r)
        end
      else unset_at 0 segs root
  end.

(** *** The walks of the patch filter *)
(** the value of a key: [Content[i+1]] *)
Definition value_of (k : string) (c : list Node) : option Node := key_index k c ≫= fun i => c !! S i.

Fixpoint node_at (segs : list Segment) (n : Node) : option Node :=
  match segs with
  | [] => Some n
  | Index x :: rest =>
      if bool_decide (Kind n = SequenceNode) && in_bounds x (Content n)
      then Content n !! Z.to_nat x ≫= node_at rest else None
  | Key k :: rest =>
      if bool_decide (Kind n = MappingNode) then value_of k (Content n) ≫= node_at rest else None
  end.

Definition top_node (doc : Node) : Node :=
  if bool_decide (Kind doc = DocumentNode) then match Content doc with t :: _ => t | [] => doc end else doc.

Definition yamlScalarAt (doc : Node) (segs : list Segment) : option string :=
  match node_at segs (top_node doc) with
  | Some n => if bool_decide (Kind n = ScalarNode) then Some (Value n) else None
  | None => None
  end.

(** the removal at the end of [yamlDeleteAt], of a node's child *)
Definition delete_child (last : Segment) (n : Node) : Node :=
  match last with
  | Index x =>
      if bool_decide (Kind n = SequenceNode) && in_bounds x (Content n)
      then with_content (splice_out (Z.to_nat x) 1 (Content n)) n else n
  | Key k =>
      if bool_decide (Kind n = MappingNode) then
        match key_index k (Content n) with
        | Some i => if Nat.ltb (S i) (length (Content n)) then with_content (splice_out i 2 (Content n)) n else n
        | None => n
        end
      else n
  end.

(** [yamlWalkToParent], and the removal in the parent it finds *)
Fixpoint delete_at (segs : list Segment) (n : Node) : Node :=
  match segs with
  | [] => n
  | [last] => delete_child last n
  | Index x :: rest =>
      if bool_decide (Kind n = SequenceNode) && in_bounds x (Content n)
      then match Content n !! Z.to_nat x with
           | Some child => with_content (<[Z.to_nat x := delete_at rest child]> (Content n)) n
           | None => n
           end
      else n
  | Key k :: rest =>
      if bool_decide (Kind n = MappingNode) then
        match key_index k (Content n) with
        | Some i => match Content n !! S i with
                    | Some child => with_content (<[S i := delete_at rest child]> (Content n)) n
                    | None => n
                    end
        | None => n
        end
      else n
  end.

Definition yamlDeleteAt (doc : Node) (segs : list Segment) : Node :=
  if bool_decide (Kind doc = DocumentNode) then
    match Content doc with
    | top :: others => with_content (delete_at segs top :: others) doc
    | [] => doc
    end
  else delete_at segs doc.
End Tree.

(** ** The path language *)
(** a path as it is written: keys after dots, indices in brackets *)
Fixpoint print_segs (first : bool) (segs : list Segment) : string :=
  match segs with
  | [] => ""
  | Key k :: rest => (if first then "" else ".") +:+ k +:+ print_segs false rest
  | Index i :: rest => "[" +:+ itoa i +:+ "]" +:+ print_segs false rest
  end.
Definition PrintPath (segs : list Segment) : string := print_segs true segs.

Definition seg_ok (s : Segment) : Prop :=
  match s with
  | Key k => k <> "" /\ has_byte "." k = false /\ has_byte "[" k = false
  | Index i => (0 <= i <= max_int64)%Z
  end.

Lemma index_text_no i c : is_digit c = false -> (0 <= i <= max_int64)%Z -> has_byte c (itoa i) = false.
Proof. intros Hc Hi. apply itoa_no_byte; [done|lia]. Qed.

Definition is_index (s : Segment) : Prop := match s with Index _ => True | Key _ => False end.

(** a part between two dots: a key or an index, then indices *)
Definition is_part (ws : list Segment) : Prop :=
  match ws with [] => False | _ :: ixs => Forall is_index ixs end.

Lemma print_segs_app b l1 l2 : l1 <> [] -> print_segs b (l1 ++ l2) = print_segs b l1 +:+ print_segs false l2.
Proof.
  intros Hne. assert (forall l, print_segs false (l ++ l2) = print_segs false l +:+ print_segs false l2) as H.
  { intros l. induction l as [|[k|i] l IH]; [done|..]; cbn [app print_segs]; by rewrite IH, !str_app_assoc. }
  destruct l1 as [|[k|i] l1]; [done|..]; cbn [app print_segs]; by rewrite H, !str_app_assoc.
Qed.

Lemma brackets_parse ixs fuel acc : Forall seg_ok ixs -> Forall is_index ixs -> length ixs <= fuel ->
  parse_part fuel (print_segs false ixs) acc = Ok (acc ++ ixs).
Proof.
  revert fuel acc. induction ixs as [|[k|i] ixs IH]; intros fuel acc Hok Hix Hf.
  - destruct fuel; cbn; by rewrite app_nil_r.
  - by apply Forall_cons in Hix as [[] _].
  - apply Forall_cons in Hok as [Hi Hok]. apply Forall_cons in Hix as [_ Hix]. destruct fuel as [|fuel]; [cbn in Hf; lia|].
    cbn [print_segs]. change ("[" +:+ itoa i +:+ "]" +:+ print_segs false ixs)
      with (String "[" (itoa i +:+ String "]" (print_segs false ixs))).
    cbn [parse_part]. change (cut_byte "[" (String "[" (itoa i +:+ String "]" (print_segs false ixs))))
      with (Some ("", itoa i +:+ String "]" (print_segs false ixs))). cbn iota beta.
    rewrite cut_byte_here by (by apply (index_text_no i)). rewrite atoi_itoa by done. cbn [String.eqb].
    rewrite IH by (done || cbn in Hf; lia). by rewrite <- app_assoc.
Qed.

Lemma brackets_length ixs : length ixs <= String.length (print_segs false ixs).
Proof.
  induction ixs as [|[k|i] ixs IH]; cbn [print_segs]; [done|..].
  - rewrite !str_length_app. cbn. lia.
  - rewrite !str_length_app. cbn. lia.
Qed.

Lemma brackets_no_dot ixs : Forall seg_ok ixs -> Forall is_index ixs -> has_byte "." (print_segs false ixs) = false.
Proof.
  induction ixs as [|[k|i] ixs IH]; intros Hok Hix; [done|by apply Forall_cons in Hix as [[] _]|].
  apply Forall_cons in Hok as [Hi Hok]. apply Forall_cons in Hix as [_ Hix].
  cbn [print_segs]. by rewrite !has_byte_app, (index_text_no i), IH.
Qed.

(** a key before a bracket is a segment of its own *)
Lemma parse_key_first fuel k x acc : k <> "" -> has_byte "[" k = false ->
  parse_part fuel (k +:+ String "[" x) acc = parse_part fuel (String "[" x) (acc ++ [Key k]).
Proof.
  intros Hne Hb. assert (cut_byte "[" (k +:+ String "[" x) = Some (k, x)) as E by (by apply cut_byte_here).
  assert (cut_byte "[" (String "[" x) = Some ("", x)) as E' by done.
  destruct fuel; cbn [parse_part]; rewrite E, E'; by destruct (String.eqb_spec k "") as [->|].
Qed.

Lemma part_parse ws acc : is_part ws -> Forall seg_ok ws ->
  parse_step (Ok acc) (print_segs true ws) = Ok (acc ++ ws) /\ has_byte "." (print_segs true ws) = false.
Proof.
  destruct ws as [|[k|i] ixs]; [done|..]; cbn [is_part print_segs]; intros Hix [Hs Hok]%Forall_cons.
  - destruct Hs as (Hne & Hdot & Hbr). pose proof (brackets_no_dot ixs Hok Hix) as Hnd. change ("" +:+ k +:+ print_segs false ixs) with (k +:+ print_segs false ixs).
    split; [|by rewrite has_byte_app, Hdot].
    unfold parse_step. cbn [res_bind]. destruct (String.eqb_spec (k +:+ print_segs false ixs) "") as [E|_]; [by destruct k|].
    pose proof (brackets_length ixs) as Hl. destruct ixs as [|[k'|i] ixs]; [|by apply Forall_cons in Hix as [[] _]|].
    + cbn [print_segs]. rewrite str_app_nil_r. assert (cut_byte "[" k = None) as E by (by apply cut_byte_None).
      destruct (String.length k); cbn [parse_part]; rewrite E; by destruct (String.eqb_spec k "") as [->|].
    + rewrite (app_assoc acc [Key k] (Index i :: ixs) : acc ++ Key k :: Index i :: ixs = _).
      rewrite <- (brackets_parse (Index i :: ixs) (String.length (k +:+ print_segs false (Index i :: ixs)))
        (acc ++ [Key k]) Hok Hix) by (rewrite str_length_app; cbn [length] in *; lia).
      by apply (parse_key_first (String.length _) k (itoa i +:+ "]" +:+ print_segs false ixs)).
  - assert (Forall seg_ok (Index i :: ixs)) as Hok' by (by constructor).
    assert (Forall is_index (Index i :: ixs)) as Hix' by (by constructor).
    split; [|exact (brackets_no_dot (Index i :: ixs) Hok' Hix')].
    exact (brackets_parse (Index i :: ixs) _ acc Hok' Hix' (brackets_length (Index i :: ixs))).
Qed.

Lemma is_part_index ws i : is_part ws -> is_part (ws ++ [Index i]).
Proof. destruct ws as [|s ws]; [done|]. cbn. intros H. apply Forall_app. split; [done|by repeat constructor]. Qed.

Lemma parse_print segs ws acc : is_part ws -> Forall seg_ok ws -> Forall seg_ok segs ->
  foldl parse_step (Ok acc) (split_byte "." (print_segs true ws +:+ print_segs false segs)) = Ok (acc ++ ws ++ segs).
Proof.
  revert ws acc. induction segs as [|[k|i] segs IH]; intros ws acc Hp Hws Hok; destruct (part_parse ws acc Hp Hws) as [Hs Hd].
  - cbn [print_segs]. by rewrite str_app_nil_r, split_one_line, app_nil_r.
  - apply Forall_cons in Hok as [Hk Hok]. cbn [print_segs].
    assert ("." +:+ k +:+ print_segs false segs = String "." (print_segs true [Key k] +:+ print_segs false segs)) as ->.
    { cbn. by rewrite str_app_nil_r. }
    rewrite split_app_line by done. cbn [foldl]. rewrite Hs.
    rewrite (IH [Key k]); [by rewrite <- app_assoc|by cbn|by constructor|done].
  - apply Forall_cons in Hok as [Hi Hok].
    assert (print_segs true ws +:+ print_segs false (Index i :: segs) = print_segs true (ws ++ [Index i]) +:+ print_segs false segs) as ->.
    { rewrite print_segs_app by (by destruct ws). cbn [print_segs]. by rewrite !str_app_assoc. }
    rewrite IH; [by rewrite <- !app_assoc|by apply is_part_index|apply Forall_app; split; [done|by constructor]|done].
Qed.

(** what a parsed path can hold *)
Definition parsed_seg (s : Segment) : Prop :=
  match s with
  | Key k => k <> "" /\ has_byte "." k = false /\ has_byte "[" k = false
  | Index i => (min_int64 <= i <= max_int64)%Z
  end.

Lemma atoi_range s n : atoi s = Some n -> (min_int64 <= n <= max_int64)%Z.
Proof.
  unfold atoi. destruct s as [|c s]; [done|]. intros H.
  assert (forall z m, (if ((min_int64 <=? z) && (z <=? max_int64))%Z then Some z else None) = Some m -> (min_int64 <= m <= max_int64)%Z) as Hc.
  { intros z m. destruct (_ && _)%Z eqn:E; [|done]. intros [= <-]. apply andb_prop in E as [?%Z.leb_le ?%Z.leb_le]. done. }
  destruct (Ascii.eqb c "-"); [|destruct (Ascii.eqb c "+")];
    match type of H with match ?d with _ => _ end = _ => destruct d as [z|]; [by apply Hc in H|done] end.
Qed.

Lemma has_byte_cut_none c s : cut_byte c s = None -> has_byte c s = false.
Proof. apply cut_byte_None. Qed.

Lemma parse_part_sound fuel part acc : String.length part <= fuel -> has_byte "." part = false ->
  (forall segs, parse_part fuel part acc = Ok segs ->
     exists new, segs = acc ++ new /\ Forall parsed_seg new /\ (part <> "" -> new <> [])) /\
  parse_part fuel part acc <> Err Unreachable.
Proof.
  revert part acc. induction fuel as [|fuel IH]; intros part acc Hlen Hdot; cbn [parse_part].
  - destruct part; [|cbn in Hlen; lia]. cbn. split; [|done]. intros segs [= <-]. exists []. by rewrite app_nil_r.
  - destruct (cut_byte "[" part) as [[before after]|] eqn:E1.
    + pose proof E1 as [-> Hb]%cut_byte_app.
      set (segs1 := if String.eqb before "" then acc else acc ++ [Key before]).
      destruct (cut_byte "]" after) as [[num rest]|] eqn:E2; [|split; [done|done]].
      pose proof E2 as [-> _]%cut_byte_app. destruct (atoi num) as [n|] eqn:E3; [|split; [done|done]].
      rewrite has_byte_app in Hdot. apply orb_false_iff in Hdot as [Hd1 Hd2].
      change (String "[" (num +:+ String "]" rest)) with ("[" +:+ num +:+ ("]" +:+ rest)) in Hd2.
      rewrite !has_byte_app in Hd2. apply orb_false_iff in Hd2 as [_ Hd2]. apply orb_false_iff in Hd2 as [_ Hd2]. cbn in Hd2.
      destruct (IH rest (segs1 ++ [Index n])) as [IH1 IH2]; [|done|].
      { rewrite str_length_app in Hlen. cbn in Hlen. rewrite str_length_app in Hlen. cbn in Hlen. lia. }
      split; [|done]. intros segs (new & -> & Hnew & _)%IH1.
      exists ((if String.eqb before "" then [] else [Key before]) ++ Index n :: new).
      split; [unfold segs1; destruct (String.eqb before ""); by rewrite <- ?app_assoc|].
      split; [|by destruct (String.eqb before "")]. apply Forall_app. split.
      * destruct (String.eqb_spec before "") as [|Hne]; [done|]. by repeat constructor.
      * constructor; [by apply (atoi_range num)|done].
    + split; [|done]. intros segs [= <-]. apply has_byte_cut_none in E1.
      destruct (String.eqb_spec part "") as [->|Hne]; [exists []; by rewrite app_nil_r|].
      exists [Key part]. split; [done|]. split; [by repeat constructor|done].
Qed.

Lemma parse_err l e : foldl parse_step (Err e) l = Err e.
Proof. induction l; [done|]. cbn. done. Qed.

Lemma parse_fold_sound l acc : Forall (fun p => has_byte "." p = false) l ->
  (forall segs, foldl parse_step (Ok acc) l = Ok segs ->
     exists new, segs = acc ++ new /\ Forall parsed_seg new /\ (l <> [] -> new <> [])) /\
  foldl parse_step (Ok acc) l <> Err Unreachable.
Proof.
  intros Hl. revert acc. induction Hl as [|p l Hp _ IH]; intros acc; cbn [foldl].
  - split; [|done]. intros segs [= <-]. exists []. by rewrite app_nil_r.
  - unfold parse_step at 2 4. cbn [res_bind]. destruct (String.eqb_spec p "") as [|Hne]; [by rewrite parse_err|].
    destruct (parse_part_sound (String.length p) p acc ltac:(lia) Hp) as [Hs Hu].
    destruct (parse_part _ p acc) as [segs1|e]; [|rewrite parse_err; split; [done|congruence]].
    destruct (Hs segs1 eq_refl) as (new & -> & Hnew & Hnn). destruct (IH (acc ++ new)) as [IH1 IH2]. split; [|done].
    intros segs (new2 & -> & Hn2 & _)%IH1. exists (new ++ new2). split; [by rewrite app_assoc|].
    split; [by apply Forall_app|]. intros _ E. by apply app_nil in E as [E _]; apply Hnn in Hne.
Qed.

Lemma split_no_byte c s : Forall (fun p => has_byte c p = false) (split_byte c s).
Proof.
  induction s as [|a s IH]; cbn [split_byte]; [by repeat constructor|].
  destruct (Ascii.eqb a c) eqn:E; [by constructor|]. destruct (split_byte c s) as [|x l]; [repeat constructor; cbn; by rewrite E|].
  apply Forall_cons in IH as [Hx Hl]. constructor; [|done]. cbn. by rewrite E.
Qed.

(** The path language.  Printing a list of segments (keys joined by
    dots, indices in brackets) and parsing it gives the same segments; what
    [ParsePath] returns is never empty, its keys are never empty and hold
    neither a dot nor a bracket, its indices fit a machine integer; and the
    loop over the brackets of a part always ends. *)
Theorem ParsePath_roundtrip :
  (forall segs, segs <> [] -> Forall seg_ok segs -> ParsePath (PrintPath segs) = Ok segs) /\
  (forall p segs, ParsePath p = Ok segs -> segs <> [] /\ Forall parsed_seg segs) /\
  (forall p, ParsePath p <> Err Unreachable).
Proof.
  assert (forall p, (forall segs, foldl parse_step (Ok []) (split_byte "." p) = Ok segs -> segs <> [] /\ Forall parsed_seg segs) /\
                    foldl parse_step (Ok []) (split_byte "." p) <> Err Unreachable) as Hs.
  { intros p. destruct (parse_fold_sound (split_byte "." p) [] (split_no_byte "." p)) as [H1 H2]. split; [|done].
    intros segs (new & -> & Hnew & Hne)%H1. split; [|done]. apply Hne, split_byte_nonempty. }
  split; [|split].
  - intros [|s segs] Hne Hok; [done|]. apply Forall_cons in Hok as [Hs0 Hok].
    assert (is_part [s]) as Hpart by (cbn; constructor). assert (Forall seg_ok [s]) as Hws by (by repeat constructor).
    unfold ParsePath, PrintPath. change (s :: segs) with ([s] ++ segs). rewrite print_segs_app by done.
    destruct (String.eqb_spec (print_segs true [s] +:+ print_segs false segs) "") as [E|_].
    + destruct s as [k|i]; [|done]. destruct k; [by destruct Hs0|done].
    + by apply (parse_print segs [s] []).
  - intros p segs. unfold ParsePath. destruct (String.eqb p ""); [done|]. apply (Hs p).
  - intros p. unfold ParsePath. destruct (String.eqb p ""); [done|]. apply (Hs p).
Qed.

(** ** Edits of the tree *)
Section Edits.
Context {M : Type} (m0 : M).
Implicit Types (n cur v : Node (M := M)) (c : list (Node (M := M))).

(** a mapping holds as many values as keys *)
Inductive tree : Node (M := M) -> Prop :=
| tree_node kd w m c : (kd = MappingNode -> Nat.Even (length c)) -> Forall tree c -> tree (node kd w m c).

Lemma list_pair_ind {A} (P : list A -> Prop) :
  P [] -> (forall x, P [x]) -> (forall x y l, P l -> P (x :: y :: l)) -> forall l, P l.
Proof.
  intros H0 H1 H2. fix IH 1. intros [|x [|y l]]; [apply H0|apply H1|apply H2, IH].
Qed.

Lemma key_index_spec k c i : key_index k c = Some i -> Nat.Even i /\ i < length c.
Proof.
  revert i. induction c as [|x|x y c IH] using list_pair_ind; intros i; cbn; [done|..].
  - destruct (String.eqb _ _); [|done]. intros [= <-]. split; [by exists 0|lia].
  - destruct (String.eqb _ _); [intros [= <-]; split; [by exists 0|lia]|].
    destruct (key_index k c) as [j|] eqn:E; [|done]. cbn. intros [= <-]. destruct (IH j eq_refl) as [[q ->] ?].
    split; [by exists (S q); lia|lia].
Qed.

Lemma key_index_put k i c x : Nat.Even i -> key_index k (<[S i := x]> c) = key_index k c.
Proof.
  revert i. induction c as [|a|a b c IH] using list_pair_ind; intros i Hi; [done|by destruct i|].
  destruct Hi as [[|q] ->]; [done|]. replace (S (2 * S q)) with (S (S (S (2 * q)))) by lia.
  change (<[S (S (S (2 * q))) := x]> (a :: b :: c)) with (a :: b :: <[S (2 * q) := x]> c). cbn [key_index].
  by rewrite IH by (by exists q).
Qed.

Lemma key_index_app k c d : Nat.Even (length c) ->
  key_index k (c ++ d) = match key_index k c with Some i => Some i | None => option_map (Nat.add (length c)) (key_index k d) end.
Proof.
  induction c as [|a|a b c IH] using list_pair_ind; intros He; cbn.
  - by destruct (key_index k d).
  - exfalso. destruct He as [q Hq]. cbn in Hq. lia.
  - destruct (String.eqb (Value a) k); [done|]. rewrite IH.
    + destruct (key_index k c); [done|]. destruct (key_index k d); done.
    + destruct He as [q Hq]. cbn in Hq. exists (pred q). lia.
Qed.

Lemma key_index_same k k' c i : key_index k c = Some i -> key_index k' c = Some i -> k = k'.
Proof.
  revert i. induction c as [|a|a b c IH] using list_pair_ind; intros i; cbn; [done|..].
  - destruct (String.eqb_spec (Value a) k) as [<-|]; [|done]. by destruct (String.eqb_spec (Value a) k') as [<-|].
  - destruct (String.eqb_spec (Value a) k) as [<-|].
    + intros [= <-]. destruct (String.eqb_spec (Value a) k') as [<-|]; [done|]. by destruct (key_index k' c).
    + destruct (key_index k c) as [j|] eqn:E; [|done]. intros [= <-].
      destruct (String.eqb_spec (Value a) k') as [<-|]; [done|]. destruct (key_index k' c) as [j'|] eqn:E'; [|done].
      intros [= ->]. by apply (IH j).
Qed.

(** *** One step of a path *)
Definition child_at (s : Segment) n : option Node :=
  match s with
  | Index x => if bool_decide (Kind n = SequenceNode) && in_bounds x (Content n) then Content n !! Z.to_nat x else None
  | Key k => if bool_decide (Kind n = MappingNode) then value_of k (Content n) else None
  end.

Definition put (s : Segment) (x : Node (M := M)) n : Node :=
  match s with
  | Index i => with_content (<[Z.to_nat i := x]> (Content n)) n
  | Key k => match key_index k (Content n) with
             | Some i => with_content (<[S i := x]> (Content n)) n
             | None => with_content (Content n ++ [key_node m0 k; x]) n
             end
  end.

(** [Set] makes a missing key of a mapping *)
Definition creates (s : Segment) n : Prop :=
  match s with Key k => Kind n = MappingNode /\ key_index k (Content n) = None | Index _ => False end.

Definition same_label n n' : Prop := Kind n = Kind n' /\ Value n = Value n' /\ Meta n = Meta n'.

Lemma node_at_cons s p n : node_at (s :: p) n = child_at s n ≫= node_at p.
Proof. destruct s; cbn; by case_bool_decide; [|]; cbn; try destruct (in_bounds _ _). Qed.

Lemma in_bounds_lookup x c : in_bounds x c = true -> exists n, c !! Z.to_nat x = Some n.
Proof. unfold in_bounds. intros [?%Z.leb_le ?%Z.ltb_lt]%andb_prop. apply lookup_lt_is_Some_2. lia. Qed.

Lemma tree_value k n i : tree n -> Kind n = MappingNode -> key_index k (Content n) = Some i ->
  exists x, Content n !! S i = Some x.
Proof.
  intros [kd w m c He _] Hk Hi. cbn in *. apply key_index_spec in Hi as [[q ->] Hlt]. destruct (He Hk) as [r Hr].
  apply lookup_lt_is_Some_2. lia.
Qed.

Lemma child_put_eq s x n : tree n -> is_Some (child_at s n) \/ creates s n -> child_at s (put s x n) = Some x.
Proof.
  intros Ht. destruct s as [k|i]; cbn [child_at put creates].
  - intros H. assert (Kind n = MappingNode) as Hk by (case_bool_decide; [done|]; destruct H as [[? ?]|[? _]]; done).
    destruct (key_index k (Content n)) as [j|] eqn:E; cbn [Kind Content with_content]; rewrite (bool_decide_eq_true_2 _ Hk); unfold value_of.
    + destruct (tree_value k n j Ht Hk E) as [y Hy]. apply lookup_lt_Some in Hy as Hl.
      rewrite key_index_put by (by apply key_index_spec in E as [? _]). rewrite E. cbn. by rewrite list_lookup_insert_eq.
    + destruct Ht as [kd w m c He Hf]. cbn in *. rewrite key_index_app, E by auto. cbn. rewrite String.eqb_refl. cbn.
      rewrite lookup_app_r by lia. by replace (S (length c + 0) - length c) with 1 by lia.
  - intros [[y Hy]|[]]. destruct (bool_decide _ && in_bounds i (Content n)) eqn:E; [|done].
    cbn [Kind Content with_content]. unfold in_bounds in *. rewrite length_insert, E.
    apply lookup_lt_Some in Hy. by rewrite list_lookup_insert_eq.
Qed.

Lemma child_put_ne s s' x n : tree n -> is_Some (child_at s n) \/ creates s n -> s <> s' -> child_at s' (put s x n) = child_at s' n.
Proof.
  intros Ht H Hne. destruct s as [k|i], s' as [k'|i']; cbn [child_at put creates] in *.
  - assert (Kind n = MappingNode) as Hk by (case_bool_decide; [done|]; destruct H as [[? ?]|[? _]]; done).
    destruct (key_index k (Content n)) as [j|] eqn:E; cbn [Kind Content with_content]; rewrite (bool_decide_eq_true_2 _ Hk); unfold value_of.
    + pose proof E as [He _]%key_index_spec. rewrite key_index_put by done. destruct (key_index k' (Content n)) as [j'|] eqn:E'; [|done].
      cbn. apply list_lookup_insert_ne. intros [= ->]. apply Hne. f_equal. by eapply key_index_same.
    + destruct Ht as [kd w m c He Hf]. cbn in *. rewrite key_index_app by auto. destruct (key_index k' c) as [j'|] eqn:E'.
      * cbn. apply lookup_app_l. pose proof E' as [[q ->] ?]%key_index_spec. destruct (He Hk). lia.
      * cbn. destruct (String.eqb_spec k k') as [->|]; done.
  - assert (Kind n = MappingNode) as Hk by (case_bool_decide; [done|]; destruct H as [[? ?]|[? _]]; done).
    destruct (key_index k (Content n)); cbn [Kind Content with_content]; by rewrite Hk.
  - destruct (bool_decide (Kind n = SequenceNode) && _) eqn:E; [|by destruct H as [[? ?]|[]]]. cbn [Kind Content with_content].
    apply andb_prop in E as [E%bool_decide_eq_true _]. by rewrite E.
  - destruct H as [[y Hy]|[]]. destruct (bool_decide _ && in_bounds i (Content n)) eqn:E; [|done]. cbn [Kind Content with_content].
    apply andb_prop in E as [_ Eb]. unfold in_bounds in *. rewrite length_insert.
    destruct (bool_decide _ && _) eqn:E'; [|done]. apply andb_prop in E' as [_ Eb'].
    apply andb_prop in Eb as [?%Z.leb_le _]. apply andb_prop in Eb' as [?%Z.leb_le _].
    apply list_lookup_insert_ne. intros ?. apply Hne. f_equal. lia.
Qed.

Lemma put_child_same s x n : child_at s n = Some x -> put s x n = n.
Proof.
  destruct n as [kd w m c]. destruct s as [k|i]; cbn.
  - case_bool_decide; [|done]. unfold value_of. destruct (key_index k c) as [j|]; [|done]. cbn. intros H1.
    unfold with_content. cbn. by rewrite list_insert_id.
  - destruct (_ && _); [|done]. intros H1. unfold with_content. cbn. by rewrite list_insert_id.
Qed.

Lemma put_put s x y n : is_Some (child_at s n) -> put s x (put s y n) = put s x n.
Proof.
  destruct n as [kd w m c]. intros [z Hz]. destruct s as [k|i]; cbn in *.
  - case_bool_decide; [|done]. unfold value_of in Hz. destruct (key_index k c) as [j|] eqn:E; [|done].
    pose proof E as [He _]%key_index_spec. cbn. rewrite key_index_put, E by done. unfold with_content. cbn.
    by rewrite list_insert_insert_eq.
  - unfold with_content. cbn. by rewrite list_insert_insert_eq.
Qed.

Lemma put_label s x n : same_label n (put s x n).
Proof. destruct s as [k|i]; cbn; [destruct (key_index k (Content n))|]; done. Qed.

Lemma put_tree s x n : tree n -> tree x -> tree (put s x n).
Proof.
  intros [kd w m c He Hc] Hx. destruct s as [k|i]; cbn; [destruct (key_index k c) as [j|]|]; constructor.
  - rewrite length_insert. done.
  - by apply Forall_insert.
  - intros Hk. rewrite length_app. destruct (He Hk) as [q ->]. exists (S q). cbn. lia.
  - apply Forall_app. split; [done|]. repeat constructor; [done|done].
  - rewrite length_insert. done.
  - by apply Forall_insert.
Qed.

Lemma child_tree s n x : tree n -> child_at s n = Some x -> tree x.
Proof.
  intros [kd w m c _ Hc]. destruct s as [k|i]; cbn.
  - case_bool_decide; [|done]. unfold value_of. destruct (key_index k c); [|done]. cbn. intros Hl. by eapply Forall_lookup_1 in Hc.
  - destruct (_ && _); [|done]. intros Hl. by eapply Forall_lookup_1 in Hc.
Qed.

(** *** What [Set] does *)
(** two paths that part before either ends *)
Fixpoint apart (p q : list Segment) : Prop :=
  match p, q with
  | a :: p', b :: q' => a <> b \/ apart p' q'
  | _, _ => False
  end.

(** an edit at [segs]: what is not below it or on the way to it is the same,
    and the nodes on the way keep their kind, value and comments *)
Record edited (segs : list Segment) n n' : Prop := {
  ed_label : same_label n n';
  ed_apart : forall p, apart p segs -> node_at p n' = node_at p n;
  ed_way : forall p q x, segs = p ++ q -> q <> [] -> node_at p n = Some x ->
           exists x', node_at p n' = Some x' /\ same_label x x'
}.

Definition sub (i : nat) (rest : list Segment) v child (prev : option (Node (M := M))) :=
  match rest with [] => (v, Ok prev) | _ => set_at m0 (S i) rest v child end.

Lemma set_at_step i s rest v n : tree n ->
  (exists child, child_at s n = Some child /\
     set_at m0 i (s :: rest) v n = (put s (sub i rest v child (Some child)).1 n, (sub i rest v child (Some child)).2)) \/
  (child_at s n = None /\ creates s n /\
     set_at m0 i (s :: rest) v n = (put s (sub i rest v (empty_map m0) None).1 n, (sub i rest v (empty_map m0) None).2)) \/
  (child_at s n = None /\ exists e, set_at m0 i (s :: rest) v n = (n, Err e)).
Proof.
  intros Ht. destruct s as [k|x]; cbn [set_at child_at creates put].
  - case_bool_decide as Hk; [|right; right; by eauto]. unfold value_of.
    destruct (key_index k (Content n)) as [j|] eqn:E; cbn.
    + destruct (tree_value k n j Ht Hk E) as [y ->]. left. exists y. split; [done|]. destruct rest; [done|].
      unfold sub. by destruct (set_at m0 (S i) _ v y).
    + right; left. split; [done|]. split; [done|]. destruct rest; [done|]. unfold sub. by destruct (set_at m0 (S i) _ v _).
  - case_bool_decide as Hk; [|right; right; by eauto]. cbn [andb]. destruct (in_bounds x (Content n)) eqn:Eb; [|right; right; by eauto].
    destruct (in_bounds_lookup x _ Eb) as [y Hy]. left. rewrite Hy. exists y. split; [done|]. destruct rest; [done|].
    unfold sub. by destruct (set_at m0 (S i) _ v y).
Qed.

Lemma empty_map_at p : p <> [] -> node_at p (empty_map m0) = None.
Proof. destruct p as [|[k|i] p]; done. Qed.

Lemma apart_cons_same s p q : apart (s :: p) (s :: q) <-> apart p q.
Proof. cbn. naive_solver. Qed.

Lemma apart_nonempty p q : apart p q -> p <> [].
Proof. by destruct p. Qed.

(** an edit below one child *)
Lemma edited_put s rest x x' n :
  tree n -> is_Some (child_at s n) \/ creates s n ->
  (child_at s n = Some x \/ (child_at s n = None /\ x = empty_map m0)) ->
  (rest = [] \/ edited rest x x') -> edited (s :: rest) n (put s x' n).
Proof.
  intros Ht Hc Hx Hed. split; [apply put_label|..].
  - intros [|a p]; [done|]. intros Hap. rewrite !node_at_cons. destruct (decide (a = s)) as [->|Hne]; [|by rewrite child_put_ne].
    apply apart_cons_same in Hap. destruct Hed as [->|[_ Hed _]]; [by destruct p|]. rewrite child_put_eq by done. cbn.
    rewrite Hed by done. destruct Hx as [->|[-> ->]]; [done|]. cbn. apply empty_map_at. by eapply apart_nonempty.
  - intros [|a p] q y E Hq; cbn [app] in E.
    + intros [= <-]. exists (put s x' n). split; [done|apply put_label].
    + injection E as <- ->. rewrite !node_at_cons, child_put_eq by done. destruct Hx as [->|[-> _]]; [|done]. cbn.
      destruct Hed as [E|[_ _ Hw]]; [by apply app_eq_nil in E as [_ E]|]. by apply (Hw p q).
Qed.

Lemma set_at_spec segs v : segs <> [] -> forall i n n' r, tree n -> set_at m0 i segs v n = (n', r) ->
  edited segs n n' /\ (tree v -> tree n') /\
  match r with
  | Ok prev => node_at segs n' = Some v /\ node_at segs n = prev
  | Err _ => node_at segs n = None
  end.
Proof.
  intros Hne. induction segs as [|s rest IH]; [done|]. intros i n n' r Ht E.
  assert (forall x prev, tree x -> (rest = [] -> prev = node_at [] x \/ prev = None) ->
    let '(x', r') := sub i rest v x prev in
    (rest = [] \/ edited rest x x') /\ (tree v -> tree x') /\
    match r' with
    | Ok prev' => node_at rest x' = Some v /\ (rest = [] -> prev' = prev) /\ (rest <> [] -> node_at rest x = prev')
    | Err _ => rest <> [] /\ node_at rest x = None
    end) as Hsub.
  { intros x prev Hx _. unfold sub. destruct rest as [|s' rest]; [by repeat split; auto|].
    destruct (set_at m0 (S i) (s' :: rest) v x) as [x' r'] eqn:E'.
    destruct (IH ltac:(done) (S i) x x' r' Hx E') as (H1 & H2 & H3). split; [by right|]. split; [done|].
    destruct r'; [destruct H3 as [? ?]; split; [done|by split]|by split]. }
  destruct (set_at_step i s rest v n Ht) as [(x & Hx & Es)|[(Hx & Hcr & Es)|(Hx & e & Es)]]; rewrite Es in E; injection E as <- <-.
  - specialize (Hsub x (Some x) (child_tree s n x Ht Hx) (fun _ => or_introl eq_refl)).
    destruct (sub i rest v x (Some x)) as [x' r']. cbn [fst snd]. destruct Hsub as (Hed & Htr & Hr).
    assert (is_Some (child_at s n) \/ creates s n) as Hc by (left; by exists x).
    split; [by apply (edited_put s rest x x' n Ht Hc (or_introl Hx))|]. split; [intros Hv; apply put_tree; auto|].
    rewrite !node_at_cons, child_put_eq, Hx by done. cbn. destruct r' as [prev'|e]; [|apply Hr].
    destruct Hr as (H1 & H2 & H3). split; [done|]. destruct rest; [by rewrite H2|by apply H3].
  - specialize (Hsub (empty_map m0) None ltac:(repeat constructor; by exists 0) (fun _ => or_intror eq_refl)).
    destruct (sub i rest v (empty_map m0) None) as [x' r']. cbn [fst snd]. destruct Hsub as (Hed & Htr & Hr).
    split; [by apply (edited_put s rest (empty_map m0) x' n Ht (or_intror Hcr) (or_intror (conj Hx eq_refl)))|].
    split; [intros Hv; apply put_tree; auto|].
    rewrite !node_at_cons, child_put_eq, Hx by auto. cbn. destruct r' as [prev'|e]; [|done].
    destruct Hr as (H1 & H2 & H3). split; [done|]. destruct rest; [by rewrite H2|]. rewrite <- H3 by done. by rewrite empty_map_at.
  - split; [|split; [done|by rewrite node_at_cons, Hx]]. split; [done|done|]. intros p q y _ _ Hy. by exists y.
Qed.

(** *** What [Unset] does *)
Lemma value_of_cons k a b c : value_of k (a :: b :: c) = if String.eqb (Value a) k then Some b else value_of k c.
Proof. unfold value_of. cbn. destruct (String.eqb _ _); [done|]. by destruct (key_index k c). Qed.

Lemma value_of_splice k k' c i : key_index k c = Some i -> k' <> k -> value_of k' (splice_out i 2 c) = value_of k' c.
Proof.
  intros E Hne. revert i E. induction c as [|a|a b c IH] using list_pair_ind; intros i; cbn [key_index]; [done|..].
  - destruct (String.eqb_spec (Value a) k) as [<-|]; [|done]. intros [= <-]. unfold splice_out, value_of. cbn.
    by destruct (String.eqb_spec (Value a) k') as [<-|].
  - destruct (String.eqb_spec (Value a) k) as [<-|].
    + intros [= <-]. rewrite value_of_cons. destruct (String.eqb_spec (Value a) k') as [<-|]; [done|].
      unfold splice_out. cbn. by rewrite drop_0.
    + destruct (key_index k c) as [j|] eqn:E; [|done]. intros [= <-].
      change (splice_out (S (S j)) 2 (a :: b :: c)) with (a :: b :: splice_out j 2 c).
      rewrite !value_of_cons. destruct (String.eqb (Value a) k'); [done|]. by apply IH.
Qed.

Lemma splice_lookup x j c : x < length c -> splice_out x 1 c !! j = c !! (if decide (j < x) then j else S j).
Proof.
  intros Hx. unfold splice_out. case_decide as Hj.
  - rewrite lookup_app_l by (rewrite length_take; lia). by apply lookup_take_lt.
  - rewrite lookup_app_r by (rewrite length_take; lia). rewrite length_take, lookup_drop. f_equal. lia.
Qed.

Lemma splice_length i m c : i + m <= length c -> length (splice_out i m c) = length c - m.
Proof. intros H. unfold splice_out. rewrite length_app, length_take, length_drop. lia. Qed.

(** the sibling that takes the place of [s] when [last] is gone *)
Definition shift (last s : Segment) : Segment :=
  match last, s with Index x, Index j => Index (if Z.ltb j x then j else j + 1)%Z | _, _ => s end.

Definition survives (last s : Segment) : Prop :=
  match last, s with
  | Key k, Key k' => k' <> k
  | Index _, Index j => (0 <= j)%Z
  | _, _ => True
  end.

Lemma delete_child_at last s n : tree n -> is_Some (child_at last n) -> survives last s ->
  child_at s (delete_child last n) = child_at (shift last s) n.
Proof.
  intros Ht [y Hy] Hs. destruct last as [k|x]; cbn [child_at delete_child shift survives] in *.
  - case_bool_decide as Hk; [|done]. unfold value_of in Hy. destruct (key_index k (Content n)) as [i|] eqn:E; [|done].
    destruct (tree_value k n i Ht Hk E) as [z Hz]. apply lookup_lt_Some in Hz as Hl.
    rewrite (proj2 (Nat.ltb_lt _ _) Hl). destruct s as [k'|j]; cbn [child_at Kind Content with_content]; [|by rewrite Hk].
    rewrite bool_decide_eq_true_2 by done. by apply (value_of_splice k).
  - destruct (bool_decide _ && in_bounds x (Content n)) eqn:E; [|done]. apply andb_prop in E as [Hk%bool_decide_eq_true Eb].
    pose proof Eb as Eb2. unfold in_bounds in Eb2. apply andb_prop in Eb2 as [H1%Z.leb_le H2%Z.ltb_lt].
    destruct s as [k'|j]; cbn [child_at Kind Content with_content]; [by rewrite Hk|].
    rewrite bool_decide_eq_true_2 by done. cbn [andb]. unfold in_bounds. rewrite splice_length by lia.
    destruct (Z.ltb_spec j x).
    + rewrite (proj2 (Z.leb_le 0 j)), (proj2 (Z.ltb_lt j _)), (proj2 (Z.ltb_lt j (Z.of_nat (length (Content n))))) by lia. cbn [andb].
      rewrite splice_lookup by lia. by rewrite decide_True by lia.
    + rewrite !(proj2 (Z.leb_le 0 _)) by lia. cbn [andb].
      assert (Z.ltb j (Z.of_nat (length (Content n) - 1)) = Z.ltb (j + 1) (Z.of_nat (length (Content n)))) as ->.
      { apply eq_iff_eq_true. rewrite !Z.ltb_lt. lia. }
      rewrite splice_lookup, decide_False by lia. by replace (Z.to_nat (j + 1)) with (S (Z.to_nat j)) by lia.
Qed.

Lemma delete_child_label last n : same_label n (delete_child last n).
Proof.
  destruct last; cbn; repeat case_match; done.
Qed.

Lemma Forall_splice (P : Node (M := M) -> Prop) i m c : Forall P c -> Forall P (splice_out i m c).
Proof. intros H. unfold splice_out. apply Forall_app. split; [by apply Forall_take|by apply Forall_drop]. Qed.

Lemma delete_child_tree last n : tree n -> tree (delete_child last n).
Proof.
  intros [kd w m c He Hc]. destruct last as [k|x]; cbn [delete_child Kind Content].
  - case_bool_decide as Hk; [|by constructor]. destruct (key_index k c) as [i|] eqn:E; [|by constructor].
    destruct (Nat.ltb_spec (S i) (length c)); [|by constructor]. constructor; [|by apply Forall_splice].
    intros _. rewrite splice_length by lia. destruct (He Hk) as [q ->]. exists (q - 1). lia.
  - case_bool_decide as Hk; cbn [andb]; [|by constructor]. destruct (in_bounds x c); [|by constructor].
    constructor; [by rewrite Hk|by apply Forall_splice].
Qed.

Lemma unset_deep i s t y n : t <> [] -> child_at s n = Some y ->
  unset_at i (s :: t) n = (put s (unset_at (S i) t y).1 n, (unset_at (S i) t y).2) /\
  delete_at (s :: t) n = put s (delete_at t y) n.
Proof.
  intros Ht Ey. destruct s as [k|x]; cbn [child_at put unset_at delete_at] in *.
  - case_bool_decide as Hk; [|done]. unfold value_of in Ey. destruct (key_index k (Content n)) as [j|]; [|done].
    cbn [mbind option_bind] in Ey. rewrite Ey. destruct t; [done|]. by destruct (unset_at (S i) _ y).
  - case_bool_decide as Hk; [|done]. cbn [andb] in *. destruct (in_bounds x (Content n)); [|done]. rewrite Ey.
    destruct t; [done|]. by destruct (unset_at (S i) _ y).
Qed.

(** [unset_at] removes at the end of the path or fails without a change *)
Lemma unset_at_spec p last : forall i n, tree n ->
  match node_at (p ++ [last]) n with
  | Some x => exists n', unset_at i (p ++ [last]) n = (n', Ok x) /\ delete_at (p ++ [last]) n = n'
  | None => (exists e, unset_at i (p ++ [last]) n = (n, Err e)) /\ delete_at (p ++ [last]) n = n
  end.
Proof.
  induction p as [|s p IH]; intros i n Ht.
  - cbn [app]. rewrite node_at_cons. destruct last as [k|x]; cbn [child_at unset_at delete_at delete_child].
    + case_bool_decide as Hk; [|cbn; by eauto]. unfold value_of. destruct (key_index k (Content n)) as [j|] eqn:E; [|cbn; by eauto].
      destruct (tree_value k n j Ht Hk E) as [z Hz]. cbn [mbind option_bind]. rewrite Hz. apply lookup_lt_Some in Hz as Hl.
      rewrite (proj2 (Nat.ltb_lt _ _) Hl). cbn; by eauto.
    + case_bool_decide as Hk; [|cbn; by eauto]. cbn [andb]. destruct (in_bounds x (Content n)) eqn:Eb; [|cbn; by eauto].
      destruct (in_bounds_lookup x _ Eb) as [y ->]. cbn; by eauto.
  - assert (exists a r, p ++ [last] = a :: r) as (a & r & Ea) by (destruct p; cbn; eauto).
    cbn [app]. rewrite node_at_cons. destruct (child_at s n) as [y|] eqn:Ey.
    + pose proof (IH (S i) y (child_tree s n y Ht Ey)) as H. cbn [mbind option_bind]. rewrite Ea in *.
      destruct (unset_deep i s (a :: r) y n ltac:(done) Ey) as [-> ->].
      destruct (node_at (a :: r) y) as [x|].
      * destruct H as (n' & -> & ->). by eauto.
      * destruct H as [[e ->] ->]. cbn [fst snd]. rewrite (put_child_same s y n) by done. by eauto.
    + cbn [mbind option_bind]. rewrite Ea. destruct s as [k|x]; cbn [child_at unset_at delete_at] in *.
      * case_bool_decide as Hk; [|cbn; by eauto]. unfold value_of in Ey. destruct (key_index k (Content n)) as [j|] eqn:E; [|cbn; by eauto].
        cbn in Ey. rewrite Ey. by eauto.
      * case_bool_decide as Hk; [|cbn; by eauto]. cbn [andb] in *. destruct (in_bounds x (Content n)); [|cbn; by eauto]. rewrite Ey. by eauto.
Qed.

(** what a removal at [p ++ [last]] leaves *)
Record removed (p : list Segment) (last : Segment) n n' : Prop := {
  rm_label : same_label n n';
  rm_tree : tree n';
  rm_apart : forall q, apart q p -> node_at q n' = node_at q n;
  rm_siblings : forall s q, survives last s -> node_at (p ++ s :: q) n' = node_at (p ++ shift last s :: q) n;
  rm_way : forall q r x, p = q ++ r -> node_at q n = Some x -> exists x', node_at q n' = Some x' /\ same_label x x'
}.

Lemma unset_at_removed p last : forall i n x, tree n -> node_at (p ++ [last]) n = Some x ->
  removed p last n (unset_at i (p ++ [last]) n).1.
Proof.
  induction p as [|s p IH]; intros i n x Ht Hx.
  - pose proof (unset_at_spec [] last i n Ht) as H. rewrite Hx in H. destruct H as (n' & -> & <-). cbn [app fst].
    assert (delete_at [last] n = delete_child last n) as -> by (by destruct last).
    cbn [app] in Hx. rewrite node_at_cons in Hx. destruct (child_at last n) as [y|] eqn:Ey; [|done].
    split; [apply delete_child_label|by apply delete_child_tree|by intros [|? ?]|..].
    + intros s q Hs. cbn [app]. rewrite !node_at_cons, delete_child_at by (done || by exists y). done.
    + intros q r z [-> ->]%eq_sym%app_eq_nil [= <-]. exists (delete_child last n). split; [done|apply delete_child_label].
  - cbn [app] in *. rewrite node_at_cons in Hx. destruct (child_at s n) as [y|] eqn:Ey; [|done]. cbn [mbind option_bind] in Hx.
    destruct (unset_deep i s (p ++ [last]) y n ltac:(by destruct p) Ey) as [-> _]. cbn [fst].
    pose proof (child_tree s n y Ht Ey) as Hty. destruct (IH (S i) y x Hty Hx) as [H1 H2 H3 H4 H5].
    set (y' := (unset_at (S i) (p ++ [last]) y).1) in *. assert (is_Some (child_at s n) \/ creates s n) as Hc by (left; by exists y).
    split; [apply put_label|by apply put_tree|..].
    + intros [|a q]; [done|]. intros Hap. rewrite !node_at_cons. destruct (decide (a = s)) as [->|Hne]; [|by rewrite child_put_ne].
      apply apart_cons_same in Hap. rewrite child_put_eq, Ey by done. cbn. by apply H3.
    + intros a q Ha. cbn [app]. rewrite !node_at_cons, child_put_eq, Ey by done. cbn. by apply H4.
    + intros [|a q] r z E; cbn [app] in E.
      * intros [= <-]. exists (put s y' n). split; [done|apply put_label].
      * injection E as <- E. rewrite !node_at_cons, child_put_eq, Ey by done. cbn. by apply (H5 q r).
Qed.

(** a key [Set] made in a mapping that was there is removed without a trace *)
Lemma set_unset p k v : forall i j n par, tree n -> node_at p n = Some par -> creates (Key k) par ->
  unset_at j (p ++ [Key k]) (set_at m0 i (p ++ [Key k]) v n).1 = (n, Ok v).
Proof.
  induction p as [|s p IH]; intros i j n par Ht Hp Hc.
  - injection Hp as <-. destruct Hc as [Hk E]. cbn [app set_at]. rewrite bool_decide_eq_true_2, E by done. cbn [fst].
    destruct Ht as [kd w m c He _]. cbn [Kind Content] in *. cbn [unset_at Kind Content with_content].
    rewrite bool_decide_eq_true_2 by done. rewrite key_index_app, E by auto. cbn [key_index option_map].
    change (Value (key_node m0 k)) with k. rewrite String.eqb_refl. cbn [option_map]. rewrite Nat.add_0_r.
    rewrite lookup_app_r by lia. replace (S (length c) - length c) with 1 by lia. cbn [lookup list_lookup].
    unfold splice_out. rewrite take_app_length, drop_ge by (rewrite length_app; cbn; lia). by rewrite app_nil_r.
  - rewrite node_at_cons in Hp. destruct (child_at s n) as [y|] eqn:Ey; [|done]. cbn [mbind option_bind] in Hp. cbn [app].
    assert (exists a r, p ++ [Key k] = a :: r) as (a & r & Ea) by (destruct p; cbn; eauto).
    destruct (set_at_step i s (p ++ [Key k]) v n Ht) as [(y' & Hy & ->)|[(Hy & _)|(Hy & _)]]; [|congruence..].
    replace y' with y in * by congruence. cbn [fst]. rewrite Ea in *. cbn [sub].
    pose proof (IH (S i) (S j) y par (child_tree s n y Ht Ey) Hp Hc) as H.
    assert (is_Some (child_at s n)) as Hs by by exists y.
    set (z := (set_at m0 (S i) (a :: r) v y).1) in *.
    destruct (unset_deep j s (a :: r) z (put s z n) ltac:(done)) as [-> _]; [apply child_put_eq; [done|by left]|].
    rewrite H. cbn [fst snd]. by rewrite put_put, put_child_same.
Qed.

(** *** Whole documents *)
(** the document with another top node *)
Definition with_top (root t : Node (M := M)) : Node :=
  if bool_decide (Kind root = DocumentNode) then with_content (t :: tail (Content root)) root else t.

Lemma with_top_tree root t : tree root -> tree t -> tree (with_top root t).
Proof.
  intros [kd w m c He Hc] Htt. unfold with_top. cbn [Kind Content]. case_bool_decide as Hd; [|done]. subst kd.
  constructor; [done|]. constructor; [done|]. by destruct Hc.
Qed.

Lemma with_top_label root t : (Kind root <> DocumentNode -> same_label root t) ->
  same_label root (with_top root t) /\ top_node (with_top root t) = t.
Proof.
  intros Hl. unfold with_top, top_node. case_bool_decide as Hd.
  - cbn. by rewrite bool_decide_eq_true_2.
  - specialize (Hl Hd). split; [done|]. destruct Hl as [Hk _]. rewrite <- Hk. by rewrite bool_decide_eq_false_2.
Qed.

Lemma with_top_over root t t' : (Kind root <> DocumentNode -> same_label root t) ->
  with_top (with_top root t) t' = with_top root t'.
Proof.
  intros Hl. unfold with_top at 1. destruct (with_top_label root t Hl) as [[Hk _] _]. rewrite <- Hk.
  unfold with_top. case_bool_decide; done.
Qed.

Lemma with_top_same root : (Kind root = DocumentNode -> Content root <> []) -> with_top root (top_node root) = root.
Proof.
  intros H. unfold with_top, top_node. destruct root as [kd w m c]. cbn in *. case_bool_decide as Hk; [|done].
  specialize (H Hk). by destruct c.
Qed.

Lemma Set_top root segs v : tree root -> segs <> [] ->
  exists t, tree t /\ Set_ m0 root segs v = (with_top root (set_at m0 0 segs v t).1, (set_at m0 0 segs v t).2) /\
    (Kind root <> DocumentNode -> same_label root (set_at m0 0 segs v t).1) /\
    (top_node root = t \/ (Kind root = DocumentNode /\ Content root = [] /\ t = empty_map m0)).
Proof.
  intros Ht Hne. destruct Ht as [kd w m c He Hc]. unfold Set_, with_top, top_node. cbn [Kind Content].
  destruct (decide (kd = DocumentNode)) as [->|Hd].
  - rewrite !bool_decide_eq_true_2 by done. destruct c as [|t o].
    + exists (empty_map m0). split; [repeat constructor; by exists 0|]. destruct (set_at m0 0 segs v (empty_map m0)).
      split; [done|]. split; [done|]. by right.
    + apply Forall_cons in Hc as [Hct _]. exists t. split; [done|]. destruct (set_at m0 0 segs v t).
      split; [done|]. split; [done|]. by left.
  - rewrite !bool_decide_eq_false_2 by done. exists (node kd w m c). split; [by constructor|].
    destruct (set_at m0 0 segs v (node kd w m c)) as [t' r] eqn:E.
    destruct (set_at_spec segs v Hne 0 (node kd w m c) t' r (tree_node kd w m c He Hc) E) as ([Hl _ _] & _ & _).
    split; [done|]. split; [done|]. by left.
Qed.

Lemma node_at_doc p n : p <> [] -> Kind n = DocumentNode -> node_at p n = None.
Proof. destruct p as [|[k|i] p]; [done|..]; cbn; by intros _ ->. Qed.
End Edits.

(** a literal tree is well formed *)
Ltac build_tree :=
  repeat match goal with
         | |- tree _ => constructor
         | |- Forall _ [] => constructor
         | |- Forall _ (_ :: _) => constructor
         | |- _ = _ -> Nat.Even _ => first [discriminate | intros _; apply Nat.even_spec; reflexivity]
         end.

(** What [Set] changes.  On any well-formed document and any path:
    when it succeeds, the path leads to the new node afterwards, what it
    returns is the node that was there (none if it made the key), and a
    scalar put there is what [yamlScalarAt] reads back; when it fails, the
    path led nowhere before.  Either way every node on a path that parts from
    the edited one is unchanged with all it carries, comments included, the
    nodes on the way keep their kind, value and comments, and the document
    stays well formed. *)
Theorem Set_edits {M} (m0 : M) root segs v :
  tree root -> segs <> [] ->
  let root' := (Set_ m0 root segs v).1 in
  match (Set_ m0 root segs v).2 with
  | Ok prev => node_at segs (top_node root') = Some v /\ node_at segs (top_node root) = prev /\
               (Kind v = ScalarNode -> yamlScalarAt root' segs = Some (Value v))
  | Err _ => node_at segs (top_node root) = None
  end /\
  (forall p, apart p segs -> node_at p (top_node root') = node_at p (top_node root)) /\
  (forall p q x, segs = p ++ q -> p <> [] -> q <> [] -> node_at p (top_node root) = Some x ->
     exists x', node_at p (top_node root') = Some x' /\ same_label x x') /\
  same_label root root' /\ (tree v -> tree root').
Proof.
  intros Ht Hne root'. destruct (Set_top m0 root segs v Ht Hne) as (t & Htt & Es & Hl & Hroot).
  unfold yamlScalarAt, root' in *. rewrite Es. destruct (set_at m0 0 segs v t) as [t' r] eqn:E. cbn [fst snd] in *.
  destruct (set_at_spec m0 segs v Hne 0 t t' r Htt E) as ([Hlab Hap Hway] & Htr & Hr).
  destruct (with_top_label root t' Hl) as [Hlr ->].
  assert (forall p, p <> [] -> node_at p (top_node root) = node_at p t) as Hsame.
  { intros p Hp. destruct Hroot as [->|(Hk & Hc & ->)]; [done|]. rewrite empty_map_at by done.
    unfold top_node. rewrite Hk, Hc, bool_decide_eq_true_2 by done. by apply node_at_doc. }
  rewrite Hsame by done. split; [|split; [|split; [|split; [done|]]]].
  - destruct r as [prev|e]; [|done]. destruct Hr as [H1 H2]. split; [done|]. split; [done|]. intros Hs.
    by rewrite H1, bool_decide_eq_true_2.
  - intros p Hp. rewrite Hsame by (by eapply apart_nonempty). by apply Hap.
  - intros p q x Eq Hp Hq. rewrite Hsame by done. by apply (Hway p q).
  - intros Hv. apply with_top_tree; auto.
Qed.

Section Trees.
Context {M : Type}.
Implicit Types (n root v : Node (M := M)).

Lemma node_at_app p q n : node_at (p ++ q) n = node_at p n ≫= node_at q.
Proof.
  revert n. induction p as [|s p IH]; intros n; [done|]. cbn [app]. rewrite !node_at_cons.
  destruct (child_at s n); cbn; [apply IH|done].
Qed.

Lemma node_at_tree p n x : tree n -> node_at p n = Some x -> tree x.
Proof.
  revert n. induction p as [|s p IH]; intros n Hn; [by intros [= <-]|]. rewrite node_at_cons.
  destruct (child_at s n) as [y|] eqn:E; [|done]. cbn. apply IH. by eapply child_tree.
Qed.

(** an edit of a document is an edit of its top node *)
Lemma Unset_top root segs : tree root -> segs <> [] ->
  (Kind root = DocumentNode /\ Content root = [] /\ Unset root segs = (root, Err DocumentEmpty) /\ yamlDeleteAt root segs = root) \/
  ((Kind root = DocumentNode -> Content root <> []) /\ tree (top_node root) /\
   (Kind root <> DocumentNode -> top_node root = root) /\
   Unset root segs = (with_top root (unset_at 0 segs (top_node root)).1, (unset_at 0 segs (top_node root)).2) /\
   yamlDeleteAt root segs = with_top root (delete_at segs (top_node root))).
Proof.
  intros Ht Hne. destruct segs as [|s segs]; [done|]. destruct Ht as [kd w m c He Hc].
  unfold Unset, yamlDeleteAt, top_node, with_top. cbn [Kind Content]. destruct (decide (kd = DocumentNode)) as [->|Hd].
  - rewrite !bool_decide_eq_true_2 by done. destruct c as [|t o]; [by left|right]. apply Forall_cons in Hc as [Hct _].
    split; [done|]. split; [done|]. split; [done|]. by destruct (unset_at 0 (s :: segs) t).
  - right. rewrite !bool_decide_eq_false_2 by done. split; [done|]. split; [by constructor|]. split; [done|].
    by destruct (unset_at 0 (s :: segs) _).
Qed.
End Trees.

Lemma Set_edits_witness :
  let doc := node DocumentNode "" tt [node MappingNode "" tt [node ScalarNode "a" tt []; node ScalarNode "1" tt []]] in
  let two := node ScalarNode "2" tt [] in
  let root' := (Set_ tt doc [Key "b"; Key "c"] two).1 in
  yamlScalarAt root' [Key "a"] = Some "1" /\ yamlScalarAt root' [Key "b"; Key "c"] = Some "2" /\
  (forall p, apart p [Key "b"; Key "c"] -> node_at p (top_node root') = node_at p (top_node doc)).
Proof.
  intros doc two root'. split; [by vm_compute|]. split; [by vm_compute|].
  exact (proj1 (proj2 (Set_edits tt doc [Key "b"; Key "c"] two
    ltac:(build_tree) ltac:(done)))).
Defined.

(** What [Unset] removes.  On any well-formed document and any
    path: if the path leads somewhere, [Unset] succeeds, returns the node that
    was there, and [yamlDeleteAt] of the patch filter makes the same document;
    everything on a path that parts from the parent is unchanged, the other
    keys of a mapping are unchanged, and in a sequence the later elements move
    down by one.  If the path leads nowhere, [Unset] fails, [yamlDeleteAt] does
    nothing, and both leave the document as it was. *)
Theorem Unset_edits {M} (root : Node (M := M)) p last :
  tree root ->
  match node_at (p ++ [last]) (top_node root) with
  | Some x =>
      exists root', Unset root (p ++ [last]) = (root', Ok x) /\ yamlDeleteAt root (p ++ [last]) = root' /\ tree root' /\
        (forall q, apart q p -> node_at q (top_node root') = node_at q (top_node root)) /\
        (forall s q, survives last s ->
           node_at (p ++ s :: q) (top_node root') = node_at (p ++ shift last s :: q) (top_node root))
  | None => (exists e, Unset root (p ++ [last]) = (root, Err e)) /\ yamlDeleteAt root (p ++ [last]) = root
  end.
Proof.
  intros Ht. destruct (Unset_top root (p ++ [last]) Ht ltac:(by destruct p)) as [(Hk & Hc & -> & ->)|(Hdoc & Htt & Hnd & -> & ->)].
  - unfold top_node. rewrite Hk, Hc, bool_decide_eq_true_2 by done. rewrite node_at_doc by (done || by destruct p). by eauto.
  - pose proof (unset_at_spec (Meta root) p last 0 (top_node root) Htt) as Hs.
    destruct (node_at (p ++ [last]) (top_node root)) as [x|] eqn:Ex.
    + pose proof (unset_at_removed (Meta root) p last 0 (top_node root) x Htt Ex) as [Hl Htr Hap Hsib _].
      destruct Hs as (n' & Eu & ->). rewrite Eu in *. cbn [fst snd] in *.
      destruct (with_top_label root n') as [_ Etop]; [intros Hk; by rewrite <- (Hnd Hk) at 1|].
      exists (with_top root n'). rewrite Etop. split; [done|]. split; [done|]. split; [by apply with_top_tree|done].
    + destruct Hs as [[e Eu] ->]. rewrite Eu. cbn [fst snd]. rewrite with_top_same by done. by eauto.
Qed.

Lemma Unset_edits_witness :
  let doc := node DocumentNode "" tt [node MappingNode "" tt [node ScalarNode "a" tt []; node ScalarNode "1" tt [];
                                                              node ScalarNode "b" tt []; node ScalarNode "2" tt []]] in
  yamlScalarAt (yamlDeleteAt doc [Key "a"]) [Key "b"] = Some "2" /\
  exists root', Unset doc ([] ++ [Key "a"]) = (root', Ok (node ScalarNode "1" tt [])).
Proof.
  intros doc. split; [by vm_compute|]. pose proof (Unset_edits doc [] (Key "a")) as H. cbn in H.
  destruct H as (root' & E & _); [build_tree|]. by exists root'.
Defined.

(** Smudging and cleaning a key HEAD does not have.  When [Set]
    made the last key of a path, [yamlDeleteAt] restores the document exactly
    if and only if the mapping the key was made in was there before: the
    mappings [Set] made on the way stay behind, empty. *)
Theorem Set_then_delete {M} (m0 : M) root p k v :
  tree root -> tree v -> (Kind root = DocumentNode -> Content root <> []) ->
  (Set_ m0 root (p ++ [Key k]) v).2 = Ok None ->
  (yamlDeleteAt (Set_ m0 root (p ++ [Key k]) v).1 (p ++ [Key k]) = root <-> is_Some (node_at p (top_node root))).
Proof.
  intros Ht Hv Hdoc. assert (p ++ [Key k] <> []) as Hne by (by destruct p).
  destruct (Set_top m0 root _ v Ht Hne) as (t & Htt & -> & Hl & Hroot).
  destruct Hroot as [Hroot|(Hk & Hc & _)]; [|by destruct (Hdoc Hk)]. rewrite Hroot in *.
  destruct (set_at m0 0 (p ++ [Key k]) v t) as [t' r] eqn:E. cbn [fst snd] in *. intros ->.
  destruct (set_at_spec m0 _ v Hne 0 t t' _ Htt E) as ([Hlab _ Hway] & Htr & Hget & Hprev).
  pose proof (with_top_tree root t' Ht (Htr Hv)) as Htree. destruct (with_top_label root t' Hl) as [Hlr Etop].
  pose proof (unset_at_spec m0 p (Key k) 0 t' (Htr Hv)) as Hun. rewrite Hget in Hun. destruct Hun as (t'' & Hun & Hdel).
  destruct (Unset_top (with_top root t') (p ++ [Key k]) Htree Hne) as [(Hk & Hc & _)|(_ & _ & _ & _ & ->)].
  { rewrite <- Etop in Hget. unfold top_node in Hget. rewrite Hk, Hc, bool_decide_eq_true_2 in Hget by done.
    by rewrite node_at_doc in Hget. }
  rewrite Etop, Hdel. pose proof (unset_at_removed m0 p (Key k) 0 t' v (Htr Hv) Hget) as [Hl2 Htr2 _ _ Hway2].
  rewrite Hun in Hl2, Htr2, Hway2. cbn [fst] in *. rewrite (with_top_over root t' t'' Hl). split.
  - intros Eq. assert (t'' = t) as ->.
    { destruct (with_top_label root t'') as [_ <-]; [|by rewrite Eq]. intros Hk. specialize (Hl Hk).
      destruct Hl as (? & ? & ?), Hl2 as (? & ? & ?). split; [congruence|]. split; congruence. }
    rewrite node_at_app in Hget. destruct (node_at p t') as [par|] eqn:Ep; [|done].
    destruct (Hway2 p [] par (eq_sym (app_nil_r p)) Ep) as (x & -> & _). by eexists.
  - intros [par Hp]. destruct (Hway p [Key k] par eq_refl ltac:(done) Hp) as (par' & Hp' & Hkind & _).
    rewrite node_at_app, Hp' in Hget. rewrite node_at_app, Hp in Hprev. cbn in Hget, Hprev.
    destruct (decide (Kind par' = MappingNode)) as [Hm|Hm]; [|by rewrite bool_decide_eq_false_2 in Hget].
    rewrite <- Hkind in Hm. rewrite bool_decide_eq_true_2 in Hprev by done.
    assert (creates (Key k) par) as Hcr.
    { split; [done|]. unfold value_of in Hprev. destruct (key_index k (Content par)) as [i|] eqn:Ei; [|done].
      destruct (tree_value k par i (node_at_tree p t par Htt Hp) Hm Ei) as [y Hy]. cbn in Hprev. by rewrite Hy in Hprev. }
    pose proof (set_unset m0 p k v 0 0 t par Htt Hp Hcr) as Hsu. rewrite E in Hsu. cbn [fst] in Hsu. rewrite Hun in Hsu.
    injection Hsu as ->. rewrite <- Hroot. by apply with_top_same.
Qed.

(** the patch [a.b: 1] on the document [{}], and what clean leaves of it *)
Lemma Set_then_delete_witness :
  let doc := node DocumentNode "" tt [node MappingNode "" tt []] in
  let one := node ScalarNode "1" tt [] in
  yamlDeleteAt (Set_ tt doc [Key "a"; Key "b"] one).1 [Key "a"; Key "b"] =
    node DocumentNode "" tt [node MappingNode "" tt [node ScalarNode "a" tt []; node MappingNode "" tt []]] /\
  (yamlDeleteAt (Set_ tt doc ([Key "a"] ++ [Key "b"]) one).1 ([Key "a"] ++ [Key "b"]) = doc <->
     is_Some (node_at [Key "a"] (top_node doc))).
Proof.
  intros doc one. split; [by vm_compute|]. refine (Set_then_delete tt doc [Key "a"] "b" one _ _ _ _).
  - build_tree.
  - build_tree.
  - done.
  - by vm_compute.
Defined.
