(* ===== verification/PatchFilter.v ===== *)
(** * The clean and smudge filter of patched files

    [internal/patcher]: the line grammars of [lines.go], the dotenv, INI and
    TOML drivers of [patcher.go], [toml_ini.go], [inplace.go] and [filter.go],
    and the two directions of the git filter, [Smudge] and [Clean].

    The regular expressions of [lines.go] match within one line, so a text is
    taken as its lines, each with the newline that ends it; the keys and
    section names a patch names hold no newline.  The INI and TOML libraries
    are parameters.  The phpunit, YAML and JSON drivers are not modelled here
    (the YAML tree edits are in [YamlPatch]). *)
From stdpp Require Import base strings list gmap sorting.
From Stdlib Require Import ZArith Lia.
From S2P Require Import Prelude GoStrings Lines Slug Template.
#[local] Open Scope treeman_scope.

(** ** A text and its lines *)
(** a line, and whether a newline ends it *)
Abbreviation chunk := (string * bool)%type.

Fixpoint chunks (s : string) : list chunk :=
  match s with
  | EmptyString => []
  | String c s' =>
      if Ascii.eqb c newline then ("", true) :: chunks s'
      else match chunks s' with
           | [] => [(String c "", false)]
           | (t, b) :: l => (String c t, b) :: l
           end
  end.

Definition chunk_text (c : chunk) : string := c.1 +:+ (if c.2 then nl else "").
Fixpoint text (l : list chunk) : string := match l with [] => "" | c :: l' => chunk_text c +:+ text l' end.

Definition blank (c : ascii) : bool := Ascii.eqb c " " || Ascii.eqb c "009".

(** ** The dotenv driver *)
(** [dotenvLine]: the key, blanks, an equals sign; group 1 is the rest *)
Definition dotenvLine (key line : string) : option string :=
  match cut_prefix key line with
  | None => None
  | Some r => match trim_left blank r with
              | String c v => if Ascii.eqb c "=" then Some v else None
              | EmptyString => None
              end
  end.

Definition is_key (key : string) (c : chunk) : bool := match dotenvLine key c.1 with Some _ => true | None => false end.

(** [ReplaceAllLiteralString] and [FindString] with [dotenvLine] *)
Definition replace_lines (key repl : string) (l : list chunk) : list chunk :=
  map (fun c => if is_key key c then (repl, c.2) else c) l.
Definition find_line (key : string) (l : list chunk) : string :=
  match List.find (is_key key) l with Some c => c.1 | None => "" end.

Definition patchEnvOne (content key value : string) : string :=
  if existsb (is_key key) (chunks content)
  then text (replace_lines key (key +:+ "=" +:+ value) (chunks content))
  else
    let out := if negb (String.eqb content "") && negb (has_suffix nl content) then content +:+ nl else content in
    out +:+ (key +:+ "=" +:+ value +:+ nl).

(** [sortedKeys], [setKeys] *)
Definition sortedKeys (m : gmap string string) : list string := merge_sort String.le (map fst (map_to_list m)).

Definition applyDotenvContent (content : string) (pairs : gmap string string) : string :=
  foldl (fun content k => patchEnvOne content k (default "" (pairs !! k))) content (sortedKeys pairs).

Definition extractDotenv (content : string) (keys : list string) : gmap string string :=
  foldl (fun out k => match List.find (is_key k) (chunks content) with
                      | Some c => match dotenvLine k c.1 with Some v => <[k := v]> out | None => out end
                      | None => out
                      end) ∅ keys.

(** [dotenvLineWithNewline] replaced by the empty text *)
Definition removeDotenvContent (content : string) (keys : list string) : string :=
  foldl (fun content k => text (List.filter (fun c => negb (is_key k c)) (chunks content))) content keys.

Definition restoreDotenvFromHead (content headContent : string) (keys : list string) : string :=
  foldl (fun content k =>
    let headLine := find_line k (chunks headContent) in
    if String.eqb headLine "" then content else text (replace_lines k headLine (chunks content))) content keys.

(** ** Sections and assignments of INI and TOML *)
(** [assignLine]: group 1 is everything before the value, group 2 the value.
    The indent is as long as it can be. *)
Definition assign_here (key line : string) : option (string * string) :=
  match cut_prefix key line with
  | None => None
  | Some r =>
      match trim_left blank r with
      | String c v =>
          if Ascii.eqb c "="
          then let value := trim_left blank v in
               Some (str_take (String.length line - String.length value) line, value)
          else None
      | EmptyString => None
      end
  end.

Fixpoint assignLine (key line : string) : option (string * string) :=
  match line with
  | String c line' =>
      if blank c then
        match assignLine key line' with
        | Some (p, v) => Some (String c p, v)
        | None => assign_here key line
        end
      else assign_here key line
  | EmptyString => assign_here key line
  end.

Definition assigns (key : string) (c : chunk) : bool := match assignLine key c.1 with Some _ => true | None => false end.

(** [reSectionHeader], and the header line of one section *)
Definition is_header (c : chunk) : bool := has_prefix "[" c.1.
Definition header_of (name : string) (c : chunk) : bool := has_prefix ("[" +:+ name +:+ "]") c.1 && c.2.

(** the lines up to the first that satisfies [p], and the rest *)
Fixpoint span (p : chunk -> bool) (l : list chunk) : list chunk * list chunk :=
  match l with
  | [] => ([], [])
  | c :: l' => if p c then ([], l) else let '(a, b) := span p l' in (c :: a, b)
  end.

(** the body of a section between what comes before and after it *)
Definition named_section (name : string) (l : list chunk) : option (list chunk * list chunk * list chunk) :=
  match span (header_of name) l with
  | (_, []) => None
  | (before, h :: rest) => let '(body, after) := span is_header rest in Some (before ++ [h], body, after)
  end.
Definition unnamed_section (l : list chunk) : option (list chunk * list chunk * list chunk) :=
  let '(body, after) := span is_header l in Some ([], body, after).

(** [strings.EqualFold] for ASCII *)
Definition equal_fold (a b : string) : bool := String.eqb (str_map to_lower a) (str_map to_lower b).

Definition iniSection (section : string) (l : list chunk) : option (list chunk * list chunk * list chunk) :=
  if String.eqb section "" || equal_fold section "DEFAULT" then unnamed_section l else named_section section l.
Definition tomlSection (table : string) (l : list chunk) : option (list chunk * list chunk * list chunk) :=
  if String.eqb table "" then unnamed_section l else named_section table l.

(** the first matching line gets the new value; [None] when there is none *)
Fixpoint splice_lines (key literal : string) (l : list chunk) : option (list chunk) :=
  match l with
  | [] => None
  | c :: l' =>
      match assignLine key c.1 with
      | Some (prefix, _) => Some ((prefix +:+ literal, c.2) :: l')
      | None => match splice_lines key literal l' with Some l'' => Some (c :: l'') | None => None end
      end
  end.
Definition spliceAssignValue (section : list chunk) (key literal : string) : list chunk * bool :=
  match splice_lines key literal section with Some l => (l, true) | None => (section, false) end.

Inductive error :=
| EmptyIniPath
| DeepIniPath (p : string)
| UnknownDriver (d : string)
| CannotInfer (file : string)
| RenderFailed (key : string) (e : RenderError)
| Library (msg : string).

Definition splitINIPath (p : string) : res error (string * string) :=
  if String.eqb p "" then Err EmptyIniPath
  else match split_byte "." p with
       | [key] => Ok ("DEFAULT", key)
       | [section; key] => Ok (section, key)
       | _ => Err (DeepIniPath p)
       end.

Definition split_toml (k : string) : string * string :=
  match cut_last "." k with Some p => p | None => ("", k) end.

(** one turn of the loops of [setINIInPlace] and [setTOMLInPlace]: [None] is
    the fallback to the library *)
Definition splice_in (sec : option (list chunk * list chunk * list chunk)) (key literal : string) : option (list chunk) :=
  match sec with
  | None => None
  | Some (before, body, after) =>
      if String.eqb (text body) "" then None
      else let '(body', found) := spliceAssignValue body key literal in
           if found then Some (before ++ body' ++ after) else None
  end.

(** the literal a TOML value is written as; [strconv.Quote] for text whose
    bytes from 128 on are printable UTF-8 *)
Definition hex_low (n : N) : ascii := Ascii.ascii_of_N (if N.ltb n 10 then 48 + n else 87 + n).
Definition dquote : ascii := "034".
Definition backslash : ascii := "092".
Definition quote_byte (c : ascii) : string :=
  let n := Ascii.N_of_ascii c in
  if Ascii.eqb c dquote || Ascii.eqb c backslash then String backslash (String c "")
  else if N.leb 32 n && negb (N.eqb n 127) then String c ""
  else String backslash
    (match n with
     | 7 => "a" | 8 => "b" | 9 => "t" | 10 => "n" | 11 => "v" | 12 => "f" | 13 => "r"
     | _ => "x" +:+ String (hex_low (n / 16)) (String (hex_low (n mod 16)) "")
     end)%N.
Fixpoint quote_bytes (s : string) : string :=
  match s with EmptyString => "" | String c s' => quote_byte c +:+ quote_bytes s' end.
Definition Quote (s : string) : string := String dquote (quote_bytes s +:+ String dquote "").

Definition tomlLiteralFor (v : string) : string :=
  if String.eqb v "" then String dquote (String dquote "")
  else match atoi v with Some _ => v | None => Quote v end.

Fixpoint ini_loop (pairs : gmap string string) (keys : list string) (out : list chunk) : res error (option (list chunk)) :=
  match keys with
  | [] => Ok (Some out)
  | k :: keys' =>
      let? (section, key) := splitINIPath k in
      match splice_in (iniSection section out) key (default "" (pairs !! k)) with
      | None => Ok None
      | Some out' => ini_loop pairs keys' (chunks (text out'))
      end
  end.

Definition toml_step (pairs : gmap string string) (acc : option (list chunk)) (k : string) : option (list chunk) :=
  match acc with
  | None => None
  | Some out =>
      let '(table, key) := split_toml k in
      match splice_in (tomlSection table out) key (tomlLiteralFor (default "" (pairs !! k))) with
      | None => None
      | Some out' => Some (chunks (text out'))
      end
  end.

(** [restoreINIFromHead], [restoreTOMLFromHead]: the line of HEAD in the place of
    every matching line of the section *)
Definition restore_in (headSec curSec : option (list chunk * list chunk * list chunk)) (key : string) (content : string) : string :=
  match headSec, curSec with
  | Some (_, hbody, _), Some (before, body, after) =>
      if String.eqb (text hbody) "" || String.eqb (text body) "" then content
      else match List.find (assigns key) hbody with
           | None => content
           | Some h => text (before ++ map (fun c => if assigns key c then (h.1, c.2) else c) body ++ after)
           end
  | _, _ => content
  end.

Definition restoreINIFromHead (content headContent : string) (dottedKeys : list string) : string :=
  foldl (fun content dk =>
    match splitINIPath dk with
    | Err _ => content
    | Ok (section, key) => restore_in (iniSection section (chunks headContent)) (iniSection section (chunks content)) key content
    end) content dottedKeys.

Definition restoreTOMLFromHead (content headContent : string) (dottedKeys : list string) : string :=
  foldl (fun content dk =>
    let '(table, key) := split_toml dk in
    restore_in (tomlSection table (chunks headContent)) (tomlSection table (chunks content)) key content)
    content dottedKeys.

(** ** Drivers *)
(** the switches of [applyContent], [extractContent], [removeContent] and
    [restoreContent], one driver at a time *)
Record Driver := {
  applyContent_ : string -> gmap string string -> res error string;
  extractContent_ : string -> list string -> res error (gmap string string);
  removeContent_ : string -> list string -> res error string;
  restoreContent_ : string -> string -> gmap string string -> list string -> res error string
}.

Definition DriverDotenv := "dotenv".
Definition DriverPhpunit := "phpunit".
Definition DriverPhpunitEnv := "phpunit_env".
Definition DriverYAML := "yaml".
Definition DriverJSON := "json".
Definition DriverTOML := "toml".
Definition DriverINI := "ini".

Definition dotenv_driver : Driver := {|
  applyContent_ content pairs := Ok (applyDotenvContent content pairs);
  extractContent_ content keys := Ok (extractDotenv content keys);
  removeContent_ content keys := Ok (removeDotenvContent content keys);
  restoreContent_ content head _ present := Ok (restoreDotenvFromHead content head present)
|}.

Section Filter.
(** the INI and TOML libraries behind [applyINIMarshal], [extractINI],
    [removeINIContent] and their TOML counterparts; the other drivers *)
Context (ini_marshal toml_marshal : string -> gmap string string -> res error string)
        (ini_extract toml_extract : string -> list string -> res error (gmap string string))
        (ini_remove toml_remove : string -> list string -> res error string)
        (others : string -> option Driver)
        (getenv : string -> string).

Definition setINIInPlace (content : string) (pairs : gmap string string) : res error (string * bool) :=
  let? o := ini_loop pairs (sortedKeys pairs) (chunks content) in
  let? out := (match o with Some l => Ok (text l) | None => ini_marshal content pairs end) in
  Ok (out, negb (String.eqb out content)).

Definition setTOMLInPlace (content : string) (pairs : gmap string string) : res error (string * bool) :=
  let? out := (match foldl (toml_step pairs) (Some (chunks content)) (sortedKeys pairs) with
               | Some l => Ok (text l)
               | None => toml_marshal content pairs
               end) in
  Ok (out, negb (String.eqb out content)).

Definition ini_driver : Driver := {|
  applyContent_ content pairs := let? (out, _) := setINIInPlace content pairs in Ok out;
  extractContent_ := ini_extract;
  removeContent_ := ini_remove;
  restoreContent_ content head _ present := Ok (restoreINIFromHead content head present)
|}.
Definition toml_driver : Driver := {|
  applyContent_ content pairs := let? (out, _) := setTOMLInPlace content pairs in Ok out;
  extractContent_ := toml_extract;
  removeContent_ := toml_remove;
  restoreContent_ content head _ present := Ok (restoreTOMLFromHead content head present)
|}.

Definition driver_of (d : string) : option Driver :=
  if String.eqb d DriverDotenv then Some dotenv_driver
  else if String.eqb d DriverINI then Some ini_driver
  else if String.eqb d DriverTOML then Some toml_driver
  else others d.

Definition with_driver {A} (d : string) (f : Driver -> res error A) : res error A :=
  match driver_of d with Some dr => f dr | None => Err (UnknownDriver d) end.

Definition applyContent (d content : string) (pairs : gmap string string) : res error string :=
  if bool_decide (pairs = ∅) then Ok content else with_driver d (fun dr => applyContent_ dr content pairs).
Definition extractContent (d content : string) (keys : list string) : res error (gmap string string) :=
  match keys with [] => Ok ∅ | _ => with_driver d (fun dr => extractContent_ dr content keys) end.
Definition removeContent (d content : string) (keys : list string) : res error string :=
  match keys with [] => Ok content | _ => with_driver d (fun dr => removeContent_ dr content keys) end.
(** only called with a driver [extractContent] knows *)
Definition restoreContent (d content head : string) (headVals : gmap string string) (present : list string) : res error string :=
  with_driver d (fun dr => restoreContent_ dr content head headVals present).

(** ** The filter *)
Record Patch := { File : string; Format : string; Set_ : gmap string string }.

(** [filepath.Ext] of a base name *)
Definition Ext (base : string) : string :=
  match cut_last "." base with Some (_, e) => String "." e | None => "" end.

Definition detectFormat (file : string) : string :=
  let base := str_map to_lower (path_base file) in
  if String.eqb base ".env" || has_prefix ".env." base || has_suffix ".env" base then DriverDotenv
  else
    let ext := Ext base in
    let ext := if String.eqb ext ".dist" then Ext (trim_suffix base ".dist") else ext in
    if String.eqb ext ".yaml" || String.eqb ext ".yml" then DriverYAML
    else if String.eqb ext ".json" then DriverJSON
    else if String.eqb ext ".toml" then DriverTOML
    else if String.eqb ext ".ini" || String.eqb ext ".cfg" then DriverINI
    else if String.eqb ext ".xml" then DriverPhpunit
    else "".

Definition patchDriver (p : Patch) : res error string :=
  let d := str_map to_lower (TrimSpace (Format p)) in
  let d := if String.eqb d "" then detectFormat (File p) else d in
  if String.eqb d "" then Err (CannotInfer (File p))
  else Ok (if String.eqb d DriverPhpunitEnv then DriverPhpunit else d).

(** [renderTemplates]: the keys in the order of their names *)
Fixpoint render_keys (set_ : gmap string string) (c : Context) (keys : list string) (out : gmap string string)
    : res error (gmap string string) :=
  match keys with
  | [] => Ok out
  | k :: keys' =>
      match Render (default "" (set_ !! k)) c with
      | Err e => Err (RenderFailed k e)
      | Ok s => render_keys set_ c keys' (<[k := ExpandVars ∅ getenv s]> out)
      end
  end.
Definition renderTemplates (set_ : gmap string string) (c : Context) : res error (gmap string string) :=
  render_keys set_ c (sortedKeys set_) ∅.

Definition Smudge (p : Patch) (content : string) (c : Context) : res error string :=
  let? driver := patchDriver p in
  let? rendered := renderTemplates (Set_ p) c in
  applyContent driver content rendered.

Definition Clean (p : Patch) (content headContent : string) : res error string :=
  let? driver := patchDriver p in
  if String.eqb (TrimSpace headContent) "" then Ok content
  else
    let keys := sortedKeys (Set_ p) in
    let? headVals := extractContent driver headContent keys in
    let absent := List.filter (fun k => negb (bool_decide (is_Some (headVals !! k)))) keys in
    let present := List.filter (fun k => bool_decide (is_Some (headVals !! k))) keys in
    let? content1 := removeContent driver content absent in
    match present with
    | [] => Ok content1
    | _ => restoreContent driver content1 headContent headVals present
    end.
End Filter.

Definition no_driver (_ : string) : option Driver := None.
Definition no_library {A} (_ : string) (_ : A) : res error string := Err (Library "").
Definition no_extract (_ : string) (_ : list string) : res error (gmap string string) := Err (Library "").

Example detect_ex :
  detectFormat "app/.env.Testing" = "dotenv" /\ detectFormat "phpunit.xml.dist" = "phpunit" /\
  detectFormat "setup.CFG" = "ini" /\ detectFormat "Makefile" = "".
Proof. done. Qed.

(** ** Lines and text *)
(** lines without a newline in them, each but the last ended by one *)
Fixpoint lined (l : list chunk) : Prop :=
  match l with
  | [] => True
  | c :: l' =>
      one_line c.1 = true /\ match l' with [] => c.2 = true \/ c.1 <> "" | _ => c.2 = true end /\ lined l'
  end.
Definition ended (l : list chunk) : Prop := Forall (fun c => c.2 = true) l.

Lemma text_app l l' : text (l ++ l') = text l +:+ text l'.
Proof. induction l as [|c l IH]; [done|]. cbn. by rewrite IH, str_app_assoc. Qed.

Lemma text_chunks s : text (chunks s) = s.
Proof.
  induction s as [|a s IH]; [done|]. cbn [chunks]. destruct (Ascii.eqb_spec a newline) as [->|Ha]; [cbn; by rewrite IH|].
  destruct (chunks s) as [|[t b] l]; cbn in *; by rewrite <- IH.
Qed.

Lemma lined_chunks s : lined (chunks s).
Proof.
  induction s as [|a s IH]; [done|]. cbn [chunks]. destruct (Ascii.eqb a newline) eqn:Ha.
  - cbn. split; [done|]. split; [destruct (chunks s); auto|done].
  - destruct (chunks s) as [|[t b] l]; cbn [lined] in *.
    + unfold one_line, has_byte. cbn. rewrite Ha. split; [done|]. split; [by right|done].
    + destruct IH as (H1 & H2 & H3). split; [unfold one_line, has_byte in *; cbn in *; by rewrite Ha|].
      split; [destruct l; [by right|done]|done].
Qed.

Lemma chunks_line t s : one_line t = true -> chunks (t +:+ String newline s) = (t, true) :: chunks s.
Proof.
  induction t as [|a t IH]; intros H; [done|]. change (String a t +:+ String newline s) with (String a (t +:+ String newline s)).
  unfold one_line, has_byte in H. cbn in H. apply negb_true_iff, orb_false_iff in H as [Ha Ht]. cbn [chunks].
  rewrite Ha, IH by (unfold one_line, has_byte; by rewrite Ht). done.
Qed.

Lemma chunks_last t : one_line t = true -> t <> "" -> chunks t = [(t, false)].
Proof.
  intros H Hne. induction t as [|a t IH]; [done|]. unfold one_line, has_byte in H. cbn in H.
  apply negb_true_iff, orb_false_iff in H as [Ha Ht]. cbn [chunks]. rewrite Ha. destruct t as [|b t]; [done|].
  by rewrite IH by (done || unfold one_line, has_byte; by rewrite Ht).
Qed.

Lemma chunks_text l : lined l -> chunks (text l) = l.
Proof.
  induction l as [|[t b] l IH]; [done|]. intros (Ht & Hb & Hl). specialize (IH Hl). cbn [text]. unfold chunk_text. cbn [fst snd] in *. destruct l as [|c l].
  - cbn in *. destruct b.
    + rewrite str_app_nil_r. change (t +:+ nl) with (t +:+ String newline ""). by rewrite chunks_line.
    + rewrite !str_app_nil_r. apply chunks_last; [done|]. by destruct Hb.
  - rewrite Hb. rewrite str_app_assoc. change (nl +:+ text (c :: l)) with (String newline (text (c :: l))).
    by rewrite chunks_line, IH.
Qed.

Lemma lined_app l l' : lined l -> ended l -> lined l' -> lined (l ++ l').
Proof.
  induction l as [|c l IH]; [done|]. intros (H1 & H2 & H3) [He1 He]%Forall_cons Hl'. cbn [app lined].
  split; [done|]. split; [by destruct (l ++ l'); [left|]|by apply IH].
Qed.

(** the lines may change, and some may go *)
Definition kept_line (c c' : chunk) : Prop := c'.2 = c.2 /\ one_line c'.1 = true /\ (c.1 <> "" -> c'.1 <> "").

Lemma lined_pointwise l l' : lined l -> Forall2 kept_line l l' -> lined l'.
Proof.
  intros Hl H. induction H as [|c c' l l' (Hb & Ho & Hn) H IH]; [done|]. destruct Hl as (H1 & H2 & H3). cbn [lined].
  split; [done|]. split; [|by apply IH]. rewrite Hb. destruct H; naive_solver.
Qed.

Lemma lined_map (f : chunk -> chunk) l : lined l -> (forall c, c ∈ l -> kept_line c (f c)) -> lined (map f l).
Proof.
  intros Hl Hf. apply (lined_pointwise l); [done|]. clear Hl. induction l as [|c l IH]; constructor; [apply Hf; by left|].
  apply IH. intros x Hx. apply Hf. by right.
Qed.

Lemma lined_filter p l : lined l -> lined (List.filter p l).
Proof.
  intros H. induction l as [|c l IH]; [done|]. destruct H as (H1 & H2 & H3). cbn [List.filter]. destruct (p c); [|by apply IH].
  cbn [lined]. split; [done|]. split; [|by apply IH]. destruct l as [|c' l']; [done|]. destruct (List.filter p (c' :: l')); auto.
Qed.

Lemma suffix_tail a b x : a +:+ b = x +:+ nl -> b <> "" -> exists x', b = x' +:+ nl.
Proof.
  revert x. induction a as [|c a IH]; intros x E Hb; [by exists x|]. destruct x as [|d x].
  - unfold nl in E. cbn in E. injection E as _ E. by destruct a, b.
  - cbn in E. injection E as _ E. by apply (IH x).
Qed.

Lemma ended_suffix l : lined l -> has_suffix nl (text l) = true -> ended l.
Proof.
  intros Hl [x Hx]%has_suffix_app. revert x Hx. induction l as [|[t b] l IH]; intros x Hx; [by constructor|].
  destruct Hl as (H1 & H2 & H3). cbn [fst snd text] in *. destruct l as [|c l].
  - constructor; [|by constructor]. cbn. destruct b; [done|]. unfold chunk_text in Hx. cbn in Hx. rewrite !str_app_nil_r in Hx.
    rewrite Hx, one_line_app in H1. by rewrite andb_false_r in H1.
  - constructor; [done|]. assert (text (c :: l) <> "") as Hne.
    { destruct H3 as (_ & H3 & _). cbn [text]. unfold chunk_text. destruct c as [t' b']. cbn in *.
      destruct t'; [|done]. destruct b'; [done|]. destruct l; [by destruct H3|done]. }
    apply suffix_tail in Hx as [x' Hx]; [|done]. by apply (IH H3 x').
Qed.

(** ** Plain keys *)
(** the key of a line: what comes before a blank or an equals sign *)
Fixpoint name_of (s : string) : string :=
  match s with String c s' => if blank c || Ascii.eqb c "=" then "" else String c (name_of s') | EmptyString => "" end.

Definition env_key (k : string) : Prop :=
  k <> "" /\ str_any (fun c => blank c || Ascii.eqb c "=") k = false /\ one_line k = true.

Lemma name_of_key k r : str_any (fun c => blank c || Ascii.eqb c "=") k = false -> name_of (k +:+ r) = k +:+ name_of r.
Proof. induction k as [|c k IH]; [done|]. cbn. intros [-> H]%orb_false_iff. by rewrite IH. Qed.

Lemma is_key_spec k c : env_key k -> is_key k c = true <-> exists r v, c.1 = k +:+ r /\ trim_left blank r = String "=" v.
Proof.
  intros _. unfold is_key, dotenvLine. split.
  - destruct (cut_prefix k c.1) as [r|] eqn:E; [|done]. apply cut_prefix_app in E. destruct (trim_left blank r) as [|a v] eqn:Et; [done|].
    destruct (Ascii.eqb_spec a "=") as [->|]; [|done]. intros _. by exists r, v.
  - intros (r & v & E & Et). by rewrite (proj2 (cut_prefix_app _ _ _) E), Et.
Qed.

Lemma blanks_name r v : trim_left blank r = String "=" v -> name_of r = "".
Proof.
  destruct r as [|c r]; [done|]. cbn. destruct (blank c); [done|]. by intros [= -> _].
Qed.

Lemma is_key_name k c : env_key k -> is_key k c = true -> name_of c.1 = k.
Proof.
  intros Hk (r & v & E & Et)%is_key_spec; [|done]. destruct Hk as (_ & Hk & _). rewrite E, name_of_key by done.
  by rewrite (blanks_name r v), str_app_nil_r.
Qed.

(** a line belongs to one plain key at most *)
Lemma is_key_unique k k' c : env_key k -> env_key k' -> is_key k c = true -> is_key k' c = true -> k = k'.
Proof. intros Hk Hk' H H'. by rewrite <- (is_key_name k c Hk H), (is_key_name k' c Hk' H'). Qed.

Lemma is_key_written k k' v b : env_key k -> env_key k' -> is_key k' (k +:+ "=" +:+ v, b) = bool_decide (k = k').
Proof.
  intros Hk Hk'. case_bool_decide as E.
  - subst k'. apply is_key_spec; [done|]. by exists ("=" +:+ v), v.
  - apply not_true_iff_false. intros H. apply E. apply (is_key_unique k k' (k +:+ "=" +:+ v, b)); try done.
    apply is_key_spec; [done|]. by exists ("=" +:+ v), v.
Qed.

(** ** What the dotenv driver does to the lines *)
Definition key_in (ks : list string) (c : chunk) : option string := List.find (fun k => is_key k c) ks.
Definition found (k : string) (l : list chunk) : bool := existsb (is_key k) l.

Lemma key_in_Some ks c k : key_in ks c = Some k -> k ∈ ks /\ is_key k c = true.
Proof. unfold key_in. intros H. apply find_some in H as [H1 H2]. split; [by apply list_elem_of_In|done]. Qed.

Lemma key_in_None ks c k : key_in ks c = None -> k ∈ ks -> is_key k c = false.
Proof. unfold key_in. intros H Hk. apply (find_none _ _ H). by apply list_elem_of_In. Qed.

Lemma key_in_snoc ks k c : key_in (ks ++ [k]) c =
  match key_in ks c with Some k' => Some k' | None => if is_key k c then Some k else None end.
Proof. unfold key_in. induction ks as [|a ks IH]; cbn; [done|]. by destruct (is_key a c). Qed.

Lemma key_in_is ks c k : Forall env_key ks -> k ∈ ks -> is_key k c = true -> key_in ks c = Some k.
Proof.
  intros Hks Hk H. destruct (key_in ks c) as [k'|] eqn:E.
  - apply key_in_Some in E as [Hk' H']. f_equal. rewrite Forall_forall in Hks. apply (is_key_unique k' k c); auto.
  - by rewrite (key_in_None ks c k E Hk) in H.
Qed.

(** the same lines, the last one ended too *)
Definition closed (l : list chunk) : list chunk := map (fun c => (c.1, true)) l.

Lemma ended_closed l : ended (closed l).
Proof. apply Forall_map, Forall_forall. done. Qed.

Lemma closed_ended l : ended l -> closed l = l.
Proof. unfold closed. induction 1 as [|[t b] l Hb _ IH]; [done|]. cbn in *. by rewrite IH, Hb. Qed.

Lemma closed_idem l : closed (closed l) = closed l.
Proof. apply closed_ended, ended_closed. Qed.

Lemma lined_closed l : lined l -> lined (closed l).
Proof.
  induction l as [|c l IH]; [done|]. intros (H1 & _ & H3). cbn [closed map lined fst snd]. split; [done|].
  split; [destruct (map _ l); [by left|done]|by apply IH].
Qed.

Lemma found_closed k l : found k (closed l) = found k l.
Proof. unfold found, closed. induction l as [|c l IH]; [done|]. cbn. by rewrite IH. Qed.

Lemma ended_text l : ended l -> negb (String.eqb (text l) "") && negb (has_suffix nl (text l)) = false.
Proof.
  intros H. destruct l as [|c l _] using rev_ind; [done|]. apply Forall_app in H as [_ [Hc _]%Forall_cons].
  rewrite text_app. cbn [text]. unfold chunk_text. rewrite Hc.
  assert (has_suffix nl (text l +:+ (c.1 +:+ nl) +:+ "") = true) as ->; [|by rewrite andb_false_r].
  apply has_suffix_app. exists (text l +:+ c.1). by rewrite str_app_nil_r, str_app_assoc.
Qed.

Lemma lined_open l : lined l -> ended l \/ text l <> "" /\ text (closed l) = text l +:+ nl.
Proof.
  induction l as [|[t b] l IH]; [by left; constructor|]. cbn [lined fst snd]. intros (_ & H2 & H3). specialize (IH H3).
  cbn [closed map text]. fold (closed l). unfold chunk_text. cbn [fst snd]. destruct l as [|c l].
  - destruct b; [left; by constructor|]. right. destruct H2 as [?|H2]; [done|]. cbn. rewrite !str_app_nil_r. split; [done|]. by destruct t.
  - rewrite H2. destruct IH as [IH|[IH1 IH2]]; [left; by constructor|right]. rewrite IH2, !str_app_assoc.
    split; [|done]. by destruct t.
Qed.

(** what the filter does before it adds a line *)
Lemma text_closed l : lined l ->
  (if negb (String.eqb (text l) "") && negb (has_suffix nl (text l)) then text l +:+ nl else text l) = text (closed l).
Proof.
  intros Hl. destruct (lined_open l Hl) as [He|[Hne Hc]]; [by rewrite ended_text, closed_ended|].
  apply String.eqb_neq in Hne. rewrite Hne. cbn [negb andb]. destruct (has_suffix nl (text l)) eqn:E; [|done].
  apply ended_suffix in E; [|done]. by rewrite (closed_ended l E).
Qed.

(** the lines of a file that gets the keys it does not have *)
Definition finish (ks : list string) (l : list chunk) : list chunk := if forallb (fun k => found k l) ks then l else closed l.

Lemma found_finish k ks l : found k (finish ks l) = found k l.
Proof. unfold finish. case_match; [done|apply found_closed]. Qed.
Lemma lined_finish ks l : lined l -> lined (finish ks l).
Proof. unfold finish. case_match; [done|apply lined_closed]. Qed.
Lemma closed_finish ks l : closed (finish ks l) = closed l.
Proof. unfold finish. case_match; [done|apply closed_idem]. Qed.
Lemma finish_snoc ks k l : finish (ks ++ [k]) l = if found k l then finish ks l else closed l.
Proof. unfold finish. rewrite forallb_app. cbn [forallb]. rewrite andb_true_r. destruct (found k l); [by rewrite andb_true_r|by rewrite andb_false_r]. Qed.
Lemma finish_id ks l : ended l \/ (forall k, k ∈ ks -> found k l = true) -> finish ks l = l.
Proof.
  unfold finish. intros [He|Hall]; [case_match; [done|by apply closed_ended]|].
  by rewrite (proj2 (forallb_forall _ _)) by (intros k Hk; by apply Hall, list_elem_of_In).
Qed.
Lemma elem_finish ks l x : x ∈ finish ks l -> exists y, y ∈ l /\ x.1 = y.1.
Proof.
  unfold finish. case_match; [by exists x|]. intros (y & -> & Hy)%list_elem_of_fmap. by exists y.
Qed.

Section Lines.
Context (val : string -> string).

Definition written (k : string) : string := k +:+ "=" +:+ val k.

Definition smudged (ks : list string) (c : chunk) : chunk :=
  match key_in ks c with Some k => (written k, c.2) | None => c end.
Definition appended (ks : list string) (l : list chunk) : list chunk :=
  map (fun k => (written k, true)) (List.filter (fun k => negb (found k l)) ks).

Lemma written_key k k' b : env_key k -> env_key k' -> is_key k' (written k, b) = bool_decide (k = k').
Proof. apply is_key_written. Qed.

Lemma is_key_smudged ks c k : Forall env_key ks -> env_key k -> is_key k (smudged ks c) = is_key k c.
Proof.
  intros Hks Hk. unfold smudged. destruct (key_in ks c) as [k'|] eqn:E; [|done]. apply key_in_Some in E as [Hk' H'].
  rewrite Forall_forall in Hks. pose proof (Hks _ Hk') as He. rewrite written_key by done. case_bool_decide as Hkk; [by subst|].
  symmetry. apply not_true_iff_false. intros H. by apply Hkk, (is_key_unique k' k c).
Qed.

Lemma found_map (f : chunk -> chunk) k l : (forall c, c ∈ l -> is_key k (f c) = is_key k c) -> found k (map f l) = found k l.
Proof.
  intros H. unfold found. induction l as [|c l IH]; [done|]. cbn. rewrite H by (by left).
  rewrite IH; [done|]. intros x Hx. apply H. by right.
Qed.

Lemma found_appended k ks l : Forall env_key ks -> env_key k -> k ∉ ks -> found k (appended ks l) = false.
Proof.
  intros Hks Hk Hn. unfold found. apply not_true_iff_false. intros (x & Hx & Hkx)%existsb_elem.
  apply list_elem_of_fmap in Hx as (k' & -> & Hk'). apply list_elem_of_In, filter_In in Hk' as [Hk' _].
  apply list_elem_of_In in Hk'. rewrite Forall_forall in Hks. rewrite written_key in Hkx by auto.
  apply bool_decide_eq_true in Hkx. by subst.
Qed.

Lemma env_key_line k : env_key k -> one_line (val k) = true -> one_line (written k) = true /\ written k <> "".
Proof.
  intros (Hne & _ & Hk) Hv. unfold written. rewrite !one_line_app, Hk, Hv. split; [done|]. by destruct k.
Qed.

Lemma lined_line l c : lined l -> c ∈ l -> one_line c.1 = true.
Proof.
  induction l as [|x l IH]; [by intros _ ?%elem_of_nil|]. intros (H1 & _ & H3) [->|Hc]%elem_of_cons; auto.
Qed.

Lemma lined_smudged ks l : Forall env_key ks -> (forall k, k ∈ ks -> one_line (val k) = true) -> lined l -> lined (map (smudged ks) l).
Proof.
  intros Hks Hv Hl. apply lined_map; [done|]. intros c Hc. unfold smudged, kept_line. destruct (key_in ks c) as [k|] eqn:E.
  - apply key_in_Some in E as [Hk _]. rewrite Forall_forall in Hks. destruct (env_key_line k) as [H1 H2]; auto.
  - split; [done|]. split; [by apply (lined_line l)|done].
Qed.

Lemma lined_appended ks l : Forall env_key ks -> (forall k, k ∈ ks -> one_line (val k) = true) ->
  lined (appended ks l) /\ ended (appended ks l).
Proof.
  intros Hks Hv. unfold appended. induction Hks as [|k ks Hk Hks IH]; [by split; [|constructor]|].
  destruct IH as [IH1 IH2]; [intros; apply Hv; by right|]. cbn [List.filter]. destruct (negb _); [|done]. cbn [map].
  destruct (env_key_line k Hk (Hv k ltac:(by left))) as [H1 _]. split; [|by constructor].
  cbn [lined]. split; [done|]. split; [|done]. destruct (map _ _); [by left|done].
Qed.

Lemma appended_snoc ks k l : appended (ks ++ [k]) l = appended ks l ++ (if found k l then [] else [(written k, true)]).
Proof. unfold appended. rewrite List.filter_app, map_app. cbn. by destruct (found k l). Qed.

Lemma smudged_closed ks l : map (smudged ks) (closed l) = closed (map (smudged ks) l).
Proof.
  unfold closed. rewrite !map_map. apply map_ext. intros c. unfold smudged. change (key_in ks (c.1, true)) with (key_in ks c). by case_match.
Qed.

(** a key that is there: its lines are replaced *)
Lemma replace_smudged ks k L M : Forall env_key ks -> env_key k -> k ∉ ks ->
  replace_lines k (written k) (map (smudged ks) L ++ appended ks M) = map (smudged (ks ++ [k])) L ++ appended ks M.
Proof.
  intros Hks Hk Hkn. unfold replace_lines. rewrite map_app, map_map. f_equal.
  - apply map_ext. intros c. rewrite is_key_smudged by done. unfold smudged. rewrite key_in_snoc.
    destruct (key_in ks c) as [k'|] eqn:E; [|by destruct (is_key k c)].
    apply key_in_Some in E as [Hk' E]. destruct (is_key k c) eqn:Ekc; [|done]. rewrite Forall_forall in Hks.
    destruct Hkn. by rewrite <- (is_key_unique k' k c) by auto.
  - rewrite <- (map_id (appended ks M)) at 2. apply map_ext_in. intros c Hc%list_elem_of_In.
    destruct (is_key k c) eqn:E; [|done]. pose proof (found_appended k ks M Hks Hk Hkn) as Hfa.
    apply not_true_iff_false in Hfa. destruct Hfa. apply existsb_elem. by exists c.
Qed.

Lemma apply_lines ks s : Forall env_key ks -> NoDup ks -> (forall k, k ∈ ks -> one_line (val k) = true) ->
  chunks (foldl (fun content k => patchEnvOne content k (val k)) s ks) =
    map (smudged ks) (finish ks (chunks s)) ++ appended ks (chunks s).
Proof.
  set (L := chunks s). intros Hks Hnd Hv. induction ks as [|k ks IH] using rev_ind.
  - cbn. rewrite app_nil_r. symmetry. apply map_id.
  - apply Forall_app in Hks as [Hks [Hk _]%Forall_cons]. apply NoDup_app in Hnd as (Hnd & Hn & _).
    assert (k ∉ ks) as Hkn by (intros Hin; apply (Hn k Hin); by left).
    assert (forall x, x ∈ ks -> one_line (val x) = true) as Hv' by (intros; apply Hv, elem_of_app; by left).
    specialize (IH Hks Hnd Hv'). rewrite foldl_app. cbn [foldl]. set (st := foldl _ s ks) in *.
    pose proof (Hv k ltac:(apply elem_of_app; right; by left)) as Hvk. destruct (env_key_line k Hk Hvk) as [Hw Hwn].
    assert (found k (chunks st) = found k L) as Hf.
    { rewrite IH. unfold found at 1. rewrite existsb_app. fold (found k (map (smudged ks) (finish ks L))) (found k (appended ks L)).
      rewrite found_appended, orb_false_r by done. rewrite (found_map (smudged ks)); [apply found_finish|].
      intros c _. by apply is_key_smudged. }
    unfold patchEnvOne. fold (found k (chunks st)). rewrite Hf, appended_snoc, finish_snoc. destruct (found k L) eqn:Ef.
    + change (k +:+ "=" +:+ val k) with (written k). rewrite app_nil_r, chunks_text; [by rewrite IH, replace_smudged|].
      apply lined_map; [apply lined_chunks|]. intros c Hc. destruct (is_key k c); [done|]. split; [done|]. split; [|done].
      apply (lined_line (chunks st)); [apply lined_chunks|done].
    + pose proof (text_closed _ (lined_chunks st)) as Ht. rewrite text_chunks in Ht. rewrite Ht.
      assert (text (closed (chunks st)) +:+ (k +:+ "=" +:+ val k +:+ nl) = text (closed (chunks st) ++ [(written k, true)])) as ->.
      { rewrite text_app. cbn [text]. unfold chunk_text, written. cbn [fst snd]. by rewrite str_app_nil_r, !str_app_assoc. }
      rewrite chunks_text by (apply lined_app; [apply lined_closed, lined_chunks|apply ended_closed|by cbn; auto]). rewrite IH.
      unfold closed at 1. rewrite map_app. fold (closed (map (smudged ks) (finish ks L))) (closed (appended ks L)).
      rewrite <- smudged_closed, closed_finish, (closed_ended (appended ks L)) by (by apply lined_appended).
      rewrite <- app_assoc. f_equal. apply map_ext_in. intros c Hc%list_elem_of_In. unfold smudged. rewrite key_in_snoc.
      destruct (key_in ks c); [done|]. destruct (is_key k c) eqn:E; [|done]. rewrite <- (found_closed k L) in Ef.
      apply not_true_iff_false in Ef. destruct Ef. apply existsb_elem. by exists c.
Qed.
End Lines.

Lemma remove_lines ab s : chunks (removeDotenvContent s ab) =
  List.filter (fun c => negb (bool_decide (is_Some (key_in ab c)))) (chunks s).
Proof.
  unfold removeDotenvContent. induction ab as [|k ab IH] using rev_ind.
  - cbn. symmetry. apply filter_all_true. done.
  - rewrite foldl_app. cbn [foldl]. rewrite chunks_text by (apply lined_filter, lined_chunks). rewrite IH, filter_filter.
    apply List.filter_ext. intros c. rewrite key_in_snoc. destruct (key_in ab c); [by destruct (is_key k c)|]. by destruct (is_key k c).
Qed.

(** HEAD's line in the place of a key's line *)
Definition restored (head : list chunk) (ks : list string) (c : chunk) : chunk :=
  match key_in ks c with Some k => (find_line k head, c.2) | None => c end.

Lemma find_line_spec k head : env_key k -> lined head -> found k head = true ->
  exists h, h ∈ head /\ find_line k head = h.1 /\ is_key k h = true /\ one_line h.1 = true /\ h.1 <> "".
Proof.
  intros Hk Hl (x & Hx & Hkx)%existsb_elem. unfold find_line. destruct (List.find (is_key k) head) as [h|] eqn:E.
  - apply find_some in E as [Hh%list_elem_of_In Hkh]. exists h. split; [done|]. split; [done|]. split; [done|].
    split; [by apply (lined_line head)|]. intros E. apply is_key_spec in Hkh as (r & v & Er & _); [|done].
    rewrite E in Er. destruct Hk as [Hk _]. by destruct k.
  - apply list_elem_of_In in Hx. pose proof (find_none _ _ E x Hx). congruence.
Qed.

Lemma restore_lines pres s head : Forall env_key pres -> NoDup pres ->
  (forall k, k ∈ pres -> found k (chunks head) = true) ->
  chunks (restoreDotenvFromHead s head pres) = map (restored (chunks head) pres) (chunks s).
Proof.
  set (H := chunks head). intros Hks Hnd Hf. unfold restoreDotenvFromHead. fold H. induction pres as [|k ks IH] using rev_ind.
  - cbn. symmetry. apply map_id.
  - apply Forall_app in Hks as [Hks [Hk _]%Forall_cons]. apply NoDup_app in Hnd as (Hnd & Hn & _).
    assert (k ∉ ks) as Hkn by (intros Hin; apply (Hn k Hin); by left).
    rewrite foldl_app. cbn [foldl]. specialize (IH Hks Hnd ltac:(intros x Hx; apply Hf, elem_of_app; by left)).
    set (st := foldl _ s ks) in *. rewrite Forall_forall in Hks.
    destruct (find_line_spec k H Hk (lined_chunks head) (Hf k ltac:(apply elem_of_app; right; by left))) as (h & _ & Eh & _ & Ho & Hne).
    assert (find_line k H <> "") as Hne' by congruence. apply String.eqb_neq in Hne' as ->. rewrite chunks_text.
    + unfold replace_lines. rewrite IH, map_map. apply map_ext. intros c. unfold restored. rewrite key_in_snoc.
      destruct (key_in ks c) as [k'|] eqn:E; [|by destruct (is_key k c)].
      apply key_in_Some in E as [Hk' E].
      destruct (find_line_spec k' H (Hks _ Hk') (lined_chunks head) (Hf k' ltac:(apply elem_of_app; by left))) as (h' & _ & Eh' & Hkh' & _ & _).
      destruct (is_key k (find_line k' H, c.2)) eqn:Ek; [|done]. destruct Hkn. rewrite Eh' in Ek.
      by rewrite <- (is_key_unique k' k h') by auto.
    + apply lined_map; [apply lined_chunks|]. intros c Hc. destruct (is_key k c); rewrite ?Eh; [done|].
      split; [done|]. split; [|done]. apply (lined_line (chunks st)); [apply lined_chunks|done].
Qed.

Lemma extract_lookup head ks k : k ∈ ks ->
  extractDotenv head ks !! k =
  match List.find (is_key k) (chunks head) with Some c => dotenvLine k c.1 | None => None end.
Proof.
  intros Hk. unfold extractDotenv. induction ks as [|k' ks IH] using rev_ind; [by apply elem_of_nil in Hk|].
  rewrite foldl_app. cbn [foldl]. set (m := foldl _ ∅ ks) in *. destruct (decide (k' = k)) as [->|Hne].
  - destruct (List.find (is_key k) (chunks head)) as [c|] eqn:E.
    + pose proof E as [_ Hc]%find_some. unfold is_key in Hc. destruct (dotenvLine k c.1) as [v|] eqn:Ev; [|done].
      by rewrite lookup_insert_eq.
    + destruct (decide (k ∈ ks)) as [Hin|Hin]; [by apply IH|]. clear -Hin E. unfold m. clear m.
      induction ks as [|a ks IH] using rev_ind; [done|]. rewrite foldl_app. cbn [foldl].
      apply not_elem_of_app in Hin as [Hin Ha]. rewrite not_elem_of_cons in Ha. destruct Ha as [Ha _].
      destruct (List.find (is_key a) (chunks head)) as [c|]; [|by apply IH].
      destruct (dotenvLine a c.1); [|by apply IH]. rewrite lookup_insert_ne by done. by apply IH.
  - apply elem_of_app in Hk as [Hk|[->|[]%elem_of_nil]%elem_of_cons]; [|done].
    destruct (List.find (is_key k') (chunks head)) as [c|]; [|by apply IH].
    destruct (dotenvLine k' c.1); [|by apply IH]. rewrite lookup_insert_ne by done. by apply IH.
Qed.

Lemma extract_found head ks k : k ∈ ks -> bool_decide (is_Some (extractDotenv head ks !! k)) = found k (chunks head).
Proof.
  intros Hk. rewrite extract_lookup by done. unfold found. destruct (List.find (is_key k) (chunks head)) as [c|] eqn:E.
  - pose proof E as [Hc Hkc]%find_some. assert (existsb (is_key k) (chunks head) = true) as -> by (apply existsb_exists; by exists c).
    unfold is_key in Hkc. destruct (dotenvLine k c.1); [|done]. by rewrite bool_decide_eq_true_2.
  - rewrite bool_decide_eq_false_2 by (by intros [? ?]). symmetry. apply not_true_iff_false.
    intros (c & Hc & Hkc)%existsb_exists. pose proof (find_none _ _ E c Hc). congruence.
Qed.

(** ** The keys of a patch *)
Lemma elem_of_sortedKeys m k : k ∈ sortedKeys m <-> is_Some (m !! k).
Proof.
  unfold sortedKeys. rewrite merge_sort_Permutation, list_elem_of_fmap. split.
  - intros ([k' v] & -> & H%elem_of_map_to_list). by eexists.
  - intros [v H]. exists (k, v). split; [done|]. by apply elem_of_map_to_list.
Qed.

Lemma NoDup_sortedKeys m : NoDup (sortedKeys m).
Proof. unfold sortedKeys. rewrite merge_sort_Permutation. apply NoDup_fst_map_to_list. Qed.

Lemma sortedKeys_dom m m' : (forall k, is_Some (m !! k) <-> is_Some (m' !! k)) -> sortedKeys m = sortedKeys m'.
Proof.
  intros H. apply (Sorted_unique String.le); [apply Sorted_merge_sort; apply _..|].
  apply NoDup_Permutation; [apply NoDup_sortedKeys..|]. intros k. by rewrite !elem_of_sortedKeys.
Qed.

Lemma sortedKeys_nil m : sortedKeys m = [] <-> m = ∅.
Proof.
  split; [|by intros ->]. intros H. apply map_empty. intros k. apply eq_None_not_Some. rewrite <- elem_of_sortedKeys, H.
  by intros ?%elem_of_nil.
Qed.

Lemma render_keys_dom getenv set_ c keys out r : render_keys getenv set_ c keys out = Ok r ->
  forall k, is_Some (r !! k) <-> k ∈ keys \/ is_Some (out !! k).
Proof.
  revert out. induction keys as [|k0 keys IH]; intros out; cbn.
  - intros [= <-] k. rewrite elem_of_nil. naive_solver.
  - destruct (Render _ c) as [s|]; [|done]. intros Hr k. rewrite (IH _ Hr), elem_of_cons. destruct (decide (k = k0)) as [->|].
    + rewrite lookup_insert_eq. naive_solver.
    + rewrite lookup_insert_ne by done. naive_solver.
Qed.

Lemma rendered_keys getenv set_ c r : renderTemplates getenv set_ c = Ok r -> sortedKeys r = sortedKeys set_.
Proof.
  intros H. apply sortedKeys_dom. intros k. rewrite (render_keys_dom _ _ _ _ _ _ H), elem_of_sortedKeys, lookup_empty.
  split; [|by left]. by intros [?|[? ?]].
Qed.

Section Theorems.
Context (ini_marshal toml_marshal : string -> gmap string string -> res error string)
        (ini_extract toml_extract : string -> list string -> res error (gmap string string))
        (ini_remove toml_remove : string -> list string -> res error string)
        (others : string -> option Driver) (getenv : string -> string).
Local Notation Smudge := (Smudge ini_marshal toml_marshal ini_extract toml_extract ini_remove toml_remove others getenv).
Local Notation Clean := (Clean ini_marshal toml_marshal ini_extract toml_extract ini_remove toml_remove others).

Definition value_in (m : gmap string string) (k : string) : string := default "" (m !! k).

Lemma Smudge_dotenv p head c s r : patchDriver p = Ok DriverDotenv -> Smudge p head c = Ok s ->
  renderTemplates getenv (Set_ p) c = Ok r ->
  s = foldl (fun content k => patchEnvOne content k (value_in r k)) head (sortedKeys (Set_ p)).
Proof.
  intros Hd Hs Hr. unfold PatchFilter.Smudge in Hs. rewrite Hd in Hs. cbn [res_bind] in Hs. rewrite Hr in Hs. cbn [res_bind] in Hs.
  unfold applyContent in Hs. rewrite <- (rendered_keys _ _ _ _ Hr). case_bool_decide as He.
  - subst r. by injection Hs as <-.
  - cbn in Hs. by injection Hs as <-.
Qed.

(** the closed form of [Clean] *)
Definition cleaned (ks : list string) (head : list chunk) (c : chunk) : option chunk :=
  match key_in ks c with
  | None => Some c
  | Some k => match List.find (is_key k) head with Some h => Some (h.1, c.2) | None => None end
  end.

Lemma cleaned_compose ks H l : Forall env_key ks ->
  map (restored H (List.filter (fun k => found k H) ks))
    (List.filter (fun c => negb (bool_decide (is_Some (key_in (List.filter (fun k => negb (found k H)) ks) c)))) l) =
  omap (cleaned ks H) l.
Proof.
  intros Hks. induction l as [|c l IH]; [done|]. cbn [List.filter omap list_omap]. unfold cleaned at 1.
  set (ab := List.filter (fun k => negb (found k H)) ks) in *. set (pr := List.filter (fun k => found k H) ks) in *.
  assert (Forall env_key ab /\ Forall env_key pr) as [Hab Hpr].
  { split; apply Forall_forall; intros k Hk%list_elem_of_In%filter_In; destruct Hk as [Hk%list_elem_of_In _]; by eapply Forall_forall in Hks. }
  destruct (key_in ks c) as [k|] eqn:E.
  - pose proof (key_in_Some _ _ _ E) as [Hk Hc]. unfold found in ab, pr. destruct (List.find (is_key k) H) as [h|] eqn:Ef.
    + assert (found k H = true) as Hf by (pose proof Ef as [? ?]%find_some; apply existsb_exists; by exists h).
      assert (key_in ab c = None) as ->.
      { destruct (key_in ab c) as [k'|] eqn:E'; [|done]. apply key_in_Some in E' as [Hk' Hc'].
        pose proof Hk' as Hin. unfold ab in Hin. apply list_elem_of_In, filter_In in Hin as [_ Hin].
        rewrite Forall_forall in Hab, Hks. rewrite (is_key_unique k' k c) in Hin by auto. fold (found k H) in Hin. by rewrite Hf in Hin. }
      rewrite bool_decide_eq_false_2 by (by intros [? ?]). cbn [negb map]. rewrite IH. f_equal. unfold restored.
      rewrite (key_in_is pr c k); [by unfold find_line; rewrite Ef|done| |done].
      apply list_elem_of_In, filter_In. split; [by apply list_elem_of_In|done].
    + rewrite (key_in_is ab c k), bool_decide_eq_true_2; [done|by eexists|done| |done].
      apply list_elem_of_In, filter_In. split; [by apply list_elem_of_In|]. apply negb_true_iff, not_true_iff_false.
      intros (h & Hh & Hkh)%existsb_exists. pose proof (find_none _ _ Ef h Hh). congruence.
  - assert (forall l, (forall k, k ∈ l -> k ∈ ks) -> key_in l c = None) as Hsub.
    { intros l' Hl'. destruct (key_in l' c) as [k|] eqn:E'; [|done]. apply key_in_Some in E' as [Hk Hc].
      pose proof (key_in_None ks c k E (Hl' k Hk)). congruence. }
    rewrite (Hsub ab) by (intros k Hk%list_elem_of_In%filter_In; apply list_elem_of_In; by destruct Hk).
    rewrite bool_decide_eq_false_2 by (by intros [? ?]). cbn [negb map]. rewrite IH. f_equal. unfold restored.
    by rewrite (Hsub pr) by (intros k Hk%list_elem_of_In%filter_In; apply list_elem_of_In; by destruct Hk).
Qed.

Lemma omap_restores val ks H l : Forall env_key ks -> (forall c, c ∈ l -> exists h, h ∈ H /\ c.1 = h.1) ->
  omap (cleaned ks H) (map (smudged val ks) l) = map (restored H ks) l.
Proof.
  intros Hks. induction l as [|c l IH]; intros Hsub; [done|]. cbn [map omap list_omap]. rewrite IH by (intros; apply Hsub; by right).
  assert (cleaned ks H (smudged val ks c) = Some (restored H ks c)) as ->; [|done].
  unfold cleaned, restored. destruct (key_in ks c) as [k|] eqn:E.
  - pose proof E as [Hk Hc]%key_in_Some. pose proof Hks as Hks'. rewrite Forall_forall in Hks'.
    assert (key_in ks (smudged val ks c) = Some k) as -> by (apply key_in_is; [done..|]; by rewrite is_key_smudged by auto).
    unfold find_line, smudged. rewrite E. cbn [snd]. destruct (List.find (is_key k) H) as [h|] eqn:Ef; [done|].
    destruct (Hsub c ltac:(by left)) as (h & Hh & Eh). apply list_elem_of_In in Hh. pose proof (find_none _ _ Ef h Hh) as Hn.
    unfold is_key in Hc, Hn. rewrite Eh in Hc. congruence.
  - unfold smudged. by rewrite E, E.
Qed.

Lemma omap_drops val ks H : Forall env_key ks -> omap (cleaned ks H) (appended val ks H) = [].
Proof.
  intros Hks. unfold appended. assert (forall l, (forall k, k ∈ l -> k ∈ ks /\ found k H = false) ->
    omap (cleaned ks H) (map (fun k => (written val k, true)) l) = []) as Hall.
  { induction l as [|k l IH]; [done|]. intros Hsub. destruct (Hsub k ltac:(by left)) as [Hk Hf]. cbn [map omap list_omap].
    assert (cleaned ks H (written val k, true) = None) as ->; [|by apply IH; intros; apply Hsub; right].
    unfold cleaned. pose proof Hks as Hks'. rewrite Forall_forall in Hks'. rewrite (key_in_is ks _ k); [|done..|].
    - destruct (List.find (is_key k) H) as [h|] eqn:Ef; [|done]. apply find_some in Ef as [Hh Hkh].
      apply not_true_iff_false in Hf. destruct Hf. apply existsb_exists. by exists h.
    - rewrite written_key by auto. by apply bool_decide_eq_true. }
  apply Hall. intros k Hk%list_elem_of_In%filter_In. destruct Hk as [Hk%list_elem_of_In Hf]. split; [done|]. by apply negb_true_iff in Hf.
Qed.

Lemma Clean_lines p head content : patchDriver p = Ok DriverDotenv -> TrimSpace head <> "" ->
  Forall env_key (sortedKeys (Set_ p)) ->
  exists r, Clean p content head = Ok r /\ chunks r = omap (cleaned (sortedKeys (Set_ p)) (chunks head)) (chunks content).
Proof.
  intros Hd Ht Hks. unfold PatchFilter.Clean. rewrite Hd. cbn [res_bind]. apply String.eqb_neq in Ht as ->.
  set (ks := sortedKeys (Set_ p)) in *. set (H := chunks head).
  assert (exists hv, extractContent ini_marshal toml_marshal ini_extract toml_extract ini_remove toml_remove others DriverDotenv head ks = Ok hv /\
    (forall k, k ∈ ks -> bool_decide (is_Some (hv !! k)) = found k H)) as (hv & -> & Hhv).
  { unfold extractContent. destruct ks as [|k0 ks0] eqn:E; [by exists ∅; split; [|intros ? ?%elem_of_nil]|].
    exists (extractDotenv head (k0 :: ks0)). split; [done|]. intros k. apply extract_found. }
  cbn [res_bind].
  assert (List.filter (fun k => negb (bool_decide (is_Some (hv !! k)))) ks = List.filter (fun k => negb (found k H)) ks) as ->.
  { apply filter_ext_in. intros k Hk%list_elem_of_In. by rewrite Hhv. }
  assert (List.filter (fun k => bool_decide (is_Some (hv !! k))) ks = List.filter (fun k => found k H) ks) as ->.
  { apply filter_ext_in. intros k Hk%list_elem_of_In. by rewrite Hhv. }
  set (ab := List.filter (fun k => negb (found k H)) ks). set (pr := List.filter (fun k => found k H) ks).
  assert (exists c1, removeContent ini_marshal toml_marshal ini_extract toml_extract ini_remove toml_remove others DriverDotenv content ab = Ok c1 /\
    chunks c1 = List.filter (fun c => negb (bool_decide (is_Some (key_in ab c)))) (chunks content)) as (c1 & -> & Hc1).
  { unfold removeContent. destruct ab as [|k0 ab0] eqn:E; [exists content; split; [done|]; symmetry; by apply filter_all_true|].
    eexists. split; [reflexivity|]. apply remove_lines. }
  cbn [res_bind].
  assert (exists r, (match pr with [] => Ok c1 | _ => restoreContent ini_marshal toml_marshal ini_extract toml_extract ini_remove toml_remove others DriverDotenv c1 head hv pr end) = Ok r /\
    chunks r = map (restored H pr) (chunks c1)) as (r & -> & Hr).
  { destruct pr as [|k0 pr0] eqn:E; [exists c1; split; [done|]; symmetry; apply map_id|].
    assert (forall k, k ∈ k0 :: pr0 -> k ∈ ks /\ found k H = true) as Hin.
    { intros k Hk. rewrite <- E in Hk. apply list_elem_of_In, filter_In in Hk as [Hk ?]. by apply list_elem_of_In in Hk. }
    eexists. split; [reflexivity|]. apply restore_lines.
    - apply Forall_forall. intros k [Hk _]%Hin. by eapply Forall_forall in Hks.
    - rewrite <- E. apply NoDup_ListNoDup, List.NoDup_filter, NoDup_ListNoDup, NoDup_sortedKeys.
    - by intros k [_ Hk]%Hin. }
  exists r. split; [done|]. rewrite Hr, Hc1. by apply cleaned_compose.
Qed.

(** What [Clean] stages of a dotenv file.  For every working tree
    text and every HEAD that is not blank, [Clean] succeeds, and its lines are
    those of the working tree with each line of a patched key replaced by
    HEAD's line for that key, or left out when HEAD has none; every other line
    passes through unchanged and in its place.  So what git compares does not
    depend on the values of the patched keys. *)
Theorem Clean_projects p head content :
  patchDriver p = Ok DriverDotenv -> TrimSpace head <> "" -> Forall env_key (sortedKeys (Set_ p)) ->
  exists r, Clean p content head = Ok r /\
    chunks r = omap (fun c => match List.find (fun k => is_key k c) (sortedKeys (Set_ p)) with
                              | None => Some c
                              | Some k => match List.find (is_key k) (chunks head) with
                                          | Some h => Some (h.1, c.2)
                                          | None => None
                                          end
                              end) (chunks content).
Proof. apply Clean_lines. Qed.

(** What [Smudge] puts into a dotenv file.  When the rendered
    values are single lines, the result is the text with every line of a
    patched key replaced by [KEY=value] and a line [KEY=value] added at the end
    for each key it does not have, in the order of the keys, after a newline
    when the text had none at its end; and reading the keys back gives the
    rendered values. *)
Theorem Smudge_sets p content c r s :
  patchDriver p = Ok DriverDotenv -> Forall env_key (sortedKeys (Set_ p)) ->
  renderTemplates getenv (Set_ p) c = Ok r -> (forall k v, r !! k = Some v -> one_line v = true) ->
  Smudge p content c = Ok s ->
  chunks s = map (smudged (value_in r) (sortedKeys (Set_ p))) (finish (sortedKeys (Set_ p)) (chunks content)) ++
             appended (value_in r) (sortedKeys (Set_ p)) (chunks content) /\
  (forall k v, r !! k = Some v -> extractDotenv s (sortedKeys (Set_ p)) !! k = Some v).
Proof.
  intros Hd Hks Hr Hv Hs. apply (Smudge_dotenv p content c s r Hd) in Hs; [|done].
  set (ks := sortedKeys (Set_ p)) in *. assert (forall k, k ∈ ks -> one_line (value_in r k) = true) as Hv'.
  { intros k _. unfold value_in. destruct (r !! k) as [v|] eqn:E; [by apply (Hv k)|done]. }
  pose proof (apply_lines (value_in r) ks content Hks (NoDup_sortedKeys _) Hv') as Hl. rewrite <- Hs in Hl. split; [done|].
  intros k v Hkv. assert (k ∈ ks) as Hk.
  { unfold ks. rewrite <- (rendered_keys _ _ _ _ Hr). apply elem_of_sortedKeys. by eexists. }
  pose proof Hks as Hks'. rewrite Forall_forall in Hks'. pose proof (Hks' _ Hk) as Hek.
  rewrite extract_lookup, Hl by done.
  destruct (List.find (is_key k) (map _ _ ++ _)) as [x|] eqn:E.
  - apply find_some in E as [Hin%list_elem_of_In Hkx]. assert (x.1 = written (value_in r) k) as ->.
    { apply elem_of_app in Hin as [(y & -> & Hy)%list_elem_of_fmap|(k' & -> & Hk')%list_elem_of_fmap].
      - rewrite is_key_smudged in Hkx by done. unfold smudged. by rewrite (key_in_is ks y k).
      - apply list_elem_of_In, filter_In in Hk' as [Hk'%list_elem_of_In _]. rewrite written_key in Hkx by auto.
        apply bool_decide_eq_true in Hkx. by subst. }
    unfold written, dotenvLine. rewrite (proj2 (cut_prefix_app _ _ _) eq_refl). cbn. unfold value_in. by rewrite Hkv.
  - exfalso. assert (exists x, In x (map (smudged (value_in r) ks) (finish ks (chunks content)) ++ appended (value_in r) ks (chunks content)) /\ is_key k x = true) as (x & Hx & Hkx).
    { destruct (found k (chunks content)) eqn:Ef.
      - rewrite <- (found_finish k ks) in Ef. apply existsb_exists in Ef as (y & Hy & Hky). exists (smudged (value_in r) ks y). split; [|by rewrite is_key_smudged].
        apply in_app_iff. left. by apply in_map.
      - exists (written (value_in r) k, true). split; [|rewrite written_key by done; by apply bool_decide_eq_true].
        apply in_app_iff. right. unfold appended. apply in_map_iff. exists k. split; [done|]. apply filter_In.
        split; [by apply list_elem_of_In|by rewrite Ef]. }
    pose proof (find_none _ _ E x Hx). congruence.
Qed.

(** a text that the filter can restore: all lines of a patched key are the
    same, and when one of the keys is missing it ends in a newline *)
Definition tidy (ks : list string) (l : list chunk) : Prop :=
  (forall k c, k ∈ ks -> c ∈ l -> is_key k c = true -> c.1 = find_line k l) /\
  (ended l \/ forall k, k ∈ ks -> found k l = true).

Lemma restored_tidy ks l : Forall env_key ks -> map (restored l ks) (finish ks l) = l <-> tidy ks l.
Proof.
  intros Hks. assert (Hsnd : map snd (map (restored l ks) (finish ks l)) = map snd (finish ks l)).
  { rewrite map_map. apply map_ext. intros c. unfold restored. by case_match. }
  assert (Hfin : map snd (finish ks l) = map snd l <-> finish ks l = l).
  { split; [|by intros ->]. unfold finish. case_match; [done|]. clear Hsnd. unfold closed. rewrite map_map. cbn [snd].
    induction l as [|[t b] l IH]; [done|]. cbn [map]. intros [= Eb El]. clear IH. subst b. f_equal. clear -El.
    induction l as [|[t b] l IH]; [done|]. cbn [map] in *. injection El as Eb El. subst b. by rewrite IH. }
  assert (Hsame : (map (restored l ks) l = l) <-> (forall k c, k ∈ ks -> c ∈ l -> is_key k c = true -> c.1 = find_line k l)).
  { split.
    - intros E k c Hk Hc Hkc. apply list_elem_of_lookup in Hc as [i Hi]. pose proof (f_equal (fun m => m !! i) E) as Ei. cbn in Ei.
      change (map (restored l ks) l) with (restored l ks <$> l) in Ei.
      rewrite list_lookup_fmap, Hi in Ei. cbn in Ei. injection Ei as Ei. unfold restored in Ei. rewrite (key_in_is ks c k) in Ei by done.
      by rewrite <- Ei.
    - intros H. rewrite <- (map_id l) at 3. apply map_ext_in. intros c Hc%list_elem_of_In. unfold restored.
      destruct (key_in ks c) as [k|] eqn:E; [|done]. apply key_in_Some in E as [Hk Hkc]. rewrite <- (H k c) by done. by destruct c. }
  split.
  - intros E. pose proof Hsnd as E2. rewrite E in E2. symmetry in E2. apply Hfin in E2. rewrite E2 in E. split; [by apply Hsame|].
    unfold finish in E2. destruct (forallb _ ks) eqn:Ef; [right|left; rewrite <- E2; apply ended_closed].
    intros k Hk. eapply forallb_forall in Ef; [exact Ef|by apply list_elem_of_In].
  - intros [Hs He]. rewrite (finish_id ks l He). by apply Hsame.
Qed.

End Theorems.

(** *** A patched [.env] *)
Definition demo_patch : Patch := {| File := "app/.env"; Format := ""; Set_ := {["DB_NAME" := "app_{slug}"; "EXTRA" := "1"]} |}.
Definition demo_context : Context := scope_context {| AllowN := false; AllowTargetDB := false; AllowedPorts := []; DBCount := 0 |}.
Definition demo_head : string := "APP=1" +:+ nl +:+ "DB_NAME = main" +:+ nl.
Definition demo_rendered : gmap string string := {["DB_NAME" := "app_x"; "EXTRA" := "1"]}.
Definition demo_smudge (head : string) : res error string :=
  Smudge no_library no_library no_extract no_extract no_library no_library no_driver (fun _ => "") demo_patch head demo_context.
Definition demo_clean (content head : string) : res error string :=
  Clean no_library no_library no_extract no_extract no_library no_library no_driver demo_patch content head.

Example demo_smudged : demo_smudge demo_head = Ok ("APP=1" +:+ nl +:+ "DB_NAME=app_x" +:+ nl +:+ "EXTRA=1" +:+ nl).
Proof. vm_compute. reflexivity. Qed.

Lemma demo_keys : sortedKeys (Set_ demo_patch) = ["DB_NAME"; "EXTRA"].
Proof. vm_compute. reflexivity. Qed.
Lemma demo_env_keys : Forall env_key (sortedKeys (Set_ demo_patch)).
Proof. rewrite demo_keys. repeat constructor; done. Qed.
Lemma demo_one_line k v : demo_rendered !! k = Some v -> one_line v = true.
Proof. assert (map_Forall (fun _ v => one_line v = true) demo_rendered) as H; [|apply (H k v)]. by apply (bool_decide_unpack _); vm_compute. Qed.
Lemma Clean_projects_witness :
  demo_clean ("DB_NAME=other" +:+ nl +:+ "MINE=2" +:+ nl +:+ "EXTRA=1") demo_head = Ok ("DB_NAME = main" +:+ nl +:+ "MINE=2" +:+ nl) /\
  exists r, demo_clean ("DB_NAME=other" +:+ nl +:+ "MINE=2" +:+ nl +:+ "EXTRA=1") demo_head = Ok r.
Proof.
  split; [by vm_compute|].
  destruct (Clean_projects no_library no_library no_extract no_extract no_library no_library no_driver demo_patch demo_head
    ("DB_NAME=other" +:+ nl +:+ "MINE=2" +:+ nl +:+ "EXTRA=1") eq_refl ltac:(by vm_compute) demo_env_keys) as (r & Hr & _).
  by exists r.
Defined.

Lemma Smudge_sets_witness :
  exists s, demo_smudge demo_head = Ok s /\ extractDotenv s ["DB_NAME"; "EXTRA"] !! "EXTRA" = Some "1".
Proof.
  eexists. split; [exact demo_smudged|]. rewrite <- demo_keys.
  refine (proj2 (Smudge_sets no_library no_library no_extract no_extract no_library no_library no_driver (fun _ => "")
    demo_patch demo_head demo_context demo_rendered _ _ demo_env_keys _ demo_one_line demo_smudged) "EXTRA" "1" _).
  - by vm_compute.
  - by vm_compute.
  - by vm_compute.
Defined.

Lemma demo_tidy : tidy (sortedKeys (Set_ demo_patch)) (chunks demo_head).
Proof. apply restored_tidy; [apply demo_env_keys|]. rewrite demo_keys. by vm_compute. Qed.


(** where the filter shows: HEAD without a newline at its end gets one, and a
    key HEAD has twice loses its second line *)
Example filter_adds_newline :
  exists s, demo_smudge "DB_NAME=main" = Ok s /\ demo_clean s "DB_NAME=main" = Ok ("DB_NAME=main" +:+ nl).
Proof. eexists. split; vm_compute; reflexivity. Qed.

Example filter_doubles_first :
  let head := "DB_NAME=a" +:+ nl +:+ "DB_NAME=b" +:+ nl in
  exists s, demo_smudge head = Ok s /\ demo_clean s head = Ok ("DB_NAME=a" +:+ nl +:+ "DB_NAME=a" +:+ nl).
Proof. eexists. split; vm_compute; reflexivity. Qed.
