(* ===== verification/PatchInPlace.v ===== *)
(** * Patched INI and TOML files

    The proofs about the INI and TOML drivers of [PatchFilter]: a value
    spliced into the line of its key in its section leaves every other line
    alone, and putting HEAD's line back undoes it. *)
From stdpp Require Import base strings list gmap sorting.
From Stdlib Require Import ZArith Lia.
From S2P Require Import Prelude GoStrings Lines Slug Template PatchFilter.
#[local] Open Scope treeman_scope.

(** ** Values spliced in place: INI and TOML *)
Lemma trim_left_split p s : exists w, s = w +:+ trim_left p s /\ str_all p w = true.
Proof.
  induction s as [|c s (w & E & Hw)]; [by exists ""|]. cbn. destruct (p c) eqn:Hc; [|by exists ""].
  exists (String c w). cbn. by rewrite Hc, <- E.
Qed.

Lemma trim_left_app p w x : str_all p w = true -> trim_left p (w +:+ x) = trim_left p x.
Proof. induction w as [|c w IH]; [done|]. cbn. by intros [-> H]%andb_prop; apply IH. Qed.

Lemma assign_here_spec k line p v : assign_here k line = Some (p, v) ->
  exists b b2, p = k +:+ b +:+ "=" +:+ b2 /\ line = p +:+ v /\ str_all blank b = true /\ str_all blank b2 = true.
Proof.
  unfold assign_here. destruct (cut_prefix k line) as [r|] eqn:E; [|done]. apply cut_prefix_app in E as ->.
  destruct (trim_left_split blank r) as (b & Er & Hb). destruct (trim_left blank r) as [|c v0]; [done|].
  destruct (Ascii.eqb_spec c "=") as [->|]; [|done]. destruct (trim_left_split blank v0) as (b2 & Ev & Hb2).
  remember (trim_left blank v0) as value eqn:Hval. clear Hval. intros [= <- <-]. exists b, b2. subst r v0.
  assert (k +:+ b +:+ String "=" (b2 +:+ value) = (k +:+ b +:+ "=" +:+ b2) +:+ value) as E by (by rewrite !str_app_assoc).
  rewrite E, str_length_app. rewrite str_take_app by lia. done.
Qed.

Lemma assign_here_again k b b2 lit : str_all blank b = true ->
  exists q, assign_here k ((k +:+ b +:+ "=" +:+ b2) +:+ lit) = Some q.
Proof.
  intros Hb. unfold assign_here. rewrite !str_app_assoc, (proj2 (cut_prefix_app _ _ _) eq_refl), trim_left_app by done.
  cbn. by eexists.
Qed.

(** a plain key does not start with a blank, so the indent is all of the
    blanks before it *)
Lemma assignLine_plain k w x : env_key k -> str_all blank w = true -> str_any blank (str_take 1 x) = false ->
  assignLine k (w +:+ x) = option_map (fun q => (w +:+ q.1, q.2)) (assign_here k x).
Proof.
  intros (Hne & Hk & _) Hw Hx. destruct k as [|a k]; [done|]. cbn in Hk. apply orb_false_iff in Hk as [Ha _].
  apply orb_false_iff in Ha as [Ha _]. induction w as [|c w IH].
  - assert (assignLine (String a k) x = assign_here (String a k) x) as E.
    { destruct x as [|c x]; [done|]. cbn in Hx. apply orb_false_iff in Hx as [Hx _]. cbn [assignLine]. by rewrite Hx. }
    change ("" +:+ x) with x. rewrite E. destruct (assign_here _ x) as [[p v]|]; done.
  - cbn in Hw. apply andb_prop in Hw as [Hc Hw]. change (String c w +:+ x) with (String c (w +:+ x)). cbn [assignLine].
    rewrite Hc, (IH Hw). assert (assign_here (String a k) (String c (w +:+ x)) = None) as ->; [|by destruct (assign_here _ x)].
    unfold assign_here. cbn. destruct (Ascii.eqb_spec a c) as [->|]; [congruence|done].
Qed.

Lemma trim_left_head p s : str_any p (str_take 1 (trim_left p s)) = false.
Proof. induction s as [|c s IH]; [done|]. cbn. destruct (p c) eqn:E; [done|]. cbn. by rewrite E. Qed.

(** the value of a plain key's line may be replaced: the line stays a line
    of that key, and of no other *)
Lemma assignLine_spec k line p v : env_key k -> assignLine k line = Some (p, v) ->
  line = p +:+ v /\ p <> "" /\ (forall lit, exists q, assignLine k (p +:+ lit) = Some q).
Proof.
  intros Hk. destruct (trim_left_split blank line) as (w & E & Hw). rewrite E at 1.
  rewrite (assignLine_plain k w) by (done || apply trim_left_head).
  destruct (assign_here k (trim_left blank line)) as [[p' v']|] eqn:Eh; [|done]. intros [= <- <-].
  apply assign_here_spec in Eh as (b & b2 & -> & Ex & Hb & _). rewrite Ex in E. pose proof Hk as (Hne & Hkb & _).
  split; [by rewrite E, !str_app_assoc|]. split; [destruct w; [by destruct k|done]|]. intros lit.
  rewrite str_app_assoc, (assignLine_plain k w _ Hk Hw).
  - destruct (assign_here_again k b b2 lit Hb) as [q ->]. by eexists.
  - destruct k as [|a k]; [done|]. cbn in Hkb |- *. apply orb_false_iff in Hkb as [Ha _]. apply orb_false_iff in Ha as [-> _]. done.
Qed.

Lemma assigns_name k c : env_key k -> assigns k c = true -> name_of (trim_left blank c.1) = k.
Proof.
  intros Hk. unfold assigns. destruct (trim_left_split blank c.1) as (w & E & Hw). rewrite E at 1.
  rewrite (assignLine_plain k w) by (done || apply trim_left_head).
  destruct (assign_here k (trim_left blank c.1)) as [[p v]|] eqn:Eh; [|done]. intros _.
  apply assign_here_spec in Eh as (b & b2 & -> & -> & Hb & _). destruct Hk as (_ & Hk & _).
  rewrite !str_app_assoc, name_of_key by done. rewrite (blanks_name _ (b2 +:+ v)); [by rewrite str_app_nil_r|].
  by rewrite trim_left_app.
Qed.

(** two lines that sections and plain keys see alike *)
Record alike (c c' : chunk) : Prop := {
  al_end : c'.2 = c.2;
  al_header : is_header c' = is_header c;
  al_name : forall n, header_of n c' = header_of n c;
  al_keys : forall k, env_key k -> assigns k c' = assigns k c
}.

#[export] Instance alike_refl : Reflexive alike.
Proof. done. Qed.
#[export] Instance alike_trans : Transitive alike.
Proof. intros a b c [H1 H2 H3 H4] [J1 J2 J3 J4]. split; intros; [congruence|congruence|by rewrite J3|by rewrite J4, H4]. Qed.

Lemma header_is_header n c : is_header c = false -> header_of n c = false.
Proof.
  unfold is_header, header_of. intros H. apply not_true_iff_false. intros [Hp _]%andb_prop. apply not_true_iff_false in H.
  destruct H. apply has_prefix_app. apply has_prefix_app in Hp as [r ->]. by exists (n +:+ "]" +:+ r); rewrite !str_app_assoc.
Qed.

Lemma spliced_alike k c p v lit : env_key k -> is_header c = false -> assignLine k c.1 = Some (p, v) -> alike c (p +:+ lit, c.2).
Proof.
  intros Hk Hh Ha. destruct (assignLine_spec k c.1 p v Hk Ha) as (E & Hp & Hag).
  assert (is_header (p +:+ lit, c.2) = false) as Hh'.
  { unfold is_header in *. cbn [fst]. rewrite E in Hh. destruct p as [|a p]; [done|]. unfold has_prefix in *.
    change (cut_prefix "[" (String a p +:+ v)) with (if Ascii.eqb "[" a then Some (p +:+ v) else None) in Hh.
    change (cut_prefix "[" (String a p +:+ lit)) with (if Ascii.eqb "[" a then Some (p +:+ lit) else None).
    by destruct (Ascii.eqb "[" a). }
  split; [done|congruence|..].
  - intros n. by rewrite !header_is_header.
  - intros k' Hk'. assert (assigns k c = true) as H1 by (unfold assigns; by rewrite Ha).
    assert (assigns k (p +:+ lit, c.2) = true) as H2 by (unfold assigns; cbn [fst]; by destruct (Hag lit) as [q ->]).
    apply eq_iff_eq_true. split; intros H.
    + by rewrite <- (assigns_name k' _ Hk' H), (assigns_name k _ Hk H2).
    + by rewrite <- (assigns_name k' _ Hk' H), (assigns_name k _ Hk H1).
Qed.

Abbreviation section_fn := (list chunk -> option (list chunk * list chunk * list chunk)).

Lemma span_split p l a b : span p l = (a, b) -> l = a ++ b /\ Forall (fun c => p c = false) a.
Proof.
  revert a b. induction l as [|c l IH]; intros a b; cbn; [intros [= <- <-]; by split|].
  destruct (p c) eqn:E; [intros [= <- <-]; by split|]. destruct (span p l) as [a' b']. intros [= <- <-].
  destruct (IH a' b' eq_refl) as [-> H]. split; [done|by constructor].
Qed.

Lemma span_alike p l l' : (forall c c', alike c c' -> p c' = p c) -> Forall2 alike l l' ->
  Forall2 alike (span p l).1 (span p l').1 /\ Forall2 alike (span p l).2 (span p l').2.
Proof.
  intros Hp H. induction H as [|c c' l l' Hc Hl IH]; [done|]. cbn. rewrite (Hp c c' Hc).
  destruct (p c); [by split; [|constructor]|]. destruct (span p l), (span p l'). cbn in *. destruct IH. split; [by constructor|done].
Qed.

(** a section is a part of the text without headers, found by what the
    lines look like to sections and keys *)
Record sect_ok (f : section_fn) : Prop := {
  so_split : forall l b body a, f l = Some (b, body, a) -> l = b ++ body ++ a /\ Forall (fun c => is_header c = false) body;
  so_alike : forall l l', Forall2 alike l l' ->
    match f l with
    | None => f l' = None
    | Some (b, body, a) => exists b' body' a', f l' = Some (b', body', a') /\
        Forall2 alike b b' /\ Forall2 alike body body' /\ Forall2 alike a a'
    end
}.

Lemma named_section_ok n : sect_ok (named_section n).
Proof.
  split.
  - intros l b body a. unfold named_section. destruct (span (header_of n) l) as [pre post] eqn:E. apply span_split in E as [-> _].
    destruct post as [|h rest]; [done|]. destruct (span is_header rest) as [x y] eqn:E. apply span_split in E as [-> Hx].
    intros [= <- <- <-]. split; [by rewrite <- app_assoc|done].
  - intros l l' H. unfold named_section. destruct (span_alike (header_of n) l l' (fun c c' Hc => al_name c c' Hc n) H) as [H1 H2].
    destruct (span (header_of n) l) as [pre post], (span (header_of n) l') as [pre' post']. cbn in *.
    destruct H2 as [|h h' rest rest' Hh Hr]; [done|].
    destruct (span_alike is_header rest rest' (fun c c' Hc => al_header c c' Hc) Hr) as [H3 H4].
    destruct (span is_header rest), (span is_header rest'). cbn in *. eexists _, _, _. split; [reflexivity|].
    split; [apply Forall2_app; [done|constructor; [done|constructor]]|by split].
Qed.

Lemma unnamed_section_ok : sect_ok unnamed_section.
Proof.
  split.
  - intros l b body a. unfold unnamed_section. destruct (span is_header l) as [x y] eqn:E. apply span_split in E as [-> Hx].
    intros [= <- <- <-]. by split.
  - intros l l' H. unfold unnamed_section. destruct (span_alike is_header l l' (fun c c' Hc => al_header c c' Hc) H) as [H3 H4].
    destruct (span is_header l), (span is_header l'). cbn in *. eexists _, _, _. split; [reflexivity|]. by split.
Qed.

Lemma iniSection_ok s : sect_ok (iniSection s).
Proof. unfold iniSection. destruct (_ || _); [apply unnamed_section_ok|apply named_section_ok]. Qed.
Lemma tomlSection_ok s : sect_ok (tomlSection s).
Proof. unfold tomlSection. destruct (String.eqb _ _); [apply unnamed_section_ok|apply named_section_ok]. Qed.

(** *** One key of one section *)
Record target := { t_section : section_fn; t_key : string; t_literal : string }.

Definition set_target (t : target) (l : list chunk) : option (list chunk) :=
  match splice_in (t_section t l) (t_key t) (t_literal t) with Some l' => Some (chunks (text l')) | None => None end.
Definition restore_target (head : list chunk) (content : string) (t : target) : string :=
  restore_in (t_section t head) (t_section t (chunks content)) (t_key t) content.

(** the places of the target's lines *)
Definition place (t : target) (l : list chunk) (i : nat) : Prop :=
  exists b body a c, t_section t l = Some (b, body, a) /\ length b <= i /\
    body !! (i - length b) = Some c /\ assigns (t_key t) c = true.

Record target_ok (head : list chunk) (t : target) : Prop := {
  tg_section : sect_ok (t_section t);
  tg_key : env_key (t_key t);
  tg_literal : one_line (t_literal t) = true;
  tg_once : forall b body a, t_section t head = Some (b, body, a) ->
            length (List.filter (assigns (t_key t)) body) <= 1
}.

Lemma splice_lines_spec key lit l l' : splice_lines key lit l = Some l' ->
  exists i c p v, l !! i = Some c /\ assignLine key c.1 = Some (p, v) /\ l' = <[i := (p +:+ lit, c.2)]> l.
Proof.
  revert l'. induction l as [|c l IH]; intros l'; cbn; [done|]. destruct (assignLine key c.1) as [[p v]|] eqn:E.
  - intros [= <-]. by exists 0, c, p, v.
  - destruct (splice_lines key lit l) as [l2|]; [|done]. intros [= <-]. destruct (IH l2 eq_refl) as (i & x & p & v & H1 & H2 & ->).
    by exists (S i), x, p, v.
Qed.

Lemma lined_insert l i c : lined l -> (forall x, l !! i = Some x -> c.2 = x.2) -> one_line c.1 = true -> c.1 <> "" -> lined (<[i := c]> l).
Proof.
  revert i. induction l as [|x l IH]; intros i Hl Hx Ho Hne; [done|]. destruct Hl as (H1 & H2 & H3). destruct i as [|i].
  - cbn [insert list_insert lined]. rewrite (Hx x eq_refl). split; [done|]. split; [|done]. destruct l; [by right|done].
  - change (<[S i:=c]> (x :: l)) with (x :: <[i:=c]> l). cbn [lined]. split; [done|]. split; [|by apply IH].
    destruct l; [done|]. by destruct i.
Qed.

Lemma set_target_spec t l l2 : sect_ok (t_section t) -> env_key (t_key t) -> one_line (t_literal t) = true -> lined l ->
  set_target t l = Some l2 ->
  lined l2 /\ Forall2 alike l l2 /\ (forall i, l !! i <> l2 !! i -> place t l i).
Proof.
  intros [Hsplit _] Hk Ho Hl. unfold set_target, splice_in. destruct (t_section t l) as [[[b body] a]|] eqn:Es; [|done].
  destruct (Hsplit l b body a Es) as [-> Hnh]. destruct (String.eqb _ _); [done|]. unfold spliceAssignValue.
  destruct (splice_lines (t_key t) (t_literal t) body) as [body'|] eqn:Eb; [|done]. cbn iota.
  apply splice_lines_spec in Eb as (i & c & p & v & Hi & Ha & ->).
  set (c' := (p +:+ t_literal t, c.2)).
  assert (b ++ <[i:=c']> body ++ a = <[length b + i := c']> (b ++ body ++ a)) as ->.
  { rewrite insert_app_r. f_equal. rewrite insert_app_l; [done|]. by apply lookup_lt_Some in Hi. }
  destruct (assignLine_spec _ _ _ _ Hk Ha) as (Ec & Hp & _).
  assert ((b ++ body ++ a) !! (length b + i) = Some c) as Hc.
  { rewrite lookup_app_r by lia. replace (length b + i - length b) with i by lia. by apply lookup_app_l_Some. }
  assert (lined (<[length b + i := c']> (b ++ body ++ a))) as Hl'.
  { apply lined_insert; [done|..].
    - intros x Hx. by rewrite Hc in Hx; injection Hx as <-.
    - unfold c'. cbn [fst]. rewrite one_line_app, Ho, andb_true_r.
      pose proof (lined_line _ c Hl ltac:(by eapply list_elem_of_lookup_2)) as H1. rewrite Ec, one_line_app in H1. by apply andb_prop in H1 as [? _].
    - unfold c'. cbn [fst]. by destruct p. }
  rewrite chunks_text by done. intros [= <-]. split; [done|]. split.
  - apply Forall2_same_length_lookup. split; [by rewrite length_insert|]. intros j x y Hx Hy.
    destruct (decide (j = length b + i)) as [->|Hj].
    + rewrite list_lookup_insert_eq in Hy by (by apply lookup_lt_Some in Hc). injection Hy as <-. rewrite Hc in Hx. injection Hx as <-.
      apply (spliced_alike (t_key t) c p v); [done| |done]. by eapply Forall_lookup_1 in Hnh.
    + rewrite list_lookup_insert_ne in Hy by done. rewrite Hx in Hy. injection Hy as <-. reflexivity.
  - intros j Hj. destruct (decide (j = length b + i)) as [->|Hne]; [|by rewrite list_lookup_insert_ne in Hj].
    exists b, body, a, c. split; [done|]. split; [lia|]. replace (length b + i - length b) with i by lia. split; [done|].
    unfold assigns. by rewrite Ha.
Qed.

Lemma place_alike t l l' i : sect_ok (t_section t) -> env_key (t_key t) -> Forall2 alike l l' -> place t l' i -> place t l i.
Proof.
  intros [_ Hal] Hk H (b' & body' & a' & c' & Es & Hi & Hc & Ha). specialize (Hal l l' H).
  destruct (t_section t l) as [[[b body] a]|] eqn:E; [|congruence]. destruct Hal as (b2 & body2 & a2 & E2 & Hb & Hbody & _).
  rewrite E2 in Es. injection Es as -> -> ->. pose proof (Forall2_length _ _ _ Hb) as Hlen. rewrite <- Hlen in Hi, Hc.
  destruct (Forall2_lookup_r _ _ _ _ _ Hbody Hc) as (c & Hc0 & Hcc). exists b, body, a, c. split; [done|]. split; [done|].
  split; [done|]. by rewrite <- (al_keys c c' Hcc).
Qed.

Lemma assigns_text k l c : env_key k -> c ∈ l -> assigns k c = true -> text l <> "".
Proof.
  intros Hk Hc Ha Ht. unfold assigns in Ha. destruct (assignLine k c.1) as [[p v]|] eqn:E; [|done].
  destruct (assignLine_spec _ _ _ _ Hk E) as (Ec & Hp & _). apply list_elem_of_split in Hc as (l1 & l2 & ->).
  rewrite text_app in Ht. cbn [text] in Ht. unfold chunk_text in Ht. rewrite Ec in Ht. destruct (text l1); [|done]. by destruct p.
Qed.

(** HEAD's only line of the key in the place of the key's line *)
Lemma restore_body k h hbody body :
  let g := fun c : chunk => if assigns k c then (h.1, c.2) else c in
  env_key k -> Forall2 alike hbody body -> length (List.filter (assigns k) hbody) <= 1 -> h ∈ hbody -> assigns k h = true ->
  (forall c, c ∈ hbody \/ c ∈ body -> one_line c.1 = true) ->
  Forall2 kept_line body (map g body) /\ Forall2 alike hbody (map g body) /\
  (forall j c, hbody !! j = Some c -> map g body !! j = if assigns k c then Some c else body !! j).
Proof.
  intros g Hk Hbody Honce Hh Hah Hone.
  assert (forall j c c', hbody !! j = Some c -> body !! j = Some c' ->
            g c' = (if assigns k c then c else c') /\ c'.2 = c.2 /\ (c'.1 = "" -> assigns k c = false)) as Hg.
  { intros j c c' Hc Hc'. destruct (Forall2_lookup_lr _ _ _ _ _ _ Hbody Hc Hc') as [He _ _ Hkk]. rewrite <- (Hkk k Hk).
    split; [|split; [done|]].
    - unfold g. destruct (assigns k c') eqn:Ea; [|done]. rewrite He. rewrite (Hkk k Hk) in Ea.
      rewrite (filter_once (assigns k) hbody h c) by (done || by eapply list_elem_of_lookup_2). by destruct c.
    - intros E0. unfold assigns. rewrite E0. destruct (assignLine k "") as [[p v]|] eqn:E; [|done].
      destruct (assignLine_spec _ _ _ _ Hk E) as (E1 & E2 & _). by destruct p. }
  split; [|split].
  - apply Forall2_same_length_lookup. split; [by rewrite length_map|]. intros j c' x Hc' Hx. rewrite list_lookup_fmap, Hc' in Hx.
    injection Hx as <-. destruct (Forall2_lookup_r _ _ _ _ _ Hbody Hc') as (c & Hc & _). destruct (Hg j c c' Hc Hc') as (-> & He & Hne).
    destruct (assigns k c) eqn:Ea.
    + split; [done|]. split; [apply Hone; left; by eapply list_elem_of_lookup_2|]. intros _ E0. unfold assigns in Ea. rewrite E0 in Ea.
      destruct (assignLine k "") as [[p v]|] eqn:E; [|done]. destruct (assignLine_spec _ _ _ _ Hk E) as (E1 & E2 & _). by destruct p.
    + split; [done|]. split; [apply Hone; right; by eapply list_elem_of_lookup_2|done].
  - apply Forall2_same_length_lookup. split; [rewrite length_map; by eapply Forall2_length|]. intros j c x Hc Hx.
    destruct (Forall2_lookup_l _ _ _ _ _ Hbody Hc) as (c' & Hc' & Hal). rewrite list_lookup_fmap, Hc' in Hx. injection Hx as <-.
    destruct (Hg j c c' Hc Hc') as (-> & _). by destruct (assigns k c).
  - intros j c Hc. destruct (Forall2_lookup_l _ _ _ _ _ Hbody Hc) as (c' & Hc' & _). rewrite list_lookup_fmap, Hc'. cbn.
    destruct (Hg j c c' Hc Hc') as (-> & _). by destruct (assigns k c).
Qed.

Lemma mid_lookup {A} (b body body' a : list A) i : length body' = length body ->
  (b ++ body' ++ a) !! i = if decide (length b <= i < length b + length body) then body' !! (i - length b) else (b ++ body ++ a) !! i.
Proof.
  intros Hlen. case_decide as Hi.
  - rewrite lookup_app_r, lookup_app_l by lia. done.
  - destruct (decide (i < length b)); [by rewrite !lookup_app_l by done|]. rewrite !(lookup_app_r b) by lia.
    rewrite !lookup_app_r by lia. by rewrite Hlen.
Qed.

Lemma no_place t l : (forall b body a, t_section t l = Some (b, body, a) -> forall c, c ∈ body -> assigns (t_key t) c = false) ->
  forall i, ~ place t l i.
Proof.
  intros H i (b & body & a & c & E & _ & Hc & Ha). rewrite (H b body a E c) in Ha by (by eapply list_elem_of_lookup_2). done.
Qed.

(** what a restore does: every line of the target is HEAD's again *)
Lemma restore_target_spec t head content :
  lined head -> target_ok head t -> Forall2 alike head (chunks content) ->
  let l' := chunks (restore_target head content t) in
  Forall2 alike head l' /\ (forall i, head !! i <> l' !! i -> head !! i <> chunks content !! i /\ ~ place t head i).
Proof.
  intros Hlh [Hso Hk _ Honce] Hal. unfold restore_target, restore_in. pose proof (so_alike _ Hso head (chunks content) Hal) as Hs.
  destruct (t_section t head) as [[[hb hbody] ha]|] eqn:Eh.
  2:{ split; [done|]. intros i Hi. split; [done|]. apply no_place. intros. congruence. }
  destruct Hs as (b & body & a & Ec & Hb & Hbody & Ha). rewrite Ec. specialize (Honce _ _ _ eq_refl).
  destruct (so_split _ Hso _ _ _ _ Eh) as [-> _]. destruct (so_split _ Hso _ _ _ _ Ec) as [El _].
  destruct (existsb (assigns (t_key t)) hbody) eqn:Ex.
  - apply existsb_elem in Ex as (h & Hh & Hah). assert (text hbody <> "" /\ text body <> "") as [Ht1 Ht2].
    { split; [by apply (assigns_text (t_key t) _ h)|]. apply list_elem_of_lookup in Hh as [j Hj].
      destruct (Forall2_lookup_l _ _ _ _ _ Hbody Hj) as (h' & Hh' & Hhh).
      apply (assigns_text (t_key t) _ h'); [done|by eapply list_elem_of_lookup_2|by rewrite (al_keys h h' Hhh)]. }
    apply String.eqb_neq in Ht1 as ->, Ht2 as ->. cbn [orb].
    destruct (List.find (assigns (t_key t)) hbody) as [h'|] eqn:Ef; [|pose proof (find_none _ _ Ef h (proj1 (list_elem_of_In _ _) Hh)); congruence].
    apply find_some in Ef as [Hh'%list_elem_of_In Hah']. clear h Hh Hah. pose proof (lined_chunks content) as Hlc. rewrite El in Hlc.
    destruct (restore_body (t_key t) h' hbody body Hk Hbody Honce Hh' Hah') as (Hkept & Hal' & Hlook).
    { intros c [Hc|Hc]; [apply (lined_line _ c Hlh)|apply (lined_line _ c Hlc)]; set_solver. }
    set (body' := map _ body) in *. rewrite chunks_text.
    + split; [by apply Forall2_app; [|apply Forall2_app]|]. intros i Hi. pose proof (Forall2_length _ _ _ Hb) as Hlb.
      pose proof (Forall2_length _ _ _ Hbody) as Hlbody. pose proof (Forall2_length _ _ _ Hkept) as Hlk.
      rewrite (mid_lookup b body body' a) in Hi by done. case_decide as Hd.
      * rewrite (mid_lookup hb body hbody ha), Hlb, decide_True in Hi by (done || lia).
        destruct (lookup_lt_is_Some_2 hbody (i - length b)) as [c Hc]; [lia|]. rewrite Hc, (Hlook _ _ Hc) in Hi.
        destruct (assigns (t_key t) c) eqn:Eac; [done|]. split.
        -- rewrite El, (mid_lookup hb body hbody ha), (mid_lookup b body body a), Hlb, !decide_True by (done || lia). by rewrite Hc.
        -- intros (b1 & bd1 & a1 & c1 & E1 & _ & Hc1 & Hac). rewrite Eh in E1. injection E1 as <- <- <-. rewrite Hlb, Hc in Hc1. congruence.
      * rewrite El. split; [done|]. intros (b1 & bd1 & a1 & c1 & E1 & Hle & Hc1 & _). rewrite Eh in E1. injection E1 as <- <- <-.
        apply lookup_lt_Some in Hc1. lia.
    + apply (lined_pointwise (b ++ body ++ a)); [done|]. assert (forall x, x ⊆ b ++ body ++ a -> Forall2 kept_line x x) as Hrefl.
      { intros x Hx. apply Forall_Forall2_diag, Forall_forall. intros c Hc. split; [done|]. split; [|done]. by apply (lined_line _ c Hlc), Hx. }
      apply Forall2_app; [apply Hrefl; set_solver|]. apply Forall2_app; [done|apply Hrefl; set_solver].
  - assert (forall c, c ∈ hbody -> assigns (t_key t) c = false) as Hno.
    { intros c Hc. apply not_true_iff_false. intros Hac. apply not_true_iff_false in Ex. apply Ex, existsb_elem. by exists c. }
    assert (List.find (assigns (t_key t)) hbody = None) as ->.
    { destruct (List.find _ hbody) as [h|] eqn:Ef; [|done]. apply find_some in Ef as [Hh%list_elem_of_In Hah]. by rewrite Hno in Hah. }
    destruct (_ || _); (split; [done|]; intros i Hi; split; [done|]; apply no_place; rewrite Eh; by intros ? ? ? [= <- <- <-]).
Qed.

(** *** All targets of a patch *)
Definition set_all (l : list chunk) (ts : list target) : option (list chunk) :=
  foldl (fun acc t => match acc with Some l => set_target t l | None => None end) (Some l) ts.

Lemma set_all_spec head ts l2 : Forall (target_ok head) ts -> lined head -> set_all head ts = Some l2 ->
  lined l2 /\ Forall2 alike head l2 /\ (forall i, head !! i <> l2 !! i -> exists t, t ∈ ts /\ place t head i).
Proof.
  intros Hts Hl. revert l2. induction ts as [|t ts IH] using rev_ind; intros l2 Hs.
  - injection Hs as <-. split; [done|]. split; [|done]. apply Forall_Forall2_diag, Forall_forall. by intros.
  - apply Forall_app in Hts as [Hts [Ht _]%Forall_cons]. unfold set_all in *. rewrite foldl_app in Hs. cbn in Hs.
    destruct (foldl _ (Some head) ts) as [l1|]; [|done]. destruct (IH Hts l1 eq_refl) as (Hl1 & Hal & Hd).
    pose proof Ht as [Hso Hk Ho _]. destruct (set_target_spec t l1 l2 Hso Hk Ho Hl1 Hs) as (Hl2 & Hal2 & Hd2).
    split; [done|]. split; [by trans l1|]. intros i Hi. destruct (decide (head !! i = l1 !! i)) as [E|Hne].
    + exists t. split; [apply elem_of_app; right; by left|]. apply (place_alike t head l1 i Hso Hk Hal), Hd2. congruence.
    + destruct (Hd i Hne) as (t' & Ht' & Hp). exists t'. split; [apply elem_of_app; by left|done].
Qed.

Lemma restore_all_spec head ts content : Forall (target_ok head) ts -> lined head -> Forall2 alike head (chunks content) ->
  let l' := chunks (foldl (restore_target head) content ts) in
  Forall2 alike head l' /\
  (forall i, head !! i <> l' !! i -> head !! i <> chunks content !! i /\ forall t, t ∈ ts -> ~ place t head i).
Proof.
  intros Hts Hl Hal. induction ts as [|t ts IH] using rev_ind.
  - split; [done|]. intros i Hi. split; [done|]. by intros t ?%elem_of_nil.
  - apply Forall_app in Hts as [Hts [Ht _]%Forall_cons]. rewrite foldl_app. cbn [foldl]. destruct (IH Hts) as [IH1 IH2].
    destruct (restore_target_spec t head _ Hl Ht IH1) as [H1 H2]. split; [done|]. intros i Hi.
    destruct (H2 i Hi) as [H3 H4]. destruct (IH2 i H3) as [H5 H6]. split; [done|].
    intros t' [Ht'|[->|[]%elem_of_nil]%elem_of_cons]%elem_of_app; [by apply H6|done].
Qed.

Lemma restore_undoes_set head ts l2 : Forall (target_ok (chunks head)) ts -> set_all (chunks head) ts = Some l2 ->
  foldl (restore_target (chunks head)) (text l2) ts = head.
Proof.
  intros Hts Hs. destruct (set_all_spec _ ts l2 Hts (lined_chunks head) Hs) as (Hl2 & Hal & Hd).
  destruct (restore_all_spec (chunks head) ts (text l2) Hts (lined_chunks head)) as [_ Hr]; [by rewrite chunks_text|].
  rewrite <- (text_chunks head) at 2. rewrite <- (text_chunks (foldl _ _ _)). f_equal. apply list_eq. intros i.
  destruct (decide (chunks head !! i = chunks (foldl (restore_target (chunks head)) (text l2) ts) !! i)) as [|Hne]; [done|].
  destruct (Hr i Hne) as [H1 H2]. rewrite chunks_text in H1 by done. destruct (Hd i H1) as (t & Ht & Hp). by destruct (H2 t Ht).
Qed.

Definition ini_target (pairs : gmap string string) (k : string) : target :=
  match splitINIPath k with
  | Ok (section, key) => {| t_section := iniSection section; t_key := key; t_literal := default "" (pairs !! k) |}
  | Err _ => {| t_section := fun _ => None; t_key := ""; t_literal := "" |}
  end.
Definition toml_target (pairs : gmap string string) (k : string) : target :=
  let '(table, key) := split_toml k in
  {| t_section := tomlSection table; t_key := key; t_literal := tomlLiteralFor (default "" (pairs !! k)) |}.

Lemma set_all_cons l t ts : set_all l (t :: ts) = match set_target t l with Some l' => set_all l' ts | None => None end.
Proof.
  unfold set_all. cbn. destruct (set_target t l); [done|]. induction ts; [done|]. cbn. done.
Qed.

Lemma ini_loop_targets pairs keys l l2 : ini_loop pairs keys l = Ok (Some l2) ->
  set_all l (map (ini_target pairs) keys) = Some l2 /\ (forall k, k ∈ keys -> is_ok (splitINIPath k) = true).
Proof.
  revert l. induction keys as [|k keys IH]; intros l; cbn [ini_loop map].
  - intros [= <-]. split; [done|]. by intros k ?%elem_of_nil.
  - rewrite set_all_cons. unfold ini_target at 1, set_target. destruct (splitINIPath k) as [[section key]|e] eqn:E; [|done].
    cbn. destruct (splice_in _ _ _) as [l'|]; [|done]. intros [H1 H2]%IH. split; [done|].
    intros k' [->|Hk']%elem_of_cons; [by rewrite E|by apply H2].
Qed.

Lemma restore_ini_targets pairs keys content head : (forall k, k ∈ keys -> is_ok (splitINIPath k) = true) ->
  restoreINIFromHead content head keys = foldl (restore_target (chunks head)) content (map (ini_target pairs) keys).
Proof.
  revert content. unfold restoreINIFromHead. induction keys as [|k keys IH]; intros content Hok; [done|]. cbn [foldl map].
  rewrite <- IH by (intros; apply Hok; by right). f_equal. unfold restore_target, ini_target.
  pose proof (Hok k ltac:(by left)) as Hk. destruct (splitINIPath k) as [[section key]|e]; done.
Qed.

Lemma toml_targets pairs keys l : foldl (toml_step pairs) (Some l) keys = set_all l (map (toml_target pairs) keys).
Proof.
  revert l. induction keys as [|k keys IH]; intros l; [done|]. cbn [foldl map]. rewrite set_all_cons. unfold toml_step at 2, toml_target at 1, set_target.
  destruct (split_toml k) as [table key]. cbn. destruct (splice_in _ _ _); [apply IH|]. clear. by induction keys.
Qed.

Lemma restore_toml_targets pairs keys content head :
  restoreTOMLFromHead content head keys = foldl (restore_target (chunks head)) content (map (toml_target pairs) keys).
Proof.
  revert content. unfold restoreTOMLFromHead. induction keys as [|k keys IH]; intros content; [done|]. cbn [foldl map].
  rewrite <- IH. f_equal. unfold restore_target, toml_target. by destruct (split_toml k).
Qed.

Section InPlace.
Context (ini_marshal toml_marshal : string -> gmap string string -> res error string)
        (ini_extract toml_extract : string -> list string -> res error (gmap string string))
        (ini_remove toml_remove : string -> list string -> res error string)
        (others : string -> option Driver) (getenv : string -> string).
Local Notation Smudge := (Smudge ini_marshal toml_marshal ini_extract toml_extract ini_remove toml_remove others getenv).
Local Notation Clean := (Clean ini_marshal toml_marshal ini_extract toml_extract ini_remove toml_remove others).
Local Notation driver_of := (driver_of ini_marshal toml_marshal ini_extract toml_extract ini_remove toml_remove others).

(** every patched key is one HEAD has: the two directions are the driver's
    [applyContent] and [restoreContent] *)
Lemma filter_present p d dr head c r s vals :
  patchDriver p = Ok d -> driver_of d = Some dr -> TrimSpace head <> "" -> Set_ p <> ∅ ->
  renderTemplates getenv (Set_ p) c = Ok r -> Smudge p head c = Ok s ->
  extractContent_ dr head (sortedKeys (Set_ p)) = Ok vals -> (forall k, k ∈ sortedKeys (Set_ p) -> is_Some (vals !! k)) ->
  applyContent_ dr head r = Ok s /\ Clean p s head = restoreContent_ dr s head vals (sortedKeys (Set_ p)).
Proof.
  intros Hd Hdr Ht Hne Hr Hs Hx Hall. set (ks := sortedKeys (Set_ p)) in *.
  assert (ks <> []) as Hks by (unfold ks; by rewrite sortedKeys_nil). split.
  - unfold PatchFilter.Smudge in Hs. rewrite Hd in Hs. cbn [res_bind] in Hs. rewrite Hr in Hs. cbn [res_bind] in Hs.
    unfold applyContent in Hs. rewrite bool_decide_eq_false_2 in Hs; [unfold with_driver in Hs; by rewrite Hdr in Hs|].
    intros ->. apply Hne. apply sortedKeys_nil. by rewrite <- (rendered_keys _ _ _ _ Hr).
  - unfold PatchFilter.Clean. rewrite Hd. cbn [res_bind]. apply String.eqb_neq in Ht as ->. fold ks.
    assert (extractContent ini_marshal toml_marshal ini_extract toml_extract ini_remove toml_remove others d head ks = Ok vals) as ->.
    { unfold extractContent. destruct ks; [done|]. unfold with_driver. by rewrite Hdr. }
    cbn [res_bind]. rewrite filter_all_false by (intros k Hk; by rewrite bool_decide_eq_true_2 by auto).
    rewrite filter_all_true by (intros k Hk; by rewrite bool_decide_eq_true_2 by auto). cbn [res_bind removeContent].
    destruct ks; [done|]. unfold restoreContent, with_driver. by rewrite Hdr.
Qed.

(** The INI and TOML drivers restore what they splice.  When the
    library reads all patched keys of HEAD, the values are spliced into lines
    that are there (no fallback to the library's printer), each key has one
    line in its section, keys are plain names and literals single lines,
    cleaning what [Smudge] wrote gives back HEAD byte for byte: the spacing
    around the equals sign, the comments, the order of the sections. *)
Theorem Clean_Smudge_in_place p head c r s vals :
  TrimSpace head <> "" -> Set_ p <> ∅ -> renderTemplates getenv (Set_ p) c = Ok r -> Smudge p head c = Ok s ->
  (forall k, k ∈ sortedKeys (Set_ p) -> is_Some (vals !! k)) ->
  (patchDriver p = Ok DriverINI /\ ini_extract head (sortedKeys (Set_ p)) = Ok vals /\
   (exists l, ini_loop r (sortedKeys r) (chunks head) = Ok (Some l)) /\
   Forall (target_ok (chunks head)) (map (ini_target r) (sortedKeys (Set_ p)))) \/
  (patchDriver p = Ok DriverTOML /\ toml_extract head (sortedKeys (Set_ p)) = Ok vals /\
   (exists l, foldl (toml_step r) (Some (chunks head)) (sortedKeys r) = Some l) /\
   Forall (target_ok (chunks head)) (map (toml_target r) (sortedKeys (Set_ p)))) ->
  Clean p s head = Ok head.
Proof.
  intros Ht Hne Hr Hs Hall [(Hd & Hx & [l Hl] & Hok)|(Hd & Hx & [l Hl] & Hok)].
  - destruct (filter_present p DriverINI (ini_driver ini_marshal ini_extract ini_remove) head c r s vals) as [Ha ->]; try done.
    cbn [applyContent_ ini_driver restoreContent_] in *. unfold setINIInPlace in Ha. rewrite Hl in Ha. cbn in Ha. injection Ha as <-.
    rewrite (rendered_keys _ _ _ _ Hr) in Hl. apply ini_loop_targets in Hl as [Hl Hsp]. f_equal.
    rewrite (restore_ini_targets r) by done. by apply restore_undoes_set.
  - destruct (filter_present p DriverTOML (toml_driver toml_marshal toml_extract toml_remove) head c r s vals) as [Ha ->]; try done.
    cbn [applyContent_ toml_driver restoreContent_] in *. unfold setTOMLInPlace in Ha. rewrite Hl in Ha. cbn in Ha. injection Ha as <-.
    rewrite (rendered_keys _ _ _ _ Hr), toml_targets in Hl. f_equal. rewrite (restore_toml_targets r). by apply restore_undoes_set.
Qed.
End InPlace.

(** *** A patched [.ini] *)
Definition demo_ini : Patch := {| File := "setup.cfg"; Format := ""; Set_ := {["db.name" := "app_{slug}"]} |}.
Definition demo_ini_head : string := "name = other" +:+ nl +:+ "[db]" +:+ nl +:+ "  name   = main ; the database" +:+ nl.
Definition demo_ini_rendered : gmap string string := {["db.name" := "app_x"]}.
Definition demo_ini_vals : gmap string string := {["db.name" := "main"]}.
Definition demo_ini_extract (_ : string) (_ : list string) : res error (gmap string string) := Ok demo_ini_vals.

Lemma Clean_Smudge_in_place_witness :
  let smudged := "name = other" +:+ nl +:+ "[db]" +:+ nl +:+ "  name   = app_x" +:+ nl in
  Smudge no_library no_library demo_ini_extract no_extract no_library no_library no_driver (fun _ => "") demo_ini demo_ini_head demo_context
    = Ok smudged /\
  Clean no_library no_library demo_ini_extract no_extract no_library no_library no_driver demo_ini smudged demo_ini_head = Ok demo_ini_head.
Proof.
  intros smudged. split; [by vm_compute|].
  refine (Clean_Smudge_in_place no_library no_library demo_ini_extract no_extract no_library no_library no_driver (fun _ => "")
    demo_ini demo_ini_head demo_context demo_ini_rendered smudged demo_ini_vals _ _ _ _ _ (or_introl (conj _ (conj _ (conj _ _))))).
  - by vm_compute.
  - by vm_compute.
  - by vm_compute.
  - by vm_compute.
  - assert (sortedKeys (Set_ demo_ini) = ["db.name"]) as -> by (by vm_compute).
    intros k [->|[]%elem_of_nil]%elem_of_cons. by exists "main".
  - by vm_compute.
  - by vm_compute.
  - eexists. vm_compute. reflexivity.
  - assert (sortedKeys (Set_ demo_ini) = ["db.name"]) as -> by (by vm_compute). constructor; [|constructor].
    split; [apply iniSection_ok|by repeat split|by vm_compute|]. intros b body a E. vm_compute in E. injection E as <- <- <-. vm_compute. lia.
Defined.
