(* ===== verification/Owned.v ===== *)
(** * The databases a worktree owns

    [internal/prepare/owned.go] and [resolveCloneNames] of
    [internal/prepare/prepare.go]: the names of the test clones of a database,
    and how teardown and recovery find them again among the live databases,
    where the number of clones may have been another one. *)
From stdpp Require Import base strings list.
From Stdlib Require Import ZArith Lia.
From S2P Require Import Prelude GoStrings Engine Slug Template Lines BranchStore BranchSwap.
#[local] Open Scope treeman_scope.

(** [config.TestClonesSpec]: the number of clones, detected or fixed, and the
    name template *)
Record TestClonesSpec := { cloneCount : nat; cloneTemplate : string }.

Fixpoint clone_names (tmpl : string) (c : Context) (slots : list Z) : res err (list string) :=
  match slots with
  | [] => Ok []
  | i :: rest =>
      match Template.Render tmpl (WithN i c) with
      | Err _ => Err Other
      | Ok name => let? l := clone_names tmpl c rest in Ok (name :: l)
      end
  end.

Definition resolveCloneNames (p : option TestClonesSpec) (c : Context) : res err (list string) :=
  match p with
  | None => Ok []
  | Some p => clone_names (cloneTemplate p) c (map Z.of_nat (seq 1 (cloneCount p)))
  end.

(** [strings.Cut] *)
Fixpoint cut (sep s : string) : option (string * string) :=
  match cut_prefix sep s, s with
  | Some after, _ => Some (EmptyString, after)
  | None, String c s' =>
      match cut sep s' with Some (before, after) => Some (String c before, after) | None => None end
  | None, EmptyString => None
  end.

(** [strings.CutSuffix] *)
Definition cut_suffix (p s : string) : option string :=
  let n := String.length s - String.length p in
  if (String.length p <=? String.length s)%nat && String.eqb (str_drop n s) p then Some (str_take n s) else None.

(** what stands around the index in the name of a clone *)
Definition clonePattern (spec : option TestClonesSpec) (c : Context) : res err (option (string * string)) :=
  match spec with
  | None => Ok None
  | Some p =>
      if String.eqb (cloneTemplate p) "" then Ok None else
      match cut "{n}" (cloneTemplate p) with
      | None => Err Other
      | Some (before, after) =>
          match Template.Render before c, Template.Render after c with
          | Ok prefix, Ok suffix => Ok (Some (prefix, suffix))
          | _, _ => Err Other
          end
      end
  end.

Definition isCloneName (name prefix suffix : string) : bool :=
  match cut_prefix prefix name with
  | None => false
  | Some mid =>
      match cut_suffix suffix mid with
      | None => false
      | Some mid => negb (String.eqb mid "") && str_all is_digit mid
      end
  end.

(** which of the live databases go with [target] *)
Definition owned_of (target prefix suffix : string) (live : list string) : list string :=
  target :: List.filter (fun n => negb (String.eqb n target) && isCloneName n prefix suffix) live.

(** the name to tear down: an empty one would reach every namespace *)
Definition teardownTarget (prefixed : bool) (nameTemplate keyPrefix : string) (c : Context) : res err string :=
  match Template.Render (if prefixed then keyPrefix else nameTemplate) c with
  | Err _ => Err Other
  | Ok target => if String.eqb target "" then Err Other else Ok target
  end.

(** ** Strings *)
Lemma cut_app sep s before after : cut sep s = Some (before, after) -> s = before +:+ sep +:+ after.
Proof.
  revert before after. induction s as [|c s IH]; intros before after; cbn [cut].
  - destruct (cut_prefix sep "") eqn:E; [|done]. intros [= <- <-]. by apply cut_prefix_app in E.
  - destruct (cut_prefix sep (String c s)) eqn:E.
    + intros [= <- <-]. by apply cut_prefix_app in E.
    + destruct (cut sep s) as [[b x]|]; [|done]. intros [= <- <-]. by rewrite (IH b x eq_refl).
Qed.

Lemma cut_suffix_app p s r : cut_suffix p s = Some r <-> s = r +:+ p.
Proof.
  unfold cut_suffix. split.
  - destruct (Nat.leb_spec (String.length p) (String.length s)); cbn [andb]; [|done].
    destruct (String.eqb_spec (str_drop (String.length s - String.length p) s) p) as [E|]; [|done].
    intros [= <-]. rewrite <- E at 2. symmetry. apply str_take_drop.
  - intros ->. rewrite str_length_app, (proj2 (Nat.leb_le _ _)) by lia.
    rewrite (str_drop_app r p) by lia. rewrite String.eqb_refl. cbn [andb]. by rewrite (str_take_app r p) by lia.
Qed.

Lemma isCloneName_spec x pre suf :
  isCloneName x pre suf = true <-> exists mid, x = pre +:+ mid +:+ suf /\ mid <> "" /\ str_all is_digit mid = true.
Proof.
  unfold isCloneName. split.
  - destruct (cut_prefix pre x) as [y|] eqn:E1; [|done]. apply cut_prefix_app in E1 as ->.
    destruct (cut_suffix suf y) as [mid|] eqn:E2; [|done]. apply cut_suffix_app in E2 as ->.
    intros [H1%negb_true_iff%String.eqb_neq H2]%andb_prop. by exists mid.
  - intros (mid & -> & Hne & Hd). rewrite (proj2 (cut_prefix_app pre _ (mid +:+ suf)) eq_refl).
    rewrite (proj2 (cut_suffix_app suf _ mid) eq_refl). apply String.eqb_neq in Hne. by rewrite Hne, Hd.
Qed.

Lemma itoa_some n : (0 <= n)%Z -> itoa n <> "".
Proof. intros Hn. destruct n as [|p|p]; [done| |lia]. by destruct (itoa_pos_head p) as (c & s & -> & _). Qed.

(** ** Templates around a key *)
Lemma print_starts ts inner : wf_tokens ts "" -> print ts = String "{" inner -> ~ no_close inner.
Proof.
  destruct ts as [|[c|body|key] ts]; cbn; [done|..].
  - intros (Hc & _) [= -> _]. done.
  - done.
  - intros [Hk _] [= <-] Hn. unfold no_close in Hn. rewrite str_app_assoc in Hn. cbn in Hn.
    by rewrite (cut_byte_here _ _ _ (proj1 (no_close_any _) Hk)) in Hn.
Qed.

Lemma wf_tokens_extend ts tail :
  wf_tokens ts "" -> has_suffix "$" (print ts) = false -> wf_tokens ts tail.
Proof.
  induction ts as [|t ts IH]; [done|]. intros Hwf Hs.
  assert (print ts <> "" -> has_suffix "$" (print ts) = false) as Hs'.
  { intros Hne. revert Hs. cbn [print]. unfold has_suffix. rewrite str_rev_app.
    destruct (str_rev (print ts)) as [|c r] eqn:E; [by rewrite <- (str_rev_invol (print ts)), E in Hne|]. unfold has_prefix. cbn -[Ascii.eqb]. by destruct (Ascii.eqb _ c). }
  assert (wf_tokens ts tail) as Hts.
  { destruct (decide (print ts = "")) as [E|Hne].
    - destruct ts as [|[]]; done.
    - apply IH; [destruct t; cbn in Hwf; [by destruct Hwf as (_ & _ & H)|by destruct Hwf..]|by apply Hs']. }
  destruct t as [c|body|key]; cbn in Hwf |- *; [|tauto..]. destruct Hwf as (Hc & Hd & Hwf). split; [done|]. split; [|done].
  intros -> inner E. destruct (print ts) as [|b rest] eqn:Ep; [cbn [print print_token String.append] in Hs; by rewrite Ep in Hs|].
  injection E as -> <-. exfalso. apply (print_starts ts rest); [done|done|]. apply (Hd eq_refl). by rewrite str_app_nil_r.
Qed.

Lemma wf_tokens_app a b tail : wf_tokens a (print b +:+ tail) -> wf_tokens b tail -> wf_tokens (a ++ b) tail.
Proof.
  intros Ha Hb. induction a as [|[c|body|key] a IH]; cbn in *; [done| |by destruct Ha as [H1 H2]; split; [exact H1|by apply IH]..].
  destruct Ha as (Hc & Hd & Ha). split; [done|]. split; [|auto]. intros E inner. rewrite print_app, str_app_assoc. by apply Hd.
Qed.

Lemma token_value_app f a b va vb :
  token_value f a = Ok va -> token_value f b = Ok vb -> token_value f (a ++ b) = Ok (va +:+ vb).
Proof.
  revert va. induction a as [|[c|body|key] a IH]; intros va; cbn [token_value app]; [by intros [= <-]| | |].
  1, 2: intros (x & Hx & [= <-])%res_bind_ok Hb; rewrite (IH x Hx Hb); cbn; by rewrite ?str_app_assoc.
  destruct (f key); [|done]. intros (x & Hx & [= <-])%res_bind_ok Hb. rewrite (IH x Hx Hb). cbn. by rewrite str_app_assoc.
Qed.

Lemma token_value_mono f g ts v :
  (forall k x, f k = Some x -> g k = Some x) -> token_value f ts = Ok v -> token_value g ts = Ok v.
Proof.
  intros Hfg. revert v. induction ts as [|[c|body|key] ts IH]; intros v; cbn [token_value]; [done| | |].
  1, 2: intros (x & Hx & [= <-])%res_bind_ok; by rewrite (IH x Hx).
  destruct (f key) as [y|] eqn:E; [|done]. rewrite (Hfg _ _ E). intros (x & Hx & [= <-])%res_bind_ok. by rewrite (IH x Hx).
Qed.

Lemma Render_reads tmpl c v :
  Render tmpl c = Ok v -> exists ts, tmpl = print ts /\ wf_tokens ts "" /\ token_value (fun k => lookup_key k c) ts = Ok v.
Proof.
  destruct (tokens_exist tmpl) as (ts & tail & -> & Hwf & Ht). unfold Render. rewrite renderWith_spec by done.
  destruct (token_value _ ts) as [w|] eqn:E; [|done]. destruct (String.eqb_spec tail "") as [->|]; [|done].
  intros [= <-]. exists ts. by rewrite str_app_nil_r.
Qed.

Lemma Render_tokens_value ts c v :
  wf_tokens ts "" -> token_value (fun k => lookup_key k c) ts = Ok v -> Render (print ts) c = Ok v.
Proof. intros Hwf Hv. unfold Render. rewrite <- (str_app_nil_r (print ts)), renderWith_spec by auto. by rewrite Hv. Qed.

Lemma lookup_key_WithN i c k x : HasN c = false -> lookup_key k c = Some x -> lookup_key k (WithN i c) = Some x.
Proof.
  intros Hn. unfold lookup_key. rewrite Hn.
  destruct (String.eqb k "slug"); [done|]. destruct (String.eqb k "slug_dash"); [done|].
  destruct (String.eqb k "slug_redis_queue"); [done|]. destruct (String.eqb k "slug_redis_cache"); [done|].
  by destruct (String.eqb k "n").
Qed.

(** the name of a clone is its index between the parts of the pattern *)
Lemma Render_around before after c i pre suf :
  Render before c = Ok pre -> Render after c = Ok suf -> has_suffix "$" before = false -> HasN c = false ->
  Render (before +:+ "{n}" +:+ after) (WithN i c) = Ok (pre +:+ itoa i +:+ suf).
Proof.
  intros (ts & -> & Hwf & Hv)%Render_reads (ts' & -> & Hwf' & Hv')%Render_reads Hd Hn.
  change ("{n}" +:+ print ts') with (print (Key "n" :: ts')). rewrite <- print_app.
  assert (forall k x, lookup_key k c = Some x -> lookup_key k (WithN i c) = Some x) as Hmono by (intros; by apply lookup_key_WithN).
  apply Render_tokens_value.
  - apply wf_tokens_app; [by apply wf_tokens_extend|done].
  - apply token_value_app; [by apply (token_value_mono _ _ _ _ Hmono)|]. cbn [token_value].
    rewrite (token_value_mono _ _ _ _ Hmono Hv'). done.
Qed.

Lemma clone_names_spec tmpl c slots l x :
  clone_names tmpl c slots = Ok l -> x ∈ l -> exists i, i ∈ slots /\ Render tmpl (WithN i c) = Ok x.
Proof.
  revert l. induction slots as [|i slots IH]; intros l; cbn [clone_names]; [by intros [= <-] ?%elem_of_nil|].
  destruct (Render tmpl (WithN i c)) as [y|] eqn:E; [|done]. intros (l' & Hl & [= <-])%res_bind_ok.
  intros [->|Hx]%elem_of_cons; [by exists i; split; [left|]|]. destruct (IH l' Hl Hx) as (j & Hj & Er). exists j. by split; [right|].
Qed.

(** teardown and recovery find every test clone that a prepare
    made, whatever the number of clones was then, and take for a clone only a
    name that is a decimal index between the two parts of the pattern *)
Theorem owned_clones p c n l pre suf target live x :
  has_suffix "$" (default ("", "") (cut "{n}" (cloneTemplate p))).1 = false -> HasN c = false ->
  clonePattern (Some p) c = Ok (Some (pre, suf)) ->
  resolveCloneNames (Some {| cloneCount := n; cloneTemplate := cloneTemplate p |}) c = Ok l ->
  (x ∈ l -> x ∈ live -> x ∈ owned_of target pre suf live) /\
  (x ∈ owned_of target pre suf live -> x = target \/
     x ∈ live /\ exists mid, x = pre +:+ mid +:+ suf /\ mid <> "" /\ str_all is_digit mid = true).
Proof.
  unfold clonePattern. intros Hd Hn Hp Hl. destruct (String.eqb_spec (cloneTemplate p) ""); [done|].
  destruct (cut "{n}" (cloneTemplate p)) as [[before after]|] eqn:Ec; [|done]. apply cut_app in Ec. cbn in Hd.
  destruct (Render before c) as [p1|] eqn:E1; [|done]. destruct (Render after c) as [p2|] eqn:E2; [|done]. injection Hp as -> ->.
  unfold owned_of. split.
  - intros Hx Hlive. destruct (decide (x = target)) as [->|Hne]; [by left|]. right. apply elem_of_filter_bool. split; [|done].
    apply andb_true_intro. split; [by apply negb_true_iff, String.eqb_neq|]. apply isCloneName_spec.
    destruct (clone_names_spec _ _ _ _ _ Hl Hx) as (i & Hi & Er). cbn [cloneTemplate] in Er. rewrite Ec, (Render_around _ _ _ _ pre suf) in Er by done.
    injection Er as <-. apply list_elem_of_fmap in Hi as (k & -> & Hk). exists (itoa (Z.of_nat k)).
    split; [done|]. split; [apply itoa_some; lia|]. apply itoa_all_digits. lia.
  - intros [->|[[_ Hx]%andb_prop Hin]%elem_of_filter_bool]%elem_of_cons; [by left|]. right. split; [done|]. by apply isCloneName_spec.
Qed.

Definition plain_context : Context :=
  {| cSlug := "feat_ab12"; SlugDash := "feat-ab12"; SlugRedisQueue := "0"; SlugRedisCache := "1"; N_ := 0; HasN := false;
     TargetDB := ""; HasTargetDB := false; Ports := ∅; DBs := [] |}.

(** seven clones were made, two are configured now; a sibling's database stays *)
Lemma owned_clones_witness :
  "app_feat_ab12_t7" ∈ owned_of "app_feat_ab12" "app_feat_ab12_t" "" ["app_feat_ab12_t7"; "app_feat_ab12_test"] /\
  ("app_feat_ab12_t7" ∈ owned_of "app_feat_ab12" "app_feat_ab12_t" "" ["app_feat_ab12_t7"; "app_feat_ab12_test"] ->
   "app_feat_ab12_t7" = "app_feat_ab12" \/
     "app_feat_ab12_t7" ∈ ["app_feat_ab12_t7"; "app_feat_ab12_test"] /\
     exists mid, "app_feat_ab12_t7" = "app_feat_ab12_t" +:+ mid +:+ "" /\ mid <> "" /\ str_all is_digit mid = true).
Proof.
  pose proof (owned_clones {| cloneCount := 2; cloneTemplate := "app_{slug}_t{n}" |} plain_context 7
    ["app_feat_ab12_t1"; "app_feat_ab12_t2"; "app_feat_ab12_t3"; "app_feat_ab12_t4"; "app_feat_ab12_t5"; "app_feat_ab12_t6"; "app_feat_ab12_t7"]
    "app_feat_ab12_t" "" "app_feat_ab12" ["app_feat_ab12_t7"; "app_feat_ab12_test"] "app_feat_ab12_t7") as H.
  destruct H as [H1 H2]; [vm_compute; reflexivity..|]. split; [|exact H2].
  apply H1; [|left]. repeat (first [by left|right]).
Defined.

(** a dollar before the index makes [${n}], which the renderer leaves to the
    shell: such clones are not found *)
Example dollar_clone_lost :
  let p := Some {| cloneCount := 1; cloneTemplate := "t${n}" |} in
  resolveCloneNames p plain_context = Ok ["t${n}"] /\ clonePattern p plain_context = Ok (Some ("t$", "")) /\
  isCloneName "t${n}" "t$" "" = false.
Proof. vm_compute. auto. Qed.
