(* ===== verification/HashCache.v ===== *)
(** * The file-hash cache

    [internal/store/hashes.go]: content hashes of files, kept in the table
    [file_hashes] beside the size and the modification time the file had, so
    that an unchanged file is not read again; and
    [LockfileHashesForWithCache] of [internal/snapshot/snapshot.go] on top. *)
From stdpp Require Import base strings list sets gmap relations.
From Stdlib Require Import ZArith Lia.
From S2P Require Import Prelude GoStrings Slug.

(** ** Files *)
Record fileStat := { fsize : Z; fmtime : Z }.

#[export] Instance fileStat_eq_dec : EqDecision fileStat.
Proof. solve_decision. Defined.

Inductive Node := File (st : fileStat) (content : string) | Directory.
Abbreviation FS := (string -> option Node).

(** [os.Stat], of what is not a directory *)
Definition stat_file (n : option Node) : option fileStat :=
  match n with Some (File st _) => Some st | _ => None end.

Definition IsAbs (p : string) : bool := has_prefix "/" p.

(** ** The table *)
Record HashRow := { hStat : fileStat; hHash : string; hCachedAt : Z }.
Abbreviation HashTable := (gmap string HashRow).

Inductive hash_error := NotAbsolute (p : string) | Unreadable (p : string).

(** what goes wrong in one call: a query of a chunk may fail, after the rows
    of some paths were read; a file may be unreadable; the two writes of the
    table may fail, which is logged only *)
Record Faults := {
  query_fails : nat -> option (string -> bool);
  unreadable : string -> bool;
  upsert_fails : bool;
  touch_fails : bool
}.

Section Hashes.
Variable blake3 : string -> string.

Definition hashFileBLAKE3 (F : Faults) (fs : FS) (p : string) : option (res hash_error string) :=
  match fs p with
  | None => None        (* [os.ErrNotExist] *)
  | Some Directory => Some (Err (Unreadable p))
  | Some (File _ c) => Some (if unreadable F p then Err (Unreadable p) else Ok (hexEncode (blake3 c)))
  end.

(** each path once, in order, with its stat *)
Fixpoint statLivePaths (fs : FS) (paths : list string) (seen : gset string) : res hash_error (list (string * fileStat)) :=
  match paths with
  | [] => Ok []
  | p :: ps =>
      if negb (IsAbs p) then Err (NotAbsolute p) else
      if bool_decide (p ∈ seen) then statLivePaths fs ps seen else
      match stat_file (fs p) with
      | None => statLivePaths fs ps ({[p]} ∪ seen)
      | Some st => res_bind (statLivePaths fs ps ({[p]} ∪ seen)) (fun l => Ok ((p, st) :: l))
      end
  end.

(** the rows of one chunk are added to [cached]; false after a failure *)
Definition loadFileHashChunk (fail : option (string -> bool)) (tbl : HashTable) (batch : list string)
    (cached : HashTable) : HashTable * bool :=
  let read := match fail with None => batch | Some keep => List.filter keep batch end in
  (filter (fun kv => kv.1 ∈ read) tbl ∪ cached, match fail with None => true | Some _ => false end).

Definition chunk : nat := 500.

Fixpoint load_chunks (fuel i : nat) (F : Faults) (tbl : HashTable) (live : list string) (cached : HashTable) : HashTable :=
  match fuel, live with
  | O, _ | _, [] => cached
  | S fuel, _ =>
      let r := loadFileHashChunk (query_fails F i) tbl (take chunk live) cached in
      if r.2 then load_chunks fuel (S i) F tbl (drop chunk live) r.1 else r.1
  end.

Definition hit (cached : HashTable) (ps : string * fileStat) : option string :=
  match cached !! ps.1 with
  | Some c => if bool_decide (hStat c = ps.2) then Some (hHash c) else None
  | None => None
  end.

(** the misses, hashed; a file that is gone by now is left out *)
Fixpoint hash_misses (F : Faults) (fs : FS) (misses : list string) : res hash_error (gmap string string) :=
  match misses with
  | [] => Ok ∅
  | p :: ps =>
      match hashFileBLAKE3 F fs p with
      | None => hash_misses F fs ps
      | Some r => res_bind r (fun h => res_bind (hash_misses F fs ps) (fun m => Ok (<[p := h]> m)))
      end
  end.

Definition upsertHashRows (hashes : gmap string string) (stats : gmap string fileStat) (now : Z) (tbl : HashTable) : HashTable :=
  map_imap (fun p h => (fun st => {| hStat := st; hHash := h; hCachedAt := now |}) <$> stats !! p) hashes ∪ tbl.

Definition touchHashRows (paths : list string) (now : Z) (tbl : HashTable) : HashTable :=
  map_imap (fun p r => Some (if bool_decide (p ∈ paths) then {| hStat := hStat r; hHash := hHash r; hCachedAt := now |} else r)) tbl.

(** the stats are taken in [fs]; the files that missed are read in [fs'] *)
Definition BatchHashedFiles (F : Faults) (fs fs' : FS) (now : Z) (paths : list string) (tbl : HashTable)
    : HashTable * res hash_error (gmap string string) :=
  match statLivePaths fs paths ∅ with
  | Err e => (tbl, Err e)
  | Ok live =>
      let cached := load_chunks (length live) 0 F tbl (map fst live) ∅ in
      let hits := List.filter (fun ps => bool_decide (is_Some (hit cached ps))) live in
      let misses := List.filter (fun ps => negb (bool_decide (is_Some (hit cached ps)))) live in
      let out : gmap string string := list_to_map (omap (fun ps => (fun h => (ps.1, h)) <$> hit cached ps) hits) in
      match hash_misses F fs' (map fst misses) with
      | Err e => (tbl, Err e)
      | Ok fresh =>
          let tbl := if upsert_fails F then tbl else upsertHashRows fresh (list_to_map live) now tbl in
          let tbl := if touch_fails F then tbl else touchHashRows (map fst hits) now tbl in
          (tbl, Ok (fresh ∪ out))
      end
  end.

Definition HashedFile (F : Faults) (fs fs' : FS) (now : Z) (p : string) (tbl : HashTable) : HashTable * res hash_error string :=
  let r := BatchHashedFiles F fs fs' now [p] tbl in
  (r.1, res_bind r.2 (fun m => match m !! p with Some h => Ok h | None => Err (Unreadable p) end)).

(** [LockfileHashesForWithCache]: without the cache when that fails *)
Definition uncached (F : Faults) (fs : FS) (paths : list string) : res hash_error (gmap string string) :=
  hash_misses F fs (List.filter (fun p => bool_decide (is_Some (stat_file (fs p)))) paths).

Definition LockfileHashesForWithCache (F : Faults) (fs fs' : FS) (now : Z) (paths : list string) (tbl : HashTable)
    : HashTable * res hash_error (gmap string string) :=
  let r := BatchHashedFiles F fs fs' now (List.filter (fun p => bool_decide (is_Some (stat_file (fs p)))) paths) tbl in
  match r.2 with
  | Ok m => (r.1, Ok m)
  | Err _ => (r.1, uncached F fs' paths)
  end.

(** ** Reference *)
Definition hash_of (fs : FS) (p : string) : option string :=
  match fs p with Some (File _ c) => Some (hexEncode (blake3 c)) | _ => None end.

(** a row that matches the file as it is has its hash *)
Definition coherent (fs : FS) (tbl : HashTable) : Prop :=
  forall p r st c, tbl !! p = Some r -> fs p = Some (File st c) -> hStat r = st -> hHash r = hexEncode (blake3 c).

(** ** Histories *)

(** a file is written, moved or removed; a write gives it a stat that the
    table does not have for it *)
Inductive edit (tbl : HashTable) : FS -> FS -> Prop :=
| edit_file fs p n :
    (forall r, tbl !! p = Some r -> stat_file n <> Some (hStat r)) -> edit tbl fs (fun q => if String.eqb q p then n else fs q).

(** edits, and calls that edits interrupt between the stats and the reads *)
Inductive step : FS * HashTable -> FS * HashTable -> Prop :=
| step_edit fs fs' tbl : edit tbl fs fs' -> step (fs, tbl) (fs', tbl)
| step_batch F fs fs' now paths tbl :
    rtc (edit tbl) fs fs' -> step (fs, tbl) (fs', (BatchHashedFiles F fs fs' now paths tbl).1).

(** ** Lemmas *)
Lemma stat_hash fs p : is_Some (stat_file (fs p)) <-> is_Some (hash_of fs p).
Proof. unfold stat_file, hash_of. destruct (fs p) as [[]|]; split; intros [x Hx]; try done; by eexists. Qed.

Lemma statLivePaths_spec fs paths seen l :
  statLivePaths fs paths seen = Ok l ->
  NoDup (map fst l) /\ forall p st, (p, st) ∈ l <-> p ∈ paths /\ p ∉ seen /\ stat_file (fs p) = Some st.
Proof.
  revert seen l. induction paths as [|p ps IH]; intros seen l; cbn [statLivePaths].
  { intros [= <-]. split; [constructor|]. intros q st. rewrite !elem_of_nil. tauto. }
  destruct (IsAbs p); cbn [negb]; [|done]. case_bool_decide as Hseen.
  { intros Hl. destruct (IH seen l Hl) as [Hn H]. split; [done|]. intros q st. rewrite H, elem_of_cons. set_solver. }
  destruct (stat_file (fs p)) as [st0|] eqn:Est.
  - intros (l' & Hl & [= <-])%res_bind_ok. destruct (IH _ l' Hl) as [Hn H]. split.
    + cbn. constructor; [|done]. intros ([q st] & E1 & Hq)%list_elem_of_fmap. cbn in E1. subst q. apply H in Hq as (_ & Hq & _). set_solver.
    + intros q st. rewrite elem_of_cons, H, elem_of_cons. split.
      * intros [[= -> ->]|(H1 & H2 & H3)]; [|set_solver]. auto.
      * intros ([->|H1] & H2 & H3); [left; congruence|]. destruct (decide (q = p)) as [->|]; [left; congruence|right; set_solver].
  - intros Hl. destruct (IH _ l Hl) as [Hn H]. split; [done|]. intros q st. rewrite H, elem_of_cons. split.
    + intros (H1 & H2 & H3). set_solver.
    + intros ([->|H1] & H2 & H3); [congruence|]. destruct (decide (q = p)) as [->|]; [congruence|set_solver].
Qed.

Lemma load_chunks_sub fuel i F tbl live cached : cached ⊆ tbl -> load_chunks fuel i F tbl live cached ⊆ tbl.
Proof.
  assert (forall (P : string * HashRow -> Prop) `{forall x, Decision (P x)} (c : HashTable), c ⊆ tbl -> filter P tbl ∪ c ⊆ tbl) as Hu.
  { intros P HP c Hc. apply map_union_least; [apply map_filter_subseteq|done]. }
  revert i live cached. induction fuel as [|fuel IH]; intros i [|p live] cached Hc; cbn [load_chunks]; try done.
  unfold loadFileHashChunk. cbn [fst snd]. destruct (query_fails F i); [by apply Hu|]. by apply IH, Hu.
Qed.

Lemma hit_coherent fs tbl cached p st h :
  coherent fs tbl -> cached ⊆ tbl -> stat_file (fs p) = Some st -> hit cached (p, st) = Some h -> hash_of fs p = Some h.
Proof.
  unfold hit, hash_of. cbn. intros Hc Hsub Hst. destruct (cached !! p) as [r|] eqn:Er; [|done]. case_bool_decide as Hr; [|done].
  intros [= <-]. destruct (fs p) as [[st' c|]|] eqn:Ef; [|done..]. injection Hst as ->. f_equal. symmetry.
  by apply (Hc p r st c (lookup_weaken _ _ _ _ Er Hsub)).
Qed.

Lemma hash_misses_spec F fs l m :
  hash_misses F fs l = Ok m -> forall p, m !! p = if decide (p ∈ l) then hash_of fs p else None.
Proof.
  revert m. induction l as [|q l IH]; intros m; cbn [hash_misses]; [intros [= <-] p; by rewrite lookup_empty|].
  unfold hashFileBLAKE3. destruct (fs q) as [[st c|]|] eqn:Eq; [destruct (unreadable F q)| |]; cbn [res_bind]; try done.
  - intros (m' & Hm & [= <-])%res_bind_ok p. destruct (decide (q = p)) as [->|Hne].
    + rewrite lookup_insert_eq, decide_True by left. unfold hash_of. by rewrite Eq.
    + rewrite lookup_insert_ne, (IH m' Hm p) by done. apply decide_ext. rewrite elem_of_cons. naive_solver.
  - intros Hm p. rewrite (IH m Hm p). destruct (decide (p = q)) as [->|Hne].
    + unfold hash_of. rewrite Eq. by repeat case_decide.
    + apply decide_ext. rewrite elem_of_cons. naive_solver.
Qed.

Lemma hash_misses_total F fs l :
  (forall p, unreadable F p = false) -> (forall p, p ∈ l -> fs p <> Some Directory) -> exists m, hash_misses F fs l = Ok m.
Proof.
  intros Hu. induction l as [|p l IH]; intros Hl; cbn [hash_misses]; [by eexists|].
  destruct IH as [m ->]; [intros q Hq; apply Hl; by right|]. unfold hashFileBLAKE3. rewrite Hu.
  specialize (Hl p ltac:(left)). destruct (fs p) as [[]|]; cbn; [by eexists|done|by eexists].
Qed.

Lemma fst_of_live (l : list (string * fileStat)) (P : string * fileStat -> bool) p :
  p ∈ map fst (List.filter P l) <-> exists st, (p, st) ∈ l /\ P (p, st) = true.
Proof.
  split.
  - intros ([q st] & E1 & [H1 H2]%elem_of_filter_bool)%list_elem_of_fmap. cbn in E1. subst q. by exists st.
  - intros (st & H1 & H2). apply (list_elem_of_fmap_2 fst _ (p, st)), elem_of_filter_bool. by split.
Qed.

Lemma live_unique (l : list (string * fileStat)) p st st' : NoDup (map fst l) -> (p, st) ∈ l -> (p, st') ∈ l -> st = st'.
Proof.
  intros Hn H1 H2. apply elem_of_list_to_map_1 in H1; [|done]. apply elem_of_list_to_map_1 in H2; [|done]. congruence.
Qed.

Lemma out_lookup cached (l : list (string * fileStat)) p :
  NoDup (map fst l) ->
  (list_to_map (omap (fun ps => (fun h => (ps.1, h)) <$> hit cached ps) (List.filter (fun ps => bool_decide (is_Some (hit cached ps))) l))
    : gmap string string) !! p = st ← (list_to_map l : gmap string fileStat) !! p; hit cached (p, st).
Proof.
  induction l as [|[q st] l IH]; cbn [map list_to_map]; [done|]. intros [Hq Hn]%NoDup_cons. specialize (IH Hn).
  cbn [List.filter]. case_bool_decide as Hb.
  - destruct Hb as [h Hh]. cbn [omap list_omap]. rewrite Hh. cbn. destruct (decide (q = p)) as [->|Hne].
    + rewrite !lookup_insert_eq. cbn. by rewrite Hh.
    + by rewrite !lookup_insert_ne.
  - rewrite IH. cbn. destruct (decide (q = p)) as [->|Hne]; [|by rewrite lookup_insert_ne].
    rewrite lookup_insert_eq. cbn. rewrite (not_elem_of_list_to_map_1 l p) by done. cbn.
    destruct (hit cached (p, st)); [by destruct Hb|done].
Qed.

Lemma coherent_touch fs tbl paths now : coherent fs tbl -> coherent fs (touchHashRows paths now tbl).
Proof.
  intros Hc p r st c Hr Hf. unfold touchHashRows in Hr. rewrite map_lookup_imap in Hr.
  destruct (tbl !! p) as [r0|] eqn:E; [|done]. cbn in Hr. injection Hr as <-. intros Hst.
  case_bool_decide; cbn in *; by apply (Hc p r0 st c).
Qed.

Lemma coherent_upsert fs tbl hashes stats now :
  coherent fs tbl -> (forall p h, hashes !! p = Some h -> hash_of fs p = Some h) -> coherent fs (upsertHashRows hashes stats now tbl).
Proof.
  intros Hc Hh p r st c Hr Hf Hst. unfold upsertHashRows in Hr. apply lookup_union_Some_raw in Hr as [Hr|[_ Hr]]; [|by apply (Hc p r st c)].
  rewrite map_lookup_imap in Hr. destruct (hashes !! p) as [h|] eqn:E; [|done]. cbn in Hr.
  destruct (stats !! p); [|done]. injection Hr as <-. cbn. apply Hh in E. unfold hash_of in E. rewrite Hf in E. congruence.
Qed.

Lemma coherent_edit fs fs' tbl : edit tbl fs fs' -> coherent fs tbl -> coherent fs' tbl.
Proof.
  intros Hed Hc. destruct Hed as [fs p n Hn]. intros q r st c Hr. destruct (String.eqb_spec q p) as [->|].
  - intros -> Hst. destruct (Hn r Hr). cbn. by rewrite Hst.
  - by apply (Hc q r st c).
Qed.

Lemma coherent_edits fs fs' tbl : rtc (edit tbl) fs fs' -> coherent fs tbl -> coherent fs' tbl.
Proof. intros H Hc. eapply (rtc_invariant (edit tbl) (fun fs => coherent fs tbl)); [|exact H|exact Hc]. intros a b Ha Hab. by eapply coherent_edit. Qed.

(** one call: the hashes are those of the files, before or after the edits
    that interrupt it *)
Lemma batch_result F fs fs' now paths tbl m :
  coherent fs tbl -> (BatchHashedFiles F fs fs' now paths tbl).2 = Ok m ->
  forall p, (p ∈ paths -> is_Some (hash_of fs p) -> m !! p = hash_of fs p \/ m !! p = hash_of fs' p) /\
            (p ∉ paths \/ hash_of fs p = None -> m !! p = None).
Proof.
  intros Hc. unfold BatchHashedFiles. destruct (statLivePaths fs paths ∅) as [live|] eqn:El; [|done].
  apply statLivePaths_spec in El as [Hn Hl].
  set (cached := load_chunks (length live) 0 F tbl (map fst live) ∅).
  assert (cached ⊆ tbl) as Hsub by (apply load_chunks_sub, map_empty_subseteq).
  destruct (hash_misses F fs' _) as [fresh|] eqn:Ef; [|done]. intros [= <-] p.
  pose proof (hash_misses_spec _ _ _ _ Ef p) as Hf. pose proof (out_lookup cached live p Hn) as Hout.
  set (out := list_to_map (omap _ _) : gmap string string) in *.
  assert (forall st, (p, st) ∈ live -> (list_to_map live : gmap string fileStat) !! p = Some st) as Hlm by (intros st; by apply elem_of_list_to_map_1).
  split.
  - intros Hp Hs. apply stat_hash in Hs as [st Hs]. assert ((p, st) ∈ live) as Hin by (apply Hl; set_solver).
    rewrite (Hlm st Hin) in Hout. cbn in Hout. rewrite lookup_union.
    destruct (hit cached (p, st)) as [h|] eqn:Eh.
    + left. rewrite Hf, decide_False.
      * rewrite Hout. cbn. symmetry. by apply (hit_coherent fs tbl cached p st).
      * intros (st' & H1 & H2)%fst_of_live. rewrite (live_unique live p st' st Hn H1 Hin), Eh in H2. by rewrite bool_decide_true in H2.
    + right. rewrite Hout, Hf, decide_True; [by destruct (hash_of fs' p)|]. apply fst_of_live. exists st.
      split; [done|]. by rewrite Eh, bool_decide_false by (by intros []).
  - intros Hno. assert (forall st, (p, st) ∉ live) as Hnl.
    { intros st (H1 & _ & H3)%Hl. destruct Hno as [?|Hno]; [done|]. assert (is_Some (hash_of fs p)) as [] by (apply stat_hash; by eexists). congruence. }
    rewrite lookup_union, Hf, decide_False by (intros (st & ? & _)%fst_of_live; by apply (Hnl st)).
    rewrite Hout. destruct (list_to_map live !! p) as [st|] eqn:E; [|done]. cbn.
    apply elem_of_list_to_map_2 in E. by destruct (Hnl st).
Qed.

Lemma batch_coherent F fs fs' now paths tbl : coherent fs' tbl -> coherent fs' (BatchHashedFiles F fs fs' now paths tbl).1.
Proof.
  intros Hc. unfold BatchHashedFiles. destruct (statLivePaths fs paths ∅) as [live|]; [|done].
  destruct (hash_misses F fs' _) as [fresh|] eqn:Ef; [|done]. cbn [fst].
  assert (forall p h, fresh !! p = Some h -> hash_of fs' p = Some h) as Hfr.
  { intros p h. rewrite (hash_misses_spec _ _ _ _ Ef p). by case_decide. }
  destruct (touch_fails F), (upsert_fails F); auto using coherent_touch, coherent_upsert.
Qed.

Lemma history_coherent s s' : rtc step s s' -> coherent s.1 s.2 -> coherent s'.1 s'.2.
Proof.
  intros H Hc. eapply (rtc_invariant step (fun s => coherent s.1 s.2)); [|exact H|exact Hc]. intros a b Ha Hab.
  destruct Hab as [fs fs' tbl Hed|F fs fs' now paths tbl Hed]; cbn in *; [by eapply coherent_edit|].
  by apply batch_coherent, (coherent_edits fs).
Qed.

Lemma coherent_empty fs : coherent fs ∅.
Proof. by intros p r st c ?%lookup_empty_Some. Qed.

Lemma statLivePaths_total fs paths seen : (forall p, p ∈ paths -> IsAbs p = true) -> exists l, statLivePaths fs paths seen = Ok l.
Proof.
  revert seen. induction paths as [|p ps IH]; intros seen Hp; cbn [statLivePaths]; [by eexists|]. rewrite (Hp p) by left. cbn [negb].
  assert (forall q, q ∈ ps -> IsAbs q = true) as Hps by (intros q Hq; apply Hp; by right).
  case_bool_decide; [by apply IH|]. destruct (stat_file (fs p)); [|by apply IH]. destruct (IH ({[p]} ∪ seen) Hps) as [l ->]. by eexists.
Qed.
End Hashes.

(** C8: the cache is transparent. After any history of edits and of
    calls, interrupted by edits and with faults of the table, a call on
    readable files succeeds and gives for every file the hash of its content,
    as it was at the start of the call or, for a file edited during it, as it
    is at the end; and nothing for what is not a file *)
Theorem hashes_fresh (blake3 : string -> string) F fs0 fs tbl fs' now paths :
  rtc (step blake3) (fs0, ∅) (fs, tbl) -> rtc (edit tbl) fs fs' ->
  (forall p, p ∈ paths -> IsAbs p = true) -> (forall p, unreadable F p = false) -> (forall p, p ∈ paths -> fs' p <> Some Directory) ->
  exists m, (BatchHashedFiles blake3 F fs fs' now paths tbl).2 = Ok m /\
    forall p, (p ∈ paths -> is_Some (hash_of blake3 fs p) -> m !! p = hash_of blake3 fs p \/ m !! p = hash_of blake3 fs' p) /\
              (p ∉ paths \/ hash_of blake3 fs p = None -> m !! p = None).
Proof.
  intros Hh Hed Habs Hr Hdir. apply (history_coherent blake3) in Hh; [|apply coherent_empty]. cbn in Hh.
  assert (exists m, (BatchHashedFiles blake3 F fs fs' now paths tbl).2 = Ok m) as [m Hm].
  { unfold BatchHashedFiles. destruct (statLivePaths_total fs paths ∅ Habs) as [live El]. rewrite El.
    apply (statLivePaths_spec blake3) in El as [_ Hl].
    destruct (hash_misses_total blake3 F fs' (map fst (List.filter (fun ps => negb (bool_decide (is_Some (hit
      (load_chunks (length live) 0 F tbl (map fst live) ∅) ps)))) live)) Hr) as [fresh ->]; [|by eexists].
    intros p (st & Hp & _)%fst_of_live. apply Hdir. by apply Hl in Hp as [? _]. }
  exists m. split; [done|]. by apply (batch_result blake3 F fs fs' now paths tbl).
Qed.

Definition one_file (c : string) (m : Z) : FS :=
  fun p => if String.eqb p "/w/a" then Some (File {| fsize := 1; fmtime := m |} c) else None.
Definition no_faults : Faults :=
  {| query_fails := fun _ => None; unreadable := fun _ => false; upsert_fails := false; touch_fails := false |}.
Definition filled : HashTable := (BatchHashedFiles (fun s => s) no_faults (one_file "x" 1) (one_file "x" 1) 10 ["/w/a"] ∅).1.

Definition edited : FS := fun q => if String.eqb q "/w/a" then Some (File {| fsize := 1; fmtime := 2 |} "y") else one_file "x" 1 q.
Definition id_digest (s : string) : string := s.

(** a hit, then an edit of the same size *)
Lemma hashes_fresh_witness :
  (BatchHashedFiles id_digest no_faults (one_file "x" 1) (one_file "x" 1) 11 ["/w/a"] filled).2 = Ok {["/w/a" := "78"]} /\
  exists m, (BatchHashedFiles id_digest no_faults edited edited 12 ["/w/a"] filled).2 = Ok m /\
    forall p, (p ∈ ["/w/a"] -> is_Some (hash_of id_digest edited p) ->
                 m !! p = hash_of id_digest edited p \/ m !! p = hash_of id_digest edited p) /\
              (p ∉ ["/w/a"] \/ hash_of id_digest edited p = None -> m !! p = None).
Proof.
  split; [vm_compute; reflexivity|].
  refine (hashes_fresh id_digest no_faults (one_file "x" 1) edited filled edited 12 ["/w/a"] _ _ _ _ _).
  - eapply rtc_l; [apply (step_batch _ no_faults (one_file "x" 1) (one_file "x" 1) 10 ["/w/a"] ∅), rtc_refl|].
    eapply rtc_l; [|apply rtc_refl]. apply step_edit, edit_file. intros r Hr. vm_compute in Hr. injection Hr as <-. by intros [=].
  - apply rtc_refl.
  - by intros p ->%list_elem_of_singleton.
  - done.
  - by intros p ->%list_elem_of_singleton.
Defined.
