(* ===== verification/TemplateBuild.v ===== *)
(** * Preparing a database from its cached template

    [internal/prepare/prepare.go]: the databases of a worktree that are built
    from their migrations.  A finished build is copied into a template named
    by the fingerprint of its inputs; the next prepare of the same fingerprint,
    in any worktree, copies the template instead of building
    ([cacheHitGeneric]), and a build starts from the nearest template there is
    ([tryIncrementalBuild], [tryRollbackIncrementalBuild], [tryDumpOnlyBuild])
    before it starts from nothing ([coldBuildSteps]).

    The program runs in the monad of [BranchSwap], over the server, the
    snapshots table and the pins: every call may fail, the process may die at
    any call, and siblings may change what is shared between two calls. *)
From stdpp Require Import base strings list sets gmap.
From Stdlib Require Import ZArith Lia.
From S2P Require Import Prelude GoStrings Engine Slug Template SnapshotKey SnapshotStore SnapshotGC BranchStore BranchSwap Owned.
#[local] Open Scope treeman_scope.

(** ** Configuration *)

(** [config.DumpSpec] and [config.Input]; [Kind == InputKindLockfile] *)
Record DumpSpec := { dpPath : string; dpOptional : bool }.
Record Input := { Glob : string; is_lockfile : bool }.

(** [config.LockfileGlobs] *)
Definition LockfileGlobs (inputs : list Input) : gset string :=
  list_to_set (map Glob (List.filter is_lockfile inputs)).

(** [config.DatabaseConfig], as far as this file reads it *)
Record Database := {
  dbEngine : string;
  dbConnection : string;
  dbDump : list DumpSpec;
  dbMigrate : bool;              (* [d.Migrate != nil], and so on *)
  dbSeed : bool;
  dbRollback : bool;
  dbInputs : list Input;
  dbTestClones : option TestClonesSpec
}.

(** the dumps that are there, in order; a missing one that is not optional is
    an error *)
Fixpoint dumpsReady (present : string -> bool) (dumps : list DumpSpec) : res err (list string) :=
  match dumps with
  | [] => Ok []
  | d :: ds =>
      if present (dpPath d) then let? l := dumpsReady present ds in Ok (dpPath d :: l)
      else if dpOptional d then dumpsReady present ds else Err Other
  end.

(** the key of the template that holds the loaded dumps and nothing else *)
Definition dumpOnlySnapshotKey (engineName connection version dumpHash : string) : Key :=
  SnapshotKey.New engineName version connection "" "" dumpHash {[DumpOnlyMarkerKey := "1"]}.

(** ** The server *)

(** the commands of the configuration; a rollback unwinds [steps] migrations *)
Inductive Step := Migrate | Seed | Rollback (steps : Z).

(** the files of a worktree, which dumps and commands read *)
Definition Files : Type := string -> option string.

(** the operations of the driver; each is given the number of its call.
    [CachedRestore] is what [restoreFor] chooses: the plain restore, or the
    claim of a pre-warmed spare. *)
Class TplDriver (E Data : Type) := {
  stored : E -> string -> option Data;
  DatabaseExists : nat -> string -> E -> res err bool;
  CachedRestore : nat -> string -> string -> E -> E * res err unit;
  SnapshotRestore : nat -> string -> string -> E -> E * res err unit;
  SnapshotRestoreStaged : nat -> string -> string -> E -> E * res err unit;
  SnapshotCreate : nat -> string -> string -> E -> E * res err unit;
  DropDatabase : nat -> string -> E -> E * res err unit;
  EnsureDB : nat -> string -> E -> E * res err unit;
  OpenScoped : nat -> string -> E -> res err unit;
  Load : Files -> nat -> string -> string -> E -> E * res err unit;
  PreferLogicalFor : nat -> string -> E -> bool;
  ListMatching : nat -> string -> E -> res err (list string);
  run_step : Files -> Step -> nat -> string -> E -> E * res err unit
}.

(** the families that build this way *)
Inductive Flavor := MySQL | Postgres.

(** what the prepares of all worktrees share: the server, the snapshots table,
    and the pins of this process *)
Record Server (E : Type) := { server : E; snaps : Table; pinned : Pin.State }.
Arguments server {E} _.
Arguments snaps {E} _.
Arguments pinned {E} _.
Arguments Build_Server {E} _ _ _.

Definition with_server {E} (e : E) (s : Server E) : Server E := Build_Server e (snaps s) (pinned s).
Definition with_snaps {E} (t : Table) (s : Server E) : Server E := Build_Server (server s) t (pinned s).
Definition with_pins {E} (p : Pin.State) (s : Server E) : Server E := Build_Server (server s) (snaps s) p.

(** [Outcome] *)
Record Outcome := {
  oSourceDB : string;
  oTemplateName : string;
  oFingerprint : string;
  oCacheHit : bool;
  oClones : list string;
  oIncrementalBase : string
}.

(** one database of one worktree; [aKey] and [aInputs] are what
    [computeKeyAndVectors] gave *)
Record TemplateArgs := {
  aDB : Database;
  aTpl : Context;
  aFiles : Files;                (* as they are while the prepare runs *)
  aKey : Key;
  aInputs : Inputs;
  aVersion : string;
  aSource : string;              (* the rendered name_template *)
  aRepoID : Z;
  aWorktreeID : Z
}.

(** the dump files that are there *)
Definition aPresent (a : TemplateArgs) (path : string) : bool := bool_decide (is_Some (aFiles a path)).

Section Program.
Context {E Data : Type} `{TD : TplDriver E Data}.
Variable blake3 : string -> string.
Variable range : nat -> Inputs -> list (string * InputVector).  (* [range] over a map *)
Variable repos : gset Z.                                        (* the ids of the repos table *)
Variable sched : nat -> list string -> list string.             (* the order of a fan-out *)
(** a build of this fingerprint in flight elsewhere, and what happens until it ends *)
Variable waits : nat -> option (Server E -> Server E).
Variable X : Surroundings (Server E).
Variable fam : Flavor.
Variable a : TemplateArgs.

Local Abbreviation M := (M (Server E)).
Local Abbreviation d := (aDB a).
Local Abbreviation source := (aSource a).
Local Abbreviation fp := (Fingerprint blake3 (aKey a)).
Local Abbreviation templateName := (TemplateName blake3 (aKey a)).

(** ** Calls *)
Definition on_server {A} (f : nat -> E -> E * res err A) : M A :=
  engine_op X (fun n s => let r := f n (server s) in (with_server r.1 s, r.2)).
Definition probe {A} (f : nat -> E -> res err A) : M A := on_server (fun n e => (e, f n e)).

Definition on_snaps {A} (f : Z -> Table -> Table * res SnapshotStore.error A) : M A :=
  engine_op X (fun n s =>
    if store_fault X n then (s, Err StoreFault)
    else let r := f (now X n) (snaps s) in
         (with_snaps r.1 s, match r.2 with Ok a => Ok a | Err _ => Err Other end)).
Definition query {A} (f : Table -> res SnapshotStore.error A) : M A := on_snaps (fun _ t => (t, f t)).

Definition lift {A} (r : res err A) : M A := fun w => (w, of_res r).

(** [unpin := snapshot.Pin(fp); defer unpin()] *)
Definition with_pin {A} (f : string) (m : M A) : M A := fun w =>
  let s := eng w in
  let h := length (Pin.handles (pinned s)) in
  let r := m (Build_World (with_pins (Pin.Pin f (pinned s)) s) (st w) (tick w)) in
  let s' := eng r.1 in
  (match r.2 with
   | Crashed => r.1
   | _ => Build_World (with_pins (Pin.release h (pinned s')) s') (st r.1) (tick r.1)
   end, r.2).

Definition waitForBuild : M bool :=
  engine_op X (fun n s => match waits n with None => (s, Ok false) | Some f => (f s, Ok true) end).

(** *** Copies to many targets *)

(** every job runs; the first error is kept *)
Fixpoint run_all (jobs : list (M unit)) (first : option err) : M (option err) :=
  match jobs with
  | [] => mret first
  | job :: rest =>
      r ← attempt job;
      run_all rest (match r with Err e => match first with None => Some e | _ => first end | Ok _ => first end)
  end.

Definition fan_out (op : string -> M unit) (targets : list string) : M unit :=
  order ← ask X (fun n => Ok (sched n targets));
  first ← run_all (map op order) None;
  match first with None => mret tt | Some e => fail e end.

Definition fanOutClones (restore : nat -> string -> string -> E -> E * res err unit)
    (template : string) (clones : list string) : M unit :=
  match clones with
  | [] => mret tt
  | _ => fan_out (fun c => retryTransient X (on_server (fun n => restore n template c))) clones
  end.

(** *** The snapshots table *)
Definition recordSnapshot (key : Key) (template : string) (inputs : Inputs) : M unit :=
  on_snaps (fun now t => RecordSnapshot repos now
    {| rFingerprint := Fingerprint blake3 key; rEngine := dbEngine d; rEngineVersion := aVersion a;
       rSourceDB := source; rTemplateName := template; rMigrationsHash := kMigrationsHashHex key;
       rDumpHash := kDumpHashHex key; rLockfileHashes := kLockfileHashes key; rConnection := "";
       rInputs := inputs; rSizeBytes := 0; rCreatedAt := 0; rLastUsedAt := 0; rUseCount := 0;
       rRepoID := aRepoID a |} t).

Definition forget (f : string) : M unit := on_snaps (fun _ t => (DeleteSnapshot f t, Ok tt)).

Definition lookupCachedSnapshot : M (option SnapshotRecord) :=
  rec ← on_snaps (fun now => LookupAndTouchSnapshot now fp);
  match rec with
  | Some r => mret (Some r)
  | None =>
      waited ← waitForBuild;
      if (waited : bool) then on_snaps (fun now => LookupAndTouchSnapshot now fp) else mret None
  end.

(** is the template of the row there? The row goes when it is not *)
Definition liveSnapshot (rec : SnapshotRecord) : M bool :=
  alive ← probe (fun n => DatabaseExists n (rTemplateName rec));
  if (alive : bool) then mret true else
  _ ← forget (rFingerprint rec); mret false.

Definition recordTemplateBuilt : M unit :=
  store_op X (fun _ => SetTemplateBuilt (aWorktreeID a) source (dbEngine d) (dbConnection d) fp).

(** ** A cached template *)
Definition all_targets (clones : list string) : list string :=
  source :: List.filter (fun c => negb (String.eqb c source)) clones.

Fixpoint all_exist (targets : list string) : M bool :=
  match targets with
  | [] => mret true
  | t :: ts => present ← probe (fun n => DatabaseExists n t);
               if (present : bool) then all_exist ts else mret false
  end.

Definition templateBuiltTargets (clones : list string) : M bool :=
  built ← store_read X (GetTemplateBuilt (aWorktreeID a) source (dbEngine d) (dbConnection d));
  if bool_decide (built = Some fp) then all_exist (all_targets clones) else mret false.

(** true: the template went away meanwhile *)
Definition cacheHitRestoreAndFanout (template : string) (clones : list string) : M bool :=
  r ← attempt (fanOutClones CachedRestore template (all_targets clones));
  match r with
  | Ok _ => mret false
  | Err e =>
      if isCancellation e then fail e else
      x ← attempt (probe (fun n => DatabaseExists n template));
      match x with
      | Err _ => fail e
      | Ok true => fail e
      | Ok false => _ ← forget fp; mret true
      end
  end.

Definition outcome_of (template : string) (hit : bool) (clones : list string) (base : string) : Outcome :=
  {| oSourceDB := source; oTemplateName := template; oFingerprint := fp; oCacheHit := hit;
     oClones := clones; oIncrementalBase := base |}.

(** the first part of [cacheHitGeneric]: [Some (_, true)] when nothing had to
    be restored, [Some (_, false)] after a restore *)
Definition cacheHitTemplate : M (option (Outcome * bool)) :=
  rec ← lookupCachedSnapshot;
  match rec with
  | None => mret None
  | Some rec =>
      alive ← liveSnapshot rec;
      if negb alive then mret None else
      clones ← lift (resolveCloneNames (dbTestClones d) (aTpl a));
      let hit := outcome_of (rTemplateName rec) true clones "" in
      restored ← templateBuiltTargets clones;
      if (restored : bool) then mret (Some (hit, true)) else
      gone ← cacheHitRestoreAndFanout (rTemplateName rec) clones;
      if (gone : bool) then mret None else mret (Some (hit, false))
  end.

Definition cacheHitGeneric : M (option Outcome) :=
  o ← cacheHitTemplate;
  match o with
  | None => mret None
  | Some (hit, true) => mret (Some hit)
  | Some (hit, false) => _ ← recordTemplateBuilt; mret (Some hit)
  end.

(** ** Builds *)
Definition run (s : Step) : M unit := on_server (fun n => run_step (aFiles a) s n source).
Definition run_if (b : bool) (s : Step) : M unit := if b then run s else mret tt.

Definition fanoutRestore : nat -> string -> string -> E -> E * res err unit :=
  match fam with MySQL => SnapshotRestoreStaged | Postgres => SnapshotRestore end.

(** the populated source becomes the template, the template the clones *)
Definition snapshotRecordFanout : M (list string) :=
  _ ← on_server (fun n => SnapshotCreate n source templateName);
  _ ← recordSnapshot (aKey a) templateName (aInputs a);
  clones ← lift (resolveCloneNames (dbTestClones d) (aTpl a));
  _ ← fanOutClones fanoutRestore templateName clones;
  mret clones.

Definition commandsHash : string := str_at (kLockfileHashes (aKey a)) CommandsHashKey.
Definition dumpHash : string := kDumpHashHex (aKey a).

Definition tryIncrementalBuild : M (option Outcome) :=
  anc ← query (fun t => Ok (FindAncestorSnapshot (aRepoID a) (dbEngine d) (aVersion a) dumpHash commandsHash (aInputs a) t));
  match anc with
  | None => mret None
  | Some anc => with_pin (rFingerprint anc) (
      live ← liveSnapshot anc;
      if negb live then mret None else
      r ← attempt (on_server (fun n => SnapshotRestore n (rTemplateName anc) source));
      match r with
      | Err _ => mret None
      | Ok _ =>
          _ ← run_if (dbMigrate d) Migrate;
          clones ← snapshotRecordFanout;
          mret (Some (outcome_of templateName false clones (rFingerprint anc)))
      end)
  end.

(** a step of the rollback path: [None] when the path is given up *)
Definition rollback_step (b : bool) (s : Step) (k : M (option Outcome)) : M (option Outcome) :=
  r ← attempt (run_if b s);
  match r with
  | Ok _ => k
  | Err CommandNotFound => fail CommandNotFound
  | Err _ => mret None
  end.

Definition tryRollbackIncrementalBuild : M (option Outcome) :=
  let lockfileGlobs := LockfileGlobs (dbInputs d) in
  if negb (dbMigrate d) || (negb (dbRollback d) && bool_decide (lockfileGlobs = ∅)) then mret None else
  f ← query (fun t => Ok (FindRollbackAncestor range (aRepoID a) (dbEngine d) (aVersion a) dumpHash commandsHash
                            lockfileGlobs (aInputs a) t));
  match f.1 with
  | None => mret None
  | Some anc =>
      let steps := f.2 in
      if Z.ltb 0 steps && negb (dbRollback d) then mret None else
      with_pin (rFingerprint anc) (
        live ← liveSnapshot anc;
        if negb live then mret None else
        r ← attempt (on_server (fun n => SnapshotRestore n (rTemplateName anc) source));
        match r with
        | Err _ => mret None
        | Ok _ =>
            rollback_step (Z.ltb 0 steps) (Rollback steps)
              (rollback_step true Migrate
                (rollback_step (dbSeed d) Seed
                  (clones ← snapshotRecordFanout;
                   mret (Some (outcome_of templateName false clones (rFingerprint anc))))))
        end)
  end.

Definition dumpKey : Key := dumpOnlySnapshotKey (dbEngine d) (dbConnection d) (aVersion a) dumpHash.

Definition tryDumpOnlyBuild : M (option Outcome) :=
  if bool_decide (dbDump d = []) || negb (dbMigrate d) then mret None else
  anc ← on_snaps (fun now => LookupAndTouchSnapshot now (Fingerprint blake3 dumpKey));
  match anc with
  | None => mret None
  | Some anc => with_pin (rFingerprint anc) (
      live ← liveSnapshot anc;
      if negb live then mret None else
      r ← attempt (on_server (fun n => SnapshotRestore n (rTemplateName anc) source));
      match r with
      | Err _ => mret None
      | Ok _ =>
          _ ← run Migrate;
          _ ← run_if (dbSeed d) Seed;
          clones ← snapshotRecordFanout;
          mret (Some (outcome_of templateName false clones (rFingerprint anc)))
      end)
  end.

(** the loaded dumps are kept as a template of their own; a failure to do so
    is not an error of the build *)
Definition seedDumpOnlyTemplate (dumpCount : nat) : M unit :=
  if Nat.eqb dumpCount 0 || negb (dbMigrate d) then mret tt else
  let dumpTpl := TemplateName blake3 dumpKey in
  rec ← query (LookupSnapshot (Fingerprint blake3 dumpKey));
  have ← match rec with
         | None => mret false
         | Some rec => r ← attempt (probe (fun n => DatabaseExists n (rTemplateName rec)));
                       mret (match r with Ok alive => alive | Err _ => false end)
         end;
  if (have : bool) then mret tt else
  r ← attempt (on_server (fun n => SnapshotCreate n source dumpTpl));
  match r with
  | Err _ => mret tt
  | Ok _ => recordSnapshot dumpKey dumpTpl ∅
  end.

Fixpoint load_all (dumps : list string) : M unit :=
  match dumps with
  | [] => mret tt
  | f :: fs => _ ← on_server (fun n => Load (aFiles a) n source f); load_all fs
  end.

(** [mysqlColdBuildSteps], [postgresColdBuildSteps] *)
Definition coldBuildSteps : M unit :=
  _ ← on_server (fun n => DropDatabase n source);
  _ ← on_server (fun n => EnsureDB n source);
  dumps ← lift (dumpsReady (aPresent a) (dbDump d));
  _ ← match fam, dumps with
      | Postgres, _ :: _ => probe (fun n => OpenScoped n source)
      | _, _ => mret tt
      end;
  _ ← load_all dumps;
  _ ← seedDumpOnlyTemplate (length dumps);
  _ ← run_if (dbMigrate d) Migrate;
  run_if (dbSeed d) Seed.

(** template and clones from the source in one wave *)
Definition mysqlMergedColdFanout (clones : list string) : M unit :=
  _ ← fan_out (fun t => on_server (fun n => SnapshotCreate n source t)) (templateName :: clones);
  recordSnapshot (aKey a) templateName (aInputs a).

Definition mysqlSnapshotAndRecord : M unit :=
  _ ← on_server (fun n => SnapshotCreate n source templateName);
  recordSnapshot (aKey a) templateName (aInputs a).

Definition cold_tail : M (list string) :=
  match fam with
  | Postgres => snapshotRecordFanout
  | MySQL =>
      clones ← lift (resolveCloneNames (dbTestClones d) (aTpl a));
      logical ← probe (fun n e => Ok (PreferLogicalFor n source e));
      _ ← (if (logical : bool) then mysqlMergedColdFanout clones
           else _ ← mysqlSnapshotAndRecord; fanOutClones SnapshotRestoreStaged templateName clones);
      mret clones
  end.

Definition or_else (m : M (option Outcome)) (k : M Outcome) : M Outcome :=
  o ← m; match o with Some o => mret o | None => k end.

(** [prepareMySQL] and [preparePostgres] *)
Definition prepareTemplate : M Outcome :=
  with_pin fp (
    or_else cacheHitGeneric
      (or_else tryIncrementalBuild
        (or_else tryRollbackIncrementalBuild
          (or_else tryDumpOnlyBuild
            (_ ← coldBuildSteps;
             clones ← cold_tail;
             mret (outcome_of templateName false clones "")))))).

(** ** The runs *)

(** the work of [RunFiltered] on one database; [fresh] is [opts.Fresh] *)
Definition runDatabase (fresh : bool) : M Outcome :=
  _ ← (if fresh then store_op X (fun _ => ClearTemplateBuiltForWorktree (aWorktreeID a)) else mret tt);
  o ← prepareTemplate;
  _ ← (if negb (oCacheHit o) && negb (String.eqb (oFingerprint o) "") && negb (String.eqb (oSourceDB o) "")
       then recordTemplateBuilt else mret tt);
  mret o.

(** [recoverTestClone] of [recover.go], with [dropOwned]: the source and every
    live database named like a clone are dropped, each as far as it goes *)
Definition ownedDatabases : M (list string) :=
  pattern ← lift (clonePattern (dbTestClones d) (aTpl a));
  match pattern with
  | None => mret [source]
  | Some (prefix, suffix) =>
      live ← probe (fun n => ListMatching n prefix);
      mret (owned_of source prefix suffix live)
  end.

Fixpoint drop_each (names : list string) : M unit :=
  match names with
  | [] => mret tt
  | n0 :: ns => _ ← attempt (on_server (fun n => DropDatabase n n0)); drop_each ns
  end.

Definition dropOwned : M unit :=
  names ← ownedDatabases;
  drop_each names.

(** [RecoverDatabases] on one failed database; its errors are events *)
Definition RecoverDatabases : M unit :=
  _ ← attempt dropOwned;
  _ ← attempt (store_op X (fun _ => ClearTemplateBuiltForKey (aWorktreeID a) source));
  mret tt.
End Program.

(** [RecoverDBIndices]: the databases a failed run left to recover *)
Definition RecoverDBIndices (failed : list (nat * err)) : list nat :=
  map fst (List.filter (fun f => negb (bool_decide (f.2 = CommandNotFound))) failed).
