(* ===== verification/TemplateSafety.v ===== *)
(** * What the template cache promises

    Theorems about [TemplateBuild]: whatever fails, and wherever the process
    dies, a row of the snapshots table never names a template that holds
    anything but a full build of the row's inputs; and a prepare that succeeds
    leaves the database and its test clones with a full build of the inputs it
    was run on, whichever way it took. *)
From stdpp Require Import base strings list sets gmap.
From Stdlib Require Import ZArith Lia.
From S2P Require Import Prelude GoStrings Engine Slug Template SnapshotKey SnapshotStore SnapshotGC BranchStore BranchSwap Owned TemplateBuild.

#[local] Arguments TemplateName _ _ : simpl never.
#[local] Arguments Fingerprint _ _ : simpl never.

(** ** What a driver promises *)

(** a copy of [s] to [t]: names that [also] allows may change too *)
Record copies {E Data : Type} `{TplDriver E Data} (also : string -> string -> Prop)
    (op : nat -> string -> string -> E -> E * res err unit) : Prop := {
  copy_frame : forall n s t e x, x <> t -> ~ also s x -> stored (op n s t e).1 x = stored e x;
  copy_ok : forall n s t e, s <> t -> (op n s t e).2 = Ok tt ->
    is_Some (stored e s) /\ stored (op n s t e).1 t = stored e s
}.

Definition nothing_else (s x : string) : Prop := False.
(** a restore may use up a pre-warmed spare *)
Definition spare_of (s x : string) : Prop := exists slot, x = SpareName s slot.

Class TplLaws (E Data : Type) {TD : TplDriver E Data} := {
  empty_db : Data;
  loaded : Files -> string -> Data -> Data;
  stepped : Files -> Step -> Data -> Data;
  exists_truth : forall n ns e b, DatabaseExists n ns e = Ok b -> b = true <-> is_Some (stored e ns);
  cached_copies : copies spare_of CachedRestore;
  restore_copies : copies nothing_else SnapshotRestore;
  staged_copies : copies nothing_else SnapshotRestoreStaged;
  create_copies : copies nothing_else SnapshotCreate;
  drop_frame : forall n t e x, x <> t -> stored (DropDatabase n t e).1 x = stored e x;
  drop_gone : forall n t e, (DropDatabase n t e).2 = Ok tt -> stored (DropDatabase n t e).1 t = None;
  ensure_frame : forall n t e x, x <> t -> stored (EnsureDB n t e).1 x = stored e x;
  ensure_empty : forall n t e, (EnsureDB n t e).2 = Ok tt -> stored e t = None ->
    stored (EnsureDB n t e).1 t = Some empty_db;
  load_frame : forall fs n t f e x, x <> t -> stored (Load fs n t f e).1 x = stored e x;
  load_ok : forall fs n t f e c, (Load fs n t f e).2 = Ok tt -> stored e t = Some c ->
    stored (Load fs n t f e).1 t = Some (loaded fs f c);
  step_frame : forall fs s n t e x, x <> t -> stored (run_step fs s n t e).1 x = stored e x;
  step_ok : forall fs s n t e c, (run_step fs s n t e).2 = Ok tt -> stored e t = Some c ->
    stored (run_step fs s n t e).1 t = Some (stepped fs s c)
}.

(** ** Pins *)
Lemma pinned_Pin f p : f <> "" -> Pin.counted p -> Pin.IsPinned f (Pin.Pin f p) = true.
Proof.
  intros Hf [Hc _]. unfold Pin.IsPinned, Pin.Pin, Pin.count in *. apply String.eqb_neq in Hf as ->. cbn.
  rewrite lookup_insert_eq. cbn. specialize (Hc f). pose proof (Pin.held_nonneg f (Pin.handles p)).
  apply Z.ltb_lt. lia.
Qed.

Lemma pinned_still f f' p : Pin.counted p -> Pin.IsPinned f p = true -> Pin.IsPinned f (Pin.Pin f' p) = true.
Proof.
  intros Hc Hp. destruct (decide (f' = f)) as [->|Hne].
  - apply pinned_Pin; [|done]. intros ->. done.
  - unfold Pin.IsPinned, Pin.Pin, Pin.count in *. destruct (String.eqb f' ""); [done|]. cbn. by rewrite lookup_insert_ne.
Qed.

Lemma pinned_release f f' p :
  Pin.counted p -> Pin.IsPinned f p = true ->
  Pin.IsPinned f (Pin.release (length (Pin.handles p)) (Pin.Pin f' p)) = true.
Proof.
  intros Hc Hp. unfold Pin.IsPinned in *. destruct (String.eqb_spec f "") as [|Hf]; [done|]. apply Z.ltb_lt in Hp. apply Z.ltb_lt.
  unfold Pin.Pin, Pin.release. destruct (String.eqb f' "") eqn:E; cbn [Pin.handles Pin.pinCount];
    rewrite lookup_app_r, Nat.sub_diag by done; [done|]. cbn.
  unfold Pin.count in *. cbn. rewrite lookup_insert_eq. cbn. destruct (Z.leb_spec (default 0%Z (Pin.pinCount p !! f') + 1) 1) as [Hle|Hle]; cbn.
  - destruct (decide (f' = f)) as [->|]; [lia|]. by rewrite lookup_delete_ne, lookup_insert_ne.
  - destruct (decide (f' = f)) as [->|]; [rewrite lookup_insert_eq; cbn; lia|]. by rewrite !lookup_insert_ne.
Qed.

Lemma counted_release f p : Pin.counted p -> Pin.counted (Pin.release (length (Pin.handles p)) (Pin.Pin f p)).
Proof. intros Hc. eapply Pin.counted_step; [|apply Pin.step_release]. eapply Pin.counted_step; [exact Hc|apply Pin.step_pin]. Qed.

(** ** The setting *)
Section Safety.
Context {E Data : Type} `{TD : TplDriver E Data} {TL : TplLaws E Data}.
Variable blake3 : string -> string.
Variable range : nat -> Inputs -> list (string * InputVector).
Variable repos : gset Z.
Variable sched : nat -> list string -> list string.
Variable waits : nat -> option (Server E -> Server E).
Variable X : Surroundings (Server E).
Variable fam : Flavor.
Variable a : TemplateArgs.
(** the keys of the rows of the table, the input vectors behind a key, and what
    a full build of its inputs leaves in the database *)
Variable used : Key -> Prop.
Variable vec : Key -> Inputs.
Variable ref : Key -> Data.
Variable clones : list string.

Local Abbreviation d := (aDB a).
Local Abbreviation source := (aSource a).
Local Abbreviation fpo := (Fingerprint blake3).
Local Abbreviation name := (TemplateName blake3).
Local Abbreviation key := (aKey a).
Local Abbreviation dk := (dumpKey a).
Local Abbreviation label := (Engine.canonical_label (dbEngine d)).

Definition own (x : string) : Prop := x ∈ source :: clones.

(** the row says what its key says *)
Record vouches (k : Key) (r : Row) : Prop := {
  v_fp : fingerprint r = fpo k;
  v_engine : row_engine r = Engine.canonical_label (kEngine k);
  v_name : row_engine r = label -> template_name r = name k;
  v_version : engine_version r = kEngineVersion k;
  v_dump : default "" (dump_hash r) = kDumpHashHex k;
  v_locks : forall l, lockfile_hashes_json r = Some l -> l = kLockfileHashes k;
  v_inputs : forall i, inputs_json r = Some i -> i = vec k
}.

(** the table tells the truth about this server: the template of a row, if it
    is there, holds a full build of the row's inputs *)
Definition honest (s : Server E) : Prop :=
  forall r, r ∈ snaps s -> exists k, used k /\ vouches k r /\
    (row_engine r = label -> forall c, stored (server s) (name k) = Some c -> c = ref k).

Definition steps_of (m : bool) (s : Step) (c : Data) : Data := if m then stepped (aFiles a) s c else c.
Definition dumped (l : list string) : Data := foldl (fun c f => loaded (aFiles a) f c) empty_db l.

(** what the code relies on in the names, the configuration and the user's
    commands *)
Record Setting : Prop := {
  set_key : used key;
  set_dump_key : used dk;
  set_engine : kEngine key = dbEngine d;
  set_version : kEngineVersion key = aVersion a;
  set_vec : vec key = aInputs a;
  set_dump_vec : vec dk = ∅;
  set_keys : key <> dk;
  fp_inj : forall k k', used k -> used k' -> fpo k = fpo k' -> k = k';
  name_inj : forall k k', used k -> used k' -> name k = name k' -> k = k';
  fp_nonempty : forall k, used k -> fpo k <> "";
  name_own : forall k, used k -> ~ own (name k);
  spare_name : forall k k', used k -> used k' -> ~ spare_of (name k) (name k');
  spare_own : forall k x, used k -> own x -> ~ spare_of (name k) x;
  set_clones : resolveCloneNames (dbTestClones d) (aTpl a) = Ok clones;
  set_distinct : NoDup (source :: clones);
  set_sched : forall n l, sched n l ≡ₚ l;
  (** a full build: the dumps in order, then migrate, then seed *)
  ref_cold : forall l, dumpsReady (aPresent a) (dbDump d) = Ok l ->
    steps_of (dbSeed d) Seed (steps_of (dbMigrate d) Migrate (dumped l)) = ref key;
  ref_dump : forall l, dbMigrate d = true -> dumpsReady (aPresent a) (dbDump d) = Ok l -> l <> [] -> dumped l = ref dk;
  ref_dump_only : dbDump d <> [] -> dbMigrate d = true ->
    steps_of (dbSeed d) Seed (stepped (aFiles a) Migrate (ref dk)) = ref key;
  (** migrating a full build of an ancestor forward gives a full build *)
  ref_incremental : forall k, used k -> kDumpHashHex k = dumpHash a -> kEngineVersion k = aVersion a ->
    str_at (kLockfileHashes k) CommandsHashKey = commandsHash a -> str_at (kLockfileHashes k) DumpOnlyMarkerKey <> "1" ->
    vectorsAreAncestor (vec k) (aInputs a) = true ->
    steps_of (dbMigrate d) Migrate (ref k) = ref key;
  (** so does unwinding a diverging one first *)
  ref_rollback : forall k r call kept steps, used k ->
    rLockfileHashes r = kLockfileHashes k -> rInputs r = vec k -> str_at (kLockfileHashes k) DumpOnlyMarkerKey <> "1" ->
    rollback_plan range (commandsHash a) (LockfileGlobs (dbInputs d)) (aInputs a) call r = Some (kept, steps) ->
    steps_of (dbSeed d) Seed (stepped (aFiles a) Migrate (steps_of (Z.ltb 0 steps) (Rollback steps) (ref k))) = ref key;
  (** a failed copy into the dump-only template leaves no torn template *)
  dump_atomic : dbDump d <> [] -> dbMigrate d = true ->
    forall n e x, (SnapshotCreate n source (name dk) e).2 = Err x ->
      stored (SnapshotCreate n source (name dk) e).1 (name dk) = stored e (name dk) \/
      stored (SnapshotCreate n source (name dk) e).1 (name dk) = None
}.

(** what siblings and the garbage collection may do between two calls: they
    keep the table honest, leave this worktree's databases and the pins alone,
    do not change a pinned template except by dropping it, and do not build
    this run's fingerprint, unless the run is waiting for that build *)
Record Rely : Prop := {
  env_honest : forall n s, honest s -> honest (env X n s);
  env_own : forall n s x, own x -> stored (server (env X n s)) x = stored (server s) x;
  env_pins : forall n s, pinned (env X n s) = pinned s;
  env_pinned : forall n s k, used k -> Pin.IsPinned (fpo k) (pinned s) = true ->
    stored (server (env X n s)) (name k) = stored (server s) (name k) \/ stored (server (env X n s)) (name k) = None;
  env_dump : forall n s, stored (server (env X n s)) (name dk) = stored (server s) (name dk) \/
    stored (server (env X n s)) (name dk) = None \/ stored (server (env X n s)) (name dk) = Some (ref dk);
  env_norow : forall n s, row_of (fpo key) (snaps s) = None -> row_of (fpo key) (snaps (env X n s)) = None;
  wait_honest : forall n f s, waits n = Some f -> honest s -> honest (f s);
  wait_own : forall n f s x, waits n = Some f -> own x -> stored (server (f s)) x = stored (server s) x;
  wait_pins : forall n f s, waits n = Some f -> pinned (f s) = pinned s
}.
Hypothesis HS : Setting.
Hypothesis HR : Rely.

(** *** Facts about the shared state *)
Definition base (s : Server E) : Prop := honest s /\ Pin.IsPinned (fpo key) (pinned s) = true.
Definition norow (s : Server E) : Prop := row_of (fpo key) (snaps s) = None.
Definition at_ (x : string) (v : option Data) (s : Server E) : Prop := stored (server s) x = v.
Definition true_copy (k : Key) (s : Server E) : Prop := forall c, stored (server s) (name k) = Some c -> c = ref k.
Definition kept (v : string -> option Data) (s : Server E) : Prop := forall x, own x -> stored (server s) x = v x.
Definition filled (l : list string) (s : Server E) : Prop := forall x, x ∈ l -> at_ x (Some (ref key)) s.
Definition pin_of (f : string) (s : Server E) : Prop := Pin.IsPinned f (pinned s) = true.

(** facts that siblings keep *)
Definition stable (F : Server E -> Prop) : Prop := forall n s, base s -> F s -> F (env X n s).

Lemma stable_base : stable base.
Proof. intros n s _ [Hh Hp]. split; [by apply (env_honest HR)|]. by rewrite (env_pins HR). Qed.
Lemma stable_true : stable (fun _ => True).
Proof. done. Qed.
Lemma stable_both F G : stable F -> stable G -> stable (fun s => F s /\ G s).
Proof. intros HF HG n s Hb [? ?]. split; auto. Qed.
Lemma stable_norow : stable norow.
Proof. intros n s _. apply (env_norow HR). Qed.
Lemma stable_at x v : own x -> stable (at_ x v).
Proof. intros Hx n s _. unfold at_. by rewrite (env_own HR). Qed.
Lemma stable_kept v : stable (kept v).
Proof. intros n s _ Hk x Hx. rewrite (env_own HR) by done. auto. Qed.
Lemma stable_filled l : (forall x, x ∈ l -> own x) -> stable (filled l).
Proof. intros Hl n s Hb Hf x Hx. apply stable_at; auto. Qed.
Lemma stable_pin f : stable (pin_of f).
Proof. intros n s _. unfold pin_of. by rewrite (env_pins HR). Qed.
Lemma stable_copy k : used k -> stable (fun s => pin_of (fpo k) s /\ true_copy k s).
Proof.
  intros Hk n s Hb [Hp Ht]. split; [by apply stable_pin|]. intros c Hc.
  destruct (env_pinned HR n s k Hk Hp) as [E1|E1]; [|congruence]. apply Ht. congruence.
Qed.
Lemma stable_own_copy : stable (true_copy key).
Proof. intros n s Hb Ht. apply (stable_copy key (set_key HS)); [done|]. split; [apply Hb|done]. Qed.
Lemma stable_dump : stable (true_copy dk).
Proof. intros n s Hb Ht c Hc. destruct (env_dump HR n s) as [E1|[E1|E1]]; [apply Ht|..]; congruence. Qed.
Lemma stable_dead f : f = fpo key -> stable (fun s => row_of f (snaps s) = None).
Proof. intros ->. apply stable_norow. Qed.

(** *** Triples *)
Section Triples.
(** what is known of the pins, and the tables of the worktree *)
Variable pins : Pin.State -> Prop.
Variable t : Tables.
Hypothesis pins_key : forall p, pins p -> Pin.IsPinned (fpo key) p = true.

Definition state (F : Server E -> Prop) (w : World (Server E)) : Prop :=
  st w = t /\ pins (pinned (eng w)) /\ honest (eng w) /\ F (eng w).

(** from [F], [m] returns [x] with [G x], or fails or dies with [R] *)
Definition triple {A} (F : Server E -> Prop) (m : M (Server E) A) (G : A -> Server E -> Prop) (R : Server E -> Prop) : Prop :=
  forall w, state F w -> match (m w).2 with Done x => state (G x) (m w).1 | _ => state R (m w).1 end.

Lemma tri_conseq {A} (F F' : Server E -> Prop) (m : M (Server E) A) (G G' : A -> Server E -> Prop) (R R' : Server E -> Prop) :
  triple F m G R -> (forall s, F' s -> F s) -> (forall x s, G x s -> G' x s) -> (forall s, R s -> R' s) -> triple F' m G' R'.
Proof.
  intros H HF HG HR' w (H1 & H2 & H3 & H4). specialize (H w (conj H1 (conj H2 (conj H3 (HF _ H4))))).
  unfold state in *. destruct (m w) as [w' [x|e|]]; cbn in *; intuition auto.
Qed.

Lemma tri_ret {A} (F : Server E -> Prop) (x : A) (G : A -> Server E -> Prop) R : (forall s, F s -> G x s) -> triple F (mret x) G R.
Proof. intros H w (H1 & H2 & H3 & H4). cbn. repeat split; auto. Qed.

Lemma tri_fail {A} (F R : Server E -> Prop) e (G : A -> Server E -> Prop) : (forall s, F s -> R s) -> triple F (fail e) G R.
Proof. intros H w (H1 & H2 & H3 & H4). cbn. repeat split; auto. Qed.

Lemma tri_bind {A B} F (m : M (Server E) A) (f : A -> M (Server E) B) G H R :
  triple F m G R -> (forall x, triple (G x) (f x) H R) -> triple F (m ≫= f) H R.
Proof.
  intros Hm Hf w Hw. specialize (Hm w Hw). unfold mbind, M_bind. destruct (m w) as [w' [x|e|]]; cbn in *; [|done..].
  apply (Hf x w' Hm).
Qed.

Lemma tri_seq {A B} F F' (m : M (Server E) A) (f : A -> M (Server E) B) G H R R' :
  triple F m G R -> (forall s, F' s -> F s) -> (forall s, R s -> R' s) -> (forall x, triple (G x) (f x) H R') ->
  triple F' (m ≫= f) H R'.
Proof. intros Hm HF HR' Hf. eapply tri_bind; [|exact Hf]. by apply (tri_conseq _ _ _ _ _ _ _ Hm). Qed.

Lemma tri_assume {A} (phi : Prop) F (m : M (Server E) A) G R :
  (phi -> triple F m G R) -> triple (fun s => phi /\ F s) m G R.
Proof. intros H w (H1 & H2 & H3 & H4 & H5). by apply (H H4 w). Qed.

Lemma tri_attempt {A} F (m : M (Server E) A) G H (R R' : Server E -> Prop) :
  triple F m G R -> (forall x s, G x s -> H (Ok x) s) -> (forall e s, R s -> H (Err e) s) -> (forall s, R s -> R' s) ->
  triple F (attempt m) H R'.
Proof.
  intros Hm HG HE HR' w Hw. specialize (Hm w Hw). unfold attempt, state in *.
  destruct (m w) as [w' [x|e|]]; cbn in *; intuition auto.
Qed.

Lemma tri_lift {A} (F : Server E -> Prop) (r : res err A) : triple F (lift r) (fun x s => r = Ok x /\ F s) F.
Proof. intros w (H1 & H2 & H3 & H4). unfold lift. destruct r; cbn; repeat split; auto. Qed.

Lemma state_env F w n k : stable F -> state F w -> state F (Build_World (env X n (eng w)) (st w) k).
Proof.
  intros HF (H1 & H2 & H3 & H4). assert (base (eng w)) as Hb by (split; auto).
  unfold state. cbn. rewrite (env_pins HR). repeat split; auto. by apply (env_honest HR).
Qed.

Lemma tri_call {A} F (f : nat -> Server E -> Server E * res err A) G (R : Server E -> Prop) :
  stable F ->
  (forall n s, base s -> F s -> pinned (f n s).1 = pinned s /\ honest (f n s).1 /\ R (f n s).1 /\
     (forall x, (f n s).2 = Ok x -> G x (f n s).1)) ->
  triple F (engine_op X f) G R.
Proof.
  intros HF Hf w Hw. apply (state_env F w (tick w) O HF) in Hw as (H1 & H2 & H3 & H4). cbn in *.
  destruct (Hf (tick w) _ (conj H3 (pins_key _ H2)) H4) as (Ep & Hh & Hr & Ho). unfold engine_op.
  destruct (f (tick w) (env X (tick w) (eng w))) as [s r]. cbn in *.
  destruct (crash X (tick w)); [|destruct r]; cbn; repeat split; auto; try (cbn; by rewrite Ep); by apply Ho.
Qed.

Lemma tri_ask {A} F (f : nat -> res err A) : stable F -> triple F (ask X f) (fun _ => F) F.
Proof.
  intros HF w Hw. apply (state_env F w (tick w) (S (tick w)) HF) in Hw. unfold ask.
  destruct (crash X (tick w)); [|destruct (f (tick w))]; exact Hw.
Qed.

Lemma tri_store_read {A} F (f : Tables -> A) : stable F -> triple F (store_read X f) (fun x s => x = f t /\ F s) F.
Proof.
  intros HF w Hw. apply (state_env F w (tick w) (S (tick w)) HF) in Hw as (H1 & H2 & H3 & H4). unfold store_read.
  destruct (crash X (tick w)); [|destruct (store_fault X (tick w))]; repeat split; auto. cbn in *. by rewrite H1.
Qed.

(** *** Calls to the server *)

(** a name that a call may write without making the table lie *)
Definition free_to_write (x : string) (s : Server E) : Prop := own x \/ (x = name key /\ norow s).

Lemma honest_write (e' : E) x s :
  free_to_write x s -> honest s ->
  (forall y, y <> x -> (forall k, used k -> y = name k -> stored e' y = stored (server s) y)) ->
  honest (with_server e' s).
Proof.
  intros Hx Hh Hf r Hr. destruct (Hh r Hr) as (k & Hk & Hv & Hc). exists k. split; [done|]. split; [done|].
  intros Hl c. change (server (with_server e' s)) with e'. destruct (decide (name k = x)) as [<-|Hne]; [|rewrite (Hf _ Hne k Hk eq_refl); by apply Hc].
  destruct Hx as [Ho|[E1 Hn]]; [by destruct (name_own HS k Hk)|].
  apply (name_inj HS) in E1; [|done|apply (set_key HS)]. subst k.
  destruct (proj1 (row_of_None (fpo key) (snaps s)) Hn). rewrite <- (v_fp _ _ Hv). by apply list_elem_of_fmap_2.
Qed.

Lemma tri_probe {A} F (f : nat -> E -> res err A) :
  stable F -> triple F (probe X f) (fun x s => F s /\ exists n, f n (server s) = Ok x) F.
Proof.
  intros HF. apply tri_call; [done|]. intros n [e p q] [Hh _] Hs. cbn. repeat split; auto. by exists n.
Qed.

(** the names the theorems speak of *)
Definition relevant (x : string) : Prop := own x \/ exists k, used k /\ x = name k.

(** facts that a write to [x] does not touch *)
Definition unless (x : string) (F : Server E -> Prop) : Prop :=
  forall e s, (forall y, y <> x -> relevant y -> stored e y = stored (server s) y) -> F s -> F (with_server e s).

Lemma unless_true x : unless x (fun _ => True).
Proof. done. Qed.
Lemma unless_norow x : unless x norow.
Proof. by intros e s _ H. Qed.
Lemma unless_pin x f : unless x (pin_of f).
Proof. by intros e s _ H. Qed.
Lemma unless_copy x k : used k -> x <> name k -> unless x (true_copy k).
Proof.
  intros Hk Hx e s Hf Ht c. change (server (with_server e s)) with e. rewrite Hf; [apply Ht|done|right; by exists k].
Qed.
Lemma unless_at x y v : own y -> y <> x -> unless x (at_ y v).
Proof. intros Hy Hne e s Hf Ht. unfold at_. change (server (with_server e s)) with e. rewrite Hf; [done..|by left]. Qed.
Lemma unless_filled x l : (forall y, y ∈ l -> own y /\ y <> x) -> unless x (filled l).
Proof. intros Hl e s Hf Ht y Hy. destruct (Hl y Hy). by apply (unless_at x y); auto. Qed.
Lemma unless_and x F G : unless x F -> unless x G -> unless x (fun s => F s /\ G s).
Proof. intros HF HG e s Hf [? ?]. split; eauto. Qed.

(** a write to [x]; [P] holds before, [F] is kept *)
Lemma tri_write P F (f : nat -> E -> E * res err unit) x v :
  (forall s, P s -> F s /\ free_to_write x s) -> stable P -> unless x F ->
  (forall n e y, y <> x -> relevant y -> stored (f n e).1 y = stored e y) ->
  (forall n s, P s -> (f n (server s)).2 = Ok tt -> stored (f n (server s)).1 x = v) ->
  triple P (on_server X f) (fun _ s => F s /\ at_ x v s) F.
Proof.
  intros HP Hst HF Hfr Hok. apply tri_call; [done|]. intros n s [Hh Hp] Hs. destruct (HP s Hs) as [Hs' Hw].
  specialize (Hfr n (server s)). specialize (Hok n s Hs). destruct (f n (server s)) as [e' r] eqn:E1. cbn in *.
  split; [done|]. split; [|split; [by apply HF|]].
  - apply (honest_write e' x s); auto. intros y Hy k Hk ->. apply Hfr; [done|]. right. by exists k.
  - intros [] E2. split; [by apply HF|]. apply Hok, E2.
Qed.

(** *** Calls to the snapshots table *)
Definition off_table (F : Server E -> Prop) : Prop := forall s l, F s -> F (with_snaps l s).

Lemma tri_on_snaps {A} F (f : Z -> Table -> Table * res SnapshotStore.error A) (G : A -> Server E -> Prop) R :
  stable F ->
  (forall s, F s -> R s) ->
  (forall i s, honest s -> F s -> honest (with_snaps (f i (snaps s)).1 s) /\ R (with_snaps (f i (snaps s)).1 s) /\
     (forall x, (f i (snaps s)).2 = Ok x -> G x (with_snaps (f i (snaps s)).1 s))) ->
  triple F (on_snaps X f) G R.
Proof.
  intros HF HR0 Hf. apply tri_call; [done|]. intros n s [Hh Hp] Hs. destruct (store_fault X n); cbn.
  { split; [done|]. split; [by destruct s|]. split; [|done]. apply HR0. by destruct s. }
  destruct (Hf (now X n) s Hh Hs) as (H1 & H2 & H3). split; [done|]. split; [done|]. split; [done|].
  intros x. destruct (f (now X n) (snaps s)) as [t' [y|e]]; cbn in *; [|done]. intros [= <-]. by apply H3.
Qed.

Lemma honest_filter s (p : Row -> bool) : honest s -> honest (with_snaps (List.filter p (snaps s)) s).
Proof. intros Hh r Hr. cbn in Hr. apply elem_of_filter_bool in Hr as [_ Hr]. exact (Hh r Hr). Qed.

Lemma tri_forget F f : stable F -> (forall s, F s -> F (with_snaps (DeleteSnapshot f (snaps s)) s)) ->
  triple F (forget X f) (fun _ s => F s /\ row_of f (snaps s) = None) F.
Proof.
  intros HF Hd. apply tri_on_snaps; [done|done|]. intros i s Hh Hs. cbn. split; [by apply honest_filter|].
  split; [by apply Hd|]. intros [] _. split; [by apply Hd|]. apply row_of_None. unfold DeleteSnapshot.
  intros (r & -> & Hr)%list_elem_of_fmap. apply elem_of_filter_bool in Hr as [Hr _]. by rewrite String.eqb_refl in Hr.
Qed.

Lemma honest_upsert new k s :
  honest s -> used k -> vouches k new -> (row_engine new = label -> true_copy k s) -> honest (with_snaps (upsert new (snaps s)) s).
Proof.
  intros Hh Hk Hv Hc r Hr. cbn in Hr. unfold upsert in Hr. destruct (row_of (fingerprint new) (snaps s)) as [o|] eqn:E1.
  - apply list_elem_of_fmap in Hr as (old & -> & Ho). destruct (Hh old Ho) as (k0 & Hk0 & Hv0 & Hc0).
    destruct (String.eqb_spec (fingerprint old) (fingerprint new)) as [Ef|]; [|by exists k0].
    rewrite (v_fp _ _ Hv0), (v_fp _ _ Hv) in Ef. apply (fp_inj HS) in Ef; [|done..]. subst k0.
    assert (row_engine old = row_engine new) as Ee by (by rewrite (v_engine _ _ Hv0), (v_engine _ _ Hv)).
    exists k. split; [done|]. split; [|done]. destruct Hv0, Hv. split; cbn; try done. intros Hl. apply v_name1. congruence.
  - apply elem_of_app in Hr as [Hr| ->%list_elem_of_singleton]; [by apply Hh|]. exists k. split; [done|]. split; [done|]. exact Hc.
Qed.

Lemma tri_record F k :
  used k -> kEngine k = dbEngine d -> kEngineVersion k = aVersion a ->
  stable F -> (forall s new, fingerprint new = fpo k -> F s -> F (with_snaps (upsert new (snaps s)) s)) ->
  (forall s, F s -> true_copy k s) ->
  triple F (recordSnapshot blake3 repos X a k (name k) (vec k)) (fun _ => F) F.
Proof.
  intros Hk He Hv HF Ho Hc. apply tri_on_snaps; [done|done|]. intros i s Hh Hs. unfold RecordSnapshot.
  set (new := insert_row i _). assert (vouches k new) as Hnew.
  { split; cbn; try done; try congruence. by destruct (String.eqb_spec (kDumpHashHex k) "") as [->|]. }
  destruct (match repo_id new with Some id => _ | None => _ end); cbn.
  - split; [exact Hh|]. split; [by destruct s|done].
  - split; [|split; [by apply Ho|intros _ _; by apply Ho]]. apply (honest_upsert new k); auto.
Qed.

(** *** Copies to many targets *)
Lemma tri_retry F fn (G : Server E -> Prop) : stable F -> triple F fn (fun _ => G) F -> triple F (retryTransient X fn) (fun _ => G) F.
Proof.
  intros HF Hf. unfold retryTransient. generalize transientRetries. intros left. induction left as [|left IH]; cbn [retry_loop].
  all: eapply tri_bind; [by apply tri_ask|intros u0]; eapply tri_bind;
    [apply (tri_attempt F fn (fun _ => G) (fun r => match r with Ok _ => G | Err _ => F end) F F Hf); auto|].
  all: intros [u|e]; [by apply tri_ret|]; destruct (_ || _); [by apply tri_fail|].
  - by apply tri_fail.
  - eapply tri_bind; [by apply tri_ask|intros u1; exact IH].
Qed.

Section Fan.
Variable P : list string -> Server E -> Prop.
Hypothesis P_nil : forall D s, P D s -> P [] s.
Variable op : string -> M (Server E) unit.

Definition covered (l D : list string) (s : Server E) : Prop := exists D', P D' s /\ forall x, x ∈ l \/ x ∈ D -> x ∈ D'.

Lemma tri_run_all l D first :
  (forall x D, x ∈ l -> x ∉ D -> triple (P D) (op x) (fun _ => P (x :: D)) (P D)) ->
  NoDup l -> (forall x, x ∈ l -> x ∉ D) ->
  triple (P D) (run_all (map op l) first)
    (fun res s => match res with None => first = None /\ covered l D s | Some _ => P [] s end) (P []).
Proof.
  revert D first. induction l as [|x l IH]; intros D first Hop Hnd HD; cbn [map run_all].
  { apply tri_ret. intros s Hs. destruct first; [by eapply P_nil|]. split; [done|]. exists D. split; [done|]. set_solver. }
  apply NoDup_cons in Hnd as [Hx Hnd]. assert (forall y D0, y ∈ l -> y ∉ D0 -> triple (P D0) (op y) (fun _ => P (y :: D0)) (P D0)) as Hop'.
  { intros y D0 Hy. apply Hop. by right. }
  eapply tri_bind.
  - apply (tri_attempt (P D) (op x) (fun _ => P (x :: D)) (fun r => match r with Ok _ => P (x :: D) | Err _ => P D end) (P D) (P []));
      [apply Hop; [left|apply HD; left]|done|done|apply P_nil].
  - intros [u|e].
    + eapply tri_conseq; [apply (IH (x :: D) first Hop' Hnd)| | |done].
      * intros y Hy [->|Hin]%elem_of_cons; [done|]. apply (HD y); [by right|done].
      * done.
      * intros [e|] s Hs; [done|]. destruct Hs as [Hf (D' & HD' & Hall)]. split; [done|]. exists D'. split; [done|]. set_solver.
    + eapply tri_conseq; [apply (IH D (match first with None => Some e | _ => first end) Hop' Hnd)| | |done].
      * intros y Hy. apply HD. by right.
      * done.
      * intros [e'|] s Hs; [done|]. destruct Hs as [Hf _]. by destruct first.
Qed.

Lemma tri_fan_out l D :
  (forall D, stable (P D)) ->
  (forall x D, x ∈ l -> x ∉ D -> triple (P D) (op x) (fun _ => P (x :: D)) (P D)) ->
  NoDup l -> (forall x, x ∈ l -> x ∉ D) ->
  triple (P D) (fan_out sched X op l) (fun _ => covered l D) (P []).
Proof.
  intros Hst Hop Hnd HD. unfold fan_out. apply (tri_bind _ _ _ (fun order s => order ≡ₚ l /\ P D s)).
  - apply (tri_conseq (P D) (P D) _ (fun order s => order ≡ₚ l /\ P D s) _ (P D) _); [|done|done|apply P_nil].
    intros w Hw. apply (state_env (P D) w (tick w) (S (tick w)) (Hst D)) in Hw. unfold ask.
    destruct (crash X (tick w)); cbn; [done|]. destruct Hw as (H1 & H2 & H3 & H4). split; [done|]. split; [done|]. split; [done|].
    split; [apply (set_sched HS)|done].
  - intros order. apply tri_assume. intros Hp. eapply tri_bind.
    + apply (tri_run_all order D None).
      * intros x D0 Hx. apply Hop. by rewrite <- Hp.
      * by rewrite Hp.
      * intros x Hx. apply HD. by rewrite <- Hp.
    + intros [e|]; cbn; [by apply tri_fail|]. apply tri_ret. intros s [_ (D' & HD' & Hall)]. exists D'. split; [done|].
      intros x Hx. apply Hall. by rewrite Hp.
Qed.
End Fan.

(** the template holds a full build of the key, and so do the targets done *)
Definition copying (D : list string) (s : Server E) : Prop :=
  (forall x, x ∈ D -> own x) /\ true_copy key s /\ filled D s.

Lemma stable_copying D : stable (copying D).
Proof.
  intros n s Hb (HD & Ht & Hf). split; [done|]. split; [by apply stable_own_copy|by apply stable_filled].
Qed.

Lemma own_not_key x k : used k -> own x -> x <> name k.
Proof. intros Hk Ho ->. by apply (name_own HS k). Qed.

Lemma unless_copying x D : own x -> x ∉ D -> unless x (copying D).
Proof.
  intros Ho Hx e s Hfr (HD & Ht & Hf). split; [done|]. split.
  - apply (unless_copy x key); auto; [apply (set_key HS)|apply own_not_key; [apply (set_key HS)|done]].
  - apply (unless_filled x D); auto. intros y Hy. split; [auto|congruence].
Qed.

Lemma not_spare k x : used k -> relevant x -> ~ spare_of (name k) x.
Proof. intros Hk [Ho|(k' & Hk' & ->)]; [by apply (spare_own HS)|by apply (spare_name HS)]. Qed.

(** a copy of a template to one of this worktree's names *)
Lemma tri_copy also op P F k x :
  copies also op -> (forall s y, also s y -> spare_of s y) -> used k -> own x ->
  (forall s, P s -> F s /\ true_copy k s) -> stable P -> unless x F ->
  triple P (on_server X (fun n => op n (name k) x)) (fun _ s => F s /\ at_ x (Some (ref k)) s) F.
Proof.
  intros Hop Halso Hk Hx HP Hst HF. apply tri_write; [|done|done|..].
  - intros s Hs. split; [by apply HP|by left].
  - intros n e y Hy Hr. apply (copy_frame _ _ Hop); [done|]. intros Hsp%Halso. by apply (not_spare k y).
  - intros n s Hs Hok. destruct (copy_ok _ _ Hop n (name k) x (server s)) as [[c Hc] E1]; [|done|].
    + intros E1. by apply (own_not_key x k).
    + rewrite E1, Hc. f_equal. by apply (proj2 (HP s Hs)).
Qed.

Lemma tri_fan_clones also op tgts D :
  copies also op -> (forall s y, also s y -> spare_of s y) -> NoDup tgts ->
  (forall x, x ∈ tgts -> own x /\ x ∉ D) -> (forall x, x ∈ D -> own x) ->
  triple (fun s => true_copy key s /\ filled D s) (fanOutClones sched X op (name key) tgts)
    (fun _ => filled (tgts ++ D)) (fun _ => True).
Proof.
  intros Hop Halso Hnd Ht HD. unfold fanOutClones. destruct tgts as [|c tgts].
  { apply tri_ret. by intros s [_ Hf]. }
  set (l := c :: tgts) in *. eapply tri_conseq; [apply (tri_fan_out copying)|..].
  - intros D0 s (_ & Hc & _). split; [by intros ? ?%elem_of_nil|]. split; [done|]. by intros ? ?%elem_of_nil.
  - apply stable_copying.
  - intros x D0 Hx HxD. assert (own x) as Ho by (by apply Ht). apply tri_retry; [apply stable_copying|].
    eapply tri_conseq; [apply (tri_copy also op (copying D0) (copying D0) key x Hop Halso (set_key HS) Ho)|done| |done].
    + intros s Hs. split; [done|]. apply Hs.
    + apply stable_copying.
    + by apply unless_copying.
    + intros _ s [(H1 & H2 & H3) H4]. split; [by intros y [->|Hy]%elem_of_cons; [|apply H1]|]. split; [done|].
      intros y [->|Hy]%elem_of_cons; [done|by apply H3].
  - done.
  - intros x Hx. by apply Ht.
  - intros s [H1 H2]. by split.
  - intros _ s (D' & (H1 & H2 & H3) & Hall) x Hx. apply H3, Hall. set_solver.
  - done.
Qed.

(** *** The end of a build *)
Definition finished (cl : list string) (s : Server E) : Prop := cl = clones /\ filled (source :: clones) s.
Definition built (s : Server E) : Prop := norow s /\ at_ source (Some (ref key)) s.

Lemma own_source : own source.
Proof. left. Qed.
Lemma own_clone x : x ∈ clones -> own x /\ x ∉ [source].
Proof.
  intros Hx. split; [by right|]. intros ->%list_elem_of_singleton.
  by pose proof (set_distinct HS) as [? _]%NoDup_cons.
Qed.
Lemma clones_distinct : NoDup clones.
Proof. by pose proof (set_distinct HS) as [_ ?]%NoDup_cons. Qed.
Lemma filled_source s : filled [source] s <-> at_ source (Some (ref key)) s.
Proof. split; [intros H; apply H; left|by intros H x ->%list_elem_of_singleton]. Qed.

Lemma stable_built : stable built.
Proof. apply stable_both; [apply stable_norow|apply stable_at, own_source]. Qed.

Lemma tri_create F : stable F -> (forall s, F s -> built s) -> unless (name key) F ->
  triple F (on_server X (fun n => SnapshotCreate n source (name key))) (fun _ s => F s /\ at_ (name key) (Some (ref key)) s) F.
Proof.
  intros Hst HF Hu. pose proof (own_not_key source key (set_key HS) own_source) as Hne. apply tri_write; [|done|done|..].
  - intros s Hs. split; [done|]. right. split; [done|]. by apply HF.
  - intros n e y Hy _. by apply (copy_frame _ _ create_copies); [|intros []].
  - intros n s Hs Hok. destruct (copy_ok _ _ create_copies n source (name key) (server s) Hne Hok) as [_ E1].
    rewrite E1. apply (HF s Hs).
Qed.

Lemma unless_built : unless (name key) built.
Proof.
  apply unless_and; [apply unless_norow|apply unless_at; [apply own_source|]]. apply own_not_key; [apply (set_key HS)|apply own_source].
Qed.

Lemma tri_record_key D :
  (forall x, x ∈ D -> own x) ->
  triple (fun s => true_copy key s /\ filled D s) (recordSnapshot blake3 repos X a key (name key) (aInputs a))
    (fun _ s => true_copy key s /\ filled D s) (fun s => true_copy key s /\ filled D s).
Proof.
  intros HD. rewrite <- (set_vec HS). apply tri_record; [apply (set_key HS)|apply (set_engine HS)|apply (set_version HS)|..].
  - apply stable_both; [apply stable_own_copy|by apply stable_filled].
  - by intros s new _ H.
  - by intros s [].
Qed.

Lemma created_copy s : built s /\ at_ (name key) (Some (ref key)) s -> true_copy key s /\ filled [source] s.
Proof. intros [[_ Hs] Hn]. split; [intros c Hc; unfold at_ in Hn; congruence|by apply filled_source]. Qed.

Lemma only_source x : x ∈ [source] -> own x.
Proof. intros ->%list_elem_of_singleton. apply own_source. Qed.

Lemma covers_all s : filled (clones ++ [source]) s -> filled (source :: clones) s.
Proof. intros H x Hx. apply H. set_solver. Qed.

Lemma fanout_copies : copies nothing_else (fanoutRestore fam).
Proof. destruct fam; [apply staged_copies|apply restore_copies]. Qed.

Lemma tri_snapshotRecordFanout :
  triple built (snapshotRecordFanout blake3 repos sched X fam a) finished (fun _ => True).
Proof.
  unfold snapshotRecordFanout.
  eapply tri_seq; [apply (tri_create built stable_built); [done|apply unless_built]|done|done|intros u].
  eapply tri_seq; [apply (tri_record_key [source] only_source)|apply created_copy|done|intros u0].
  eapply tri_seq; [apply tri_lift|intros s Hs; exact Hs|done|intros cl]. apply tri_assume. rewrite (set_clones HS). intros [= <-].
  eapply tri_seq; [apply (tri_fan_clones nothing_else _ clones [source] fanout_copies);
    [done|apply clones_distinct|apply own_clone|apply only_source]|done|done|intros u1].
  apply tri_ret. intros s Hs. split; [done|by apply covers_all].
Qed.

(** *** A build from nothing *)
Lemma tri_source P (f : nat -> E -> E * res err unit) v :
  (forall s, P s -> norow s) -> stable P ->
  (forall n e y, y <> source -> stored (f n e).1 y = stored e y) ->
  (forall n s, P s -> (f n (server s)).2 = Ok tt -> stored (f n (server s)).1 source = v) ->
  triple P (on_server X f) (fun _ s => norow s /\ at_ source v s) norow.
Proof.
  intros HP Hst Hf Hok. apply tri_write; [|done|apply unless_norow|auto|done].
  intros s Hs. split; [auto|]. left. apply own_source.
Qed.

(** the source holds [v], and the key has no row *)
Definition source_at (v : option Data) (s : Server E) : Prop := norow s /\ at_ source v s.
Lemma stable_source v : stable (source_at v).
Proof. apply stable_both; [apply stable_norow|apply stable_at, own_source]. Qed.

Lemma tri_run_if b s c :
  triple (source_at (Some c)) (run_if X a b s) (fun _ => source_at (Some (steps_of b s c))) norow.
Proof.
  destruct b; cbn; [|apply tri_ret; done]. apply tri_source; [by intros ? []|apply stable_source|..].
  - intros n e y. apply step_frame.
  - intros n s0 [_ Hs] Hok. by apply step_ok.
Qed.

Lemma tri_load_all l c :
  triple (source_at (Some c)) (load_all X a l) (fun _ => source_at (Some (foldl (fun c f => loaded (aFiles a) f c) c l))) norow.
Proof.
  revert c. induction l as [|f l IH]; intros c; cbn [load_all foldl]; [by apply tri_ret|].
  eapply tri_seq; [apply (tri_source (source_at (Some c)) _ (Some (loaded (aFiles a) f c)))|done|done|intros u; apply IH].
  - by intros ? [].
  - apply stable_source.
  - intros n e y. apply load_frame.
  - intros n s [_ Hs] Hok. by apply load_ok.
Qed.

Lemma tri_query {A} F (f : Table -> res SnapshotStore.error A) :
  stable F -> triple F (query X f) (fun x s => F s /\ f (snaps s) = Ok x) F.
Proof.
  intros HF. apply tri_on_snaps; [done|done|]. intros i s Hh Hs. cbn. destruct s as [e l p]. split; [done|]. split; [done|].
  by intros x E1.
Qed.

Lemma norow_upsert new s : fingerprint new <> fpo key -> norow s -> norow (with_snaps (upsert new (snaps s)) s).
Proof.
  intros Hne Hn. change (row_of (fpo key) (upsert new (snaps s)) = None). unfold norow in Hn. unfold upsert. destruct (row_of (fingerprint new) (snaps s)).
  - rewrite (row_of_update (fun old => update_row old new)) by done. by destruct (String.eqb_spec (fpo key) (fingerprint new)).
  - rewrite row_of_app_new by done. destruct (String.eqb_spec (fingerprint new) (fpo key)); [done|done].
Qed.

Lemma tri_create_dump :
  dbDump d <> [] -> dbMigrate d = true ->
  triple (source_at (Some (ref dk))) (on_server X (fun n => SnapshotCreate n source (name dk)))
    (fun _ s => source_at (Some (ref dk)) s /\ true_copy dk s) (source_at (Some (ref dk))).
Proof.
  intros Hd Hm. pose proof (own_not_key source dk (set_dump_key HS) own_source) as Hne.
  apply tri_call; [apply stable_source|]. intros n s [Hh _] [Hn Hs].
  pose proof (fun y Hy => copy_frame _ _ create_copies n source (name dk) (server s) y Hy (fun F : False => F)) as Hfr.
  pose proof (copy_ok _ _ create_copies n source (name dk) (server s) Hne) as Hok.
  pose proof (dump_atomic HS Hd Hm n (server s)) as Hat.
  destruct (SnapshotCreate n source (name dk) (server s)) as [e' r] eqn:E1. cbn in Hfr, Hok, Hat |- *.
  assert (source_at (Some (ref dk)) (with_server e' s)) as Hsrc by (split; [done|by unfold at_; cbn; rewrite Hfr]).
  assert (true_copy dk s -> true_copy dk (with_server e' s)) as Hcopy.
  { intros Ht c. change (server (with_server e' s)) with e'. destruct r as [[]|x].
    - destruct (Hok eq_refl) as [_ ->]. rewrite Hs. congruence.
    - destruct (Hat x eq_refl) as [E2|E2]; rewrite E2; [apply Ht|done]. }
  split; [done|]. split; [|split; [done|intros [] ->; split; [done|]]].
  - intros row Hr. destruct (Hh row Hr) as (k & Hk & Hv & Hc). exists k. split; [done|]. split; [done|]. intros Hl.
    specialize (Hc Hl). destruct (decide (name k = name dk)) as [E2|E2].
    + apply (name_inj HS) in E2; [|done|apply (set_dump_key HS)]. subst k. by apply Hcopy.
    + intros c. change (server (with_server e' s)) with e'. rewrite Hfr by done. apply Hc.
  - intros c. change (server (with_server e' s)) with e'. destruct (Hok eq_refl) as [_ ->]. rewrite Hs. congruence.
Qed.

Lemma tri_seedDumpOnly n c :
  (n <> 0 -> dbMigrate d = true -> dbDump d <> [] /\ c = ref dk) ->
  triple (source_at (Some c)) (seedDumpOnlyTemplate blake3 repos X a n) (fun _ => source_at (Some c)) norow.
Proof.
  intros Hc. unfold seedDumpOnlyTemplate. destruct (Nat.eqb_spec n 0) as [|Hn]; cbn [orb]; [by apply tri_ret|].
  destruct (dbMigrate d) eqn:Hm; cbn [negb]; [|by apply tri_ret]. destruct (Hc Hn eq_refl) as [Hd ->].
  assert (forall s, source_at (Some (ref dk)) s -> norow s) as Hnr by (by intros ? []).
  eapply tri_seq; [apply tri_query, stable_source|intros s Hs; exact Hs|done|intros rec].
  apply (tri_bind _ _ _ (fun _ => source_at (Some (ref dk)))).
  { destruct rec as [rec|]; [|apply tri_ret; by intros s []].
    eapply tri_seq; [apply (tri_attempt (source_at (Some (ref dk))) _ (fun _ => source_at (Some (ref dk)))
      (fun _ => source_at (Some (ref dk))) (source_at (Some (ref dk))) norow)| by intros s [] |done|intros r; by apply tri_ret]; try done.
    eapply tri_conseq; [apply tri_probe, stable_source|done| |done]. by intros x s []. }
  intros [|]; [by apply tri_ret|].
  eapply tri_seq; [apply (tri_attempt (source_at (Some (ref dk))) _ (fun _ s => source_at (Some (ref dk)) s /\ true_copy dk s)
      (fun r s => source_at (Some (ref dk)) s /\ (r = Ok tt -> true_copy dk s)) (source_at (Some (ref dk))) norow)|done|done|].
  - by apply tri_create_dump.
  - by intros u s [??].
  - by intros e s Hs.
  - done.
  - intros [[]|e]; [|apply tri_ret; by intros s []].
    set (G := fun s => source_at (Some (ref dk)) s /\ true_copy dk s).
    apply (tri_conseq G _ _ (fun _ => G) _ G); [|intros s [? Ht]; split; [done|by apply Ht]|by intros u s []|by intros s [[]]].
    rewrite <- (set_dump_vec HS). apply tri_record; [apply (set_dump_key HS)|done|done|..].
    + apply stable_both; [apply stable_source|apply stable_dump].
    + intros s new Hf [[H1 H2] H3]. split; [|done]. split; [|done]. apply norow_upsert; [|done]. rewrite Hf. intros E1.
      apply (set_keys HS). symmetry. by apply (fp_inj HS); [apply (set_dump_key HS)|apply (set_key HS)|].
    + by intros s [].
Qed.

Lemma dumps_nonempty l : dumpsReady (aPresent a) (dbDump d) = Ok l -> l <> [] -> dbDump d <> [].
Proof. destruct (dbDump d); [|done]. cbn. congruence. Qed.

Lemma tri_coldBuildSteps : triple norow (coldBuildSteps blake3 repos X fam a) (fun _ => built) (fun _ => True).
Proof.
  unfold coldBuildSteps.
  eapply tri_seq; [apply (tri_source norow _ None); [done|apply stable_norow|intros n e y; apply drop_frame|intros n s _; apply drop_gone]
    |done|done|intros u].
  eapply tri_seq; [apply (tri_source (source_at None) _ (Some empty_db)); [by intros ? []|apply stable_source
    |intros n e y; apply ensure_frame|intros n s [_ Hs] Hok; by apply ensure_empty]|done|done|intros u0].
  eapply tri_seq; [apply tri_lift|intros s Hs; exact Hs|done|intros l]. apply tri_assume. intros Hl.
  apply (tri_bind _ _ _ (fun _ => source_at (Some empty_db))).
  { assert (triple (source_at (Some empty_db)) (probe X (fun n => OpenScoped n source)) (fun _ => source_at (Some empty_db)) (fun _ => True)) as Hp.
    { eapply tri_conseq; [apply tri_probe, stable_source|done|by intros x s []|done]. }
    destruct fam, l; try exact Hp; by apply tri_ret. }
  intros u1. eapply tri_seq; [apply tri_load_all|done|done|intros u2]. fold (dumped l).
  eapply tri_seq; [apply (tri_seedDumpOnly (length l) (dumped l))|done|done|intros u3].
  { intros Hn Hm. assert (l <> []) as Hne by (by destruct l). split; [by apply (dumps_nonempty l)|]. by apply (ref_dump HS). }
  eapply tri_seq; [apply tri_run_if|done|done|intros u4].
  eapply tri_conseq; [apply tri_run_if|done| |done]. intros u5 s. by rewrite (ref_cold HS l Hl).
Qed.

(** *** The two ways a cold build ends *)
Definition merging (D : list string) (s : Server E) : Prop :=
  built s /\ (name key ∈ D -> true_copy key s) /\ (forall x, x ∈ D -> x ∈ clones -> at_ x (Some (ref key)) s).

Lemma clone_ne x : x ∈ clones -> own x /\ x <> source /\ x <> name key.
Proof.
  intros Hx. destruct (own_clone x Hx) as [Ho Hs]. split; [done|]. split; [|by apply own_not_key; [apply (set_key HS)|]].
  intros ->. apply Hs. left.
Qed.

Lemma stable_merging D : stable (merging D).
Proof.
  intros n s Hb (Hs & Ht & Hc). split; [by apply stable_built|]. split; [intros Hk; by apply stable_own_copy; auto|].
  intros x Hx Hcl. apply stable_at; auto. by apply clone_ne.
Qed.

Lemma unless_merging x D : x <> source -> x ∉ D -> unless x (merging D).
Proof.
  intros Hxs Hx e s Hf (Hs & Ht & Hc). split; [|split].
  - apply (unless_and x norow (at_ source (Some (ref key)))); auto; [apply unless_norow|apply unless_at; [apply own_source|congruence]].
  - intros Hk. apply (unless_copy x key); auto; [apply (set_key HS)|congruence].
  - intros y Hy Hcl. apply (unless_at x y); auto; [by apply clone_ne|congruence].
Qed.

Lemma tri_merge_step x D :
  x ∈ name key :: clones -> x ∉ D ->
  triple (merging D) (on_server X (fun n => SnapshotCreate n source x)) (fun _ => merging (x :: D)) (merging D).
Proof.
  intros Hx HD. assert (x <> source /\ (own x \/ x = name key)) as [Hne Hfree].
  { apply elem_of_cons in Hx as [->|Hx]; [|destruct (clone_ne x Hx) as (? & ? & _); by auto].
    split; [|by right]. intros E1. by apply (own_not_key source key (set_key HS) own_source). }
  eapply tri_conseq; [apply (tri_write (merging D) (merging D) _ x (Some (ref key)))|done| |done].
  - intros s Hs. split; [done|]. destruct Hfree as [|E1]; [by left|right]. split; [done|]. apply Hs.
  - apply stable_merging.
  - by apply unless_merging.
  - intros n e y Hy _. by apply (copy_frame _ _ create_copies); [|intros []].
  - intros n s ((_ & Hs) & _) Hok. destruct (copy_ok _ _ create_copies n source x (server s)) as [_ ->]; [congruence|done|exact Hs].
  - intros u s [(Hs & Ht & Hc) Hxc]. split; [done|]. split.
    + intros [E1|Hk]%elem_of_cons; [|by apply Ht]. intros c Hcc. rewrite E1 in Hcc. unfold at_ in Hxc. congruence.
    + intros y [->|Hy]%elem_of_cons Hcl; [done|by apply Hc].
Qed.

Lemma tri_merged :
  triple built (mysqlMergedColdFanout blake3 repos sched X a clones) (fun _ => filled (source :: clones)) (fun _ => True).
Proof.
  unfold mysqlMergedColdFanout. eapply tri_seq; [apply (tri_fan_out merging)|..].
  - intros D s (Hs & _ & _). split; [done|]. by split; [intros ?%elem_of_nil|intros ? ?%elem_of_nil].
  - apply stable_merging.
  - intros x D. apply tri_merge_step.
  - apply NoDup_cons. split; [intros Hx; by apply clone_ne in Hx as (_ & _ & ?)|apply clones_distinct].
  - intros x _. apply not_elem_of_nil.
  - intros s Hs. split; [done|]. by split; [intros ?%elem_of_nil|intros ? ?%elem_of_nil].
  - done.
  - intros u. eapply tri_conseq; [apply (tri_record_key (source :: clones))|..]; [done| |by intros u0 s []|done].
    intros s (D & ([Hn Hs] & Ht & Hc) & Hall). split; [apply Ht, Hall; left; left|].
    intros x [->|Hx]%elem_of_cons; [done|]. apply Hc; [|done]. apply Hall. left. by right.
Qed.

Lemma tri_template_first :
  triple built (mysqlSnapshotAndRecord blake3 repos X a) (fun _ s => true_copy key s /\ filled [source] s) (fun _ => True).
Proof.
  unfold mysqlSnapshotAndRecord. eapply tri_seq; [apply (tri_create built stable_built); [done|apply unless_built]|done|done|intros u].
  eapply tri_conseq; [apply (tri_record_key [source] only_source)|apply created_copy|done|done].
Qed.

Lemma tri_cold_tail : triple built (cold_tail blake3 repos sched X fam a) finished (fun _ => True).
Proof.
  unfold cold_tail. destruct fam eqn:Ef; [|rewrite <- Ef; apply tri_snapshotRecordFanout].
  eapply tri_seq; [apply tri_lift|intros s Hs; exact Hs|done|intros cl]. apply tri_assume. rewrite (set_clones HS). intros [= <-].
  eapply tri_seq; [apply tri_probe, stable_built|done|done|intros logical].
  apply (tri_bind _ _ _ (fun _ => filled (source :: clones))); [|intros u; by apply tri_ret].
  destruct logical.
  { eapply tri_conseq; [apply tri_merged|by intros s []|done|done]. }
  eapply tri_seq; [apply tri_template_first|by intros s []|done|intros u0].
  eapply tri_conseq; [apply (tri_fan_clones nothing_else _ clones [source] staged_copies);
    [done|apply clones_distinct|apply own_clone|apply only_source]|done| |done].
  intros u1 s. apply covers_all.
Qed.

(** *** A build from another template *)
Lemma tri_honest {A} F (m : M (Server E) A) G R : triple (fun s => honest s /\ F s) m G R -> triple F m G R.
Proof. intros H w (H1 & H2 & H3 & H4). apply (H w). by repeat split. Qed.

Lemma tri_ex {A B} (F : B -> Server E -> Prop) (m : M (Server E) A) G R :
  (forall k, triple (F k) m G R) -> triple (fun s => exists k, F k s) m G R.
Proof. intros H w (H1 & H2 & H3 & k & H4). by apply (H k w). Qed.

Lemma tri_live F rec :
  stable F -> (forall s f, F s -> F (with_snaps (DeleteSnapshot f (snaps s)) s)) ->
  triple F (liveSnapshot X rec) (fun b s => F s /\ (b = false -> row_of (rFingerprint rec) (snaps s) = None)) F.
Proof.
  intros HF Hd. unfold liveSnapshot. eapply tri_seq; [by apply tri_probe|done|done|]. intros [|].
  - apply tri_ret. by intros s [Hs _].
  - eapply tri_seq; [apply (tri_forget F)|by intros s []|done|]; [done|intros s; apply Hd|]. intros u. apply tri_ret. by intros s [].
Qed.

(** what a way to build offers: nothing, or a finished database *)
Definition offer (o : option Outcome) (s : Server E) : Prop :=
  match o with
  | None => norow s
  | Some o => oCacheHit o = false /\ oFingerprint o = fpo key /\ oSourceDB o = source /\ finished (oClones o) s
  end.

Lemma norow_delete f s : norow s -> norow (with_snaps (DeleteSnapshot f (snaps s)) s).
Proof.
  unfold norow. intros Hn%row_of_None. apply row_of_None. intros Hin. apply Hn.
  apply list_elem_of_fmap in Hin as (r & E1 & Hr). apply list_elem_of_fmap. exists r. split; [done|].
  by apply elem_of_filter_bool in Hr as [_ Hr].
Qed.

Lemma tri_from_ancestor k anc m :
  used k -> rTemplateName anc = name k ->
  triple (source_at (Some (ref k))) m offer (fun _ => True) ->
  triple (fun s => norow s /\ pin_of (fpo k) s /\ true_copy k s)
    (live ← liveSnapshot X anc;
     if negb live then mret None else
     r ← attempt (on_server X (fun n => SnapshotRestore n (rTemplateName anc) source));
     match r with Err _ => mret None | Ok _ => m end) offer (fun _ => True).
Proof.
  intros Hk -> Hm. set (F := fun s => norow s /\ pin_of (fpo k) s /\ true_copy k s).
  assert (stable F) as HF by (apply stable_both; [apply stable_norow|by apply stable_copy]).
  eapply tri_seq; [apply (tri_live F); [done|]|done|done|].
  { intros s f (H1 & H2 & H3). split; [by apply norow_delete|done]. }
  intros [|]; cbn [negb]; [|apply tri_ret; by intros s [(? & _) _]].
  eapply tri_seq; [apply (tri_attempt F _ (fun _ => source_at (Some (ref k)))
    (fun r => match r with Ok _ => source_at (Some (ref k)) | Err _ => norow end) norow (fun _ => True))
    |by intros s []|done|intros [u|e]; [exact Hm|by apply tri_ret]].
  - apply (tri_copy nothing_else SnapshotRestore F norow k source restore_copies); [done|done|apply own_source| |done|apply unless_norow].
    intros s (H1 & _ & H3). by split.
  - done.
  - done.
  - done.
Qed.

Lemma offered_facts s r :
  honest s -> r ∈ candidateSnapshots (aRepoID a) (dbEngine d) (aVersion a) (dumpHash a) (snaps s) ->
  exists k, used k /\ rTemplateName r = name k /\ rFingerprint r = fpo k /\ true_copy k s /\
    kEngineVersion k = aVersion a /\ kDumpHashHex k = dumpHash a /\ rLockfileHashes r = kLockfileHashes k /\
    rInputs r = vec k /\ str_at (kLockfileHashes k) DumpOnlyMarkerKey <> "1".
Proof.
  intros Hh Hr. apply candidateSnapshots_spec in Hr as (row & rec & Hin & _ & He & Hv & Hd & Hdec & Hmark & ->).
  destruct (Hh row Hin) as (k & Hk & Hvo & Hc). exists k. unfold decode in Hdec.
  destruct (lockfile_hashes_json row) as [l|] eqn:El; [|done]. destruct (inputs_json row) as [i|] eqn:Ei; [|done].
  injection Hdec as <-. cbn in *. rewrite (v_locks _ _ Hvo l El) in *.
  split; [done|]. split; [by apply (v_name _ _ Hvo)|]. split; [apply (v_fp _ _ Hvo)|]. split; [exact (Hc He)|].
  split; [by rewrite <- (v_version _ _ Hvo)|]. split; [by rewrite <- (v_dump _ _ Hvo)|]. split; [done|].
  split; [by apply (v_inputs _ _ Hvo)|done].
Qed.

Lemma tri_offer_built m base :
  triple (source_at (Some (ref key))) m finished (fun _ => True) ->
  triple (source_at (Some (ref key)))
    (clones ← m; mret (Some (outcome_of blake3 a (name key) false clones base))) offer (fun _ => True).
Proof. intros Hm. eapply tri_bind; [exact Hm|]. intros cl. by apply tri_ret. Qed.

Lemma tri_incremental_steps k base :
  steps_of (dbMigrate d) Migrate (ref k) = ref key ->
  triple (source_at (Some (ref k)))
    (_ ← run_if X a (dbMigrate d) Migrate;
     clones ← snapshotRecordFanout blake3 repos sched X fam a;
     mret (Some (outcome_of blake3 a (name key) false clones base))) offer (fun _ => True).
Proof.
  intros Hk. eapply tri_seq; [apply tri_run_if|done|done|]. intros u. rewrite Hk. apply tri_offer_built, tri_snapshotRecordFanout.
Qed.

Lemma tri_rollback_step b s c k :
  triple (source_at (Some (steps_of b s c))) k offer (fun _ => True) ->
  triple (source_at (Some c)) (rollback_step X a b s k) offer (fun _ => True).
Proof.
  intros Hk. unfold rollback_step.
  eapply tri_seq; [apply (tri_attempt (source_at (Some c)) _ (fun _ => source_at (Some (steps_of b s c)))
    (fun r => match r with Ok _ => source_at (Some (steps_of b s c)) | Err _ => norow end) norow (fun _ => True))
    |done|done|]; try done; [apply tri_run_if|].
  intros [u|[]]; [exact Hk|..]; try (by apply tri_ret). by apply tri_fail.
Qed.
End Triples.

(** *** Pinned *)
Definition held (p : Pin.State) : Prop := Pin.counted p /\ Pin.IsPinned (fpo key) p = true.

Lemma held_key p : held p -> Pin.IsPinned (fpo key) p = true.
Proof. by intros []. Qed.

Lemma tri_pin {A} t k (F : Server E -> Prop) (m : M (Server E) A) (G : A -> Server E -> Prop) :
  used k ->
  (forall p s, F s -> F (with_pins p s)) -> (forall x p s, G x s -> G x (with_pins p s)) ->
  (forall p, held p -> triple (fun q => q = Pin.Pin (fpo k) p) t (fun s => F s /\ pin_of (fpo k) s) m G (fun _ => True)) ->
  triple held t F (with_pin (fpo k) m) G (fun _ => True).
Proof.
  intros Hk HFp HGp Hm w (H1 & [Hc Hp] & H3 & H4). unfold with_pin. set (p := pinned (eng w)) in *.
  set (w1 := Build_World (with_pins (Pin.Pin (fpo k) p) (eng w)) (st w) (tick w)).
  assert (state (fun q => q = Pin.Pin (fpo k) p) t (fun s => F s /\ pin_of (fpo k) s) w1) as Hw1.
  { split; [done|]. split; [done|]. split; [exact H3|]. split; [by apply HFp|]. apply pinned_Pin; [|done]. by apply (fp_nonempty HS). }
  specialize (Hm p (conj Hc Hp) w1 Hw1). destruct (m w1) as [w2 r]. cbn [fst snd] in *.
  assert (held (Pin.release (length (Pin.handles p)) (Pin.Pin (fpo k) p))) as Hrel.
  { split; [by apply counted_release|by apply pinned_release]. }
  assert (held (Pin.Pin (fpo k) p)) as Hstill.
  { split; [eapply Pin.counted_step; [exact Hc|apply Pin.step_pin]|by apply pinned_still]. }
  destruct r as [x|e|]; destruct Hm as (E1 & E2 & E3 & E4); repeat split; cbn; try done; rewrite ?E2; try apply Hrel; try apply Hstill; auto.
Qed.

Lemma pinned_key k p : held p -> forall q, q = Pin.Pin (fpo k) p -> Pin.IsPinned (fpo key) q = true.
Proof. intros [Hc Hp] q ->. by apply pinned_still. Qed.

Lemma offer_pins o p s : offer o s -> offer o (with_pins p s).
Proof. by destruct o. Qed.

(** from a row [r] of the table, used under its own pin *)
Lemma tri_ancestor t k r m :
  used k -> rTemplateName r = name k -> rFingerprint r = fpo k ->
  (forall p, held p -> triple (fun q => q = Pin.Pin (fpo k) p) t (source_at (Some (ref k))) m offer (fun _ => True)) ->
  triple held t (fun s => norow s /\ true_copy k s)
    (with_pin (rFingerprint r)
      (live ← liveSnapshot X r;
       if negb live then mret None else
       x ← attempt (on_server X (fun n => SnapshotRestore n (rTemplateName r) source));
       match x with Err _ => mret None | Ok _ => m end)) offer (fun _ => True).
Proof.
  intros Hk Hn -> Hm. apply (tri_pin t k _ _ _ Hk); [done|apply offer_pins|].
  intros p Hp. eapply (tri_conseq _ _ (fun s => norow s /\ pin_of (fpo k) s /\ true_copy k s));
    [apply (tri_from_ancestor _ _ (pinned_key k p Hp)); auto|by intros s [[? ?] ?]|done|done].
Qed.

Lemma tri_tryIncremental t :
  triple held t norow (tryIncrementalBuild blake3 repos sched X fam a) offer (fun _ => True).
Proof.
  unfold tryIncrementalBuild.
  eapply tri_seq; [apply (tri_query held t held_key), stable_norow|intros s Hs; exact Hs|done|]. intros anc. apply tri_honest.
  destruct anc as [r|]; [|apply tri_ret; by intros s (_ & ? & _)].
  set (facts k := used k /\ rTemplateName r = name k /\ rFingerprint r = fpo k /\ steps_of (dbMigrate d) Migrate (ref k) = ref key).
  apply (tri_conseq held t (fun s => exists k, facts k /\ norow s /\ true_copy k s) _ _ offer _ (fun _ => True)); [|..|done|done].
  - apply tri_ex. intros k. apply tri_assume. intros (Hk & Hn & Hf & Hinc). apply (tri_ancestor t k); [done..|].
    intros p Hp. apply tri_incremental_steps; [by apply pinned_key|done].
  - intros s (Hh & Hn & [= Hfind]). rewrite FindAncestor_pick in Hfind. apply pick_best_elem in Hfind as [Hin Ha].
    destruct (offered_facts s r Hh Hin) as (k & Hk & Hname & Hf & Ht & Hv & Hd & Hl & Hi & Hm). exists k.
    unfold ancestor_b in Ha. rewrite !andb_true_iff, String.eqb_eq in Ha. destruct Ha as ((Hcmd & Hanc) & _).
    rewrite Hl in Hcmd. rewrite Hi in Hanc. split; [|done]. repeat split; auto. by apply (ref_incremental HS).
Qed.

Lemma rollback_chosen (l : list SnapshotRecord) globs r steps :
  result_of range (commandsHash a) globs (aInputs a)
    (pick_best (usable range (commandsHash a) globs (aInputs a)) (keeps_more range (commandsHash a) globs (aInputs a)) (numbered l 0))
    = (Some r, steps) ->
  r ∈ l /\ exists call kept, rollback_plan range (commandsHash a) globs (aInputs a) call r = Some (kept, steps).
Proof.
  intros H. destruct (pick_best _ _ _) as [[i x]|] eqn:E1; [|done]. apply pick_best_elem in E1 as [Hin Hu].
  cbn in H. injection H as Hr Hs. subst x. unfold numbered in Hin. apply elem_of_lookup_imap in Hin as (j & y & [= Ei <-] & Hj).
  split; [by eapply list_elem_of_lookup_2|]. unfold usable, plan_of in *. cbn in *.
  destruct (rollback_plan _ _ _ _ _ _) as [[kept st0]|] eqn:Ep; [|done]. subst. by eexists _, _.
Qed.

Lemma tri_tryRollback t :
  triple held t norow (tryRollbackIncrementalBuild blake3 range repos sched X fam a) offer (fun _ => True).
Proof.
  unfold tryRollbackIncrementalBuild. cbv zeta. destruct (_ || _); [by apply tri_ret|].
  set (globs := LockfileGlobs (dbInputs d)).
  eapply tri_seq; [apply (tri_query held t held_key), stable_norow|intros s Hs; exact Hs|done|]. intros [anc steps]. apply tri_honest.
  cbn [fst snd]. destruct anc as [r|]; [|apply tri_ret; by intros s (_ & ? & _)].
  destruct (_ && _); [apply tri_ret; by intros s (_ & ? & _)|].
  set (facts k := used k /\ rTemplateName r = name k /\ rFingerprint r = fpo k /\
    steps_of (dbSeed d) Seed (stepped (aFiles a) Migrate (steps_of (Z.ltb 0 steps) (Rollback steps) (ref k))) = ref key).
  apply (tri_conseq held t (fun s => exists k, facts k /\ norow s /\ true_copy k s) _ _ offer _ (fun _ => True)); [|..|done|done].
  - apply tri_ex. intros k. apply tri_assume. intros (Hk & Hn & Hf & Hrb). apply (tri_ancestor t k); [done..|].
    intros p Hp. pose proof (pinned_key k p Hp) as Hpk. do 3 (apply tri_rollback_step; [done|]). cbn [steps_of]. rewrite Hrb.
    by apply tri_offer_built, tri_snapshotRecordFanout.
  - intros s (Hh & Hn & [= Hfind]). rewrite FindRollback_pick in Hfind.
    apply rollback_chosen in Hfind as [Hin (call & kept & Hplan)].
    destruct (offered_facts s r Hh Hin) as (k & Hk & Hname & Hf & Ht & Hv & Hd & Hl & Hi & Hm). exists k.
    split; [|done]. repeat split; auto. by apply (ref_rollback HS k r call kept steps).
Qed.

(** a row found by the fingerprint of [k] is about [k] *)
Lemma found_row s i k : honest s -> used k -> kEngine k = dbEngine d ->
  honest (with_snaps (LookupAndTouchSnapshot i (fpo k) (snaps s)).1 s) /\
  forall x, (LookupAndTouchSnapshot i (fpo k) (snaps s)).2 = Ok x ->
    match x with
    | None => row_of (fpo k) (LookupAndTouchSnapshot i (fpo k) (snaps s)).1 = None
    | Some r => rTemplateName r = name k /\ rFingerprint r = fpo k /\ true_copy k s
    end.
Proof.
  intros Hh Hk He. unfold LookupAndTouchSnapshot. cbn [fst snd]. split.
  - intros r Hr. cbn in Hr. apply list_elem_of_fmap in Hr as (r0 & -> & Hr0). destruct (Hh r0 Hr0) as (k0 & Hk0 & Hv & Hc).
    exists k0. destruct (String.eqb _ _); [|done]. split; [done|]. split; [by destruct Hv; split|done].
  - intros x. destruct (row_of _ _) as [r|] eqn:E1; [|intros [= <-]; done]. apply row_of_Some in E1 as [Hr Hf].
    apply list_elem_of_fmap in Hr as (r0 & -> & Hr0). destruct (Hh r0 Hr0) as (k0 & Hk0 & Hv & Hc).
    assert (fingerprint r0 = fpo k) as Hf0 by (by destruct (String.eqb _ _)).
    assert (k0 = k) as ->.
    { apply (fp_inj HS); [done..|]. by rewrite <- (v_fp _ _ Hv). }
    assert (row_engine r0 = label) as El by (by rewrite (v_engine _ _ Hv), He).
    destruct (decode _) as [rec|] eqn:Ed; cbn; [|done]. intros [= <-]. cbn.
    assert (rTemplateName rec = template_name r0 /\ rFingerprint rec = fingerprint r0) as [-> ->].
    { unfold decode in Ed. destruct (String.eqb _ _); cbn in Ed; destruct (lockfile_hashes_json r0), (inputs_json r0); try done; by injection Ed as <-. }
    split; [by apply (v_name _ _ Hv)|]. split; [done|]. exact (Hc El).
Qed.

Lemma tri_find t F k :
  used k -> kEngine k = dbEngine d -> stable F -> (forall s l, F s -> (forall f, row_of f l = None <-> row_of f (snaps s) = None) -> F (with_snaps l s)) ->
  triple held t F (on_snaps X (fun now => LookupAndTouchSnapshot now (fpo k)))
    (fun rec s => F s /\ match rec with
                         | None => row_of (fpo k) (snaps s) = None
                         | Some r => rTemplateName r = name k /\ rFingerprint r = fpo k /\ true_copy k s
                         end) (fun _ => True).
Proof.
  intros Hk He HF Hl. apply (tri_on_snaps held t held_key); [done|done|]. intros i s Hh Hs.
  destruct (found_row s i k Hh Hk He) as [H1 H2]. split; [done|]. split; [done|]. intros x Hx. specialize (H2 x Hx). split.
  - apply Hl; [done|]. intros f. rewrite !row_of_None. unfold LookupAndTouchSnapshot, TouchSnapshot. cbn [fst]. rewrite <- list_fmap_compose.
    replace (fingerprint ∘ _ <$> snaps s) with (fingerprint <$> snaps s); [done|]. apply list_fmap_ext. intros j r _. cbn. by destruct (String.eqb _ _).
  - destruct x; [|exact H2]. exact H2.
Qed.

Lemma tri_tryDumpOnly t :
  triple held t norow (tryDumpOnlyBuild blake3 repos sched X fam a) offer (fun _ => True).
Proof.
  unfold tryDumpOnlyBuild. case_bool_decide as Hd; cbn [orb]; [by apply tri_ret|].
  destruct (dbMigrate d) eqn:Hm; cbn [negb]; [|by apply tri_ret].
  eapply tri_seq; [apply (tri_find t norow dk (set_dump_key HS) eq_refl stable_norow)|done|done|].
  { unfold norow. intros s l Hs Hl. by apply Hl. }
  intros [r|]; [|apply tri_ret; by intros s []].
  apply (tri_conseq held t (fun s => (rTemplateName r = name dk /\ rFingerprint r = fpo dk) /\ norow s /\ true_copy dk s) _ _ offer _ (fun _ => True));
    [|by intros s (? & ? & ? & ?)|done|done].
  apply tri_assume. intros [Hn Hf]. apply (tri_ancestor t dk); [apply (set_dump_key HS)|done|done|]. intros p Hp.
  pose proof (pinned_key dk p Hp) as Hpk.
  eapply tri_seq; [apply (tri_run_if _ _ Hpk true Migrate)|done|done|intros u]. cbn [steps_of].
  eapply tri_seq; [apply (tri_run_if _ _ Hpk)|done|done|intros u0]. rewrite (ref_dump_only HS Hd Hm).
  by apply tri_offer_built, tri_snapshotRecordFanout.
Qed.

(** *** A cached template *)
Local Abbreviation mark := (GetTemplateBuilt (aWorktreeID a) source (dbEngine d) (dbConnection d)).

Lemma tri_lookup t v :
  triple held t (kept v) (lookupCachedSnapshot blake3 waits X a)
    (fun rec s => kept v s /\ match rec with
                              | None => norow s
                              | Some r => rTemplateName r = name key /\ rFingerprint r = fpo key /\ true_copy key s
                              end) (fun _ => True).
Proof.
  assert (forall s l, kept v s -> (forall f, row_of f l = None <-> row_of f (snaps s) = None) -> kept v (with_snaps l s)) as Hkv by done.
  pose proof (tri_find t (kept v) key (set_key HS) (set_engine HS) (stable_kept v) Hkv) as Hfind.
  unfold lookupCachedSnapshot. eapply tri_seq; [exact Hfind|done|done|]. intros [r|]; [by apply tri_ret|].
  eapply tri_seq; [apply (tri_call held t held_key (fun s => kept v s /\ norow s) _ (fun b s => kept v s /\ (b = false -> norow s)) (fun _ => True))
    |by intros s []|done|].
  - apply stable_both; [apply stable_kept|apply stable_norow].
  - intros n s [Hh _] [Hk Hn]. destruct (waits n) as [f|] eqn:Ew; cbn.
    + split; [by apply (wait_pins HR n)|]. split; [by apply (wait_honest HR n)|]. split; [done|]. intros b [= <-]. split; [|done].
      intros x Hx. rewrite (wait_own HR n) by done. by apply Hk.
    + split; [done|]. split; [done|]. split; [done|]. intros b _. by split.
  - intros [|]; [|apply tri_ret; intros s [? Hn]; split; [done|by apply Hn]].
    eapply tri_conseq; [exact Hfind|by intros s []|done|done].
Qed.

Lemma tri_all_exist t v l :
  (forall x, x ∈ l -> own x) ->
  triple held t (fun s => kept v s /\ true_copy key s) (all_exist X l)
    (fun b s => (kept v s /\ true_copy key s) /\ (b = true -> forall x, x ∈ l -> is_Some (v x))) (fun _ => True).
Proof.
  assert (stable (fun s => kept v s /\ true_copy key s)) as Hst by (apply stable_both; [apply stable_kept|apply stable_own_copy]).
  induction l as [|x l IH]; intros Hl; cbn [all_exist].
  { apply tri_ret. intros s Hs. split; [done|]. by intros _ ? ?%elem_of_nil. }
  eapply tri_seq; [apply (tri_probe held t held_key), Hst|done|done|]. intros [|]; [|by apply tri_ret; intros s [? _]].
  apply (tri_conseq held t (fun s => is_Some (v x) /\ (kept v s /\ true_copy key s)) _ _
    (fun b s => (kept v s /\ true_copy key s) /\ (b = true -> forall y, y ∈ x :: l -> is_Some (v y))) _ (fun _ => True)); [| |done|done].
  - apply tri_assume. intros Hx. eapply tri_conseq; [apply IH|done| |done].
    + intros y Hy. apply Hl. by right.
    + intros b s [H1 H2]. split; [done|]. intros Hb y [->|Hy]%elem_of_cons; [done|by apply H2].
  - intros s [[Hk Ht] [n Hn]]. split; [|done]. apply exists_truth in Hn. rewrite <- (Hk x) by (apply Hl; left). by apply Hn.
Qed.

Lemma targets_all : all_targets a clones = source :: clones.
Proof.
  unfold all_targets. f_equal. apply filter_all_true. intros x Hx. apply negb_true_iff, String.eqb_neq.
  by destruct (clone_ne x Hx) as (_ & ? & _).
Qed.

Lemma tri_built_targets t v :
  triple held t (fun s => kept v s /\ true_copy key s) (templateBuiltTargets blake3 X a clones)
    (fun b s => (kept v s /\ true_copy key s) /\ (b = true -> mark t = Some (fpo key) /\ forall x, own x -> is_Some (v x))) (fun _ => True).
Proof.
  unfold templateBuiltTargets. eapply tri_seq; [apply (tri_store_read held t held_key (fun s => kept v s /\ true_copy key s))|done|done|intros f].
  { apply stable_both; [apply stable_kept|apply stable_own_copy]. }
  apply tri_assume. intros ->. case_bool_decide as Hf; [|by apply tri_ret]. rewrite targets_all.
  eapply tri_conseq; [apply (tri_all_exist t v (source :: clones)); done|done| |done]. intros b s [H1 H2]. split; [done|]. intros Hb. split; [done|]. by apply H2.
Qed.

Lemma tri_restore_all t :
  triple held t (true_copy key) (cacheHitRestoreAndFanout blake3 sched X a (name key) clones)
    (fun gone s => if (gone : bool) then norow s else filled (source :: clones) s) (fun _ => True).
Proof.
  unfold cacheHitRestoreAndFanout. rewrite targets_all.
  eapply tri_seq; [apply (tri_attempt held t (fun s => true_copy key s /\ filled [] s) _ (fun _ => filled (source :: clones))
    (fun r s => r = Ok tt -> filled (source :: clones) s) (fun _ => True) (fun _ => True))|intros s Hs; split; [exact Hs|by intros ? ?%elem_of_nil]|done|]; try done.
  - eapply tri_conseq; [apply (tri_fan_clones held t held_key spare_of CachedRestore (source :: clones) [] cached_copies);
      [done|apply (set_distinct HS)|intros x Hx; split; [done|apply not_elem_of_nil]|by intros x ?%elem_of_nil]|done| |done].
    intros u s. by rewrite app_nil_r.
  - intros [[]|e]; [apply tri_ret; intros s Hs; by apply Hs|]. destruct (isCancellation e); [by apply tri_fail|].
    eapply tri_seq; [apply (tri_attempt held t (fun _ => True) _ (fun _ _ => True) (fun _ _ => True) (fun _ => True) (fun _ => True))|done|done|]; try done.
    { eapply tri_conseq; [apply (tri_probe held t held_key), stable_true|done|done|done]. }
    intros [[|]|e']; [by apply tri_fail| |by apply tri_fail].
    eapply tri_seq; [apply (tri_forget held t held_key (fun _ => True)); [apply stable_true|done]|done|done|]. intros u. apply tri_ret. by intros s [].
Qed.

(** what a hit gives: the namespaces as they were, marked as built from this
    key and all there, or copies of the template *)
Definition hit_result (t : Tables) (v : string -> option Data) (r : option (Outcome * bool)) (s : Server E) : Prop :=
  match r with
  | None => norow s
  | Some (o, skipped) =>
      o = outcome_of blake3 a (name key) true clones "" /\
      if (skipped : bool) then kept v s /\ mark t = Some (fpo key) /\ (forall x, own x -> is_Some (v x)) else filled (source :: clones) s
  end.

Lemma tri_cacheHitTemplate t v :
  triple held t (kept v) (cacheHitTemplate blake3 sched waits X a) (hit_result t v) (fun _ => True).
Proof.
  unfold cacheHitTemplate. eapply tri_seq; [apply tri_lookup|done|done|]. intros [r|]; [|by apply tri_ret; intros s []].
  apply (tri_conseq held t (fun s => (rTemplateName r = name key /\ rFingerprint r = fpo key) /\ kept v s /\ true_copy key s) _ _ (hit_result t v) _ (fun _ => True));
    [|by intros s (? & ? & ? & ?)|done|done].
  apply tri_assume. intros [Hn Hf].
  assert (stable (fun s => kept v s /\ true_copy key s)) as Hst by (apply stable_both; [apply stable_kept|apply stable_own_copy]).
  eapply tri_seq; [apply (tri_live held t held_key _ r Hst); done|done|done|]. rewrite Hn, Hf.
  intros [|]; cbn [negb]; [|apply tri_ret; intros s [_ Hno]; by apply Hno].
  eapply tri_seq; [apply tri_lift|intros s Hs; exact Hs|done|]. intros cl. apply tri_assume. rewrite (set_clones HS). intros [= <-].
  eapply tri_seq; [apply (tri_built_targets t v)|by intros s [? _]|done|]. intros [|].
  - apply tri_ret. intros s [[Hk _] Hm]. destruct (Hm eq_refl). by repeat split.
  - eapply tri_seq; [apply tri_restore_all|by intros s [[_ ?] _]|done|]. intros [|]; by apply tri_ret.
Qed.

(** *** The whole prepare *)
Lemma tri_or_else t m k :
  triple held t norow m offer (fun _ => True) -> triple held t norow k (fun o => offer (Some o)) (fun _ => True) ->
  triple held t norow (or_else m k) (fun o => offer (Some o)) (fun _ => True).
Proof. intros Hm Hk. eapply tri_bind; [exact Hm|]. intros [o|]; [by apply tri_ret|exact Hk]. Qed.

(** everything [prepareTemplate] does after a cache miss *)
Definition build : M (Server E) Outcome :=
  or_else (tryIncrementalBuild blake3 repos sched X fam a)
    (or_else (tryRollbackIncrementalBuild blake3 range repos sched X fam a)
      (or_else (tryDumpOnlyBuild blake3 repos sched X fam a)
        (_ ← coldBuildSteps blake3 repos X fam a;
         cl ← cold_tail blake3 repos sched X fam a;
         mret (outcome_of blake3 a (name key) false cl "")))).

Lemma tri_build t : triple held t norow build (fun o => offer (Some o)) (fun _ => True).
Proof.
  apply tri_or_else; [apply tri_tryIncremental|]. apply tri_or_else; [apply tri_tryRollback|].
  apply tri_or_else; [apply tri_tryDumpOnly|].
  eapply tri_seq; [apply (tri_coldBuildSteps held t held_key)|done|done|intros u].
  eapply tri_seq; [apply (tri_cold_tail held t held_key)|done|done|intros cl]. by apply tri_ret.
Qed.

Local Abbreviation set_mark := (SetTemplateBuilt (aWorktreeID a) source (dbEngine d) (dbConnection d) (fpo key)).

(** after a prepare that began with the tables [t] and the contents [v] *)
Definition prepared (t : Tables) (v : string -> option Data) (o : Outcome) (w : World (Server E)) : Prop :=
  oFingerprint o = fpo key /\ oSourceDB o = source /\ oClones o = clones /\
  if oCacheHit o
  then st w = set_mark t /\ filled (source :: clones) (eng w) \/
       st w = t /\ mark t = Some (fpo key) /\ kept v (eng w) /\ (forall x, own x -> is_Some (v x))
  else st w = t /\ filled (source :: clones) (eng w).

Definition sane (w : World (Server E)) : Prop := Pin.counted (pinned (eng w)) /\ honest (eng w).

Lemma cacheHit_prepared t v w :
  state held t (kept v) w ->
  let r := cacheHitGeneric blake3 sched waits X a w in
  held (pinned (eng r.1)) /\ honest (eng r.1) /\ (st r.1 = t \/ st r.1 = set_mark t) /\
  match r.2 with
  | Done (Some o) => prepared t v o r.1
  | Done None => st r.1 = t /\ norow (eng r.1)
  | _ => True
  end.
Proof.
  intros Hw. pose proof (tri_cacheHitTemplate t v w Hw) as H.
  unfold cacheHitGeneric, mbind, M_bind. destruct (cacheHitTemplate blake3 sched waits X a w) as [w1 [[[o [|]]|]|e|]];
    destruct H as (E1 & E2 & E3 & E4); cbn [fst snd] in *; try by auto 10.
  - destruct E4 as (-> & Hk & Hm & Hv). cbn. split; [done|]. split; [done|]. split; [by left|].
    split; [done|]. split; [done|]. split; [done|]. by right.
  - destruct E4 as (-> & Hf). unfold recordTemplateBuilt, store_op.
    assert (state held t (filled (source :: clones)) (Build_World (env X (tick w1) (eng w1)) (st w1) (S (tick w1)))) as (F1 & F2 & F3 & F4).
    { apply (state_env held t held_key); [by apply stable_filled|by split]. }
    cbn in F1, F2, F3, F4. subst t.
    destruct (crash X (tick w1)), (store_fault X (tick w1)); cbn; split_and!; auto.
    split; [done|]. split; [done|]. split; [done|]. left. by split.
  - cbn. by auto 10.
Qed.

(** under the pin: a hit, or a build *)
Lemma hit_or_build t v w :
  state held t (kept v) w ->
  let r := or_else (cacheHitGeneric blake3 sched waits X a) build w in
  held (pinned (eng r.1)) /\ honest (eng r.1) /\ (st r.1 = t \/ st r.1 = set_mark t) /\
  match r.2 with Done o => prepared t v o r.1 | _ => True end.
Proof.
  intros Hw. pose proof (cacheHit_prepared t v w Hw) as H. unfold or_else, mbind, M_bind.
  destruct (cacheHitGeneric blake3 sched waits X a w) as [w1 [[o|]|e|]]; [exact H| |exact H..].
  destruct H as (H1 & H2 & _ & E1 & Hn). pose proof (tri_build t w1 (conj E1 (conj H1 (conj H2 Hn)))) as Hb. cbn [fst snd] in *.
  destruct (build w1) as [w2 [o|e|]]; destruct Hb as (G1 & G2 & G3 & G4); cbn; [|by auto..].
  split; [done|]. split; [done|]. split; [by left|]. destruct G4 as (F2 & F3 & F4 & F5 & F6). unfold prepared. by rewrite F2.
Qed.

Lemma prepareTemplate_sound t v w :
  st w = t -> sane w -> kept v (eng w) ->
  let r := prepareTemplate blake3 range repos sched waits X fam a w in
  sane r.1 /\ (st r.1 = t \/ st r.1 = set_mark t) /\ match r.2 with Done o => prepared t v o r.1 | _ => True end.
Proof.
  intros <- [Hc Hh] Hk. unfold prepareTemplate, with_pin. set (p := pinned (eng w)).
  set (w0 := Build_World (with_pins (Pin.Pin (fpo key) p) (eng w)) (st w) (tick w)). fold build.
  assert (state held (st w) (kept v) w0) as Hw0.
  { split; [done|]. split; [|by split]. split; [eapply Pin.counted_step; [exact Hc|apply Pin.step_pin]|].
    apply pinned_Pin; [|done]. apply (fp_nonempty HS), (set_key HS). }
  pose proof (hit_or_build (st w) v w0 Hw0) as H.
  destruct (or_else (cacheHitGeneric blake3 sched waits X a) build w0) as [w2 r2]. destruct H as ([Hc2 _] & Hh2 & Ht2 & Hr2).
  assert (Pin.counted (Pin.release (length (Pin.handles p)) (pinned (eng w2)))) by (eapply Pin.counted_step; [exact Hc2|apply Pin.step_release]).
  by destruct r2.
Qed.
End Safety.
