(* ===== verification/TemplateDemo.v ===== *)
(** * A concrete server for the template pipeline

    The store of named values of [BranchDemo], as a [TplDriver]: a call fails
    at given times, and a failed write leaves its target alone or torn.  It
    obeys [TplLaws] whatever the faults; a database of two versions of its
    schema satisfies [Setting] on it. *)
From stdpp Require Import base strings list sets gmap.
From Stdlib Require Import ZArith Lia.
From Stdlib Require String Ascii.
From S2P Require Import Prelude GoStrings Engine Slug Template SnapshotKey SnapshotStore SnapshotGC BranchStore BranchSwap BranchSafety BranchDemo Owned TemplateBuild TemplateSafety.

Section Driver.
Variable fault : nat -> bool.
Variable torn : bool.

(** a change of a namespace that is there *)
Definition change (n : nat) (t : string) (f : string -> string) (e : Mem) : Mem * res err unit :=
  match data e !! t with
  | Some c => write fault torn n t (Some (f c)) e
  | None => (e, Err Other)
  end.

(** [migrate] brings the schema to the one the worktree's files describe *)
Definition demo_step (fs : Files) (s : Step) (c : string) : string :=
  match s with
  | Migrate => default "" (fs "schema")
  | Seed => c +:+ " seeded"
  | Rollback _ => "rolled back"
  end.
Definition demo_load (fs : Files) (f c : string) : string := c +:+ default "" (fs f).

Definition shop : TplDriver Mem string := {|
  stored e ns := data e !! ns;
  DatabaseExists n ns e := if fault n then Err Other else Ok (bool_decide (is_Some (data e !! ns)));
  CachedRestore n s t e := copy fault torn n s t e;
  SnapshotRestore n s t e := copy fault torn n s t e;
  SnapshotRestoreStaged n s t e := copy fault torn n s t e;
  SnapshotCreate n s t e := copy fault torn n s t e;
  DropDatabase n t e := write fault torn n t None e;
  EnsureDB n t e := match data e !! t with Some _ => (e, Ok tt) | None => write fault torn n t (Some "") e end;
  OpenScoped n ns e := Ok tt;
  Load fs n t f e := change n t (demo_load fs f) e;
  PreferLogicalFor n ns e := false;
  ListMatching n p e := Ok (List.filter (has_prefix p) (map fst (map_to_list (data e))));
  run_step fs s n t e := change n t (demo_step fs s) e
|}.

Lemma change_frame n t f e x : t <> x -> data (change n t f e).1 !! x = data e !! x.
Proof. intros H. unfold change. destruct (data e !! t); [by apply write_frame|done]. Qed.

Lemma change_ok n t f e c : (change n t f e).2 = Ok tt -> data e !! t = Some c -> data (change n t f e).1 !! t = Some (f c).
Proof. unfold change. intros Hok Hc. rewrite Hc in *. by apply write_ok. Qed.

Lemma copy_copies also op : (forall n s t e, op n s t e = copy fault torn n s t e) -> @copies Mem string shop also op.
Proof.
  intros Hop. split; intros n s t e; rewrite Hop; cbn.
  - intros x Hx _. by apply BranchDemo.copy_frame.
  - intros _ Hok. split; [|by apply BranchDemo.copy_ok]. unfold copy in Hok. by destruct (data e !! s).
Qed.

#[export] Instance shop_laws : @TplLaws Mem string shop.
Proof.
  refine (Build_TplLaws Mem string shop "" demo_load demo_step _ _ _ _ _ _ _ _ _ _ _ _ _); cbn.
  - intros n ns e b. destruct (fault n); [done|]. intros [= <-]. by rewrite bool_decide_eq_true.
  - by apply copy_copies.
  - by apply copy_copies.
  - by apply copy_copies.
  - by apply copy_copies.
  - intros n t e x Hx. by apply write_frame.
  - intros n t e. apply write_ok.
  - intros n t e x Hx. destruct (data e !! t); [done|]. by apply write_frame.
  - intros n t e Hok Hn. rewrite Hn in *. by apply write_ok.
  - intros fs n t f e x Hx. by apply change_frame.
  - intros fs n t f e c. apply change_ok.
  - intros fs s n t e x Hx. by apply change_frame.
  - intros fs s n t e c. apply change_ok.
Defined.
End Driver.

(** ** A database of two versions *)

(** a digest of 32 bytes *)
Definition toy_digest (s : string) : string :=
  let h := foldl (fun z c => (z * 257 + Z.of_N (Ascii.N_of_ascii c)) mod 18446744073709551557)%Z 1%Z (String.list_ascii_of_string s) in
  let eight := le32 h +:+ le32 (h / 4294967296) in
  eight +:+ eight +:+ eight +:+ eight.

Definition key_of (version : string) : Key := New "mysql" "8.0" "" "" version "" ∅.
Definition dump_only : Key := dumpOnlySnapshotKey "mysql" "" "8.0" "".

Definition demo_db : Database :=
  {| dbEngine := "mysql"; dbConnection := ""; dbDump := []; dbMigrate := true; dbSeed := false; dbRollback := false;
     dbInputs := [{| Glob := "db/*"; is_lockfile := false |}];
     dbTestClones := Some {| cloneCount := 1; cloneTemplate := "app_{n}" |} |}.

(** the second version adds a migration *)
Definition demo_inputs (version : string) : Inputs :=
  {[ "db/*" := {| Path := "db/1"; Hash := "h1" |} :: (if String.eqb version "v1" then [] else [{| Path := "db/2"; Hash := "h2" |}]) ]}.

Definition demo_tpl : Context :=
  {| cSlug := "w"; SlugDash := "w"; SlugRedisQueue := ""; SlugRedisCache := ""; N_ := 0; HasN := false;
     TargetDB := ""; HasTargetDB := false; Ports := ∅; DBs := [] |}.

(** the worktree with the files of [version] checked out *)
Definition at_version (version : string) : TemplateArgs :=
  {| aDB := demo_db; aTpl := demo_tpl; aFiles := fun f => if String.eqb f "schema" then Some version else None;
     aKey := key_of version; aInputs := demo_inputs version; aVersion := "8.0"; aSource := "app"; aRepoID := 1;
     aWorktreeID := 7 |}.

Definition demo_used (k : Key) : Prop := k = key_of "v1" \/ k = key_of "v2" \/ k = dump_only.
Definition demo_vec (k : Key) : Inputs :=
  if String.eqb (kMigrationsHashHex k) "" then ∅ else demo_inputs (kMigrationsHashHex k).
Definition demo_ref (k : Key) : string := kMigrationsHashHex k.

Definition idle_env : Surroundings (Server Mem) :=
  {| env := fun _ s => s; crash := fun _ => false; store_fault := fun _ => false; cancelled := fun _ => false;
     now := fun n => Z.of_nat n |}.
Definition first_range (n : nat) (m : Inputs) : list (string * InputVector) := map_to_list m.
Definition in_order (n : nat) (l : list string) : list string := l.

Definition name_len (k : Key) : nat := String.length (TemplateName toy_digest k).

Lemma demo_names : Forall (fun k => name_len k = 20) [key_of "v1"; key_of "v2"; dump_only].
Proof. repeat constructor. Qed.

Lemma demo_used_list k : demo_used k <-> k ∈ [key_of "v1"; key_of "v2"; dump_only].
Proof. unfold demo_used. rewrite !elem_of_cons, elem_of_nil. tauto. Qed.

Lemma demo_name_len k : demo_used k -> name_len k = 20.
Proof. intros Hk%demo_used_list. by apply (proj1 (Forall_forall _ _) demo_names). Qed.

Lemma spare_longer s x : spare_of s x -> String.length s < String.length x.
Proof. intros [slot ->]. unfold SpareName. rewrite !str_length_app. cbn. lia. Qed.

Lemma inj_on {A B} (f : A -> B) (l : list A) :
  NoDup (map f l) -> forall x y, x ∈ l -> y ∈ l -> f x = f y -> x = y.
Proof.
  induction l as [|z l IH]; cbn [map]; [by intros _ ? ? ?%elem_of_nil|].
  intros [Hz Hl]%NoDup_cons x y [->|Hx]%elem_of_cons [->|Hy]%elem_of_cons E; auto.
  - destruct Hz. rewrite E. by apply list_elem_of_fmap_2.
  - destruct Hz. rewrite <- E. by apply list_elem_of_fmap_2.
Qed.

Lemma demo_distinct :
  bool_decide (NoDup (map (Fingerprint toy_digest) [key_of "v1"; key_of "v2"; dump_only])) = true /\
  bool_decide (NoDup (map (TemplateName toy_digest) [key_of "v1"; key_of "v2"; dump_only])) = true.
Proof. split; vm_compute; reflexivity. Qed.

Lemma demo_nonempty : Forall (fun k => String.eqb (Fingerprint toy_digest k) "" = false) [key_of "v1"; key_of "v2"; dump_only].
Proof. repeat constructor. Qed.

Lemma demo_own_len x : own (at_version "v1") ["app_1"] x -> String.length x <= 5.
Proof. unfold own. intros [->|Hin%list_elem_of_singleton]%elem_of_cons; [cbn; lia|rewrite Hin; cbn; lia]. Qed.

Lemma shop_setting fault torn v :
  v = "v1" \/ v = "v2" ->
  @Setting Mem string (shop fault torn) (shop_laws fault torn) toy_digest first_range in_order (at_version v)
    demo_used demo_vec demo_ref ["app_1"].
Proof.
  intros Hv. assert (demo_used (key_of v)) as Hu by (destruct Hv as [-> | ->]; [by left|right; by left]).
  destruct demo_distinct as [Hfp Hname]. rewrite bool_decide_eq_true in Hfp, Hname. constructor.
  - exact Hu.
  - by right; right.
  - reflexivity.
  - reflexivity.
  - by destruct Hv as [-> | ->].
  - reflexivity.
  - intros E%(f_equal kMigrationsHashHex). by destruct Hv as [-> | ->].
  - intros k k' Hk%demo_used_list Hk'%demo_used_list. by apply (inj_on _ _ Hfp).
  - intros k k' Hk%demo_used_list Hk'%demo_used_list. by apply (inj_on _ _ Hname).
  - intros k Hk%demo_used_list. apply String.eqb_neq. by apply (proj1 (Forall_forall _ _) demo_nonempty).
  - intros k Hk%demo_name_len Hin%demo_own_len. unfold name_len in *. lia.
  - intros k k' Hk%demo_name_len Hk'%demo_name_len Hs%spare_longer. unfold name_len in *. lia.
  - intros k x Hk%demo_name_len Hin%demo_own_len Hs%spare_longer. unfold name_len in *. lia.
  - reflexivity.
  - cbn. repeat constructor; set_solver.
  - done.
  - intros l _. by destruct Hv as [-> | ->].
  - intros l _ [= <-]. done.
  - done.
  - intros k _ _ _ _ _ _. by destruct Hv as [-> | ->].
  - intros k r call kept steps _ _ _ _ _. by destruct Hv as [-> | ->].
  - done.
Qed.

Lemma shop_rely fault torn v :
  @Rely Mem string (shop fault torn) toy_digest (fun _ => None) idle_env (at_version v) demo_used demo_vec demo_ref ["app_1"].
Proof. split; cbn; auto; done. Qed.
