(* ===== verification/TemplateHistory.v ===== *)
(** * Histories of a database prepared from templates

    The theorems about [TemplateBuild] over every history of prepares, failed
    prepares with their recovery, and steps of the siblings; a concrete server
    on which the assumptions hold; and the counterexamples that mark where the
    guarantees end. *)
From stdpp Require Import base strings list sets gmap relations.
From Stdlib Require Import ZArith Lia.
From S2P Require Import Prelude GoStrings Engine Slug Template SnapshotKey SnapshotStore SnapshotGC BranchStore BranchSwap BranchSafety BranchDemo Owned TemplateBuild TemplateSafety TemplateDemo.

#[local] Arguments TemplateName _ _ : simpl never.
#[local] Arguments Fingerprint _ _ : simpl never.

(** ** One run *)

(** what a run is given besides the state *)
Record Run (E : Type) := {
  rn_range : nat -> Inputs -> list (string * InputVector);
  rn_sched : nat -> list string -> list string;
  rn_waits : nat -> option (Server E -> Server E);
  rn_X : Surroundings (Server E);
  rn_fam : Flavor;
  rn_args : TemplateArgs;
  rn_fresh : bool
}.
Arguments rn_range {E} _ _ _.
Arguments rn_sched {E} _ _ _.
Arguments rn_waits {E} _ _.
Arguments rn_X {E} _.
Arguments rn_fam {E} _.
Arguments rn_args {E} _.
Arguments rn_fresh {E} _.

Section History.
Context {E Data : Type} `{TD : TplDriver E Data} {TL : TplLaws E Data}.
Variable blake3 : string -> string.
Variable repos : gset Z.
Variable used : Key -> Prop.
Variable vec : Key -> Inputs.
Variable ref : Key -> Data.
Variable clones : list string.
(** the database of the history; its runs may differ in everything else *)
Variable a0 : TemplateArgs.

Local Abbreviation sane := (sane blake3 a0 used vec ref).

Record same_database (a : TemplateArgs) : Prop := {
  same_worktree : aWorktreeID a = aWorktreeID a0;
  same_source : aSource a = aSource a0;
  same_engine : dbEngine (aDB a) = dbEngine (aDB a0);
  same_connection : dbConnection (aDB a) = dbConnection (aDB a0)
}.

Definition run_once (r : Run E) : M (Server E) Outcome :=
  runDatabase blake3 (rn_range r) repos (rn_sched r) (rn_waits r) (rn_X r) (rn_fam r) (rn_args r) (rn_fresh r).

Record runs_here (r : Run E) : Prop := {
  rh_same : same_database (rn_args r);
  rh_source : aSource a0 <> "";
  rh_setting : Setting blake3 (rn_range r) (rn_sched r) (rn_args r) used vec ref clones;
  rh_rely : Rely blake3 (rn_waits r) (rn_X r) (rn_args r) used vec ref clones
}.

(** no template is named like a test clone of the database *)
Definition clones_apart (r : Run E) : Prop :=
  forall pre suf x k, clonePattern (dbTestClones (aDB (rn_args r))) (aTpl (rn_args r)) = Ok (Some (pre, suf)) ->
    isCloneName x pre suf = true -> used k -> x <> TemplateName blake3 k.

Definition marked (t : Tables) : option string :=
  GetTemplateBuilt (aWorktreeID a0) (aSource a0) (dbEngine (aDB a0)) (dbConnection (aDB a0)) t.

(** the built-at mark tells the truth about the databases that are there *)
Definition truthful (w : World (Server E)) : Prop :=
  forall k, used k -> marked (st w) = Some (Fingerprint blake3 k) ->
    forall x, x ∈ aSource a0 :: clones -> forall c, stored (server (eng w)) x = Some c -> c = ref k.

(** a prepare that succeeds; one that does not, followed by a recovery that
    could clear the mark, in this process or, its pins gone, in another; and
    the siblings, who leave these databases alone or drop them *)
Inductive step : World (Server E) -> World (Server E) -> Prop :=
| step_prepared r w o : runs_here r -> (run_once r w).2 = Done o -> step w (run_once r w).1
| step_failed r r' p k w w' :
    runs_here r -> runs_here r' -> clones_apart r' -> (forall o, (run_once r w).2 <> Done o) ->
    Pin.counted p ->
    w' = (RecoverDatabases (rn_X r') (rn_args r') (Build_World (with_pins p (eng (run_once r w).1)) (st (run_once r w).1) k)).1 ->
    marked (st w') = None -> step w w'
| step_siblings w s t k :
    (honest blake3 a0 used vec ref (eng w) -> honest blake3 a0 used vec ref s) -> Pin.counted (pinned s) ->
    (forall x, x ∈ aSource a0 :: clones -> stored (server s) x = stored (server (eng w)) x \/ stored (server s) x = None) ->
    marked t = marked (st w) \/ marked t = None ->
    step w (Build_World s t k).

(** *** The invariant *)
Lemma honest_same a s : same_database a -> honest blake3 a used vec ref s <-> honest blake3 a0 used vec ref s.
Proof.
  intros [_ _ He _]. unfold honest. rewrite He. split; intros H r Hr; destruct (H r Hr) as (k & Hk & Hv & Hc);
    exists k; (split; [done|split; [|done]]); destruct Hv; constructor; try done; by rewrite ?He in *.
Qed.

Lemma sane_same a w : same_database a -> TemplateSafety.sane blake3 a used vec ref w <-> sane w.
Proof. intros H. unfold TemplateSafety.sane. by rewrite honest_same. Qed.

Lemma marked_set f t : marked (SetTemplateBuilt (aWorktreeID a0) (aSource a0) (dbEngine (aDB a0)) (dbConnection (aDB a0)) f t) = Some f.
Proof. unfold marked, GetTemplateBuilt, SetTemplateBuilt. cbn. apply lookup_insert_eq. Qed.

Lemma marked_cleared t : marked (ClearTemplateBuiltForWorktree (aWorktreeID a0) t) = None.
Proof.
  unfold marked, GetTemplateBuilt, ClearTemplateBuiltForWorktree. cbn. apply map_lookup_filter_None. right.
  intros x _. cbn. tauto.
Qed.

(** a store call of a run, between which siblings act *)
Lemma sane_store r f w : runs_here r -> sane w -> sane (store_op (rn_X r) f w).1.
Proof.
  intros [Hs _ _ HR] [Hc Hh]. split; cbn; [by rewrite (env_pins _ _ _ _ _ _ _ _ HR)|].
  apply (honest_same _ _ Hs), (env_honest _ _ _ _ _ _ _ _ HR). by apply (honest_same _ _ Hs).
Qed.

Lemma own_same r : runs_here r -> forall x, own (rn_args r) clones x <-> x ∈ aSource a0 :: clones.
Proof. intros [[_ Hs _ _] _ _ _] x. unfold own. by rewrite Hs. Qed.

Lemma kept_store r f w x :
  runs_here r -> x ∈ aSource a0 :: clones -> stored (server (eng (store_op (rn_X r) f w).1)) x = stored (server (eng w)) x.
Proof. intros Hr Hx. cbn. apply (env_own _ _ _ _ _ _ _ _ (rh_rely r Hr)). by apply own_same. Qed.

(** the outcome of a run that did its work *)
Definition delivers (r : Run E) (o : Outcome) (w : World (Server E)) : Prop :=
  let k := aKey (rn_args r) in
  oFingerprint o = Fingerprint blake3 k /\ oSourceDB o = aSource a0 /\ oClones o = clones /\
  marked (st w) = Some (Fingerprint blake3 k) /\
  (forall x, x ∈ aSource a0 :: clones -> stored (server (eng w)) x = Some (ref k)).

Lemma truthful_delivered r o w : runs_here r -> delivers r o w -> truthful w.
Proof.
  intros Hr (_ & _ & _ & Hm & Hf) k Hk Hm'. rewrite Hm in Hm'. injection Hm' as Hfp.
  apply (fp_inj _ _ _ _ _ _ _ _ (rh_setting r Hr)) in Hfp; [subst k|by apply (set_key _ _ _ _ _ _ _ _ (rh_setting r Hr))|done].
  intros x Hx c Hc. rewrite Hf in Hc by done. congruence.
Qed.

(** *** A run keeps it *)
Definition prepare_of (r : Run E) : M (Server E) Outcome :=
  prepareTemplate blake3 (rn_range r) repos (rn_sched r) (rn_waits r) (rn_X r) (rn_fam r) (rn_args r).

Lemma prepare_delivers r w :
  runs_here r -> sane w -> truthful w ->
  let q := prepare_of r w in
  sane q.1 /\
  (forall o, q.2 = Done o ->
    let k := aKey (rn_args r) in
    oFingerprint o = Fingerprint blake3 k /\ oSourceDB o = aSource a0 /\ oClones o = clones /\
    (oCacheHit o = true -> marked (st q.1) = Some (Fingerprint blake3 k)) /\
    (forall x, x ∈ aSource a0 :: clones -> stored (server (eng q.1)) x = Some (ref k))).
Proof.
  intros Hr Hs Ht. pose proof (rh_same r Hr) as Hdb. set (v x := stored (server (eng w)) x).
  assert (kept (rn_args r) clones v (eng w)) as Hk by done. unfold prepare_of.
  destruct (prepareTemplate_sound blake3 (rn_range r) repos (rn_sched r) (rn_waits r) (rn_X r) (rn_fam r) (rn_args r) used vec ref clones
    (rh_setting r Hr) (rh_rely r Hr) (st w) v w eq_refl (proj2 (sane_same _ _ Hdb) Hs) Hk) as (H1 & _ & H3).
  destruct (prepareTemplate _ _ _ _ _ _ _ _ w) as [w' q]. cbn [fst snd] in *. split; [by apply (sane_same _ _ Hdb)|].
  intros o ->. destruct H3 as (F1 & F2 & F3 & F4). destruct Hdb as [E1 E2 E3 E4]. rewrite E1, E2, E3, E4 in *.
  split; [done|]. split; [done|]. split; [done|].
  assert (filled (rn_args r) ref (aSource a0 :: clones) (eng w') /\ (oCacheHit o = true -> marked (st w') = Some (Fingerprint blake3 (aKey (rn_args r)))))
    as [G1 G2]; [|by split].
  destruct (oCacheHit o); [destruct F4 as [[Et Hf]|(Et & Hm & Hkept & Hall)]|by destruct F4].
  - split; [done|]. intros _. rewrite Et. apply marked_set.
  - split; [|intros _; by rewrite Et]. intros x Hx. unfold at_. rewrite (Hkept x) by (by apply own_same).
    destruct (Hall x) as [c Hc]; [by apply own_same|]. rewrite Hc. f_equal. symmetry. symmetry.
    apply (Ht _ (set_key _ _ _ _ _ _ _ _ (rh_setting r Hr)) Hm x Hx). exact Hc.
Qed.

Lemma bind_cases {A B} (m : M (Server E) A) (f : A -> M (Server E) B) w (P : World (Server E) -> outcome B -> Prop) :
  (forall x w1, m w = (w1, Done x) -> P (f x w1).1 (f x w1).2) -> (forall e, P (m w).1 (Fail e)) -> P (m w).1 Crashed ->
  P ((m ≫= f) w).1 ((m ≫= f) w).2.
Proof.
  intros HD HF HC. unfold mbind, M_bind. destruct (m w) as [w1 [x|e|]]; cbn in *; [by apply HD|apply HF|apply HC].
Qed.

Lemma run_delivers r w :
  runs_here r -> sane w -> truthful w -> sane (run_once r w).1 /\ (forall o, (run_once r w).2 = Done o -> delivers r o (run_once r w).1).
Proof.
  intros Hr Hs Ht. unfold run_once, runDatabase.
  set (first := if rn_fresh r then store_op (rn_X r) (fun _ => ClearTemplateBuiltForWorktree (aWorktreeID (rn_args r))) else mret tt).
  set (P w' q := sane w' /\ forall o, q = Done o -> delivers r o w').
  assert (sane (first w).1 /\ ((first w).2 = Done tt -> truthful (first w).1)) as [Hs1 Ht1].
  { unfold first. destruct (rn_fresh r); [|done]. split; [by apply sane_store|]. unfold store_op.
    destruct (crash _ _), (store_fault _ _); try done. intros _ k _. rewrite (same_worktree _ (rh_same r Hr)). cbn [st fst].
    by rewrite marked_cleared. }
  apply (bind_cases _ _ _ P); [|by split|by split]. intros [] w1 E1. rewrite E1 in *. cbn [fst snd] in *.
  destruct (prepare_delivers r w1 Hr Hs1 (Ht1 eq_refl)) as [Hs2 Hd]. fold (prepare_of r).
  apply (bind_cases _ _ _ P); [|by split|by split]. intros o w2 E2. rewrite E2 in *. cbn [fst snd] in *.
  destruct (Hd o eq_refl) as (F1 & F2 & F3 & F4 & F5). clear Hd Ht1 E1 E2.
  destruct (negb (oCacheHit o) && negb (String.eqb (oFingerprint o) "") && negb (String.eqb (oSourceDB o) "")) eqn:Eif.
  - unfold recordTemplateBuilt. destruct (rh_same r Hr) as [E1 E2 E3 E4]. rewrite E1, E2, E3, E4.
    apply (bind_cases _ _ _ P); try (by split; [apply sane_store|]). intros [] w3 Eop.
    set (f := fun _ : Z => _) in Eop. pose proof (sane_store r f w2 Hr Hs2) as Hs3. pose proof (fun x => kept_store r f w2 x Hr) as Hk3.
    rewrite Eop in Hs3, Hk3. split; [done|]. intros o' [= <-]. split; [done|]. split; [done|]. split; [done|]. split.
    + unfold store_op in Eop. destruct (crash _ _), (store_fault _ _); try done. injection Eop as <-. apply marked_set.
    + intros x Hx. rewrite Hk3 by done. by apply F5.
  - split; [done|]. intros o' [= <-]. split; [done|]. split; [done|]. split; [done|]. split; [|done].
    apply F4. destruct (oCacheHit o); [done|]. exfalso. cbn in Eif.
    rewrite F1, F2 in Eif. destruct (String.eqb_spec (Fingerprint blake3 (aKey (rn_args r))) "") as [E1|]; cbn in Eif.
    + by apply (fp_nonempty _ _ _ _ _ _ _ _ (rh_setting r Hr) _ (set_key _ _ _ _ _ _ _ _ (rh_setting r Hr))).
    + destruct (String.eqb_spec (aSource a0) "") as [E1|]; [|done]. by apply (rh_source r Hr).
Qed.

(** *** Recovery *)
Definition keeps_sane {A} (m : M (Server E) A) : Prop := forall w, sane w -> sane (m w).1.

Lemma keeps_sane_bind {A B} (m : M (Server E) A) (f : A -> M (Server E) B) :
  keeps_sane m -> (forall x, keeps_sane (f x)) -> keeps_sane (m ≫= f).
Proof.
  intros Hm Hf w Hw. apply (bind_cases m f w (fun w' _ => sane w')); [|intros _; by apply Hm|by apply Hm].
  intros x w1 Eop. apply Hf. specialize (Hm w Hw). by rewrite Eop in Hm.
Qed.

Lemma keeps_sane_attempt {A} (m : M (Server E) A) : keeps_sane m -> keeps_sane (attempt m).
Proof. intros Hm w Hw. specialize (Hm w Hw). unfold attempt. by destruct (m w) as [w1 []]. Qed.

Lemma sane_env r w k : runs_here r -> sane w -> sane (Build_World (env (rn_X r) (tick w) (eng w)) (st w) k).
Proof.
  intros Hr [Hc Hh]. pose proof (rh_same r Hr) as Hs. pose proof (rh_rely r Hr) as HR.
  split; cbn; [by rewrite (env_pins _ _ _ _ _ _ _ _ HR)|].
  apply (honest_same _ _ Hs), (env_honest _ _ _ _ _ _ _ _ HR). by apply (honest_same _ _ Hs).
Qed.

Lemma keeps_sane_drop r x :
  runs_here r -> (forall k, used k -> x <> TemplateName blake3 k) ->
  keeps_sane (on_server (rn_X r) (fun n => DropDatabase n x)).
Proof.
  intros Hr Hx w Hw. destruct (sane_env r w O Hr Hw) as [Hc Hh]. cbn in Hc, Hh. split; cbn; [exact Hc|].
  intros row Hrow. destruct (Hh row Hrow) as (k & Hk & Hv & Ht). exists k. split; [done|]. split; [done|].
  intros Hl c. cbn. rewrite drop_frame by (intros E1; by apply (Hx k Hk)). by apply Ht.
Qed.

Lemma keeps_sane_probe {A} r (f : nat -> E -> res err A) : runs_here r -> keeps_sane (probe (rn_X r) f).
Proof. intros Hr w Hw. by apply (sane_env r w (S (tick w))). Qed.

Lemma keeps_sane_drop_each r l :
  runs_here r -> (forall x k, x ∈ l -> used k -> x <> TemplateName blake3 k) -> keeps_sane (drop_each (rn_X r) l).
Proof.
  intros Hr. induction l as [|x l IH]; intros Hl; cbn [drop_each]; [by intros w Hw|].
  apply keeps_sane_bind; [apply keeps_sane_attempt, keeps_sane_drop; [done|]; intros k; apply Hl; left|].
  intros _. apply IH. intros y k Hy. apply Hl. by right.
Qed.

(** what recovery drops is never a template *)
Lemma owned_apart r w l w' :
  runs_here r -> clones_apart r -> ownedDatabases (rn_X r) (rn_args r) w = (w', Done l) ->
  forall x k, x ∈ l -> used k -> x <> TemplateName blake3 k.
Proof.
  intros Hr Hap. pose proof (name_own _ _ _ _ _ _ _ _ (rh_setting r Hr)) as Hown.
  assert (forall k, used k -> aSource (rn_args r) <> TemplateName blake3 k) as Hsrc.
  { intros k Hk E1. apply (Hown k Hk). rewrite <- E1. unfold own. left. }
  unfold ownedDatabases, lift, mbind, M_bind. destruct (clonePattern _ _) as [[[pre suf]|]|e] eqn:Ep; cbn; [| |done].
  - unfold probe, on_server, engine_op. cbn. destruct (crash _ _); [done|]. destruct (ListMatching _ _ _) as [live|e]; [|done].
    intros [= _ <-] x k [->|[[_ Hx]%andb_prop _]%elem_of_filter_bool]%elem_of_cons Hk; [by apply Hsrc|]. by apply (Hap pre suf).
  - intros [= _ <-] x k ->%list_elem_of_singleton Hk. by apply Hsrc.
Qed.

Lemma keeps_sane_owned r : runs_here r -> keeps_sane (ownedDatabases (rn_X r) (rn_args r)).
Proof.
  intros Hr. unfold ownedDatabases. apply keeps_sane_bind; [intros w Hw; unfold lift; by destruct (clonePattern _ _)|].
  intros [[pre suf]|]; [|by intros w Hw]. apply keeps_sane_bind; [by apply keeps_sane_probe|by intros l w Hw].
Qed.

Lemma keeps_sane_recover r : runs_here r -> clones_apart r -> keeps_sane (RecoverDatabases (rn_X r) (rn_args r)).
Proof.
  intros Hr Hap. unfold RecoverDatabases.
  apply keeps_sane_bind; [apply keeps_sane_attempt|intros _; apply keeps_sane_bind; [|by intros [] ? ?]].
  - intros w Hw. unfold dropOwned. apply (bind_cases _ _ _ (fun w' _ => sane w')); [|intros _; by apply keeps_sane_owned|by apply keeps_sane_owned].
    intros l w1 E1. apply keeps_sane_drop_each; [done|by eapply owned_apart|].
    pose proof (keeps_sane_owned r Hr w Hw) as H1. by rewrite E1 in H1.
  - apply keeps_sane_attempt. intros ? ?. by apply sane_store.
Qed.

(** *** Histories *)
Lemma step_invariant w w' : step w w' -> sane w /\ truthful w -> sane w' /\ truthful w'.
Proof.
  intros Hst [Hs Ht]. destruct Hst as [r w o Hr Ho|r r' p k w w' Hr Hr' Hap _ Hp -> Hm|w s t k Hh Hp Hown Hmark].
  - destruct (run_delivers r w Hr Hs Ht) as [Hs' Hd]. split; [done|]. by eapply truthful_delivered; [|apply Hd].
  - split; [|intros k'; by rewrite Hm]. apply keeps_sane_recover; [done..|].
    destruct (run_delivers r w Hr Hs Ht) as [[_ Hh] _]. by split.
  - split; [split; [done|by apply Hh, Hs]|]. intros k' Hk' Hm x Hx c Hc. cbn in *.
    destruct Hmark as [E1|E1]; [|congruence]. destruct (Hown x Hx) as [E2|E2]; [|congruence].
    apply (Ht k' Hk' (eq_trans (eq_sym E1) Hm) x Hx). congruence.
Qed.

Lemma history_invariant w w' : rtc step w w' -> sane w -> truthful w -> sane w' /\ truthful w'.
Proof. induction 1 as [|w w1 w' Hst _ IH]; [done|]. intros Hs Ht. destruct (step_invariant w w1 Hst (conj Hs Ht)). auto. Qed.
End History.

Section Theorems.
Context {E Data : Type} `{TD : TplDriver E Data} {TL : TplLaws E Data}.
Variable blake3 : string -> string.
Variable repos : gset Z.
Variable used : Key -> Prop.
Variable vec : Key -> Inputs.
Variable ref : Key -> Data.
Variable clones : list string.
Variable a0 : TemplateArgs.


End Theorems.

(** ** On a concrete server *)
Definition demo_at (v : string) (fresh : bool) : Run Mem :=
  {| rn_range := first_range; rn_sched := in_order; rn_waits := fun _ => None; rn_X := idle_env; rn_fam := MySQL;
     rn_args := at_version v; rn_fresh := fresh |}.
Definition new_server : World (Server Mem) :=
  Build_World {| server := {| data := ∅; vers := ∅ |}; snaps := []; pinned := Pin.init |} no_tables 0.

Lemma counted_init : Pin.counted Pin.init.
Proof. split; [done|]. cbn. set_solver. Qed.

(** a server on which the migration of the second build fails half-way *)
#[local] Instance faulty : TplDriver Mem string := shop (fault_at 18) true.
#[local] Instance faulty_laws : TplLaws Mem string := shop_laws (fault_at 18) true.

Definition demo_run (v : string) : World (Server Mem) -> World (Server Mem) * outcome Outcome :=
  run_once toy_digest {[1%Z]} (demo_at v false).
(** the recovery, in a new process *)
Definition demo_recover (w : World (Server Mem)) : World (Server Mem) :=
  (RecoverDatabases idle_env (at_version "v2") (Build_World (with_pins Pin.init (eng w)) (st w) (tick w))).1.
Definition on_app (w : World (Server Mem)) : option string := stored (server (eng w)) "app".

(** v1 is built; the build of v2 fails *)
Definition built_v1 : World (Server Mem) := (demo_run "v1" new_server).1.
Definition failed_v2 : World (Server Mem) := (demo_run "v2" built_v1).1.

Local Abbreviation demo_step := (step toy_digest {[1%Z]} demo_used demo_vec demo_ref ["app_1"] (at_version "v1")).
Local Abbreviation demo_runs := (runs_here toy_digest demo_used demo_vec demo_ref ["app_1"] (at_version "v1")).

Lemma demo_here v fresh : v = "v1" \/ v = "v2" -> demo_runs (demo_at v fresh).
Proof. intros Hv. split; [done|done|by apply shop_setting|apply shop_rely]. Qed.

Lemma demo_sane : sane toy_digest (at_version "v1") demo_used demo_vec demo_ref new_server.
Proof. split; [apply counted_init|by intros r ?%elem_of_nil]. Qed.

Lemma demo_truthful : truthful toy_digest demo_used demo_ref ["app_1"] (at_version "v1") new_server.
Proof. by intros k _. Qed.

Lemma demo_names_apart x k : demo_used k -> String.length x <> 20 -> x <> TemplateName toy_digest k.
Proof. intros Hk%demo_name_len Hx ->. by apply Hx. Qed.

Lemma demo_clones_apart : clones_apart toy_digest demo_used (demo_at "v2" false).
Proof.
  intros pre suf x k Hp (mid & -> & _)%isCloneName_spec _. vm_compute in Hp. injection Hp as <- <-. done.
Qed.

(** the failed build is recovered *)
Lemma shop_history : rtc demo_step new_server (demo_recover failed_v2).
Proof.
  eapply rtc_l; [apply (step_prepared _ _ _ _ _ _ _ (demo_at "v1" false) new_server
    (outcome_of toy_digest (at_version "v1") "_tm_32929471986e6c5f" false ["app_1"] "")); [apply demo_here; by left|vm_compute; reflexivity]|].
  eapply rtc_l; [|apply rtc_refl].
  apply (step_failed _ _ _ _ _ _ _ (demo_at "v2" false) (demo_at "v2" false) Pin.init (tick failed_v2)).
  - apply demo_here. by right.
  - apply demo_here. by right.
  - exact demo_clones_apart.
  - intros o. vm_compute. discriminate.
  - apply counted_init.
  - reflexivity.
  - reflexivity.
Qed.


(** the rows after a build of v2 *)
Definition after_v2 : World (Server Mem) := (demo_run "v2" (demo_recover failed_v2)).1.
Definition row_v2 : Row := default (Build_Row "" "" "" "" "" "" None None None None 0%Z 0%Z 0%Z None "") (last (snaps (eng after_v2))).


(** ** Where the guarantees end *)

(** without the recovery the mark of v1 outlives the failed build of v2, and
    going back to v1 trusts the half-migrated database *)
Example failed_build_is_trusted :
  let r := demo_run "v1" failed_v2 in
  (exists o, r.2 = Done o /\ oCacheHit o = true) /\ on_app r.1 = Some "torn".
Proof. cbv zeta. split; [eexists; split|]; vm_compute; reflexivity. Qed.

(** a database with dumps and migrations *)
Definition dump_args (v : string) : TemplateArgs :=
  {| aDB := {| dbEngine := "mysql"; dbConnection := ""; dbDump := [{| dpPath := "dump.sql"; dpOptional := false |}]; dbMigrate := true;
               dbSeed := false; dbRollback := false; dbInputs := [{| Glob := "db/*"; is_lockfile := false |}]; dbTestClones := None |};
     aTpl := demo_tpl; aFiles := fun f => if String.eqb f "schema" then Some v else if String.eqb f "dump.sql" then Some "rows" else None;
     aKey := key_of v; aInputs := demo_inputs v; aVersion := "8.0"; aSource := "app"; aRepoID := 1; aWorktreeID := 7 |}.
Definition run_dump (faults : list nat) (v : string) (w : World (Server Mem)) : World (Server Mem) * outcome Outcome :=
  @runDatabase Mem string (shop (fun n => existsb (Nat.eqb n) faults) true) toy_digest first_range {[1%Z]} in_order (fun _ => None) idle_env
    MySQL (dump_args v) false w.

(** what [dump_atomic] excludes: the recorded dump-only template cannot be
    restored nor probed, and the copy that is to replace it fails half-way: the
    prepare succeeds, and the torn template keeps its row *)
Example torn_dump_template :
  let t := TemplateName toy_digest (dumpKey (dump_args "v1")) in
  let w := (run_dump [] "v2" new_server).1 in
  let r := run_dump [20; 25; 26] "v1" w in
  data (server (eng w)) !! t = Some "rows" /\ (exists o, r.2 = Done o /\ oCacheHit o = false) /\
  data (server (eng r.1)) !! t = Some "torn" /\ existsb (fun row => String.eqb (template_name row) t) (snaps (eng r.1)) = true.
Proof. cbv zeta. split; [vm_compute; reflexivity|]. split; [eexists; split; vm_compute; reflexivity|]. split; vm_compute; reflexivity. Qed.
