(* ===== verification/InputKeys.v ===== *)
(** * The inputs behind a template's key

    [internal/prepare/prepare.go]: the files that a database's inputs match are
    hashed once ([walkInputs]); the key that names the template
    ([keyFromWalks]) and the vectors that find its ancestors
    ([vectorsFromWalks]) are both folded from these hashes. *)
From stdpp Require Import base strings list sets gmap sorting.
From Stdlib Require Import ZArith Lia.
From S2P Require Import Prelude GoStrings Slug Lines Paths SnapshotKey SnapshotStore BranchSwap TemplateBuild.
#[local] Open Scope treeman_scope.

(** ** The configuration *)

(** [config.MigrateSpec] and [config.SeedSpec], as far as they are hashed *)
Record Command := { cRun : string; cEnv : gmap string string }.

Record KeyDB := {
  kdEngine : string;
  kdConnection : string;
  kdDump : list DumpSpec;
  kdMigrate : option Command;
  kdSeed : option Command;
  kdInputs : list Input
}.

(** [inputWalk] *)
Record inputWalk := { iw_glob : string; hashByAbs : gmap string string }.

Section Keys.
Variable blake3 : string -> string.
(** [doublestar.FilepathGlob], [BatchHashedFiles] and [LockfileHashesForWithCache] *)
Variable FilepathGlob : string -> res err (list string).
Variable BatchHashedFiles : list string -> res err (gmap string string).
Variable LockfileHashes : list string -> res err (gmap string string).
Variable worktreePath : string.

Fixpoint walkInputs (inputs : list Input) : res err (list inputWalk) :=
  match inputs with
  | [] => Ok []
  | i :: rest =>
      let? matches := FilepathGlob (join_abs worktreePath (Glob i)) in
      match matches with
      | [] => walkInputs rest
      | _ =>
          let? h := BatchHashedFiles matches in
          let? walks := walkInputs rest in
          Ok ({| iw_glob := Glob i; hashByAbs := h |} :: walks)
      end
  end.

(** [relHash]: the hashes by path relative to the worktree *)
Definition relHash (m : gmap string string) : gmap string string :=
  list_to_map (map (fun kv => (Rel worktreePath kv.1, kv.2)) (map_to_list m)).

Definition hash_line (m : gmap string string) (k : string) : string := k +:+ ":" +:+ default "" (m !! k) +:+ nl.
Definition fold_lines (m : gmap string string) : string := foldr (fun k s => hash_line m k +:+ s) "" (sorted_names m).

Definition inputHashes (walks : list inputWalk) : gmap string string :=
  foldl (fun acc w => <[iw_glob w := fold_lines (relHash (hashByAbs w))]> acc) ∅ walks.

(** [sortedKeys] over an environment *)
Definition env_parts (prefix : string) (env : gmap string string) : list string :=
  map (fun k => prefix +:+ k +:+ "=" +:+ default "" (env !! k)) (sorted_names env).

Definition command_parts (name : string) (c : option Command) : list string :=
  match c with
  | None => []
  | Some c => (name +:+ ".run=" +:+ cRun c) :: env_parts (name +:+ ".env.") (cEnv c)
  end.

Definition commandsHash (d : KeyDB) : string :=
  match (command_parts "migrate" (kdMigrate d) ++ command_parts "seed" (kdSeed d))%list with
  | [] => ""
  | parts => hexEncode (blake3 (stream_fields parts))
  end.

(** the dumps in declared order, by their path in the configuration *)
Definition dump_fields (hashes : gmap string string) (dumps : list DumpSpec) : list string :=
  flat_map (fun d => [dpPath d; default "" (hashes !! join_abs worktreePath (dpPath d))]) dumps.

Definition dumpHashOf (dumps : list DumpSpec) : res err string :=
  match dumps with
  | [] => Ok ""
  | _ =>
      let? hashes := LockfileHashes (map (fun d => join_abs worktreePath (dpPath d)) dumps) in
      match dumps with
      | [d] => Ok (default "" (hashes !! join_abs worktreePath (dpPath d)))
      | _ => Ok (hexEncode (blake3 (stream_fields (dump_fields hashes dumps))))
      end
  end.

Definition keyFromWalks (walks : list inputWalk) (d : KeyDB) (engineVersion : string) : res err Key :=
  let? dumpHash := dumpHashOf (kdDump d) in
  let cmdHash := commandsHash d in
  let hashes := inputHashes walks in
  let hashes := if String.eqb cmdHash "" then hashes else <[CommandsHashKey := cmdHash]> hashes in
  Ok (New (kdEngine d) engineVersion (kdConnection d) "" "" dumpHash hashes).

Definition by_path (x y : FileHash) : Prop := String.le (Path x) (Path y).
#[local] Instance by_path_dec : RelDecision by_path.
Proof. intros x y. unfold by_path. apply _. Defined.

Definition vector_of (m : gmap string string) : InputVector :=
  merge_sort by_path (map (fun kv => {| Path := Rel worktreePath kv.1; Hash := kv.2 |}) (map_to_list m)).

Definition vectorsFromWalks (walks : list inputWalk) : Inputs :=
  foldl (fun out w => <[iw_glob w := vector_of (hashByAbs w)]> out) ∅ walks.

Definition computeKeyAndVectors (d : KeyDB) (engineVersion : string) : res err (Key * Inputs) :=
  let? walks := walkInputs (kdInputs d) in
  let? key := keyFromWalks walks d engineVersion in
  Ok (key, vectorsFromWalks walks).
End Keys.

(** ** Lemmas: hashes by path *)
Definition all_below (w : string) (m : gmap string string) : Prop := forall abs h, m !! abs = Some h -> exists r, below w r abs.

Lemma rel_names_distinct w m : all_below w m -> NoDup (map (fun kv => (Rel w kv.1, kv.2)) (map_to_list m)).*1.
Proof.
  intros Hm. rewrite <- list_fmap_compose. apply NoDup_fmap_2_strong; [|apply NoDup_map_to_list].
  intros [a1 h1] [a2 h2] H1%elem_of_map_to_list H2%elem_of_map_to_list E. cbn in E.
  destruct (Hm a1 h1 H1) as [r1 B1], (Hm a2 h2 H2) as [r2 B2]. pose proof (Rel_below_inj w r1 r2 a1 a2 B1 B2 E) as ->. congruence.
Qed.

Lemma relHash_list w m : all_below w m -> map_to_list (relHash w m) ≡ₚ map (fun kv => (Rel w kv.1, kv.2)) (map_to_list m).
Proof. intros Hm. by apply map_to_list_to_map, rel_names_distinct. Qed.

Lemma relHash_lookup w m abs h : all_below w m -> m !! abs = Some h -> relHash w m !! Rel w abs = Some h.
Proof.
  intros Hm Ha. apply elem_of_map_to_list. rewrite relHash_list by done.
  apply (list_elem_of_fmap_2 (fun kv => (Rel w kv.1, kv.2)) _ (abs, h)). by apply elem_of_map_to_list.
Qed.

#[local] Instance by_path_trans : Transitive by_path.
Proof. intros x y z. unfold by_path. apply (transitivity (R := String.le)). Qed.
#[local] Instance by_path_total : Total by_path.
Proof. intros x y. unfold by_path. apply (total String.le). Qed.

Definition file_hash (m : gmap string string) (k : string) : FileHash := {| Path := k; Hash := default "" (m !! k) |}.

(** a vector is a function of the hashes by relative path *)
Lemma vector_of_rel w m : all_below w m -> vector_of w m = map (file_hash (relHash w m)) (sorted_names (relHash w m)).
Proof.
  intros Hm. apply (StronglySorted_unique_strong by_path).
  - intros x1 x2 H1 H2 L1 L2. unfold vector_of in H1. rewrite merge_sort_Permutation in H1.
    apply list_elem_of_fmap in H1 as ([abs h] & -> & H1%elem_of_map_to_list), H2 as (k & -> & H2). unfold by_path in *. cbn in *.
    assert (Rel w abs = k) as <- by (by apply (anti_symm String.le)). unfold file_hash. by rewrite (relHash_lookup w m abs h).
  - apply StronglySorted_merge_sort; apply _.
  - apply (StronglySorted_fmap _ String.le); [done|]. apply (StronglySorted_merge_sort String.le).
  - unfold vector_of, sorted_names. rewrite merge_sort_Permutation.
    rewrite (Permutation_map (file_hash (relHash w m)) (merge_sort_Permutation String.le _)), <- list_fmap_compose.
    transitivity (map (fun kv => {| Path := kv.1; Hash := kv.2 |}) (map_to_list (relHash w m))).
    + rewrite relHash_list by done. by rewrite map_map.
    + apply Permutation_refl'. apply map_ext_in. intros [k h] Hk%list_elem_of_In%elem_of_map_to_list. cbn. unfold file_hash. by rewrite Hk.
Qed.

(** ** Lemmas: what the folds keep *)
Lemma terminated_inj (t : ascii) (f g : string -> string) l l' :
  (forall x, x ∈ l -> has_byte t (f x) = false) -> (forall x, x ∈ l' -> has_byte t (g x) = false) ->
  foldr (fun x s => f x +:+ String t s) "" l = foldr (fun x s => g x +:+ String t s) "" l' -> map f l = map g l'.
Proof.
  revert l'. induction l as [|x l IH]; intros [|y l'] Hf Hg; cbn [foldr map]; try done.
  - intros E. exfalso. by destruct (g y).
  - intros E. exfalso. by destruct (f x).
  - intros E. apply (f_equal (cut_byte t)) in E.
    rewrite !cut_byte_here in E by (first [apply Hf; left|apply Hg; left]). injection E as E1 E2. f_equal; [done|].
    apply IH; [intros z Hz; apply Hf; by right|intros z Hz; apply Hg; by right|done].
Qed.

Lemma paired_maps_eq (m1 m2 : gmap string string) :
  Forall2 (fun k1 k2 => k1 = k2 /\ default "" (m1 !! k1) = default "" (m2 !! k2)) (sorted_names m1) (sorted_names m2) -> m1 = m2.
Proof.
  intros HF. apply names_values_eq.
  - revert HF. generalize (sorted_names m1), (sorted_names m2). intros l1 l2. induction 1 as [|k1 k2 l1 l2 [-> _] _ IH]; [done|]. by f_equal.
  - intros n [i Hn]%list_elem_of_lookup. destruct (Forall2_lookup_l _ _ _ _ _ HF Hn) as (n' & _ & <- & Hv). done.
Qed.

(** a digest in hexadecimal: no colon, and always as long *)
Definition digest_text (h : string) : Prop := String.length h = 64 /\ has_byte newline h = false.
Definition plain_walk (m : gmap string string) : Prop :=
  forall k h, m !! k = Some h -> has_byte newline k = false /\ digest_text h.

Lemma fold_lines_inj m1 m2 : plain_walk m1 -> plain_walk m2 -> fold_lines m1 = fold_lines m2 -> m1 = m2.
Proof.
  intros H1 H2 E. set (body (m : gmap string string) k := k +:+ ":" +:+ default "" (m !! k)).
  assert (forall m, fold_lines m = foldr (fun k s => body m k +:+ String newline s) "" (sorted_names m)) as Hfold.
  { intros m. unfold fold_lines. induction (sorted_names m) as [|k l IH]; [done|]. cbn [foldr]. rewrite IH. unfold hash_line, body, nl.
    by rewrite !str_app_assoc. }
  assert (forall m, plain_walk m -> forall k, k ∈ sorted_names m -> has_byte newline (body m k) = false) as Hline.
  { intros m Hm k [h Hk]%sorted_names_spec. destruct (Hm k h Hk) as [Ha [_ Hb]]. unfold body. rewrite Hk. change (default "" (Some h)) with h.
    by rewrite !has_byte_app, Ha, Hb. }
  rewrite !Hfold in E. apply terminated_inj in E; [|by apply Hline..].
  assert (Forall2 (fun k1 k2 => k1 = k2 /\ default "" (m1 !! k1) = default "" (m2 !! k2)) (sorted_names m1) (sorted_names m2)) as HF.
  { apply Forall2_same_length_lookup. split; [by apply (f_equal length) in E; rewrite !length_map in E|].
    intros i k1 k2 E1 E2. apply (f_equal (fun l => l !! i)) in E. rewrite !list_lookup_fmap, E1, E2 in E. injection E as E.
    apply list_elem_of_lookup_2, sorted_names_spec in E1 as [h1 L1]. apply list_elem_of_lookup_2, sorted_names_spec in E2 as [h2 L2].
    destruct (H1 k1 h1 L1) as [_ [N1 _]], (H2 k2 h2 L2) as [_ [N2 _]]. unfold body in E. rewrite L1, L2 in *. cbn [from_option id] in E |- *.
    apply str_app_inj_len in E as [-> E]; [by injection E as ->|].
    apply (f_equal String.length) in E. rewrite !str_length_app in E. cbn in *. lia. }
  by apply paired_maps_eq.
Qed.

Lemma stream_fields_eq l1 l2 : forallb no_nul l1 = true -> forallb no_nul l2 = true -> stream_fields l1 = stream_fields l2 -> l1 = l2.
Proof.
  intros H1 H2 E. assert (forall l, stream_fields l = foldr (fun x s => x +:+ String "000" s) "" l) as Hs.
  { intros l. unfold stream_fields, field, nul. induction l as [|x l IH]; [done|]. cbn [foldr]. by rewrite IH, str_app_assoc. }
  rewrite !Hs in E. apply (terminated_inj "000" id id) in E; [by rewrite !map_id in E|..].
  - intros x Hx. rewrite forallb_forall in H1. specialize (H1 x (proj1 (list_elem_of_In _ _) Hx)). by apply negb_true_iff in H1.
  - intros x Hx. rewrite forallb_forall in H2. specialize (H2 x (proj1 (list_elem_of_In _ _) Hx)). by apply negb_true_iff in H2.
Qed.

(** *** Commands *)
Definition plain_env (env : gmap string string) : Prop := forall k, is_Some (env !! k) -> has_byte "=" k = false.
Definition plain_command (c : option Command) : Prop := forall x, c = Some x -> plain_env (cEnv x).

Lemma env_parts_inj p e1 e2 : plain_env e1 -> plain_env e2 -> env_parts p e1 = env_parts p e2 -> e1 = e2.
Proof.
  intros H1 H2 E. unfold env_parts in E.
  assert (Forall2 (fun k1 k2 => k1 = k2 /\ default "" (e1 !! k1) = default "" (e2 !! k2)) (sorted_names e1) (sorted_names e2)) as HF.
  { apply Forall2_same_length_lookup. split; [by apply (f_equal length) in E; rewrite !length_map in E|].
    intros i k1 k2 E1 E2. apply (f_equal (fun l => l !! i)) in E. rewrite !list_lookup_fmap, E1, E2 in E. injection E as E.
    apply str_app_inj_len in E as [_ E]; [|done].
    apply list_elem_of_lookup_2, sorted_names_spec in E1. apply list_elem_of_lookup_2, sorted_names_spec in E2.
    apply (f_equal (cut_byte "=")) in E. cbn [String.append] in E. rewrite !cut_byte_here in E; [|by apply H2|by apply H1]. by injection E as -> ->. }
  by apply paired_maps_eq.
Qed.

Lemma command_parts_inj name c1 c2 :
  plain_command c1 -> plain_command c2 -> command_parts name c1 = command_parts name c2 -> c1 = c2.
Proof.
  intros H1 H2. destruct c1 as [[r1 e1]|], c2 as [[r2 e2]|]; try done. cbn. intros [= E1 E2].
  apply str_app_inj_len in E1 as [_ E1]; [|done]. injection E1 as ->.
  apply env_parts_inj in E2 as ->; [done|by apply (H1 _ eq_refl)|by apply (H2 _ eq_refl)].
Qed.

Lemma command_parts_prefix name c x : x ∈ command_parts name c -> has_prefix (name +:+ ".") x = true.
Proof.
  intros Hx. apply has_prefix_app. destruct c as [[r e]|]; [|by apply elem_of_nil in Hx]. cbn in Hx.
  apply elem_of_cons in Hx as [->|(k & -> & _)%list_elem_of_fmap]; eexists; rewrite !str_app_assoc; cbn; reflexivity.
Qed.

(** the parts of the two commands do not mix *)
Lemma commands_inj m1 s1 m2 s2 :
  plain_command m1 -> plain_command s1 -> plain_command m2 -> plain_command s2 ->
  (command_parts "migrate" m1 ++ command_parts "seed" s1)%list = (command_parts "migrate" m2 ++ command_parts "seed" s2)%list ->
  m1 = m2 /\ s1 = s2.
Proof.
  intros H1 H2 H3 H4 E.
  assert (forall m s, List.filter (has_prefix "migrate.") (command_parts "migrate" m ++ command_parts "seed" s) = command_parts "migrate" m /\
    List.filter (has_prefix "seed.") (command_parts "migrate" m ++ command_parts "seed" s) = command_parts "seed" s) as Hf.
  { intros m s. rewrite !List.filter_app. split.
    - rewrite filter_all_true, filter_all_false; [by rewrite app_nil_r|..]; intros x Hx%command_parts_prefix; [|done].
      apply has_prefix_app in Hx as [r ->]. done.
    - rewrite filter_all_false, filter_all_true; [done|..]; intros x Hx%command_parts_prefix; [done|].
      apply has_prefix_app in Hx as [r ->]. done. }
  split; [apply (command_parts_inj "migrate"); [done..|]|apply (command_parts_inj "seed"); [done..|]].
  - rewrite <- (proj1 (Hf m1 s1)), E. apply Hf.
  - rewrite <- (proj2 (Hf m1 s1)), E. apply Hf.
Qed.

(** *** The entry of a glob *)
Definition walk_of (g : string) (walks : list inputWalk) : option inputWalk :=
  foldl (fun acc w => if decide (iw_glob w = g) then Some w else acc) None walks.

Lemma fold_insert_lookup {A} (f : inputWalk -> A) walks g :
  foldl (fun acc w => <[iw_glob w := f w]> acc) (∅ : gmap string A) walks !! g = f <$> walk_of g walks.
Proof.
  unfold walk_of. assert (forall (m : gmap string A) o, m !! g = f <$> o ->
    foldl (fun acc w => <[iw_glob w := f w]> acc) m walks !! g =
    f <$> foldl (fun acc w => if decide (iw_glob w = g) then Some w else acc) o walks) as H; [|by apply H].
  induction walks as [|w walks IH]; intros m o Hm; [done|]. cbn [foldl]. apply IH. case_decide as E.
  - subst g. by rewrite lookup_insert_eq.
  - by rewrite lookup_insert_ne.
Qed.

Lemma walk_of_in g walks w : walk_of g walks = Some w -> w ∈ walks /\ iw_glob w = g.
Proof.
  unfold walk_of. assert (forall o, (forall x, o = Some x -> x ∈ walks /\ iw_glob x = g) \/ True ->
    foldl (fun acc w => if decide (iw_glob w = g) then Some w else acc) o walks = Some w -> o = Some w \/ w ∈ walks /\ iw_glob w = g) as H.
  { induction walks as [|x walks IH]; intros o _; cbn [foldl]; [by left|]. intros Hf. apply IH in Hf as [Hf|[? ?]]; [|right; set_solver|by right].
    case_decide; [|by left]. injection Hf as ->. right. set_solver. }
  intros Hf. by destruct (H None (or_intror I) Hf).
Qed.

Definition good_walks (w : string) (walks : list inputWalk) : Prop :=
  forall x, x ∈ walks -> all_below w (hashByAbs x) /\ plain_walk (relHash w (hashByAbs x)) /\ iw_glob x <> CommandsHashKey.

(** what the key keeps of the walks fixes the vectors *)
Lemma hashes_fix_vectors w1 w2 walks1 walks2 :
  good_walks w1 walks1 -> good_walks w2 walks2 -> inputHashes w1 walks1 = inputHashes w2 walks2 ->
  vectorsFromWalks w1 walks1 = vectorsFromWalks w2 walks2.
Proof.
  intros H1 H2 E. apply map_eq. intros g. unfold vectorsFromWalks. rewrite !fold_insert_lookup.
  apply (f_equal (.!! g)) in E. unfold inputHashes in E. rewrite !fold_insert_lookup in E.
  destruct (walk_of g walks1) as [x1|] eqn:E1, (walk_of g walks2) as [x2|] eqn:E2; try done. cbn in *. injection E as E.
  apply walk_of_in in E1 as [E1 _], E2 as [E2 _]. destruct (H1 x1 E1) as (B1 & P1 & _), (H2 x2 E2) as (B2 & P2 & _).
  apply fold_lines_inj in E; [|done..]. f_equal. by rewrite !vector_of_rel, E.
Qed.

Lemma no_commands_entry w walks : good_walks w walks -> inputHashes w walks !! CommandsHashKey = None.
Proof.
  intros Hg. unfold inputHashes. rewrite fold_insert_lookup. destruct (walk_of CommandsHashKey walks) as [x|] eqn:E; [|done].
  apply walk_of_in in E as [E1 E2]. by destruct (Hg x E1) as (_ & _ & ?).
Qed.

Definition parts (d : KeyDB) : list string := (command_parts "migrate" (kdMigrate d) ++ command_parts "seed" (kdSeed d))%list.

Lemma commandsHash_parts blake3 d :
  (forall s, String.length (blake3 s) = 32) ->
  commandsHash blake3 d = (if decide (parts d = []) then "" else hexEncode (blake3 (stream_fields (parts d)))) /\
  (commandsHash blake3 d = "" <-> parts d = []).
Proof.
  intros Hb. unfold commandsHash. fold (parts d). destruct (parts d) as [|x l] eqn:E; [done|]. split; [done|]. split; [|done].
  intros Eh. apply (f_equal String.length) in Eh. rewrite hexEncode_length, Hb in Eh. done.
Qed.

(** *** Dumps *)

(** the dump files of a run, and the digests that are taken of them: none of a
    file that is not there *)
Definition digest_at (blake3 : string -> string) (files : string -> option string) (p : string) : option string :=
  (fun c => hexEncode (blake3 c)) <$> files p.
Definition hashes_files (blake3 : string -> string) (files : string -> option string)
    (lockfileHashes : list string -> res err (gmap string string)) : Prop :=
  forall ps m, lockfileHashes ps = Ok m -> forall p, p ∈ ps -> m !! p = digest_at blake3 files p.

(** a dump by its path in the configuration and its digest *)
Definition named_digests (blake3 : string -> string) (files : string -> option string) (w : string) (l : list DumpSpec) :
    list (string * string) :=
  map (fun x => (dpPath x, default "" (digest_at blake3 files (join_abs w (dpPath x))))) l.

(** the text whose digest stands in the key: of one dump what is in it, of
    several their paths and digests *)
Definition dump_text (blake3 : string -> string) (files : string -> option string) (w : string) (l : list DumpSpec) : option string :=
  match l with
  | [] => None
  | [x] => files (join_abs w (dpPath x))
  | _ => Some (stream_fields (flat_map (fun pd => [pd.1; pd.2]) (named_digests blake3 files w l)))
  end.

Lemma dumpHashOf_text blake3 files L w l h :
  hashes_files blake3 files L -> dumpHashOf blake3 L w l = Ok h ->
  h = default "" ((fun t => hexEncode (blake3 t)) <$> dump_text blake3 files w l).
Proof.
  intros HL Hh. unfold dumpHashOf in Hh. destruct l as [|x l]; [by injection Hh as <-|].
  apply res_bind_ok in Hh as (m & Hm & Hh). pose proof (HL _ m Hm) as Hat.
  assert (forall y, y ∈ x :: l -> m !! join_abs w (dpPath y) = digest_at blake3 files (join_abs w (dpPath y))) as Hy.
  { intros y Hin. apply Hat. by apply (list_elem_of_fmap_2 (fun d => join_abs w (dpPath d))). }
  destruct l as [|y l]; [injection Hh as <-; rewrite Hy by left; reflexivity|].
  assert (h = hexEncode (blake3 (stream_fields (dump_fields w m (x :: y :: l))))) as -> by congruence.
  assert (dump_fields w m (x :: y :: l) = flat_map (fun pd => [pd.1; pd.2]) (named_digests blake3 files w (x :: y :: l))) as ->; [|done].
  unfold dump_fields, named_digests. revert Hy. generalize (x :: y :: l). intros ds Hy. induction ds as [|z ds IH]; [done|]. cbn [flat_map map].
  rewrite (Hy z) by left. cbn [fst snd app]. f_equal. f_equal. apply IH. intros q Hq. apply Hy. by right.
Qed.

Lemma no_nul_hex s : str_all is_hex s = true -> no_nul s = true.
Proof.
  unfold no_nul. induction s as [|c s IH]; [done|]. cbn [str_all str_any]. intros [Hc Hs]%andb_prop. rewrite negb_orb, IH by done.
  rewrite andb_true_r. unfold is_nul. by destruct (Ascii.eqb_spec c "000") as [->|].
Qed.

Lemma flat_pairs_inj (l1 l2 : list (string * string)) :
  flat_map (fun pd => [pd.1; pd.2]) l1 = flat_map (fun pd => [pd.1; pd.2]) l2 -> l1 = l2.
Proof.
  revert l2. induction l1 as [|[a b] l1 IH]; intros [|[a' b'] l2]; cbn; try done. intros [= -> -> H]. by rewrite (IH l2).
Qed.

Lemma named_no_nul blake3 files w l : forallb no_nul (map dpPath l) = true ->
  forallb no_nul (flat_map (fun pd => [pd.1; pd.2]) (named_digests blake3 files w l)) = true.
Proof.
  unfold named_digests. induction l as [|x l IH]; [done|]. cbn [map forallb flat_map app fst snd]. intros [Hx Hl]%andb_prop.
  rewrite Hx, (IH Hl), andb_true_r. apply no_nul_hex. unfold digest_at.
  destruct (files _); [apply hexEncode_hex|done].
Qed.

(** the same dumps, as far as the digests tell: several by their paths and
    digests, one or none by the text itself *)
Definition same_dumps (blake3 : string -> string) (files1 files2 : string -> option string) (w1 w2 : string) (l1 l2 : list DumpSpec) : Prop :=
  dump_text blake3 files1 w1 l1 = dump_text blake3 files2 w2 l2 /\
  ((2 <= length l1)%nat -> (2 <= length l2)%nat -> named_digests blake3 files1 w1 l1 = named_digests blake3 files2 w2 l2).

Lemma dumps_same blake3 L1 L2 files1 files2 w1 w2 l1 l2 h :
  (forall s, String.length (blake3 s) = 32) -> hashes_files blake3 files1 L1 -> hashes_files blake3 files2 L2 ->
  forallb no_nul (map dpPath l1) = true -> forallb no_nul (map dpPath l2) = true ->
  (forall t1 t2, dump_text blake3 files1 w1 l1 = Some t1 -> dump_text blake3 files2 w2 l2 = Some t2 -> blake3 t1 = blake3 t2 -> t1 = t2) ->
  dumpHashOf blake3 L1 w1 l1 = Ok h -> dumpHashOf blake3 L2 w2 l2 = Ok h ->
  same_dumps blake3 files1 files2 w1 w2 l1 l2.
Proof.
  intros Hb H1 H2 N1 N2 Hcoll E1%(dumpHashOf_text _ files1) E2%(dumpHashOf_text _ files2); [|done..].
  assert (dump_text blake3 files1 w1 l1 = dump_text blake3 files2 w2 l2) as Et.
  { assert (forall t, hexEncode (blake3 t) <> "") as Hne.
    { intros t E. apply (f_equal String.length) in E. by rewrite hexEncode_length, Hb in E. }
    destruct (dump_text blake3 files1 w1 l1) as [t1|], (dump_text blake3 files2 w2 l2) as [t2|]; cbn in *; [|by destruct (Hne t1); congruence
      |by destruct (Hne t2); congruence|done].
    f_equal. apply Hcoll; [done..|]. apply hexEncode_inj. congruence. }
  split; [done|]. intros Hl1 Hl2. destruct l1 as [|x1 [|y1 l1]]; cbn in Hl1; [lia..|]. destruct l2 as [|x2 [|y2 l2]]; cbn in Hl2; [lia..|].
  injection Et as Et. apply flat_pairs_inj. apply stream_fields_eq; [by apply named_no_nul..|done].
Qed.

(** C5: the key determines what goes into a template.
    Two runs, in any two worktrees, whose keys agree have the same engine,
    version and connection, the same commands with the same environments, the
    same dumps (none there, one with the same contents, or several with the
    same paths and digests in the same order; the digest of a single dump is
    not told from that of a list that the dump spells out), and the same hash
    for every file of every input, by its path in the worktree: the vectors
    that are recorded with the template are a function of its key.  The texts
    hashed must not collide, and no name holds a NUL, a line break or, in an
    environment, an equals sign. *)
Theorem key_determines_inputs blake3 L1 L2 files1 files2 w1 w2 walks1 walks2 d1 d2 v1 v2 k :
  (forall s, String.length (blake3 s) = 32) ->
  good_walks w1 walks1 -> good_walks w2 walks2 ->
  hashes_files blake3 files1 L1 -> hashes_files blake3 files2 L2 ->
  plain_command (kdMigrate d1) -> plain_command (kdSeed d1) -> plain_command (kdMigrate d2) -> plain_command (kdSeed d2) ->
  forallb no_nul (parts d1) = true -> forallb no_nul (parts d2) = true ->
  forallb no_nul (map dpPath (kdDump d1)) = true -> forallb no_nul (map dpPath (kdDump d2)) = true ->
  (blake3 (stream_fields (parts d1)) = blake3 (stream_fields (parts d2)) -> stream_fields (parts d1) = stream_fields (parts d2)) ->
  (forall t1 t2, dump_text blake3 files1 w1 (kdDump d1) = Some t1 -> dump_text blake3 files2 w2 (kdDump d2) = Some t2 ->
     blake3 t1 = blake3 t2 -> t1 = t2) ->
  keyFromWalks blake3 L1 w1 walks1 d1 v1 = Ok k -> keyFromWalks blake3 L2 w2 walks2 d2 v2 = Ok k ->
  kdEngine d1 = kdEngine d2 /\ v1 = v2 /\ kdConnection d1 = kdConnection d2 /\
  kdMigrate d1 = kdMigrate d2 /\ kdSeed d1 = kdSeed d2 /\
  same_dumps blake3 files1 files2 w1 w2 (kdDump d1) (kdDump d2) /\ vectorsFromWalks w1 walks1 = vectorsFromWalks w2 walks2.
Proof.
  intros Hb Hg1 Hg2 HL1 HL2 Pm1 Ps1 Pm2 Ps2 N1 N2 D1 D2 Hcoll Hdumps K1 K2. unfold keyFromWalks in *.
  apply res_bind_ok in K1 as (dh1 & Ed1 & [= <-]), K2 as (dh2 & Ed2 & [=]).
  match goal with H : (if _ then _ else _) = (if _ then _ else _) |- _ => rename H into Ek end.
  destruct (commandsHash_parts blake3 d1 Hb) as [C1 Z1], (commandsHash_parts blake3 d2 Hb) as [C2 Z2].
  assert (commandsHash blake3 d1 = commandsHash blake3 d2 /\ inputHashes w1 walks1 = inputHashes w2 walks2) as [Ec Eh].
  { pose proof (no_commands_entry w1 walks1 Hg1) as F1. pose proof (no_commands_entry w2 walks2 Hg2) as F2.
    destruct (String.eqb_spec (commandsHash blake3 d1) "") as [E1|E1], (String.eqb_spec (commandsHash blake3 d2) "") as [E2|E2].
    - split; congruence.
    - rewrite <- Ek, lookup_insert_eq in F1 || rewrite Ek, lookup_insert_eq in F1; done.
    - rewrite <- Ek, lookup_insert_eq in F2 || rewrite Ek, lookup_insert_eq in F2; done.
    - assert (commandsHash blake3 d1 = commandsHash blake3 d2) as Ec.
      { apply (f_equal (.!! CommandsHashKey)) in Ek. rewrite !lookup_insert_eq in Ek. congruence. }
      split; [done|]. rewrite Ec in Ek. apply (f_equal (base.delete CommandsHashKey)) in Ek. by rewrite !delete_insert_id in Ek. }
  assert (parts d1 = parts d2) as Ep.
  { rewrite Ec in *. destruct (decide (parts d1 = [])) as [P1|P1].
    - rewrite P1. symmetry. by apply Z2, Z1.
    - rewrite decide_False in C2 by (intros P2; by apply P1, Z1, Z2). rewrite C2 in C1. apply hexEncode_inj in C1.
      by apply stream_fields_eq, Hcoll. }
  destruct (commands_inj (kdMigrate d1) (kdSeed d1) (kdMigrate d2) (kdSeed d2)) as [Em Es]; [done..|].
  repeat (split; [done|]). split; [|by apply hashes_fix_vectors]. subst dh2. by eapply dumps_same.
Qed.

Definition zeros (n : nat) : string := Nat.iter n (String "0") "".
Definition pad_digest (s : string) : string := str_take 32 (s +:+ zeros 32).
Lemma pad_digest_32 s : String.length (pad_digest s) = 32.
Proof. unfold pad_digest. rewrite str_length_take, str_length_app. change (String.length (zeros 32)) with 32. lia. Qed.

Definition demo_walk (w : string) : inputWalk :=
  {| iw_glob := "db/*.sql"; hashByAbs := {[ w +:+ "/db/1.sql" := zeros 64 ]} |}.
Definition demo_keydb : KeyDB :=
  {| kdEngine := "mysql"; kdConnection := ""; kdDump := []; kdMigrate := Some {| cRun := "make migrate"; cEnv := {["A" := "1"]} |};
     kdSeed := None; kdInputs := [{| Glob := "db/*.sql"; is_lockfile := false |}] |}.

Lemma demo_walk_good w :
  below w ["db"; "1.sql"] (w +:+ "/db/1.sql") -> relHash w (hashByAbs (demo_walk w)) = {["db/1.sql" := zeros 64]} ->
  good_walks w [demo_walk w].
Proof.
  intros Hb Hr x ->%list_elem_of_singleton.
  split; [cbn [hashByAbs demo_walk]; intros abs h [<- <-]%lookup_singleton_Some; by exists ["db"; "1.sql"]|]. split; [|done].
  rewrite Hr. intros k h [<- <-]%lookup_singleton_Some. done.
Qed.

Lemma demo_good : good_walks "/w" [demo_walk "/w"] /\ good_walks "/x" [demo_walk "/x"].
Proof.
  split; (apply demo_walk_good; [|vm_compute; reflexivity]); (split; [done|]; split; [|reflexivity]); repeat constructor; done.
Qed.

(** the same files in two worktrees, a dump of one line among them *)
Definition demo_dumped : KeyDB :=
  {| kdEngine := kdEngine demo_keydb; kdConnection := kdConnection demo_keydb; kdDump := [{| dpPath := "dump.sql"; dpOptional := false |}];
     kdMigrate := kdMigrate demo_keydb; kdSeed := kdSeed demo_keydb; kdInputs := kdInputs demo_keydb |}.
Definition demo_file (w p : string) : option string := if String.eqb p (w +:+ "/dump.sql") then Some "CREATE TABLE t (id INT);" else None.
Definition demo_hashes (w : string) (ps : list string) : res err (gmap string string) :=
  Ok (list_to_map (omap (fun p => (fun h => (p, h)) <$> digest_at pad_digest (demo_file w) p) ps)).

Lemma demo_hashes_files w : hashes_files pad_digest (demo_file w) (demo_hashes w).
Proof.
  intros ps m [= <-] p Hp. induction ps as [|q ps IH]; [by apply not_elem_of_nil in Hp|]. cbn [omap list_omap].
  destruct (decide (p = q)) as [->|Hne].
  - destruct (digest_at pad_digest (demo_file w) q) as [h|] eqn:E; cbn [fmap option_fmap option_map list_to_map foldr].
    + apply lookup_insert_eq.
    + apply not_elem_of_list_to_map_1. intros ([x y] & Ex & (z & _ & Hz)%list_elem_of_omap)%list_elem_of_fmap. cbn in Ex. subst x.
      destruct (digest_at pad_digest (demo_file w) z) eqn:E'; [|done]. cbn in Hz. injection Hz as -> ->. congruence.
  - apply elem_of_cons in Hp as [?|Hp]; [done|]. destruct (digest_at pad_digest (demo_file w) q) as [h|]; cbn [fmap option_fmap option_map list_to_map foldr].
    + rewrite lookup_insert_ne by done. by apply IH.
    + by apply IH.
Qed.

Definition demo_key (w : string) : Key :=
  match keyFromWalks pad_digest (demo_hashes w) w [demo_walk w] demo_dumped "8.0" with Ok k => k | Err _ => New "" "" "" "" "" "" ∅ end.

Lemma key_determines_inputs_witness :
  keyFromWalks pad_digest (demo_hashes "/w") "/w" [demo_walk "/w"] demo_dumped "8.0" = Ok (demo_key "/w") /\
  same_dumps pad_digest (demo_file "/w") (demo_file "/x") "/w" "/x" (kdDump demo_dumped) (kdDump demo_dumped) /\
  vectorsFromWalks "/w" [demo_walk "/w"] = vectorsFromWalks "/x" [demo_walk "/x"].
Proof.
  split; [vm_compute; reflexivity|].
  refine (proj2 (proj2 (proj2 (proj2 (proj2 (key_determines_inputs pad_digest (demo_hashes "/w") (demo_hashes "/x") (demo_file "/w") (demo_file "/x")
    "/w" "/x" [demo_walk "/w"] [demo_walk "/x"] demo_dumped demo_dumped "8.0" "8.0" (demo_key "/w")
    pad_digest_32 (proj1 demo_good) (proj2 demo_good) (demo_hashes_files "/w") (demo_hashes_files "/x") _ _ _ _ _ _ _ _ _ _ _ _)))))).
  - intros c [= <-] k [v Hk]. cbn in Hk. apply lookup_singleton_Some in Hk as [<- _]. reflexivity.
  - done.
  - intros c [= <-] k [v Hk]. cbn in Hk. apply lookup_singleton_Some in Hk as [<- _]. reflexivity.
  - done.
  - vm_compute. reflexivity.
  - vm_compute. reflexivity.
  - vm_compute. reflexivity.
  - vm_compute. reflexivity.
  - done.
  - intros t1 t2 H1 H2 _. vm_compute in H1, H2. congruence.
  - vm_compute. reflexivity.
  - vm_compute. reflexivity.
Defined.

(** ** Templates are shared between worktrees *)

(** a worktree at [w] that holds files of given hashes: what its three
    collaborators answer, in terms of the paths below it *)
Record holds (G : string -> list (list string)) (H : list string -> string) (D : string -> option string)
    (w : string) (glob : string -> res err (list string)) (batch lock : list string -> res err (gmap string string)) : Prop := {
  at_glob : forall g, glob (join_abs w g) = Ok (map (fun r => path_of (path_elements w ++ r)) (G g));
  at_batch : forall rels, rels <> [] -> batch (map (fun r => path_of (path_elements w ++ r)) rels) =
    Ok (list_to_map (map (fun r => (path_of (path_elements w ++ r), H r)) rels));
  at_lock : forall ps, exists m, lock (map (join_abs w) ps) = Ok m /\ forall p, p ∈ ps -> m !! join_abs w p = D p
}.

Lemma relHash_holds (H : list string -> string) w rels :
  Forall (fun r => r <> [] /\ Forall clean_element r) rels ->
  let m := list_to_map (map (fun r => (path_of (path_elements w ++ r), H r)) rels) in
  all_below w m /\ forall k h, relHash w m !! k = Some h <-> exists r, r ∈ rels /\ k = join "/" r /\ h = H r.
Proof.
  intros Hr m. rewrite Forall_forall in Hr.
  assert (forall r, r ∈ rels -> below w r (path_of (path_elements w ++ r))) as Hbel by (intros r Hin; destruct (Hr r Hin); done).
  assert (forall abs h, m !! abs = Some h <-> exists r, r ∈ rels /\ abs = path_of (path_elements w ++ r) /\ h = H r) as Hm.
  { assert (forall r r', r ∈ rels -> r' ∈ rels -> path_of (path_elements w ++ r) = path_of (path_elements w ++ r') -> r = r') as Hinj.
    { intros r r' H1 H2 E. apply (f_equal path_elements) in E.
      rewrite !path_elements_of in E by (apply Forall_app; split; [apply path_elements_clean|by apply Hr]). by apply app_inv_head in E. }
    intros abs h. split.
    - intros (r & [= -> ->] & Hin)%elem_of_list_to_map_2%list_elem_of_fmap. by exists r.
    - intros (r & Hin & -> & ->). destruct (m !! path_of (path_elements w ++ r)) as [h'|] eqn:E.
      + apply elem_of_list_to_map_2, list_elem_of_fmap in E as (r' & E & Hin').
        pose proof (f_equal fst E) as Ep. apply (f_equal snd) in E. cbn [fst snd] in Ep, E. by rewrite (Hinj r r' Hin Hin' Ep), E.
      + apply not_elem_of_list_to_map_2 in E. destruct E. rewrite <- list_fmap_compose. apply list_elem_of_fmap. by exists r. }
  assert (all_below w m) as Hab by (intros abs h (r & Hin & -> & _)%Hm; exists r; by apply Hbel).
  split; [done|]. intros k h. split.
  - intros Hk%elem_of_map_to_list. rewrite relHash_list in Hk by done.
    apply list_elem_of_fmap in Hk as ([abs h'] & [= -> ->] & (r & Hin & -> & ->)%elem_of_map_to_list%Hm).
    exists r. split; [done|]. split; [|done]. apply Rel_below. by apply Hbel.
  - intros (r & Hin & -> & ->). rewrite <- (Rel_below w r _ (Hbel r Hin)). apply relHash_lookup; [done|]. apply Hm. by exists r.
Qed.

Section Shared.
Variable blake3 : string -> string.
Variable G : string -> list (list string).
Variable H : list string -> string.
Variable D : string -> option string.
Hypothesis G_clean : forall g, Forall (fun r => r <> [] /\ Forall clean_element r) (G g).

(** the walks of a worktree, up to where it is *)
Definition same_walk (w1 w2 : string) (x1 x2 : inputWalk) : Prop :=
  iw_glob x1 = iw_glob x2 /\ relHash w1 (hashByAbs x1) = relHash w2 (hashByAbs x2) /\
  all_below w1 (hashByAbs x1) /\ all_below w2 (hashByAbs x2).

Lemma walks_same w1 g1 b1 l1 w2 g2 b2 l2 inputs :
  holds G H D w1 g1 b1 l1 -> holds G H D w2 g2 b2 l2 ->
  exists ws1 ws2, walkInputs g1 b1 w1 inputs = Ok ws1 /\ walkInputs g2 b2 w2 inputs = Ok ws2 /\ Forall2 (same_walk w1 w2) ws1 ws2.
Proof.
  intros H1 H2. induction inputs as [|i inputs (ws1 & ws2 & E1 & E2 & HF)]; [by exists [], []|]. cbn [walkInputs].
  rewrite (at_glob _ _ _ _ _ _ _ H1), (at_glob _ _ _ _ _ _ _ H2). cbn [res_bind].
  pose proof (G_clean (Glob i)) as Hc. destruct (G (Glob i)) as [|r rels]; [by exists ws1, ws2|].
  set (l := r :: rels) in *. assert (l <> []) as Hl by done. clearbody l.
  pose proof (at_batch _ _ _ _ _ _ _ H1 l Hl) as B1. pose proof (at_batch _ _ _ _ _ _ _ H2 l Hl) as B2.
  assert (forall w, exists x y, map (fun r => path_of (path_elements w ++ r)) l = x :: y) as Hne by (intros w; destruct l; [done|cbn; do 2 eexists; reflexivity]).
  destruct (Hne w1) as (x1 & y1 & M1), (Hne w2) as (x2 & y2 & M2). rewrite M1 in B1 |- *. rewrite M2 in B2 |- *.
  rewrite B1, B2, E1, E2. cbn [res_bind]. eexists _, _. split; [done|]. split; [done|]. constructor; [|done].
  destruct (relHash_holds H w1 l Hc) as [A1 R1], (relHash_holds H w2 l Hc) as [A2 R2].
  split; [done|]. split; [|by split]. cbn [hashByAbs]. apply map_eq. intros k. apply option_eq. intros h. by rewrite R1, R2.
Qed.

Lemma folds_same w1 w2 ws1 ws2 :
  Forall2 (same_walk w1 w2) ws1 ws2 ->
  inputHashes w1 ws1 = inputHashes w2 ws2 /\ vectorsFromWalks w1 ws1 = vectorsFromWalks w2 ws2.
Proof.
  intros HF. unfold inputHashes, vectorsFromWalks. generalize (∅ : gmap string string), (∅ : Inputs).
  induction HF as [|x1 x2 ws1 ws2 (Eg & Er & A1 & A2) _ IH]; intros m v; [done|]. cbn [foldl].
  rewrite Eg, Er, !vector_of_rel, Er by done. apply IH.
Qed.

(** C14: the key and the vectors of a database depend on
    the files below the worktree, not on where the worktree is: two worktrees
    that hold the same files share one template *)
Theorem key_worktree_independent w1 g1 b1 l1 w2 g2 b2 l2 d v :
  holds G H D w1 g1 b1 l1 -> holds G H D w2 g2 b2 l2 ->
  exists k inputs, computeKeyAndVectors blake3 g1 b1 l1 w1 d v = Ok (k, inputs) /\
                   computeKeyAndVectors blake3 g2 b2 l2 w2 d v = Ok (k, inputs).
Proof.
  intros H1 H2. unfold computeKeyAndVectors, keyFromWalks.
  destruct (walks_same w1 g1 b1 l1 w2 g2 b2 l2 (kdInputs d) H1 H2) as (ws1 & ws2 & -> & -> & HF). cbn [res_bind].
  destruct (folds_same _ _ _ _ HF) as [-> ->].
  assert (exists h, dumpHashOf blake3 l1 w1 (kdDump d) = Ok h /\ dumpHashOf blake3 l2 w2 (kdDump d) = Ok h) as (h & -> & ->);
    [|cbn [res_bind]; eexists _, _; by split].
  unfold dumpHashOf. destruct (at_lock _ _ _ _ _ _ _ H1 (map dpPath (kdDump d))) as (m1 & E1 & L1).
  destruct (at_lock _ _ _ _ _ _ _ H2 (map dpPath (kdDump d))) as (m2 & E2 & L2). rewrite map_map in E1, E2.
  destruct (kdDump d) as [|x l]; [by eexists|]. rewrite E1, E2. cbn [res_bind].
  assert (forall y, y ∈ x :: l -> m1 !! join_abs w1 (dpPath y) = m2 !! join_abs w2 (dpPath y)) as Hm.
  { intros y Hy. rewrite L1, L2; [done|..]; by apply (list_elem_of_fmap_2 dpPath). }
  destruct l as [|y l]; [rewrite Hm by left; by eexists|].
  assert (dump_fields w1 m1 (x :: y :: l) = dump_fields w2 m2 (x :: y :: l)) as ->; [|by eexists].
  unfold dump_fields. revert Hm. generalize (x :: y :: l). intros ds. induction ds as [|z ds IH]; intros Hm; [done|]. cbn [flat_map].
  rewrite IH, Hm; [done|by left|]. intros q Hq. apply Hm. by right.
Qed.
End Shared.

Definition demo_rels (g : string) : list (list string) := [["db"; "1.sql"]].
Definition demo_globs (w p : string) : res err (list string) := Ok [w +:+ "/db/1.sql"].
Definition demo_batch (l : list string) : res err (gmap string string) := Ok (list_to_map (map (fun a => (a, zeros 64)) l)).
Definition demo_lock (l : list string) : res err (gmap string string) := Ok ∅.

Lemma demo_holds w :
  path_of (path_elements w ++ ["db"; "1.sql"]) = w +:+ "/db/1.sql" ->
  holds demo_rels (fun _ => zeros 64) (fun _ => None) w (demo_globs w) demo_batch demo_lock.
Proof.
  intros Hw. split.
  - intros g. unfold demo_globs, demo_rels. cbn [map]. by rewrite Hw.
  - intros rels _. unfold demo_batch. by rewrite map_map.
  - intros ps. by exists ∅.
Qed.

Lemma key_worktree_independent_witness :
  path_of (path_elements "/w" ++ ["db"; "1.sql"]) = "/w/db/1.sql" /\
  exists k inputs, computeKeyAndVectors pad_digest (demo_globs "/w") demo_batch demo_lock "/w" demo_keydb "8.0" = Ok (k, inputs) /\
                   computeKeyAndVectors pad_digest (demo_globs "/home/x") demo_batch demo_lock "/home/x" demo_keydb "8.0" = Ok (k, inputs).
Proof.
  split; [reflexivity|].
  refine (key_worktree_independent pad_digest demo_rels (fun _ => zeros 64) (fun _ => None) _ "/w" (demo_globs "/w") demo_batch demo_lock
    "/home/x" (demo_globs "/home/x") demo_batch demo_lock demo_keydb "8.0" (demo_holds "/w" eq_refl) (demo_holds "/home/x" eq_refl)).
  intros g. repeat constructor; done.
Defined.

(** a file whose name holds a line break can pass for two files *)
Example newline_in_a_name :
  let h := zeros 64 in
  fold_lines {["a:" +:+ h +:+ nl +:+ "b" := h]} = fold_lines {["a" := h; "b" := h]}.
Proof. vm_compute. reflexivity. Qed.
