(* ===== verification/DumpSplit.v ===== *)
(** * Splitting a dump into statements

    [internal/db/dumpload/split.go]: the lexer that cuts a MySQL or PostgreSQL
    dump into the statements that are sent to the server one by one.  A
    semicolon ends a statement only outside of strings, quoted identifiers,
    dollar quotes, comments and COPY data. *)
From stdpp Require Import base strings list.
From Stdlib Require Import ZArith Lia.
From S2P Require Import Prelude GoStrings Lines.
#[local] Open Scope treeman_scope.

Inductive dialect := dialectMySQL | dialectPostgres.
Definition is_mysql (d : dialect) : bool := match d with dialectMySQL => true | dialectPostgres => false end.

Inductive split_error :=
| UnterminatedQuote (q : ascii)
| UnterminatedComment
| UnterminatedDollar (closer : string)
| UnterminatedCopy
| NoDelimiter.

(** the reader is the text that is left; [Peek] looks at its beginning *)
Definition isIdentByte (c : ascii) : bool :=
  Ascii.eqb c "_" || is_lower c || is_upper c || is_digit c || (128 <=? Ascii.N_of_ascii c)%N.

Definition snoc (buf : string) (c : ascii) : string := buf +:+ String c EmptyString.
Definition blank (s : string) : bool := String.eqb (TrimSpace s) "".

(** [peekSpaceAt]: whitespace, a control byte, or the end of the input *)
Definition peekSpaceAt (i : nat) (r : string) : bool :=
  match str_drop i r with EmptyString => true | String c _ => (Ascii.N_of_ascii c <=? 32)%N end.

Definition peekFold (want r : string) : bool :=
  String.eqb (str_map to_lower (str_take (String.length want) r)) (str_map to_lower want).

(** the buffer ends in a standalone E *)
Definition afterEPrefix (buf : string) : bool :=
  match str_rev buf with
  | String c before =>
      (Ascii.eqb c "E" || Ascii.eqb c "e") && match before with EmptyString => true | String b _ => negb (isIdentByte b) end
  | EmptyString => false
  end.

Definition afterIdentByte (buf : string) : bool :=
  match str_rev buf with String c _ => isIdentByte c || Ascii.eqb c "$" | EmptyString => false end.

(** a double quote and a backslash; [quoteOpener] gives the quote and whether
    a backslash escapes in it *)
Definition dq : ascii := "034"%char.
Definition bsl : ascii := "092"%char.

Definition quoteOpener (d : dialect) (buf : string) (b : ascii) : option bool :=
  if Ascii.eqb b "'" then Some (is_mysql d || afterEPrefix buf)
  else if Ascii.eqb b dq then Some (is_mysql d)
  else if Ascii.eqb b "`" && is_mysql d then Some false
  else None.

(** through the closing quote *)
Fixpoint quoted (q : ascii) (backslash : bool) (buf r : string) : res split_error (string * string) :=
  match r with
  | EmptyString => Err (UnterminatedQuote q)
  | String b r' =>
      let buf := snoc buf b in
      if backslash && Ascii.eqb b bsl then
        match r' with EmptyString => Err (UnterminatedQuote q) | String e r'' => quoted q backslash (snoc buf e) r'' end
      else if Ascii.eqb b q then
        match r' with
        | String b2 r'' => if Ascii.eqb b2 q then quoted q backslash (snoc buf q) r'' else Ok (buf, r')
        | EmptyString => Ok (buf, r')
        end
      else quoted q backslash buf r'
  end.

(** after the opening of a comment; [keep] for the comments MySQL executes *)
Fixpoint block_loop (d : dialect) (keep : bool) (depth : nat) (buf r : string) : res split_error (string * string) :=
  match r with
  | EmptyString => Err UnterminatedComment
  | String b r' =>
      let other := block_loop d keep depth (if keep then snoc buf b else buf) r' in
      match r' with
      | String b2 r'' =>
          if Ascii.eqb b "*" && Ascii.eqb b2 "/" then
            let buf := if keep then buf +:+ "*/" else buf in
            match depth with O | S O => Ok (buf, r'') | S depth => block_loop d keep depth buf r'' end
          else if Ascii.eqb b "/" && Ascii.eqb b2 "*" && negb (is_mysql d) then block_loop d keep (S depth) buf r''
          else other
      | EmptyString => other
      end
  end.

Definition executable (d : dialect) (r : string) : bool :=
  is_mysql d && match r with String c _ => Ascii.eqb c "!" || Ascii.eqb c "+" | EmptyString => false end.

Definition blockComment (d : dialect) (buf r : string) : res split_error (string * string) :=
  let keep := executable d r in
  block_loop d keep 1 (if keep then buf +:+ "/*" else buf) r.

Definition skipLine (r : string) : string := match cut_byte newline r with Some (_, rest) => rest | None => "" end.

(** the tag of a dollar quote whose [$] was just read *)
Fixpoint tag_at (first : bool) (r : string) : option string :=
  match r with
  | EmptyString => None
  | String c r' =>
      if Ascii.eqb c "$" then Some EmptyString
      else if negb (isIdentByte c) || (first && is_digit c) then None
      else String c <$> tag_at false r'
  end.
Definition peekDollarTag (r : string) : option string := tag_at true r.

Fixpoint dollar_loop (closer buf r : string) : res split_error (string * string) :=
  match r with
  | EmptyString => Err (UnterminatedDollar closer)
  | String b r' =>
      let buf := snoc buf b in
      if Ascii.eqb b "$" && has_suffix closer buf then Ok (buf, r') else dollar_loop closer buf r'
  end.

Definition dollar (buf r : string) : res split_error (string * string) :=
  match peekDollarTag r with
  | None => Ok (snoc buf "$", r)
  | Some tag =>
      let closer := "$" +:+ tag +:+ "$" in
      dollar_loop closer (buf +:+ closer) (str_drop (String.length tag + 1) r)
  end.

(** *** The splitter *)
Record splitter := { delim : string; buf : string }.
Definition with_buf (b : string) (s : splitter) : splitter := {| delim := delim s; buf := b |}.

Definition readDelimiter (s : splitter) (r : string) : res split_error (splitter * string) :=
  let r := str_drop 8 r in
  let line := match cut_byte newline r with Some (l, _) => l | None => r end in
  let d := TrimSpace line in
  if String.eqb d "" then Err NoDelimiter else Ok ({| delim := d; buf := "" |}, skipLine r).

(** [comment]: the text after a comment that starts at [b] *)
Definition comment (d : dialect) (s : splitter) (b : ascii) (r : string) : option (res split_error (string * string)) :=
  if Ascii.eqb b "-" && has_prefix "-" r && (negb (is_mysql d) || peekSpaceAt 1 r) then Some (Ok (buf s, skipLine r))
  else if Ascii.eqb b "#" && is_mysql d then Some (Ok (buf s, skipLine r))
  else if Ascii.eqb b "/" && has_prefix "*" r then Some (blockComment d (buf s) (str_drop 1 r))
  else None.

Definition at_delim (s : splitter) (b : ascii) (r : string) : bool :=
  match delim s with EmptyString => false | String c rest => Ascii.eqb b c && has_prefix rest r end.

Definition at_directive (d : dialect) (s : splitter) (b : ascii) (r : string) : bool :=
  is_mysql d && blank (buf s) && (Ascii.eqb b "D" || Ascii.eqb b "d") && peekFold "ELIMITER" r && peekSpaceAt 8 r.

(** what one top-level byte did: the new splitter, the text left, and whether
    a statement ended *)
Abbreviation stepped := (splitter * string * bool)%type.

Definition keep_buf (s : splitter) (x : res split_error (string * string)) : res split_error stepped :=
  match x with Ok (b, r) => Ok (with_buf b s, r, false) | Err e => Err e end.

Definition step (d : dialect) (s : splitter) (b : ascii) (r : string) : res split_error stepped :=
  if at_directive d s b r then
    match readDelimiter s r with Ok (s, r) => Ok (s, r, false) | Err e => Err e end
  else if at_delim s b r then Ok (s, str_drop (String.length (delim s) - 1) r, true)
  else if Ascii.eqb b "$" && negb (is_mysql d) && negb (afterIdentByte (buf s)) then keep_buf s (dollar (buf s) r)
  else match comment d s b r with
       | Some x => keep_buf s x
       | None =>
           match quoteOpener d (buf s) b with
           | Some backslash => keep_buf s (quoted b backslash (snoc (buf s) b) r)
           | None => Ok (with_buf (snoc (buf s) b) s, r, false)
           end
       end.

(** the next statement that is not blank; [None] at the end of the input *)
Abbreviation found := (option string * splitter * string)%type.

Fixpoint next_loop (fuel : nat) (d : dialect) (s : splitter) (r : string) : res split_error found :=
  match r with
  | EmptyString => Ok (if blank (buf s) then None else Some (buf s), with_buf "" s, "")
  | String b r' =>
      match fuel with
      | O => Ok (None, s, r)
      | S fuel =>
          match step d s b r' with
          | Err e => Err e
          | Ok (s, r, false) => next_loop fuel d s r
          | Ok (s, r, true) =>
              if blank (buf s) then next_loop fuel d (with_buf "" s) r
              else Ok (Some (buf s), with_buf "" s, r)
          end
      end
  end.

(** every iteration consumes a byte *)
Definition scan (d : dialect) (s : splitter) (r : string) : res split_error found :=
  next_loop (String.length r) d s r.
Definition next (d : dialect) (s : splitter) (r : string) : res split_error found := scan d (with_buf "" s) r.

(** *** COPY data blocks *)
Definition word_byte (c : ascii) : bool := Ascii.eqb c "_" || is_lower c || is_upper c || is_digit c.
Definition starts_word (s : string) : bool := match s with String c _ => word_byte c | EmptyString => false end.

(** the white space of the regular expression *)
Definition re_space (c : ascii) : bool :=
  match Ascii.N_of_ascii c with 9%N | 10%N | 12%N | 13%N | 32%N => true | _ => false end.

(** one literal, in any case; an S also matches U+017F, which folds to it *)
Fixpoint eat_fold (want s : string) : option string :=
  match want, s with
  | EmptyString, _ => Some s
  | String w want', String c s' =>
      if Ascii.eqb (to_lower c) (to_lower w) then eat_fold want' s'
      else if Ascii.eqb (to_lower w) "s" then
        match s' with
        | String c2 s'' => if Ascii.eqb c "197" && Ascii.eqb c2 "191" then eat_fold want' s'' else None
        | EmptyString => None
        end
      else None
  | String _ _, EmptyString => None
  end.

(** FROM, white space and STDIN, each a word, at the beginning of [s] *)
Definition from_stdin_here (s : string) : bool :=
  match eat_fold "FROM" s with
  | Some (String c rest) =>
      re_space c &&
      match eat_fold "STDIN" (trim_left re_space rest) with Some after => negb (starts_word after) | None => false end
  | _ => false
  end.

Fixpoint from_stdin (after_word : bool) (s : string) : bool :=
  (negb after_word && from_stdin_here s) ||
  match s with String c s' => from_stdin (word_byte c) s' | EmptyString => false end.

Definition copyFromStdin (stmt : string) : bool :=
  match eat_fold "COPY" (trim_left re_space stmt) with
  | Some rest => negb (starts_word rest) && from_stdin true rest
  | None => false
  end.

Definition cr_or_nl (c : ascii) : bool := Ascii.eqb c newline || Ascii.eqb c "013".

(** the read buffer holds a megabyte: a longer line comes in pieces, none of
    which is taken for the end *)
Definition terminator (line : string) : bool :=
  bool_decide (N.of_nat (String.length line) < 1048576)%N && String.eqb (trim_right cr_or_nl line) (String bsl ".").

(** [copyData]: the lines up to the one that ends the block; a line is given
    without its newline *)
Fixpoint copy_lines (fuel : nat) (r : string) : res split_error (string * string) :=
  match cut_byte newline r, fuel with
  | Some (line, rest), S fuel =>
      if terminator line then Ok ("", rest)
      else match copy_lines fuel rest with
           | Ok (data, rest) => Ok (line +:+ nl +:+ data, rest)
           | Err e => Err e
           end
  | _, _ => Err UnterminatedCopy
  end.

Definition copyData (r : string) : res split_error (string * string) :=
  match cut_byte newline r with
  | None => Err UnterminatedCopy
  | Some (_, rest) => copy_lines (String.length rest) rest
  end.

(** *** The stream *)
Inductive event := EStmt (stmt : string) | ECopy (stmt data : string).

Definition is_copy (d : dialect) (stmt : string) : bool := negb (is_mysql d) && copyFromStdin stmt.

Inductive stream_error (E : Type) := Cancelled | Split (e : split_error) | Apply (e : E).
Arguments Cancelled {E}.
Arguments Split {E} e.
Arguments Apply {E} e.

Section Stream.
(** the sink: what it does with a statement or a COPY block, and its error;
    [ctx.Err], which the world decides *)
Context {W E : Type} (onEvent : event -> W -> W * option E) (cancelled : W -> bool).

(** the sink's state and the error that ended the stream, if any *)
Fixpoint stream_loop (fuel : nat) (d : dialect) (s : splitter) (r : string) (w : W) : W * option (stream_error E) :=
  if cancelled w then (w, Some Cancelled)
  else match next d s r with
  | Err e => (w, Some (Split e))
  | Ok (None, _, _) => (w, None)
  | Ok (Some stmt, s, r) =>
      match fuel with
      | O => (w, None)
      | S fuel =>
          if is_copy d stmt then
            match copyData r with
            | Err e => (w, Some (Split e))
            | Ok (data, r) =>
                match onEvent (ECopy stmt data) w with
                | (w, Some e) => (w, Some (Apply e))
                | (w, None) => stream_loop fuel d s r w
                end
            end
          else match onEvent (EStmt stmt) w with
               | (w, Some e) => (w, Some (Apply e))
               | (w, None) => stream_loop fuel d s r w
               end
      end
  end.

Definition streamStatements (d : dialect) (r : string) (w : W) : W * option (stream_error E) :=
  stream_loop (String.length r) d {| delim := ";"; buf := "" |} r w.

(** the sink applied to the events in order, up to its first error *)
Fixpoint apply_all (evs : list event) (w : W) : W * option (stream_error E) :=
  if cancelled w then (w, Some Cancelled)
  else match evs with
  | [] => (w, None)
  | e :: evs => match onEvent e w with (w, Some e) => (w, Some (Apply e)) | (w, None) => apply_all evs w end
  end.
End Stream.

(** the test suite's [split]: the events themselves *)
Definition record (e : event) (w : list event) : list event * option Empty_set := ((w ++ [e])%list, None).
Definition collect (d : dialect) (r : string) : list event * option (stream_error Empty_set) :=
  streamStatements record (fun _ => false) d r [].

(** ** Every step makes progress *)
Lemma skipLine_length r : String.length (skipLine r) <= String.length r.
Proof. unfold skipLine. destruct (cut_byte newline r) as [[l rest]|] eqn:E; simpl; [|lia]. apply cut_byte_length in E. lia. Qed.

Lemma quoted_length q bs r : forall b b' r', quoted q bs b r = Ok (b', r') -> String.length r' <= String.length r.
Proof.
  induction r as [r IH] using str_len_ind.
  destruct r as [|c r]; intros b b' r'; simpl; [done|].
  destruct (bs && Ascii.eqb c bsl).
  - destruct r as [|e r]; [done|]. intros H. apply IH in H; [|simpl; lia]. simpl. lia.
  - destruct (Ascii.eqb c q).
    + destruct r as [|c2 r]; [intros [= _ <-]; simpl; lia|].
      destruct (Ascii.eqb c2 q); [|intros [= _ <-]; simpl; lia].
      intros H. apply IH in H; [|simpl; lia]. simpl. lia.
    + intros H. apply IH in H; [|simpl; lia]. lia.
Qed.

Lemma block_loop_length d keep r : forall depth b b' r',
  block_loop d keep depth b r = Ok (b', r') -> String.length r' <= String.length r.
Proof.
  induction r as [r IH] using str_len_ind.
  destruct r as [|c r]; intros depth b b' r'; [done|]. cbn [block_loop].
  assert (forall b0, block_loop d keep depth b0 r = Ok (b', r') -> String.length r' <= String.length (String c r)) as Hother.
  { intros b0 H. apply IH in H; [|simpl; lia]. simpl. lia. }
  destruct r as [|c2 r]; [by apply Hother|].
  destruct (Ascii.eqb c "*" && Ascii.eqb c2 "/").
  - destruct depth as [|[|depth]]; [intros [= _ <-]; simpl; lia..|].
    intros H. apply IH in H; [|simpl; lia]. simpl. lia.
  - destruct (_ && _ && _); [|by apply Hother].
    intros H. apply IH in H; [|simpl; lia]. simpl. lia.
Qed.

Lemma dollar_loop_length closer r : forall b b' r', dollar_loop closer b r = Ok (b', r') -> String.length r' <= String.length r.
Proof.
  induction r as [|c r IH]; simpl; intros b b' r'; [done|].
  destruct (_ && _); [intros [= _ <-]; lia|]. intros ?%IH. lia.
Qed.

Lemma dollar_length b r b' r' : dollar b r = Ok (b', r') -> String.length r' <= String.length r.
Proof.
  unfold dollar. destruct (peekDollarTag r) as [tag|]; [|intros [= _ <-]; lia].
  intros H%dollar_loop_length. etrans; [exact H|apply str_length_drop].
Qed.

Lemma readDelimiter_length s r s' r' : readDelimiter s r = Ok (s', r') -> String.length r' <= String.length r.
Proof.
  unfold readDelimiter. case_match; [done|]. intros [= _ <-].
  etrans; [apply skipLine_length|apply (str_length_drop 8)].
Qed.

Lemma comment_length d s b r b' r' : comment d s b r = Some (Ok (b', r')) -> String.length r' <= String.length r.
Proof.
  unfold comment. destruct (_ && _ && _); [intros [= _ <-]; apply skipLine_length|].
  destruct (_ && is_mysql d); [intros [= _ <-]; apply skipLine_length|].
  destruct (_ && _); [|done]. intros [= H]. etrans; [by eapply block_loop_length|apply (str_length_drop 1)].
Qed.

Lemma keep_buf_Ok s x s' r' done : keep_buf s x = Ok (s', r', done) -> exists b, x = Ok (b, r') /\ s' = with_buf b s /\ done = false.
Proof. destruct x as [[b r]|]; [|discriminate]. intros [= <- <- <-]. by exists b. Qed.

Lemma step_length d s b r s' r' done : step d s b r = Ok (s', r', done) -> String.length r' <= String.length r.
Proof.
  unfold step. destruct (at_directive d s b r).
  { destruct (readDelimiter s r) as [[s1 r1]|] eqn:E; [|discriminate]. intros [= _ <- _]. by eapply readDelimiter_length. }
  destruct (at_delim s b r); [intros [= _ <- _]; apply str_length_drop|].
  destruct (_ && _ && _); [intros (b0 & E & _)%keep_buf_Ok; by eapply dollar_length|].
  destruct (comment d s b r) as [x|] eqn:E.
  { intros (b0 & -> & _)%keep_buf_Ok. by eapply comment_length. }
  destruct (quoteOpener d (buf s) b); [intros (b1 & E' & _)%keep_buf_Ok; by eapply quoted_length|].
  intros [= _ <- _]. lia.
Qed.

(** more fuel than bytes changes nothing *)
Lemma next_loop_fuel d r : forall f s, String.length r <= f -> next_loop f d s r = scan d s r.
Proof.
  unfold scan. induction r as [r IH] using str_len_ind.
  destruct r as [|b r]; intros f s Hf; [by destruct f|].
  destruct f as [|f]; [simpl in Hf; lia|]. simpl in Hf |- *.
  destruct (step d s b r) as [[[s' r'] ended]|] eqn:E; [|done]. apply step_length in E.
  assert (forall s0, next_loop f d s0 r' = next_loop (String.length r) d s0 r') as Heq.
  { intros s0. etrans; [apply IH; simpl; lia|symmetry; apply IH; simpl; lia]. }
  destruct ended; [destruct (blank (buf s'))|]; auto.
Qed.

Lemma scan_step d s b r :
  scan d s (String b r) =
  match step d s b r with
  | Err e => Err e
  | Ok (s, r, false) => scan d s r
  | Ok (s, r, true) => if blank (buf s) then scan d (with_buf "" s) r else Ok (Some (buf s), with_buf "" s, r)
  end.
Proof.
  unfold scan at 1. simpl. destruct (step d s b r) as [[[s' r'] ended]|] eqn:E; [|done]. apply step_length in E.
  destruct ended; [destruct (blank (buf s')); [|done]|]; by apply next_loop_fuel.
Qed.

(** a statement takes at least a byte *)
Lemma scan_length d r : forall s stmt s' r',
  scan d s r = Ok (Some stmt, s', r') -> r <> "" \/ blank (buf s) = true -> String.length r' < String.length r.
Proof.
  induction r as [r IH] using str_len_ind.
  destruct r as [|b r]; intros s stmt s' r'.
  { intros H [?|Hb]; [done|]. cbv [scan next_loop String.length] in H. by rewrite Hb in H. }
  intros H _. rewrite scan_step in H. destruct (step d s b r) as [[[s1 r1] ended]|] eqn:E; [|done].
  apply step_length in E. simpl.
  assert (forall s0, scan d s0 r1 = Ok (Some stmt, s', r') -> String.length r' < S (String.length r)) as Hrec.
  { intros s0 H0. destruct r1 as [|c r1].
    - cbv [scan next_loop String.length] in H0. destruct (blank (buf s0)); [done|]. injection H0 as _ _ <-. simpl. lia.
    - simpl in E. apply IH in H0; [simpl in H0; lia|simpl; lia|by left]. }
  destruct ended; [destruct (blank (buf s1))|]; [by eapply Hrec| |by eapply Hrec].
  injection H as _ _ <-. lia.
Qed.

Lemma next_length d s r stmt s' r' : next d s r = Ok (Some stmt, s', r') -> String.length r' < String.length r.
Proof. intros H. eapply scan_length in H; [done|]. by right. Qed.

Lemma copy_lines_length r : forall f data r', copy_lines f r = Ok (data, r') -> String.length r' <= String.length r.
Proof.
  induction r as [r IH] using str_len_ind.
  intros f data r'. destruct f as [|f]; cbn [copy_lines]; destruct (cut_byte newline r) as [[l rest]|] eqn:E; try done.
  apply cut_byte_length in E. destruct (terminator l); [intros [= _ <-]; lia|].
  destruct (copy_lines f rest) as [[data' rest']|] eqn:E'; [|done]. intros [= _ <-].
  apply IH in E'; [|exact E]. lia.
Qed.

Lemma copyData_length r data r' : copyData r = Ok (data, r') -> String.length r' <= String.length r.
Proof.
  unfold copyData. destruct (cut_byte newline r) as [[l rest]|] eqn:E; [|done].
  intros H%copy_lines_length. apply cut_byte_length in E. lia.
Qed.

Section Fuel.
Context {W E : Type} (onEvent : event -> W -> W * option E) (cancelled : W -> bool).

(** so the stream ends because the text does, not because the fuel does *)
Lemma stream_fuel d r : forall f g s w,
  String.length r <= f -> String.length r <= g ->
  stream_loop onEvent cancelled f d s r w = stream_loop onEvent cancelled g d s r w.
Proof.
  induction r as [r IH] using str_len_ind.
  intros f g s w Hf Hg.
  destruct (next d s r) as [[[[stmt|] s'] r']|e] eqn:Hnext;
    [|destruct f, g; cbn [stream_loop]; by rewrite Hnext..].
  pose proof (next_length _ _ _ _ _ _ Hnext) as Hlt.
  destruct f as [|f]; [lia|]. destruct g as [|g]; [lia|]. cbn [stream_loop]. rewrite Hnext.
  destruct (cancelled w); [done|]. destruct (is_copy d stmt).
  - destruct (copyData r') as [[data r2]|] eqn:Hcopy; [|done]. apply copyData_length in Hcopy.
    destruct (onEvent _ w) as [w' [?|]]; [done|]. apply IH; lia.
  - destruct (onEvent _ w) as [w' [?|]]; [done|]. apply IH; lia.
Qed.

Lemma stream_cong d s1 r1 s2 r2 w :
  next d s1 r1 = next d s2 r2 ->
  stream_loop onEvent cancelled (String.length r1) d s1 r1 w = stream_loop onEvent cancelled (String.length r2) d s2 r2 w.
Proof.
  intros Heq. rewrite (stream_fuel d r1 (String.length r1) (String.length r1 + String.length r2)) by lia.
  rewrite (stream_fuel d r2 (String.length r2) (String.length r1 + String.length r2)) by lia.
  by destruct (String.length r1 + String.length r2); cbn [stream_loop]; rewrite Heq.
Qed.

Lemma stream_next d s r stmt s' r' w :
  next d s r = Ok (Some stmt, s', r') ->
  stream_loop onEvent cancelled (String.length r) d s r w =
  if cancelled w then (w, Some Cancelled)
  else if is_copy d stmt then
    match copyData r' with
    | Err e => (w, Some (Split e))
    | Ok (data, r2) =>
        match onEvent (ECopy stmt data) w with
        | (w, Some e) => (w, Some (Apply e))
        | (w, None) => stream_loop onEvent cancelled (String.length r2) d s' r2 w
        end
    end
  else match onEvent (EStmt stmt) w with
       | (w, Some e) => (w, Some (Apply e))
       | (w, None) => stream_loop onEvent cancelled (String.length r') d s' r' w
       end.
Proof.
  intros Hnext. pose proof (next_length _ _ _ _ _ _ Hnext) as Hlt.
  destruct (String.length r) as [|f] eqn:Hr; [lia|]. cbn [stream_loop]. rewrite Hnext.
  destruct (cancelled w); [done|]. destruct (is_copy d stmt).
  - destruct (copyData r') as [[data r2]|] eqn:Hcopy; [|done]. apply copyData_length in Hcopy.
    destruct (onEvent _ w) as [w' [?|]]; [done|]. apply stream_fuel; lia.
  - destruct (onEvent _ w) as [w' [?|]]; [done|]. apply stream_fuel; lia.
Qed.
End Fuel.
