(* ===== verification/DumpScript.v ===== *)
(** * What the splitter promises

    A dump as its author means it: statements made of bytes, strings, quoted
    identifiers, comments and dollar quotes, COPY blocks with their data, and
    DELIMITER lines.  Splitting the text of such a script gives exactly its
    statements and blocks, in order. *)
From stdpp Require Import base strings list.
From Stdlib Require Import ZArith Lia.
From S2P Require Import Prelude GoStrings Lines DumpSplit.

(** ** Tokens *)
Inductive qitem := QByte (c : ascii) | QEscape (c : ascii) | QDouble.

Inductive token :=
| Plain (c : ascii)
| Quoted (q : ascii) (backslash : bool) (items : list qitem)
| LineComment (opener body : string)
| BlockComment (body : string)
| Executable (body : string)
| DollarQuoted (tag body : string).

Definition qsource (q : ascii) (i : qitem) : string :=
  match i with
  | QByte c => String c ""
  | QEscape c => String bsl (String c "")
  | QDouble => String q (String q "")
  end.

Fixpoint qsources (q : ascii) (items : list qitem) : string :=
  match items with [] => "" | i :: items => qsource q i +:+ qsources q items end.

(** the text of a token, and what of it the server is sent *)
Definition source (t : token) : string :=
  match t with
  | Plain c => String c ""
  | Quoted q _ items => String q (qsources q items +:+ String q "")
  | LineComment opener body => opener +:+ body +:+ nl
  | BlockComment body | Executable body => "/*" +:+ body +:+ "*/"
  | DollarQuoted tag body => ("$" +:+ tag +:+ "$") +:+ body +:+ ("$" +:+ tag +:+ "$")
  end.

Definition kept (t : token) : string :=
  match t with LineComment _ _ | BlockComment _ => "" | _ => source t end.

(** ** Well-formed tokens, between the text kept so far and the text after *)
Definition qok (q : ascii) (backslash : bool) (i : qitem) : Prop :=
  match i with
  | QByte c => c <> q /\ (backslash = true -> c <> bsl)
  | QEscape _ => backslash = true
  | QDouble => True
  end.

(** the inside of a comment: PostgreSQL's nest *)
Inductive comment_body (d : dialect) : string -> Prop :=
| comment_end : comment_body d ""
| comment_byte c s :
    has_prefix "*/" (String c s +:+ "*/") = false ->
    is_mysql d || negb (has_prefix "/*" (String c s +:+ "*/")) = true ->
    comment_body d s -> comment_body d (String c s)
| comment_nested inner s :
    is_mysql d = false -> comment_body d inner -> comment_body d s ->
    comment_body d ("/*" +:+ inner +:+ "*/" +:+ s).

Definition tag_ok (tag : string) : bool :=
  str_all isIdentByte tag && match tag with String c _ => negb (is_digit c) | EmptyString => true end.

(** no earlier place at which the closer was just read *)
Definition closes_late (closer body : string) : bool :=
  forallb (fun n => negb (has_suffix closer (closer +:+ str_take n (body +:+ closer))))
          (seq 1 (String.length body + String.length closer - 1)).

Definition directive_word (r : string) : bool := peekFold "DELIMITER" r && peekSpaceAt 9 r.

(** a byte that is nothing but itself *)
Definition plain_ok (d : dialect) (buf : string) (c : ascii) (rest : string) : Prop :=
  c <> "'"%char /\ c <> dq /\
  (c = "`"%char -> is_mysql d = false) /\
  (c = "#"%char -> is_mysql d = false) /\
  (c = "-"%char -> has_prefix "-" rest = true -> is_mysql d = true /\ peekSpaceAt 1 rest = false) /\
  (c = "/"%char -> has_prefix "*" rest = false) /\
  (c = "$"%char -> is_mysql d = true \/ afterIdentByte buf = true \/ peekDollarTag rest = None) /\
  (is_mysql d = true -> blank buf = true -> directive_word (String c rest) = false).

Definition token_ok (d : dialect) (buf : string) (t : token) (rest : string) : Prop :=
  match t with
  | Plain c => plain_ok d buf c rest
  | Quoted q backslash items =>
      quoteOpener d buf q = Some backslash /\ Forall (qok q backslash) items /\ has_prefix (String q "") rest = false
  | LineComment opener body =>
      one_line body = true /\
      (opener = "--" /\ (is_mysql d = true -> peekSpaceAt 0 (body +:+ nl) = true) \/ opener = "#" /\ is_mysql d = true)
  | BlockComment body => comment_body d body /\ executable d (body +:+ "*/") = false
  | Executable body => comment_body d body /\ executable d (body +:+ "*/") = true
  | DollarQuoted tag body =>
      is_mysql d = false /\ afterIdentByte buf = false /\ tag_ok tag = true /\ closes_late ("$" +:+ tag +:+ "$") body = true
  end.

Fixpoint sources (ts : list token) : string :=
  match ts with [] => "" | t :: ts => source t +:+ sources ts end.
Fixpoint kepts (ts : list token) : string :=
  match ts with [] => "" | t :: ts => kept t +:+ kepts ts end.

(** no token starts with the delimiter, even together with what follows *)
Fixpoint tokens_ok (d : dialect) (delim buf : string) (ts : list token) (rest : string) : Prop :=
  match ts with
  | [] => True
  | t :: ts =>
      has_prefix delim (source t +:+ sources ts +:+ rest) = false /\
      token_ok d buf t (sources ts +:+ rest) /\
      tokens_ok d delim (buf +:+ kept t) ts rest
  end.

(** ** Scripts *)
Inductive item :=
| Statement (ts : list token)
| CopyBlock (ts : list token) (rest_of_line : string) (data : list string)
| Delimiter (ts : list token) (keyword line : string).

Fixpoint data_text (data : list string) : string :=
  match data with [] => "" | l :: data => l +:+ nl +:+ data_text data end.

(** a line that is not taken for the end of its block *)
Definition data_line (l : string) : bool := one_line l && negb (terminator l).

Definition item_text (delim : string) (i : item) : string :=
  match i with
  | Statement ts => sources ts +:+ delim
  | CopyBlock ts rest data => sources ts +:+ delim +:+ rest +:+ nl +:+ data_text data +:+ String bsl "." +:+ nl
  | Delimiter ts keyword line => sources ts +:+ keyword +:+ line +:+ nl
  end.

Definition delim_after (delim : string) (i : item) : string :=
  match i with Delimiter _ _ line => TrimSpace line | _ => delim end.

Definition starts_with_d (s : string) : bool :=
  match s with String c _ => Ascii.eqb c "D" || Ascii.eqb c "d" | EmptyString => true end.

Definition item_ok (d : dialect) (delim : string) (i : item) (after : string) : Prop :=
  match i with
  | Statement ts =>
      tokens_ok d delim "" ts (delim +:+ after) /\ is_copy d (kepts ts) = false
  | CopyBlock ts rest data =>
      tokens_ok d delim "" ts (delim +:+ rest +:+ nl +:+ data_text data +:+ String bsl "." +:+ nl +:+ after) /\
      is_copy d (kepts ts) = true /\ blank (kepts ts) = false /\ one_line rest = true /\
      forallb data_line data = true
  | Delimiter ts keyword line =>
      tokens_ok d delim "" ts (keyword +:+ line +:+ nl +:+ after) /\
      is_mysql d = true /\ blank (kepts ts) = true /\
      str_map to_lower keyword = "delimiter" /\ peekSpaceAt 0 (line +:+ nl) = true /\
      one_line line = true /\ starts_with_d (TrimSpace line) = false
  end.

(** the items, and the text after the last delimiter *)
Fixpoint script_text (delim : string) (its : list item) (tail : list token) : string :=
  match its with
  | [] => sources tail
  | i :: its => item_text delim i +:+ script_text (delim_after delim i) its tail
  end.

Fixpoint script_ok (d : dialect) (delim : string) (its : list item) (tail : list token) : Prop :=
  match its with
  | [] => tokens_ok d delim "" tail "" /\ is_copy d (kepts tail) = false
  | i :: its =>
      item_ok d delim i (script_text (delim_after delim i) its tail) /\
      script_ok d (delim_after delim i) its tail
  end.

Definition statement_event (ts : list token) : list event :=
  if blank (kepts ts) then [] else [EStmt (kepts ts)].

Definition item_events (i : item) : list event :=
  match i with
  | Statement ts => statement_event ts
  | CopyBlock ts _ data => [ECopy (kepts ts) (data_text data)]
  | Delimiter _ _ _ => []
  end.

Fixpoint script_events (its : list item) (tail : list token) : list event :=
  match its with
  | [] => statement_event tail
  | i :: its => (item_events i ++ script_events its tail)%list
  end.

(** ** One token at a time *)
Lemma snoc_app b c s : snoc b c +:+ s = b +:+ String c s.
Proof. unfold snoc. by rewrite str_app_assoc. Qed.

Lemma ascii_eqb_ne (a b : ascii) : a <> b -> Ascii.eqb a b = false.
Proof. apply Ascii.eqb_neq. Qed.

Lemma has_prefix_byte c s : has_prefix (String c "") s = match s with String b _ => Ascii.eqb c b | EmptyString => false end.
Proof. unfold has_prefix. destruct s as [|b s]; simpl; [done|]. by destruct (Ascii.eqb c b). Qed.

Lemma quoteOpener_ne d b q bs : quoteOpener d b q = Some bs -> q <> bsl.
Proof. intros H ->. unfold quoteOpener in H. vm_compute in H. done. Qed.

Lemma quoted_items q bs items : forall b rest,
  q <> bsl -> Forall (qok q bs) items -> has_prefix (String q "") rest = false ->
  quoted q bs b (qsources q items +:+ String q rest) = Ok (b +:+ qsources q items +:+ String q "", rest).
Proof.
  induction items as [|i items IH]; intros b rest Hq Hok Hrest.
  - simpl. rewrite (ascii_eqb_ne q bsl Hq), andb_false_r, Ascii.eqb_refl.
    rewrite has_prefix_byte in Hrest. destruct rest as [|c rest]; [done|].
    by rewrite Ascii.eqb_sym, Hrest.
  - apply Forall_cons in Hok as [Hi Hok]. destruct i as [c|c|]; simpl in Hi |- *.
    + destruct Hi as [Hcq Hcb].
      assert (bs && Ascii.eqb c bsl = false) as ->.
      { destruct bs; [|done]. by apply ascii_eqb_ne, Hcb. }
      rewrite (ascii_eqb_ne c q Hcq), IH by done. by rewrite snoc_app.
    + subst bs. simpl. rewrite IH by done. by rewrite !snoc_app.
    + rewrite (ascii_eqb_ne q bsl Hq), andb_false_r, !Ascii.eqb_refl, IH by done. by rewrite !snoc_app.
Qed.

(** the closing of a comment at a given depth *)
Definition block_end (d : dialect) (keep : bool) (depth : nat) (b r : string) : res split_error (string * string) :=
  let b := if keep then b +:+ "*/" else b in
  match depth with O | S O => Ok (b, r) | S depth => block_loop d keep depth b r end.

Lemma block_close d keep depth b r : block_loop d keep depth b ("*/" +:+ r) = block_end d keep depth b r.
Proof. reflexivity. Qed.

Lemma block_nest d depth b r :
  is_mysql d = false -> block_loop d false depth b ("/*" +:+ r) = block_loop d false (S depth) b r.
Proof. intros Hd. simpl. rewrite Hd. reflexivity. Qed.

Lemma block_byte d keep depth b c s rest :
  has_prefix "*/" (String c s +:+ "*/") = false ->
  is_mysql d || negb (has_prefix "/*" (String c s +:+ "*/")) = true ->
  block_loop d keep depth b (String c s +:+ "*/" +:+ rest) =
  block_loop d keep depth (if keep then snoc b c else b) (s +:+ "*/" +:+ rest).
Proof.
  intros H1 H2.
  assert (exists c2 s2, s +:+ "*/" = String c2 s2 /\ s +:+ "*/" +:+ rest = String c2 (s2 +:+ rest)) as (c2 & s2 & E1 & E2).
  { destruct s as [|c2 s]; [by exists "*"%char, "/"|]. exists c2, (s +:+ "*/"). by rewrite str_app_assoc. }
  change (String c s +:+ "*/" +:+ rest) with (String c (s +:+ "*/" +:+ rest)).
  change (String c s +:+ "*/") with (String c (s +:+ "*/")) in H1, H2. rewrite E1 in H1, H2. rewrite E2.
  unfold has_prefix in H1, H2. cbn [cut_prefix] in H1, H2. cbn [block_loop].
  rewrite (Ascii.eqb_sym c "*"), (Ascii.eqb_sym c2 "/"), (Ascii.eqb_sym c "/"), (Ascii.eqb_sym c2 "*").
  destruct (Ascii.eqb "*" c), (Ascii.eqb "/" c2); try done;
    (destruct (is_mysql d); [by rewrite ?andb_false_r|]);
    destruct (Ascii.eqb "/" c), (Ascii.eqb "*" c2); done.
Qed.

Lemma block_body d body : comment_body d body -> forall keep depth b rest,
  (keep = true -> is_mysql d = true) -> 0 < depth ->
  block_loop d keep depth b (body +:+ "*/" +:+ rest) = block_end d keep depth (if keep then b +:+ body else b) rest.
Proof.
  induction 1 as [|c s H1 H2 H IH|inner s Hd Hi IHi Hs IHs]; intros keep depth b rest Hkeep Hdepth.
  - change ("" +:+ "*/" +:+ rest) with ("*/" +:+ rest). rewrite block_close. by destruct keep; rewrite ?str_app_nil_r.
  - rewrite block_byte by done. rewrite IH by done. by destruct keep; rewrite ?snoc_app.
  - destruct keep; [exfalso; specialize (Hkeep eq_refl); congruence|].
    rewrite !str_app_assoc, block_nest by done. rewrite IHi by (done || lia).
    destruct depth as [|depth]; [lia|]. unfold block_end at 1. by apply IHs.
Qed.

Lemma skipLine_app body rest : one_line body = true -> skipLine (body +:+ nl +:+ rest) = rest.
Proof.
  intros H. unfold skipLine. change (nl +:+ rest) with (String newline rest).
  rewrite cut_byte_here; [done|]. by apply negb_true_iff.
Qed.

Lemma tag_at_app tag rest : forall first,
  str_all isIdentByte tag = true -> (first = true -> match tag with String c _ => is_digit c = false | EmptyString => True end) ->
  tag_at first (tag +:+ String "$" rest) = Some tag.
Proof.
  induction tag as [|c tag IH]; intros first Hid Hfirst; [done|].
  simpl in Hid. apply andb_true_iff in Hid as [Hc Hid]. simpl.
  assert (Ascii.eqb c "$" = false) as ->.
  { apply ascii_eqb_ne. intros ->. vm_compute in Hc. done. }
  rewrite Hc. simpl. assert (first && is_digit c = false) as ->.
  { destruct first; [|done]. by apply Hfirst. }
  rewrite IH by done. done.
Qed.

Lemma peekDollarTag_app tag rest : tag_ok tag = true -> peekDollarTag (tag +:+ "$" +:+ rest) = Some tag.
Proof.
  intros [Hid Hd]%andb_true_iff. apply tag_at_app; [done|]. intros _. destruct tag; [done|].
  by apply negb_true_iff.
Qed.

Lemma has_suffix_snoc_app closer b s :
  String.length closer <= String.length s -> has_suffix closer (b +:+ s) = has_suffix closer s.
Proof.
  intros Hlen. apply eq_true_iff_eq. rewrite !has_suffix_app. split; intros [r Hr].
  - exists (str_drop (String.length b) r).
    assert (String.length b + String.length s = String.length r + String.length closer) as Hl.
    { by rewrite <- !str_length_app, Hr. }
    rewrite <- (str_take_drop (String.length b) r), str_app_assoc in Hr.
    apply str_app_inj_len in Hr as [_ Hr]; [done|]. rewrite str_length_take. lia.
  - exists (b +:+ r). by rewrite Hr, str_app_assoc.
Qed.

Lemma closes_late_at closer body n :
  closes_late closer body = true -> 1 <= n -> n < String.length body + String.length closer ->
  has_suffix closer (closer +:+ str_take n (body +:+ closer)) = false.
Proof.
  unfold closes_late. rewrite forallb_elem. intros H Hlo Hhi. apply negb_true_iff, H, elem_of_seq. lia.
Qed.

Lemma dollar_body start body : let closer := start +:+ "$" in
  closes_late closer body = true -> forall q p b rest,
  q <> "" -> p +:+ q = body +:+ closer ->
  dollar_loop closer (b +:+ closer +:+ p) (q +:+ rest) = Ok (b +:+ closer +:+ body +:+ closer, rest).
Proof.
  intros closer Hlate. induction q as [|c q IH]; intros p b rest Hq Hpq; [done|].
  assert (snoc (b +:+ closer +:+ p) c = b +:+ closer +:+ snoc p c) as Hsnoc.
  { unfold snoc. by rewrite !str_app_assoc. }
  cbn [dollar_loop String.append]. rewrite Hsnoc. rewrite <- snoc_app in Hpq.
  destruct (decide (q = "")) as [->|Hne].
  - rewrite str_app_nil_r in Hpq.
    assert (c = "$"%char) as ->.
    { unfold closer in Hpq. rewrite <- str_app_assoc in Hpq. unfold snoc in Hpq. apply str_app_inj_len in Hpq as [_ [= ->]]; [done|].
      apply (f_equal String.length) in Hpq. rewrite !str_length_app in Hpq. simpl in Hpq. rewrite str_length_app. lia. }
    rewrite Hpq. assert (has_suffix closer (b +:+ closer +:+ body +:+ closer) = true) as ->; [|done].
    apply has_suffix_app. exists (b +:+ closer +:+ body). by rewrite !str_app_assoc.
  - assert (has_suffix closer (b +:+ closer +:+ snoc p c) = false) as ->.
    { rewrite has_suffix_snoc_app by (rewrite str_length_app; lia).
      assert (snoc p c = str_take (String.length (snoc p c)) (body +:+ closer)) as ->.
      { rewrite <- Hpq. symmetry. by apply str_take_app. }
      apply (f_equal String.length) in Hpq. rewrite !str_length_app in Hpq.
      apply closes_late_at; [done| |].
      - unfold snoc. rewrite str_length_app. simpl. lia.
      - destruct q; [done|]. simpl in Hpq. lia. }
    rewrite andb_false_r. by apply IH.
Qed.

(** ** The splitter over a well-formed token *)
Lemma at_delim_false s b r :
  delim s <> "" -> has_prefix (delim s) (String b r) = false -> at_delim s b r = false.
Proof.
  unfold at_delim, has_prefix. destruct (delim s) as [|c rest]; [done|]. intros _. simpl.
  destruct (Ascii.eqb_spec c b) as [->|Hne]; [by rewrite Ascii.eqb_refl|]. by rewrite ascii_eqb_ne.
Qed.

Lemma at_directive_false d s b r :
  Ascii.eqb b "D" || Ascii.eqb b "d" = false -> at_directive d s b r = false.
Proof. intros H. unfold at_directive. rewrite H. by rewrite andb_false_r. Qed.

Lemma peekFold_cons w want c r :
  peekFold (String w want) (String c r) = Ascii.eqb (to_lower c) (to_lower w) && peekFold want r.
Proof. unfold peekFold. simpl. by destruct (Ascii.eqb (to_lower c) (to_lower w)). Qed.

Lemma at_directive_word d s b r :
  at_directive d s b r = is_mysql d && blank (buf s) && directive_word (String b r).
Proof.
  unfold at_directive, directive_word. rewrite peekFold_cons.
  assert (Ascii.eqb (to_lower b) (to_lower "D") = Ascii.eqb b "D" || Ascii.eqb b "d") as ->.
  { destruct b as [[][][][][][][][]]; reflexivity. }
  change (peekSpaceAt 9 (String b r)) with (peekSpaceAt 8 r).
  destruct (is_mysql d), (blank (buf s)), (_ || _), (peekFold _ _); done.
Qed.

Section Token.
Context (d : dialect) (s : splitter) (Hdelim : delim s <> "").

Lemma step_plain c rest :
  has_prefix (delim s) (String c rest) = false -> plain_ok d (buf s) c rest ->
  step d s c rest = Ok (with_buf (snoc (buf s) c) s, rest, false).
Proof using Hdelim.
  intros Hpre (H1 & H2 & H3 & H4 & H5 & H6 & H7 & H8). unfold step.
  rewrite at_directive_word, at_delim_false by done.
  assert (is_mysql d && blank (buf s) && directive_word (String c rest) = false) as ->.
  { destruct (is_mysql d), (blank (buf s)); try done. by apply H8. }
  assert (quoteOpener d (buf s) c = None) as Hq.
  { unfold quoteOpener. rewrite (ascii_eqb_ne c "'"), (ascii_eqb_ne c dq) by done.
    destruct (Ascii.eqb_spec c "`"); [|done]. by rewrite H3. }
  assert (comment d s c rest = None) as Hc.
  { unfold comment. destruct (Ascii.eqb_spec c "-") as [->|_]; simpl.
    - destruct (has_prefix "-" rest) eqn:Hm; [|done]. destruct (H5 eq_refl eq_refl) as [-> ->]. done.
    - destruct (Ascii.eqb_spec c "#") as [->|_]; simpl; [by rewrite H4|].
      destruct (Ascii.eqb_spec c "/") as [->|_]; simpl; [|done]. by rewrite H6. }
  rewrite Hc, Hq. destruct (Ascii.eqb_spec c "$") as [->|_]; [|done]. simpl.
  destruct (is_mysql d) eqn:Hd, (afterIdentByte (buf s)) eqn:Ha; try done. simpl.
  destruct (H7 eq_refl) as [?|[?|Ht]]; [congruence..|]. unfold dollar. by rewrite Ht.
Qed.

Lemma step_quoted q bs items rest :
  has_prefix (delim s) (String q (qsources q items +:+ String q rest)) = false ->
  token_ok d (buf s) (Quoted q bs items) rest ->
  step d s q (qsources q items +:+ String q rest) = Ok (with_buf (buf s +:+ source (Quoted q bs items)) s, rest, false).
Proof using Hdelim.
  intros Hpre (Hq & Hitems & Hrest). unfold step. rewrite at_delim_false by done.
  assert (q = "'"%char \/ q = dq \/ q = "`"%char) as Hqs.
  { unfold quoteOpener in Hq. destruct (Ascii.eqb_spec q "'"); [by left|]. destruct (Ascii.eqb_spec q dq); [by right; left|].
    destruct (Ascii.eqb_spec q "`"); [by right; right|done]. }
  rewrite at_directive_false by (destruct Hqs as [->|[->| ->]]; done).
  assert (Ascii.eqb q "$" = false) as -> by (destruct Hqs as [->|[->| ->]]; done).
  assert (comment d s q (qsources q items +:+ String q rest) = None) as ->.
  { unfold comment. destruct Hqs as [->|[->| ->]]; reflexivity. }
  simpl. rewrite Hq, quoted_items by (try done; by eapply quoteOpener_ne).
  cbn [keep_buf]. by rewrite snoc_app.
Qed.

Lemma step_comment c r b rest :
  has_prefix (delim s) (String c r) = false ->
  c = "-"%char \/ c = "#"%char \/ c = "/"%char -> comment d s c r = Some (Ok (b, rest)) ->
  step d s c r = Ok (with_buf b s, rest, false).
Proof using Hdelim.
  intros Hpre Hc Hcom. unfold step. rewrite at_delim_false by done.
  rewrite at_directive_false by (destruct Hc as [->|[->| ->]]; done).
  assert (Ascii.eqb c "$" = false) as -> by (destruct Hc as [->|[->| ->]]; done).
  simpl. by rewrite Hcom.
Qed.

Lemma step_dollar tag body rest : let closer := "$" +:+ tag +:+ "$" in
  has_prefix (delim s) (closer +:+ body +:+ closer +:+ rest) = false ->
  token_ok d (buf s) (DollarQuoted tag body) rest ->
  step d s "$" ((tag +:+ "$") +:+ body +:+ closer +:+ rest)
  = Ok (with_buf (buf s +:+ closer +:+ body +:+ closer) s, rest, false).
Proof using Hdelim.
  intros closer Hpre (Hd & Ha & Htag & Hlate). unfold step. rewrite at_delim_false by done.
  rewrite at_directive_false by done. rewrite Hd, Ha.
  change (Ascii.eqb "$" "$" && negb false && negb false) with true. cbv iota.
  unfold dollar. rewrite str_app_assoc, peekDollarTag_app by done.
  cbv zeta. change ("$" +:+ tag +:+ "$") with closer.
  assert (str_drop (String.length tag + 1) (tag +:+ "$" +:+ body +:+ closer +:+ rest) = (body +:+ closer) +:+ rest) as ->.
  { rewrite <- str_app_assoc, str_drop_app by (by rewrite str_length_app). by rewrite str_app_assoc. }
  pose proof (dollar_body ("$" +:+ tag) body) as Hdb. cbv zeta in Hdb.
  change (("$" +:+ tag) +:+ "$") with (("$" +:+ tag +:+ "$")) in Hdb. change ("$" +:+ tag +:+ "$") with closer in Hdb.
  specialize (Hdb Hlate (body +:+ closer) "" (buf s) rest). rewrite str_app_nil_r in Hdb.
  rewrite Hdb; [done| |done]. unfold closer. by destruct body.
Qed.
End Token.

Lemma buf_with_buf b s : buf (with_buf b s) = b.
Proof. reflexivity. Qed.

Lemma with_buf_id s : with_buf (buf s) s = s.
Proof. by destruct s. Qed.

Lemma with_buf_twice a b s : with_buf a (with_buf b s) = with_buf a s.
Proof. reflexivity. Qed.

Lemma scan_one d s c r s' rest : step d s c r = Ok (s', rest, false) -> scan d s (String c r) = scan d s' rest.
Proof. intros H. by rewrite scan_step, H. Qed.

Lemma comment_block d s body rest :
  comment_body d body ->
  comment d s "/" (String "*" (body +:+ "*/" +:+ rest))
  = Some (Ok (if executable d (body +:+ "*/") then buf s +:+ "/*" +:+ body +:+ "*/" else buf s, rest)).
Proof.
  intros Hbody. change (comment d s "/" (String "*" (body +:+ "*/" +:+ rest)))
    with (Some (blockComment d (buf s) (body +:+ "*/" +:+ rest))). unfold blockComment.
  assert (executable d (body +:+ "*/" +:+ rest) = executable d (body +:+ "*/")) as ->.
  { unfold executable. by destruct body. }
  destruct (executable d (body +:+ "*/")) eqn:Hex; rewrite (block_body d body); try done; try lia.
  - unfold block_end. by rewrite !str_app_assoc.
  - intros _. unfold executable in Hex. by destruct (is_mysql d).
Qed.

Lemma scan_token d s t rest :
  delim s <> "" -> has_prefix (delim s) (source t +:+ rest) = false -> token_ok d (buf s) t rest ->
  scan d s (source t +:+ rest) = scan d (with_buf (buf s +:+ kept t) s) rest.
Proof.
  intros Hdelim Hpre Hok. destruct t as [c|q bs items|opener body|body|body|tag body]; cbn [kept].
  - apply scan_one, step_plain; done.
  - cbn [source String.append] in Hpre |- *. rewrite str_app_assoc in Hpre |- *.
    apply scan_one, (step_quoted d s Hdelim q bs items rest Hpre Hok).
  - rewrite str_app_nil_r, with_buf_id. cbn [source] in Hpre |- *. rewrite !str_app_assoc in Hpre |- *.
    destruct Hok as [Hbody [[-> Hsp]|[-> Hd]]]; rewrite <- (with_buf_id s) at 2.
    + apply scan_one, step_comment; [done|done|by left|]. unfold comment.
      assert (has_prefix "-" (String "-" (body +:+ nl +:+ rest)) = true) as -> by done.
      assert (negb (is_mysql d) || peekSpaceAt 1 (String "-" (body +:+ nl +:+ rest)) = true) as ->.
      { destruct (is_mysql d); [|done]. specialize (Hsp eq_refl). by destruct body. }
      cbn -[skipLine]. do 2 f_equal. f_equal. apply (skipLine_app (String "-" body)). done.
    + apply scan_one, step_comment; [done|done|by right; left|]. unfold comment.
      rewrite Hd. cbn -[skipLine]. do 3 f_equal. by apply skipLine_app.
  - rewrite str_app_nil_r, with_buf_id. cbn [source] in Hpre |- *. rewrite !str_app_assoc in Hpre |- *.
    destruct Hok as [Hbody Hex]. rewrite <- (with_buf_id s) at 2.
    apply scan_one, step_comment; [done|done|by right; right|]. by rewrite comment_block, Hex by done.
  - cbn [source] in Hpre |- *. rewrite !str_app_assoc in Hpre |- *. destruct Hok as [Hbody Hex].
    apply scan_one, step_comment; [done|done|by right; right|]. by rewrite comment_block, Hex by done.
  - cbn [source] in Hpre |- *. rewrite (str_app_assoc ("$" +:+ tag +:+ "$")), (str_app_assoc body) in Hpre |- *.
    apply scan_one. by apply step_dollar.
Qed.

Lemma scan_tokens d ts : forall s rest,
  delim s <> "" -> tokens_ok d (delim s) (buf s) ts rest ->
  scan d s (sources ts +:+ rest) = scan d (with_buf (buf s +:+ kepts ts) s) rest.
Proof.
  induction ts as [|t ts IH]; intros s rest Hdelim Hok.
  - cbn. by rewrite str_app_nil_r, with_buf_id.
  - destruct Hok as (Hpre & Ht & Hts). cbn [sources kepts]. rewrite str_app_assoc, scan_token by done.
    rewrite IH by done. cbn. by rewrite str_app_assoc.
Qed.

(** ** Statements, blocks and directives *)
Definition start (dl : string) : splitter := {| delim := dl; buf := "" |}.
Definition delim_ok (dl : string) : Prop := starts_with_d dl = false.

Lemma delim_ok_nonempty dl : delim_ok dl -> dl <> "".
Proof. by intros H ->. Qed.

(** at the delimiter *)
Lemma scan_delim d s after :
  delim_ok (delim s) ->
  scan d s (delim s +:+ after) =
  if blank (buf s) then scan d (with_buf "" s) after else Ok (Some (buf s), with_buf "" s, after).
Proof.
  unfold delim_ok. intros H. destruct s as [[|c dl] b]; [done|]. cbn [delim starts_with_d String.append] in H |- *.
  rewrite scan_step. unfold step. rewrite at_directive_false by done.
  assert (at_delim {| delim := String c dl; buf := b |} c (dl +:+ after) = true) as ->.
  { cbn. rewrite Ascii.eqb_refl. apply has_prefix_app. by exists after. }
  cbn [delim buf]. rewrite str_drop_app by (cbn; lia). done.
Qed.

Lemma next_statement d dl ts after :
  delim_ok dl -> tokens_ok d dl "" ts (dl +:+ after) ->
  next d (start dl) (sources ts +:+ dl +:+ after) =
  if blank (kepts ts) then next d (start dl) after else Ok (Some (kepts ts), start dl, after).
Proof.
  intros Hdl Hts. unfold next. change (with_buf "" (start dl)) with (start dl). rewrite scan_tokens by (try done; by apply delim_ok_nonempty).
  by rewrite (scan_delim d (with_buf (kepts ts) (start dl))).
Qed.

(** at the end of the input *)
Lemma next_tail d dl ts :
  delim_ok dl -> tokens_ok d dl "" ts "" ->
  next d (start dl) (sources ts) = Ok (if blank (kepts ts) then None else Some (kepts ts), start dl, "").
Proof.
  intros Hdl Hts. unfold next. change (with_buf "" (start dl)) with (start dl). rewrite <- (str_app_nil_r (sources ts)).
  rewrite scan_tokens by (try done; by apply delim_ok_nonempty). reflexivity.
Qed.

Lemma peekFold_app want a r :
  str_map to_lower a = str_map to_lower want -> peekFold want (a +:+ r) = true.
Proof.
  revert a. induction want as [|w want IH]; intros [|c a]; try done.
  cbn [str_map]. intros [= Hc Ha]. change (String c a +:+ r) with (String c (a +:+ r)).
  rewrite peekFold_cons, Hc, Ascii.eqb_refl. by apply IH.
Qed.

Lemma next_directive d dl ts keyword line after :
  delim_ok dl -> item_ok d dl (Delimiter ts keyword line) after ->
  next d (start dl) (sources ts +:+ keyword +:+ line +:+ nl +:+ after) = next d (start (TrimSpace line)) after.
Proof.
  intros Hdl (Hts & Hd & Hb & Hkw & Hsp & Hline & Hnew). unfold next. change (with_buf "" (start dl)) with (start dl).
  rewrite scan_tokens by (try done; by apply delim_ok_nonempty).
  assert (String.length keyword = 9) as Hlen.
  { apply (f_equal String.length) in Hkw. cbn in Hkw. rewrite <- Hkw. clear. induction keyword; cbn; congruence. }
  assert (directive_word (keyword +:+ line +:+ nl +:+ after) = true) as Hw.
  { unfold directive_word. rewrite peekFold_app by (by rewrite Hkw). unfold peekSpaceAt in Hsp |- *.
    rewrite str_drop_app by done. by destruct line. }
  destruct keyword as [|c kw]; [done|].
  change (String c kw +:+ line +:+ nl +:+ after) with (String c (kw +:+ line +:+ nl +:+ after)) in Hw |- *.
  rewrite scan_step. unfold step.
  rewrite at_directive_word, Hw, Hd. cbn [buf with_buf start String.append].
  rewrite Hb. cbn [andb]. unfold readDelimiter. rewrite str_drop_app by (cbn in Hlen; lia).
  change (nl +:+ after) with (String newline after).
  rewrite cut_byte_here by (by apply negb_true_iff).
  destruct (String.eqb_spec (TrimSpace line) "") as [E|_]; [by rewrite E in Hnew|].
  change (String newline after) with (nl +:+ after). by rewrite skipLine_app.
Qed.

Lemma copy_lines_data data after : forall f,
  String.length (data_text data) < f ->
  forallb data_line data = true ->
  copy_lines f (data_text data +:+ String bsl "." +:+ nl +:+ after) = Ok (data_text data, after).
Proof.
  induction data as [|l data IH]; intros f Hf Hdata; (destruct f as [|f]; [cbn in Hf; lia|]).
  - reflexivity.
  - apply andb_true_iff in Hdata as [[Hl Hterm%negb_true_iff]%andb_true_iff Hdata]. cbn [data_text] in Hf |- *.
    rewrite !str_length_app in Hf. rewrite !str_app_assoc. cbn [copy_lines].
    change (nl +:+ data_text data +:+ String bsl "." +:+ nl +:+ after)
      with (String newline (data_text data +:+ String bsl "." +:+ nl +:+ after)).
    rewrite cut_byte_here by (by apply negb_true_iff). rewrite Hterm, IH by (try done; cbn in Hf; lia).
    done.
Qed.

Lemma copyData_block rest data after :
  one_line rest = true -> forallb data_line data = true ->
  copyData (rest +:+ nl +:+ data_text data +:+ String bsl "." +:+ nl +:+ after) = Ok (data_text data, after).
Proof.
  intros Hrest Hdata. unfold copyData.
  change (nl +:+ data_text data +:+ String bsl "." +:+ nl +:+ after)
    with (String newline (data_text data +:+ String bsl "." +:+ nl +:+ after)).
  rewrite cut_byte_here by (by apply negb_true_iff). apply copy_lines_data; [|done].
  rewrite !str_length_app. cbn. lia.
Qed.

(** ** The whole script *)
Section Script.
Context {W E : Type} (onEvent : event -> W -> W * option E) (cancelled : W -> bool).

Definition stream_from (d : dialect) (dl r : string) (w : W) : W * option (stream_error E) :=
  stream_loop onEvent cancelled (String.length r) d (start dl) r w.

Lemma stream_script d its tail : forall dl w,
  delim_ok dl -> script_ok d dl its tail ->
  stream_from d dl (script_text dl its tail) w = apply_all onEvent cancelled (script_events its tail) w.
Proof.
  unfold stream_from. induction its as [|i its IH]; intros dl w Hdl Hok.
  - destruct Hok as [Hts Hcopy]. cbn [script_text script_events]. unfold statement_event.
    pose proof (next_tail d dl tail Hdl Hts) as Hnext. destruct (blank (kepts tail)).
    + destruct (String.length (sources tail)); cbn [stream_loop]; by rewrite Hnext.
    + erewrite stream_next by exact Hnext. rewrite Hcopy. cbn [apply_all].
      destruct (cancelled w); [done|]. by destruct (onEvent _ w) as [w' [?|]].
  - destruct Hok as [Hi Hits]. cbn [script_text script_events].
    destruct i as [ts|ts rest data|ts keyword line]; cbn [item_text delim_after item_events] in *.
    + destruct Hi as [Hts Hcopy]. rewrite str_app_assoc.
      pose proof (next_statement d dl ts _ Hdl Hts) as Hnext. unfold statement_event. destruct (blank (kepts ts)).
      * rewrite (stream_cong onEvent _ _ _ _ _ _ _ Hnext). by apply IH.
      * erewrite stream_next by exact Hnext. rewrite Hcopy. cbn [apply_all app].
        destruct (cancelled w); [done|]. destruct (onEvent _ w) as [w' [?|]]; [done|by apply IH].
    + destruct Hi as (Hts & Hcopy & Hblank & Hrest & Hdata). rewrite !str_app_assoc.
      pose proof (next_statement d dl ts _ Hdl Hts) as Hnext. rewrite Hblank in Hnext.
      erewrite stream_next by exact Hnext. rewrite Hcopy, copyData_block by done. cbn [apply_all app].
      destruct (cancelled w); [done|]. destruct (onEvent _ w) as [w' [?|]]; [done|by apply IH].
    + rewrite !str_app_assoc. rewrite (stream_cong onEvent _ _ _ _ _ _ _ (next_directive d dl ts keyword line _ Hdl Hi)).
      apply IH; [by apply Hi|done].
Qed.

(** C7: for a dump that is made of well-formed tokens - strings with their
    escapes, comments, dollar quotes, DELIMITER lines and COPY blocks -
    [streamStatements] hands its sink exactly the statements and data blocks of the
    dump, each once and in order, comments left out and the delimiters inside of
    tokens kept, and stops at the first that the sink refuses or when the
    context is cancelled. *)
Theorem split_script d its tail w (Hok : script_ok d ";" its tail) :
  streamStatements onEvent cancelled d (script_text ";" its tail) w = apply_all onEvent cancelled (script_events its tail) w.
Proof. by apply (stream_script d its tail ";" w eq_refl). Qed.
End Script.

(** ** Scripts of both dialects *)
Fixpoint plains (s : string) : list token :=
  match s with EmptyString => [] | String c s => Plain c :: plains s end.
Fixpoint qbytes (s : string) : list qitem :=
  match s with EmptyString => [] | String c s => QByte c :: qbytes s end.

Ltac byte_facts :=
  repeat match goal with
  | |- _ /\ _ => split
  | |- Forall _ [] => apply Forall_nil
  | |- Forall _ (_ :: _) => apply Forall_cons
  | |- comment_body _ "" => apply comment_end
  | |- comment_body _ (String _ _) => apply comment_byte; [reflexivity..|]
  | |- _ -> _ => intros ?
  | |- _ \/ _ => left
  | |- True => exact I
  | |- _ => first [discriminate | reflexivity]
  end.

(** a trigger under its own delimiter, then an INSERT with an escaped quote *)
Definition trigger_script : list item :=
  [ Delimiter [] "DELIMITER" " ;;";
    Statement (plains "BEGIN a; END ");
    Delimiter (LineComment "--" " it's done" :: plains nl) "delimiter" " ;";
    Statement (plains nl ++ [Executable "!40101 S; "; BlockComment " a;b "] ++
               plains "i " ++ [Quoted "'" true (qbytes "O" ++ [QEscape "'"] ++ qbytes ";" ++ [QDouble])]) ].

(** a function body, a COPY block and an escape string *)
Definition copy_script : list item :=
  [ Statement (plains "DO " ++ [DollarQuoted "b" " '$$;' "]);
    CopyBlock (plains "COPY t FROM stdin") "" ["1" +:+ String "009" "x;y"; "\N"];
    Statement (plains nl ++ [LineComment "--" "; c"] ++ plains "SELECT E" ++ [Quoted "'" true [QEscape "'"; QByte ";"]]) ].

Lemma split_script_witness :
  (script_ok dialectMySQL ";" trigger_script [] /\ script_ok dialectPostgres ";" copy_script (plains "SELECT 1")) /\
  streamStatements record (fun _ => false) dialectMySQL (script_text ";" trigger_script []) []
  = ([EStmt "BEGIN a; END "; EStmt (nl +:+ "/*!40101 S; */i 'O\';'''")], None) /\
  streamStatements record (fun _ => false) dialectPostgres (script_text ";" copy_script (plains "SELECT 1")) []
  = ([EStmt "DO $b$ '$$;' $b$"; ECopy "COPY t FROM stdin" (data_text ["1" +:+ String "009" "x;y"; "\N"]);
      EStmt (nl +:+ "SELECT E'\';'"); EStmt "SELECT 1"], None).
Proof.
  assert (script_ok dialectMySQL ";" trigger_script []) as H1 by (vm_compute; byte_facts).
  assert (script_ok dialectPostgres ";" copy_script (plains "SELECT 1")) as H2 by (vm_compute; byte_facts).
  split; [by split|]. split.
  - exact (split_script record (fun _ => false) dialectMySQL trigger_script [] [] H1).
  - exact (split_script record (fun _ => false) dialectPostgres copy_script (plains "SELECT 1") [] H2).
Defined.

(** a dollar quote whose body starts with a dollar is closed too early: the
    opener's last dollar counts as the closer's first *)
Example dollar_body_starts_with_dollar :
  closes_late "$$" "$; " = false /\
  collect dialectPostgres "DO $$$; $$;" = ([EStmt "DO $$$"], Some (Split (UnterminatedDollar "$$"))).
Proof. split; reflexivity. Qed.

(** a dropped comment leaves nothing behind, not even the end of its line *)
Example comment_glues_words :
  collect dialectPostgres ("SELECT a-- c" +:+ nl +:+ "FROM t;") = ([EStmt "SELECT aFROM t"], None).
Proof. reflexivity. Qed.

(** a COPY block at the end of a dump needs the newline after its end mark *)
Example copy_end_without_newline :
  collect dialectPostgres ("COPY t FROM stdin;" +:+ nl +:+ "1" +:+ nl +:+ "\.") = ([], Some (Split UnterminatedCopy)).
Proof. reflexivity. Qed.
