(* ===== verification/DumpLoad.v ===== *)
(** * Loading a dump into a database

    [internal/db/dumpload]: opening a dump ([compress.go]), the native clients
    ([native.go]), and the loader ([dumpload.go]) that tries them in order,
    refuses to replay a dump over a half-applied one, and falls back to the
    statement stream of [DumpSplit], with the retry of statements that lose an
    InnoDB lock conflict.  The servers, the clients and the decoders are
    parameters. *)
From stdpp Require Import base strings list sets.
From Stdlib Require Import ZArith Lia.
From S2P Require Import Prelude GoStrings Lines Engine DumpSplit DumpScript.
Import Ident.

(** ** Compressed dumps *)
Inductive Format := FormatNone | FormatGzip | FormatZstd | FormatBzip2 | FormatXz.

#[export] Instance Format_eq_dec : EqDecision Format.
Proof. solve_decision. Defined.

Definition magic (l : list N) : string := fold_right (fun n s => String (Ascii.ascii_of_N n) s) EmptyString l.

(** the cases of the switch, in its order *)
Definition detectMagic (head : string) : Format :=
  if has_prefix (magic [31; 139]%N) head then FormatGzip
  else if has_prefix (magic [40; 181; 47; 253]%N) head then FormatZstd
  else if has_prefix "BZh" head then FormatBzip2
  else if has_prefix (magic [253; 55; 122; 88; 90; 0]%N) head then FormatXz
  else FormatNone.

Definition SniffFormat (raw : string) : Format := detectMagic (str_take 6 raw).

(** ** Errors *)
Inductive sql_error := MySQLError (number : N) | OtherError (msg : string) | ContextDone | NoCopySink.

Definition isLockContention (e : sql_error) : bool :=
  match e with MySQLError n => (n =? 1213)%N || (n =? 1205)%N | _ => false end.

Inductive LoadStrategy := StrategyDockerExec | StrategyNativeCLI | StrategyWire.

Inductive load_error :=
| OpenFailed (path : string)
| BadIdentifier
| SqlFailed (e : sql_error)
| ConnectFailed
| CommandFailed (msg : string)
| PartialLoad (strategy : LoadStrategy) (gained : Z)
| StreamFailed (e : stream_error sql_error).

(** ** Transactions *)
Definition to_upper (c : ascii) : ascii := if is_lower c then Ascii.ascii_of_N (code c - 32) else c.
Definition sql_blank (c : ascii) : bool := match code c with 32%N | 9%N | 13%N | 10%N => true | _ => false end.

(** whether an explicit transaction is open after [stmt] ran *)
Definition txStateAfter (inTx : bool) (stmt : string) : bool :=
  let s := str_map to_upper (trim_left sql_blank stmt) in
  if has_prefix "BEGIN" s || has_prefix "START TRANSACTION" s then true
  else if has_prefix "COMMIT" s || has_prefix "ROLLBACK" s then false
  else inTx.

Definition stmtLockRetries : nat := 4.
Definition stmtLockBackoff : list N := [50; 200; 500; 1000]%N.
Definition backoff (attempt : nat) : N :=
  nth (attempt `min` (length stmtLockBackoff - 1)) stmtLockBackoff 0%N.

(** ** Connections *)
Record ContainerRef := { Container : string; ComposeService : string; ComposeProject : string; ContainerEngine : string; Network : string }.
Record Conn := { ref : ContainerRef; Host : string; Port : N; User : string; Password : string }.

Definition or_default (default s : string) : string := if String.eqb s "" then default else s.
Definition port_or (default p : N) : N := if (p =? 0)%N then default else p.
Definition no_container (c : Conn) : bool := String.eqb (Container (ref c)) "" && String.eqb (ComposeService (ref c)) "".

Definition dockerExecMysqlArgs (cid : string) (c : Conn) (user target : string) : list string :=
  ["exec"; "-i"; "-e"; "MYSQL_PWD"; cid; "mysql"] ++
  (if has_prefix "/" (Host c) then [] else ["--protocol=TCP"; "--host=127.0.0.1"]) ++
  ["-u"; user; target].

Definition dockerExecPostgresArgs (cid user target : string) : list string :=
  ["exec"; "-i"; "-e"; "PGPASSWORD"; cid; "psql"; "-U"; user; "-d"; target; "-v"; "ON_ERROR_STOP=1"].

Definition nativeMysqlArgs (c : Conn) (target : string) : list string :=
  ["--protocol=tcp"; "--host=" +:+ or_default "127.0.0.1" (Host c);
   "--port=" +:+ itoa (Z.of_N (port_or 3306 (Port c))); "-u"; or_default "root" (User c); target].

Definition nativePostgresArgs (c : Conn) (target : string) : list string :=
  ["--host=" +:+ or_default "127.0.0.1" (Host c); "--port=" +:+ itoa (Z.of_N (port_or 5432 (Port c)));
   "--username=" +:+ or_default "postgres" (User c); "--dbname=" +:+ target; "-v"; "ON_ERROR_STOP=1"].

Definition session_flags : list string :=
  ["SET SESSION foreign_key_checks=0"; "SET SESSION unique_checks=0"; "SET SESSION sql_log_bin=0"].
Definition mysqlSessionPrefix : string := fold_right (fun s acc => s +:+ ";" +:+ nl +:+ acc) "" session_flags.

(** ** The outside *)
Record Outside (W : Type) := {
  read_file : string -> W -> option string;
  decode : Format -> string -> option string;
  look_path : string -> W -> bool;
  container_id : ContainerRef -> W -> option string;
  (** a command, the variable with its password, its input *)
  run : string -> list string -> string * string -> string -> W -> W * option string;
  connect : W -> W * bool;
  exec : string -> W -> W * option sql_error;
  copy_from : string -> string -> W -> W * option sql_error;
  count_objects : W -> option Z;
  ctx_err : W -> bool;
  (** the backoff: true when the context ended first *)
  wait : N -> W -> W * bool;
}.
Arguments read_file {W}. Arguments decode {W}. Arguments look_path {W}. Arguments container_id {W}.
Arguments run {W}. Arguments connect {W}. Arguments exec {W}. Arguments copy_from {W}.
Arguments count_objects {W}. Arguments ctx_err {W}. Arguments wait {W}.

Section Load.
Context {W : Type} (o : Outside W).

Definition OpenDump (path : string) (w : W) : res load_error string :=
  match read_file o path w with
  | None => Err (OpenFailed path)
  | Some raw =>
      match SniffFormat raw with
      | FormatNone => Ok raw
      | f => match decode o f raw with Some text => Ok text | None => Err (OpenFailed path) end
      end
  end.

(** *** The statement stream with its retry *)
Fixpoint retry (again : nat) (inTx : bool) (stmt : string) (w : W) : bool * W * option sql_error :=
  match exec o stmt w with
  | (w, None) => (txStateAfter inTx stmt, w, None)
  | (w, Some e) =>
      if inTx || negb (isLockContention e) then (inTx, w, Some e)
      else match again with
           | O => (inTx, w, Some e)
           | S again =>
               match wait o (backoff (stmtLockRetries - S again)) w with
               | (w, true) => (inTx, w, Some ContextDone)
               | (w, false) => retry again inTx stmt w
               end
           end
  end.

(** the closure: [inTx] and the world *)
Definition retryingExec (stmt : string) (x : bool * W) : (bool * W) * option sql_error :=
  match retry stmtLockRetries x.1 stmt x.2 with (inTx, w, err) => ((inTx, w), err) end.

Definition mysql_sink (e : event) (x : bool * W) : (bool * W) * option sql_error :=
  match e with EStmt stmt => retryingExec stmt x | ECopy _ _ => (x, Some NoCopySink) end.

Definition postgres_sink (e : event) (w : W) : W * option sql_error :=
  match e with EStmt stmt => exec o stmt w | ECopy stmt data => copy_from o stmt data w end.

Fixpoint best_effort (stmts : list string) (w : W) : W :=
  match stmts with [] => w | s :: stmts => best_effort stmts (exec o s w).1 end.

Definition loadMySQLViaWire (target path : string) (w : W) : W * option load_error :=
  match OpenDump path w with
  | Err e => (w, Some e)
  | Ok text =>
      match connect o w with
      | (w, false) => (w, Some ConnectFailed)
      | (w, true) =>
          match exec o ("USE `" +:+ target +:+ "`") w with
          | (w, Some e) => (w, Some (SqlFailed e))
          | (w, None) =>
              let w := best_effort session_flags w in
              match streamStatements mysql_sink (fun x => ctx_err o x.2) dialectMySQL text (false, w) with
              | ((_, w), None) => (w, None)
              | ((_, w), Some e) => (w, Some (StreamFailed e))
              end
          end
      end
  end.

Definition loadPostgresViaWire (path : string) (w : W) : W * option load_error :=
  match OpenDump path w with
  | Err e => (w, Some e)
  | Ok text =>
      match connect o w with
      | (w, false) => (w, Some ConnectFailed)
      | (w, true) =>
          match streamStatements postgres_sink (ctx_err o) dialectPostgres text w with
          | (w, None) => (w, None)
          | (w, Some e) => (w, Some (StreamFailed e))
          end
      end
  end.

(** *** The native clients *)
Definition tried := (W * (bool * option load_error))%type.

Definition run_client (bin : string) (args : list string) (env : string * string) (stdin : string) (w : W) : tried :=
  match run o bin args env stdin w with
  | (w, Some msg) => (w, (false, Some (CommandFailed msg)))
  | (w, None) => (w, (true, None))
  end.

Definition docker_exec (args : string -> list string) (env : string * string) (c : Conn) (stdin : string) (w : W) : tried :=
  if no_container c then (w, (false, None))
  else match container_id o (ref c) w with
       | None => (w, (false, None))
       | Some cid =>
           let bin := or_default "docker" (ContainerEngine (ref c)) in
           if look_path o bin w then run_client bin (args cid) env stdin w else (w, (false, None))
       end.

Definition tryDockerExecMySQL (c : Conn) (target stdin : string) (w : W) : tried :=
  docker_exec (fun cid => dockerExecMysqlArgs cid c (or_default "root" (User c)) target)
              ("MYSQL_PWD", Password c) c (mysqlSessionPrefix +:+ stdin) w.

Definition tryDockerExecPostgres (c : Conn) (target stdin : string) (w : W) : tried :=
  docker_exec (fun cid => dockerExecPostgresArgs cid (or_default "postgres" (User c)) target)
              ("PGPASSWORD", Password c) c stdin w.

Definition tryNativeCLIMySQL (c : Conn) (target stdin : string) (w : W) : tried :=
  if look_path o "mysql" w
  then run_client "mysql" (nativeMysqlArgs c target) ("MYSQL_PWD", Password c) (mysqlSessionPrefix +:+ stdin) w
  else (w, (false, None)).

Definition tryNativeCLIPostgres (c : Conn) (target stdin : string) (w : W) : tried :=
  if look_path o "psql" w
  then run_client "psql" (nativePostgresArgs c target) ("PGPASSWORD", Password c) stdin w
  else (w, (false, None)).

(** *** The loader *)
Definition runFastPath (conn : option Conn) (target path : string)
    (attempt : Conn -> string -> string -> W -> tried) (w : W) : tried :=
  match conn with
  | None => (w, (false, None))
  | Some c =>
      match OpenDump path w with
      | Err e => (w, (false, Some e))
      | Ok text => attempt c target text w
      end
  end.

Definition partialLoadError (strategy : LoadStrategy) (before : option Z) (w : W) : option load_error :=
  match before, count_objects o w with
  | Some n, Some m => if (m =? n)%Z then None else Some (PartialLoad strategy (m - n))
  | _, _ => None
  end.

(** one strategy of the dispatcher, [next] when it is passed over *)
Definition try_fast (strategy : LoadStrategy) (before : option Z) (attempt : W -> tried)
    (next : W -> W * res load_error LoadStrategy) (w : W) : W * res load_error LoadStrategy :=
  match attempt w with
  | (w, (true, _)) => (w, Ok strategy)
  | (w, (false, None)) => next w
  | (w, (false, Some _)) => match partialLoadError strategy before w with Some e => (w, Err e) | None => next w end
  end.

Definition counted (conn : option Conn) (w : W) : option Z :=
  match conn with Some _ => count_objects o w | None => None end.

Definition wire (r : W * option load_error) : W * res load_error LoadStrategy :=
  match r with (w, None) => (w, Ok StrategyWire) | (w, Some e) => (w, Err e) end.

Definition ensureMySQLDB (target : string) (w : W) : W * option load_error :=
  match QuoteMySQL target with
  | Err _ => (w, Some BadIdentifier)
  | Ok qname =>
      match exec o ("CREATE DATABASE IF NOT EXISTS " +:+ qname +:+ " DEFAULT CHARACTER SET utf8mb4 COLLATE utf8mb4_unicode_ci") w with
      | (w, Some e) => (w, Some (SqlFailed e))
      | (w, None) => (w, None)
      end
  end.

Definition LoadMySQL (conn : option Conn) (target path : string) (w : W) : W * res load_error LoadStrategy :=
  match ensureMySQLDB target w with
  | (w, Some e) => (w, Err e)
  | (w, None) =>
      let before := counted conn w in
      try_fast StrategyDockerExec before (runFastPath conn target path tryDockerExecMySQL)
        (try_fast StrategyNativeCLI before (runFastPath conn target path tryNativeCLIMySQL)
          (fun w => wire (loadMySQLViaWire target path w))) w
  end.

Definition LoadPostgres (conn : option Conn) (target path : string) (w : W) : W * res load_error LoadStrategy :=
  let before := counted conn w in
  try_fast StrategyDockerExec before (runFastPath conn target path tryDockerExecPostgres)
    (try_fast StrategyNativeCLI before (runFastPath conn target path tryNativeCLIPostgres)
      (fun w => wire (loadPostgresViaWire path w))) w.
End Load.

(** ** What the loader relies on *)
Section Laws.
Context {W S : Type} (o : Outside W).

(** what a statement and a COPY block do to the data of the target *)
Context (sem : string -> S -> S -> Prop) (copied : string -> string -> S -> S -> Prop).

Definition done_event (e : event) : S -> S -> Prop :=
  match e with EStmt stmt => sem stmt | ECopy stmt data => copied stmt data end.

(** a list of events, each done once and in order *)
Fixpoint done_events (evs : list event) (s s' : S) : Prop :=
  match evs with [] => s' = s | e :: evs => exists s1, done_event e s s1 /\ done_events evs s1 s' end.

Lemma done_events_app xs ys s s1 s' : done_events xs s s1 -> done_events ys s1 s' -> done_events (xs ++ ys) s s'.
Proof.
  revert s. induction xs as [|x xs IH]; intros s; [by intros ->|].
  intros (s0 & Hx & Hxs) Hys. exists s0. split; [done|]. by apply IH.
Qed.

Definition mysql_client (c : Conn) (target : string) (w : W) (args : list string) : Prop :=
  args = nativeMysqlArgs c target \/
  exists cid, container_id o (ref c) w = Some cid /\ args = dockerExecMysqlArgs cid c (or_default "root" (User c)) target.

(** the data of the target, and whether the session has an explicit
    transaction open *)
Class Server (data : W -> S) (in_tx : W -> bool) := {
  exec_ok stmt w w' : exec o stmt w = (w', None) -> sem stmt (data w) (data w');
  (** InnoDB rolls the transaction back: outside of an explicit one, the statement *)
  exec_conflict stmt w w' e : exec o stmt w = (w', Some e) -> isLockContention e = true -> in_tx w = false ->
    data w' = data w /\ in_tx w' = false;
  wait_quiet n w w' b : wait o n w = (w', b) -> data w' = data w /\ in_tx w' = in_tx w;
  connect_fresh w w' : connect o w = (w', true) -> data w' = data w /\ in_tx w' = false;
  session_quiet stmt w w' r : stmt ∈ session_flags \/ (exists t, stmt = "USE `" +:+ t +:+ "`") ->
    exec o stmt w = (w', r) -> data w' = data w /\ in_tx w' = in_tx w;
  (** the native client runs the statements of a script *)
  client_runs c target bin args env its tail w w' :
    mysql_client c target w args -> script_ok dialectMySQL ";" its tail ->
    run o bin args env (mysqlSessionPrefix +:+ script_text ";" its tail) w = (w', None) ->
    done_events (script_events its tail) (data w) (data w');
}.

Context {data : W -> S} {in_tx : W -> bool} `{!Server data in_tx}.

(** a statement whose effect on the transaction [txStateAfter] tells *)
Definition tame (stmt : string) : Prop :=
  forall w w', exec o stmt w = (w', None) -> in_tx w' = txStateAfter (in_tx w) stmt.
Definition tame_event (e : event) : Prop := match e with EStmt stmt => tame stmt | ECopy _ _ => True end.

Lemma retry_once again stmt : tame stmt -> forall w inTx w' err,
  retry o again (in_tx w) stmt w = (inTx, w', err) ->
  match err with
  | None => sem stmt (data w) (data w') /\ inTx = in_tx w'
  | Some e => isLockContention e = true -> in_tx w = false -> data w' = data w
  end.
Proof using All.
  intros Htame. induction again as [|again IH]; intros w inTx w' err; cbn [retry];
    destruct (exec o stmt w) as [w1 [e|]] eqn:Hexec.
  - destruct (in_tx w || negb (isLockContention e)); intros [= <- <- <-] Hc Htx;
      by destruct (exec_conflict _ _ _ _ Hexec Hc Htx).
  - intros [= <- <- <-]. split; [by eapply exec_ok|]. by rewrite (Htame _ _ Hexec).
  - destruct (in_tx w) eqn:Htx; [intros [= <- <- <-] ??; done|].
    destruct (isLockContention e) eqn:Hc; [|intros [= <- <- <-] ??; congruence]. cbn [orb negb].
    destruct (exec_conflict _ _ _ _ Hexec Hc Htx) as [Hd1 Ht1].
    destruct (wait o _ w1) as [w2 []] eqn:Hwait; destruct (wait_quiet _ _ _ _ Hwait) as [Hd2 Ht2].
    + intros [= <- <- <-] ??. congruence.
    + assert (in_tx w2 = false) as Ht by congruence. specialize (IH w2 inTx w' err). rewrite Ht in IH.
      intros H%IH. rewrite Hd2, Hd1 in H. destruct err; [|done]. intros ??. by apply H.
  - intros [= <- <- <-]. split; [by eapply exec_ok|]. by rewrite (Htame _ _ Hexec).
Qed.

Lemma apply_once evs : Forall tame_event evs -> forall w x w' err,
  apply_all (mysql_sink o) (fun x => ctx_err o x.2) evs (in_tx w, w) = ((x, w'), err) ->
  match err with
  | None => done_events evs (data w) (data w')
  | Some (Apply e) =>
      exists pre ev post w1, evs = pre ++ ev :: post /\ done_events pre (data w) (data w1) /\
        (isLockContention e = true -> in_tx w1 = false -> data w' = data w1)
  | Some _ => exists pre post, evs = pre ++ post /\ done_events pre (data w) (data w')
  end.
Proof using All.
  induction 1 as [|ev evs Hev _ IH]; intros w x w' err; cbn [apply_all].
  - destruct (ctx_err _ _); intros [= <- <- <-]; [|done]. by exists [], [].
  - destruct (ctx_err o (in_tx w, w).2); [intros [= <- <- <-]; by exists [], (ev :: evs)|].
    destruct ev as [stmt|stmt block]; cbn [mysql_sink].
    + unfold retryingExec. cbn [fst snd].
      destruct (retry o stmtLockRetries (in_tx w) stmt w) as [[inTx w1] err1] eqn:Hretry.
      apply (retry_once _ _ Hev) in Hretry. destruct err1 as [e|].
      * intros [= <- <- <-]. exists [], (EStmt stmt), evs, w. split_and!; [done|done|]. done.
      * destruct Hretry as [Hsem ->]. intros H%IH. destruct err as [[| |e]|].
        -- destruct H as (pre & post & -> & Hpre). exists (EStmt stmt :: pre), post. split; [done|]. by exists (data w1).
        -- destruct H as (pre & post & -> & Hpre). exists (EStmt stmt :: pre), post. split; [done|]. by exists (data w1).
        -- destruct H as (pre & ev & post & w2 & -> & Hpre & Hrest).
           exists (EStmt stmt :: pre), ev, post, w2. split_and!; [done| |done]. by exists (data w1).
        -- by exists (data w1).
    + intros [= <- <- <-]. exists [], (ECopy stmt block), evs, w. split_and!; [done|done|]. done.
Qed.

(** *** The two ways to apply the dump *)
Lemma best_effort_quiet stmts : (forall s, s ∈ stmts -> s ∈ session_flags) -> forall w,
  data (best_effort o stmts w) = data w /\ in_tx (best_effort o stmts w) = in_tx w.
Proof using All.
  induction stmts as [|s stmts IH]; intros Hin w; [done|]. cbn [best_effort].
  destruct (exec o s w) as [w1 r] eqn:E. cbn [fst].
  destruct (session_quiet s w w1 r) as [Hd Ht]; [left; set_solver|done|].
  rewrite <- Hd, <- Ht. apply IH. set_solver.
Qed.

Context (its : list item) (tail : list token).
Context (Hscript : script_ok dialectMySQL ";" its tail) (Htame : Forall tame_event (script_events its tail)).
Context (target path : string).

(** whenever the file opens, it is the script *)
Context (Hdump : forall w text, OpenDump o path w = Ok text -> text = script_text ";" its tail).

Lemma wire_applies w w' :
  loadMySQLViaWire o target path w = (w', None) -> done_events (script_events its tail) (data w) (data w').
Proof using All.
  unfold loadMySQLViaWire. destruct (OpenDump o path w) as [text|] eqn:Hopen; [|done].
  apply Hdump in Hopen as ->. destruct (connect o w) as [w1 []] eqn:Hconn; [|done].
  destruct (connect_fresh _ _ Hconn) as [Hd1 Ht1].
  destruct (exec o _ w1) as [w2 [e|]] eqn:Huse; [done|].
  destruct (session_quiet ("USE `" +:+ target +:+ "`") w1 w2 None) as [Hd2 Ht2]; [right; by exists target|done|].
  destruct (best_effort_quiet session_flags ltac:(done) w2) as [Hd3 Ht3]. set (w3 := best_effort o session_flags w2) in *.
  unfold streamStatements. change {| delim := ";"; buf := "" |} with (start ";").
  rewrite (stream_script _ _ dialectMySQL its tail ";" (false, w3) eq_refl Hscript : stream_loop _ _ _ _ _ _ _ = _).
  destruct (apply_all _ _ _ _) as [[x w4] [e|]] eqn:Hall; [done|]. intros [= <-].
  assert (false = in_tx w3) as Ht by congruence. rewrite Ht in Hall.
  apply (apply_once _ Htame) in Hall. by rewrite Hd3, Hd2, Hd1 in Hall.
Qed.

Lemma run_client_applies c bin args env w w' err :
  mysql_client c target w args ->
  run_client o bin args env (mysqlSessionPrefix +:+ script_text ";" its tail) w = (w', (true, err)) ->
  done_events (script_events its tail) (data w) (data w').
Proof using Server0 Hscript.
  unfold run_client. intros Hargs. destruct (run o bin args env _ w) as [w1 [msg|]] eqn:E; [done|].
  intros [= <- _]. by eapply client_runs.
Qed.

(** a fast path that reports success *)
Definition fast_applies (attempt : Conn -> string -> string -> W -> tried) : Prop := forall c w w' err,
  attempt c target (script_text ";" its tail) w = (w', (true, err)) -> done_events (script_events its tail) (data w) (data w').

Lemma native_applies : fast_applies (tryNativeCLIMySQL o).
Proof using Server0 Hscript.
  intros c w w' err. unfold tryNativeCLIMySQL. destruct (look_path o "mysql" w); [|done].
  apply run_client_applies with (c := c). by left.
Qed.

Lemma docker_applies : fast_applies (tryDockerExecMySQL o).
Proof using Server0 Hscript.
  intros c w w' err. unfold tryDockerExecMySQL, docker_exec. destruct (no_container c); [done|].
  destruct (container_id o (ref c) w) as [cid|] eqn:Hcid; [|done]. destruct (look_path o _ w); [|done].
  apply run_client_applies with (c := c). right. by exists cid.
Qed.

(** *** The dispatcher *)
(** as many objects as the load began with, where both counts were taken *)
Definition untouched (before : option Z) (w : W) : Prop :=
  forall n m, before = Some n -> count_objects o w = Some m -> m = n.

(** the whole dump, applied once, to such a target *)
Definition whole (before : option Z) (w' : W) : Prop := exists w,
  untouched before w /\ done_events (script_events its tail) (data w) (data w').

(** passed over without a word: nothing ran *)
Definition soft (attempt : Conn -> string -> string -> W -> tried) : Prop := forall c text w w',
  attempt c target text w = (w', (false, None)) -> w' = w.

Lemma run_client_soft bin args env stdin w w' : run_client o bin args env stdin w <> (w', (false, None)).
Proof. unfold run_client. destruct (run o bin args env stdin w) as [? [?|]]; congruence. Qed.

Lemma native_soft : soft (tryNativeCLIMySQL o).
Proof.
  intros c text w w'. unfold tryNativeCLIMySQL. destruct (look_path o _ w); [|congruence]. by intros ?%run_client_soft.
Qed.

Lemma docker_soft : soft (tryDockerExecMySQL o).
Proof.
  intros c text w w'. unfold tryDockerExecMySQL, docker_exec. destruct (no_container c); [congruence|].
  destruct (container_id o _ w); [|congruence]. destruct (look_path o _ w); [|congruence]. by intros ?%run_client_soft.
Qed.

Lemma partialLoadError_None strategy before w : partialLoadError o strategy before w = None -> untouched before w.
Proof.
  unfold partialLoadError, untouched. intros H n m -> Hm. rewrite Hm in H.
  destruct (Z.eqb_spec m n); congruence.
Qed.

Lemma try_fast_whole conn strategy attempt next before w w' k :
  fast_applies attempt -> soft attempt -> untouched before w ->
  (forall w1, untouched before w1 -> next w1 = (w', Ok k) -> whole before w') ->
  try_fast o strategy before (runFastPath o conn target path attempt) next w = (w', Ok k) -> whole before w'.
Proof using Hdump.
  intros Happ Hsoft Hw Hnext. unfold try_fast, runFastPath. destruct conn as [c|]; [|by apply Hnext].
  destruct (OpenDump o path w) as [text|e] eqn:Hopen.
  - apply Hdump in Hopen as ->. destruct (attempt c target _ w) as [w1 [[] err]] eqn:Hatt.
    + intros [= <- <-]. exists w. split; [done|]. by eapply Happ.
    + destruct err as [e|]; [|by apply Hsoft in Hatt as ->; apply Hnext].
      destruct (partialLoadError o strategy before w1) eqn:Hp; [done|]. apply Hnext. by eapply partialLoadError_None.
  - destruct (partialLoadError o strategy before w) eqn:Hp; [done|]. by apply Hnext.
Qed.
End Laws.

Section Sound.
Context {W S : Type} (o : Outside W) (sem : string -> S -> S -> Prop) (copied : string -> string -> S -> S -> Prop).
Context (data : W -> S) (in_tx : W -> bool).

End Sound.

(** ** Enough retries *)
Section Retry.
Context {W : Type} (o : Outside W) (stmt : string).

(** [n] conflicts in a row, each followed by its backoff *)
Inductive contended : nat -> nat -> W -> W -> Prop :=
| contended_done i w : contended i 0 w w
| contended_again i n w e w1 w2 w' :
    exec o stmt w = (w1, Some e) -> isLockContention e = true -> wait o (backoff i) w1 = (w2, false) ->
    contended (S i) n w2 w' -> contended i (S n) w w'.

(** a statement outside of a transaction survives as many conflicts as the
    loader has retries, and the backoff table covers each *)
Lemma retry_survives again n w w1 w2 :
  n <= again -> again <= stmtLockRetries -> contended (stmtLockRetries - again) n w w1 -> exec o stmt w1 = (w2, None) ->
  retry o again false stmt w = (txStateAfter false stmt, w2, None).
Proof.
  revert n w. induction again as [|again IH]; intros n w Hn Ha Hc Hexec.
  - destruct n; [|lia]. inversion Hc; subst. cbn [retry]. by rewrite Hexec.
  - inversion Hc as [|i m w0 e w3 w4 w5 He Hlock Hwait Hrest]; subst; cbn [retry]; [by rewrite Hexec|].
    rewrite He, Hlock. cbn [orb negb]. rewrite Hwait.
    replace (S (stmtLockRetries - S again)) with (stmtLockRetries - again) in Hrest by lia.
    by apply (IH m); [lia|lia| |].
Qed.
End Retry.

(** ** A server *)
Module Demo.

Record World := { conflicts : nat; broken : bool; tx : bool; saved : list string; log : list string }.

Definition quiet (stmt : string) : bool := has_prefix "USE `" stmt || has_prefix "CREATE DATABASE" stmt || bool_decide (stmt ∈ session_flags).
Definition sem (stmt : string) (s s' : list string) : Prop := s' = if quiet stmt then s else (s ++ [stmt])%list.
Definition copied (stmt data : string) (s s' : list string) : Prop := s' = (s ++ [stmt])%list.

Definition exec (stmt : string) (w : World) : World * option sql_error :=
  if quiet stmt then (w, None)
  else match conflicts w with
       | S n => let back := if tx w then saved w else log w in
                ({| conflicts := n; broken := broken w; tx := false; saved := back; log := back |}, Some (MySQLError 1213))
       | O => ({| conflicts := 0; broken := broken w; tx := txStateAfter (tx w) stmt;
                  saved := if tx w then saved w else log w; log := log w ++ [stmt] |}, None)
       end.

Definition append (stmt : string) (w : World) : World :=
  {| conflicts := conflicts w; broken := broken w; tx := tx w; saved := saved w;
     log := if quiet stmt then log w else (log w ++ [stmt])%list |}.

(** a client that runs the statements of its input, or fails at once *)
Definition client_sink (e : event) (w : World) : World * option Empty_set :=
  match e with EStmt stmt => (append stmt w, None) | ECopy stmt _ => (w, None) end.

Definition client (input : string) (w : World) : World * option string :=
  if broken w then (w, Some "cannot connect"%string)
  else match cut_prefix mysqlSessionPrefix input with
       | None => (w, Some "no prefix"%string)
       | Some text =>
           match streamStatements client_sink (fun _ => false) dialectMySQL text w with
           | (w, None) => (w, None)
           | (w, Some _) => (w, Some "syntax error"%string)
           end
       end.

Definition dump : string := script_text ";" trigger_script [].

Definition outside : Outside World := {|
  read_file path _ := if String.eqb path "dump.sql" then Some dump else None;
  decode _ _ := None;
  look_path bin _ := String.eqb bin "mysql";
  container_id _ _ := None;
  run _ _ _ input w := client input w;
  connect w := ({| conflicts := conflicts w; broken := broken w; tx := false; saved := log w; log := log w |}, true);
  DumpLoad.exec := exec;
  copy_from _ _ w := (w, Some (OtherError ""));
  count_objects w := Some (Z.of_nat (length (log w)));
  ctx_err _ := false;
  wait _ w := (w, false);
|}.

Lemma client_all evs : forall w w' err,
  Forall (fun e => match e with EStmt _ => True | ECopy _ _ => False end) evs ->
  apply_all client_sink (fun _ => false) evs w = (w', err) -> done_events sem copied evs (log w) (log w').
Proof.
  induction evs as [|[stmt|stmt data] evs IH]; intros w w' err Hevs; cbn [apply_all client_sink].
  - intros [= <- _]. done.
  - intros H. apply Forall_cons in Hevs as [_ Hevs]. apply IH in H; [|done]. by exists (log (append stmt w)).
  - by apply Forall_cons in Hevs as [[] _].
Qed.

(** a MySQL script has no COPY blocks *)
Lemma mysql_no_copy its tail : forall dl, script_ok dialectMySQL dl its tail ->
  Forall (fun e => match e with EStmt _ => True | ECopy _ _ => False end) (script_events its tail).
Proof.
  assert (forall ts, Forall (fun e => match e with EStmt _ => True | ECopy _ _ => False end) (statement_event ts)) as Hst.
  { intros ts. unfold statement_event. destruct (blank _); by repeat constructor. }
  induction its as [|i its IH]; intros dl; [by intros _; apply Hst|].
  intros [Hi Hits]. cbn [script_events]. apply Forall_app. split; [|by eapply IH].
  destruct i as [ts|ts r data|ts k l]; cbn [item_events]; [apply Hst| |constructor].
  by destruct Hi as (_ & Hc & _).
Qed.

#[export] Instance outside_server : Server outside sem copied log tx.
Proof.
  split.
  - intros stmt w w'. cbn. unfold exec, sem. destruct (quiet stmt); [by intros [= <-]|].
    destruct (conflicts w); [|done]. by intros [= <-].
  - intros stmt w w' e. cbn. unfold exec. destruct (quiet stmt); [done|].
    destruct (conflicts w); [done|]. intros [= <- <-] _ Htx. cbn. by rewrite Htx.
  - by intros n w w' b [= <- _].
  - by intros w w' [= <-].
  - intros stmt w w' r Hq. cbn. unfold exec. assert (quiet stmt = true) as ->; [|by intros [= <- _]].
    unfold quiet. apply orb_true_iff. destruct Hq as [Hq|[t ->]]; [right; by apply bool_decide_eq_true|left].
    apply orb_true_iff. left.
    apply has_prefix_app. by exists (t +:+ "`").
  - intros c target bin args env its tail w w' _ Hok.
    cbn [run outside]. unfold client. destruct (broken w); [done|].
    destruct (cut_prefix _ _) as [text|] eqn:Hcut; [|done].
    apply cut_prefix_app, str_app_inj_l in Hcut as <-.
    unfold streamStatements. change {| delim := ";"; buf := "" |} with (start ";").
    rewrite (stream_script _ _ dialectMySQL its tail ";" w eq_refl Hok : stream_loop _ _ _ _ _ _ _ = _).
    destruct (apply_all _ _ _ _) as [w1 [?|]] eqn:Hall; [done|]. intros [= <-].
    by eapply client_all, Hall; eapply mysql_no_copy.
Qed.

(** one lock conflict ahead, and a native client that cannot connect *)
Definition fresh : World := {| conflicts := 1; broken := true; tx := false; saved := []; log := [] |}.
Definition demo_conn : Conn :=
  {| ref := {| Container := ""; ComposeService := ""; ComposeProject := ""; ContainerEngine := ""; Network := "" |};
     Host := ""; Port := 0; User := ""; Password := "secret" |}.
End Demo.


Fixpoint script_statements (its : list item) : list string :=
  match its with [] => [] | Statement ts :: its => kepts ts :: script_statements its | _ :: its => script_statements its end.

Lemma demo_tame stmt : Demo.quiet stmt = false -> tame Demo.outside (in_tx := Demo.tx) stmt.
Proof.
  intros Hq w w'. cbn. unfold Demo.exec. rewrite Hq. destruct (Demo.conflicts w); [|done]. by intros [= <-].
Qed.

Lemma demo_dump w text : OpenDump Demo.outside "dump.sql" w = Ok text -> text = script_text ";" trigger_script [].
Proof.
  unfold OpenDump. cbn [read_file Demo.outside]. change (String.eqb "dump.sql" "dump.sql") with true. cbv iota.
  change (SniffFormat Demo.dump) with FormatNone. cbv iota. by intros [= <-].
Qed.


(** a session without autocommit, as [mysqldump --no-autocommit] leaves it, is
    not taken for a transaction, and a rollback to a savepoint is taken for
    the end of one: in both a conflict would be retried although more than the
    statement was rolled back *)
Example untracked_transactions :
  txStateAfter false "SET autocommit=0" = false /\ txStateAfter true "ROLLBACK TO SAVEPOINT a" = false.
Proof. split; reflexivity. Qed.
