(* ===== verification/EnvFile.v ===== *)
(** * Environment files and the connections that refer to them

    [internal/envfile/envfile.go] (the reader of [.env] files, whose variable
    expansion is [Template.ExpandVars]) and the part of
    [internal/resolve/resolve.go] that layers the files of several roots and
    resolves the passwords that name a variable.  The reader meets the patch
    filter here: what [treeman] writes into a [.env] is what it reads back. *)
From stdpp Require Import base strings list gmap sorting.
From Stdlib Require Import ZArith Lia.
From S2P Require Import Prelude GoStrings Lines Paths Template HashCache InputKeys PatchFilter.
#[local] Open Scope treeman_scope.

Record EnvFile := { Vars : gmap string string; Source : string }.
Definition Get (e : EnvFile) (key : string) : option string := Vars e !! key.

Definition no_vars : EnvFile := {| Vars := ∅; Source := "" |}.

(** [Merge]: the keys of [other] that are not there yet *)
Definition Merge (e other : EnvFile) : EnvFile := {| Vars := Vars e ∪ Vars other; Source := Source e |}.

(** ** Lines *)
(** [bufio.ScanLines]: a carriage return before the newline goes too, and a
    line that does not fit the scanner's 16 MB ends the scan *)
Definition drop_cr (s : string) : string := trim_suffix s (String "013" "").
Definition fits (s : string) : bool := (N.of_nat (String.length s) <? 16777216)%N.

Fixpoint scan_lines (l : list chunk) : list string :=
  match l with
  | [] => []
  | c :: l => if fits c.1 then drop_cr c.1 :: scan_lines l else []
  end.

(** ** One assignment *)
Definition key_start (c : ascii) : bool := is_upper c || is_lower c || Ascii.eqb c "_".
Definition validKey (key : string) : bool :=
  match key with
  | EmptyString => false
  | String c rest => key_start c && str_all (fun c => key_start c || is_digit c) rest
  end.

Definition last_byte (s : string) : option ascii := match str_rev s with String c _ => Some c | EmptyString => None end.
Definition but_last (s : string) : string := str_take (String.length s - 1) s.

(** [strings.Cut] at a blank and a hash sign *)
Fixpoint before_comment (s : string) : option string :=
  match s with
  | EmptyString => None
  | String c rest =>
      if Ascii.eqb c " " && has_prefix "#" rest then Some "" else String c <$> before_comment rest
  end.

Definition is_quote (c : ascii) : bool := Ascii.eqb c "034" || Ascii.eqb c "'".

Definition stripQuotesAndComment (s : string) : string :=
  let s := TrimSpace s in
  let unquoted := match before_comment s with Some b => trim_right blank b | None => s end in
  match s, last_byte s with
  | String c (String _ _ as rest), Some e => if is_quote c && Ascii.eqb c e then but_last rest else unquoted
  | _, _ => unquoted
  end.

(** the key and the raw value of a line *)
Definition assignment (line : string) : option (string * string) :=
  let line := trim_left blank line in
  match line with
  | EmptyString => None
  | String c _ =>
      if Ascii.eqb c "#" then None
      else
        let line := match cut_prefix "export " line with Some rest => rest | None => line end in
        match cut_byte "=" line with
        | None => None
        | Some (before, after) =>
            let key := TrimSpace before in
            if validKey key then Some (key, TrimSpace after) else None
        end
  end.

Section Read.
Context (getenv : string -> string) (read_file : string -> option string).

Definition assign (vars : gmap string string) (line : string) : gmap string string :=
  match assignment line with
  | None => vars
  | Some (key, raw) => <[key := ExpandVars vars getenv (stripQuotesAndComment raw)]> vars
  end.

Definition Parse (input : string) : EnvFile :=
  {| Vars := foldl assign ∅ (scan_lines (chunks input)); Source := "" |}.

(** [Read] and [ReadOptional]: a file that is missing or cannot be read is empty *)
Definition ReadOptional (path : string) : EnvFile :=
  match read_file path with
  | None => no_vars
  | Some b => {| Vars := Vars (Parse b); Source := path |}
  end.

Definition layer (out : EnvFile) (p : string) : EnvFile :=
  let one := ReadOptional p in
  {| Vars := Vars one ∪ Vars out; Source := if String.eqb (Source one) "" then Source out else Source one |}.
Definition ReadLayered (paths : list string) : EnvFile := foldl layer no_vars paths.

(** ** The layers of a worktree *)
Fixpoint new_paths (seen : list string) (l : list string) : list string :=
  match l with
  | [] => []
  | p :: l => if decide (p ∈ seen) then new_paths seen l else p :: new_paths (p :: seen) l
  end.

Definition source_path (root s : string) : option string :=
  if IsAbs s then Some s else if String.eqb root "" then None else Some (join_abs root s).

Definition envSourcePaths (roots sources : list string) : list string :=
  new_paths [] (concat (map (fun root => omap (source_path root) sources) roots)).

Definition loadRepoEnvRoots (roots sources : list string) : EnvFile := ReadLayered (envSourcePaths roots sources).
End Read.

(** ** Passwords that name a variable *)
Definition isIdent (s : string) : bool := validKey s.

Definition parsePasswordRef (s : string) : string :=
  match cut_prefix "$" s with
  | None => ""
  | Some r =>
      let name := match cut_prefix "{" r with
                  | Some body => if bool_decide (last_byte r = Some "}"%char) then but_last body else ""
                  | None => r
                  end in
      if isIdent name then name else ""
  end.

Definition nonEmpty (s : string) : bool := negb (String.eqb s "" || String.eqb s "null").

Definition firstEnv (env : EnvFile) (keys : list string) : string :=
  default "" (List.find nonEmpty (omap (Get env) keys)).

Definition resolvePasswordValue (env : EnvFile) (configured : string) : string :=
  if String.eqb configured "" then ""
  else let name := parsePasswordRef configured in
       if String.eqb name "" then configured else firstEnv env [name].

Definition resolve_password (keys : list string) (env : EnvFile) (configured : string) : string :=
  let v := resolvePasswordValue env configured in
  if String.eqb v "" then firstEnv env keys else v.
Definition resolveMysqlPassword : EnvFile -> string -> string :=
  resolve_password ["DB_TEST_PASSWORD"; "DB_PASSWORD"; "MYSQL_PASSWORD"; "MYSQL_PWD"].
Definition resolvePostgresPassword : EnvFile -> string -> string :=
  resolve_password ["DB_TEST_PASSWORD"; "DB_PASSWORD"; "PGPASSWORD"; "POSTGRES_PASSWORD"].

Definition demo_env : string :=
  "# top" +:+ nl +:+ "export A=x # c" +:+ nl +:+ "B='${A}'" +:+ String "013" nl +:+ "12 = no" +:+ nl +:+ "C = ${A}-${B}".
Example parse_demo :
  Vars (Parse (fun _ => "") demo_env) = {["A" := "x"; "B" := "x"; "C" := "x-x"]} /\
  parsePasswordRef "${DB_PW}" = "DB_PW" /\ parsePasswordRef "$pass#word" = "" /\ parsePasswordRef "${}" = "".
Proof. vm_compute. done. Qed.

(** ** Values that the reader takes as they are *)
Fixpoint has_ref (s : string) : bool :=
  match s with EmptyString => false | String c rest => (Ascii.eqb c "$" && has_prefix "{" rest) || has_ref rest end.

Definition plain_value (v : string) : bool :=
  one_line v && negb (has_byte "013" v) && String.eqb (TrimSpace v) v &&
  String.eqb (stripQuotesAndComment v) v && negb (has_ref v).

Lemma expand_no_ref locals getenv s : has_ref s = false -> forall fuel b,
  String.length s <= fuel -> expand_loop locals getenv fuel b s = b +:+ s.
Proof.
  induction s as [|c s IH]; intros Href fuel b Hf; [destruct fuel; by rewrite str_app_nil_r|].
  destruct fuel as [|fuel]; [cbn in Hf; lia|]. cbn in Href. apply orb_false_iff in Href as [H1 H2]. cbn in Hf.
  assert (expand_loop locals getenv fuel (b +:+ String c EmptyString) s = b +:+ String c s) as Hrec.
  { rewrite IH by (done || lia). by rewrite str_app_assoc. }
  cbn [expand_loop]. destruct (Ascii.eqb c "$") eqn:Hc; [|done]. destruct s as [|a s]; [done|].
  unfold has_prefix in H1. cbn [cut_prefix andb] in H1. destruct (Ascii.eqb_spec "{" a) as [<-|Hne]; [by destruct s|].
  destruct a as [[][][][][][][][]]; try exact Hrec. by destruct Hne.
Qed.

Lemma key_byte_not c : key_start c || is_digit c = true ->
  c <> "="%char /\ c <> " "%char /\ c <> "#"%char /\ is_space c = false /\ blank c = false.
Proof. destruct c as [[][][][][][][][]]; vm_compute; try done; intros _; by repeat split. Qed.

Lemma validKey_bytes k : validKey k = true -> k <> "" /\ str_all (fun c => key_start c || is_digit c) k = true.
Proof. destruct k as [|c k]; [done|]. cbn. intros [-> ->]%andb_true_iff. done. Qed.

Lemma str_all_any p q s : (forall c, p c = true -> q c = false) -> str_all p s = true -> str_any q s = false.
Proof. intros H. induction s as [|c s IH]; [done|]. cbn. intros [Hc Hs]%andb_true_iff. by rewrite (H c Hc), IH. Qed.

Lemma valid_env_key k : validKey k = true -> env_key k.
Proof.
  intros [Hne Hall]%validKey_bytes. split_and!; [done| |].
  - eapply str_all_any, Hall. intros c Hc%key_byte_not. destruct Hc as (? & _ & _ & _ & ->). by apply Ascii.eqb_neq.
  - unfold one_line, has_byte. apply negb_true_iff. eapply str_all_any, Hall.
    intros c Hc%key_byte_not. apply Ascii.eqb_neq. intros ->. by destruct Hc as (_ & _ & _ & ? & _).
Qed.

Lemma no_export p k v r :
  str_all (fun c => key_start c || is_digit c) k = true ->
  str_any (fun c => Ascii.eqb c "=") p = false -> str_any (fun c => Ascii.eqb c " ") p = true ->
  cut_prefix p (k +:+ String "=" v) <> Some r.
Proof.
  revert k. induction p as [|a p IH]; intros k Hk Hp Hsp; [done|].
  cbn in Hp, Hsp. apply orb_false_iff in Hp as [Ha Hp]. destruct k as [|c k]; cbn [String.append cut_prefix].
  - by rewrite Ha.
  - cbn in Hk. apply andb_true_iff in Hk as [Hc Hk]. destruct (Ascii.eqb_spec a c) as [->|]; [|done].
    apply IH; [done..|]. apply orb_true_iff in Hsp as [->%Ascii.eqb_eq|]; [|done]. by apply key_byte_not in Hc as (_ & ? & _).
Qed.

(** a line as the patch filter writes it *)
Lemma assignment_written k v : validKey k = true -> assignment (k +:+ "=" +:+ v) = Some (k, TrimSpace v).
Proof.
  intros Hk. pose proof (validKey_bytes k Hk) as [Hne Hall]. change ("=" +:+ v) with (String "=" v).
  unfold assignment. destruct k as [|c k]; [done|]. pose proof Hall as Hall'. cbn in Hall'.
  apply andb_true_iff in Hall' as [Hc _]. apply key_byte_not in Hc as (_ & _ & Hh & _ & Hb).
  change (String c k +:+ String "=" v) with (String c (k +:+ String "=" v)). rewrite trim_left_id by done.
  rewrite (proj2 (Ascii.eqb_neq c "#") Hh). change (String c (k +:+ String "=" v)) with (String c k +:+ String "=" v).
  destruct (cut_prefix "export " _) as [r|] eqn:E; [by apply no_export in E|].
  rewrite cut_byte_here by (eapply str_all_any, Hall; intros a Ha%key_byte_not; apply Ascii.eqb_neq; tauto).
  assert (TrimSpace (String c k) = String c k) as ->.
  { apply (str_all_any _ is_space) in Hall; [|intros a Ha%key_byte_not; tauto].
    unfold TrimSpace, trim. rewrite trim_left_id by (cbn in Hall; by apply orb_false_iff in Hall as [? _]). by apply trim_right_id. }
  by rewrite Hk.
Qed.

Lemma drop_cr_key k v : drop_cr (k +:+ "=" +:+ v) = k +:+ "=" +:+ drop_cr v.
Proof.
  unfold drop_cr, trim_suffix. rewrite !str_rev_app, !str_app_assoc. change (str_rev (String "013" "")) with (String "013" "").
  destruct (str_rev v) as [|c w] eqn:E.
  - assert (v = "") as -> by (rewrite <- (str_rev_invol v), E; done). done.
  - cbn [String.append cut_prefix]. destruct (Ascii.eqb "013" c); [|done]. by rewrite !str_rev_app, !str_rev_invol, str_app_assoc.
Qed.

Lemma drop_cr_written k v : has_byte "013" v = false -> drop_cr (k +:+ "=" +:+ v) = k +:+ "=" +:+ v.
Proof.
  intros Hv. unfold drop_cr, trim_suffix. rewrite !str_rev_app. unfold has_byte in Hv.
  assert (str_any (fun a => Ascii.eqb a "013") (str_rev v) = false) as Hrev.
  { induction v as [|c v IH]; [done|]. cbn in Hv |- *. apply orb_false_iff in Hv as [Hc Hv].
    rewrite str_any_app, IH by done. cbn. by rewrite Hc. }
  change (str_rev (String "013" "")) with (String "013" "").
  destruct (str_rev v) as [|c w]; [done|]. cbn in Hrev. apply orb_false_iff in Hrev as [Hc _].
  cbn [String.append cut_prefix]. by rewrite Ascii.eqb_sym, Hc.
Qed.

Lemma assign_const getenv k v L : plain_value v = true ->
  (forall l raw, l ∈ L -> assignment l = Some (k, raw) -> raw = v) ->
  (exists l raw, l ∈ L /\ assignment l = Some (k, raw)) -> forall vars,
  foldl (assign getenv) vars L !! k = Some v.
Proof.
  intros Hv. induction L as [|l L IH] using rev_ind; intros Hall Hex vars.
  { destruct Hex as (l & raw & Hl & _). by apply elem_of_nil in Hl. }
  rewrite foldl_app. cbn [foldl]. unfold assign at 1. destruct (assignment l) as [[k' raw]|] eqn:El.
  - destruct (decide (k' = k)) as [->|Hne].
    + rewrite lookup_insert_eq. rewrite (Hall l raw) by (set_solver || done).
      unfold plain_value in Hv. apply andb_true_iff in Hv as [[_ Hs%String.eqb_eq]%andb_true_iff Href%negb_true_iff].
      rewrite Hs. f_equal. unfold ExpandVars. by rewrite expand_no_ref.
    + rewrite lookup_insert_ne by done. apply IH; [set_solver|].
      destruct Hex as (l' & raw' & [Hl|Hl]%elem_of_app & El'); [by exists l', raw'|].
      apply list_elem_of_singleton in Hl as ->. congruence.
  - apply IH; [set_solver|]. destruct Hex as (l' & raw' & [Hl|Hl]%elem_of_app & El'); [by exists l', raw'|].
    apply list_elem_of_singleton in Hl as ->. congruence.
Qed.

Lemma scan_lines_fit l : Forall (fun c => fits c.1 = true) l -> scan_lines l = map (fun c => drop_cr c.1) l.
Proof. induction 1 as [|c l Hc _ IH]; [done|]. cbn. by rewrite Hc, IH. Qed.

(** ** The filter and the reader *)
Section Patched.
Context (ini_marshal toml_marshal : string -> gmap string string -> res error string)
        (ini_extract toml_extract : string -> list string -> res error (gmap string string))
        (ini_remove toml_remove : string -> list string -> res error string)
        (others : string -> option Driver) (getenv getenv' : string -> string).
Local Notation Smudge := (Smudge ini_marshal toml_marshal ini_extract toml_extract ini_remove toml_remove others getenv).

(** a line of the smudged file, read back *)
Lemma smudged_line ks val content x k raw :
  Forall (fun k => validKey k = true) ks -> plain_value (val k) = true ->
  (forall x raw, x ∈ chunks content -> assignment (drop_cr x.1) = Some (k, raw) -> is_key k x = true) ->
  x ∈ map (smudged val ks) (finish ks (chunks content)) ++ appended val ks (chunks content) ->
  k ∈ ks -> assignment (drop_cr x.1) = Some (k, raw) -> raw = val k.
Proof.
  intros Hkeys Hplain Hspell Hx Hk. pose proof (Forall_impl _ _ _ Hkeys valid_env_key) as Henv.
  rewrite Forall_forall in Hkeys.
  assert (forall k' b, k' ∈ ks -> x = (written val k', b) -> assignment (drop_cr x.1) = Some (k, raw) -> raw = val k) as Hw.
  { intros k' b Hk' -> Ha. unfold written in Ha. cbn [fst] in Ha. pose proof Ha as Ha'.
    rewrite drop_cr_key, assignment_written in Ha' by auto. injection Ha' as <- _. unfold plain_value in Hplain.
    apply andb_true_iff in Hplain as [[[[_ Hcr%negb_true_iff]%andb_true_iff Htrim%String.eqb_eq]%andb_true_iff _]%andb_true_iff _].
    rewrite drop_cr_written, assignment_written, Htrim in Ha by auto. by injection Ha as <-. }
  apply elem_of_app in Hx as [(y & -> & Hy)%list_elem_of_fmap|(k' & -> & Hk')%list_elem_of_fmap].
  - unfold smudged in *. destruct (key_in ks y) as [k'|] eqn:E.
    + apply key_in_Some in E as [Hk' _]. apply (Hw k' y.2 Hk' eq_refl).
    + intros Ha. destruct (elem_finish _ _ _ Hy) as (h & Hh & Eh). pose proof Ha as Ha'. rewrite Eh in Ha'.
      apply (Hspell h raw Hh) in Ha'. unfold is_key in Ha'. rewrite <- Eh in Ha'. by rewrite (key_in_is ks y k) in E.
  - apply elem_of_filter_bool in Hk' as [_ Hk']. apply (Hw k' true Hk' eq_refl).
Qed.

(** a line of every patched key is there *)
Lemma smudged_has ks val content k : Forall env_key ks -> k ∈ ks ->
  exists b, (written val k, b) ∈ map (smudged val ks) (finish ks (chunks content)) ++ appended val ks (chunks content).
Proof.
  intros Henv Hk. destruct (found k (chunks content)) eqn:Ef.
  - rewrite <- (found_finish k ks) in Ef. unfold found in Ef. apply existsb_elem in Ef as (y & Hy & Hky). exists y.2. apply elem_of_app. left.
    apply list_elem_of_fmap. exists y. split; [|done]. unfold smudged. by rewrite (key_in_is ks y k).
  - exists true. apply elem_of_app. right. apply list_elem_of_fmap. exists k. split; [done|].
    apply elem_of_filter_bool. by rewrite Ef.
Qed.

(** C35: what the patch filter writes into a dotenv file is what the reader of
    environment files gets back.  A patched key has its rendered value in the
    smudged file, whatever else is in the file, in the environment of the
    reader and in the values of the other keys, provided that the value needs
    no quotes (no comment, no reference, no blanks around it) and that no line
    of the file assigns this key in a spelling that the reader takes and the
    filter does not (indented or exported).  The keys are valid names, the
    rendered values single lines, and the lines fit the reader's buffer. *)
Theorem patched_env_reads_back p content c r s k v
    (Hdriver : patchDriver p = Ok DriverDotenv)
    (Hkeys : Forall (fun k => validKey k = true) (sortedKeys (Set_ p)))
    (Hrender : renderTemplates getenv (Set_ p) c = Ok r)
    (Hone : forall k v, r !! k = Some v -> one_line v = true)
    (Hplain : plain_value v = true)
    (Hspelling : forall x raw, x ∈ chunks content -> assignment (drop_cr x.1) = Some (k, raw) -> is_key k x = true)
    (Hsmudge : Smudge p content c = Ok s)
    (Hfits : Forall (fun x => fits x.1 = true) (chunks s))
    (Hkv : r !! k = Some v) :
  Get (Parse getenv' s) k = Some v.
Proof.
  set (ks := sortedKeys (Set_ p)) in *. pose proof (Forall_impl _ _ _ Hkeys valid_env_key) as Henv.
  destruct (Smudge_sets _ _ _ _ _ _ _ _ p content c r s Hdriver Henv Hrender Hone Hsmudge) as [Hlines _]. fold ks in Hlines.
  assert (k ∈ ks) as Hk.
  { unfold ks. rewrite <- (rendered_keys _ _ _ _ Hrender). apply elem_of_sortedKeys. by eexists. }
  assert (value_in r k = v) as Hv by (unfold value_in; by rewrite Hkv).
  unfold Get, Parse. cbn [Vars]. rewrite scan_lines_fit by done. apply assign_const; [done| |].
  - intros l raw (x & -> & Hx)%list_elem_of_fmap Ha. rewrite Hlines in Hx. rewrite <- Hv.
    eapply smudged_line; [done| |done|done|done|done]. by rewrite Hv.
  - destruct (smudged_has ks (value_in r) content k Henv Hk) as [b Hb]. rewrite <- Hlines in Hb.
    exists (drop_cr (written (value_in r) k)), v. split; [by apply (list_elem_of_fmap_2 (fun c => drop_cr c.1)) in Hb|].
    pose proof Hplain as Hval. unfold plain_value in Hval.
    apply andb_true_iff in Hval as [[[[_ Hcr%negb_true_iff]%andb_true_iff Htrim%String.eqb_eq]%andb_true_iff _]%andb_true_iff _].
    unfold written. rewrite Hv. rewrite drop_cr_written, assignment_written, Htrim; [done| |done].
    rewrite Forall_forall in Hkeys. by apply Hkeys.
Qed.
End Patched.

Lemma patched_env_reads_back_witness :
  demo_smudge demo_head = Ok ("APP=1" +:+ nl +:+ "DB_NAME=app_x" +:+ nl +:+ "EXTRA=1" +:+ nl) /\
  Get (Parse (fun _ => "") ("APP=1" +:+ nl +:+ "DB_NAME=app_x" +:+ nl +:+ "EXTRA=1" +:+ nl)) "DB_NAME" = Some "app_x".
Proof.
  split; [exact demo_smudged|].
  refine (patched_env_reads_back no_library no_library no_extract no_extract no_library no_library no_driver (fun _ => "") (fun _ => "")
    demo_patch demo_head demo_context demo_rendered ("APP=1" +:+ nl +:+ "DB_NAME=app_x" +:+ nl +:+ "EXTRA=1" +:+ nl)
    "DB_NAME" "app_x" eq_refl _ _ demo_one_line _ _ demo_smudged _ _).
  - rewrite demo_keys. repeat constructor.
  - vm_compute. reflexivity.
  - vm_compute. reflexivity.
  - intros x raw Hx Ha. change (chunks demo_head) with [("APP=1", true); ("DB_NAME = main", true)] in Hx.
    apply elem_of_cons in Hx as [->|Hx]; [|apply list_elem_of_singleton in Hx as ->]; by vm_compute in Ha |- *.
  - by apply (bool_decide_unpack _); vm_compute.
  - by vm_compute.
Defined.

(** an exported line after the patched one wins, and a value with a comment
    sign is written without the quotes it needs *)
Example exported_line_wins :
  Get (Parse (fun _ => "") (patchEnvOne ("DB=a" +:+ nl +:+ "export DB=b" +:+ nl) "DB" "x")) "DB" = Some "b" /\
  Get (Parse (fun _ => "") (patchEnvOne "" "PW" "a #b")) "PW" = Some "a".
Proof. by vm_compute. Qed.

(** ** Layers *)
Section Layers.
Context (getenv : string -> string) (read_file : string -> option string).
Local Notation ReadOptional := (ReadOptional getenv read_file).
Local Notation ReadLayered := (ReadLayered getenv read_file).

Definition last_of {A} (l : list (option A)) : option A := foldl (fun out v => match v with Some _ => v | None => out end) None l.

(** the last file that sets a variable wins, in the order of the paths *)
Lemma ReadLayered_lookup paths k : Get (ReadLayered paths) k = last_of (map (fun p => Get (ReadOptional p) k) paths).
Proof.
  unfold ReadLayered, last_of. induction paths as [|p paths IH] using rev_ind; [done|].
  rewrite foldl_app, map_app, foldl_app, <- IH. cbn. unfold Get at 1, layer. cbn [Vars].
  rewrite lookup_union. unfold Get. by destruct (Vars (ReadOptional p) !! k) as [v|], (Vars (foldl _ _ _) !! k).
Qed.

Lemma last_of_app {A} (l1 l2 : list (option A)) : last_of (l1 ++ l2) = match last_of l2 with Some v => Some v | None => last_of l1 end.
Proof.
  unfold last_of. induction l2 as [|v l2 IH] using rev_ind; [by rewrite app_nil_r|].
  rewrite app_assoc, foldl_app, (foldl_app _ l2 [v]). cbn. destruct v; [done|]. exact IH.
Qed.

Lemma new_paths_spec l : forall seen, NoDup (new_paths seen l) /\ forall q, q ∈ new_paths seen l <-> q ∈ l /\ q ∉ seen.
Proof.
  induction l as [|p l IH]; intros seen.
  { split; [constructor|]. intros q. cbn. rewrite elem_of_nil. tauto. }
  cbn. case_decide as Hp.
  - destruct (IH seen) as [Hnd Hin]. split; [done|]. intros q. rewrite Hin, elem_of_cons. split; [tauto|].
    intros [[->|?] ?]; tauto.
  - destruct (IH (p :: seen)) as [Hnd Hin]. split.
    + apply NoDup_cons. split; [|done]. rewrite Hin, elem_of_cons. tauto.
    + intros q. rewrite !elem_of_cons, Hin, elem_of_cons. destruct (decide (q = p)) as [->|]; tauto.
Qed.

(** only membership of what was seen matters, of the paths that follow *)
Lemma new_paths_ext l : forall s1 s2, (forall x, x ∈ l -> x ∈ s1 <-> x ∈ s2) -> new_paths s1 l = new_paths s2 l.
Proof.
  induction l as [|x l IH]; intros s1 s2 H; [done|]. cbn.
  rewrite (decide_ext (x ∈ s1) (x ∈ s2)) by (apply H; by left).
  assert (forall y, y ∈ l -> y ∈ s1 <-> y ∈ s2) as Hl by (intros y Hy; apply H; by right).
  case_decide; [by apply IH|]. f_equal. apply IH. intros y Hy. rewrite !elem_of_cons, (Hl y Hy). done.
Qed.

Lemma new_paths_app l2 l1 : forall seen, (forall p, p ∈ l2 -> p ∉ l1) ->
  new_paths seen (l1 ++ l2) = new_paths seen l1 ++ new_paths seen l2.
Proof.
  induction l1 as [|p l1 IH]; intros seen Hd; [done|]. cbn.
  assert (forall q, q ∈ l2 -> q ∉ l1) as Hd' by (intros q Hq Hq1; by apply (Hd q Hq), elem_of_cons; right).
  case_decide; [by apply IH|]. cbn. rewrite IH by done. do 2 f_equal. apply new_paths_ext.
  intros q Hq. rewrite elem_of_cons. split; [|tauto]. intros [->|]; [|done]. exfalso. apply (Hd p Hq). by left.
Qed.

(** in a worktree, a variable of its own files shadows the main checkout's,
    which fills the gaps, when the two have no file in common *)
Lemma worktree_shadows main wt sources k :
  let files root := new_paths [] (omap (source_path root) sources) in
  (forall p, p ∈ files main -> p ∈ files wt -> False) ->
  Get (loadRepoEnvRoots getenv read_file [main; wt] sources) k =
  match Get (ReadLayered (files wt)) k with Some v => Some v | None => Get (ReadLayered (files main)) k end.
Proof.
  intros files Hdisj. unfold loadRepoEnvRoots, envSourcePaths. cbn [map concat]. rewrite app_nil_r.
  rewrite new_paths_app.
  - rewrite !ReadLayered_lookup, map_app, last_of_app. done.
  - intros p Hp Hm. apply (Hdisj p); apply (proj2 (new_paths_spec _ _) p); (split; [done|apply not_elem_of_nil]).
Qed.
End Layers.

(** ** Password references *)
Lemma but_last_snoc s c : but_last (s +:+ String c "") = s /\ last_byte (s +:+ String c "") = Some c.
Proof.
  split; [|unfold last_byte; by rewrite str_rev_app]. unfold but_last. rewrite str_length_app.
  apply str_take_app. cbn. lia.
Qed.

Lemma last_byte_snoc s c : last_byte s = Some c -> s = but_last s +:+ String c "".
Proof.
  intros H. assert (exists t, s = t +:+ String c "") as [t ->].
  { unfold last_byte in H. destruct (str_rev s) as [|a r] eqn:E; [done|]. injection H as ->.
    exists (str_rev r). by rewrite <- (str_rev_invol s), E. }
  by destruct (but_last_snoc t c) as [-> _].
Qed.

(** a configured password is a reference exactly when all of it is [$NAME] or
    [${NAME}]; everything else is taken literally *)
Lemma parsePasswordRef_spec s name :
  name <> "" -> parsePasswordRef s = name <-> isIdent name = true /\ (s = "$" +:+ name \/ s = "${" +:+ name +:+ "}").
Proof.
  intros Hne. unfold parsePasswordRef. split.
  - destruct (cut_prefix "$" s) as [r|] eqn:E; [|congruence]. apply cut_prefix_app in E as ->.
    destruct (cut_prefix "{" r) as [body|] eqn:E2.
    + apply cut_prefix_app in E2 as ->. case_bool_decide as Hl; [|cbn; congruence].
      destruct (isIdent (but_last body)) eqn:Hi; [|congruence]. intros <-. split; [done|]. right.
      assert (last_byte body = Some "}"%char) as Hb.
      { destruct body as [|c body]; [by vm_compute in Hl|]. unfold last_byte in *. change ("{" +:+ String c body) with (String "{" (String c body)) in Hl.
        cbn [str_rev] in Hl |- *. destruct (str_rev body); exact Hl. }
      by rewrite <- (last_byte_snoc body "}") by done.
    + destruct (isIdent r) eqn:Hi; [|congruence]. intros <-. split; [done|by left].
  - intros [Hi [->| ->]].
    + rewrite (proj2 (cut_prefix_app "$" _ name) eq_refl). destruct (cut_prefix "{" name) as [body|] eqn:E.
      * apply cut_prefix_app in E as ->. by vm_compute in Hi.
      * by rewrite Hi.
    + change ("${" +:+ name +:+ "}") with ("$" +:+ ("{" +:+ name +:+ "}")). rewrite (proj2 (cut_prefix_app "$" _ ("{" +:+ name +:+ "}")) eq_refl).
      rewrite (proj2 (cut_prefix_app "{" _ (name +:+ "}")) eq_refl).
      rewrite bool_decide_eq_true_2 by exact (proj2 (but_last_snoc ("{" +:+ name) "}")).
      destruct (but_last_snoc name "}") as [-> _]. by rewrite Hi.
Qed.
