(* ===== verification/BuildFlights.v ===== *)
(** * Cold builds in flight

    [internal/prepare/prepare.go]: the registry that lets a prepare wait for
    the cold build of the same template by another worktree ([buildFlights],
    [waitForBuild], [beginBuild], [buildFlight.finish]), and the way of a
    prepare through it: the lookups of [lookupCachedSnapshot], the probe of
    [liveSnapshot] and the restore of [cacheHitGeneric], which both turn a hit
    back into a build when the template is gone, and the build.  Any number of
    prepares take their steps in any order, between them rows of the snapshots
    table may be evicted, and every call may fail.  ([TemplateBuild] has the
    build itself, with the wait as an interval in which others act.) *)
From stdpp Require Import base strings list gmap sets.
From Stdlib Require Import ZArith Lia.
From S2P Require Import Prelude GoStrings.

(** ** The registry *)
Definition buildFlightKey (engine fingerprint : string) : string := engine +:+ "/" +:+ fingerprint.

Abbreviation chan := nat.

(** the map of flights; the channels that were closed; the next channel; the
    keys with a snapshot row *)
Record world := { flights : gmap string chan; closed : gset chan; fresh : chan; rows : gset string }.

Definition in_flight (key : string) (w : world) : option chan := flights w !! key.

Definition beginBuild (key : string) (w : world) : world * chan :=
  ({| flights := <[key := fresh w]> (flights w); closed := closed w; fresh := S (fresh w); rows := rows w |}, fresh w).

(** [finish]: once only *)
Definition finish (key : string) (ch : chan) (w : world) : world :=
  if decide (ch ∈ closed w) then w
  else {| flights := delete key (flights w); closed := {[ch]} ∪ closed w; fresh := fresh w; rows := rows w |}.

Definition record_row (key : string) (w : world) : world :=
  {| flights := flights w; closed := closed w; fresh := fresh w; rows := {[key]} ∪ rows w |}.
(** [DeleteSnapshot] *)
Definition forget_row (key : string) (w : world) : world :=
  {| flights := flights w; closed := closed w; fresh := fresh w; rows := rows w ∖ {[key]} |}.

(** ** One prepare *)
(** where it is: before the first lookup; after a miss; at the channel of a
    flight; after it closed; with a row, its template not probed yet; with a
    template, restoring; about to build; building; built, the flight not
    finished yet; returned, with or without an error *)
Inductive phase :=
| Idle | Missed | Waiting (ch : chan) | Woken | Found | Restoring | Claiming
| Building (ch : chan) | Built (ch : chan) (ok : bool) | Done (ok : bool).

Record preparer := { pkey : string; at_ : phase }.
Definition move (p : preparer) (f : phase) : preparer := {| pkey := pkey p; at_ := f |}.

(** how the calls of a step come out: done, failed, or done on a template that
    is gone *)
Inductive answer := Good | Failed | Gone.

(** a lookup that may fail *)
Definition looked_up (a : answer) (k : string) (w : world) (miss : phase) : phase :=
  match a with Failed => Done false | _ => if decide (k ∈ rows w) then Found else miss end.

(** the next step of a prepare; [None] when it is blocked or has returned *)
Definition advance (a : answer) (w : world) (p : preparer) : option (world * preparer) :=
  let k := pkey p in
  match at_ p with
  | Idle => Some (w, move p (looked_up a k w Missed))
  | Missed => Some (w, move p (match in_flight k w with Some ch => Waiting ch | None => Claiming end))
  | Waiting ch => if decide (ch ∈ closed w) then Some (w, move p Woken) else None
  | Woken => Some (w, move p (looked_up a k w Claiming))
  | Found => match a with
             | Good => Some (w, move p Restoring)
             | Failed => Some (w, move p (Done false))
             | Gone => Some (forget_row k w, move p Claiming)
             end
  | Restoring => match a with
                 | Good => Some (w, move p (Done true))
                 | Failed => Some (w, move p (Done false))
                 | Gone => Some (forget_row k w, move p Claiming)
                 end
  | Claiming => let '(w, ch) := beginBuild k w in Some (w, move p (Building ch))
  | Building ch => match a with
                   | Good => Some (record_row k w, move p (Built ch true))
                   | _ => Some (w, move p (Built ch false))
                   end
  | Built ch ok => Some (finish k ch w, move p (Done ok))
  | Done _ => None
  end.

Definition returned (p : preparer) : bool := match at_ p with Done _ => true | _ => false end.

(** ** All of them *)
Record system := { shared : world; preparers : list preparer }.

Definition advance_at (i : nat) (a : answer) (s : system) : option system :=
  match preparers s !! i with
  | None => None
  | Some p =>
      match advance a (shared s) p with
      | None => None
      | Some (w, p) => Some {| shared := w; preparers := <[i := p]> (preparers s) |}
      end
  end.

(** a step of a prepare; or a row is evicted *)
Definition prepare_step (s s' : system) : Prop := exists i a, advance_at i a s = Some s'.
Inductive step (s : system) : system -> Prop :=
| step_prepare s' : prepare_step s s' -> step s s'
| step_evict k : k ∈ rows (shared s) -> step s {| shared := forget_row k (shared s); preparers := preparers s |}.

Definition start (rows : gset string) (keys : list string) : system :=
  {| shared := {| flights := ∅; closed := ∅; fresh := 0; rows := rows |};
     preparers := map (fun k => {| pkey := k; at_ := Idle |}) keys |}.

Definition reachable (s : system) : Prop := exists rows keys, rtc step (start rows keys) s.

(** a run, as indices and answers *)
Fixpoint run (s : system) (l : list (nat * answer)) : option system :=
  match l with
  | [] => Some s
  | (i, a) :: l => match advance_at i a s with Some s => run s l | None => None end
  end.

(** ** The invariant *)
(** the channel a prepare has opened and not closed yet *)
Definition holds (p : preparer) (ch : chan) : bool :=
  match at_ p with Building c | Built c _ => Nat.eqb c ch | _ => false end.

Definition owned (s : system) (ch : chan) : Prop := exists i p, preparers s !! i = Some p /\ holds p ch = true.

Record inv (s : system) : Prop := {
  (** a channel that a prepare waits at is closed, or held by one that builds *)
  inv_waits i p ch : preparers s !! i = Some p -> at_ p = Waiting ch -> owned s ch \/ ch ∈ closed (shared s);
  inv_held i p ch : preparers s !! i = Some p -> holds p ch = true -> ch < fresh (shared s) /\ ch ∉ closed (shared s);
  inv_alone i j p q ch : preparers s !! i = Some p -> preparers s !! j = Some q ->
    holds p ch = true -> holds q ch = true -> i = j;
  inv_flights k ch : flights (shared s) !! k = Some ch -> exists i p, preparers s !! i = Some p /\ holds p ch = true /\ pkey p = k;
  inv_closed ch : ch ∈ closed (shared s) -> ch < fresh (shared s);
}.

Section Frame.
Context (s : system) (i : nat) (p : preparer) (w' : world) (p' : preparer).
Context (Hinv : inv s) (Hp : preparers s !! i = Some p).
Let s' := {| shared := w'; preparers := <[i := p']> (preparers s) |}.
Context (Hkey : pkey p' = pkey p) (Hfresh : fresh (shared s) <= fresh w').
(** closed channels stay closed, and only the prepare's own are closed *)
Context (Hclosed : closed (shared s) ⊆ closed w').
Context (Hnew : forall ch, ch ∈ closed w' -> ch ∈ closed (shared s) \/ holds p ch = true).
(** what it held it holds or has closed, what it holds it held or has opened *)
Context (Hkept : forall ch, holds p ch = true -> holds p' ch = true \/ ch ∈ closed w').
Context (Hopened : forall ch, holds p' ch = true ->
  (holds p ch = true \/ fresh (shared s) <= ch) /\ ch < fresh w' /\ ch ∉ closed w').
Context (Hflights : forall k ch, flights w' !! k = Some ch ->
  (flights (shared s) !! k = Some ch /\ (holds p ch = true -> holds p' ch = true)) \/ (k = pkey p /\ holds p' ch = true)).
Context (Hwaits : forall ch, at_ p' = Waiting ch -> owned s ch \/ ch ∈ closed (shared s)).

Lemma other j q : j <> i -> preparers s !! j = Some q -> preparers s' !! j = Some q.
Proof. intros Hj Hq. cbn. by rewrite list_lookup_insert_ne. Qed.

Lemma here : preparers s' !! i = Some p'.
Proof using Hp. cbn. apply list_lookup_insert_eq. by eapply lookup_lt_Some. Qed.

(** a prepare of the new state is the one that moved, or was there *)
Lemma who j q : preparers s' !! j = Some q -> j = i /\ q = p' \/ j <> i /\ preparers s !! j = Some q.
Proof using Hp.
  intros Hq. destruct (decide (j = i)) as [->|Hj]; [left; rewrite here in Hq; by injection Hq as <-|].
  right. cbn in Hq. by rewrite list_lookup_insert_ne in Hq.
Qed.

Lemma channel_kept ch : owned s ch \/ ch ∈ closed (shared s) -> owned s' ch \/ ch ∈ closed w'.
Proof using All.
  intros [(j & q & Hq & Hh)|Hc]; [|right; set_solver].
  destruct (decide (j = i)) as [->|Hj]; [|left; exists j, q; split; [by apply other|done]].
  assert (q = p) as -> by congruence. destruct (Hkept ch Hh) as [Hh'|Hc]; [|by right].
  left. exists i, p'. split; [apply here|done].
Qed.

Lemma inv_frame : inv s'.
Proof using All.
  assert (Hcross : forall j q ch, j <> i -> preparers s !! j = Some q -> holds p' ch = true -> holds q ch = true -> False).
  { intros j q ch Hj Hq Hh' Hh. destruct (Hopened ch Hh') as ([Hh2|Hle] & _).
    - by destruct Hj; eapply (inv_alone s Hinv).
    - destruct (inv_held s Hinv j q ch Hq Hh). lia. }
  split.
  - intros j q ch [[-> ->]|[Hj Hq]]%who Hw; apply channel_kept; [by apply Hwaits|by eapply (inv_waits s Hinv)].
  - intros j q ch [[-> ->]|[Hj Hq]]%who Hh; [by apply Hopened in Hh as (_ & ? & ?)|].
    destruct (inv_held s Hinv j q ch Hq Hh) as [H1 H2]. split; [cbn; lia|]. intros [?|Hh2]%Hnew; [done|].
    destruct Hj. by eapply (inv_alone s Hinv).
  - intros j1 j2 q1 q2 ch [[-> ->]|[Hj1 H1]]%who [[-> ->]|[Hj2 H2]]%who Hh1 Hh2; [done|..].
    + by destruct (Hcross j2 q2 ch).
    + by destruct (Hcross j1 q1 ch).
    + by eapply (inv_alone s Hinv).
  - intros k ch Hk. destruct (Hflights k ch Hk) as [[Hf Hh']|[-> Hh']]; [|exists i, p'; split; [apply here|done]].
    destruct (inv_flights s Hinv k ch Hf) as (j & q & Hq & Hh & <-). destruct (decide (j = i)) as [->|Hj].
    + assert (q = p) as -> by congruence. exists i, p'. split; [apply here|auto].
    + exists j, q. split; [by apply other|done].
  - intros ch [Hc|Hh]%Hnew; [apply (inv_closed s Hinv) in Hc|apply (inv_held s Hinv i p ch Hp) in Hh as [? _]]; cbn; lia.
Qed.
End Frame.

(** a step of a prepare that holds nothing and opens nothing *)
Lemma inv_local s i p f w' :
  inv s -> preparers s !! i = Some p -> (forall ch, holds p ch = false) -> (forall ch, holds (move p f) ch = false) ->
  flights w' = flights (shared s) -> closed w' = closed (shared s) -> fresh w' = fresh (shared s) ->
  (forall ch, f = Waiting ch -> owned s ch \/ ch ∈ closed (shared s)) ->
  inv {| shared := w'; preparers := <[i := move p f]> (preparers s) |}.
Proof.
  intros Hinv Hp H1 H2 Hf Hc Hn Hw. apply (inv_frame s i p w' (move p f)); rewrite ?Hf, ?Hc, ?Hn; try done.
  - intros ch Hh. by left.
  - intros ch. by rewrite H1.
  - intros ch. by rewrite H2.
  - intros k ch Hk. left. split; [done|]. by rewrite H1.
Qed.

Lemma prepare_step_inv s s' : inv s -> prepare_step s s' -> inv s'.
Proof.
  intros Hinv (i & a & Hstep). unfold advance_at in Hstep.
  destruct (preparers s !! i) as [p|] eqn:Hp; [|done]. destruct p as [k f]. unfold advance in Hstep. cbn [pkey at_] in Hstep.
  destruct f as [| |ch| | | | |ch|ch b|b].
  - injection Hstep as <-. unfold looked_up. apply inv_local; try done; repeat case_match; done.
  - injection Hstep as <-. unfold in_flight. destruct (flights (shared s) !! k) as [ch|] eqn:Hf; apply inv_local; try done.
    intros c [= <-]. left. destruct (inv_flights s Hinv k ch Hf) as (j & q & Hq & Hh & _). by exists j, q.
  - destruct (decide _); [|done]. injection Hstep as <-. by apply inv_local.
  - injection Hstep as <-. unfold looked_up. apply inv_local; try done; repeat case_match; done.
  - destruct a; injection Hstep as <-; by apply inv_local.
  - destruct a; injection Hstep as <-; by apply inv_local.
  - injection Hstep as <-. apply (inv_frame s i _ _ _ Hinv Hp); cbn; try done; try lia.
    + intros ch Hc. by left.
    + intros ch Hh. apply Nat.eqb_eq in Hh as <-. split; [by right|]. split; [lia|]. intros Hc%(inv_closed s Hinv). lia.
    + intros k' ch Hk. destruct (decide (k' = k)) as [->|Hne].
      * rewrite lookup_insert_eq in Hk. injection Hk as <-. right. split; [done|apply Nat.eqb_refl].
      * rewrite lookup_insert_ne in Hk by done. by left.
  - assert (Hheld : forall c, Nat.eqb ch c = true -> c < fresh (shared s) /\ c ∉ closed (shared s)) by (intros c Hc; by apply (inv_held s Hinv i _ c Hp)).
    destruct a; injection Hstep as <-; apply (inv_frame s i _ _ _ Hinv Hp); cbn; try done; try lia.
    all: try (intros c; by left).
    all: try (intros c Hc; split; [by left|by apply Hheld]).
    all: intros k' c Hk; by left.
  - injection Hstep as <-. destruct (inv_held s Hinv i _ ch Hp (Nat.eqb_refl ch)) as [Hlt Hopen].
    unfold finish. rewrite decide_False by done. apply (inv_frame s i _ _ _ Hinv Hp); cbn; try done; try lia.
    + set_solver.
    + intros c Hc. apply elem_of_union in Hc as [Hc|Hc]; [right|by left]. apply elem_of_singleton in Hc as ->. apply Nat.eqb_refl.
    + intros c Hh. apply Nat.eqb_eq in Hh as <-. right. set_solver.
    + intros k' c Hk. apply lookup_delete_Some in Hk as [Hne Hk]. left. split; [done|]. intros Hh.
      destruct (inv_flights s Hinv k' c Hk) as (j & q & Hq & Hhq & Hkq). exfalso.
      assert (i = j) as <- by exact (inv_alone s Hinv i j _ q c Hp Hq Hh Hhq). rewrite Hp in Hq. injection Hq as <-. by apply Hne.
  - done.
Qed.

Lemma flight_step_inv s s' : inv s -> step s s' -> inv s'.
Proof.
  intros Hinv [s2 Hs|k Hk]; [by eapply prepare_step_inv|]. destruct Hinv as [H1 H2 H3 H4 H5].
  split; cbn; [exact H1|exact H2|exact H3|exact H4|exact H5].
Qed.

Lemma inv_start rows keys : inv (start rows keys).
Proof.
  split; cbn.
  - intros i p ch Hp. apply list_lookup_fmap_Some in Hp as (k & -> & _). done.
  - intros i p ch Hp. apply list_lookup_fmap_Some in Hp as (k & -> & _). done.
  - intros i j p q ch Hp _ Hh. apply list_lookup_fmap_Some in Hp as (k & -> & _). done.
  - intros k ch Hk. by rewrite lookup_empty in Hk.
  - intros ch Hch. by apply elem_of_empty in Hch.
Qed.

Lemma flights_inv s : reachable s -> inv s.
Proof.
  intros (rows & keys & Hs). eapply (rtc_invariant step inv); [|exact Hs|apply inv_start].
  intros a b. apply flight_step_inv.
Qed.

(** ** Every prepare returns *)
Definition rank (p : preparer) : nat :=
  match at_ p with
  | Idle => 9 | Missed => 8 | Waiting _ => 7 | Woken => 6 | Found => 5 | Restoring => 4 | Claiming => 3
  | Building _ => 2 | Built _ _ => 1 | Done _ => 0
  end.
(** a step of a prepare adds a row at most *)
Definition work (s : system) : nat := 2 * sum_list (map rank (preparers s)) + size (rows (shared s)).

Lemma forget_size k w : size (rows (forget_row k w)) <= size (rows w).
Proof. apply subseteq_size. cbn. set_solver. Qed.

Lemma advance_rank a w p w' p' : advance a w p = Some (w', p') -> rank p' < rank p /\ size (rows w') <= S (size (rows w)).
Proof.
  assert (Hrec : forall k, size (rows (record_row k w)) <= S (size (rows w))).
  { intros k. cbn. rewrite (size_union_alt {[k]} (rows w)), size_singleton.
    pose proof (subseteq_size (rows w ∖ {[k]}) (rows w) ltac:(set_solver)). lia. }
  assert (Hfor : forall k, size (rows (forget_row k w)) <= S (size (rows w))) by (intros k; pose proof (forget_size k w); lia).
  assert (Hfin : forall k ch, rows (finish k ch w) = rows w) by (intros k ch; unfold finish; by case_match).
  unfold advance, looked_up, rank, beginBuild. destruct p as [k f]. cbn [pkey at_].
  destruct f; cbn [at_ move]; repeat case_match; intros; simplify_eq; cbn [at_ move]; try discriminate;
    (split; [cbn; lia|]); rewrite ?Hfin; try apply Hrec; try apply Hfor; cbn; lia.
Qed.

Lemma sum_insert (l : list preparer) i p p' :
  l !! i = Some p -> rank p' < rank p -> sum_list (map rank (<[i := p']> l)) < sum_list (map rank l).
Proof.
  revert i. induction l as [|q l IH]; intros [|i]; cbn; try done.
  - intros [= ->] Hr. lia.
  - intros Hq Hr. specialize (IH i Hq Hr).
    change (rank q + sum_list (map rank (<[i := p']> l)) < rank q + sum_list (map rank l)). lia.
Qed.

Lemma flight_step_work s s' : step s s' -> work s' < work s.
Proof.
  intros [s2 (i & a & H)|k Hk]; unfold work.
  - unfold advance_at in H. destruct (preparers s !! i) as [p|] eqn:Hp; [|done].
    destruct (advance a (shared s) p) as [[w p']|] eqn:Ha; [|done]. injection H as <-. cbn [shared preparers].
    apply advance_rank in Ha as [Hr Hs]. pose proof (sum_insert _ _ _ _ Hp Hr). lia.
  - cbn [shared preparers]. assert (size (rows (forget_row k (shared s))) < size (rows (shared s))); [|lia].
    apply subset_size. cbn. set_solver.
Qed.

(** somebody can always move: who waits, waits for one who builds *)
Lemma not_stuck s : inv s -> (exists p, p ∈ preparers s /\ returned p = false) -> exists s', prepare_step s s'.
Proof.
  intros Hinv (p & Hin & Hr). apply list_elem_of_lookup in Hin as [i Hp].
  assert (forall j q, preparers s !! j = Some q -> advance Good (shared s) q <> None -> exists s', prepare_step s s') as Hgo.
  { intros j q Hq Ha. destruct (advance Good (shared s) q) as [[w q']|] eqn:E; [|done].
    eexists. exists j, Good. unfold advance_at. by rewrite Hq, E. }
  destruct p as [k f]. destruct f as [| |ch| | | | |ch|ch b|b]; try done; try (by apply (Hgo i _ Hp)).
  destruct (inv_waits s Hinv i _ ch Hp eq_refl) as [(j & q & Hq & Hh)|Hc].
  - apply (Hgo j q Hq). unfold holds in Hh. unfold advance. by destruct (at_ q).
  - apply (Hgo i _ Hp). cbn. by rewrite decide_True.
Qed.

(** C12: C0_every_prepare_returns: no prepare waits for ever.  From any state that
    any number of prepares can reach, in any interleaving, whatever fails, and
    however often a template turns out to be gone, every further run is finite,
    and when no prepare can take a step any more all of them have returned: a
    waiter is always woken by the flight that it waits for. *)
Theorem every_prepare_returns s (Hs : reachable s) :
  Acc (flip step) s /\
  (forall s', rtc step s s' -> (forall s2, ~ prepare_step s' s2) -> Forall (fun p => returned p = true) (preparers s')).
Proof.
  split.
  - clear Hs. remember (work s) as n eqn:Hn. revert s Hn. induction n as [n IH] using lt_wf_ind. intros s ->.
    constructor. intros s' Hstep. by eapply IH; [apply flight_step_work|].
  - intros s' Hrun Hend. apply flights_inv in Hs. apply (rtc_invariant step inv _ _ flight_step_inv Hrun) in Hs.
    apply Forall_forall. intros p Hp. destruct (returned p) eqn:Hr; [done|].
    destruct (not_stuck s' Hs) as [s2 H2]; [by exists p|]. by destruct (Hend s2).
Qed.

(** ** Runs *)
Definition three : system := start ∅ ["k"; "k"; "k"].

(** the second waits for the first and restores its template; the third builds
    nothing either *)
Definition orderly : list (nat * answer) :=
  map (fun i => (i, Good)) [0; 0; 0; 1; 1; 2; 0; 2; 0; 1; 2; 1; 2; 1; 2; 1; 2].

Definition phases (o : option system) : option (list phase) := map at_ <$> (preparers <$> o).

Lemma every_prepare_returns_witness :
  phases (run three orderly) = Some [Done true; Done true; Done true] /\
  Acc (flip step) three /\
  (forall s', rtc step three s' -> (forall s2, ~ prepare_step s' s2) -> Forall (fun p => returned p = true) (preparers s')).
Proof.
  split; [by vm_compute|].
  refine (every_prepare_returns three _). exists ∅, ["k"; "k"; "k"]. apply rtc_refl.
Defined.

(** the first build fails; the second, which waited for it, builds *)
Example waiter_builds :
  phases (run three [(0, Good); (0, Good); (0, Good); (1, Good); (1, Good); (0, Failed); (0, Good); (1, Good); (1, Good)])
  = Some [Done false; Claiming; Idle].
Proof. vm_compute. reflexivity. Qed.

(** the template is gone when it is to be restored: the prepare builds, and the
    next one waits for it *)
Example gone_rebuilds :
  let s := start {["k"]} ["k"; "k"] in
  phases (run s [(0, Good); (0, Good); (0, Gone); (0, Good); (1, Good); (1, Good)]) = Some [Building 0; Waiting 0].
Proof. vm_compute. reflexivity. Qed.

(** looking for a flight and taking one are two critical sections: two
    prepares that both find none both build, and the first to finish clears the
    slot of the other, so that a third builds as well while the second still
    does *)
Example both_build :
  phases (run three [(0, Good); (0, Good); (1, Good); (1, Good); (0, Good); (1, Good)])
  = Some [Building 0; Building 1; Idle] /\
  phases (run three [(0, Good); (0, Good); (1, Good); (1, Good); (0, Good); (1, Good); (0, Failed); (0, Good);
                     (2, Good); (2, Good); (2, Good)])
  = Some [Done false; Building 1; Building 2].
Proof. split; vm_compute; reflexivity. Qed.
