(* ===== verification/ConfigValid.v ===== *)
(** * Checking a configuration

    [internal/config/validate.go], [validateConnectionSelector] of
    [connections.go] and the window of the Redis connection in [config.go]: the
    checks that a loaded configuration passes before anything is named after
    it.  [Template] renders the names, [BaseRef] puts the overlay of the main
    worktree on top, and [Owned] finds the clones again; here they get the
    facts they rely on. *)
From stdpp Require Import base strings list gmap sorting pretty.
From Stdlib Require Import ZArith Lia.
From S2P Require Ports.
From S2P Require Import Prelude GoStrings Lines Engine Slug Template BranchSwap BaseRef Owned.
#[local] Open Scope treeman_scope.
#[local] Existing Instance Engine.Family_eq_dec.

(** ** The configuration *)
(** [config.ContainerRef], as far as it is checked *)
Record ContainerRef := { Container : string; ComposeService : string }.
Record MysqlConn := { myRef : ContainerRef; Charset : string; Collation : string }.
(** a bound that is left out is [None] *)
Record RedisConn := { rdRef : ContainerRef; DBMin : option Z; DBMax : option Z }.
Record SqliteConn := { BaseDir : string }.

(** The other connections are checked as their [ContainerRef].  A named block
    is a pointer: a block that YAML gives as null is [None]. *)
Record ConnectionsConfig := {
  Mysql : option MysqlConn;             MysqlNamed : gmap string (option MysqlConn);
  Postgres : option ContainerRef;       PostgresNamed : gmap string (option ContainerRef);
  Mongodb : option ContainerRef;        MongodbNamed : gmap string (option ContainerRef);
  Redis : option RedisConn;             RedisNamed : gmap string (option RedisConn);
  Elasticsearch : option ContainerRef;  ElasticsearchNamed : gmap string (option ContainerRef);
  S3 : option ContainerRef;             S3Named : gmap string (option ContainerRef);
  Sqlite : option SqliteConn;           SqliteNamed : gmap string (option SqliteConn)
}.

(** a database: what the overlay reaches - the templates, the clones, the
    fan-out - and the rest; a step is its environment *)
Record DatabaseSpec := {
  core : Database TestClonesSpec Z;
  Engine_ : string;
  Connection : string;
  BranchScoped : bool;
  Dump : option (list string);
  Migrate : option (gmap string string);
  Seed : option (gmap string string);
  Rollback : option (gmap string string);
  Prewarm : Z;
  PhysicalCloneMinBytes : option Z
}.
Definition nameTemplate (d : DatabaseSpec) : string := NameTemplate (dbTemplates (core d)).
Definition keyPrefix (d : DatabaseSpec) : string := KeyPrefix (dbTemplates (core d)).
Definition testClones (d : DatabaseSpec) : option TestClonesSpec := dbTestClones (core d).
Definition fanout (d : DatabaseSpec) : Z := dbFanout (core d).

(** [config.Config], as far as it is checked; a patch is its [set:] map *)
Record Config := {
  Connections : ConnectionsConfig;
  Databases_ : list DatabaseSpec;
  mainEnabled : bool;
  mainDatabases : list (OverlayEntry TestClonesSpec Z);
  PortSlots : gmap string Ports.PortRange;
  Patches : list (gmap string string);
  Events : list string;
  Backend : string
}.

(** the part that [BaseRef] lays the main worktree's overlay on *)
Definition layered (c : Config) : BaseRef.Config TestClonesSpec Z :=
  {| Databases := map core (Databases_ c); overlay := mainDatabases c |}.

(** ** What is wrong, and where *)
Inductive problem :=
| BothContainerRefs | BadIdentifier (field val : string)
| DBOutside (field : string) (v : Z) | DBMinAboveMax (lo hi : Z)
| EngineRequired | UnknownEngine (eng : string)
| KeyPrefixRequired | NameTemplateRequired | NotWorktreeScoped (tmpl : string)
| BadTemplate (e : RenderError) | CloneIndex (tmpl : string) (found : nat)
| ShortLiteral (literal : string) | Unsupported (field : string)
| NotRelative (tmpl : string) | Escapes (tmpl : string) | DuckdbSQL (dump : string)
| BranchScopedClones | BranchScopedFanout | PrewarmEngine | PrewarmBranchScoped
| PhysicalEngine | PhysicalNegative
| OnlyNamed (declared : list string) | NoNamedBlocks | NoSuchBlock
| OverlayTooLong (n m : nat) | MainNotSlugFree (field tmpl : string)
| BadPort (e : Ports.config_error)
| UnknownBucket (b : string) | UnknownBackend (b : string).

(** [errors.Join] of a list: no error when it is empty.  The texts of the
    messages are left out; the path and the values they quote are kept. *)
Abbreviation errors := (list (string * problem)).
Definition at_ (path : string) (p : problem) : errors := [(path, p)].
Definition when (b : bool) (e : errors) : errors := if b then e else [].

(** ** Templates *)
Definition validateTemplate (path tmpl : string) (sc : Scope) : errors :=
  match Template.Validate tmpl sc with Ok _ => [] | Err e => at_ path (BadTemplate e) end.

Definition no_scope : Scope := {| AllowN := false; AllowTargetDB := false; AllowedPorts := []; DBCount := 0 |}.
Definition clone_scope : Scope := {| AllowN := true; AllowTargetDB := false; AllowedPorts := []; DBCount := 0 |}.
Definition step_scope (dbCount : nat) : Scope :=
  {| AllowN := false; AllowTargetDB := true; AllowedPorts := []; DBCount := Z.of_nat dbCount |}.
Definition patch_scope (ports : list string) : Scope :=
  {| AllowN := false; AllowTargetDB := false; AllowedPorts := ports; DBCount := 0 |}.

Definition countKey (keys : list string) (key : string) : nat := length (List.filter (String.eqb key) keys).

Definition validateCloneTemplate (path tmpl : string) : errors :=
  match validateTemplate path tmpl clone_scope with
  | [] =>
      match Template.Keys tmpl with
      | (_, Some e) => at_ path (BadTemplate e)
      | (keys, None) => let n := countKey keys "n" in when (negb (Nat.eqb n 1)) (at_ path (CloneIndex tmpl n))
      end
  | e => e
  end.

Definition validateWorktreeScoped (path tmpl : string) : errors :=
  match Template.Keys tmpl with
  | (_, Some e) => at_ path (BadTemplate e)
  | (keys, None) => when (Nat.eqb (countKey keys "slug" + countKey keys "slug_dash") 0) (at_ path (NotWorktreeScoped tmpl))
  end.

(** a template that may be left out *)
Definition optional_template (path tmpl : string) (sc : Scope) : errors :=
  if String.eqb tmpl "" then [] else validateTemplate path tmpl sc.

(** the values of a map, in the order of the range *)
Definition validate_map (path : string) (m : gmap string string) (sc : Scope) : errors :=
  map_to_list m ≫= fun kv => validateTemplate (path +:+ "[" +:+ kv.1 +:+ "]") kv.2 sc.
Definition validate_env (path : string) (step : option (gmap string string)) (sc : Scope) : errors :=
  match step with None => [] | Some env => validate_map path env sc end.
Definition validate_clones (path : string) (spec : option TestClonesSpec) : errors :=
  match spec with
  | Some t => if String.eqb (cloneTemplate t) "" then [] else validateCloneTemplate path (cloneTemplate t)
  | None => []
  end.

(** ** Connections *)
Definition validateRef (path : string) (r : ContainerRef) : errors :=
  when (negb (String.eqb (Container r) "") && negb (String.eqb (ComposeService r) "")) (at_ path BothContainerRefs).

Definition safeMySQLIdent (s : string) : bool := str_all Ident.ident_char s && negb (String.eqb s "").

Definition mysql_field (path name val : string) : errors :=
  when (negb (String.eqb val "") && negb (safeMySQLIdent val)) (at_ path (BadIdentifier name val)).
Definition validateMysql (path : string) (c : MysqlConn) : errors :=
  validateRef path (myRef c) ++ mysql_field path "charset" (Charset c) ++ mysql_field path "collation" (Collation c).

(** the first bound that is off, and then their order *)
Definition outside (v : option Z) : bool := match v with Some v => ((v <? 0) || (15 <? v))%Z | None => false end.
Definition validateRedis (path : string) (c : RedisConn) : errors :=
  match validateRef path (rdRef c) with
  | [] =>
      if outside (DBMin c) then at_ path (DBOutside "db_min" (default 0%Z (DBMin c)))
      else if outside (DBMax c) then at_ path (DBOutside "db_max" (default 0%Z (DBMax c)))
      else match DBMin c, DBMax c with
           | Some lo, Some hi => when (hi <? lo)%Z (at_ path (DBMinAboveMax lo hi))
           | _, _ => []
           end
  | e => e
  end.

Definition EffectiveDBRange (c : RedisConn) : Z * Z := (default 6%Z (DBMin c), default 15%Z (DBMax c)).

(** [resolve.applyRedisDBRange]: the error of [SetRedisDBRange] is dropped *)
Definition applyRedisDBRange (c : ConnectionsConfig) (window : redis_range) : redis_range :=
  match Redis c with
  | Some r => let '(lo, hi) := EffectiveDBRange r in
              match SetRedisDBRange lo hi with Ok w => w | Err _ => window end
  | None => window
  end.

(** ** The families *)
(** [strings.Contains] *)
Definition contains (sub s : string) : bool := match cut sub s with Some _ => true | None => false end.

(** the text before the first placeholder *)
Definition literal_part (tmpl : string) : string := match cut_byte "{" tmpl with Some (b, _) => b | None => tmpl end.

Definition validateS3 (path : string) (d : DatabaseSpec) : errors :=
  if String.eqb (keyPrefix d) "" then at_ path KeyPrefixRequired
  else if (String.length (literal_part (keyPrefix d)) <? 6)%nat then at_ path (ShortLiteral (literal_part (keyPrefix d)))
  else match Dump d, testClones d, Migrate d, Seed d with
       | Some _, _, _, _ => at_ path (Unsupported "dump")
       | _, Some _, _, _ => at_ path (Unsupported "test_clones")
       | _, _, Some _, _ => at_ path (Unsupported "migrate")
       | _, _, _, Some _ => at_ path (Unsupported "seed")
       | _, _, _, _ => []
       end.

Definition is_sql (dump : string) : bool := has_suffix ".sql" (str_map to_lower dump).

Definition validateFile (path : string) (d : DatabaseSpec) : errors :=
  if has_prefix "/" (nameTemplate d) || has_prefix "\" (nameTemplate d) then at_ path (NotRelative (nameTemplate d))
  else if existsb (String.eqb "..") (split_byte "/" (nameTemplate d)) then at_ path (Escapes (nameTemplate d))
  else if negb (String.eqb (keyPrefix d) "") then at_ path (Unsupported "key_prefix")
  else if BranchScoped d then at_ path (Unsupported "branch_scoped")
  else if String.eqb (Engine_ d) "duckdb"
       then match List.find is_sql (default [] (Dump d)) with Some dump => at_ path (DuckdbSQL dump) | None => [] end
       else [].

Definition validateFamily (fam : Engine.Family) (path : string) (d : DatabaseSpec) : errors :=
  match fam with
  | Engine.FamilyS3 => validateS3 path d
  | Engine.FamilyFile => validateFile path d
  | _ => []
  end.

Definition validateNamespace (fam : Engine.Family) (path : string) (d : DatabaseSpec) : errors :=
  match Engine.Scope fam with
  | Engine.ScopePrefix =>
      if String.eqb (keyPrefix d) "" then at_ path KeyPrefixRequired
      else validateWorktreeScoped (path +:+ ".key_prefix") (keyPrefix d)
  | Engine.ScopeName =>
      if String.eqb (nameTemplate d) "" then at_ path NameTemplateRequired
      else if bool_decide (fam = Engine.FamilyFile) then []
      else validateWorktreeScoped (path +:+ ".name_template") (nameTemplate d)
  end.

(** ** A database *)
Definition PrewarmCapableEngines : list string := ["mysql"; "postgres"].

Definition validatePrewarm (path : string) (d : DatabaseSpec) : errors :=
  if (Prewarm d =? 0)%Z then [] else
  when (match Engine.Canonical (Engine_ d) with
        | Some fam => negb (bool_decide (Engine.family_label fam ∈ PrewarmCapableEngines))
        | None => true
        end) (at_ path PrewarmEngine) ++
  when (BranchScoped d) (at_ path PrewarmBranchScoped).

Definition validatePhysicalCloneMinBytes (path : string) (d : DatabaseSpec) : errors :=
  match PhysicalCloneMinBytes d with
  | None => []
  | Some n =>
      when (negb (bool_decide (Engine.Canonical (Engine_ d) = Some Engine.FamilyMySQL))) (at_ path PhysicalEngine) ++
      when (n <? 0)%Z (at_ path PhysicalNegative)
  end.

(** the checks that are gathered once the namespace and the family are in order *)
Definition validate_rest (path : string) (d : DatabaseSpec) (dbCount : nat) : errors :=
  optional_template (path +:+ ".name_template") (nameTemplate d) no_scope ++
  optional_template (path +:+ ".key_prefix") (keyPrefix d) no_scope ++
  validate_env (path +:+ ".migrate.env") (Migrate d) (step_scope dbCount) ++
  validate_env (path +:+ ".seed.env") (Seed d) (step_scope dbCount) ++
  validate_env (path +:+ ".rollback.env") (Rollback d) (step_scope dbCount) ++
  validate_clones (path +:+ ".test_clones.name_template") (testClones d) ++
  when (BranchScoped d)
    (when (bool_decide (is_Some (testClones d))) (at_ path BranchScopedClones) ++
     when (0 <? fanout d)%Z (at_ path BranchScopedFanout)) ++
  validatePrewarm path d ++
  validatePhysicalCloneMinBytes path d.

Definition validateDatabase (path : string) (d : DatabaseSpec) (dbCount : nat) : errors :=
  if String.eqb (Engine_ d) "" then at_ path EngineRequired else
  match Engine.Canonical (Engine_ d) with
  | None => at_ path (UnknownEngine (Engine_ d))
  | Some fam =>
      match validateNamespace fam path d with
      | [] => match validateFamily fam path d with
              | [] => validate_rest path d dbCount
              | e => e
              end
      | e => e
      end
  end.

(** *** The connection it selects *)
Definition shape {A B} (single : option A) (named : gmap string B) : bool * list string :=
  (bool_decide (is_Some single), map fst (map_to_list named)).

(** [familyShape], [hasNamedBlock] and [namedNames]: whether the family has its
    single block, and the names of the others *)
Definition familyShape (c : ConnectionsConfig) (fam : Engine.Family) : bool * list string :=
  match fam with
  | Engine.FamilyMySQL => shape (Mysql c) (MysqlNamed c)
  | Engine.FamilyPostgres => shape (Postgres c) (PostgresNamed c)
  | Engine.FamilyMongo => shape (Mongodb c) (MongodbNamed c)
  | Engine.FamilyRedis => shape (Redis c) (RedisNamed c)
  | Engine.FamilyES => shape (Elasticsearch c) (ElasticsearchNamed c)
  | Engine.FamilyS3 => shape (S3 c) (S3Named c)
  | Engine.FamilyFile => shape (Sqlite c) (SqliteNamed c)
  end.

Definition validateConnectionSelector (c : ConnectionsConfig) (path : string) (d : DatabaseSpec) : errors :=
  match Engine.Canonical (Engine_ d) with
  | None => []
  | Some fam =>
      let '(hasSingle, names) := familyShape c fam in
      if String.eqb (Connection d) "" && negb hasSingle && (0 <? length names)%nat
      then at_ path (OnlyNamed (merge_sort String.le names))
      else if negb (String.eqb (Connection d) "") && Nat.eqb (length names) 0 then at_ path NoNamedBlocks
      else if negb (String.eqb (Connection d) "") && negb (bool_decide (Connection d ∈ names)) then at_ path NoSuchBlock
      else []
  end.

(** [resolveNamed] *)
Definition resolveNamed {A} (single : option A) (named : gmap string (option A)) (name : string) : res problem (option A) :=
  if String.eqb name "" then Ok single
  else match named !! name with Some conn => Ok conn | None => Err NoSuchBlock end.

(** ** The whole configuration *)
Definition validateOverlay (path : string) (o : OverlayEntry TestClonesSpec Z) : errors :=
  optional_template (path +:+ ".name_template") (ovNameTemplate o) no_scope ++
  optional_template (path +:+ ".key_prefix") (ovKeyPrefix o) no_scope ++
  validate_clones (path +:+ ".test_clones.name_template") (ovTestClones o).

Definition port_errors (name : string) (r : Ports.PortRange) : errors :=
  match Ports.validatePortSlot name r with Ok _ => [] | Err e => at_ ("ports[" +:+ name +:+ "]") (BadPort e) end.

Definition validateNotifications (events_ : list string) (backend : string) : errors :=
  (events_ ≫= fun b => when (negb (bool_decide (b ∈ ["stable"; "up"; "down"; "failed"]))) (at_ "notifications.events" (UnknownBucket b))) ++
  when (negb (bool_decide (backend ∈ [""; "auto"; "notify-send"; "osascript"; "none"]))) (at_ "notifications.backend" (UnknownBackend backend)).

(** the template of the main worktree's active namespace, and its field *)
Definition mainActiveTemplate (d : DatabaseSpec) (ov : option (OverlayEntry TestClonesSpec Z)) : string * string :=
  match Engine.Scope <$> Engine.Canonical (Engine_ d) with
  | Some Engine.ScopePrefix => (over (default "" (ovKeyPrefix <$> ov)) (keyPrefix d), "key_prefix")
  | _ => (over (default "" (ovNameTemplate <$> ov)) (nameTemplate d), "name_template")
  end.

Definition db_path (prefix : string) (i : nat) : string := prefix +:+ "[" +:+ itoa (Z.of_nat i) +:+ "]".

Definition main_slug_free (c : Config) (i : nat) (d : DatabaseSpec) : errors :=
  if negb (BranchScoped d) then [] else
  let '(tmpl, field) := mainActiveTemplate d (mainDatabases c !! i) in
  when (contains "{slug" tmpl) (at_ (db_path "databases" i) (MainNotSlugFree field tmpl)).

(** a block behind a pointer: [None] when it is dereferenced as nil *)
Definition validate_named {A} (validate : string -> A -> errors) (prefix : string) (m : gmap string (option A)) : option errors :=
  (fun l => concat l) <$> mapM (fun kv => validate (prefix +:+ "." +:+ kv.1) <$> kv.2) (map_to_list m).

Definition single {A} (validate : string -> A -> errors) (path : string) (o : option A) : errors :=
  match o with Some a => validate path a | None => [] end.

Definition indexed {A} (f : nat -> A -> errors) (l : list A) : errors := concat (imap f l).

(** [None] is the panic of a nil block *)
Definition Validate (c : Config) : option errors :=
  let cs := Connections c in
  mysqls ← validate_named validateMysql "connections.mysql" (MysqlNamed cs);
  redises ← validate_named validateRedis "connections.redis" (RedisNamed cs);
  Some (
    single validateMysql "connections.mysql" (Mysql cs) ++
    single validateRef "connections.postgres" (Postgres cs) ++
    single validateRef "connections.mongodb" (Mongodb cs) ++
    single validateRedis "connections.redis" (Redis cs) ++
    single validateRef "connections.elasticsearch" (Elasticsearch cs) ++
    single validateRef "connections.s3" (S3 cs) ++
    mysqls ++ redises ++
    indexed (fun i d => validateDatabase (db_path "databases" i) d (length (Databases_ c))) (Databases_ c) ++
    indexed (fun i d => validateConnectionSelector cs (db_path "databases" i) d) (Databases_ c) ++
    when (length (Databases_ c) <? length (mainDatabases c))%nat
      (at_ "main_worktree.databases" (OverlayTooLong (length (mainDatabases c)) (length (Databases_ c)))) ++
    indexed (fun i o => validateOverlay (db_path "main_worktree.databases" i) o) (mainDatabases c) ++
    (if mainEnabled c then indexed (main_slug_free c) (Databases_ c) else []) ++
    (map_to_list (PortSlots c) ≫= fun kv => port_errors kv.1 kv.2) ++
    indexed (fun i p => validate_map (db_path "patches" i +:+ ".set") p (patch_scope (Ports.PortSlotNames (PortSlots c)))) (Patches c) ++
    validateNotifications (Events c) (Backend c)).

(** ** Lemmas: lists of errors *)
Lemma indexed_nil {A} (f : nat -> A -> errors) l : indexed f l = [] <-> forall i x, l !! i = Some x -> f i x = [].
Proof.
  unfold indexed. revert f. induction l as [|y l IH]; intros f; [by split|]. cbn [imap concat]. split.
  - intros [Hy Hl]%app_eq_nil [|i] x; [by intros [= <-]|]. cbn. by apply (proj1 (IH (f ∘ S))).
  - intros H. rewrite (H 0 y eq_refl). cbn [app]. apply (IH (f ∘ S)). intros i x Hi. by apply (H (S i)).
Qed.

Lemma bind_nil {A} (f : A -> errors) l : l ≫= f = [] <-> forall x, x ∈ l -> f x = [].
Proof.
  induction l as [|y l IH]; [by split; [intros _ x ?%not_elem_of_nil|]|]. cbn [mbind list_bind]. split.
  - intros [Hy Hl]%app_eq_nil x [->|Hx]%elem_of_cons; [done|]. by apply IH.
  - intros H. rewrite (H y) by left. cbn [app]. apply IH. intros x Hx. apply H. by right.
Qed.

Lemma when_nil b e : e <> [] -> when b e = [] <-> b = false.
Proof. intros He. by destruct b. Qed.

(** a rewriting of [l1 ++ l2 = []] into its parts *)
Ltac split_errors :=
  repeat match goal with
  | H : _ ++ _ = [] |- _ => apply app_eq_nil in H as [? ?]
  | H : when ?b (at_ ?p ?q) = [] |- _ => apply (when_nil b (at_ p q)) in H; [|done]
  end.

Lemma validateTemplate_ok path tmpl sc : validateTemplate path tmpl sc = [] <-> Template.Validate tmpl sc = Ok tt.
Proof. unfold validateTemplate. destruct (Template.Validate tmpl sc) as [[]|]; by split. Qed.

Lemma validate_map_ok path m sc k v : validate_map path m sc = [] -> m !! k = Some v -> Template.Validate v sc = Ok tt.
Proof. intros Hm Hk. eapply validateTemplate_ok. apply (proj1 (bind_nil _ _) Hm (k, v)). by apply elem_of_map_to_list. Qed.

Lemma optional_template_ok path tmpl sc : optional_template path tmpl sc = [] -> Template.Validate tmpl sc = Ok tt.
Proof.
  unfold optional_template. destruct (String.eqb_spec tmpl "") as [->|]; [|by apply validateTemplate_ok].
  by intros _.
Qed.

(** ** Lemmas: reading a template *)
(** the tokens of a template that renders in one context, in all of them *)
Lemma Validate_reads tmpl sc : Template.Validate tmpl sc = Ok tt -> exists ts,
  tmpl = print ts /\ wf_tokens ts "" /\ Template.Keys tmpl = (keys_of ts, None) /\
  (forall k, k ∈ keys_of ts -> is_Some (lookup_key k (scope_context sc))) /\
  (forall c, Template.Render tmpl c = token_value (fun k => lookup_key k c) ts).
Proof.
  unfold Template.Validate. intros Hv. apply res_bind_ok in Hv as (v & Hv & _). destruct (Render_tokens tmpl) as (ts & tail & Ht & Hwf & _ & Hr & Hk).
  rewrite Hr in Hv. destruct (token_value _ ts) as [w|] eqn:Ew; [|done].
  destruct (String.eqb_spec tail "") as [->|]; [|done]. exists ts. rewrite str_app_nil_r in Ht. split_and!; [done..| |].
  - apply token_value_ok. by exists w.
  - intros c. rewrite Hr. destruct (token_value (fun k => lookup_key k c) ts); reflexivity.
Qed.

Lemma no_scope_key k : is_Some (lookup_key k (scope_context no_scope)) ->
  k ∈ ["slug"; "slug_dash"; "slug_redis_queue"; "slug_redis_cache"].
Proof.
  unfold lookup_key. destruct (String.eqb_spec k "slug") as [->|]; [by left|].
  destruct (String.eqb_spec k "slug_dash") as [->|]; [by right; left|].
  destruct (String.eqb_spec k "slug_redis_queue") as [->|]; [by do 2 right; left|].
  destruct (String.eqb_spec k "slug_redis_cache") as [->|]; [by do 3 right; left|].
  destruct (String.eqb k "n"); [by intros []|]. destruct (String.eqb k "target_db"); [by intros []|].
  destruct (cut_prefix "port_" k); [rewrite fmap_is_Some, scope_context_ports; by intros ?%not_elem_of_nil|].
  destruct (cut_prefix "db:" k) as [i|]; [|by intros []]. unfold lookupDB.
  destruct (_ || _); [by intros []|]. destruct (atoi i) as [z|]; [|by intros []]. destruct (_ <=? z)%Z; [by intros []|].
  intros [x Hx]. done.
Qed.

(** two renderings of the same tokens are equal only where their keys are,
    when the values of each key have the same length *)
Lemma token_value_inj f g ts a :
  (forall k x y, k ∈ keys_of ts -> f k = Some x -> g k = Some y -> String.length x = String.length y) ->
  token_value f ts = Ok a -> token_value g ts = Ok a -> forall k, k ∈ keys_of ts -> f k = g k.
Proof.
  revert a. induction ts as [|[c|body|key] ts IH]; intros a Hlen; cbn [token_value]; [by intros _ _ k ?%not_elem_of_nil|..].
  1,2: intros (x & Hx & [= <-])%res_bind_ok (y & Hy & Heq)%res_bind_ok;
    injection Heq as Heq; apply (IH x); [exact Hlen|done|]; rewrite Hy; f_equal.
  - done.
  - by apply (str_app_inj_l (body +:+ "}")) in Heq.
  - destruct (f key) as [vx|] eqn:Ef; [|done]. destruct (g key) as [vy|] eqn:Eg; [|done].
    intros (x & Hx & Ha)%res_bind_ok (y & Hy & Heq)%res_bind_ok. injection Ha as <-. injection Heq as Heq.
    assert (vy = vx /\ y = x) as [-> ->].
    { apply str_app_inj_len in Heq as [-> ->]; [done|]. symmetry. by apply (Hlen key); [left|..]. }
    intros k [->|Hk]%elem_of_cons; [congruence|]. apply (IH x); [|done..|done]. intros k' x' y' Hk'. apply Hlen. by right.
Qed.

(** the length of a rendering whose keys all have values of one length *)
Fixpoint literal_length (ts : list token) : nat :=
  match ts with
  | [] => 0
  | Key _ :: ts => literal_length ts
  | t :: ts => String.length (print_token t) + literal_length ts
  end.

Lemma token_value_length f ts a n :
  (forall k x, k ∈ keys_of ts -> f k = Some x -> String.length x = n) ->
  token_value f ts = Ok a -> String.length a = literal_length ts + length (keys_of ts) * n.
Proof.
  revert a. induction ts as [|[c|body|key] ts IH]; intros a Hn; cbn [token_value literal_length]; [by intros [= <-]|..].
  1,2: intros (x & Hx & Ha)%res_bind_ok; injection Ha as <-; specialize (IH x Hn Hx).
  - change (keys_of (Lit c :: ts)) with (keys_of ts). cbn [print_token String.append String.length]. lia.
  - change (keys_of (Verbatim body :: ts)) with (keys_of ts).
    change (String.length (print_token (Verbatim body) +:+ x) = String.length (print_token (Verbatim body)) + literal_length ts + length (keys_of ts) * n).
    rewrite str_length_app. lia.
  - destruct (f key) as [v|] eqn:Ef; [|done]. intros (x & Hx & [= <-])%res_bind_ok. rewrite str_length_app.
    rewrite (Hn key v) by (done || by left). rewrite (IH x) by (try done; intros k y Hk; apply Hn; by right).
    change (keys_of (Key key :: ts)) with (key :: keys_of ts). cbn [length]. lia.
Qed.

Lemma dash_length s : String.length (dash s) = String.length s.
Proof. unfold dash. induction s as [|c s IH]; [done|]. cbn. by rewrite IH. Qed.

Lemma dash_inj a b : str_all slug_char a = true -> str_all slug_char b = true -> dash a = dash b -> a = b.
Proof.
  unfold dash. revert b. induction a as [|x a IH]; intros [|y b]; cbn; [done..|].
  intros [Hx Ha]%andb_prop [Hy Hb]%andb_prop [= E Et]. f_equal; [|by apply IH].
  destruct (is_underscore x) eqn:Ex, (is_underscore y) eqn:Ey.
  - unfold is_underscore in *. apply Ascii.eqb_eq in Ex, Ey. congruence.
  - subst y. vm_compute in Hy. done.
  - subst x. vm_compute in Hx. done.
  - done.
Qed.

(** ** Names of different worktrees *)
Definition of_slug (k : string) : Prop := k = "slug" \/ k = "slug_dash".

Lemma lookup_of_slug w s k x : of_slug k -> lookup_key k (FromSlug w s) = Some x -> x = Value s \/ x = dash (Value s).
Proof.
  unfold FromSlug. destruct (RedisIndices w (Value s)) as [q c]. intros [->| ->]; cbn; intros [= <-]; auto.
Qed.

(** a template whose keys are slug keys, and which has one, names different
    slugs differently *)
Lemma slug_names_inj tmpl sc w s1 s2 n : Template.Validate tmpl sc = Ok tt ->
  (forall k, k ∈ (Template.Keys tmpl).1 -> of_slug k) -> (Template.Keys tmpl).1 <> [] ->
  str_all slug_char (Value s1) = true -> str_all slug_char (Value s2) = true ->
  Template.Render tmpl (FromSlug w s1) = Ok n -> Template.Render tmpl (FromSlug w s2) = Ok n -> Value s1 = Value s2.
Proof.
  intros (ts & -> & Hwf & -> & _ & Hr)%Validate_reads Hof Hne H1 H2. cbn [fst] in *. rewrite !Hr. intros E1 E2.
  assert (forall s k x, k ∈ keys_of ts -> lookup_key k (FromSlug w s) = Some x -> String.length x = String.length (Value s)) as Hl.
  { intros s k x Hk Hx. destruct (lookup_of_slug w s k x (Hof k Hk) Hx) as [->| ->]; [done|apply dash_length]. }
  pose proof (token_value_length _ _ _ _ (Hl s1) E1) as L1. rewrite (token_value_length _ _ _ _ (Hl s2) E2) in L1.
  destruct (keys_of ts) as [|k0 ks] eqn:Ek; [done|]. cbn [length] in L1.
  assert (String.length (Value s1) = String.length (Value s2)) as Hlen by nia. rewrite <- Ek in *.
  assert (k0 ∈ keys_of ts) as Hin by (rewrite Ek; left).
  pose proof (token_value_inj _ _ ts n (fun k x y Hk Hx Hy => eq_trans (Hl s1 k x Hk Hx) (eq_trans Hlen (eq_sym (Hl s2 k y Hk Hy)))) E1 E2 k0 Hin) as Heq.
  cbn beta in Heq. unfold FromSlug in Heq. destruct (RedisIndices w (Value s1)), (RedisIndices w (Value s2)).
  destruct (Hof k0 Hin) as [->| ->]; cbn in Heq; injection Heq as Heq; [done|by apply dash_inj].
Qed.

(** the template of a database's active namespace *)
Definition scope_of (d : DatabaseSpec) : bsScope := (branchScopeFor (Engine_ d)).1.1.
Definition active_template (d : DatabaseSpec) : string := baseTemplate (scope_of d) (dbTemplates (core d)).

Lemma active_template_spec d fam : Engine.Canonical (Engine_ d) = Some fam ->
  active_template d = match Engine.Scope fam with Engine.ScopePrefix => keyPrefix d | Engine.ScopeName => nameTemplate d end.
Proof. intros Hf. unfold active_template, scope_of, branchScopeFor. rewrite Hf. by destruct (Engine.Scope fam). Qed.

(** what a database that passed has, whatever its family *)
Lemma valid_database path d n : validateDatabase path d n = [] -> exists fam,
  Engine.Canonical (Engine_ d) = Some fam /\ validateNamespace fam path d = [] /\
  validateFamily fam path d = [] /\ validate_rest path d n = [].
Proof.
  unfold validateDatabase. destruct (String.eqb (Engine_ d) ""); [done|].
  destruct (Engine.Canonical (Engine_ d)) as [fam|]; [|done].
  destruct (validateNamespace fam path d) eqn:E1; [|done]. destruct (validateFamily fam path d) eqn:E2; [|done].
  intros E3. by exists fam.
Qed.

Lemma valid_active path d n : validateDatabase path d n = [] ->
  active_template d <> "" /\ Template.Validate (active_template d) no_scope = Ok tt.
Proof.
  intros (fam & Hf & Hn & _ & Hr)%valid_database. rewrite (active_template_spec d fam Hf). unfold validateNamespace in Hn.
  unfold validate_rest in Hr. split_errors. destruct (Engine.Scope fam).
  - destruct (String.eqb_spec (nameTemplate d) ""); [done|]. split; [done|]. by eapply optional_template_ok.
  - destruct (String.eqb_spec (keyPrefix d) ""); [done|]. split; [done|]. by eapply optional_template_ok.
Qed.

Lemma count_none keys k : k ∉ keys -> countKey keys k = 0.
Proof.
  intros Hk. unfold countKey. rewrite filter_all_false; [done|]. intros x Hx. apply String.eqb_neq. by intros ->.
Qed.

Lemma worktree_scoped_keys path tmpl : validateWorktreeScoped path tmpl = [] -> (Template.Keys tmpl).1 <> [].
Proof.
  unfold validateWorktreeScoped. destruct (Template.Keys tmpl) as [[|k ks] [e|]]; done.
Qed.

Lemma valid_scoped path d n fam : validateDatabase path d n = [] ->
  Engine.Canonical (Engine_ d) = Some fam -> fam <> Engine.FamilyFile -> (Template.Keys (active_template d)).1 <> [].
Proof.
  intros (fam' & Hf & Hn & _)%valid_database Hfam Hfile. rewrite Hfam in Hf. injection Hf as <-.
  rewrite (active_template_spec d fam Hfam). unfold validateNamespace in Hn. destruct (Engine.Scope fam).
  - destruct (String.eqb (nameTemplate d) ""); [done|]. rewrite bool_decide_eq_false_2 in Hn by done. by eapply worktree_scoped_keys.
  - destruct (String.eqb (keyPrefix d) ""); [done|]. by eapply worktree_scoped_keys.
Qed.

(** ** The parts of a valid configuration *)
Record valid_parts (c : Config) : Prop := {
  vp_db i d : Databases_ c !! i = Some d -> validateDatabase (db_path "databases" i) d (length (Databases_ c)) = [];
  vp_selector i d : Databases_ c !! i = Some d -> validateConnectionSelector (Connections c) (db_path "databases" i) d = [];
  vp_overlay i o : mainDatabases c !! i = Some o -> validateOverlay (db_path "main_worktree.databases" i) o = [];
  vp_main i d : mainEnabled c = true -> Databases_ c !! i = Some d -> main_slug_free c i d = [];
  vp_redis r : Redis (Connections c) = Some r -> validateRedis "connections.redis" r = [];
  vp_ports name spec : PortSlots c !! name = Some spec -> Ports.validatePortSlot name spec = Ok tt;
  vp_patches i p : Patches c !! i = Some p -> validate_map (db_path "patches" i +:+ ".set") p (patch_scope (Ports.PortSlotNames (PortSlots c))) = []
}.

Lemma Validate_parts c : Validate c = Some [] -> valid_parts c.
Proof.
  unfold Validate. intros (e1 & _ & (e2 & _ & H)%bind_Some)%bind_Some. injection H as H. split_errors.
  repeat match goal with
  | H : indexed ?f ?l = [] |- _ => let H' := fresh in pose proof (proj1 (indexed_nil f l) H) as H'; clear H; cbn beta in H'
  | H : ?l ≫= ?f = [] |- _ => let H' := fresh in pose proof (proj1 (bind_nil f l) H) as H'; clear H; cbn beta in H'
  end.
  split; try assumption.
  - intros i d Hm. match goal with H : (if mainEnabled c then _ else _) = [] |- _ => rewrite Hm in H; revert i d; by apply indexed_nil end.
  - intros r Hr. match goal with H : single validateRedis _ _ = [] |- _ => by rewrite Hr in H end.
  - intros name spec Hs%elem_of_map_to_list. match goal with H : forall x, x ∈ map_to_list (PortSlots c) -> _ |- _ => specialize (H (name, spec) Hs) end.
    unfold port_errors in *. cbn [fst snd] in *. by destruct (Ports.validatePortSlot name spec) as [[]|].
Qed.

(** the ports of a configuration that passed are what [Ports] allocates from;
    the bounds are 16-bit integers *)
Lemma valid_port_slots c : Validate c = Some [] ->
  (forall name r, PortSlots c !! name = Some r -> (0 <= Ports.Min r)%Z /\ (Ports.Max r <= 65535)%Z) -> Ports.valid_ports (PortSlots c).
Proof.
  intros Hv Hb name r Hr. destruct (Hb name r Hr). split_and!; [|done..]. by apply (vp_ports c (Validate_parts c Hv)).
Qed.

(** ** Rendering with the index of a clone *)
Lemma WithN_other i j c k : k <> "n" -> lookup_key k (WithN i c) = lookup_key k (WithN j c).
Proof. intros Hk. unfold lookup_key. apply String.eqb_neq in Hk. by rewrite Hk. Qed.

Lemma token_value_same f g ts : (forall k, k ∈ keys_of ts -> f k = g k) -> token_value f ts = token_value g ts.
Proof.
  intros Hfg. induction ts as [|[c|body|key] ts IH]; [done|..]; cbn [token_value].
  1,2: by rewrite IH by exact Hfg.
  rewrite (Hfg key) by left. destruct (g key); [|done]. rewrite IH; [done|]. intros k Hk. apply Hfg. by right.
Qed.

Lemma countKey_cons key k keys : countKey (key :: keys) k = (if String.eqb k key then 1 else 0) + countKey keys k.
Proof. unfold countKey. cbn [List.filter]. by destruct (String.eqb k key). Qed.

(** a template with one index names the clones apart *)
Lemma clone_index_inj ts i j c a : countKey (keys_of ts) "n" = 1 ->
  token_value (fun k => lookup_key k (WithN i c)) ts = Ok a -> token_value (fun k => lookup_key k (WithN j c)) ts = Ok a -> i = j.
Proof.
  revert a. induction ts as [|[ch|body|key] ts IH]; intros a Hn; cbn [token_value]; [done|..].
  1,2: intros (x & Hx & [= <-])%res_bind_ok (y & Hy & Heq)%res_bind_ok; injection Heq as Heq; apply (IH x); [done..|]; rewrite Hy; f_equal.
  - done.
  - by apply (str_app_inj_l (body +:+ "}")) in Heq.
  - change (keys_of (Key key :: ts)) with (key :: keys_of ts) in Hn. rewrite countKey_cons in Hn.
    destruct (String.eqb_spec "n" key) as [<-|Hkey].
    + assert (token_value (fun k => lookup_key k (WithN j c)) ts = token_value (fun k => lookup_key k (WithN i c)) ts) as ->.
      { apply token_value_same. intros k Hk. apply WithN_other. intros ->.
        assert ("n" ∈ List.filter (String.eqb "n") (keys_of ts)) as Hf by (by apply elem_of_filter_bool).
        unfold countKey in Hn. destruct (List.filter _ _); [by apply elem_of_nil in Hf|]. cbn in Hn. lia. }
      cbn [lookup_key String.eqb]. change (lookup_key "n" (WithN i c)) with (Some (itoa i)). change (lookup_key "n" (WithN j c)) with (Some (itoa j)).
      intros (x & Hx & [= <-])%res_bind_ok (y & Hy & Heq)%res_bind_ok. rewrite Hx in Hy. injection Hy as ->. injection Heq as Heq.
      apply str_app_inj_r in Heq. by apply (inj pretty) in Heq.
    + rewrite (WithN_other j i) by done. destruct (lookup_key key (WithN i c)) as [v|]; [|done].
      intros (x & Hx & [= <-])%res_bind_ok (y & Hy & Heq)%res_bind_ok. injection Heq as Heq%str_app_inj_l. subst y. by apply (IH x).
Qed.

Lemma clone_template_ok path tmpl : validateCloneTemplate path tmpl = [] -> Template.Validate tmpl clone_scope = Ok tt /\
  exists keys, Template.Keys tmpl = (keys, None) /\ countKey keys "n" = 1.
Proof.
  unfold validateCloneTemplate. destruct (validateTemplate path tmpl clone_scope) eqn:Ev; [|done].
  apply validateTemplate_ok in Ev. destruct (Template.Keys tmpl) as [keys [e|]]; [done|].
  destruct (Nat.eqb_spec (countKey keys "n") 1); [|done]. intros _. split; [done|]. by exists keys.
Qed.

(** the slots of a clone template that passed *)
Lemma clone_names_distinct path tmpl c slots : validateCloneTemplate path tmpl = [] -> NoDup slots ->
  exists l, clone_names tmpl c slots = Ok l /\ NoDup l /\ length l = length slots.
Proof.
  intros [Hv (keys & Hk & Hone)]%clone_template_ok. induction slots as [|i slots IH]; intros Hnd.
  - exists []. by split_and!; try constructor.
  - apply NoDup_cons in Hnd as [Hi Hnd]. destruct (IH Hnd) as (l & Hl & Hl2 & Hl3). cbn [clone_names].
    destruct (proj1 (Validate_correct tmpl clone_scope) Hv (WithN i c)) as [x Hx].
    { repeat split; cbn; try done; [by intros p ?%not_elem_of_nil|lia]. }
    rewrite Hx, Hl. exists (x :: l). split_and!; [done| |cbn; congruence]. constructor; [|done]. intros Hin.
    destruct (clone_names_spec _ _ _ _ _ Hl Hin) as (j & Hj & Hxj).
    destruct (Validate_reads _ _ Hv) as (ts & -> & _ & Hk' & _ & Hr). rewrite Hr in Hx, Hxj.
    rewrite Hk' in Hk. injection Hk as Hk. rewrite <- Hk in Hone. by rewrite (clone_index_inj ts i j c x Hone Hx Hxj) in Hi.
Qed.

(** every context will do for a template without a scope *)
Lemma no_scope_renders tmpl ctx : Template.Validate tmpl no_scope = Ok tt -> exists out, Template.Render tmpl ctx = Ok out.
Proof.
  intros Hv. apply (proj1 (Validate_correct _ _) Hv). repeat split; cbn; try done; try lia; by intros p ?%not_elem_of_nil.
Qed.

(** ** The overlay of the main worktree *)
Lemma cut_finds sub a b : is_Some (cut sub (a +:+ sub +:+ b)).
Proof.
  induction a as [|x a IH]; cbn [String.append cut].
  - destruct (sub +:+ b) eqn:E; cbn [cut]; rewrite <- E, (proj2 (cut_prefix_app sub (sub +:+ b) b) eq_refl); by eexists.
  - destruct (cut_prefix sub _); [by eexists|]. destruct IH as [[x' y] ->]. by eexists.
Qed.

Lemma key_in_print ts k : k ∈ keys_of ts -> exists a b, print ts = a +:+ "{" +:+ k +:+ b.
Proof.
  induction ts as [|[c|body|key] ts IH]; [by intros ?%not_elem_of_nil|..]; cbn [print].
  - intros (a & b & ->)%IH. by exists (String c a), b.
  - intros (a & b & ->)%IH. exists (print_token (Verbatim body) +:+ a), b. by rewrite str_app_assoc.
  - change (keys_of (Key key :: ts)) with (key :: keys_of ts). intros [->|Hk]%elem_of_cons.
    + exists "", ("}" +:+ print ts). cbn. by rewrite str_app_assoc.
    + destruct (IH Hk) as (a & b & ->). exists (print_token (Key key) +:+ a), b. by rewrite str_app_assoc.
Qed.

(** a template of the allowed keys without the text [{slug] has no keys *)
Lemma bare_template tmpl : Template.Validate tmpl no_scope = Ok tt -> contains "{slug" tmpl = false ->
  forall c1 c2, Template.Render tmpl c1 = Template.Render tmpl c2.
Proof.
  intros (ts & -> & _ & _ & Hk & Hr)%Validate_reads Hc c1 c2. rewrite !Hr. apply token_value_same. intros k Hin. exfalso.
  destruct (key_in_print ts k Hin) as (a & b & E). rewrite E in Hc.
  assert (exists k', k = "slug" +:+ k') as [k' ->].
  { pose proof (no_scope_key k (Hk k Hin)) as Hks. rewrite !elem_of_cons, elem_of_nil in Hks.
    destruct Hks as [->|[->|[->|[->|[]]]]]; by eexists. }
  destruct (cut_finds "{slug" a (k' +:+ b)) as [x Hx]. unfold contains in Hc. cbn [String.append] in *. by rewrite Hx in Hc.
Qed.

Lemma over_nonempty a b : over a b = if String.eqb a "" then b else a.
Proof. done. Qed.

(** the main worktree's template is the one the check looked at *)
Lemma main_template_spec c i d :
  Databases_ c !! i = Some d -> exists db, Databases (ApplyMainWorktreeOverlay (layered c)) !! i = Some db /\
  baseTemplate (scope_of d) (dbTemplates db) = (mainActiveTemplate d (mainDatabases c !! i)).1.
Proof.
  intros Hi. rewrite overlay_lookup. unfold layered; cbn [Databases overlay]. rewrite list_lookup_fmap, Hi. cbn [fmap option_fmap option_map].
  unfold mainActiveTemplate, scope_of, branchScopeFor.
  destruct (mainDatabases c !! i) as [o|].
  - eexists; split; [done|]. destruct (Engine.Canonical (Engine_ d)) as [fam|]; [|done]. cbn. by destruct (Engine.Scope fam).
  - eexists; split; [done|]. destruct (Engine.Canonical (Engine_ d)) as [fam|]; [|done]. cbn. by destruct (Engine.Scope fam).
Qed.

Lemma main_template_valid c i d : valid_parts c -> Databases_ c !! i = Some d ->
  Template.Validate (mainActiveTemplate d (mainDatabases c !! i)).1 no_scope = Ok tt.
Proof.
  intros Hv Hi. pose proof (vp_db c Hv i d Hi) as Hd. destruct (valid_active _ _ _ Hd) as [_ Ha].
  apply valid_database in Hd as (fam & Hf & _). rewrite (active_template_spec d fam Hf) in Ha.
  unfold mainActiveTemplate. rewrite Hf. cbn [fmap option_fmap option_map].
  destruct (mainDatabases c !! i) as [o|] eqn:Eo; cbn [fmap option_fmap option_map default]; [|by destruct (Engine.Scope fam)].
  pose proof (vp_overlay c Hv i o Eo) as Ho. unfold validateOverlay in Ho. split_errors.
  destruct (Engine.Scope fam); cbn [fst]; rewrite over_nonempty; destruct (String.eqb _ ""); try done; by eapply optional_template_ok.
Qed.

(** ** What a valid configuration promises *)
Lemma clone_names_empty c slots : clone_names "" c slots = Ok (replicate (length slots) "").
Proof. induction slots as [|i slots IH]; [done|]. cbn [clone_names length replicate]. by rewrite IH. Qed.

(** C28: every template of a configuration that passed
    [Validate] renders: the active namespace of a database for every worktree,
    with the overlay too, the environment of its steps as soon as the target
    and the other databases are known, the patches as soon as the declared
    ports are, and the test clones, which get as many different names as there
    are clones.  A name template of the clones that is left empty passes too,
    and then every clone has the empty name. *)
Theorem valid_config_renders (c : Config) (Hv : Validate c = Some []) :
  (forall i d ctx, Databases_ c !! i = Some d ->
     (exists name, Template.Render (active_template d) ctx = Ok name) /\
     (exists name, Template.Render (mainActiveTemplate d (mainDatabases c !! i)).1 ctx = Ok name)) /\
  (forall i d step env k v ctx, Databases_ c !! i = Some d -> step ∈ [Migrate d; Seed d; Rollback d] ->
     step = Some env -> env !! k = Some v -> HasTargetDB ctx = true -> length (Databases_ c) <= length (DBs ctx) ->
     exists out, Template.Render v ctx = Ok out) /\
  (forall i p k v ctx, Patches c !! i = Some p -> p !! k = Some v ->
     (forall name, is_Some (PortSlots c !! name) -> is_Some (Ports ctx !! name)) -> exists out, Template.Render v ctx = Ok out) /\
  (forall i d spec n ctx, Databases_ c !! i = Some d -> testClones d = Some spec ->
     exists l, resolveCloneNames (Some {| cloneCount := n; cloneTemplate := cloneTemplate spec |}) ctx = Ok l /\ length l = n /\
       if String.eqb (cloneTemplate spec) "" then l = replicate n "" else NoDup l).
Proof.
  apply Validate_parts in Hv. split_and!.
  - intros i d ctx Hi. pose proof (valid_active _ _ _ (vp_db c Hv i d Hi)) as [_ Ha].
    pose proof (main_template_valid c i d Hv Hi) as Hm.
    split; by apply no_scope_renders.
  - intros i d step env k v ctx Hi Hstep -> Hk Ht Hdbs.
    pose proof (vp_db c Hv i d Hi) as (fam & _ & _ & _ & Hr)%valid_database. unfold validate_rest in Hr. split_errors.
    assert (Template.Validate v (step_scope (length (Databases_ c))) = Ok tt) as Hval.
    { rewrite !elem_of_cons, elem_of_nil in Hstep. destruct Hstep as [E|[E|[E|[]]]]; rewrite <- E in *; cbn [validate_env] in *; by eapply validate_map_ok. }
    apply (proj1 (Validate_correct _ _) Hval). repeat split; cbn; [done|by intros _|by intros p ?%not_elem_of_nil|lia].
  - intros i p k v ctx Hi Hk Hports. pose proof (vp_patches c Hv i p Hi) as Hp.
    apply (proj1 (Validate_correct _ _) (validate_map_ok _ _ _ _ _ Hp Hk)). repeat split; cbn; [done..| |lia].
    intros name Hn. apply Hports. pose proof (proj1 (Ports.PortSlotNames_spec (PortSlots c))) as Hall.
    rewrite Forall_forall in Hall. by apply Hall.
  - intros i d spec n ctx Hi Hs. pose proof (vp_db c Hv i d Hi) as (fam & _ & _ & _ & Hr)%valid_database.
    unfold validate_rest in Hr. split_errors. unfold validate_clones in *. rewrite Hs in *.
    unfold resolveCloneNames. cbn [cloneTemplate cloneCount]. destruct (String.eqb_spec (cloneTemplate spec) "") as [->|_].
    { exists (replicate n ""). split_and!; [|apply length_replicate|done]. rewrite clone_names_empty. by rewrite length_map, length_seq. }
    match goal with H : validateCloneTemplate _ _ = [] |- _ => destruct (clone_names_distinct _ _ ctx (map Z.of_nat (seq 1 n)) H) as (l & Hl & Hnd & Hlen) end.
    { apply NoDup_fmap_2; [intros x y; lia|apply NoDup_seq]. }
    exists l. split_and!; [done| |done]. by rewrite Hlen, length_map, length_seq.
Qed.

(** in a configuration that passed, the active namespace of
    a branch-scoped database of an enabled main worktree has one name, whatever
    branch is checked out: the name does not depend on the slug. *)
Theorem main_namespace_bare (c : Config) (i : nat) (d : DatabaseSpec)
    (Hv : Validate c = Some []) (Hmain : mainEnabled c = true) (Hi : Databases_ c !! i = Some d) (Hb : BranchScoped d = true) :
  slug_free i (scope_of d) (ApplyMainWorktreeOverlay (layered c)) /\
  exists db name, Databases (ApplyMainWorktreeOverlay (layered c)) !! i = Some db /\
    forall blake3 suffix getwd window path,
      activeNamespace blake3 suffix getwd window (dbTemplates db) (scope_of d) path = Some name.
Proof.
  apply Validate_parts in Hv. destruct (main_template_spec c i d Hi) as (db & Hdb & Ht).
  pose proof (main_template_valid c i d Hv Hi) as Hm. pose proof (vp_main c Hv i d Hmain Hi) as Hfree.
  unfold main_slug_free in Hfree. rewrite Hb in Hfree. cbn [negb] in Hfree.
  destruct (mainActiveTemplate d (mainDatabases c !! i)) as [tmpl field]. split_errors. cbn [fst] in *.
  pose proof (bare_template tmpl Hm Hfree) as Hsame. split.
  - intros db' c1 c2 Hdb'. rewrite Hdb in Hdb'. injection Hdb' as <-. rewrite Ht. apply Hsame.
  - destruct (no_scope_renders tmpl (scope_context no_scope) Hm) as [name Hname].
    exists db, name. split; [done|]. intros. unfold activeNamespace. unfold baseTemplate in Ht.
    destruct (scope_of d); rewrite Ht, (Hsame _ (scope_context no_scope)), Hname; done.
Qed.

Section Namespaces.
Context (blake3 : string -> string) (suffix : string) (getwd : option string) (window : redis_range).
(** the digest of package blake3 is an array of 32 bytes *)
Context (blake3_32 : forall s, String.length (blake3 s) = 32).
Local Abbreviation slug path := (Slug.For blake3 suffix getwd path "").

Lemma For_chars path : str_all slug_char (Value (slug path)) = true.
Proof using blake3_32.
  destruct (derived_shape blake3 suffix getwd blake3_32 _ _ (derived_for blake3 suffix getwd path "")) as (_ & p & -> & Hp & _).
  rewrite str_all_app, Hp. cbn [String.append str_all]. unfold pathTag. by rewrite tag_slug.
Qed.

(** C29: in a configuration that passed, two worktrees with
    different slugs have different active namespaces of a database, when its
    template uses the slug in one of its two spellings and no other key; the
    files of the file family are exempt. *)
Theorem valid_namespaces_distinct (c : Config) (i : nat) (d : DatabaseSpec) (fam : Engine.Family) (path1 path2 : string)
    (Hv : Validate c = Some []) (Hi : Databases_ c !! i = Some d)
    (Hfam : Engine.Canonical (Engine_ d) = Some fam) (Hfile : fam <> Engine.FamilyFile)
    (Hkeys : forall k, k ∈ (Template.Keys (active_template d)).1 -> of_slug k)
    (Hne : Value (slug path1) <> Value (slug path2)) :
  exists n1 n2,
    activeNamespace blake3 suffix getwd window (dbTemplates (core d)) (scope_of d) path1 = Some n1 /\
    activeNamespace blake3 suffix getwd window (dbTemplates (core d)) (scope_of d) path2 = Some n2 /\ n1 <> n2.
Proof using blake3_32.
  apply Validate_parts in Hv. pose proof (vp_db c Hv i d Hi) as Hd. destruct (valid_active _ _ _ Hd) as [_ Ha].
  pose proof (valid_scoped _ _ _ _ Hd Hfam Hfile) as Hsome.
  assert (forall path, exists n, Template.Render (active_template d) (FromSlug window (slug path)) = Ok n) as Hn
    by (intros path; by apply no_scope_renders).
  destruct (Hn path1) as [n1 H1], (Hn path2) as [n2 H2]. exists n1, n2.
  unfold activeNamespace. change (match scope_of d with scopeName => _ | scopePrefix => _ end) with (active_template d).
  rewrite H1, H2. split_and!; [done..|]. intros <-. apply Hne.
  by apply (slug_names_inj (active_template d) no_scope window _ _ n1 Ha Hkeys Hsome (For_chars path1) (For_chars path2)).
Qed.
End Namespaces.

(** C39: what the Redis window is in a configuration that passed, with a Redis
    connection.  The bounds, 6 and 15 where it names none, lie within 0 to 15.
    When they are in order, the loader sets the window to them, and both
    indices of every slug lie between them.  They are out of order only when a
    [db_max] below 6 comes without a [db_min]: then the setting has no effect,
    the window of the process stays as it was.  So the indices are within 0 to
    15 in either case, as they were before. *)
Theorem redis_window_bounded (c : Config) (r : RedisConn) (before : redis_range)
    (Hv : Validate c = Some []) (Hr : Redis (Connections c) = Some r) :
  let w := applyRedisDBRange (Connections c) before in
  let '(lo, hi) := EffectiveDBRange r in
  (0 <= lo <= 15 /\ 0 <= hi <= 15)%Z /\
  (if (lo <=? hi)%Z
   then w = {| db_min := lo; db_max := hi |} /\
        forall v, let '(queue, cache) := RedisIndices w v in (lo <= queue <= hi /\ lo <= cache <= hi)%Z
   else DBMin r = None /\ (hi < 6)%Z /\ w = before) /\
  (is_ok (SetRedisDBRange (db_min before) (db_max before)) = true ->
   forall v, let '(queue, cache) := RedisIndices w v in (0 <= queue <= 15 /\ 0 <= cache <= 15)%Z).
Proof.
  apply Validate_parts in Hv. pose proof (vp_redis c Hv r Hr) as Hc. unfold validateRedis in Hc.
  destruct (validateRef _ _); [|done]. unfold applyRedisDBRange. rewrite Hr. unfold EffectiveDBRange.
  set (lo := default 6%Z (DBMin r)). set (hi := default 15%Z (DBMax r)).
  assert ((0 <= lo <= 15 /\ 0 <= hi <= 15)%Z /\ ((lo <= hi)%Z \/ DBMin r = None /\ (hi < 6)%Z)) as [[Hlo Hhi] Hord].
  { unfold lo, hi. destruct (outside (DBMin r)) eqn:E1; [done|]. destruct (outside (DBMax r)) eqn:E2; [done|].
    unfold outside in *. destruct (DBMin r) as [x|], (DBMax r) as [y|]; cbn [default] in *; split_errors; unfold id in *; bools.
    1,2,4: split; [|left]; lia.
    split; [lia|]. destruct (Z.ltb_spec y 6); [by right|left; lia]. }
  assert (Hin : forall a b w v, SetRedisDBRange a b = Ok w -> let '(q, k) := RedisIndices w v in (a <= q <= b /\ a <= k <= b)%Z).
  { intros a b w v Hw. pose proof (proj2 (RedisIndices_in_window _ _) _ v Hw) as H. destruct (RedisIndices w v). tauto. }
  split; [lia|]. destruct (Z.leb_spec lo hi) as [Hle|Hlt].
  - assert (SetRedisDBRange lo hi = Ok {| db_min := lo; db_max := hi |}) as Es.
    { unfold SetRedisDBRange. replace ((lo <? 0) || (15 <? hi))%Z with false by (symmetry; apply orb_false_iff; rewrite !Z.ltb_ge; lia).
      by replace (hi <? lo)%Z with false by (symmetry; apply Z.ltb_ge; lia). }
    rewrite Es. split; [split; [done|]; intros v; by apply Hin|]. intros _ v. specialize (Hin _ _ _ v Es). destruct (RedisIndices _ v). lia.
  - destruct Hord as [?|[Hnone Hsix]]; [lia|]. destruct (SetRedisDBRange lo hi) as [w|e] eqn:Es.
    + assert (is_ok (SetRedisDBRange lo hi) = true) as Hok%RedisIndices_in_window by (by rewrite Es). lia.
    + split; [done|]. intros Hok v. apply RedisIndices_in_window in Hok as Hb.
      assert (SetRedisDBRange (db_min before) (db_max before) = Ok before) as Eb.
      { clear - Hok. unfold SetRedisDBRange in *. destruct before as [x y]. cbn in *. destruct (_ || _) in *; [done|]. by destruct (_ <? _)%Z in *. }
      specialize (Hin _ _ _ v Eb). destruct (RedisIndices before v). lia.
Qed.

(** ** A small configuration *)
Definition no_connections : ConnectionsConfig :=
  {| Mysql := None; MysqlNamed := ∅; Postgres := None; PostgresNamed := ∅; Mongodb := None; MongodbNamed := ∅;
     Redis := None; RedisNamed := ∅; Elasticsearch := None; ElasticsearchNamed := ∅; S3 := None; S3Named := ∅;
     Sqlite := None; SqliteNamed := ∅ |}.
Definition no_ref : ContainerRef := {| Container := ""; ComposeService := "" |}.
Definition with_redis (r : RedisConn) : ConnectionsConfig :=
  {| Mysql := None; MysqlNamed := ∅; Postgres := None; PostgresNamed := ∅; Mongodb := None; MongodbNamed := ∅;
     Redis := Some r; RedisNamed := ∅; Elasticsearch := None; ElasticsearchNamed := ∅; S3 := None; S3Named := ∅;
     Sqlite := None; SqliteNamed := ∅ |}.
Definition a_database (eng name prefix : string) (clones : option TestClonesSpec) (branchScoped : bool)
    (migrate : option (gmap string string)) : DatabaseSpec :=
  {| core := {| dbTemplates := {| NameTemplate := name; KeyPrefix := prefix |}; dbTestClones := clones; dbFanout := 0%Z |};
     Engine_ := eng; Connection := ""; BranchScoped := branchScoped; Dump := None; Migrate := migrate; Seed := None;
     Rollback := None; Prewarm := 0; PhysicalCloneMinBytes := None |}.
Definition just (cs : ConnectionsConfig) (dbs : list DatabaseSpec) (ovs : list (OverlayEntry TestClonesSpec Z)) : Config :=
  {| Connections := cs; Databases_ := dbs; mainEnabled := true; mainDatabases := ovs;
     PortSlots := {["web" := {| Ports.Min := 8000; Ports.Max := 8999 |}]}; Patches := [{["APP_PORT" := "{port_web}"]}];
     Events := ["stable"; "failed"]; Backend := "" |}.
Definition an_overlay (name prefix : string) : OverlayEntry TestClonesSpec Z :=
  {| ovNameTemplate := name; ovKeyPrefix := prefix; ovTestClones := None; ovFanout := None |}.

Definition sample_redis : RedisConn := {| rdRef := no_ref; DBMin := None; DBMax := Some 9%Z |}.
Definition sample_mysql : DatabaseSpec :=
  a_database "mysql" "app_{slug}" "" (Some {| cloneCount := 2; cloneTemplate := "app_{slug}_t{n}" |}) false (Some {["DB" := "{target_db}"]}).
Definition sample_cache : DatabaseSpec := a_database "redis" "" "app_{slug_dash}:" None true None.
Definition sample_config : Config := just (with_redis sample_redis) [sample_mysql; sample_cache] [an_overlay "" ""; an_overlay "" "app:"].

Lemma valid_config_renders_witness :
  Validate sample_config = Some [] /\
  exists l, resolveCloneNames (Some {| cloneCount := 7; cloneTemplate := "app_{slug}_t{n}" |}) plain_context = Ok l /\ length l = 7 /\ NoDup l.
Proof.
  split; [vm_compute; reflexivity|].
  refine (proj2 (proj2 (proj2 (valid_config_renders sample_config _))) 0 sample_mysql {| cloneCount := 2; cloneTemplate := "app_{slug}_t{n}" |} 7 plain_context _ _);
    [vm_compute; reflexivity|reflexivity..].
Defined.

Lemma main_namespace_bare_witness :
  Validate sample_config = Some [] /\
  slug_free 1 (scope_of sample_cache) (ApplyMainWorktreeOverlay (layered sample_config)).
Proof.
  split; [vm_compute; reflexivity|].
  refine (proj1 (main_namespace_bare sample_config 1 sample_cache _ _ _ _)); [vm_compute; reflexivity|reflexivity..].
Defined.

Lemma valid_namespaces_distinct_witness :
  Value (Slug.For sample_digest "" None "/w/PROJ-7" "") = "proj_7_2f772f50" /\
  exists n1 n2,
    activeNamespace sample_digest "" None default_range (dbTemplates (core sample_cache)) (scope_of sample_cache) "/w/PROJ-7" = Some n1 /\
    activeNamespace sample_digest "" None default_range (dbTemplates (core sample_cache)) (scope_of sample_cache) "/x/PROJ-7" = Some n2 /\ n1 <> n2.
Proof.
  split; [vm_compute; reflexivity|].
  refine (valid_namespaces_distinct sample_digest "" None default_range sample_digest_32 sample_config 1 sample_cache Engine.FamilyRedis
    "/w/PROJ-7" "/x/PROJ-7" _ _ _ _ _ _); [vm_compute; reflexivity|reflexivity..|done| |vm_compute; congruence].
  intros k Hk. right. by apply list_elem_of_singleton in Hk.
Defined.

Lemma redis_window_bounded_witness :
  applyRedisDBRange (Connections sample_config) default_range = {| db_min := 6; db_max := 9 |} /\
  ((0 <= 6 <= 15 /\ 0 <= 9 <= 15)%Z /\
   (applyRedisDBRange (Connections sample_config) default_range = {| db_min := 6; db_max := 9 |} /\
     forall v, let '(queue, cache) := RedisIndices (applyRedisDBRange (Connections sample_config) default_range) v in
       (6 <= queue <= 9 /\ 6 <= cache <= 9)%Z) /\
   (is_ok (SetRedisDBRange (db_min default_range) (db_max default_range)) = true ->
    forall v, let '(queue, cache) := RedisIndices (applyRedisDBRange (Connections sample_config) default_range) v in
      (0 <= queue <= 15 /\ 0 <= cache <= 15)%Z)).
Proof.
  split; [vm_compute; reflexivity|].
  refine (redis_window_bounded sample_config sample_redis default_range _ _); [vm_compute; reflexivity|reflexivity].
Defined.

(** ** What passes, or does not *)
(** a [db_max] below the default minimum passes, and has no effect *)
Example low_db_max_ignored :
  Validate (just (with_redis {| rdRef := no_ref; DBMin := None; DBMax := Some 3%Z |}) [sample_cache] [an_overlay "" "app:"]) = Some [] /\
  applyRedisDBRange (with_redis {| rdRef := no_ref; DBMin := None; DBMax := Some 3%Z |}) default_range = default_range.
Proof. vm_compute. done. Qed.

(** a named block that YAML gives as null panics *)
Example null_block_panics :
  Validate (just {| Mysql := None; MysqlNamed := {["main" := None]}; Postgres := None; PostgresNamed := ∅; Mongodb := None; MongodbNamed := ∅;
     Redis := None; RedisNamed := ∅; Elasticsearch := None; ElasticsearchNamed := ∅; S3 := None; S3Named := ∅;
     Sqlite := None; SqliteNamed := ∅ |} [] []) = None.
Proof. vm_compute. done. Qed.

(** the single PostgreSQL block is checked, the named ones are not *)
Definition both_refs : ContainerRef := {| Container := "db"; ComposeService := "db" |}.
Example named_postgres_unchecked :
  let cs single named := {| Mysql := None; MysqlNamed := ∅; Postgres := single; PostgresNamed := named; Mongodb := None; MongodbNamed := ∅;
     Redis := None; RedisNamed := ∅; Elasticsearch := None; ElasticsearchNamed := ∅; S3 := None; S3Named := ∅;
     Sqlite := None; SqliteNamed := ∅ |} in
  Validate (just (cs (Some both_refs) ∅) [] []) = Some [("connections.postgres", BothContainerRefs)] /\
  Validate (just (cs None {["main" := Some both_refs]}) [] []) = Some [].
Proof. vm_compute. done. Qed.

(** clones without a template pass, and all get the empty name *)
Example nameless_clones_pass :
  let spec := {| cloneCount := 2; cloneTemplate := "" |} in
  Validate (just no_connections [a_database "mysql" "app_{slug}" "" (Some spec) false None] []) = Some [] /\
  resolveCloneNames (Some spec) plain_context = Ok [""; ""].
Proof. vm_compute. done. Qed.

(** the index of this template is found for the check, but the pattern that
    teardown looks for clones with is cut at the dollar *)
Example dollar_index_passes :
  validateCloneTemplate "" "${n}_{n}" = [] /\ clonePattern (Some {| cloneCount := 1; cloneTemplate := "${n}_{n}" |}) plain_context = Err Other.
Proof. vm_compute. done. Qed.

(** the file family's rules are not applied to the overlay *)
Example overlay_may_escape :
  validateDatabase "" (a_database "sqlite" "../app.db" "" None false None) 1 = [("", Escapes "../app.db")] /\
  Validate (just no_connections [a_database "sqlite" "app.db" "" None false None] [an_overlay "../app.db" ""]) = Some [].
Proof. vm_compute. done. Qed.
