(* ===== verification/FileEngine.v ===== *)
(** * Databases that are files

    [internal/db/filedb/filedb.go], the [fileConn] of
    [internal/db/engineconn/fileconn.go] and the file engine of
    [internal/prepare/prepare.go] ([prepareFileEngine]): a database is a
    regular file with the companion files its library keeps beside it, its
    name is a path under the worktree or a configured directory, and copying,
    dropping and restoring it are calls on the file system. *)
From stdpp Require Import base strings list gmap sorting.
From Stdlib Require Import ZArith Lia.
From S2P Require Import Prelude GoStrings Lines Paths Engine Slug Template BranchSwap BaseRef Owned ConfigValid.
#[local] Open Scope treeman_scope.

(** ** Paths *)
Definition sidecarSuffixes : list string := ["-wal"; "-shm"; ".wal"; ".wal2"; ".tmp"].
Definition SidecarPaths (path : string) : list string := map (fun s => path +:+ s) sidecarSuffixes.

Inductive path_error := BaseNotAbsolute (base : string) | PathEscapes (p base : string) | RelativeName (n : string) | TemplateError.

(** joins a rendered name to the base directory of the family *)
Definition SourcePath (baseDir worktreePath rendered : string) : res path_error string :=
  let place base :=
    let p := path_join base rendered in
    if has_prefix (base +:+ "/") p then Ok p else Err (PathEscapes p base) in
  if String.eqb baseDir "" then place worktreePath
  else if is_abs baseDir then place baseDir else Err (BaseNotAbsolute baseDir).

(** the directory of the connection that a database selects *)
Definition base_dir (cs : ConnectionsConfig) (connName : string) : string :=
  match Sqlite cs with
  | None => ""
  | Some _ => match resolveNamed (Sqlite cs) (SqliteNamed cs) connName with
              | Ok (Some sc) => BaseDir sc
              | _ => ""
              end
  end.
Definition SourcePathFor (cs : ConnectionsConfig) (connName worktreePath rendered : string) : res path_error string :=
  SourcePath (base_dir cs connName) worktreePath rendered.

(** the template of a database stands beside it *)
Definition TemplatePath (sourcePath fingerprint : string) : string :=
  path_join (Dir sourcePath) ("_tm_" +:+ str_take 16 fingerprint +:+ path_ext sourcePath).

(** [SourcePathFor] of every clone *)
Fixpoint place_all (cs : ConnectionsConfig) (connName worktreePath : string) (names : list string) : res path_error (list string) :=
  match names with
  | [] => Ok []
  | n :: names =>
      let? p := SourcePathFor cs connName worktreePath n in
      let? ps := place_all cs connName worktreePath names in
      Ok (p :: ps)
  end.
Definition fileCloneNames (cs : ConnectionsConfig) (d : DatabaseSpec) (c : Context) (worktreePath : string) : res path_error (list string) :=
  match resolveCloneNames (testClones d) c with
  | Err _ => Err TemplateError
  | Ok names => place_all cs (Connection d) worktreePath names
  end.

(** ** The file system *)
Inductive node := File (content : string) | Folder.
Abbreviation tree := (gmap string node).

(** the names in a directory *)
Definition dir_prefix (d : string) : string := if String.eqb d "/" then "/" else d +:+ "/".
Definition name_in (d p : string) : option string :=
  n ← cut_prefix (dir_prefix d) p; if has_byte "/" n || String.eqb n "" then None else Some n.
Definition names_in (d : string) (t : tree) : list string := merge_sort String.le (omap (fun kv => name_in d kv.1) (map_to_list t)).

(** the directories above a path, the outermost first *)
Definition ancestors (d : string) : list string :=
  map (fun i => path_of (take i (path_elements d))) (seq 1 (length (path_elements d))).

Record World := { files : tree; calls : nat }.

Section Calls.
(** which of the calls fail, and what a failed copy has written *)
Context (fault : nat -> bool) (partial : nat -> option string).

Definition tick (t : tree) (w : World) : World := {| files := t; calls := S (calls w) |}.
Definition fails (w : World) : bool := fault (calls w).

(** [os.Stat] *)
Inductive stat := Missing | Unreadable | Found (n : node).
Definition Stat (p : string) (w : World) : World * stat :=
  (tick (files w) w, if fails w then Unreadable else match files w !! p with Some n => Found n | None => Missing end).

(** [os.Remove]: an empty directory goes too *)
Inductive removal := Removed | WasMissing | NotRemoved.
Definition Remove (p : string) (w : World) : World * removal :=
  if fails w then (tick (files w) w, NotRemoved)
  else match files w !! p with
       | None => (tick (files w) w, WasMissing)
       | Some Folder => match names_in p (files w) with
                        | [] => (tick (delete p (files w)) w, Removed)
                        | _ => (tick (files w) w, NotRemoved)
                        end
       | Some (File _) => (tick (delete p (files w)) w, Removed)
       end.

(** [os.ReadDir]: [None] is an error, a missing directory has no entries *)
Definition ReadDir (d : string) (w : World) : World * option (list string) :=
  (tick (files w) w,
   if fails w then None
   else match files w !! d with
        | Some (File _) => None
        | Some Folder => Some (names_in d (files w))
        | None => if String.eqb d "/" then Some (names_in d (files w)) else Some []
        end).

(** [os.MkdirAll]: the directories that are missing, up to a file in the way *)
Fixpoint make_dirs (ds : list string) (t : tree) : tree * bool :=
  match ds with
  | [] => (t, true)
  | d :: ds => match t !! d with
               | Some (File _) => (t, false)
               | Some Folder => make_dirs ds t
               | None => make_dirs ds (<[d := Folder]> t)
               end
  end.

(** [copyFileReflink]: the destination is truncated before the source is read,
    and a copy that fails then leaves what it had written *)
Definition copyFileReflink (src dst : string) (w : World) : World * bool :=
  let '(t, made) := make_dirs (ancestors (Dir dst)) (files w) in
  if negb made then (tick t w, false) else
  match t !! src, t !! dst with
  | None, _ | _, Some Folder => (tick t w, false)
  | Some _, _ =>
      if fails w
      then (tick (match partial (calls w) with Some s => <[dst := File s]> t | None => t end) w, false)
      else let opened := <[dst := File ""]> t in
           match opened !! src with
           | Some (File content) => (tick (<[dst := File content]> opened) w, true)
           | _ => (tick opened w, false)
           end
  end.

(** *** A database and its companions *)
Definition Exists_ (p : string) (w : World) : World * option bool :=
  let '(w, s) := Stat p w in
  (w, match s with Missing => Some false | Unreadable => None | Found (File _) => Some true | Found Folder => Some false end).

Definition SizeKB (p : string) (w : World) : World * option Z :=
  let '(w, s) := Stat p w in
  (w, match s with Found (File c) => Some (Z.of_nat (String.length c) / 1024)%Z | _ => None end).

Fixpoint copy_sidecars (src dst : string) (suffixes : list string) (w : World) : World * bool :=
  match suffixes with
  | [] => (w, true)
  | s :: suffixes =>
      let '(w, st) := Stat (src +:+ s) w in
      match st with
      | Found _ => let '(w, ok) := copyFileReflink (src +:+ s) (dst +:+ s) w in
                   if (ok : bool) then copy_sidecars src dst suffixes w else (w, false)
      | _ => copy_sidecars src dst suffixes w
      end
  end.

Definition CopyDatabase (src dst : string) (w : World) : World * bool :=
  let '(w, ok) := copyFileReflink src dst w in
  if (ok : bool) then copy_sidecars src dst sidecarSuffixes w else (w, false).

Fixpoint remove_all (ps : list string) (removed : list string) (w : World) : World * (list string * bool) :=
  match ps with
  | [] => (w, (removed, true))
  | p :: ps =>
      let '(w, r) := Remove p w in
      match r with
      | Removed => remove_all ps (removed ++ [p]) w
      | WasMissing => remove_all ps removed w
      | NotRemoved => (w, (removed, false))
      end
  end.
Definition RemoveDatabase (p : string) (w : World) : World * (list string * bool) := remove_all (p :: SidecarPaths p) [] w.

Definition stem_of (base : string) : string := trim_suffix base (path_ext base).

Definition CloneSiblings (dir base : string) (w : World) : World * option (list string) :=
  let '(w, entries) := ReadDir dir w in
  (w, map (path_join dir) <$> (List.filter (has_prefix (stem_of base +:+ "_")) <$> entries)).

(** *** [fileConn] *)
Definition absName {A} (n : string) (bad : A) (k : string -> World -> World * A) (w : World) : World * A :=
  if is_abs n then k n w else (w, bad).

Fixpoint remove_siblings (ss : list string) (dropped : list string) (w : World) : World * (list string * bool) :=
  match ss with
  | [] => (w, (dropped, true))
  | s :: ss =>
      let '(w, (removed, ok)) := RemoveDatabase s w in
      if (ok : bool) then remove_siblings ss (dropped ++ removed) w else (w, (dropped, false))
  end.

Definition DropMatching (n : string) : World -> World * (list string * bool) :=
  absName n ([], false) (fun p w =>
    let '(w, (dropped, ok)) := RemoveDatabase p w in
    if negb (ok : bool) then (w, (dropped, false)) else
    let '(w, siblings) := CloneSiblings (Dir p) (path_base p) w in
    match siblings with
    | None => (w, (dropped, false))
    | Some ss => remove_siblings ss dropped w
    end).

Definition DropSnapshot (n : string) : World -> World * bool :=
  absName n false (fun p w => let '(w, (_, ok)) := RemoveDatabase p w in (w, ok)).

Definition ListMatching (prefix : string) : World -> World * option (list string) :=
  absName prefix None (fun p w =>
    let '(w, entries) := ReadDir (Dir p) w in
    (w, map (path_join (Dir p)) <$> (List.filter (has_prefix (trim_suffix (path_base p) (path_ext p))) <$> entries))).
End Calls.

(** no call fails *)
Definition never : nat -> bool := fun _ => false.

(** ** The cold build *)
(** an entry of [dump:]: its path in the worktree, and whether it may be missing *)
Record Dump_ := { dPath : string; Optional : bool }.

Section Build.
Context (fault : nat -> bool) (partial : nat -> option string).
(** a script run against a database by the SQLite library, and the commands of
    a step: what they leave on the file system, and whether they succeed *)
Context (exec_sql : nat -> string -> string -> tree -> tree * bool) (run_phase : nat -> string -> tree -> tree * bool).
Local Abbreviation Stat := (Stat fault).
Local Abbreviation RemoveDatabase := (RemoveDatabase fault).
Local Abbreviation CloneSiblings := (CloneSiblings fault).
Local Abbreviation CopyDatabase := (CopyDatabase fault partial).

Fixpoint dumpsReady (dumps : list Dump_) (worktreePath : string) (w : World) : World * option (list string) :=
  match dumps with
  | [] => (w, Some [])
  | d :: dumps =>
      let p := path_join worktreePath (dPath d) in
      let '(w, st) := Stat p w in
      match st with
      | Found _ => let '(w, l) := dumpsReady dumps worktreePath w in (w, cons p <$> l)
      | _ => if Optional d then dumpsReady dumps worktreePath w else (w, None)
      end
  end.

(** [ApplySQLDump]: the script is read, and the directory made *)
Definition ApplySQLDump (dbPath dumpPath : string) (w : World) : World * bool :=
  match (if fails fault w then None else files w !! dumpPath) with
  | Some (File script) =>
      let '(t, made) := make_dirs (ancestors (Dir dbPath)) (files w) in
      if negb made then (tick t w, false)
      else let '(t, ok) := exec_sql (calls w) dbPath script t in (tick t w, ok)
  | _ => (tick (files w) w, false)
  end.

Fixpoint load_dumps (dumps : list string) (sourceFile : string) (w : World) : World * bool :=
  match dumps with
  | [] => (w, true)
  | d :: dumps =>
      let '(w, ok) := (if is_sql d then ApplySQLDump sourceFile d w else CopyDatabase d sourceFile w) in
      if (ok : bool) then load_dumps dumps sourceFile w else (w, false)
  end.

Definition phase_ (present : bool) (name : string) (w : World) : World * bool :=
  if present then let '(t, ok) := run_phase (calls w) name (files w) in (tick t w, ok) else (w, true).

(** the removals whose errors are passed over *)
Definition remove_quietly (w : World) (p : string) : World := (RemoveDatabase p w).1.

Definition fileColdBuildSteps (dumps : list Dump_) (hasMigrate hasSeed : bool) (worktreePath sourceFile templatePath : string)
    (w : World) : World * bool :=
  let '(w, (_, ok)) := RemoveDatabase sourceFile w in
  if negb (ok : bool) then (w, false) else
  let w := remove_quietly w templatePath in
  let '(w, siblings) := CloneSiblings (Dir sourceFile) (path_base sourceFile) w in
  let w := foldl remove_quietly w (default [] siblings) in
  let '(w, ready) := dumpsReady dumps worktreePath w in
  match ready with
  | None => (w, false)
  | Some ds =>
      let '(w, ok) := load_dumps ds sourceFile w in
      if negb (ok : bool) then (w, false) else
      let '(w, ok) := phase_ hasMigrate "migrate" w in
      if negb (ok : bool) then (w, false) else phase_ hasSeed "seed" w
  end.

(** [fileRestore] for each of the clones *)
Fixpoint restore_all (templatePath : string) (targets : list string) (w : World) : World * bool :=
  match targets with
  | [] => (w, true)
  | t :: targets =>
      let '(w, ok) := CopyDatabase templatePath t w in
      if (ok : bool) then restore_all templatePath targets w else (w, false)
  end.

(** the file system's part of [prepareFileEngine] when there is no template *)
Definition fileColdBuild (dumps : list Dump_) (hasMigrate hasSeed : bool) (worktreePath sourceFile templatePath : string)
    (clones : list string) (w : World) : World * bool :=
  let '(w, ok) := fileColdBuildSteps dumps hasMigrate hasSeed worktreePath sourceFile templatePath w in
  if negb (ok : bool) then (w, false) else
  let '(w, ok) := CopyDatabase sourceFile templatePath w in
  if negb (ok : bool) then (w, false) else restore_all templatePath clones w.
End Build.

(** ** Where a database is placed *)
Lemma place_confined baseDir worktreePath rendered p l :
  (if String.eqb baseDir "" then worktreePath else baseDir) = path_of l -> l <> [] -> Forall clean_element l ->
  SourcePath baseDir worktreePath rendered = Ok p -> exists r, r <> [] /\ Forall clean_element r /\ p = path_of (l ++ r).
Proof.
  intros Hbase Hl Hcl Hp. unfold SourcePath in Hp.
  assert (has_prefix (path_of l +:+ "/") (path_join (path_of l) rendered) = true /\ p = path_join (path_of l) rendered) as [Hpre ->].
  { destruct (String.eqb baseDir ""); [|destruct (is_abs baseDir); [|done]]; rewrite Hbase in Hp;
      (destruct (has_prefix _ _) eqn:E; [|done]); by injection Hp as <-. }
  destruct (path_join_elements (path_of l) rendered eq_refl) as (m & Hm & Ej). rewrite Ej in *.
  destruct (prefix_below l m Hl Hcl Hm Hpre) as (r & Hr & ->). exists r. apply Forall_app in Hm as [_ Hm]. by split_and!.
Qed.

(** every byte is a dot *)
Definition dots (s : string) : bool := str_all (fun c => Ascii.eqb c ".") s.
(** a value of a placeholder: not empty, and without a slash or a dot *)
Definition plain_value (v : string) : Prop := v <> "" /\ has_byte "/" v = false /\ has_byte "." v = false.

Lemma split_prepend c x s : has_byte c x = false ->
  split_byte c (x +:+ s) = match split_byte c s with h :: t => (x +:+ h) :: t | [] => [x] end.
Proof.
  induction x as [|a x IH]; [by destruct (split_byte c s) eqn:E; [destruct (split_byte_nonempty c s)|]|].
  cbn. intros [Ha Hx]%orb_false_iff. rewrite Ha, IH by done. by destruct (split_byte c s).
Qed.

(** an element of the rendering that is all dots was one of the template *)
Definition dots_kept (a b : string) : Prop := dots b = true -> a = b.

Lemma dots_kept_byte c s1 s2 : Forall2 dots_kept (split_byte "/" s1) (split_byte "/" s2) ->
  Forall2 dots_kept (split_byte "/" (String c s1)) (split_byte "/" (String c s2)).
Proof.
  intros H. cbn [split_byte]. destruct (Ascii.eqb c "/"); [by constructor|].
  destruct H as [|a b l1 l2 Hab Hl]; [by constructor|]. constructor; [|done].
  unfold dots_kept, dots in *. cbn. intros [Hc Hb]%andb_prop. by rewrite (Hab Hb).
Qed.

Lemma dots_kept_text x s1 s2 : Forall2 dots_kept (split_byte "/" s1) (split_byte "/" s2) ->
  Forall2 dots_kept (split_byte "/" (x +:+ s1)) (split_byte "/" (x +:+ s2)).
Proof. intros H. induction x as [|c x IH]; [done|]. cbn [String.append]. by apply dots_kept_byte. Qed.

Lemma rendered_elements f ts v :
  (forall k x, k ∈ keys_of ts -> f k = Some x -> plain_value x) -> (forall k, k ∈ keys_of ts -> has_byte "/" k = false) ->
  token_value f ts = Ok v -> Forall2 dots_kept (split_byte "/" (print ts)) (split_byte "/" v).
Proof.
  revert v. induction ts as [|[c|body|key] ts IH]; intros v Hv Hk; cbn [token_value].
  - intros [= <-]. by repeat constructor.
  - intros (x & Hx & [= <-])%res_bind_ok. by apply (dots_kept_text (String c "")), IH.
  - intros (x & Hx & Ha)%res_bind_ok. injection Ha as <-. cbn [print].
    apply (dots_kept_text (print_token (Verbatim body)) (print ts) x). by apply IH.
  - change (keys_of (Key key :: ts)) with (key :: keys_of ts) in *.
    destruct (f key) as [y|] eqn:Ef; [|done]. intros (x & Hx & [= <-])%res_bind_ok.
    destruct (Hv key y ltac:(left) Ef) as (Hy & Hys & Hyd). pose proof (Hk key ltac:(left)) as Hks.
    assert (Forall2 dots_kept (split_byte "/" (print ts)) (split_byte "/" x)) as H
      by (apply IH; [intros k z ?; apply Hv; by right|intros k ?; apply Hk; by right|done]).
    cbn [print print_token]. change (String "{" (key +:+ "}") +:+ print ts) with (("{" +:+ key +:+ "}") +:+ print ts).
    rewrite split_prepend by (unfold has_byte in *; rewrite !str_any_app, Hks; done).
    rewrite (split_prepend "/" y) by done. destruct H as [|a b l1 l2 Hab Hl]; constructor; try done.
    + unfold dots_kept, dots. intros Hd. exfalso. destruct y as [|c y]; [done|]. cbn in Hd, Hyd.
      apply andb_prop in Hd as [Hc _]. by rewrite Hc in Hyd.
    + unfold dots_kept, dots. intros Hd. exfalso. destruct y as [|c y]; [done|]. cbn in Hd, Hyd.
      apply andb_prop in Hd as [Hc _]. by rewrite Hc in Hyd.
Qed.

Lemma no_byte_digits c s : is_digit c = false -> str_all is_digit s = true -> has_byte c s = false.
Proof.
  intros Hc. unfold has_byte. induction s as [|a s IH]; [done|]. cbn. intros [Ha Hs]%andb_prop. rewrite IH by done.
  destruct (Ascii.eqb_spec a c); [congruence|done].
Qed.

Lemma itoa_plain n : (0 <= n)%Z -> plain_value (itoa n).
Proof. intros Hn. split_and!; [by apply itoa_some|by apply no_byte_digits, itoa_all_digits..]. Qed.

Lemma slug_no_byte c s : slug_char c = false -> str_all slug_char s = true -> has_byte c s = false.
Proof.
  intros Hc. unfold has_byte. induction s as [|a s IH]; [done|]. cbn. intros [Ha Hs]%andb_prop. rewrite IH by done.
  destruct (Ascii.eqb_spec a c); [congruence|done].
Qed.

Lemma dash_no_byte c s : c <> "-"%char -> has_byte c s = false -> has_byte c (dash s) = false.
Proof.
  intros Hc. unfold has_byte, dash. induction s as [|a s IH]; [done|]. cbn. intros [Ha Hs]%orb_false_iff. rewrite IH by done.
  destruct (is_underscore a); [|by rewrite Ha]. destruct (Ascii.eqb_spec "-"%char c); [congruence|done].
Qed.

(** what a file name may be rendered with *)
Lemma slug_value_plain w s k x : str_all slug_char (Value s) = true -> Value s <> "" ->
  k ∈ ["slug"; "slug_dash"; "slug_redis_queue"; "slug_redis_cache"] -> lookup_key k (FromSlug w s) = Some x -> plain_value x.
Proof.
  intros Hs Hne Hk. unfold FromSlug, RedisIndices.
  assert (plain_value (Value s) /\ plain_value (dash (Value s))) as [Hp Hd].
  { split; split_and!; [done|by apply slug_no_byte..| | |].
    - intros E. apply (f_equal String.length) in E. rewrite dash_length in E. by destruct (Value s).
    - apply dash_no_byte; [done|by apply slug_no_byte].
    - apply dash_no_byte; [done|by apply slug_no_byte]. }
  assert (forall z, (0 <= u8 z)%Z) as Hu by (intros z; apply Z.mod_pos_bound; lia).
  rewrite !elem_of_cons, elem_of_nil in Hk. destruct Hk as [->|[->|[->|[->|[]]]]]; cbn; intros [= <-]; [done|done|by apply itoa_plain..].
Qed.

(** ** The file of a worktree stays in its directory *)
Lemma cut_last_slash p a b : cut_last "/" p = Some (a, b) -> has_byte "/" b = false.
Proof.
  revert a b. induction p as [|c p IH]; intros a b; [done|]. cbn [cut_last].
  destruct (cut_last "/" p) as [[a' b']|] eqn:E; [intros [= <- <-]; by eapply IH|].
  destruct (Ascii.eqb_spec c "/") as [->|]; [|done]. intros [= <- <-]. clear IH.
  induction p as [|x p IH]; [done|]. cbn [cut_last] in E. destruct (cut_last "/" p) as [[]|] eqn:E'; [done|].
  unfold has_byte in *. cbn. destruct (Ascii.eqb x "/"); [done|]. by rewrite IH.
Qed.

Lemma cut_last_dot_byte c p a b : cut_last "." p = Some (a, b) -> has_byte c p = false -> has_byte c b = false.
Proof.
  revert a b. induction p as [|x p IH]; intros a b; [done|]. cbn [cut_last]. unfold has_byte in *. cbn. intros E [Hx Hp]%orb_false_iff.
  destruct (cut_last "." p) as [[a' b']|] eqn:E'; [injection E as <- <-; by eapply IH|].
  destruct (Ascii.eqb x "."); [|done]. by injection E as <- <-.
Qed.

Lemma path_ext_slash p : has_byte "/" (path_ext p) = false.
Proof.
  unfold path_ext. set (last := match cut_last "/" p with Some (_, b) => b | None => p end).
  assert (has_byte "/" last = false) as Hl.
  { unfold last. destruct (cut_last "/" p) as [[a b]|] eqn:E; [by eapply cut_last_slash|].
    revert E. clear. induction p as [|x p IH]; [done|]. cbn [cut_last]. destruct (cut_last "/" p) as [[]|]; [done|].
    unfold has_byte in *. cbn. destruct (Ascii.eqb x "/"); [done|]. intros _. by rewrite IH. }
  destruct (cut_last "." last) as [[a b]|] eqn:E; [|done]. unfold has_byte in *. cbn. by apply (cut_last_dot_byte "/" last a b).
Qed.

Lemma template_beside l x fp : Forall clean_element l -> clean_element x -> has_byte "/" (str_take 16 fp) = false ->
  TemplatePath (path_of (l ++ [x])) fp = path_of (l ++ ["_tm_" +:+ str_take 16 fp +:+ path_ext (path_of (l ++ [x]))]).
Proof.
  intros Hl Hx Hfp. unfold TemplatePath. rewrite Dir_path_of by (done || by destruct Hx as (_ & _ & _ & ?)).
  apply join_name; [done|]. split_and!; try done.
  unfold has_byte in *. rewrite !str_any_app, Hfp. apply path_ext_slash.
Qed.

(** C19: whatever a name renders to, the file it is placed at,
    and the template that is cached for it, lie strictly below the base
    directory - the worktree, or the configured one -, which is an absolute
    clean path. *)
Theorem source_path_confined (cs : ConnectionsConfig) (connName worktreePath rendered p fp : string) (l : list string)
    (Hbase : (if String.eqb (base_dir cs connName) "" then worktreePath else base_dir cs connName) = path_of l)
    (Hl : l <> []) (Hclean : Forall clean_element l) (Hfp : has_byte "/" (str_take 16 fp) = false)
    (Hp : SourcePathFor cs connName worktreePath rendered = Ok p) :
  exists r x, Forall clean_element (r ++ [x]) /\ p = path_of (l ++ r ++ [x]) /\
    TemplatePath p fp = path_of (l ++ r ++ ["_tm_" +:+ str_take 16 fp +:+ path_ext p]).
Proof.
  destruct (place_confined _ _ _ _ _ Hbase Hl Hclean Hp) as (r & Hr & Hrc & ->).
  destruct (exists_last Hr) as (r' & x & ->). exists r', x. split_and!; [done..|].
  apply Forall_app in Hrc as [Hr' Hx]. apply Forall_cons in Hx as [Hx _].
  rewrite !(app_assoc l r'). apply template_beside; [by apply Forall_app|done..].
Qed.

(** a file database that passed renders to a name without [..] *)
Lemma valid_file_name c i d : Validate c = Some [] -> Databases_ c !! i = Some d -> Engine.Canonical (Engine_ d) = Some Engine.FamilyFile ->
  forall w s, str_all slug_char (Value s) = true -> Value s <> "" ->
  exists name, Template.Render (nameTemplate d) (FromSlug w s) = Ok name /\ ".." ∉ split_byte "/" name.
Proof.
  intros Hv%Validate_parts Hi Hf w s Hs Hne. pose proof (vp_db c Hv i d Hi) as Hd.
  destruct (valid_active _ _ _ Hd) as [_ Ha]. apply valid_database in Hd as (fam & Hfam & _ & Hfile & _).
  rewrite Hf in Hfam. injection Hfam as <-. cbn [validateFamily] in Hfile.
  rewrite (active_template_spec d _ Hf) in Ha. cbn [Engine.Scope] in Ha.
  destruct (no_scope_renders _ (FromSlug w s) Ha) as [name Hname]. exists name. split; [done|].
  assert (".." ∉ split_byte "/" (nameTemplate d)) as Hdots.
  { unfold validateFile in Hfile. destruct (_ || _); [done|].
    destruct (existsb (String.eqb "..") (split_byte "/" (nameTemplate d))) eqn:E; [done|]. intros Hin.
    apply not_true_iff_false in E. apply E, existsb_elem. exists "..". by split. }
  destruct (Validate_reads _ _ Ha) as (ts & Hts & _ & _ & Hk & Hr). rewrite Hr in Hname. rewrite Hts in Hdots.
  assert (forall k, k ∈ keys_of ts -> k ∈ ["slug"; "slug_dash"; "slug_redis_queue"; "slug_redis_cache"]) as Hkeys
    by (intros k Hin; by apply no_scope_key, Hk).
  pose proof (rendered_elements _ ts name (fun k x Hin => slug_value_plain w s k x Hs Hne (Hkeys k Hin))
    (fun k Hin => ltac:(pose proof (Hkeys k Hin) as Hq; rewrite !elem_of_cons, elem_of_nil in Hq; destruct Hq as [->|[->|[->|[->|[]]]]]; done)) Hname) as HF.
  intros Hin. apply list_elem_of_lookup in Hin as [j Hj]. destruct (Forall2_lookup_r _ _ _ _ _ HF Hj) as (a & Ha2 & Hda).
  rewrite (Hda eq_refl) in Ha2. by apply Hdots, (list_elem_of_lookup_2 _ j).
Qed.

(** in a configuration that passed, the file of a worktree is
    found where its name says, element by element, below the base directory, for
    every slug - unless the name is nothing but dots and slashes. *)
Theorem valid_file_placed (c : Config) (i : nat) (d : DatabaseSpec) (w : redis_range) (s : Slug.Slug) (worktreePath : string) (l : list string)
    (Hv : Validate c = Some []) (Hi : Databases_ c !! i = Some d) (Hf : Engine.Canonical (Engine_ d) = Some Engine.FamilyFile)
    (Hs : str_all slug_char (Value s) = true) (Hne : Value s <> "")
    (Hbase : (if String.eqb (base_dir (Connections c) (Connection d)) "" then worktreePath
              else base_dir (Connections c) (Connection d)) = path_of l)
    (Hl : l <> []) (Hclean : Forall clean_element l) :
  exists name, Template.Render (nameTemplate d) (FromSlug w s) = Ok name /\
    (kept_elements name <> [] ->
     SourcePathFor (Connections c) (Connection d) worktreePath name = Ok (path_of (l ++ kept_elements name))).
Proof.
  destruct (valid_file_name c i d Hv Hi Hf w s Hs Hne) as (name & Hname & Hdots). exists name. split; [done|]. intros Hk.
  assert (name <> "") as Hn by (by intros ->). unfold SourcePathFor, SourcePath.
  assert (path_join (path_of l) name = path_of (l ++ kept_elements name)) as Hj
    by (rewrite join_below by done; by rewrite path_elements_of).
  assert (has_prefix (path_of l +:+ "/") (path_of (l ++ kept_elements name)) = true) as Hpre.
  { apply has_prefix_app. exists (join "/" (kept_elements name)). rewrite path_of_app by done. by rewrite str_app_assoc. }
  destruct (String.eqb (base_dir _ _) ""); rewrite Hbase; [|change (is_abs (path_of l)) with true; cbv iota]; by rewrite Hj, Hpre.
Qed.

(** ** Copies *)
Lemma make_dirs_adds ds t t' ok : make_dirs ds t = (t', ok) -> forall p, t' !! p = t !! p \/ (t !! p = None /\ t' !! p = Some Folder /\ p ∈ ds).
Proof.
  revert t. induction ds as [|d ds IH]; intros t; cbn [make_dirs]; [intros [= <- <-]; by left|].
  destruct (t !! d) as [[c|]|] eqn:Ed.
  - intros [= <- <-]. by left.
  - intros H p. destruct (IH t H p) as [?|(? & ? & ?)]; [by left|right; split_and!; [done..|by right]].
  - intros H p. destruct (IH _ H p) as [Hp|(Hp & Hq & Hin)].
    + rewrite Hp. destruct (decide (p = d)) as [->|]; [right; rewrite lookup_insert_eq; split_and!; [done..|by left]|].
      left. by rewrite lookup_insert_ne.
    + destruct (decide (p = d)) as [->|]; [by rewrite lookup_insert_eq in Hp|]. rewrite lookup_insert_ne in Hp by done.
      right. split_and!; [done..|by right].
Qed.

(** the directories that a copy to [dst] may make *)
Definition made_for (dst : string) (before after : tree) (p : string) : Prop :=
  before !! p = None /\ after !! p = Some Folder /\ p ∈ ancestors (Dir dst).

Section Copies.
Context (fault : nat -> bool) (partial : nat -> option string).

Lemma copy_done src dst w w' : src <> dst -> copyFileReflink fault partial src dst w = (w', true) ->
  exists c, files w !! src = Some (File c) /\ files w' !! dst = Some (File c) /\
    forall p, p <> dst -> files w' !! p = files w !! p \/ made_for dst (files w) (files w') p.
Proof using.
  intros Hne. unfold copyFileReflink. destruct (make_dirs _ _) as [t made] eqn:Em. destruct made; [|done].
  pose proof (make_dirs_adds _ _ _ _ Em) as Hadds. cbn [negb].
  destruct (t !! src) as [n|] eqn:Es; [|done].
  assert (n = File (match n with File c => c | Folder => "" end) \/ n = Folder) as Hn by (destruct n; auto).
  destruct (match t !! dst with Some Folder => true | _ => false end) eqn:Ed;
    [destruct (t !! dst) as [[]|]; done|].
  destruct (fails fault w); [destruct (t !! dst) as [[]|]; done|].
  intros H. assert (match <[dst:=File ""]> t !! src with
    | Some (File content) => (tick (<[dst:=File content]> (<[dst:=File ""]> t)) w, true)
    | _ => (tick (<[dst:=File ""]> t) w, false) end = (w', true)) as H' by (destruct (t !! dst) as [[]|]; done).
  clear H. rewrite lookup_insert_ne, Es in H' by done. destruct n as [c|]; [|done]. injection H' as <-. cbn [files tick]. exists c.
  split_and!.
  - destruct (Hadds src) as [E|(_ & E & _)]; [by rewrite <- E|congruence].
  - by rewrite lookup_insert_eq.
  - intros p Hp. rewrite !lookup_insert_ne by done. destruct (Hadds p) as [?|(? & ? & ?)]; [by left|right].
    unfold made_for. rewrite !lookup_insert_ne by done. done.
Qed.

(** a companion is copied, or passed over when it is not there or a call fails *)
Definition companion (src dst : string) (before after : tree) (s : string) : Prop :=
  (exists c, before !! (src +:+ s) = Some (File c) /\ after !! (dst +:+ s) = Some (File c)) \/
  (after !! (dst +:+ s) = before !! (dst +:+ s) /\ (before !! (src +:+ s) = None \/ exists n, fault n = true)).

(** nothing but the files of [dst] changes, and the directories above it *)
Definition elsewhere (dst : string) (suffixes : list string) (before after : tree) : Prop :=
  forall p, (forall s, s ∈ suffixes -> p <> dst +:+ s) ->
    after !! p = before !! p \/ before !! p = None /\ after !! p = Some Folder /\ p ∈ ancestors (Dir dst).

Record separate (src dst : string) (suffixes : list string) : Prop := {
  sep_src s s' : s ∈ suffixes -> s' ∈ suffixes -> src +:+ s <> dst +:+ s';
  sep_dir s : s ∈ suffixes -> Dir (dst +:+ s) = Dir dst;
  sep_above s : s ∈ suffixes -> dst +:+ s ∉ ancestors (Dir dst)
}.

Lemma Stat_spec p w : exists w1 st, Stat fault p w = (w1, st) /\ files w1 = files w /\
  match st with Found n => files w !! p = Some n | Missing => files w !! p = None | Unreadable => exists n, fault n = true end.
Proof using.
  unfold Stat, fails. eexists _, _. split; [done|]. split; [done|].
  destruct (fault (calls w)) eqn:E; [by eexists|]. by destruct (files w !! p).
Qed.

(** one file is copied and the others follow *)
Lemma copy_step src dst all s suffixes w w1 w' : separate src dst all -> s ∈ all -> suffixes ⊆ all -> s ∉ suffixes ->
  copyFileReflink fault partial (src +:+ s) (dst +:+ s) w = (w1, true) ->
  (forall t, t ∈ suffixes -> companion src dst (files w1) (files w') t) -> elsewhere dst suffixes (files w1) (files w') ->
  (exists c, files w !! (src +:+ s) = Some (File c) /\ files w' !! (dst +:+ s) = Some (File c)) /\
  (forall t, t ∈ suffixes -> companion src dst (files w) (files w') t) /\ elsewhere dst (s :: suffixes) (files w) (files w').
Proof using.
  intros Hsep Hin Hsub Hs (c & Hsrc & Hdst & Hrest)%copy_done Hc He; [|by apply (sep_src _ _ _ Hsep)].
  assert (forall t, t ∈ suffixes -> dst +:+ s <> dst +:+ t) as Hother by (intros t Ht E%str_app_inj_l; by subst).
  unfold made_for in Hrest. rewrite (sep_dir _ _ _ Hsep s Hin) in Hrest. split_and!.
  - exists c. split; [done|]. destruct (He (dst +:+ s)) as [->|(E & _)]; [done..|congruence].
  - intros t Ht. pose proof (Hsub t Ht) as Htall.
    destruct (Hrest (src +:+ t)) as [E|(E1 & E2 & _)]; [by apply (sep_src _ _ _ Hsep)|..].
    + assert (files w1 !! (dst +:+ t) = files w !! (dst +:+ t)) as E'.
      { destruct (Hrest (dst +:+ t)) as [?|(_ & _ & ?)]; [by apply not_eq_sym, Hother|done|by destruct (sep_above _ _ _ Hsep t Htall)]. }
      unfold companion. rewrite <- E, <- E'. by apply Hc.
    + destruct (Hc t Ht) as [(c' & Hx & _)|[Hx _]]; [congruence|right]. split; [|by left]. rewrite Hx.
      destruct (Hrest (dst +:+ t)) as [?|(_ & _ & ?)]; [by apply not_eq_sym, Hother|done|by destruct (sep_above _ _ _ Hsep t Htall)].
  - intros p Hp. destruct (He p) as [Hp1|(Hp1 & Hp2 & Hp3)]; [intros t Ht; apply Hp; by right|..].
    + destruct (Hrest p) as [E|(E1 & E2 & E3)]; [by apply Hp; left|left; congruence|right]. split_and!; [done|congruence|done].
    + right. destruct (Hrest p) as [E|(E1 & E2 & E3)]; [by apply Hp; left|split_and!; congruence|congruence].
Qed.

Lemma copy_sidecars_ok src dst all suffixes : separate src dst all -> NoDup suffixes -> forall w w', suffixes ⊆ all ->
  copy_sidecars fault partial src dst suffixes w = (w', true) ->
  (forall s, s ∈ suffixes -> companion src dst (files w) (files w') s) /\ elsewhere dst suffixes (files w) (files w').
Proof using.
  intros Hsep Hnd. induction Hnd as [|s suffixes Hs Hnd IH]; intros w w' Hsub; cbn [copy_sidecars].
  - intros [= <-]. split; [by intros s ?%not_elem_of_nil|by left].
  - assert (s ∈ all) as Hin by (apply Hsub; left).
    assert (suffixes ⊆ all) as Hsub' by (intros x Hx; apply Hsub; by right).
    destruct (Stat_spec (src +:+ s) w) as (w1 & st & -> & Hf & Hst).
    assert (files w !! (src +:+ s) = None \/ (exists n, fault n = true) -> copy_sidecars fault partial src dst suffixes w1 = (w', true) ->
      (forall t, t ∈ s :: suffixes -> companion src dst (files w) (files w') t) /\ elsewhere dst (s :: suffixes) (files w) (files w')) as Hskip.
    { intros Hwhy Hrest. destruct (IH _ _ Hsub' Hrest) as [Hc He]. rewrite Hf in *. split.
      - intros t [->|Ht]%elem_of_cons; [|by apply Hc]. right. split; [|done].
        destruct (He (dst +:+ s)) as [?|(_ & _ & ?)]; [|done|by destruct (sep_above _ _ _ Hsep s Hin)].
        intros t Ht E%str_app_inj_l. by subst.
      - intros p Hp. apply He. intros x Hx. apply Hp. by right. }
    destruct st as [| |n]; [apply Hskip; by left|apply Hskip; by right|].
    destruct (copyFileReflink _ _ _ _ w1) as [w2 [|]] eqn:Ecopy; [|done]. intros Hrest. rewrite <- Hf.
    destruct (IH _ _ Hsub' Hrest) as [Hc He]. destruct (copy_step _ _ _ _ _ _ _ _ Hsep Hin Hsub' Hs Ecopy Hc He) as (H1 & H2 & H3).
    split; [|done]. intros t [->|Ht]%elem_of_cons; [by left|by apply H2].
Qed.

Lemma suffixes_distinct : NoDup ("" :: sidecarSuffixes).
Proof using. apply (bool_decide_unpack _). by vm_compute. Qed.

(** a copy that succeeds *)
Lemma CopyDatabase_ok src dst w w' : separate src dst ("" :: sidecarSuffixes) -> CopyDatabase fault partial src dst w = (w', true) ->
  (exists c, files w !! src = Some (File c) /\ files w' !! dst = Some (File c)) /\
  (forall s, s ∈ sidecarSuffixes -> companion src dst (files w) (files w') s) /\
  elsewhere dst ("" :: sidecarSuffixes) (files w) (files w').
Proof using.
  intros Hsep. unfold CopyDatabase. destruct (copyFileReflink _ _ _ _ w) as [w1 [|]] eqn:Ecopy; [|done]. intros H.
  assert (sidecarSuffixes ⊆ "" :: sidecarSuffixes) as Hsub by (intros x Hx; by right).
  pose proof suffixes_distinct as [Hne Hnd]%NoDup_cons.
  destruct (copy_sidecars_ok src dst _ _ Hsep Hnd _ _ Hsub H) as [Hc He].
  rewrite <- (str_app_nil_r src), <- (str_app_nil_r dst) in Ecopy.
  destruct (copy_step _ _ _ _ _ _ _ _ Hsep ltac:(left) Hsub Hne Ecopy Hc He) as (H1 & H2 & H3).
  rewrite !str_app_nil_r in H1. by split_and!.
Qed.
End Copies.

(** files beside each other, of different names, are separate *)
Lemma suffix_clean x s : clean_element x -> s ∈ "" :: sidecarSuffixes -> clean_element (x +:+ s).
Proof.
  intros (H1 & H2 & H3 & H4) Hs. unfold sidecarSuffixes in Hs. rewrite !elem_of_cons, elem_of_nil in Hs.
  split_and!; [by destruct x|..].
  1,2: destruct Hs as [->|[->|[->|[->|[->|[->|[]]]]]]]; [by rewrite str_app_nil_r|..]; intros E; apply (f_equal String.length) in E; rewrite str_length_app in E; destruct x; cbn in E; (done || lia).
  unfold has_byte in *. rewrite str_any_app, H4. by destruct Hs as [->|[->|[->|[->|[->|[->|[]]]]]]].
Qed.

Lemma path_of_suffix l x s : path_of (l ++ [x]) +:+ s = path_of (l ++ [x +:+ s]).
Proof. rewrite !path_of_snoc. by rewrite !str_app_assoc. Qed.

Lemma separate_files l x l' y : Forall clean_element (l ++ [x]) -> Forall clean_element (l' ++ [y]) ->
  (forall s s', s ∈ "" :: sidecarSuffixes -> s' ∈ "" :: sidecarSuffixes -> l ++ [x +:+ s] <> l' ++ [y +:+ s']) ->
  separate (path_of (l ++ [x])) (path_of (l' ++ [y])) ("" :: sidecarSuffixes).
Proof.
  intros [Hl [Hx _]%Forall_cons]%Forall_app [Hl' [Hy _]%Forall_cons]%Forall_app Hne. split.
  - intros s s' Hs Hs'. rewrite !path_of_suffix. intros E%path_of_inj; [by apply (Hne s s')|..].
    all: apply Forall_app; split; [done|]; constructor; [by apply suffix_clean|done].
  - intros s Hs. destruct (suffix_clean y s Hy Hs) as (_ & _ & _ & Hb), Hy as (_ & _ & _ & Hyb).
    by rewrite path_of_suffix, !Dir_path_of.
  - intros s Hs. pose proof (suffix_clean y s Hy Hs) as Hc. destruct Hy as (_ & _ & _ & Hyb).
    rewrite path_of_suffix, Dir_path_of by done. intros (i & E & Hi%elem_of_seq)%list_elem_of_fmap.
    rewrite path_elements_of in * by done. apply path_of_inj in E.
    + apply (f_equal length) in E. rewrite length_app, length_take in E. cbn in E. lia.
    + apply Forall_app; split; [done|by constructor].
    + by apply Forall_take.
Qed.

(** ** Drops *)
(** the files a drop of [n] is about: the database with its companions, and what
    stands beside it under a name that extends its stem *)
Definition in_family (n p : string) : Prop :=
  p ∈ n :: SidecarPaths n \/
  exists name, name_in (Dir n) p = Some name /\ has_prefix (stem_of (path_base n) +:+ "_") name = true.

(** only paths of [ps] go, and nothing comes *)
Definition shrinks (ps : string -> Prop) (before after : tree) : Prop :=
  forall p, after !! p = before !! p \/ ps p /\ after !! p = None.

#[local] Instance shrinks_trans ps : Transitive (shrinks ps).
Proof.
  intros a b c Hab Hbc p. destruct (Hbc p) as [->|?]; [apply Hab|by right].
Qed.

Lemma shrinks_refl ps a : shrinks ps a a.
Proof. by left. Qed.

Lemma shrinks_weaken (ps qs : string -> Prop) a b : (forall p, ps p -> qs p) -> shrinks ps a b -> shrinks qs a b.
Proof. intros H Hab p. destruct (Hab p) as [?|[? ?]]; auto. Qed.

Lemma shrinks_gone ps a b p : shrinks ps a b -> a !! p = None -> b !! p = None.
Proof. intros H Hp. destruct (H p) as [->|[_ ?]]; done. Qed.

Section Drops.
Context (fault : nat -> bool).

Lemma Remove_spec p w : let r := Remove fault p w in
  shrinks (eq p) (files w) (files r.1) /\ (r.2 <> NotRemoved -> files r.1 !! p = None) /\
  (fault (calls w) = false -> (forall k, files w !! p = Some k -> exists c, k = File c) -> r.2 <> NotRemoved).
Proof using.
  unfold Remove, fails. destruct (fault (calls w)); [split_and!; [apply shrinks_refl|done..]|].
  assert (shrinks (eq p) (files w) (delete p (files w))) as Hdel.
  { intros q. destruct (decide (p = q)) as [->|]; [right; by rewrite lookup_delete_eq|left; by rewrite lookup_delete_ne]. }
  destruct (files w !! p) as [[c|]|] eqn:E; cbn.
  - split_and!; [done|by rewrite lookup_delete_eq|done].
  - destruct (names_in p (files w)); cbn.
    + split_and!; [done|by rewrite lookup_delete_eq|done].
    + split_and!; [apply shrinks_refl|done|]. intros _ H. by destruct (H Folder eq_refl) as [c ?].
  - split_and!; [apply shrinks_refl|done|done].
Qed.

Lemma remove_all_spec ps : forall removed w, let r := remove_all fault ps removed w in
  shrinks (fun p => p ∈ ps) (files w) (files r.1) /\ (r.2.2 = true -> forall p, p ∈ ps -> files r.1 !! p = None) /\
  ((forall k, fault k = false) -> (forall p k, p ∈ ps -> files w !! p = Some k -> exists c, k = File c) -> r.2.2 = true).
Proof using.
  induction ps as [|p ps IH]; intros removed w; cbn [remove_all]; cbn zeta.
  - split_and!; [apply shrinks_refl|by intros _ p ?%not_elem_of_nil|done].
  - destruct (Remove_spec p w) as (Hs & Hgone & Hok). destruct (Remove fault p w) as [w1 r]. cbn [fst snd] in *.
    assert (forall rem, let x := remove_all fault ps rem w1 in r <> NotRemoved ->
      shrinks (fun q => q ∈ p :: ps) (files w) (files x.1) /\ (x.2.2 = true -> forall q, q ∈ p :: ps -> files x.1 !! q = None) /\
      ((forall k, fault k = false) -> (forall q k, q ∈ p :: ps -> files w !! q = Some k -> exists c, k = File c) -> x.2.2 = true)) as Hrest.
    { intros rem. cbn zeta. intros Hr. destruct (IH rem w1) as (Hs2 & Hgone2 & Hok2). split_and!.
      - transitivity (files w1); [eapply shrinks_weaken; [|exact Hs]; intros q <-; left|eapply shrinks_weaken; [|exact Hs2]; intros q Hq; by right].
      - intros Hx q [->|Hq]%elem_of_cons; [by eapply shrinks_gone; [exact Hs2|apply Hgone]|by apply Hgone2].
      - intros Hf Hfiles. apply Hok2; [done|]. intros q k Hq Hk. destruct (Hs q) as [E|[_ E]]; [|congruence].
        apply (Hfiles q k); [by right|congruence]. }
    destruct r; [by apply Hrest|by apply Hrest|]. cbn [fst snd]. split_and!; [|done|].
    + eapply shrinks_weaken; [|exact Hs]. intros q <-. left.
    + intros Hf Hfiles. exfalso. apply Hok; [done| |done]. intros k Hk. apply (Hfiles p k); [left|done].
Qed.

Lemma remove_siblings_spec ss : forall dropped w, let r := remove_siblings fault ss dropped w in
  let mine p := exists s, s ∈ ss /\ p ∈ s :: SidecarPaths s in
  shrinks mine (files w) (files r.1) /\ (r.2.2 = true -> forall p, mine p -> files r.1 !! p = None) /\
  ((forall k, fault k = false) -> (forall p k, mine p -> files w !! p = Some k -> exists c, k = File c) -> r.2.2 = true).
Proof using.
  induction ss as [|s ss IH]; intros dropped w; cbn [remove_siblings]; cbn zeta.
  - split_and!; [apply shrinks_refl|by intros _ p (s & ?%not_elem_of_nil & _)|done].
  - unfold RemoveDatabase. destruct (remove_all_spec (s :: SidecarPaths s) [] w) as (Hs & Hgone & Hok).
    destruct (remove_all _ _ _ w) as [w1 [removed ok]]. cbn [fst snd] in *. destruct ok.
    + destruct (IH (dropped ++ removed) w1) as (Hs2 & Hgone2 & Hok2). cbn zeta in *. split_and!.
      * transitivity (files w1); [eapply shrinks_weaken; [|exact Hs]; intros q Hq; exists s; split; [left|done]|].
        eapply shrinks_weaken; [|exact Hs2]. intros q (t & Ht & Hq). exists t. split; [by right|done].
      * intros Hx q (t & [->|Ht]%elem_of_cons & Hq); [eapply shrinks_gone; [exact Hs2|by apply Hgone]|].
        apply Hgone2; [done|]. by exists t.
      * intros Hf Hfiles. apply Hok2; [done|]. intros q k (t & Ht & Hq) Hk. destruct (Hs q) as [E|[_ E]]; [|congruence].
        apply (Hfiles q k); [exists t; split; [by right|done]|congruence].
    + cbn [fst snd]. split_and!; [|done|].
      * eapply shrinks_weaken; [|exact Hs]. intros q Hq. exists s. split; [left|done].
      * intros Hf Hfiles. apply Hok; [done|]. intros q k Hq. apply Hfiles. exists s. split; [left|done].
Qed.
End Drops.

(** *** The siblings *)
Lemma dir_prefix_name l name : Forall clean_element l -> path_of (l ++ [name]) = dir_prefix (path_of l) +:+ name.
Proof.
  intros Hl. rewrite path_of_snoc. unfold dir_prefix. destruct l as [|x l]; [reflexivity|].
  destruct (String.eqb_spec (path_of (x :: l)) "/") as [E|_]; [|by rewrite str_app_assoc].
  unfold path_of in E. change ("/" +:+ ?s) with (String "/" s) in E. injection E as E.
  apply Forall_cons in Hl as [(Hx & _) _]. by destruct (join_nonempty "/" x l Hx).
Qed.

Lemma name_in_spec d p name : name_in d p = Some name <-> p = dir_prefix d +:+ name /\ has_byte "/" name = false /\ name <> "".
Proof.
  unfold name_in. split.
  - intros (n & Hn%cut_prefix_app & H)%bind_Some. destruct (has_byte "/" n) eqn:E; [done|].
    destruct (String.eqb_spec n ""); [done|]. by injection H as <-.
  - intros (-> & Hs & Hne). rewrite (proj2 (cut_prefix_app _ _ name) eq_refl). cbn. rewrite Hs.
    by apply String.eqb_neq in Hne as ->.
Qed.

Lemma has_prefix_more p s t : has_prefix p s = true -> has_prefix p (s +:+ t) = true.
Proof. rewrite !has_prefix_app. intros [r ->]. exists (r +:+ t). by rewrite str_app_assoc. Qed.

(** an entry that extends a stem is an ordinary name *)
Lemma sibling_clean stem name : has_prefix (stem +:+ "_") name = true -> has_byte "/" name = false -> clean_element name.
Proof.
  intros [r ->]%has_prefix_app Hs. split_and!; [by destruct stem|..|done].
  1,2: intros E; assert (has_byte "_" ((stem +:+ "_") +:+ r) = true) as Hu
    by (unfold has_byte; rewrite !str_any_app; cbn; by rewrite orb_true_r); by rewrite E in Hu.
Qed.

Lemma elem_of_names_in d t name : name ∈ names_in d t <-> exists p k, t !! p = Some k /\ name_in d p = Some name.
Proof.
  unfold names_in. rewrite merge_sort_Permutation, list_elem_of_omap. split.
  - intros ([p k] & Hp%elem_of_map_to_list & H). by exists p, k.
  - intros (p & k & Hp & H). exists (p, k). by rewrite elem_of_map_to_list.
Qed.

(** C20: dropping a database, whatever fails, removes nothing but the
    files of its family - itself, its companions, and what stands in its
    directory under a name that extends its stem with an underscore - and
    changes nothing else; a drop that reports success has removed all of it; and
    when no call fails and the family consists of files, it succeeds. *)
Theorem family_dropped (fault : nat -> bool) (l : list string) (x : string) (w : World)
    (Hl : Forall clean_element (l ++ [x])) (Hdir : files w !! path_of l = Some Folder) :
  let n := path_of (l ++ [x]) in
  let r := DropMatching fault n w in
  shrinks (in_family n) (files w) (files r.1) /\
  (r.2.2 = true -> forall p, in_family n p -> files r.1 !! p = None) /\
  ((forall k, fault k = false) -> (forall p k, in_family n p -> files w !! p = Some k -> exists c, k = File c) -> r.2.2 = true).
Proof.
  apply Forall_app in Hl as [Hl Hx]. apply Forall_cons in Hx as [Hx _]. cbn zeta. set (n := path_of (l ++ [x])).
  unfold DropMatching, absName. change (is_abs n) with true. cbv iota. unfold RemoveDatabase.
  destruct (remove_all_spec fault (n :: SidecarPaths n) [] w) as (Hs & Hgone & Hok).
  destruct (remove_all _ _ _ w) as [w1 [dropped ok]]. cbn [fst snd] in *.
  assert (shrinks (in_family n) (files w) (files w1)) as Hs' by (eapply shrinks_weaken; [|exact Hs]; intros p Hp; by left).
  destruct ok; cbn [negb].
  2: { cbn [fst snd]. split_and!; [done..|]. intros Hf Hfiles. apply Hok; [done|]. intros p k Hp. apply Hfiles. by left. }
  unfold CloneSiblings, ReadDir. assert (Dir n = path_of l) as Hd by (apply Dir_path_of; [done|by destruct Hx as (_ & _ & _ & ?)]).
  assert (forall t, t = x \/ (exists s, s ∈ "" :: sidecarSuffixes /\ t = x +:+ s) -> path_of l <> path_of (l ++ [t])) as Habove.
  { intros t Ht E. assert (clean_element t) as Htc by (destruct Ht as [->|(s & Hs2 & ->)]; [done|by apply suffix_clean]).
    apply path_of_inj in E; [|done|apply Forall_app; split; [done|by constructor]]. apply (f_equal length) in E.
    rewrite length_app in E. cbn in E. lia. }
  assert (files w1 !! path_of l = Some Folder) as Hdir1.
  { destruct (Hs (path_of l)) as [E|[Hin _]]; [congruence|exfalso].
    apply elem_of_cons in Hin as [E|(s & E & Hsuf)%list_elem_of_fmap]; [by apply (Habove x); [left|]|].
    unfold n in E. rewrite path_of_suffix in E. apply (Habove (x +:+ s)); [|done]. right. exists s. split; [by right|done]. }
  rewrite Hd. destruct (fails fault w1) eqn:Ef; cbn [fmap option_fmap option_map].
  { cbn [fst snd tick files]. split_and!; [done..|]. intros Hf. unfold fails in Ef. by rewrite Hf in Ef. }
  rewrite Hdir1. cbn [fmap option_fmap option_map]. set (pre := stem_of (path_base n) +:+ "_").
  set (ss := map (path_join (path_of l)) (List.filter (has_prefix pre) (names_in (path_of l) (files w1)))).
  assert (forall name, has_prefix pre name = true -> has_byte "/" name = false -> path_join (path_of l) name = dir_prefix (path_of l) +:+ name) as Hjoin.
  { intros name Hpre Hsl. rewrite join_name, dir_prefix_name; [done..|]. by eapply sibling_clean. }
  assert (forall p, (exists s, s ∈ ss /\ p ∈ s :: SidecarPaths s) -> in_family n p) as Hmine.
  { intros p (s & (name & -> & [Hpre Hin]%elem_of_filter_bool)%list_elem_of_fmap & Hp). right.
    apply elem_of_names_in in Hin as (q & k & _ & (Hq & Hsl & Hne)%name_in_spec). rewrite Hjoin in Hp by done.
    assert (exists t, t ∈ "" :: sidecarSuffixes /\ p = dir_prefix (path_of l) +:+ (name +:+ t)) as (t & Ht & ->).
    { apply elem_of_cons in Hp as [->|(t & -> & Ht)%list_elem_of_fmap]; [exists ""; split; [by left|by rewrite str_app_nil_r]|].
      exists t. split; [by right|by rewrite str_app_assoc]. }
    exists (name +:+ t). rewrite Hd. split; [|by apply has_prefix_more]. apply name_in_spec. split; [done|].
    destruct (suffix_clean name t (sibling_clean _ _ Hpre Hsl) Ht) as (? & _ & _ & ?). done. }
  assert (forall p, in_family n p -> files w1 !! p <> None -> exists s, s ∈ ss /\ p ∈ s :: SidecarPaths s) as Hlisted.
  { intros p [Hp|(name & Hname & Hpre)] Hsome; [by destruct Hsome; apply Hgone|]. rewrite Hd in Hname. exists p. split; [|by left].
    pose proof Hname as (-> & Hsl & Hne)%name_in_spec. apply list_elem_of_fmap. exists name. split; [by rewrite Hjoin|].
    apply elem_of_filter_bool. split; [done|]. apply elem_of_names_in.
    destruct (files w1 !! (dir_prefix (path_of l) +:+ name)) as [k|] eqn:E; [|done]. by eexists _, k. }
  destruct (remove_siblings_spec fault ss dropped (tick (files w1) w1)) as (Hs2 & Hgone2 & Hok2).
  destruct (remove_siblings _ _ _ _) as [w2 [dropped2 ok2]]. cbn [fst snd tick files] in *. split_and!.
  - transitivity (files w1); [done|]. by eapply shrinks_weaken; [|exact Hs2].
  - intros -> p Hp. destruct (files w1 !! p) eqn:E; [apply Hgone2; [done|]; apply Hlisted; [done|congruence]|by eapply shrinks_gone].
  - intros Hf Hfiles. apply Hok2; [done|]. intros p k Hp Hk. destruct (Hs' p) as [E|[_ E]]; [|congruence].
    apply (Hfiles p k); [by apply Hmine|congruence].
Qed.

(** ** A restore *)
Lemma make_dirs_there ds t : (forall d, d ∈ ds -> t !! d = Some Folder) -> make_dirs ds t = (t, true).
Proof.
  induction ds as [|d ds IH]; intros H; cbn [make_dirs]; [done|]. rewrite (H d) by left. apply IH. intros e He. apply H. by right.
Qed.

Section Succeeds.
Context (partial : nat -> option string) (src dst : string) (Hsep : separate src dst ("" :: sidecarSuffixes)).

(** the state in which a copy cannot fail: the directory is there, and what is
    copied, and what is in its place, are files *)
Definition copyable (t : tree) : Prop :=
  (forall d, d ∈ ancestors (Dir dst) -> t !! d = Some Folder) /\
  (forall s, s ∈ "" :: sidecarSuffixes -> t !! (src +:+ s) <> Some Folder /\ t !! (dst +:+ s) <> Some Folder).

Lemma copy_succeeds s w c : s ∈ "" :: sidecarSuffixes -> copyable (files w) -> files w !! (src +:+ s) = Some (File c) ->
  exists w', copyFileReflink never partial (src +:+ s) (dst +:+ s) w = (w', true) /\ copyable (files w') /\
    forall t, t ∈ "" :: sidecarSuffixes -> files w' !! (src +:+ t) = files w !! (src +:+ t).
Proof using Hsep.
  intros Hs [Hd Hno] Hc. unfold copyFileReflink. rewrite (sep_dir _ _ _ Hsep s Hs), make_dirs_there by done. cbn [negb]. rewrite Hc.
  destruct (Hno s Hs) as [_ Hdst]. assert (forall k, Some k = files w !! (dst +:+ s) -> exists b, k = File b) as Hk.
  { intros [b|] E; [by eexists|congruence]. }
  assert (<[dst +:+ s := File ""]> (files w) !! (src +:+ s) = Some (File c)) as Hopen
    by (rewrite lookup_insert_ne; [done|]; by apply not_eq_sym, (sep_src _ _ _ Hsep)).
  exists (tick (<[dst +:+ s := File c]> (<[dst +:+ s := File ""]> (files w))) w). split_and!.
  - unfold fails, never. destruct (files w !! (dst +:+ s)) as [k|]; [destruct (Hk k eq_refl) as [b ->]|]; by rewrite Hopen.
  - cbn [files tick]. split.
    + intros d Hin. rewrite !lookup_insert_ne by (intros <-; by apply (sep_above _ _ _ Hsep s)). by apply Hd.
    + intros t Ht. split.
      * rewrite !lookup_insert_ne by (apply not_eq_sym, (sep_src _ _ _ Hsep); done). by apply Hno.
      * destruct (decide (t = s)) as [->|Hne]; [by rewrite lookup_insert_eq|].
        rewrite !lookup_insert_ne by (intros E%str_app_inj_l; congruence). by apply Hno.
  - intros t Ht. cbn [files tick]. by rewrite !lookup_insert_ne by (apply not_eq_sym, (sep_src _ _ _ Hsep); done).
Qed.

Lemma copy_sidecars_succeeds suffixes w : suffixes ⊆ "" :: sidecarSuffixes -> copyable (files w) ->
  (copy_sidecars never partial src dst suffixes w).2 = true.
Proof using Hsep.
  revert w. induction suffixes as [|s suffixes IH]; intros w Hsub Hw; [done|]. cbn [copy_sidecars]. unfold Stat. change (fails never w) with false. cbv iota.
  assert (suffixes ⊆ "" :: sidecarSuffixes) as Hsub' by (intros y Hy; apply Hsub; by right).
  destruct (files w !! (src +:+ s)) as [k|] eqn:Ek; [|by apply IH].
  assert (s ∈ "" :: sidecarSuffixes) as Hs by (apply Hsub; left). destruct k as [c|]; [|by destruct (proj1 (proj2 Hw s Hs))].
  destruct (copy_succeeds s (tick (files w) w) c Hs Hw Ek) as (w' & Hcopy & Hw' & _). cbv beta iota. rewrite Hcopy. by apply IH.
Qed.

Lemma CopyDatabase_succeeds w c : copyable (files w) -> files w !! src = Some (File c) -> (CopyDatabase never partial src dst w).2 = true.
Proof using Hsep.
  intros Hw Hc. unfold CopyDatabase. rewrite <- (str_app_nil_r src) in Hc.
  destruct (copy_succeeds "" w c ltac:(left) Hw Hc) as (w' & Hcopy & Hw' & _). rewrite !str_app_nil_r in Hcopy. rewrite Hcopy.
  apply copy_sidecars_succeeds; [intros y Hy; by right|done].
Qed.
End Succeeds.

(** copying a database onto another one succeeds when no call
    fails, the directory is there and files stand where files are expected; the
    copy is then the source, companion by companion, provided that the place had
    no companion that the source lacks, and nothing else changes. *)
Theorem restore_exact (partial : nat -> option string) (l l' : list string) (x y c : string) (w : World)
    (Hx : Forall clean_element (l ++ [x])) (Hy : Forall clean_element (l' ++ [y]))
    (Hapart : forall s s', s ∈ "" :: sidecarSuffixes -> s' ∈ "" :: sidecarSuffixes -> l ++ [x +:+ s] <> l' ++ [y +:+ s'])
    (Hw : copyable (path_of (l ++ [x])) (path_of (l' ++ [y])) (files w)) (Hc : files w !! path_of (l ++ [x]) = Some (File c))
    (Hstale : forall s, s ∈ sidecarSuffixes -> files w !! (path_of (l ++ [x]) +:+ s) = None -> files w !! (path_of (l' ++ [y]) +:+ s) = None) :
  let src := path_of (l ++ [x]) in
  let dst := path_of (l' ++ [y]) in
  let r := CopyDatabase never partial src dst w in
  r.2 = true /\ (forall s, s ∈ "" :: sidecarSuffixes -> files r.1 !! (dst +:+ s) = files w !! (src +:+ s)) /\
  (forall p, (forall s, s ∈ "" :: sidecarSuffixes -> p <> dst +:+ s) -> files r.1 !! p = files w !! p).
Proof.
  cbn zeta. set (src := path_of (l ++ [x])) in *. set (dst := path_of (l' ++ [y])) in *.
  assert (separate src dst ("" :: sidecarSuffixes)) as Hsep by by apply separate_files.
  pose proof (CopyDatabase_succeeds partial src dst Hsep w c Hw Hc) as Hok.
  destruct (CopyDatabase never partial src dst w) as [w' ok] eqn:E. cbn [fst snd] in *. subst ok. split; [done|].
  destruct (CopyDatabase_ok never partial src dst w w' Hsep E) as ((c' & Hsrc & Hdst) & Hcomp & Helse). split.
  - intros s [->|Hs]%elem_of_cons; [rewrite !str_app_nil_r; congruence|].
    destruct (Hcomp s Hs) as [(b & -> & ->)|[-> [Hnone|[k Hk]]]]; [done| |done]. rewrite Hnone. by apply Hstale.
  - intros p Hp. destruct (Helse p Hp) as [?|(Hnone & _ & Hin)]; [done|]. rewrite (proj1 Hw p Hin) in Hnone. done.
Qed.


(** ** Small file systems *)
Definition no_partial : nat -> option string := fun _ => None.
Definition no_sql : nat -> string -> string -> tree -> tree * bool := fun _ _ _ t => (t, false).
Definition no_phase : nat -> string -> tree -> tree * bool := fun _ _ t => (t, true).
Definition on (l : list (string * node)) : World := {| files := list_to_map l; calls := 0 |}.

(** a restore replaces the main file and keeps the old write-ahead log beside it *)
Example stale_wal_survives :
  let w := on [("/w", Folder); ("/w/app.db", File "old"); ("/w/app.db-wal", File "old frames"); ("/w/_tm_1.db", File "template")] in
  let '(w', ok) := CopyDatabase never no_partial "/w/_tm_1.db" "/w/app.db" w in
  ok = true /\ files w' !! "/w/app.db" = Some (File "template") /\ files w' !! "/w/app.db-wal" = Some (File "old frames").
Proof. vm_compute. done. Qed.

(** a cold build removes the dump it is about to load, when the name of the dump
    extends the name of the database; an optional one is then passed over, and
    the build succeeds without it *)
Example cold_build_eats_its_dump :
  let w := on [("/w", Folder); ("/w/db", Folder); ("/w/db/app.db", File "old"); ("/w/db/app_seed.db", File "rows")] in
  let build optional := fileColdBuildSteps never no_partial no_sql no_phase [{| dPath := "db/app_seed.db"; Optional := optional |}]
    true false "/w" "/w/db/app.db" "/w/db/_tm_1.db" w in
  (build false).2 = false /\ files (build false).1 !! "/w/db/app_seed.db" = None /\
  (build true).2 = true /\ files (build true).1 !! "/w/db/app.db" = None.
Proof. vm_compute. done. Qed.

(** dropping a database takes files beside it that are not clones *)
Example drop_takes_a_source_file :
  let w := on [("/w", Folder); ("/w/app.db", File "rows"); ("/w/app_test_1.db", File "rows"); ("/w/app_schema.go", File "package db")] in
  (DropMatching never "/w/app.db" w).2 = (["/w/app.db"; "/w/app_schema.go"; "/w/app_test_1.db"], true).
Proof. vm_compute. done. Qed.

(** a base directory that ends in a slash places nothing *)
Example trailing_slash_refused :
  SourcePath "/data/" "/w" "app.db" = Err (PathEscapes "/data/app.db" "/data/") /\ SourcePath "/data" "/w" "app.db" = Ok "/data/app.db".
Proof. vm_compute. done. Qed.

(** the directory of a named block is passed over unless there is a single block too *)
Definition sqlite_blocks (single : option SqliteConn) : ConnectionsConfig :=
  {| Mysql := None; MysqlNamed := ∅; Postgres := None; PostgresNamed := ∅; Mongodb := None; MongodbNamed := ∅;
     Redis := None; RedisNamed := ∅; Elasticsearch := None; ElasticsearchNamed := ∅; S3 := None; S3Named := ∅;
     Sqlite := single; SqliteNamed := {["fast" := Some {| BaseDir := "/data" |}]} |}.
Example named_base_dir_ignored :
  SourcePathFor (sqlite_blocks None) "fast" "/w" "app.db" = Ok "/w/app.db" /\
  SourcePathFor (sqlite_blocks (Some {| BaseDir := "" |})) "fast" "/w" "app.db" = Ok "/data/app.db".
Proof. vm_compute. done. Qed.

(** ** Witnesses *)
Ltac clean_names := repeat constructor; try (intros ?; discriminate).

Lemma source_path_confined_witness :
  SourcePathFor no_connections "" "/w/a" "data/../app.db" = Ok "/w/a/app.db" /\
  exists r x, Forall clean_element (r ++ [x]) /\ "/w/a/app.db" = path_of (["w"; "a"] ++ r ++ [x]) /\
    TemplatePath "/w/a/app.db" "0123456789abcdef01" = path_of (["w"; "a"] ++ r ++ ["_tm_" +:+ str_take 16 "0123456789abcdef01" +:+ path_ext "/w/a/app.db"]).
Proof.
  split; [vm_compute; reflexivity|].
  refine (source_path_confined no_connections "" "/w/a" "data/../app.db" "/w/a/app.db" "0123456789abcdef01" ["w"; "a"] _ _ _ _ _);
    [reflexivity|done|clean_names|reflexivity|vm_compute; reflexivity].
Defined.

Definition sample_files : DatabaseSpec := a_database "sqlite" "data/app_{slug}.db" "" None false None.
Definition file_config : Config := just no_connections [sample_files] [].
Definition a_slug : Slug.Slug := {| Value := "feat_ab12"; src_of := SourceTicket |}.

Lemma valid_file_placed_witness :
  Validate file_config = Some [] /\
  exists name, Template.Render (nameTemplate sample_files) (FromSlug default_range a_slug) = Ok name /\
    (kept_elements name <> [] ->
     SourcePathFor (Connections file_config) (Connection sample_files) "/w/a" name = Ok (path_of (["w"; "a"] ++ kept_elements name))).
Proof.
  split; [vm_compute; reflexivity|].
  refine (valid_file_placed file_config 0 sample_files default_range a_slug "/w/a" ["w"; "a"] _ _ _ _ _ _ _ _);
    [vm_compute; reflexivity|reflexivity..|done|reflexivity|done|clean_names].
Defined.

Definition some_files : World :=
  on [("/w", Folder); ("/w/app.db", File "rows"); ("/w/app.db-wal", File "frames"); ("/w/app_test_1.db", File "rows"); ("/w/notes", File "text")].

Lemma family_dropped_witness :
  (DropMatching never "/w/app.db" some_files).2 = (["/w/app.db"; "/w/app.db-wal"; "/w/app_test_1.db"], true) /\
  shrinks (in_family "/w/app.db") (files some_files) (files (DropMatching never "/w/app.db" some_files).1).
Proof.
  split; [vm_compute; reflexivity|].
  refine (proj1 (family_dropped never ["w"] "app.db" some_files _ _)); [clean_names|vm_compute; reflexivity].
Defined.

Definition a_template : World := on [("/w", Folder); ("/w/_tm_1.db", File "template"); ("/w/_tm_1.db-wal", File "frames"); ("/w/app.db", File "old")].

Lemma restore_exact_witness :
  files (CopyDatabase never no_partial "/w/_tm_1.db" "/w/app.db" a_template).1 !! "/w/app.db-wal" = Some (File "frames") /\
  (CopyDatabase never no_partial "/w/_tm_1.db" "/w/app.db" a_template).2 = true.
Proof.
  split; [vm_compute; reflexivity|].
  refine (proj1 (restore_exact no_partial ["w"] ["w"] "_tm_1.db" "app.db" "template" a_template _ _ _ _ _ _)).
  - clean_names.
  - clean_names.
  - intros s s' _ _ E. by injection E.
  - split.
    + intros d Hd. assert (ancestors (Dir (path_of (["w"] ++ ["app.db"]))) = ["/w"]) as E by (vm_compute; reflexivity).
      rewrite E in Hd. apply list_elem_of_singleton in Hd as ->. vm_compute. reflexivity.
    + intros s Hs. unfold sidecarSuffixes in Hs. rewrite !elem_of_cons, elem_of_nil in Hs.
      destruct Hs as [->|[->|[->|[->|[->|[->|[]]]]]]]; vm_compute; split; congruence.
  - vm_compute. reflexivity.
  - intros s Hs. unfold sidecarSuffixes in Hs. rewrite !elem_of_cons, elem_of_nil in Hs.
    destruct Hs as [->|[->|[->|[->|[->|[]]]]]]; vm_compute; congruence.
Defined.
