(* ===== verification/WtFiles.v ===== *)
(** * Files that worktrees share, and their removal

    [internal/wt/exclude.go] (the patterns that keep linked and copied files
    out of git's status) and, of [internal/wt/files.go], where an entry is
    brought to and [RemoveWorktreeTree], which deletes what git leaves of a
    worktree. *)
From stdpp Require Import base strings list gmap sorting.
From Stdlib Require Import ZArith Lia.
From S2P Require Import Prelude GoStrings Lines Paths.
From S2P Require FileEngine.
#[local] Open Scope treeman_scope.

(** ** Exclude patterns *)
Definition excludeHeader : string := "# treeman: worktrees.links / worktrees.copies (brought-in, kept out of git status)".

(** those not seen yet, each once *)
Fixpoint unseen (seen l : list string) : list string :=
  match l with
  | [] => []
  | p :: l => if bool_decide (p ∈ seen) then unseen seen l else p :: unseen (p :: seen) l
  end.

Definition anchored (rel : string) : option string :=
  let r := trim is_slash (default rel (cut_prefix "./" rel)) in
  if String.eqb r "" || String.eqb r "." || String.eqb r ".." || has_prefix "../" r then None else Some ("/" +:+ r).
Definition anchoredPatterns (rels : list string) : list string := unseen [] (omap anchored rels).

Definition present (body : string) : list string := map TrimSpace (lines body).

(** the text that is appended; [None] when the file is left alone *)
Definition excludes_added (body : string) (rels : list string) : option string :=
  match unseen (present body) (anchoredPatterns rels) with
  | [] => None
  | add => Some ((if negb (String.eqb body "") && negb (has_suffix nl body) then nl else "") +:+
                 (if bool_decide (excludeHeader ∈ present body) then "" else excludeHeader +:+ nl) +:+
                 join "" (map (fun p => p +:+ nl) add))
  end.

(** [ensureRepoExcludes] on the text of the file, under its lock *)
Definition ensureRepoExcludes (rels : list string) (body : string) : string :=
  match excludes_added body rels with Some s => body +:+ s | None => body end.

(** ** Where an entry is brought to *)
(** the source of an entry without wildcards, its name in the repository, and
    its place in the worktree *)
Definition bring_source (repoRoot rel : string) : string := path_join repoRoot rel.
Definition bring_rel (repoRoot src : string) : string := Rel repoRoot src.
Definition bring_target (wtPath relToRepo : string) : string := path_join wtPath relToRepo.
Definition brought_to (repoRoot wtPath rel : string) : string := bring_target wtPath (bring_rel repoRoot (bring_source repoRoot rel)).

(** ** Removing a worktree *)
Definition underRoot (path root : string) : bool :=
  if String.eqb path "" || String.eqb root "" then false
  else let rel := Rel root path in negb (String.eqb rel ".") && negb (String.eqb rel "") && negb (has_prefix ".." rel).

Abbreviation tree := (gmap string FileEngine.node).

Definition at_or_below (p q : string) : bool := String.eqb q p || has_prefix (p +:+ "/") q.

Section Remove.
(** the entries that cannot be removed *)
Context (fault : string -> bool).

(** what cannot be removed keeps the directories above it *)
Definition stuck (t : tree) (q : string) : bool := existsb (fun kv => at_or_below q kv.1 && fault kv.1) (map_to_list t).

(** [os.RemoveAll], which goes on past what it cannot remove *)
Definition RemoveAll (p : string) (t : tree) : tree :=
  filter (fun kv => negb (at_or_below p kv.1) || stuck t kv.1 = true) t.

(** [os.Remove]: a file or an empty directory; [None] is an error *)
Definition Remove (p : string) (t : tree) : option tree :=
  if fault p then None
  else match t !! p with
       | None => None
       | Some (FileEngine.File _) => Some (delete p t)
       | Some FileEngine.Folder => match FileEngine.names_in p t with [] => Some (delete p t) | _ => None end
       end.

(** the walk up, over the elements of the parent, the last first *)
Fixpoint reap_parents (wtRoot : string) (up : list string) (t : tree) : tree :=
  match up with
  | [] => t
  | _ :: above =>
      let parent := path_of (rev up) in
      if underRoot parent wtRoot
      then match Remove parent t with Some t => reap_parents wtRoot above t | None => t end
      else t
  end.

Definition RemoveWorktreeTree (wtPath wtRoot : string) (t : tree) : tree :=
  if negb (underRoot wtPath wtRoot) then t
  else reap_parents wtRoot (rev (path_elements (Dir wtPath))) (RemoveAll wtPath t).
End Remove.

(** ** Lemmas: the excludes *)
Lemma unseen_spec l seen : NoDup (unseen seen l) /\ forall p, p ∈ unseen seen l <-> p ∈ l /\ p ∉ seen.
Proof.
  revert seen. induction l as [|q l IH]; intros seen; cbn [unseen].
  - split; [constructor|]. intros p. split; [by intros ?%not_elem_of_nil|by intros [?%not_elem_of_nil _]].
  - case_bool_decide as Hq.
    + destruct (IH seen) as [Hn Hi]. split; [done|]. intros p. rewrite Hi, elem_of_cons. split; [tauto|]. intros [[->|?] ?]; tauto.
    + destruct (IH (q :: seen)) as [Hn Hi]. split; [constructor; [|done]; rewrite Hi; set_solver|].
      intros p. rewrite !elem_of_cons, Hi, elem_of_cons. destruct (decide (p = q)) as [->|]; tauto.
Qed.

Lemma join_nothing l : join "" l = foldr String.append "" l.
Proof. induction l as [|x [|y l] IH]; [done|cbn; by rewrite str_app_nil_r|]. rewrite join_cons, IH. done. Qed.

Lemma lines_of_all l : Forall (fun x => one_line x = true) l -> lines (join "" (map (fun p => p +:+ nl) l)) = l ++ [""].
Proof.
  rewrite join_nothing. induction 1 as [|x l Hx _ IH]; [done|]. cbn [map foldr app]. rewrite str_app_assoc.
  change (nl +:+ ?s) with (String newline s). unfold lines in *. rewrite split_app_line, IH by (by apply negb_true_iff). done.
Qed.

Lemma lines_after b s : lines (b +:+ String newline s) = lines b ++ lines s.
Proof. apply split_byte_app. Qed.

(** appending whole lines to a text *)
Definition open_line (body : string) : string := if negb (String.eqb body "") && negb (has_suffix nl body) then nl else "".
Lemma present_appended body l :
  Forall (fun x => one_line x = true) l -> l <> [] ->
  forall p, p ∈ present (body +:+ open_line body +:+ join "" (map (fun p => p +:+ nl) l)) <-> p ∈ present body \/ p = "" \/ p ∈ map TrimSpace l.
Proof.
  intros Hl Hne p. unfold present, open_line. set (s := join "" (map (fun p => p +:+ nl) l)).
  assert (Hs : lines s = l ++ [""]) by by apply lines_of_all.
  destruct (String.eqb_spec body "") as [->|Hb]; cbn [negb andb].
  { change ("" +:+ "" +:+ s) with s. rewrite Hs, map_app. change (map TrimSpace (lines "")) with [""]. cbn [map].
    change (TrimSpace "") with "". rewrite elem_of_app, !list_elem_of_singleton. tauto. }
  destruct (has_suffix nl body) eqn:E; cbn [negb].
  - apply has_suffix_app in E as [b ->]. change ("" +:+ s) with s. rewrite str_app_assoc. change (nl +:+ s) with (String newline s).
    unfold nl. rewrite !lines_after, Hs. change (lines "") with [""]. rewrite !map_app. cbn [map]. change (TrimSpace "") with "".
    rewrite !elem_of_app, list_elem_of_singleton. tauto.
  - change (nl +:+ s) with (String newline s). rewrite lines_after, Hs, !map_app. cbn [map]. change (TrimSpace "") with "".
    rewrite !elem_of_app, list_elem_of_singleton. tauto.
Qed.

(** a pattern that the file keeps as it is *)
Definition plain_pattern (p : string) : Prop := one_line p = true /\ TrimSpace p = p.

Lemma trimmed_patterns l : Forall plain_pattern l -> map TrimSpace l = l.
Proof. induction 1 as [|p l [_ Hp] _ IH]; [done|]. cbn. by rewrite Hp, IH. Qed.

Lemma header_plain : plain_pattern excludeHeader.
Proof. split; vm_compute; reflexivity. Qed.

(** the text that is appended, as lines *)
Lemma excludes_lines body rels s :
  excludes_added body rels = Some s ->
  exists l, s = open_line body +:+ join "" (map (fun p => p +:+ nl) l) /\ l <> [] /\
    (forall p, p ∈ l -> p = excludeHeader \/ p ∈ anchoredPatterns rels) /\
    (forall p, p ∈ anchoredPatterns rels -> p ∈ l \/ p ∈ present body) /\ NoDup (unseen (present body) (anchoredPatterns rels)).
Proof.
  unfold excludes_added. destruct (unseen_spec (anchoredPatterns rels) (present body)) as [Hnd Hi].
  destruct (unseen (present body) (anchoredPatterns rels)) as [|q add] eqn:E; [done|]. intros Hs. apply (inj Some) in Hs as <-.
  fold (open_line body).
  exists ((if bool_decide (excludeHeader ∈ present body) then [] else [excludeHeader]) ++ q :: add). split_and!.
  - rewrite !join_nothing. case_bool_decide; reflexivity.
  - by case_bool_decide.
  - intros p [Hp|Hp]%elem_of_app; [case_bool_decide; [by apply not_elem_of_nil in Hp|left; by apply list_elem_of_singleton in Hp]|].
    right. by apply Hi.
  - intros p Hp. destruct (decide (p ∈ present body)); [by right|]. left. apply elem_of_app. right. by apply Hi.
  - done.
Qed.

Lemma excludes_settled rels body : (forall p, p ∈ anchoredPatterns rels -> p ∈ present body) -> ensureRepoExcludes rels body = body.
Proof.
  intros H. unfold ensureRepoExcludes, excludes_added. destruct (unseen_spec (anchoredPatterns rels) (present body)) as [_ Hi].
  destruct (unseen (present body) (anchoredPatterns rels)) as [|q add]; [done|]. exfalso.
  destruct (proj1 (Hi q)) as [Hq Hno]; [by left|]. by apply Hno, H.
Qed.

(** ** Lemmas: the removal *)
Lemma underRoot_below path root : underRoot path root = true -> exists r, r <> [] /\ path_elements path = path_elements root ++ r.
Proof.
  unfold underRoot, Rel. destruct (String.eqb path "" || String.eqb root ""); [done|].
  destruct (strip_common_spec (path_elements root) (path_elements path)) as (c & Hr & Hp & _).
  destruct (strip_common (path_elements root) (path_elements path)) as [b t] eqn:E. cbn [fst snd] in *.
  destruct b as [|x b].
  - destruct t as [|y t]; [done|]. intros _. exists (y :: t). split; [done|]. rewrite Hp, Hr, app_nil_r. done.
  - intros [_ Hup]%andb_prop. exfalso. apply negb_true_iff in Hup. cbn [map app] in Hup.
    assert (Hd : has_prefix ".." (join "/" (".." :: (map (fun _ => "..") b ++ t)%list)) = true); [|congruence].
    apply has_prefix_app. destruct (map (fun _ => "..") b ++ t)%list as [|z l]; [by exists ""|]. rewrite join_cons. by eexists.
Qed.

Lemma names_in_shrinks p (t t' : tree) : t' ⊆ t -> FileEngine.names_in p t = [] -> FileEngine.names_in p t' = [].
Proof.
  intros Hs He. unfold FileEngine.names_in in *.
  assert (Hnil : omap (fun kv => FileEngine.name_in p kv.1) (map_to_list t) = []).
  { apply Permutation_nil. rewrite <- He. apply merge_sort_Permutation. }
  destruct (omap (fun kv => FileEngine.name_in p kv.1) (map_to_list t')) as [|n l] eqn:E; [done|]. exfalso.
  assert (Hn : n ∈ omap (fun kv : string * FileEngine.node => FileEngine.name_in p kv.1) (map_to_list t')) by (rewrite E; by left).
  apply list_elem_of_omap in Hn as ([q v] & Hq & Hn). apply elem_of_map_to_list in Hq.
  assert (Hn' : n ∈ omap (fun kv : string * FileEngine.node => FileEngine.name_in p kv.1) (map_to_list t)).
  { apply list_elem_of_omap. exists (q, v). split; [|done]. apply elem_of_map_to_list. by apply (lookup_weaken t'). }
  rewrite Hnil in Hn'. by apply not_elem_of_nil in Hn'.
Qed.

Lemma RemoveAll_shrinks fault p t : RemoveAll fault p t ⊆ t.
Proof. apply map_filter_subseteq. Qed.

Lemma RemoveAll_kept fault p t q n : t !! q = Some n -> RemoveAll fault p t !! q = None -> at_or_below p q = true /\ stuck fault t q = false.
Proof.
  intros Hq H. apply map_lookup_filter_None in H as [H|H]; [congruence|]. specialize (H n Hq). cbn [fst] in H.
  destruct (at_or_below p q), (stuck fault t q); cbn in H; tauto.
Qed.

(** a directory that the walk up removes *)
Definition reaped (wtRoot : string) (up : list string) (t t' : tree) (p : string) : Prop :=
  underRoot p wtRoot = true /\ (exists k, k < length up /\ p = path_of (rev (drop k up)))%nat /\
  (t !! p = Some FileEngine.Folder -> FileEngine.names_in p t' = []).

Lemma Remove_effect fault p t t1 : Remove fault p t = Some t1 -> t1 = delete p t /\ (t !! p = Some FileEngine.Folder -> FileEngine.names_in p t = []).
Proof.
  unfold Remove. destruct (fault p); [done|]. destruct (t !! p) as [[c|]|]; [intros [= <-]; done| |done].
  destruct (FileEngine.names_in p t); [intros [= <-]; done|done].
Qed.

Lemma reap_parents_spec fault wtRoot up t :
  let t' := reap_parents fault wtRoot up t in
  t' ⊆ t /\ forall p, is_Some (t !! p) -> t' !! p = None -> reaped wtRoot up t t' p.
Proof.
  cbn zeta. revert t. induction up as [|x up IH]; intros t; cbn [reap_parents]; [split; [done|]; intros p [n Hn] H; congruence|].
  destruct (underRoot (path_of (rev (x :: up))) wtRoot) eqn:Hu; [|split; [done|]; intros p [n Hn] H; congruence].
  destruct (Remove fault (path_of (rev (x :: up))) t) as [t1|] eqn:Er; [|split; [done|]; intros p [n Hn] H; congruence].
  apply Remove_effect in Er as [-> He]. destruct (IH (delete (path_of (rev (x :: up))) t)) as [Hs Hp].
  assert (Hsub : reap_parents fault wtRoot up (delete (path_of (rev (x :: up))) t) ⊆ t) by (etrans; [exact Hs|apply delete_subseteq]).
  split; [done|]. intros p Hin Hno. destruct (decide (p = path_of (rev (x :: up)))) as [->|Hne].
  - split_and!; [done|exists 0%nat; cbn [length drop]; split; [lia|done]|]. intros Hf. eapply names_in_shrinks; [exact Hsub|by apply He].
  - destruct (Hp p) as (Hup & (k & Hk & Hkp) & Hf); [by rewrite lookup_delete_ne by done|done|].
    split_and!; [done|exists (S k); cbn [length drop]; split; [lia|done]|]. intros Hfo. apply Hf. by rewrite lookup_delete_ne by done.
Qed.

(** C0_exclude_exact: after the exclude file was updated, what it said before is
    still there, every brought-in path has its pattern, and no lines were added
    but the header and these patterns; and updating it again with the same
    paths changes nothing, provided that no pattern has a newline or ends in
    white space. *)
Theorem exclude_exact rels body (Hplain : Forall plain_pattern (anchoredPatterns rels)) :
  let body' := ensureRepoExcludes rels body in
  (exists s, body' = body +:+ s) /\
  (forall p, p ∈ anchoredPatterns rels -> p ∈ present body') /\
  (forall p, p ∈ present body' -> p ∈ present body \/ p = "" \/ p = excludeHeader \/ p ∈ anchoredPatterns rels) /\
  ensureRepoExcludes rels body' = body'.
Proof.
  cbn zeta. destruct (excludes_added body rels) as [s|] eqn:E.
  - replace (ensureRepoExcludes rels body) with (body +:+ s) by (unfold ensureRepoExcludes; by rewrite E). pose proof (excludes_lines _ _ _ E) as (l & -> & Hne & Hl & Hall & _).
    assert (Hpl : Forall plain_pattern l).
    { apply Forall_forall. intros p [->|Hp]%Hl; [apply header_plain|]. rewrite Forall_forall in Hplain. by apply Hplain. }
    pose proof (present_appended body l) as Hpres. rewrite trimmed_patterns in Hpres by done.
    assert (Hone : Forall (fun x => one_line x = true) l) by (eapply Forall_impl; [exact Hpl|]; by intros x [? _]).
    specialize (Hpres Hone Hne).
    assert (Hin : forall p, p ∈ anchoredPatterns rels -> p ∈ present (body +:+ open_line body +:+ join "" (map (fun p => p +:+ nl) l))).
    { intros p [Hp|Hp]%Hall; apply Hpres; auto. }
    split_and!; [by eexists|exact Hin| |].
    + intros p [?|[?|[?|?]%Hl]]%Hpres; auto.
    + by apply excludes_settled.
  - assert (Hin : forall p, p ∈ anchoredPatterns rels -> p ∈ present body).
    { intros p Hp. unfold excludes_added in E. destruct (unseen_spec (anchoredPatterns rels) (present body)) as [_ Hi].
      destruct (unseen (present body) (anchoredPatterns rels)) as [|q add] eqn:Eu; [|done].
      destruct (decide (p ∈ present body)) as [|Hno]; [done|]. exfalso.
      assert (Hnil : p ∈ @nil string) by by apply Hi. by apply not_elem_of_nil in Hnil. }
    replace (ensureRepoExcludes rels body) with body by (unfold ensureRepoExcludes; by rewrite E).
    split_and!; [exists ""; by rewrite str_app_nil_r|exact Hin|auto|by apply excludes_settled].
Qed.

Lemma exclude_exact_witness :
  ensureRepoExcludes ["./.env"; "node_modules/"; ".env"; "../up"] "*.log" =
    "*.log" +:+ nl +:+ excludeHeader +:+ nl +:+ "/.env" +:+ nl +:+ "/node_modules" +:+ nl /\
  ensureRepoExcludes [".env"] (ensureRepoExcludes [".env"] "*.log") = ensureRepoExcludes [".env"] "*.log".
Proof.
  split; [vm_compute; reflexivity|].
  refine (proj2 (proj2 (proj2 (exclude_exact [".env"] "*.log" _)))).
  assert (E : anchoredPatterns [".env"] = ["/.env"]) by (vm_compute; reflexivity).
  rewrite E. constructor; [split; vm_compute; reflexivity|constructor].
Defined.

(** a pattern that ends in a space is never found again, and is added each time *)
Example trailing_space_grows :
  let once := ensureRepoExcludes ["a "] "" in
  ensureRepoExcludes ["a "] once = once +:+ "/a " +:+ nl.
Proof. vm_compute. reflexivity. Qed.

(** an entry that leaves the repository is brought in beside the worktree *)
Example bring_in_escapes :
  brought_to "/r" "/r/.worktrees/a" "../shared" = "/r/.worktrees/shared" /\
  brought_to "/r" "/r/.worktrees/a" "./vendor//x" = "/r/.worktrees/a/vendor/x".
Proof. split; vm_compute; reflexivity. Qed.

(** C0_removal_confined: removing a worktree's tree adds nothing; all that goes
    lies strictly below the root of the worktrees, and is the worktree's
    directory or below it, or a directory above it that is then empty; what
    stands in the worktree goes unless something at or below it cannot be
    removed; and a path that is not below the root is not touched. *)
Theorem removal_confined fault wtPath wtRoot t :
  let t' := RemoveWorktreeTree fault wtPath wtRoot t in
  t' ⊆ t /\
  (forall p, is_Some (t !! p) -> t' !! p = None ->
     underRoot wtPath wtRoot = true /\
     (at_or_below wtPath p = true \/
      underRoot p wtRoot = true /\ (exists k, p = path_of (take (S k) (path_elements (Dir wtPath)))) /\
      (t !! p = Some FileEngine.Folder -> FileEngine.names_in p t' = []))) /\
  (forall p, underRoot wtPath wtRoot = true -> at_or_below wtPath p = true -> stuck fault t p = false -> t' !! p = None) /\
  (underRoot wtPath wtRoot = false -> t' = t).
Proof.
  cbn zeta. unfold RemoveWorktreeTree. destruct (underRoot wtPath wtRoot) eqn:Hu; cbn [negb];
    [|split_and!; [done| |done|done]; intros p [n Hn] H; congruence].
  set (up := rev (path_elements (Dir wtPath))).
  destruct (reap_parents_spec fault wtRoot up (RemoveAll fault wtPath t)) as [Hs Hr].
  pose proof (RemoveAll_shrinks fault wtPath t) as Ha.
  split_and!; [by etrans| | |done].
  - intros p [n Hn] Hno. split; [done|]. destruct (RemoveAll fault wtPath t !! p) as [m|] eqn:E.
    + right. destruct (Hr p) as (Hup & (k & Hk & Hp) & He); [by eexists|done|]. split_and!; [done| |].
      * exists (length up - S k)%nat. rewrite Hp. unfold up in *. rewrite length_rev in *. f_equal.
        rewrite skipn_rev, rev_involutive. f_equal. lia.
      * intros Hf. apply He. rewrite (lookup_weaken _ _ _ _ E Ha) in Hf. congruence.
    + left. by destruct (RemoveAll_kept _ _ _ _ _ Hn E).
  - intros p _ Hb Hst. apply (lookup_weaken_None _ (RemoveAll fault wtPath t)); [|done]. unfold RemoveAll. apply map_lookup_filter_None. right.
    intros n Hn. cbn [fst]. rewrite Hb, Hst. done.
Qed.

(** the worktree's copies go with the directory above it that they leave empty;
    a neighbour keeps its own directory *)
Lemma removal_confined_witness :
  let t : tree := list_to_map [("/r/.wt", FileEngine.Folder); ("/r/.wt/feat", FileEngine.Folder); ("/r/.wt/feat/a", FileEngine.Folder);
                               ("/r/.wt/feat/a/node_modules", FileEngine.File "x"); ("/r/.wt/b", FileEngine.Folder)] in
  RemoveWorktreeTree (fun _ => false) "/r/.wt/feat/a" "/r/.wt" t = list_to_map [("/r/.wt", FileEngine.Folder); ("/r/.wt/b", FileEngine.Folder)] /\
  RemoveWorktreeTree (fun _ => false) "/r/.wt/feat/a" "/r/.wt" t ⊆ t.
Proof.
  split; [vm_compute; reflexivity|].
  refine (proj1 (removal_confined (fun _ => false) "/r/.wt/feat/a" "/r/.wt" _)).
Defined.
