(* ===== verification/ConfigLoad.v ===== *)
(** * Layers of configuration files

    [LoadGlobal], [LoadLayered], [LoadLayeredForWorktree] and [mergeYAMLFile] of
    [internal/config/config.go]: the user's file, the repository's, its local
    one, those of the directories down to the worktree and the worktree's own
    are decoded over each other, each after the files it includes.  YAML is
    decoded by a library, which the model takes as an argument. *)
From stdpp Require Import base strings list gmap relations.
From Stdlib Require Import ZArith Lia.
From S2P Require Import Prelude GoStrings Lines Paths.
From S2P Require ConfigValid.
#[local] Open Scope treeman_scope.

(** ** Files *)
Record Files := { bodies : gmap string string; unreadable : gset string }.
Inductive reading := NoFile | ReadFault | Body (b : string).
(** [os.ReadFile] *)
Definition ReadFile (fs : Files) (p : string) : reading :=
  if bool_decide (p ∈ unreadable fs) then ReadFault
  else match bodies fs !! p with Some b => Body b | None => NoFile end.

Inductive load_error :=
| ReadFailed (p : string) | ParseIncludes (p : string) | ParseFailed (p : string) | IncludeCycle (inc : string)
| Misplaced (p key : string) | ExplicitMissing (p : string) | ConfigInvalid (e : ConfigValid.errors) | OutOfFuel.

(** ** The configuration and its defaults *)
Record StatusBuckets := { Stable : string; Up : string; Down : string; Failed : string }.
Record StatusConfig := {
  Icons : StatusBuckets; Labels : StatusBuckets; Separator : string; Header : string; Row : string; MainMarker : string
}.

(** [config.Config]: the part that is checked, and the settings with a default;
    [eventsNil] when the [events:] of the notifications were never given *)
Record Config := {
  checked : ConfigValid.Config;
  eventsNil : bool;
  LogLevel : string;
  Root : string;
  CapPerRepo : Z; KeepPerSource : Z; MaxAgeDays : Z; MaxTotalGb : Z; GcIntervalMinutes : Z;
  DebounceMs : Z;
  DurablesMaxAgeDays : Z;
  IntervalMinutes : Z;
  KeepDays : Z;
  Status : StatusConfig
}.

Definition or_str (s d : string) : string := if String.eqb s "" then d else s.
Definition or_num (z d : Z) : Z := if (z =? 0)%Z then d else z.

Definition or_buckets (b d : StatusBuckets) : StatusBuckets :=
  {| Stable := or_str (Stable b) (Stable d); Up := or_str (Up b) (Up d);
     Down := or_str (Down b) (Down d); Failed := or_str (Failed b) (Failed d) |}.

(** the glyphs are Go escapes; [U+F14CF] and the like in UTF-8 *)
Definition glyph (last : nat) : string :=
  String (Ascii.ascii_of_nat 243) (String (Ascii.ascii_of_nat 177) (String (Ascii.ascii_of_nat 147) (String (Ascii.ascii_of_nat last) EmptyString))).
Definition star : string :=
  String (Ascii.ascii_of_nat 226) (String (Ascii.ascii_of_nat 152) (String (Ascii.ascii_of_nat 133) " ")).

Definition applyStatusDefaults (s : StatusConfig) : StatusConfig :=
  {| Separator := or_str (Separator s) " | ";
     Header := or_str (Header s) "{repo}  ({total})";
     Row := or_str (Row s) "  {main}{branch}{state_suffix}";
     MainMarker := or_str (MainMarker s) star;
     Labels := or_buckets (Labels s) {| Stable := "stable"; Up := "up"; Down := "down"; Failed := "failed" |};
     Icons := or_buckets (Icons s) {| Stable := glyph 143; Up := glyph 138; Down := glyph 139; Failed := glyph 140 |} |}.

Definition default_events (c : ConfigValid.Config) : ConfigValid.Config :=
  {| ConfigValid.Connections := ConfigValid.Connections c; ConfigValid.Databases_ := ConfigValid.Databases_ c;
     ConfigValid.mainEnabled := ConfigValid.mainEnabled c; ConfigValid.mainDatabases := ConfigValid.mainDatabases c;
     ConfigValid.PortSlots := ConfigValid.PortSlots c; ConfigValid.Patches := ConfigValid.Patches c;
     ConfigValid.Events := ["stable"; "failed"]; ConfigValid.Backend := ConfigValid.Backend c |}.

Definition applyDefaults (c : Config) : Config :=
  {| checked := if eventsNil c then default_events (checked c) else checked c;
     eventsNil := false;
     LogLevel := or_str (LogLevel c) "info";
     Root := or_str (Root c) ".worktrees";
     CapPerRepo := or_num (CapPerRepo c) 8;
     KeepPerSource := or_num (KeepPerSource c) 500;
     MaxAgeDays := or_num (MaxAgeDays c) 30;
     MaxTotalGb := or_num (MaxTotalGb c) 50;
     GcIntervalMinutes := or_num (GcIntervalMinutes c) 60;
     DebounceMs := or_num (DebounceMs c) 500;
     DurablesMaxAgeDays := or_num (DurablesMaxAgeDays c) 30;
     IntervalMinutes := or_num (IntervalMinutes c) 15;
     KeepDays := or_num (KeepDays c) 14;
     Status := applyStatusDefaults (Status c) |}.

Definition no_buckets : StatusBuckets := {| Stable := ""; Up := ""; Down := ""; Failed := "" |}.
(** the zero value *)
Definition zeroConfig : Config :=
  {| checked :=
       {| ConfigValid.Connections :=
            {| ConfigValid.Mysql := None; ConfigValid.MysqlNamed := ∅; ConfigValid.Postgres := None; ConfigValid.PostgresNamed := ∅;
               ConfigValid.Mongodb := None; ConfigValid.MongodbNamed := ∅; ConfigValid.Redis := None; ConfigValid.RedisNamed := ∅;
               ConfigValid.Elasticsearch := None; ConfigValid.ElasticsearchNamed := ∅; ConfigValid.S3 := None;
               ConfigValid.S3Named := ∅; ConfigValid.Sqlite := None; ConfigValid.SqliteNamed := ∅ |};
          ConfigValid.Databases_ := []; ConfigValid.mainEnabled := false; ConfigValid.mainDatabases := [];
          ConfigValid.PortSlots := ∅; ConfigValid.Patches := []; ConfigValid.Events := []; ConfigValid.Backend := "" |};
     eventsNil := true; LogLevel := ""; Root := ""; CapPerRepo := 0; KeepPerSource := 0; MaxAgeDays := 0; MaxTotalGb := 0;
     GcIntervalMinutes := 0; DebounceMs := 0; DurablesMaxAgeDays := 0; IntervalMinutes := 0; KeepDays := 0;
     Status := {| Icons := no_buckets; Labels := no_buckets; Separator := ""; Header := ""; Row := ""; MainMarker := "" |} |}.

(** the decoder of the library: the [include:] of a body, its keys at the top
    when it is a mapping, and the body decoded into a configuration, which may
    leave it changed when it fails *)
Class Yaml := {
  includes : string -> option (list string);
  top_keys : string -> list string;
  decode : string -> Config -> Config * bool
}.

(** ** Where a key belongs *)
(** [FieldScopes]: the [scope] tags of [Config] *)
Definition FieldScopes : list (string * string) :=
  [("include", "both"); ("daemon", "global"); ("connections", "both"); ("snapshots", "global"); ("durables", "both");
   ("worktrees", "both"); ("env_sources", "repo"); ("patches", "repo"); ("databases", "repo"); ("hooks", "repo");
   ("debounce_ms", "both"); ("frameworks", "both"); ("logs", "global"); ("auto_fetch", "both"); ("main_worktree", "repo");
   ("ports", "both"); ("status", "global"); ("notifications", "global")].

Definition scope_of (key : string) : string :=
  match List.find (fun kv => String.eqb kv.1 key) FieldScopes with Some kv => kv.2 | None => "" end.
Definition otherLayer (layer : string) : string := if String.eqb layer "global" then "repo" else "global".
(** [CheckKeyInLayer]: whether a key may stand in a layer *)
Definition CheckKeyInLayer (key layer : string) : bool := negb (String.eqb (scope_of key) (otherLayer layer)).

Definition blank (b : string) : bool := String.eqb (TrimSpace b) "".

Section Load.
Context `{yaml : Yaml} (fs : Files).

Definition checkScopeBytes (b label layer : string) : option load_error :=
  if blank b then None
  else match List.find (fun k => negb (CheckKeyInLayer k layer)) (top_keys b) with
       | Some k => Some (Misplaced label k)
       | None => None
       end.

Definition checkLayerScope (p layer : string) : option load_error :=
  match ReadFile fs p with
  | NoFile => None
  | ReadFault => Some (ReadFailed p)
  | Body b => checkScopeBytes b p layer
  end.

(** ** One file and what it includes *)
Definition resolve (p inc : string) : string :=
  path_clean (if is_abs inc then inc else path_join (Dir p) inc).

(** the files of [include:], one after the other, up to the first error *)
Fixpoint merge_includes (merge : list string -> string -> Config -> Config * option load_error)
    (seen : list string) (p : string) (incs : list string) (cfg : Config) : Config * option load_error :=
  match incs with
  | [] => (cfg, None)
  | i :: incs =>
      let inc := resolve p i in
      if bool_decide (inc ∈ seen) then (cfg, Some (IncludeCycle inc))
      else match merge (seen ++ [inc]) inc cfg with
           | (cfg, Some e) => (cfg, Some e)
           | (cfg, None) => merge_includes merge seen p incs cfg
           end
  end.

Fixpoint mergeYAMLFile (fuel : nat) (seen : list string) (p : string) (cfg : Config) : Config * option load_error :=
  match fuel with
  | 0%nat => (cfg, Some OutOfFuel)
  | S fuel =>
      match ReadFile fs p with
      | NoFile => (cfg, None)
      | ReadFault => (cfg, Some (ReadFailed p))
      | Body b =>
          if blank b then (cfg, None)
          else match includes b with
               | None => (cfg, Some (ParseIncludes p))
               | Some incs =>
                   match merge_includes (mergeYAMLFile fuel) seen p incs cfg with
                   | (cfg, Some e) => (cfg, Some e)
                   | (cfg, None) => let '(cfg, ok) := decode b cfg in (cfg, if ok then None else Some (ParseFailed p))
                   end
               end
      end
  end.

(** a chain of includes is as long as there are files, and one more *)
Definition fuel_of : nat := S (S (size (bodies fs))).
Definition merge_file (p : string) (cfg : Config) : Config * option load_error := mergeYAMLFile fuel_of [] p cfg.

(** ** The layers *)
(** [explicit] is [explicitGlobalConfigPath], [""] when there is none; [xdg]
    and [home] are the environment *)
Record Environ := { explicit : string; xdg : string; home : option string }.
Definition globalConfigPath (e : Environ) : option string :=
  if negb (String.eqb (explicit e) "") then Some (explicit e)
  else base ← (if String.eqb (xdg e) "" then h ← home e; Some (path_join h ".config") else Some (xdg e));
       Some (path_join base "treeman/config.yaml").

(** [os.Stat], which finds a file that it cannot read *)
Definition present (p : string) : bool := match ReadFile fs p with NoFile => false | _ => true end.

Definition LoadGlobal (e : Environ) : Config * option load_error :=
  let cfg := applyDefaults zeroConfig in
  match globalConfigPath e with
  | None => (cfg, None)
  | Some g =>
      let scope := if String.eqb (explicit e) "" then checkLayerScope g "global"
                   else if present g then None else Some (ExplicitMissing g) in
      match scope with Some err => (cfg, Some err) | None => merge_file g cfg end
  end.

(** the loop over the files of the repository *)
Fixpoint merge_layers (files : list string) (cfg : Config) : Config * option load_error :=
  match files with
  | [] => (cfg, None)
  | p :: files =>
      match checkLayerScope p "repo" with
      | Some e => (cfg, Some e)
      | None => match merge_file p cfg with
                | (cfg, Some e) => (cfg, Some e)
                | (cfg, None) => merge_layers files cfg
                end
      end
  end.

(** [None] is the panic of [Validate] *)
Definition validated (cfg : Config) : option (Config * option load_error) :=
  errs ← ConfigValid.Validate (checked cfg);
  Some (cfg, match errs with [] => None | _ => Some (ConfigInvalid errs) end).

Definition load_over (e : Environ) (files : list string) : option (Config * option load_error) :=
  match LoadGlobal e with
  | (cfg, Some err) => Some (cfg, Some err)
  | (cfg, None) =>
      match merge_layers files cfg with
      | (cfg, Some err) => Some (cfg, Some err)
      | (cfg, None) => validated cfg
      end
  end.

Definition repo_files (root : string) : list string :=
  [path_join root ".treeman.yaml"; path_join root ".treeman.local.yaml"].

Definition LoadLayered (e : Environ) (repoRoot : string) : option (Config * option load_error) :=
  load_over e (if String.eqb repoRoot "" then [] else repo_files repoRoot).

(** the loop of [fragmentPaths] *)
Fixpoint descend (cur : string) (parts : list string) : list string :=
  match parts with
  | [] => []
  | part :: parts => let cur := path_join cur part in path_join cur ".treeman.yaml" :: descend cur parts
  end.

Definition fragmentPaths (mainRoot wtRoot : string) : list string :=
  if String.eqb mainRoot "" || String.eqb wtRoot "" || String.eqb wtRoot mainRoot then []
  else let rel := Rel mainRoot wtRoot in
       if String.eqb rel "." || String.eqb rel ".." || has_prefix "../" rel then []
       else descend mainRoot (split_byte "/" rel).

Definition worktree_files (mainRoot wtRoot : string) : list string :=
  repo_files mainRoot ++ fragmentPaths mainRoot wtRoot ++
  (if negb (String.eqb wtRoot "") && negb (String.eqb wtRoot mainRoot) then [path_join wtRoot ".treeman.local.yaml"] else []).

Definition LoadLayeredForWorktree (e : Environ) (mainRoot wtRoot : string) : option (Config * option load_error) :=
  load_over e (worktree_files mainRoot wtRoot).
End Load.

(** ** What is decoded, in order *)
Section Parts.
Context `{yaml : Yaml} (fs : Files).

(** bodies with their paths, and the error that ended them *)
Definition parts : Type := list (string * string) * option load_error.

Fixpoint expand_includes (expand : list string -> string -> parts) (seen : list string) (p : string) (incs : list string) : parts :=
  match incs with
  | [] => ([], None)
  | i :: incs =>
      let inc := resolve p i in
      if bool_decide (inc ∈ seen) then ([], Some (IncludeCycle inc))
      else match expand (seen ++ [inc]) inc with
           | (l, Some e) => (l, Some e)
           | (l, None) => let '(l', e) := expand_includes expand seen p incs in (l ++ l', e)
           end
  end.

Fixpoint expand (fuel : nat) (seen : list string) (p : string) : parts :=
  match fuel with
  | 0%nat => ([], Some OutOfFuel)
  | S fuel =>
      match ReadFile fs p with
      | NoFile => ([], None)
      | ReadFault => ([], Some (ReadFailed p))
      | Body b =>
          if blank b then ([], None)
          else match includes b with
               | None => ([], Some (ParseIncludes p))
               | Some incs =>
                   match expand_includes (expand fuel) seen p incs with
                   | (l, Some e) => (l, Some e)
                   | (l, None) => (l ++ [(p, b)], None)
                   end
               end
      end
  end.

Fixpoint decode_all (l : list (string * string)) (cfg : Config) : Config * option load_error :=
  match l with
  | [] => (cfg, None)
  | (p, b) :: l => match decode b cfg with (cfg, true) => decode_all l cfg | (cfg, false) => (cfg, Some (ParseFailed p)) end
  end.

Definition decode_parts (ps : parts) (cfg : Config) : Config * option load_error :=
  match decode_all ps.1 cfg with (cfg, Some e) => (cfg, Some e) | (cfg, None) => (cfg, ps.2) end.

(** [q] includes [c] *)
Definition includes_file (q c : string) : Prop :=
  exists b incs i, ReadFile fs q = Body b /\ blank b = false /\ includes b = Some incs /\ i ∈ incs /\ c = resolve q i.

(** *** Lemmas: a merge decodes the parts *)
Lemma decode_all_app l l' cfg :
  decode_all (l ++ l') cfg = match decode_all l cfg with (c, Some e) => (c, Some e) | (c, None) => decode_all l' c end.
Proof.
  revert cfg. induction l as [|[p b] l IH]; intros cfg; [done|]. cbn [app decode_all].
  by destruct (decode b cfg) as [c [|]].
Qed.

Lemma decode_parts_app l l' e cfg :
  decode_parts (l ++ l', e) cfg = match decode_all l cfg with (c, Some x) => (c, Some x) | (c, None) => decode_parts (l', e) c end.
Proof. unfold decode_parts. cbn [fst snd]. rewrite decode_all_app. by destruct (decode_all l cfg) as [c [x|]]. Qed.

Lemma merge_includes_parts merge exp seen p incs cfg :
  (forall s q c, merge s q c = decode_parts (exp s q) c) ->
  merge_includes merge seen p incs cfg = decode_parts (expand_includes exp seen p incs) cfg.
Proof.
  intros H. revert cfg. induction incs as [|i incs IH]; intros cfg; [done|]. cbn [merge_includes expand_includes].
  destruct (bool_decide _); [done|]. rewrite H. unfold decode_parts at 1.
  destruct (exp _ _) as [l [e|]]; cbn [fst snd].
  - unfold decode_parts. cbn [fst snd]. by destruct (decode_all l cfg) as [c [x|]].
  - destruct (expand_includes exp seen p incs) as [l' e'] eqn:E. rewrite decode_parts_app.
    destruct (decode_all l cfg) as [c [x|]]; [done|]. apply IH.
Qed.

Lemma merge_parts fuel seen p cfg : mergeYAMLFile fs fuel seen p cfg = decode_parts (expand fuel seen p) cfg.
Proof.
  revert seen p cfg. induction fuel as [|fuel IH]; intros seen p cfg; [done|]. cbn [mergeYAMLFile expand].
  destruct (ReadFile fs p) as [| |b]; [done..|]. destruct (blank b); [done|]. destruct (includes b) as [incs|]; [|done].
  rewrite (merge_includes_parts _ (expand fuel)) by exact IH. unfold decode_parts at 1.
  destruct (expand_includes _ _ _ _) as [l [e|]]; cbn [fst snd].
  - unfold decode_parts. cbn [fst snd]. by destruct (decode_all l cfg) as [c [x|]].
  - rewrite decode_parts_app. destruct (decode_all l cfg) as [c [x|]]; [done|]. unfold decode_parts. cbn.
    by destruct (decode b c) as [c' [|]].
Qed.

Lemma decode_all_error l cfg c e : decode_all l cfg = (c, Some e) -> exists p, e = ParseFailed p.
Proof.
  revert cfg. induction l as [|[p b] l IH]; intros cfg; [done|]. cbn [decode_all].
  destruct (decode b cfg) as [c' [|]]; [apply IH|]. intros [= <- <-]. by exists p.
Qed.

Lemma merge_error fuel seen p cfg e :
  (mergeYAMLFile fs fuel seen p cfg).2 = Some e -> (exists q, e = ParseFailed q) \/ (expand fuel seen p).2 = Some e.
Proof.
  rewrite merge_parts. unfold decode_parts. destruct (decode_all _ _) as [c [x|]] eqn:E; cbn [snd]; [|auto].
  intros [= ->]. left. by eapply decode_all_error.
Qed.

Lemma merge_done fuel seen p cfg : (mergeYAMLFile fs fuel seen p cfg).2 = None -> (expand fuel seen p).2 = None.
Proof. rewrite merge_parts. unfold decode_parts. by destruct (decode_all _ _) as [c [x|]]. Qed.

(** *** Lemmas: what an expansion went through *)
Lemma expand_includes_error exp seen p incs l e :
  expand_includes exp seen p incs = (l, Some e) ->
  exists i, i ∈ incs /\ ((resolve p i ∈ seen /\ e = IncludeCycle (resolve p i)) \/
                         (resolve p i ∉ seen /\ (exp (seen ++ [resolve p i]) (resolve p i)).2 = Some e)).
Proof.
  revert l. induction incs as [|i incs IH]; intros l; [done|]. cbn [expand_includes].
  case_bool_decide as Hs; [intros [= <- <-]; exists i; split; [left|by left]|].
  destruct (exp _ _) as [l1 [e1|]] eqn:E.
  - intros [= <- <-]. exists i. split; [left|]. right. by rewrite E.
  - destruct (expand_includes exp seen p incs) as [l2 e2] eqn:E2. intros [= <- ->].
    destruct (IH _ eq_refl) as (j & Hj & ?). exists j. split; [by right|done].
Qed.

Lemma expand_includes_ok exp seen p incs l i :
  expand_includes exp seen p incs = (l, None) -> i ∈ incs ->
  resolve p i ∉ seen /\ (exp (seen ++ [resolve p i]) (resolve p i)).2 = None.
Proof.
  revert l. induction incs as [|j incs IH]; intros l Hl Hi; [by apply not_elem_of_nil in Hi|]. cbn [expand_includes] in Hl.
  case_bool_decide as Hs; [done|]. destruct (exp (seen ++ [resolve p j]) (resolve p j)) as [l1 [e1|]] eqn:E; [done|].
  destruct (expand_includes exp seen p incs) as [l2 e2] eqn:E2. injection Hl as <- ->.
  apply elem_of_cons in Hi as [->|Hi]; [split; [done|by rewrite E]|]. by eapply IH.
Qed.

Lemma expand_error fuel seen p l e :
  expand (S fuel) seen p = (l, Some e) -> e <> ReadFailed p -> e <> ParseIncludes p ->
  exists c, includes_file p c /\ ((c ∈ seen /\ e = IncludeCycle c) \/ (c ∉ seen /\ (expand fuel (seen ++ [c]) c).2 = Some e)).
Proof.
  cbn [expand]. destruct (ReadFile fs p) as [| |b] eqn:Er; [done|by intros [= <- <-]|]. destruct (blank b) eqn:Eb; [done|].
  destruct (includes b) as [incs|] eqn:Ei; [|by intros [= <- <-]].
  destruct (expand_includes _ _ _ _) as [l1 [e1|]] eqn:E; [|done]. intros [= <- <-] _ _.
  destruct (expand_includes_error _ _ _ _ _ _ E) as (i & Hi & H). exists (resolve p i). split; [by exists b, incs, i|done].
Qed.

Lemma expand_ok fuel seen p c :
  (expand (S fuel) seen p).2 = None -> includes_file p c -> c ∉ seen /\ (expand fuel (seen ++ [c]) c).2 = None.
Proof.
  intros H (b & incs & i & Er & Eb & Ei & Hi & ->). cbn [expand] in H. rewrite Er, Eb, Ei in H.
  destruct (expand_includes _ _ _ _) as [l [e|]] eqn:E; [done|]. by eapply expand_includes_ok.
Qed.

Lemma expand_cycle root fuel seen p inc :
  rtc includes_file root p -> (forall s, s ∈ seen -> rtc includes_file s p) ->
  (expand fuel seen p).2 = Some (IncludeCycle inc) -> rtc includes_file root inc /\ tc includes_file inc inc.
Proof.
  revert seen p. induction fuel as [|fuel IH]; intros seen p Hr Hs; [done|].
  destruct (expand (S fuel) seen p) as [l e] eqn:E. cbn [snd]. intros ->.
  destruct (expand_error _ _ _ _ _ E) as (c & Hc & [[Hi Heq]|[_ H]]); [done..| |].
  - injection Heq as ->. split; [by eapply rtc_r|]. eapply tc_rtc_l; [by apply Hs|by apply tc_once].
  - eapply IH; [by eapply rtc_r| |exact H]. intros s [Hi| ->%list_elem_of_singleton]%elem_of_app; [eapply rtc_r; eauto|done].
Qed.

Lemma expand_depth fuel seen p n q :
  (expand fuel seen p).2 = None -> nsteps includes_file n p q -> (n < fuel)%nat.
Proof.
  revert seen p n. induction fuel as [|fuel IH]; intros seen p n H Hn; [done|].
  inversion Hn as [|? ? c ? Hc Hn']; subst; [lia|].
  destruct (expand_ok _ _ _ _ H Hc) as [_ H']. assert (n0 < fuel)%nat by by eapply IH. lia.
Qed.

Lemma cycle_steps q k : tc includes_file q q -> exists n, (k <= n)%nat /\ nsteps includes_file n q q.
Proof.
  intros H. induction k as [|k (n & Hn & IH)]; [exists 0%nat; split; [lia|constructor]|].
  apply tc_nsteps in H as (m & Hm & H). exists (m + n)%nat. split; [lia|by eapply nsteps_trans].
Qed.

Lemma expand_acyclic fuel p q :
  (expand fuel [] p).2 = None -> rtc includes_file p q -> ~ tc includes_file q q.
Proof.
  intros H Hq Hc. apply rtc_nsteps in Hq as [n Hq]. destruct (cycle_steps q fuel Hc) as (m & Hm & Hs).
  pose proof (expand_depth _ _ _ _ _ H (nsteps_trans _ _ _ _ _ Hq Hs)). lia.
Qed.

(** *** Lemmas: the fuel *)
Lemma chain_length (seen : list string) p :
  NoDup seen -> (forall s, s ∈ seen -> s <> p -> s ∈ dom (bodies fs)) -> (length seen <= S (size (bodies fs)))%nat.
Proof.
  intros Hn Hs. rewrite <- (size_list_to_set (C := gset string) seen) by done.
  trans (size (dom (bodies fs) ∪ {[p]} : gset string)).
  - apply subseteq_size. intros s Hi%elem_of_list_to_set. destruct (decide (s = p)) as [->|]; [set_solver|].
    apply elem_of_union_l. by apply Hs.
  - rewrite size_union_alt, size_dom. enough (size ({[p]} ∖ dom (bodies fs) : gset string) <= size ({[p]} : gset string))%nat.
    { rewrite size_singleton in H. lia. }
    apply subseteq_size. set_solver.
Qed.

Lemma read_body p b : ReadFile fs p = Body b -> p ∈ dom (bodies fs).
Proof. unfold ReadFile. case_bool_decide; [done|]. intros H'. apply elem_of_dom. destruct (bodies fs !! p) eqn:E; [by eexists|done]. Qed.

Lemma expand_fuel fuel seen p :
  NoDup seen -> (forall s, s ∈ seen -> s <> p -> s ∈ dom (bodies fs)) -> (size (bodies fs) + 2 <= fuel + length seen)%nat ->
  (expand fuel seen p).2 <> Some OutOfFuel.
Proof.
  revert seen p. induction fuel as [|fuel IH]; intros seen p Hn Hs Hl.
  { pose proof (chain_length _ _ Hn Hs). lia. }
  destruct (expand (S fuel) seen p) as [l e] eqn:E. cbn [snd]. intros ->.
  destruct (expand_error _ _ _ _ _ E) as (c & Hc & [[_ Heq]|[Hi H]]); [done..|].
  eapply IH; [| | |exact H].
  - apply NoDup_app. split; [done|]. split; [by intros x Hx ->%list_elem_of_singleton|apply NoDup_singleton].
  - intros s [Hx| ->%list_elem_of_singleton]%elem_of_app Hne; [|done].
    destruct Hc as (b & incs & i & Er & _). destruct (decide (s = p)) as [->|]; [by eapply read_body|by apply Hs].
  - rewrite length_app. cbn. lia.
Qed.

Lemma expand_includes_more exp exp' seen p incs :
  (forall s q, (exp s q).2 <> Some OutOfFuel -> exp' s q = exp s q) ->
  (expand_includes exp seen p incs).2 <> Some OutOfFuel -> expand_includes exp' seen p incs = expand_includes exp seen p incs.
Proof.
  intros H. induction incs as [|i incs IH]; [done|]. cbn [expand_includes]. case_bool_decide; [done|].
  destruct (exp _ _) as [l [e|]] eqn:E; cbn [snd].
  - intros He. rewrite H; rewrite E; done.
  - rewrite H by by rewrite E. rewrite E. destruct (expand_includes exp seen p incs) as [l' e'] eqn:E'. cbn [snd] in *.
    intros He. by rewrite IH.
Qed.

Lemma expand_more fuel seen p : (expand fuel seen p).2 <> Some OutOfFuel -> expand (S fuel) seen p = expand fuel seen p.
Proof.
  revert seen p. induction fuel as [|fuel IH]; intros seen p; [done|].
  change (expand (S (S fuel)) seen p) with
    (match ReadFile fs p with
     | NoFile => ([], None) | ReadFault => ([], Some (ReadFailed p))
     | Body b => if blank b then ([], None)
                 else match includes b with
                      | None => ([], Some (ParseIncludes p))
                      | Some incs => match expand_includes (expand (S fuel)) seen p incs with
                                     | (l, Some e) => (l, Some e) | (l, None) => (l ++ [(p, b)], None) end
                      end
     end).
  cbn [expand]. destruct (ReadFile fs p) as [| |b]; [done..|]. destruct (blank b); [done|]. destruct (includes b) as [incs|]; [|done].
  intros H. rewrite (expand_includes_more (expand fuel)); [done|exact IH|].
  by destruct (expand_includes (expand fuel) seen p incs) as [l [e|]].
Qed.

Lemma expand_enough fuel p : (fuel_of fs <= fuel)%nat -> expand fuel [] p = expand (fuel_of fs) [] p.
Proof.
  assert (Hf : forall k, (expand (k + fuel_of fs) [] p).2 <> Some OutOfFuel).
  { intros k. apply expand_fuel; [constructor|by intros s ?%not_elem_of_nil|]. unfold fuel_of. cbn. lia. }
  intros H. replace fuel with ((fuel - fuel_of fs) + fuel_of fs)%nat by lia. generalize (fuel - fuel_of fs)%nat as k.
  induction k as [|k IH]; [done|]. cbn [Nat.add]. rewrite expand_more by apply Hf. done.
Qed.
End Parts.

(** ** Properties: includes *)
Section Includes.
Context `{yaml : Yaml} (fs : Files).

(** C30: C0_merge_terminates: reading a configuration file with its includes ends:
    a chain of includes is no longer than the number of files and one more, so
    that the fuel is never used up and more of it changes nothing, whatever the
    files include, themselves too. *)
Theorem merge_terminates fuel p cfg :
  (fuel_of fs <= fuel)%nat ->
  mergeYAMLFile fs fuel [] p cfg = merge_file fs p cfg /\ (merge_file fs p cfg).2 <> Some OutOfFuel.
Proof.
  intros Hf. unfold merge_file. split; [by rewrite !merge_parts, expand_enough|].
  intros He. apply merge_error in He as [[q [=]]|He]. revert He.
  apply expand_fuel; [constructor|by intros s ?%not_elem_of_nil|]. unfold fuel_of. cbn. lia.
Qed.

(** C0_include_cycles: the include cycle that is reported is one, reached from
    the file that is read; and when a file is read without an error, no file
    reached from it includes itself, directly or through others - a file that
    is included twice along different paths is not an error. *)
Theorem include_cycles p cfg :
  (forall inc, (merge_file fs p cfg).2 = Some (IncludeCycle inc) ->
     rtc (includes_file fs) p inc /\ tc (includes_file fs) inc inc) /\
  ((merge_file fs p cfg).2 = None -> forall q, rtc (includes_file fs) p q -> ~ tc (includes_file fs) q q).
Proof.
  unfold merge_file. split.
  - intros inc He. apply merge_error in He as [[q [=]]|He].
    eapply expand_cycle; [constructor|by intros s ?%not_elem_of_nil|exact He].
  - intros Hd q Hq. eapply expand_acyclic; [by eapply merge_done|done].
Qed.
End Includes.

(** ** The layers *)
Section Layers.
Context `{yaml : Yaml} (fs : Files).

(** the parts of a layer that may be read *)
Definition layer_parts (layer p : string) (l : list (string * string)) : Prop :=
  checkLayerScope fs p layer = None /\ expand fs (fuel_of fs) [] p = (l, None).

Definition global_parts (e : Environ) (l : list (string * string)) : Prop :=
  match globalConfigPath e with
  | None => l = []
  | Some g => if String.eqb (explicit e) "" then layer_parts "global" g l
              else present fs g = true /\ expand fs (fuel_of fs) [] g = (l, None)
  end.

Lemma merge_file_ok p cfg cfg' :
  merge_file fs p cfg = (cfg', None) <-> exists l, expand fs (fuel_of fs) [] p = (l, None) /\ decode_all l cfg = (cfg', None).
Proof.
  unfold merge_file. rewrite merge_parts. unfold decode_parts. destruct (expand _ _ _ _) as [l e]. cbn [fst snd]. split.
  - destruct (decode_all l cfg) as [c [x|]] eqn:E; [done|]. intros [= -> ->]. by exists l.
  - intros (l' & [= -> ->] & ->). done.
Qed.

Lemma merge_layers_ok files cfg cfg' :
  merge_layers fs files cfg = (cfg', None) <->
  exists ls, Forall2 (layer_parts "repo") files ls /\ decode_all (concat ls) cfg = (cfg', None).
Proof.
  revert cfg. induction files as [|p files IH]; intros cfg; cbn [merge_layers].
  - split; [intros [= ->]; by exists []|]. intros (ls & ->%Forall2_nil_inv_l & H). exact H.
  - split.
    + destruct (checkLayerScope fs p "repo") eqn:Es; [done|]. destruct (merge_file fs p cfg) as [c [x|]] eqn:Em; [done|].
      intros (ls & Hls & Hd)%IH. apply merge_file_ok in Em as (l & He & Hl). exists (l :: ls). split; [by constructor|].
      cbn [concat]. by rewrite decode_all_app, Hl.
    + intros (ls & H & Hd). apply Forall2_cons_inv_l in H as (l & ls' & [Hs He] & Hls & ->). rewrite Hs. cbn [concat] in Hd.
      rewrite decode_all_app in Hd. destruct (decode_all l cfg) as [c [x|]] eqn:E; [done|].
      rewrite (proj2 (merge_file_ok p cfg c)) by by exists l. apply IH. by exists ls'.
Qed.

Lemma LoadGlobal_ok e cfg :
  LoadGlobal fs e = (cfg, None) <-> exists l, global_parts e l /\ decode_all l (applyDefaults zeroConfig) = (cfg, None).
Proof.
  unfold LoadGlobal, global_parts. destruct (globalConfigPath e) as [g|]; cbv zeta.
  2:{ split; [intros [= ->]; by exists []|by intros (l & -> & H)]. }
  destruct (String.eqb _ _).
  - unfold layer_parts. destruct (checkLayerScope fs g "global"); [by split; [|intros (? & [[=] _] & _)]|].
    rewrite merge_file_ok. split; [intros (l & ? & ?); by exists l|intros (l & [_ ?] & ?); by exists l].
  - destruct (present fs g); [|by split; [|intros (? & [[=] _] & _)]]. rewrite merge_file_ok. split; [intros (l & ? & ?); by exists l|intros (l & [_ ?] & ?); by exists l].
Qed.

Lemma load_over_ok e files cfg :
  load_over fs e files = Some (cfg, None) <->
  exists l0 ls, global_parts e l0 /\ Forall2 (layer_parts "repo") files ls /\
    decode_all (l0 ++ concat ls) (applyDefaults zeroConfig) = (cfg, None) /\ ConfigValid.Validate (checked cfg) = Some [].
Proof.
  unfold load_over, validated. split.
  - destruct (LoadGlobal fs e) as [c0 [x|]] eqn:Eg; [done|]. destruct (merge_layers fs files c0) as [c [x|]] eqn:Em; [done|].
    destruct (ConfigValid.Validate (checked c)) as [[|? ?]|] eqn:Ev; [|done..]. intros [= <-].
    apply LoadGlobal_ok in Eg as (l0 & Hg & H0). apply merge_layers_ok in Em as (ls & Hls & Hd).
    exists l0, ls. by rewrite decode_all_app, H0.
  - intros (l0 & ls & Hg & Hls & Hd & Hv). rewrite decode_all_app in Hd.
    destruct (decode_all l0 _) as [c0 [x|]] eqn:E0; [done|].
    rewrite (proj2 (LoadGlobal_ok e c0)) by by exists l0. rewrite (proj2 (merge_layers_ok files c0 cfg)) by by exists ls.
    by rewrite Hv.
Qed.

(** C10: C0_LoadLayeredForWorktree_exact: a worktree's configuration loads exactly
    when every file of the layers reads, with what it includes, and has its
    keys in their layer, every body decodes, and the outcome is valid; it is
    then the defaults with the bodies decoded over them in this order: the
    user's file, the repository's and its local one, the fragments from the
    outer directory to the inner one, the worktree's local file, each after
    the files that it includes.  The main worktree, or none, gets what the
    repository gets. *)
Theorem LoadLayeredForWorktree_exact e mainRoot wtRoot cfg :
  (LoadLayeredForWorktree fs e mainRoot wtRoot = Some (cfg, None) <->
   exists l0 ls, global_parts e l0 /\ Forall2 (layer_parts "repo") (worktree_files mainRoot wtRoot) ls /\
     decode_all (l0 ++ concat ls) (applyDefaults zeroConfig) = (cfg, None) /\ ConfigValid.Validate (checked cfg) = Some []) /\
  (mainRoot <> "" -> wtRoot = mainRoot \/ wtRoot = "" ->
   LoadLayeredForWorktree fs e mainRoot wtRoot = LoadLayered fs e mainRoot).
Proof.
  split; [apply load_over_ok|]. intros Hm Hw. unfold LoadLayeredForWorktree, LoadLayered, worktree_files, fragmentPaths.
  apply String.eqb_neq in Hm. rewrite Hm. destruct Hw as [->| ->].
  - by rewrite String.eqb_refl, Bool.orb_true_r, Bool.andb_false_r.
  - by rewrite Bool.orb_true_r, app_nil_r.
Qed.

(** the last body that gives a setting *)
Fixpoint last_given {A} (gives : string -> option A) (l : list (string * string)) (d : A) : A :=
  match l with [] => d | (_, b) :: l => last_given gives l (default d (gives b)) end.

(** a setting that a body either replaces or leaves alone *)
Definition replaced {A} (field : Config -> A) (gives : string -> option A) : Prop :=
  forall b c, field (decode b c).1 = default (field c) (gives b).

Lemma decode_all_field {A} (field : Config -> A) gives l cfg cfg' :
  replaced field gives -> decode_all l cfg = (cfg', None) -> field cfg' = last_given gives l (field cfg).
Proof.
  intros Hr. revert cfg. induction l as [|[p b] l IH]; intros cfg; [by intros [= ->]|]. cbn [decode_all last_given].
  rewrite <- Hr. destruct (decode b cfg) as [c [|]]; [apply IH|done].
Qed.

(** C0_layered_value: of a setting that a file replaces or leaves alone, a
    worktree has the value of the last file, in the order of the layers, that
    gives one, and the default when none does; the files that are not there
    give none. *)
Theorem layered_value {A} (field : Config -> A) (gives : string -> option A) e mainRoot wtRoot cfg :
  replaced field gives -> LoadLayeredForWorktree fs e mainRoot wtRoot = Some (cfg, None) ->
  exists l0 ls, global_parts e l0 /\ Forall2 (layer_parts "repo") (worktree_files mainRoot wtRoot) ls /\
    field cfg = last_given gives (l0 ++ concat ls) (field (applyDefaults zeroConfig)).
Proof.
  intros Hr (l0 & ls & Hg & Hls & Hd & _)%load_over_ok. exists l0, ls. split; [done|]. split; [done|]. by eapply decode_all_field.
Qed.
End Layers.

(** ** Fragments *)
Definition fragment_of (m r : list string) (k : nat) : string := path_of (m ++ take k r ++ [".treeman.yaml"]).

Lemma descend_elements m r :
  Forall clean_element m -> Forall clean_element r -> descend (path_of m) r = map (fragment_of m r) (seq 1 (length r)).
Proof.
  intros Hm Hr. revert m Hm. induction Hr as [|x r Hx Hr IH]; intros m Hm; cbn [descend length seq map]; [done|].
  assert (Hmx : Forall clean_element (m ++ [x])) by (apply Forall_app; split; [done|by constructor]).
  rewrite !join_name by done. f_equal.
  - unfold fragment_of. cbn [take]. rewrite take_0, <- app_assoc. done.
  - rewrite IH by done. rewrite <- (seq_shift (length r) 1), map_map. apply map_ext. intros k. unfold fragment_of. cbn [take].
    by rewrite <- app_assoc.
Qed.

(** what [fragmentPaths] asks of the relative path *)
Lemma inside_not_dotted r :
  r <> [] -> Forall clean_element r ->
  String.eqb (join "/" r) "." || String.eqb (join "/" r) ".." || has_prefix "../" (join "/" r) = false.
Proof.
  intros Hne Hr. assert (Hs : split_byte "/" (join "/" r) = r).
  { apply (split_join "/"); [done|]. eapply Forall_impl; [exact Hr|]. by intros x (_ & _ & _ & ?). }
  assert (Hd : forall s, (String.eqb s "." || String.eqb s ".." || has_prefix "../" s) = true ->
                         exists x l, split_byte "/" s = x :: l /\ (x = "." \/ x = "..")).
  { intros s. rewrite !Bool.orb_true_iff. intros [[->%String.eqb_eq| ->%String.eqb_eq]|Hp].
    - exists ".", []. auto.
    - exists "..", []. auto.
    - apply has_prefix_app in Hp as [s' ->]. exists "..", (split_byte "/" s'). auto. }
  apply Bool.not_true_is_false. intros (x & l & Hx & Hc)%Hd. rewrite Hs in Hx. subst r.
  apply Forall_cons in Hr as [(_ & H1 & H2 & _) _]. by destruct Hc.
Qed.

(** C0_fragmentPaths_exact: the fragments of a worktree below the main one are
    the files of the directories on the way, from the outer to the inner, that
    of the worktree itself included and that of the main worktree not; a
    worktree that is not below the main one - a directory whose name only
    starts like it, too - and the main worktree have none. *)
Theorem fragmentPaths_exact m r w :
  Forall clean_element m -> Forall clean_element r -> Forall clean_element w -> ~ m `prefix_of` w ->
  fragmentPaths (path_of m) (path_of (m ++ r)) = map (fragment_of m r) (seq 1 (length r)) /\
  fragmentPaths (path_of m) (path_of w) = [].
Proof.
  intros Hm Hr Hw Hno. unfold fragmentPaths, Rel. rewrite !path_elements_of by (done || by apply Forall_app).
  assert (Hne : forall l, String.eqb (path_of l) "" = false) by done. rewrite !Hne, strip_own. cbn [orb]. split.
  - destruct r as [|x r]; [rewrite app_nil_r; by rewrite String.eqb_refl|].
    destruct (String.eqb_spec (path_of (m ++ x :: r)) (path_of m)) as [Heq|_].
    + apply path_of_inj in Heq; [|by apply Forall_app|done].
      apply (f_equal length) in Heq. rewrite length_app in Heq. cbn in Heq. lia.
    + cbn [map app]. rewrite inside_not_dotted by done. rewrite <- descend_elements by done.
      rewrite split_join; [done..|]. eapply Forall_impl; [exact Hr|]. by intros y (_ & _ & _ & ?).
  - destruct (String.eqb (path_of w) (path_of m)); [done|].
    destruct (strip_common_spec m w) as (c & Hb & Ht & Hd). destruct (strip_common m w) as [b t]. cbn [fst snd] in *.
    destruct b as [|x b]; [destruct Hno; exists t; rewrite Ht, Hb, app_nil_r; done|].
    destruct b as [|y b]; [destruct t as [|z t]|]; cbn [map app]; [done|..]; rewrite join_cons; by rewrite ?Bool.orb_true_r.
Qed.

(** ** On concrete files *)
(** a document with one setting of each kind: [key:value], with semicolons
    between; the keys [daemon], [icon] (of [status]) and [include] *)
Definition demo_settings (b : string) : list (string * string) :=
  omap (cut_byte ":") (split_byte ";" b).
Definition demo_given (key b : string) : option string :=
  match List.find (fun kv => String.eqb kv.1 key) (demo_settings b) with Some kv => Some kv.2 | None => None end.
Definition set_level_icon (c : Config) (level icon : string) : Config :=
  {| checked := checked c; eventsNil := eventsNil c; LogLevel := level; Root := Root c; CapPerRepo := CapPerRepo c;
     KeepPerSource := KeepPerSource c; MaxAgeDays := MaxAgeDays c; MaxTotalGb := MaxTotalGb c;
     GcIntervalMinutes := GcIntervalMinutes c; DebounceMs := DebounceMs c; DurablesMaxAgeDays := DurablesMaxAgeDays c;
     IntervalMinutes := IntervalMinutes c; KeepDays := KeepDays c;
     Status :=
       {| Icons := {| Stable := icon; Up := Up (Icons (Status c)); Down := Down (Icons (Status c)); Failed := Failed (Icons (Status c)) |};
          Labels := Labels (Status c); Separator := Separator (Status c); Header := Header (Status c); Row := Row (Status c);
          MainMarker := MainMarker (Status c) |} |}.

#[local] Instance demo_yaml : Yaml := {|
  includes b := Some (map snd (List.filter (fun kv => String.eqb kv.1 "include") (demo_settings b)));
  top_keys b := map (fun kv => if String.eqb kv.1 "icon" then "status" else kv.1) (demo_settings b);
  decode b c := (set_level_icon c (default (LogLevel c) (demo_given "daemon" b))
                                  (default (Stable (Icons (Status c))) (demo_given "icon" b)), true)
|}.

Definition demo_env : Environ := {| explicit := ""; xdg := "/cfg"; home := None |}.
Definition demo_files (l : list (string * string)) : Files := {| bodies := list_to_map l; unreadable := ∅ |}.
Definition level_of (r : option (Config * option load_error)) : option (string * option load_error) :=
  match r with Some (c, e) => Some (LogLevel c, e) | None => None end.

Definition layered_demo : Files :=
  demo_files [("/cfg/treeman/config.yaml", "daemon:warn");
              ("/r/.treeman.yaml", "include:shared/base.yaml;worktrees:x");
              ("/r/shared/base.yaml", "include:./more.yaml;include:/r/shared/./more.yaml");
              ("/r/shared/more.yaml", "ports:1"); ("/r/wt/.treeman.yaml", "ports:2")].

(** a file of the repository may not have the key [daemon:], but a file that it
    includes may: only the layers' own files are looked at *)
Example include_escapes_scope :
  level_of (LoadLayered (demo_files [("/r/.treeman.yaml", "daemon:debug")]) demo_env "/r")
    = Some ("info", Some (Misplaced "/r/.treeman.yaml" "daemon")) /\
  level_of (LoadLayered (demo_files [("/r/.treeman.yaml", "include:d.yaml"); ("/r/d.yaml", "daemon:debug")]) demo_env "/r")
    = Some ("debug", None).
Proof. split; vm_compute; reflexivity. Qed.

(** the defaults come before the files: an icon that is given as empty stays
    empty *)
Example empty_icon_stays :
  match LoadLayered (demo_files [("/cfg/treeman/config.yaml", "icon:")]) demo_env "/r" with
  | Some (c, None) => Stable (Icons (Status c)) = "" /\ Up (Icons (Status c)) = glyph 138
  | _ => False
  end.
Proof. vm_compute. split; reflexivity. Qed.

(** a file that includes itself is read once more before the cycle is seen *)
Example self_include :
  (merge_file (demo_files [("/r/a.yaml", "include:a.yaml")]) "/r/a.yaml" zeroConfig).2 = Some (IncludeCycle "/r/a.yaml").
Proof. vm_compute. reflexivity. Qed.

Lemma merge_terminates_witness :
  fuel_of layered_demo = 7%nat /\
  (mergeYAMLFile layered_demo 9 [] "/r/.treeman.yaml" zeroConfig = merge_file layered_demo "/r/.treeman.yaml" zeroConfig /\
   (merge_file layered_demo "/r/.treeman.yaml" zeroConfig).2 <> Some OutOfFuel).
Proof.
  assert (Hf : fuel_of layered_demo = 7%nat) by (vm_compute; reflexivity). split; [exact Hf|].
  refine (merge_terminates layered_demo 9 "/r/.treeman.yaml" zeroConfig _). rewrite Hf. lia.
Defined.

Lemma include_cycles_witness :
  (merge_file layered_demo "/r/.treeman.yaml" zeroConfig).2 = None /\
  (forall q, rtc (includes_file layered_demo) "/r/.treeman.yaml" q -> ~ tc (includes_file layered_demo) q q).
Proof.
  assert (Hm : (merge_file layered_demo "/r/.treeman.yaml" zeroConfig).2 = None) by (vm_compute; reflexivity).
  split; [exact Hm|]. exact (proj2 (include_cycles layered_demo "/r/.treeman.yaml" zeroConfig) Hm).
Defined.

Lemma LoadLayeredForWorktree_exact_witness :
  worktree_files "/r" "/r/wt" = ["/r/.treeman.yaml"; "/r/.treeman.local.yaml"; "/r/wt/.treeman.yaml"; "/r/wt/.treeman.local.yaml"] /\
  (exists cfg, LoadLayeredForWorktree layered_demo demo_env "/r" "/r/wt" = Some (cfg, None) /\ LogLevel cfg = "warn" /\
     exists l0 ls, global_parts layered_demo demo_env l0 /\
       Forall2 (layer_parts layered_demo "repo") (worktree_files "/r" "/r/wt") ls /\
       decode_all (l0 ++ concat ls) (applyDefaults zeroConfig) = (cfg, None) /\ ConfigValid.Validate (checked cfg) = Some []) /\
  LoadLayeredForWorktree layered_demo demo_env "/r" "/r" = LoadLayered layered_demo demo_env "/r".
Proof.
  split; [vm_compute; reflexivity|]. split.
  - destruct (LoadLayeredForWorktree layered_demo demo_env "/r" "/r/wt") as [[cfg [e|]]|] eqn:E;
      [exfalso; revert E; vm_compute; discriminate| |exfalso; revert E; vm_compute; discriminate].
    exists cfg. split; [reflexivity|]. split; [revert E; vm_compute; by intros [= <-]|].
    exact (proj1 (proj1 (LoadLayeredForWorktree_exact layered_demo demo_env "/r" "/r/wt" cfg)) E).
  - refine (proj2 (LoadLayeredForWorktree_exact layered_demo demo_env "/r" "/r" zeroConfig) _ _); [done|by left].
Defined.

Lemma demo_replaced : replaced LogLevel (demo_given "daemon").
Proof. by intros b c. Qed.

Lemma layered_value_witness :
  exists cfg, LoadLayeredForWorktree layered_demo demo_env "/r" "/r/wt" = Some (cfg, None) /\
    exists l0 ls, global_parts layered_demo demo_env l0 /\
      Forall2 (layer_parts layered_demo "repo") (worktree_files "/r" "/r/wt") ls /\
      LogLevel cfg = last_given (demo_given "daemon") (l0 ++ concat ls) "info".
Proof.
  destruct (LoadLayeredForWorktree layered_demo demo_env "/r" "/r/wt") as [[cfg [e|]]|] eqn:E;
    [exfalso; revert E; vm_compute; discriminate| |exfalso; revert E; vm_compute; discriminate].
  exists cfg. split; [reflexivity|].
  refine (layered_value layered_demo LogLevel (demo_given "daemon") demo_env "/r" "/r/wt" cfg _ E). exact demo_replaced.
Defined.

Lemma fragmentPaths_exact_witness :
  fragmentPaths "/r" "/r/services/foo" = ["/r/services/.treeman.yaml"; "/r/services/foo/.treeman.yaml"] /\
  fragmentPaths (path_of ["r"]) (path_of (["r"] ++ ["services"; "foo"]))
    = map (fragment_of ["r"] ["services"; "foo"]) (seq 1 2) /\
  fragmentPaths (path_of ["r"]) (path_of ["r-wt"; "foo"]) = [].
Proof.
  split; [vm_compute; reflexivity|].
  refine (fragmentPaths_exact ["r"] ["services"; "foo"] ["r-wt"; "foo"] _ _ _ _).
  - repeat constructor; done.
  - repeat constructor; done.
  - repeat constructor; done.
  - intros [l Hl]. done.
Defined.
