(* ===== verification/ConfigCache.v ===== *)
(** * The cache of loaded configurations

    [internal/resolve/cache.go]: a loaded configuration is kept under its
    roots with the modification times of the files it came from, and given out
    again while these are the same.  The file system changes over time, also
    between the reads of one call.  [LoadResolved] and
    [LoadResolvedForWorktree] pass the load itself as an argument. *)
From stdpp Require Import base strings list gmap.
From Stdlib Require Import ZArith Lia.
From S2P Require Import Prelude GoStrings Lines Paths.
From S2P Require EnvFile.
From S2P Require Import ConfigLoad.
#[local] Open Scope treeman_scope.

(** ** The file system at one time *)
Record World := { files : Files; mtimes : gmap string Z }.
Definition content (w : World) (p : string) : reading := ReadFile (files w) p.
(** [os.Stat] of one file; 0 when there is none *)
Definition stamp (w : World) (p : string) : Z := default 0%Z (mtimes w !! p).

Definition stampYAMLFiles (w : World) (paths : list string) : gmap string Z :=
  foldl (fun m p => <[p := stamp w p]> m) ∅ paths.

Definition stampsEqual (a b : gmap string Z) : bool :=
  Nat.eqb (size a) (size b) &&
  forallb (fun kv => match b !! kv.1 with Some other => Z.eqb other kv.2 | None => false end) (map_to_list a).

Definition mapKeys (m : gmap string Z) : list string := (map_to_list m).*1.

Definition configCacheKey (mainRoot wtRoot : string) : string := mainRoot +:+ String "000" wtRoot.

Definition candidateYAMLFiles (e : Environ) (mainRoot wtRoot : string) : list string :=
  (match globalConfigPath e with Some p => [p] | None => [] end) ++
  (if String.eqb mainRoot "" then [] else repo_files mainRoot) ++
  (if negb (String.eqb wtRoot "") && negb (String.eqb wtRoot mainRoot) then [path_join wtRoot ".treeman.local.yaml"] else []).

Definition envRootsFor (mainRoot wtRoot : string) : list string :=
  if negb (String.eqb wtRoot "") && negb (String.eqb wtRoot mainRoot) then [mainRoot; wtRoot] else [mainRoot].

(** ** The cache *)
Record cacheEntry (Cfg : Type) := { cfg : Cfg; stamps : gmap string Z; envStamps : gmap string Z }.
Arguments cfg {Cfg}. Arguments stamps {Cfg}. Arguments envStamps {Cfg}.

Section Cache.
Context {Cfg E : Type} (EnvSources : Cfg -> list string) (e : Environ).

(** what a load gives: a configuration and its error; [None] is a panic *)
Definition loaded : Type := option (Cfg * option E).

(** [loader] of one pair of roots, at one time *)
Context (loader : string -> string -> World -> loaded).

Definition env_paths (mainRoot wtRoot : string) (c : Cfg) : list string :=
  EnvFile.envSourcePaths (envRootsFor mainRoot wtRoot) (EnvSources c).

(** [now] is when the stamps are read, [later] when the loader runs, [after]
    when the environment files are stamped *)
Definition loadResolvedCached (cache : gmap string (cacheEntry Cfg)) (mainRoot wtRoot : string) (now later after : World) :
    gmap string (cacheEntry Cfg) * loaded :=
  let key := configCacheKey mainRoot wtRoot in
  let current := stampYAMLFiles now (candidateYAMLFiles e mainRoot wtRoot) in
  let hit := match cache !! key with
             | Some entry => if stampsEqual (stamps entry) current &&
                                stampsEqual (envStamps entry) (stampYAMLFiles now (mapKeys (envStamps entry)))
                             then Some (cfg entry) else None
             | None => None
             end in
  match hit with
  | Some c => (cache, Some (c, None))
  | None =>
      match loader mainRoot wtRoot later with
      | Some (c, None) =>
          (<[key := {| cfg := c; stamps := current;
                       envStamps := stampYAMLFiles after (env_paths mainRoot wtRoot c) |}]> cache, Some (c, None))
      | r => (cache, r)
      end
  end.

(** ** Calls over time *)
Record Request := { mainRoot : string; wtRoot : string; t_now : nat; t_load : nat; t_env : nat }.
Inductive call := Load (l : Request) | InvalidateConfigCache.

Definition step (world : nat -> World) (cache : gmap string (cacheEntry Cfg)) (c : call) :
    gmap string (cacheEntry Cfg) * option (Request * loaded) :=
  match c with
  | InvalidateConfigCache => (∅, None)
  | Load l => let '(cache, r) := loadResolvedCached cache (mainRoot l) (wtRoot l)
                                   (world (t_now l)) (world (t_load l)) (world (t_env l)) in
              (cache, Some (l, r))
  end.

Fixpoint run (world : nat -> World) (cache : gmap string (cacheEntry Cfg)) (calls : list call) : list (Request * loaded) :=
  match calls with
  | [] => []
  | c :: calls => let '(cache, r) := step world cache c in option_list r ++ run world cache calls
  end.

End Cache.
#[global] Arguments loadResolvedCached {Cfg E} EnvSources e loader cache mainRoot wtRoot now later after.

(** ** Lemmas: stamps *)
Lemma stamps_lookup w paths p : stampYAMLFiles w paths !! p = (if decide (p ∈ paths) then Some (stamp w p) else None).
Proof.
  unfold stampYAMLFiles. induction paths as [|q paths IH] using rev_ind; [by destruct (decide _) as [?%not_elem_of_nil|]|].
  rewrite foldl_app. cbn [foldl]. destruct (decide (p = q)) as [->|Hne].
  - rewrite lookup_insert_eq, decide_True by set_solver. done.
  - rewrite lookup_insert_ne, IH by done. destruct (decide (p ∈ paths)), (decide (p ∈ paths ++ [q])); done || set_solver.
Qed.

Lemma stampsEqual_spec a b : stampsEqual a b = true <-> a = b.
Proof.
  unfold stampsEqual. rewrite andb_true_iff, Nat.eqb_eq, forallb_elem. split.
  - intros [Hs Hf]. apply map_subseteq_size_eq; [|lia]. apply map_subseteq_spec. intros k v Hk.
    specialize (Hf (k, v)). cbn in Hf. destruct (b !! k) as [v'|].
    + f_equal. apply Z.eqb_eq, Hf. by apply elem_of_map_to_list.
    + exfalso. discriminate Hf. by apply elem_of_map_to_list.
  - intros ->. split; [done|]. intros [k v] Hk%elem_of_map_to_list. cbn. rewrite Hk. apply Z.eqb_refl.
Qed.

(** equal stamps of one list of paths, stamp for stamp *)
Lemma stamps_same w w' paths p : stampYAMLFiles w paths = stampYAMLFiles w' paths -> p ∈ paths -> stamp w p = stamp w' p.
Proof. intros H Hp. pose proof (f_equal (lookup p) H) as Hl. rewrite !stamps_lookup, !decide_True in Hl by done. by injection Hl. Qed.

Lemma restamp w w' paths :
  stampsEqual (stampYAMLFiles w paths) (stampYAMLFiles w' (mapKeys (stampYAMLFiles w paths))) = true ->
  forall p, p ∈ paths -> stamp w p = stamp w' p.
Proof.
  rewrite stampsEqual_spec. intros H p Hp. pose proof (f_equal (lookup p) H) as Hl.
  rewrite !stamps_lookup, decide_True in Hl by done. destruct (decide _); [by injection Hl|done].
Qed.

Lemma key_inj m m' w w' :
  has_byte "000" m = false -> has_byte "000" m' = false -> configCacheKey m w = configCacheKey m' w' -> m = m' /\ w = w'.
Proof.
  unfold configCacheKey. intros Hm Hm' H.
  assert (H1 : cut_byte "000" (m +:+ String "000" w) = Some (m, w)) by by apply cut_byte_app.
  assert (H2 : cut_byte "000" (m +:+ String "000" w) = Some (m', w')) by by apply cut_byte_app.
  rewrite H1 in H2. by injection H2.
Qed.

(** ** A load is as fresh as the files *)
Section Fresh.
Context {Cfg E : Type} (EnvSources : Cfg -> list string) (e : Environ).
Context (loader : string -> string -> World -> loaded (Cfg := Cfg) (E := E)) (world : nat -> World).

(** a stamp that is seen again means that the file was the same all the time *)
Definition honest : Prop :=
  forall p i j k, (i <= j <= k)%nat -> stamp (world i) p = stamp (world k) p -> content (world j) p = content (world i) p.

(** the loader reads the candidates and the environment files that they name *)
Definition reads_stamped (m w : string) : Prop :=
  forall i j c, (forall p, p ∈ candidateYAMLFiles e m w -> content (world i) p = content (world j) p) ->
    (forall p, p ∈ env_paths EnvSources m w c -> content (world i) p = content (world j) p) ->
    loader m w (world i) = Some (c, None) -> loader m w (world j) = Some (c, None).

(** no environment file changes between the load and its stamps *)
Definition quiet (l : Request) : Prop :=
  forall c p, loader (mainRoot l) (wtRoot l) (world (t_load l)) = Some (c, None) ->
    p ∈ env_paths EnvSources (mainRoot l) (wtRoot l) c -> content (world (t_env l)) p = content (world (t_load l)) p.

(** calls one after the other *)
Definition in_turn (l : Request) : Prop := has_byte "000" (mainRoot l) = false /\ (t_now l <= t_load l <= t_env l)%nat.
Fixpoint in_order (now : nat) (calls : list call) : Prop :=
  match calls with
  | [] => True
  | Load l :: calls => (now <= t_now l)%nat /\ in_turn l /\ in_order (t_env l) calls
  | InvalidateConfigCache :: calls => in_order now calls
  end.

(** the loads since the cache was last emptied *)
Definition since (calls : list call) : list Request :=
  foldl (fun past c => match c with Load l => past ++ [l] | InvalidateConfigCache => [] end) [] calls.

Definition same_yaml (l0 l : Request) : Prop :=
  forall p, p ∈ candidateYAMLFiles e (mainRoot l) (wtRoot l) -> stamp (world (t_now l0)) p = stamp (world (t_now l)) p.
Definition same_env (l0 l : Request) (c : Cfg) : Prop :=
  forall p, p ∈ env_paths EnvSources (mainRoot l) (wtRoot l) c -> stamp (world (t_env l0)) p = stamp (world (t_now l)) p.
Definition same_roots (l0 l : Request) : Prop := mainRoot l0 = mainRoot l /\ wtRoot l0 = wtRoot l.

(** what an entry was made from *)
Definition entry_ok (past : list Request) (now : nat) (key : string) (entry : cacheEntry Cfg) : Prop :=
  exists l, l ∈ past /\ key = configCacheKey (mainRoot l) (wtRoot l) /\ in_turn l /\ (t_env l <= now)%nat /\
    loader (mainRoot l) (wtRoot l) (world (t_load l)) = Some (cfg entry, None) /\
    stamps entry = stampYAMLFiles (world (t_now l)) (candidateYAMLFiles e (mainRoot l) (wtRoot l)) /\
    envStamps entry = stampYAMLFiles (world (t_env l)) (env_paths EnvSources (mainRoot l) (wtRoot l) (cfg entry)).

Definition cache_ok (past : list Request) (now : nat) (cache : gmap string (cacheEntry Cfg)) : Prop := map_Forall (entry_ok past now) cache.

Lemma cache_ok_later past past' now now' cache : past ⊆ past' -> (now <= now')%nat -> cache_ok past now cache -> cache_ok past' now' cache.
Proof.
  intros Hp Hle Hc k entry Hk. destruct (Hc k entry Hk) as (l & Hl & ? & ? & ? & ?). exists l. split_and!; try done; [by apply Hp|lia|tauto..].
Qed.

(** what a hit rests on *)
Definition from_cache (past : list Request) (l : Request) (r : loaded (Cfg := Cfg) (E := E)) : Prop :=
  exists l0 c, l0 ∈ past /\ same_roots l0 l /\ (t_env l0 <= t_now l)%nat /\ r = Some (c, None) /\
    loader (mainRoot l) (wtRoot l) (world (t_load l0)) = r /\ same_yaml l0 l /\ same_env l0 l c /\
    (honest -> quiet l0 -> reads_stamped (mainRoot l) (wtRoot l) -> r = loader (mainRoot l) (wtRoot l) (world (t_now l))).

Lemma hit_fresh past now entry l :
  has_byte "000" (mainRoot l) = false -> (now <= t_now l)%nat ->
  entry_ok past now (configCacheKey (mainRoot l) (wtRoot l)) entry ->
  stampsEqual (stamps entry) (stampYAMLFiles (world (t_now l)) (candidateYAMLFiles e (mainRoot l) (wtRoot l))) = true ->
  stampsEqual (envStamps entry) (stampYAMLFiles (world (t_now l)) (mapKeys (envStamps entry))) = true ->
  from_cache past l (Some (cfg entry, None)).
Proof.
  intros Hb Hle (l0 & Hin & Hk & (Hb0 & Ht) & Hn & Hl & Hs & He) Hy Hv.
  apply key_inj in Hk as [Hm Hw]; [|done..]. rewrite Hs, <- Hm, <- Hw in Hy. rewrite He in Hv.
  apply stampsEqual_spec in Hy. pose proof (fun p => stamps_same _ _ _ p Hy) as Hyaml. pose proof (restamp _ _ _ Hv) as Henv.
  exists l0, (cfg entry). unfold same_roots, same_yaml, same_env. rewrite Hm, Hw in *. split_and!; try done; [lia|].
  intros Hh Hq Hr. symmetry. eapply Hr; [| |exact Hl].
  - intros p Hp. specialize (Hyaml p Hp).
    rewrite (Hh p (t_now l0) (t_load l0) (t_now l)), (Hh p (t_now l0) (t_now l) (t_now l)) by (lia || done). done.
  - intros p Hp. specialize (Henv p Hp). rewrite <- (Hq (cfg entry) p) by (by rewrite <- ?Hm, <- ?Hw in * ).
    symmetry. apply (Hh p (t_env l0) (t_now l) (t_now l)); [lia|done].
Qed.

Lemma load_fresh past now cache l cache' r :
  cache_ok past now cache -> (now <= t_now l)%nat -> in_turn l ->
  loadResolvedCached EnvSources e loader cache (mainRoot l) (wtRoot l) (world (t_now l)) (world (t_load l)) (world (t_env l)) = (cache', r) ->
  cache_ok (past ++ [l]) (t_env l) cache' /\ (r = loader (mainRoot l) (wtRoot l) (world (t_load l)) \/ from_cache past l r).
Proof.
  intros Hc Hle [Hb Ht].
  assert (Hc' : cache_ok (past ++ [l]) (t_env l) cache) by (eapply cache_ok_later; [| |exact Hc]; [set_solver|lia]).
  unfold loadResolvedCached. cbv zeta.
  set (hit := match cache !! _ with Some _ => _ | None => None end). destruct hit as [c|] eqn:Eh; subst hit.
  - intros [= <- <-]. split; [done|]. right. destruct (cache !! _) as [entry|] eqn:Ec; [|done].
    destruct (_ && _) eqn:Es in Eh; [|done]. injection Eh as <-. apply andb_true_iff in Es as [Hy Hv].
    eapply hit_fresh; try done. exact (Hc _ _ Ec).
  - clear Eh. destruct (loader _ _ (world (t_load l))) as [[c [x|]]|] eqn:El; intros [= <- <-]; (split; [|by left]); try done.
    apply map_Forall_insert_2; [|done]. exists l. split_and!; try done. set_solver.
Qed.

Lemma last_answer calls l r past now cache :
  cache_ok past now cache -> in_order now (calls ++ [Load l]) ->
  last (run EnvSources e loader world cache (calls ++ [Load l])) = Some (l, r) ->
  r = loader (mainRoot l) (wtRoot l) (world (t_load l)) \/
  from_cache (foldl (fun past c => match c with Load l => past ++ [l] | InvalidateConfigCache => [] end) past calls) l r.
Proof.
  revert past now cache. induction calls as [|[l'|] calls IH]; intros past now cache Hc Ho; cbn [app run step foldl].
  - destruct Ho as (Hle & Hg & _). destruct (loadResolvedCached _ _ _ _ _ _ _ _ _) as [cache' r'] eqn:El. cbn. intros [= <-].
    by eapply load_fresh.
  - destruct Ho as (Hle & Hg & Ho). destruct (loadResolvedCached _ _ _ _ _ _ _ _ _) as [cache' r'] eqn:El.
    destruct (load_fresh _ _ _ _ _ _ Hc Hle Hg El) as [Hc' _]. cbn [option_list]. intros Hl. eapply IH; [exact Hc'|exact Ho|].
    assert (Hne : run EnvSources e loader world cache' (calls ++ [Load l]) <> []).
    { clear. revert cache'. induction calls as [|[l'|] calls IH]; intros cache'; cbn; [by destruct (loadResolvedCached _ _ _ _ _ _ _ _ _)| |apply IH].
      by destruct (loadResolvedCached _ _ _ _ _ _ _ _ _). }
    by destruct (run _ _ _ _ cache' _).
  - cbn [option_list app]. apply (IH [] now); [apply map_Forall_empty|done].
Qed.

(** C11: C0_cached_load_fresh: in any sequence of calls for any roots, a
    configuration that is given out is what the loader makes of the files as
    they are when it runs; or it comes from the cache, and then it is what the
    loader made in an earlier call for the same roots, since the cache was last
    emptied, when every stamped file had the modification time that it has now:
    the global file and the files of the repository and the worktree, as of the
    start of that call, and the environment files that the configuration names,
    as of its end.  So it is what a load without a cache gives now if the
    loader reads no other file (none that is included, no fragment above the
    worktree), no file got another content under an old time, and no
    environment file was written between that load and its stamps. *)
Theorem cached_load_fresh calls l r :
  in_order 0 (calls ++ [Load l]) -> last (run EnvSources e loader world ∅ (calls ++ [Load l])) = Some (l, r) ->
  r = loader (mainRoot l) (wtRoot l) (world (t_load l)) \/
  exists l0 c, l0 ∈ since calls /\ same_roots l0 l /\ (t_env l0 <= t_now l)%nat /\ r = Some (c, None) /\
    loader (mainRoot l) (wtRoot l) (world (t_load l0)) = r /\ same_yaml l0 l /\ same_env l0 l c /\
    (honest -> quiet l0 -> reads_stamped (mainRoot l) (wtRoot l) -> r = loader (mainRoot l) (wtRoot l) (world (t_now l))).
Proof. intros Ho Hl. apply (last_answer calls l r [] 0 ∅); [apply map_Forall_empty|done..]. Qed.
End Fresh.

(** ** The layers read the stamped files, when nothing is included *)
Section Reads.
Context `{yaml : Yaml}.

Definition includes_none (fs : Files) (p : string) : Prop :=
  forall b, ReadFile fs p = Body b -> includes b = Some [] \/ includes b = None.

Lemma merge_file_reads a b p cfg :
  includes_none a p -> ReadFile a p = ReadFile b p -> merge_file a p cfg = merge_file b p cfg.
Proof.
  intros Hp Hr. unfold merge_file, fuel_of. cbn [mergeYAMLFile]. rewrite <- Hr. destruct (ReadFile a p) as [| |x] eqn:E; [done..|].
  destruct (blank x); [done|]. by destruct (Hp x E) as [-> | ->].
Qed.

Lemma checkLayerScope_reads a b p layer : ReadFile a p = ReadFile b p -> checkLayerScope a p layer = checkLayerScope b p layer.
Proof. unfold checkLayerScope. by intros ->. Qed.

Lemma load_over_reads a b e l :
  (forall p, p ∈ (option_list (globalConfigPath e) ++ l) -> includes_none a p /\ ReadFile a p = ReadFile b p) ->
  load_over a e l = load_over b e l.
Proof.
  intros H.
  assert (Hg : LoadGlobal a e = LoadGlobal b e).
  { unfold LoadGlobal. destruct (globalConfigPath e) as [g|]; [|done].
    destruct (H g) as [Hi Hr]; [left|]. unfold present. rewrite (checkLayerScope_reads a b), Hr by done.
    by destruct (if String.eqb (explicit e) "" then _ else _); [|apply merge_file_reads]. }
  assert (Hl : forall cfg, merge_layers a l cfg = merge_layers b l cfg).
  { clear Hg. induction l as [|p l IH]; intros cfg; [done|]. cbn [merge_layers].
    destruct (H p) as [Hi Hr]; [set_solver|]. rewrite (checkLayerScope_reads a b), (merge_file_reads a b) by done.
    destruct (checkLayerScope b p "repo"); [done|]. destruct (merge_file b p cfg) as [c [x|]]; [done|]. apply IH.
    intros q Hq. apply H. set_solver. }
  unfold load_over. rewrite Hg. destruct (LoadGlobal b e) as [c [x|]]; [done|]. by rewrite Hl.
Qed.

(** the candidates are the layers of a worktree outside the main one *)
Lemma candidates_layers e m w :
  m <> "" -> fragmentPaths m w = [] -> candidateYAMLFiles e m w = option_list (globalConfigPath e) ++ worktree_files m w.
Proof.
  intros Hm%String.eqb_neq Hf. unfold candidateYAMLFiles, worktree_files. rewrite Hm, Hf. by destruct (globalConfigPath e).
Qed.

Lemma LoadLayeredForWorktree_reads a b e m w :
  m <> "" -> fragmentPaths m w = [] ->
  (forall p, p ∈ candidateYAMLFiles e m w -> includes_none a p /\ ReadFile a p = ReadFile b p) ->
  LoadLayeredForWorktree a e m w = LoadLayeredForWorktree b e m w.
Proof. intros Hm Hf. rewrite candidates_layers by done. apply load_over_reads. Qed.
End Reads.

(** ** On concrete files *)
#[local] Existing Instance demo_yaml.

(** the log level is overridden by an environment file, in place of the
    credentials *)
Definition demo_sources (c : Config) : list string := [".env"].
Definition demo_fill (w : World) (paths : list string) (c : Config) : Config :=
  foldl (fun c p => match content w p with Body b => set_level_icon c b (Stable (Icons (Status c))) | _ => c end) c paths.
Definition demo_loader (m w : string) (a : World) : loaded (Cfg := Config) (E := load_error) :=
  match LoadLayeredForWorktree (files a) demo_env m w with
  | Some (c, None) => Some (demo_fill a (EnvFile.envSourcePaths (envRootsFor m w) [".env"]) c, None)
  | r => r
  end.

Definition demo_world (l : list (string * (Z * string))) : World :=
  {| files := demo_files (map (fun x => (x.1, x.2.2)) l); mtimes := list_to_map (map (fun x => (x.1, x.2.1)) l) |}.
Definition changes_at (t : nat) (a b : World) (i : nat) : World := if (i <? t)%nat then a else b.
Definition levels (l : list (Request * loaded (Cfg := Config) (E := load_error))) : list (option (string * option load_error)) :=
  map (fun x => level_of x.2) l.
Definition ask (m w : string) (now later after : nat) : call :=
  Load {| mainRoot := m; wtRoot := w; t_now := now; t_load := later; t_env := after |}.
Definition demo_run (world : nat -> World) (calls : list call) : list (option (string * option load_error)) :=
  levels (run demo_sources demo_env demo_loader world ∅ calls).

(** a file that is included is not stamped: its edit is not seen until
    something else changes *)
Example included_edit_unseen :
  let top := ("/r/.treeman.yaml", (1, "include:d.yaml")%Z) in
  let world := changes_at 5 (demo_world [top; ("/r/d.yaml", (1, "daemon:warn")%Z)])
                            (demo_world [top; ("/r/d.yaml", (2, "daemon:debug")%Z)]) in
  demo_run world [ask "/r" "" 1 2 3; ask "/r" "" 6 7 8; InvalidateConfigCache; ask "/r" "" 9 10 11]
  = [Some ("warn", None); Some ("warn", None); Some ("debug", None)].
Proof. vm_compute. reflexivity. Qed.

(** nor is the fragment of a directory above the worktree: here a later edit
    of it makes every load without a cache fail *)
Example fragment_edit_unseen :
  let world := changes_at 5 (demo_world [("/r/s/.treeman.yaml", (1, "ports:1")%Z)])
                            (demo_world [("/r/s/.treeman.yaml", (2, "daemon:debug")%Z)]) in
  demo_run world [ask "/r" "/r/s/wt" 1 2 3; ask "/r" "/r/s/wt" 6 7 8; InvalidateConfigCache; ask "/r" "/r/s/wt" 9 10 11]
  = [Some ("info", None); Some ("info", None); Some ("info", Some (Misplaced "/r/s/.treeman.yaml" "daemon"))].
Proof. vm_compute. reflexivity. Qed.

(** an environment file written between the load and its stamps has the old
    value served under the new time *)
Example env_edit_lost :
  let world := changes_at 3 (demo_world [("/r/.env", (1, "old")%Z)]) (demo_world [("/r/.env", (2, "new")%Z)]) in
  demo_run world [ask "/r" "" 1 2 4; ask "/r" "" 6 7 8] = [Some ("old", None); Some ("old", None)].
Proof. vm_compute. reflexivity. Qed.

(** a file of the repository is written between the stamps and the load: the
    next call loads again *)
Example yaml_edit_seen :
  let world := changes_at 2 (demo_world [("/r/.env", (1, "old")%Z)]) (demo_world [("/r/.env", (2, "new")%Z); ("/r/.treeman.yaml", (2, "ports:1")%Z)]) in
  demo_run world [ask "/r" "" 1 2 3; ask "/r" "" 6 7 8] = [Some ("new", None); Some ("new", None)].
Proof. vm_compute. reflexivity. Qed.

Lemma honest_changes t a b :
  (forall p, stamp a p = stamp b p -> content a p = content b p) -> honest (changes_at t a b).
Proof.
  intros H p i j k Hijk Hs. unfold changes_at in *.
  destruct (Nat.ltb_spec i t), (Nat.ltb_spec j t), (Nat.ltb_spec k t); try done; try lia; symmetry; by apply H.
Qed.

Definition one_file (m : Z) (b : string) : World := demo_world [("/cfg/treeman/config.yaml", (m, b))].
Definition edited : nat -> World := changes_at 5 (one_file 1 "daemon:x;ports:1") (one_file 2 "daemon:y;ports:1").

Lemma one_file_other m b p : p <> "/cfg/treeman/config.yaml" -> content (one_file m b) p = NoFile.
Proof. intros Hp. unfold content, ReadFile. cbn. by rewrite bool_decide_false, lookup_insert_ne, lookup_empty by done. Qed.

Lemma edited_bodies i p b : ReadFile (files (edited i)) p = Body b -> includes b = Some [].
Proof.
  unfold edited, changes_at. destruct (decide (p = "/cfg/treeman/config.yaml")) as [->|Hp].
  - destruct (_ <? _)%nat; vm_compute; by intros [= <-].
  - destruct (_ <? _)%nat; intros H.
    + change (content (one_file 1 "daemon:x;ports:1") p = Body b) in H. by rewrite one_file_other in H.
    + change (content (one_file 2 "daemon:y;ports:1") p = Body b) in H. by rewrite one_file_other in H.
Qed.

Lemma demo_reads : reads_stamped demo_sources demo_env demo_loader edited "/r" "".
Proof.
  intros i j c Hy He. unfold demo_loader. rewrite (LoadLayeredForWorktree_reads (files (edited i)) (files (edited j))); [|done|done|].
  - change (env_paths demo_sources "/r" "" c) with ["/r/.env"] in He. specialize (He "/r/.env" ltac:(left)).
    change (EnvFile.envSourcePaths (envRootsFor "/r" "") [".env"]) with ["/r/.env"].
    destruct (LoadLayeredForWorktree (files (edited j)) demo_env "/r" "") as [[c' [x|]]|]; [done| |done].
    unfold demo_fill. cbn [foldl]. by rewrite He.
  - intros p Hp. split; [|by apply Hy]. intros b Hb. left. by eapply edited_bodies.
Qed.

Lemma edited_honest : honest edited.
Proof.
  apply honest_changes. intros p. destruct (decide (p = "/cfg/treeman/config.yaml")) as [->|Hp]; [by vm_compute|].
  intros _. by rewrite !one_file_other.
Qed.

Lemma edited_quiet now later after : quiet demo_sources demo_loader edited {| mainRoot := "/r"; wtRoot := ""; t_now := now; t_load := later; t_env := after |}.
Proof.
  intros c p _ Hp. change (env_paths demo_sources _ _ c) with ["/r/.env"] in Hp. apply list_elem_of_singleton in Hp as ->. cbn [t_env t_load].
  unfold edited, changes_at. by destruct (_ <? _)%nat, (_ <? _)%nat.
Qed.

Lemma cached_load_fresh_witness :
  demo_run edited [ask "/r" "" 1 2 3; ask "/r" "" 4 4 4; ask "/r" "" 6 7 8] = [Some ("x", None); Some ("x", None); Some ("y", None)] /\
  let l := {| mainRoot := "/r"; wtRoot := ""; t_now := 4; t_load := 4; t_env := 4 |} in
  forall r, last (run demo_sources demo_env demo_loader edited ∅ ([ask "/r" "" 1 2 3] ++ [Load l])) = Some (l, r) ->
    r = demo_loader "/r" "" (edited 4).
Proof.
  split; [vm_compute; reflexivity|]. intros l r Hr.
  destruct (cached_load_fresh demo_sources demo_env demo_loader edited [ask "/r" "" 1 2 3] l r) as [H|(l0 & c & Hin & _ & _ & _ & _ & _ & _ & Hf)].
  - clear. cbn. unfold in_turn. cbn. repeat split; first [reflexivity|lia].
  - exact Hr.
  - exact H.
  - apply Hf; [exact edited_honest| |exact demo_reads]. apply list_elem_of_singleton in Hin as ->. apply edited_quiet.
Defined.
