(* ===== verification/Watcher.v ===== *)
(** * The file watcher of a repository

    [internal/watcher/watcher.go]: which directories are watched so that no
    change of an input is missed, which databases an event concerns, and the
    window that collects the events of a burst.  [fsnotify] is the source of
    the events: it reports the entries of the directories that were added to
    it.  Matching a path against a glob is a library's. *)
From stdpp Require Import base strings list gmap sorting.
From Stdlib Require Import ZArith Lia.
From S2P Require Import Prelude GoStrings Lines Paths.
#[local] Open Scope treeman_scope.

(** ** The tree of files *)
(** a symbolic link carries what it leads to *)
Inductive Node := Plain | Link (n : Node) | Folder (entries : list (string * Node)).

(** where the path leads without passing a link *)
Fixpoint find_node (n : Node) (p : list string) : option Node :=
  match p with
  | [] => Some n
  | x :: p => match n with
              | Folder es => match List.find (fun e => String.eqb e.1 x) es with Some e => find_node e.2 p | None => None end
              | _ => None
              end
  end.

(** [os.Stat] and [IsDir]: links are followed *)
Fixpoint resolve_link (n : Node) : Node := match n with Link n => resolve_link n | _ => n end.
Fixpoint stat (n : Node) (p : list string) : option Node :=
  match p with
  | [] => Some (resolve_link n)
  | x :: p => match resolve_link n with
              | Folder es => match List.find (fun e => String.eqb e.1 x) es with Some e => stat e.2 p | None => None end
              | _ => None
              end
  end.
Definition is_dir (n : Node) (p : list string) : bool := match stat n p with Some (Folder _) => true | _ => false end.

(** ** Globs *)
Record WatcherPath := { Glob : string; Label : string; DBIndex : nat }.
Record Match := { mIndex : nat; mLabel : string }.

Definition is_meta (c : ascii) : bool := Ascii.eqb c "*" || Ascii.eqb c "?" || Ascii.eqb c "[" || Ascii.eqb c "{".

(** the text before the first wildcard *)
Fixpoint before_meta (glob : string) : string :=
  match glob with
  | EmptyString => EmptyString
  | String c glob => if is_meta c then EmptyString else String c (before_meta glob)
  end.

Definition staticPrefix (glob : string) : string :=
  if str_any is_meta glob
  then match cut_last "/" (before_meta glob) with Some (b, _) => b | None => "" end
  else glob.

Record watchRoot := { dir : string; recursive : bool }.
Definition rootOf (glob : string) : watchRoot :=
  if negb (str_any is_meta glob) then {| dir := Dir (path_clean glob); recursive := false |}
  else {| dir := path_clean (if String.eqb (staticPrefix glob) "" then "." else staticPrefix glob); recursive := true |}.

Definition isUnder (path d : string) : bool :=
  (String.eqb d "." && negb (String.eqb path ".")) || has_prefix (d +:+ "/") path.

Definition noiseDirNames : list string :=
  [".git"; "node_modules"; "vendor"; ".idea"; ".vscode"; "dist"; "build"; "target"; ".next"; ".turbo"; ".cache"; ".direnv";
   "storage"; "var"; "tmp"; "coverage"; "venv"; ".venv"].
Definition noisy (name : string) : bool := existsb (String.eqb name) noiseDirNames.

(** the window of [New], in nanoseconds: the milliseconds are clamped so that
    the product fits an int64 *)
Definition maxDebounceMs : Z := (2 ^ 63 - 1) `div` 1000000.
Definition int64 (z : Z) : Z := (z + 2 ^ 63) `mod` 2 ^ 64 - 2 ^ 63.
Definition debounce (debounceMs : Z) : Z :=
  let ms := if (maxDebounceMs <? debounceMs)%Z then maxDebounceMs else debounceMs in
  let d := int64 (int64 ms * 1000000) in
  if (d =? 0)%Z then 500 * 1000000 else d.

Section Watch.
(** [doublestar.PathMatch]; [fsw.Add], which may fail; the repository *)
Context (PathMatch : string -> string -> bool) (Add : string -> bool) (repoPath : string) (paths : list WatcherPath).

Definition relevant (rel : string) : bool :=
  existsb (fun p => let r := rootOf (Glob p) in
    String.eqb rel (dir r) || isUnder (dir r) rel || (recursive r && isUnder rel (dir r))) paths.

(** ** Which directories are watched *)
(** the directories that a walk adds, and the files that it shows to [onFile] *)
Definition found : Type := list string * list string.
Definition both (a b : found) : found := (a.1 ++ b.1, a.2 ++ b.2).

(** [filepath.WalkDir] with the callback of [subscribe], at the path [p] *)
Fixpoint walk (top : bool) (p : list string) (n : Node) {struct n} : found :=
  match n with
  | Plain | Link _ => ([], [path_of p])
  | Folder es =>
      if negb (relevant (Rel repoPath (path_of p))) then ([], [])
      else if noisy (path_base (path_of p)) && negb top then ([], [])
      else both (if Add (path_of p) then [path_of p] else [], [])
                ((fix entries (es : list (string * Node)) : found :=
                    match es with
                    | [] => ([], [])
                    | e :: es => both (walk false (p ++ [e.1]) e.2) (entries es)
                    end) es)
  end.

Definition subscribe (root : Node) (p : list string) : found :=
  match find_node root p with Some n => walk true p n | None => ([], []) end.

(** the nearest directory that is there, on the path whose elements are given
    from the last to the first *)
Fixpoint nearest (root : Node) (up : list string) : list string :=
  if is_dir root (rev up) then rev up
  else match up with
       | [] => []
       | _ :: parent => if has_prefix repoPath (path_of (rev parent)) then nearest root parent else rev up
       end.

Definition addAllDirs (root : Node) : list string :=
  paths ≫= fun p => (subscribe root (nearest root (rev (path_elements (path_join repoPath (dir (rootOf (Glob p)))))))).1.

(** ** Which databases an event concerns *)
Definition classify_step (rel : string) (matches : list Match) (p : WatcherPath) : list Match :=
  if existsb (fun m => Nat.eqb (mIndex m) (DBIndex p)) matches then matches
  else if PathMatch (Glob p) rel then matches ++ [{| mIndex := DBIndex p; mLabel := Label p |}] else matches.

Definition classify (path : string) : list Match := foldl (classify_step (Rel repoPath path)) [] paths.

(** ** The loop *)
Record Watcher := { pending : gmap string (list Match); armed : bool; watched : list string }.

Definition enqueue (path : string) (w : Watcher) : Watcher * bool :=
  match classify path with
  | [] => (w, false)
  | m => ({| pending := <[path := m]> (pending w); armed := armed w; watched := watched w |}, true)
  end.

Definition enqueue_all (files : list string) (wq : Watcher * bool) : Watcher * bool :=
  foldl (fun wq f => let '(w, q) := enqueue f wq.1 in (w, q || wq.2)) wq files.

(** what the loop receives: an event of [fsnotify] with the tree as the handler
    finds it, an error of [fsnotify], or the timer *)
Inductive input := FsEvent (name : string) (create : bool) (root : Node) | FsError | Tick.

(** what a Create event of a directory adds *)
Definition created (name : string) (create : bool) (root : Node) : found :=
  if create && is_dir root (path_elements name) then subscribe root (path_elements name) else ([], []).

Definition flush (w : Watcher) : Watcher * list (string * list Match) :=
  ({| pending := ∅; armed := armed w; watched := watched w |},
   map (fun k => (k, default [] (pending w !! k))) (merge_sort String.le (elements (dom (pending w))))).

Definition step (w : Watcher) (i : input) : Watcher * list (string * list Match) :=
  match i with
  | FsEvent name create root =>
      let add := created name create root in
      let '(w, queued) := enqueue_all add.2 (enqueue name w) in
      ({| pending := pending w; armed := armed w || queued; watched := watched w ++ add.1 |}, [])
  | FsError => (w, [])
  | Tick =>
      if armed w then flush {| pending := pending w; armed := false; watched := watched w |} else (w, [])
  end.
End Watch.

(** ** Lemmas: relative paths *)
Definition rel_of (l : list string) : string := match l with [] => "." | _ => join "/" l end.

Lemma no_slash l : Forall clean_element l -> Forall (fun x => has_byte "/" x = false) l.
Proof. intros Hl. eapply Forall_impl; [exact Hl|]. by intros x (_ & _ & _ & ?). Qed.

Lemma relative_clean l kept : Forall clean_element l -> foldl (clean_step false) kept l = rev l ++ kept.
Proof.
  intros Hl. revert kept. induction Hl as [|x l (H1 & H2 & H3 & _) _ IH]; intros kept; [done|]. cbn [foldl rev].
  rewrite <- app_assoc. rewrite <- IH. f_equal. unfold clean_step. apply String.eqb_neq in H1, H2, H3. by rewrite H1, H2, H3.
Qed.

Lemma join_head x l : exists r, join "/" (x :: l) = x +:+ r.
Proof. destruct l; [exists ""; by rewrite str_app_nil_r|]. rewrite join_cons. by eexists. Qed.

Lemma join_rooted x l : clean_element x -> match join "/" (x :: l) with String c _ => is_slash c | _ => false end = false.
Proof.
  intros (Hx & _ & _ & Hb). destruct (join_head x l) as [r ->]. destruct x as [|c x]; [done|]. cbn.
  unfold has_byte in Hb. cbn in Hb. by apply orb_false_iff in Hb as [? _].
Qed.

Lemma join_not_rooted l : Forall clean_element l -> match join "/" l with String c _ => is_slash c | _ => false end = false.
Proof.
  intros Hl. destruct Hl; [done|]. by apply join_rooted.
Qed.

Lemma join_empty l : Forall clean_element l -> String.eqb (join "/" l) "" = match l with [] => true | _ => false end.
Proof.
  intros Hl. destruct Hl as [|x l (Hx & _) _]; [done|]. by apply String.eqb_neq, join_nonempty.
Qed.

(** a relative path, with a slash at its end or not *)
Lemma clean_join_relative l (tail : list string) :
  Forall clean_element l -> tail = [] \/ tail = [""] -> l ++ tail <> [] -> path_clean (join "/" (l ++ tail)) = rel_of l.
Proof.
  intros Hl Ht Hne. unfold path_clean.
  rewrite (split_join "/"); [|done|apply Forall_app; split; [by apply no_slash|destruct Ht as [-> | ->]; repeat constructor]].
  assert (Hr : match join "/" (l ++ tail) with String c _ => is_slash c | _ => false end = false).
  { destruct l as [|x l]; [by destruct Ht as [-> | ->]|]. apply Forall_cons in Hl as [Hx _]. by apply join_rooted. }
  rewrite Hr, foldl_app, (relative_clean l) by done.
  assert (Hk : foldl (clean_step false) (rev l ++ []) tail = rev l) by (rewrite app_nil_r; by destruct Ht as [-> | ->]).
  assert (Hrev : reverse (rev l) = l) by (unfold reverse; by rewrite <- rev_alt, rev_involutive).
  rewrite Hk, Hrev, join_empty by done. by destruct l.
Qed.

Lemma path_clean_relative l : Forall clean_element l -> path_clean (join "/" l) = rel_of l.
Proof.
  intros Hl. destruct l as [|x l]; [done|]. rewrite <- (app_nil_r (x :: l)) at 1. apply clean_join_relative; [done|by left|done].
Qed.

Lemma path_clean_rel_of l : Forall clean_element l -> path_clean (rel_of l) = rel_of l.
Proof. intros Hl. destruct l; [done|]. by apply path_clean_relative. Qed.

Lemma join_snoc l x : l <> [] -> join "/" (l ++ [x]) = join "/" l +:+ String "/" x.
Proof.
  induction l as [|y [|z l] IH]; [done|..]; intros _; [done|]. cbn [app] in *. rewrite !join_cons, IH by done. by rewrite !str_app_assoc.
Qed.

Lemma Dir_relative l x : Forall clean_element l -> has_byte "/" x = false -> Dir (join "/" (l ++ [x])) = rel_of l.
Proof.
  intros Hl Hx. unfold Dir, up_to_slash. destruct l as [|y l].
  - cbn [app]. change (join "/" [x]) with x.
    assert (cut_last "/" x = None) as ->; [|done].
    clear -Hx. induction x as [|c x IH]; [done|]. unfold has_byte in Hx. cbn in Hx. apply orb_false_iff in Hx as [Hc Hx].
    cbn [cut_last]. by rewrite IH, Hc.
  - rewrite join_snoc by done. rewrite cut_last_here by done.
    rewrite <- (clean_join_relative (y :: l) [""]); [|done|by right|done]. f_equal. rewrite join_snoc by done. done.
Qed.

Lemma cut_last_spec c s a b : cut_last c s = Some (a, b) -> s = a +:+ String c b.
Proof.
  revert a. induction s as [|x s IH]; intros a; [done|]. cbn [cut_last]. destruct (cut_last c s) as [[a' b']|].
  - intros [= <- <-]. cbn. by rewrite (IH a').
  - destruct (Ascii.eqb_spec x c) as [->|]; [|done]. by intros [= <- <-].
Qed.

Lemma join_split c s : join (String c "") (split_byte c s) = s.
Proof.
  induction s as [|a s IH]; [done|]. cbn [split_byte]. pose proof (split_byte_nonempty c s) as Hne.
  destruct (Ascii.eqb_spec a c) as [->|_].
  - destruct (split_byte c s); [done|]. rewrite join_cons, IH. done.
  - destruct (split_byte c s) as [|y [|z l]]; [done|cbn in *; by rewrite IH|].
    rewrite <- IH, !join_cons. done.
Qed.

(** ** Lemmas: relevance *)
Lemma Rel_own r l : Forall clean_element r -> Forall clean_element l -> Rel (path_of r) (path_of (r ++ l)) = rel_of l.
Proof.
  intros Hr Hl. unfold Rel. rewrite !path_elements_of by (done || by apply Forall_app). rewrite strip_own. by destruct l.
Qed.

Lemma rel_of_prefix l l2 : l <> [] -> l2 <> [] -> has_prefix (rel_of l +:+ "/") (join "/" (l ++ l2)) = true.
Proof.
  intros Hl H2. apply has_prefix_app. exists (join "/" l2). destruct l as [|x l]; [done|]. clear Hl. cbn [rel_of].
  induction l as [|y l IH] in x |- *; cbn [app] in *.
  - destruct l2 as [|y l2]; [done|]. rewrite join_cons. change (join "/" [x]) with x. by rewrite str_app_assoc.
  - rewrite !join_cons, IH. by rewrite !str_app_assoc.
Qed.

Lemma isUnder_below l l2 : Forall clean_element (l ++ l2) -> l2 <> [] -> isUnder (rel_of (l ++ l2)) (rel_of l) = true.
Proof.
  intros Hc Hl. unfold isUnder. destruct l as [|x l].
  - destruct l2 as [|y l2]; [done|]. apply Forall_app in Hc as [_ Hc]. cbn [app rel_of String.eqb andb].
    assert (join "/" (y :: l2) <> ".") as ->%String.eqb_neq; [|done]. intros E.
    apply (f_equal (split_byte "/")) in E. rewrite split_join in E by (done || by apply no_slash).
    injection E as -> _. by apply Forall_cons in Hc as [(_ & ? & _) _].
  - rewrite orb_true_iff. right. change (rel_of ((x :: l) ++ l2)) with (join "/" ((x :: l) ++ l2)). by apply rel_of_prefix.
Qed.

(** the library's matching: a glob without a wildcard matches its own text,
    and any glob matches its text up to the first wildcard literally; a
    backslash escapes *)
Record glob_law (PathMatch : string -> string -> bool) : Prop := {
  match_literal g p : has_byte "\" g = false -> str_any is_meta g = false -> PathMatch g p = true -> p = g;
  match_prefix g p : has_byte "\" g = false -> PathMatch g p = true -> has_prefix (before_meta g) p = true
}.

(** the elements of the root of a glob, when it matches a path *)
Lemma root_above PathMatch g l x :
  glob_law PathMatch -> has_byte "\" g = false -> Forall clean_element (l ++ [x]) -> PathMatch g (join "/" (l ++ [x])) = true ->
  exists l1 l2, l = l1 ++ l2 /\ dir (rootOf g) = rel_of l1 /\ (recursive (rootOf g) = true \/ l2 = []).
Proof.
  intros Hlaw Hg Hc Hm. pose proof Hc as [Hl Hx]%Forall_app. apply Forall_cons in Hx as [(_ & _ & _ & Hx) _]. unfold rootOf.
  destruct (str_any is_meta g) eqn:Ew; cbn [negb].
  - pose proof (match_prefix _ Hlaw _ _ Hg Hm) as [rest Hrest]%has_prefix_app. unfold staticPrefix. rewrite Ew. cbn [dir recursive].
    destruct (cut_last "/" (before_meta g)) as [[b t]|] eqn:Ec; [|exists [], l; auto].
    destruct (String.eqb_spec b "") as [->|Hb]; [exists [], l; auto|].
    apply cut_last_spec in Ec as Hbt. rewrite Hbt in Hrest. apply (f_equal (split_byte "/")) in Hrest.
    rewrite (split_join "/") in Hrest; [|by destruct l|by apply no_slash].
    rewrite str_app_assoc in Hrest. cbn [String.append] in Hrest. rewrite split_byte_app in Hrest.
    pose proof (split_byte_nonempty "/" (t +:+ rest)) as Hne.
    destruct (exists_last Hne) as (m & z & Hz). rewrite Hz, app_assoc in Hrest. apply app_inj_tail in Hrest as [-> _].
    exists (split_byte "/" b), m. split; [done|]. split; [|by left]. apply Forall_app in Hl as [Hl _].
    rewrite <- (join_split "/" b) at 1. by apply path_clean_relative.
  - pose proof (match_literal _ Hlaw _ _ Hg Ew Hm) as <-. exists l, []. rewrite app_nil_r. cbn [dir recursive].
    split; [done|]. split; [|by right]. rewrite path_clean_relative by done.
    assert (rel_of (l ++ [x]) = join "/" (l ++ [x])) as -> by by destruct l. by apply Dir_relative.
Qed.

(** every directory on the way to a match is relevant *)
Lemma relevant_prefix paths l1 l2 l' p :
  p ∈ paths -> dir (rootOf (Glob p)) = rel_of l1 -> recursive (rootOf (Glob p)) = true \/ l2 = [] ->
  Forall clean_element (l1 ++ l2) -> l' `prefix_of` l1 ++ l2 -> relevant paths (rel_of l') = true.
Proof.
  intros Hp Hd Hr Hc Hpre. unfold relevant. apply existsb_elem. exists p. split; [done|]. rewrite Hd, !orb_true_iff.
  destruct (decide (l1 `prefix_of` l')) as [[k ->]|Hno].
  - destruct k as [|z k]; [left; left; rewrite app_nil_r; apply String.eqb_refl|]. right. apply prefix_app_inv in Hpre.
    destruct Hr as [->| ->]; [|by apply prefix_nil_inv in Hpre]. cbn [andb]. apply isUnder_below; [|done].
    destruct Hpre as [j ->]. rewrite app_assoc in Hc. by apply Forall_app in Hc as [? _].
  - left. right. destruct (prefix_weak_total l' l1 (l1 ++ l2)) as [[k ->]|?]; [done|by eexists| |done].
    apply isUnder_below; [by apply Forall_app in Hc as [? _]|]. intros ->. apply Hno. rewrite app_nil_r. reflexivity.
Qed.

(** ** Lemmas: a walk *)
Lemma Node_nested_ind (P : Node -> Prop) :
  P Plain -> (forall n, P n -> P (Link n)) -> (forall es, Forall (fun e => P e.2) es -> P (Folder es)) -> forall n, P n.
Proof.
  intros Hp Hl Hf. fix IH 1. intros [|n|es]; [exact Hp|apply Hl, IH|]. apply Hf.
  induction es as [|e es IHes]; constructor; [apply IH|exact IHes].
Qed.

Definition within (a b : found) : Prop := a.1 ⊆ b.1 /\ a.2 ⊆ b.2.

Lemma within_foldr {A} (f : A -> found) l e : e ∈ l -> within (f e) (foldr (fun x acc => both (f x) acc) ([], []) l).
Proof.
  intros He. induction l as [|x l IH]; [by apply not_elem_of_nil in He|]. apply elem_of_cons in He as [->|He]; unfold within, both in *;
    cbn [foldr fst snd]; [|specialize (IH He)]; set_solver.
Qed.

Lemma find_folder (es : list (string * Node)) x n : List.find (fun e => String.eqb e.1 x) es = Some n -> n ∈ es /\ n.1 = x.
Proof. intros H. apply find_some in H as [Hi Hx]. apply String.eqb_eq in Hx. by rewrite <- list_elem_of_In in Hi. Qed.

Section Walks.
Context (Add : string -> bool) (repo : list string) (paths : list WatcherPath).
Context (Hrepo : Forall clean_element repo).
Local Abbreviation repoPath := (path_of repo).
Local Abbreviation walk := (walk Add repoPath paths).

(** a walk enters the folder at [repo ++ l] *)
Definition enters (top : bool) (l : list string) : Prop :=
  relevant paths (rel_of l) = true /\ (top = true \/ match last l with Some x => noisy x = false | None => False end).

Lemma base_of l x : Forall clean_element (l ++ [x]) -> path_base (path_of (repo ++ l ++ [x])) = x.
Proof using Hrepo.
  intros [_ Hx]%Forall_app. apply Forall_cons in Hx as [Hx _]. rewrite app_assoc. by apply path_base_path_of.
Qed.

Lemma enters_spec top l : Forall clean_element l -> enters top l ->
  relevant paths (Rel repoPath (path_of (repo ++ l))) = true /\ noisy (path_base (path_of (repo ++ l))) && negb top = false.
Proof using Hrepo.
  intros Hl [Hr Ht]. rewrite Rel_own by done. split; [done|]. destruct Ht as [->|Ht]; [by rewrite andb_false_r|].
  destruct (last l) as [x|] eqn:El; [|done]. apply last_Some in El as [l' ->]. by rewrite base_of, Ht.
Qed.

Lemma walk_folder top l es : Forall clean_element l -> enters top l ->
  walk top (repo ++ l) (Folder es) =
  both (if Add (path_of (repo ++ l)) then [path_of (repo ++ l)] else [], [])
       (foldr (fun e f => both (walk false (repo ++ l ++ [e.1]) e.2) f) ([], []) es).
Proof using Hrepo.
  intros Hl He. destruct (enters_spec _ _ Hl He) as [Hr Hn]. cbn [Watcher.walk]. rewrite Hr, Hn. cbn [negb]. f_equal.
  clear. induction es as [|e es IH]; [done|]. cbn [foldr]. rewrite <- IH. by rewrite <- app_assoc.
Qed.

(** a walk goes on to every place that it can enter on the whole way *)
Lemma walk_reaches top l s n m :
  Forall clean_element (l ++ s) -> find_node n s = Some m ->
  (forall s', s' `prefix_of` s -> s' <> s -> enters (if bool_decide (s' = []) then top else false) (l ++ s')) ->
  within (walk (if bool_decide (s = []) then top else false) (repo ++ l ++ s) m) (walk top (repo ++ l) n).
Proof using Hrepo.
  revert top l n. induction s as [|x s IH]; intros top l n Hc Hf He.
  - cbn in *. injection Hf as ->. by rewrite app_nil_r.
  - cbn [find_node] in Hf. destruct n as [| |es]; [done..|]. destruct (List.find _ es) as [e|] eqn:Ef; [|done].
    apply find_folder in Ef as [Hi Hx]. pose proof Hc as [Hl _]%Forall_app.
    assert (He0 : enters top l).
    { specialize (He [] (prefix_nil _) ltac:(done)). by rewrite bool_decide_true, app_nil_r in He. }
    rewrite walk_folder by done. rewrite bool_decide_false by done.
    assert (Hs : within (walk false (repo ++ l ++ [x] ++ s) m) (walk false (repo ++ l ++ [x]) e.2)).
    { specialize (IH false (l ++ [x]) e.2). rewrite <- !app_assoc in IH. destruct (bool_decide (s = [])); apply IH; try done;
        intros s' Hs' Hne; specialize (He (x :: s') (prefix_cons _ _ _ Hs') ltac:(congruence));
        rewrite bool_decide_false in He by done; rewrite <- app_assoc; by destruct (bool_decide (s' = [])). }
    pose proof (within_foldr (fun e => walk false (repo ++ l ++ [e.1]) e.2) es e Hi) as Hin. cbn in Hin. rewrite Hx in Hin.
    unfold within, both in *. cbn [fst snd app] in *. set_solver.
Qed.

Lemma walk_dir top l s n es :
  Forall clean_element (l ++ s) -> find_node n s = Some (Folder es) -> Add (path_of (repo ++ l ++ s)) = true ->
  (forall s', s' `prefix_of` s -> enters (if bool_decide (s' = []) then top else false) (l ++ s')) ->
  path_of (repo ++ l ++ s) ∈ (walk top (repo ++ l) n).1.
Proof using Hrepo.
  intros Hc Hf Ha He. destruct (walk_reaches top l s n _ Hc Hf) as [Hd _]; [by intros; apply He|]. apply Hd.
  rewrite walk_folder, Ha by (done || by apply He). by left.
Qed.

Lemma walk_file top l s x n m :
  Forall clean_element (l ++ s ++ [x]) -> find_node n (s ++ [x]) = Some m -> (forall es, m <> Folder es) ->
  (forall s', s' `prefix_of` s -> enters (if bool_decide (s' = []) then top else false) (l ++ s')) ->
  path_of (repo ++ l ++ s ++ [x]) ∈ (walk top (repo ++ l) n).2.
Proof using Hrepo.
  intros Hc Hf Hm He. destruct (walk_reaches top l (s ++ [x]) n m) as [_ Hd]; [done..| |].
  - intros s' Hs' Hne. apply He. destruct Hs' as [k Hk]. destruct k as [|y k _] using rev_ind; [by rewrite app_nil_r in Hk|].
    rewrite app_assoc in Hk. apply app_inj_tail in Hk as [-> _]. by eexists.
  - apply Hd. destruct m as [| |es]; [by left..|by destruct (Hm es)].
Qed.
End Walks.

(** what a walk adds is relevant and, below its start, not noise *)
Lemma walk_only Add repoPath paths top p n d :
  d ∈ (walk Add repoPath paths top p n).1 ->
  relevant paths (Rel repoPath d) = true /\ Add d = true /\ (noisy (path_base d) = false \/ (top = true /\ d = path_of p)).
Proof.
  revert top p. induction n as [|n _|es IH] using Node_nested_ind; intros top p; cbn [walk]; [by intros ?%not_elem_of_nil..|].
  destruct (relevant paths (Rel repoPath (path_of p))) eqn:Hr; cbn [negb]; [|by intros ?%not_elem_of_nil].
  destruct (noisy (path_base (path_of p)) && negb top) eqn:Hn; [by intros ?%not_elem_of_nil|].
  unfold both at 1. cbn [fst]. intros [Hd|Hd]%elem_of_app.
  - destruct (Add (path_of p)) eqn:Ha; [|by apply not_elem_of_nil in Hd]. apply list_elem_of_singleton in Hd as ->. split_and!; [done..|].
    apply andb_false_iff in Hn as [?|?%negb_false_iff]; auto.
  - clear Hr Hn. induction IH as [|e es He _ IHes]; [by apply not_elem_of_nil in Hd|]. unfold both in Hd. cbn [fst] in Hd.
    apply elem_of_app in Hd as [Hd|Hd]; [|by apply IHes].
    destruct (He false (p ++ [e.1]) Hd) as (? & ? & [?|[? _]]); [|done]. auto.
Qed.

(** ** Lemmas: where things are *)
Lemma find_app n p q m : find_node n (p ++ q) = Some m -> exists m', find_node n p = Some m' /\ find_node m' q = Some m.
Proof.
  revert n. induction p as [|x p IH]; intros n; [by exists n|]. cbn [app find_node].
  destruct n as [| |es]; [done..|]. destruct (List.find _ es) as [e|]; [apply IH|done].
Qed.

Lemma find_stat n p m : find_node n p = Some m -> stat n p = Some (resolve_link m).
Proof.
  revert n. induction p as [|x p IH]; intros n; [by intros [= ->]|]. cbn [find_node].
  destruct n as [| |es]; [done..|]. cbn [stat resolve_link]. destruct (List.find _ es) as [e|]; [apply IH|done].
Qed.

Lemma folder_above n p q m : find_node n (p ++ q) = Some m -> q <> [] \/ (exists es, m = Folder es) -> is_dir n p = true.
Proof.
  intros (m' & Hp & Hq)%find_app Hor. unfold is_dir. rewrite (find_stat _ _ _ Hp).
  destruct q as [|x q]; [injection Hq as ->; destruct Hor as [Hne|[es ->]]; [by destruct Hne|done]|]. cbn [find_node] in Hq. by destruct m'.
Qed.

Lemma kept_clean l : Forall clean_element l -> List.filter (fun e => negb (String.eqb e "" || String.eqb e ".")) l = l.
Proof.
  induction 1 as [|x l (H1 & H2 & _) _ IH]; [done|]. cbn [List.filter]. apply String.eqb_neq in H1, H2. by rewrite H1, H2, IH.
Qed.

Lemma join_rel_of repo l :
  Forall clean_element repo -> Forall clean_element l -> path_elements (path_join (path_of repo) (rel_of l)) = repo ++ l.
Proof.
  intros Hr Hl. assert (Hs : split_byte "/" (rel_of l) = match l with [] => ["."] | _ => l end).
  { destruct l; [done|]. apply (split_join "/"); [done|by apply no_slash]. }
  rewrite join_below; [|done|by destruct l; [|apply join_nonempty; apply Forall_cons in Hl as [(? & _) _]]|].
  - rewrite (path_elements_of repo) by done. unfold kept_elements. rewrite Hs.
    assert (List.filter (fun e => negb (String.eqb e "" || String.eqb e ".")) (match l with [] => ["."] | _ => l end) = l) as ->.
    { destruct l; [done|]. by apply kept_clean. }
    apply path_elements_of. by apply Forall_app.
  - rewrite Hs. destruct l as [|y l]; [by intros ?%list_elem_of_singleton|]. intros Hi. rewrite Forall_forall in Hl.
    by destruct (Hl _ Hi) as (_ & _ & ? & _).
Qed.

Lemma nearest_here root repoPath p : is_dir root p = true -> nearest repoPath root (rev p) = p.
Proof.
  intros Hd. destruct (rev p) as [|x up] eqn:E; cbn [nearest]; rewrite <- E, rev_involutive, Hd; [|done].
  apply (f_equal (@rev string)) in E. by rewrite rev_involutive in E.
Qed.

(** ** Properties: what is watched *)
Section Inputs.
Context (PathMatch : string -> string -> bool) (Hlaw : glob_law PathMatch) (Add : string -> bool).
Context (repo : list string) (paths : list WatcherPath) (p : WatcherPath).
Context (Hrepo : Forall clean_element repo) (Hp : p ∈ paths) (Hg : has_byte "\" (Glob p) = false).

(** the walk of a place enters everything on the way to a match *)
Lemma enters_to_match l1 l2 s x :
  Forall clean_element (l1 ++ l2 ++ [x]) -> PathMatch (Glob p) (join "/" (l1 ++ l2 ++ [x])) = true ->
  Forall (fun d => noisy d = false) l2 -> s `prefix_of` l2 ->
  enters paths (if bool_decide (s = []) then true else false) (l1 ++ s).
Proof using Hlaw Hp Hg.
  intros Hc Hm Hn Hs. rewrite app_assoc in Hc, Hm. destruct (root_above _ _ _ _ Hlaw Hg Hc Hm) as (r1 & r2 & Hr & Hd & Hrec).
  apply Forall_app in Hc as [Hc _]. split.
  - eapply relevant_prefix; [exact Hp|exact Hd|exact Hrec|by rewrite <- Hr|]. rewrite <- Hr. by apply prefix_app.
  - destruct (decide (s = [])) as [->|Hne]; [by left|]. right. destruct (exists_last Hne) as (k & z & ->).
    rewrite app_assoc, last_snoc. destruct Hs as [j Hj]. rewrite Hj, !Forall_app in Hn. destruct Hn as [[_ Hz] _].
    by apply Forall_cons in Hz as [? _].
Qed.

End Inputs.

(** ** Properties: which databases an event concerns *)
Section Classify.
Context (PathMatch : string -> string -> bool).

(** the first glob of a database that matches *)
Definition first_match (paths : list WatcherPath) (rel : string) (k : nat) (p : WatcherPath) : Prop :=
  paths !! k = Some p /\ PathMatch (Glob p) rel = true /\
  forall j q, j < k -> paths !! j = Some q -> DBIndex q = DBIndex p -> PathMatch (Glob q) rel = false.

Definition as_match (p : WatcherPath) : Match := {| mIndex := DBIndex p; mLabel := Label p |}.

Lemma first_match_snoc paths p rel k q :
  first_match (paths ++ [p]) rel k q <->
  first_match paths rel k q \/
  (k = length paths /\ q = p /\ PathMatch (Glob p) rel = true /\ forall j r, paths !! j = Some r -> DBIndex r = DBIndex p -> PathMatch (Glob r) rel = false).
Proof.
  unfold first_match. split.
  - intros ([Hk|[Hge Hk]]%lookup_app_Some & Hm & Hf).
    + left. split_and!; [done..|]. intros j r Hj Hr. apply (Hf j r); [done|]. by apply lookup_app_l_Some.
    + right. apply list_lookup_singleton_Some in Hk as [Hk <-]. assert (k = length paths) as -> by lia. split_and!; [done..|].
      intros j r Hr. apply (Hf j r); [by apply lookup_lt_Some in Hr|]. by apply lookup_app_l_Some.
  - intros [(Hk & Hm & Hf)|(-> & -> & Hm & Hf)].
    + pose proof (lookup_lt_Some _ _ _ Hk). split_and!; [by apply lookup_app_l_Some|done|]. intros j r Hj Hr. apply (Hf j r); [done|].
      rewrite lookup_app_l in Hr by lia. done.
    + split_and!; [by apply list_lookup_middle|done|]. intros j r Hj Hr. rewrite lookup_app_l in Hr by done. by apply (Hf j r).
Qed.

Lemma classify_spec repoPath paths path m :
  m ∈ classify PathMatch repoPath paths path <-> exists k p, first_match paths (Rel repoPath path) k p /\ m = as_match p.
Proof.
  unfold classify. generalize (Rel repoPath path) as rel. intros rel. revert m.
  induction paths as [|p paths IH] using rev_ind; intros m; [split; [by intros ?%not_elem_of_nil|by intros (k & p & [? _] & _)]|].
  rewrite foldl_app. cbn [foldl]. set (ms := foldl _ _ _) in *. unfold classify_step. setoid_rewrite first_match_snoc.
  destruct (existsb (fun m => Nat.eqb (mIndex m) (DBIndex p)) ms) eqn:E.
  - apply existsb_elem in E as (m0 & Hm0 & Hi%Nat.eqb_eq). apply IH in Hm0 as (k0 & p0 & (Hk0 & Hp0 & _) & ->).
    rewrite IH. split; [intros (k & q & Hq & ->); eauto|]. intros (k & q & [Hq|(_ & -> & _ & Hf)] & ->); [eauto|].
    exfalso. rewrite (Hf _ _ Hk0 Hi) in Hp0. done.
  - assert (Hno : forall k q, first_match paths rel k q -> DBIndex q <> DBIndex p).
    { intros k q Hq Hi. apply Bool.not_true_iff_false in E. apply E, existsb_elem. exists (as_match q). split; [apply IH; eauto|].
      by apply Nat.eqb_eq. }
    assert (Hall : forall j r, paths !! j = Some r -> DBIndex r = DBIndex p -> PathMatch (Glob r) rel = false).
    { intros j. induction (Wf_nat.lt_wf j) as [j _ IHj]. intros r Hr Hi. destruct (PathMatch (Glob r) rel) eqn:Em; [|done].
      destruct (Hno j r); [|done]. split_and!; [done..|]. intros i q Hlt Hq Heq. apply (IHj i Hlt q Hq). congruence. }
    destruct (PathMatch (Glob p) rel) eqn:Em.
    + rewrite elem_of_app, IH, list_elem_of_singleton. split.
      * intros [(k & q & Hq & ->)| ->]; [eauto|]. exists (length paths), p. split; [|done]. right. auto.
      * intros (k & q & [Hq|(_ & -> & _)] & ->); [left; eauto|by right].
    + rewrite IH. split; [intros (k & q & Hq & ->); eauto|]. intros (k & q & [Hq|(_ & _ & [=] & _)] & ->). eauto.
Qed.

Lemma classify_nonempty repoPath paths p path :
  p ∈ paths -> PathMatch (Glob p) (Rel repoPath path) = true -> classify PathMatch repoPath paths path <> [].
Proof.
  intros [k Hk]%list_elem_of_lookup Hm. revert p Hk Hm. induction (Wf_nat.lt_wf k) as [k _ IH]. intros p Hk Hm Hnil.
  assert (as_match p ∈ classify PathMatch repoPath paths path) as Hin; [|rewrite Hnil in Hin; by apply not_elem_of_nil in Hin].
  apply classify_spec. exists k, p. split; [|done]. split_and!; [done..|]. intros j q Hj Hq _.
  destruct (PathMatch (Glob q) _) eqn:E; [|done]. by destruct (IH j Hj q Hq E).
Qed.

(** C0_classify_exact: an event concerns exactly the databases that have a glob
    that matches its path, each once, with the label of the first such glob of
    the database, and in the order of the databases when the globs are. *)
Theorem classify_exact repoPath paths path :
  let ms := classify PathMatch repoPath paths path in
  (forall m, m ∈ ms <-> exists k p, first_match paths (Rel repoPath path) k p /\ m = as_match p) /\
  NoDup (map mIndex ms) /\
  (StronglySorted le (map DBIndex paths) -> StronglySorted lt (map mIndex ms)).
Proof.
  cbn zeta. split; [intros m; apply classify_spec|]. unfold classify. generalize (Rel repoPath path) as rel. intros rel.
  assert (Hsub : forall l i, i ∈ map mIndex (foldl (classify_step PathMatch rel) [] l) -> i ∈ map DBIndex l).
  { intros l. induction l as [|p l IH] using rev_ind; intros i; [done|]. rewrite foldl_app. cbn [foldl].
    set (ms := foldl _ _ _) in *. unfold classify_step. rewrite map_app. intros Hi. apply elem_of_app.
    destruct (existsb _ ms); [left; by apply IH|]. destruct (PathMatch _ _); [|left; by apply IH].
    rewrite map_app in Hi. apply elem_of_app in Hi as [Hi|Hi]; [left; by apply IH|by right]. }
  induction paths as [|p paths [IHn IHs]] using rev_ind; [split; [constructor|intros; constructor]|].
  rewrite foldl_app. cbn [foldl]. specialize (Hsub paths). set (ms := foldl _ _ _) in *. unfold classify_step.
  assert (Hpre : StronglySorted le (map DBIndex (paths ++ [p])) -> StronglySorted le (map DBIndex paths) /\ Forall (fun i => i <= DBIndex p) (map DBIndex paths)).
  { rewrite map_app. intros (H2 & H1 & _)%StronglySorted_app. split; [done|]. apply Forall_forall. intros i Hi. apply H2; [done|by left]. }
  destruct (existsb _ ms) eqn:E; [split; [done|intros [? _]%Hpre; by apply IHs]|].
  destruct (PathMatch (Glob p) rel); [|split; [done|intros [? _]%Hpre; by apply IHs]].
  assert (Hnew : DBIndex p ∉ map mIndex ms).
  { intros (m & Hi & Hm)%list_elem_of_fmap. apply Bool.not_true_iff_false in E. apply E, existsb_elem. exists m. split; [done|].
    by apply Nat.eqb_eq. }
  rewrite map_app. split.
  - apply NoDup_app. split; [done|]. split; [by intros i Hi ->%list_elem_of_singleton|apply NoDup_singleton].
  - intros [Hs Hle]%Hpre. apply StronglySorted_app. split; [|split; [by apply IHs|repeat constructor]].
    intros i j Hi ->%list_elem_of_singleton. rewrite Forall_forall in Hle. specialize (Hle _ (Hsub _ Hi)). cbn.
    assert (i <> DBIndex p) by (by intros ->). lia.
Qed.
End Classify.

(** ** Lemmas: queueing *)
Section Window.
Context (PathMatch : string -> string -> bool) (Add : string -> bool) (repoPath : string) (paths : list WatcherPath).
Local Abbreviation classify := (classify PathMatch repoPath paths).
Local Abbreviation enqueue_all := (enqueue_all PathMatch repoPath paths).
Local Abbreviation step := (step PathMatch Add repoPath paths).

(** the paths that an input makes known *)
Definition reported (i : input) : list string :=
  match i with FsEvent name create root => name :: (created Add repoPath paths name create root).2 | _ => [] end.

Definition concerns (k : string) : Prop := classify k <> [].

Lemma enqueue_all_spec files w q :
  let r := enqueue_all files (w, q) in
  armed r.1 = armed w /\ watched r.1 = watched w /\
  (forall k m, pending r.1 !! k = Some m <-> (k ∈ files /\ m = classify k /\ m <> []) \/ ((k ∈ files -> classify k = []) /\ pending w !! k = Some m)) /\
  (r.2 = true <-> q = true \/ exists k, k ∈ files /\ concerns k).
Proof.
  cbn zeta. revert w q. induction files as [|f files IH]; intros w q.
  - cbn. split_and!; [done..| |].
    + intros k m. split; [intros H; right; split; [by intros ?%not_elem_of_nil|done]|by intros [[?%not_elem_of_nil _]|[_ ?]]].
    + split; [by left|by intros [?|(k & ?%not_elem_of_nil & _)]].
  - unfold Watcher.enqueue_all in *. cbn [foldl fst snd].
    destruct (enqueue PathMatch repoPath paths f w) as [w1 q1] eqn:E. unfold enqueue in E. destruct (classify f) as [|m0 ms] eqn:Ef.
    + injection E as <- <-. cbn [orb]. destruct (IH w q) as (Ha & Hw & Hp & Hq). rewrite Ha, Hw. split_and!; [done..| |].
      * intros k m. rewrite Hp. setoid_rewrite elem_of_cons. unfold concerns in *. split.
        -- intros [(? & ? & ?)|[? ?]]; [left; auto|right; split; [|done]]. intros [->|?]; auto.
        -- intros [([->|?] & -> & ?)|[? ?]]; [done|left; auto|right; auto].
      * rewrite Hq. setoid_rewrite elem_of_cons. unfold concerns. split; [intros [?|(k & ? & ?)]; eauto|].
        intros [?|(k & [->|?] & ?)]; eauto.
    + injection E as <- <-. set (w1 := {| pending := _; armed := _; watched := _ |}). destruct (IH w1 (true || q)) as (Ha & Hw & Hp & Hq).
      rewrite Ha, Hw. split_and!; [done..| |].
      * intros k m. rewrite Hp. setoid_rewrite elem_of_cons. cbn [pending w1]. rewrite lookup_insert_Some. split.
        -- intros [(? & -> & ?)|[Hn [[<- <-]|[Hne ?]]]]; [left; auto|left; split_and!; auto; by rewrite Ef|]. right. split; [|done].
           intros [->|?]; [done|auto].
        -- intros [(Hk & -> & Hne)|[Hn ?]].
           ++ destruct (decide (k ∈ files)); [by left|]. right. split; [done|]. destruct Hk as [->|?]; [|done]. left. auto.
           ++ right. split; [auto|]. right. split; [|done]. intros ->. specialize (Hn (or_introl eq_refl)). congruence.
      * rewrite Hq. setoid_rewrite elem_of_cons. split; [|auto]. intros _. right. exists f. split; [auto|]. unfold concerns. by rewrite Ef.
Qed.

Lemma step_event w name create root :
  let w' := (step w (FsEvent name create root)).1 in
  let files := reported (FsEvent name create root) in
  (step w (FsEvent name create root)).2 = [] /\
  watched w' = watched w ++ (created Add repoPath paths name create root).1 /\
  (forall k m, pending w' !! k = Some m <-> (k ∈ files /\ m = classify k /\ m <> []) \/ ((k ∈ files -> classify k = []) /\ pending w !! k = Some m)) /\
  (armed w' = true <-> armed w = true \/ exists k, k ∈ files /\ concerns k).
Proof.
  cbn zeta. set (files := reported _). unfold Watcher.step.
  assert (enqueue_all (created Add repoPath paths name create root).2 (enqueue PathMatch repoPath paths name w) = enqueue_all files (w, false)) as ->.
  { unfold files, reported, Watcher.enqueue_all. cbn [foldl fst snd]. destruct (enqueue _ _ _ name w) as [w1 q]. by rewrite orb_false_r. }
  destruct (enqueue_all_spec files w false) as (Ha & Hw & Hp & Hq). destruct (enqueue_all files (w, false)) as [w1 q]. cbn [fst snd] in *.
  cbn [pending armed watched]. rewrite Hw. split_and!; [done..|]. rewrite orb_true_iff, Hq, Ha. split; [intros [?|[?|?]]; auto; done|intros [?|?]; auto].
Qed.

(** what is pending inside a window *)
Definition in_window (l : list input) (w : Watcher) : Prop :=
  (forall k m, pending w !! k = Some m <-> m = classify k /\ m <> [] /\ exists i, i ∈ l /\ k ∈ reported i) /\
  (armed w = true <-> exists i k, i ∈ l /\ k ∈ reported i /\ concerns k).

Lemma window_step l w i : i <> Tick -> in_window l w -> in_window (l ++ [i]) (step w i).1.
Proof.
  intros Hi [Hp Ha].
  assert (Hsame : reported i = [] -> forall k, (exists j, j ∈ l ++ [i] /\ k ∈ reported j) <-> (exists j, j ∈ l /\ k ∈ reported j)).
  { intros Hn k. setoid_rewrite elem_of_app. split; [|intros (j & ? & ?); eauto].
    intros (j & [?| ->%list_elem_of_singleton] & Hk); [eauto|]. rewrite Hn in Hk. by apply not_elem_of_nil in Hk. }
  destruct i as [name create root| |]; [|split|done].
  - destruct (step_event w name create root) as (_ & _ & Hp' & Ha'). set (i := FsEvent name create root) in *. split.
    + intros k m. rewrite Hp', Hp. setoid_rewrite elem_of_app. split.
      * intros [(Hk & -> & Hne)|(Hn & -> & Hne & j & Hj & Hk)]; split_and!; try done; [exists i|exists j]; split; auto. right. by left.
      * intros (-> & Hne & j & Hj & Hk). destruct (decide (k ∈ reported i)); [left; auto|]. right. split; [done|].
        split_and!; [done..|]. exists j. destruct Hj as [?| ->%list_elem_of_singleton]; [auto|done].
    + rewrite Ha', Ha. setoid_rewrite elem_of_app. split.
      * intros [(j & k & Hj & Hk & Hc)|(k & Hk & Hc)]; [exists j, k; auto|]. exists i, k. split_and!; try done. right. by left.
      * intros (j & k & [Hj| ->%list_elem_of_singleton] & Hk & Hc); [left; eauto|right; eauto].
  - intros k m. rewrite (Hsame eq_refl). apply Hp.
  - cbn [Watcher.step fst]. rewrite Ha. setoid_rewrite elem_of_app. split; [intros (j & k & ? & ? & ?); exists j, k; auto|].
    intros (j & k & [?| ->%list_elem_of_singleton] & Hk & Hc); [exists j, k; auto|by apply not_elem_of_nil in Hk].
Qed.

Lemma window_steps l l0 w : Tick ∉ l -> in_window l0 w -> in_window (l0 ++ l) (foldl (fun w i => (step w i).1) w l).
Proof.
  revert l0 w. induction l as [|i l IH]; intros l0 w Hn Hw; [by rewrite app_nil_r|]. cbn [foldl].
  apply not_elem_of_cons in Hn as [Hi Hn]. rewrite (cons_middle i l0 l), app_assoc. apply IH; [done|]. apply window_step; [done|exact Hw].
Qed.

(** C0_window_exact: from a state in which nothing is pending, the timer is
    armed as soon as an event or a file found in a new directory concerns a
    database, and not before; when it fires, each path that was reported since
    and concerns a database is dispatched once, in the order of the paths, with
    the databases it concerns, nothing else is, and the watcher is in such a
    state again.  No event is lost and none is dispatched twice. *)
Theorem window_exact w l (Hempty : pending w = ∅ /\ armed w = false) (Hticks : Tick ∉ l) :
  let w' := foldl (fun w i => (step w i).1) w l in
  let r := step w' Tick in
  (armed w' = true <-> exists i k, i ∈ l /\ k ∈ reported i /\ concerns k) /\
  (forall k m, (k, m) ∈ r.2 <-> m = classify k /\ m <> [] /\ exists i, i ∈ l /\ k ∈ reported i) /\
  NoDup r.2.*1 /\ StronglySorted String.le r.2.*1 /\ pending r.1 = ∅ /\ armed r.1 = false.
Proof.
  destruct Hempty as [Hp0 Ha0]. cbn zeta.
  assert (Hw : in_window [] w).
  { split; [intros k m; rewrite Hp0, lookup_empty; split; [done|by intros (_ & _ & i & ?%not_elem_of_nil & _)]|].
    rewrite Ha0. split; [done|by intros (i & k & ?%not_elem_of_nil & _)]. }
  pose proof (window_steps l [] w Hticks Hw) as [Hp Ha]. cbn [app] in Hp, Ha. set (w' := foldl _ _ _) in *. split; [exact Ha|].
  cbn [Watcher.step]. destruct (armed w') eqn:Earm.
  - unfold flush. cbn [fst snd pending armed]. set (keys := merge_sort _ _).
    assert (Hkeys : forall k, k ∈ keys <-> k ∈ dom (pending w')) by (intros k; unfold keys; by rewrite merge_sort_Permutation, elem_of_elements).
    assert (Hfst : (map (fun k => (k, default [] (pending w' !! k))) keys).*1 = keys).
    { change (map fst (map (fun k => (k, default [] (pending w' !! k))) keys) = keys). rewrite map_map. apply map_id. }
    rewrite Hfst. split_and!; [|unfold keys; rewrite merge_sort_Permutation; apply NoDup_elements|apply (StronglySorted_merge_sort _)|done..].
    intros k m. rewrite <- Hp. rewrite list_elem_of_fmap. setoid_rewrite Hkeys. setoid_rewrite elem_of_dom. split.
    + intros (k' & [= -> ->] & [m' Hm']). by rewrite Hm'.
    + intros Hm. exists k. by rewrite Hm.
  - cbn [fst snd]. assert (Hnone : pending w' = ∅).
    { apply map_empty. intros k. destruct (pending w' !! k) as [m|] eqn:Em; [|done]. exfalso.
      apply Hp in Em as (-> & Hne & i & Hi & Hk). enough (false = true) by done. apply Ha. by exists i, k. }
    split_and!; [|constructor|constructor|done..]. intros k m. rewrite <- Hp, Hnone, lookup_empty. by split; [intros ?%not_elem_of_nil|].
Qed.
End Window.

(** C0_debounce_bounds: whatever 64-bit number is configured, the window is
    positive and fits: it is the configured number of milliseconds, half a
    second for none, or the longest one there is. *)
Theorem debounce_bounds ms (Hms : (0 <= ms < 2 ^ 64)%Z) :
  (1000000 <= debounce ms < 2 ^ 63)%Z /\
  debounce ms = (if ms =? 0 then 500000000 else Z.min ms 9223372036854 * 1000000)%Z.
Proof.
  assert (Hi : forall z, (0 <= z < 2 ^ 63)%Z -> int64 z = z) by (intros z Hz; unfold int64; rewrite Z.mod_small; lia).
  assert (debounce ms = (if ms =? 0 then 500000000 else Z.min ms 9223372036854 * 1000000)%Z) as ->; [|split; [destruct (Z.eqb_spec ms 0); lia|done]].
  unfold debounce. change maxDebounceMs with 9223372036854%Z.
  assert ((if (9223372036854 <? ms)%Z then 9223372036854%Z else ms) = Z.min ms 9223372036854) as ->
    by (destruct (Z.ltb_spec 9223372036854 ms); lia).
  rewrite (Hi (Z.min _ _)), Hi by lia. destruct (Z.eqb_spec ms 0) as [->|]; [done|].
  destruct (Z.eqb_spec (Z.min ms 9223372036854 * 1000000) 0); [lia|done].
Qed.

(** ** Properties: directories that appear *)
Section Appear.
Context (PathMatch : string -> string -> bool) (Hlaw : glob_law PathMatch) (Add : string -> bool).
Context (repo : list string) (paths : list WatcherPath) (p : WatcherPath).
Context (Hrepo : Forall clean_element repo) (Hp : p ∈ paths) (Hg : has_byte "\" (Glob p) = false).

(** C0_created_subtree_queued: when a directory appears with everything in it,
    a file that an input's glob matches is queued although its own event was
    missed, the timer is armed, and its directory is watched from then on,
    unless a directory between the new one and the file has the name of a
    noise directory. *)
Theorem created_subtree_queued w root l s x m
    (Hl : Forall clean_element (l ++ s ++ [x])) (Hm : PathMatch (Glob p) (join "/" (l ++ s ++ [x])) = true)
    (Hfile : find_node root (repo ++ l ++ s ++ [x]) = Some m /\ forall es, m <> Folder es)
    (Hnoise : Forall (fun d => noisy d = false) s) :
  let w' := (step PathMatch Add (path_of repo) paths w (FsEvent (path_of (repo ++ l)) true root)).1 in
  pending w' !! path_of (repo ++ l ++ s ++ [x]) = Some (classify PathMatch (path_of repo) paths (path_of (repo ++ l ++ s ++ [x]))) /\
  armed w' = true /\ (Add (path_of (repo ++ l ++ s)) = true -> path_of (repo ++ l ++ s) ∈ watched w').
Proof using Hlaw Hrepo Hp Hg.
  destruct Hfile as [Hfind Hplain]. cbn zeta.
  destruct (step_event PathMatch Add (path_of repo) paths w (path_of (repo ++ l)) true root) as (_ & Hw & Hpend & Harm).
  assert (Hc : classify PathMatch (path_of repo) paths (path_of (repo ++ l ++ s ++ [x])) <> []).
  { apply (classify_nonempty _ _ _ p); [done|]. rewrite Rel_own by done. by destruct l, s. }
  pose proof Hfind as Hfind'. rewrite (app_assoc repo l) in Hfind'. pose proof Hl as [Hl1 _]%Forall_app.
  assert (Hel : path_elements (path_of (repo ++ l)) = repo ++ l) by (apply path_elements_of; by apply Forall_app).
  assert (Hcr : created Add (path_of repo) paths (path_of (repo ++ l)) true root = subscribe Add (path_of repo) paths root (repo ++ l)).
  { unfold created. rewrite Hel. by rewrite (folder_above _ _ _ _ Hfind') by (left; by destruct s). }
  apply find_app in Hfind' as (n & Hn & Hnm).
  assert (Henter : forall s', s' `prefix_of` s -> enters paths (if bool_decide (s' = []) then true else false) (l ++ s')).
  { intros s' Hs'. by apply (enters_to_match PathMatch Hlaw paths p Hp Hg l s s' x). }
  assert (Hin : path_of (repo ++ l ++ s ++ [x]) ∈ reported Add (path_of repo) paths (FsEvent (path_of (repo ++ l)) true root)).
  { cbn [reported]. rewrite Hcr. right. unfold subscribe. rewrite Hn. by apply walk_file with (m := m). }
  split_and!.
  - apply Hpend. left. auto.
  - apply Harm. right. by exists (path_of (repo ++ l ++ s ++ [x])).
  - intros Ha. rewrite Hw, Hcr. apply elem_of_app. right. unfold subscribe. rewrite Hn.
    assert (Hes : exists es, find_node n s = Some (Folder es)).
    { apply find_app in Hnm as (m' & Hs & Hx). destruct m'; [done..|by eexists]. }
    destruct Hes as [es Hes]. eapply walk_dir; try done. rewrite app_assoc in Hl. by apply Forall_app in Hl as [? _].
Qed.
End Appear.

(** ** On concrete trees *)
(** a matcher for globs with at most one run of stars at which anything may
    stand *)
Fixpoint after_meta (glob : string) : string :=
  match glob with
  | EmptyString => EmptyString
  | String c glob => if str_any is_meta glob then after_meta glob else if is_meta c then glob else after_meta glob
  end.
Definition demo_match (glob rel : string) : bool :=
  if str_any is_meta glob then has_prefix (before_meta glob) rel && has_suffix (after_meta glob) rel else String.eqb glob rel.

Lemma demo_match_law : glob_law demo_match.
Proof.
  split; unfold demo_match; intros g q _; [intros ->; by intros ->%String.eqb_eq|].
  destruct (str_any is_meta g) eqn:Em; [by intros [? _]%andb_true_iff|]. intros ->%String.eqb_eq.
  apply has_prefix_app. exists "". rewrite str_app_nil_r. induction q as [|c q IH]; [done|]. cbn in Em.
  apply orb_false_iff in Em as [Hc Hq]. cbn [before_meta]. by rewrite Hc, <- IH.
Qed.

Definition demo_paths : list WatcherPath :=
  [{| Glob := "db/**/*.sql"; Label := "all"; DBIndex := 0 |}; {| Glob := "db/seed.sql"; Label := "seed"; DBIndex := 0 |};
   {| Glob := "composer.lock"; Label := "lock"; DBIndex := 1 |}; {| Glob := "db/seed.sql"; Label := "dump"; DBIndex := 2 |}].
Definition demo_tree : Node :=
  Folder [("r", Folder [("db", Folder [("m", Folder [("1.sql", Plain); ("build", Folder [("2.sql", Plain)])]); ("seed.sql", Plain)]);
                        ("composer.lock", Plain); ("vendor", Folder [])])].
Definition any_dir (_ : string) : bool := true.

Example label_is_the_first_match :
  classify demo_match "/r" demo_paths "/r/db/seed.sql" = [{| mIndex := 0; mLabel := "all" |}; {| mIndex := 2; mLabel := "dump" |}].
Proof. vm_compute. reflexivity. Qed.

(** the root of a glob that is there at the start is watched, and not the
    directory that holds it: when a checkout removes it, and another brings it
    back, its watch is gone and nobody is told *)
Example recreated_root_unseen :
  let sql := [{| Glob := "services/foo/migrations/*.sql"; Label := ""; DBIndex := 0 |}] in
  let tree es := Folder [("r", Folder [("services", Folder [("foo", Folder es)])])] in
  addAllDirs any_dir "/r" sql (tree [("migrations", Folder [])]) = ["/r/services/foo/migrations"] /\
  addAllDirs any_dir "/r" sql (tree []) = ["/r/services/foo"].
Proof. split; vm_compute; reflexivity. Qed.

(** a root that is a link is taken for a directory when it is looked for, and
    not when it is walked: nothing is watched *)
Example linked_root_unwatched :
  addAllDirs any_dir "/r" [{| Glob := "migrations/*.sql"; Label := ""; DBIndex := 0 |}]
    (Folder [("r", Folder [("migrations", Link (Folder [("1.sql", Plain)]))])]) = [].
Proof. vm_compute. reflexivity. Qed.

Ltac clean_list := repeat (apply Forall_cons; split; [done|]); apply Forall_nil; done.


Lemma window_exact_witness :
  let w := {| pending := ∅; armed := false; watched := ["/r/db"; "/r"] |} in
  let l := [FsEvent "/r/db/m" true demo_tree; FsEvent "/r/README" false demo_tree; FsError; FsEvent "/r/composer.lock" false demo_tree] in
  let r := step demo_match any_dir "/r" demo_paths (foldl (fun w i => (step demo_match any_dir "/r" demo_paths w i).1) w l) Tick in
  r.2.*1 = ["/r/composer.lock"; "/r/db/m/1.sql"] /\ NoDup r.2.*1 /\ pending r.1 = ∅.
Proof.
  split; [vm_compute; reflexivity|].
  destruct (window_exact demo_match any_dir "/r" demo_paths {| pending := ∅; armed := false; watched := ["/r/db"; "/r"] |}
    [FsEvent "/r/db/m" true demo_tree; FsEvent "/r/README" false demo_tree; FsError; FsEvent "/r/composer.lock" false demo_tree]
    (conj eq_refl eq_refl)) as (_ & _ & Hnd & _ & Hp & _); [|exact (conj Hnd Hp)].
  rewrite !not_elem_of_cons. split_and!; try discriminate. apply not_elem_of_nil.
Defined.

Lemma created_subtree_queued_witness :
  let w := {| pending := ∅; armed := false; watched := ["/r/db"] |} in
  let w' := (step demo_match any_dir "/r" demo_paths w (FsEvent "/r/db" true demo_tree)).1 in
  dom (pending w') = {["/r/db/m/1.sql"; "/r/db/seed.sql"]} /\
  pending w' !! "/r/db/m/1.sql" = Some (classify demo_match "/r" demo_paths "/r/db/m/1.sql") /\
  armed w' = true /\ (any_dir "/r/db/m" = true -> "/r/db/m" ∈ watched w').
Proof.
  split; [vm_compute; reflexivity|].
  refine (created_subtree_queued demo_match demo_match_law any_dir ["r"] demo_paths {| Glob := "db/**/*.sql"; Label := "all"; DBIndex := 0 |}
    _ _ _ {| pending := ∅; armed := false; watched := ["/r/db"] |} demo_tree ["db"] ["m"] "1.sql" Plain _ _ _ _).
  - clean_list.
  - by left.
  - reflexivity.
  - clean_list.
  - vm_compute. reflexivity.
  - split; [vm_compute; reflexivity|discriminate].
  - clean_list.
Defined.

Lemma classify_exact_witness :
  StronglySorted lt (map mIndex (classify demo_match "/r" demo_paths "/r/db/seed.sql")) /\
  NoDup (map mIndex (classify demo_match "/r" demo_paths "/r/db/seed.sql")).
Proof.
  destruct (classify_exact demo_match "/r" demo_paths "/r/db/seed.sql") as (_ & Hn & Hs). split; [apply Hs|exact Hn].
  repeat (constructor; cbn; try lia).
Defined.

Lemma debounce_bounds_witness :
  debounce 250 = 250000000%Z /\ (1000000 <= debounce (2 ^ 64 - 1) < 2 ^ 63)%Z.
Proof. split; [vm_compute; reflexivity|]. refine (proj1 (debounce_bounds (2 ^ 64 - 1) _)). lia. Defined.
